(* ===== verification/_CoqProject ===== *)
-Q . S2P
Prelude.v
Buffers.v
Ctype.v
StringBuf.v
StringBufFacts.v
OutStream.v
Base64.v
Base64Facts.v
Encode.v
Delta.v
DeltaFacts.v
Xdelta.v
XdeltaFacts.v
DeltaStreamFacts.v
Compose.v
ComposeCopyFacts.v
ComposeFacts.v
Compress.v
Svndiff.v
SvndiffFacts.v
SvndiffStreamFacts.v
SvndiffReadFacts.v
DeltaTheorems.v
CString.v
Strings.v
Subsequence.v
StringsFacts.v
StringTheorems.v
Quoprint.v
QuoprintFacts.v
EncoderTheorems.v
Rangelist.v
RangelistMerge.v
RangelistSem.v
RangelistMergeFacts.v
RangelistText.v
RangelistTheorems.v
Paths.v
PathFacts.v
PathLib.v
PathLibFacts.v
PathTheorems.v
Hash.v
HashDump.v
HashDumpTheorems.v
Skel.v
SkelTheorems.v
Mergeinfo.v
MergeinfoTheorems.v
Sorts.v
SortsTheorems.v
Utf8.v
Utf8Theorems.v
Uri.v
UriTheorems.v
Adler32.v
DiffNormalize.v
DiffToken.v
DiffTokenFacts.v
DiffLcs.v
DiffHeap.v
DiffSnakeFacts.v
DiffLcsFacts.v
Diff.v
DiffFacts.v
DiffMemory.v
DiffMemoryFacts.v
DiffUnified.v
DiffUnifiedFacts.v
DiffTheorems.v
PropDiff.v
Diff3.v
Diff3Facts.v
Diff3Walk.v
Diff3Spec.v
DiffMerge.v
DiffMergeFacts.v
MergeTheorems.v
Curses.v
CursesTheorems.v
