(* ===== verification/Prelude.v ===== *)
(** * A verification of the core of svnCurses

    svnCurses is a terminal front end to Subversion; its repository carries the
    whole of Subversion under src/dependecies/subversion/subversion (written
    [SVN/] below) and the portability library APR.  This library models parts
    of the program as executable functions and proves what makes them correct.

    ** What is modelled

    Every part has a file (or several) with its data and operations, named as
    in the source, a file of facts, and a file of theorems, which are the
    properties of the part.

    - Text deltas (SVN/libsvn_delta): windows, their instructions and the
      streams they are applied to, [Delta] (text_delta.c); the computation of
      deltas and the streams that produce windows, [Xdelta] (xdelta.c,
      text_delta.c); the composition of windows, [Compose] (compose_delta.c);
      the svndiff format, [Svndiff] (svndiff.c), with variable-length integers,
      [Encode] (libsvn_subr/encode.c), and compressed sections, [Compress]
      (compress_zlib.c, compress_lz4.c).  [Buffers] has byte buffers and the
      comparison of buffers by machine words (string.c).  [DeltaFacts] says
      what instructions mean ([window_sem], [window_ok]); [XdeltaFacts],
      [DeltaStreamFacts], [ComposeCopyFacts], [ComposeFacts], [SvndiffFacts],
      [SvndiffStreamFacts] and [SvndiffReadFacts] build on it; the theorems are
      in [DeltaTheorems].
    - Mergeinfo (SVN/libsvn_subr/mergeinfo.c): rangelists, [Rangelist] and
      [RangelistMerge]; their text, [RangelistText]; whole mergeinfo and
      catalogs, [Mergeinfo].  [RangelistSem] gives a rangelist its meaning: how
      every revision is recorded.  Facts: [RangelistMergeFacts];
      theorems: [RangelistTheorems], [MergeinfoTheorems].
    - Paths (SVN/libsvn_subr/dirent_uri.c, path.c): [Paths] and [PathLib];
      facts: [PathFacts] (a relpath is its list of segments), [PathLibFacts];
      theorems: [PathTheorems].  Absolute dirents are in [Uri], with
      apr_filepath_merge (apr/file_io/unix/filepath.c) and the conversion of C
      strings (utf.c).
    - URIs (SVN/libsvn_subr/dirent_uri.c): [Uri]; in [UriTheorems] a URI is a
      record of its parts ([uri_of]), of which [canon_parts] is the canonical
      form.
    - Numbers as strings (SVN/libsvn_subr/string.c, types.c): [CString].
    - Hash tables (SVN/libsvn_subr/hash.c, sorts.c): [Hash], finite maps with an
      arbitrary order of iteration (class [HashOrder]); their dumps and the
      hash function, [HashDump] (also stream.c, io.c, types.c), theorems in
      [HashDumpTheorems].
    - Sorted arrays and priority queues (SVN/libsvn_subr/sorts.c): [Sorts];
      [SortsTheorems].
    - Classes of characters (SVN/libsvn_subr/ctype.c): [Ctype].
    - String buffers (SVN/libsvn_subr/string.c): [StringBuf], blocks of memory
      that grow; [StringBufFacts] relates them to strings ([holds]).
    - C strings (SVN/libsvn_subr/string.c): [Strings]; [StringsFacts]; the
      theorems on numbers, buffers and strings are in [StringTheorems].
    - Skels (SVN/libsvn_subr/skel.c): [Skel], [SkelTheorems].
    - Base64 and quoted-printable (SVN/libsvn_subr/base64.c, quoprint.c):
      [Base64], [Base64Facts]; [Quoprint], [QuoprintFacts]; [OutStream] has the
      stream they write to; theorems: [EncoderTheorems].
    - Differences (SVN/libsvn_diff): the tokens of a data source and the trees
      that number them, [DiffToken] (token.c, diff.h); the longest common
      subsequence, [DiffLcs] (lcs.c); differences, [Diff] (diff.c, util.c).  A
      data source is a record of functions with the laws [DiffFnsLaws] of
      [DiffTokenFacts].  [Subsequence] says what a longest common subsequence
      is; [DiffHeap] has the invariant of the reference-counted chains of
      matches, [DiffSnakeFacts] and [DiffLcsFacts] have the algorithm and the
      paths that it looks for, [DiffFacts] what is around it, with [is_diff],
      the specification of differences.
    - Differences of strings (SVN/libsvn_diff/diff_memory.c, util.c,
      SVN/libsvn_subr/adler32.c): normalization of lines, [DiffNormalize];
      checksums of lines, [Adler32]; strings as a data source, [DiffMemory],
      [DiffMemoryFacts]; unified diffs, [DiffUnified], [DiffUnifiedFacts], with
      [apply_hunks], which says what hunks mean.  The theorems on differences
      are in [DiffTheorems].
    - Differences of properties (SVN/libsvn_diff/util.c): [PropDiff], with its
      theorem.
    - Merges (SVN/libsvn_diff/diff3.c, diff4.c, diff_memory.c): differences of
      three and four sources, [Diff3]; the text of merges and of conflicts,
      [DiffMerge].  [Diff3Facts] has the resolution of conflicts in rings cut
      out of the position lists, [Diff3Walk] the walk along both lists of
      matches and [is_diff3], the specification of three-way differences,
      [Diff3Spec] the whole function; [DiffMergeFacts] says what a merge of
      lines is ([merges]) and how it is displayed ([render]); theorems:
      [MergeTheorems].
    - UTF-8 validation (SVN/libsvn_subr/utf_validate.c): [Utf8],
      [Utf8Theorems].
    - The front end (src/src/svn_curses.cpp, state.cpp): [Curses], its state
      record, the handlers of the keys and the loop of [main]; the
      theorems are in [CursesTheorems].

    How the parts use each other: [Mergeinfo] calls the rangelists, the paths
    (canonical names) and the hash tables; the parser of mergeinfo uses the
    parser of revision numbers in [CString]; [Svndiff] writes and parses the
    windows of [Delta] through [Encode] and [Compress]; [Xdelta] builds windows
    with the operations of [Delta] and hands them to a handler, which the
    theorems take to be the encoder of [Svndiff], whose output its parser hands
    to [apply_window] of [Delta]: [DeltaTheorems.delta_over_svndiff] is about
    this whole chain.  Skels, base64 and quoted-printable write into the string
    buffers of [StringBuf], whose growth the fast paths of base64 rely on, and
    property lists go through skels to hash tables and back.  The differences
    of [Diff] are proved correct for every lawful data source; [DiffMemory]
    implements one with the lines that [DiffNormalize] and [Adler32] make of
    strings, and [DiffUnified] writes what [Diff] makes of it.  [Diff3] uses the token
    trees, the longest common subsequences and the position lists of [Diff], and
    [DiffMerge] is handed its chunks by the same function as [DiffUnified].

    ** Conventions

    A C string is the list of its characters without the terminating NUL, a
    buffer the list of its bytes, a character a number from 0 to 255.  Machine
    integers are [Z], with [u8], [u32], [u64], [s32] and [s64] where the code
    wraps around; [apr_size_t] has 64 bits.  A function that returns an
    [svn_error_t *] has a [result]; [C_ABORT] is a failed [assert],
    [C_UNDEFINED] undefined behaviour of C, such as reading outside a buffer,
    and theorems show that neither happens.  A loop that is not structural has
    fuel, and [OUT_OF_FUEL] when it is used up; the fuel is the length of the
    data or the number of elements that are left, and the theorems that give
    the result of an operation show that it is enough.  Objects that the code
    modifies are passed in and returned.  Pools and the freeing of memory are
    left out.

    Parameters of the model are the parts of other programs that the code
    calls: the order in which APR iterates over a hash table (class
    [HashOrder]), what fresh memory contains (class [Allocator]; the
    tokens of the sentinels in diff3.c), zlib
    and LZ4 ([Zlib], [Lz4], with the laws [ZlibLaws], [Lz4Laws] that
    decompression undoes compression; zlib's [adler32]), the conversion of
    headers to another encoding, the working directory and the converters of
    apr_xlate ([Native], with the law [Utf8Locale] of a UTF-8 locale), comparison
    functions
    ([CompareFunc], which [compare_ranges_func] implements), Boost's string
    functions ([BoostStrings]), and the handlers of windows, which are
    functions on a state.  Every class has a concrete instance with which
    theorems are applied.

    ** What the theorems show

    - [DeltaTheorems]: a delta that is computed, encoded, sent in any pieces,
      parsed and applied gives back the target; composing windows composes what
      they mean; computing a window describes the target; the invariant of
      applying windows whose views slide forward; pushing a target in pieces;
      the hash table of blocks and the rolling checksum; the parser: the same
      in any pieces, only valid windows, prompt delivery, termination, errors
      at the end; reading, skipping and measuring single windows; the stream
      that encodes on demand; variable-length integers.
    - [RangelistTheorems], [MergeinfoTheorems]: merging is union, intersection
      and difference are those of sets of revisions, canonical forms are
      unique, texts are read back, parsing accepts only what it should.
    - [PathTheorems]: canonical forms, joining, splitting and comparing of paths,
      URI encoding, names in certificates.
    - [UriTheorems]: the canonical form of a URI with well-formed parts, which
      the test accepts; parents and ancestors; absolute dirents and the URLs of
      files, in a UTF-8 locale.
    - [StringTheorems]: conversions of numbers and their bounds; operations on string buffers stay inside their blocks and
      refine functions on strings, whatever fresh memory contains; replacing
      text; similarity as the length of a longest common subsequence; splitting
      and joining; reading numbers.
    - [SkelTheorems], [EncoderTheorems]: what is written is
      read back, in any pieces, and the buffers have the room that was
      estimated; parsing skels terminates on every text.
    - [DiffTheorems]: differences cover both sources, patch each to the other,
      and leave as much in common as possible, for every lawful data source and
      so for strings with all options; the hunks of unified diffs turn the
      original into the modified string; normalization as a plain definition;
      checksums without overflow.
    - [HashDumpTheorems]: hash dumps are read back, also incrementally, and do
      not depend on the order of the tables; [PropDiff]: changes of properties
      are shown in order, as hunks that are correct.
    - [MergeTheorems]: three-way differences are correct for every lawful data
      source; the text that is written is a merge of the lines (but for conflicts
      displayed alone, and resolved conflicts at a first line), and merging with
      an unchanged version gives the other one.
    - [SortsTheorems], [Utf8Theorems]: binary search whatever the hint, the heap
      as a refinement of an unordered collection; validation against the
      encoding form of the Unicode Standard.
    - [CursesTheorems]: the front end runs without undefined behaviour on inputs
      that fit the screen; examples show what happens on others.

    Examples beside the theorems show where the code does not do what it
    means to: [DeltaTheorems.empty_view_slides_back], [gap_between_views],
    [remove_copy_keeps_count], [empty_string_window];
    [RangelistTheorems.remove_inheritance_keeps] and others there;
    [PathTheorems.join_many_join_each] (the tenth component);
    [StringTheorems.replace_all_over_read], [replace_all_empty_text] and
    [ctype_utf8_lead]; [SkelTheorems.brackets_end_atoms], [atoms_without_space];
    [EncoderTheorems.quoprint_reads_behind], [quoprint_long_line];
    [MergeTheorems.resolved_part_misplaced], [diff4_adjusts_by_latest],
    [diff4_resolves_from_end], [near_conflicts_read_cleared_pool];
    [HashDumpTheorems.truncated_value], [truncated_key];
    [UriTheorems.port_leading_zero], [port_overflow], [port_without_host],
    [port_upper_case], [file_host_dirname];
    [CursesTheorems.clean_working_copy] and others there.

    ** What is not modelled

    Digests and cancelling along delta streams; the sharing of rangelists
    between hashes after a merge; drive letters; the functions that read files,
    run processes or talk to the network (effects of the operating system); the
    working copy, client, repository and protocol libraries, which are built on
    databases and files; SQLite, APR, zlib and LZ4 themselves; generated
    bindings, tests and translations.  The chunks of files that diff_file.c maps
    into memory, and white space in buffers that overlap with what is read, as
    it normalizes them, are not modelled.  The numbers of children of
    a skel and of elements of a heap, [int] in the code, do not overflow in the
    model.  Next would be the operations of configuration files. *)

From stdpp Require Export prelude gmap strings sorting.
From Stdlib Require Export ZArith Lia.
From Stdlib Require Import Strings.Byte Strings.Ascii.

#[export] Set Default Goal Selector "!".

(** ** Bytes and C characters

    A C [char] is its unsigned value in [0, 255], held in [Z]; a C string or a
    byte buffer is a [list Z].  The scope [cc] reads a one-character literal as
    its code, so that ["/"%cc] is the constant 47. *)

Notation bytes := (list Z).

Declare Scope cchar_scope.
Delimit Scope cchar_scope with cc.

Definition cchar_of_bytes (l : list Byte.byte) : option Z :=
  match l with [b] => Some (Z.of_N (Byte.to_N b)) | _ => None end.

Definition bytes_of_cchar (z : Z) : option (list Byte.byte) := None.

String Notation Z cchar_of_bytes bytes_of_cchar : cchar_scope.

(** The bytes of a string literal. *)
Definition cstr (s : string) : bytes :=
  map (fun a => Z.of_N (N_of_ascii a)) (String.list_ascii_of_string s).

Open Scope Z_scope.

(** The character a pointer into a NUL-terminated string points at: a pointer
    is the suffix of the string that starts there, and the terminator is read
    at its end. *)
Definition deref (p : bytes) : Z := default 0 (head p).

(** [s[i]] for a NUL-terminated string [s]. *)
Definition char_at (s : bytes) (i : nat) : Z := default 0 (s !! i).

(** The C string in a buffer: what stands in front of the first NUL. *)
Fixpoint c_str (s : bytes) : bytes :=
  match s with
  | [] => []
  | c :: s => if c =? 0 then [] else c :: c_str s
  end.

Lemma c_str_plain s : 0 ∉ s -> c_str s = s.
Proof.
  induction s as [|c s IH]; intros H; [done|]. apply not_elem_of_cons in H as [H0 H]. cbn [c_str].
  rewrite (proj2 (Z.eqb_neq c 0)) by done. by rewrite IH.
Qed.

(** ** Errors *)

(** The error codes (and the two ways of not returning at all) that the
    modelled functions can produce. *)
Inductive svn_errcode :=
  | SVN_ERR_ASSERTION_FAIL
  | SVN_ERR_MERGEINFO_PARSE_ERROR
  | SVN_ERR_REVNUM_PARSE_FAILURE
  | SVN_ERR_CANONICALIZATION_FAILED
  | SVN_ERR_SVNDIFF_INVALID_HEADER
  | SVN_ERR_SVNDIFF_CORRUPT_WINDOW
  | SVN_ERR_SVNDIFF_BACKWARD_VIEW
  | SVN_ERR_SVNDIFF_UNEXPECTED_END
  | SVN_ERR_SVNDIFF_INVALID_OPS
  | SVN_ERR_SVNDIFF_INVALID_COMPRESSED_DATA
  | SVN_ERR_BAD_COMPRESSION_METHOD
  | SVN_ERR_STREAM_MALFORMED_DATA
  | SVN_ERR_LZ4_COMPRESSION_FAILED
  | SVN_ERR_LZ4_DECOMPRESSION_FAILED
  | SVN_ERR_INCOMPLETE_DATA
  | SVN_ERR_INCORRECT_PARAMS
  | SVN_ERR_MALFORMED_FILE
  | SVN_ERR_FS_MALFORMED_SKEL
  | SVN_ERR_RA_ILLEGAL_URL
  | SVN_ERR_BAD_FILENAME
  | APR_EOF
  | APR_EINVAL
  | APR_ENAMETOOLONG
  | APR_EABOVEROOT
  | APR_EABSOLUTE
  | APR_ERELATIVE
  | C_ABORT            (** [assert] or [abort] stops the process *)
  | C_UNDEFINED        (** the C program would have undefined behaviour *)
  | OUT_OF_FUEL.       (** an artefact of the model; theorems rule it out *)

#[export] Instance svn_errcode_eq_dec : EqDecision svn_errcode.
Proof. solve_decision. Defined.

(** A function that returns [svn_error_t *] and an output parameter. *)
Inductive result (A : Type) :=
  | Ok (a : A)
  | Err (e : svn_errcode).
Arguments Ok {A} a.
Arguments Err {A} e.

#[export] Instance result_ret : MRet result := fun A a => Ok a.
#[export] Instance result_bind : MBind result := fun A B f x =>
  match x with Ok a => f a | Err e => Err e end.
#[export] Instance result_map : FMap result := fun A B f x =>
  match x with Ok a => Ok (f a) | Err e => Err e end.

Definition is_ok {A} (x : result A) : bool :=
  match x with Ok _ => true | Err _ => false end.

(** [SVN_ERR_ASSERT] with the handler that turns a failed assertion into an
    error; [SVN_ERR_ASSERT_NO_RETURN] and [assert] stop the process. *)
Definition svn_err_assert (b : bool) : result unit :=
  if b then Ok () else Err SVN_ERR_ASSERTION_FAIL.

Definition c_assert (b : bool) : result unit :=
  if b then Ok () else Err C_ABORT.

Lemma bind_Ok {A B} (x : result A) (f : A -> result B) b :
  x ≫= f = Ok b <-> exists a, x = Ok a /\ f a = Ok b.
Proof. destruct x; simpl; naive_solver. Qed.

Lemma svn_err_assert_Ok b u : svn_err_assert b = Ok u <-> b = true.
Proof. destruct u, b; simpl; naive_solver. Qed.

Lemma c_assert_Ok b u : c_assert b = Ok u -> b = true.
Proof. by destruct b. Qed.

(** Assertions that hold. *)
Lemma c_assert_true b : b = true -> c_assert b = Ok ().
Proof. by intros ->. Qed.

Lemma c_assert_le a b : a <= b -> c_assert (a <=? b) = Ok ().
Proof. intros. by apply c_assert_true, Z.leb_le. Qed.

Lemma c_assert_lt a b : a < b -> c_assert (a <? b) = Ok ().
Proof. intros. by apply c_assert_true, Z.ltb_lt. Qed.

Lemma c_assert_eq a b : a = b -> c_assert (a =? b) = Ok ().
Proof. intros. by apply c_assert_true, Z.eqb_eq. Qed.

Lemma svn_err_assert_true b : b = true -> svn_err_assert b = Ok ().
Proof. by intros ->. Qed.

(** ** Machine integers *)

Definition u8 (z : Z) : Z := z mod 2 ^ 8.
Definition u32 (z : Z) : Z := z mod 2 ^ 32.
Definition u64 (z : Z) : Z := z mod 2 ^ 64.

(** Conversion to a signed 32-bit integer (two's complement). *)
Definition s32 (z : Z) : Z :=
  let m := z mod 2 ^ 32 in if m <? 2 ^ 31 then m else m - 2 ^ 32.

Definition APR_INT32_MAX : Z := 2 ^ 31 - 1.

Lemma u64_small z : 0 <= z < 2 ^ 64 -> u64 z = z.
Proof. apply Z.mod_small. Qed.

Lemma u32_small z : 0 <= z < 2 ^ 32 -> u32 z = z.
Proof. apply Z.mod_small. Qed.

(** Bit operations on disjoint fields. *)
Lemma lor_fields x y n : 0 <= n -> 0 <= y < 2 ^ n -> Z.lor (Z.shiftl x n) y = x * 2 ^ n + y.
Proof.
  intros Hn Hy. rewrite <- Z.shiftl_mul_pow2 by done. symmetry. apply Z.add_nocarry_lor.
  apply Z.bits_inj'. intros k Hk. rewrite Z.land_spec, Z.bits_0.
  destruct (Z.ltb_spec k n).
  - by rewrite Z.shiftl_spec_low.
  - rewrite <- (Z.mod_small y (2 ^ n)), Z.mod_pow2_bits_high by lia. apply andb_false_r.
Qed.

(** ** Automation *)

Create HintDb svn discriminated.

(** Turn the boolean comparisons of the code into propositions. *)
Lemma andb_iff b1 b2 : b1 && b2 = true <-> b1 = true /\ b2 = true.
Proof. apply andb_true_iff. Qed.

Ltac reflect_bools :=
  repeat match goal with
  | H : _ && _ = true |- _ => apply andb_true_iff in H as [? ?]
  | H : _ || _ = false |- _ => apply orb_false_iff in H as [? ?]
  | H : _ || _ = true |- _ => apply orb_true_iff in H
  | H : _ && _ = false |- _ => apply andb_false_iff in H
  | H : negb _ = true |- _ => apply negb_true_iff in H
  | H : negb _ = false |- _ => apply negb_false_iff in H
  | H : (_ =? _)%Z = true |- _ => apply Z.eqb_eq in H
  | H : (_ =? _)%Z = false |- _ => apply Z.eqb_neq in H
  | H : (_ <=? _)%Z = true |- _ => apply Z.leb_le in H
  | H : (_ <=? _)%Z = false |- _ => apply Z.leb_gt in H
  | H : (_ <? _)%Z = true |- _ => apply Z.ltb_lt in H
  | H : (_ <? _)%Z = false |- _ => apply Z.ltb_ge in H
  end.

(** Discharge a decidable ground proposition by evaluating it. *)
Ltac by_evaluation := refine (bool_decide_unpack _ _); vm_compute; exact I.

(** Case analysis on every test the goal still branches on. *)
Ltac split_ifs :=
  repeat match goal with
  | |- context [if ?b then _ else _] =>
      let E := fresh "E" in destruct b eqn:E; simpl
  end.

(** ** Lists *)

Lemma lookup_drop_cons {A} (l : list A) (i : nat) (x : A) :
  l !! i = Some x -> drop i l = x :: drop (S i) l.
Proof. intros. by erewrite drop_S. Qed.

Lemma last_snoc_inv {A} (l : list A) (x : A) :
  last l = Some x -> exists l', l = l' ++ [x].
Proof.
  intros H. destruct l as [|y l'] using rev_ind; [done|].
  rewrite last_snoc in H. simplify_eq. eauto.
Qed.

Lemma StronglySorted_weaken {A} (R S : A -> A -> Prop) (l : list A) :
  (forall x y, R x y -> S x y) -> StronglySorted R l -> StronglySorted S l.
Proof. intros H. induction 1; constructor; [done|]. eapply Forall_impl; eauto. Qed.

Lemma filter_all {A} (P : A -> Prop) `{!forall x, Decision (P x)} (l : list A) :
  Forall P l -> filter P l = l.
Proof. induction 1; [done|]. rewrite filter_cons_True by done. by f_equal. Qed.

(** ** Arithmetic with division by constants *)

Ltac dlia := Z.to_euclidean_division_equations; lia.

Lemma take_init {A} (l : list A) (x : A) : take (length (l ++ [x]) - 1) (l ++ [x]) = l.
Proof. rewrite length_app. simpl. rewrite Nat.add_sub. by rewrite take_app_length. Qed.

(** ** Propositions known to hold or to fail, for rewriting *)

Lemma prop_true {P : Prop} : P -> (P <-> True).
Proof. tauto. Qed.

Lemma prop_false {P : Prop} : ~ P -> (P <-> False).
Proof. tauto. Qed.
