(* ===== verification/Buffers.v ===== *)
(** * Buffers

    Byte buffers addressed by offset and length, as the delta library reads
    them: slices and their algebra, the byte-by-byte copy that a copy from the
    target means, and the two functions of libsvn_subr/string.c that compare
    the starts and the ends of buffers. *)

From S2P Require Import Prelude.

(** ** Slices *)

Definition zlen {A} (s : list A) : Z := Z.of_nat (length s).

(** [strcmp] of C strings, of which C promises the sign only. *)
Fixpoint strcmp (s1 s2 : bytes) : Z :=
  match s1, s2 with
  | [], [] => 0
  | [], _ => -1
  | _, [] => 1
  | c1 :: s1, c2 :: s2 => if c1 =? c2 then strcmp s1 s2 else if c1 <? c2 then -1 else 1
  end.

(** [memcmp], of which C promises the sign only. *)
Fixpoint memcmp (buf1 buf2 : bytes) : Z :=
  match buf1, buf2 with
  | b1 :: buf1, b2 :: buf2 => if b1 =? b2 then memcmp buf1 buf2 else if b1 <? b2 then -1 else 1
  | _, _ => 0
  end.

(** The [len] bytes of [s] from [off] on, as far as [s] reaches. *)
Definition slice {A} (s : list A) (off len : Z) : list A :=
  take (Z.to_nat len) (drop (Z.to_nat off) s).

Definition byte_at (s : bytes) (i : Z) : Z := default 0 (s !! Z.to_nat i).

Definition is_byte (c : Z) : Prop := 0 <= c < 256.

#[export] Instance is_byte_dec c : Decision (is_byte c).
Proof. unfold is_byte. solve_decision. Defined.

(** [memcpy] from a buffer: reading outside of it is undefined. *)
Definition memcpy_from (s : bytes) (off len : Z) : result bytes :=
  if (0 <=? off) && (0 <=? len) && (off + len <=? zlen s) then Ok (slice s off len)
  else Err C_UNDEFINED.

(** The alignment of memory by APR. *)
Definition APR_ALIGN_DEFAULT (size : Z) : Z := u64 (Z.land (u64 (size + 7)) (u64 (-8))).

(** Arithmetic on the lengths of composed lists. *)
Ltac zlen_lia :=
  unfold zlen in *; cbn [length app] in *;
  repeat (rewrite ?length_app, ?length_take, ?length_drop, ?length_replicate in *;
          cbn [length app] in *);
  lia.

Section Slices.
Context {A : Type}.
Implicit Types (s t : list A) (off len : Z).

Lemma zlen_nonneg s : 0 <= zlen s.
Proof. unfold zlen. lia. Qed.

Lemma zlen_app s t : zlen (s ++ t) = zlen s + zlen t.
Proof. unfold zlen. rewrite length_app. lia. Qed.

Lemma zlen_nil : zlen (@nil A) = 0.
Proof. done. Qed.

Lemma zlen_cons x s : zlen (x :: s) = 1 + zlen s.
Proof. unfold zlen. simpl. lia. Qed.

Lemma zlen_zero s : zlen s = 0 -> s = [].
Proof. unfold zlen. destruct s; simpl; [done|lia]. Qed.

Lemma zlen_slice s off len :
  0 <= off -> 0 <= len -> off + len <= zlen s -> zlen (slice s off len) = len.
Proof. unfold zlen, slice. rewrite length_take, length_drop. lia. Qed.

Lemma slice_full s : slice s 0 (zlen s) = s.
Proof. unfold slice, zlen. rewrite Nat2Z.id, drop_0. by apply take_ge. Qed.

Lemma slice_zero s off : slice s off 0 = [].
Proof. done. Qed.

Lemma slice_take s len : slice s 0 len = take (Z.to_nat len) s.
Proof. unfold slice. by rewrite drop_0. Qed.

Lemma lookup_slice s off len (i : nat) :
  0 <= off -> Z.of_nat i < len -> slice s off len !! i = s !! (Z.to_nat off + i)%nat.
Proof. intros. unfold slice. rewrite lookup_take_lt by lia. by rewrite lookup_drop. Qed.

(** Adjacent slices. *)
Lemma slice_app s off len1 len2 :
  0 <= off -> 0 <= len1 -> 0 <= len2 ->
  slice s off len1 ++ slice s (off + len1) len2 = slice s off (len1 + len2).
Proof.
  intros. unfold slice. rewrite (Z2Nat.inj_add len1), (Z2Nat.inj_add off) by lia.
  by rewrite <- drop_drop, take_take_drop.
Qed.

Lemma slice_prefix s t off len :
  0 <= off -> 0 <= len -> off + len <= zlen s -> slice (s ++ t) off len = slice s off len.
Proof.
  unfold zlen, slice. intros. rewrite drop_app_le by lia.
  rewrite take_app_le; [done|]. rewrite length_drop. lia.
Qed.

Lemma slice_suffix s t len : slice (s ++ t) (zlen s) len = take (Z.to_nat len) t.
Proof. unfold zlen, slice. by rewrite Nat2Z.id, drop_app_length. Qed.

Lemma slice_slice s off len off' len' :
  0 <= off -> 0 <= off' -> 0 <= len' -> off' + len' <= len ->
  slice (slice s off len) off' len' = slice s (off + off') len'.
Proof.
  intros. unfold slice. rewrite Z2Nat.inj_add by lia.
  rewrite skipn_firstn_comm, take_take, drop_drop. f_equal. lia.
Qed.

Lemma slice_middle (t s u : list A) off len :
  0 <= off -> 0 <= len -> off + len <= zlen s ->
  slice (t ++ s ++ u) (zlen t + off) len = slice s off len.
Proof.
  unfold zlen, slice. intros. rewrite Z2Nat.inj_add, Nat2Z.id by lia.
  rewrite drop_app_add, drop_app_le by lia.
  rewrite take_app_le; [done|]. rewrite length_drop. lia.
Qed.

Lemma slice_beyond s off len : zlen s <= off -> slice s off len = [].
Proof. unfold zlen, slice. intros. rewrite drop_ge by lia. by rewrite take_nil. Qed.

Lemma take_slice s off len n :
  (n <= Z.to_nat len)%nat -> take n (slice s off len) = slice s off (Z.of_nat n).
Proof. intros. unfold slice. rewrite take_take. f_equal. lia. Qed.
End Slices.

Lemma slice_drop {A} (s : list A) p off len :
  0 <= p -> 0 <= off -> slice (drop (Z.to_nat p) s) off len = slice s (p + off) len.
Proof. intros. unfold slice. rewrite drop_drop. do 2 f_equal. lia. Qed.

Lemma zlen_drop {A} (s : list A) p : 0 <= p <= zlen s -> zlen (drop (Z.to_nat p) s) = zlen s - p.
Proof. unfold zlen. intros. rewrite length_drop. lia. Qed.

(** A position in a slice is a position of the buffer. *)
Lemma slice_byte s off : 0 <= off < zlen s -> slice s off 1 = [byte_at s off].
Proof.
  unfold zlen, slice, byte_at. intros H.
  destruct (lookup_lt_is_Some_2 s (Z.to_nat off)) as [x Hx]; [lia|].
  rewrite Hx, (drop_S _ _ _ Hx). done.
Qed.

Lemma memcpy_from_Ok s off len :
  0 <= off -> 0 <= len -> off + len <= zlen s -> memcpy_from s off len = Ok (slice s off len).
Proof.
  intros. unfold memcpy_from.
  by rewrite (proj2 (Z.leb_le 0 off)), (proj2 (Z.leb_le 0 len)), (proj2 (Z.leb_le _ (zlen s))).
Qed.

Lemma align_default x : 0 <= x < 2 ^ 63 -> x <= APR_ALIGN_DEFAULT x < x + 8.
Proof.
  intros H. unfold APR_ALIGN_DEFAULT. rewrite (u64_small (x + 7)) by lia.
  assert (u64 (-8) = Z.ldiff (Z.ones 64) (Z.ones 3)) as -> by done.
  assert (Z.land (x + 7) (Z.ldiff (Z.ones 64) (Z.ones 3)) = Z.ldiff (x + 7) (Z.ones 3)) as ->.
  { apply Z.bits_inj'. intros k Hk. rewrite !Z.land_spec, !Z.ldiff_spec.
    destruct (Z.ltb_spec k 64).
    - by rewrite Z.ones_spec_low by lia.
    - rewrite <- (Z.mod_small (x + 7) (2 ^ 64)), Z.mod_pow2_bits_high by lia. done. }
  rewrite Z.ldiff_ones_r, Z.shiftl_mul_pow2, Z.shiftr_div_pow2 by lia.
  rewrite u64_small by dlia. dlia.
Qed.

(** ** Copies from the target itself *)

(** Appending [n] bytes to [t], each read from [off] on when it is needed, so
    that overlapping copies repeat a pattern. *)
Fixpoint target_copy (t : bytes) (off : Z) (n : nat) : bytes :=
  match n with
  | O => t
  | S n => target_copy (t ++ [byte_at t off]) (off + 1) n
  end.

Lemma target_copy_app t off n :
  exists u, target_copy t off n = t ++ u /\ length u = n.
Proof.
  revert t off. induction n as [|n IH]; intros t off; simpl.
  - exists []. by rewrite app_nil_r.
  - destruct (IH (t ++ [byte_at t off]) (off + 1)) as (u & -> & Hu).
    exists (byte_at t off :: u). rewrite <- app_assoc. simpl. auto.
Qed.

Lemma target_copy_length t off n : length (target_copy t off n) = (length t + n)%nat.
Proof. destruct (target_copy_app t off n) as (u & -> & <-). apply length_app. Qed.

Lemma target_copy_zlen t off n : zlen (target_copy t off n) = zlen t + Z.of_nat n.
Proof. unfold zlen. rewrite target_copy_length. lia. Qed.

Lemma target_copy_prefix t off n (i : nat) :
  (i < length t)%nat -> target_copy t off n !! i = t !! i.
Proof. intros. destruct (target_copy_app t off n) as (u & -> & _). by apply lookup_app_l. Qed.

(** Every appended byte is the one [zlen t - off] positions before it. *)
Lemma target_copy_lookup t off n (i : nat) :
  0 <= off < zlen t -> zlen t <= Z.of_nat i < zlen t + Z.of_nat n ->
  target_copy t off n !! i = target_copy t off n !! (i - (length t - Z.to_nat off))%nat.
Proof.
  unfold zlen. revert t off. induction n as [|n IH]; intros t off Hoff Hi; simpl; [lia|].
  set (t' := t ++ [byte_at t off]).
  assert (length t' = S (length t)) as Ht' by (unfold t'; rewrite length_app; simpl; lia).
  destruct (decide (Z.of_nat i = Z.of_nat (length t))) as [Hl|Hl].
  - assert (i = length t) as -> by lia.
    rewrite !target_copy_prefix by lia.
    unfold t'. rewrite lookup_app_r, Nat.sub_diag by lia. rewrite lookup_app_l by lia.
    unfold byte_at. replace (length t - (length t - Z.to_nat off))%nat with (Z.to_nat off) by lia.
    destruct (lookup_lt_is_Some_2 t (Z.to_nat off)) as [x ->]; [lia|done].
  - rewrite IH by (rewrite Ht'; lia). rewrite Ht'. f_equal. lia.
Qed.

(** These equations determine the copy. *)
Lemma target_copy_unique t off n r :
  0 <= off < zlen t -> length r = (length t + n)%nat ->
  (forall i, (i < length t)%nat -> r !! i = t !! i) ->
  (forall i, (length t <= i < length t + n)%nat ->
     r !! i = r !! (i - (length t - Z.to_nat off))%nat) ->
  r = target_copy t off n.
Proof.
  unfold zlen. intros Hoff Hlen Hpre Hrep. apply list_eq.
  refine (well_founded_induction lt_wf _ _). intros i IH.
  destruct (decide (i < length t)%nat) as [Hi|Hi].
  - rewrite target_copy_prefix by done. auto.
  - destruct (decide (i < length t + n)%nat) as [Hi'|Hi'].
    + rewrite Hrep by lia. rewrite target_copy_lookup by (unfold zlen; lia).
      apply IH. lia.
    + rewrite !lookup_ge_None_2; [done|rewrite target_copy_length; lia|lia].
Qed.

(** A copy in two steps. *)
Lemma target_copy_plus t off n m :
  0 <= off ->
  target_copy t off (n + m) = target_copy (target_copy t off n) (off + Z.of_nat n) m.
Proof.
  revert t off. induction n as [|n IH]; intros t off H; simpl.
  - f_equal. lia.
  - rewrite IH by lia. f_equal. lia.
Qed.

(** Up to the end of what is there already, a copy is a slice. *)
Lemma target_copy_slice t off n :
  0 <= off -> off + Z.of_nat n <= zlen t ->
  target_copy t off n = t ++ slice t off (Z.of_nat n).
Proof.
  unfold zlen. intros H1 H2. destruct (decide (n = O)) as [->|Hn]; [by rewrite app_nil_r|].
  symmetry. apply target_copy_unique.
  - unfold zlen. lia.
  - rewrite length_app. f_equal. unfold slice. rewrite length_take, length_drop. lia.
  - intros i Hi. by rewrite lookup_app_l.
  - intros i Hi. rewrite lookup_app_r by lia. rewrite lookup_slice by lia.
    rewrite lookup_app_l by lia. f_equal. lia.
Qed.

(** ** Comparing starts and ends of buffers (libsvn_subr/string.c) *)

(** Two machine words are the same exactly if their eight bytes are. *)
Definition SIZEOF_SIZE_T : Z := 8.

Definition words_match (a b : bytes) (i j : Z) : bool :=
  bool_decide (slice a i SIZEOF_SIZE_T = slice b j SIZEOF_SIZE_T).

(** The two loops of [svn_cstring__match_length]. *)
Fixpoint match_words (fuel : nat) (a b : bytes) (max_len pos : Z) : Z :=
  match fuel with
  | O => pos
  | S f =>
      if SIZEOF_SIZE_T <=? max_len - pos then
        if words_match a b pos pos then match_words f a b max_len (pos + SIZEOF_SIZE_T) else pos
      else pos
  end.

Fixpoint match_bytes (fuel : nat) (a b : bytes) (max_len pos : Z) : Z :=
  match fuel with
  | O => pos
  | S f =>
      if pos <? max_len then
        if byte_at a pos =? byte_at b pos then match_bytes f a b max_len (pos + 1) else pos
      else pos
  end.

Definition svn_cstring__match_length (a b : bytes) (max_len : Z) : Z :=
  match_bytes (Z.to_nat max_len) a b max_len
    (match_words (Z.to_nat max_len) a b max_len 0).

(** The two loops of [svn_cstring__reverse_match_length]; the pointers [a] and
    [b] are the ends of the buffers here. *)
Fixpoint reverse_match_words (fuel : nat) (a b : bytes) (max_len pos : Z) : Z :=
  match fuel with
  | O => pos
  | S f =>
      if pos <=? max_len then
        if words_match a b (zlen a - pos) (zlen b - pos)
        then reverse_match_words f a b max_len (pos + SIZEOF_SIZE_T) else pos
      else pos
  end.

(** [pos] is its value in front of the increment. *)
Fixpoint reverse_match_bytes (fuel : nat) (a b : bytes) (max_len pos : Z) : Z :=
  match fuel with
  | O => max_len
  | S f =>
      if pos + 1 <=? max_len then
        if byte_at a (zlen a - (pos + 1)) =? byte_at b (zlen b - (pos + 1))
        then reverse_match_bytes f a b max_len (pos + 1) else pos
      else max_len
  end.

Definition svn_cstring__reverse_match_length (a b : bytes) (max_len : Z) : Z :=
  reverse_match_bytes (Z.to_nat max_len) a b max_len
    (reverse_match_words (Z.to_nat max_len) a b max_len SIZEOF_SIZE_T - SIZEOF_SIZE_T).

Lemma match_words_spec fuel a b max_len pos :
  0 <= pos <= max_len -> slice a 0 pos = slice b 0 pos ->
  let r := match_words fuel a b max_len pos in
  pos <= r <= max_len /\ slice a 0 r = slice b 0 r.
Proof.
  revert pos. induction fuel as [|f IH]; intros pos Hp Hs; simpl; [auto with lia|].
  unfold SIZEOF_SIZE_T. destruct (Z.leb_spec 8 (max_len - pos)) as [H|H]; [|auto with lia].
  unfold words_match, SIZEOF_SIZE_T. case_bool_decide as Hw; [|auto with lia].
  destruct (IH (pos + 8)) as (H1 & H2); [lia| |split; [lia|done]].
  rewrite <- !slice_app by lia. rewrite Hs. f_equal. done.
Qed.

Lemma match_bytes_spec fuel a b max_len pos :
  0 <= pos <= max_len -> max_len <= zlen a -> max_len <= zlen b ->
  slice a 0 pos = slice b 0 pos -> (Z.to_nat (max_len - pos) <= fuel)%nat ->
  let r := match_bytes fuel a b max_len pos in
  pos <= r <= max_len /\ slice a 0 r = slice b 0 r /\
  (r < max_len -> byte_at a r <> byte_at b r).
Proof.
  intros Hp Ha Hb. revert pos Hp. induction fuel as [|f IH]; intros pos Hp Hs Hf; simpl.
  { repeat split; [lia..|done|lia]. }
  destruct (Z.ltb_spec pos max_len); [|repeat split; [lia..|done|lia]].
  destruct (Z.eqb_spec (byte_at a pos) (byte_at b pos)) as [E|E].
  - destruct (IH (pos + 1)) as (H1 & H2 & H3); [lia| |lia|].
    + rewrite <- !slice_app by lia. rewrite Hs, Z.add_0_l. f_equal.
      rewrite !slice_byte by lia. by rewrite E.
    + repeat split; [lia..|done|done].
  - repeat split; [lia..|done|done].
Qed.

(** The length of the longest common start. *)
Lemma match_length_spec a b max_len :
  0 <= max_len -> max_len <= zlen a -> max_len <= zlen b ->
  let r := svn_cstring__match_length a b max_len in
  0 <= r <= max_len /\ slice a 0 r = slice b 0 r /\
  (r < max_len -> byte_at a r <> byte_at b r).
Proof.
  intros H0 Ha Hb r. subst r. unfold svn_cstring__match_length.
  destruct (match_words_spec (Z.to_nat max_len) a b max_len 0) as [H1 H2]; [lia|done|].
  destruct (match_bytes_spec (Z.to_nat max_len) a b max_len
              (match_words (Z.to_nat max_len) a b max_len 0)) as (H3 & H4 & H5);
    [lia..|done|lia|]. repeat split; [lia..|done|done].
Qed.

Lemma slice_extend_left {A} (s : list A) off len k :
  0 <= k <= off -> 0 <= len -> slice s (off - k) (len + k) = slice s (off - k) k ++ slice s off len.
Proof.
  intros. rewrite (Z.add_comm len k), <- slice_app by lia. do 2 f_equal. lia.
Qed.

Lemma reverse_match_words_spec fuel a b max_len pos :
  0 <= pos -> max_len <= zlen a -> max_len <= zlen b -> pos - 8 <= max_len ->
  slice a (zlen a - (pos - 8)) (pos - 8) = slice b (zlen b - (pos - 8)) (pos - 8) ->
  8 <= pos ->
  let r := reverse_match_words fuel a b max_len pos - 8 in
  0 <= r <= max_len /\ slice a (zlen a - r) r = slice b (zlen b - r) r.
Proof.
  intros _ Ha Hb. revert pos. induction fuel as [|f IH]; intros pos Hp Hs H8; simpl; [auto with lia|].
  destruct (Z.leb_spec pos max_len) as [H|H]; [|auto with lia].
  unfold words_match, SIZEOF_SIZE_T. case_bool_decide as Hw; [|auto with lia].
  apply IH; [lia| |lia]. replace (pos + 8 - 8) with (pos - 8 + 8) by lia.
  replace (zlen a - (pos - 8 + 8)) with (zlen a - (pos - 8) - 8) by lia.
  replace (zlen b - (pos - 8 + 8)) with (zlen b - (pos - 8) - 8) by lia.
  rewrite !slice_extend_left by lia. f_equal; [|done].
  by replace (zlen a - (pos - 8) - 8) with (zlen a - pos) by lia;
    replace (zlen b - (pos - 8) - 8) with (zlen b - pos) by lia.
Qed.

Lemma reverse_match_bytes_spec fuel a b max_len pos :
  max_len <= zlen a -> max_len <= zlen b -> 0 <= pos <= max_len ->
  slice a (zlen a - pos) pos = slice b (zlen b - pos) pos ->
  (Z.to_nat (max_len - pos) <= fuel)%nat ->
  let r := reverse_match_bytes fuel a b max_len pos in
  0 <= r <= max_len /\ slice a (zlen a - r) r = slice b (zlen b - r) r.
Proof.
  intros Ha Hb. revert pos. induction fuel as [|f IH]; intros pos Hp Hs Hf; simpl.
  { replace pos with max_len in Hs by lia; auto with lia. }
  destruct (Z.leb_spec (pos + 1) max_len) as [H|H];
    [|replace pos with max_len in Hs by lia; auto with lia].
  destruct (Z.eqb_spec (byte_at a (zlen a - (pos + 1))) (byte_at b (zlen b - (pos + 1)))) as [E|E];
    [|auto with lia].
  apply IH; [lia| |lia].
  replace (zlen a - (pos + 1)) with (zlen a - pos - 1) in * by lia.
  replace (zlen b - (pos + 1)) with (zlen b - pos - 1) in * by lia.
  rewrite !slice_extend_left by lia. rewrite !slice_byte by lia. by rewrite E, Hs.
Qed.

(** A common end. *)
Lemma reverse_match_length_spec a b max_len :
  0 <= max_len -> max_len <= zlen a -> max_len <= zlen b ->
  let r := svn_cstring__reverse_match_length a b max_len in
  0 <= r <= max_len /\ slice a (zlen a - r) r = slice b (zlen b - r) r.
Proof.
  intros H0 Ha Hb r. subst r. unfold svn_cstring__reverse_match_length, SIZEOF_SIZE_T.
  destruct (reverse_match_words_spec (Z.to_nat max_len) a b max_len 8)
    as [H1 H2]; [lia..|done|done|].
  apply reverse_match_bytes_spec; [done|done|done|done|lia].
Qed.
