(* ===== verification/Ctype.v ===== *)
(** * Classes of characters (libsvn_subr/ctype.c, svn_ctype.h)

    The table of flags for characters, the tests that it answers, and the
    comparison that ignores the case of ASCII letters. *)

From S2P Require Import Prelude.

Definition SVN_CTYPE_CNTRL : Z := 0x0001.
Definition SVN_CTYPE_SPACE : Z := 0x0002.
Definition SVN_CTYPE_DIGIT : Z := 0x0004.
Definition SVN_CTYPE_UPPER : Z := 0x0008.
Definition SVN_CTYPE_LOWER : Z := 0x0010.
Definition SVN_CTYPE_PUNCT : Z := 0x0020.
Definition SVN_CTYPE_XALPHA : Z := 0x0040.
Definition SVN_CTYPE_ASCII : Z := 0x0080.
Definition SVN_CTYPE_UTF8LEAD : Z := 0x0100.
Definition SVN_CTYPE_UTF8CONT : Z := 0x0200.

Definition SVN_CTYPE_ALPHA : Z := Z.lor SVN_CTYPE_LOWER SVN_CTYPE_UPPER.
Definition SVN_CTYPE_ALNUM : Z := Z.lor SVN_CTYPE_ALPHA SVN_CTYPE_DIGIT.
Definition SVN_CTYPE_XDIGIT : Z := Z.lor SVN_CTYPE_DIGIT SVN_CTYPE_XALPHA.
Definition SVN_CTYPE_GRAPH : Z := Z.lor SVN_CTYPE_PUNCT SVN_CTYPE_ALNUM.
Definition SVN_CTYPE_PRINT : Z := Z.lor SVN_CTYPE_GRAPH SVN_CTYPE_SPACE.
Definition SVN_CTYPE_UTF8MBC : Z := Z.lor SVN_CTYPE_UTF8LEAD SVN_CTYPE_UTF8CONT.
Definition SVN_CTYPE_UTF8 : Z := Z.lor SVN_CTYPE_ASCII SVN_CTYPE_UTF8MBC.

(** The table, by runs of equal entries: control characters and blanks,
    punctuation, digits and letters, then the bytes that are not ASCII. *)
Definition svn_ctype_table : list Z :=
  let cntrl := Z.lor SVN_CTYPE_ASCII SVN_CTYPE_CNTRL in
  let punct := Z.lor SVN_CTYPE_ASCII SVN_CTYPE_PUNCT in
  let upper := Z.lor SVN_CTYPE_ASCII SVN_CTYPE_UPPER in
  let lower := Z.lor SVN_CTYPE_ASCII SVN_CTYPE_LOWER in
  replicate 9 cntrl ++ replicate 5 (Z.lor cntrl SVN_CTYPE_SPACE) ++ replicate 18 cntrl
  ++ [Z.lor SVN_CTYPE_ASCII SVN_CTYPE_SPACE] ++ replicate 15 punct
  ++ replicate 10 (Z.lor SVN_CTYPE_ASCII SVN_CTYPE_DIGIT) ++ replicate 7 punct
  ++ replicate 6 (Z.lor upper SVN_CTYPE_XALPHA) ++ replicate 20 upper ++ replicate 6 punct
  ++ replicate 6 (Z.lor lower SVN_CTYPE_XALPHA) ++ replicate 20 lower ++ replicate 4 punct
  ++ [cntrl] ++ replicate 64 SVN_CTYPE_UTF8CONT
  ++ [0] ++ replicate 31 SVN_CTYPE_UTF8LEAD ++ [0] ++ replicate 15 SVN_CTYPE_UTF8LEAD
  ++ [0] ++ replicate 7 SVN_CTYPE_UTF8LEAD ++ [0] ++ replicate 3 SVN_CTYPE_UTF8LEAD
  ++ [0] ++ [SVN_CTYPE_UTF8LEAD] ++ [0; 0].

Definition svn_ctype_test (c flags : Z) : bool :=
  negb (Z.land (default 0 (svn_ctype_table !! Z.to_nat c)) flags =? 0).

Definition svn_ctype_iscntrl (c : Z) : bool := svn_ctype_test c SVN_CTYPE_CNTRL.
Definition svn_ctype_isspace (c : Z) : bool := svn_ctype_test c SVN_CTYPE_SPACE.
Definition svn_ctype_isdigit (c : Z) : bool := svn_ctype_test c SVN_CTYPE_DIGIT.
Definition svn_ctype_isupper (c : Z) : bool := svn_ctype_test c SVN_CTYPE_UPPER.
Definition svn_ctype_islower (c : Z) : bool := svn_ctype_test c SVN_CTYPE_LOWER.
Definition svn_ctype_ispunct (c : Z) : bool := svn_ctype_test c SVN_CTYPE_PUNCT.
Definition svn_ctype_isascii (c : Z) : bool := svn_ctype_test c SVN_CTYPE_ASCII.
Definition svn_ctype_isalpha (c : Z) : bool := svn_ctype_test c SVN_CTYPE_ALPHA.
Definition svn_ctype_isalnum (c : Z) : bool := svn_ctype_test c SVN_CTYPE_ALNUM.
Definition svn_ctype_isxdigit (c : Z) : bool := svn_ctype_test c SVN_CTYPE_XDIGIT.
Definition svn_ctype_isgraph (c : Z) : bool := svn_ctype_test c SVN_CTYPE_GRAPH.
Definition svn_ctype_isprint (c : Z) : bool := svn_ctype_test c SVN_CTYPE_PRINT.
Definition svn_ctype_isutf8lead (c : Z) : bool := svn_ctype_test c SVN_CTYPE_UTF8LEAD.
Definition svn_ctype_isutf8mbc (c : Z) : bool := svn_ctype_test c SVN_CTYPE_UTF8MBC.
Definition svn_ctype_isutf8 (c : Z) : bool := svn_ctype_test c SVN_CTYPE_UTF8.

(** Identity, except that the letters from 97 to 122 become those from 65 to
    90. *)
Definition casefold_table : list Z :=
  (Z.of_nat <$> seq 0 97) ++ (Z.of_nat <$> seq 65 26) ++ (Z.of_nat <$> seq 123 133).

Definition svn_ctype_casecmp (a b : Z) : Z :=
  default 0 (casefold_table !! Z.to_nat a) - default 0 (casefold_table !! Z.to_nat b).

(** ** What the table says *)

(** A decidable statement about every byte is checked on all of them. *)
Lemma for_all_bytes (P : Z -> Prop) `{!forall c, Decision (P c)} :
  forallb (fun c => bool_decide (P c)) (Z.of_nat <$> seq 0 256) = true ->
  forall c, 0 <= c < 256 -> P c.
Proof.
  rewrite forallb_forall. intros Hall c Hc. apply (bool_decide_eq_true_1 (P c)), Hall.
  apply list_elem_of_In, list_elem_of_fmap.
  exists (Z.to_nat c). rewrite elem_of_seq. lia.
Qed.

(** Decide a statement for every byte by evaluation. *)
Ltac by_bytes :=
  match goal with
  | |- forall c, _ -> @?P c => refine (for_all_bytes P _); vm_compute; reflexivity
  end.

Lemma isspace_iff c : 0 <= c < 256 -> svn_ctype_isspace c = (c =? 32) || (9 <=? c) && (c <=? 13).
Proof. revert c. by_bytes. Qed.

Lemma isdigit_iff c : 0 <= c < 256 -> svn_ctype_isdigit c = (48 <=? c) && (c <=? 57).
Proof. revert c. by_bytes. Qed.

(** Folding the case of an ASCII letter. *)
Definition fold_case (c : Z) : Z := if (97 <=? c) && (c <=? 122) then c - 32 else c.

Lemma casefold_table_fold c :
  0 <= c < 256 -> casefold_table !! Z.to_nat c = Some (fold_case c).
Proof. revert c. by_bytes. Qed.

Lemma casecmp_fold a b :
  0 <= a < 256 -> 0 <= b < 256 -> svn_ctype_casecmp a b = fold_case a - fold_case b.
Proof. intros. unfold svn_ctype_casecmp. by rewrite !casefold_table_fold. Qed.
