(* ===== verification/StringBuf.v ===== *)
(** * String buffers (libsvn_subr/string.c)

    A string buffer is a block of memory with the length of the string that it
    holds; the block grows when it is too small.  Reading or writing outside
    the block is undefined behaviour.  What fresh memory contains is up to the
    allocator, and bytes that are added may come from the buffer itself. *)

From S2P Require Import Prelude Buffers Ctype.

(** ** Memory *)

(** [apr_palloc]: a block of the given size with some contents. *)
Class Allocator := {
  apr_palloc : Z -> bytes;
  apr_palloc_length size : 0 <= size -> zlen (apr_palloc size) = size
}.

(** Writing at an offset. *)
Definition memory_write (mem : bytes) (off : Z) (data : bytes) : result bytes :=
  if (0 <=? off) && (off + zlen data <=? zlen mem)
  then Ok (take (Z.to_nat off) mem ++ data ++ drop (Z.to_nat (off + zlen data)) mem)
  else Err C_UNDEFINED.

(** [memmove] within a block. *)
Definition memmove (mem : bytes) (dest src len : Z) : result bytes :=
  data ← memcpy_from mem src len; memory_write mem dest data.

Definition memset (mem : bytes) (off c len : Z) : result bytes :=
  memory_write mem off (replicate (Z.to_nat len) c).

Section StringBuf.
Context `{Allocator}.

Definition membuf_create (minimum_size : Z) : bytes := apr_palloc (APR_ALIGN_DEFAULT minimum_size).

(** The doubling of the size; 64 rounds are enough for a machine word. *)
Fixpoint double_size (fuel : nat) (new_size minimum_size : Z) : Z :=
  match fuel with
  | O => new_size
  | S f =>
      if new_size <? minimum_size then
        let prev_size := new_size in
        let new_size := u64 (new_size * 2) in
        if new_size <? prev_size then minimum_size
        else double_size f new_size minimum_size
      else new_size
  end.

(** A new block if the one of the given size is too small. *)
Definition membuf_ensure (size minimum_size : Z) : option bytes :=
  if size <? minimum_size then
    let new_size := if size =? 0 then minimum_size else double_size 64 size minimum_size in
    Some (membuf_create new_size)
  else None.

(** [svn_membuf_t]: the block of memory is the buffer; its length is [size]. *)
Definition svn_membuf_t : Type := bytes.

Definition svn_membuf__create (size : Z) : svn_membuf_t := membuf_create size.

Definition svn_membuf__ensure (membuf : svn_membuf_t) (size : Z) : svn_membuf_t :=
  default membuf (membuf_ensure (zlen membuf) size).

(** The old contents are copied into a new block. *)
Definition svn_membuf__resize (membuf : svn_membuf_t) (size : Z) : result svn_membuf_t :=
  match membuf_ensure (zlen membuf) size with
  | Some mem => memory_write mem 0 membuf
  | None => Ok membuf
  end.

Definition svn_membuf__zero (membuf : svn_membuf_t) : result svn_membuf_t :=
  memset membuf 0 0 (zlen membuf).

Definition svn_membuf__nzero (membuf : svn_membuf_t) (size : Z) : result svn_membuf_t :=
  if zlen membuf <? size then memset membuf 0 0 (zlen membuf) else memset membuf 0 0 size.

(** ** Counted strings *)

Record svn_string_t := mk_string {
  str_data : bytes;
  str_len : Z
}.

Definition sizeof_string : Z := 16.

Definition create_string (data : bytes) (size : Z) : svn_string_t := mk_string data size.

Definition svn_string_create_empty : svn_string_t := mk_string [0] 0.

(** [bytes] are exactly the [size] bytes. *)
Definition svn_string_ncreate (bytes : bytes) : result svn_string_t :=
  let size := zlen bytes in
  let data := drop (Z.to_nat sizeof_string) (apr_palloc (u64 (sizeof_string + size + 1))) in
  data ← (if negb (size =? 0) then memory_write data 0 bytes else Ok data);
  data ← memory_write data size [0];
  Ok (mk_string data size).

Definition svn_string_create (cstring : bytes) : result svn_string_t := svn_string_ncreate cstring.

Definition svn_string_isempty (str : svn_string_t) : bool := str_len str =? 0.

Definition svn_string_dup (original_string : option svn_string_t) : result (option svn_string_t) :=
  match original_string with
  | Some str => bytes ← memcpy_from (str_data str) 0 (str_len str); Some <$> svn_string_ncreate bytes
  | None => Ok None
  end.

(** ** Creating string buffers *)

(** [sb_data] is the block from the pointer [data] on; its length is
    [blocksize]. *)
Record svn_stringbuf_t := mk_stringbuf {
  sb_data : bytes;
  sb_len : Z
}.

Definition blocksize (str : svn_stringbuf_t) : Z := zlen (sb_data str).

(** The size of the structure, which is in front of the data. *)
Definition sizeof_stringbuf : Z := 32.

Definition svn_stringbuf_create_ensure (blocksize : Z) : result svn_stringbuf_t :=
  let blocksize := u64 (blocksize + 1) in
  let mem := membuf_create (u64 (blocksize + sizeof_stringbuf)) in
  data ← memory_write (drop (Z.to_nat sizeof_stringbuf) mem) 0 [0];
  Ok (mk_stringbuf data 0).

Definition svn_stringbuf_create_empty : result svn_stringbuf_t := svn_stringbuf_create_ensure 0.

(** [bytes] are exactly the [size] bytes. *)
Definition svn_stringbuf_ncreate (bytes : bytes) : result svn_stringbuf_t :=
  let size := zlen bytes in
  strbuf ← svn_stringbuf_create_ensure size;
  data ← (if negb (size =? 0) then memory_write (sb_data strbuf) 0 bytes else Ok (sb_data strbuf));
  data ← memory_write data size [0];
  Ok (mk_stringbuf data size).

Definition svn_stringbuf_create (cstring : bytes) : result svn_stringbuf_t :=
  svn_stringbuf_ncreate cstring.

(** The string becomes the buffer. *)
Definition svn_stringbuf_create_wrap (str : bytes) : svn_stringbuf_t :=
  mk_stringbuf (str ++ [0]) (zlen str).

Definition svn_stringbuf_create_from_string (str : svn_string_t) : result svn_stringbuf_t :=
  bytes ← memcpy_from (str_data str) 0 (str_len str); svn_stringbuf_ncreate bytes.

Definition svn_string_create_from_buf (strbuf : svn_stringbuf_t) : result svn_string_t :=
  bytes ← memcpy_from (sb_data strbuf) 0 (sb_len strbuf); svn_string_ncreate bytes.

(** The same data and length, seen as a string. *)
Definition svn_stringbuf__morph_into_string (strbuf : svn_stringbuf_t) : svn_string_t :=
  mk_string (sb_data strbuf) (sb_len strbuf).

Definition svn_stringbuf_dup (original_string : svn_stringbuf_t) : result svn_stringbuf_t :=
  bytes ← memcpy_from (sb_data original_string) 0 (sb_len original_string);
  svn_stringbuf_ncreate bytes.

(** ** Changing string buffers *)

Definition svn_stringbuf_fillchar (str : svn_stringbuf_t) (c : Z) : result svn_stringbuf_t :=
  data ← memset (sb_data str) 0 c (sb_len str);
  Ok (mk_stringbuf data (sb_len str)).

(** [value] is a C string. *)
Definition svn_stringbuf_set (str : svn_stringbuf_t) (value : bytes) : result svn_stringbuf_t :=
  let amt := zlen value in
  let data := default (sb_data str) (membuf_ensure (blocksize str) (u64 (amt + 1))) in
  data ← memory_write data 0 (value ++ [0]);
  Ok (mk_stringbuf data amt).

Definition svn_stringbuf_setempty (str : svn_stringbuf_t) : result svn_stringbuf_t :=
  data ← memory_write (sb_data str) 0 [0]; Ok (mk_stringbuf data 0).

Definition svn_stringbuf_chop (str : svn_stringbuf_t) (nbytes : Z) : result svn_stringbuf_t :=
  let len := if sb_len str <? nbytes then 0 else sb_len str - nbytes in
  data ← memory_write (sb_data str) len [0];
  Ok (mk_stringbuf data len).

Definition svn_stringbuf_leftchop (str : svn_stringbuf_t) (nbytes : Z) : result svn_stringbuf_t :=
  if sb_len str =? 0 then Ok str
  else if sb_len str <=? nbytes then
    data ← memory_write (sb_data str) 0 [0]; Ok (mk_stringbuf data 0)
  else Ok (mk_stringbuf (drop (Z.to_nat nbytes) (sb_data str)) (sb_len str - nbytes)).

Definition svn_stringbuf_isempty (str : svn_stringbuf_t) : bool := sb_len str =? 0.

Definition svn_stringbuf_ensure (str : svn_stringbuf_t) (minimum_size : Z)
    : result svn_stringbuf_t :=
  let minimum_size := u64 (minimum_size + 1) in
  match membuf_ensure (blocksize str) minimum_size with
  | Some mem =>
      old ← memcpy_from (sb_data str) 0 (sb_len str + 1);
      data ← memory_write mem 0 old;
      Ok (mk_stringbuf data (sb_len str))
  | None => Ok str
  end.

(** The bytes that a pointer argument points at: other memory, or the buffer
    itself from an offset on. *)
Inductive source :=
  | Outside (bytes : bytes)
  | Inside (off : Z).

Definition source_bytes (str : svn_stringbuf_t) (src : source) (count : Z) : result bytes :=
  match src with
  | Outside bytes => memcpy_from bytes 0 count
  | Inside off => memcpy_from (sb_data str) off count
  end.

(** [memcpy] of [count] bytes to the end of the string must not overlap with
    its source; a block that was replaced stays as it is. *)
Definition source_overlaps (str str' : svn_stringbuf_t) (src : source) (count : Z) : bool :=
  match src with
  | Outside _ => false
  | Inside off =>
      (blocksize str' =? blocksize str) && (sb_len str <? off + count)
      && (off <? sb_len str + count)
  end.

Definition svn_stringbuf_appendbytes (str : svn_stringbuf_t) (src : source) (count : Z)
    : result svn_stringbuf_t :=
  if count =? 0 then Ok str
  else
    let total_len := u64 (sb_len str + count) in
    str' ← svn_stringbuf_ensure str total_len;
    bytes ← source_bytes str src count;
    if source_overlaps str str' src count then Err C_UNDEFINED
    else
      data ← memory_write (sb_data str') (sb_len str) bytes;
      data ← memory_write data total_len [0];
      Ok (mk_stringbuf data total_len).

Definition svn_stringbuf_appendbyte (str : svn_stringbuf_t) (byte : Z) : result svn_stringbuf_t :=
  let old_len := sb_len str in
  if u64 (old_len + 1) <? blocksize str then
    data ← memory_write (sb_data str) old_len [byte];
    data ← memory_write data (u64 (old_len + 1)) [0];
    Ok (mk_stringbuf data (u64 (old_len + 1)))
  else svn_stringbuf_appendbytes str (Outside [byte]) 1.

Definition svn_stringbuf_appendfill (str : svn_stringbuf_t) (byte count : Z)
    : result svn_stringbuf_t :=
  let new_len := u64 (sb_len str + count) in
  str ← svn_stringbuf_ensure str new_len;
  data ← memset (sb_data str) (sb_len str) byte count;
  data ← memory_write data new_len [0];
  Ok (mk_stringbuf data new_len).

(** Another buffer is appended. *)
Definition svn_stringbuf_appendstr (targetstr appendstr : svn_stringbuf_t)
    : result svn_stringbuf_t :=
  svn_stringbuf_appendbytes targetstr (Outside (sb_data appendstr)) (sb_len appendstr).

Definition svn_stringbuf_appendcstr (targetstr : svn_stringbuf_t) (cstr : bytes)
    : result svn_stringbuf_t :=
  svn_stringbuf_appendbytes targetstr (Outside cstr) (zlen cstr).

(** The bytes are read first when they overlap with the buffer; other memory
    does not change. *)
Definition svn_stringbuf_insert (str : svn_stringbuf_t) (pos : Z) (src : source) (count : Z)
    : result svn_stringbuf_t :=
  if count =? 0 then Ok str
  else
    bytes ← source_bytes str src count;
    let pos := if sb_len str <? pos then sb_len str else pos in
    str ← svn_stringbuf_ensure str (u64 (sb_len str + count));
    data ← memmove (sb_data str) (pos + count) pos (sb_len str - pos + 1);
    data ← memory_write data pos bytes;
    Ok (mk_stringbuf data (u64 (sb_len str + count))).

Definition svn_stringbuf_remove (str : svn_stringbuf_t) (pos count : Z) : result svn_stringbuf_t :=
  let pos := if sb_len str <? pos then sb_len str else pos in
  let count := if sb_len str - pos <? count then sb_len str - pos else count in
  data ← memmove (sb_data str) pos (pos + count) (sb_len str - pos - count + 1);
  Ok (mk_stringbuf data (sb_len str - count)).

Definition svn_stringbuf_replace (str : svn_stringbuf_t) (pos old_count : Z) (src : source)
    (new_count : Z) : result svn_stringbuf_t :=
  if new_count =? 0 then svn_stringbuf_remove str pos old_count
  else
    bytes ← source_bytes str src new_count;
    let pos := if sb_len str <? pos then sb_len str else pos in
    let old_count := if sb_len str - pos <? old_count then sb_len str - pos else old_count in
    str ← (if old_count <? new_count
           then svn_stringbuf_ensure str (u64 (sb_len str + (new_count - old_count))) else Ok str);
    data ← (if negb (old_count =? new_count)
            then memmove (sb_data str) (pos + new_count) (pos + old_count)
                   (sb_len str - pos - old_count + 1)
            else Ok (sb_data str));
    data ← memory_write data pos bytes;
    Ok (mk_stringbuf data (u64 (sb_len str + u64 (new_count - old_count)))).

(** ** Replacing all occurrences *)

(** Whether the C string at [off] of the memory starts with [needle]. *)
Fixpoint starts_with (mem needle : bytes) : bool :=
  match needle, mem with
  | [], _ => true
  | c :: needle, d :: mem => (c =? d) && starts_with mem needle
  | _, [] => false
  end.

(** [strstr] on the C string that starts at the head of [mem], the offset of
    which is [off]: the search ends at the NUL. *)
Fixpoint strstr_from (mem needle : bytes) (off : Z) : result (option Z) :=
  if starts_with mem needle then Ok (Some off)
  else
    match mem with
    | [] => Err C_UNDEFINED
    | c :: mem => if c =? 0 then Ok None else strstr_from mem needle (off + 1)
    end.

Definition strstr_at (mem : bytes) (off : Z) (needle : bytes) : result (option Z) :=
  strstr_from (drop (Z.to_nat off) mem) needle off.

(** [if (n) memcpy (...)] *)
Definition copy_within (str : svn_stringbuf_t) (current to_copy : Z) : result svn_stringbuf_t :=
  if negb (to_copy =? 0) then
    bytes ← memcpy_from (sb_data str) current to_copy;
    data ← memory_write (sb_data str) (sb_len str) bytes;
    Ok (mk_stringbuf data (sb_len str))
  else Ok str.

(** The loop over the occurrences; [sb_len] is the end of the new contents. *)
Fixpoint replace_loop (fuel : nat) (str : svn_stringbuf_t) (to_find replacement : bytes)
    (pos : option Z) (current replacements : Z) : result (svn_stringbuf_t * Z * Z) :=
  match pos with
  | None => Ok (str, current, replacements)
  | Some pos =>
      match fuel with
      | O => Err OUT_OF_FUEL
      | S f =>
          let to_copy := pos - current in
          str ← svn_stringbuf_ensure str (u64 (sb_len str + to_copy + zlen replacement));
          str ← copy_within str current to_copy;
          let current := current + to_copy + zlen to_find in
          let len := sb_len str + to_copy in
          data ← memory_write (sb_data str) len replacement;
          let str := mk_stringbuf data (len + zlen replacement) in
          pos ← strstr_at (sb_data str) current to_find;
          replace_loop f str to_find replacement pos current (replacements + 1)
      end
  end.

(** The number of replacements comes with the buffer. *)
Definition svn_stringbuf_replace_all (str : svn_stringbuf_t) (to_find replacement : bytes)
    : result (svn_stringbuf_t * Z) :=
  let original_length := sb_len str in
  pos ← strstr_at (sb_data str) 0 to_find;
  match pos with
  | None => Ok (str, 0)
  | Some _ =>
      let str := mk_stringbuf (sb_data str) (sb_len str + 1) in
      '(str, current, replacements) ←
        replace_loop (S (Z.to_nat original_length)) str to_find replacement pos 0 0;
      let to_copy := original_length - current in
      str ← (if negb (to_copy =? 0) then
               str ← svn_stringbuf_ensure str (u64 (sb_len str + to_copy));
               str ← copy_within str current to_copy;
               Ok (mk_stringbuf (sb_data str) (sb_len str + to_copy))
             else Ok str);
      let new_length := sb_len str - original_length - 1 in
      data ← memmove (sb_data str) 0 (original_length + 1) new_length;
      data ← memory_write data new_length [0];
      Ok (mk_stringbuf data new_length, replacements)
  end.
End StringBuf.

(** ** Searching and trimming *)

Definition string_compare (str1 str2 : bytes) (len1 len2 : Z) : result bool :=
  if negb (len1 =? len2) then Ok false
  else
    s1 ← memcpy_from str1 0 len1;
    s2 ← memcpy_from str2 0 len1;
    Ok (bool_decide (s1 = s2)).

Definition svn_stringbuf_compare (str1 str2 : svn_stringbuf_t) : result bool :=
  string_compare (sb_data str1) (sb_data str2) (sb_len str1) (sb_len str2).

Definition svn_string_compare (str1 str2 : svn_string_t) : result bool :=
  string_compare (str_data str1) (str_data str2) (str_len str1) (str_len str2).

Definition svn_string_compare_stringbuf (str1 : svn_string_t) (str2 : svn_stringbuf_t) : result bool :=
  string_compare (str_data str1) (sb_data str2) (str_len str1) (sb_len str2).

(** The first of the [n] characters from [i] on that is not white space. *)
Fixpoint first_non_whitespace (n : nat) (str : bytes) (i : Z) : Z :=
  match n with
  | O => i
  | S n => if negb (svn_ctype_isspace (byte_at str i)) then i else first_non_whitespace n str (i + 1)
  end.

Definition string_first_non_whitespace (str : bytes) (len : Z) : Z :=
  first_non_whitespace (Z.to_nat len) str 0.

(** The last of the first [n] characters that is [ch]. *)
Fixpoint find_backward (n : nat) (str : bytes) (ch : Z) : option Z :=
  match n with
  | O => None
  | S n => if byte_at str (Z.of_nat n) =? ch then Some (Z.of_nat n) else find_backward n str ch
  end.

Definition find_char_backward (str : bytes) (len ch : Z) : Z :=
  default len (find_backward (Z.to_nat len) str ch).

Definition svn_stringbuf_first_non_whitespace (str : svn_stringbuf_t) : Z :=
  string_first_non_whitespace (sb_data str) (sb_len str).

Definition svn_stringbuf_find_char_backward (str : svn_stringbuf_t) (ch : Z) : Z :=
  find_char_backward (sb_data str) (sb_len str) ch.

Definition svn_string_first_non_whitespace (str : svn_string_t) : Z :=
  string_first_non_whitespace (str_data str) (str_len str).

Definition svn_string_find_char_backward (str : svn_string_t) (ch : Z) : Z :=
  find_char_backward (str_data str) (str_len str) ch.

(** [while (len > 0 && isspace (data[len - 1])) len--;] *)
Fixpoint trim_len (n : nat) (str : bytes) : Z :=
  match n with
  | O => 0
  | S n' => if svn_ctype_isspace (byte_at str (Z.of_nat n')) then trim_len n' str else Z.of_nat n
  end.

Definition svn_stringbuf_strip_whitespace (str : svn_stringbuf_t) : result svn_stringbuf_t :=
  let str :=
    if svn_ctype_isspace (byte_at (sb_data str) 0) then
      let offset := string_first_non_whitespace (drop 1 (sb_data str)) (sb_len str - 1) + 1 in
      mk_stringbuf (drop (Z.to_nat offset) (sb_data str)) (sb_len str - offset)
    else str in
  let len := trim_len (Z.to_nat (sb_len str)) (sb_data str) in
  data ← memory_write (sb_data str) len [0];
  Ok (mk_stringbuf data len).
