(* ===== verification/StringBufFacts.v ===== *)
(** * String buffers hold strings

    The block of a buffer starts with the string that it holds and a NUL.
    Every operation of [StringBuf] keeps this and changes the string as the
    corresponding function on lists does, without leaving the block. *)

From S2P Require Import Prelude Buffers Ctype StringBuf.

(** The sizes that keep the arithmetic on sizes from wrapping around. *)
Definition STRING_BOUND : Z := 2 ^ 61.

(** [str] holds the string [s]. *)
Definition holds (str : svn_stringbuf_t) (s : bytes) : Prop :=
  sb_len str = zlen s /\ zlen s < STRING_BOUND /\ exists junk, sb_data str = s ++ 0 :: junk.

Lemma holds_intro data s junk :
  data = s ++ 0 :: junk -> zlen s < STRING_BOUND -> holds (mk_stringbuf data (zlen s)) s.
Proof. intros -> ?. split_and!; [done..|]. by exists junk. Qed.

(** ** Writing to memory *)

Lemma memory_write_Ok mem off d :
  0 <= off -> off + zlen d <= zlen mem ->
  memory_write mem off d =
    Ok (take (Z.to_nat off) mem ++ d ++ drop (Z.to_nat (off + zlen d)) mem).
Proof.
  intros. unfold memory_write.
  by rewrite (proj2 (Z.leb_le 0 off)), (proj2 (Z.leb_le _ (zlen mem))).
Qed.

(** Writing to the end of a prefix of the block. *)
Lemma memory_write_prefix a t off d :
  0 <= off -> zlen a = off + zlen d ->
  memory_write (a ++ t) off d = Ok (take (Z.to_nat off) a ++ d ++ t).
Proof.
  intros. rewrite memory_write_Ok by (rewrite ?zlen_app; pose proof (zlen_nonneg t); lia).
  unfold zlen in *. rewrite take_app_le by lia.
  by rewrite drop_app_length' by lia.
Qed.

(** Writing behind a prefix. *)
Lemma memory_write_behind a t d :
  zlen d <= zlen t -> memory_write (a ++ t) (zlen a) d = Ok (a ++ d ++ drop (length d) t).
Proof.
  intros. rewrite memory_write_Ok by (rewrite ?zlen_app; pose proof (zlen_nonneg a); lia).
  unfold zlen in *. rewrite take_app_length' by lia.
  rewrite drop_app_ge by lia. do 4 f_equal. lia.
Qed.

Lemma memory_write_start t d :
  zlen d <= zlen t -> memory_write t 0 d = Ok (d ++ drop (length d) t).
Proof. apply (memory_write_behind []). Qed.

Lemma memory_write_byte a x t c :
  memory_write (a ++ x :: t) (zlen a) [c] = Ok (a ++ c :: t).
Proof. rewrite memory_write_behind; [done|]. unfold zlen. simpl. lia. Qed.

Lemma memcpy_from_prefix a t : memcpy_from (a ++ t) 0 (zlen a) = Ok a.
Proof.
  rewrite memcpy_from_Ok by (rewrite ?zlen_app; pose proof (zlen_nonneg a);
    pose proof (zlen_nonneg t); lia).
  by rewrite slice_prefix, slice_full by (pose proof (zlen_nonneg a); lia).
Qed.

Lemma memcpy_from_inside a b t :
  memcpy_from (a ++ b ++ t) (zlen a) (zlen b) = Ok b.
Proof.
  rewrite memcpy_from_Ok by (rewrite ?zlen_app; pose proof (zlen_nonneg a);
    pose proof (zlen_nonneg b); pose proof (zlen_nonneg t); lia).
  rewrite slice_suffix. unfold zlen. by rewrite Nat2Z.id, take_app_length.
Qed.

(** ** Sizes *)

Lemma double_size_spec fuel size m :
  0 < size -> m <= size * 2 ^ Z.of_nat fuel -> 0 <= m < 2 ^ 62 ->
  m <= double_size fuel size m < Z.max (size + 1) (2 * m + 1).
Proof.
  revert size. induction fuel as [|fuel IH]; intros size H0 H1 H2; cbn [double_size].
  { change (Z.of_nat 0) with 0 in H1. lia. }
  destruct (size <? m) eqn:E; reflect_bools; [|lia].
  rewrite u64_small by lia. rewrite (proj2 (Z.ltb_ge _ _)) by lia.
  rewrite Nat2Z.inj_succ, Z.pow_succ_r in H1 by lia.
  destruct (IH (size * 2)) as [? ?]; [lia|lia|lia|]. lia.
Qed.

Lemma memory_write_nil mem off mem' : memory_write mem off [] = Ok mem' -> mem' = mem.
Proof.
  unfold memory_write. case_match; [|done]. rewrite zlen_nil, Z.add_0_r. simpl.
  rewrite take_drop. congruence.
Qed.

(** A position and a length that are cut to a string. *)
Lemma clamp_spec (s : bytes) pos count :
  0 <= pos -> 0 <= count ->
  let p := if zlen s <? pos then zlen s else pos in
  let n := if zlen s - p <? count then zlen s - p else count in
  0 <= p <= zlen s /\ 0 <= n <= zlen s - p /\
  take (Z.to_nat pos) s = take (Z.to_nat p) s /\
  drop (Z.to_nat (pos + count)) s = drop (Z.to_nat (p + n)) s.
Proof.
  intros Hpos Hcount p n. pose proof (zlen_nonneg s). unfold n, p. split_and!.
  1-4: repeat case_match; reflect_bools; lia.
  - case_match; reflect_bools; [|done]. by rewrite !take_ge by zlen_lia.
  - repeat case_match; reflect_bools; [..|done]; by rewrite !drop_ge by zlen_lia.
Qed.

Section Facts.
Context `{Allocator}.

Lemma zlen_membuf_create n : 0 <= n < 2 ^ 62 -> n <= zlen (membuf_create n) < n + 8.
Proof.
  intros. unfold membuf_create. pose proof (align_default n).
  rewrite apr_palloc_length by lia. lia.
Qed.

(** The block is kept, or replaced by a larger one with the same start. *)
Lemma membuf_ensure_spec size m :
  0 < size -> 0 <= m < 2 ^ 61 ->
  match membuf_ensure size m with
  | Some mem => size < m /\ m <= zlen mem < 2 ^ 63
  | None => m <= size
  end.
Proof.
  intros. unfold membuf_ensure. destruct (Z.ltb_spec size m); [|done].
  rewrite (proj2 (Z.eqb_neq size 0)) by lia.
  destruct (double_size_spec 64 size m) as [? ?]; [lia|lia|lia|].
  pose proof (zlen_membuf_create (double_size 64 size m)). lia.
Qed.

(** [a] are the characters of the buffer and the one behind them. *)
Lemma ensure_spec str a t m :
  sb_data str = a ++ t -> zlen a = sb_len str + 1 -> 0 <= sb_len str -> 0 <= m < STRING_BOUND - 1 ->
  exists str', svn_stringbuf_ensure str m = Ok str' /\ sb_len str' = sb_len str /\
    (exists t', sb_data str' = a ++ t') /\ m + 1 <= blocksize str' /\
    (blocksize str' = blocksize str -> str' = str).
Proof.
  unfold STRING_BOUND. intros Hd Ha Hl Hm. unfold svn_stringbuf_ensure.
  pose proof (zlen_nonneg t). pose proof (zlen_nonneg a).
  assert (0 < blocksize str).
  { unfold blocksize. rewrite Hd, zlen_app. lia. }
  pose proof (membuf_ensure_spec (blocksize str) (m + 1)) as Hspec.
  rewrite u64_small by lia. destruct (membuf_ensure _ _) as [mem|].
  - destruct Hspec as [Hs Hmem]; [lia..|].
    unfold blocksize in *. rewrite Hd, zlen_app in *. rewrite <- Ha, memcpy_from_prefix. simpl.
    rewrite memory_write_Ok by lia. simpl. eexists. split; [done|].
    cbn [sb_data sb_len]. rewrite !zlen_app, zlen_drop by lia.
    split_and!; [done|by eexists|lia..].
  - exists str. split_and!; [done..|by exists t| |done]. apply Hspec; lia.
Qed.

Lemma ensure_holds str s m :
  holds str s -> 0 <= m < STRING_BOUND - 1 ->
  exists str' junk, svn_stringbuf_ensure str m = Ok str' /\ sb_len str' = zlen s /\
    sb_data str' = s ++ 0 :: junk /\ m <= zlen s + zlen junk /\
    (blocksize str' = blocksize str -> str' = str).
Proof.
  intros (Hl & Hs & junk & Hd) Hm. pose proof (zlen_nonneg s).
  destruct (ensure_spec str (s ++ [0]) junk m) as (str' & E & Hl' & (t' & Hd') & Hb & Hsame).
  - by rewrite Hd, <- app_assoc.
  - rewrite zlen_app, Hl. done.
  - lia.
  - done.
  - exists str', t'. rewrite <- app_assoc in Hd'. simpl in Hd'. unfold blocksize in *.
    rewrite Hd', zlen_app, zlen_cons in Hb.
    split_and!; [done|congruence|done|lia|done].
Qed.

(** ** Creating *)

Lemma create_ensure_holds n :
  0 <= n < STRING_BOUND -> exists str, svn_stringbuf_create_ensure n = Ok str /\
    holds str [] /\ n + 1 <= blocksize str.
Proof.
  unfold STRING_BOUND. intros Hn. unfold svn_stringbuf_create_ensure, sizeof_stringbuf.
  rewrite (u64_small (n + 1)), u64_small by lia.
  pose proof (zlen_membuf_create (n + 1 + 32)).
  rewrite memory_write_Ok by zlen_lia. simpl. eexists. split; [done|].
  split; [by eapply (holds_intro _ [])|]. unfold blocksize. cbn [sb_data].
  zlen_lia.
Qed.

Lemma ncreate_holds b :
  zlen b < STRING_BOUND -> exists str, svn_stringbuf_ncreate b = Ok str /\ holds str b.
Proof.
  intros Hb. unfold svn_stringbuf_ncreate. pose proof (zlen_nonneg b).
  destruct (create_ensure_holds (zlen b)) as (str & -> & (Hl & _ & junk & Hd) & Hs); [lia|].
  simpl in Hd. unfold blocksize in Hs. simpl. destruct (Z.eqb_spec (zlen b) 0) as [E|E]; simpl.
  - rewrite (zlen_zero _ E), Hd in *. rewrite (memory_write_byte [] 0 junk 0 : memory_write (0 :: junk) (zlen []) [0] = _). simpl.
    eexists. split; [done|]. by eapply (holds_intro _ []).
  - rewrite memory_write_Ok by lia. simpl.
    pose proof (memory_write_behind b (drop (Z.to_nat (0 + zlen b)) (sb_data str)) [0]) as ->.
    + simpl. eexists. split; [done|]. by eapply holds_intro.
    + rewrite zlen_drop by lia. unfold zlen in *. simpl. lia.
Qed.

Lemma dup_holds str s :
  holds str s -> exists str', svn_stringbuf_dup str = Ok str' /\ holds str' s.
Proof.
  intros (Hl & Hs & junk & Hd). unfold svn_stringbuf_dup.
  rewrite Hd, Hl, memcpy_from_prefix. simpl. by apply ncreate_holds.
Qed.

(** ** Counted strings and memory buffers *)

(** [str] is the string [s], with a NUL behind it. *)
Definition is_string (str : svn_string_t) (s : bytes) : Prop :=
  str_len str = zlen s /\ exists junk, str_data str = s ++ 0 :: junk.

Lemma string_ncreate_spec b :
  zlen b < STRING_BOUND -> exists str, svn_string_ncreate b = Ok str /\ is_string str b.
Proof.
  unfold STRING_BOUND. intros Hb. pose proof (zlen_nonneg b). unfold svn_string_ncreate, sizeof_string.
  rewrite u64_small by lia. set (data := drop _ _).
  assert (zlen data = zlen b + 1) as Hd.
  { unfold data. rewrite zlen_drop; rewrite apr_palloc_length; lia. }
  assert ((if negb (zlen b =? 0) then memory_write data 0 b else Ok data)
          = Ok (b ++ drop (length b) data)) as ->.
  { destruct (Z.eqb_spec (zlen b) 0) as [E|E]; simpl; [by rewrite (zlen_zero _ E)|].
    apply memory_write_start. lia. }
  cbn [mbind result_bind]. destruct (drop (length b) data) as [|x t] eqn:E.
  { apply (f_equal length) in E. zlen_lia. }
  rewrite memory_write_byte. eexists. split; [done|]. by split; [|exists t].
Qed.

Lemma morph_is_string str s : holds str s -> is_string (svn_stringbuf__morph_into_string str) s.
Proof. intros (? & _ & ?). by split. Qed.

Lemma string_dup_spec str s :
  is_string str s -> zlen s < STRING_BOUND ->
  exists str', svn_string_dup (Some str) = Ok (Some str') /\ is_string str' s.
Proof.
  intros (Hl & junk & Hd) Hs. unfold svn_string_dup. rewrite Hl, Hd, memcpy_from_prefix.
  destruct (string_ncreate_spec s Hs) as (str' & E & Hstr'). cbn [mbind result_bind]. rewrite E.
  by exists str'.
Qed.

(** A buffer and a string are converted without a change. *)
Lemma string_from_buf str s :
  holds str s -> exists str', svn_string_create_from_buf str = Ok str' /\ is_string str' s.
Proof.
  intros (Hl & Hs & junk & Hd). unfold svn_string_create_from_buf.
  rewrite Hl, Hd, memcpy_from_prefix. by apply string_ncreate_spec.
Qed.

Lemma buf_from_string str s :
  is_string str s -> zlen s < STRING_BOUND ->
  exists str', svn_stringbuf_create_from_string str = Ok str' /\ holds str' s.
Proof.
  intros (Hl & junk & Hd) Hs. unfold svn_stringbuf_create_from_string.
  rewrite Hl, Hd, memcpy_from_prefix. by apply ncreate_holds.
Qed.

(** Equality of strings. *)
Lemma string_compare_spec a b s t :
  is_string a s -> is_string b t -> svn_string_compare a b = Ok (bool_decide (s = t)).
Proof.
  intros (Hla & ja & Hda) (Hlb & jb & Hdb). unfold svn_string_compare, string_compare.
  rewrite Hla, Hlb, Hda, Hdb. destruct (Z.eqb_spec (zlen s) (zlen t)) as [E|E]; cbn [negb].
  - rewrite memcpy_from_prefix, E, memcpy_from_prefix. done.
  - rewrite bool_decide_false; [done|]. congruence.
Qed.

(** Resizing keeps the contents at the start. *)
Lemma membuf_resize_keeps mb size :
  0 < zlen mb -> 0 <= size < 2 ^ 61 ->
  exists mb', svn_membuf__resize mb size = Ok mb' /\ size <= zlen mb' /\ exists t, mb' = mb ++ t.
Proof.
  intros H0 Hs. unfold svn_membuf__resize. pose proof (membuf_ensure_spec (zlen mb) size H0 Hs) as Hspec.
  destruct (membuf_ensure _ _) as [mem|].
  - destruct Hspec as [Hlt Hm]. rewrite memory_write_start by lia. eexists. split; [done|].
    split; [zlen_lia|by eexists].
  - exists mb. split_and!; [done..|]. exists []. by rewrite app_nil_r.
Qed.

(** ** Shortening *)

Lemma setempty_holds str s :
  holds str s -> exists str', svn_stringbuf_setempty str = Ok str' /\ holds str' [].
Proof.
  intros (Hl & Hs & junk & Hd). unfold svn_stringbuf_setempty. rewrite Hd.
  rewrite memory_write_Ok by (rewrite ?zlen_app; unfold zlen; simpl; lia). simpl.
  eexists. split; [done|]. by eapply (holds_intro _ []).
Qed.

(** Ending the string earlier. *)
Lemma cut_holds str s n :
  holds str s -> 0 <= n <= zlen s ->
  exists data, memory_write (sb_data str) n [0] = Ok data /\
    holds (mk_stringbuf data n) (take (Z.to_nat n) s).
Proof.
  intros (Hl & Hs & junk & Hd) Hn. rewrite Hd.
  rewrite memory_write_Ok by (rewrite ?zlen_app; unfold zlen in *; simpl; lia).
  eexists. split; [done|]. unfold zlen in *.
  split_and!; cbn [sb_len sb_data]; [unfold zlen; rewrite length_take; lia
    |unfold zlen; rewrite length_take; lia|].
  rewrite take_app_le by lia. by eexists.
Qed.

Lemma chop_holds str s n :
  holds str s -> 0 <= n ->
  exists str', svn_stringbuf_chop str n = Ok str' /\ holds str' (take (length s - Z.to_nat n) s).
Proof.
  intros Hstr Hn. unfold svn_stringbuf_chop. pose proof Hstr as (Hl & _ & _). rewrite Hl.
  set (len := if zlen s <? n then 0 else zlen s - n).
  assert (0 <= len <= zlen s /\ Z.to_nat len = (length s - Z.to_nat n)%nat) as [Hlen E].
  { unfold len, zlen. destruct (Z.ltb_spec (Z.of_nat (length s)) n); lia. }
  destruct (cut_holds str s len Hstr Hlen) as (data & -> & Hd). rewrite E in Hd.
  simpl. by eexists.
Qed.

Lemma leftchop_holds str s n :
  holds str s -> 0 <= n ->
  exists str', svn_stringbuf_leftchop str n = Ok str' /\ holds str' (drop (Z.to_nat n) s).
Proof.
  intros Hstr Hn. pose proof Hstr as (Hl & Hs & junk & Hd). unfold svn_stringbuf_leftchop.
  destruct (Z.eqb_spec (sb_len str) 0) as [E|E]; [|destruct (Z.leb_spec (sb_len str) n)].
  - rewrite Hl in E. rewrite (zlen_zero _ E), drop_nil in *. by eexists.
  - rewrite drop_ge by (unfold zlen in *; lia).
    destruct (cut_holds str s 0 Hstr) as (data & -> & Hd'); [pose proof (zlen_nonneg s); lia|].
    simpl. by eexists.
  - eexists. split; [done|]. unfold zlen in *.
    split_and!; cbn [sb_len sb_data]; unfold zlen; rewrite ?length_drop; [lia..|].
    rewrite Hd, drop_app_le by lia. by eexists.
Qed.

(** ** Appending *)

(** New characters and a NUL at the end of the string. *)
Lemma write_end s b junk :
  zlen b <= zlen junk ->
  exists data, memory_write (s ++ 0 :: junk) (zlen s) b = Ok data /\
    memory_write data (zlen s + zlen b) [0] = Ok ((s ++ b) ++ 0 :: drop (length b) junk).
Proof.
  intros Hb. rewrite memory_write_behind by zlen_lia. eexists. split; [done|].
  rewrite app_assoc, <- zlen_app.
  destruct (drop (length b) (0 :: junk)) as [|x t] eqn:E.
  { apply (f_equal length) in E. rewrite length_drop in E. zlen_lia. }
  rewrite memory_write_byte. do 4 f_equal.
  apply (f_equal (drop 1)) in E. rewrite drop_drop in E. simpl in E.
  by rewrite Nat.add_1_r in E.
Qed.

Lemma append_holds str s junk b :
  sb_data str = s ++ 0 :: junk -> zlen b <= zlen junk -> zlen s + zlen b < STRING_BOUND ->
  exists data data', memory_write (sb_data str) (zlen s) b = Ok data /\
    memory_write data (zlen s + zlen b) [0] = Ok data' /\
    holds (mk_stringbuf data' (zlen s + zlen b)) (s ++ b).
Proof.
  intros Hd Hb Hs. destruct (write_end s b junk Hb) as (data & E1 & E2).
  rewrite Hd. do 2 eexists. split_and!; [done..|].
  rewrite <- zlen_app. eapply holds_intro; [done|]. by rewrite zlen_app.
Qed.

(** [b] are the [count] bytes at the pointer; bytes of the buffer itself are
    bytes of the string. *)
Definition source_gives (s : bytes) (src : source) (count : Z) (b : bytes) : Prop :=
  0 <= count /\
  match src with
  | Outside bytes => count <= zlen bytes /\ b = slice bytes 0 count
  | Inside off => 0 <= off /\ off + count <= zlen s /\ b = slice s off count
  end.

Lemma source_bytes_spec str s src count b :
  holds str s -> source_gives s src count b -> source_bytes str src count = Ok b /\ zlen b = count.
Proof.
  intros (Hl & _ & junk & Hd) [Hc Hsrc]. destruct src as [bytes|off]; simpl.
  - destruct Hsrc as [? ->]. by rewrite memcpy_from_Ok, zlen_slice by lia.
  - destruct Hsrc as (? & ? & ->). rewrite Hd.
    rewrite memcpy_from_Ok by zlen_lia. by rewrite slice_prefix, zlen_slice by lia.
Qed.

Lemma source_overlaps_false str str' s src count b :
  holds str s -> source_gives s src count b -> source_overlaps str str' src count = false.
Proof.
  intros (Hl & _) [Hc Hsrc]. destruct src as [|off]; [done|]. destruct Hsrc as (? & ? & _).
  unfold source_overlaps. by rewrite (proj2 (Z.ltb_ge (sb_len str) _)), andb_false_r by lia.
Qed.

Lemma appendbytes_holds str s src count b :
  holds str s -> source_gives s src count b -> zlen s + count < STRING_BOUND - 1 ->
  exists str', svn_stringbuf_appendbytes str src count = Ok str' /\ holds str' (s ++ b).
Proof.
  intros Hstr Hsrc Hb. destruct (source_bytes_spec _ _ _ _ _ Hstr Hsrc) as [Eb Hlen].
  pose proof Hstr as (Hl & Hs & _). pose proof (zlen_nonneg s). pose proof (zlen_nonneg b).
  unfold svn_stringbuf_appendbytes. destruct (Z.eqb_spec count 0) as [->|Hc].
  { apply zlen_zero in Hlen as ->. rewrite app_nil_r. by eexists. }
  rewrite Hl, u64_small by (unfold STRING_BOUND in *; lia).
  destruct (ensure_holds str s (zlen s + count)) as (str' & junk & -> & Hl' & Hd' & Hroom & _);
    [done|lia|]. simpl. rewrite Eb. simpl. rewrite (source_overlaps_false _ _ _ _ _ _ Hstr Hsrc).
  destruct (append_holds str' s junk b) as (data & data' & -> & E & Hh); [done|lia..|].
  rewrite Hlen in *. simpl. rewrite E. simpl. by eexists.
Qed.

Lemma appendbytes_outside str s b :
  holds str s -> zlen s + zlen b < STRING_BOUND - 1 ->
  exists str', svn_stringbuf_appendbytes str (Outside b) (zlen b) = Ok str' /\ holds str' (s ++ b).
Proof.
  intros. eapply appendbytes_holds; [done| |done]. split; [apply zlen_nonneg|].
  split; [done|]. by rewrite slice_full.
Qed.

Lemma appendbyte_holds str s c :
  holds str s -> zlen s < STRING_BOUND - 2 ->
  exists str', svn_stringbuf_appendbyte str c = Ok str' /\ holds str' (s ++ [c]).
Proof.
  intros Hstr Hs. pose proof Hstr as (Hl & _ & junk & Hd). unfold svn_stringbuf_appendbyte.
  rewrite Hl, u64_small by (unfold STRING_BOUND in *; zlen_lia).
  destruct (Z.ltb_spec (zlen s + 1) (blocksize str)) as [Hb|Hb].
  - unfold blocksize in Hb. rewrite Hd, zlen_app, zlen_cons in Hb.
    destruct (append_holds str s junk [c]) as (data & data' & -> & E & Hh);
      [done|zlen_lia..|]. simpl. change (zlen [c]) with 1 in *. rewrite E. simpl. by eexists.
  - apply (appendbytes_outside _ _ [c]); [done|zlen_lia].
Qed.

Lemma appendfill_holds str s c count :
  holds str s -> 0 <= count -> zlen s + count < STRING_BOUND - 1 ->
  exists str', svn_stringbuf_appendfill str c count = Ok str' /\
    holds str' (s ++ replicate (Z.to_nat count) c).
Proof.
  intros Hstr Hc Hs. pose proof Hstr as (Hl & _). unfold svn_stringbuf_appendfill, memset.
  rewrite Hl, u64_small by (unfold STRING_BOUND in *; zlen_lia).
  destruct (ensure_holds str s (zlen s + count)) as (str' & junk & -> & Hl' & Hd' & Hroom & _);
    [done|zlen_lia|]. simpl. rewrite Hl'.
  destruct (append_holds str' s junk (replicate (Z.to_nat count) c))
    as (data & data' & -> & E & Hh); [done|zlen_lia..|].
  simpl. assert (zlen (replicate (Z.to_nat count) c) = count) as El by zlen_lia.
  rewrite El in *. rewrite E. simpl. by eexists.
Qed.

Lemma fillchar_holds str s c :
  holds str s -> exists str', svn_stringbuf_fillchar str c = Ok str' /\
    holds str' (replicate (length s) c).
Proof.
  intros (Hl & Hs & junk & Hd). unfold svn_stringbuf_fillchar, memset. rewrite Hl, Hd.
  rewrite memory_write_prefix by zlen_lia. simpl. eexists. split; [done|].
  replace (Z.to_nat (zlen s)) with (length s) by zlen_lia.
  replace (zlen s) with (zlen (replicate (length s) c)) by zlen_lia.
  eapply holds_intro; [done|zlen_lia].
Qed.

Lemma set_holds str s value :
  holds str s -> zlen value < STRING_BOUND - 1 ->
  exists str', svn_stringbuf_set str value = Ok str' /\ holds str' value.
Proof.
  unfold STRING_BOUND. intros (Hl & Hs & junk & Hd) Hv. unfold svn_stringbuf_set.
  pose proof (zlen_nonneg value). rewrite u64_small by lia.
  set (data := default _ _). assert (zlen value + 1 <= zlen data) as Hroom.
  { unfold data. pose proof (membuf_ensure_spec (blocksize str) (zlen value + 1)) as Hspec.
    assert (0 < blocksize str) by (unfold blocksize; rewrite Hd; zlen_lia).
    destruct (membuf_ensure _ _); simpl; apply Hspec; lia. }
  rewrite memory_write_Ok by zlen_lia. simpl. eexists. split; [done|].
  eapply holds_intro; [by rewrite <- app_assoc|unfold STRING_BOUND; lia].
Qed.

(** ** Splicing *)

(** Moving the end of the string and writing [b] in front of it. *)
Lemma splice s junk p o b :
  0 <= p -> 0 <= o -> p + o <= zlen s -> zlen b <= o + zlen junk ->
  exists data junk', memmove (s ++ 0 :: junk) (p + zlen b) (p + o) (zlen s - p - o + 1) = Ok data /\
    memory_write data p b =
      Ok ((take (Z.to_nat p) s ++ b ++ drop (Z.to_nat (p + o)) s) ++ 0 :: junk').
Proof.
  intros Hp Ho Hpo Hb. unfold memmove. rewrite memcpy_from_Ok by zlen_lia. simpl.
  assert (slice (s ++ 0 :: junk) (p + o) (zlen s - p - o + 1) = drop (Z.to_nat (p + o)) s ++ [0]) as ->.
  { unfold slice, zlen in *. rewrite drop_app_le by lia.
    replace (Z.to_nat _) with (length (drop (Z.to_nat (p + o)) s) + 1)%nat by zlen_lia.
    by rewrite take_app_add. }
  rewrite memory_write_Ok by zlen_lia. eexists _, _. split; [done|].
  rewrite memory_write_prefix by zlen_lia.
  rewrite take_take, Nat.min_l, take_app_le by zlen_lia. by rewrite <- !app_assoc.
Qed.

Lemma remove_holds str s pos count :
  holds str s -> 0 <= pos -> 0 <= count ->
  exists str', svn_stringbuf_remove str pos count = Ok str' /\
    holds str' (take (Z.to_nat pos) s ++ drop (Z.to_nat (pos + count)) s).
Proof.
  intros (Hl & Hs & junk & Hd) Hpos Hcount. unfold svn_stringbuf_remove. rewrite Hl.
  set (p := if zlen s <? pos then zlen s else pos).
  set (n := if zlen s - p <? count then zlen s - p else count).
  destruct (clamp_spec s pos count) as (Hp & Hn & -> & ->); [done..|]. fold p n in Hp, Hn |- *.
  destruct (splice s junk p n []) as (data & junk' & E & E'); [zlen_lia..|].
  rewrite Z.add_0_r in E. rewrite Hd, E. simpl.
  apply memory_write_nil in E' as <-. eexists. split; [done|].
  replace (zlen s - n) with (zlen (take (Z.to_nat p) s ++ drop (Z.to_nat (p + n)) s)) by zlen_lia.
  by eapply holds_intro; [|zlen_lia].
Qed.

Lemma insert_holds str s pos src count b :
  holds str s -> source_gives s src count b -> 0 <= pos -> zlen s + count < STRING_BOUND - 1 ->
  exists str', svn_stringbuf_insert str pos src count = Ok str' /\
    holds str' (take (Z.to_nat pos) s ++ b ++ drop (Z.to_nat pos) s).
Proof.
  intros Hstr Hsrc Hpos Hb. destruct (source_bytes_spec _ _ _ _ _ Hstr Hsrc) as [Eb Hlen].
  pose proof Hstr as (Hl & Hs & _). pose proof (zlen_nonneg s). pose proof (zlen_nonneg b).
  unfold svn_stringbuf_insert. destruct (Z.eqb_spec count 0) as [->|Hc].
  { apply zlen_zero in Hlen as ->. simpl. rewrite take_drop. by eexists. }
  rewrite Eb, Hl. simpl.
  set (p := if zlen s <? pos then zlen s else pos).
  destruct (clamp_spec s pos 0) as (Hp & Hn & Et & Ed); [lia..|].
  fold p in Hp, Et, Ed. rewrite (proj2 (Z.ltb_ge (zlen s - p) 0)), !Z.add_0_r in Ed by lia.
  rewrite Et, Ed.
  rewrite u64_small by (unfold STRING_BOUND in *; lia).
  destruct (ensure_holds str s (zlen s + count)) as (str' & junk & -> & Hl' & Hd' & Hroom & _);
    [done|lia|]. simpl. rewrite Hl', Hd'.
  destruct (splice s junk p 0 b) as (data & junk' & E & E'); [lia..|].
  rewrite Hlen, Z.sub_0_r, Z.add_0_r in *. rewrite E. simpl. rewrite E'. simpl.
  eexists. split; [done|]. rewrite u64_small by (unfold STRING_BOUND in *; lia).
  replace (zlen s + count) with (zlen (take (Z.to_nat p) s ++ b ++ drop (Z.to_nat p) s)) by zlen_lia.
  by eapply holds_intro; [|zlen_lia].
Qed.

Lemma replace_holds str s pos old_count src new_count b :
  holds str s -> source_gives s src new_count b -> 0 <= pos -> 0 <= old_count ->
  zlen s + new_count < STRING_BOUND - 1 ->
  exists str', svn_stringbuf_replace str pos old_count src new_count = Ok str' /\
    holds str' (take (Z.to_nat pos) s ++ b ++ drop (Z.to_nat (pos + old_count)) s).
Proof.
  intros Hstr Hsrc Hpos Ho Hb. destruct (source_bytes_spec _ _ _ _ _ Hstr Hsrc) as [Eb Hlen].
  pose proof Hstr as (Hl & Hs & junk0 & Hd0). pose proof (zlen_nonneg s). pose proof (zlen_nonneg b).
  unfold svn_stringbuf_replace. destruct (Z.eqb_spec new_count 0) as [->|Hc].
  { apply zlen_zero in Hlen as ->. by apply remove_holds. }
  rewrite Eb, Hl. cbn [mbind result_bind].
  set (p := if zlen s <? pos then zlen s else pos).
  set (n := if zlen s - p <? old_count then zlen s - p else old_count).
  destruct (clamp_spec s pos old_count) as (Hp & Hn & -> & ->); [done..|].
  fold p n in Hp, Hn |- *.
  assert (exists str' junk, (if n <? new_count
      then svn_stringbuf_ensure str (u64 (zlen s + (new_count - n))) else Ok str) = Ok str' /\
      sb_len str' = zlen s /\ sb_data str' = s ++ 0 :: junk /\ zlen b <= n + zlen junk)
    as (str' & junk & -> & Hl' & Hd' & Hroom).
  { destruct (Z.ltb_spec n new_count); [|exists str, junk0; split_and!; [done..|zlen_lia]].
    rewrite u64_small by (unfold STRING_BOUND in *; lia).
    destruct (ensure_holds str s (zlen s + (new_count - n))) as (str' & junk & E); [done|lia|].
    exists str', junk. split_and!; try apply E. lia. }
  cbn [mbind result_bind]. rewrite Hl', Hd'.
  assert (exists data junk', (if negb (n =? new_count)
      then memmove (s ++ 0 :: junk) (p + new_count) (p + n) (zlen s - p - n + 1)
      else Ok (s ++ 0 :: junk)) = Ok data /\
      memory_write data p b =
        Ok ((take (Z.to_nat p) s ++ b ++ drop (Z.to_nat (p + n)) s) ++ 0 :: junk'))
    as (data & junk' & -> & E').
  { destruct (Z.eqb_spec n new_count) as [En|En]; simpl.
    - exists (s ++ 0 :: junk), junk. split; [done|]. rewrite memory_write_Ok by zlen_lia.
      rewrite take_app_le, drop_app_le, <- !app_assoc by zlen_lia. do 4 f_equal. by rewrite En, Hlen.
    - rewrite <- Hlen. apply splice; lia. }
  cbn [mbind result_bind]. rewrite E'. cbn [mbind result_bind]. eexists. split; [done|].
  replace (u64 _) with (zlen (take (Z.to_nat p) s ++ b ++ drop (Z.to_nat (p + n)) s)).
  { by eapply holds_intro; [|zlen_lia]. }
  unfold u64. rewrite Zplus_mod_idemp_r. rewrite Z.mod_small by (unfold STRING_BOUND in *; lia). zlen_lia.
Qed.
End Facts.

(** ** Trimming *)

Fixpoint drop_space (s : bytes) : bytes :=
  match s with
  | [] => []
  | c :: s' => if svn_ctype_isspace c then drop_space s' else s
  end.

Definition drop_space_end (s : bytes) : bytes := reverse (drop_space (reverse s)).

Lemma drop_space_suffix s : exists p, s = p ++ drop_space s /\ Forall (fun c => svn_ctype_isspace c) p.
Proof.
  induction s as [|c s (p & E & Hp)]; simpl; [by exists []|].
  destruct (svn_ctype_isspace c) eqn:Hc; [|by exists []].
  exists (c :: p). simpl. rewrite <- E. split; [done|]. constructor; [by rewrite Hc|done].
Qed.

Lemma byte_at_middle a c t : byte_at (a ++ c :: t) (zlen a) = c.
Proof. unfold byte_at, zlen. by rewrite Nat2Z.id, list_lookup_middle. Qed.

Lemma first_non_whitespace_spec s a t :
  first_non_whitespace (length s) (a ++ s ++ t) (zlen a) = zlen a + (zlen s - zlen (drop_space s)).
Proof.
  revert a. induction s as [|c s IH]; intros a; cbn [first_non_whitespace length drop_space app]; [zlen_lia|].
  rewrite byte_at_middle. destruct (svn_ctype_isspace c); simpl; [|zlen_lia].
  specialize (IH (a ++ [c])). rewrite <- app_assoc in IH. simpl in IH.
  replace (zlen a + 1) with (zlen (a ++ [c])) by zlen_lia. rewrite IH. zlen_lia.
Qed.

Lemma trim_len_spec s t :
  trim_len (length s) (s ++ t) = zlen (drop_space_end s) /\
  take (length (drop_space_end s)) s = drop_space_end s.
Proof.
  revert t. induction s as [|c s IH] using rev_ind; intros t; [done|].
  unfold drop_space_end. rewrite reverse_snoc, length_app, Nat.add_1_r. simpl.
  rewrite <- app_assoc. change ([c] ++ t) with (c :: t).
  change (Z.of_nat (length s)) with (zlen s). rewrite byte_at_middle.
  destruct (svn_ctype_isspace c).
  - destruct (IH (c :: t)) as [E Et]. rewrite E. split; [done|].
    rewrite take_app_le; [done|].
    destruct (drop_space_suffix (reverse s)) as (p & Hp & _).
    apply (f_equal length) in Hp. rewrite length_app, length_reverse in Hp.
    unfold drop_space_end. rewrite length_reverse. lia.
  - rewrite reverse_cons, reverse_involutive. split; [zlen_lia|]. by apply take_ge.
Qed.

Lemma strip_whitespace_holds str s :
  holds str s ->
  exists str', svn_stringbuf_strip_whitespace str = Ok str' /\
    holds str' (drop_space_end (drop_space s)).
Proof.
  intros Hstr. unfold svn_stringbuf_strip_whitespace.
  set (str1 := if _ : bool then _ else _). assert (holds str1 (drop_space s)) as H1.
  { pose proof Hstr as (Hl & Hs & junk & Hd). unfold str1. rewrite Hd, Hl.
    destruct s as [|c s]; [done|]. change (byte_at ((c :: s) ++ 0 :: junk) 0) with c.
    cbn [drop_space]. destruct (svn_ctype_isspace c); [|done].
    unfold string_first_non_whitespace. cbn [app drop]. rewrite drop_0.
    replace (Z.to_nat (zlen (c :: s) - 1)) with (length s) by zlen_lia.
    pose proof (first_non_whitespace_spec s [] (0 :: junk)) as E. change (zlen []) with 0 in E. simpl in E.
    rewrite E. destruct (drop_space_suffix s) as (p & Ep & _).
    assert (zlen s = zlen p + zlen (drop_space s)) as El by (rewrite Ep at 1; zlen_lia).
    replace (Z.to_nat _) with (S (length p)) by zlen_lia. simpl.
    replace (zlen (c :: s) - _) with (zlen (drop_space s)) by zlen_lia.
    eapply holds_intro; [|zlen_lia]. rewrite Ep at 1. by rewrite <- app_assoc, drop_app_length. }
  pose proof H1 as (Hl & Hs & junk & Hd). rewrite Hd, Hl.
  replace (Z.to_nat (zlen (drop_space s))) with (length (drop_space s)) by zlen_lia.
  destruct (trim_len_spec (drop_space s) (0 :: junk)) as [-> Et].
  destruct (cut_holds str1 (drop_space s) (zlen (drop_space_end (drop_space s))) H1)
    as (data & E & Hh).
  { apply (f_equal length) in Et. rewrite length_take in Et. zlen_lia. }
  rewrite Hd in E. rewrite E. simpl. eexists. split; [done|]. 
  unfold zlen in Hh at 2. by rewrite Nat2Z.id, Et in Hh.
Qed.

(** ** Replacing all occurrences *)

Section ReplaceAll.
Context `{Allocator} (needle repl : bytes).

(** The occurrences of [needle], from the left, replaced by [repl]; the first
    [skip] characters belong to an occurrence. *)
Fixpoint replaced (skip : nat) (s : bytes) : bytes :=
  match s, skip with
  | [], _ => []
  | _ :: s', S k => replaced k s'
  | c :: s', O =>
      if starts_with s needle then repl ++ replaced (length needle - 1) s'
      else c :: replaced 0 s'
  end.

(** Their number. *)
Fixpoint occurrences (skip : nat) (s : bytes) : Z :=
  match s, skip with
  | [], _ => 0
  | _ :: s', S k => occurrences k s'
  | c :: s', O =>
      if starts_with s needle then 1 + occurrences (length needle - 1) s'
      else occurrences 0 s'
  end.

Definition no_nul (s : bytes) : Prop := Forall (fun c => c <> 0) s.

Hypothesis needle_nonempty : needle <> [].
Hypothesis needle_no_nul : no_nul needle.

Lemma starts_with_iff s n : starts_with s n = true <-> exists rest, s = n ++ rest.
Proof.
  revert s. induction n as [|c n IH]; intros s; simpl.
  { split; [by exists s|]. by destruct s. }
  destruct s as [|d s]; simpl; [naive_solver|].
  rewrite andb_true_iff, Z.eqb_eq, IH. naive_solver.
Qed.

(** The NUL behind a string is not part of an occurrence. *)
Lemma starts_with_nul s junk n :
  no_nul n -> starts_with (s ++ 0 :: junk) n = starts_with s n.
Proof.
  intros Hn. revert s. induction Hn as [|c n Hc Hn IH]; intros s; [by destruct s|].
  destruct s as [|d s]; simpl; [|by rewrite IH]. by rewrite (proj2 (Z.eqb_neq c 0)).
Qed.

Lemma replaced_skip a s : replaced (length a) (a ++ s) = replaced 0 s.
Proof. induction a as [|c a IH]; simpl; [by destruct s|done]. Qed.

Lemma occurrences_skip a s : occurrences (length a) (a ++ s) = occurrences 0 s.
Proof. induction a as [|c a IH]; simpl; [by destruct s|done]. Qed.

(** What [strstr] finds is the occurrence that is replaced next. *)
Lemma strstr_finds t junk off :
  no_nul t ->
  (strstr_from (t ++ 0 :: junk) needle off = Ok None /\ replaced 0 t = t /\ occurrences 0 t = 0) \/
  exists pre rest, t = pre ++ needle ++ rest /\
    strstr_from (t ++ 0 :: junk) needle off = Ok (Some (off + zlen pre)) /\
    replaced 0 t = pre ++ repl ++ replaced 0 rest /\
    occurrences 0 t = 1 + occurrences 0 rest.
Proof.
  intros Ht. revert off. induction Ht as [|c t Hc Ht IH]; intros off.
  - left. split_and!; [|done..]. simpl.
    destruct needle as [|d n] eqn:En; [done|]. cbn [starts_with].
    apply Forall_cons in needle_no_nul as [Hd _]. by rewrite (proj2 (Z.eqb_neq d 0)).
  - cbn [strstr_from app]. change (c :: t ++ 0 :: junk) with ((c :: t) ++ 0 :: junk).
    rewrite starts_with_nul by done. cbn [replaced occurrences].
    destruct (starts_with (c :: t) needle) eqn:E.
    + right. apply starts_with_iff in E as [rest E]. exists [], rest.
      change (zlen []) with 0. rewrite Z.add_0_r. split_and!; [done..| |].
      all: destruct needle as [|d n]; [done|]; simpl in E; injection E as -> ->; simpl;
        rewrite Nat.sub_0_r, ?replaced_skip, ?occurrences_skip; done.
    + rewrite (proj2 (Z.eqb_neq c 0)) by done.
      destruct (IH (off + 1)) as [(-> & -> & ->)|(pre & rest & -> & -> & -> & ->)]; [by left|right].
      exists (c :: pre), rest. split_and!; [done| |done..]. do 2 f_equal. zlen_lia.
Qed.

(** *** The loop *)

Lemma copy_within_spec str a junk current to_copy :
  sb_data str = a ++ junk -> sb_len str = zlen a -> 0 <= current -> 0 <= to_copy ->
  current + to_copy <= zlen a -> to_copy <= zlen junk ->
  exists junk', copy_within str current to_copy =
      Ok (mk_stringbuf (a ++ slice a current to_copy ++ junk') (zlen a)) /\
    zlen junk' = zlen junk - to_copy.
Proof.
  intros Hd Hl Hc Ht Hin Hroom. unfold copy_within. destruct (Z.eqb_spec to_copy 0) as [->|Hne]; cbn [negb].
  - exists junk. split; [|lia]. rewrite slice_zero. simpl. rewrite <- Hd, <- Hl. by destruct str.
  - rewrite Hd, memcpy_from_Ok by zlen_lia. simpl. rewrite slice_prefix by done.
    pose proof (zlen_slice a current to_copy Hc Ht Hin) as Es.
    rewrite Hl, memory_write_behind by lia. simpl. eexists. split; [done|]. zlen_lia.
Qed.

(** A buffer without a NUL at its end; [a] is what it has of the string, the
    NUL behind that and the new contents. *)
Lemma ensure_open str a junk m :
  sb_data str = a ++ junk -> sb_len str = zlen a -> junk <> [] -> 0 <= m < STRING_BOUND - 1 ->
  exists str' junk', svn_stringbuf_ensure str m = Ok str' /\ sb_data str' = a ++ junk' /\
    sb_len str' = zlen a /\ m + 1 <= zlen a + zlen junk'.
Proof.
  intros Hd Hl Hj Hm. destruct junk as [|x junk]; [done|].
  destruct (ensure_spec str (a ++ [x]) junk m) as (str' & E & Hl' & (t & Hd') & Hb & _).
  - by rewrite Hd, <- app_assoc.
  - zlen_lia.
  - zlen_lia.
  - done.
  - exists str', (x :: t). unfold blocksize in Hb. rewrite Hd' in *. rewrite <- app_assoc in *.
    split_and!; [done|done|congruence|zlen_lia].
Qed.

(** What the loop has to do: the rest [t] of the string [done_ ++ t]. *)
Lemma replace_loop_spec fuel : forall str done_ t out junk count,
  (length t < fuel)%nat -> no_nul t ->
  sb_data str = (done_ ++ t) ++ 0 :: out ++ junk -> sb_len str = zlen (done_ ++ t) + 1 + zlen out ->
  junk <> [] -> zlen (done_ ++ t) + zlen out + zlen (replaced 0 t) < STRING_BOUND - 3 ->
  exists pos, strstr_at (sb_data str) (zlen done_) needle = Ok pos /\
  exists str' done' t' out' junk', replace_loop fuel str needle repl pos (zlen done_) count =
      Ok (str', zlen done', count + occurrences 0 t) /\
    done_ ++ t = done' ++ t' /\ sb_data str' = (done_ ++ t) ++ 0 :: out' ++ junk' /\
    sb_len str' = zlen (done_ ++ t) + 1 + zlen out' /\ junk' <> [] /\
    out' ++ t' = out ++ replaced 0 t.
Proof.
  induction fuel as [|fuel IH]; intros str dn t out junk count Hf Ht Hd Hl Hj Hb; [lia|].
  unfold strstr_at. rewrite Hd, <- app_assoc.
  replace (Z.to_nat (zlen dn)) with (length dn) by zlen_lia. rewrite drop_app_length.
  destruct (strstr_finds t (out ++ junk) (zlen dn) Ht)
    as [(-> & Er & ->)|(pre & rest & Et & -> & Er & Ec)]; eexists; (split; [done|]).
  { exists str, dn, t, out, junk. cbn [replace_loop]. rewrite Z.add_0_r, Er.
    split_and!; [done..| |done|done|done]. by rewrite Hd, <- app_assoc. }
  cbn [replace_loop]. replace (zlen dn + zlen pre - zlen dn) with (zlen pre) by lia.
  assert (zlen pre + zlen repl <= zlen (replaced 0 t)) as Hpr by (rewrite Er; zlen_lia).
  pose proof (zlen_nonneg pre). pose proof (zlen_nonneg repl). pose proof (zlen_nonneg out).
  pose proof (zlen_nonneg (dn ++ t)).
  set (a := (dn ++ t) ++ 0 :: out).
  assert (zlen a = zlen (dn ++ t) + 1 + zlen out) as Ea by (unfold a; zlen_lia).
  rewrite u64_small by (unfold STRING_BOUND in *; lia).
  destruct (ensure_open str a junk (sb_len str + zlen pre + zlen repl))
    as (str1 & junk1 & -> & Hd1 & Hl1 & Hroom);
    [unfold a; by rewrite Hd, <- !app_assoc|lia|done|lia|].
  destruct (copy_within_spec str1 a junk1 (zlen dn) (zlen pre) Hd1 Hl1)
    as (junk2 & E2 & Hj2); [zlen_lia|lia|rewrite Ea, Et; zlen_lia|lia|].
  assert (slice a (zlen dn) (zlen pre) = pre) as Es.
  { unfold a. rewrite Et, <- !app_assoc, slice_suffix. unfold zlen.
    by rewrite Nat2Z.id, take_app_length. }
  cbn [mbind result_bind]. rewrite E2, Es. cbn [mbind result_bind sb_len sb_data].
  rewrite app_assoc, <- zlen_app, memory_write_behind by lia. cbn [mbind result_bind].
  destruct (IH (mk_stringbuf (((a ++ pre) ++ repl) ++ drop (length repl) junk2)
                  (zlen ((a ++ pre) ++ repl))) (dn ++ pre ++ needle) rest (out ++ pre ++ repl)
              (drop (length repl) junk2) (count + 1))
    as (pos & Epos & str' & done' & t' & out' & junk' & E & F1 & F2 & F3 & F4 & F5).
  - subst t. destruct needle; [done|]. rewrite !length_app in Hf. simpl in Hf. lia.
  - subst t. apply Forall_app in Ht as [_ Ht]. by apply Forall_app in Ht as [_ Ht].
  - cbn [sb_data]. unfold a. by rewrite Et, <- !app_assoc.
  - cbn [sb_len]. unfold a. rewrite Et. zlen_lia.
  - intros Ej. apply (f_equal length) in Ej. zlen_lia.
  - rewrite <- !app_assoc, <- Et. rewrite Er in Hb. zlen_lia.
  - assert ((dn ++ pre ++ needle) ++ rest = dn ++ t) as Edt by (by rewrite Et, <- !app_assoc).
    rewrite Edt in F1, F2, F3. cbn [sb_data] in Epos.
    replace (zlen dn + zlen pre + zlen needle) with (zlen (dn ++ pre ++ needle)) by zlen_lia.
    rewrite <- zlen_app, (app_assoc (a ++ pre)), Epos. cbn [mbind result_bind]. rewrite E, Ec.
    exists str', done', t', out', junk'. split_and!; [by rewrite Z.add_assoc|done..|].
    by rewrite F5, Er, <- !app_assoc.
Qed.
(** Copying what is left of the string behind the last occurrence. *)
Lemma copy_rest str dn t out junk :
  sb_data str = (dn ++ t) ++ 0 :: out ++ junk -> sb_len str = zlen (dn ++ t) + 1 + zlen out ->
  junk <> [] -> zlen (dn ++ t) + zlen (out ++ t) < STRING_BOUND - 3 ->
  exists str' junk', (if negb (zlen t =? 0) then
      str ← svn_stringbuf_ensure str (u64 (sb_len str + zlen t));
      str ← copy_within str (zlen dn) (zlen t);
      Ok (mk_stringbuf (sb_data str) (sb_len str + zlen t)) else Ok str) = Ok str' /\
    sb_data str' = (dn ++ t) ++ 0 :: (out ++ t) ++ junk' /\
    sb_len str' = zlen (dn ++ t) + 1 + zlen (out ++ t).
Proof.
  intros Hd Hl Hj Hb. pose proof (zlen_nonneg t). pose proof (zlen_nonneg out). pose proof (zlen_nonneg dn).
  destruct (Z.eqb_spec (zlen t) 0) as [Ez|Ez]; cbn [negb].
  { apply zlen_zero in Ez as ->. exists str, junk. by rewrite !app_nil_r in *. }
  set (a := (dn ++ t) ++ 0 :: out).
  assert (zlen a = zlen (dn ++ t) + 1 + zlen out) as Ea by (unfold a; zlen_lia).
  rewrite !zlen_app in *. rewrite u64_small by (unfold STRING_BOUND in *; lia).
  destruct (ensure_open str a junk (sb_len str + zlen t)) as (str1 & junk1 & -> & Hd1 & Hl1 & Hr1);
    [unfold a; by rewrite Hd, <- !app_assoc|lia|done|lia|].
  destruct (copy_within_spec str1 a junk1 (zlen dn) (zlen t) Hd1 Hl1) as (junk2 & E2 & _); [lia..|].
  cbn [mbind result_bind]. rewrite E2. cbn [mbind result_bind sb_data sb_len].
  eexists _, junk2. split; [done|]. cbn [sb_data sb_len]. split; [|lia].
  assert (slice a (zlen dn) (zlen t) = t) as ->.
  { unfold a. rewrite <- app_assoc, slice_suffix. unfold zlen. by rewrite Nat2Z.id, take_app_length. }
  unfold a. by rewrite <- !app_assoc.
Qed.

(** The block must have room behind the NUL: see [replace_all_over_read]. *)
Lemma replace_all_holds str s :
  holds str s -> no_nul s -> zlen s + 1 < blocksize str ->
  zlen s + zlen (replaced 0 s) < STRING_BOUND - 3 ->
  exists str', svn_stringbuf_replace_all str needle repl = Ok (str', occurrences 0 s) /\
    holds str' (replaced 0 s).
Proof.
  intros Hstr Hs Hroom Hb. pose proof Hstr as (Hl & _ & junk & Hd).
  unfold svn_stringbuf_replace_all, blocksize in *. rewrite Hl.
  destruct (replace_loop_spec (S (length s)) (mk_stringbuf (sb_data str) (zlen s + 1)) [] s [] junk 0)
    as (pos & Epos & str' & done' & t' & out' & junk' & E & F1 & F2 & F3 & F4 & F5);
    [lia|done|done|cbn [sb_len app]; zlen_lia|intros ->; rewrite Hd in Hroom; zlen_lia|cbn [app]; zlen_lia|].
  cbn [sb_data] in Epos. change (zlen []) with 0 in Epos, E. cbn [app] in F1, F2, F3, F5.
  rewrite Epos. cbn [mbind result_bind].
  destruct (strstr_finds s junk 0 Hs) as [(E0 & Er & Eo)|(pre & rest & _ & E0 & _)];
    unfold strstr_at in Epos; rewrite drop_0, Hd in Epos; rewrite Epos in E0; injection E0 as ->.
  { exists str. by rewrite Er, Eo. }
  replace (S (Z.to_nat (zlen s))) with (S (length s)) by zlen_lia.
  rewrite E. cbn [mbind result_bind]. rewrite Z.add_0_l.
  replace (zlen s - zlen done') with (zlen t') by (rewrite F1; zlen_lia).
  pose proof F2 as F2'. pose proof F3 as F3'. rewrite F1 in F2', F3'.
  destruct (copy_rest str' done' t' out' junk' F2' F3' F4) as (str2 & junk2 & -> & Hd2 & Hl2);
    [rewrite <- F1, F5; zlen_lia|]. rewrite <- F1, F5 in Hd2, Hl2.
  cbn [mbind result_bind]. rewrite Hd2, Hl2.
  replace (_ - zlen s - 1) with (zlen (replaced 0 s)) by lia.
  unfold memmove. replace (s ++ 0 :: replaced 0 s ++ junk2) with ((s ++ [0]) ++ replaced 0 s ++ junk2)
    by by rewrite <- app_assoc.
  replace (zlen s + 1) with (zlen (s ++ [0])) by zlen_lia.
  rewrite memcpy_from_inside. cbn [mbind result_bind].
  rewrite memory_write_start by zlen_lia.
  cbn [mbind result_bind app].
  destruct (drop (length (replaced 0 s)) ((s ++ [0]) ++ replaced 0 s ++ junk2)) as [|x t] eqn:Ex.
  { apply (f_equal length) in Ex. zlen_lia. }
  rewrite memory_write_byte. cbn [mbind result_bind]. eexists. split; [done|].
  eapply holds_intro; [done|zlen_lia].
Qed.
End ReplaceAll.
