(* ===== verification/OutStream.v ===== *)
(** * Streams that are written to

    The encoders of base64 and quoted-printable are streams that write what
    they make of their data to another stream.  What arrives there is the list
    of blocks that were written and whether the stream was closed; a write of
    zero bytes is not made. *)

From S2P Require Import Prelude Buffers StringBuf StringBufFacts.

Record svn_stream_t := mk_stream {
  written : list bytes;
  closed : bool
}.

Definition svn_stream_write (stream : svn_stream_t) (block : bytes) : svn_stream_t :=
  mk_stream (written stream ++ [block]) (closed stream).

Definition svn_stream_close (stream : svn_stream_t) : svn_stream_t := mk_stream (written stream) true.

Definition new_stream : svn_stream_t := mk_stream [] false.

(** Everything that was written. *)
Definition received (stream : svn_stream_t) : bytes := concat (written stream).

(** [enclen = encoded->len; if (enclen != 0) svn_stream_write (...)] *)
Definition write_buffer (stream : svn_stream_t) (encoded : svn_stringbuf_t) : result svn_stream_t :=
  if negb (sb_len encoded =? 0) then
    block ← memcpy_from (sb_data encoded) 0 (sb_len encoded);
    Ok (svn_stream_write stream block)
  else Ok stream.

Lemma write_buffer_received stream encoded s :
  holds encoded s ->
  exists stream', write_buffer stream encoded = Ok stream' /\
    received stream' = received stream ++ s /\ closed stream' = closed stream.
Proof.
  intros (Hl & _ & junk & Hd). unfold write_buffer. rewrite Hl.
  destruct (Z.eqb_spec (zlen s) 0) as [E|E]; cbn [negb].
  - apply zlen_zero in E as ->. exists stream. by rewrite app_nil_r.
  - rewrite Hd, memcpy_from_prefix. eexists. split; [done|]. unfold received. simpl.
    by rewrite concat_app, concat_cons, concat_nil, app_nil_r.
Qed.

(** Writing blocks one after the other with a handler. *)
Section Write.
Context {Baton : Type} (write : Baton -> bytes -> result Baton).

Fixpoint write_blocks (baton : Baton) (blocks : list bytes) : result Baton :=
  match blocks with
  | [] => Ok baton
  | block :: blocks => baton ← write baton block; write_blocks baton blocks
  end.
End Write.
