(* ===== verification/Base64.v ===== *)
(** * Base64 (libsvn_subr/base64.c)

    The encoder and the decoder, each as a conversion of strings and as a
    stream that takes its data in pieces, with their fast paths that read and
    write the memory of the buffers for whole lines. *)

From S2P Require Import Prelude Buffers StringBuf OutStream.

Definition BASE64_LINELEN : Z := 76.

Definition BYTES_PER_LINE : Z := BASE64_LINELEN / 4 * 3.

Definition base64tab : bytes :=
  cstr "ABCDEFGHIJKLMNOPQRSTUVWXYZabcdefghijklmnopqrstuvwxyz0123456789+/".

(** ** Encoding *)

Definition encode_group (part0 part1 part2 : Z) : bytes :=
  [byte_at base64tab (Z.shiftr part0 2);
   byte_at base64tab (Z.lor (Z.shiftl (Z.land part0 3) 4) (Z.shiftr part1 4));
   byte_at base64tab (Z.lor (Z.shiftl (Z.land part1 0xf) 2) (Z.shiftr part2 6));
   byte_at base64tab (Z.land part2 0x3f)].

(** [n] groups are written from [out] on, without a test for room. *)
Fixpoint encode_groups (n : nat) (mem : bytes) (out : Z) (data : bytes) : result (bytes * Z) :=
  match n with
  | O => Ok (mem, out)
  | S n =>
      match data with
      | a :: b :: c :: data =>
          mem ← memory_write mem out (encode_group a b c);
          encode_groups n mem (out + 4) data
      | _ => Err C_UNDEFINED
      end
  end.

Definition encode_line (str : svn_stringbuf_t) (data : bytes) : result svn_stringbuf_t :=
  '(mem, out) ← encode_groups (Z.to_nat (BASE64_LINELEN / 4)) (sb_data str) (sb_len str) data;
  mem ← memory_write mem out [0];
  Ok (mk_stringbuf mem (u64 (sb_len str + BASE64_LINELEN))).

Section Encoder.
Context `{Allocator}.

(** The bytes that wait for being encoded are [inbuf]; the result has those
    that are left and the length of the current line. *)
Fixpoint encode_loop (fuel : nat) (str : svn_stringbuf_t) (p inbuf : bytes) (linelen : Z)
    (break_lines : bool) : result (svn_stringbuf_t * bytes * Z) :=
  if 3 - zlen inbuf <=? zlen p then
    match fuel with
    | O => Err OUT_OF_FUEL
    | S f =>
        '(str, p, inbuf, linelen) ←
          (if (zlen inbuf =? 0) && ((linelen =? 0) || negb break_lines) && (BYTES_PER_LINE <=? zlen p)
           then
             str ← encode_line str p;
             Ok (str, drop (Z.to_nat BYTES_PER_LINE) p, inbuf, u64 (linelen + BASE64_LINELEN))
           else
             let n := (3 - length inbuf)%nat in
             match inbuf ++ take n p with
             | [a; b; c] =>
                 str ← svn_stringbuf_appendbytes str (Outside (encode_group a b c)) 4;
                 Ok (str, drop n p, [], u64 (linelen + 4))
             | _ => Err C_UNDEFINED
             end);
        '(str, linelen) ←
          (if break_lines && (linelen =? BASE64_LINELEN) then
             str ← svn_stringbuf_appendbyte str 10; Ok (str, 0)
           else Ok (str, linelen));
        encode_loop f str p inbuf linelen break_lines
    end
  else Ok (str, inbuf ++ p, linelen).

Definition encode_bytes (str : svn_stringbuf_t) (data inbuf : bytes) (linelen : Z) (break_lines : bool)
    : result (svn_stringbuf_t * bytes * Z) :=
  let buflen := u64 (u64 (zlen data * 4) / 3 + 4) in
  let buflen := if break_lines then u64 (buflen + buflen / BASE64_LINELEN) else buflen in
  str ← svn_stringbuf_ensure str (u64 (sb_len str + buflen));
  encode_loop (length data) str data inbuf linelen break_lines.

Definition encode_partial_group (str : svn_stringbuf_t) (extra : bytes) (linelen : Z)
    (break_lines : bool) : result svn_stringbuf_t :=
  let len := zlen extra in
  '(str, linelen) ←
    (if 0 <? len then
       match extra ++ replicate (3 - length extra) 0 with
       | [a; b; c] =>
           let outgroup := take (S (length extra)) (encode_group a b c)
                           ++ replicate (4 - S (length extra)) "="%cc in
           str ← svn_stringbuf_appendbytes str (Outside outgroup) 4;
           Ok (str, u64 (linelen + 4))
       | _ => Err C_UNDEFINED
       end
     else Ok (str, linelen));
  if break_lines && (0 <? linelen) then svn_stringbuf_appendbyte str 10 else Ok str.

(** *** The encoding stream *)

Record encode_baton := mk_encode_baton {
  eb_output : svn_stream_t;
  eb_buf : bytes;
  eb_linelen : Z;
  eb_break_lines : bool
}.

Definition encode_data (eb : encode_baton) (data : bytes) : result encode_baton :=
  encoded ← svn_stringbuf_create_empty;
  '(encoded, buf, linelen) ← encode_bytes encoded data (eb_buf eb) (eb_linelen eb) (eb_break_lines eb);
  output ← write_buffer (eb_output eb) encoded;
  Ok (mk_encode_baton output buf linelen (eb_break_lines eb)).

Definition finish_encoding_data (eb : encode_baton) : result svn_stream_t :=
  encoded ← svn_stringbuf_create_empty;
  encoded ← encode_partial_group encoded (eb_buf eb) (eb_linelen eb) (eb_break_lines eb);
  output ← write_buffer (eb_output eb) encoded;
  Ok (svn_stream_close output).

Definition svn_base64_encode2 (output : svn_stream_t) (break_lines : bool) : encode_baton :=
  mk_encode_baton output [] 0 break_lines.

(** *** Strings *)

Definition svn_base64_encode_string2 (str : bytes) (break_lines : bool) : result svn_string_t :=
  encoded ← svn_stringbuf_create_empty;
  '(encoded, ingroup, linelen) ← encode_bytes encoded str [] 0 break_lines;
  encoded ← encode_partial_group encoded ingroup linelen break_lines;
  Ok (svn_stringbuf__morph_into_string encoded).

Definition svn_base64_encode_string (str : bytes) : result svn_string_t :=
  svn_base64_encode_string2 str true.

(** The checksum is its digest. *)
Definition base64_from_checksum (digest : bytes) : result svn_stringbuf_t :=
  checksum_str ← svn_stringbuf_create_empty;
  '(checksum_str, ingroup, linelen) ← encode_bytes checksum_str digest [] 0 true;
  checksum_str ← encode_partial_group checksum_str ingroup linelen true;
  if negb (sb_len checksum_str =? 0) then
    let len := sb_len checksum_str - 1 in
    mem ← memory_write (sb_data checksum_str) len [0];
    Ok (mk_stringbuf mem len)
  else Ok checksum_str.

Definition svn_base64_from_md5 (digest : bytes) : result svn_stringbuf_t := base64_from_checksum digest.
End Encoder.

(** ** Decoding *)

Definition decode_group (in0 in1 in2 in3 : Z) : bytes :=
  [u8 (Z.lor (Z.shiftl in0 2) (Z.shiftr in1 4));
   u8 (Z.lor (Z.shiftl (Z.land in1 0xf) 4) (Z.shiftr in2 2));
   u8 (Z.lor (Z.shiftl (Z.land in2 0x3) 6) in3)].

(** The value of a character, and -1 for one that is not in [base64tab]; by
    runs of entries. *)
Definition reverse_base64 : list Z :=
  replicate 43 (-1) ++ [62; -1; -1; -1; 63] ++ (Z.of_nat <$> seq 52 10) ++ replicate 7 (-1)
  ++ (Z.of_nat <$> seq 0 26) ++ replicate 6 (-1) ++ (Z.of_nat <$> seq 26 26) ++ replicate 133 (-1).

Definition reverse_at (c : Z) : Z := default (-1) (reverse_base64 !! Z.to_nat c).

(** The bytes, and whether all characters were in the table. *)
Definition decode_group_directly (c0 c1 c2 c3 : Z) : bytes * bool :=
  let part0 := u8 (reverse_at c0) in
  let part1 := u8 (reverse_at c1) in
  let part2 := u8 (reverse_at c2) in
  let part3 := u8 (reverse_at c3) in
  (decode_group part0 part1 part2 part3,
   negb (Z.lor (Z.lor (Z.lor part0 part1) part2) part3 =? u8 (-1))).

(** Up to [n] groups are decoded to [out]; a group with other characters is
    written too, but does not count. *)
Fixpoint decode_groups (n : nat) (mem : bytes) (out : Z) (p : bytes) : result (bytes * Z * bytes * bool) :=
  match n with
  | O => Ok (mem, out, p, true)
  | S n =>
      match p with
      | c0 :: c1 :: c2 :: c3 :: p' =>
          let '(group, ok) := decode_group_directly c0 c1 c2 c3 in
          mem ← memory_write mem out group;
          if ok : bool then decode_groups n mem (out + 3) p' else Ok (mem, out, p, false)
      | _ => Err C_UNDEFINED
      end
  end.

(** The buffer, what has not been decoded, and whether the line was whole. *)
Definition decode_line (str : svn_stringbuf_t) (data : bytes) : result (svn_stringbuf_t * bytes * bool) :=
  '(mem, out, p, whole) ←
    decode_groups (Z.to_nat (BYTES_PER_LINE / 3)) (sb_data str) (sb_len str) data;
  mem ← memory_write mem out [0];
  Ok (mk_stringbuf mem out, p, whole).

Section Decoder.
Context `{Allocator}.

Fixpoint decode_loop (fuel : nat) (str : svn_stringbuf_t) (p inbuf : bytes) (done : bool)
    : result (svn_stringbuf_t * bytes * bool) :=
  if negb done && (0 <? zlen p) then
    match fuel with
    | O => Err OUT_OF_FUEL
    | S f =>
        '(str, p, whole) ←
          (if (zlen inbuf =? 0) && (BASE64_LINELEN <=? zlen p) then decode_line str p
           else Ok (str, p, false));
        if whole : bool then decode_loop f str p inbuf done
        else
          match p with
          | [] => Err C_UNDEFINED
          | c :: p' =>
              if c =? "="%cc then
                str ← (if 2 <=? zlen inbuf then
                         match inbuf ++ replicate (4 - length inbuf) 0 with
                         | [i0; i1; i2; i3] =>
                             svn_stringbuf_appendbytes str (Outside (decode_group i0 i1 i2 i3))
                               (zlen inbuf - 1)
                         | _ => Err C_UNDEFINED
                         end
                       else Ok str);
                decode_loop f str p inbuf true
              else
                let find := reverse_at c in
                let inbuf := if 0 <=? find then inbuf ++ [find] else inbuf in
                match inbuf with
                | [i0; i1; i2; i3] =>
                    str ← svn_stringbuf_appendbytes str (Outside (decode_group i0 i1 i2 i3)) 3;
                    decode_loop f str p' [] done
                | _ => decode_loop f str p' inbuf done
                end
          end
    end
  else Ok (str, inbuf, done).

Definition decode_bytes (str : svn_stringbuf_t) (data inbuf : bytes) (done : bool)
    : result (svn_stringbuf_t * bytes * bool) :=
  str ← svn_stringbuf_ensure str (u64 (sb_len str + (zlen inbuf + zlen data) / 4 * 3));
  decode_loop (S (length data)) str data inbuf done.

(** *** The decoding stream *)

Record decode_baton := mk_decode_baton {
  db_output : svn_stream_t;
  db_buf : bytes;
  db_done : bool
}.

Definition decode_data (db : decode_baton) (data : bytes) : result decode_baton :=
  decoded ← svn_stringbuf_create_empty;
  '(decoded, buf, done) ← decode_bytes decoded data (db_buf db) (db_done db);
  output ← write_buffer (db_output db) decoded;
  Ok (mk_decode_baton output buf done).

Definition finish_decoding_data (db : decode_baton) : svn_stream_t := svn_stream_close (db_output db).

Definition svn_base64_decode (output : svn_stream_t) : decode_baton := mk_decode_baton output [] false.

Definition svn_base64_decode_string (str : bytes) : result svn_string_t :=
  decoded ← svn_stringbuf_create_empty;
  '(decoded, _, _) ← decode_bytes decoded str [] false;
  Ok (svn_stringbuf__morph_into_string decoded).
End Decoder.
