(* ===== verification/Base64Facts.v ===== *)
(** * Base64: text and data

    What the encoder writes for data, group by group, and what the decoder
    makes of a text, character by character; the operations of [Base64] agree
    with both, inside the blocks that they allocate in advance, and decoding
    undoes encoding. *)

From S2P Require Import Prelude Buffers StringBuf StringBufFacts OutStream Base64.

(** ** Room in a buffer *)

Section Room.
Context `{Allocator}.

(** A buffer does not shrink. *)
Lemma ensure_grows str s m :
  holds str s -> 0 <= m < STRING_BOUND - 1 ->
  exists str', svn_stringbuf_ensure str m = Ok str' /\ holds str' s /\
    m + 1 <= blocksize str' /\ blocksize str <= blocksize str'.
Proof.
  intros Hstr Hm. pose proof Hstr as (Hl & Hs & junk & Hd). pose proof (zlen_nonneg s).
  assert (0 < blocksize str) by (unfold blocksize; rewrite Hd; zlen_lia).
  destruct (ensure_spec str (s ++ [0]) junk m) as (str' & E & Hl' & (t' & Hd') & Hb & Hsame).
  - by rewrite Hd, <- app_assoc.
  - zlen_lia.
  - lia.
  - done.
  - exists str'. rewrite <- app_assoc in Hd'. split_and!; [done| |done|].
    + split_and!; [congruence|done|by eexists].
    + unfold svn_stringbuf_ensure in E. rewrite u64_small in E by (unfold STRING_BOUND in *; lia).
      pose proof (membuf_ensure_spec (blocksize str) (m + 1)) as Hspec.
      unfold STRING_BOUND in *. destruct (membuf_ensure _ _) as [mem|]; [|by injection E as <-].
      destruct Hspec as [Hlt _]; [lia..|]. lia.
Qed.

Lemma memory_write_zlen mem off d mem' : memory_write mem off d = Ok mem' -> zlen mem' = zlen mem.
Proof.
  unfold memory_write. case_match eqn:E; [|done]. reflect_bools. intros [= <-]. zlen_lia.
Qed.

Lemma append_outside str s b :
  holds str s -> zlen s + zlen b < STRING_BOUND - 1 ->
  exists str', svn_stringbuf_appendbytes str (Outside b) (zlen b) = Ok str' /\ holds str' (s ++ b) /\
    blocksize str <= blocksize str'.
Proof.
  intros Hstr Hb. destruct (appendbytes_outside str s b Hstr Hb) as (str' & E & Hstr').
  exists str'. split_and!; [done..|]. unfold svn_stringbuf_appendbytes in E.
  destruct (zlen b =? 0); [by injection E as <-|].
  pose proof Hstr as (Hl & _). pose proof (zlen_nonneg s). pose proof (zlen_nonneg b).
  rewrite Hl, u64_small in E by (unfold STRING_BOUND in *; lia).
  destruct (ensure_grows str s (zlen s + zlen b) Hstr) as (str1 & E1 & _ & _ & Hg); [lia|].
  rewrite E1 in E. cbn [mbind result_bind source_bytes] in E.
  rewrite memcpy_from_Ok in E by lia. cbn [mbind result_bind source_overlaps] in E.
  destruct (memory_write _ _ _) as [m1|] eqn:E2; [|done]. cbn [mbind result_bind] in E.
  destruct (memory_write m1 _ _) as [m2|] eqn:E3; [|done]. injection E as <-.
  apply memory_write_zlen in E2, E3. unfold blocksize in *. cbn [sb_data]. lia.
Qed.

Lemma append_byte str s c :
  holds str s -> zlen s < STRING_BOUND - 2 ->
  exists str', svn_stringbuf_appendbyte str c = Ok str' /\ holds str' (s ++ [c]) /\
    blocksize str <= blocksize str'.
Proof.
  intros Hstr Hb. destruct (appendbyte_holds str s c Hstr Hb) as (str' & E & Hstr').
  exists str'. split_and!; [done..|]. unfold svn_stringbuf_appendbyte in E.
  destruct (_ <? _).
  - destruct (memory_write _ _ _) as [m1|] eqn:E2; [|done]. cbn [mbind result_bind] in E.
    destruct (memory_write m1 _ _) as [m2|] eqn:E3; [|done]. injection E as <-.
    apply memory_write_zlen in E2, E3. unfold blocksize in *. cbn [sb_data]. lia.
  - destruct (append_outside str s [c] Hstr) as (str1 & E1 & _ & Hg); [zlen_lia|].
    change (zlen [c]) with 1 in E1. rewrite E1 in E. by injection E as <-.
Qed.
End Room.

(** ** The text of data *)

(** Whole groups without line breaks. *)
Fixpoint groups (s : bytes) : bytes :=
  match s with
  | a :: b :: c :: s => encode_group a b c ++ groups s
  | _ => []
  end.

(** The text of whole groups when the line has [linelen] characters already,
    the bytes that are left, and the length of the line then. *)
Fixpoint body (brk : bool) (linelen : Z) (s : bytes) : bytes * bytes * Z :=
  match s with
  | a :: b :: c :: s' =>
      let linelen := u64 (linelen + 4) in
      let full := brk && (linelen =? BASE64_LINELEN) in
      let '(t, rest, l) := body brk (if full then 0 else linelen) s' in
      (encode_group a b c ++ (if full then [10] else []) ++ t, rest, l)
  | _ => ([], s, linelen)
  end.

(** The text behind the last whole group. *)
Definition ending (brk : bool) (linelen : Z) (rest : bytes) : bytes :=
  let group :=
    match rest with
    | [] => []
    | [a] => take 2 (encode_group a 0 0) ++ ["="%cc; "="%cc]
    | a :: b :: _ => take 3 (encode_group a b 0) ++ ["="%cc]
    end in
  let linelen := if bool_decide (rest = []) then linelen else u64 (linelen + 4) in
  group ++ (if brk && (0 <? linelen) then [10] else []).

Definition base64_text (brk : bool) (s : bytes) : bytes :=
  let '(t, rest, l) := body brk 0 s in t ++ ending brk l rest.

(** Three bytes at a time. *)
Lemma triples_ind (P : bytes -> Prop) :
  (forall s, (length s < 3)%nat -> P s) -> (forall a b c s, P s -> P (a :: b :: c :: s)) -> forall s, P s.
Proof.
  intros Hshort Hstep. fix IH 1. intros [|a [|b [|c s]]].
  1-3: apply Hshort; simpl; lia.
  apply Hstep, IH.
Qed.

Lemma body_short brk l s : (length s < 3)%nat -> body brk l s = ([], s, l).
Proof. intros. destruct s as [|? [|? [|? ?]]]; simpl in *; (done || lia). Qed.

(** The bytes that are left are the last ones. *)
Lemma body_rest brk s : forall l, (length (body brk l s).1.2 < 3)%nat.
Proof.
  induction s as [s Hs|a b c s IH] using triples_ind; intros l.
  - by rewrite body_short.
  - cbn [body]. set (l' := if _ && _ then _ else _). specialize (IH l').
    by destruct (body brk l' s) as [[t r] m].
Qed.

(** Data in two pieces. *)
Lemma body_app brk s1 s2 : forall l,
  body brk l (s1 ++ s2) =
    let '(t1, r1, l1) := body brk l s1 in
    let '(t2, r2, l2) := body brk l1 (r1 ++ s2) in
    (t1 ++ t2, r2, l2).
Proof.
  induction s1 as [s1 Hs|a b c s1 IH] using triples_ind; intros l.
  - rewrite (body_short brk l s1) by done. by destruct (body brk l (s1 ++ s2)) as [[t r] l2].
  - cbn [body app]. set (l' := if _ && _ then _ else _). rewrite IH.
    destruct (body brk l' s1) as [[t1 r1] l1]. destruct (body brk l1 (r1 ++ s2)) as [[t2 r2] l2].
    by rewrite <- !app_assoc.
Qed.

(** Groups that do not fill the line. *)
Lemma body_groups brk k : forall l d s,
  length d = (3 * k)%nat -> 0 <= l -> (brk = true -> l + 4 * Z.of_nat k < BASE64_LINELEN) ->
  body brk l (d ++ s) =
    let '(t, r, m) := body brk (if bool_decide (k = 0%nat) then l else u64 (l + 4 * Z.of_nat k)) s in
    (groups d ++ t, r, m).
Proof.
  unfold BASE64_LINELEN. induction k as [|k IH]; intros l d s Hd Hl Hb.
  { destruct d; [|done]. simpl. by destruct (body brk l s) as [[t r] m]. }
  rewrite bool_decide_false by done.
  destruct d as [|a [|b [|c d]]]; [done|simpl in Hd; lia|simpl in Hd; lia|].
  cbn [app body groups]. unfold BASE64_LINELEN.
  assert (brk && (u64 (l + 4) =? 76) = false) as ->.
  { destruct brk; [|done]. specialize (Hb eq_refl). rewrite u64_small by lia. cbn [andb]. lia. }
  rewrite IH; [|simpl in Hd; lia|unfold u64; dlia|intros Hbrk; specialize (Hb Hbrk); rewrite u64_small; lia].
  assert ((if bool_decide (k = 0%nat) then u64 (l + 4) else u64 (u64 (l + 4) + 4 * Z.of_nat k))
          = u64 (l + 4 * Z.of_nat (S k))) as ->.
  { case_bool_decide as Hk; [subst; f_equal; lia|]. unfold u64. rewrite Zplus_mod_idemp_l. f_equal. lia. }
  destruct (body brk _ s) as [[t r] m]. by rewrite <- app_assoc.
Qed.

(** A whole line. *)
Lemma body_line brk l d s :
  zlen d = BYTES_PER_LINE -> 0 <= l -> (brk = true -> l = 0) ->
  body brk l (d ++ s) =
    let '(t, r, m) := body brk (if brk then 0 else u64 (l + BASE64_LINELEN)) s in
    (groups d ++ (if brk then [10] else []) ++ t, r, m).
Proof.
  change BYTES_PER_LINE with 57. intros Hd Hl Hb. destruct brk.
  - rewrite Hb by done. rewrite <- (take_drop 54 d), <- app_assoc.
    rewrite (body_groups true 18) by (unfold BASE64_LINELEN; zlen_lia).
    rewrite bool_decide_false by done. change (u64 (0 + 4 * Z.of_nat 18)) with 72.
    assert (exists a b c, drop 54 d = [a; b; c]) as (a & b & c & E).
    { assert (length (drop 54 d) = 3%nat) as El by zlen_lia.
      destruct (drop 54 d) as [|a [|b [|c [|]]]]; try done. by exists a, b, c. }
    rewrite E. cbn [app body]. change (u64 (72 + 4) =? BASE64_LINELEN) with true. cbn [andb].
    destruct (body true 0 s) as [[t r] m].
    assert (groups (take 54 d ++ [a; b; c]) = groups (take 54 d) ++ encode_group a b c) as ->; [|by rewrite <- !app_assoc].
    assert (length (take 54 d) = (3 * 18)%nat) as El by zlen_lia.
    revert El. generalize (take 54 d). clear. generalize 18%nat. intros k. induction k as [|k IH]; intros d Hd.
    + by destruct d.
    + destruct d as [|x [|y [|z d]]]; [done|simpl in Hd; lia|simpl in Hd; lia|].
      cbn [app groups]. rewrite IH by (simpl in Hd; lia). by rewrite <- app_assoc.
  - rewrite (body_groups false 19) by (done || zlen_lia). rewrite bool_decide_false by done.
    change (4 * Z.of_nat 19) with BASE64_LINELEN. by destruct (body false _ s) as [[t r] m].
Qed.

(** The length of the text is at most what is allocated. *)
Lemma zlen_group a b c : zlen (encode_group a b c) = 4.
Proof. done. Qed.

Lemma body_length_false s : forall l, zlen (body false l s).1.1 = 4 * (zlen s / 3).
Proof.
  induction s as [s Hs|a b c s IH] using triples_ind; intros l.
  - rewrite body_short by done. change (zlen ([], s, l).1.1) with 0. rewrite Z.div_small; zlen_lia.
  - cbn [body andb]. specialize (IH (u64 (l + 4))). destruct (body false _ s) as [[t r] m]. cbn in IH.
    cbn [fst app]. rewrite zlen_app, zlen_group, IH, !zlen_cons. dlia.
Qed.

Lemma body_length_true s : forall l, 0 <= l < BASE64_LINELEN -> l mod 4 = 0 ->
  zlen (body true l s).1.1 = 4 * (zlen s / 3) + (l + 4 * (zlen s / 3)) / BASE64_LINELEN.
Proof.
  unfold BASE64_LINELEN. induction s as [s Hs|a b c s IH] using triples_ind; intros l Hl Hm.
  - rewrite body_short by done. change (zlen ([], s, l).1.1) with 0.
    rewrite (Z.div_small (zlen s)), Z.div_small by zlen_lia. lia.
  - cbn [body andb]. unfold BASE64_LINELEN. rewrite u64_small by lia.
    assert (zlen (a :: b :: c :: s) / 3 = 1 + zlen s / 3) as E by (rewrite !zlen_cons; dlia).
    destruct (Z.eqb_spec (l + 4) 76) as [El|El].
    + specialize (IH 0 ltac:(lia) ltac:(done)). destruct (body true 0 s) as [[t r] m]. cbn [fst] in *.
      rewrite !zlen_app, zlen_group, IH, E. change (zlen [10]) with 1. dlia.
    + specialize (IH (l + 4) ltac:(dlia) ltac:(dlia)). destruct (body true _ s) as [[t r] m]. cbn [fst app] in *.
      rewrite !zlen_app, zlen_group, IH, E. dlia.
Qed.

Lemma body_linelen s : forall l, 0 <= l < BASE64_LINELEN -> l mod 4 = 0 ->
  0 <= (body true l s).2 < BASE64_LINELEN /\ (body true l s).2 mod 4 = 0.
Proof.
  unfold BASE64_LINELEN. induction s as [s Hs|a b c s IH] using triples_ind; intros l Hl Hm.
  - by rewrite body_short.
  - cbn [body andb]. unfold BASE64_LINELEN. rewrite u64_small by lia.
    destruct (Z.eqb_spec (l + 4) 76) as [El|El].
    + specialize (IH 0 ltac:(lia) ltac:(done)). by destruct (body true 0 s) as [[t r] m].
    + specialize (IH (l + 4) ltac:(dlia) ltac:(dlia)). by destruct (body true _ s) as [[t r] m].
Qed.

(** ** The encoder *)

Lemma groups_step a b c s : groups (a :: b :: c :: s) = encode_group a b c ++ groups s.
Proof. done. Qed.

Lemma encode_groups_spec n : forall t junk d,
  (3 * n <= length d)%nat -> (4 * n <= length junk)%nat ->
  encode_groups n (t ++ junk) (zlen t) d =
    Ok ((t ++ groups (take (3 * n) d)) ++ drop (4 * n) junk, zlen t + 4 * Z.of_nat n).
Proof.
  induction n as [|n IH]; intros t junk d Hd Hj; cbn [encode_groups].
  { simpl. by rewrite app_nil_r, drop_0, Z.add_0_r. }
  destruct d as [|a [|b [|c d]]]; simpl in Hd; [lia..|].
  rewrite memory_write_behind by (rewrite zlen_group; zlen_lia). cbn [mbind result_bind].
  change (length (encode_group a b c)) with 4%nat. rewrite app_assoc.
  replace (zlen t + 4) with (zlen (t ++ encode_group a b c)) by (rewrite zlen_app, zlen_group; lia).
  rewrite IH by (rewrite ?length_drop; lia). rewrite zlen_app, zlen_group, drop_drop.
  replace (3 * S n)%nat with (S (S (S (3 * n)))) by lia. cbn [take]. rewrite groups_step, <- !app_assoc.
  replace (4 + 4 * n)%nat with (4 * S n)%nat by lia. do 2 f_equal. lia.
Qed.

Lemma zlen_groups k d : length d = (3 * k)%nat -> zlen (groups d) = 4 * Z.of_nat k.
Proof.
  revert d. induction k as [|k IH]; intros d Hd; [by destruct d|].
  destruct d as [|a [|b [|c d]]]; [done|simpl in Hd; lia|simpl in Hd; lia|].
  rewrite groups_step, zlen_app, zlen_group, IH by (simpl in Hd; lia). lia.
Qed.

Section Encoder.
Context `{Allocator}.

(** The line that is written without a test for room fits. *)
Lemma encode_line_holds str t d :
  holds str t -> BYTES_PER_LINE <= zlen d -> zlen t + BASE64_LINELEN + 1 <= blocksize str ->
  zlen t + BASE64_LINELEN < STRING_BOUND ->
  exists str', encode_line str d = Ok str' /\ holds str' (t ++ groups (take 57 d)) /\
    blocksize str' = blocksize str.
Proof.
  change BYTES_PER_LINE with 57. unfold BASE64_LINELEN. intros (Hl & Ht & junk & Hd) Hlen Hroom Hb.
  unfold encode_line, blocksize, BASE64_LINELEN in *. change (Z.to_nat (76 / 4)) with 19%nat. rewrite Hd, Hl in *.
  rewrite zlen_app, zlen_cons in Hroom.
  rewrite encode_groups_spec by zlen_lia. cbn [mbind result_bind].
  change (3 * 19)%nat with 57%nat. change (4 * Z.of_nat 19) with 76.
  assert (zlen (groups (take 57 d)) = 76) as Hg by (rewrite (zlen_groups 19) by zlen_lia; done).
  destruct (drop (4 * 19) (0 :: junk)) as [|x u] eqn:E.
  { apply (f_equal length) in E. zlen_lia. }
  replace (zlen t + 76) with (zlen (t ++ groups (take 57 d))) by (rewrite zlen_app; lia).
  rewrite memory_write_byte. cbn [mbind result_bind]. eexists. split; [done|].
  rewrite u64_small by (unfold STRING_BOUND in Hb; rewrite zlen_app; pose proof (zlen_nonneg t); lia).
  split; [eapply holds_intro; [done|rewrite zlen_app; lia]|].
  cbn [sb_data]. apply (f_equal length) in E. rewrite length_drop in E. rewrite !zlen_app, !zlen_cons. 
  zlen_lia.
Qed.

(** One round: the buffer grows by what [body] has for it. *)
Lemma break_line_spec str t l brk rest :
  holds str t -> zlen t < STRING_BOUND - 2 ->
  exists str', (if brk && (l =? BASE64_LINELEN) then
      str ← svn_stringbuf_appendbyte str 10; Ok (str, 0) else Ok (str, l))
    = Ok (str', if brk && (l =? BASE64_LINELEN) then 0 else l) /\
    holds str' (t ++ (if brk && (l =? BASE64_LINELEN) then [10] else [])) /\
    blocksize str <= blocksize str' /\ rest = rest :> bytes.
Proof.
  intros Hstr Ht. destruct (brk && _).
  - destruct (append_byte str t 10 Hstr Ht) as (str' & -> & Hstr' & Hg). by exists str'.
  - exists str. by rewrite app_nil_r.
Qed.

Lemma encode_loop_spec brk fuel : forall str t p inbuf l out rest m,
  (length p <= fuel)%nat -> zlen inbuf <= 2 -> 0 <= l -> (brk = true -> l < BASE64_LINELEN /\ l mod 4 = 0) ->
  body brk l (inbuf ++ p) = (out, rest, m) -> holds str t ->
  zlen t + zlen out + 1 <= blocksize str -> zlen t + zlen out < STRING_BOUND - 2 ->
  exists str', encode_loop fuel str p inbuf l brk = Ok (str', rest, m) /\ holds str' (t ++ out).
Proof.
  induction fuel as [|fuel IH]; intros str t p inbuf l out rest m Hf Hin Hl Hbl Hbody Hstr Hroom Hb;
    cbn [encode_loop]; pose proof (zlen_nonneg out); pose proof (zlen_nonneg t).
  all: destruct (Z.leb_spec (3 - zlen inbuf) (zlen p)) as [Hp|Hp];
    [|rewrite body_short in Hbody by zlen_lia; injection Hbody as <- <- <-; exists str; by rewrite app_nil_r].
  { zlen_lia. }
  destruct ((zlen inbuf =? 0) && ((l =? 0) || negb brk) && (BYTES_PER_LINE <=? zlen p)) eqn:E.
  - apply andb_true_iff in E as [[Ein Eb]%andb_true_iff Ep]. apply Z.eqb_eq in Ein. apply Z.leb_le in Ep.
    apply zlen_zero in Ein as ->. cbn [app] in Hbody. change BYTES_PER_LINE with 57 in *.
    assert (brk = true -> l = 0) as Hl0.
    { intros ->. rewrite orb_false_r in Eb. by apply Z.eqb_eq in Eb. }
    rewrite <- (take_drop 57 p) in Hbody.
    rewrite body_line in Hbody by (done || (change BYTES_PER_LINE with 57; zlen_lia)).
    set (l' := if brk then 0 else u64 (l + BASE64_LINELEN)) in *.
    destruct (body brk l' (drop 57 p)) as [[o r] k] eqn:Ebody. apply pair_eq in Hbody as [[<- <-]%pair_eq <-].
    assert (zlen (groups (take 57 p)) = 76) as Hg by (rewrite (zlen_groups 19) by zlen_lia; done).
    rewrite !zlen_app, Hg in Hroom, Hb. pose proof (zlen_nonneg o).
    pose proof (zlen_nonneg (if brk then [10] else [])).
    destruct (encode_line_holds str t p Hstr) as (str1 & -> & Hstr1 & Hblk1);
      [done|unfold BASE64_LINELEN; lia|unfold BASE64_LINELEN; lia|].
    cbn [mbind result_bind].
    destruct (break_line_spec str1 _ (u64 (l + BASE64_LINELEN)) brk [] Hstr1)
      as (str2 & E2 & Hstr2 & Hblk2 & _); [rewrite zlen_app; lia|].
    rewrite E2. cbn [mbind result_bind].
    assert (brk && (u64 (l + BASE64_LINELEN) =? BASE64_LINELEN) = brk) as Ebrk.
    { destruct brk; [|done]. by rewrite Hl0. }
    rewrite Ebrk in *. change (Z.to_nat 57) with 57%nat. replace (if brk then 0 else u64 (l + BASE64_LINELEN)) with l' by done.
    destruct (IH str2 ((t ++ groups (take 57 p)) ++ (if brk then [10] else [])) (drop 57 p) [] l' o r k)
      as (str' & -> & Hstr').
    + zlen_lia.
    + done.
    + unfold l', u64. destruct brk; dlia.
    + unfold l', BASE64_LINELEN. by intros ->.
    + done.
    + done.
    + rewrite !zlen_app, Hg. lia.
    + rewrite !zlen_app, Hg. lia.
    + exists str'. by rewrite <- !app_assoc in Hstr'.
  - clear E. cbv zeta.
    assert (exists a b c, inbuf ++ take (3 - length inbuf) p = [a; b; c]) as (a & b & c & Eabc).
    { assert (length (inbuf ++ take (3 - length inbuf) p) = 3%nat) as El by zlen_lia.
      revert El. generalize (inbuf ++ take (3 - length inbuf) p).
      intros [|a [|b [|c [|]]]] El; try done. by exists a, b, c. }
    rewrite Eabc.
    assert (inbuf ++ p = a :: b :: c :: drop (3 - length inbuf) p) as Eall.
    { rewrite <- (take_drop (3 - length inbuf) p) at 1. by rewrite app_assoc, Eabc. }
    rewrite Eall in Hbody. cbn [body] in Hbody.
    set (l1 := u64 (l + 4)) in *. set (l' := if brk && (l1 =? BASE64_LINELEN) then 0 else l1) in *.
    destruct (body brk l' (drop (3 - length inbuf) p)) as [[o r] k] eqn:Ebody. apply pair_eq in Hbody as [[<- <-]%pair_eq <-].
    rewrite !zlen_app, zlen_group in Hroom, Hb. pose proof (zlen_nonneg o).
    pose proof (zlen_nonneg (if brk && (l1 =? BASE64_LINELEN) then [10] else [])).
    destruct (append_outside str t (encode_group a b c) Hstr) as (str1 & E1 & Hstr1 & Hblk1);
      [rewrite zlen_group; lia|].
    rewrite zlen_group in E1. rewrite E1. cbn [mbind result_bind].
    destruct (break_line_spec str1 _ l1 brk [] Hstr1) as (str2 & E2 & Hstr2 & Hblk2 & _);
      [rewrite zlen_app, zlen_group; lia|].
    rewrite E2. cbn [mbind result_bind]. fold l'.
    destruct (IH str2 ((t ++ encode_group a b c) ++ (if brk && (l1 =? BASE64_LINELEN) then [10] else []))
                (drop (3 - length inbuf) p) [] l' o r k) as (str' & -> & Hstr').
    + rewrite length_drop. zlen_lia.
    + done.
    + unfold l', l1, u64. destruct (brk && _); dlia.
    + intros ->. specialize (Hbl eq_refl). unfold l', l1, BASE64_LINELEN in *. cbn [andb].
      rewrite u64_small by lia. destruct (Z.eqb_spec (l + 4) 76); dlia.
    + done.
    + done.
    + rewrite !zlen_app, zlen_group. lia.
    + rewrite !zlen_app, zlen_group. lia.
    + exists str'. by rewrite <- !app_assoc in Hstr'.
Qed.

(** What is allocated in advance is enough, so that the block is not replaced
    while lines are written. *)
Lemma buflen_enough brk l inbuf data :
  zlen inbuf <= 2 -> (brk = true -> 0 <= l < BASE64_LINELEN /\ l mod 4 = 0) -> zlen data < STRING_BOUND ->
  let buflen := zlen data * 4 / 3 + 4 in
  zlen (body brk l (inbuf ++ data)).1.1 <= (if brk then buflen + buflen / BASE64_LINELEN else buflen).
Proof.
  intros Hin Hl Hb buflen. unfold buflen. pose proof (zlen_nonneg data). pose proof (zlen_nonneg inbuf).
  destruct brk.
  - destruct Hl as [Hl Hm]; [done|]. rewrite body_length_true, zlen_app by done.
    unfold BASE64_LINELEN in *. dlia.
  - rewrite body_length_false, zlen_app. dlia.
Qed.

Lemma base64_encode_bytes brk str t data inbuf l out rest m :
  zlen inbuf <= 2 -> 0 <= l -> (brk = true -> l < BASE64_LINELEN /\ l mod 4 = 0) ->
  body brk l (inbuf ++ data) = (out, rest, m) -> holds str t -> zlen t + 2 * zlen data < 2 ^ 59 ->
  exists str', encode_bytes str data inbuf l brk = Ok (str', rest, m) /\ holds str' (t ++ out).
Proof.
  intros Hin Hl Hbl Hbody Hstr Hb. pose proof Hstr as (Hlen & _).
  pose proof (zlen_nonneg t). pose proof (zlen_nonneg data).
  unfold encode_bytes. rewrite Hlen.
  assert (brk = true -> 0 <= l < BASE64_LINELEN /\ l mod 4 = 0) as Hbl' by (intros E; specialize (Hbl E); lia).
  pose proof (buflen_enough brk l inbuf data Hin Hbl') as Hbuf. rewrite Hbody in Hbuf. cbn [fst] in Hbuf.
  specialize (Hbuf ltac:(unfold STRING_BOUND; lia)).
  rewrite (u64_small (zlen data * 4)) by lia. rewrite (u64_small (zlen data * 4 / 3 + 4)) by dlia.
  cbv zeta. set (buflen := zlen data * 4 / 3 + 4) in *.
  assert (0 <= buflen <= 2 * zlen data + 4) by (unfold buflen; dlia).
  assert ((if brk then u64 (buflen + buflen / BASE64_LINELEN) else buflen)
          = if brk then buflen + buflen / BASE64_LINELEN else buflen) as ->.
  { destruct brk; [|done]. unfold BASE64_LINELEN. rewrite u64_small by dlia. done. }
  set (n := if brk then _ else _) in *.
  assert (0 <= n <= 4 * zlen data + 8) by (unfold n, BASE64_LINELEN; destruct brk; dlia).
  rewrite u64_small by lia. pose proof (zlen_nonneg out).
  destruct (ensure_grows str t (zlen t + n) Hstr) as (str1 & -> & Hstr1 & Hroom & _);
    [unfold STRING_BOUND; lia|].
  cbn [mbind result_bind].
  apply encode_loop_spec; [lia|done|done|done|done|done|lia|unfold STRING_BOUND; lia].
Qed.

Lemma encode_partial_group_spec brk str t rest l :
  zlen rest <= 2 -> holds str t -> zlen t < STRING_BOUND - 8 ->
  exists str', encode_partial_group str rest l brk = Ok str' /\ holds str' (t ++ ending brk l rest).
Proof.
  intros Hr Hstr Hb. unfold encode_partial_group, ending.
  set (l' := if bool_decide (rest = []) then l else u64 (l + 4)).
  set (group := match rest with [] => [] | [a] => _ | a :: b :: _ => _ end).
  assert (zlen group <= 4) by (unfold group; destruct rest as [|? [|? ?]]; done).
  assert (exists str1, (if 0 <? zlen rest then
       match rest ++ replicate (3 - length rest) 0 with
       | [a; b; c] =>
           str ← svn_stringbuf_appendbytes str (Outside (take (S (length rest)) (encode_group a b c)
                           ++ replicate (4 - S (length rest)) "="%cc)) 4;
           Ok (str, u64 (l + 4))
       | _ => Err C_UNDEFINED
       end
     else Ok (str, l)) = Ok (str1, l') /\ holds str1 (t ++ group)) as (str1 & -> & Hstr1).
  { unfold l', group. destruct rest as [|a [|b [|c r]]].
    - exists str. by rewrite app_nil_r.
    - destruct (append_outside str t (take 2 (encode_group a 0 0) ++ ["="%cc; "="%cc]) Hstr)
        as (str1 & E1 & Hstr1 & _); [change (zlen _) with 4 at 2; lia|]. exists str1.
      split; [exact (f_equal (fun r => r ≫= fun str => Ok (str, u64 (l + 4))) E1)|done].
    - destruct (append_outside str t (take 3 (encode_group a b 0) ++ ["="%cc]) Hstr)
        as (str1 & E1 & Hstr1 & _); [change (zlen _) with 4 at 2; lia|]. exists str1.
      split; [exact (f_equal (fun r => r ≫= fun str => Ok (str, u64 (l + 4))) E1)|done].
    - zlen_lia. }
  cbn [mbind result_bind]. destruct (brk && (0 <? l')).
  - destruct (append_byte str1 _ 10 Hstr1) as (str' & -> & Hstr' & _); [rewrite zlen_app; lia|].
    exists str'. by rewrite <- app_assoc in Hstr'.
  - exists str1. by rewrite app_nil_r.
Qed.

(** Both together. *)
Lemma base64_encode_string brk data :
  2 * zlen data < 2 ^ 58 ->
  exists str rest l str', svn_stringbuf_create_empty ≫= (fun encoded => encode_bytes encoded data [] 0 brk)
      = Ok (str, rest, l) /\
    encode_partial_group str rest l brk = Ok str' /\ holds str' (base64_text brk data).
Proof.
  intros Hb. unfold base64_text. destruct (body brk 0 data) as [[out rest] l] eqn:E.
  destruct (create_ensure_holds 0) as (str0 & E0 & Hstr0 & _); [done|].
  change svn_stringbuf_create_empty with (svn_stringbuf_create_ensure 0). rewrite E0. cbn [mbind result_bind].
  destruct (base64_encode_bytes brk str0 [] data [] 0 out rest l) as (str & E1 & Hstr);
    [done|done|done|done|done|change (zlen []) with 0; lia|].
  pose proof (body_rest brk data 0) as Hr. rewrite E in Hr. cbn [fst snd] in Hr.
  destruct (encode_partial_group_spec brk str out rest l) as (str' & E2 & Hstr');
    [zlen_lia|done| |].
  - pose proof (buflen_enough brk 0 [] data ltac:(done) ltac:(done)) as Hbuf. cbn [app] in Hbuf.
    rewrite E in Hbuf. cbn [fst] in Hbuf. specialize (Hbuf ltac:(unfold STRING_BOUND; lia)).
    pose proof (zlen_nonneg data); unfold STRING_BOUND, BASE64_LINELEN in *; destruct brk; dlia.
  - exists str, rest, l, str'. auto.
Qed.
End Encoder.

(** ** What the decoder makes of a text *)

(** The bytes of an incomplete group. *)
Definition partial (inbuf : bytes) : bytes :=
  match inbuf with
  | [i0; i1] => take 1 (decode_group i0 i1 0 0)
  | [i0; i1; i2] => take 2 (decode_group i0 i1 i2 0)
  | _ => []
  end.

(** The bytes, the values of the incomplete group and whether the end of the
    data was seen. *)
Fixpoint decoded (inbuf p : bytes) : bytes * bytes * bool :=
  match p with
  | [] => ([], inbuf, false)
  | c :: p =>
      if c =? "="%cc then (partial inbuf, inbuf, true)
      else
        let inbuf := if 0 <=? reverse_at c then inbuf ++ [reverse_at c] else inbuf in
        match inbuf with
        | [i0; i1; i2; i3] =>
            let '(out, rest, done) := decoded [] p in (decode_group i0 i1 i2 i3 ++ out, rest, done)
        | _ => decoded inbuf p
        end
  end.

Definition decoded_if (done : bool) (inbuf p : bytes) : bytes * bytes * bool :=
  if done then ([], inbuf, true) else decoded inbuf p.

Lemma decoded_app p1 p2 : forall inbuf,
  decoded inbuf (p1 ++ p2) =
    let '(o1, b1, d1) := decoded inbuf p1 in
    let '(o2, b2, d2) := decoded_if d1 b1 p2 in
    (o1 ++ o2, b2, d2).
Proof.
  induction p1 as [|c p1 IH]; intros inbuf; cbn [decoded app].
  { cbn. by destruct (decoded inbuf p2) as [[o b] d]. }
  destruct (c =? _); [cbn; by rewrite app_nil_r|]. cbv zeta.
  destruct (if 0 <=? reverse_at c then _ else _) as [|i0 [|i1 [|i2 [|i3 [|i4 r]]]]]; [apply IH..| |apply IH].
  rewrite IH. destruct (decoded [] p1) as [[o1 b1] d1].
  destruct (decoded_if d1 b1 p2) as [[o2 b2] d2]. by rewrite <- app_assoc.
Qed.

(** Values that are read are values of characters. *)
Lemma reverse_at_range c : -1 <= reverse_at c < 64.
Proof.
  unfold reverse_at. destruct (reverse_base64 !! Z.to_nat c) as [v|] eqn:E; [|done]. simpl.
  assert (Forall (fun v => -1 <= v < 64) reverse_base64) as Hall by by_evaluation.
  rewrite Forall_lookup in Hall. by eapply Hall.
Qed.

Lemma u8_reverse_at c : 0 <= reverse_at c -> u8 (reverse_at c) = reverse_at c.
Proof. intros. pose proof (reverse_at_range c). apply Z.mod_small. lia. Qed.

Lemma lor_255 x : 0 <= x < 256 -> Z.lor x 255 = 255.
Proof.
  intros Hx. change 255 with (Z.ones 8). apply Z.lor_ones_low; [lia|].
  destruct (Z.eq_dec x 0) as [->|Hx0]; [done|]. apply Z.log2_lt_pow2; lia.
Qed.

Lemma lor_byte x y : 0 <= x < 256 -> 0 <= y < 256 -> 0 <= Z.lor x y < 256.
Proof.
  intros Hx Hy. assert (0 <= Z.lor x y) as H0 by (apply Z.lor_nonneg; lia). split; [done|].
  destruct (Z.eq_dec (Z.lor x y) 0) as [->|Hne]; [done|].
  apply (Z.log2_lt_cancel _ (2 ^ 8)). rewrite Z.log2_lor, Z.log2_pow2 by lia.
  apply Z.max_lub_lt; (destruct (Z.eq_dec x 0) as [->|?]; [done|]) || idtac.
  - apply Z.log2_lt_pow2; lia.
  - destruct (Z.eq_dec y 0) as [->|?]; [done|]. apply Z.log2_lt_pow2; lia.
Qed.

(** The test for other characters in a group. *)
Lemma decode_group_directly_ok c0 c1 c2 c3 group :
  decode_group_directly c0 c1 c2 c3 = (group, true) ->
  Forall (fun c => 0 <= reverse_at c) [c0; c1; c2; c3] /\
  group = decode_group (reverse_at c0) (reverse_at c1) (reverse_at c2) (reverse_at c3).
Proof.
  unfold decode_group_directly. change (u8 (-1)) with 255. intros [= <- Hok].
  apply negb_true_iff, Z.eqb_neq in Hok.
  assert (forall c, 0 <= u8 (reverse_at c) < 256) as Hr by (intros; unfold u8; dlia).
  assert (forall c, 0 <= reverse_at c \/ u8 (reverse_at c) = 255) as Hcases.
  { intros c. pose proof (reverse_at_range c). destruct (Z.eq_dec (reverse_at c) (-1)) as [->|]; [by right|left; lia]. }
  assert (Forall (fun c => 0 <= reverse_at c) [c0; c1; c2; c3]) as Hall.
  { repeat (apply Forall_cons; split); try by constructor.
    - destruct (Hcases c0) as [|E]; [done|]. rewrite E in Hok. contradict Hok.
      rewrite <- !Z.lor_assoc, Z.lor_comm. apply lor_255. repeat apply lor_byte; auto.
    - destruct (Hcases c1) as [|E]; [done|]. rewrite E in Hok. contradict Hok.
      rewrite lor_255 by auto. rewrite <- Z.lor_assoc, Z.lor_comm. apply lor_255. by apply lor_byte.
    - destruct (Hcases c2) as [|E]; [done|]. rewrite E in Hok. contradict Hok.
      rewrite lor_255 by (by apply lor_byte). rewrite Z.lor_comm. by apply lor_255.
    - destruct (Hcases c3) as [|E]; [done|]. rewrite E in Hok. contradict Hok.
      apply lor_255. by repeat apply lor_byte. }
  split; [done|]. rewrite !Forall_cons in Hall. destruct Hall as (? & ? & ? & ? & _).
  by rewrite !u8_reverse_at.
Qed.

(** A character of the table. *)
Lemma decoded_char inbuf c p :
  0 <= reverse_at c -> (length inbuf < 3)%nat ->
  decoded inbuf (c :: p) = decoded (inbuf ++ [reverse_at c]) p.
Proof.
  intros Hc Hl. cbn [decoded]. destruct (Z.eqb_spec c "="%cc) as [->|_]; [by vm_compute in Hc|].
  rewrite (proj2 (Z.leb_le _ _)) by done. cbv zeta.
  destruct inbuf as [|i0 [|i1 [|i2 [|]]]]; simpl in Hl; (done || lia).
Qed.

Lemma decoded_group c0 c1 c2 c3 p :
  Forall (fun c => 0 <= reverse_at c) [c0; c1; c2; c3] ->
  decoded [] (c0 :: c1 :: c2 :: c3 :: p) =
    let '(out, rest, done) := decoded [] p in
    (decode_group (reverse_at c0) (reverse_at c1) (reverse_at c2) (reverse_at c3) ++ out, rest, done).
Proof.
  rewrite !Forall_cons. intros (H0 & H1 & H2 & H3 & _).
  rewrite !decoded_char by (done || simpl; lia). cbn [app decoded].
  destruct (Z.eqb_spec c3 "="%cc) as [->|_]; [by vm_compute in H3|].
  by rewrite (proj2 (Z.leb_le _ _)).
Qed.

(** ** The decoder *)

Lemma zlen_decode_group a b c d : zlen (decode_group a b c d) = 3.
Proof. done. Qed.

(** The groups in front of the first other character. *)
Lemma decode_groups_spec n : forall t junk p,
  (3 * n <= length junk)%nat -> (4 * n <= length p)%nat ->
  exists k g junk' whole, decode_groups n (t ++ junk) (zlen t) p =
      Ok ((t ++ g) ++ junk', zlen t + 3 * Z.of_nat k, drop (4 * k) p, whole) /\
    (k <= n)%nat /\ zlen g = 3 * Z.of_nat k /\ zlen g + zlen junk' = zlen junk /\
    (whole = true -> k = n) /\ (whole = false -> (k < n)%nat) /\
    decoded [] p = let '(o, b, d) := decoded [] (drop (4 * k) p) in (g ++ o, b, d).
Proof.
  induction n as [|n IH]; intros t junk p Hj Hp; cbn [decode_groups].
  { exists 0%nat, [], junk, true. rewrite app_nil_r, drop_0, Z.add_0_r. split_and!; try done.
    by destruct (decoded [] p) as [[o b] d]. }
  destruct p as [|c0 [|c1 [|c2 [|c3 p]]]]; simpl in Hp; [lia..|].
  destruct (decode_group_directly c0 c1 c2 c3) as [group ok] eqn:E.
  assert (zlen group = 3) as Hg by (unfold decode_group_directly in E; injection E as <- _; done).
  rewrite memory_write_behind by zlen_lia. cbn [mbind result_bind].
  destruct ok.
  - apply decode_group_directly_ok in E as [Hall ->].
    rewrite app_assoc, <- Hg, <- zlen_app. rewrite zlen_decode_group in Hg.
    change (length (decode_group _ _ _ _)) with 3%nat.
    destruct (IH (t ++ decode_group (reverse_at c0) (reverse_at c1) (reverse_at c2) (reverse_at c3))
                (drop 3 junk) p)
      as (k & g & junk' & whole & -> & Hk & Hgk & Hlen & Hw1 & Hw2 & Hd);
      [rewrite length_drop; simpl; lia|lia|].
    exists (S k), (decode_group (reverse_at c0) (reverse_at c1) (reverse_at c2) (reverse_at c3) ++ g), junk', whole.
    replace (4 * S k)%nat with (S (S (S (S (4 * k))))) by lia. cbn [drop].
    rewrite !zlen_app, zlen_decode_group, <- !app_assoc in *.
    rewrite decoded_group by done. rewrite Hd. destruct (decoded [] (drop (4 * k) p)) as [[o b] d].
    assert (zlen (drop 3 junk) = zlen junk - 3) as Hj3 by zlen_lia.
    split_and!; [do 4 f_equal; lia|lia|lia|lia|intros; f_equal; auto|intros; specialize (Hw2 ltac:(done)); lia|].
    by rewrite <- app_assoc.
  - exists 0%nat, [], (group ++ drop (length group) junk), false. rewrite app_nil_r, Z.add_0_r.
    split_and!; [done|lia|done|zlen_lia|done|lia|].
    rewrite drop_0. by destruct (decoded [] _) as [[o b] d].
Qed.

Section Decoder.
Context `{Allocator}.

Lemma decode_line_holds str t p :
  holds str t -> BASE64_LINELEN <= zlen p -> zlen t + BYTES_PER_LINE + 1 <= blocksize str ->
  zlen t + BYTES_PER_LINE < STRING_BOUND ->
  exists str' k g whole, decode_line str p = Ok (str', drop (4 * k) p, whole) /\
    holds str' (t ++ g) /\ blocksize str' = blocksize str /\
    (k <= 19)%nat /\ zlen g = 3 * Z.of_nat k /\ (whole = true -> k = 19%nat) /\
    (whole = false -> (k < 19)%nat) /\
    decoded [] p = let '(o, b, d) := decoded [] (drop (4 * k) p) in (g ++ o, b, d).
Proof.
  unfold BASE64_LINELEN. change BYTES_PER_LINE with 57.
  intros (Hl & Ht & junk & Hd) Hp Hroom Hb. unfold decode_line, blocksize in *.
  change (Z.to_nat (BYTES_PER_LINE / 3)) with 19%nat. rewrite Hd, Hl, zlen_app, zlen_cons in *.
  destruct (decode_groups_spec 19 t (0 :: junk) p) as (k & g & junk' & whole & -> & Hk & Hg & Hlen & Hw1 & Hw2 & Hdec);
    [zlen_lia|zlen_lia|].
  cbn [mbind result_bind]. rewrite <- Hg, <- zlen_app. rewrite zlen_cons in Hlen.
  destruct junk' as [|x junk']; [rewrite zlen_nil in Hlen; lia|].
  rewrite memory_write_byte. cbn [mbind result_bind].
  exists (mk_stringbuf ((t ++ g) ++ 0 :: junk') (zlen (t ++ g))), k, g, whole.
  rewrite zlen_cons in Hlen.
  split_and!; [done|by eapply holds_intro; [|rewrite zlen_app; lia]| |done|done|done|done|done].
  cbn [sb_data]. rewrite !zlen_app, zlen_cons. lia.
Qed.

Lemma decode_loop_done fuel str p inbuf : decode_loop fuel str p inbuf true = Ok (str, inbuf, true).
Proof. by destruct fuel. Qed.

(** The loop, with room for what can still be decoded. *)
Lemma base64_decode_loop fuel : forall str t p inbuf done out rest done',
  (length p < fuel)%nat -> (length inbuf < 4)%nat ->
  decoded_if done inbuf p = (out, rest, done') -> holds str t ->
  (done = false -> zlen t + (zlen inbuf + zlen p) / 4 * 3 + 1 <= blocksize str) ->
  zlen t + zlen inbuf + zlen p < STRING_BOUND - 8 ->
  exists str', decode_loop fuel str p inbuf done = Ok (str', rest, done') /\ holds str' (t ++ out).
Proof.
  induction fuel as [|fuel IH]; intros str t p inbuf done out rest done' Hf Hin Hdec Hstr Hroom Hb; [lia|].
  cbn [decode_loop]. destruct done.
  { injection Hdec as <- <- <-. exists str. by rewrite app_nil_r. }
  specialize (Hroom eq_refl). cbn [decoded_if negb andb] in *.
  destruct (Z.ltb_spec 0 (zlen p)) as [Hp|Hp];
    [|assert (p = []) as -> by (apply zlen_zero; pose proof (zlen_nonneg p); lia);
      injection Hdec as <- <- <-; exists str; by rewrite app_nil_r].
  pose proof (zlen_nonneg t). pose proof (zlen_nonneg inbuf).
  assert (exists str1 g p1 whole, (if (zlen inbuf =? 0) && (BASE64_LINELEN <=? zlen p) then decode_line str p
           else Ok (str, p, false)) = Ok (str1, p1, whole) /\ holds str1 (t ++ g) /\
    zlen (t ++ g) + (zlen inbuf + zlen p1) / 4 * 3 + 1 <= blocksize str1 /\
    (length p1 <= length p)%nat /\ zlen (t ++ g) + zlen p1 <= zlen t + zlen p /\
    (if whole then (length p1 < length p)%nat else p1 <> []) /\
    decoded inbuf p = (let '(o, b, d) := decoded inbuf p1 in (g ++ o, b, d)))
    as (str1 & g & p1 & whole & -> & Hstr1 & Hroom1 & Hlen1 & Hb1 & Hwhole & Hdec1).
  { destruct ((zlen inbuf =? 0) && (BASE64_LINELEN <=? zlen p)) eqn:E.
    - apply andb_true_iff in E as [Ein%Z.eqb_eq Ep%Z.leb_le]. apply zlen_zero in Ein as ->.
      rewrite zlen_nil in *. unfold BASE64_LINELEN in Ep.
      destruct (decode_line_holds str t p Hstr) as (str1 & k & g & whole & E1 & Hstr1 & Hblk & Hk & Hg & Hw1 & Hw2 & Hd);
        [done|change BYTES_PER_LINE with 57; dlia|change BYTES_PER_LINE with 57; lia|].
      exists str1, g, (drop (4 * k) p), whole. split_and!; [done..| | | | |done].
      + rewrite Hblk, zlen_app, Hg. etrans; [|exact Hroom].
        assert (zlen (drop (4 * k) p) = zlen p - 4 * Z.of_nat k) as -> by zlen_lia. dlia.
      + rewrite length_drop. lia.
      + zlen_lia.
      + destruct whole; [rewrite Hw1, length_drop by done; zlen_lia|].
        specialize (Hw2 eq_refl). intros En%(f_equal length). zlen_lia.
    - exists str, [], p, false. rewrite app_nil_r. split_and!; [done..| |].
      + intros ->. done.
      + by destruct (decoded inbuf p) as [[o b] d]. }
  cbn [mbind result_bind]. rewrite Hdec1 in Hdec.
  destruct (decoded inbuf p1) as [[o b] d] eqn:E1. apply pair_eq in Hdec as [[<- <-]%pair_eq <-].
  destruct whole.
  { destruct (IH str1 (t ++ g) p1 inbuf false o b d) as (str' & -> & Hstr');
      [lia|done|exact E1|done|done|lia|]. exists str'. by rewrite <- app_assoc in Hstr'. }
  destruct p1 as [|c p1]; [done|]. cbn [decoded] in E1. rewrite zlen_cons in *.
  pose proof (zlen_nonneg p1). pose proof (zlen_nonneg g).
  destruct (c =? "="%cc).
  - injection E1 as <- <- <-. 
    assert (exists str2, (if 2 <=? zlen inbuf then
               match inbuf ++ replicate (4 - length inbuf) 0 with
               | [i0; i1; i2; i3] =>
                   svn_stringbuf_appendbytes str1 (Outside (decode_group i0 i1 i2 i3)) (zlen inbuf - 1)
               | _ => Err C_UNDEFINED
               end
             else Ok str1) = Ok str2 /\ holds str2 ((t ++ g) ++ partial inbuf)) as (str2 & -> & Hstr2).
    { destruct inbuf as [|i0 [|i1 [|i2 [|]]]]; simpl in Hin.
      - exists str1. by rewrite app_nil_r.
      - exists str1. by rewrite app_nil_r.
      - apply (appendbytes_holds str1 _ (Outside (decode_group i0 i1 0 0)) 1); [done|by split|].
        rewrite !zlen_app in *. unfold STRING_BOUND in *. lia.
      - apply (appendbytes_holds str1 _ (Outside (decode_group i0 i1 i2 0)) 2); [done|by split|].
        rewrite !zlen_app in *. unfold STRING_BOUND in *. lia.
      - lia. }
    cbn [mbind result_bind].
    rewrite decode_loop_done. exists str2. by rewrite <- app_assoc in Hstr2.
  - cbv zeta in E1 |- *. set (inbuf' := if 0 <=? reverse_at c then inbuf ++ [reverse_at c] else inbuf) in *.
    assert (length inbuf' <= S (length inbuf))%nat as Hin'.
    { unfold inbuf'. destruct (0 <=? _); [rewrite length_app; simpl; lia|lia]. }
    destruct (decide (length inbuf' = 4%nat)) as [H4|H4].
    + destruct inbuf' as [|i0 [|i1 [|i2 [|i3 [|]]]]]; try done.
      destruct (decoded [] p1) as [[o1 b1] d1] eqn:E2. apply pair_eq in E1 as [[<- <-]%pair_eq <-].
      destruct (append_outside str1 (t ++ g) (decode_group i0 i1 i2 i3) Hstr1) as (str2 & Ea & Hstr2 & Hblk2);
        [rewrite zlen_decode_group; rewrite zlen_app in *; lia|].
      rewrite zlen_decode_group in Ea. rewrite Ea. cbn [mbind result_bind].
      destruct (IH str2 ((t ++ g) ++ decode_group i0 i1 i2 i3) p1 [] false o1 b1 d1) as (str' & -> & Hstr').
      * simpl in Hlen1. lia.
      * simpl; lia.
      * done.
      * done.
      * intros _. rewrite zlen_app, zlen_decode_group, zlen_nil. simpl in Hin'. etrans; [|exact Hblk2].
        etrans; [|exact Hroom1]. assert (zlen inbuf = 3) as -> by zlen_lia. dlia.
      * rewrite zlen_app, zlen_decode_group, zlen_nil. simpl in Hin'. assert (zlen inbuf = 3) by zlen_lia. lia.
      * exists str'. by rewrite <- !app_assoc in *.
    + assert (match inbuf' with
              | [i0; i1; i2; i3] => let '(out, rest, done) := decoded [] p1 in (decode_group i0 i1 i2 i3 ++ out, rest, done)
              | _ => decoded inbuf' p1 end = decoded inbuf' p1) as Em.
      { destruct inbuf' as [|i0 [|i1 [|i2 [|i3 [|]]]]]; done. }
      rewrite Em in E1. clear Em.
      destruct (IH str1 (t ++ g) p1 inbuf' false o b d) as (str' & E' & Hstr').
      * simpl in Hlen1. lia.
      * lia.
      * done.
      * done.
      * intros _. etrans; [|exact Hroom1]. assert (zlen inbuf' <= zlen inbuf + 1) by zlen_lia.
        pose proof (zlen_nonneg inbuf'). dlia.
      * assert (zlen inbuf' <= zlen inbuf + 1) by zlen_lia. lia.
      * exists str'. rewrite <- app_assoc in Hstr'. split; [|done]. rewrite <- E'.
        destruct inbuf' as [|i0 [|i1 [|i2 [|i3 [|]]]]]; done.
Qed.

Lemma decode_bytes_spec str t data inbuf done out rest done' :
  (length inbuf < 4)%nat -> decoded_if done inbuf data = (out, rest, done') -> holds str t ->
  zlen t + zlen data < 2 ^ 59 ->
  exists str', decode_bytes str data inbuf done = Ok (str', rest, done') /\ holds str' (t ++ out).
Proof.
  intros Hin Hdec Hstr Hb. pose proof Hstr as (Hl & _). pose proof (zlen_nonneg t).
  pose proof (zlen_nonneg data). pose proof (zlen_nonneg inbuf).
  assert (zlen inbuf <= 3) by zlen_lia. unfold decode_bytes. rewrite Hl, u64_small by dlia.
  destruct (ensure_grows str t (zlen t + (zlen inbuf + zlen data) / 4 * 3) Hstr)
    as (str1 & -> & Hstr1 & Hroom & _); [unfold STRING_BOUND; dlia|].
  cbn [mbind result_bind].
  apply base64_decode_loop; [lia|done|done|done|intros _; lia|unfold STRING_BOUND; lia].
Qed.

Lemma base64_decode_string data :
  zlen data < 2 ^ 58 ->
  exists str, svn_base64_decode_string data = Ok str /\ is_string str (decoded [] data).1.1.
Proof.
  intros Hb. unfold svn_base64_decode_string. destruct (decoded [] data) as [[out rest] d] eqn:E.
  destruct (create_ensure_holds 0) as (str0 & E0 & Hstr0 & _); [done|].
  change svn_stringbuf_create_empty with (svn_stringbuf_create_ensure 0). rewrite E0. cbn [mbind result_bind].
  destruct (decode_bytes_spec str0 [] data [] false out rest d) as (str & -> & Hstr);
    [simpl; lia|done|done|change (zlen []) with 0; lia|].
  eexists. split; [done|]. by apply morph_is_string.
Qed.
End Decoder.

(** ** Decoding undoes encoding *)

Lemma land_low x n : 0 <= n -> Z.land x (Z.ones n) = x mod 2 ^ n.
Proof. intros. by rewrite Z.land_ones. Qed.

(** The values of the characters of a group. *)
Definition sextets (a b c : Z) : list Z := [a / 4; a mod 4 * 16 + b / 16; b mod 16 * 4 + c / 64; c mod 64].

Lemma encode_group_sextets a b c :
  is_byte a -> is_byte b -> is_byte c -> encode_group a b c = byte_at base64tab <$> sextets a b c.
Proof.
  unfold is_byte. intros Ha Hb Hc. unfold encode_group, sextets. rewrite !Z.shiftr_div_pow2 by lia.
  change 3 with (Z.ones 2). change 0xf with (Z.ones 4). change 0x3f with (Z.ones 6).
  rewrite !land_low by lia. rewrite !lor_fields by dlia. done.
Qed.

Lemma decode_group_sextets a b c :
  is_byte a -> is_byte b -> is_byte c ->
  match sextets a b c with
  | [i0; i1; i2; i3] => decode_group i0 i1 i2 i3 = [a; b; c]
  | _ => False
  end.
Proof.
  unfold is_byte. intros Ha Hb Hc. unfold sextets, decode_group. rewrite !Z.shiftr_div_pow2 by lia.
  change 0xf with (Z.ones 4). change 0x3 with (Z.ones 2).
  rewrite !land_low by lia. rewrite !lor_fields by dlia. unfold u8. f_equal; [|f_equal; [|f_equal]]; dlia.
Qed.

Lemma reverse_tab i : 0 <= i < 64 -> reverse_at (byte_at base64tab i) = i.
Proof.
  intros Hi. assert (Forall (fun i => reverse_at (byte_at base64tab i) = i) (seqZ 0 64)) as Hall by by_evaluation.
  rewrite Forall_forall in Hall. apply Hall, elem_of_seqZ. lia.
Qed.

Lemma sextets_range a b c : is_byte a -> is_byte b -> is_byte c -> Forall (fun i => 0 <= i < 64) (sextets a b c).
Proof. unfold is_byte. intros. repeat (apply Forall_cons; split); try by constructor. all: dlia. Qed.

Lemma decoded_encode_group a b c p :
  is_byte a -> is_byte b -> is_byte c ->
  decoded [] (encode_group a b c ++ p) =
    let '(out, rest, done) := decoded [] p in ([a; b; c] ++ out, rest, done).
Proof.
  intros Ha Hb Hc. rewrite encode_group_sextets by done.
  pose proof (sextets_range a b c Ha Hb Hc) as Hr. pose proof (decode_group_sextets a b c Ha Hb Hc) as Hd.
  unfold sextets in *. cbn [fmap list_fmap app]. rewrite !Forall_cons in Hr.
  destruct Hr as (H0 & H1 & H2 & H3 & _).
  rewrite decoded_group by (rewrite !Forall_cons, !reverse_tab by lia; split_and!; (lia || constructor)).
  by rewrite !reverse_tab, Hd by done.
Qed.

Lemma decoded_newline inbuf p : (length inbuf < 4)%nat -> decoded inbuf (10 :: p) = decoded inbuf p.
Proof.
  intros Hl. cbn [decoded]. change (10 =? "="%cc) with false. change (0 <=? reverse_at 10) with false. cbv zeta iota.
  destruct inbuf as [|i0 [|i1 [|i2 [|i3 [|]]]]]; simpl in Hl; (done || lia).
Qed.

Lemma decoded_body brk s : forall l, Forall is_byte s -> forall p,
  exists d, s = d ++ (body brk l s).1.2 /\
    decoded [] ((body brk l s).1.1 ++ p) = let '(o, b, dn) := decoded [] p in (d ++ o, b, dn).
Proof.
  induction s as [s Hs|a b c s IH] using triples_ind; intros l Hall p.
  - rewrite body_short by done. exists []. cbn. by destruct (decoded [] p) as [[o b] d].
  - rewrite !Forall_cons in Hall. destruct Hall as (Ha & Hb & Hc & Hall). cbn [body].
    set (full := brk && _). set (l' := if full then _ else _).
    destruct (IH l' Hall p) as (d & Es & Ed). destruct (body brk l' s) as [[t r] m]. cbn [fst snd] in *.
    exists (a :: b :: c :: d). split; [simpl; by rewrite Es at 1|].
    rewrite <- !app_assoc, decoded_encode_group by done.
    assert (decoded [] ((if full then [10] else []) ++ t ++ p) = decoded [] (t ++ p)) as ->.
    { destruct full; [apply decoded_newline; simpl; lia|done]. }
    rewrite Ed. by destruct (decoded [] p) as [[o b'] dn].
Qed.

(** The partial group at the end. *)
Lemma decoded_two a b p :
  is_byte a -> is_byte b ->
  decoded [] (take 3 (encode_group a b 0) ++ "="%cc :: p) = ([a; b], take 3 (sextets a b 0), true).
Proof.
  intros Ha Hb. rewrite encode_group_sextets by (done || by unfold is_byte).
  pose proof (sextets_range a b 0 Ha Hb ltac:(done)) as Hr. pose proof (decode_group_sextets a b 0 Ha Hb ltac:(done)) as Hd.
  unfold sextets in *. cbn [fmap list_fmap app take]. rewrite !Forall_cons in Hr. destruct Hr as (H0 & H1 & H2 & _).
  rewrite !decoded_char, !reverse_tab by (done || (simpl; lia) || (rewrite reverse_tab; lia)).
  cbn [decoded app]. rewrite Z.eqb_refl. unfold partial. change (0 mod 64) with 0 in Hd. by rewrite Hd.
Qed.

Lemma decoded_one a p :
  is_byte a -> decoded [] (take 2 (encode_group a 0 0) ++ "="%cc :: p) = ([a], take 2 (sextets a 0 0), true).
Proof.
  intros Ha. rewrite encode_group_sextets by (done || by unfold is_byte).
  pose proof (sextets_range a 0 0 Ha ltac:(done) ltac:(done)) as Hr.
  pose proof (decode_group_sextets a 0 0 Ha ltac:(done) ltac:(done)) as Hd.
  unfold sextets in *. cbn [fmap list_fmap app take]. rewrite !Forall_cons in Hr. destruct Hr as (H0 & H1 & _).
  rewrite !decoded_char, !reverse_tab by (done || (simpl; lia) || (rewrite reverse_tab; lia)).
  cbn [decoded app]. rewrite Z.eqb_refl. unfold partial. change (0 mod 16 * 4 + 0 / 64) with 0 in Hd.
  change (0 mod 64) with 0 in Hd. by rewrite Hd.
Qed.

Lemma decoded_ending brk l rest :
  Forall is_byte rest -> (length rest < 3)%nat -> (decoded [] (ending brk l rest)).1.1 = rest.
Proof.
  intros Hall Hl. unfold ending. set (nl := if brk && _ then [10] else []).
  assert (nl = [] \/ nl = [10]) as Hnl by (unfold nl; destruct (brk && _); auto).
  destruct rest as [|a [|b [|]]]; [..|simpl in Hl; lia].
  - by destruct Hnl as [-> | ->].
  - rewrite !Forall_cons in Hall. rewrite <- app_assoc. cbn [app].
    by rewrite (decoded_one a ("="%cc :: nl)) by naive_solver.
  - rewrite !Forall_cons in Hall. rewrite <- app_assoc. cbn [app].
    by rewrite (decoded_two a b nl) by naive_solver.
Qed.

Lemma decoded_base64_text brk s : Forall is_byte s -> (decoded [] (base64_text brk s)).1.1 = s.
Proof.
  intros Hall. unfold base64_text. pose proof (body_rest brk s 0) as Hr.
  destruct (body brk 0 s) as [[t r] l] eqn:E.
  destruct (decoded_body brk s 0 Hall (ending brk l r)) as (d & Es & Ed). rewrite E in *. cbn [fst snd] in *.
  assert (Forall is_byte r) as Hallr by (rewrite Es in Hall; by apply Forall_app in Hall as [_ ?]).
  pose proof (decoded_ending brk l r Hallr Hr) as He.
  rewrite Ed. destruct (decoded [] (ending brk l r)) as [[o b] dn]. cbn in *. by rewrite He.
Qed.

(** ** Streams *)

Section Streams.
Context `{Allocator}.

Lemma base64_encode_blocks brk blocks : forall output buf l,
  zlen buf <= 2 -> 0 <= l -> (brk = true -> l < BASE64_LINELEN /\ l mod 4 = 0) ->
  2 * zlen (concat blocks) < 2 ^ 58 ->
  exists output', write_blocks encode_data (mk_encode_baton output buf l brk) blocks =
    Ok (mk_encode_baton output' (body brk l (buf ++ concat blocks)).1.2 (body brk l (buf ++ concat blocks)).2 brk) /\
    received output' = received output ++ (body brk l (buf ++ concat blocks)).1.1.
Proof.
  induction blocks as [|data blocks IH]; intros output buf l Hbuf Hl Hbl Hb; cbn [write_blocks concat].
  { exists output. rewrite app_nil_r, body_short by zlen_lia. by rewrite app_nil_r. }
  cbn [concat] in Hb. rewrite zlen_app in Hb. pose proof (zlen_nonneg data). pose proof (zlen_nonneg (concat blocks)).
  unfold encode_data at 2. cbn [eb_buf eb_linelen eb_break_lines eb_output].
  destruct (create_ensure_holds 0) as (str0 & E0 & Hstr0 & _); [done|].
  change svn_stringbuf_create_empty with (svn_stringbuf_create_ensure 0). rewrite E0. cbn [mbind result_bind].
  destruct (body brk l (buf ++ data)) as [[t r] m] eqn:E.
  destruct (base64_encode_bytes brk str0 [] data buf l t r m) as (str & -> & Hstr);
    [done|done|done|done|done|change (zlen []) with 0; lia|]. cbn [mbind result_bind].
  destruct (write_buffer_received output str t Hstr) as (output1 & -> & Hrec & _). cbn [mbind result_bind].
  pose proof (body_rest brk (buf ++ data) l) as Hr. rewrite E in Hr. cbn [fst snd] in Hr.
  destruct (IH output1 r m) as (output' & -> & Hrec').
  - zlen_lia.
  - assert (0 <= (body brk l (buf ++ data)).2) as Hm; [|by rewrite E in Hm].
    clear -Hl. revert l Hl. induction (buf ++ data) as [s Hs|a b c s IHs] using triples_ind; intros l Hl.
    + by rewrite body_short.
    + cbn [body]. specialize (IHs (if brk && (u64 (l + 4) =? BASE64_LINELEN) then 0 else u64 (l + 4))).
      destruct (body brk _ s) as [[? ?] ?]. apply IHs. unfold u64. destruct (brk && _); dlia.
  - intros ->. destruct Hbl as [? ?]; [done|]. pose proof (body_linelen (buf ++ data) l) as Hm.
    rewrite E in Hm. cbn in Hm. destruct Hm; [lia|done|]. by split; [lia|].
  - lia.
  - exists output'. rewrite (app_assoc buf data), (body_app brk (buf ++ data)), E.
    destruct (body brk m (r ++ concat blocks)) as [[t2 r2] m2]. cbn [fst snd] in *.
    by rewrite Hrec', Hrec, <- app_assoc.
Qed.

Lemma base64_encode_stream brk blocks :
  2 * zlen (concat blocks) < 2 ^ 58 ->
  exists stream, write_blocks encode_data (svn_base64_encode2 new_stream brk) blocks ≫= finish_encoding_data
      = Ok stream /\ received stream = base64_text brk (concat blocks) /\ closed stream = true.
Proof.
  intros Hb. destruct (base64_encode_blocks brk blocks new_stream [] 0) as (output & E & Hrec);
    [done|done|done|done|].
  unfold svn_base64_encode2. rewrite E. cbn [mbind result_bind]. unfold base64_text. cbn [app] in *.
  pose proof (body_rest brk (concat blocks) 0) as Hr.
  destruct (body brk 0 (concat blocks)) as [[t r] l]. cbn [fst snd] in *.
  unfold finish_encoding_data. cbn [eb_buf eb_linelen eb_break_lines eb_output].
  destruct (create_ensure_holds 0) as (str0 & E0 & Hstr0 & _); [done|].
  change svn_stringbuf_create_empty with (svn_stringbuf_create_ensure 0). rewrite E0. cbn [mbind result_bind].
  destruct (encode_partial_group_spec brk str0 [] r l) as (str & -> & Hstr); [zlen_lia|done|done|].
  cbn [mbind result_bind].
  destruct (write_buffer_received output str _ Hstr) as (output1 & -> & Hrec1 & _). cbn [mbind result_bind].
  eexists. split; [done|]. split; [|done]. change (received (svn_stream_close output1)) with (received output1).
  by rewrite Hrec1, Hrec.
Qed.

Lemma decoded_length inbuf p : (length inbuf < 4)%nat -> (length (decoded inbuf p).1.2 < 4)%nat.
Proof.
  revert inbuf. induction p as [|c p IH]; intros inbuf Hin; [done|]. cbn [decoded].
  destruct (c =? _); [done|]. cbv zeta.
  assert (length (if (0 <=? reverse_at c)%Z then inbuf ++ [reverse_at c] else inbuf) <= 4)%nat as Hin'.
  { destruct (0 <=? _); [rewrite length_app; simpl; lia|lia]. }
  destruct (if 0 <=? reverse_at c then _ else _) as [|i0 [|i1 [|i2 [|i3 [|i4 r]]]]].
  1-4: apply IH; simpl; lia.
  - specialize (IH [] ltac:(simpl; lia)). by destruct (decoded [] p) as [[o b] d].
  - simpl in Hin'. lia.
Qed.

Lemma base64_decode_blocks blocks : forall output buf done,
  (length buf < 4)%nat -> zlen (concat blocks) < 2 ^ 58 ->
  exists output', write_blocks decode_data (mk_decode_baton output buf done) blocks =
    Ok (mk_decode_baton output' (decoded_if done buf (concat blocks)).1.2 (decoded_if done buf (concat blocks)).2) /\
    received output' = received output ++ (decoded_if done buf (concat blocks)).1.1.
Proof.
  induction blocks as [|data blocks IH]; intros output buf done Hbuf Hb; cbn [write_blocks concat].
  { exists output. destruct done; cbn; by rewrite app_nil_r. }
  cbn [concat] in Hb. rewrite zlen_app in Hb. pose proof (zlen_nonneg data). pose proof (zlen_nonneg (concat blocks)).
  unfold decode_data at 2. cbn [db_buf db_done db_output].
  destruct (create_ensure_holds 0) as (str0 & E0 & Hstr0 & _); [by vm_compute|].
  change svn_stringbuf_create_empty with (svn_stringbuf_create_ensure 0). rewrite E0. cbn [mbind result_bind].
  destruct (decoded_if done buf data) as [[o b] d] eqn:E.
  destruct (decode_bytes_spec str0 [] data buf done o b d) as (str & -> & Hstr);
    [done|done|done|change (zlen []) with 0; lia|]. cbn [mbind result_bind].
  destruct (write_buffer_received output str o Hstr) as (output1 & -> & Hrec & _). cbn [mbind result_bind].
  assert (length b < 4)%nat as Hb4.
  { destruct done; [by injection E as <- <- <-|]. pose proof (decoded_length buf data Hbuf) as Hd.
    cbn [decoded_if] in E. by rewrite E in Hd. }
  destruct (IH output1 b d Hb4) as (output' & -> & Hrec'); [lia|].
  exists output'.
  assert (decoded_if done buf (data ++ concat blocks) =
          let '(o2, b2, d2) := decoded_if d b (concat blocks) in (o ++ o2, b2, d2)) as ->.
  { destruct done; [by injection E as <- <- <-|]. cbn [decoded_if] in *. by rewrite decoded_app, E. }
  destruct (decoded_if d b (concat blocks)) as [[o2 b2] d2]. cbn [fst snd] in *.
  by rewrite Hrec', Hrec, <- app_assoc.
Qed.
End Streams.
