(* ===== verification/Encode.v ===== *)
(** * Variable-length integers (libsvn_subr/encode.c)

    Seven bits per byte, the most significant ones first, with the top bit of
    every byte but the last set. *)

From S2P Require Import Prelude Buffers.

Definition SVN__MAX_ENCODED_UINT_LEN : Z := 10.

(** The loop that counts the bytes. *)
Fixpoint encoded_length (fuel : nat) (v n : Z) : Z :=
  match fuel with
  | O => n
  | S f => if 0 <? v then encoded_length f (Z.shiftr v 7) (n + 1) else n
  end.

(** The bytes in front of the last one, [n] of them, and the last one. *)
Fixpoint encode_bytes (n : nat) (val : Z) : bytes :=
  match n with
  | O => [Z.land val 0x7f]
  | S n' => Z.land (Z.lor (Z.shiftr val (Z.of_nat n * 7)) 0x80) 0xff :: encode_bytes n' val
  end.

(** The bytes that are written at [p]. *)
Definition svn__encode_uint (val : Z) : bytes :=
  let n := encoded_length 9 (Z.shiftr val 7) 1 in
  encode_bytes (Z.to_nat (n - 1)) val.

Definition svn__encode_int (val : Z) : bytes :=
  let value := u64 val in
  let value := if negb (Z.land value 0x8000000000000000 =? 0)
               then u64 ((2 ^ 64 - 1) - u64 (2 * value)) else u64 (2 * value) in
  svn__encode_uint value.

(** [n] bytes may be read; the result is the number and what follows it. *)
Fixpoint decode_loop (n : nat) (p : bytes) (temp : Z) : option (Z * bytes) :=
  match n, p with
  | S n, c :: p =>
      if c <? 0x80 then Some (u64 (Z.lor (u64 (Z.shiftl temp 7)) c), p)
      else decode_loop n p (u64 (Z.lor (u64 (Z.shiftl temp 7)) (Z.land c 0x7f)))
  | _, _ => None
  end.

(** [p] holds the bytes up to [end]. *)
Definition svn__decode_uint (p : bytes) : option (Z * bytes) :=
  decode_loop (Z.to_nat SVN__MAX_ENCODED_UINT_LEN) p 0.

(** The conversion to [apr_int64_t]. *)
Definition s64 (z : Z) : Z :=
  let m := z mod 2 ^ 64 in if m <? 2 ^ 63 then m else m - 2 ^ 64.

(** Without a number to decode, C computes with an indeterminate value and
    returns a null pointer. *)
Definition svn__decode_int (p : bytes) : option (Z * bytes) :=
  match svn__decode_uint p with
  | Some (value, p) =>
      let value := if negb (Z.land value 1 =? 0) then u64 ((2 ^ 64 - 1) - value / 2)
                   else value / 2 in
      Some (s64 value, p)
  | None => None
  end.

(** ** Bits in groups of seven *)

Lemma land_127 v : Z.land v 0x7f = v mod 2 ^ 7.
Proof. change 0x7f with (Z.ones 7). by rewrite Z.land_ones. Qed.

Lemma u64_shiftl_7 t : 0 <= t < 2 ^ 57 -> u64 (Z.shiftl t 7) = t * 2 ^ 7.
Proof. intros. rewrite Z.shiftl_mul_pow2 by lia. apply u64_small. lia. Qed.

Lemma lor_mul_7 t c : 0 <= c < 2 ^ 7 -> Z.lor (t * 2 ^ 7) c = t * 2 ^ 7 + c.
Proof.
  intros Hc. rewrite <- Z.shiftl_mul_pow2 by lia.
  assert (Z.land (Z.shiftl t 7) c = 0) as Hl.
  { apply Z.bits_inj'. intros k Hk. rewrite Z.land_spec, Z.bits_0.
    destruct (Z.ltb_spec k 7); [by rewrite Z.shiftl_spec_low|].
    rewrite <- (Z.mod_small c (2 ^ 7)), Z.mod_pow2_bits_high by lia. apply andb_false_r. }
  by rewrite <- Z.lxor_lor, <- Z.add_nocarry_lxor.
Qed.

(** The continuation byte of [x]: its low seven bits below a set top bit. *)
Lemma continuation_byte x :
  Z.land (Z.lor x 0x80) 0xff = x mod 2 ^ 7 + 0x80.
Proof.
  rewrite Z.land_lor_distr_l. change 0xff with (Z.ones 8) at 1. rewrite Z.land_ones by lia.
  replace (x mod 2 ^ 7) with ((x mod 2 ^ 8) mod 2 ^ 7) by dlia.
  assert (0 <= x mod 2 ^ 8 < 256) as H by dlia.
  set (y := x mod 2 ^ 8) in *. clearbody y.
  assert (Forall (fun y => Z.lor y (Z.land 0x80 0xff) = y mod 2 ^ 7 + 0x80) (seqZ 0 256)) as HF
    by by_evaluation.
  rewrite Forall_forall in HF. apply HF. apply elem_of_seqZ. lia.
Qed.

(** ** The length of the encoding *)

Lemma encoded_length_spec fuel v n :
  0 <= v < 2 ^ (7 * Z.of_nat fuel) ->
  let r := encoded_length fuel v n in
  n <= r <= n + Z.of_nat fuel /\ v < 2 ^ (7 * (r - n)).
Proof.
  revert v n. induction fuel as [|f IH]; intros v n Hv; simpl.
  { change (7 * Z.of_nat 0) with 0 in Hv. rewrite Z.sub_diag. simpl in *. lia. }
  destruct (Z.ltb_spec 0 v) as [H|H]; [|rewrite Z.sub_diag; simpl; lia].
  rewrite Z.shiftr_div_pow2 by lia.
  replace (7 * Z.of_nat (S f)) with (7 * Z.of_nat f + 7) in Hv by lia.
  rewrite Z.pow_add_r in Hv by lia.
  destruct (IH (v / 2 ^ 7) (n + 1)) as [H1 H2]; [split; [dlia|]|].
  { apply Z.div_lt_upper_bound; lia. }
  split; [lia|]. set (r := encoded_length f (v / 2 ^ 7) (n + 1)) in *.
  replace (7 * (r - n)) with (7 * (r - (n + 1)) + 7) by lia.
  rewrite Z.pow_add_r by lia. dlia.
Qed.

(** The number of bytes of an encoding. *)
Definition uint_len (val : Z) : nat := Z.to_nat (encoded_length 9 (Z.shiftr val 7) 1).

Lemma uint_len_spec val :
  0 <= val < 2 ^ 64 -> (1 <= uint_len val <= 10)%nat /\ val < 2 ^ (7 * Z.of_nat (uint_len val)).
Proof.
  intros H. unfold uint_len. rewrite Z.shiftr_div_pow2 by lia.
  destruct (encoded_length_spec 9 (val / 2 ^ 7) 1) as [H1 H2]; [simpl; dlia|].
  set (r := encoded_length 9 (val / 2 ^ 7) 1) in *.
  rewrite Z2Nat.id by lia. split; [lia|].
  replace (7 * r) with (7 * (r - 1) + 7) by lia. rewrite Z.pow_add_r by lia. dlia.
Qed.

Lemma encode_bytes_length n val : length (encode_bytes n val) = S n.
Proof. induction n as [|n IH]; simpl; [done|]. by rewrite IH. Qed.

Lemma encode_uint_length val :
  0 <= val < 2 ^ 64 -> length (svn__encode_uint val) = uint_len val.
Proof.
  intros H. destruct (uint_len_spec val H) as [Hn _]. unfold uint_len in *.
  unfold svn__encode_uint. rewrite encode_bytes_length. lia.
Qed.

Lemma encode_uint_bytes val : Forall is_byte (svn__encode_uint val).
Proof.
  unfold svn__encode_uint. set (n := Z.to_nat _). clearbody n. unfold is_byte.
  induction n as [|n IH]; simpl; constructor; [|constructor| |done].
  - rewrite land_127. dlia.
  - rewrite continuation_byte. dlia.
Qed.

(** ** Decoding *)

(** The decoder meets the bytes that remain with the top part of the number
    in [temp]. *)
Lemma decode_encode_bytes n m val rest :
  0 <= val < 2 ^ 64 -> (n < m)%nat ->
  decode_loop m (encode_bytes n val ++ rest) (val / 2 ^ (7 * (Z.of_nat n + 1))) =
    Some (val, rest).
Proof.
  intros Hval. revert m. induction n as [|n IH]; intros [|m] Hm; simpl; try lia.
  - rewrite land_127. destruct (Z.ltb_spec (val mod 2 ^ 7) 0x80) as [_|H]; [|dlia].
    do 2 f_equal. change (7 * (Z.of_nat 0 + 1)) with 7.
    rewrite u64_shiftl_7, lor_mul_7 by dlia. rewrite u64_small by dlia. dlia.
  - rewrite continuation_byte, Z.shiftr_div_pow2 by lia.
    set (k := Z.of_nat (S n) * 7).
    destruct (Z.ltb_spec ((val / 2 ^ k) mod 2 ^ 7 + 0x80) 0x80) as [H|_]; [dlia|].
    rewrite <- (IH m) by lia. f_equal.
    replace (7 * (Z.of_nat (S n) + 1)) with (k + 7) by lia.
    replace (7 * (Z.of_nat n + 1)) with k by lia.
    assert (0 < 2 ^ k) as Hk by (apply Z.pow_pos_nonneg; lia).
    rewrite Z.pow_add_r, <- Z.div_div by lia.
    set (x := val / 2 ^ k). assert (0 <= x < 2 ^ 64) as Hx.
    { subst x. split; [apply Z.div_pos; lia|]. apply Z.div_lt_upper_bound; nia. }
    rewrite land_127, u64_shiftl_7 by dlia.
    replace ((x mod 2 ^ 7 + 0x80) mod 2 ^ 7) with (x mod 2 ^ 7) by dlia.
    rewrite lor_mul_7 by dlia. rewrite u64_small by dlia. dlia.
Qed.

Lemma decode_encode_uint val rest :
  0 <= val < 2 ^ 64 -> svn__decode_uint (svn__encode_uint val ++ rest) = Some (val, rest).
Proof.
  intros H. destruct (uint_len_spec val H) as [Hn Hv]. unfold uint_len in *.
  unfold svn__decode_uint, svn__encode_uint.
  set (r := encoded_length 9 (Z.shiftr val 7) 1) in *.
  rewrite <- (decode_encode_bytes (Z.to_nat (r - 1)) (Z.to_nat SVN__MAX_ENCODED_UINT_LEN) val rest)
    by (unfold SVN__MAX_ENCODED_UINT_LEN; lia).
  f_equal. symmetry. apply Z.div_small. split; [lia|].
  by replace (7 * (Z.of_nat (Z.to_nat (r - 1)) + 1)) with (7 * Z.of_nat (Z.to_nat r)) by lia.
Qed.

(** What is decoded does not depend on what follows. *)
Lemma decode_loop_app n p temp v rest q :
  decode_loop n p temp = Some (v, rest) -> decode_loop n (p ++ q) temp = Some (v, rest ++ q).
Proof.
  revert p temp. induction n as [|n IH]; intros [|c p] temp H; simpl in *; try done.
  destruct (c <? 0x80); [by simplify_eq|auto].
Qed.

Lemma decode_uint_app p v rest q :
  svn__decode_uint p = Some (v, rest) -> svn__decode_uint (p ++ q) = Some (v, rest ++ q).
Proof. apply decode_loop_app. Qed.

(** What is decoded is what the buffer starts with. *)
Lemma decode_loop_suffix n p temp v rest :
  decode_loop n p temp = Some (v, rest) ->
  exists e, p = e ++ rest /\ (1 <= length e <= n)%nat /\ 0 <= v < 2 ^ 64.
Proof.
  revert p temp. induction n as [|n IH]; intros [|c p] temp H; simpl in *; try done.
  destruct (c <? 0x80).
  - simplify_eq. exists [c]. simpl. repeat split; try lia; unfold u64; dlia.
  - destruct (IH _ _ H) as (e & -> & He & Hv). exists (c :: e). simpl. repeat split; lia.
Qed.

Lemma decode_uint_suffix p v rest :
  svn__decode_uint p = Some (v, rest) ->
  exists e, p = e ++ rest /\ (1 <= length e <= 10)%nat /\ 0 <= v < 2 ^ 64.
Proof. apply decode_loop_suffix. Qed.

(** ** Signed integers *)

Lemma land_sign value :
  0 <= value < 2 ^ 64 ->
  negb (Z.land value 0x8000000000000000 =? 0) = (2 ^ 63 <=? value).
Proof.
  intros H. change 0x8000000000000000 with (2 ^ 63).
  assert (Z.testbit value 63 = (2 ^ 63 <=? value)) as Hb.
  { rewrite Z.testbit_odd, Z.shiftr_div_pow2 by lia.
    assert (value / 2 ^ 63 = if 2 ^ 63 <=? value then 1 else 0) as ->.
    { destruct (Z.leb_spec (2 ^ 63) value); dlia. }
    by destruct (2 ^ 63 <=? value). }
  destruct (Z.eqb_spec (Z.land value (2 ^ 63)) 0) as [E|E]; simpl; rewrite <- Hb.
  - assert (Z.testbit (Z.land value (2 ^ 63)) 63 = false) as E' by by rewrite E.
    rewrite Z.land_spec, Z.pow2_bits_eqb, andb_true_r in E' by lia. done.
  - destruct (Z.testbit value 63) eqn:Ht; [done|]. exfalso. apply E.
    apply Z.bits_inj'. intros k Hk. rewrite Z.land_spec, Z.pow2_bits_eqb, Z.bits_0 by lia.
    destruct (Z.eqb_spec 63 k) as [<-|]; [by rewrite Ht|apply andb_false_r].
Qed.

Lemma land_1 value : negb (Z.land value 1 =? 0) = Z.odd value.
Proof.
  change 1 with (Z.ones 1) at 1. rewrite Z.land_ones, Zmod_odd by lia.
  by destruct (Z.odd value).
Qed.

Lemma decode_encode_int val rest :
  - 2 ^ 63 <= val < 2 ^ 63 -> svn__decode_int (svn__encode_int val ++ rest) = Some (val, rest).
Proof.
  intros H. unfold svn__decode_int, svn__encode_int.
  assert (0 <= u64 val < 2 ^ 64) as Hu by (unfold u64; dlia).
  rewrite land_sign by done. rewrite decode_encode_uint.
  2: { unfold u64 in *. destruct (2 ^ 63 <=? val mod 2 ^ 64); dlia. }
  rewrite land_1. do 2 f_equal.
  destruct (Z.leb_spec (2 ^ 63) (u64 val)) as [Hs|Hs].
  - assert (val < 0) by (unfold u64 in *; dlia).
    assert (u64 (2 ^ 64 - 1 - u64 (2 * u64 val)) = - 2 * val - 1) as -> by (unfold u64 in *; dlia).
    replace (Z.odd (-2 * val - 1)) with true
      by (rewrite Z.odd_sub, Z.odd_mul; done).
    unfold s64, u64. destruct (Z.ltb_spec (((2 ^ 64 - 1 - (-2 * val - 1) / 2) mod 2 ^ 64) mod 2 ^ 64) (2 ^ 63)); dlia.
  - assert (0 <= val) by (unfold u64 in *; dlia).
    assert (u64 (2 * u64 val) = 2 * val) as -> by (unfold u64 in *; dlia).
    rewrite Z.odd_mul. simpl. unfold s64.
    destruct (Z.ltb_spec ((2 * val / 2) mod 2 ^ 64) (2 ^ 63)); dlia.
Qed.
