(* ===== verification/Delta.v ===== *)
(** * Text deltas (libsvn_delta/text_delta.c)

    A delta turns a source view into a target view by instructions that copy
    from the source, from the target written so far or from new data.  This
    file translates the builder of windows, the application of instructions
    and the handler that applies windows to streams.  The number of operations
    of a window is the length of its list; the growth of the arrays of the
    builder only allocates.  Streams are the bytes they still deliver or have
    received; digests are not computed. *)

From S2P Require Import Prelude Buffers.

(** ** Windows *)

Inductive svn_delta_action := svn_txdelta_source | svn_txdelta_target | svn_txdelta_new.

#[export] Instance svn_delta_action_eq_dec : EqDecision svn_delta_action.
Proof. solve_decision. Defined.

Record svn_txdelta_op_t := mk_op {
  action_code : svn_delta_action;
  op_offset : Z;
  op_length : Z
}.

Record svn_txdelta_window_t := mk_window {
  sview_offset : Z;
  sview_len : Z;
  tview_len : Z;
  w_src_ops : Z;
  w_ops : list svn_txdelta_op_t;
  w_new_data : bytes
}.

Definition SVN_DELTA_WINDOW_SIZE : Z := 102400.

(** The baton for building an operation sequence. *)
Record svn_txdelta__ops_baton_t := mk_ops_baton {
  b_src_ops : Z;
  b_ops : list svn_txdelta_op_t;
  b_new_data : bytes
}.

(** [{ 0 }] with an empty string buffer. *)
Definition empty_ops_baton : svn_txdelta__ops_baton_t := mk_ops_baton 0 [] [].

Definition svn_txdelta__make_window (build_baton : svn_txdelta__ops_baton_t)
    : svn_txdelta_window_t :=
  mk_window 0 0 0 (b_src_ops build_baton) (b_ops build_baton) (b_new_data build_baton).

Definition svn_txdelta_window_dup (window : svn_txdelta_window_t) : svn_txdelta_window_t :=
  let build_baton := mk_ops_baton (w_src_ops window) (w_ops window) (w_new_data window) in
  let new_window := svn_txdelta__make_window build_baton in
  mk_window (sview_offset window) (sview_len window) (tview_len window)
    (w_src_ops new_window) (w_ops new_window) (w_new_data new_window).

(** ** Building a window *)

(** The bytes that [svn_stringbuf_appendbytes] adds to the new data, for new
    data only; [new_data] is the buffer from the pointer argument on. *)
Definition appended_data (opcode : svn_delta_action) (length_ : Z) (new_data : bytes)
    : result bytes :=
  match opcode with
  | svn_txdelta_new => memcpy_from new_data 0 length_
  | _ => Ok []
  end.

(** The last operation, if the new one can be merged with it. *)
Definition mergeable_op (ops : list svn_txdelta_op_t) (opcode : svn_delta_action) (offset : Z)
    : option svn_txdelta_op_t :=
  match last ops with
  | Some op =>
      if bool_decide (action_code op = opcode)
         && (bool_decide (opcode = svn_txdelta_new) || (op_offset op + op_length op =? offset))
      then Some op else None
  | None => None
  end.

Definition svn_txdelta__insert_op (build_baton : svn_txdelta__ops_baton_t)
    (opcode : svn_delta_action) (offset length_ : Z) (new_data : bytes)
    : result svn_txdelta__ops_baton_t :=
  let '(mk_ops_baton src_ops ops data) := build_baton in
  added ← appended_data opcode length_ new_data;
  match mergeable_op ops opcode offset with
  | Some op =>
      Ok (mk_ops_baton src_ops
            (take (length ops - 1) ops ++
             [mk_op (action_code op) (op_offset op) (op_length op + length_)])
            (data ++ added))
  | None =>
      let offset := if bool_decide (opcode = svn_txdelta_new) then zlen data else offset in
      Ok (mk_ops_baton
            (if bool_decide (opcode = svn_txdelta_source) then src_ops + 1 else src_ops)
            (ops ++ [mk_op opcode offset length_])
            (data ++ added))
  end.

(** The loop of [svn_txdelta__remove_copy], which removes operations back to
    front: here the operations are reversed.  The length of the string buffer
    with the new data is reduced, which cuts off its end. *)
Fixpoint remove_copy_loop (rev_ops : list svn_txdelta_op_t) (new_data : bytes)
    (max_len len : Z) : list svn_txdelta_op_t * bytes * Z :=
  match rev_ops with
  | [] => ([], new_data, len)
  | op :: rest =>
      if bool_decide (action_code op = svn_txdelta_target) then (rev_ops, new_data, len)
      else if max_len <? op_length op + len then
        if bool_decide (action_code op = svn_txdelta_new) then
          (mk_op (action_code op) (op_offset op) (op_length op - (max_len - len)) :: rest,
           slice new_data 0 (zlen new_data - (max_len - len)), max_len)
        else (rev_ops, new_data, len)
      else
        let new_data := if bool_decide (action_code op = svn_txdelta_new)
                        then slice new_data 0 (zlen new_data - op_length op) else new_data in
        remove_copy_loop rest new_data max_len (len + op_length op)
  end.

(** The number of source operations is left as it is. *)
Definition svn_txdelta__remove_copy (build_baton : svn_txdelta__ops_baton_t) (max_len : Z)
    : svn_txdelta__ops_baton_t * Z :=
  let '(rev_ops, new_data, len) :=
    remove_copy_loop (reverse (b_ops build_baton)) (b_new_data build_baton) max_len 0 in
  (mk_ops_baton (b_src_ops build_baton) (reverse rev_ops) new_data, len).

(** ** Applying instructions *)

(** [target] and what has been written in front of it are [tbuf]; the source
    of the copy lies [overlap] bytes before [target]. *)
Fixpoint patterning_loop (fuel : nat) (tbuf : bytes) (source overlap len : Z)
    : result (bytes * Z) :=
  if overlap <? len then
    match fuel with
    | O => Err OUT_OF_FUEL
    | S f =>
        pattern ← memcpy_from tbuf source overlap;
        patterning_loop f (tbuf ++ pattern) source overlap (len - overlap)
    end
  else Ok (tbuf, len).

Definition patterning_copy (tbuf : bytes) (source len : Z) : result bytes :=
  let overlap := zlen tbuf - source in
  '(tbuf, len) ← patterning_loop (Z.to_nat len) tbuf source overlap len;
  if 0 <? len then remaining ← memcpy_from tbuf source len; Ok (tbuf ++ remaining)
  else Ok tbuf.

(** What one instruction writes: [tbuf] is the target written so far. *)
Definition apply_op (window : svn_txdelta_window_t) (sbuf : option bytes)
    (op : svn_txdelta_op_t) (buf_len tpos : Z) (tbuf : bytes) : result bytes :=
  match action_code op with
  | svn_txdelta_source =>
      match sbuf with
      | Some sbuf =>
          c_assert (u64 (op_offset op + op_length op) <=? sview_len window);;
          data ← memcpy_from sbuf (op_offset op) buf_len;
          Ok (tbuf ++ data)
      | None => Err C_ABORT
      end
  | svn_txdelta_target =>
      c_assert (op_offset op <? tpos);;
      patterning_copy tbuf (op_offset op) buf_len
  | svn_txdelta_new =>
      c_assert (u64 (op_offset op + op_length op) <=? zlen (w_new_data window));;
      data ← memcpy_from (w_new_data window) (op_offset op) buf_len;
      Ok (tbuf ++ data)
  end.

(** The bytes written to [tbuf] and the new value of [*tlen]. *)
Fixpoint apply_loop (window : svn_txdelta_window_t) (sbuf : option bytes) (tlen : Z)
    (ops : list svn_txdelta_op_t) (tpos : Z) (tbuf : bytes) : result (bytes * Z) :=
  match ops with
  | [] => c_assert (tpos =? tview_len window);; Ok (tbuf, tpos)
  | op :: ops =>
      let buf_len := if op_length op <? tlen - tpos then op_length op else tlen - tpos in
      c_assert (u64 (tpos + op_length op) <=? tview_len window);;
      tbuf ← apply_op window sbuf op buf_len tpos tbuf;
      let tpos := u64 (tpos + op_length op) in
      if tlen <=? tpos then Ok (tbuf, tlen)
      else apply_loop window sbuf tlen ops tpos tbuf
  end.

Definition svn_txdelta_apply_instructions (window : svn_txdelta_window_t)
    (sbuf : option bytes) (tlen : Z) : result (bytes * Z) :=
  if tlen =? 0 then Ok ([], tlen) else apply_loop window sbuf tlen (w_ops window) 0 [].

(** ** Applying windows to streams *)

(** [sbuf] holds the first [sbuf_len] bytes of the source buffer. *)
Record apply_baton := mk_apply_baton {
  ab_source : bytes;          (** what the source stream still delivers *)
  ab_target : bytes;          (** what was written to the target stream *)
  ab_sbuf : bytes;
  ab_sbuf_size : Z;
  ab_sbuf_offset : Z;
  ab_tbuf_size : Z
}.

Definition svn_stream_read_full (stream : bytes) (len : Z) : bytes * bytes :=
  (take (Z.to_nat len) stream, drop (Z.to_nat len) stream).

(** The new size of the buffer. *)
Definition size_buffer (buf_size view_len : Z) : result Z :=
  if buf_size <? view_len then
    let buf_size := u64 (buf_size * 2) in
    let buf_size := if buf_size <? view_len then view_len else buf_size in
    svn_err_assert (buf_size <=? APR_ALIGN_DEFAULT buf_size);;
    Ok buf_size
  else Ok buf_size.

(** Sliding the source buffer to the new view: its content, size and offset. *)
Definition slide_sbuf (window : svn_txdelta_window_t) (ab : apply_baton)
    : result (bytes * Z * Z) :=
  if negb (sview_offset window =? ab_sbuf_offset ab)
     || (ab_sbuf_size ab <? sview_len window) then
    sbuf_size ← size_buffer (ab_sbuf_size ab) (sview_len window);
    sbuf ← (if u64 (sview_offset window) <? u64 (u64 (ab_sbuf_offset ab) + zlen (ab_sbuf ab)) then
              let start := u64 (sview_offset window - ab_sbuf_offset ab) in
              memcpy_from (ab_sbuf ab) start (u64 (zlen (ab_sbuf ab) - start))
            else Ok []);
    Ok (sbuf, sbuf_size, sview_offset window)
  else Ok (ab_sbuf ab, ab_sbuf_size ab, ab_sbuf_offset ab).

(** Reading the remainder of the source view: the buffer and the stream. *)
Definition fill_sbuf (window : svn_txdelta_window_t) (sbuf source : bytes)
    : result (bytes * bytes) :=
  if zlen sbuf <? sview_len window then
    let len := sview_len window - zlen sbuf in
    let '(data, source) := svn_stream_read_full source len in
    if negb (zlen data =? len) then Err SVN_ERR_INCOMPLETE_DATA
    else Ok (sbuf ++ data, source)
  else Ok (sbuf, source).

Definition apply_window (window : option svn_txdelta_window_t) (ab : apply_baton)
    : result apply_baton :=
  match window with
  | None => Ok ab
  | Some window =>
      svn_err_assert ((sview_len window =? 0)
        || ((ab_sbuf_offset ab <=? sview_offset window)
            && (u64 (ab_sbuf_offset ab + zlen (ab_sbuf ab)) <=? u64 (sview_offset window + sview_len window))));;
      tbuf_size ← size_buffer (ab_tbuf_size ab) (tview_len window);
      '(sbuf, sbuf_size, sbuf_offset) ← slide_sbuf window ab;
      '(sbuf, source) ← fill_sbuf window sbuf (ab_source ab);
      '(tbuf, len) ← svn_txdelta_apply_instructions window
                       (if sbuf_size =? 0 then None else Some sbuf) (tview_len window);
      svn_err_assert (len =? tview_len window);;
      Ok (mk_apply_baton source (ab_target ab ++ tbuf) sbuf sbuf_size sbuf_offset tbuf_size)
  end.

(** The baton of [svn_txdelta_apply] for a source stream. *)
Definition svn_txdelta_apply (source : bytes) : apply_baton :=
  mk_apply_baton source [] [] 0 0 0.

(** ** Windows that only insert *)

(** A window handler with its baton is a function on the state it changes. *)
Section Senders.
Context {T : Type} (handler : option svn_txdelta_window_t -> T -> result T).

Definition insertion_window (data : bytes) : svn_txdelta_window_t :=
  mk_window 0 0 (zlen data) 0 [mk_op svn_txdelta_new 0 (zlen data)] data.

Definition svn_txdelta_send_string (string : bytes) (s : T) : result T :=
  s ← handler (Some (insertion_window string)) s;
  handler None s.

Fixpoint send_contents_loop (fuel : nat) (contents : bytes) (s : T) : result T :=
  if 0 <? zlen contents then
    match fuel with
    | O => Err OUT_OF_FUEL
    | S f =>
        let len := if zlen contents <? SVN_DELTA_WINDOW_SIZE then zlen contents
                   else SVN_DELTA_WINDOW_SIZE in
        s ← handler (Some (insertion_window (slice contents 0 len))) s;
        send_contents_loop f (drop (Z.to_nat len) contents) s
    end
  else Ok s.

Definition svn_txdelta_send_contents (contents : bytes) (s : T) : result T :=
  s ← send_contents_loop (length contents) contents s;
  handler None s.

(** [SVN__STREAM_CHUNK_SIZE] *)
Definition SVN__STREAM_CHUNK_SIZE : Z := 16384.

Fixpoint send_stream_loop (fuel : nat) (stream : bytes) (s : T) : result T :=
  match fuel with
  | O => Err OUT_OF_FUEL
  | S f =>
      let '(read_buf, stream) := svn_stream_read_full stream SVN__STREAM_CHUNK_SIZE in
      if zlen read_buf =? 0 then Ok s
      else
        s ← handler (Some (insertion_window read_buf)) s;
        if zlen read_buf <? SVN__STREAM_CHUNK_SIZE then Ok s
        else send_stream_loop f stream s
  end.

Definition svn_txdelta_send_stream (stream : bytes) (s : T) : result T :=
  s ← send_stream_loop (1 + length stream) stream s;
  handler None s.
End Senders.
