(* ===== verification/DeltaFacts.v ===== *)
(** * What text deltas mean

    The target that a sequence of instructions describes, when instructions
    are valid, and that the builder and the application of instructions agree
    with that meaning. *)

From S2P Require Import Prelude Buffers Delta.

(** ** The meaning of instructions *)

(** [src] is the source view, [new] the new data, [t] the target in front. *)
Definition op_sem (src new t : bytes) (op : svn_txdelta_op_t) : bytes :=
  match action_code op with
  | svn_txdelta_source => t ++ slice src (op_offset op) (op_length op)
  | svn_txdelta_target => target_copy t (op_offset op) (Z.to_nat (op_length op))
  | svn_txdelta_new => t ++ slice new (op_offset op) (op_length op)
  end.

Definition ops_sem (src new t : bytes) (ops : list svn_txdelta_op_t) : bytes :=
  fold_left (op_sem src new) ops t.

Definition window_sem (window : svn_txdelta_window_t) (src : bytes) : bytes :=
  ops_sem src (w_new_data window) [] (w_ops window).

(** An instruction at position [tpos] of the target, for a source view of
    [slen] and new data of [nlen] bytes. *)
Definition op_ok (slen nlen tpos : Z) (op : svn_txdelta_op_t) : Prop :=
  0 <= op_offset op /\ 0 < op_length op /\
  match action_code op with
  | svn_txdelta_source => op_offset op + op_length op <= slen
  | svn_txdelta_target => op_offset op < tpos
  | svn_txdelta_new => op_offset op + op_length op <= nlen
  end.

Fixpoint ops_ok (slen nlen tpos : Z) (ops : list svn_txdelta_op_t) : Prop :=
  match ops with
  | [] => True
  | op :: ops => op_ok slen nlen tpos op /\ ops_ok slen nlen (tpos + op_length op) ops
  end.

Definition ops_len (ops : list svn_txdelta_op_t) : Z :=
  fold_right (fun op n => op_length op + n) 0 ops.

#[export] Instance op_ok_dec slen nlen tpos op : Decision (op_ok slen nlen tpos op).
Proof. unfold op_ok. destruct (action_code op); solve_decision. Defined.

#[export] Instance ops_ok_dec slen nlen tpos ops : Decision (ops_ok slen nlen tpos ops).
Proof. revert tpos. induction ops; intros tpos; simpl; solve_decision. Defined.

(** Sizes are far from the end of the address space. *)
Definition SIZE_BOUND : Z := 2 ^ 62.

Definition window_ok (w : svn_txdelta_window_t) : Prop :=
  ops_ok (sview_len w) (zlen (w_new_data w)) 0 (w_ops w) /\
  ops_len (w_ops w) = tview_len w /\
  0 <= sview_offset w < SIZE_BOUND /\ 0 <= sview_len w < SIZE_BOUND /\
  tview_len w < SIZE_BOUND /\ zlen (w_new_data w) < SIZE_BOUND.

#[export] Instance window_ok_dec w : Decision (window_ok w).
Proof. unfold window_ok. solve_decision. Defined.

Lemma ops_len_app ops1 ops2 : ops_len (ops1 ++ ops2) = ops_len ops1 + ops_len ops2.
Proof. unfold ops_len. induction ops1 as [|op ops1 IH]; simpl; [done|]. rewrite IH. lia. Qed.

Lemma ops_ok_app slen nlen tpos ops1 ops2 :
  ops_ok slen nlen tpos (ops1 ++ ops2) <->
  ops_ok slen nlen tpos ops1 /\ ops_ok slen nlen (tpos + ops_len ops1) ops2.
Proof.
  revert tpos. induction ops1 as [|op ops1 IH]; intros tpos; simpl.
  - rewrite Z.add_0_r. tauto.
  - rewrite IH, Z.add_assoc. tauto.
Qed.

Lemma ops_ok_len_nonneg slen nlen tpos ops : ops_ok slen nlen tpos ops -> 0 <= ops_len ops.
Proof.
  revert tpos. induction ops as [|op ops IH]; intros tpos; simpl; [lia|].
  intros [(_ & ? & _) H2]. apply IH in H2. lia.
Qed.

Lemma ops_ok_nlen slen nlen nlen' tpos ops :
  nlen <= nlen' -> ops_ok slen nlen tpos ops -> ops_ok slen nlen' tpos ops.
Proof.
  intros Hn. revert tpos. induction ops as [|op ops IH]; intros tpos; simpl; [done|].
  intros [(? & ? & H) H2]. split; [|auto]. unfold op_ok. destruct (action_code op); auto with lia.
Qed.

Lemma ops_sem_app src new t ops1 ops2 :
  ops_sem src new t (ops1 ++ ops2) = ops_sem src new (ops_sem src new t ops1) ops2.
Proof. apply fold_left_app. Qed.

Lemma op_sem_extends src new t op : exists u, op_sem src new t op = t ++ u.
Proof.
  unfold op_sem. destruct (action_code op); eauto.
  destruct (target_copy_app t (op_offset op) (Z.to_nat (op_length op))) as (u & -> & _). eauto.
Qed.

Lemma ops_sem_extends src new t ops : exists u, ops_sem src new t ops = t ++ u.
Proof.
  revert t. induction ops as [|op ops IH]; intros t; simpl.
  - exists []. by rewrite app_nil_r.
  - destruct (op_sem_extends src new t op) as [u ->]. destruct (IH (t ++ u)) as [v ->].
    exists (u ++ v). by rewrite app_assoc.
Qed.

Lemma op_sem_zlen src new t op slen nlen tpos :
  op_ok slen nlen tpos op -> slen <= zlen src -> nlen <= zlen new ->
  zlen (op_sem src new t op) = zlen t + op_length op.
Proof.
  unfold op_sem. intros (? & ? & H) ? ?. destruct (action_code op).
  - rewrite zlen_app, zlen_slice by lia. done.
  - rewrite target_copy_zlen. lia.
  - rewrite zlen_app, zlen_slice by lia. done.
Qed.

Lemma ops_sem_zlen src new t ops slen nlen tpos :
  ops_ok slen nlen tpos ops -> slen <= zlen src -> nlen <= zlen new ->
  zlen (ops_sem src new t ops) = zlen t + ops_len ops.
Proof.
  intros Hok Hs Hn. revert t tpos Hok.
  induction ops as [|op ops IH]; intros t tpos; simpl; [lia|]. intros [H1 H2].
  change (zlen (ops_sem src new (op_sem src new t op) ops) = zlen t + (op_length op + ops_len ops)).
  erewrite IH by eauto. erewrite op_sem_zlen by eauto. lia.
Qed.

Lemma op_sem_new_app src new t op slen tpos extra :
  op_ok slen (zlen new) tpos op -> op_sem src (new ++ extra) t op = op_sem src new t op.
Proof.
  intros (? & ? & H). unfold op_sem. destruct (action_code op); [done..|].
  by rewrite slice_prefix by lia.
Qed.

(** More new data behind the old does not matter. *)
Lemma ops_sem_new_app src new t ops slen tpos extra :
  ops_ok slen (zlen new) tpos ops -> ops_sem src (new ++ extra) t ops = ops_sem src new t ops.
Proof.
  revert t tpos. induction ops as [|op ops IH]; intros t tpos; simpl; [done|].
  intros [H1 H2]. erewrite op_sem_new_app by eauto. eapply IH. eauto.
Qed.

(** ** Copying a pattern *)

Lemma patterning_loop_spec fuel tbuf source overlap len :
  0 <= source -> 0 < overlap -> source + overlap <= zlen tbuf -> 0 <= len ->
  slice tbuf (zlen tbuf - overlap) overlap = slice tbuf source overlap ->
  (Z.to_nat len <= fuel)%nat ->
  exists tbuf' len', patterning_loop fuel tbuf source overlap len = Ok (tbuf', len') /\
    0 <= len' <= overlap /\ source + overlap <= zlen tbuf' /\
    slice tbuf' (zlen tbuf' - overlap) overlap = slice tbuf' source overlap /\
    target_copy tbuf (zlen tbuf - overlap) (Z.to_nat len) =
      target_copy tbuf' (zlen tbuf' - overlap) (Z.to_nat len').
Proof.
  intros Hs Ho. revert tbuf len.
  induction fuel as [|f IH]; intros tbuf len Hz Hl Hp Hf; simpl.
  - destruct (Z.ltb_spec overlap len); [lia|]. exists tbuf, len. auto with lia.
  - destruct (Z.ltb_spec overlap len); [|exists tbuf, len; auto with lia].
    rewrite memcpy_from_Ok by lia. simpl.
    set (tbuf' := tbuf ++ slice tbuf source overlap).
    assert (zlen tbuf' = zlen tbuf + overlap) as Hz'.
    { unfold tbuf'. rewrite zlen_app, zlen_slice by lia. done. }
    destruct (IH tbuf' (len - overlap)) as (t2 & l2 & E & Hl2 & Hz2 & Hp2 & Hc); [lia..| |lia|].
    { rewrite Hz'. replace (zlen tbuf + overlap - overlap) with (zlen tbuf) by lia.
      unfold tbuf' at 1. rewrite slice_suffix.
      unfold tbuf'. rewrite slice_prefix by lia.
      rewrite take_slice by lia. by rewrite Z2Nat.id by lia. }
    exists t2, l2. split_and!; try done; try lia.
    rewrite <- Hc, Hz'. replace (Z.to_nat len) with (Z.to_nat overlap + Z.to_nat (len - overlap))%nat by lia.
    rewrite target_copy_plus by lia. f_equal; [|lia].
    rewrite target_copy_slice by lia. unfold tbuf'. rewrite Z2Nat.id by lia. by rewrite Hp.
Qed.

Lemma patterning_copy_spec tbuf source len :
  0 <= source < zlen tbuf -> 0 <= len ->
  patterning_copy tbuf source len = Ok (target_copy tbuf source (Z.to_nat len)).
Proof.
  intros Hs Hl. unfold patterning_copy.
  destruct (patterning_loop_spec (Z.to_nat len) tbuf source (zlen tbuf - source) len)
    as (t2 & l2 & -> & Hl2 & Hz2 & Hp2 & Hc); [lia..| |lia|].
  { by replace (zlen tbuf - (zlen tbuf - source)) with source by lia. }
  simpl. replace (zlen tbuf - (zlen tbuf - source)) with source in Hc by lia. rewrite Hc.
  destruct (Z.ltb_spec 0 l2).
  - rewrite memcpy_from_Ok by lia. simpl. f_equal. rewrite target_copy_slice by lia.
    rewrite Z2Nat.id by lia. f_equal.
    assert (forall s : bytes, slice s source l2 = slice (slice s source (zlen tbuf - source)) 0 l2) as Hsub.
    { intros s. rewrite slice_slice by lia. by rewrite Z.add_0_r. }
    rewrite Hsub, <- Hp2, slice_slice by lia. by rewrite Z.add_0_r.
  - by replace (Z.to_nat l2) with O by lia.
Qed.

(** ** Applying instructions *)

(** An instruction cut to [len] bytes writes the start of what it writes. *)
Definition cut_op (op : svn_txdelta_op_t) (len : Z) : svn_txdelta_op_t :=
  mk_op (action_code op) (op_offset op) len.

Lemma op_sem_cut src new t op len slen nlen :
  op_ok slen nlen (zlen t) op -> slen <= zlen src -> nlen <= zlen new ->
  0 <= len <= op_length op ->
  exists u, op_sem src new t op = op_sem src new t (cut_op op len) ++ u /\
    zlen (op_sem src new t (cut_op op len)) = zlen t + len.
Proof.
  intros (? & ? & H) Hs Hn Hl. unfold op_sem, cut_op. simpl.
  assert (op_length op = len + (op_length op - len)) as E by lia.
  destruct (action_code op).
  - exists (slice src (op_offset op + len) (op_length op - len)).
    rewrite <- app_assoc, slice_app by lia. rewrite <- E. split; [done|].
    by rewrite zlen_app, zlen_slice by lia.
  - replace (Z.to_nat (op_length op)) with (Z.to_nat len + Z.to_nat (op_length op - len))%nat by lia.
    rewrite target_copy_plus, target_copy_zlen by lia.
    destruct (target_copy_app (target_copy t (op_offset op) (Z.to_nat len))
                (op_offset op + Z.of_nat (Z.to_nat len)) (Z.to_nat (op_length op - len)))
      as (u & -> & _). exists u. split; [done|lia].
  - exists (slice new (op_offset op + len) (op_length op - len)).
    rewrite <- app_assoc, slice_app by lia. rewrite <- E. split; [done|].
    by rewrite zlen_app, zlen_slice by lia.
Qed.

Lemma apply_op_spec window src op len t :
  op_ok (sview_len window) (zlen (w_new_data window)) (zlen t) op ->
  sview_len window <= zlen src -> 0 <= len <= op_length op ->
  sview_len window < SIZE_BOUND -> zlen (w_new_data window) < SIZE_BOUND ->
  apply_op window (Some src) op len (zlen t) t =
    Ok (op_sem src (w_new_data window) t (cut_op op len)).
Proof.
  unfold SIZE_BOUND. intros (H1 & H2 & H) Hs Hl Hb Hb'. unfold apply_op, op_sem, cut_op. simpl.
  destruct (action_code op).
  - rewrite u64_small, c_assert_le by lia. simpl. by rewrite memcpy_from_Ok by lia.
  - rewrite c_assert_lt by lia. simpl.
    by rewrite patterning_copy_spec by lia.
  - rewrite u64_small, c_assert_le by lia. simpl. by rewrite memcpy_from_Ok by lia.
Qed.

Lemma apply_loop_spec window src tlen ops t :
  let new := w_new_data window in
  ops_ok (sview_len window) (zlen new) (zlen t) ops ->
  zlen t + ops_len ops = tview_len window ->
  sview_len window <= zlen src -> sview_len window < SIZE_BOUND ->
  tview_len window < SIZE_BOUND -> zlen new < SIZE_BOUND ->
  zlen t < tlen ->
  apply_loop window (Some src) tlen ops (zlen t) t =
    Ok (slice (ops_sem src new t ops) 0 tlen, Z.min tlen (tview_len window)).
Proof.
  simpl. intros Hok Hsum Hs Hb1 Hb2 Hb3 Ht.
  revert t Hok Hsum Ht. induction ops as [|op ops IH]; intros t Hok Hsum Ht; simpl in *.
  - rewrite c_assert_eq by lia. simpl.
    do 2 f_equal; [|lia]. rewrite slice_take. unfold zlen in *. rewrite take_ge by lia. done.
  - destruct Hok as [Hop Hok].
    assert (0 <= ops_len ops) by by eapply ops_ok_len_nonneg.
    pose proof (zlen_nonneg t). pose proof Hop as (Ho1 & Ho2 & _). unfold SIZE_BOUND in *.
    rewrite u64_small, c_assert_le by lia. simpl.
    set (len := if op_length op <? tlen - zlen t then op_length op else tlen - zlen t).
    assert (len = Z.min (op_length op) (tlen - zlen t)) as Hlen.
    { unfold len. destruct (Z.ltb_spec (op_length op) (tlen - zlen t)); lia. }
    rewrite apply_op_spec by (try done; unfold SIZE_BOUND; lia). simpl.
    destruct (op_sem_cut src (w_new_data window) t op len (sview_len window)
                (zlen (w_new_data window))) as (u & Hu & Hz); [done|done|lia|lia|].
    destruct (Z.leb_spec tlen (zlen t + op_length op)).
    + do 2 f_equal; [|lia]. destruct (ops_sem_extends src (w_new_data window)
        (op_sem src (w_new_data window) t op) ops) as [v Hv].
      rewrite Hv, Hu, <- app_assoc, slice_prefix by lia.
      rewrite slice_take. unfold zlen in *. rewrite take_ge by lia. done.
    + assert (cut_op op len = op) as -> by (unfold cut_op; destruct op; simpl in *; f_equal; lia).
      assert (zlen (op_sem src (w_new_data window) t op) = zlen t + op_length op) as E
        by by eapply op_sem_zlen.
      rewrite <- E in Hok |- *. apply IH; [done|lia..].
Qed.

(** Applying a valid window to its source view gives the start of the target
    view that its instructions describe. *)
Lemma apply_instructions_spec window src tlen :
  window_ok window -> sview_len window <= zlen src -> 0 <= tlen ->
  svn_txdelta_apply_instructions window (Some src) tlen =
    Ok (slice (window_sem window src) 0 tlen, Z.min tlen (tview_len window)).
Proof.
  intros (Hok & Hsum & Ho & Hs & Ht & Hn) Hsrc Htl. unfold svn_txdelta_apply_instructions.
  assert (0 <= ops_len (w_ops window)) by by eapply ops_ok_len_nonneg.
  destruct (Z.eqb_spec tlen 0) as [->|].
  - rewrite slice_zero. do 2 f_equal. lia.
  - change 0 with (zlen ([] : bytes)) at 1. rewrite apply_loop_spec; [done|done|done|lia..|].
    rewrite zlen_nil. lia.
Qed.

Lemma window_sem_zlen window src :
  window_ok window -> sview_len window <= zlen src ->
  zlen (window_sem window src) = tview_len window.
Proof.
  intros (Hok & Hsum & _) Hs. unfold window_sem. erewrite ops_sem_zlen by (try done; lia).
  rewrite zlen_nil. lia.
Qed.

(** ** Building a window *)

(** The new data are used up in order. *)
Fixpoint news_ok (npos : Z) (ops : list svn_txdelta_op_t) : Prop :=
  match ops with
  | [] => True
  | op :: ops =>
      if decide (action_code op = svn_txdelta_new)
      then op_offset op = npos /\ news_ok (npos + op_length op) ops
      else news_ok npos ops
  end.

Definition new_len (ops : list svn_txdelta_op_t) : Z :=
  fold_right (fun op n => (if decide (action_code op = svn_txdelta_new)
                           then op_length op else 0) + n) 0 ops.

Lemma news_ok_app npos ops1 ops2 :
  news_ok npos (ops1 ++ ops2) <-> news_ok npos ops1 /\ news_ok (npos + new_len ops1) ops2.
Proof.
  revert npos. induction ops1 as [|op ops1 IH]; intros npos; simpl.
  - rewrite Z.add_0_r. tauto.
  - case_decide; rewrite IH; rewrite ?Z.add_0_l, ?Z.add_assoc; tauto.
Qed.

Lemma new_len_app ops1 ops2 : new_len (ops1 ++ ops2) = new_len ops1 + new_len ops2.
Proof. unfold new_len. induction ops1 as [|op ops1 IH]; simpl; [done|]. rewrite IH. lia. Qed.

Lemma new_len_le_ops_len slen nlen tpos ops :
  ops_ok slen nlen tpos ops -> 0 <= new_len ops <= ops_len ops.
Proof.
  revert tpos. induction ops as [|op ops IH]; intros tpos; simpl; [lia|].
  intros [(_ & ? & _) Hok]. apply IH in Hok. case_decide; lia.
Qed.

Record baton_ok (slen : Z) (b : svn_txdelta__ops_baton_t) : Prop := mk_baton_ok {
  baton_ops : ops_ok slen (zlen (b_new_data b)) 0 (b_ops b);
  baton_news : news_ok 0 (b_ops b);
  baton_new_len : new_len (b_ops b) = zlen (b_new_data b)
}.

Definition baton_sem (src : bytes) (b : svn_txdelta__ops_baton_t) : bytes :=
  ops_sem src (b_new_data b) [] (b_ops b).

Lemma empty_baton_ok slen : baton_ok slen empty_ops_baton.
Proof. split; done. Qed.

Lemma baton_sem_zlen src slen b :
  baton_ok slen b -> slen <= zlen src -> zlen (baton_sem src b) = ops_len (b_ops b).
Proof.
  intros [] Hs. unfold baton_sem. erewrite ops_sem_zlen; [|done|done|lia]. by rewrite zlen_nil.
Qed.

(** The bytes an added instruction appends. *)
Definition added_sem (src new_data t : bytes) (opcode : svn_delta_action)
    (offset len : Z) : bytes :=
  match opcode with
  | svn_txdelta_source => t ++ slice src offset len
  | svn_txdelta_target => target_copy t offset (Z.to_nat len)
  | svn_txdelta_new => t ++ slice new_data 0 len
  end.

Definition added_ok (slen nlen tpos : Z) (opcode : svn_delta_action) (offset len : Z) : Prop :=
  0 < len /\
  match opcode with
  | svn_txdelta_source => 0 <= offset /\ offset + len <= slen
  | svn_txdelta_target => 0 <= offset < tpos
  | svn_txdelta_new => len <= nlen
  end.

(** Appending one instruction that uses the new data behind the old. *)
Lemma append_op_ok slen b opcode offset len added src_ops :
  baton_ok slen b ->
  (if decide (opcode = svn_txdelta_new) then offset = zlen (b_new_data b) /\ zlen added = len
   else added = []) ->
  op_ok slen (zlen (b_new_data b ++ added)) (ops_len (b_ops b)) (mk_op opcode offset len) ->
  baton_ok slen (mk_ops_baton src_ops (b_ops b ++ [mk_op opcode offset len])
                   (b_new_data b ++ added)).
Proof.
  intros [Hops Hnews Hlen] Ha Hop.
  split; simpl; rewrite ?ops_ok_app, ?news_ok_app, ?new_len_app, ?zlen_app in *; simpl.
  - split; [|done]. eapply ops_ok_nlen; [|done]. pose proof (zlen_nonneg added). lia.
  - case_decide; [|done]. destruct Ha as [-> _]. split; [done|]. split; [lia|done].
  - case_decide; [lia|]. subst added. change (zlen (@nil Z)) with 0. lia.
Qed.

Lemma append_op_sem src slen b opcode offset len added src_ops :
  baton_ok slen b -> slen <= zlen src ->
  baton_sem src (mk_ops_baton src_ops (b_ops b ++ [mk_op opcode offset len])
                   (b_new_data b ++ added)) =
    op_sem src (b_new_data b ++ added) (baton_sem src b) (mk_op opcode offset len).
Proof.
  intros [Hops _ _] Hs. unfold baton_sem. simpl. rewrite ops_sem_app. simpl.
  by erewrite ops_sem_new_app by eauto.
Qed.

(** Two adjacent instructions and the one they are merged to. *)
Lemma op_sem_merge src new t opcode off len len' :
  0 <= off -> 0 <= len -> 0 <= len' ->
  op_sem src new (op_sem src new t (mk_op opcode off len)) (mk_op opcode (off + len) len') =
    op_sem src new t (mk_op opcode off (len + len')).
Proof.
  intros. unfold op_sem. simpl. destruct opcode.
  - by rewrite <- app_assoc, slice_app by lia.
  - rewrite Z2Nat.inj_add, target_copy_plus by lia. f_equal. lia.
  - by rewrite <- app_assoc, slice_app by lia.
Qed.

(** Instructions only reach as far into the new data as they use it up. *)
Lemma ops_ok_new_used npos slen nlen nlen' tpos ops :
  ops_ok slen nlen tpos ops -> news_ok npos ops -> npos + new_len ops <= nlen' ->
  ops_ok slen nlen' tpos ops.
Proof.
  revert npos tpos. induction ops as [|op ops IH]; intros npos tpos; simpl; [done|].
  intros [(H1 & H2 & H) Hok]. pose proof (new_len_le_ops_len _ _ _ _ Hok) as Hn.
  case_decide as Hc.
  - intros [<- Hnews] Hl. split; [|eapply IH; [done..|lia]].
    unfold op_ok. rewrite Hc. split_and!; lia.
  - intros Hnews Hl. split; [|eapply IH; [done..|lia]].
    unfold op_ok. destruct (action_code op); [split_and!; lia..|done].
Qed.

(** The last instruction of a builder, apart. *)
Lemma baton_snoc_inv slen src_ops ops op data :
  baton_ok slen (mk_ops_baton src_ops (ops ++ [op]) data) ->
  let kept := if decide (action_code op = svn_txdelta_new)
              then slice data 0 (zlen data - op_length op) else data in
  baton_ok slen (mk_ops_baton src_ops ops kept) /\
  op_ok slen (zlen data) (ops_len ops) op /\
  (if decide (action_code op = svn_txdelta_new)
   then op_offset op = zlen kept /\ op_offset op + op_length op = zlen data /\
        data = kept ++ slice data (zlen kept) (op_length op)
   else True).
Proof.
  intros [Hops Hnews Hlen]. simpl in *.
  rewrite ops_ok_app in Hops. rewrite news_ok_app in Hnews. rewrite new_len_app in Hlen.
  simpl in *. destruct Hops as [Hops [Hop _]]. destruct Hnews as [Hnews Hnew].
  pose proof Hop as (Ho & Hl & Hop').
  case_decide as Hc; [|split_and!; [split; simpl; [done..|lia]|done|done]].
  rewrite Hc in Hop'. destruct Hnew as [Hoff _].
  set (kept := slice data 0 (zlen data - op_length op)).
  assert (zlen kept = zlen data - op_length op) as Hk by (apply zlen_slice; lia).
  split_and!.
  - split; simpl; [|done|lia]. eapply (ops_ok_new_used 0); [done..|lia].
  - done.
  - lia.
  - lia.
  - unfold kept at 1. rewrite Hk, slice_app by lia.
    replace (zlen data - op_length op + op_length op) with (zlen data) by lia.
    by rewrite slice_full.
Qed.

(** The merged instruction is valid where its two parts are. *)
Lemma op_ok_extend slen nlen tpos opcode off len len' :
  op_ok slen nlen tpos (mk_op opcode off len) -> 0 < len' ->
  match opcode with
  | svn_txdelta_source => off + len + len' <= slen
  | svn_txdelta_target => True
  | svn_txdelta_new => off + len + len' <= nlen
  end ->
  op_ok slen nlen tpos (mk_op opcode off (len + len')).
Proof. unfold op_ok. simpl. intros (? & ? & ?) ? ?. destruct opcode; split_and!; lia. Qed.

(** Merging an instruction with the last one. *)
Lemma merge_op_ok src slen src_ops ops opcode off len len' data added :
  baton_ok slen (mk_ops_baton src_ops (ops ++ [mk_op opcode off len]) data) ->
  slen <= zlen src -> 0 < len' ->
  (if decide (opcode = svn_txdelta_new) then zlen added = len' else added = []) ->
  (opcode = svn_txdelta_source -> off + len + len' <= slen) ->
  let b' := mk_ops_baton src_ops (ops ++ [mk_op opcode off (len + len')]) (data ++ added) in
  baton_ok slen b' /\
  baton_sem src b' =
    op_sem src (data ++ added)
      (baton_sem src (mk_ops_baton src_ops (ops ++ [mk_op opcode off len]) data))
      (mk_op opcode (off + len) len').
Proof.
  intros Hb Hs Hl Ha Hsrc. pose proof Hb as [Hops Hnews Hlen].
  destruct (baton_snoc_inv _ _ _ _ _ Hb) as (_ & Hop & Hnew).
  simpl in *. rewrite ops_ok_app in Hops. rewrite news_ok_app in Hnews. rewrite new_len_app in Hlen.
  simpl in *. destruct Hops as [Hops _]. destruct Hnews as [Hnews Hnew'].
  pose proof (zlen_nonneg added). pose proof Hop as (Ho1 & Ho2 & Ho3). simpl in *.
  split.
  - split; simpl; rewrite ?ops_ok_app, ?news_ok_app, ?new_len_app, ?zlen_app; simpl.
    + split; [eapply ops_ok_nlen; [|done]; lia|]. split; [|done].
      apply op_ok_extend; [|done|].
      * destruct opcode; simpl in *; unfold op_ok; simpl; split_and!; lia.
      * destruct opcode; [auto|done|]. case_decide; [lia|done].
    + split; [done|]. by case_decide.
    + case_decide; [lia|]. subst added. change (zlen (@nil Z)) with 0. lia.
  - unfold baton_sem. simpl. rewrite !ops_sem_app. simpl.
    rewrite <- op_sem_merge by lia. f_equal.
    rewrite (ops_sem_new_app _ _ _ _ _ _ added Hops).
    by erewrite op_sem_new_app by done.
Qed.

Lemma mergeable_op_cases ops opcode offset :
  mergeable_op ops opcode offset = None \/
  exists init off l, ops = init ++ [mk_op opcode off l] /\
    mergeable_op ops opcode offset = Some (mk_op opcode off l) /\
    (opcode = svn_txdelta_new \/ off + l = offset).
Proof.
  unfold mergeable_op. destruct (last ops) as [op|] eqn:Hlast; [|auto].
  destruct (last_snoc_inv _ _ Hlast) as [init ->].
  case_bool_decide as Hc; simpl; [|auto]. subst opcode.
  destruct (bool_decide _ || _) eqn:E; simpl; [right|auto].
  exists init, (op_offset op), (op_length op). destruct op; simpl in *. split_and!; try done.
  apply orb_true_iff in E as [E|E]; [left; by apply bool_decide_eq_true_1 in E|right; lia].
Qed.

Lemma appended_data_Ok opcode len new_data :
  0 < len -> (opcode = svn_txdelta_new -> len <= zlen new_data) ->
  exists added, appended_data opcode len new_data = Ok added /\
    (if decide (opcode = svn_txdelta_new)
     then added = slice new_data 0 len /\ zlen added = len else added = []).
Proof.
  intros Hl Hn. unfold appended_data. destruct opcode; [by eexists..|].
  rewrite memcpy_from_Ok by auto with lia. eexists. split; [done|].
  rewrite decide_True by done. by rewrite zlen_slice by auto with lia.
Qed.

(** [svn_txdelta__insert_op] appends what its arguments describe. *)
Lemma insert_op_spec src slen b opcode offset len new_data :
  baton_ok slen b -> slen <= zlen src ->
  added_ok slen (zlen new_data) (ops_len (b_ops b)) opcode offset len ->
  exists b', svn_txdelta__insert_op b opcode offset len new_data = Ok b' /\
    baton_ok slen b' /\ ops_len (b_ops b') = ops_len (b_ops b) + len /\
    baton_sem src b' = added_sem src new_data (baton_sem src b) opcode offset len.
Proof.
  destruct b as [src_ops ops data]. intros Hb Hs (Hl & Hok). unfold svn_txdelta__insert_op.
  destruct (appended_data_Ok opcode len new_data) as (added & -> & Ha);
    [done|by intros ->|simpl].
  destruct (mergeable_op_cases ops opcode offset) as [->|(init & off & l & -> & -> & Hadj)].
  - eexists. split; [done|].
    set (off' := if bool_decide (opcode = svn_txdelta_new) then zlen data else offset).
    split_and!.
    + apply append_op_ok with (b := mk_ops_baton src_ops ops data); [done|..]; subst off'.
      * case_decide; [|done]. rewrite bool_decide_true by done. tauto.
      * unfold op_ok. simpl. pose proof (zlen_nonneg data).
        destruct opcode; simpl in *; split_and!; try lia.
        destruct Ha as [_ Ha]. rewrite zlen_app. lia.
    + simpl. rewrite ops_len_app. simpl. lia.
    + erewrite append_op_sem with (b := mk_ops_baton src_ops ops data) by done.
      subst off'. unfold op_sem, added_sem. simpl. destruct opcode; simpl; [done..|].
      rewrite slice_suffix. destruct Ha as [-> _]. by rewrite take_ge by
        (unfold slice; rewrite length_take; lia).
  - rewrite take_init. eexists. split; [done|].
    destruct (merge_op_ok src slen src_ops init opcode off l len data added) as [H1 H2];
      [done..| | |].
    { case_decide; tauto. }
    { intros ->. destruct Hadj as [?|<-]; [done|lia]. }
    simpl in *. split_and!; [done| |].
    + rewrite !ops_len_app. simpl. lia.
    + rewrite H2. unfold op_sem, added_sem. simpl.
      destruct opcode; simpl in *; [by destruct Hadj as [?|<-]..|].
      destruct (baton_snoc_inv _ _ _ _ _ Hb) as (_ & _ & Hnew). simpl in Hnew.
      destruct Hnew as (_ & -> & _). destruct Ha as [Ha1 Ha2].
      f_equal. rewrite slice_suffix, <- Ha1, take_ge; [done|]. unfold zlen in Ha2. lia.
Qed.

(** ** Removing copies at the end *)

(** [b'] describes the target of [b] without the last [n] bytes. *)
Definition cut_by (src : bytes) (slen : Z) (b b' : svn_txdelta__ops_baton_t) (n : Z) : Prop :=
  baton_ok slen b' /\ exists u, baton_sem src b = baton_sem src b' ++ u /\ zlen u = n.

Lemma cut_by_refl src slen b : baton_ok slen b -> cut_by src slen b b 0.
Proof. intros H. split; [done|]. exists []. by rewrite app_nil_r. Qed.

Lemma cut_by_trans src slen b1 b2 b3 n m :
  cut_by src slen b1 b2 n -> cut_by src slen b2 b3 m -> cut_by src slen b1 b3 (n + m).
Proof.
  intros (_ & u & Hu & Hn) (Hb & v & Hv & Hm). split; [done|].
  exists (v ++ u). rewrite Hu, Hv, <- app_assoc. split; [done|]. rewrite zlen_app. lia.
Qed.

(** Cutting the last instruction to [len] bytes and the new data with it. *)
Lemma cut_last_op src slen src_ops ops op data :
  baton_ok slen (mk_ops_baton src_ops (ops ++ [op]) data) -> slen <= zlen src ->
  let kept := if decide (action_code op = svn_txdelta_new)
              then slice data 0 (zlen data - op_length op) else data in
  cut_by src slen (mk_ops_baton src_ops (ops ++ [op]) data) (mk_ops_baton src_ops ops kept)
    (op_length op).
Proof.
  intros Hb Hs kept. destruct (baton_snoc_inv _ _ _ _ _ Hb) as (Hb' & Hop & Hnew).
  fold kept in Hb', Hnew. split; [done|].
  unfold baton_sem. simpl. rewrite ops_sem_app. simpl.
  assert (ops_sem src data [] ops = ops_sem src kept [] ops) as ->.
  { unfold kept in *. case_decide; [|done]. destruct Hnew as (_ & _ & Hd).
    rewrite Hd at 1. eapply ops_sem_new_app. apply Hb'. }
  set (t := ops_sem src kept [] ops).
  destruct (op_sem_extends src data t op) as [u Hu]. exists u. split; [done|].
  assert (zlen (op_sem src data t op) = zlen t + op_length op) as Hz.
  { eapply op_sem_zlen; [done..|lia]. }
  rewrite Hu, zlen_app in Hz. lia.
Qed.

Lemma cut_new_op src slen src_ops ops op data n :
  baton_ok slen (mk_ops_baton src_ops (ops ++ [op]) data) -> slen <= zlen src ->
  action_code op = svn_txdelta_new -> 0 <= n < op_length op ->
  cut_by src slen (mk_ops_baton src_ops (ops ++ [op]) data)
    (mk_ops_baton src_ops (ops ++ [mk_op (action_code op) (op_offset op) (op_length op - n)])
       (slice data 0 (zlen data - n))) n.
Proof.
  intros Hb Hs Hc Hn. destruct (baton_snoc_inv _ _ _ _ _ Hb) as (Hb' & Hop & Hnew).
  destruct Hop as (Ho & Hl & Hop). cbv zeta in *. repeat (case_decide; [|done]).
  destruct Hnew as (Hoff & Hend & Hd).
  set (kept := slice data 0 (zlen data - op_length op)) in *.
  set (added := slice data (zlen kept) (op_length op - n)).
  assert (slice data 0 (zlen data - n) = kept ++ added) as ->.
  { unfold added. rewrite <- Hoff. replace (op_offset op) with (0 + (zlen data - op_length op)) by lia.
    unfold kept. rewrite slice_app by lia. f_equal. lia. }
  assert (zlen added = op_length op - n) as Hza by (apply zlen_slice; lia).
  split.
  - apply append_op_ok with (b := mk_ops_baton src_ops ops kept); [done|..].
    + by rewrite decide_True.
    + unfold op_ok. simpl. rewrite Hc, zlen_app. split_and!; lia.
  - exists (slice data (zlen data - n) n). rewrite zlen_slice by lia. split; [|done].
    rewrite (append_op_sem _ _ (mk_ops_baton src_ops ops kept)) by done.
    assert (data = kept ++ slice data (zlen kept) (op_length op)) as Hd' by done.
    unfold baton_sem. simpl. rewrite ops_sem_app. simpl.
    rewrite Hd' at 1 2. rewrite (ops_sem_new_app _ _ _ _ _ _ _ (baton_ops _ _ Hb')). simpl.
    unfold op_sem. simpl. rewrite Hc, <- Hd', Hoff, <- app_assoc. f_equal.
    rewrite slice_suffix. rewrite take_ge by (unfold zlen in Hza; lia).
    unfold added. replace (zlen data - n) with (zlen kept + (op_length op - n)) by lia.
    rewrite slice_app by lia. f_equal. lia.
Qed.

Lemma remove_copy_loop_spec src slen src_ops rev_ops data max_len len rev_ops' data' len' :
  baton_ok slen (mk_ops_baton src_ops (reverse rev_ops) data) -> slen <= zlen src ->
  0 <= len <= max_len ->
  remove_copy_loop rev_ops data max_len len = (rev_ops', data', len') ->
  len <= len' <= max_len /\
  cut_by src slen (mk_ops_baton src_ops (reverse rev_ops) data)
    (mk_ops_baton src_ops (reverse rev_ops') data') (len' - len).
Proof.
  intros Hb Hs. revert data len Hb.
  induction rev_ops as [|op rest IH]; intros data len Hb Hl; simpl.
  { intros [= <- <- <-]. rewrite Z.sub_diag. split; [lia|by apply cut_by_refl]. }
  assert (0 < op_length op) as Hop.
  { rewrite reverse_cons in Hb. destruct (baton_snoc_inv _ _ _ _ _ Hb) as (_ & Hop & _). apply Hop. }
  case_bool_decide as Ht.
  { intros [= <- <- <-]. rewrite Z.sub_diag. split; [lia|by apply cut_by_refl]. }
  destruct (Z.ltb_spec max_len (op_length op + len)) as [Hc|Hc].
  - case_bool_decide as Hn; intros [= <- <- <-].
    2: { rewrite Z.sub_diag. split; [lia|by apply cut_by_refl]. }
    rewrite !reverse_cons in *. split; [lia|]. apply cut_new_op; [done..|lia].
  - intros Hrec. rewrite reverse_cons in *. pose proof (cut_last_op src _ _ _ _ _ Hb Hs) as Hcut.
    cbv zeta in Hcut. set (kept := if decide _ then _ else _) in Hcut.
    assert ((if bool_decide (action_code op = svn_txdelta_new)
             then slice data 0 (zlen data - op_length op) else data) = kept) as Hk.
    { unfold kept. case_decide; by case_bool_decide. }
    rewrite Hk in Hrec. apply IH in Hrec as [Hl' Hcut']; [|apply Hcut|lia].
    split; [lia|]. replace (len' - len) with (op_length op + (len' - (len + op_length op))) by lia.
    by eapply cut_by_trans.
Qed.

Lemma remove_copy_spec src slen b max_len b' len :
  baton_ok slen b -> slen <= zlen src -> 0 <= max_len ->
  svn_txdelta__remove_copy b max_len = (b', len) ->
  0 <= len <= max_len /\ cut_by src slen b b' len.
Proof.
  destruct b as [src_ops ops data]. intros Hb Hs Hm. unfold svn_txdelta__remove_copy. simpl.
  destruct (remove_copy_loop (reverse ops) data max_len 0) as [[rev_ops' data'] len'] eqn:E.
  intros [= <- <-].
  apply (remove_copy_loop_spec src slen src_ops) in E as [Hl Hcut];
    rewrite ?reverse_involutive in *; [|done|done|lia].
  by rewrite Z.sub_0_r in Hcut.
Qed.

(** ** The number of copies from the source *)

Definition count_sources (ops : list svn_txdelta_op_t) : Z :=
  fold_right (fun op n => (if decide (action_code op = svn_txdelta_source) then 1 else 0) + n) 0 ops.

Lemma count_sources_app ops1 ops2 :
  count_sources (ops1 ++ ops2) = count_sources ops1 + count_sources ops2.
Proof.
  unfold count_sources. induction ops1 as [|op ops1 IH]; simpl; [done|]. rewrite IH. lia.
Qed.

Lemma count_sources_nonneg ops : 0 <= count_sources ops.
Proof. unfold count_sources. induction ops as [|op ops IH]; simpl; [lia|]. case_decide; lia. Qed.

(** The builder counts the copies from the source, and keeps the count when it
    removes some. *)
Definition sources_counted (b : svn_txdelta__ops_baton_t) : Prop :=
  count_sources (b_ops b) <= b_src_ops b.

Lemma insert_op_counted b opcode offset len new_data b' :
  svn_txdelta__insert_op b opcode offset len new_data = Ok b' ->
  sources_counted b -> sources_counted b'.
Proof.
  destruct b as [src_ops ops data]. unfold svn_txdelta__insert_op, sources_counted.
  intros E. apply bind_Ok in E as (added & _ & E).
  destruct (mergeable_op_cases ops opcode offset) as [Hm|(init & off & l & -> & Hm & _)];
    rewrite Hm in E; injection E as <-; simpl; rewrite ?take_init, !count_sources_app; simpl.
  - case_decide as Hc; [rewrite bool_decide_true by done; lia|].
    rewrite bool_decide_false by done. lia.
  - done.
Qed.

Lemma count_sources_reverse ops : count_sources (reverse ops) = count_sources ops.
Proof.
  induction ops as [|op ops IH]; [done|]. rewrite reverse_cons, count_sources_app, IH. simpl. lia.
Qed.

Lemma remove_copy_loop_counted rev_ops data max_len len rev_ops' data' len' :
  remove_copy_loop rev_ops data max_len len = (rev_ops', data', len') ->
  count_sources rev_ops' <= count_sources rev_ops.
Proof.
  revert data len. induction rev_ops as [|op rest IH]; intros data len; simpl.
  { by intros [= <- _ _]. }
  case_bool_decide; [by intros [= <- _ _]|]. case_match.
  - case_bool_decide as Hc; intros [= <- _ _]; simpl; [|done]. by rewrite Hc.
  - intros E%IH. case_decide; lia.
Qed.

Lemma remove_copy_counted b max_len b' len :
  svn_txdelta__remove_copy b max_len = (b', len) -> sources_counted b -> sources_counted b'.
Proof.
  unfold svn_txdelta__remove_copy, sources_counted.
  destruct (remove_copy_loop _ _ _ _) as [[rev_ops data] n] eqn:E. intros [= <- _]. simpl.
  apply remove_copy_loop_counted in E. rewrite count_sources_reverse in *. lia.
Qed.

(** What a window has from its builder. *)
Record window_built (w : svn_txdelta_window_t) : Prop := {
  wb_news : news_ok 0 (w_ops w);
  wb_new_len : new_len (w_ops w) = zlen (w_new_data w);
  wb_sources : count_sources (w_ops w) <= w_src_ops w
}.

Lemma make_window_built slen b so sl tl :
  baton_ok slen b -> sources_counted b ->
  let w := svn_txdelta__make_window b in
  window_built (mk_window so sl tl (w_src_ops w) (w_ops w) (w_new_data w)).
Proof. by intros [_ Hn Hl] Hs. Qed.
