(* ===== verification/Xdelta.v ===== *)
(** * The xdelta algorithm (libsvn_delta/xdelta.c)

    A delta between two buffers: the blocks of the source are entered into a
    hash table with open addressing under a rolling checksum, the target is
    scanned for blocks of the source, and matches are extended in both
    directions. *)

From S2P Require Import Prelude Buffers Delta.

Definition MATCH_BLOCKSIZE : Z := 64.
Definition FLAGS_COUNT : Z := 32 * 1024.
Definition NO_POSITION : Z := 2 ^ 32 - 1.

(** A checked access to a buffer. *)
Definition read_byte (s : bytes) (i : Z) : result Z :=
  if (0 <=? i) && (i <? zlen s) then Ok (byte_at s i) else Err C_UNDEFINED.

(** [memcmp(a + i, b + j, n) == 0] *)
Definition memcmp_eq (a : bytes) (i : Z) (b : bytes) (j n : Z) : result bool :=
  x ← memcpy_from a i n;
  y ← memcpy_from b j n;
  Ok (bool_decide (x = y)).

(** ** The rolling checksum *)

Definition adler32_replace (adler32 c_out c_in : Z) : Z :=
  let adler32 := u32 (adler32 - u32 (MATCH_BLOCKSIZE * 0x10000 * c_out)) in
  let adler32 := u32 (adler32 - c_out) in
  let adler32 := u32 (adler32 + c_in) in
  u32 (adler32 + u32 (adler32 * 0x10000)).

(** One step [s1 += input[i]; s2 += s1;]. *)
Definition adler_step (s : Z * Z) (input : Z) : Z * Z :=
  let s1 := u32 (s.1 + input) in (s1, u32 (s.2 + s1)).

(** [input] holds the [MATCH_BLOCKSIZE] bytes at the pointer. *)
Definition adler_block (input : bytes) : Z :=
  let '(s1, s2) := fold_left adler_step input (0, 0) in
  u32 (u32 (s2 * 0x10000) + s1).

Definition init_adler32 (data : bytes) (i : Z) : result Z :=
  input ← memcpy_from data i MATCH_BLOCKSIZE;
  Ok (adler_block input).

(** ** The table of blocks *)

Record block := mk_block { adlersum : Z; pos : Z }.

Record blocks := mk_blocks {
  bl_max : Z;
  bl_data : bytes;
  bl_flags : list Z;
  bl_slots : list block
}.

Definition hash_func (sum : Z) : Z := Z.lxor sum (Z.shiftr sum 12).

Definition hash_flags (sum : Z) : Z := Z.land (Z.shiftr sum 16) (FLAGS_COUNT / 8 - 1).

(** [1 << (sum & 7)], the bit of a byte of the flags. *)
Definition flag_bit (sum : Z) : Z := Z.shiftl 1 (Z.land sum 7).

Definition slot_at (bl : blocks) (h : Z) : result block :=
  match bl_slots bl !! Z.to_nat h with Some b => Ok b | None => Err C_UNDEFINED end.

(** The loop that [add_block] and [find_block] share: it stops at a free slot
    or at one that holds the block at [i] of [data] under [sum]. *)
Fixpoint probe_loop (fuel : nat) (bl : blocks) (sum : Z) (data : bytes) (i h : Z)
    : result (Z * block) :=
  slot ← slot_at bl h;
  if pos slot =? NO_POSITION then Ok (h, slot)
  else
    found ← (if adlersum slot =? sum
             then memcmp_eq (bl_data bl) (pos slot) data i MATCH_BLOCKSIZE
             else Ok false);
    if found : bool then Ok (h, slot)
    else match fuel with
         | O => Err OUT_OF_FUEL
         | S f => probe_loop f bl sum data i (Z.land (h + 1) (bl_max bl))
         end.

Definition add_block (bl : blocks) (sum p : Z) : result blocks :=
  '(h, slot) ← probe_loop (length (bl_slots bl)) bl sum (bl_data bl) p
                 (Z.land (hash_func sum) (bl_max bl));
  if negb (pos slot =? NO_POSITION) then Ok bl
  else
    let i := Z.to_nat (hash_flags sum) in
    match bl_flags bl !! i with
    | Some byte =>
        Ok (mk_blocks (bl_max bl) (bl_data bl)
              (<[i := Z.lor byte (flag_bit sum)]> (bl_flags bl))
              (<[Z.to_nat h := mk_block sum p]> (bl_slots bl)))
    | None => Err C_UNDEFINED
    end.

(** The block at [i] of the target [data]; a free slot has the position that
    stands for none. *)
Definition find_block (bl : blocks) (sum : Z) (data : bytes) (i : Z) : result Z :=
  '(_, slot) ← probe_loop (length (bl_slots bl)) bl sum data i
                 (Z.land (hash_func sum) (bl_max bl));
  Ok (pos slot).

(** [while (wnslots <= nblocks) wnslots *= 2;] *)
Fixpoint count_slots (fuel : nat) (nblocks wnslots : Z) : Z :=
  match fuel with
  | O => wnslots
  | S f => if wnslots <=? nblocks then count_slots f nblocks (u64 (wnslots * 2)) else wnslots
  end.

Fixpoint add_blocks (fuel : nat) (data : bytes) (datalen i : Z) (bl : blocks) : result blocks :=
  if i + MATCH_BLOCKSIZE <=? datalen then
    match fuel with
    | O => Err OUT_OF_FUEL
    | S f =>
        sum ← init_adler32 data i;
        bl ← add_block bl sum i;
        add_blocks f data datalen (i + MATCH_BLOCKSIZE) bl
    end
  else Ok bl.

Definition init_blocks_table (data : bytes) (datalen : Z) : result blocks :=
  let nblocks := datalen / MATCH_BLOCKSIZE + 1 in
  let wnslots := u64 (count_slots 64 nblocks 1 * 2) in
  let nslots := u32 wnslots in
  c_assert (wnslots =? nslots);;
  let bl := mk_blocks (u32 (nslots - 1)) data
              (replicate (Z.to_nat (FLAGS_COUNT / 8)) 0)
              (replicate (Z.to_nat nslots) (mk_block 0 NO_POSITION)) in
  add_blocks (length data) data datalen 0 bl.

(** ** Matches *)

(** [while (apos > 0 && bpos > pending_insert_start && a[apos-1] == b[bpos-1])] *)
Fixpoint extend_backwards (fuel : nat) (a b : bytes) (pending_insert_start apos bpos delta : Z)
    : result (Z * Z * Z) :=
  if (0 <? apos) && (pending_insert_start <? bpos) then
    x ← read_byte a (apos - 1);
    y ← read_byte b (bpos - 1);
    if x =? y then
      match fuel with
      | O => Err OUT_OF_FUEL
      | S f => extend_backwards f a b pending_insert_start (apos - 1) (bpos - 1) (delta + 1)
      end
    else Ok (apos, bpos, delta)
  else Ok (apos, bpos, delta).

(** The length of the match (0 for none), its position in the target and its
    position in the source. *)
Definition find_match (bl : blocks) (rolling : Z) (a : bytes) (asize : Z) (b : bytes)
    (bsize bpos pending_insert_start : Z) : result (Z * Z * Z) :=
  apos ← find_block bl rolling b bpos;
  if apos =? NO_POSITION then Ok (0, bpos, 0)
  else
    let max_delta :=
      if asize - apos - MATCH_BLOCKSIZE <? bsize - bpos - MATCH_BLOCKSIZE
      then asize - apos - MATCH_BLOCKSIZE else bsize - bpos - MATCH_BLOCKSIZE in
    let delta := svn_cstring__match_length (drop (Z.to_nat (apos + MATCH_BLOCKSIZE)) a)
                   (drop (Z.to_nat (bpos + MATCH_BLOCKSIZE)) b) max_delta in
    '(apos, bpos, delta) ←
      extend_backwards (length a) a b pending_insert_start apos bpos delta;
    Ok (MATCH_BLOCKSIZE + delta, bpos, apos).

(** ** The delta *)

Definition store_delta_trailer (build_baton : svn_txdelta__ops_baton_t) (a : bytes) (asize : Z)
    (b : bytes) (bsize start : Z) : result svn_txdelta__ops_baton_t :=
  let max_len := if bsize - start <? asize then bsize - start else asize in
  if max_len =? 0 then Ok build_baton
  else
    let end_match := svn_cstring__reverse_match_length (slice a 0 asize) (slice b 0 bsize) max_len in
    let end_match := if end_match <=? 4 then 0 else end_match in
    build_baton ←
      (if end_match <? bsize - start then
         svn_txdelta__insert_op build_baton svn_txdelta_new start (bsize - start - end_match)
           (drop (Z.to_nat start) b)
       else Ok build_baton);
    if negb (end_match =? 0) then
      svn_txdelta__insert_op build_baton svn_txdelta_source (asize - end_match) end_match []
    else Ok build_baton.

(** The loop that skips positions whose checksum no block has. *)
Fixpoint skip_loop (fuel : nat) (bl : blocks) (b : bytes) (upper rolling lo : Z)
    : result (Z * Z) :=
  match bl_flags bl !! Z.to_nat (hash_flags rolling) with
  | None => Err C_UNDEFINED
  | Some byte =>
      if (Z.land byte (flag_bit rolling) =? 0) && (lo <? upper) then
        match fuel with
        | O => Err OUT_OF_FUEL
        | S f =>
            c_out ← read_byte b lo;
            c_in ← read_byte b (lo + MATCH_BLOCKSIZE);
            skip_loop f bl b upper (adler32_replace rolling c_out c_in) (lo + 1)
        end
      else Ok (rolling, lo)
  end.

(** A match that borders on the previous operation may replace its end. *)
Definition improve_match (build_baton : svn_txdelta__ops_baton_t) (a b : bytes)
    (apos matchlen lo : Z) : svn_txdelta__ops_baton_t * Z * Z * Z :=
  let len := svn_cstring__reverse_match_length (slice a 0 apos) (slice b 0 lo)
               (if apos <? lo then apos else lo) in
  if 0 <? len then
    let '(build_baton, len) := svn_txdelta__remove_copy build_baton len in
    (build_baton, apos - len, matchlen + len, lo - len)
  else (build_baton, apos, matchlen, lo).

Record delta_state := mk_delta_state {
  ds_baton : svn_txdelta__ops_baton_t;
  ds_rolling : Z;
  ds_lo : Z;
  ds_pending_insert_start : Z
}.

(** One round of the main loop. *)
Definition delta_step (bl : blocks) (a : bytes) (asize : Z) (b : bytes) (bsize upper : Z)
    (st : delta_state) : result delta_state :=
  let '(mk_delta_state build_baton rolling lo pending_insert_start) := st in
  '(rolling, lo) ← skip_loop (length b) bl b upper rolling lo;
  '(matchlen, lo, apos) ← find_match bl rolling a asize b bsize lo pending_insert_start;
  if matchlen =? 0 then
    rolling ← (if lo + MATCH_BLOCKSIZE <? bsize then
                 c_out ← read_byte b lo;
                 c_in ← read_byte b (lo + MATCH_BLOCKSIZE);
                 Ok (adler32_replace rolling c_out c_in)
               else Ok rolling);
    Ok (mk_delta_state build_baton rolling (lo + 1) pending_insert_start)
  else
    '(build_baton, apos, matchlen, lo) ←
      (if 0 <? lo - pending_insert_start then
         build_baton ← svn_txdelta__insert_op build_baton svn_txdelta_new 0
                         (lo - pending_insert_start) (drop (Z.to_nat pending_insert_start) b);
         Ok (build_baton, apos, matchlen, lo)
       else Ok (improve_match build_baton a b apos matchlen lo));
    let lo := lo + matchlen in
    build_baton ← svn_txdelta__insert_op build_baton svn_txdelta_source apos matchlen [];
    rolling ← (if lo + MATCH_BLOCKSIZE <=? bsize then init_adler32 b lo else Ok rolling);
    Ok (mk_delta_state build_baton rolling lo lo).

Fixpoint delta_loop (fuel : nat) (bl : blocks) (a : bytes) (asize : Z) (b : bytes)
    (bsize upper : Z) (st : delta_state) : result delta_state :=
  if ds_lo st <? upper then
    match fuel with
    | O => Err OUT_OF_FUEL
    | S f =>
        st ← delta_step bl a asize b bsize upper st;
        delta_loop f bl a asize b bsize upper st
    end
  else Ok st.

Definition compute_delta (build_baton : svn_txdelta__ops_baton_t) (a : bytes) (asize : Z)
    (b : bytes) (bsize : Z) : result svn_txdelta__ops_baton_t :=
  let lo := svn_cstring__match_length a b (if bsize <? asize then bsize else asize) in
  '(build_baton, lo, pending_insert_start) ←
    (if (4 <? lo) || (lo =? bsize) then
       build_baton ← svn_txdelta__insert_op build_baton svn_txdelta_source 0 lo [];
       Ok (build_baton, lo, lo)
     else Ok (build_baton, 0, 0));
  if (bsize - lo <? MATCH_BLOCKSIZE) || (asize <? MATCH_BLOCKSIZE) then
    store_delta_trailer build_baton a asize b bsize lo
  else
    let upper := bsize - MATCH_BLOCKSIZE in
    bl ← init_blocks_table a asize;
    rolling ← init_adler32 b lo;
    st ← delta_loop (length b) bl a asize b bsize upper
           (mk_delta_state build_baton rolling lo pending_insert_start);
    store_delta_trailer (ds_baton st) a asize b bsize (ds_pending_insert_start st).

(** [data] holds the source and the target behind it. *)
Definition svn_txdelta__xdelta (build_baton : svn_txdelta__ops_baton_t) (data : bytes)
    (source_len target_len : Z) : result svn_txdelta__ops_baton_t :=
  c_assert (negb (source_len =? 0));;
  compute_delta build_baton (slice data 0 source_len) source_len
    (slice data source_len target_len) target_len.

(** ** Windows from buffers and streams (libsvn_delta/text_delta.c) *)

Definition compute_window (data : bytes) (source_len target_len source_offset : Z)
    : result svn_txdelta_window_t :=
  build_baton ←
    (if source_len =? 0
     then svn_txdelta__insert_op empty_ops_baton svn_txdelta_new 0 target_len data
     else svn_txdelta__xdelta empty_ops_baton data source_len target_len);
  let window := svn_txdelta__make_window build_baton in
  Ok (mk_window source_offset source_len target_len
        (w_src_ops window) (w_ops window) (w_new_data window)).

(** The baton of a delta stream, without the buffer, which is filled again
    for every window, and the digest. *)
Record txdelta_baton := mk_txdelta_baton {
  td_source : bytes;
  td_target : bytes;
  td_more_source : bool;
  td_more : bool;
  td_pos : Z
}.

Definition txdelta_next_window (b : txdelta_baton)
    : result (option svn_txdelta_window_t * txdelta_baton) :=
  let '(sdata, source, more_source) :=
    if td_more_source b then
      let '(sdata, source) := svn_stream_read_full (td_source b) SVN_DELTA_WINDOW_SIZE in
      (sdata, source, zlen sdata =? SVN_DELTA_WINDOW_SIZE)
    else ([], td_source b, false) in
  let '(tdata, target) := svn_stream_read_full (td_target b) SVN_DELTA_WINDOW_SIZE in
  let pos := td_pos b + zlen sdata in
  if zlen tdata =? 0 then
    Ok (None, mk_txdelta_baton source target more_source false pos)
  else
    window ← compute_window (sdata ++ tdata) (zlen sdata) (zlen tdata) (pos - zlen sdata);
    Ok (Some window, mk_txdelta_baton source target more_source (td_more b) pos).

(** The baton that [svn_txdelta2] and [svn_txdelta_run] start with. *)
Definition svn_txdelta2 (source target : bytes) : txdelta_baton :=
  mk_txdelta_baton source target true true 0.

Section Run.
Context {T : Type} (handler : option svn_txdelta_window_t -> T -> result T).

(** The loops of [svn_txdelta_run], without a function for cancelling, and of
    [svn_txdelta_send_txstream]. *)
Fixpoint run_loop (fuel : nat) (tb : txdelta_baton) (s : T) : result T :=
  '(window, tb) ← txdelta_next_window tb;
  s ← handler window s;
  match window with
  | None => Ok s
  | Some _ =>
      match fuel with
      | O => Err OUT_OF_FUEL
      | S f => run_loop f tb s
      end
  end.

Definition svn_txdelta_run (source target : bytes) (s : T) : result T :=
  run_loop (length target) (svn_txdelta2 source target) s.

(** ** Pushing the target *)

(** [tp_sdata] and [tp_tdata] are the source and the target part of the
    buffer. *)
Record tpush_baton := mk_tpush_baton {
  tp_source : bytes;
  tp_sdata : bytes;
  tp_source_offset : Z;
  tp_source_done : bool;
  tp_tdata : bytes
}.

Definition tpush_window (tb : tpush_baton) : result svn_txdelta_window_t :=
  compute_window (tp_sdata tb ++ tp_tdata tb) (zlen (tp_sdata tb)) (zlen (tp_tdata tb))
    (tp_source_offset tb).

(** One round of the loop: the data that are left. *)
Definition tpush_step (tb : tpush_baton) (data : bytes) (s : T)
    : result (tpush_baton * bytes * T) :=
  let tb :=
    if (zlen (tp_sdata tb) =? 0) && negb (tp_source_done tb) then
      let '(sdata, source) := svn_stream_read_full (tp_source tb) SVN_DELTA_WINDOW_SIZE in
      mk_tpush_baton source sdata (tp_source_offset tb)
        (if zlen sdata <? SVN_DELTA_WINDOW_SIZE then true else tp_source_done tb) (tp_tdata tb)
    else tb in
  let chunk_len := SVN_DELTA_WINDOW_SIZE - zlen (tp_tdata tb) in
  let chunk_len := if zlen data <? chunk_len then zlen data else chunk_len in
  let tb := mk_tpush_baton (tp_source tb) (tp_sdata tb) (tp_source_offset tb)
              (tp_source_done tb) (tp_tdata tb ++ slice data 0 chunk_len) in
  let data := drop (Z.to_nat chunk_len) data in
  if zlen (tp_tdata tb) =? SVN_DELTA_WINDOW_SIZE then
    window ← tpush_window tb;
    s ← handler (Some window) s;
    Ok (mk_tpush_baton (tp_source tb) [] (tp_source_offset tb + zlen (tp_sdata tb))
          (tp_source_done tb) [], data, s)
  else Ok (tb, data, s).

Fixpoint tpush_loop (fuel : nat) (tb : tpush_baton) (data : bytes) (s : T)
    : result (tpush_baton * T) :=
  if 0 <? zlen data then
    match fuel with
    | O => Err OUT_OF_FUEL
    | S f => '(tb, data, s) ← tpush_step tb data s; tpush_loop f tb data s
    end
  else Ok (tb, s).

Definition tpush_write_handler (tb : tpush_baton) (data : bytes) (s : T)
    : result (tpush_baton * T) :=
  tpush_loop (length data) tb data s.

Definition tpush_close_handler (tb : tpush_baton) (s : T) : result T :=
  s ← (if 0 <? zlen (tp_tdata tb) then window ← tpush_window tb; handler (Some window) s
       else Ok s);
  handler None s.

Definition svn_txdelta_target_push (source : bytes) : tpush_baton :=
  mk_tpush_baton source [] 0 false [].
End Run.
