(* ===== verification/XdeltaFacts.v ===== *)
(** * The xdelta algorithm is correct

    The rolling checksum is the checksum of the block it stands on; the table
    of blocks finds a block of the source exactly when there is one, and its
    probing ends; the delta that is computed describes the target. *)

From S2P Require Import Prelude Buffers Delta DeltaFacts Xdelta.

(** ** The checksum *)

(** The sums of the checksum without wrapping. *)
Definition sum1 (l : bytes) : Z := fold_right Z.add 0 l.

Fixpoint sum2 (l : bytes) : Z :=
  match l with [] => 0 | x :: l => zlen (x :: l) * x + sum2 l end.

Lemma adler_fold l s1 s2 :
  fold_left adler_step l (u32 s1, u32 s2) = (u32 (s1 + sum1 l), u32 (s2 + zlen l * s1 + sum2 l)).
Proof.
  revert s1 s2. induction l as [|x l IH]; intros s1 s2; simpl.
  - unfold zlen. simpl. f_equal; f_equal; lia.
  - unfold adler_step at 2. simpl.
    assert (u32 (u32 s1 + x) = u32 (s1 + x)) as -> by apply Zplus_mod_idemp_l.
    assert (u32 (u32 s2 + u32 (s1 + x)) = u32 (s2 + (s1 + x))) as ->
      by (symmetry; apply Zplus_mod).
    rewrite IH. unfold zlen. simpl length. f_equal; f_equal; lia.
Qed.

Lemma adler_block_spec l : adler_block l = u32 (sum2 l * 0x10000 + sum1 l).
Proof.
  unfold adler_block. change (0, 0) with (u32 0, u32 0). rewrite adler_fold. cbv iota beta.
  rewrite Z.mul_0_r, !Z.add_0_l. unfold u32.
  rewrite (Z.mul_mod_idemp_l (sum2 l)), Zplus_mod_idemp_l, Zplus_mod_idemp_r by lia. done.
Qed.

Lemma sum1_app l1 l2 : sum1 (l1 ++ l2) = sum1 l1 + sum1 l2.
Proof. unfold sum1. induction l1 as [|x l1 IH]; simpl; [done|]. rewrite IH. lia. Qed.

Lemma sum2_snoc l x : sum2 (l ++ [x]) = sum2 l + sum1 l + x.
Proof.
  unfold sum1. induction l as [|y l IH]; simpl; [unfold zlen; simpl; lia|].
  rewrite IH. unfold zlen. simpl length. rewrite length_app. simpl length. lia.
Qed.

(** Moving the block by one byte. *)
Lemma adler32_replace_spec c_out l c_in :
  zlen (c_out :: l) = MATCH_BLOCKSIZE ->
  adler32_replace (adler_block (c_out :: l)) c_out c_in = adler_block (l ++ [c_in]).
Proof.
  intros Hlen. rewrite !adler_block_spec, sum1_app, sum2_snoc.
  unfold adler32_replace. simpl sum2. simpl sum1. rewrite Hlen. unfold MATCH_BLOCKSIZE, u32.
  fold (sum1 l). generalize (sum1 l) as s1. generalize (sum2 l) as s2. intros s2 s1.
  dlia.
Qed.

(** ** Probing *)

(** Slot [i] comes [d] places behind slot [h] on a table of [n] slots. *)
Definition probe (n h d : Z) : Z := (h + d) mod n.

Definition used (slot : block) : Prop := pos slot <> NO_POSITION.

#[export] Instance used_dec slot : Decision (used slot).
Proof. unfold used. solve_decision. Defined.

(** The table on the source [a]: its size is a power of two, and the slots
    in use hold blocks of [a] under their checksums, which the flags know. *)
Record table_ok (a : bytes) (bl : blocks) : Prop := mk_table_ok {
  table_data : bl_data bl = a;
  table_size : exists k, 0 <= k < 32 /\ zlen (bl_slots bl) = 2 ^ k /\ bl_max bl = 2 ^ k - 1;
  table_flags : zlen (bl_flags bl) = FLAGS_COUNT / 8;
  table_slots : forall i slot, bl_slots bl !! i = Some slot -> used slot ->
    0 <= pos slot /\ pos slot + MATCH_BLOCKSIZE <= zlen a /\
    adlersum slot = adler_block (slice a (pos slot) MATCH_BLOCKSIZE);
  table_bits : forall i slot, bl_slots bl !! i = Some slot -> used slot ->
    exists byte, bl_flags bl !! Z.to_nat (hash_flags (adlersum slot)) = Some byte /\
      Z.land byte (flag_bit (adlersum slot)) <> 0;
  (* no free slot in front of a block on its way from the hash value *)
  table_reach : forall i slot, bl_slots bl !! i = Some slot -> used slot ->
    exists d, 0 <= d < zlen (bl_slots bl) /\
      Z.of_nat i = probe (zlen (bl_slots bl)) (hash_func (adlersum slot)) d /\
      forall d', 0 <= d' < d -> exists slot',
        bl_slots bl !! Z.to_nat (probe (zlen (bl_slots bl)) (hash_func (adlersum slot)) d') =
          Some slot' /\ used slot'
}.

Lemma land_max k x : 0 <= k -> Z.land x (2 ^ k - 1) = x mod 2 ^ k.
Proof.
  intros. replace (2 ^ k - 1) with (Z.ones k) by (rewrite Z.ones_equiv; lia). by apply Z.land_ones.
Qed.

Lemma probe_range n h d : 0 < n -> 0 <= probe n h d < n.
Proof. intros. apply Z.mod_pos_bound. done. Qed.

(** Every slot is met within one turn. *)
Lemma probe_hits n h i : 0 <= i < n -> exists d, 0 <= d < n /\ probe n h d = i.
Proof.
  intros Hi. exists ((i - h) mod n). split; [apply Z.mod_pos_bound; lia|].
  unfold probe. rewrite Zplus_mod_idemp_r. replace (h + (i - h)) with i by lia.
  by apply Z.mod_small.
Qed.

(** The slot at place [d] behind the hash value of [sum], and that all slots
    in front of it are in use and satisfy [Q]. *)
Definition slot_after (bl : blocks) (sum d : Z) : option block :=
  bl_slots bl !! Z.to_nat (probe (zlen (bl_slots bl)) (hash_func sum) d).

Definition used_before (bl : blocks) (sum d : Z) (Q : block -> Prop) : Prop :=
  forall d', 0 <= d' < d -> exists slot, slot_after bl sum d' = Some slot /\ used slot /\ Q slot.

Lemma used_before_snoc bl sum d Q slot :
  0 <= d -> used_before bl sum d Q -> slot_after bl sum d = Some slot -> used slot -> Q slot ->
  used_before bl sum (d + 1) Q.
Proof.
  intros Hd Hb Hs Hu HQ d' Hd'. destruct (decide (d' = d)) as [->|]; [eauto|]. apply Hb. lia.
Qed.

Definition has_free (bl : blocks) : Prop :=
  exists i slot, bl_slots bl !! i = Some slot /\ ~ used slot.

Section Probing.
Context (a : bytes) (bl : blocks) (Hok : table_ok a bl).
Let n := zlen (bl_slots bl).

Lemma table_pos : 0 < n.
Proof.
  destruct (table_size a bl Hok) as (k & Hk & Hn & _). subst n. rewrite Hn.
  apply Z.pow_pos_nonneg; lia.
Qed.

Lemma land_table x : Z.land x (bl_max bl) = x mod n.
Proof.
  destruct (table_size a bl Hok) as (k & Hk & Hn & Hm). subst n. rewrite Hn, Hm.
  apply land_max. lia.
Qed.

Lemma hash_start sum : Z.land (hash_func sum) (bl_max bl) = probe n (hash_func sum) 0.
Proof. rewrite land_table. unfold probe. by rewrite Z.add_0_r. Qed.

Lemma hash_next sum d :
  Z.land (probe n (hash_func sum) d + 1) (bl_max bl) = probe n (hash_func sum) (d + 1).
Proof. rewrite land_table. unfold probe. rewrite Zplus_mod_idemp_l. f_equal. lia. Qed.

Lemma slot_after_lt sum d : exists slot, slot_after bl sum d = Some slot.
Proof.
  unfold slot_after. apply lookup_lt_is_Some_2.
  pose proof (probe_range n (hash_func sum) d table_pos). subst n. unfold zlen in *. lia.
Qed.

Lemma has_free_after sum : has_free bl ->
  exists d slot, 0 <= d < n /\ slot_after bl sum d = Some slot /\ ~ used slot.
Proof.
  intros (i & slot & Hi & Hf). pose proof (lookup_lt_Some _ _ _ Hi) as Hlt.
  destruct (probe_hits n (hash_func sum) (Z.of_nat i)) as (d & Hd & Hp); [subst n; unfold zlen; lia|].
  exists d, slot. unfold slot_after. subst n. by rewrite Hp, Nat2Z.id.
Qed.

(** A loop that probes until a free slot or success. *)
Lemma probe_advance sum d d_free slot_free slot :
  0 <= d <= d_free -> slot_after bl sum d_free = Some slot_free -> ~ used slot_free ->
  slot_after bl sum d = Some slot -> used slot -> d + 1 <= d_free.
Proof.
  intros Hd Hf Hnf Hs Hu. destruct (decide (d = d_free)) as [->|]; [|lia]. by simplify_eq.
Qed.

(** The slot is the one of a block with this content. *)
Definition holds (sum : Z) (content : bytes) (slot : block) : Prop :=
  adlersum slot = sum /\ slice a (pos slot) MATCH_BLOCKSIZE = content.

Lemma slot_found slot i data j sum :
  bl_slots bl !! i = Some slot -> used slot -> 0 <= j -> j + MATCH_BLOCKSIZE <= zlen data ->
  exists found, (if adlersum slot =? sum
    then memcmp_eq (bl_data bl) (pos slot) data j MATCH_BLOCKSIZE else Ok false) = Ok found /\
    (found = true <-> holds sum (slice data j MATCH_BLOCKSIZE) slot).
Proof.
  intros Hi Hu Hj1 Hj2. destruct (table_slots a bl Hok _ _ Hi Hu) as (H1 & H2 & _).
  unfold memcmp_eq, holds. rewrite (table_data a bl Hok). unfold MATCH_BLOCKSIZE in *.
  destruct (Z.eqb_spec (adlersum slot) sum); [|eexists; split; [done|naive_solver]].
  rewrite !memcpy_from_Ok by lia. eexists. split; [done|]. rewrite bool_decide_eq_true. tauto.
Qed.

Lemma probe_loop_spec fuel sum data j d d_free slot_free :
  0 <= j -> j + MATCH_BLOCKSIZE <= zlen data ->
  0 <= d <= d_free -> slot_after bl sum d_free = Some slot_free -> ~ used slot_free ->
  used_before bl sum d (fun slot => ~ holds sum (slice data j MATCH_BLOCKSIZE) slot) ->
  (Z.to_nat (d_free - d) <= fuel)%nat ->
  exists d' slot,
    probe_loop fuel bl sum data j (probe n (hash_func sum) d) =
      Ok (probe n (hash_func sum) d', slot) /\
    0 <= d' <= d_free /\ slot_after bl sum d' = Some slot /\
    used_before bl sum d' (fun slot => ~ holds sum (slice data j MATCH_BLOCKSIZE) slot) /\
    (used slot -> holds sum (slice data j MATCH_BLOCKSIZE) slot).
Proof.
  intros Hj1 Hj2. revert d. induction fuel as [|f IH]; intros d Hd Hfree Hnf Hb Hf;
    destruct (slot_after_lt sum d) as [slot Hs]; cbn [probe_loop];
    unfold slot_at; unfold slot_after in Hs; fold n in Hs; rewrite Hs; cbn [mbind result_bind];
    destruct (Z.eqb_spec (pos slot) NO_POSITION) as [E|E];
    try (exists d, slot; split_and!; [done|lia|lia|done|done|intros Hu; by destruct Hu]);
    destruct (slot_found _ _ data j sum Hs E Hj1 Hj2) as (found & -> & Hfound);
    cbn [mbind result_bind]; destruct found;
    try (exists d, slot; split_and!; [done|lia|lia|done|done|intros _; by apply Hfound]);
    pose proof (probe_advance _ _ _ _ _ Hd Hfree Hnf Hs E); [lia|].
  rewrite hash_next. apply IH; [lia|done|done| |lia].
  apply used_before_snoc with slot; [lia|done|done|done|]. intros Hh. by apply Hfound in Hh.
Qed.

(** From the hash value on, with a free slot somewhere, the loop ends. *)
Lemma probe_from_hash sum data j :
  has_free bl -> 0 <= j -> j + MATCH_BLOCKSIZE <= zlen data ->
  exists d slot,
    probe_loop (length (bl_slots bl)) bl sum data j (Z.land (hash_func sum) (bl_max bl)) =
      Ok (probe n (hash_func sum) d, slot) /\
    0 <= d < n /\ slot_after bl sum d = Some slot /\
    used_before bl sum d (fun slot => ~ holds sum (slice data j MATCH_BLOCKSIZE) slot) /\
    (used slot -> holds sum (slice data j MATCH_BLOCKSIZE) slot).
Proof.
  intros Hfree Hj1 Hj2. destruct (has_free_after sum Hfree) as (df & sf & Hdf & Hsf & Hnf).
  rewrite hash_start.
  destruct (probe_loop_spec (length (bl_slots bl)) sum data j 0 df sf)
    as (d & slot & E & Hd & H); [done|done|lia|done|done| |subst n; unfold zlen in *; lia|].
  { intros d' Hd'. lia. }
  exists d, slot. split_and!; try done; try lia; apply H.
Qed.

(** [find_block] finds a block of the source with the content of the block of
    the target exactly if the table has one. *)
Lemma find_block_spec sum data j :
  has_free bl -> 0 <= j -> j + MATCH_BLOCKSIZE <= zlen data ->
  exists p, find_block bl sum data j = Ok p /\
    (p <> NO_POSITION -> 0 <= p /\ p + MATCH_BLOCKSIZE <= zlen a /\
       slice a p MATCH_BLOCKSIZE = slice data j MATCH_BLOCKSIZE) /\
    (p = NO_POSITION -> forall i slot, bl_slots bl !! i = Some slot -> used slot ->
       ~ holds sum (slice data j MATCH_BLOCKSIZE) slot).
Proof.
  intros Hfree Hj1 Hj2. destruct (probe_from_hash sum data j Hfree Hj1 Hj2)
    as (d & slot & E & Hd & Hs & Hb & Hh).
  unfold find_block. rewrite E. cbn [mbind result_bind]. eexists. split; [done|]. split.
  - intros Hu. destruct (Hh Hu) as [_ Hc].
    destruct (table_slots a bl Hok _ _ Hs Hu) as (H1 & H2 & _). auto.
  - intros Hf i slot' Hi Hu [Hsum Hcont].
    destruct (table_reach a bl Hok _ _ Hi Hu) as (d' & Hd' & Hi' & Hpath).
    rewrite Hsum in *. assert (slot_after bl sum d' = Some slot') as Hs'.
    { unfold slot_after. by rewrite <- Hi', Nat2Z.id. }
    destruct (Z.lt_trichotomy d' d) as [Hlt|[->|Hgt]].
    + destruct (Hb d') as (s & Hs2 & _ & Hn); [lia|]. rewrite Hs' in Hs2. simplify_eq. by apply Hn.
    + rewrite Hs' in Hs. simplify_eq. by apply Hu.
    + destruct (Hpath d) as (s & Hs2 & Hu2); [lia|].
      unfold slot_after in Hs. rewrite Hs in Hs2. simplify_eq. by apply Hu2.
Qed.
End Probing.

(** ** Filling the table *)

Definition used_count (bl : blocks) : nat := length (filter used (bl_slots bl)).

Lemma has_free_count bl :
  (used_count bl < length (bl_slots bl))%nat -> has_free bl.
Proof.
  unfold used_count, has_free. intros H.
  destruct (decide (Forall used (bl_slots bl))) as [Hall|Hn].
  - rewrite filter_all in H by done. lia.
  - apply not_Forall_Exists in Hn; [|apply _]. apply Exists_exists in Hn as (slot & Hin & Hf).
    apply list_elem_of_lookup in Hin as [i Hi]. eauto.
Qed.

Lemma used_count_insert (slots : list block) i slot :
  (length (filter used (<[i := slot]> slots)) <= S (length (filter used slots)))%nat.
Proof.
  revert i. induction slots as [|s slots IH]; intros [|i]; simpl; [lia..| |].
  - rewrite !filter_cons. repeat case_decide; simpl; lia.
  - rewrite !filter_cons. specialize (IH i). repeat case_decide; simpl; lia.
Qed.

(** The content is that of a block in the table. *)
Definition in_table (a : bytes) (bl : blocks) (content : bytes) : Prop :=
  exists i slot, bl_slots bl !! i = Some slot /\ used slot /\
    holds a (adler_block content) content slot.

Lemma hash_flags_range sum : 0 <= hash_flags sum < FLAGS_COUNT / 8.
Proof.
  unfold hash_flags, FLAGS_COUNT. change (32 * 1024 / 8 - 1) with (Z.ones 12).
  rewrite Z.land_ones by lia. change (32 * 1024 / 8) with (2 ^ 12). apply Z.mod_pos_bound. done.
Qed.

Lemma flag_bit_pos sum : 0 < flag_bit sum.
Proof.
  unfold flag_bit. rewrite Z.shiftl_1_l. apply Z.pow_pos_nonneg; [done|].
  by apply Z.land_nonneg; right.
Qed.

Lemma land_lor_keep x y z : Z.land x z <> 0 -> Z.land (Z.lor x y) z <> 0.
Proof. intros H E. rewrite Z.land_lor_distr_l in E. by apply Z.lor_eq_0_iff in E as [? _]. Qed.

(** Putting a block into the first free slot behind its hash value. *)
Lemma insert_slot_ok a bl p d slot byte :
  let sum := adler_block (slice a p MATCH_BLOCKSIZE) in
  let h := probe (zlen (bl_slots bl)) (hash_func sum) d in
  table_ok a bl -> 0 <= p -> p + MATCH_BLOCKSIZE <= zlen a -> p < NO_POSITION ->
  0 <= d < zlen (bl_slots bl) -> slot_after bl sum d = Some slot -> ~ used slot ->
  used_before bl sum d (fun _ => True) ->
  bl_flags bl !! Z.to_nat (hash_flags sum) = Some byte ->
  table_ok a (mk_blocks (bl_max bl) (bl_data bl)
    (<[Z.to_nat (hash_flags sum) := Z.lor byte (flag_bit sum)]> (bl_flags bl))
    (<[Z.to_nat h := mk_block sum p]> (bl_slots bl))).
Proof.
  intros sum h Hok Hp1 Hp2 Hp3 Hd Hs Hf Hb Hfl.
  pose proof (lookup_lt_Some _ _ _ Hs) as Hh. fold h in Hh.
  assert (forall i s, <[Z.to_nat h:=mk_block sum p]> (bl_slots bl) !! i = Some s ->
    (i = Z.to_nat h /\ s = mk_block sum p) \/ bl_slots bl !! i = Some s) as Hcases.
  { intros i s Hi. apply list_lookup_insert_Some in Hi as [(-> & -> & _)|[_ Hi]]; auto. }
  assert (forall i s, bl_slots bl !! i = Some s -> used s ->
    <[Z.to_nat h:=mk_block sum p]> (bl_slots bl) !! i = Some s) as Hkeep.
  { intros i s Hi Hu. rewrite list_lookup_insert_ne; [done|]. intros <-.
    unfold slot_after in Hs. fold h in Hs. by simplify_eq. }
  assert (forall s d, used_before bl s d (fun _ => True) -> forall d', 0 <= d' < d ->
    exists slot', <[Z.to_nat h:=mk_block sum p]> (bl_slots bl) !!
      Z.to_nat (probe (zlen (bl_slots bl)) (hash_func s) d') = Some slot' /\ used slot') as Hpath.
  { intros s d1 Hu d' Hd'. destruct (Hu d' Hd') as (x & Hx & Hux & _). exists x. auto. }
  assert (forall A (l : list A) i x, zlen (<[i := x]> l) = zlen l) as Hz.
  { intros. unfold zlen. by rewrite length_insert. }
  split; cbn [bl_slots bl_data bl_max bl_flags]; rewrite ?Hz.
  - apply Hok.
  - apply Hok.
  - apply Hok.
  - intros i s Hi Hu. apply Hcases in Hi as [[-> ->]|Hi]; [cbn [adlersum pos]; auto|].
    by eapply table_slots.
  - intros i s Hi Hu. apply Hcases in Hi as [[-> ->]|Hi]; cbn [adlersum pos].
    + eexists. rewrite list_lookup_insert_eq by (by eapply lookup_lt_Some). split; [done|].
      rewrite Z.lor_comm. apply land_lor_keep. rewrite Z.land_diag.
      pose proof (flag_bit_pos sum). lia.
    + destruct (table_bits a bl Hok _ _ Hi Hu) as (byte' & Hb' & Hne).
      destruct (decide (hash_flags (adlersum s) = hash_flags sum)) as [E|E].
      * rewrite E in *. rewrite list_lookup_insert_eq by (by eapply lookup_lt_Some).
        eexists. split; [done|]. simplify_eq. by apply land_lor_keep.
      * exists byte'. rewrite list_lookup_insert_ne; [done|].
        pose proof (hash_flags_range sum). pose proof (hash_flags_range (adlersum s)). lia.
  - intros i s Hi Hu. apply Hcases in Hi as [[-> ->]|Hi]; cbn [adlersum pos].
    + exists d. split_and!; [lia..| |by apply Hpath].
      change (Z.of_nat (Z.to_nat h) = h). rewrite Z2Nat.id; [done|]. apply probe_range. lia.
    + destruct (table_reach a bl Hok _ _ Hi Hu) as (d1 & Hd1 & Hi1 & Hpath1).
      exists d1. split_and!; [lia..|done|]. apply Hpath. intros d' Hd'.
      destruct (Hpath1 d' Hd') as (x & Hx & Hux). unfold slot_after. eauto.
Qed.

Lemma add_block_spec a bl p :
  let content := slice a p MATCH_BLOCKSIZE in
  table_ok a bl -> has_free bl -> 0 <= p -> p + MATCH_BLOCKSIZE <= zlen a -> p < NO_POSITION ->
  exists bl', add_block bl (adler_block content) p = Ok bl' /\ table_ok a bl' /\
    length (bl_slots bl') = length (bl_slots bl) /\ (used_count bl' <= S (used_count bl))%nat /\
    in_table a bl' content /\ (forall c, in_table a bl c -> in_table a bl' c).
Proof.
  intros content Hok Hfree Hp1 Hp2 Hp3.
  destruct (probe_from_hash a bl Hok (adler_block content) a p Hfree Hp1 Hp2)
    as (d & slot & E & Hd & Hs & Hb & Hh).
  unfold add_block. rewrite (table_data a bl Hok), E. cbn [mbind result_bind].
  destruct (Z.eqb_spec (pos slot) NO_POSITION) as [Hf|Hu]; cbn [negb].
  - destruct (lookup_lt_is_Some_2 (bl_flags bl) (Z.to_nat (hash_flags (adler_block content))))
      as [byte Hbyte].
    { pose proof (hash_flags_range (adler_block content)).
      pose proof (table_flags a bl Hok). unfold zlen in *. lia. }
    rewrite Hbyte. eexists. split; [done|].
    assert (~ used slot) as Hnu by (unfold used; tauto).
    assert (used_before bl (adler_block content) d (fun _ => True)) as Hb'.
    { intros d' Hd'. destruct (Hb d' Hd') as (x & Hx & Hux & _). eauto. }
    pose proof (insert_slot_ok a bl p d slot byte Hok Hp1 Hp2 Hp3 Hd Hs Hnu Hb' Hbyte) as Hok'.
    rewrite (table_data a bl Hok) in Hok'. cbn [bl_slots] in *.
    set (k := Z.to_nat (probe (zlen (bl_slots bl)) (hash_func (adler_block content)) d)) in *.
    pose proof (lookup_lt_Some _ _ _ Hs : (k < length (bl_slots bl))%nat) as Hlt.
    split_and!; [done|by rewrite length_insert|apply used_count_insert| |].
    + exists k, (mk_block (adler_block content) p). cbn [bl_slots].
      rewrite list_lookup_insert_eq by done. split_and!; [done| |done].
      unfold used. cbn [pos]. lia.
    + intros c (i & s & Hi & Hu & Hc). exists i, s. cbn [bl_slots].
      rewrite list_lookup_insert_ne; [done|]. intros <-.
      unfold slot_after in Hs. fold k in Hs. by simplify_eq.
  - exists bl. split_and!; [done..|lia| |done]. unfold slot_after in Hs.
    exists (Z.to_nat (probe (zlen (bl_slots bl)) (hash_func (adler_block content)) d)), slot. auto.
Qed.

(** ** The whole table *)

Lemma count_slots_spec fuel nblocks j :
  0 <= j -> 1 <= nblocks < 2 ^ 31 -> 2 ^ j <= 2 * nblocks -> nblocks < 2 ^ (j + Z.of_nat fuel) ->
  exists k, 0 <= k /\ count_slots fuel nblocks (2 ^ j) = 2 ^ k /\ nblocks < 2 ^ k <= 2 * nblocks.
Proof.
  revert j. induction fuel as [|f IH]; intros j Hj Hn Hle Hlt; cbn [count_slots].
  - exists j. rewrite Z.add_0_r in Hlt. auto.
  - destruct (Z.leb_spec (2 ^ j) nblocks) as [H|H]; [|exists j; auto].
    assert (2 ^ j * 2 = 2 ^ (j + 1)) as E by (rewrite Z.pow_add_r by lia; lia).
    rewrite u64_small by lia. rewrite E. apply IH; [lia..|].
    by replace (j + 1 + Z.of_nat f) with (j + Z.of_nat (S f)) by lia.
Qed.

Lemma init_adler32_Ok data i :
  0 <= i -> i + MATCH_BLOCKSIZE <= zlen data ->
  init_adler32 data i = Ok (adler_block (slice data i MATCH_BLOCKSIZE)).
Proof.
  intros. unfold init_adler32. unfold MATCH_BLOCKSIZE in *.
  by rewrite memcpy_from_Ok by lia.
Qed.

(** The blocks of [a] in front of position [i]. *)
Definition blocks_before (a : bytes) (bl : blocks) (i : Z) : Prop :=
  forall k, 0 <= k -> MATCH_BLOCKSIZE * k < i ->
    in_table a bl (slice a (MATCH_BLOCKSIZE * k) MATCH_BLOCKSIZE).

Lemma add_blocks_spec a fuel m bl :
  table_ok a bl -> zlen a < 2 ^ 31 ->
  zlen a / MATCH_BLOCKSIZE < zlen (bl_slots bl) ->
  0 <= m -> Z.of_nat (used_count bl) <= m -> blocks_before a bl (MATCH_BLOCKSIZE * m) ->
  MATCH_BLOCKSIZE * m <= zlen a -> zlen a - MATCH_BLOCKSIZE * m <= Z.of_nat fuel ->
  exists bl', add_blocks fuel a (zlen a) (MATCH_BLOCKSIZE * m) bl = Ok bl' /\
    table_ok a bl' /\ has_free bl' /\
    (forall k, 0 <= k -> MATCH_BLOCKSIZE * k + MATCH_BLOCKSIZE <= zlen a ->
       in_table a bl' (slice a (MATCH_BLOCKSIZE * k) MATCH_BLOCKSIZE)).
Proof.
  intros Hok Ha. revert m bl Hok.
  induction fuel as [|f IH]; intros m bl Hok Hn Hm Hu Hb Hle Hf; cbn [add_blocks];
    unfold MATCH_BLOCKSIZE in Hn, Hle, Hf;
    (assert (m <= zlen a / 64) as Hdiv by (apply Z.div_le_lower_bound; lia));
    (assert (has_free bl) as Hfree by (apply has_free_count; unfold zlen in *; lia)).
  - destruct (Z.leb_spec (MATCH_BLOCKSIZE * m + MATCH_BLOCKSIZE) (zlen a)) as [H|H];
      unfold MATCH_BLOCKSIZE in H; [lia|].
    exists bl. split_and!; [done..|]. intros k Hk1 Hk2. apply Hb; unfold MATCH_BLOCKSIZE in *; lia.
  - destruct (Z.leb_spec (MATCH_BLOCKSIZE * m + MATCH_BLOCKSIZE) (zlen a)) as [H|H].
    + rewrite init_adler32_Ok by (unfold MATCH_BLOCKSIZE in *; lia). cbn [mbind result_bind].
      destruct (add_block_spec a bl (MATCH_BLOCKSIZE * m)) as (bl' & -> & Hok' & Hl & Hu' & Hin & Hkeep);
        [done|done|unfold MATCH_BLOCKSIZE; lia|done|unfold MATCH_BLOCKSIZE, NO_POSITION in *; lia|].
      cbn [mbind result_bind].
      replace (MATCH_BLOCKSIZE * m + MATCH_BLOCKSIZE) with (MATCH_BLOCKSIZE * (m + 1)) in * by lia.
      apply IH; unfold MATCH_BLOCKSIZE in *; try lia; [done|unfold zlen in *; by rewrite Hl|].
      intros k Hk1 Hk2. unfold MATCH_BLOCKSIZE in *.
      destruct (decide (k = m)) as [->|]; [done|]. apply Hkeep, Hb; unfold MATCH_BLOCKSIZE; lia.
    + exists bl. split_and!; [done..|].
      intros k Hk1 Hk2. apply Hb; unfold MATCH_BLOCKSIZE in *; lia.
Qed.

Lemma empty_table_ok a k :
  0 <= k < 32 ->
  table_ok a (mk_blocks (2 ^ k - 1) a (replicate (Z.to_nat (FLAGS_COUNT / 8)) 0)
    (replicate (Z.to_nat (2 ^ k)) (mk_block 0 NO_POSITION))).
Proof.
  intros Hk. assert (0 < 2 ^ k) by (apply Z.pow_pos_nonneg; lia).
  assert (forall i slot, replicate (Z.to_nat (2 ^ k)) (mk_block 0 NO_POSITION) !! i = Some slot ->
    ~ used slot) as Hfree.
  { intros i slot Hi. apply lookup_replicate in Hi as [-> _]. unfold used. simpl. tauto. }
  split; cbn [bl_data bl_max bl_flags bl_slots].
  - done.
  - exists k. split_and!; [lia..| |done]. unfold zlen. rewrite length_replicate. lia.
  - unfold zlen. by rewrite length_replicate.
  - intros i slot Hi Hu. by apply Hfree in Hi.
  - intros i slot Hi Hu. by apply Hfree in Hi.
  - intros i slot Hi Hu. by apply Hfree in Hi.
Qed.

(** The table that [init_blocks_table] builds: its loops end, a slot stays
    free, and it has every block of the source. *)
Lemma init_blocks_table_spec a :
  zlen a < 2 ^ 31 ->
  exists bl, init_blocks_table a (zlen a) = Ok bl /\ table_ok a bl /\ has_free bl /\
    forall k, 0 <= k -> MATCH_BLOCKSIZE * k + MATCH_BLOCKSIZE <= zlen a ->
      in_table a bl (slice a (MATCH_BLOCKSIZE * k) MATCH_BLOCKSIZE).
Proof.
  intros Ha. pose proof (zlen_nonneg a). unfold init_blocks_table.
  set (nblocks := zlen a / MATCH_BLOCKSIZE + 1).
  assert (1 <= nblocks < 2 ^ 26) as Hnb by (subst nblocks; unfold MATCH_BLOCKSIZE; dlia).
  destruct (count_slots_spec 64 nblocks 0) as (k & Hk & Ec & Hlt); [lia..| |].
  { change (2 ^ (0 + Z.of_nat 64)) with (2 ^ 64). lia. }
  change (2 ^ 0) with 1 in Ec. rewrite Ec.
  assert (2 ^ k * 2 = 2 ^ (k + 1)) as E by (rewrite Z.pow_add_r by lia; lia). rewrite E.
  assert (k < 27) as Hk'. { apply (Z.pow_lt_mono_r_iff 2); lia. }
  assert (2 ^ (k + 1) <= 2 ^ 28) as Hp by (apply Z.pow_le_mono_r; lia).
  assert (0 < 2 ^ (k + 1)) by (apply Z.pow_pos_nonneg; lia).
  rewrite u64_small by lia. rewrite (u32_small (2 ^ (k + 1))) by lia. rewrite c_assert_eq by done.
  cbn [mbind result_bind]. rewrite u32_small by lia.
  apply (add_blocks_spec a (length a) 0).
  - apply empty_table_ok. lia.
  - done.
  - cbn [bl_slots]. unfold zlen at 2. rewrite length_replicate. subst nblocks. lia.
  - done.
  - unfold used_count. cbn [bl_slots].
    assert (forall n, filter used (replicate n (mk_block 0 NO_POSITION)) = []) as ->; [|done].
    intros n. induction n as [|n IH]; [done|]. cbn [replicate].
    rewrite filter_cons_False; [done|]. unfold used. cbn [pos]. tauto.
  - unfold blocks_before, MATCH_BLOCKSIZE. intros k' Hk1 Hk2. lia.
  - lia.
  - unfold zlen. lia.
Qed.

(** ** Matches *)

Lemma read_byte_Ok s i : 0 <= i < zlen s -> read_byte s i = Ok (byte_at s i).
Proof. intros. unfold read_byte. by rewrite (proj2 (Z.leb_le 0 i)), (proj2 (Z.ltb_lt i _)) by lia. Qed.

(** Extending a match to the left. *)
Lemma slice_cons_left (s : bytes) off len :
  0 < off <= zlen s -> 0 <= len -> slice s (off - 1) (len + 1) = byte_at s (off - 1) :: slice s off len.
Proof.
  intros. rewrite slice_extend_left by lia. by rewrite slice_byte by lia.
Qed.

Lemma extend_backwards_spec fuel a b pending apos bpos delta :
  0 <= pending <= bpos -> 0 <= apos -> 0 <= MATCH_BLOCKSIZE + delta ->
  apos + (MATCH_BLOCKSIZE + delta) <= zlen a -> bpos + (MATCH_BLOCKSIZE + delta) <= zlen b ->
  slice a apos (MATCH_BLOCKSIZE + delta) = slice b bpos (MATCH_BLOCKSIZE + delta) ->
  apos <= Z.of_nat fuel ->
  exists k, 0 <= k <= apos /\ pending <= bpos - k /\
    extend_backwards fuel a b pending apos bpos delta = Ok (apos - k, bpos - k, delta + k) /\
    slice a (apos - k) (MATCH_BLOCKSIZE + (delta + k)) =
      slice b (bpos - k) (MATCH_BLOCKSIZE + (delta + k)).
Proof.
  intros Hpb. revert apos bpos delta Hpb.
  induction fuel as [|f IH]; intros apos bpos delta Hpb Ha Hd Hla Hlb Heq Hf; cbn [extend_backwards].
  - destruct (Z.ltb_spec 0 apos); [lia|]. exists 0. rewrite !Z.sub_0_r, Z.add_0_r. auto with lia.
  - destruct (Z.ltb_spec 0 apos) as [H0|H0]; cbn [andb];
      [|exists 0; rewrite !Z.sub_0_r, Z.add_0_r; auto with lia].
    destruct (Z.ltb_spec pending bpos) as [H1|H1];
      [|exists 0; rewrite !Z.sub_0_r, Z.add_0_r; auto with lia].
    rewrite !read_byte_Ok by lia. cbn [mbind result_bind].
    destruct (Z.eqb_spec (byte_at a (apos - 1)) (byte_at b (bpos - 1))) as [E|E];
      [|exists 0; rewrite !Z.sub_0_r, Z.add_0_r; auto with lia].
    destruct (IH (apos - 1) (bpos - 1) (delta + 1)) as (k & Hk1 & Hk2 & -> & Hk3); [lia..| |lia|].
    { rewrite Z.add_assoc, !slice_cons_left by lia. by rewrite E, Heq. }
    exists (k + 1). replace (apos - (k + 1)) with (apos - 1 - k) by lia.
    replace (bpos - (k + 1)) with (bpos - 1 - k) by lia.
    replace (delta + (k + 1)) with (delta + 1 + k) by lia. auto with lia.
Qed.

(** No match, or a common part of both buffers that covers the block at
    [bpos] and does not reach over what is pending. *)
Lemma find_match_spec bl rolling a b bpos pending :
  table_ok a bl -> has_free bl -> 0 <= pending <= bpos -> bpos + MATCH_BLOCKSIZE <= zlen b ->
  exists matchlen lo apos,
    find_match bl rolling a (zlen a) b (zlen b) bpos pending = Ok (matchlen, lo, apos) /\
    ((matchlen = 0 /\ lo = bpos) \/
     (pending <= lo <= bpos /\ bpos + MATCH_BLOCKSIZE <= lo + matchlen <= zlen b /\
      0 <= apos /\ apos + matchlen <= zlen a /\ slice a apos matchlen = slice b lo matchlen)).
Proof.
  intros Hok Hfree Hp Hb. unfold find_match.
  destruct (find_block_spec a bl Hok rolling b bpos Hfree) as (p & -> & Hp1 & _); [lia|done|].
  cbn [mbind result_bind]. destruct (Z.eqb_spec p NO_POSITION) as [E|E].
  { exists 0, bpos, 0. auto. }
  destruct (Hp1 E) as (H1 & H2 & H3).
  set (max_delta := if _ <? _ then _ else _).
  assert (max_delta = Z.min (zlen a - p - MATCH_BLOCKSIZE) (zlen b - bpos - MATCH_BLOCKSIZE)) as Hm.
  { unfold max_delta. destruct (Z.ltb_spec (zlen a - p - MATCH_BLOCKSIZE) (zlen b - bpos - MATCH_BLOCKSIZE)); lia. }
  clearbody max_delta.
  destruct (match_length_spec (drop (Z.to_nat (p + MATCH_BLOCKSIZE)) a)
              (drop (Z.to_nat (bpos + MATCH_BLOCKSIZE)) b) max_delta) as (Hd1 & Hd2 & _);
    [lia|rewrite zlen_drop; unfold MATCH_BLOCKSIZE in *; lia..|].
  set (delta := svn_cstring__match_length _ _ _) in *.
  rewrite !slice_drop in Hd2 by (unfold MATCH_BLOCKSIZE in *; lia).
  rewrite !Z.add_0_r in Hd2.
  destruct (extend_backwards_spec (length a) a b pending p bpos delta) as (k & Hk1 & Hk2 & -> & Hk3).
  { done. } { done. } { unfold MATCH_BLOCKSIZE in *; lia. } { lia. } { lia. }
  { rewrite <- !slice_app by (unfold MATCH_BLOCKSIZE in *; lia). by rewrite H3, Hd2. }
  { unfold zlen, MATCH_BLOCKSIZE in *. lia. }
  cbn [mbind result_bind]. eexists _, _, _. split; [done|]. right.
  split_and!; [lia..|done].
Qed.

(** ** The main loop *)

Lemma skip_loop_spec fuel a bl b upper rolling lo :
  table_ok a bl -> 0 <= lo <= upper -> upper + MATCH_BLOCKSIZE <= zlen b ->
  upper - lo <= Z.of_nat fuel ->
  exists rolling' lo', skip_loop fuel bl b upper rolling lo = Ok (rolling', lo') /\
    lo <= lo' <= upper.
Proof.
  intros Hok. revert rolling lo.
  induction fuel as [|f IH]; intros rolling lo Hlo Hup Hf; cbn [skip_loop];
    (destruct (lookup_lt_is_Some_2 (bl_flags bl) (Z.to_nat (hash_flags rolling))) as [byte ->];
      [pose proof (hash_flags_range rolling); pose proof (table_flags a bl Hok);
       unfold zlen in *; lia|]);
    destruct (_ =? 0); cbn [andb]; try (exists rolling, lo; split; [done|lia]);
    destruct (Z.ltb_spec lo upper); try (exists rolling, lo; split; [done|lia]); [lia|].
  rewrite !read_byte_Ok by (unfold MATCH_BLOCKSIZE in *; lia). cbn [mbind result_bind].
  destruct (IH (adler32_replace rolling (byte_at b lo) (byte_at b (lo + MATCH_BLOCKSIZE))) (lo + 1))
    as (r & l & -> & Hl); [lia..|]. exists r, l. split; [done|lia].
Qed.

(** The builder describes the start of the target that is settled. *)
Record delta_inv (a b : bytes) (st : delta_state) : Prop := mk_delta_inv {
  di_baton : baton_ok (zlen a) (ds_baton st);
  di_sem : baton_sem a (ds_baton st) = slice b 0 (ds_pending_insert_start st);
  di_pending : 0 <= ds_pending_insert_start st <= ds_lo st;
  di_lo : ds_lo st <= zlen b
}.

(** Inserting part of the target as new data. *)
Lemma insert_new_spec a b baton pending len offset :
  baton_ok (zlen a) baton -> baton_sem a baton = slice b 0 pending ->
  0 <= pending -> 0 < len -> pending + len <= zlen b ->
  exists baton', svn_txdelta__insert_op baton svn_txdelta_new offset len
      (drop (Z.to_nat pending) b) = Ok baton' /\
    baton_ok (zlen a) baton' /\ baton_sem a baton' = slice b 0 (pending + len).
Proof.
  intros Hb Hsem Hp Hl Hle.
  destruct (insert_op_spec a (zlen a) baton svn_txdelta_new offset len (drop (Z.to_nat pending) b))
    as (baton' & -> & Hb' & _ & Hsem'); [done|lia| |].
  { split; [done|]. rewrite zlen_drop; lia. }
  exists baton'. split_and!; [done..|]. rewrite Hsem', Hsem. unfold added_sem.
  rewrite slice_drop, Z.add_0_r by lia. rewrite <- (slice_app _ 0 pending) by lia. done.
Qed.

(** Copying a part of the source that the target continues with. *)
Lemma insert_source_spec a b baton lo apos len :
  baton_ok (zlen a) baton -> baton_sem a baton = slice b 0 lo ->
  0 <= lo -> 0 < len -> 0 <= apos -> apos + len <= zlen a -> lo + len <= zlen b ->
  slice a apos len = slice b lo len ->
  exists baton', svn_txdelta__insert_op baton svn_txdelta_source apos len [] = Ok baton' /\
    baton_ok (zlen a) baton' /\ baton_sem a baton' = slice b 0 (lo + len).
Proof.
  intros Hb Hsem Hlo Hl Ha Hla Hlb Heq.
  destruct (insert_op_spec a (zlen a) baton svn_txdelta_source apos len [])
    as (baton' & -> & Hb' & _ & Hsem'); [done|lia|split; [done|lia]|].
  exists baton'. split_and!; [done..|]. rewrite Hsem', Hsem. unfold added_sem.
  rewrite Heq. by rewrite <- (slice_app _ 0 lo) by lia.
Qed.

(** The end of two equal slices. *)
Lemma slice_tail_eq (a b : bytes) i j r k :
  0 <= k <= r -> 0 <= i -> 0 <= j ->
  slice a i r = slice b j r -> slice a (i + (r - k)) k = slice b (j + (r - k)) k.
Proof.
  intros Hk Hi Hj H. rewrite <- (slice_slice a i r), <- (slice_slice b j r) by lia. by rewrite H.
Qed.

Lemma improve_match_spec a b baton apos matchlen lo :
  baton_ok (zlen a) baton -> baton_sem a baton = slice b 0 lo ->
  0 <= lo -> 0 < matchlen -> 0 <= apos -> apos + matchlen <= zlen a -> lo + matchlen <= zlen b ->
  slice a apos matchlen = slice b lo matchlen ->
  exists baton' k, improve_match baton a b apos matchlen lo = (baton', apos - k, matchlen + k, lo - k) /\
    0 <= k <= apos /\ k <= lo /\
    baton_ok (zlen a) baton' /\ baton_sem a baton' = slice b 0 (lo - k) /\
    slice a (apos - k) (matchlen + k) = slice b (lo - k) (matchlen + k).
Proof.
  intros Hb Hsem Hlo Hm Ha Hla Hlb Heq. unfold improve_match.
  set (max_len := if apos <? lo then apos else lo).
  assert (max_len = Z.min apos lo) as Hml by (unfold max_len; destruct (Z.ltb_spec apos lo); lia).
  clearbody max_len.
  destruct (reverse_match_length_spec (slice a 0 apos) (slice b 0 lo) max_len) as [Hr Hreq];
    [lia|rewrite zlen_slice; lia..|].
  set (r := svn_cstring__reverse_match_length _ _ _) in *. clearbody r.
  rewrite !zlen_slice, !slice_slice, !Z.add_0_l in Hreq by lia.
  destruct (Z.ltb_spec 0 r).
  - destruct (svn_txdelta__remove_copy baton r) as [baton' k] eqn:E.
    apply (remove_copy_spec a (zlen a)) in E as (Hk & Hb' & u & Hu & Hzu); [|done|lia|lia].
    exists baton', k. split_and!; try done; try lia.
    + assert (zlen (baton_sem a baton') = lo - k) as Hz.
      { pose proof (f_equal zlen Hu) as Hl. rewrite Hsem, zlen_slice, zlen_app in Hl by lia. lia. }
      rewrite Hsem in Hu. rewrite <- (slice_full (baton_sem a baton')), Hz.
      rewrite <- (slice_prefix _ u) by lia. rewrite <- Hu. apply slice_slice; lia.
    + rewrite !slice_extend_left by lia. f_equal; [|done].
      pose proof (slice_tail_eq a b (apos - r) (lo - r) r k) as Ht.
      replace (apos - k) with (apos - r + (r - k)) by lia.
      replace (lo - k) with (lo - r + (r - k)) by lia. apply Ht; [lia..|done].
  - exists baton, 0. rewrite !Z.sub_0_r, Z.add_0_r. split_and!; (done || lia).
Qed.

Lemma delta_step_spec bl a b st :
  table_ok a bl -> has_free bl -> delta_inv a b st -> ds_lo st < zlen b - MATCH_BLOCKSIZE ->
  exists st', delta_step bl a (zlen a) b (zlen b) (zlen b - MATCH_BLOCKSIZE) st = Ok st' /\
    delta_inv a b st' /\ ds_lo st < ds_lo st'.
Proof.
  destruct st as [baton rolling lo pending]. intros Hok Hfree [Hb Hsem Hp Hlo] Hlt. simpl in *.
  unfold delta_step.
  destruct (skip_loop_spec (length b) a bl b (zlen b - MATCH_BLOCKSIZE) rolling lo)
    as (rolling1 & lo1 & -> & Hlo1);
    [done|lia|lia|unfold zlen, MATCH_BLOCKSIZE in *; lia|]. cbn [mbind result_bind].
  destruct (find_match_spec bl rolling1 a b lo1 pending)
    as (matchlen & lo2 & apos & -> & Hcases); [done|done|lia|lia|].
  cbn [mbind result_bind].
  destruct Hcases as [[-> ->]|(H1 & H2 & H3 & H4 & H5)].
  - rewrite Z.eqb_refl.
    set (roll := if _ <? _ then _ else _). assert (exists r, roll = Ok r) as [r ->].
    { unfold roll. destruct (Z.ltb_spec (lo1 + MATCH_BLOCKSIZE) (zlen b)); [|eauto].
      rewrite !read_byte_Ok by (unfold MATCH_BLOCKSIZE in *; lia). cbn [mbind result_bind]. eauto. }
    eexists. split; [done|]. split; [split|]; simpl; try done; unfold MATCH_BLOCKSIZE in *; lia.
  - destruct (Z.eqb_spec matchlen 0); [unfold MATCH_BLOCKSIZE in *; lia|].
    set (prep := if _ <? _ then _ else _).
    assert (exists baton' apos' matchlen' lo', prep = Ok (baton', apos', matchlen', lo') /\
      baton_ok (zlen a) baton' /\ baton_sem a baton' = slice b 0 lo' /\ 0 <= lo' /\
      0 < matchlen' /\ 0 <= apos' /\ apos' + matchlen' <= zlen a /\
      lo' + matchlen' = lo2 + matchlen /\ slice a apos' matchlen' = slice b lo' matchlen')
      as (baton' & apos' & matchlen' & lo' & -> & Hb' & Hsem' & G1 & G2 & G3 & G4 & G5 & G6).
    { unfold prep. destruct (Z.ltb_spec 0 (lo2 - pending)).
      - destruct (insert_new_spec a b baton pending (lo2 - pending) 0)
          as (baton' & -> & Hb' & Hsem'); [done|done|lia|lia|unfold MATCH_BLOCKSIZE in *; lia|].
        cbn [mbind result_bind]. exists baton', apos, matchlen, lo2.
        replace (pending + (lo2 - pending)) with lo2 in Hsem' by lia.
        unfold MATCH_BLOCKSIZE in *. split_and!; try done; lia.
      - assert (pending = lo2) as -> by lia.
        destruct (improve_match_spec a b baton apos matchlen lo2)
          as (baton' & k & -> & Hk & Hk' & Hb' & Hsem' & Heq);
          [done|done|unfold MATCH_BLOCKSIZE in *; lia..|done|].
        eexists _, _, _, _. split; [done|]. split_and!; try done; unfold MATCH_BLOCKSIZE in *; lia. }
    cbn [mbind result_bind].
    destruct (insert_source_spec a b baton' lo' apos' matchlen')
      as (baton'' & -> & Hb'' & Hsem''); [done..|lia|done|]. cbn [mbind result_bind].
    set (roll := if _ <=? _ then _ else _). assert (exists r, roll = Ok r) as [r ->].
    { unfold roll. destruct (Z.leb_spec (lo' + matchlen' + MATCH_BLOCKSIZE) (zlen b)); [|eauto].
      rewrite init_adler32_Ok by lia. eauto. }
    eexists. split; [done|]. split; [split|]; simpl; try done; unfold MATCH_BLOCKSIZE in *; lia.
Qed.

Lemma delta_loop_spec fuel bl a b st :
  table_ok a bl -> has_free bl -> delta_inv a b st -> zlen b - ds_lo st <= Z.of_nat fuel ->
  exists st', delta_loop fuel bl a (zlen a) b (zlen b) (zlen b - MATCH_BLOCKSIZE) st = Ok st' /\
    delta_inv a b st'.
Proof.
  intros Hok Hfree. revert st. induction fuel as [|f IH]; intros st Hinv Hf; cbn [delta_loop];
    destruct (Z.ltb_spec (ds_lo st) (zlen b - MATCH_BLOCKSIZE)) as [H|H]; try (by exists st).
  { unfold MATCH_BLOCKSIZE in *. lia. }
  destruct (delta_step_spec bl a b st Hok Hfree Hinv H) as (st' & -> & Hinv' & Hlt).
  cbn [mbind result_bind]. apply IH; [done|lia].
Qed.

Lemma store_delta_trailer_spec a b baton start :
  baton_ok (zlen a) baton -> baton_sem a baton = slice b 0 start ->
  0 <= start <= zlen b -> 0 < zlen a ->
  exists baton', store_delta_trailer baton a (zlen a) b (zlen b) start = Ok baton' /\
    baton_ok (zlen a) baton' /\ baton_sem a baton' = b.
Proof.
  intros Hb Hsem Hs Ha. unfold store_delta_trailer.
  set (max_len := if zlen b - start <? zlen a then zlen b - start else zlen a).
  assert (max_len = Z.min (zlen b - start) (zlen a)) as Hml.
  { unfold max_len. destruct (Z.ltb_spec (zlen b - start) (zlen a)); lia. }
  clearbody max_len. rewrite !slice_full.
  destruct (Z.eqb_spec max_len 0) as [E|E].
  { exists baton. split_and!; [done..|]. rewrite Hsem.
    replace start with (zlen b) by lia. apply slice_full. }
  destruct (reverse_match_length_spec a b max_len) as [Hr Hreq]; [lia..|].
  set (r := svn_cstring__reverse_match_length _ _ _) in *. clearbody r.
  assert (exists e, (if r <=? 4 then 0 else r) = e /\ 0 <= e <= max_len /\
    slice a (zlen a - e) e = slice b (zlen b - e) e) as (e & -> & He & Heq).
  { destruct (Z.leb_spec r 4); [exists 0|exists r]; split_and!; (done || lia). }
  set (prep := if e <? _ then _ else _).
  assert (exists baton', prep = Ok baton' /\ baton_ok (zlen a) baton' /\
    baton_sem a baton' = slice b 0 (zlen b - e)) as (baton' & -> & Hb' & Hsem').
  { unfold prep. destruct (Z.ltb_spec e (zlen b - start)).
    - destruct (insert_new_spec a b baton start (zlen b - start - e) start)
        as (baton' & -> & Hb' & Hsem'); [done|done|lia..|].
      exists baton'. split_and!; [done..|]. rewrite Hsem'. f_equal. lia.
    - exists baton. split_and!; [done..|]. rewrite Hsem. f_equal. lia. }
  cbn [mbind result_bind].
  destruct (Z.eqb_spec e 0) as [->|He0]; cbn [negb].
  - exists baton'. split_and!; [done..|]. by rewrite Hsem', Z.sub_0_r, slice_full.
  - destruct (insert_source_spec a b baton' (zlen b - e) (zlen a - e) e)
      as (b2 & -> & Hb2 & Hsem2); [done|done|lia..|done|].
    exists b2. split_and!; [done..|]. rewrite Hsem2.
    replace (zlen b - e + e) with (zlen b) by lia. apply slice_full.
Qed.

(** The delta from [a] to [b] describes [b]. *)
Lemma compute_delta_spec a b :
  0 < zlen a < 2 ^ 31 -> 0 < zlen b ->
  exists baton, compute_delta empty_ops_baton a (zlen a) b (zlen b) = Ok baton /\
    baton_ok (zlen a) baton /\ baton_sem a baton = b.
Proof.
  intros Ha Hb. unfold compute_delta.
  set (max_len := if zlen b <? zlen a then zlen b else zlen a).
  assert (max_len = Z.min (zlen a) (zlen b)) as Hml.
  { unfold max_len. destruct (Z.ltb_spec (zlen b) (zlen a)); lia. }
  clearbody max_len.
  destruct (match_length_spec a b max_len) as (Hl1 & Hl2 & _); [lia..|].
  set (lo := svn_cstring__match_length a b max_len) in *. clearbody lo.
  set (prep := if _ || _ then _ else _).
  assert (exists baton lo', prep = Ok (baton, lo', lo') /\ baton_ok (zlen a) baton /\
    baton_sem a baton = slice b 0 lo' /\ 0 <= lo' <= zlen b) as (baton & lo' & -> & Hb' & Hsem & Hlo).
  { unfold prep. destruct ((4 <? lo) || (lo =? zlen b)) eqn:E.
    - destruct (insert_source_spec a b empty_ops_baton 0 0 lo) as (baton & -> & Hb' & Hsem);
        [apply empty_baton_ok|done|lia..|done|].
      exists baton, lo. split_and!; [done..|lia|lia].
    - exists empty_ops_baton, 0. split_and!; [done|apply empty_baton_ok|done|lia..]. }
  cbn [mbind result_bind].
  destruct ((zlen b - lo' <? MATCH_BLOCKSIZE) || (zlen a <? MATCH_BLOCKSIZE)) eqn:E.
  { apply store_delta_trailer_spec; [done|done|lia..]. }
  apply orb_false_iff in E as [E1 E2].
  destruct (init_blocks_table_spec a) as (bl & -> & Hok & Hfree & _); [lia|]. cbn [mbind result_bind].
  rewrite init_adler32_Ok by lia. cbn [mbind result_bind].
  destruct (delta_loop_spec (length b) bl a b
    (mk_delta_state baton (adler_block (slice b lo' MATCH_BLOCKSIZE)) lo' lo'))
    as (st & -> & [Hb2 Hsem2 Hp2 Hlo2]); [done|done|split; simpl; [done..|lia|lia]|simpl; unfold zlen; lia|].
  cbn [mbind result_bind]. apply store_delta_trailer_spec; [done|done|lia..].
Qed.

(** ** The count of copies from the source *)

Lemma store_delta_trailer_counted b a asize t bsize start b' :
  store_delta_trailer b a asize t bsize start = Ok b' -> sources_counted b -> sources_counted b'.
Proof.
  unfold store_delta_trailer. intros E Hb. destruct (_ =? 0); [by injection E as <-|].
  apply bind_Ok in E as (b1 & E1 & E2).
  assert (sources_counted b1) as Hb1.
  { destruct (_ <? _) in E1; [by eapply insert_op_counted|by injection E1 as <-]. }
  destruct (negb _); [by eapply insert_op_counted|by injection E2 as <-].
Qed.

Lemma delta_step_counted bl a asize b bsize upper st st' :
  delta_step bl a asize b bsize upper st = Ok st' ->
  sources_counted (ds_baton st) -> sources_counted (ds_baton st').
Proof.
  destruct st as [baton rolling lo pending]. unfold delta_step. intros E Hb. simpl in Hb.
  apply bind_Ok in E as ([rolling1 lo1] & _ & E).
  apply bind_Ok in E as ([[matchlen lo2] apos] & _ & E).
  destruct (matchlen =? 0).
  { apply bind_Ok in E as (r & _ & E). by injection E as <-. }
  apply bind_Ok in E as ([[[baton1 apos1] matchlen1] lo3] & E1 & E).
  apply bind_Ok in E as (baton2 & E2 & E). apply bind_Ok in E as (r & _ & E). injection E as <-.
  simpl. eapply insert_op_counted; [exact E2|]. destruct (0 <? lo2 - pending).
  - apply bind_Ok in E1 as (b1 & E1 & E3). injection E3 as <- _ _ _. by eapply insert_op_counted.
  - injection E1 as E1. unfold improve_match in E1. destruct (0 <? _); [|by injection E1 as <- _ _ _].
    destruct (svn_txdelta__remove_copy _ _) as [b1 l1] eqn:Er. injection E1 as <- _ _ _.
    by eapply remove_copy_counted.
Qed.

Lemma delta_loop_counted fuel bl a asize b bsize upper st st' :
  delta_loop fuel bl a asize b bsize upper st = Ok st' ->
  sources_counted (ds_baton st) -> sources_counted (ds_baton st').
Proof.
  revert st. induction fuel as [|f IH]; intros st; cbn [delta_loop].
  - destruct (_ <? _); [done|]. by intros [= <-].
  - destruct (_ <? _); [|by intros [= <-]]. intros E Hb. apply bind_Ok in E as (st1 & E1 & E2).
    eapply IH; [exact E2|]. by eapply delta_step_counted.
Qed.

Lemma compute_delta_counted baton a asize b bsize baton' :
  compute_delta baton a asize b bsize = Ok baton' ->
  sources_counted baton -> sources_counted baton'.
Proof.
  unfold compute_delta. intros E Hb. apply bind_Ok in E as ([[b1 lo] pending] & E1 & E).
  assert (sources_counted b1) as Hb1.
  { destruct (_ || _) in E1; [|by injection E1 as <- _ _].
    apply bind_Ok in E1 as (b2 & E1 & E2). injection E2 as <- _ _. by eapply insert_op_counted. }
  destruct (_ || _) in E; [by eapply store_delta_trailer_counted|].
  apply bind_Ok in E as (bl & _ & E). apply bind_Ok in E as (r & _ & E).
  apply bind_Ok in E as (st & E2 & E). eapply store_delta_trailer_counted; [exact E|].
  eapply delta_loop_counted; [exact E2|done].
Qed.

(** A window that [compute_window] makes is valid and describes the target. *)
Lemma compute_window_spec source target offset :
  zlen source < 2 ^ 31 -> 0 < zlen target < 2 ^ 31 -> 0 <= offset < SIZE_BOUND ->
  exists w, compute_window (source ++ target) (zlen source) (zlen target) offset = Ok w /\
    window_ok w /\ sview_offset w = offset /\ sview_len w = zlen source /\
    tview_len w = zlen target /\ window_sem w source = target /\ window_built w.
Proof.
  intros Hs Ht Ho. unfold compute_window. pose proof (zlen_nonneg source).
  set (prep := if _ =? 0 then _ else _).
  assert (exists baton, prep = Ok baton /\ baton_ok (zlen source) baton /\
    baton_sem source baton = target /\ sources_counted baton) as (baton & -> & Hb & Hsem & Hc).
  { unfold prep. destruct (Z.eqb_spec (zlen source) 0) as [E|E].
    - apply zlen_zero in E as ->. simpl app.
      destruct (insert_new_spec [] target empty_ops_baton 0 (zlen target) 0)
        as (baton & Hi & Hb & Hsem); [apply empty_baton_ok|done|lia..|].
      rewrite drop_0 in Hi. rewrite Hi. exists baton. split_and!; [done..| |].
      + rewrite Hsem. apply slice_full.
      + by eapply insert_op_counted.
    - unfold svn_txdelta__xdelta. rewrite (proj2 (Z.eqb_neq _ _)) by done. cbn [negb c_assert mbind result_bind].
      rewrite slice_prefix, slice_full, slice_suffix, take_ge by (unfold zlen; lia).
      destruct (compute_delta_spec source target) as (baton & Hd & Hb & Hsem); [lia..|].
      exists baton. split_and!; [done..|]. by eapply compute_delta_counted. }
  cbn [mbind result_bind]. eexists. split; [done|].
  pose proof Hb as [Hops Hnews Hlen].
  pose proof (baton_sem_zlen source _ _ Hb ltac:(lia)) as Hz. rewrite Hsem in Hz.
  assert (zlen (b_new_data baton) <= ops_len (b_ops baton)) as Hnl.
  { rewrite <- Hlen. by eapply new_len_le_ops_len. }
  split; [|split_and!; [done..|]; by eapply make_window_built].
  unfold window_ok, SIZE_BOUND in *. simpl. split_and!; try done; lia.
Qed.
