(* ===== verification/DeltaStreamFacts.v ===== *)
(** * Streams of windows

    [apply_window] on windows whose source views slide forward over the source
    without leaving gaps; that the windows of [svn_txdelta_run] are of this
    kind; and that pushing the target in pieces gives the same windows. *)

From S2P Require Import Prelude Buffers Delta DeltaFacts Xdelta XdeltaFacts.

(** ** The source view *)

(** Only the source view matters. *)
Lemma ops_sem_src_prefix src src' new t ops slen nlen tpos :
  ops_ok slen nlen tpos ops -> 0 <= slen -> slice src 0 slen = slice src' 0 slen ->
  ops_sem src new t ops = ops_sem src' new t ops.
Proof.
  intros Hok Hs Heq. revert t tpos Hok.
  induction ops as [|op ops IH]; intros t tpos; simpl; [done|]. intros [(H1 & H2 & H) Hok].
  assert (op_sem src new t op = op_sem src' new t op) as ->; [|by eapply IH].
  unfold op_sem. destruct (action_code op); [|done..].
  f_equal. rewrite <- (Z.add_0_l (op_offset op)).
  rewrite <- !(slice_slice _ 0 slen) by lia. by rewrite Heq.
Qed.

Lemma window_sem_src_prefix w src src' :
  window_ok w -> slice src 0 (sview_len w) = slice src' 0 (sview_len w) ->
  window_sem w src = window_sem w src'.
Proof. intros (Hok & _ & _ & ? & _) Heq. eapply ops_sem_src_prefix; [done|lia|done]. Qed.

(** Without a source view there is nothing to copy from it. *)
Lemma apply_loop_no_source w tlen ops tpos tbuf nlen :
  ops_ok 0 nlen tpos ops -> 0 <= tpos -> tpos + ops_len ops < 2 ^ 64 ->
  apply_loop w None tlen ops tpos tbuf = apply_loop w (Some []) tlen ops tpos tbuf.
Proof.
  revert tpos tbuf. induction ops as [|op ops IH]; intros tpos tbuf; simpl; [done|].
  intros [(H1 & H2 & H) Hok] Hp Hl. pose proof (ops_ok_len_nonneg _ _ _ _ Hok).
  destruct (c_assert _) as [[]|]; [|done]. simpl. unfold apply_op.
  destruct (action_code op) eqn:E; [lia| |];
    (match goal with |- ?x ≫= _ = ?x ≫= _ => destruct x; [|done] end); simpl;
    (case_match; [done|]); (rewrite u64_small by lia); apply IH; (done || lia).
Qed.

Lemma apply_instructions_no_source w tlen :
  window_ok w -> sview_len w = 0 ->
  svn_txdelta_apply_instructions w None tlen = svn_txdelta_apply_instructions w (Some []) tlen.
Proof.
  intros (Hok & Hl & _ & _ & Ht & _) Hs. unfold svn_txdelta_apply_instructions, SIZE_BOUND in *.
  case_match; [done|]. rewrite Hs in Hok. eapply apply_loop_no_source; [done|lia|lia].
Qed.

(** ** Buffers that grow *)

Lemma size_buffer_spec size len :
  0 <= size -> 0 <= len < SIZE_BOUND -> size < 2 ^ 63 ->
  exists size', size_buffer size len = Ok size' /\ size <= size' /\ len <= size' < 2 ^ 63.
Proof.
  unfold SIZE_BOUND. intros Hs Hl Hb. unfold size_buffer. destruct (Z.ltb_spec size len); [|eauto with lia].
  rewrite u64_small by lia.
  set (size' := if size * 2 <? len then len else size * 2).
  assert (size <= size' /\ len <= size' < 2 ^ 63) as Hs'.
  { unfold size'. destruct (Z.ltb_spec (size * 2) len); lia. }
  rewrite svn_err_assert_true by (apply Z.leb_le, align_default; lia).
  simpl. eauto.
Qed.

(** ** One window *)

(** The buffer of the handler is the part of the source [s] in front of what
    the stream still delivers. *)
Record source_inv (s : bytes) (ab : apply_baton) : Prop := mk_source_inv {
  si_offset : 0 <= ab_sbuf_offset ab;
  si_sbuf : ab_sbuf ab = slice s (ab_sbuf_offset ab) (zlen (ab_sbuf ab));
  si_end : ab_sbuf_offset ab + zlen (ab_sbuf ab) <= zlen s;
  si_source : ab_source ab = drop (Z.to_nat (ab_sbuf_offset ab + zlen (ab_sbuf ab))) s;
  si_size : zlen (ab_sbuf ab) <= ab_sbuf_size ab < 2 ^ 63;
  si_tsize : 0 <= ab_tbuf_size ab < 2 ^ 63
}.

(** Where the part of the source that has been read ends. *)
Definition read_end (ab : apply_baton) : Z := ab_sbuf_offset ab + zlen (ab_sbuf ab).

(** A window whose view slides forward without a gap. *)
Definition slides (s : bytes) (ab : apply_baton) (w : svn_txdelta_window_t) : Prop :=
  ab_sbuf_offset ab <= sview_offset w <= read_end ab /\
  (sview_len w = 0 \/ read_end ab <= sview_offset w + sview_len w) /\
  sview_offset w + sview_len w <= zlen s.

Lemma slide_sbuf_spec s ab w :
  source_inv s ab -> slides s ab w -> window_ok w -> zlen s < SIZE_BOUND ->
  exists size', slide_sbuf w ab =
      Ok (slice s (sview_offset w) (read_end ab - sview_offset w), size', sview_offset w) /\
    sview_len w <= size' < 2 ^ 63 /\ read_end ab - sview_offset w <= size'.
Proof.
  intros [Ho Hsb He Hsrc Hsz Ht] (Hs1 & Hs2 & Hs3) (_ & _ & Hw1 & Hw2 & _) Hb.
  unfold SIZE_BOUND, read_end in *. unfold slide_sbuf.
  destruct (negb _ || _) eqn:E.
  - destruct (size_buffer_spec (ab_sbuf_size ab) (sview_len w)) as (size' & -> & H1 & H2);
      [pose proof (zlen_nonneg (ab_sbuf ab)); lia|unfold SIZE_BOUND; lia|lia|]. simpl.
    pose proof (zlen_nonneg (ab_sbuf ab)).
    rewrite (u64_small (sview_offset w)), (u64_small (ab_sbuf_offset ab)) by lia.
    rewrite (u64_small (ab_sbuf_offset ab + _)), (u64_small (sview_offset w - _)) by lia.
    exists size'. split; [|lia].
    destruct (Z.ltb_spec (sview_offset w) (ab_sbuf_offset ab + zlen (ab_sbuf ab))) as [Hlt|Hge].
    + rewrite u64_small, memcpy_from_Ok by lia. simpl. do 3 f_equal. rewrite Hsb at 1.
      rewrite slice_slice by lia. f_equal; lia.
    + simpl. replace (ab_sbuf_offset ab + zlen (ab_sbuf ab) - sview_offset w) with 0 by lia. done.
  - apply orb_false_iff in E as [E1 E2]. apply negb_false_iff in E1.
    apply Z.eqb_eq in E1. apply Z.ltb_ge in E2.
    exists (ab_sbuf_size ab). split; [|lia].
    replace (ab_sbuf_offset ab + zlen (ab_sbuf ab) - sview_offset w) with (zlen (ab_sbuf ab)) by lia.
    by rewrite E1, <- Hsb.
Qed.

(** The buffer is filled to the end of the view, or to what it had already. *)
Lemma fill_sbuf_spec s off e w :
  0 <= off <= e -> e <= zlen s -> 0 <= sview_len w -> off + sview_len w <= zlen s ->
  let e' := Z.max e (off + sview_len w) in
  fill_sbuf w (slice s off (e - off)) (drop (Z.to_nat e) s) =
    Ok (slice s off (e' - off), drop (Z.to_nat e') s).
Proof.
  intros H1 H2 H3 H4 e'. unfold fill_sbuf, e'. rewrite zlen_slice by lia.
  destruct (Z.ltb_spec (e - off) (sview_len w)); [|by rewrite Z.max_l by lia].
  unfold svn_stream_read_full. set (missing := sview_len w - (e - off)).
  change (take (Z.to_nat missing) (drop (Z.to_nat e) s)) with (slice s e missing).
  rewrite zlen_slice by lia. rewrite Z.eqb_refl. cbn [negb].
  rewrite Z.max_r by lia. rewrite drop_drop. replace e with (off + (e - off)) at 2 by lia.
  rewrite slice_app by lia. repeat f_equal; lia.
Qed.

(** With more of the source than the view, or without a buffer if the view is
    empty, the instructions give the target view. *)
Lemma apply_full_window w s off len size :
  window_ok w -> 0 <= off -> sview_len w <= len -> off + len <= zlen s -> len <= size ->
  svn_txdelta_apply_instructions w (if size =? 0 then None else Some (slice s off len)) (tview_len w) =
    Ok (window_sem w (slice s off (sview_len w)), tview_len w).
Proof.
  intros Hw H1 H2 H3 H4. pose proof Hw as (Hok & Hlen & _ & Hs & _).
  pose proof (ops_ok_len_nonneg _ _ _ _ Hok).
  assert (window_sem w (slice s off (sview_len w)) = window_sem w (slice s off len)) as ->.
  { apply window_sem_src_prefix; [done|]. by rewrite !slice_slice by lia. }
  assert (zlen (slice s off len) = len) as Hz by (apply zlen_slice; lia).
  replace (svn_txdelta_apply_instructions w (if size =? 0 then None else Some (slice s off len)) (tview_len w))
    with (svn_txdelta_apply_instructions w (Some (slice s off len)) (tview_len w)).
  - rewrite apply_instructions_spec by (done || lia).
    rewrite <- (window_sem_zlen w (slice s off len)) by (done || lia).
    by rewrite slice_full, Z.min_id.
  - destruct (Z.eqb_spec size 0); [|done]. rewrite apply_instructions_no_source by (done || lia).
    by rewrite (zlen_zero (slice s off len)) by lia.
Qed.

(** [apply_window] writes the target view and keeps its buffer in step. *)
Lemma apply_window_spec s ab w :
  source_inv s ab -> slides s ab w -> window_ok w -> zlen s < SIZE_BOUND ->
  exists ab', apply_window (Some w) ab = Ok ab' /\ source_inv s ab' /\
    ab_target ab' = ab_target ab ++ window_sem w (slice s (sview_offset w) (sview_len w)) /\
    ab_sbuf_offset ab' = sview_offset w /\
    read_end ab' = Z.max (read_end ab) (sview_offset w + sview_len w).
Proof.
  intros Hinv Hsl Hw Hb. pose proof Hinv as [Ho Hsb He Hsrc Hsz Ht].
  pose proof Hsl as (Hs1 & Hs2 & Hs3). pose proof Hw as (Hok & Hlen & Hw1 & Hw2 & Hw3 & Hw4).
  pose proof (ops_ok_len_nonneg _ _ _ _ Hok).
  unfold apply_window. rewrite svn_err_assert_true.
  2: { unfold read_end, SIZE_BOUND in *. apply orb_true_iff. destruct Hs2; [left; lia|right].
       pose proof (zlen_nonneg (ab_sbuf ab)). rewrite !u64_small by lia. apply andb_true_iff. lia. }
  simpl. destruct (size_buffer_spec (ab_tbuf_size ab) (tview_len w)) as (tsize & -> & Hts1 & Hts2);
    [lia..|]. simpl.
  destruct (slide_sbuf_spec s ab w Hinv Hsl Hw Hb) as (size' & -> & Hsz1 & Hsz2). simpl.
  rewrite Hsrc. fold (read_end ab) in *. rewrite fill_sbuf_spec by lia. simpl.
  set (end' := Z.max (read_end ab) (sview_offset w + sview_len w)).
  rewrite apply_full_window by (done || lia).
  simpl. rewrite svn_err_assert_true by apply Z.eqb_refl. simpl. eexists. split; [done|].
  assert (zlen (slice s (sview_offset w) (end' - sview_offset w)) = end' - sview_offset w) as Hz
    by (rewrite zlen_slice; lia).
  unfold read_end at 1. simpl. rewrite Hz.
  split_and!; [split; simpl; rewrite ?Hz; try done|done|done|lia]; try lia.
  do 2 f_equal; lia.
Qed.

(** ** Running a delta *)

(** The windows that are still to come and the handler that applies them. *)
Record run_inv (s t : bytes) (tb : txdelta_baton) (ab : apply_baton) (pos tpos : Z) : Prop :=
  mk_run_inv {
  ri_source : td_source tb = drop (Z.to_nat pos) s;
  ri_more : td_more_source tb = false -> pos = zlen s;
  ri_pos : td_pos tb = pos;
  ri_target : td_target tb = drop (Z.to_nat tpos) t;
  ri_range : 0 <= tpos <= zlen t;
  ri_apply : source_inv s ab;
  ri_end : read_end ab = pos;
  ri_written : ab_target ab = slice t 0 tpos
}.

(** Reading up to one window from a stream. *)
Lemma read_window_spec (l : bytes) p :
  0 <= p <= zlen l ->
  let n := Z.min SVN_DELTA_WINDOW_SIZE (zlen l - p) in
  svn_stream_read_full (drop (Z.to_nat p) l) SVN_DELTA_WINDOW_SIZE =
    (slice l p n, drop (Z.to_nat (p + n)) l).
Proof.
  intros Hp n. unfold svn_stream_read_full, slice, n, zlen, SVN_DELTA_WINDOW_SIZE in *.
  rewrite drop_drop. destruct (Z.leb_spec 102400 (Z.of_nat (length l) - p)) as [H|H].
  - rewrite Z.min_l by lia. do 2 f_equal. lia.
  - rewrite Z.min_r by lia. rewrite !take_ge by (rewrite length_drop; lia).
    f_equal. by rewrite !drop_ge by lia.
Qed.

(** The next window: what is left of the target, up to the window size. *)
Lemma next_window_spec s t tb ab pos tpos :
  run_inv s t tb ab pos tpos -> zlen s < SIZE_BOUND -> tpos < zlen t ->
  let slen := if td_more_source tb then Z.min SVN_DELTA_WINDOW_SIZE (zlen s - pos) else 0 in
  let tlen := Z.min SVN_DELTA_WINDOW_SIZE (zlen t - tpos) in
  exists w tb', txdelta_next_window tb = Ok (Some w, tb') /\
    window_ok w /\ window_built w /\ sview_offset w = pos /\ sview_len w = slen /\
    tview_len w = tlen /\ window_sem w (slice s pos slen) = slice t tpos tlen /\
    td_source tb' = drop (Z.to_nat (pos + slen)) s /\ td_pos tb' = pos + slen /\
    td_target tb' = drop (Z.to_nat (tpos + tlen)) t /\
    (td_more_source tb' = false -> pos + slen = zlen s).
Proof.
  intros [Hsrc Hmore Hpos Htgt Hr [Ho _ He _ _ _] Hend Hwr] Hb Hlt slen tlen.
  pose proof (zlen_nonneg (ab_sbuf ab)). unfold read_end in Hend.
  assert (0 <= slen <= SVN_DELTA_WINDOW_SIZE /\ slen <= zlen s - pos) as Hsl.
  { unfold slen, SVN_DELTA_WINDOW_SIZE. destruct (td_more_source tb); lia. }
  assert (0 < tlen <= SVN_DELTA_WINDOW_SIZE /\ tlen <= zlen t - tpos) as Htl
    by (unfold tlen, SVN_DELTA_WINDOW_SIZE; lia).
  assert (zlen (slice s pos slen) = slen) as Hzs by (apply zlen_slice; lia).
  assert (zlen (slice t tpos tlen) = tlen) as Hzt by (apply zlen_slice; lia).
  unfold txdelta_next_window. set (read := if td_more_source tb then _ else _).
  assert (exists more, read = (slice s pos slen, drop (Z.to_nat (pos + slen)) s, more) /\
    (more = false -> pos + slen = zlen s)) as (more & -> & Hm).
  { unfold read, slen. destruct (td_more_source tb) eqn:Em.
    - rewrite Hsrc, read_window_spec by lia. eexists. split; [done|].
      intros E. apply Z.eqb_neq in E. unfold slen in Hzs. lia.
    - rewrite Z.add_0_r. exists false. split; [by rewrite Hsrc|auto]. }
  rewrite Htgt, read_window_spec by lia. fold tlen. rewrite Hzs, Hzt.
  rewrite (proj2 (Z.eqb_neq _ _)) by lia.
  destruct (compute_window_spec (slice s pos slen) (slice t tpos tlen) pos)
    as (w & Hcw & Hok & Hwo & Hwl & Hwt & Hsem & Hbuilt);
    [unfold SVN_DELTA_WINDOW_SIZE in *; lia..|unfold SIZE_BOUND in *; lia|].
  rewrite Hzs, Hzt in Hcw. replace (td_pos tb + slen - slen) with pos by lia. rewrite Hcw.
  simpl. eexists _, _. split; [done|]. rewrite Hpos. split_and!; (done || lia).
Qed.

(** One round: the window is computed and applied. *)
Lemma run_step s t tb ab pos tpos :
  run_inv s t tb ab pos tpos -> zlen s < SIZE_BOUND -> tpos < zlen t ->
  exists w tb' ab' pos' tpos', txdelta_next_window tb = Ok (Some w, tb') /\
    apply_window (Some w) ab = Ok ab' /\ run_inv s t tb' ab' pos' tpos' /\ tpos < tpos'.
Proof.
  intros Hinv Hb Hlt. pose proof Hinv as [_ _ _ _ Hr Hap Hend Hwr].
  destruct (next_window_spec s t tb ab pos tpos Hinv Hb Hlt)
    as (w & tb' & Hn & Hok & _ & Hwo & Hwl & _ & Hsem & Hsrc' & Hpos' & Htgt' & Hmore').
  set (slen := if td_more_source tb then _ else _) in *.
  set (tlen := Z.min SVN_DELTA_WINDOW_SIZE (zlen t - tpos)) in *.
  pose proof Hap as [Ho _ He _ _ _]. pose proof (zlen_nonneg (ab_sbuf ab)).
  assert (0 <= slen <= zlen s - pos) as Hsl.
  { unfold slen, SVN_DELTA_WINDOW_SIZE, read_end in *. destruct (td_more_source tb); lia. }
  assert (0 < tlen <= zlen t - tpos) as Htl by (unfold tlen, SVN_DELTA_WINDOW_SIZE; lia).
  destruct (apply_window_spec s ab w Hap) as (ab' & Ha & Hap' & Htgt & Hoff & Hend');
    [unfold slides, read_end in *; rewrite Hwo, Hwl; lia|done|done|].
  exists w, tb', ab', (pos + slen), (tpos + tlen).
  split_and!; [done|done| |lia]. split; try done; try lia.
  rewrite Htgt, Hwr, Hwo, Hwl, Hsem. apply (slice_app t 0); lia.
Qed.

(** At the end of the target there is no window. *)
Lemma next_window_end s t tb ab pos :
  run_inv s t tb ab pos (zlen t) -> exists tb', txdelta_next_window tb = Ok (None, tb').
Proof.
  intros [Hsrc _ _ Htgt _ _ _ _]. unfold txdelta_next_window.
  destruct (if td_more_source tb then _ else _) as [[sdata source] more].
  rewrite Htgt. unfold zlen. rewrite Nat2Z.id, drop_all.
  unfold svn_stream_read_full. rewrite take_nil. simpl. eauto.
Qed.

(** The whole loop. *)
Lemma run_loop_spec fuel s t tb ab pos tpos :
  run_inv s t tb ab pos tpos -> zlen s < SIZE_BOUND -> zlen t - tpos <= Z.of_nat fuel ->
  exists ab', run_loop apply_window fuel tb ab = Ok ab' /\ ab_target ab' = t.
Proof.
  intros Hinv Hb. revert tb ab pos tpos Hinv.
  induction fuel as [|f IH]; intros tb ab pos tpos Hinv Hf; cbn [run_loop];
    pose proof (ri_range _ _ _ _ _ _ Hinv) as Hr; (destruct (decide (tpos = zlen t)) as [->|E]; [|]);
    try (destruct (next_window_end _ _ _ _ _ Hinv) as (tb' & ->); simpl; exists ab;
         split; [done|]; rewrite (ri_written _ _ _ _ _ _ Hinv); apply slice_full); [lia|].
  destruct (run_step s t tb ab pos tpos Hinv Hb) as (w & tb' & ab' & pos' & tpos' & -> & Ha & Hinv' & Hl);
    [lia|].
  cbn [mbind result_bind]. rewrite Ha. cbn [mbind result_bind]. eapply IH; [done|lia].
Qed.

Lemma svn_txdelta_run_apply s t :
  zlen s < SIZE_BOUND ->
  exists ab, svn_txdelta_run apply_window s t (svn_txdelta_apply s) = Ok ab /\ ab_target ab = t.
Proof.
  intros Hs. unfold svn_txdelta_run.
  apply (run_loop_spec _ s t _ _ 0 0); [|done|unfold zlen; lia].
  pose proof (zlen_nonneg s). pose proof (zlen_nonneg t).
  by split.
Qed.

(** * Pushing the target of a delta

    [svn_txdelta_target_push] hands the same windows to its handler as
    [svn_txdelta_run], whatever the pieces in which the target is written. *)

Section Push.
Context {T : Type} (handler : option svn_txdelta_window_t -> T -> result T).
Implicit Types (s : T) (tb : txdelta_baton) (tp : tpush_baton).

(** ** Enough fuel *)

Lemma next_window_consumes tb w tb' :
  txdelta_next_window tb = Ok (Some w, tb') ->
  (length (td_target tb') < length (td_target tb))%nat.
Proof.
  unfold txdelta_next_window. destruct (if td_more_source tb then _ else _) as [[sdata source] more].
  unfold svn_stream_read_full. destruct (Z.eqb_spec (zlen (take (Z.to_nat SVN_DELTA_WINDOW_SIZE)
    (td_target tb))) 0) as [E|E]; [done|].
  destruct (compute_window _ _ _ _); cbn [mbind result_bind]; [|done].
  intros [= _ <-]. cbn [td_target]. rewrite length_drop.
  unfold zlen in E. rewrite length_take in E. lia.
Qed.

Lemma run_loop_fuel f1 f2 tb s :
  (length (td_target tb) <= f1)%nat -> (length (td_target tb) <= f2)%nat ->
  run_loop handler f1 tb s = run_loop handler f2 tb s.
Proof.
  revert f2 tb s. induction f1 as [|f1 IH]; intros [|f2] tb s H1 H2; [done| | |];
    cbn [run_loop]; destruct (txdelta_next_window tb) as [[[w|] tb']|e] eqn:E; simpl; try done;
    pose proof (next_window_consumes _ _ _ E); [lia..|].
  destruct (handler (Some w) s); simpl; [|done]. apply IH; lia.
Qed.

(** What [svn_txdelta_run] does from a state on. *)
Definition runs (source target : bytes) (pos : Z) (s : T) : result T :=
  run_loop handler (length target) (mk_txdelta_baton source target true true pos) s.

(** Once the source has ended, it does not matter that this is known. *)
Lemma next_window_ended target b pos :
  txdelta_next_window (mk_txdelta_baton [] target false b pos) =
    txdelta_next_window (mk_txdelta_baton [] target true b pos).
Proof.
  unfold txdelta_next_window. cbn [td_more_source td_source].
  unfold svn_stream_read_full. by rewrite take_nil, drop_nil.
Qed.

(** One window of a delta in full: the data read and what is left. *)
Lemma runs_step source target pos s :
  target <> [] ->
  let sdata := take (Z.to_nat SVN_DELTA_WINDOW_SIZE) source in
  let tdata := take (Z.to_nat SVN_DELTA_WINDOW_SIZE) target in
  runs source target pos s =
    (window ← compute_window (sdata ++ tdata) (zlen sdata) (zlen tdata) pos;
     s ← handler (Some window) s;
     runs (drop (Z.to_nat SVN_DELTA_WINDOW_SIZE) source)
       (drop (Z.to_nat SVN_DELTA_WINDOW_SIZE) target) (pos + zlen sdata) s).
Proof.
  intros Ht sdata tdata. unfold runs.
  assert (exists n, length target = S n) as [n Hn] by (destruct target; [done|eauto]).
  rewrite Hn.
  cbn [run_loop]. unfold txdelta_next_window. cbn [td_more_source td_source td_target td_pos td_more].
  unfold svn_stream_read_full. fold sdata tdata.
  assert (0 < zlen tdata) as Hz.
  { unfold zlen, tdata. rewrite length_take, Hn. unfold SVN_DELTA_WINDOW_SIZE. lia. }
  rewrite (proj2 (Z.eqb_neq _ _)) by lia.
  replace (pos + zlen sdata - zlen sdata) with pos by lia.
  destruct (compute_window _ _ _ _) as [w|]; cbn [mbind result_bind]; [|done].
  destruct (handler (Some w) s) as [s'|]; cbn [mbind result_bind]; [|done].
  destruct (Z.eqb_spec (zlen sdata) SVN_DELTA_WINDOW_SIZE) as [E|E].
  - apply run_loop_fuel; cbn [td_target]; rewrite length_drop, Hn;
      unfold SVN_DELTA_WINDOW_SIZE; lia.
  - assert (drop (Z.to_nat SVN_DELTA_WINDOW_SIZE) source = []) as ->.
    { apply drop_ge. unfold zlen, sdata in E. rewrite length_take in E.
      unfold SVN_DELTA_WINDOW_SIZE in *. lia. }
    rewrite (run_loop_fuel _ n (mk_txdelta_baton [] _ true true _));
      cbn [td_target]; rewrite ?length_drop, ?Hn;
      [|unfold SVN_DELTA_WINDOW_SIZE; lia..].
    destruct n; cbn [run_loop]; by rewrite next_window_ended.
Qed.

(** ** The states of the push *)

Record tpush_inv (tp : tpush_baton) : Prop := mk_tpush_inv {
  tpi_done : tp_source_done tp = true -> tp_source tp = [];
  tpi_sdata : tp_sdata tp = [] \/
    tp_sdata tp = take (Z.to_nat SVN_DELTA_WINDOW_SIZE) (tp_sdata tp ++ tp_source tp);
  tpi_tdata : zlen (tp_tdata tp) < SVN_DELTA_WINDOW_SIZE;
  tpi_read : tp_tdata tp <> [] ->
    tp_sdata tp = take (Z.to_nat SVN_DELTA_WINDOW_SIZE) (tp_sdata tp ++ tp_source tp)
}.

(** What is still to happen when the target continues with [data]. *)
Definition runs_of (tp : tpush_baton) (data : bytes) (s : T) : result T :=
  runs (tp_sdata tp ++ tp_source tp) (tp_tdata tp ++ data) (tp_source_offset tp) s.

(** The state with the source part of the buffer filled. *)
Definition tpush_read (tp : tpush_baton) : tpush_baton :=
  if (zlen (tp_sdata tp) =? 0) && negb (tp_source_done tp) then
    let '(sdata, source) := svn_stream_read_full (tp_source tp) SVN_DELTA_WINDOW_SIZE in
    mk_tpush_baton source sdata (tp_source_offset tp)
      (if zlen sdata <? SVN_DELTA_WINDOW_SIZE then true else tp_source_done tp) (tp_tdata tp)
  else tp.

Lemma tpush_read_spec tp :
  tpush_inv tp ->
  let all := tp_sdata tp ++ tp_source tp in
  let tp' := tpush_read tp in
  tp_sdata tp' = take (Z.to_nat SVN_DELTA_WINDOW_SIZE) all /\
  tp_source tp' = drop (Z.to_nat SVN_DELTA_WINDOW_SIZE) all /\
  tp_source_offset tp' = tp_source_offset tp /\ tp_tdata tp' = tp_tdata tp /\
  (tp_source_done tp' = true -> tp_source tp' = []).
Proof.
  intros [Hd Hs Ht _] all. unfold tpush_read.
  destruct (Z.eqb_spec (zlen (tp_sdata tp)) 0) as [E|E]; cbn [andb].
  - apply zlen_zero in E. unfold all. rewrite E. cbn [app].
    destruct (tp_source_done tp) eqn:Ed; cbn [negb].
    + rewrite (Hd eq_refl), take_nil, drop_nil. auto.
    + unfold svn_stream_read_full. cbn [tp_sdata tp_source tp_source_offset tp_tdata tp_source_done].
      split_and!; [done..|]. intros H. apply drop_ge.
      destruct (Z.ltb_spec (zlen (take (Z.to_nat SVN_DELTA_WINDOW_SIZE) (tp_source tp)))
                  SVN_DELTA_WINDOW_SIZE) as [Hl|]; [|done].
      unfold zlen in Hl. rewrite length_take in Hl. lia.
  - destruct Hs as [Hs|Hs]; [by rewrite Hs in E|]. fold all in Hs. split_and!; try done.
    apply (app_inv_head (tp_sdata tp)). fold all. rewrite Hs at 1. by rewrite take_drop.
Qed.

(** One round of the loop of the write handler. *)
Lemma tpush_step_spec tp data rest s :
  tpush_inv tp -> data <> [] ->
  runs_of tp (data ++ rest) s =
    ('(tp', data', s') ← tpush_step handler tp data s; runs_of tp' (data' ++ rest) s') /\
  forall tp' data' s', tpush_step handler tp data s = Ok (tp', data', s') ->
    tpush_inv tp' /\ (length data' < length data)%nat.
Proof.
  intros Hinv Hne. pose proof (tpush_read_spec tp Hinv) as (Hs & Hsrc & Ho & Htd & Hd).
  pose proof (tpi_tdata _ Hinv) as Ht.
  unfold tpush_step. fold (tpush_read tp). set (tp1 := tpush_read tp) in *.
  set (chunk_len := if zlen data <? SVN_DELTA_WINDOW_SIZE - zlen (tp_tdata tp1)
                    then zlen data else SVN_DELTA_WINDOW_SIZE - zlen (tp_tdata tp1)).
  assert (chunk_len = Z.min (zlen data) (SVN_DELTA_WINDOW_SIZE - zlen (tp_tdata tp))) as Hc.
  { unfold chunk_len. rewrite Htd. destruct (Z.ltb_spec (zlen data) (SVN_DELTA_WINDOW_SIZE - zlen (tp_tdata tp))); lia. }
  clearbody chunk_len.
  assert (0 < zlen data) as Hdp by (unfold zlen; destruct data; [done|cbn [length]; lia]).
  cbn [tp_tdata tp_source tp_sdata tp_source_offset tp_source_done].
  assert (zlen (tp_tdata tp1 ++ slice data 0 chunk_len) = zlen (tp_tdata tp) + chunk_len) as Hz.
  { rewrite Htd, zlen_app, zlen_slice; lia. }
  rewrite Hz.
  destruct (Z.eqb_spec (zlen (tp_tdata tp) + chunk_len) SVN_DELTA_WINDOW_SIZE) as [E|E].
  - (* a window is full *)
    assert (forall rest', take (Z.to_nat SVN_DELTA_WINDOW_SIZE) (tp_tdata tp ++ data ++ rest') =
      tp_tdata tp ++ slice data 0 chunk_len /\
      drop (Z.to_nat SVN_DELTA_WINDOW_SIZE) (tp_tdata tp ++ data ++ rest') =
      drop (Z.to_nat chunk_len) data ++ rest') as Hsplit.
    { intros rest'. replace (Z.to_nat SVN_DELTA_WINDOW_SIZE)
        with (length (tp_tdata tp) + Z.to_nat chunk_len)%nat by (unfold zlen in *; lia).
      rewrite take_app_add, drop_app_add, slice_take.
      rewrite take_app_le, drop_app_le by (unfold zlen in *; lia). done. }
    split.
    + unfold runs_of at 1. rewrite runs_step.
      2: { intros Hn. apply (f_equal zlen) in Hn. rewrite !zlen_app in Hn.
           change (zlen (@nil Z)) with 0 in Hn.
           pose proof (zlen_nonneg rest). pose proof (zlen_nonneg (tp_tdata tp)). lia. }
      cbv zeta. destruct (Hsplit rest) as [-> ->]. rewrite <- Hs, <- Hsrc.
      unfold tpush_window. cbn [tp_tdata tp_sdata tp_source_offset]. rewrite Htd, Ho.
      destruct (compute_window _ _ _ _) as [w|]; cbn [mbind result_bind]; [|done].
      by destruct (handler (Some w) s).
    + intros tp' data' s'. destruct (tpush_window _) as [w|]; cbn [mbind result_bind]; [|done].
      destruct (handler (Some w) s); cbn [mbind result_bind]; [|done].
      intros [= <- <- <-]. split.
      * split; cbn [tp_source_done tp_source tp_sdata tp_tdata]; [done|by left|done|done].
      * rewrite length_drop. unfold zlen in *. lia.
  - (* all data are buffered *)
    assert (chunk_len = zlen data) as -> by lia. cbn [mbind result_bind].
    unfold zlen at 2 3. rewrite Nat2Z.id, drop_all, slice_full, Htd, Ho. split.
    + unfold runs_of. cbn [tp_tdata tp_source tp_sdata tp_source_offset app].
      by rewrite Hs, Hsrc, take_drop, <- app_assoc.
    + assert (tp_sdata tp1 = take (Z.to_nat SVN_DELTA_WINDOW_SIZE) (tp_sdata tp1 ++ tp_source tp1))
        as Hread by (rewrite Hs at 1; by rewrite Hs, Hsrc, take_drop).
      intros tp' data' s' [= <- <- <-]. split; [split|];
        cbn [tp_source_done tp_source tp_sdata tp_tdata length]; [done|by right| |done|].
      * change (zlen (tp_tdata tp ++ slice data 0 (zlen data)) < SVN_DELTA_WINDOW_SIZE).
        rewrite <- Htd, Hz. lia.
      * rewrite length_drop. unfold zlen in *. lia.
Qed.

(** ** Writing in pieces and closing *)

Lemma tpush_write_spec tp data rest s :
  tpush_inv tp ->
  runs_of tp (data ++ rest) s =
    ('(tp', s') ← tpush_write_handler handler tp data s; runs_of tp' rest s') /\
  forall tp' s', tpush_write_handler handler tp data s = Ok (tp', s') -> tpush_inv tp'.
Proof.
  unfold tpush_write_handler. assert (length data <= length data)%nat as Hf by lia.
  revert Hf. generalize (length data) at 2 3 4 as fuel. intros fuel.
  revert tp data s. induction fuel as [|f IH]; intros tp data s Hf Hinv; cbn [tpush_loop];
    destruct (Z.ltb_spec 0 (zlen data)) as [H|H].
  1: { unfold zlen in H. lia. }
  1, 3: assert (data = []) as -> by (apply zlen_zero; pose proof (zlen_nonneg data); lia);
        split; [done|by intros tp' s' [= <- <-]].
  destruct (tpush_step_spec tp data rest s Hinv) as [-> Hnext]; [by intros ->|].
  destruct (tpush_step handler tp data s) as [[[tp' data'] s']|]; cbn [mbind result_bind]; [|done].
  destruct (Hnext _ _ _ eq_refl) as [Hinv' Hl]. apply IH; [lia|done].
Qed.

(** A sequence of writes. *)
Definition tpush_writes (tp : tpush_baton) (chunks : list bytes) (s : T)
    : result (tpush_baton * T) :=
  fold_left (fun r chunk => '(tp, s) ← r; tpush_write_handler handler tp chunk s) chunks (Ok (tp, s)).

Lemma tpush_writes_err chunks e :
  fold_left (fun r chunk => '(tp, s) ← r; tpush_write_handler handler tp chunk s) chunks (Err e)
    = Err e.
Proof. by induction chunks. Qed.

Lemma tpush_writes_spec tp chunks s :
  tpush_inv tp ->
  runs_of tp (concat chunks) s =
    ('(tp', s') ← tpush_writes tp chunks s; runs_of tp' [] s') /\
  forall tp' s', tpush_writes tp chunks s = Ok (tp', s') -> tpush_inv tp'.
Proof.
  unfold tpush_writes. revert tp s. induction chunks as [|chunk chunks IH]; intros tp s Hinv.
  - split; [done|by intros tp' s' [= <- <-]].
  - cbn [concat fold_left]. destruct (tpush_write_spec tp chunk (concat chunks) s Hinv) as [-> Hnext].
    cbn [mbind result_bind].
    destruct (tpush_write_handler handler tp chunk s) as [[tp' s']|]; cbn [mbind result_bind].
    + apply IH. by eapply Hnext.
    + rewrite tpush_writes_err. done.
Qed.

Lemma runs_end source pos s :
  runs source [] pos s = handler None s.
Proof.
  unfold runs. cbn [run_loop length]. unfold txdelta_next_window. cbn [td_more_source td_target td_source].
  unfold svn_stream_read_full. rewrite take_nil. change (zlen (@nil Z) =? 0) with true. cbn.
  by destruct (handler None s).
Qed.

Lemma tpush_close_spec tp s :
  tpush_inv tp -> tpush_close_handler handler tp s = runs_of tp [] s.
Proof.
  intros [Hd Hs Ht Hr]. unfold tpush_close_handler, runs_of. rewrite app_nil_r.
  destruct (Z.ltb_spec 0 (zlen (tp_tdata tp))) as [H|H].
  - assert (tp_tdata tp <> []) as Hne by (intros E; by rewrite E in H).
    rewrite runs_step by done. cbv zeta. rewrite <- (Hr Hne).
    rewrite (take_ge (tp_tdata tp)), (drop_ge (tp_tdata tp)) by (unfold zlen in *; lia).
    unfold tpush_window. destruct (compute_window _ _ _ _) as [w|]; cbn [mbind result_bind]; [|done].
    destruct (handler (Some w) s); cbn [mbind result_bind]; [|done]. by rewrite runs_end.
  - assert (tp_tdata tp = []) as ->
      by (apply zlen_zero; pose proof (zlen_nonneg (tp_tdata tp)); lia).
    cbn [mbind result_bind]. by rewrite runs_end.
Qed.

(** Pushing the target in pieces is running the delta. *)
Lemma target_push_run source chunks s :
  ('(tp, s) ← tpush_writes (svn_txdelta_target_push source) chunks s;
   tpush_close_handler handler tp s) = svn_txdelta_run handler source (concat chunks) s.
Proof.
  assert (tpush_inv (svn_txdelta_target_push source)) as Hinv by (split; try done; by left).
  destruct (tpush_writes_spec _ chunks s Hinv) as [Hw Hnext].
  change (svn_txdelta_run handler source (concat chunks) s)
    with (runs_of (svn_txdelta_target_push source) (concat chunks) s).
  rewrite Hw. destruct (tpush_writes _ chunks s) as [[tp s']|]; cbn [mbind result_bind]; [|done].
  apply tpush_close_spec. by eapply Hnext.
Qed.
End Push.
