(* ===== verification/Compose.v ===== *)
(** * Composing deltas (libsvn_delta/compose_delta.c)

    [svn_txdelta_compose_windows] turns a window from A to B and a window from
    B to C into one from A to C.  An index of offsets finds the instructions
    of the first window that write a range of B; an index of ranges, a splay
    tree that is threaded by a doubly linked list, finds what of B has been
    copied to C already.

    The nodes of the range index live in a store under numbers; the links
    [left] and [right] are a tree of these numbers and the links [prev] and
    [next] are a list of them.  The free list, which only recycles memory, is
    left out.  All offsets stay below the sizes of the views. *)

From S2P Require Import Prelude Buffers Delta.

(** ** From offsets in the target to instructions *)

(** [ndx->offs]; the first element is where the first of [ops] starts. *)
Fixpoint offsets_from (offset : Z) (ops : list svn_txdelta_op_t) : list Z :=
  match ops with
  | [] => [offset]
  | op :: ops => offset :: offsets_from (offset + op_length op) ops
  end.

Definition create_offset_index (window : svn_txdelta_window_t) : list Z :=
  offsets_from 0 (w_ops window).

Definition off_at (offs : list Z) (i : Z) : result Z :=
  if 0 <=? i then
    match offs !! Z.to_nat i with Some o => Ok o | None => Err C_UNDEFINED end
  else Err C_UNDEFINED.

(** The binary search. *)
Fixpoint search_loop (fuel : nat) (offs : list Z) (offset lo hi : Z) : result Z :=
  if negb (lo =? hi) then
    match fuel with
    | O => Err OUT_OF_FUEL
    | S f =>
        let op := (lo + hi) / 2 in
        o ← off_at offs op;
        if offset <? o then search_loop f offs offset lo op
        else search_loop f offs offset (op + 1) hi
    end
  else Ok lo.

(** The range that the hint leaves to search, or the hint itself. *)
Definition use_hint (offs : list Z) (length_ offset hint : Z) : result (Z * Z + Z) :=
  if hint <? length_ then
    o ← off_at offs hint;
    if offset <? o then Ok (inl (0, hint))
    else
      o' ← off_at offs (hint + 1);
      if offset <? o' then Ok (inr hint) else Ok (inl (hint + 1, length_))
  else Ok (inl (0, length_)).

Definition search_offset_index (offs : list Z) (offset hint : Z) : result Z :=
  let length_ := zlen offs - 1 in
  total ← off_at offs length_;
  c_assert (offset <? total);;
  found ← use_hint offs length_ offset hint;
  match found with
  | inr hint => Ok hint
  | inl (lo, hi) =>
      lo ← search_loop (length offs) offs offset lo hi;
      let lo := lo - 1 in
      o ← off_at offs lo;
      o' ← off_at offs (lo + 1);
      c_assert ((o <=? offset) && (offset <? o'));;
      Ok lo
  end.

(** ** The index of ranges *)

Record range_index_node_t := mk_node {
  n_offset : Z;
  n_limit : Z;
  n_target_offset : Z
}.

Inductive splay_tree :=
  | Leaf
  | Node (l : splay_tree) (id : nat) (r : splay_tree).

Record range_index_t := mk_index {
  ri_store : gmap nat range_index_node_t;
  ri_tree : splay_tree;
  ri_list : list nat;
  ri_next : nat                 (** the number of the next node *)
}.

Definition create_range_index : range_index_t := mk_index ∅ Leaf [] 0.

(** The node that a pointer points at. *)
Definition node_at (store : gmap nat range_index_node_t) (id : nat) : range_index_node_t :=
  default (mk_node 0 0 0) (store !! id).

Definition ri_node (ndx : range_index_t) (id : nat) : range_index_node_t :=
  node_at (ri_store ndx) id.

Definition is_leaf (t : splay_tree) : bool := match t with Leaf => true | _ => false end.

Fixpoint tree_size (t : splay_tree) : nat :=
  match t with Leaf => O | Node l _ r => S (tree_size l + tree_size r) end.

(** *** Splaying *)

Section Splay.
Context (key : nat -> Z).

(** A root key on the wanted side of [offset]. *)
Definition root_test (p : Z -> bool) (t : splay_tree) : bool :=
  match t with Leaf => false | Node _ id _ => p (key id) end.

(** The rotations of the loop. *)
Definition rotate_right (t : splay_tree) : splay_tree :=
  match t with
  | Node (Node ll lid lr) id r => Node ll lid (Node lr id r)
  | _ => t
  end.

Definition rotate_left (t : splay_tree) : splay_tree :=
  match t with
  | Node l id (Node rl rid rr) => Node (Node l id rl) rid rr
  | _ => t
  end.

(** The trees that hang off the scratch node, from the inside out: nodes to
    the left of the path with their left subtrees, and to its right with
    their right subtrees. *)
Fixpoint splay_loop (fuel : nat) (offset : Z) (t : splay_tree)
    (lefts rights : list (nat * splay_tree))
    : result (splay_tree * list (nat * splay_tree) * list (nat * splay_tree)) :=
  match t with
  | Leaf => Err C_UNDEFINED
  | Node l id r =>
      if offset <? key id then
        let t := if root_test (fun k => offset <? k) l then rotate_right t else t in
        match t with
        | Node (Node _ _ _ as l) id r =>
            match fuel with
            | O => Err OUT_OF_FUEL
            | S f => splay_loop f offset l lefts ((id, r) :: rights)
            end
        | _ => Ok (t, lefts, rights)
        end
      else if key id <? offset then
        let t := if root_test (fun k => k <? offset) r then rotate_left t else t in
        match t with
        | Node l id (Node _ _ _ as r) =>
            match fuel with
            | O => Err OUT_OF_FUEL
            | S f => splay_loop f offset r ((id, l) :: lefts) rights
            end
        | _ => Ok (t, lefts, rights)
        end
      else Ok (t, lefts, rights)
  end.

Definition link_left (lefts : list (nat * splay_tree)) (t : splay_tree) : splay_tree :=
  fold_left (fun t '(id, l) => Node l id t) lefts t.

Definition link_right (rights : list (nat * splay_tree)) (t : splay_tree) : splay_tree :=
  fold_left (fun t '(id, r) => Node t id r) rights t.

(** The rightmost node of a tree and the tree without it. *)
Fixpoint remove_rightmost (l : splay_tree) (id : nat) (r : splay_tree) : splay_tree * nat :=
  match r with
  | Leaf => (l, id)
  | Node rl rid rr => let '(r', m) := remove_rightmost rl rid rr in (Node l id r', m)
  end.

(** Turning the tree around, so that the greatest node whose offset does not
    exceed [offset] is the root. *)
Definition turn_around (offset : Z) (t : splay_tree) : splay_tree :=
  match t with
  | Node (Node ll lid lr) id r =>
      if offset <? key id then
        if is_leaf lr then Node ll lid (Node lr id r)
        else let '(l', m) := remove_rightmost ll lid lr in Node l' m (Node Leaf id r)
      else t
  | _ => t
  end.

Definition splay (offset : Z) (t : splay_tree) : result splay_tree :=
  match t with
  | Leaf => Ok Leaf
  | _ =>
      '(t, lefts, rights) ← splay_loop (tree_size t) offset t [] [];
      match t with
      | Leaf => Err C_UNDEFINED
      | Node l id r => Ok (turn_around offset (Node (link_left lefts l) id (link_right rights r)))
      end
  end.
End Splay.

Definition splay_range_index (offset : Z) (ndx : range_index_t) : result range_index_t :=
  let key id := n_offset (ri_node ndx id) in
  t ← splay key offset (ri_tree ndx);
  match t with
  | Leaf => Ok ndx
  | Node l id _ =>
      c_assert ((key id <=? offset)
                || (is_leaf l && bool_decide (head (ri_list ndx) = Some id)));;
      Ok (mk_index (ri_store ndx) t (ri_list ndx) (ri_next ndx))
  end.

(** *** Removing what is superseded *)

Fixpoint tree_ids (t : splay_tree) : list nat :=
  match t with Leaf => [] | Node l id r => tree_ids l ++ id :: tree_ids r end.

(** The loop of [clean_tree] on the subtree that [nodep] points at: the new
    subtree and the nodes that are deleted. *)
Fixpoint clean_loop (node : nat -> range_index_node_t) (limit top_offset : Z) (t : splay_tree)
    : splay_tree * list nat :=
  match t with
  | Leaf => (Leaf, [])
  | Node l id r =>
      let offset :=
        match r with
        | Node _ rid _ => if n_offset (node rid) <? top_offset then n_offset (node rid) else top_offset
        | Leaf => top_offset
        end in
      if (n_limit (node id) <=? limit)
         || ((n_offset (node id) <? limit) && (offset <? limit)) then
        let '(t, freed) := clean_loop node limit top_offset r in
        (t, tree_ids l ++ [id] ++ freed)
      else
        let '(l, freed) := clean_loop node limit (n_offset (node id)) l in
        (Node l id r, freed)
  end.

(** Freeing nodes takes them out of the list. *)
Definition clean_tree (limit : Z) (ndx : range_index_t) : range_index_t :=
  match ri_tree ndx with
  | Leaf => ndx
  | Node l id r =>
      let '(r, freed) := clean_loop (ri_node ndx) limit (limit + 1) r in
      mk_index (foldr delete (ri_store ndx) freed) (Node l id r)
        (filter (fun i => i ∉ freed) (ri_list ndx)) (ri_next ndx)
  end.

(** *** Inserting a range *)

(** [next] and [prev] of a node. *)
Fixpoint next_of (id : nat) (ids : list nat) : option nat :=
  match ids with
  | i :: ids => if decide (i = id) then head ids else next_of id ids
  | [] => None
  end.

Fixpoint prev_of (id : nat) (ids : list nat) : option nat :=
  match ids with
  | i :: ((j :: _) as ids') => if decide (j = id) then Some i else prev_of id ids'
  | _ => None
  end.

Fixpoint insert_behind (id new : nat) (ids : list nat) : list nat :=
  match ids with
  | i :: ids => if decide (i = id) then i :: new :: ids else i :: insert_behind id new ids
  | [] => []
  end.

Definition insert_range (offset limit target_offset : Z) (ndx : range_index_t)
    : result range_index_t :=
  let new := mk_node offset limit target_offset in
  let '(mk_index store tree ids next) := ndx in
  match tree with
  | Leaf => Ok (mk_index (<[next := new]> store) (Node Leaf next Leaf) [next] (S next))
  | Node l id r =>
      let root := ri_node ndx id in
      if (offset =? n_offset root) && (n_limit root <? limit) then
        Ok (clean_tree limit
              (mk_index (<[id := mk_node (n_offset root) limit target_offset]> store) tree ids next))
      else if (n_offset root <? offset) && (n_limit root <? limit) then
        let insert_range_p :=
          match next_of id ids with
          | None => true
          | Some nx => (n_limit root <? n_offset (ri_node ndx nx))
                       || (n_limit (ri_node ndx nx) <? limit)
          end in
        if insert_range_p then
          let replace :=
            match prev_of id ids with
            | None => false
            | Some pv => offset <? n_limit (ri_node ndx pv)
            end in
          if replace : bool then
            Ok (clean_tree limit (mk_index (<[id := new]> store) tree ids next))
          else
            Ok (clean_tree limit
                  (mk_index (<[next := new]> store) (Node (Node l id Leaf) next r)
                     (insert_behind id next ids) (S next)))
        else Ok ndx
      else if offset <? n_offset root then
        c_assert (is_leaf l);;
        Ok (clean_tree limit
              (mk_index (<[next := new]> store) (Node Leaf next tree) (next :: ids) (S next)))
      else Ok ndx
  end.

(** ** Lists of ranges *)

Inductive range_kind := range_from_source | range_from_target.

Record range_list_node_t := mk_range_list_node {
  rl_kind : range_kind;
  rl_offset : Z;
  rl_limit : Z;
  rl_target_offset : Z
}.

(** [ids] are the current node and the nodes behind it. *)
Fixpoint build_loop (fuel : nat) (ndx : range_index_t) (ids : list nat) (offset limit : Z)
    : result (list range_list_node_t) :=
  if offset <? limit then
    match ids with
    | [] => Ok [mk_range_list_node range_from_source offset limit 0]
    | id :: ids' =>
        let node := ri_node ndx id in
        match fuel with
        | O => Err OUT_OF_FUEL
        | S f =>
            if offset <? n_offset node then
              if limit <=? n_offset node then
                Ok [mk_range_list_node range_from_source offset limit 0]
              else
                rest ← build_loop f ndx ids (n_offset node) limit;
                Ok (mk_range_list_node range_from_source offset (n_offset node) 0 :: rest)
            else if n_limit node <=? offset then build_loop f ndx ids' offset limit
            else
              let target_offset := offset - n_offset node + n_target_offset node in
              if limit <=? n_limit node then
                Ok [mk_range_list_node range_from_target offset limit target_offset]
              else
                rest ← build_loop f ndx ids' (n_limit node) limit;
                Ok (mk_range_list_node range_from_target offset (n_limit node) target_offset :: rest)
        end
    end
  else Err C_ABORT.

(** The nodes from the root on. *)
Fixpoint from_id (id : nat) (ids : list nat) : list nat :=
  match ids with
  | i :: ids' => if decide (i = id) then ids else from_id id ids'
  | [] => []
  end.

Definition build_range_list (offset limit : Z) (ndx : range_index_t)
    : result (list range_list_node_t) :=
  let ids := match ri_tree ndx with Leaf => [] | Node _ id _ => from_id id (ri_list ndx) end in
  build_loop (2 * length ids) ndx ids offset limit.

(** ** Copying instructions *)

(** [copy start end target_offset build_baton] copies a range in front of the
    instruction, with the number of the instruction as the hint. *)
Definition copy_function : Type :=
  Z -> Z -> Z -> svn_txdelta__ops_baton_t -> result svn_txdelta__ops_baton_t.

(** An overlapping copy from the target: the second part of the pattern, its
    first part, and a copy that repeats them. *)
Definition copy_pattern (copy : copy_function) (op : svn_txdelta_op_t)
    (off0 fix_offset fix_limit target_offset : Z) (build_baton : svn_txdelta__ops_baton_t)
    : result svn_txdelta__ops_baton_t :=
  let ptn_length := off0 - op_offset op in
  let ptn_overlap := fix_offset mod ptn_length in
  c_assert (ptn_overlap <? ptn_length);;
  let len := Z.min (op_length op - fix_offset - fix_limit) (ptn_length - ptn_overlap) in
  build_baton ← copy (op_offset op + ptn_overlap) (op_offset op + ptn_overlap + len)
                  target_offset build_baton;
  let fix_off := fix_offset + len in
  let tgt_off := target_offset + len in
  c_assert (fix_off + fix_limit <=? op_length op);;
  '(build_baton, fix_off, tgt_off) ←
    (if (0 <? ptn_overlap) && (fix_off + fix_limit <? op_length op) then
       let len := Z.min (op_length op - fix_off - fix_limit) ptn_overlap in
       build_baton ← copy (op_offset op) (op_offset op + len) tgt_off build_baton;
       Ok (build_baton, fix_off + len, tgt_off + len)
     else Ok (build_baton, fix_off, tgt_off));
  c_assert (fix_off + fix_limit <=? op_length op);;
  if fix_off + fix_limit <? op_length op then
    svn_txdelta__insert_op build_baton svn_txdelta_target (tgt_off - ptn_length)
      (op_length op - fix_off - fix_limit) []
  else Ok build_baton.

(** The part of one instruction without its first [fix_offset] and its last
    [fix_limit] bytes. *)
Definition copy_op (copy : copy_function) (window : svn_txdelta_window_t)
    (op : svn_txdelta_op_t) (off0 fix_offset fix_limit target_offset : Z)
    (build_baton : svn_txdelta__ops_baton_t) : result svn_txdelta__ops_baton_t :=
  if negb (bool_decide (action_code op = svn_txdelta_target)) then
    let new_data :=
      if bool_decide (action_code op = svn_txdelta_new)
      then drop (Z.to_nat (op_offset op + fix_offset)) (w_new_data window) else [] in
    svn_txdelta__insert_op build_baton (action_code op) (op_offset op + fix_offset)
      (op_length op - fix_offset - fix_limit) new_data
  else
    c_assert (op_offset op <? off0);;
    if op_offset op + op_length op - fix_limit <=? off0 then
      copy (op_offset op + fix_offset) (op_offset op + op_length op - fix_limit)
        target_offset build_baton
    else copy_pattern copy op off0 fix_offset fix_limit target_offset build_baton.

(** The loop over the instructions from [op_ndx] on; [copy] gets the number of
    the instruction first. *)
Fixpoint copy_loop (copy : Z -> copy_function) (window : svn_txdelta_window_t) (offs : list Z)
    (fuel : nat) (op_ndx offset limit target_offset : Z)
    (build_baton : svn_txdelta__ops_baton_t) : result svn_txdelta__ops_baton_t :=
  off0 ← off_at offs op_ndx;
  if limit <=? off0 then Ok build_baton
  else
    match fuel with
    | O => Err OUT_OF_FUEL
    | S f =>
        off1 ← off_at offs (op_ndx + 1);
        op ← match w_ops window !! Z.to_nat op_ndx with
             | Some op => Ok op
             | None => Err C_UNDEFINED
             end;
        let fix_offset := if off0 <? offset then offset - off0 else 0 in
        let fix_limit := if limit <? off1 then off1 - limit else 0 in
        c_assert (fix_offset + fix_limit <? op_length op);;
        build_baton ← copy_op (copy op_ndx) window op off0 fix_offset fix_limit target_offset
                        build_baton;
        copy_loop copy window offs f (op_ndx + 1) offset limit
          (target_offset + (op_length op - fix_offset - fix_limit)) build_baton
    end.

(** A copy within the target leads to an earlier instruction. *)
Fixpoint copy_source_ops (fuel : nat) (window : svn_txdelta_window_t) (offs : list Z)
    (hint offset limit target_offset : Z) (build_baton : svn_txdelta__ops_baton_t)
    : result svn_txdelta__ops_baton_t :=
  match fuel with
  | O => Err OUT_OF_FUEL
  | S f =>
      op_ndx ← search_offset_index offs offset hint;
      copy_loop (copy_source_ops f window offs) window offs (length offs) op_ndx
        offset limit target_offset build_baton
  end.

(** ** Composing *)

(** The loop over the list of ranges: the new value of [tgt_off]. *)
Fixpoint copy_ranges (window_A : svn_txdelta_window_t) (offs : list Z)
    (ranges : list range_list_node_t) (tgt_off : Z) (build_baton : svn_txdelta__ops_baton_t)
    : result (svn_txdelta__ops_baton_t * Z) :=
  match ranges with
  | [] => Ok (build_baton, tgt_off)
  | range :: ranges =>
      build_baton ←
        match rl_kind range with
        | range_from_target =>
            svn_txdelta__insert_op build_baton svn_txdelta_target (rl_target_offset range)
              (rl_limit range - rl_offset range) []
        | range_from_source =>
            copy_source_ops (S (length offs)) window_A offs 0 (rl_offset range) (rl_limit range)
              tgt_off build_baton
        end;
      copy_ranges window_A offs ranges (tgt_off + (rl_limit range - rl_offset range)) build_baton
  end.

Record compose_state := mk_compose_state {
  cs_baton : svn_txdelta__ops_baton_t;
  cs_index : range_index_t;
  cs_target_offset : Z
}.

(** One instruction of the second window. *)
Definition compose_op (window_A window_B : svn_txdelta_window_t) (offs : list Z)
    (op : svn_txdelta_op_t) (st : compose_state) : result compose_state :=
  let '(mk_compose_state build_baton range_index target_offset) := st in
  if negb (bool_decide (action_code op = svn_txdelta_source)) then
    let new_data :=
      if bool_decide (action_code op = svn_txdelta_new)
      then drop (Z.to_nat (op_offset op)) (w_new_data window_B) else [] in
    build_baton ← svn_txdelta__insert_op build_baton (action_code op) (op_offset op)
                    (op_length op) new_data;
    Ok (mk_compose_state build_baton range_index (target_offset + op_length op))
  else
    let offset := op_offset op in
    let limit := op_offset op + op_length op in
    range_index ← splay_range_index offset range_index;
    range_list ← build_range_list offset limit range_index;
    '(build_baton, tgt_off) ← copy_ranges window_A offs range_list target_offset build_baton;
    c_assert (tgt_off =? target_offset + op_length op);;
    range_index ← insert_range offset limit target_offset range_index;
    Ok (mk_compose_state build_baton range_index (target_offset + op_length op)).

Fixpoint compose_ops (window_A window_B : svn_txdelta_window_t) (offs : list Z)
    (ops : list svn_txdelta_op_t) (st : compose_state) : result compose_state :=
  match ops with
  | [] => Ok st
  | op :: ops =>
      st ← compose_op window_A window_B offs op st;
      compose_ops window_A window_B offs ops st
  end.

Definition svn_txdelta_compose_windows (window_A window_B : svn_txdelta_window_t)
    : result svn_txdelta_window_t :=
  let offset_index := create_offset_index window_A in
  st ← compose_ops window_A window_B offset_index (w_ops window_B)
         (mk_compose_state empty_ops_baton create_range_index 0);
  let composite := svn_txdelta__make_window (cs_baton st) in
  Ok (mk_window (sview_offset window_A) (sview_len window_A) (tview_len window_B)
        (w_src_ops composite) (w_ops composite) (w_new_data composite)).
