(* ===== verification/ComposeCopyFacts.v ===== *)
(** * Copying parts of a window

    The index of offsets finds the instruction that writes an offset, and
    [copy_source_ops] appends instructions that write any range of the target
    of a window. *)

From S2P Require Import Prelude Buffers Delta DeltaFacts Compose.

(** ** The index of offsets *)

Section OffsetIndex.
Context (ops : list svn_txdelta_op_t).
Context (Hpos : forall op, op ∈ ops -> 0 < op_length op).

Definition off (i : nat) : Z := ops_len (take i ops).

Lemma offsets_from_lookup z l i :
  (i <= length l)%nat -> offsets_from z l !! i = Some (z + ops_len (take i l)).
Proof.
  revert z i. induction l as [|op l IH]; intros z [|i] Hi; simpl in *; try lia;
    try (f_equal; lia).
  rewrite IH by lia. f_equal. lia.
Qed.

Lemma offsets_length z l : length (offsets_from z l) = S (length l).
Proof. revert z. induction l as [|op l IH]; intros z; simpl; [done|]. by rewrite IH. Qed.

Let offs : list Z := offsets_from 0 ops.

Lemma off_at_spec (i : nat) : (i <= length ops)%nat -> off_at offs (Z.of_nat i) = Ok (off i).
Proof.
  intros Hi. unfold off_at. rewrite (proj2 (Z.leb_le _ _)) by lia.
  rewrite Nat2Z.id. unfold offs. by rewrite offsets_from_lookup by done.
Qed.

Lemma off_S (i : nat) op : ops !! i = Some op -> off (S i) = off i + op_length op.
Proof.
  intros Hi. unfold off. rewrite (take_S_r _ _ _ Hi), ops_len_app. simpl. lia.
Qed.

Lemma off_lt (i j : nat) : (i < j <= length ops)%nat -> off i < off j.
Proof.
  intros [Hij Hj]. induction j as [|j IH]; [lia|].
  destruct (lookup_lt_is_Some_2 ops j) as [op Hop]; [lia|].
  rewrite (off_S _ _ Hop). specialize (Hpos op (list_elem_of_lookup_2 _ _ _ Hop)).
  destruct (decide (i = j)) as [->|]; [lia|]. specialize (IH ltac:(lia) ltac:(lia)). lia.
Qed.

Lemma off_0 : off 0 = 0.
Proof. done. Qed.

Lemma off_total : off (length ops) = ops_len ops.
Proof. unfold off. by rewrite take_ge by lia. Qed.

Lemma search_loop_spec fuel offset (lo hi : nat) :
  (lo <= hi <= length ops)%nat -> (hi - lo <= fuel)%nat ->
  (lo = O \/ off (lo - 1) <= offset) -> offset < off hi ->
  exists k : nat, search_loop fuel offs offset (Z.of_nat lo) (Z.of_nat hi) = Ok (Z.of_nat k) /\
    (k <= length ops)%nat /\ (k = O \/ off (k - 1) <= offset) /\ offset < off k.
Proof.
  revert lo hi. induction fuel as [|f IH]; intros lo hi Hlh Hf Hlo Hhi; cbn [search_loop];
    destruct (Z.eqb_spec (Z.of_nat lo) (Z.of_nat hi)) as [E|E]; cbn [negb];
    try (assert (lo = hi) as <- by lia; exists lo; split_and!; (done || lia)).
  set (op := Nat.div (lo + hi) 2).
  assert ((Z.of_nat lo + Z.of_nat hi) / 2 = Z.of_nat op) as ->
    by (unfold op; rewrite Nat2Z.inj_div, Nat2Z.inj_add; done).
  assert (lo <= op < hi)%nat as Hop.
  { unfold op. split; [apply Nat.div_le_lower_bound; lia|apply Nat.Div0.div_lt_upper_bound; lia]. }
  rewrite off_at_spec by lia. cbn [mbind result_bind].
  destruct (Z.ltb_spec offset (off op)) as [H|H].
  - apply IH; [lia|lia|done|done].
  - replace (Z.of_nat op + 1) with (Z.of_nat (S op)) by lia.
    apply IH; [lia|lia| |done]. right. by replace (S op - 1)%nat with op by lia.
Qed.

Lemma use_hint_spec offset hint :
  0 <= offset < off (length ops) -> 0 <= hint ->
  (exists k : nat, use_hint offs (Z.of_nat (length ops)) offset hint = Ok (inr (Z.of_nat k)) /\
     (k < length ops)%nat /\ off k <= offset < off (S k)) \/
  (exists lo hi : nat, use_hint offs (Z.of_nat (length ops)) offset hint =
       Ok (inl (Z.of_nat lo, Z.of_nat hi)) /\ (lo <= hi <= length ops)%nat /\
     (lo = O \/ off (lo - 1) <= offset) /\ offset < off hi).
Proof.
  intros Ho Hh. unfold use_hint.
  destruct (Z.ltb_spec hint (Z.of_nat (length ops))) as [H|H].
  2: { right. exists O, (length ops). split_and!; (done || lia || by left). }
  assert (exists h, hint = Z.of_nat h) as [h ->] by (exists (Z.to_nat hint); lia).
  rewrite off_at_spec by lia. cbn [mbind result_bind].
  destruct (Z.ltb_spec offset (off h)).
  { right. exists O, h. split_and!; (done || lia || by left). }
  replace (Z.of_nat h + 1) with (Z.of_nat (S h)) by lia.
  rewrite off_at_spec by lia. cbn [mbind result_bind].
  destruct (Z.ltb_spec offset (off (S h))).
  - left. exists h. split_and!; (done || lia).
  - right. exists (S h), (length ops). split_and!; try (done || lia).
    right. by replace (S h - 1)%nat with h by lia.
Qed.

(** The instruction that writes [offset], whatever the hint. *)
Lemma search_offset_index_spec offset hint :
  0 <= offset < off (length ops) -> 0 <= hint ->
  exists k : nat, search_offset_index offs offset hint = Ok (Z.of_nat k) /\
    (k < length ops)%nat /\ off k <= offset < off (S k).
Proof.
  intros Ho Hh. unfold search_offset_index.
  replace (zlen offs - 1) with (Z.of_nat (length ops))
    by (unfold zlen, offs; rewrite offsets_length; lia).
  rewrite off_at_spec by lia. cbn [mbind result_bind]. rewrite c_assert_lt by lia.
  cbn [mbind result_bind].
  destruct (use_hint_spec offset hint Ho Hh) as [(k & -> & Hk)|(lo & hi & -> & Hlh & Hlo & Hhi)];
    cbn [mbind result_bind]; [by exists k|].
  destruct (search_loop_spec (length offs) offset lo hi) as (k & -> & Hk & Hk1 & Hk2); [done| |done|done|].
  { unfold offs. rewrite offsets_length. lia. }
  cbn [mbind result_bind].
  destruct k as [|k]; [rewrite off_0 in Hk2; lia|]. destruct Hk1 as [Hk1|Hk1]; [done|].
  replace (Z.of_nat (S k) - 1) with (Z.of_nat k) by lia.
  replace (S k - 1)%nat with k in Hk1 by lia.
  replace (Z.of_nat k + 1) with (Z.of_nat (S k)) by lia.
  rewrite !off_at_spec by lia. cbn [mbind result_bind].
  rewrite c_assert_true by (apply andb_true_iff; lia). exists k. auto with lia.
Qed.
End OffsetIndex.

(** ** The target of a window *)

Section Target.
Context (A : svn_txdelta_window_t) (src : bytes).
Context (HA : window_ok A) (Hsrc : sview_len A <= zlen src).

Let ops := w_ops A.
Let T := window_sem A src.
Let offA := off ops.

Lemma ops_positive op : op ∈ ops -> 0 < op_length op.
Proof.
  intros Hin. destruct HA as (Hok & _). apply list_elem_of_split in Hin as (l1 & l2 & E).
  fold ops in Hok. rewrite E in Hok. apply ops_ok_app in Hok as [_ [(_ & ? & _) _]]. done.
Qed.

(** The target around one instruction. *)
Lemma target_split i op :
  ops !! i = Some op ->
  exists t u, T = op_sem src (w_new_data A) t op ++ u /\ zlen t = offA i /\
    op_ok (sview_len A) (zlen (w_new_data A)) (offA i) op.
Proof.
  intros Hi. destruct HA as (Hok & _). fold ops in Hok.
  rewrite <- (take_drop_middle _ _ _ Hi) in Hok.
  apply ops_ok_app in Hok as [Hok1 [Hop Hok2]].
  set (t := ops_sem src (w_new_data A) [] (take i ops)).
  destruct (ops_sem_extends src (w_new_data A) (op_sem src (w_new_data A) t op) (drop (S i) ops))
    as [u Hu].
  exists t, u. split_and!; [|unfold t; erewrite ops_sem_zlen; [|done|done|lia]; done|done].
  unfold T, window_sem. fold ops. rewrite <- (take_drop_middle _ _ _ Hi) at 1.
  rewrite ops_sem_app. exact Hu.
Qed.

Lemma target_zlen : zlen T = offA (length ops).
Proof.
  unfold T, offA. rewrite window_sem_zlen by done. rewrite off_total. symmetry. apply HA.
Qed.

(** What an instruction that does not copy from the target has written. *)
Lemma target_source i op a m :
  ops !! i = Some op -> action_code op = svn_txdelta_source ->
  0 <= a -> 0 <= m -> a + m <= op_length op ->
  slice T (offA i + a) m = slice src (op_offset op + a) m.
Proof.
  intros Hi Hc Ha Hm Ham. destruct (target_split i op Hi) as (t & u & -> & <- & (Ho & Hl & Hop)).
  unfold op_sem. rewrite Hc in *. rewrite <- app_assoc.
  rewrite slice_middle by (rewrite ?zlen_slice; lia). by apply slice_slice; lia.
Qed.

Lemma target_new i op a m :
  ops !! i = Some op -> action_code op = svn_txdelta_new ->
  0 <= a -> 0 <= m -> a + m <= op_length op ->
  slice T (offA i + a) m = slice (w_new_data A) (op_offset op + a) m.
Proof.
  intros Hi Hc Ha Hm Ham. destruct (target_split i op Hi) as (t & u & -> & <- & (Ho & Hl & Hop)).
  unfold op_sem. rewrite Hc in *. rewrite <- app_assoc.
  rewrite slice_middle by (rewrite ?zlen_slice; lia). by apply slice_slice; lia.
Qed.

(** A copy from the target repeats what lies [offA i - op_offset op] bytes
    in front of it. *)
Lemma target_shift i op a m :
  ops !! i = Some op -> action_code op = svn_txdelta_target ->
  0 <= a -> 0 <= m -> a + m <= op_length op ->
  slice T (offA i + a) m = slice T (op_offset op + a) m.
Proof.
  intros Hi Hc Ha Hm Ham. destruct (target_split i op Hi) as (t & u & E & Ht & (Ho & Hl & Hop)).
  rewrite Hc in Hop. unfold op_sem in E. rewrite Hc in E.
  assert (zlen T = zlen t + op_length op + zlen u) as HT.
  { rewrite E, zlen_app, target_copy_zlen. lia. }
  pose proof (zlen_nonneg u). pose proof (zlen_nonneg t).
  apply list_eq. intros j. destruct (decide (Z.of_nat j < m)) as [Hj|Hj].
  2: { rewrite !lookup_ge_None_2; [done|..]; unfold slice; rewrite length_take; lia. }
  rewrite !lookup_slice by lia. rewrite E.
  assert (length (target_copy t (op_offset op) (Z.to_nat (op_length op))) =
    (length t + Z.to_nat (op_length op))%nat) as Hlen by apply target_copy_length.
  rewrite !lookup_app_l by (unfold zlen in *; lia).
  rewrite target_copy_lookup by (unfold zlen in *; lia).
  f_equal. unfold zlen in *. lia.
Qed.

(** With overlap the pattern in front of the instruction is repeated. *)
Lemma target_pattern i op a m :
  ops !! i = Some op -> action_code op = svn_txdelta_target ->
  let d := offA i - op_offset op in
  0 <= a -> 0 <= m -> a + m <= op_length op -> m <= d - a mod d ->
  slice T (offA i + a) m = slice T (op_offset op + a mod d) m.
Proof.
  intros Hi Hc d Ha Hm Ham Hmd.
  destruct (target_split i op Hi) as (_ & _ & _ & _ & (Ho & Hl & Hop)).
  rewrite Hc in Hop. assert (0 < d) as Hd by (unfold d; lia).
  pose proof (Z.div_mod a d ltac:(lia)) as Hdiv.
  assert (0 <= a / d) as Hq by (apply Z.div_pos; lia).
  pose proof (Z.mod_pos_bound a d Hd) as Hmod. set (r := a mod d) in *. clearbody r.
  assert (forall (q : nat) a, a = d * Z.of_nat q + r -> a + m <= op_length op ->
    slice T (offA i + a) m = slice T (op_offset op + r) m) as Hind.
  2: { apply (Hind (Z.to_nat (a / d))); lia. }
  clear a Ha Ham Hdiv Hq. intros q. induction q as [|q IH]; intros a -> Ham.
  - rewrite (target_shift i op) by (done || lia). f_equal. lia.
  - rewrite (target_shift i op) by (done || lia). rewrite <- (IH (d * Z.of_nat q + r)) by lia.
    f_equal. unfold d. lia.
Qed.

(** ** Copying *)

(** [b'] describes what [b] does and the range [lo], [hi] of the target behind
    it. *)
Definition copies (b b' : svn_txdelta__ops_baton_t) (lo hi : Z) : Prop :=
  baton_ok (sview_len A) b' /\ baton_sem src b' = baton_sem src b ++ slice T lo (hi - lo).

Definition baton_len (b : svn_txdelta__ops_baton_t) : Z := ops_len (b_ops b).

Lemma baton_len_sem b : baton_ok (sview_len A) b -> zlen (baton_sem src b) = baton_len b.
Proof. intros Hb. by eapply baton_sem_zlen. Qed.

Lemma copies_len b b' lo hi :
  baton_ok (sview_len A) b -> copies b b' lo hi -> 0 <= lo <= hi -> hi <= zlen T ->
  baton_len b' = baton_len b + (hi - lo).
Proof.
  intros Hb [Hb' Hsem] Hlo Hhi. rewrite <- !baton_len_sem by done.
  by rewrite Hsem, zlen_app, zlen_slice by lia.
Qed.

Lemma copies_trans b1 b2 b3 lo mid hi :
  copies b1 b2 lo mid -> copies b2 b3 mid hi -> 0 <= lo <= mid -> mid <= hi -> copies b1 b3 lo hi.
Proof.
  intros [_ H1] [Hb H2] Hlo Hmid. split; [done|]. rewrite H2, H1, <- app_assoc. f_equal.
  replace mid with (lo + (mid - lo)) at 2 by lia. rewrite slice_app by lia. f_equal. lia.
Qed.

(** A range of the target that equals another one. *)
Lemma copies_eq b b' lo hi lo' hi' :
  copies b b' lo hi -> hi - lo = hi' - lo' -> slice T lo (hi - lo) = slice T lo' (hi' - lo') ->
  copies b b' lo' hi'.
Proof. intros [Hb H] _ E. split; [done|]. by rewrite H, E. Qed.

(** A function that copies ranges up to [bound]. *)
Definition copy_correct (copy : copy_function) (bound : Z) : Prop :=
  forall lo hi b, 0 <= lo < hi -> hi <= bound -> baton_ok (sview_len A) b ->
    exists b', copy lo hi (baton_len b) b = Ok b' /\ copies b b' lo hi.

(** Repeating the last [d] bytes. *)
Lemma insert_repeat b b' i op a m :
  let d := offA i - op_offset op in
  ops !! i = Some op -> action_code op = svn_txdelta_target ->
  0 <= a -> 0 < m -> a + d + m <= op_length op ->
  baton_ok (sview_len A) b -> copies b b' (offA i + a) (offA i + a + d) ->
  exists b'', svn_txdelta__insert_op b' svn_txdelta_target (baton_len b' - d) m [] = Ok b'' /\
    copies b b'' (offA i + a) (offA i + a + d + m).
Proof.
  intros d Hi Hc Ha Hm Hle Hb Hcop.
  destruct (target_split i op Hi) as (t & u & Et & Ht & (Ho & Hl & Hop)).
  rewrite Hc in Hop. assert (0 < d) as Hd by (unfold d; lia).
  assert (offA i + op_length op <= zlen T) as HT.
  { rewrite Et. unfold op_sem. rewrite Hc, zlen_app, target_copy_zlen.
    pose proof (zlen_nonneg u). lia. }
  assert (0 <= offA i) as Hoff by (rewrite <- Ht; apply zlen_nonneg).
  pose proof (copies_len _ _ _ _ Hb Hcop ltac:(lia) ltac:(lia)) as Hlen.
  pose proof Hcop as [Hb' Hsem]. pose proof (zlen_nonneg (baton_sem src b)) as Hbz.
  rewrite baton_len_sem in Hbz by done.
  destruct (insert_op_spec src (sview_len A) b' svn_txdelta_target (baton_len b' - d) m [])
    as (b'' & -> & Hb'' & _ & Hsem''); [done|done|split; [lia|unfold baton_len in *; lia]|].
  exists b''. split; [done|]. split; [done|]. rewrite Hsem''. unfold added_sem.
  symmetry. assert (zlen (baton_sem src b') = baton_len b') as Hz' by by apply baton_len_sem.
  assert (zlen (baton_sem src b) = baton_len b) as Hz by by apply baton_len_sem.
  replace (offA i + a + d + m - (offA i + a)) with (d + m) by lia.
  replace (offA i + a + d - (offA i + a)) with d in Hsem by lia.
  assert (slice T (offA i + a) (d + m) = slice T (offA i + a) d ++ slice T (offA i + a + d) m) as E
    by (symmetry; apply slice_app; lia).
  apply target_copy_unique.
  - lia.
  - rewrite E, app_assoc, <- Hsem, length_app. f_equal.
    pose proof (zlen_slice T (offA i + a + d) m). unfold zlen in *. lia.
  - intros j Hj. rewrite E, app_assoc, <- Hsem. by rewrite lookup_app_l.
  - intros j Hj. unfold zlen in *.
    rewrite !lookup_app_r by lia. rewrite !lookup_slice by lia.
    set (x := (j - length (baton_sem src b))%nat).
    pose proof (target_shift i op (a + Z.of_nat x) 1 Hi Hc ltac:(lia) ltac:(lia) ltac:(lia)) as Hs.
    apply (f_equal (fun l => l !! O)) in Hs. rewrite !lookup_slice in Hs by lia.
    replace (Z.to_nat (offA i + (a + Z.of_nat x)) + 0)%nat with (Z.to_nat (offA i + a) + x)%nat in Hs by lia.
    rewrite Hs. f_equal. unfold d in *. lia.
Qed.

(** Copying the [len] bytes of the pattern at [a mod d]. *)
Lemma copy_pattern_part copy i op a len b :
  let d := offA i - op_offset op in
  ops !! i = Some op -> action_code op = svn_txdelta_target -> copy_correct copy (offA i) ->
  0 <= a -> 0 < len -> a + len <= op_length op -> len <= d - a mod d ->
  baton_ok (sview_len A) b ->
  exists b', copy (op_offset op + a mod d) (op_offset op + a mod d + len) (baton_len b) b = Ok b' /\
    copies b b' (offA i + a) (offA i + a + len).
Proof.
  intros d Hi Hc Hcopy Ha Hlen Hle Hmod Hb.
  destruct (target_split i op Hi) as (_ & _ & _ & _ & (Ho & Hl & Hop)). rewrite Hc in Hop.
  pose proof (Z.mod_pos_bound a d ltac:(unfold d; lia)) as Hr.
  destruct (Hcopy (op_offset op + a mod d) (op_offset op + a mod d + len) b) as (b' & -> & Hcop);
    [lia|unfold d in *; lia|done|].
  exists b'. split; [done|]. eapply copies_eq; [done|lia|].
  replace (offA i + a + len - (offA i + a)) with len by lia.
  replace (op_offset op + a mod d + len - (op_offset op + a mod d)) with len by lia.
  symmetry. by apply target_pattern; try lia.
Qed.

Lemma copy_pattern_spec copy i op fix_offset fix_limit b :
  ops !! i = Some op -> action_code op = svn_txdelta_target -> copy_correct copy (offA i) ->
  0 <= fix_offset -> 0 <= fix_limit -> fix_offset + fix_limit < op_length op ->
  baton_ok (sview_len A) b -> offA i + op_length op <= zlen T ->
  exists b', copy_pattern copy op (offA i) fix_offset fix_limit (baton_len b) b = Ok b' /\
    copies b b' (offA i + fix_offset) (offA i + op_length op - fix_limit).
Proof.
  intros Hi Hc Hcopy Hfo Hfl Hlt Hb HT.
  destruct (target_split i op Hi) as (t & _ & _ & Ht & (Ho & Hl & Hop)). rewrite Hc in Hop.
  assert (0 <= offA i) as Hoff by (rewrite <- Ht; apply zlen_nonneg).
  unfold copy_pattern. set (d := offA i - op_offset op).
  assert (0 < d) as Hd by (unfold d; lia).
  pose proof (Z.mod_pos_bound fix_offset d Hd) as Hr.
  rewrite c_assert_lt by lia. cbn [mbind result_bind].
  set (len := Z.min (op_length op - fix_offset - fix_limit) (d - fix_offset mod d)).
  destruct (copy_pattern_part copy i op fix_offset len b) as (b1 & Hc1 & H1);
    [done|done|done|unfold len in *; fold d; lia..|done|].
  fold d in Hc1. rewrite Hc1.
  cbn [mbind result_bind]. rewrite c_assert_le by lia. cbn [mbind result_bind].
  pose proof (copies_len _ _ _ _ Hb H1 ltac:(lia) ltac:(lia)) as Hl1.
  set (len2 := Z.min (op_length op - (fix_offset + len) - fix_limit) (fix_offset mod d)).
  set (prep := if (_ <? _) && _ then _ else _).
  set (more := (0 <? fix_offset mod d) && (fix_offset + len + fix_limit <? op_length op)) in prep.
  assert (exists b2 n, prep = Ok (b2, fix_offset + n, baton_len b + n) /\
    copies b b2 (offA i + fix_offset) (offA i + fix_offset + n) /\ len <= n /\
    fix_offset + n + fix_limit <= op_length op /\
    (fix_offset + n + fix_limit < op_length op -> n = d)) as (b2 & n & -> & H2 & Hn1 & Hn2 & Hn3).
  { unfold prep. destruct more eqn:Em; unfold more in Em.
    - apply andb_true_iff in Em as [E1 E2]. apply Z.ltb_lt in E1. apply Z.ltb_lt in E2.
      assert ((fix_offset + len) mod d = 0) as Hm0.
      { replace (fix_offset + len) with ((fix_offset / d + 1) * d); [by apply Z.mod_mul; lia|].
        pose proof (Z.div_mod fix_offset d ltac:(lia)). unfold len. lia. }
      destruct (copy_pattern_part copy i op (fix_offset + len) len2 b1) as (b2 & Hc2 & H2);
        [done|done|done|lia|lia|lia|fold d; rewrite Hm0; lia|apply H1|].
        fold d in Hc2.
      rewrite Hm0, Z.add_0_r in Hc2. replace (baton_len b + len) with (baton_len b1) by lia.
      rewrite Hc2. cbn [mbind result_bind]. exists b2, (len + len2).
      split_and!; try lia.
      + do 2 f_equal; [f_equal|]; lia.
      + eapply copies_trans; [exact H1| |lia|lia].
        by replace (offA i + fix_offset + len) with (offA i + (fix_offset + len)) by lia;
          replace (offA i + fix_offset + (len + len2)) with (offA i + (fix_offset + len) + len2) by lia.
    - exists b1, len. split_and!; [done|done|lia|lia|].
      intros Hlt2. apply andb_false_iff in Em as [E|E]; [|lia]. apply Z.ltb_ge in E. lia. }
  cbn [mbind result_bind]. rewrite c_assert_le by lia. cbn [mbind result_bind].
  destruct (Z.ltb_spec (fix_offset + n + fix_limit) (op_length op)) as [Hlt2|Hge].
  - specialize (Hn3 Hlt2). subst n.
    pose proof (copies_len _ _ _ _ Hb H2 ltac:(lia) ltac:(lia)) as Hl2.
    destruct (insert_repeat b b2 i op fix_offset (op_length op - (fix_offset + d) - fix_limit))
      as (b3 & Hins & H3); [done|done|lia|lia|fold d; lia|done|done|].
    fold d in Hins, H3. replace (baton_len b + d) with (baton_len b2) by lia.
    rewrite Hins. exists b3. split; [done|].
    by replace (offA i + op_length op - fix_limit)
      with (offA i + fix_offset + d + (op_length op - (fix_offset + d) - fix_limit)) by lia.
  - exists b2. split; [done|].
    by replace (offA i + op_length op - fix_limit) with (offA i + fix_offset + n) by lia.
Qed.

(** One instruction without its start and its end. *)
Lemma copy_op_spec copy i op fix_offset fix_limit b :
  ops !! i = Some op -> copy_correct copy (offA i) ->
  0 <= fix_offset -> 0 <= fix_limit -> fix_offset + fix_limit < op_length op ->
  baton_ok (sview_len A) b -> offA i + op_length op <= zlen T ->
  exists b', copy_op copy A op (offA i) fix_offset fix_limit (baton_len b) b = Ok b' /\
    copies b b' (offA i + fix_offset) (offA i + op_length op - fix_limit).
Proof.
  intros Hi Hcopy Hfo Hfl Hlt Hb HT.
  destruct (target_split i op Hi) as (t & _ & _ & Ht & (Ho & Hl & Hop)).
  assert (0 <= offA i) as Hoff by (rewrite <- Ht; apply zlen_nonneg).
  set (len := op_length op - fix_offset - fix_limit).
  assert (offA i + op_length op - fix_limit - (offA i + fix_offset) = len) as Hlen by lia.
  unfold copy_op, copies. fold len. rewrite Hlen. destruct (action_code op) eqn:Hc; cbn [negb].
  - rewrite bool_decide_false, bool_decide_false by done. cbn [negb].
    destruct (insert_op_spec src (sview_len A) b svn_txdelta_source (op_offset op + fix_offset) len [])
      as (b' & -> & Hb' & _ & Hsem); [done|done|split; lia|].
    exists b'. split_and!; [done..|]. rewrite Hsem. unfold added_sem.
    by rewrite (target_source i op) by (done || lia).
  - rewrite bool_decide_true by done. cbn [negb]. rewrite c_assert_lt by lia. cbn [mbind result_bind].
    destruct (Z.leb_spec (op_offset op + op_length op - fix_limit) (offA i)).
    + destruct (Hcopy (op_offset op + fix_offset) (op_offset op + op_length op - fix_limit) b)
        as (b' & -> & Hb' & Hsem); [lia|done|done|].
      exists b'. split_and!; [done..|]. rewrite Hsem. f_equal.
      rewrite (target_shift i op) by (done || lia). f_equal. lia.
    + destruct (copy_pattern_spec copy i op fix_offset fix_limit b) as (b' & -> & Hcop); [done..|].
      exists b'. split; [done|]. by rewrite <- Hlen.
  - rewrite bool_decide_false, bool_decide_true by done. cbn [negb].
    destruct (insert_op_spec src (sview_len A) b svn_txdelta_new (op_offset op + fix_offset) len
      (drop (Z.to_nat (op_offset op + fix_offset)) (w_new_data A)))
      as (b' & -> & Hb' & _ & Hsem); [done|done| |].
    { split; [lia|]. rewrite zlen_drop; lia. }
    exists b'. split_and!; [done..|]. rewrite Hsem. unfold added_sem.
    rewrite slice_drop, Z.add_0_r by lia. by rewrite (target_new i op) by (done || lia).
Qed.

Lemma copies_refl b z : baton_ok (sview_len A) b -> copies b b z z.
Proof. intros Hb. split; [done|]. by rewrite Z.sub_diag, slice_zero, app_nil_r. Qed.

(** Where the loop is when it comes to instruction [k]. *)
Definition loop_start (offset limit : Z) (k : nat) : Z := Z.min limit (Z.max offset (offA k)).

Lemma offA_le i j : (i <= j <= length ops)%nat -> offA i <= offA j.
Proof.
  intros Hij. destruct (decide (i = j)) as [->|]; [lia|].
  pose proof (off_lt ops ops_positive i j ltac:(lia)). unfold offA. lia.
Qed.

Lemma offA_nonneg i : (i <= length ops)%nat -> 0 <= offA i.
Proof. intros Hi. pose proof (offA_le 0 i ltac:(lia)) as H. by change (offA 0) with 0 in H. Qed.

Lemma copy_loop_spec copy fuel k offset limit b :
  0 <= offset < limit -> limit <= zlen T -> (k <= length ops)%nat ->
  ((k < length ops)%nat -> offset < offA (S k)) -> (length ops - k <= fuel)%nat ->
  (forall i : nat, offA i < limit -> (i < length ops)%nat ->
    copy_correct (copy (Z.of_nat i)) (offA i)) ->
  baton_ok (sview_len A) b ->
  exists b', copy_loop copy A (create_offset_index A) fuel (Z.of_nat k) offset limit
      (baton_len b) b = Ok b' /\ copies b b' (loop_start offset limit k) limit.
Proof.
  intros Hol HlT Hk Hfirst Hfuel Hcopy. revert k b Hk Hfirst Hfuel.
  assert (forall i : nat, (i <= length ops)%nat ->
    off_at (create_offset_index A) (Z.of_nat i) = Ok (offA i)) as Hat
    by (intros i Hi; apply (off_at_spec ops i Hi)).
  induction fuel as [|f IH]; intros k b Hk Hfirst Hfuel Hb; cbn [copy_loop];
    rewrite Hat by done; cbn [mbind result_bind]; unfold loop_start;
    (destruct (Z.leb_spec limit (offA k)) as [Hle|Hgt];
      [exists b; split; [done|]; rewrite Z.min_l by lia; by apply copies_refl|]).
  { replace k with (length ops) in Hgt by lia. rewrite target_zlen in HlT. lia. }
  assert (k < length ops)%nat as Hkl.
  { destruct (decide (k = length ops)) as [->|]; [|lia]. rewrite target_zlen in HlT. lia. }
  specialize (Hfirst Hkl).
  replace (Z.of_nat k + 1) with (Z.of_nat (S k)) by lia. rewrite Hat by lia.
  cbn [mbind result_bind]. rewrite Nat2Z.id.
  destruct (lookup_lt_is_Some_2 ops k Hkl) as [op Hop]. fold ops. rewrite Hop. cbn [mbind result_bind].
  pose proof (off_S ops k op Hop) as HS. change (off ops) with offA in HS.
  set (fo := if offA k <? offset then offset - offA k else 0).
  set (fl := if limit <? offA (S k) then offA (S k) - limit else 0).
  assert (offA k + fo = Z.max offset (offA k)) as Hfo
    by (unfold fo; destruct (Z.ltb_spec (offA k) offset); lia).
  assert (offA (S k) - fl = Z.min limit (offA (S k))) as Hfl
    by (unfold fl; destruct (Z.ltb_spec limit (offA (S k))); lia).
  assert (offA (S k) <= zlen T) as HST by (rewrite target_zlen; apply offA_le; lia).
  pose proof (offA_nonneg k Hk) as Hk0.
  pose proof (ops_positive op (list_elem_of_lookup_2 _ _ _ Hop)) as Hpos.
  rewrite c_assert_lt by lia. cbn [mbind result_bind].
  destruct (copy_op_spec (copy (Z.of_nat k)) k op fo fl b) as (b1 & -> & H1);
    [done|by apply Hcopy|lia|lia|lia|done|lia|].
  cbn [mbind result_bind].
  pose proof (copies_len _ _ _ _ Hb H1 ltac:(lia) ltac:(lia)) as Hl1.
  replace (baton_len b + (op_length op - fo - fl)) with (baton_len b1) by lia.
  destruct (IH (S k) b1) as (b2 & -> & H2); [lia| |lia|apply H1|].
  { intros Hk'. pose proof (offA_le (S k) (S (S k)) ltac:(lia)). lia. }
  exists b2. split; [done|]. unfold loop_start in H2.
  rewrite Z.min_r by lia. rewrite <- Hfo.
  eapply copies_trans; [exact H1| |lia|lia].
  by replace (offA k + op_length op - fl) with (Z.min limit (Z.max offset (offA (S k)))) by lia.
Qed.

(** The copy of a range that ends where instruction [j] starts looks at
    earlier instructions only. *)
Lemma copy_source_ops_bound fuel j hint :
  (j <= length ops)%nat -> (j < fuel)%nat -> 0 <= hint ->
  copy_correct (copy_source_ops fuel A (create_offset_index A) hint) (offA j).
Proof.
  revert j hint. induction fuel as [|f IH]; intros j hint Hj Hf Hh; [lia|].
  intros lo hi b Hlo Hhi Hb. cbn [copy_source_ops].
  assert (offA j <= zlen T) as HjT by (rewrite target_zlen; apply offA_le; lia).
  destruct (search_offset_index_spec ops lo hint) as (k & Hs & Hk & Hk1 & Hk2);
    [|done|].
  { change (off ops) with offA. rewrite <- target_zlen. lia. }
  change (off ops) with offA in Hk1, Hk2.
  change (offsets_from 0 ops) with (create_offset_index A) in Hs. rewrite Hs.
  cbn [mbind result_bind].
  destruct (copy_loop_spec (copy_source_ops f A (create_offset_index A))
    (length (create_offset_index A)) k lo hi b) as (b' & -> & Hc); [done|lia|lia|done| | |done|].
  - unfold create_offset_index. rewrite offsets_length. fold ops. lia.
  - intros i Hi Hil. apply IH; [lia| |lia].
    destruct (decide (i < j)%nat); [lia|]. pose proof (offA_le j i ltac:(lia)). lia.
  - exists b'. split; [done|]. unfold loop_start in Hc. by rewrite Z.max_l, Z.min_r in Hc by lia.
Qed.

(** Any range of the target can be copied. *)
Lemma copy_source_ops_spec lo hi b :
  0 <= lo < hi -> hi <= zlen T -> baton_ok (sview_len A) b ->
  exists b', copy_source_ops (S (length (create_offset_index A))) A (create_offset_index A) 0
      lo hi (baton_len b) b = Ok b' /\ copies b b' lo hi.
Proof.
  intros Hlo Hhi Hb. apply (copy_source_ops_bound _ (length ops)); [lia| |lia|done| |done].
  - unfold create_offset_index. rewrite offsets_length. fold ops. lia.
  - by rewrite <- target_zlen.
Qed.
End Target.
