(* ===== verification/ComposeFacts.v ===== *)
(** * Composing windows

    The splay tree and the list of the index hold the same nodes in the same
    order; splaying, cleaning and inserting keep the order and the validity of
    the nodes, and the list of ranges that is built from the index cuts a
    range of the intermediate text into pieces that are known in the target
    already and pieces that are not.  With this, applying the composed window
    is applying the two windows one after the other. *)

From S2P Require Import Prelude Buffers Delta DeltaFacts Compose ComposeCopyFacts.

(** Lists that are appended, nested to the right. *)
Ltac app_norm := repeat first [rewrite <- app_assoc | progress simpl].

(** ** Splaying *)

Section SplayFacts.
Context (key : nat -> Z).

Definition key_lt (i j : nat) : Prop := key i < key j.

Notation sorted := (StronglySorted key_lt).

Lemma sorted_middle l i r :
  sorted (l ++ i :: r) <->
  sorted l /\ sorted r /\ (forall j, j ∈ l -> key j < key i) /\ (forall j, j ∈ r -> key i < key j).
Proof.
  rewrite StronglySorted_app, StronglySorted_cons, Forall_forall. unfold key_lt.
  setoid_rewrite elem_of_cons. split; [naive_solver|].
  intros (Hl & Hr & H1 & H2). split_and!; try done.
  intros x y Hx [->|Hy]; [by apply H1|]. specialize (H1 _ Hx). specialize (H2 _ Hy). lia.
Qed.

Lemma rotate_right_ids t : tree_ids (rotate_right t) = tree_ids t.
Proof. destruct t as [|[|ll lid lr] id r]; simpl; rewrite <- ?app_assoc; done. Qed.

Lemma rotate_left_ids t : tree_ids (rotate_left t) = tree_ids t.
Proof. destruct t as [|l id [|rl rid rr]]; simpl; rewrite <- ?app_assoc; done. Qed.

Lemma tree_size_ids t : tree_size t = length (tree_ids t).
Proof. induction t as [|l IHl id r IHr]; simpl; rewrite ?length_app; simpl; lia. Qed.

(** The nodes that hang off the scratch node, in order. *)
Definition lefts_ids (lefts : list (nat * splay_tree)) : list nat :=
  fold_right (fun '(id, l) ids => ids ++ tree_ids l ++ [id]) [] lefts.

Definition rights_ids (rights : list (nat * splay_tree)) : list nat :=
  fold_right (fun '(id, r) ids => id :: tree_ids r ++ ids) [] rights.

Lemma link_left_ids lefts t : tree_ids (link_left lefts t) = lefts_ids lefts ++ tree_ids t.
Proof.
  unfold link_left. revert t. induction lefts as [|[id l] lefts IH]; intros t; simpl; [done|].
  rewrite IH. simpl. by rewrite <- !app_assoc.
Qed.

Lemma link_right_ids rights t : tree_ids (link_right rights t) = tree_ids t ++ rights_ids rights.
Proof.
  unfold link_right. revert t. induction rights as [|[id r] rights IH]; intros t; simpl.
  - by rewrite app_nil_r.
  - rewrite IH. simpl. by rewrite <- !app_assoc.
Qed.

(** The root that the loop stops at: the node next to [offset] on either
    side. *)
Definition stopped (offset : Z) (t : splay_tree) : Prop :=
  match t with
  | Leaf => False
  | Node l id r =>
      (offset < key id -> l = Leaf) /\ (key id < offset -> r = Leaf)
  end.

Definition split_at (offset : Z) (lefts rights : list (nat * splay_tree)) : Prop :=
  (forall j, j ∈ lefts_ids lefts -> key j < offset) /\
  (forall j, j ∈ rights_ids rights -> offset < key j).

(** The rotations keep the order of the nodes and the side of the root. *)
Lemma rotated_right offset l id r :
  offset < key id ->
  exists l' i r',
    (if root_test key (fun k => offset <? k) l then rotate_right (Node l id r) else Node l id r) =
      Node l' i r' /\
    tree_ids (Node l' i r') = tree_ids (Node l id r) /\ offset < key i.
Proof.
  intros Hlt. unfold root_test. destruct l as [|ll lid lr]; [by eexists _, _, _|].
  destruct (Z.ltb_spec offset (key lid)); [|by eexists _, _, _].
  eexists _, _, _. split; [reflexivity|]. split; [|done].
  apply (rotate_right_ids (Node (Node ll lid lr) id r)).
Qed.

Lemma rotated_left offset l id r :
  key id < offset ->
  exists l' i r',
    (if root_test key (fun k => k <? offset) r then rotate_left (Node l id r) else Node l id r) =
      Node l' i r' /\
    tree_ids (Node l' i r') = tree_ids (Node l id r) /\ key i < offset.
Proof.
  intros Hlt. unfold root_test. destruct r as [|rl rid rr]; [by eexists _, _, _|].
  destruct (Z.ltb_spec (key rid) offset); [|by eexists _, _, _].
  eexists _, _, _. split; [reflexivity|]. split; [|done].
  apply (rotate_left_ids (Node l id (Node rl rid rr))).
Qed.

Lemma same_ids_size t t' : tree_ids t = tree_ids t' -> tree_size t = tree_size t'.
Proof. intros E. by rewrite !tree_size_ids, E. Qed.

Lemma splay_loop_spec fuel offset t lefts rights :
  t <> Leaf -> (tree_size t <= S fuel)%nat ->
  sorted (tree_ids t) -> split_at offset lefts rights ->
  exists t' lefts' rights',
    splay_loop key fuel offset t lefts rights = Ok (t', lefts', rights') /\
    lefts_ids lefts' ++ tree_ids t' ++ rights_ids rights' =
      lefts_ids lefts ++ tree_ids t ++ rights_ids rights /\
    split_at offset lefts' rights' /\ stopped offset t' /\ sorted (tree_ids t').
Proof.
  revert t lefts rights. induction fuel as [fuel IH] using lt_wf_ind.
  intros [|l id r] lefts rights Hne Hf Hs Hsp; [done|].
  assert (forall l id r, sorted (tree_ids (Node l id r)) -> stopped offset (Node l id r) ->
    exists t' lefts' rights', Ok (Node l id r, lefts, rights) = Ok (t', lefts', rights') /\
      lefts_ids lefts' ++ tree_ids t' ++ rights_ids rights' =
        lefts_ids lefts ++ tree_ids (Node l id r) ++ rights_ids rights /\
      split_at offset lefts' rights' /\ stopped offset t' /\ sorted (tree_ids t')) as Hstop.
  { intros l' id' r' Hs' Hst. by eexists _, lefts, rights. }
  destruct fuel as [|f]; cbn [splay_loop];
    (destruct (Z.ltb_spec offset (key id)) as [Hlt|Hge];
      [|destruct (Z.ltb_spec (key id) offset) as [Hgt|Heq]]);
    try (apply Hstop; [done|simpl; split; intros; lia]);
    try (destruct (rotated_right offset l id r Hlt) as (l' & i & r' & -> & Hids & Hi));
    try (destruct (rotated_left offset l id r Hgt) as (l' & i & r' & -> & Hids & Hi));
    pose proof (same_ids_size _ _ Hids) as Hsize; rewrite <- Hids in Hs |- *;
    pose proof Hs as Hs0; apply sorted_middle in Hs0 as (Hsl & Hsr & Hl & Hr).
  - destruct l'; [|simpl in *; lia]. apply Hstop; [done|]. simpl. split; [done|intros; lia].
  - destruct r'; [|simpl in *; lia]. apply Hstop; [done|]. simpl. split; [intros; lia|done].
  - destruct l' as [|ll lid lr]; [apply Hstop; [done|]; simpl; split; [done|intros; lia]|].
    destruct (IH f ltac:(lia) (Node ll lid lr) lefts ((i, r') :: rights))
      as (t' & le & ri & -> & E & H'); [done|simpl in *; lia|done| |].
    { destruct Hsp as [H1 H2]. split; [done|]. simpl. intros j.
      rewrite elem_of_cons, elem_of_app. intros [->|[Hj|Hj]]; [done| |auto].
      specialize (Hr _ Hj). lia. }
    exists t', le, ri. split; [done|]. split; [|done]. rewrite E. by app_norm.
  - destruct r' as [|rl rid rr]; [apply Hstop; [done|]; simpl; split; [intros; lia|done]|].
    destruct (IH f ltac:(lia) (Node rl rid rr) ((i, l') :: lefts) rights)
      as (t' & le & ri & -> & E & H'); [done|simpl in *; lia|done| |].
    { destruct Hsp as [H1 H2]. split; [|done]. simpl. intros j.
      rewrite !elem_of_app, list_elem_of_singleton. intros [Hj|[Hj| ->]]; [auto| |done].
      specialize (Hl _ Hj). lia. }
    exists t', le, ri. split; [done|]. split; [|done]. rewrite E. by app_norm.
Qed.

(** The rightmost node. *)
Lemma remove_rightmost_ids l id r l' m :
  remove_rightmost l id r = (l', m) -> tree_ids l' ++ [m] = tree_ids (Node l id r).
Proof.
  revert l id l' m. induction r as [|rl IHl rid rr IHr]; intros l id l' m; simpl.
  - by intros [= <- <-].
  - destruct (remove_rightmost rl rid rr) as [r' m'] eqn:E. intros [= <- <-]. simpl.
    rewrite <- app_assoc. simpl. by rewrite (IHr _ _ _ _ E).
Qed.

(** The root is the last node that starts at or before [offset], or there is
    none and the root is the first node. *)
Definition positioned (offset : Z) (t : splay_tree) : Prop :=
  match t with
  | Leaf => True
  | Node l id r =>
      (key id <= offset /\ forall j, j ∈ tree_ids r -> offset < key j) \/
      (offset < key id /\ l = Leaf)
  end.

Lemma turn_around_spec offset l id r :
  (offset < key id -> forall j, j ∈ tree_ids l -> key j < offset) ->
  (forall j, j ∈ tree_ids r -> offset < key j) ->
  tree_ids (turn_around key offset (Node l id r)) = tree_ids (Node l id r) /\
  positioned offset (turn_around key offset (Node l id r)).
Proof.
  intros Hl Hr. unfold turn_around. destruct l as [|ll lid lr].
  { split; [done|]. simpl. destruct (decide (key id <= offset)); [by left|right]. split; [lia|done]. }
  destruct (Z.ltb_spec offset (key id)); [|split; [done|left; auto with lia]].
  destruct lr as [|lrl lrid lrr].
  - simpl. split; [by rewrite <- app_assoc|]. left.
    split; [specialize (Hl H lid ltac:(set_solver)); lia|]. set_solver.
  - cbn [is_leaf]. destruct (remove_rightmost ll lid (Node lrl lrid lrr)) as [l' m] eqn:E.
    apply remove_rightmost_ids in E. split.
    + cbn [tree_ids]. cbn [tree_ids] in E. rewrite <- E. by rewrite <- app_assoc.
    + left. split; [specialize (Hl H m ltac:(rewrite <- E; set_solver)); lia|].
      cbn [tree_ids]. set_solver.
Qed.

(** [splay] never runs out of fuel and finds the node next to [offset]. *)
Lemma splay_spec offset t :
  sorted (tree_ids t) ->
  exists t', splay key offset t = Ok t' /\ tree_ids t' = tree_ids t /\ positioned offset t'.
Proof.
  intros Hs. destruct t as [|l id r]; [by exists Leaf|]. unfold splay.
  destruct (splay_loop_spec (tree_size (Node l id r)) offset (Node l id r) [] [])
    as (t' & le & ri & -> & E & [Hle Hri] & Hst & Hs'); [done|simpl; lia|done| |].
  { split; intros j Hj; by apply not_elem_of_nil in Hj. }
  cbn [mbind result_bind]. destruct t' as [|l' id' r']; [done|]. destruct Hst as [Hst1 Hst2].
  apply sorted_middle in Hs' as (_ & _ & Hl & Hr).
  eexists. split; [reflexivity|]. simpl in E. rewrite app_nil_r in E.
  destruct (turn_around_spec offset (link_left le l') id' (link_right ri r')) as [E' Hp].
  - intros Hlt. rewrite (Hst1 Hlt). rewrite link_left_ids, app_nil_r. done.
  - intros j. rewrite link_right_ids, elem_of_app. intros [Hj|Hj]; [|auto].
    specialize (Hr _ Hj). destruct (decide (key id' < offset)) as [Hlt|]; [|lia].
    rewrite (Hst2 Hlt) in Hj. by apply not_elem_of_nil in Hj.
  - split; [|done]. rewrite E'. simpl. rewrite link_left_ids, link_right_ids, <- E.
    by app_norm.
Qed.
End SplayFacts.

(** ** Removing what is superseded *)

Lemma filter_ext_in {A} (P Q : A -> Prop) `{!forall x, Decision (P x)} `{!forall x, Decision (Q x)}
    (l : list A) :
  (forall x, x ∈ l -> P x <-> Q x) -> filter P l = filter Q l.
Proof.
  induction l as [|x l IH]; intros Hl; [done|]. rewrite !filter_cons, IH by set_solver.
  specialize (Hl x ltac:(set_solver)). destruct (decide (P x)), (decide (Q x)); tauto.
Qed.

Lemma filter_none {A} (P : A -> Prop) `{!forall x, Decision (P x)} (l : list A) :
  (forall x, x ∈ l -> ~ P x) -> filter P l = [].
Proof.
  intros Hn. induction l as [|x l IH]; [done|].
  rewrite filter_cons_False by (apply Hn; set_solver). apply IH. set_solver.
Qed.

(** The nodes that are left of a list, when the ones that go are all in its
    front part or all in its back part. *)
Lemma remaining_back (l r freed : list nat) :
  NoDup (l ++ r) -> (forall i, i ∈ freed -> i ∈ r) ->
  filter (fun i => i ∉ l ++ freed) (l ++ r) = filter (fun i => i ∉ freed) r /\
  filter (fun i => i ∉ freed) (l ++ r) = l ++ filter (fun i => i ∉ freed) r.
Proof.
  intros (_ & Hd & _)%NoDup_app Hf. rewrite !filter_app. split.
  - rewrite filter_none by set_solver. apply filter_ext_in. set_solver.
  - f_equal. apply filter_all, Forall_forall. set_solver.
Qed.

Lemma remaining_front (l r freed : list nat) :
  NoDup (l ++ r) -> (forall i, i ∈ freed -> i ∈ l) ->
  filter (fun i => i ∉ freed) (l ++ r) = filter (fun i => i ∉ freed) l ++ r.
Proof.
  intros (_ & Hd & _)%NoDup_app Hf. rewrite filter_app. f_equal.
  apply filter_all, Forall_forall. set_solver.
Qed.

Lemma clean_loop_spec node limit top t t' freed :
  clean_loop node limit top t = (t', freed) -> NoDup (tree_ids t) ->
  tree_ids t' = filter (fun i => i ∉ freed) (tree_ids t) /\
  (forall i, i ∈ freed -> i ∈ tree_ids t).
Proof.
  revert top t' freed. induction t as [|l IHl id r IHr]; intros top t' freed; cbn [clean_loop].
  { by intros [= <- <-]. }
  intros E Hnd. simpl in Hnd. destruct (_ || _).
  - destruct (clean_loop _ _ _ r) as [r' freed'] eqn:Er. injection E as <- <-.
    rewrite cons_middle, app_assoc in Hnd.
    pose proof Hnd as (_ & _ & Hndr)%NoDup_app.
    destruct (IHr _ _ _ Er Hndr) as [-> Hf]. split.
    + destruct (remaining_back _ _ _ Hnd Hf) as [<- _]. cbn [tree_ids].
      by rewrite <- !app_assoc.
    + intros i. simpl. rewrite !elem_of_app, !elem_of_cons. naive_solver.
  - destruct (clean_loop _ _ _ l) as [l' freed'] eqn:El. injection E as <- <-.
    pose proof Hnd as (Hndl & _ & _)%NoDup_app.
    destruct (IHl _ _ _ El Hndl) as [Hl' Hf]. split.
    + simpl. rewrite Hl'. symmetry. by apply remaining_front.
    + intros i. simpl. rewrite !elem_of_app. naive_solver.
Qed.

(** ** The invariant of the index *)

Section IndexInvariant.
Context (text : bytes).

(** What a node says of the target [done] that is written so far. *)
Definition node_valid (target : bytes) (node : range_index_node_t) : Prop :=
  0 <= n_offset node < n_limit node /\ n_limit node <= zlen text /\
  0 <= n_target_offset node /\
  n_target_offset node + (n_limit node - n_offset node) <= zlen target /\
  slice target (n_target_offset node) (n_limit node - n_offset node) =
    slice text (n_offset node) (n_limit node - n_offset node).

Definition store_key (store : gmap nat range_index_node_t) (id : nat) : Z :=
  n_offset (node_at store id).

Record index_ok (target : bytes) (ndx : range_index_t) : Prop := {
  index_list : ri_list ndx = tree_ids (ri_tree ndx);
  index_sorted : StronglySorted (key_lt (store_key (ri_store ndx))) (ri_list ndx);
  index_fresh : forall i, i ∈ ri_list ndx -> (i < ri_next ndx)%nat;
  index_valid : forall i, i ∈ ri_list ndx -> node_valid target (node_at (ri_store ndx) i)
}.

Lemma create_range_index_ok target : index_ok target create_range_index.
Proof. split; simpl; [done|constructor|set_solver..]. Qed.

Lemma node_valid_app target extra node : node_valid target node -> node_valid (target ++ extra) node.
Proof.
  intros (? & ? & ? & ? & ?). unfold node_valid. rewrite zlen_app. pose proof (zlen_nonneg extra).
  split_and!; try lia. by rewrite slice_prefix by lia.
Qed.

Lemma index_ok_app target extra ndx : index_ok target ndx -> index_ok (target ++ extra) ndx.
Proof. intros []. split; auto using node_valid_app. Qed.

Lemma sorted_NoDup key l : StronglySorted (key_lt key) l -> NoDup l.
Proof.
  induction 1 as [|i l Hs IH Hall]; constructor; [|done].
  intros Hin. rewrite Forall_forall in Hall. specialize (Hall _ Hin). unfold key_lt in Hall. lia.
Qed.

Lemma sorted_ext key key' l :
  (forall i, i ∈ l -> key' i = key i) -> StronglySorted (key_lt key) l -> StronglySorted (key_lt key') l.
Proof.
  intros H Hs. revert H. induction Hs as [|i l Hs IH Hall]; intros H; constructor.
  - apply IH. set_solver.
  - rewrite Forall_forall in *. intros j Hj. unfold key_lt in *.
    rewrite !H by set_solver. auto.
Qed.

Lemma sorted_filter key (P : nat -> Prop) `{!forall x, Decision (P x)} l :
  StronglySorted (key_lt key) l -> StronglySorted (key_lt key) (filter P l).
Proof.
  induction 1 as [|i l Hs IH Hall]; [constructor|]. rewrite filter_cons. case_decide; [|done].
  constructor; [done|]. rewrite Forall_forall in *. intros j Hj%list_elem_of_filter. naive_solver.
Qed.

(** The index after the nodes of [freed] are gone. *)
Lemma clean_tree_ok target limit ndx : index_ok target ndx -> index_ok target (clean_tree limit ndx).
Proof.
  intros [Hlist Hsorted Hfresh Hvalid]. unfold clean_tree.
  destruct (ri_tree ndx) as [|l id r] eqn:Et; [by split; rewrite ?Et|].
  destruct (clean_loop _ _ _ r) as [r' freed] eqn:Ec.
  pose proof (sorted_NoDup _ _ Hsorted) as Hnd. rewrite Hlist in Hnd. simpl in Hnd.
  rewrite cons_middle, app_assoc in Hnd. pose proof Hnd as (_ & _ & Hndr)%NoDup_app.
  apply clean_loop_spec in Ec as [Er Hf]; [|done].
  assert (forall i, i ∉ freed ->
    node_at (foldr delete (ri_store ndx) freed) i = node_at (ri_store ndx) i) as Hnode
    by (intros i Hi; unfold node_at; by rewrite lookup_foldr_delete_not_elem_of).
  split; simpl.
  - rewrite Hlist, Er. simpl. rewrite cons_middle, !app_assoc.
    destruct (remaining_back _ _ _ Hnd Hf) as [_ ->]. by rewrite <- app_assoc.
  - eapply sorted_ext; [|by apply sorted_filter].
    intros i [Hi _]%list_elem_of_filter. unfold store_key. by rewrite Hnode.
  - intros i [_ Hi]%list_elem_of_filter. auto.
  - intros i [Hi Hin]%list_elem_of_filter. rewrite Hnode by done. auto.
Qed.

(** ** Splaying the index *)

Lemma splay_range_index_spec target offset ndx :
  index_ok target ndx ->
  exists ndx', splay_range_index offset ndx = Ok ndx' /\ index_ok target ndx' /\
    positioned (store_key (ri_store ndx')) offset (ri_tree ndx').
Proof.
  intros Hok. pose proof Hok as [Hlist Hsorted Hfresh Hvalid]. unfold splay_range_index.
  rewrite Hlist in Hsorted.
  destruct (splay_spec (store_key (ri_store ndx)) offset (ri_tree ndx) Hsorted)
    as (t & E & Hids & Hpos).
  unfold store_key in E at 1. unfold ri_node. rewrite E. cbn [mbind result_bind].
  destruct t as [|l id r].
  - exists ndx. split; [done|]. split; [done|]. destruct (ri_tree ndx) as [|l id r]; [done|].
    apply (f_equal length) in Hids. simpl in Hids. rewrite length_app in Hids. simpl in Hids. lia.
  - rewrite c_assert_true.
    + eexists. split; [reflexivity|]. split; [|done]. split; simpl; [|by rewrite Hlist|done..].
      by rewrite Hlist, <- Hids.
    + apply orb_true_iff. destruct Hpos as [[Hle _]|[_ ->]].
      * left. unfold store_key in Hle. lia.
      * right. simpl. apply bool_decide_eq_true. by rewrite Hlist, <- Hids.
Qed.

(** ** Inserting a range *)

(** A node that is put into its place, new or with a new value. *)
Lemma index_set target store tree l1 id l2 new next :
  StronglySorted (key_lt (store_key store)) (l1 ++ l2) -> id ∉ l1 ++ l2 ->
  (forall i, i ∈ l1 ++ id :: l2 -> (i < next)%nat) ->
  (forall i, i ∈ l1 ++ l2 -> node_valid target (node_at store i)) ->
  (forall i, i ∈ l1 -> store_key store i < n_offset new) ->
  (forall i, i ∈ l2 -> n_offset new < store_key store i) ->
  node_valid target new -> tree_ids tree = l1 ++ id :: l2 ->
  index_ok target (mk_index (<[id := new]> store) tree (l1 ++ id :: l2) next).
Proof.
  intros Hs Hid Hnext Hval Hl1 Hl2 Hnew Htree.
  assert (node_at (<[id := new]> store) id = new) as Hat
    by (unfold node_at; by rewrite lookup_insert_eq).
  assert (store_key (<[id := new]> store) id = n_offset new) as Hkid
    by (unfold store_key; by rewrite Hat).
  assert (forall i, i ∈ l1 ++ l2 -> node_at (<[id := new]> store) i = node_at store i) as Hne
    by (intros i Hi; unfold node_at; rewrite lookup_insert_ne; set_solver).
  assert (forall i, i ∈ l1 ++ l2 -> store_key (<[id := new]> store) i = store_key store i) as Hk
    by (intros i Hi; unfold store_key; by rewrite Hne).
  apply (sorted_ext _ _ _ Hk) in Hs.
  split; simpl; [done| |done|].
  - apply sorted_middle. rewrite Hkid.
    split_and!; [by apply StronglySorted_app_1_l in Hs|by apply StronglySorted_app_1_r in Hs|..];
      intros j Hj; rewrite Hk by set_solver; auto.
  - intros i Hi. rewrite elem_of_app, elem_of_cons in Hi.
    destruct (decide (i = id)) as [->|]; [by rewrite Hat|].
    rewrite Hne by set_solver. apply Hval. set_solver.
Qed.

Lemma insert_behind_spec id new l r :
  id ∉ l -> insert_behind id new (l ++ id :: r) = l ++ id :: new :: r.
Proof.
  induction l as [|i l IH]; intros Hid; simpl; [by rewrite decide_True|].
  rewrite decide_False by set_solver. by rewrite IH by set_solver.
Qed.

(** Inserting keeps the invariant and none of its assertions fails, when the
    index was splayed to the start of the range. *)
Lemma insert_range_spec target offset limit target_offset ndx :
  index_ok target ndx -> positioned (store_key (ri_store ndx)) offset (ri_tree ndx) ->
  node_valid target (mk_node offset limit target_offset) ->
  exists ndx', insert_range offset limit target_offset ndx = Ok ndx' /\ index_ok target ndx'.
Proof.
  intros [Hlist Hsorted Hfresh Hvalid] Hpos Hnew. unfold insert_range.
  destruct ndx as [store tree ids next]. simpl in *.
  destruct tree as [|l id r]; simpl in Hlist; subst ids.
  { eexists. split; [reflexivity|]. apply (index_set _ _ _ [] next []); simpl; try done;
      try set_solver; try constructor. }
  pose proof (sorted_NoDup _ _ Hsorted) as Hnd.
  apply NoDup_app in Hnd as (_ & Hidl & [Hidr _]%NoDup_cons).
  assert (id ∉ tree_ids l) as Hid by (intros H; apply (Hidl _ H); set_solver).
  pose proof Hsorted as (Hsl & Hsr & Hl & Hr)%sorted_middle.
  assert (StronglySorted (key_lt (store_key store)) (tree_ids l ++ tree_ids r)) as Hslr.
  { apply StronglySorted_app_2; [|done|done]. intros i j Hi Hj. unfold key_lt.
    specialize (Hl _ Hi). specialize (Hr _ Hj). lia. }
  assert (next ∉ tree_ids l ++ id :: tree_ids r) as Hnext by (intros H%Hfresh; lia).
  assert (id ∉ tree_ids l ++ tree_ids r) as Hnid by (intros [|]%elem_of_app; done).
  assert (forall i, i ∈ tree_ids l ++ tree_ids r -> i ∈ tree_ids l ++ id :: tree_ids r) as Hsub
    by (intros i; rewrite !elem_of_app, elem_of_cons; tauto).
  unfold ri_node. simpl. change (n_offset (node_at store id)) with (store_key store id).
  destruct Hpos as [[Hle Hgt]|[Hlt ->]].
  - destruct (_ && _) eqn:E1.
    { apply andb_true_iff in E1 as [E1 _]. apply Z.eqb_eq in E1.
      eexists. split; [reflexivity|]. apply clean_tree_ok. subst offset.
      apply index_set; simpl; auto. }
    destruct ((store_key store id <? offset) && _) eqn:E2.
    + apply andb_true_iff in E2 as [E2 _]. apply Z.ltb_lt in E2.
      match goal with |- context [if ?b then if ?c then _ else _ else Ok _] =>
        destruct b; [destruct c|by eexists] end.
      * eexists. split; [reflexivity|]. apply clean_tree_ok.
        apply index_set; simpl; auto. intros i Hi. specialize (Hl _ Hi). lia.
      * eexists. split; [reflexivity|]. apply clean_tree_ok.
        rewrite insert_behind_spec by done. rewrite (cons_middle id), app_assoc.
        apply index_set; rewrite <- ?app_assoc; simpl; auto.
        -- intros i Hi. apply Nat.lt_succ_r. rewrite elem_of_app, !elem_of_cons in Hi.
           destruct (decide (i = next)) as [->|]; [lia|].
           apply Nat.lt_le_incl, Hfresh. rewrite elem_of_app, elem_of_cons. tauto.
        -- intros i. rewrite elem_of_app, list_elem_of_singleton. intros [Hi| ->]; [|done].
           specialize (Hl _ Hi). lia.
        -- by rewrite <- app_assoc.
    + destruct (Z.ltb_spec offset (store_key store id)); [lia|]. by eexists.
  - destruct (Z.eqb_spec offset (store_key store id)); [lia|].
    destruct (Z.ltb_spec (store_key store id) offset); [lia|]. simpl.
    rewrite (proj2 (Z.ltb_lt _ _)) by done. eexists. split; [reflexivity|]. apply clean_tree_ok.
    apply (index_set _ _ _ [] next (id :: tree_ids r)); simpl in *; auto.
    + intros i [->|Hi]%elem_of_cons; [lia|]. specialize (Hfresh i Hi). lia.
    + intros i Hi. by apply not_elem_of_nil in Hi.
    + intros i [->|Hi]%elem_of_cons; [done|]. specialize (Hr _ Hi). lia.
Qed.

(** ** The list of ranges *)

(** Adjacent pieces that cover [offset] to [limit]; what the target is said to
    have is there. *)
Fixpoint ranges_ok (target : bytes) (offset limit : Z) (ranges : list range_list_node_t) : Prop :=
  match ranges with
  | [] => offset = limit
  | range :: ranges =>
      rl_offset range = offset /\ offset < rl_limit range <= limit /\
      match rl_kind range with
      | range_from_source => True
      | range_from_target =>
          node_valid target (mk_node offset (rl_limit range) (rl_target_offset range))
      end /\
      ranges_ok target (rl_limit range) limit ranges
  end.

(** A part of a valid node. *)
Lemma node_valid_part target node offset limit :
  node_valid target node -> n_offset node <= offset < limit -> limit <= n_limit node ->
  node_valid target (mk_node offset limit (offset - n_offset node + n_target_offset node)).
Proof.
  intros (? & ? & ? & ? & Hs) ? ?. unfold node_valid. simpl. split_and!; try lia.
  set (d := offset - n_offset node).
  apply (f_equal (fun s => slice s d (limit - offset))) in Hs.
  rewrite !slice_slice in Hs by (unfold d; lia).
  replace (d + n_target_offset node) with (n_target_offset node + d) by lia. rewrite Hs.
  f_equal. unfold d. lia.
Qed.

(** How often the loop runs: a node in front of [offset] takes one step. *)
Definition steps_needed (ndx : range_index_t) (ids : list nat) (offset : Z) : nat :=
  match ids with
  | id :: ids' => if offset <? n_offset (ri_node ndx id) then 2 * length ids else S (2 * length ids')
  | [] => O
  end.

Lemma steps_needed_le ndx ids offset : (steps_needed ndx ids offset <= 2 * length ids)%nat.
Proof. destruct ids as [|id ids]; simpl; [lia|]. destruct (_ <? _); lia. Qed.

Lemma build_loop_spec target fuel ndx ids offset limit :
  (forall i, i ∈ ids -> node_valid target (ri_node ndx i)) ->
  (steps_needed ndx ids offset <= fuel)%nat -> offset < limit ->
  exists ranges, build_loop fuel ndx ids offset limit = Ok ranges /\
    ranges_ok target offset limit ranges.
Proof.
  revert ids offset. induction fuel as [|f IH]; intros [|id ids'] offset Hval Hf Hlt;
    cbn [build_loop]; rewrite (proj2 (Z.ltb_lt _ _) Hlt);
    try (eexists; split; [reflexivity|]; simpl; split_and!; (done || lia)).
  { simpl in Hf. destruct (_ <? _); lia. }
  pose proof (Hval id ltac:(set_solver)) as Hnode. pose proof Hnode as (Hn & _).
  pose proof (fun o => steps_needed_le ndx ids' o) as Hle.
  cbn [steps_needed] in Hf.
  destruct (Z.ltb_spec offset (n_offset (ri_node ndx id))) as [Ho|Ho].
  - destruct (Z.leb_spec limit (n_offset (ri_node ndx id))) as [Hl|Hl].
    { eexists. split; [reflexivity|]. simpl. split_and!; (done || lia). }
    destruct (IH (id :: ids') (n_offset (ri_node ndx id))) as (rest & -> & Hrest); [done| |lia|].
    { cbn [steps_needed]. rewrite Z.ltb_irrefl. simpl in Hf. lia. }
    eexists. split; [reflexivity|]. simpl. split_and!; (done || lia).
  - assert (forall offset, offset < limit -> exists ranges,
      build_loop f ndx ids' offset limit = Ok ranges /\ ranges_ok target offset limit ranges) as Hnext.
    { intros o Hol. apply IH; [set_solver|specialize (Hle o); lia|done]. }
    destruct (Z.leb_spec (n_limit (ri_node ndx id)) offset) as [Hb|Hb]; [by apply Hnext|].
    destruct (Z.leb_spec limit (n_limit (ri_node ndx id))) as [Hl|Hl].
    { eexists. split; [reflexivity|]. cbn -[node_valid]. split_and!; [done|lia|lia| |done].
      apply node_valid_part; (done || lia). }
    destruct (Hnext (n_limit (ri_node ndx id)) Hl) as (rest & -> & Hrest).
    eexists. split; [reflexivity|]. cbn -[node_valid]. split_and!; [done|lia|lia| |done].
    apply node_valid_part; (done || lia).
Qed.

Lemma from_id_sub id ids i : i ∈ from_id id ids -> i ∈ ids.
Proof. induction ids as [|j ids IH]; simpl; [done|]. case_decide; [done|]. set_solver. Qed.

(** Every range is cut into such pieces. *)
Lemma build_range_list_spec target offset limit ndx :
  index_ok target ndx -> offset < limit ->
  exists ranges, build_range_list offset limit ndx = Ok ranges /\
    ranges_ok target offset limit ranges.
Proof.
  intros [_ _ _ Hval] Hlt. unfold build_range_list. apply build_loop_spec; [|apply steps_needed_le|done].
  intros i Hi. apply Hval. destruct (ri_tree ndx); [by apply not_elem_of_nil in Hi|].
  by eapply from_id_sub.
Qed.
End IndexInvariant.

(** * Composing deltas is composing their meanings

    [svn_txdelta_compose_windows] never fails on windows that fit each other;
    the window it returns is valid, and applying it is applying the two
    windows one after the other. *)

Section ComposeFacts.
Context (A B : svn_txdelta_window_t) (src : bytes).
Context (HA : window_ok A) (HB : window_ok B).
Context (Hsrc : sview_len A <= zlen src) (Hfit : sview_len B <= tview_len A).

Let text := window_sem A src.
Let slen := sview_len A.

Lemma text_zlen : zlen text = tview_len A.
Proof. by apply window_sem_zlen. Qed.

(** ** The ranges of one instruction *)

Lemma ranges_ok_app target extra offset limit ranges :
  ranges_ok text target offset limit ranges -> ranges_ok text (target ++ extra) offset limit ranges.
Proof.
  revert offset. induction ranges as [|range ranges IH]; intros offset; cbn -[node_valid]; [done|].
  intros (? & ? & Hk & ?). split_and!; try (done || lia); auto.
  destruct (rl_kind range); [done|]. by apply node_valid_app.
Qed.

Lemma copy_ranges_spec ranges offset limit b :
  baton_ok slen b -> 0 <= offset -> limit <= zlen text ->
  ranges_ok text (baton_sem src b) offset limit ranges ->
  exists b', copy_ranges A (create_offset_index A) ranges (baton_len b) b =
      Ok (b', baton_len b + (limit - offset)) /\
    copies A src b b' offset limit /\ offset <= limit.
Proof.
  revert offset b. induction ranges as [|range ranges IH]; intros offset b Hb Ho Hl Hr.
  { simpl in Hr. subst limit. exists b. simpl. rewrite Z.sub_diag, Z.add_0_r. split_and!; [done| |lia].
    by apply copies_refl. }
  cbn -[node_valid] in Hr. destruct Hr as (Hoff & Hlim & Hkind & Hrest).
  cbn [copy_ranges]. rewrite Hoff.
  assert (exists b1, match rl_kind range with
     | range_from_source => copy_source_ops (S (length (create_offset_index A))) A
         (create_offset_index A) 0 offset (rl_limit range) (baton_len b) b
     | range_from_target => svn_txdelta__insert_op b svn_txdelta_target (rl_target_offset range)
         (rl_limit range - offset) []
     end = Ok b1 /\ copies A src b b1 offset (rl_limit range)) as (b1 & E & H1).
  { destruct (rl_kind range).
    - apply copy_source_ops_spec; [done|done|lia|fold text; lia|done].
    - destruct Hkind as (Hn1 & Hn2 & Hn3 & Hn4 & Hs). simpl in *.
      pose proof (baton_sem_zlen src slen b Hb Hsrc) as Hz.
      destruct (insert_op_spec src slen b svn_txdelta_target (rl_target_offset range)
        (rl_limit range - offset) []) as (b1 & -> & Hb1 & _ & Hsem); [done|done|split; lia|].
      exists b1. split; [done|]. split; [done|]. rewrite Hsem. unfold added_sem.
      rewrite target_copy_slice, Z2Nat.id by lia. by rewrite Hs. }
  rewrite E. cbn [mbind result_bind].
  pose proof H1 as [Hb1 Hsem1].
  assert (baton_len b1 = baton_len b + (rl_limit range - offset)) as Hlen
    by (eapply copies_len; [exact Hsrc|done|exact H1|lia|fold text; lia]).
  rewrite <- Hlen.
  destruct (IH (rl_limit range) b1) as (b' & -> & H2 & Hle); [done|lia|done| |].
  { rewrite Hsem1. by apply ranges_ok_app. }
  exists b'. split; [do 2 f_equal; lia|]. split; [|lia].
  eapply copies_trans; [exact H1|exact H2|lia|lia].
Qed.

(** ** One instruction *)

(** What the loop has done when the target [target] is described. *)
Record compose_ok (target : bytes) (st : compose_state) : Prop := {
  compose_baton : baton_ok slen (cs_baton st);
  compose_sem : baton_sem src (cs_baton st) = target;
  compose_index : index_ok text target (cs_index st);
  compose_offset : cs_target_offset st = zlen target
}.

Lemma compose_op_spec target op st :
  compose_ok target st -> op_ok (sview_len B) (zlen (w_new_data B)) (zlen target) op ->
  exists st', compose_op A B (create_offset_index A) op st = Ok st' /\
    compose_ok (op_sem text (w_new_data B) target op) st'.
Proof.
  intros [Hb Hsem Hndx Hoff] Hop. destruct st as [b ndx off]. simpl in *. subst off.
  pose proof (baton_sem_zlen src slen b Hb Hsrc) as Hz. rewrite Hsem in Hz.
  pose proof text_zlen as Htz.
  assert (zlen (op_sem text (w_new_data B) target op) = zlen target + op_length op) as Hlen
    by (eapply op_sem_zlen; [exact Hop|lia|lia]).
  pose proof Hop as (Ho & Hl & Hc). unfold compose_op.
  destruct (action_code op) eqn:Hcode; simpl.
  - destruct (splay_range_index_spec _ _ (op_offset op) _ Hndx) as (ndx1 & -> & Hndx1 & Hpos).
    cbn [mbind result_bind].
    destruct (build_range_list_spec text target (op_offset op) (op_offset op + op_length op) ndx1)
      as (ranges & -> & Hranges); [done|lia|]. cbn [mbind result_bind].
    rewrite <- Hsem in Hranges. rewrite Hz.
    destruct (copy_ranges_spec ranges (op_offset op) (op_offset op + op_length op) b)
      as (b' & E & [Hb' Hsem'] & _); [done|done|lia|done|]. unfold baton_len in E. rewrite E.
    cbn [mbind result_bind]. rewrite c_assert_eq by lia. cbn [mbind result_bind].
    replace (op_offset op + op_length op - op_offset op) with (op_length op) in Hsem' by lia.
    fold text in Hsem'. rewrite Hsem in Hsem'. rewrite <- Hz.
    assert (op_sem text (w_new_data B) target op =
      target ++ slice text (op_offset op) (op_length op)) as Htarget
      by (unfold op_sem; by rewrite Hcode).
    rewrite Htarget in *.
    destruct (insert_range_spec text (target ++ slice text (op_offset op) (op_length op))
      (op_offset op) (op_offset op + op_length op) (zlen target) ndx1)
      as (ndx2 & -> & Hndx2); [by apply index_ok_app|done| |].
    { unfold node_valid. simpl. pose proof (zlen_nonneg target). split_and!; try lia.
      rewrite slice_suffix, take_slice by lia. f_equal. lia. }
    eexists. split; [reflexivity|]. split; simpl; (done || lia).
  - destruct (insert_op_spec src slen b svn_txdelta_target (op_offset op) (op_length op) [])
      as (b' & -> & Hb' & _ & Hsem'); [done|done|split; lia|].
    eexists. split; [reflexivity|]. rewrite Hsem in Hsem'. unfold op_sem in *. rewrite Hcode in *.
    split; simpl; [done|done| |lia].
    destruct (target_copy_app target (op_offset op) (Z.to_nat (op_length op))) as (u & -> & _).
    by apply index_ok_app.
  - destruct (insert_op_spec src slen b svn_txdelta_new (op_offset op) (op_length op)
      (drop (Z.to_nat (op_offset op)) (w_new_data B)))
      as (b' & -> & Hb' & _ & Hsem'); [done|done|split; [lia|rewrite zlen_drop; lia]|].
    eexists. split; [reflexivity|]. rewrite Hsem in Hsem'. unfold op_sem, added_sem in *.
    rewrite Hcode in *. rewrite slice_drop, Z.add_0_r in Hsem' by lia.
    split; simpl; [done|done| |lia]. by apply index_ok_app.
Qed.

Lemma compose_ops_spec ops target st :
  compose_ok target st -> ops_ok (sview_len B) (zlen (w_new_data B)) (zlen target) ops ->
  exists st', compose_ops A B (create_offset_index A) ops st = Ok st' /\
    compose_ok (ops_sem text (w_new_data B) target ops) st'.
Proof.
  revert target st. induction ops as [|op ops IH]; intros target st Hst; simpl; [by exists st|].
  intros [Hop Hops]. destruct (compose_op_spec target op st Hst Hop) as (st1 & -> & Hst1).
  cbn [mbind result_bind]. apply IH; [done|].
  erewrite op_sem_zlen; [done|exact Hop|rewrite text_zlen; lia|lia].
Qed.

(** ** The windows *)

Lemma compose_windows_spec :
  exists C, svn_txdelta_compose_windows A B = Ok C /\ window_ok C /\
    window_sem C src = window_sem B (window_sem A src) /\
    sview_offset C = sview_offset A /\ sview_len C = sview_len A /\ tview_len C = tview_len B.
Proof.
  pose proof HB as (Hops & Hsum & _ & Hb1 & Hb2 & Hb3).
  destruct (compose_ops_spec (w_ops B) [] (mk_compose_state empty_ops_baton create_range_index 0))
    as (st & E & [Hb Hsem _ _]); [|done|].
  { split; simpl; [apply empty_baton_ok|done|apply create_range_index_ok|done]. }
  unfold svn_txdelta_compose_windows. rewrite E. cbn [mbind result_bind].
  eexists. split; [reflexivity|]. pose proof HA as (_ & _ & Ha & Ha' & _).
  pose proof (baton_sem_zlen src slen _ Hb Hsrc) as Hz. rewrite Hsem in Hz.
  change (ops_sem text (w_new_data B) [] (w_ops B)) with (window_sem B text) in Hz.
  rewrite window_sem_zlen in Hz by (try done; rewrite text_zlen; lia).
  destruct Hb as [Hbops _ Hnew].
  split; [|split; [exact Hsem|done]].
  unfold window_ok. simpl.
  pose proof (new_len_le_ops_len _ _ _ _ Hbops). split_and!; try (done || lia).
Qed.
End ComposeFacts.
