(* ===== verification/Compress.v ===== *)
(** * Compressed sections (libsvn_subr/compress_zlib.c, compress_lz4.c)

    A section is stored with its original length in front, compressed only if
    that makes it shorter.  The compressors themselves are parameters. *)

From S2P Require Import Prelude Buffers Encode.

(** What zlib's [compress2] and [uncompress] give for a string, and a string
    and the size of the output buffer; an error is the one that
    [svn_error__wrap_zlib] makes of the return code. *)
Class Zlib := {
  compress2 : bytes -> Z -> result bytes;
  uncompress : bytes -> Z -> result bytes
}.

Class ZlibLaws (zlib : Zlib) : Prop :=
  uncompress_compress2 data level out :
    compress2 data level = Ok out -> uncompress out (zlen data) = Ok data.

(** LZ4's [LZ4_compress_default], with an empty result when it fails, and
    [LZ4_decompress_safe], with none when it fails. *)
Class Lz4 := {
  LZ4_compress_default : bytes -> bytes;
  LZ4_decompress_safe : bytes -> Z -> option bytes
}.

Class Lz4Laws (lz4 : Lz4) : Prop :=
  decompress_compress_lz4 data :
    LZ4_compress_default data <> [] ->
    LZ4_decompress_safe (LZ4_compress_default data) (zlen data) = Some data.

Definition MIN_COMPRESS_SIZE : Z := 512.
Definition SVN__COMPRESSION_NONE : Z := 0.
Definition SVN__COMPRESSION_ZLIB_MAX : Z := 9.
Definition SVN_DELTA_COMPRESSION_LEVEL_DEFAULT : Z := 5.
Definition LZ4_MAX_INPUT_SIZE : Z := 0x7E000000.
Definition INT_MAX : Z := 2 ^ 31 - 1.

(** ** zlib *)

Section ZlibSections.
Context `{zlib : Zlib}.

Definition zlib_encode (data : bytes) (compression_level : Z) : result bytes :=
  let len := zlen data in
  let out := svn__encode_uint len in
  if (len <? MIN_COMPRESS_SIZE) || (compression_level =? SVN__COMPRESSION_NONE) then
    Ok (out ++ data)
  else
    compressed ← compress2 data compression_level;
    if len <=? zlen compressed then Ok (out ++ data) else Ok (out ++ compressed).

Definition zlib_decode (in_ : bytes) (limit : Z) : result bytes :=
  match svn__decode_uint in_ with
  | None => Err SVN_ERR_SVNDIFF_INVALID_COMPRESSED_DATA
  | Some (size, rest) =>
      let len := u64 size in
      if negb (len =? size) then Err SVN_ERR_SVNDIFF_INVALID_COMPRESSED_DATA
      else if limit <? len then Err SVN_ERR_SVNDIFF_INVALID_COMPRESSED_DATA
      else if zlen rest =? len then memcpy_from rest 0 len
      else
        out ← uncompress rest len;
        if negb (zlen out =? len) then Err SVN_ERR_SVNDIFF_INVALID_COMPRESSED_DATA
        else Ok out
  end.

Definition svn__compress_zlib (data : bytes) (compression_method : Z) : result bytes :=
  if (compression_method <? SVN__COMPRESSION_NONE)
     || (SVN__COMPRESSION_ZLIB_MAX <? compression_method)
  then Err SVN_ERR_BAD_COMPRESSION_METHOD
  else zlib_encode data compression_method.

Definition svn__decompress_zlib (data : bytes) (limit : Z) : result bytes :=
  zlib_decode data limit.
End ZlibSections.

(** ** LZ4 *)

Section Lz4Sections.
Context `{lz4 : Lz4}.

Definition svn__compress_lz4 (data : bytes) : result bytes :=
  let len := zlen data in
  c_assert (len <=? LZ4_MAX_INPUT_SIZE);;
  let out := svn__encode_uint len in
  let compressed := LZ4_compress_default data in
  if zlen compressed =? 0 then Err SVN_ERR_LZ4_COMPRESSION_FAILED
  else if len <=? zlen compressed then Ok (out ++ data) else Ok (out ++ compressed).

Definition svn__decompress_lz4 (data : bytes) (limit : Z) : result bytes :=
  c_assert (zlen data <=? INT_MAX);;
  c_assert (limit <=? INT_MAX);;
  match svn__decode_uint data with
  | None => Err SVN_ERR_SVNDIFF_INVALID_COMPRESSED_DATA
  | Some (size, p) =>
      if limit <? size then Err SVN_ERR_SVNDIFF_INVALID_COMPRESSED_DATA
      else if zlen p =? size then memcpy_from p 0 size
      else
        match LZ4_decompress_safe p size with
        | None => Err SVN_ERR_LZ4_DECOMPRESSION_FAILED
        | Some out =>
            if negb (zlen out =? size) then Err SVN_ERR_SVNDIFF_INVALID_COMPRESSED_DATA
            else Ok out
        end
  end.
End Lz4Sections.

(** ** Round trips *)

Lemma zlen_encode_uint val : 0 <= val < 2 ^ 64 -> 1 <= zlen (svn__encode_uint val) <= 10.
Proof.
  intros H. unfold zlen. rewrite encode_uint_length by done.
  destruct (uint_len_spec val H) as [? _]. lia.
Qed.

Lemma memcpy_from_all (s : bytes) : memcpy_from s 0 (zlen s) = Ok s.
Proof. pose proof (zlen_nonneg s). rewrite memcpy_from_Ok by lia. by rewrite slice_full. Qed.

Section ZlibFacts.
Context `{zlib_laws : ZlibLaws}.

(** A section is longer than what is stored by its length field at most. *)
Lemma zlib_encode_size data level out :
  zlib_encode data level = Ok out -> zlen data < 2 ^ 64 -> zlen out <= zlen data + 10.
Proof.
  intros E Hd. pose proof (zlen_nonneg data).
  pose proof (zlen_encode_uint (zlen data) ltac:(lia)).
  unfold zlib_encode in E. destruct (_ || _); [injection E as <-; rewrite zlen_app; lia|].
  apply bind_Ok in E as (c & _ & E).
  destruct (Z.leb_spec (zlen data) (zlen c)); injection E as <-; rewrite zlen_app; lia.
Qed.

Lemma zlib_decode_encode data level limit out :
  svn__compress_zlib data level = Ok out -> zlen data <= limit -> limit < 2 ^ 64 ->
  svn__decompress_zlib out limit = Ok data.
Proof.
  unfold svn__compress_zlib, svn__decompress_zlib, zlib_decode. intros E Hl Hlim.
  destruct (_ || _); [done|]. pose proof (zlen_nonneg data).
  unfold zlib_encode in E.
  assert (forall rest, out = svn__encode_uint (zlen data) ++ rest ->
    svn__decode_uint out = Some (zlen data, rest)) as Hdec
    by (intros rest ->; apply decode_encode_uint; lia).
  assert (forall stored, stored = data \/ zlen stored < zlen data /\ uncompress stored (zlen data) = Ok data ->
    out = svn__encode_uint (zlen data) ++ stored ->
    zlib_decode out limit = Ok data) as Hstored.
  { intros stored Hs Hout. unfold zlib_decode. rewrite (Hdec _ Hout), u64_small, Z.eqb_refl by lia.
    simpl. destruct (Z.ltb_spec limit (zlen data)); [lia|].
    destruct Hs as [->|[Hlt Hu]]; [rewrite Z.eqb_refl; apply memcpy_from_all|].
    destruct (Z.eqb_spec (zlen stored) (zlen data)); [lia|]. rewrite Hu. simpl.
    by rewrite Z.eqb_refl. }
  destruct (_ || _); [injection E as <-; eapply Hstored; [by left|done]|].
  apply bind_Ok in E as (c & Hc & E). apply uncompress_compress2 in Hc.
  destruct (Z.leb_spec (zlen data) (zlen c)); injection E as <-;
    (eapply Hstored; [|done]); [by left|by right].
Qed.

(** What is decompressed has the length that was announced. *)
Lemma zlib_decode_limit in_ limit out : svn__decompress_zlib in_ limit = Ok out -> zlen out <= limit.
Proof.
  unfold svn__decompress_zlib, zlib_decode. intros E.
  destruct (svn__decode_uint in_) as [[size rest]|] eqn:Ed; [|done].
  apply decode_uint_suffix in Ed as (_ & _ & _ & Hs). rewrite u64_small in E by lia.
  destruct (negb _); [done|]. destruct (Z.ltb_spec limit size); [done|].
  destruct (Z.eqb_spec (zlen rest) size) as [<-|].
  - rewrite memcpy_from_all in E. injection E as <-. lia.
  - apply bind_Ok in E as (o & _ & E). destruct (Z.eqb_spec (zlen o) size); [|done].
    injection E as <-. lia.
Qed.
End ZlibFacts.

Section Lz4Facts.
Context `{lz4_laws : Lz4Laws}.

(** What is stored behind the length. *)
Lemma compress_lz4_inv data out :
  svn__compress_lz4 data = Ok out ->
  zlen data <= LZ4_MAX_INPUT_SIZE /\
  exists stored, out = svn__encode_uint (zlen data) ++ stored /\
    (stored = data \/
     zlen stored < zlen data /\ LZ4_decompress_safe stored (zlen data) = Some data).
Proof.
  unfold svn__compress_lz4. intros E.
  apply bind_Ok in E as (u & Hmax%c_assert_Ok%Z.leb_le & E). split; [done|].
  destruct (Z.eqb_spec (zlen (LZ4_compress_default data)) 0) as [|Hne]; [done|].
  assert (LZ4_compress_default data <> []) as Hne' by (intros Hn; by rewrite Hn in Hne).
  apply decompress_compress_lz4 in Hne'.
  destruct (Z.leb_spec (zlen data) (zlen (LZ4_compress_default data))); injection E as <-;
    (eexists; split; [reflexivity|]); [by left|by right].
Qed.

Lemma lz4_encode_size data out :
  svn__compress_lz4 data = Ok out -> zlen out <= zlen data + 10.
Proof.
  intros (Hmax & stored & -> & Hs)%compress_lz4_inv. unfold LZ4_MAX_INPUT_SIZE in Hmax.
  pose proof (zlen_nonneg data). pose proof (zlen_encode_uint (zlen data) ltac:(lia)).
  rewrite zlen_app. destruct Hs as [->|[? _]]; lia.
Qed.

Lemma lz4_decode_encode data limit out :
  svn__compress_lz4 data = Ok out -> zlen data <= limit -> limit <= INT_MAX ->
  svn__decompress_lz4 out limit = Ok data.
Proof.
  intros E Hl Hlim. pose proof (lz4_encode_size _ _ E) as Hsize.
  apply compress_lz4_inv in E as (Hmax & stored & -> & Hs).
  unfold svn__decompress_lz4. pose proof (zlen_nonneg data).
  assert (zlen data + 10 <= INT_MAX) as Hint by (unfold LZ4_MAX_INPUT_SIZE, INT_MAX in *; lia).
  rewrite !c_assert_le by lia. cbn [mbind result_bind].
  rewrite decode_encode_uint by (unfold INT_MAX in *; lia).
  destruct (Z.ltb_spec limit (zlen data)); [lia|].
  destruct Hs as [->|[Hlt Hu]]; [rewrite Z.eqb_refl; apply memcpy_from_all|].
  destruct (Z.eqb_spec (zlen stored) (zlen data)); [lia|]. rewrite Hu.
  by rewrite Z.eqb_refl.
Qed.

Lemma lz4_decode_limit data limit out : svn__decompress_lz4 data limit = Ok out -> zlen out <= limit.
Proof.
  unfold svn__decompress_lz4. intros E.
  apply bind_Ok in E as (_ & _ & E). apply bind_Ok in E as (_ & _ & E).
  destruct (svn__decode_uint data) as [[size rest]|] eqn:Ed; [|done].
  destruct (Z.ltb_spec limit size); [done|].
  destruct (Z.eqb_spec (zlen rest) size) as [<-|].
  - rewrite memcpy_from_all in E. injection E as <-. lia.
  - destruct (LZ4_decompress_safe rest size) as [o|]; [|done].
    destruct (Z.eqb_spec (zlen o) size); [|done]. injection E as <-. lia.
Qed.
End Lz4Facts.
