(* ===== verification/Svndiff.v ===== *)
(** * svndiff streams (libsvn_delta/svndiff.c)

    Windows are written as a header of five numbers, the encoded instructions
    and the new data, of which version 1 and 2 compress the last two.  The
    parser gets the stream in arbitrary pieces, buffers what is incomplete and
    hands each window to its consumer.

    Streams that are written to are the blocks they have got; a consumer is a
    function on a state of its own. *)

From S2P Require Import Prelude Buffers Encode Delta Compress.

Definition SVNDIFF_HEADER_SIZE : Z := 4.

(** 'S', 'V', 'N' and the version. *)
Definition SVNDIFF_V0 : bytes := [83; 86; 78; 0].
Definition SVNDIFF_V1 : bytes := [83; 86; 78; 1].
Definition SVNDIFF_V2 : bytes := [83; 86; 78; 2].

Definition get_svndiff_header (version : Z) : bytes :=
  if version =? 2 then SVNDIFF_V2 else if version =? 1 then SVNDIFF_V1 else SVNDIFF_V0.

Definition MAX_INSTRUCTION_LEN : Z := 2 * SVN__MAX_ENCODED_UINT_LEN + 1.
Definition MAX_INSTRUCTION_SECTION_LEN : Z := SVN_DELTA_WINDOW_SIZE * MAX_INSTRUCTION_LEN.

(** ** Writing *)

Definition action_number (action : svn_delta_action) : Z :=
  match action with
  | svn_txdelta_source => 0
  | svn_txdelta_target => 1
  | svn_txdelta_new => 2
  end.

(** [svn_stringbuf_appendbytes] of an encoded number. *)
Definition append_encoded_int (header : bytes) (val : Z) : result bytes :=
  c_assert (0 <=? val);;
  Ok (header ++ svn__encode_uint (u64 val)).

(** The bytes of one instruction in [ibuf]. *)
Definition encode_instruction (op : svn_txdelta_op_t) : bytes :=
  let selector := Z.shiftl (action_number (action_code op)) 6 in
  let length_bytes :=
    if Z.shiftr (op_length op) 6 =? 0 then [Z.lor selector (u8 (op_length op))]
    else selector :: svn__encode_uint (op_length op) in
  let offset_bytes :=
    if negb (bool_decide (action_code op = svn_txdelta_new))
    then svn__encode_uint (op_offset op) else [] in
  length_bytes ++ offset_bytes.

Definition encode_instructions (ops : list svn_txdelta_op_t) : bytes :=
  ops ≫= encode_instruction.

Section Svndiff.
Context `{zlib : Zlib} `{lz4 : Lz4}.

(** Compressing a section for a version of the format. *)
Definition compress_section (version compression_level : Z) (data : bytes) : result bytes :=
  if version =? 2 then svn__compress_lz4 data
  else if version =? 1 then svn__compress_zlib data compression_level
  else Ok data.

(** The instructions, the header and the new data of a window. *)
Definition encode_window (window : svn_txdelta_window_t) (version compression_level : Z)
    : result (bytes * bytes * bytes) :=
  let instructions := encode_instructions (w_ops window) in
  header ← append_encoded_int [] (sview_offset window);
  header ← append_encoded_int header (sview_len window);
  header ← append_encoded_int header (tview_len window);
  instructions ← compress_section version compression_level instructions;
  header ← append_encoded_int header (zlen instructions);
  newdata ← compress_section version compression_level (w_new_data window);
  header ← append_encoded_int header (zlen newdata);
  Ok (instructions, header, newdata).

Record encoder_baton := mk_encoder_baton {
  eb_output : list bytes;       (** what was written to the output stream *)
  eb_closed : bool;             (** whether the output stream was closed *)
  eb_header_done : bool;
  eb_version : Z;
  eb_compression_level : Z
}.

Definition svn_stream_write (eb : encoder_baton) (data : bytes) : encoder_baton :=
  mk_encoder_baton (eb_output eb ++ [data]) (eb_closed eb) (eb_header_done eb) (eb_version eb)
    (eb_compression_level eb).

Definition set_header_done (eb : encoder_baton) : encoder_baton :=
  mk_encoder_baton (eb_output eb) (eb_closed eb) true (eb_version eb) (eb_compression_level eb).

Definition svn_stream_close (eb : encoder_baton) : encoder_baton :=
  mk_encoder_baton (eb_output eb) true (eb_header_done eb) (eb_version eb)
    (eb_compression_level eb).

Definition send_simple_insertion_window (window : svn_txdelta_window_t) (eb : encoder_baton)
    : result encoder_baton :=
  let len := zlen (w_new_data window) in
  op ← match w_ops window with op :: _ => Ok op | [] => Err C_UNDEFINED end;
  c_assert (bool_decide (action_code op = svn_txdelta_new));;
  c_assert (op_length op =? tview_len window);;
  c_assert (op_offset op =? 0);;
  let headers := if eb_header_done eb then [] else get_svndiff_header (eb_version eb) in
  let eb := set_header_done eb in
  let ibuf :=
    if Z.shiftr (tview_len window) 6 =? 0 then [u8 (tview_len window + Z.shiftl 2 6)]
    else Z.shiftl 2 6 :: svn__encode_uint (tview_len window) in
  let headers := headers ++ svn__encode_uint (u64 (sview_offset window))
    ++ svn__encode_uint (sview_len window) ++ svn__encode_uint (tview_len window)
    ++ [u8 (zlen ibuf)] ++ svn__encode_uint len ++ ibuf in
  let eb := svn_stream_write eb headers in
  Ok (if negb (len =? 0) then svn_stream_write eb (w_new_data window) else eb).

(** [None] ends the stream. *)
Definition window_handler (window : option svn_txdelta_window_t) (eb : encoder_baton)
    : result encoder_baton :=
  let simple :=
    match window with
    | Some window => (w_src_ops window =? 0) && (zlen (w_ops window) =? 1) && (eb_version eb =? 0)
    | None => false
    end in
  match window with
  | Some window =>
      if simple then send_simple_insertion_window window eb
      else
        let eb := if eb_header_done eb then eb
                  else set_header_done (svn_stream_write eb (get_svndiff_header (eb_version eb))) in
        '(instructions, header, newdata) ←
          encode_window window (eb_version eb) (eb_compression_level eb);
        let eb := svn_stream_write eb header in
        let eb := if 0 <? zlen instructions then svn_stream_write eb instructions else eb in
        let eb := if 0 <? zlen newdata then svn_stream_write eb newdata else eb in
        Ok eb
  | None =>
      let eb := if eb_header_done eb then eb
                else set_header_done (svn_stream_write eb (get_svndiff_header (eb_version eb))) in
      Ok (svn_stream_close eb)
  end.

Definition svn_txdelta_to_svndiff3 (svndiff_version compression_level : Z) : encoder_baton :=
  mk_encoder_baton [] false false svndiff_version compression_level.

Definition svn_txdelta_to_svndiff2 (svndiff_version : Z) : encoder_baton :=
  svn_txdelta_to_svndiff3 svndiff_version SVN_DELTA_COMPRESSION_LEVEL_DEFAULT.

Definition svn_txdelta_to_svndiff : encoder_baton :=
  svn_txdelta_to_svndiff3 0 SVN_DELTA_COMPRESSION_LEVEL_DEFAULT.

(** ** Parsing *)

(** A number and what follows it; [None] when there is no whole number. *)
Definition decode_file_offset (p : bytes) : option (Z * bytes) :=
  '(temp, p) ← svn__decode_uint p;
  Some (s64 temp, p).

Definition APR_SIZE_MAX : Z := 2 ^ 64 - 1.

Definition decode_size (p : bytes) : option (Z * bytes) :=
  '(temp, p) ← svn__decode_uint p;
  if APR_SIZE_MAX <? temp then None else Some (temp, p).

(** The action with a number; the number 3 is no action. *)
Definition action_of_number (action : Z) : option svn_delta_action :=
  if action =? 0 then Some svn_txdelta_source
  else if action =? 1 then Some svn_txdelta_target
  else if action =? 2 then Some svn_txdelta_new
  else None.

(** [unset] is the offset that [op] has before, which new data leave there. *)
Definition decode_instruction (unset : Z) (p : bytes) : option (svn_txdelta_op_t * bytes) :=
  match p with
  | [] => None
  | c :: p =>
      action ← action_of_number (Z.land (Z.shiftr c 6) 0x3);
      let length_ := Z.land c 0x3f in
      '(length_, p) ← (if length_ =? 0 then decode_size p else Some (length_, p));
      '(offset, p) ← (if negb (bool_decide (action = svn_txdelta_new)) then decode_size p
                      else Some (unset, p));
      Some (mk_op action offset length_, p)
  end.

(** The loop over the instructions; the sizes are machine words. *)
Fixpoint count_loop (fuel : nat) (p : bytes) (sview_len tview_len new_len : Z)
    (n tpos npos unset : Z) : result Z :=
  match p with
  | [] =>
      if negb (tpos =? tview_len) then Err SVN_ERR_SVNDIFF_INVALID_OPS
      else if negb (npos =? new_len) then Err SVN_ERR_SVNDIFF_INVALID_OPS
      else Ok n
  | _ =>
      match fuel with
      | O => Err OUT_OF_FUEL
      | S f =>
          match decode_instruction unset p with
          | None => Err SVN_ERR_SVNDIFF_INVALID_OPS
          | Some (op, p) =>
              if op_length op =? 0 then Err SVN_ERR_SVNDIFF_INVALID_OPS
              else if u64 (tview_len - tpos) <? op_length op then Err SVN_ERR_SVNDIFF_INVALID_OPS
              else
                npos ←
                  match action_code op with
                  | svn_txdelta_source =>
                      if (u64 (sview_len - op_offset op) <? op_length op)
                         || (sview_len <? op_offset op)
                      then Err SVN_ERR_SVNDIFF_INVALID_OPS else Ok npos
                  | svn_txdelta_target =>
                      if tpos <=? op_offset op then Err SVN_ERR_SVNDIFF_INVALID_OPS else Ok npos
                  | svn_txdelta_new =>
                      if u64 (new_len - npos) <? op_length op then Err SVN_ERR_SVNDIFF_INVALID_OPS
                      else Ok (u64 (npos + op_length op))
                  end;
                count_loop f p sview_len tview_len new_len (n + 1) (u64 (tpos + op_length op)) npos
                  (op_offset op)
          end
      end
  end.

Definition count_and_verify_instructions (p : bytes) (sview_len tview_len new_len : Z) : result Z :=
  count_loop (length p) p sview_len tview_len new_len 0 0 0 0.

(** [ninst] instructions, the bytes behind them and the number of copies from
    the source. *)
Fixpoint decode_ops (ninst : nat) (data : bytes) (npos src_ops : Z)
    : result (list svn_txdelta_op_t * bytes * Z) :=
  match ninst with
  | O => Ok ([], data, src_ops)
  | S n =>
      match decode_instruction 0 data with
      | None => Err C_UNDEFINED
      | Some (op, data) =>
          let '(op, npos, src_ops) :=
            match action_code op with
            | svn_txdelta_source => (op, npos, src_ops + 1)
            | svn_txdelta_target => (op, npos, src_ops)
            | svn_txdelta_new =>
                (mk_op (action_code op) npos (op_length op), u64 (npos + op_length op), src_ops)
            end in
          '(ops, data, src_ops) ← decode_ops n data npos src_ops;
          Ok (op :: ops, data, src_ops)
      end
  end.

(** Decompressing a section of a version of the format. *)
Definition decompress_section (version limit : Z) (data : bytes) : result bytes :=
  if version =? 2 then svn__decompress_lz4 data limit
  else if version =? 1 then svn__decompress_zlib data limit
  else Ok data.

(** [data] are the bytes behind the header. *)
Definition decode_window (sview_offset sview_len tview_len inslen newlen : Z) (data : bytes)
    (version : Z) : result svn_txdelta_window_t :=
  new_data ← decompress_section version SVN_DELTA_WINDOW_SIZE (slice data inslen newlen);
  data ← decompress_section version MAX_INSTRUCTION_SECTION_LEN (slice data 0 inslen);
  ninst ← count_and_verify_instructions data sview_len tview_len (zlen new_data);
  '(ops, data, src_ops) ← decode_ops (Z.to_nat ninst) data 0 0;
  svn_err_assert (bool_decide (data = []));;
  Ok (mk_window sview_offset sview_len tview_len src_ops ops new_data).

(** The numbers of a window header and its length. *)
Record window_header := mk_window_header {
  wh_len : Z;                   (** 0 if there is none *)
  wh_sview_offset : Z;
  wh_sview_len : Z;
  wh_tview_len : Z;
  wh_inslen : Z;
  wh_newlen : Z
}.

Definition no_window_header : window_header := mk_window_header 0 0 0 0 0 0.

Definition decode_window_header (p : bytes) : option window_header :=
  let hdr_start := p in
  '(sview_offset, p) ← decode_file_offset p;
  '(sview_len, p) ← decode_size p;
  '(tview_len, p) ← decode_size p;
  '(inslen, p) ← decode_size p;
  '(newlen, p) ← decode_size p;
  Some (mk_window_header (zlen hdr_start - zlen p) sview_offset sview_len tview_len inslen newlen).

(** The checks of the sizes and for integer overflow. *)
Definition check_window_header (h : window_header) : result unit :=
  if (SVN_DELTA_WINDOW_SIZE <? wh_tview_len h) || (SVN_DELTA_WINDOW_SIZE <? wh_sview_len h)
     || (SVN_DELTA_WINDOW_SIZE + SVN__MAX_ENCODED_UINT_LEN <? wh_newlen h)
     || (MAX_INSTRUCTION_SECTION_LEN <? wh_inslen h)
  then Err SVN_ERR_SVNDIFF_CORRUPT_WINDOW
  else if (wh_sview_offset h <? 0) || (u64 (wh_inslen h + wh_newlen h) <? wh_inslen h)
     || (u64 (wh_sview_len h + wh_tview_len h) <? wh_sview_len h)
     || (u64 (u64 (wh_sview_offset h) + wh_sview_len h) <? u64 (wh_sview_offset h))
  then Err SVN_ERR_SVNDIFF_CORRUPT_WINDOW
  else Ok ().

(** The check for source views that slide backwards. *)
Definition check_view (last_sview_offset last_sview_len : Z) (h : window_header) : result unit :=
  if (0 <? wh_sview_len h)
     && ((wh_sview_offset h <? last_sview_offset)
         || (u64 (wh_sview_offset h + wh_sview_len h) <? u64 (last_sview_offset + last_sview_len)))
  then Err SVN_ERR_SVNDIFF_BACKWARD_VIEW
  else Ok ().

Section Parser.
Context {S : Type} (consumer_func : option svn_txdelta_window_t -> S -> result S).

Record decode_baton := mk_decode_baton {
  consumer_baton : S;
  db_buffer : bytes;
  last_sview_offset : Z;
  last_sview_len : Z;
  header_bytes : Z;
  error_on_early_close : bool;
  db_version : Z;
  db_header : window_header     (** the length and the five fields *)
}.

Definition svn_txdelta_parse_svndiff (handler_baton : S) (error_on_early_close : bool)
    : decode_baton :=
  mk_decode_baton handler_baton [] 0 0 0 error_on_early_close 0 no_window_header.

(** The header at the start of the buffer, or the one that was parsed before;
    [None] when it is incomplete. *)
Definition next_header (db : decode_baton) : result (option window_header) :=
  if wh_len (db_header db) =? 0 then
    match decode_window_header (db_buffer db) with
    | None => Ok None
    | Some h =>
        check_window_header h;;
        check_view (last_sview_offset db) (last_sview_len db) h;;
        Ok (Some h)
    end
  else Ok (Some (db_header db)).

(** The loop over the windows in the buffer; the flag tells whether it was
    left because a header is incomplete. *)
Fixpoint write_loop (fuel : nat) (db : decode_baton) : result (decode_baton * bool) :=
  match fuel with
  | O => Err OUT_OF_FUEL
  | Datatypes.S f =>
      header ← next_header db;
      match header with
      | None => Ok (db, true)
      | Some h =>
          let p := drop (Z.to_nat (wh_len h)) (db_buffer db) in
          if zlen p <? u64 (wh_inslen h + wh_newlen h) then
            Ok (mk_decode_baton (consumer_baton db) (db_buffer db) (last_sview_offset db)
                  (last_sview_len db) (header_bytes db) (error_on_early_close db)
                  (db_version db) h, false)
          else
            window ← decode_window (wh_sview_offset h) (wh_sview_len h) (wh_tview_len h)
                       (wh_inslen h) (wh_newlen h) p (db_version db);
            consumer_baton ← consumer_func (Some window) (consumer_baton db);
            let p := drop (Z.to_nat (wh_inslen h + wh_newlen h)) p in
            write_loop f
              (mk_decode_baton consumer_baton p (wh_sview_offset h) (wh_sview_len h)
                 (header_bytes db) (error_on_early_close db) (db_version db) no_window_header)
      end
  end.

(** The bytes of the stream header that [buffer] has, compared with those of
    each version. *)
Definition match_svndiff_header (header_bytes : Z) (buffer : bytes) : option Z :=
  let matches v := bool_decide (buffer = slice v header_bytes (zlen buffer)) in
  if matches SVNDIFF_V0 then Some 0
  else if matches SVNDIFF_V1 then Some 1
  else if matches SVNDIFF_V2 then Some 2
  else None.

(** What is behind the stream header. *)
Definition chew_header (db : decode_baton) (buffer : bytes) : result (decode_baton * bytes) :=
  if header_bytes db <? SVNDIFF_HEADER_SIZE then
    let nheader := SVNDIFF_HEADER_SIZE - header_bytes db in
    let nheader := if zlen buffer <? nheader then zlen buffer else nheader in
    match match_svndiff_header (header_bytes db) (take (Z.to_nat nheader) buffer) with
    | None => Err SVN_ERR_SVNDIFF_INVALID_HEADER
    | Some version =>
        Ok (mk_decode_baton (consumer_baton db) (db_buffer db) (last_sview_offset db)
              (last_sview_len db) (header_bytes db + nheader) (error_on_early_close db) version
              (db_header db), drop (Z.to_nat nheader) buffer)
    end
  else Ok (db, buffer).

Definition append_buffer (db : decode_baton) (buffer : bytes) : decode_baton :=
  mk_decode_baton (consumer_baton db) (db_buffer db ++ buffer) (last_sview_offset db)
    (last_sview_len db) (header_bytes db) (error_on_early_close db) (db_version db)
    (db_header db).

Definition write_handler (db : decode_baton) (buffer : bytes) : result decode_baton :=
  '(db, buffer) ← chew_header db buffer;
  let db := append_buffer db buffer in
  '(db, incomplete) ← write_loop (Datatypes.S (length (db_buffer db))) db;
  if incomplete && (5 * SVN__MAX_ENCODED_UINT_LEN <? zlen (db_buffer db))
  then Err SVN_ERR_SVNDIFF_CORRUPT_WINDOW
  else Ok db.

Definition close_handler (db : decode_baton) : result S :=
  if error_on_early_close db
     && ((header_bytes db <? 4) || negb (zlen (db_buffer db) =? 0))
  then Err SVN_ERR_SVNDIFF_UNEXPECTED_END
  else consumer_func None (consumer_baton db).
End Parser.

(** ** Reading one window at a time *)

Definition read_one_byte (stream : bytes) : result (Z * bytes) :=
  match svn_stream_read_full stream 1 with
  | ([], _) => Err SVN_ERR_SVNDIFF_UNEXPECTED_END
  | (c :: _, stream) => Ok (c, stream)
  end.

(** The loop of [read_one_size]: every byte shifts the number; the stream ends
    the loop when no byte does. *)
Fixpoint read_size_loop (fuel : nat) (size byte_counter : Z) (stream : bytes)
    : result (Z * Z * bytes) :=
  match fuel with
  | O => Err OUT_OF_FUEL
  | Datatypes.S f =>
      '(c, stream) ← read_one_byte stream;
      let byte_counter := byte_counter + 1 in
      let size := u64 (Z.lor (u64 (Z.shiftl size 7)) (Z.land c 0x7f)) in
      if Z.land c 0x80 =? 0 then Ok (size, byte_counter, stream)
      else read_size_loop f size byte_counter stream
  end.

Definition read_one_size (byte_counter : Z) (stream : bytes) : result (Z * Z * bytes) :=
  read_size_loop (Datatypes.S (length stream)) 0 byte_counter stream.

(** The offset of the source view is a signed number of the same size. *)
Definition read_window_header (stream : bytes) : result (window_header * bytes) :=
  '(sview_offset, header_len, stream) ← read_one_size 0 stream;
  '(sview_len, header_len, stream) ← read_one_size header_len stream;
  '(tview_len, header_len, stream) ← read_one_size header_len stream;
  '(inslen, header_len, stream) ← read_one_size header_len stream;
  '(newlen, header_len, stream) ← read_one_size header_len stream;
  let h := mk_window_header header_len (s64 sview_offset) sview_len tview_len inslen newlen in
  check_window_header h;;
  Ok (h, stream).

Definition svn_txdelta_read_svndiff_window (stream : bytes) (svndiff_version : Z)
    : result (svn_txdelta_window_t * bytes) :=
  '(h, stream) ← read_window_header stream;
  let len := u64 (wh_inslen h + wh_newlen h) in
  let '(buf, stream) := svn_stream_read_full stream len in
  if zlen buf <? len then Err SVN_ERR_SVNDIFF_UNEXPECTED_END
  else
    window ← decode_window (wh_sview_offset h) (wh_sview_len h) (wh_tview_len h) (wh_inslen h)
               (wh_newlen h) buf svndiff_version;
    Ok (window, stream).

(** Seeking in the file the stream reads from. *)
Definition svn_txdelta_skip_svndiff_window (file : bytes) : result bytes :=
  '(h, file) ← read_window_header file;
  Ok (drop (Z.to_nat (u64 (wh_inslen h + wh_newlen h))) file).

Definition svn_txdelta__read_raw_window_len (stream : bytes) : result (Z * bytes) :=
  '(h, stream) ← read_window_header stream;
  Ok (u64 (u64 (wh_inslen h + wh_newlen h) + wh_len h), stream).

(** ** A stream that delivers svndiff data *)

Section SvndiffStream.
Context {T : Type} (next_window : T -> result (option svn_txdelta_window_t * T)).

(** The encoder of the baton writes to [window_buffer]: its output is taken
    over after every window. *)
Record svndiff_stream_baton_t := mk_svndiff_stream_baton {
  sb_txstream : T;
  sb_encoder : encoder_baton;
  window_buffer : bytes;
  read_pos : Z;
  hit_eof : bool
}.

Definition svn_txdelta_to_svndiff_stream (txstream : T) (svndiff_version compression_level : Z)
    : svndiff_stream_baton_t :=
  mk_svndiff_stream_baton txstream (svn_txdelta_to_svndiff3 svndiff_version compression_level)
    [] 0 false.

(** The next window in the buffer; the writes go through
    [svndiff_stream_write_fn]. *)
Definition fill_window_buffer (b : svndiff_stream_baton_t) : result svndiff_stream_baton_t :=
  if (read_pos b =? zlen (window_buffer b)) && negb (hit_eof b) then
    '(window, txstream) ← next_window (sb_txstream b);
    let eb := sb_encoder b in
    eb ← window_handler window
           (mk_encoder_baton [] (eb_closed eb) (eb_header_done eb) (eb_version eb)
              (eb_compression_level eb));
    Ok (mk_svndiff_stream_baton txstream eb (concat (eb_output eb)) 0
          (match window with None => true | Some _ => hit_eof b end))
  else Ok b.

(** The loop of [svndiff_stream_read_fn]; [left] bytes are still wanted. *)
Fixpoint svndiff_read_loop (fuel : nat) (b : svndiff_stream_baton_t) (left : Z)
    : result (bytes * svndiff_stream_baton_t) :=
  if left =? 0 then Ok ([], b)
  else
    match fuel with
    | O => Err OUT_OF_FUEL
    | Datatypes.S f =>
        b ← fill_window_buffer b;
        let chunk_size :=
          if zlen (window_buffer b) - read_pos b <? left
          then zlen (window_buffer b) - read_pos b else left in
        if chunk_size =? 0 then Ok ([], b)
        else
          chunk ← memcpy_from (window_buffer b) (read_pos b) chunk_size;
          let b := mk_svndiff_stream_baton (sb_txstream b) (sb_encoder b) (window_buffer b)
                     (read_pos b + chunk_size) (hit_eof b) in
          '(rest, b) ← svndiff_read_loop f b (left - chunk_size);
          Ok (chunk ++ rest, b)
    end.

Definition svndiff_stream_read_fn (b : svndiff_stream_baton_t) (len : Z)
    : result (bytes * svndiff_stream_baton_t) :=
  svndiff_read_loop (Z.to_nat len) b len.
End SvndiffStream.
End Svndiff.
