(* ===== verification/SvndiffFacts.v ===== *)
(** * Instructions, headers and windows in svndiff

    Encoding and decoding of single instructions and of the fields of a header,
    and the parser: the windows that it hands to its consumer are valid, and it
    does not matter in which pieces the stream comes. *)

From S2P Require Import Prelude Buffers Encode Delta DeltaFacts Compress Svndiff.

(** ** Instructions *)

Lemma decode_size_uint p : decode_size p = svn__decode_uint p.
Proof.
  unfold decode_size. destruct (svn__decode_uint p) as [[v rest]|] eqn:E; [|done].
  apply decode_uint_suffix in E as (_ & _ & _ & Hv). simpl.
  destruct (Z.ltb_spec APR_SIZE_MAX v) as [H|H]; [unfold APR_SIZE_MAX in H; lia|done].
Qed.

Lemma decode_file_offset_uint p v rest :
  decode_file_offset p = Some (v, rest) <->
  exists u, svn__decode_uint p = Some (u, rest) /\ v = s64 u.
Proof.
  unfold decode_file_offset. destruct (svn__decode_uint p) as [[u r]|]; simpl; naive_solver.
Qed.

Definition action_eqb_new (op : svn_txdelta_op_t) : bool :=
  bool_decide (action_code op = svn_txdelta_new).

(** The offset of new data is not part of an instruction. *)
Definition with_unset (unset : Z) (op : svn_txdelta_op_t) : svn_txdelta_op_t :=
  if decide (action_code op = svn_txdelta_new)
  then mk_op (action_code op) unset (op_length op) else op.

Lemma land_63 c : Z.land c 0x3f = c mod 2 ^ 6.
Proof. change 0x3f with (Z.ones 6). by rewrite Z.land_ones. Qed.

(** A decoded instruction. *)
Lemma decode_instruction_inv unset p op rest :
  decode_instruction unset p = Some (op, rest) ->
  (exists e, p = e ++ rest /\ (0 < length e)%nat) /\ 0 <= op_length op < 2 ^ 64 /\
  (action_code op = svn_txdelta_new /\ op_offset op = unset \/
   action_code op <> svn_txdelta_new /\ 0 <= op_offset op < 2 ^ 64) /\
  (forall unset' q, decode_instruction unset' (p ++ q) = Some (with_unset unset' op, rest ++ q)).
Proof.
  destruct p as [|c p]; [done|]. simpl.
  destruct (action_of_number _) as [action|]; [|done]. simpl.
  assert (forall len p1, (if Z.land c 0x3f =? 0 then decode_size p else Some (Z.land c 0x3f, p)) =
      Some (len, p1) ->
    (exists e, p = e ++ p1) /\ 0 <= len < 2 ^ 64 /\
    forall q, (if Z.land c 0x3f =? 0 then decode_size (p ++ q) else Some (Z.land c 0x3f, p ++ q)) =
      Some (len, p1 ++ q)) as Hlen.
  { intros len p1. rewrite decode_size_uint. rewrite land_63.
    destruct (_ =? 0).
    - intros E. pose proof (decode_uint_suffix _ _ _ E) as (e & -> & _ & ?).
      split; [by exists e|]. split; [done|]. intros q. rewrite decode_size_uint.
      by apply decode_uint_app.
    - intros [= <- <-]. split; [by exists []|]. split; [dlia|]. done. }
  destruct (if Z.land c 0x3f =? 0 then _ else _) as [[len p1]|]; [|done].
  destruct (Hlen _ _ eq_refl) as ((e & ->) & Hl & Hlen'). simpl.
  case_bool_decide as Hc; simpl.
  - intros [= <- <-]. simpl. split_and!.
    + exists (c :: e). simpl. split; [done|lia].
    + lia.
    + lia.
    + by left.
    + intros u q. rewrite Hlen'. unfold with_unset. simpl. by rewrite decide_True.
  - rewrite decode_size_uint. destruct (svn__decode_uint p1) as [[off p2]|] eqn:E; [|done].
    pose proof (decode_uint_suffix _ _ _ E) as (e2 & -> & _ & Ho). simpl.
    intros [= <- <-]. simpl. split_and!.
    + exists (c :: e ++ e2). simpl. rewrite <- app_assoc. split; [done|lia].
    + lia.
    + lia.
    + by right.
    + intros u q. rewrite Hlen'. simpl. rewrite decode_size_uint. unfold with_unset. simpl.
      rewrite decide_False by done. by rewrite (decode_uint_app _ _ _ _ E).
Qed.

(** The first byte of an instruction. *)
Lemma selector_byte n len :
  0 <= n < 3 -> 0 <= len < 64 ->
  Z.land (Z.shiftr (Z.lor (Z.shiftl n 6) len) 6) 0x3 = n /\
  Z.land (Z.lor (Z.shiftl n 6) len) 0x3f = len.
Proof.
  intros Hn Hl.
  assert (Forall (fun n => Forall (fun len =>
    Z.land (Z.shiftr (Z.lor (Z.shiftl n 6) len) 6) 0x3 = n /\
    Z.land (Z.lor (Z.shiftl n 6) len) 0x3f = len) (seqZ 0 64)) (seqZ 0 3)) as HF by by_evaluation.
  rewrite Forall_forall in HF. specialize (HF n). rewrite Forall_forall in HF.
  apply HF; apply elem_of_seqZ; lia.
Qed.

Lemma action_number_range action : 0 <= action_number action < 3.
Proof. by destruct action. Qed.

Lemma action_of_action_number action : action_of_number (action_number action) = Some action.
Proof. by destruct action. Qed.

Lemma decode_encode_instruction unset op rest :
  0 < op_length op < 2 ^ 64 -> 0 <= op_offset op < 2 ^ 64 ->
  decode_instruction unset (encode_instruction op ++ rest) = Some (with_unset unset op, rest).
Proof.
  intros Hl Ho. unfold encode_instruction. pose proof (action_number_range (action_code op)) as Hn.
  set (tail := (if negb (bool_decide (action_code op = svn_txdelta_new)) then svn__encode_uint (op_offset op) else []) ++ rest).
  assert ((if negb (bool_decide (action_code op = svn_txdelta_new))
      then decode_size tail else Some (unset, tail)) =
    Some (op_offset (with_unset unset op), rest)) as Htail.
  { unfold tail, with_unset. case_bool_decide as Hc; simpl.
    - by rewrite decide_True.
    - rewrite decide_False by done. rewrite decode_size_uint. by apply decode_encode_uint. }
  rewrite Z.shiftr_div_pow2 by lia. rewrite <- app_assoc. fold tail.
  assert (mk_op (action_code op) (op_offset (with_unset unset op)) (op_length op) =
    with_unset unset op) as Hop by (unfold with_unset; case_decide; destruct op; done).
  destruct (Z.eqb_spec (op_length op / 2 ^ 6) 0) as [E|E].
  - assert (op_length op < 64) by dlia. assert (u8 (op_length op) = op_length op) as ->
      by (unfold u8; apply Z.mod_small; lia).
    destruct (selector_byte _ (op_length op) Hn) as [H1 H2]; [lia|].
    cbn [app decode_instruction]. rewrite H1, action_of_action_number, H2. cbn [mbind option_bind].
    rewrite (proj2 (Z.eqb_neq _ _)) by lia. cbn [mbind option_bind]. rewrite Htail. simpl.
    by rewrite Hop.
  - destruct (selector_byte _ 0 Hn) as [H1 H2]; [lia|]. rewrite Z.lor_0_r in H1, H2.
    cbn [app decode_instruction]. rewrite H1, action_of_action_number, H2. cbn [mbind option_bind].
    rewrite Z.eqb_refl, decode_size_uint, decode_encode_uint by lia. cbn [mbind option_bind].
    rewrite Htail. simpl. by rewrite Hop.
Qed.

(** ** Sections of instructions *)

(** [decode_ops] delivers [ops] from [p] and nothing is left. *)
Definition decodes_to (p : bytes) (npos : Z) (ops : list svn_txdelta_op_t) : Prop :=
  forall src_ops, decode_ops (length ops) p npos src_ops = Ok (ops, [], src_ops + count_sources ops).

(** The instruction as [decode_ops] leaves it. *)
Definition with_npos (npos : Z) (op : svn_txdelta_op_t) : svn_txdelta_op_t :=
  if decide (action_code op = svn_txdelta_new)
  then mk_op (action_code op) npos (op_length op) else op.

Definition next_npos (npos : Z) (op : svn_txdelta_op_t) : Z :=
  if decide (action_code op = svn_txdelta_new) then npos + op_length op else npos.

Lemma decodes_to_cons p rest op npos ops unset :
  decode_instruction unset p = Some (op, rest) ->
  0 <= npos -> 0 <= op_length op -> next_npos npos op < 2 ^ 64 ->
  decodes_to rest (next_npos npos op) ops -> decodes_to p npos (with_npos npos op :: ops).
Proof.
  intros Hp Hn Hl Hlt Hrest src_ops.
  destruct (decode_instruction_inv _ _ _ _ Hp) as (_ & _ & _ & Hdec).
  specialize (Hdec 0 []). rewrite !app_nil_r in Hdec. cbn [length decode_ops]. rewrite Hdec.
  destruct op as [action off len]. unfold with_npos, next_npos, with_unset in *. simpl in *.
  destruct action; simpl in *; rewrite ?(u64_small (npos + len)) by lia; rewrite Hrest; simpl;
    do 2 f_equal; lia.
Qed.

(** The bounds of the sizes that the parser meets. *)
Definition small (z : Z) : Prop := 0 <= z < SIZE_BOUND.

Lemma count_loop_spec fuel p slen tlen nlen n tpos npos unset m :
  small slen -> small tlen -> small nlen -> 0 <= tpos <= tlen -> 0 <= npos <= nlen ->
  count_loop fuel p slen tlen nlen n tpos npos unset = Ok m ->
  exists ops, m = n + Z.of_nat (length ops) /\ decodes_to p npos ops /\
    ops_ok slen nlen tpos ops /\ tpos + ops_len ops = tlen /\
    news_ok npos ops /\ npos + new_len ops = nlen.
Proof.
  intros Hs Ht Hn. unfold small, SIZE_BOUND in *.
  revert p n tpos npos unset. induction fuel as [|f IH]; intros [|c p] n tpos npos unset Htp Hnp;
    cbn [count_loop]; try done;
    try (destruct (Z.eqb_spec tpos tlen); [|done]; destruct (Z.eqb_spec npos nlen); [|done];
         intros [= <-]; exists []; simpl; unfold decodes_to; simpl;
         split_and!; (done || lia || (intros; do 2 f_equal; lia))).
  destruct (decode_instruction unset (c :: p)) as [[op rest]|] eqn:Hp; [|done].
  destruct (decode_instruction_inv _ _ _ _ Hp) as (_ & Hl & Hoff & _).
  destruct (Z.eqb_spec (op_length op) 0); [done|]. rewrite u64_small by lia.
  destruct (Z.ltb_spec (tlen - tpos) (op_length op)) as [|Hlt]; [done|].
  intros E. apply bind_Ok in E as (npos' & En & E).
  assert (npos' = next_npos npos op /\ 0 <= npos' <= nlen /\
    op_ok slen nlen tpos (with_npos npos op) /\
    new_len [with_npos npos op] = npos' - npos /\
    (news_ok npos [with_npos npos op])) as (-> & Hnp' & Hop & Hnl & Hnews).
  { unfold next_npos, with_npos, op_ok. destruct (action_code op) eqn:Hc; simpl.
    - destruct Hoff as [[? _]|[_ Hoff]]; [done|]. rewrite Hc.
      destruct (Z.ltb_spec slen (op_offset op)); [by rewrite orb_true_r in En|].
      rewrite orb_false_r, u64_small in En by lia.
      destruct (Z.ltb_spec (slen - op_offset op) (op_length op)); [done|]. injection En as <-.
      simpl. split_and!; try (done || lia). 
    - destruct Hoff as [[? _]|[_ Hoff]]; [done|]. rewrite Hc.
      destruct (Z.leb_spec tpos (op_offset op)); [done|]. injection En as <-.
      simpl. split_and!; try (done || lia).
    - rewrite u64_small in En by lia.
      destruct (Z.ltb_spec (nlen - npos) (op_length op)); [done|].
      rewrite u64_small in En by lia. injection En as <-.
      simpl. split_and!; try (done || lia). }
  rewrite u64_small in E by lia.
  destruct (IH rest (n + 1) (tpos + op_length op) (next_npos npos op) (op_offset op))
    as (ops & -> & Hdec & Hops & Hlen & Hnews' & Hnew); [lia|lia|done|].
  assert (op_length (with_npos npos op) = op_length op) as Hwl
    by (unfold with_npos; by case_decide).
  exists (with_npos npos op :: ops). split_and!.
  - simpl. lia.
  - eapply decodes_to_cons; [done|lia|lia|lia|done].
  - simpl. rewrite Hwl. done.
  - simpl. rewrite Hwl. lia.
  - change (news_ok npos ([with_npos npos op] ++ ops)). apply news_ok_app. split; [done|].
    rewrite Hnl. by replace (npos + (next_npos npos op - npos)) with (next_npos npos op) by lia.
  - change (npos + new_len ([with_npos npos op] ++ ops) = nlen). rewrite new_len_app, Hnl. lia.
Qed.

(** ** Windows *)

(** What the parser ensures of a window. *)
Record svndiff_window (w : svn_txdelta_window_t) : Prop := {
  sw_ops : ops_ok (sview_len w) (zlen (w_new_data w)) 0 (w_ops w);
  sw_tview : ops_len (w_ops w) = tview_len w;
  sw_news : news_ok 0 (w_ops w);
  sw_new_len : new_len (w_ops w) = zlen (w_new_data w);
  sw_src_ops : w_src_ops w = count_sources (w_ops w);
  sw_sview_offset : 0 <= sview_offset w < 2 ^ 63;
  sw_sview_len : 0 <= sview_len w <= SVN_DELTA_WINDOW_SIZE;
  sw_tview_len : 0 <= tview_len w <= SVN_DELTA_WINDOW_SIZE
}.

(** The size checks, as bounds. *)
Record header_sizes (h : window_header) : Prop := {
  hs_offset : 0 <= wh_sview_offset h < 2 ^ 63;
  hs_slen : 0 <= wh_sview_len h <= SVN_DELTA_WINDOW_SIZE;
  hs_tlen : 0 <= wh_tview_len h <= SVN_DELTA_WINDOW_SIZE;
  hs_inslen : 0 <= wh_inslen h <= MAX_INSTRUCTION_SECTION_LEN;
  hs_newlen : 0 <= wh_newlen h <= SVN_DELTA_WINDOW_SIZE + SVN__MAX_ENCODED_UINT_LEN
}.

Lemma check_window_header_Ok h u :
  check_window_header h = Ok u ->
  - 2 ^ 63 <= wh_sview_offset h < 2 ^ 63 -> 0 <= wh_sview_len h -> 0 <= wh_tview_len h ->
  0 <= wh_inslen h -> 0 <= wh_newlen h -> header_sizes h.
Proof.
  unfold check_window_header. intros E Ho Hs Ht Hi Hn.
  do 2 match type of E with (if ?b then _ else _) = _ => destruct b eqn:?; [done|] end.
  repeat match goal with H : _ || _ = false |- _ => apply orb_false_iff in H as [H ?] end.
  split; lia.
Qed.

Section Windows.
Context `{zlib : Zlib} `{lz4 : Lz4}.

Lemma decompress_section_limit version limit data out :
  decompress_section version limit data = Ok out -> zlen out <= Z.max limit (zlen data).
Proof.
  unfold decompress_section. destruct (version =? 2); [|destruct (version =? 1)].
  - intros E. apply lz4_decode_limit in E. lia.
  - intros E. apply zlib_decode_limit in E. lia.
  - intros [= <-]. lia.
Qed.

(** Whatever the data are, a window that is decoded is valid. *)
Lemma decode_window_valid h data version w :
  header_sizes h ->
  decode_window (wh_sview_offset h) (wh_sview_len h) (wh_tview_len h) (wh_inslen h) (wh_newlen h)
    data version = Ok w ->
  svndiff_window w /\ sview_offset w = wh_sview_offset h /\ sview_len w = wh_sview_len h.
Proof.
  intros [Ho Hs Ht Hi Hn] E. unfold decode_window in E.
  apply bind_Ok in E as (new_data & Hnew & E). apply bind_Ok in E as (ins & _ & E).
  apply bind_Ok in E as (ninst & Hcount & E).
  apply decompress_section_limit in Hnew.
  assert (zlen (slice data (wh_inslen h) (wh_newlen h)) <= wh_newlen h) as Hsl.
  { unfold slice, zlen. rewrite length_take. lia. }
  pose proof (zlen_nonneg new_data) as Hnz.
  unfold count_and_verify_instructions in Hcount.
  unfold SVN_DELTA_WINDOW_SIZE, SVN__MAX_ENCODED_UINT_LEN in *.
  apply count_loop_spec in Hcount as (ops & -> & Hdec & Hops & Hlen & Hnews & Hnl);
    [|unfold small, SIZE_BOUND; lia..|lia|lia].
  rewrite Z.add_0_l, Nat2Z.id, (Hdec 0) in E. cbn [mbind result_bind] in E.
  rewrite bool_decide_true in E by done. injection E as <-.
  split; [|done]. split; simpl; try (done || lia).
Qed.

(** Only the bytes of the window matter. *)
Lemma decode_window_app so sl tl inslen newlen p q version :
  0 <= inslen -> 0 <= newlen -> inslen + newlen <= zlen p ->
  decode_window so sl tl inslen newlen (p ++ q) version =
    decode_window so sl tl inslen newlen p version.
Proof. intros. unfold decode_window. by rewrite !slice_prefix by lia. Qed.
End Windows.

(** ** Window headers *)

Lemma decode_loop_None n p temp q :
  decode_loop n p temp = None -> (n <= length p)%nat -> decode_loop n (p ++ q) temp = None.
Proof.
  revert p temp. induction n as [|n IH]; intros [|c p] temp H Hn; simpl in *; try (done || lia).
  destruct (c <? 0x80); [done|]. apply IH; [done|lia].
Qed.

Lemma decode_uint_None p q :
  svn__decode_uint p = None -> 10 <= zlen p -> svn__decode_uint (p ++ q) = None.
Proof.
  unfold svn__decode_uint, SVN__MAX_ENCODED_UINT_LEN, zlen. intros H Hp.
  apply decode_loop_None; [done|lia].
Qed.

(** A number of a header: what it is when there is more data, and that there
    is none if a number is too long. *)
Lemma decode_uint_cases p :
  (exists v e rest, svn__decode_uint p = Some (v, rest) /\ p = e ++ rest /\ 1 <= zlen e <= 10 /\
     0 <= v < 2 ^ 64 /\ forall q, svn__decode_uint (p ++ q) = Some (v, rest ++ q)) \/
  (svn__decode_uint p = None /\ forall q, 10 <= zlen p -> svn__decode_uint (p ++ q) = None).
Proof.
  destruct (svn__decode_uint p) as [[v rest]|] eqn:E.
  - left. pose proof (decode_uint_suffix _ _ _ E) as (e & -> & He & Hv).
    exists v, e, rest. split_and!; try done; try (unfold zlen; lia).
    intros q. by apply decode_uint_app.
  - right. split; [done|]. intros q. by apply decode_uint_None.
Qed.

Lemma s64_range z : - 2 ^ 63 <= s64 z < 2 ^ 63.
Proof. unfold s64. destruct (Z.ltb_spec (z mod 2 ^ 64) (2 ^ 63)); dlia. Qed.

(** The five numbers, as one loop. *)
Fixpoint decode_numbers (n : nat) (p : bytes) : option (list Z * bytes) :=
  match n with
  | O => Some ([], p)
  | S n =>
      '(v, p) ← svn__decode_uint p;
      '(vs, p) ← decode_numbers n p;
      Some (v :: vs, p)
  end.

Lemma decode_window_header_numbers p :
  decode_window_header p =
    match decode_numbers 5 p with
    | Some ([so; sl; tl; il; nl], rest) =>
        Some (mk_window_header (zlen p - zlen rest) (s64 so) sl tl il nl)
    | _ => None
    end.
Proof.
  unfold decode_window_header, decode_file_offset, decode_numbers.
  repeat (rewrite ?decode_size_uint;
    match goal with |- context [svn__decode_uint ?p] =>
      destruct (svn__decode_uint p) as [[? ?]|]; [|done] end; simpl).
  done.
Qed.

Lemma decode_numbers_cases n p :
  (exists vs e rest, decode_numbers n p = Some (vs, rest) /\ p = e ++ rest /\ length vs = n /\
     Z.of_nat n <= zlen e <= 10 * Z.of_nat n /\ Forall (fun v => 0 <= v < 2 ^ 64) vs /\
     forall q, decode_numbers n (p ++ q) = Some (vs, rest ++ q)) \/
  (decode_numbers n p = None /\
   forall q, 10 * Z.of_nat n <= zlen p -> decode_numbers n (p ++ q) = None).
Proof.
  revert p. induction n as [|n IH]; intros p; cbn [decode_numbers].
  { left. exists [], [], p. split_and!; (done || lia). }
  destruct (decode_uint_cases p) as [(v & e & rest & -> & -> & He & Hv & Hq)|[-> Hq]];
    cbn [mbind option_bind].
  2: { right. split; [done|]. intros q Hp. by rewrite Hq by lia. }
  destruct (IH rest) as [(vs & e' & rest' & -> & -> & Hl & He' & Hvs & Hq')|[-> Hq']];
    cbn [mbind option_bind].
  - left. exists (v :: vs), (e ++ e'), rest'. split_and!; rewrite ?zlen_app; try lia.
    + done.
    + by rewrite <- app_assoc.
    + simpl. lia.
    + by constructor.
    + intros q. rewrite Hq. cbn [mbind option_bind]. by rewrite Hq'.
  - right. split; [done|]. intros q Hp. rewrite Hq. cbn [mbind option_bind].
    rewrite zlen_app in Hp. by rewrite Hq' by lia.
Qed.

(** A header of its length at the start of the buffer, or an incomplete one,
    which at 50 bytes stays incomplete. *)
Lemma decode_window_header_cases p :
  (exists h, decode_window_header p = Some h /\ 5 <= wh_len h <= 50 /\ wh_len h <= zlen p /\
     - 2 ^ 63 <= wh_sview_offset h < 2 ^ 63 /\ 0 <= wh_sview_len h /\ 0 <= wh_tview_len h /\
     0 <= wh_inslen h /\ 0 <= wh_newlen h /\
     forall q, decode_window_header (p ++ q) = Some h) \/
  (decode_window_header p = None /\
   forall q, 50 <= zlen p -> decode_window_header (p ++ q) = None).
Proof.
  setoid_rewrite decode_window_header_numbers.
  destruct (decode_numbers_cases 5 p) as [(vs & e & rest & -> & -> & Hl & He & Hvs & Hq)|[-> Hq]].
  - left. destruct vs as [|so [|sl [|tl [|il [|nl []]]]]]; try done.
    repeat (apply Forall_cons in Hvs as [? Hvs]).
    eexists. split; [reflexivity|]. cbn -[decode_numbers]. rewrite !zlen_app.
    pose proof (zlen_nonneg rest).
    pose proof (s64_range so). split_and!; try lia.
    intros q. rewrite Hq, !zlen_app. do 2 f_equal. lia.
  - right. split; [done|]. intros q Hp. by rewrite Hq by lia.
Qed.

(** * The incremental parser of svndiff streams

    The parser keeps what it could not use yet.  The header it remembers is a
    cache of what it would read again, its loop ends because every window is
    taken out of the buffer, and pieces of a stream do what the whole does. *)

Section ParserFacts.
Context `{zlib : Zlib} `{lz4 : Lz4} {S : Type}.
Context (consumer : option svn_txdelta_window_t -> S -> result S).

Notation baton := (decode_baton (S := S)).

(** ** The cached header *)

(** The header at the start of the buffer, read again. *)
Definition fresh_header (db : baton) : result (option window_header) :=
  match decode_window_header (db_buffer db) with
  | None => Ok None
  | Some h =>
      check_window_header h;;
      check_view (last_sview_offset db) (last_sview_len db) h;;
      Ok (Some h)
  end.

Definition header_cached (db : baton) : Prop :=
  wh_len (db_header db) = 0 \/ fresh_header db = Ok (Some (db_header db)).

Lemma next_header_fresh db : header_cached db -> next_header db = fresh_header db.
Proof.
  unfold next_header. intros [->|E]; [done|].
  destruct (_ =? 0); [done|]. by rewrite E.
Qed.

Lemma fresh_header_Some db h :
  fresh_header db = Ok (Some h) -> header_sizes h /\ 5 <= wh_len h <= zlen (db_buffer db).
Proof.
  unfold fresh_header.
  destruct (decode_window_header_cases (db_buffer db)) as
    [(h' & -> & Hl & Hlp & Ho & Hs & Ht & Hi & Hn & _)|[-> _]]; [|done].
  intros E. apply bind_Ok in E as (u & Hc & E). apply bind_Ok in E as (u' & _ & E).
  injection E as <-. split; [by eapply check_window_header_Ok|lia].
Qed.

Lemma fresh_header_app db x :
  fresh_header db <> Ok None -> fresh_header (append_buffer db x) = fresh_header db.
Proof.
  unfold fresh_header, append_buffer. simpl.
  destruct (decode_window_header_cases (db_buffer db)) as
    [(h & -> & _ & _ & _ & _ & _ & _ & _ & Hq)|[-> _]]; [|done]. by rewrite Hq.
Qed.

Lemma fresh_header_None db x :
  fresh_header db = Ok None -> 50 <= zlen (db_buffer db) ->
  fresh_header (append_buffer db x) = Ok None.
Proof.
  unfold fresh_header, append_buffer. simpl.
  destruct (decode_window_header_cases (db_buffer db)) as
    [(h & -> & _)|[-> Hq]]; [|intros _ Hp; by rewrite Hq].
  by destruct (check_window_header h); simpl; [destruct (check_view _ _ h)|].
Qed.

Lemma header_cached_app db x : header_cached db -> header_cached (append_buffer db x).
Proof.
  intros [H|H]; [by left|right]. rewrite fresh_header_app; [done|by rewrite H].
Qed.

(** The numbers of a checked header do not wrap. *)
Lemma window_bytes h :
  header_sizes h -> u64 (wh_inslen h + wh_newlen h) = wh_inslen h + wh_newlen h.
Proof.
  intros [_ _ _ Hi Hn]. apply u64_small.
  unfold MAX_INSTRUCTION_SECTION_LEN, MAX_INSTRUCTION_LEN, SVN_DELTA_WINDOW_SIZE,
    SVN__MAX_ENCODED_UINT_LEN in *. lia.
Qed.

(** ** The loop *)

Definition behind_header (db : baton) (h : window_header) : bytes :=
  drop (Z.to_nat (wh_len h)) (db_buffer db).

(** The parser with a window that is not complete yet, and behind a window. *)
Definition waiting (db : baton) (h : window_header) : baton :=
  mk_decode_baton (consumer_baton db) (db_buffer db) (last_sview_offset db)
    (last_sview_len db) (header_bytes db) (error_on_early_close db) (db_version db) h.

Definition behind_window (db : baton) (h : window_header) (s : S) : baton :=
  mk_decode_baton s (drop (Z.to_nat (wh_inslen h + wh_newlen h)) (behind_header db h))
    (wh_sview_offset h) (wh_sview_len h) (header_bytes db) (error_on_early_close db)
    (db_version db) no_window_header.

(** One round: the loop goes on with a new state or ends. *)
Definition round (db : baton) : result (baton + baton * bool) :=
  header ← fresh_header db;
  match header with
  | None => Ok (inr (db, true))
  | Some h =>
      if zlen (behind_header db h) <? u64 (wh_inslen h + wh_newlen h) then
        Ok (inr (waiting db h, false))
      else
        window ← decode_window (wh_sview_offset h) (wh_sview_len h) (wh_tview_len h)
                   (wh_inslen h) (wh_newlen h) (behind_header db h) (db_version db);
        s ← consumer (Some window) (consumer_baton db);
        Ok (inl (behind_window db h s))
  end.

Lemma write_loop_round f db :
  header_cached db ->
  write_loop consumer (Datatypes.S f) db =
    match round db with
    | Ok (inl db') => write_loop consumer f db'
    | Ok (inr r) => Ok r
    | Err e => Err e
    end.
Proof.
  intros Hc. cbn [write_loop]. unfold round. rewrite next_header_fresh by done.
  destruct (fresh_header db) as [[h|]|]; [|done|done]. cbn [mbind result_bind].
  fold (behind_header db h). destruct (_ <? _); [done|].
  destruct (decode_window _ _ _ _ _ _ _) as [w|]; [|done]. cbn [mbind result_bind].
  by destruct (consumer (Some w) (consumer_baton db)).
Qed.

(** A round that goes on leaves a shorter buffer. *)
Lemma round_inl db db' :
  round db = Ok (inl db') ->
  (length (db_buffer db') < length (db_buffer db))%nat /\ header_cached db' /\
  header_bytes db' = header_bytes db /\ error_on_early_close db' = error_on_early_close db.
Proof.
  unfold round. intros E. apply bind_Ok in E as ([h|] & Hh & E); [|done].
  apply fresh_header_Some in Hh as [Hs Hl].
  destruct (_ <? _); [done|]. apply bind_Ok in E as (w & _ & E). apply bind_Ok in E as (s & _ & E).
  injection E as <-. unfold behind_window, behind_header. simpl. rewrite !length_drop.
  unfold zlen in Hl. split_and!; [lia|by left|done|done].
Qed.

Lemma round_inr db db' b :
  header_cached db -> round db = Ok (inr (db', b)) ->
  header_cached db' /\ db_buffer db' = db_buffer db /\
  header_bytes db' = header_bytes db /\ error_on_early_close db' = error_on_early_close db /\
  (b = true -> fresh_header db' = Ok None).
Proof.
  unfold round. intros Hc E. apply bind_Ok in E as ([h|] & Hh & E).
  - destruct (_ <? _).
    + injection E as <- <-. split_and!; try done. by right.
    + apply bind_Ok in E as (w & _ & E). apply bind_Ok in E as (s & _ & E). done.
  - injection E as <- <-. done.
Qed.

(** The loop as it is run. *)
Definition drain (db : baton) : result (baton * bool) :=
  write_loop consumer (Datatypes.S (length (db_buffer db))) db.

Lemma write_loop_fuel f1 f2 db :
  header_cached db -> (length (db_buffer db) < f1)%nat -> (length (db_buffer db) < f2)%nat ->
  write_loop consumer f1 db = write_loop consumer f2 db.
Proof.
  revert f2 db. induction f1 as [|f1 IH]; intros [|f2] db Hc H1 H2; try lia.
  rewrite !write_loop_round by done. destruct (round db) as [[db'|]|] eqn:E; [|done|done].
  apply round_inl in E as (Hl & Hc' & _). apply IH; [done|lia|lia].
Qed.

Lemma drain_round db :
  header_cached db ->
  drain db =
    match round db with
    | Ok (inl db') => drain db'
    | Ok (inr r) => Ok r
    | Err e => Err e
    end.
Proof.
  intros Hc. unfold drain at 1. rewrite write_loop_round by done.
  destruct (round db) as [[db'|]|] eqn:E; [|done|done].
  apply round_inl in E as (Hl & Hc' & _). apply write_loop_fuel; [done|lia|lia].
Qed.

(** The loop ends by itself: running out of fuel can only be the consumer's. *)
Lemma drain_terminates db :
  header_cached db -> (forall w s, consumer w s <> Err OUT_OF_FUEL) ->
  (forall so sl tl il nl p v, decode_window so sl tl il nl p v <> Err OUT_OF_FUEL) ->
  drain db <> Err OUT_OF_FUEL.
Proof.
  intros Hc Hcons Hdec. remember (length (db_buffer db)) as n eqn:Hn. revert db Hn Hc.
  induction n as [n IH] using lt_wf_ind. intros db Hn Hc. rewrite drain_round by done.
  destruct (round db) as [[db'|r]|e] eqn:E; [|done|].
  - apply round_inl in E as (Hl & Hc' & _). eapply IH; [|done|done]. lia.
  - intros [= ->]. unfold round, fresh_header in E.
    destruct (decode_window_header (db_buffer db)) as [h|]; [|done].
    unfold check_window_header in E. do 2 (case_match; [done|]). simpl in E.
    unfold check_view in E. case_match; [done|]. simpl in E. case_match; [done|].
    destruct (decode_window _ _ _ _ _ _ _) as [w|e] eqn:Ew; simpl in E.
    + destruct (consumer (Some w) (consumer_baton db)) eqn:Es; simpl in E; [done|].
      injection E as ->. by eapply Hcons.
    + injection E as ->. by eapply Hdec.
Qed.

(** ** More data behind the buffer *)

(** A round that does not wait for more data does the same with it. *)
Lemma round_app db x :
  match round db with
  | Ok (inl db') => round (append_buffer db x) = Ok (inl (append_buffer db' x))
  | Ok (inr (db', _)) => True
  | Err e => round (append_buffer db x) = Err e
  end.
Proof.
  assert (fresh_header db = Ok None \/ fresh_header db <> Ok None) as [Hn|Hn]
    by (destruct (fresh_header db) as [[h|]|]; [by right|by left|by right]).
  { unfold round. by rewrite Hn. }
  pose proof (fresh_header_app db x Hn) as Hx. unfold round. rewrite Hx.
  destruct (fresh_header db) as [[h|]|] eqn:Hh; [|done|done]. cbn [mbind result_bind].
  apply fresh_header_Some in Hh as [Hs Hl].
  assert (behind_header (append_buffer db x) h = behind_header db h ++ x) as ->.
  { unfold behind_header, append_buffer, zlen in *. simpl. rewrite drop_app_le by lia. done. }
  rewrite window_bytes by done.
  destruct (Z.ltb_spec (zlen (behind_header db h)) (wh_inslen h + wh_newlen h)) as [|Hlen]; [done|].
  rewrite zlen_app. pose proof (zlen_nonneg x).
  destruct (Z.ltb_spec (zlen (behind_header db h) + zlen x) (wh_inslen h + wh_newlen h)); [lia|].
  pose proof (hs_inslen _ Hs). pose proof (hs_newlen _ Hs).
  rewrite decode_window_app by lia. simpl.
  destruct (decode_window _ _ _ _ _ _ _) as [w|]; [|done]. simpl.
  destruct (consumer (Some w) (consumer_baton db)) as [s|]; [|done]. simpl.
  unfold behind_window, append_buffer. simpl. do 3 f_equal.
  assert (behind_header (append_buffer db x) h = behind_header db h ++ x) as Hb.
  { unfold behind_header, append_buffer, zlen in *. simpl. rewrite drop_app_le by lia. done. }
  unfold append_buffer in Hb. rewrite Hb. rewrite drop_app_le; [done|]. unfold zlen in *. lia.
Qed.

(** A loop that waits goes on with more data as if it had not waited. *)
Lemma round_resume db db' b x :
  header_cached db -> round db = Ok (inr (db', b)) ->
  drain (append_buffer db x) = drain (append_buffer db' x).
Proof.
  intros Hc E. destruct (round_inr _ _ _ Hc E) as (Hc' & _).
  rewrite !drain_round by by apply header_cached_app.
  unfold round in E. apply bind_Ok in E as ([h|] & Hh & E).
  - destruct (_ <? _); [|apply bind_Ok in E as (w & _ & E); by apply bind_Ok in E as (s & _ & E)].
    injection E as <- _. unfold round.
    assert (fresh_header (append_buffer db x) = Ok (Some h)) as Hx
      by (rewrite fresh_header_app; by rewrite Hh).
    change (fresh_header (append_buffer (waiting db h) x)) with
      (fresh_header (append_buffer db x)). by rewrite Hx.
  - by injection E as <- _.
Qed.

Lemma drain_app db x :
  header_cached db ->
  match drain db with
  | Ok (db', b) =>
      header_cached db' /\ drain (append_buffer db x) = drain (append_buffer db' x) /\
      header_bytes db' = header_bytes db /\ error_on_early_close db' = error_on_early_close db /\
      (b = true -> fresh_header db' = Ok None)
  | Err e => drain (append_buffer db x) = Err e
  end.
Proof.
  intros Hc. remember (length (db_buffer db)) as n eqn:Hn. revert db Hn Hc.
  induction n as [n IH] using lt_wf_ind. intros db Hn Hc.
  pose proof (round_app db x) as Hx. rewrite drain_round by done.
  destruct (round db) as [[db'|[db' b]]|e] eqn:E.
  - apply round_inl in E as (Hl & Hc' & Hb & He).
    specialize (IH (length (db_buffer db')) ltac:(lia) db' eq_refl Hc').
    rewrite (drain_round (append_buffer db x)), Hx by by apply header_cached_app.
    destruct (drain db') as [[db2 b]|e]; [|done].
    destruct IH as (H1 & H2 & H3 & H4 & H5). split_and!; congruence || done.
  - pose proof (round_inr _ _ _ Hc E) as (Hc' & _ & Hb & He & Hf).
    split_and!; try done. by eapply round_resume.
  - by rewrite drain_round, Hx by by apply header_cached_app.
Qed.

(** ** The header of the stream *)

Definition SVN : bytes := [83; 86; 78].

Lemma svndiff_headers v :
  v ∈ [SVNDIFF_V0; SVNDIFF_V1; SVNDIFF_V2] -> exists n, v = SVN ++ [n].
Proof. rewrite !elem_of_cons, elem_of_nil. intros [->|[->|[->|[]]]]; by eexists. Qed.

(** Three bytes are the same in all versions. *)
Lemma slice_header v off len :
  v ∈ [SVNDIFF_V0; SVNDIFF_V1; SVNDIFF_V2] -> 0 <= off -> 0 <= len -> off + len <= 3 ->
  slice v off len = slice SVN off len.
Proof. intros (n & ->)%svndiff_headers ? ? ?. by apply slice_prefix. Qed.

Lemma match_header_short off b :
  0 <= off -> off + zlen b <= 3 ->
  match_svndiff_header off b = if decide (b = slice SVN off (zlen b)) then Some 0 else None.
Proof.
  intros Ho Hb. pose proof (zlen_nonneg b). unfold match_svndiff_header.
  rewrite (slice_header SVNDIFF_V0), (slice_header SVNDIFF_V1), (slice_header SVNDIFF_V2)
    by (lia || set_solver).
  case_decide; [by rewrite bool_decide_true|by rewrite !bool_decide_false].
Qed.

(** Pieces are compared like the whole. *)
Lemma match_header_app off b1 b2 :
  0 <= off -> off + zlen b1 <= 3 -> off + zlen b1 + zlen b2 <= 4 ->
  match_svndiff_header off (b1 ++ b2) =
    if decide (b1 = slice SVN off (zlen b1)) then match_svndiff_header (off + zlen b1) b2 else None.
Proof.
  intros Ho H1 H2. pose proof (zlen_nonneg b1). pose proof (zlen_nonneg b2).
  assert (forall v, v ∈ [SVNDIFF_V0; SVNDIFF_V1; SVNDIFF_V2] ->
    bool_decide (b1 ++ b2 = slice v off (zlen (b1 ++ b2))) =
    bool_decide (b1 = slice SVN off (zlen b1)) && bool_decide (b2 = slice v (off + zlen b1) (zlen b2)))
    as Hv.
  { intros v Hin. rewrite zlen_app, <- slice_app, (slice_header v off) by (done || lia).
    rewrite <- bool_decide_and. apply bool_decide_ext. split.
    - intros E. apply app_inj_1 in E; [done|].
      apply Nat2Z.inj. change (zlen b1 = zlen (slice SVN off (zlen b1))).
      rewrite zlen_slice; [done|lia|lia|]. by change (zlen SVN) with 3.
    - intros [? ?]. by f_equal. }
  unfold match_svndiff_header.
  rewrite (Hv SVNDIFF_V0), (Hv SVNDIFF_V1), (Hv SVNDIFF_V2) by set_solver.
  case_decide; [by rewrite bool_decide_true|by rewrite bool_decide_false].
Qed.

Definition chewed (db : baton) (n version : Z) : baton :=
  mk_decode_baton (consumer_baton db) (db_buffer db) (last_sview_offset db) (last_sview_len db)
    (header_bytes db + n) (error_on_early_close db) version (db_header db).

Lemma chew_done (db : baton) c : header_bytes db = 4 -> chew_header db c = Ok (db, c).
Proof. intros E. unfold chew_header. by rewrite E. Qed.

(** A piece that completes the header, and one that does not. *)
Lemma chew_long (db : baton) c :
  0 <= header_bytes db < 4 -> 4 - header_bytes db <= zlen c ->
  chew_header db c =
    match match_svndiff_header (header_bytes db) (take (Z.to_nat (4 - header_bytes db)) c) with
    | None => Err SVN_ERR_SVNDIFF_INVALID_HEADER
    | Some v => Ok (chewed db (4 - header_bytes db) v, drop (Z.to_nat (4 - header_bytes db)) c)
    end.
Proof.
  intros Hb Hc. unfold chew_header, SVNDIFF_HEADER_SIZE.
  destruct (Z.ltb_spec (header_bytes db) 4); [|lia].
  destruct (Z.ltb_spec (zlen c) (4 - header_bytes db)); [lia|done].
Qed.

Lemma chew_short (db : baton) c :
  0 <= header_bytes db < 4 -> zlen c < 4 - header_bytes db ->
  chew_header db c =
    if decide (c = slice SVN (header_bytes db) (zlen c)) then Ok (chewed db (zlen c) 0, [])
    else Err SVN_ERR_SVNDIFF_INVALID_HEADER.
Proof.
  intros Hb Hc. unfold chew_header, SVNDIFF_HEADER_SIZE.
  destruct (Z.ltb_spec (header_bytes db) 4); [|lia].
  destruct (Z.ltb_spec (zlen c) (4 - header_bytes db)); [|lia].
  assert (take (Z.to_nat (zlen c)) c = c) as -> by (apply take_ge; unfold zlen; lia).
  assert (drop (Z.to_nat (zlen c)) c = []) as -> by (apply drop_ge; unfold zlen; lia).
  rewrite match_header_short by lia. by case_decide.
Qed.

Lemma chew_app (db : baton) c1 c2 :
  0 <= header_bytes db <= 4 ->
  chew_header db (c1 ++ c2) =
    '(db1, r1) ← chew_header db c1; '(db2, r2) ← chew_header db1 c2; Ok (db2, r1 ++ r2).
Proof.
  intros Hb. pose proof (zlen_nonneg c2).
  destruct (decide (header_bytes db = 4)) as [H4|H4].
  { rewrite !(chew_done db) by done. cbn [mbind result_bind]. by rewrite chew_done. }
  set (k := 4 - header_bytes db).
  destruct (decide (k <= zlen c1)) as [Hc|Hc].
  - rewrite !chew_long by (rewrite ?zlen_app; unfold k in *; lia). fold k.
    unfold zlen in Hc. rewrite take_app_le, drop_app_le by lia.
    destruct (match_svndiff_header _ _) as [v|]; [|done]. cbn [mbind result_bind].
    rewrite chew_done by (simpl; unfold k; lia). done.
  - rewrite (chew_short db c1) by (unfold k in *; lia). pose proof (zlen_nonneg c1).
    assert (forall n, 0 <= n -> take (Z.to_nat (zlen c1 + n)) (c1 ++ c2) = c1 ++ take (Z.to_nat n) c2) as Htake.
    { intros n Hn. rewrite take_app_ge by (unfold zlen; lia). do 2 f_equal. unfold zlen. lia. }
    assert (forall n, 0 <= n -> drop (Z.to_nat (zlen c1 + n)) (c1 ++ c2) = drop (Z.to_nat n) c2) as Hdrop.
    { intros n Hn. rewrite drop_app_ge by (unfold zlen; lia). f_equal. unfold zlen. lia. }
    destruct (decide (k <= zlen c1 + zlen c2)) as [Hc2|Hc2].
    + rewrite chew_long by (rewrite ?zlen_app; unfold k in *; lia). fold k.
      replace k with (zlen c1 + (k - zlen c1)) by lia. rewrite Htake, Hdrop by lia.
      assert (zlen (take (Z.to_nat (k - zlen c1)) c2) = k - zlen c1) as Hz
        by (unfold zlen in *; rewrite length_take; lia).
      rewrite match_header_app by (rewrite ?Hz; unfold k in *; lia).
      case_decide; [|done]. cbn [mbind result_bind].
      rewrite chew_long by (simpl; unfold k in *; lia). simpl.
      replace (4 - (header_bytes db + zlen c1)) with (k - zlen c1) by (unfold k; lia).
      destruct (match_svndiff_header _ _) as [v|]; [|done]. simpl.
      unfold chewed. simpl. do 3 f_equal. unfold k. lia.
    + rewrite chew_short by (rewrite ?zlen_app; unfold k in *; lia).
      assert (match_svndiff_header (header_bytes db) (c1 ++ c2) =
        if decide (c1 = slice SVN (header_bytes db) (zlen c1))
        then match_svndiff_header (header_bytes db + zlen c1) c2 else None) as Hm
        by (apply match_header_app; unfold k in *; lia).
      rewrite match_header_short in Hm by (rewrite ?zlen_app; unfold k in *; lia).
      rewrite match_header_short in Hm by (unfold k in *; lia).
      case_decide; case_decide; try done; cbn [mbind result_bind];
        (rewrite chew_short by (simpl; unfold k in *; lia)); simpl; case_decide; try done.
      unfold chewed. simpl. do 3 f_equal. rewrite zlen_app. lia.
Qed.

(** ** Pieces of a stream *)

Record parser_ok (db : baton) : Prop := {
  po_header_bytes : 0 <= header_bytes db <= 4;
  po_start : header_bytes db < 4 -> db_buffer db = [];
  po_cached : header_cached db
}.

Lemma parse_svndiff_ok s early : parser_ok (svn_txdelta_parse_svndiff s early).
Proof. split; simpl; [lia|done|by left]. Qed.

Lemma chew_ok (db db1 : baton) c r :
  parser_ok db -> chew_header db c = Ok (db1, r) ->
  parser_ok db1 /\ db_buffer db1 = db_buffer db /\ (header_bytes db1 < 4 -> r = []) /\
  error_on_early_close db1 = error_on_early_close db.
Proof.
  intros [Hb Hs Hc] E. destruct (decide (header_bytes db = 4)) as [H4|H4].
  { rewrite chew_done in E by done. injection E as <- <-. split_and!; [by split|done|lia|done]. }
  assert (forall n v, 0 <= header_bytes db + n <= 4 -> parser_ok (chewed db n v)) as Hok.
  { intros n v Hn. split; simpl; [done| |].
    - intros _. apply Hs. lia.
    - destruct Hc as [Hc|Hc]; [by left|by right]. }
  pose proof (zlen_nonneg c).
  destruct (decide (4 - header_bytes db <= zlen c)).
  - rewrite chew_long in E by lia. destruct (match_svndiff_header _ _) as [v|]; [|done].
    injection E as <- <-. split_and!; [apply Hok; lia|done|simpl; lia|done].
  - rewrite chew_short in E by lia. case_decide; [|done].
    injection E as <- <-. split_and!; [apply Hok; lia|done|done|done].
Qed.

(** What the handler does behind the header of the stream. *)
Definition write_buffered (db : baton) : result baton :=
  '(db, incomplete) ← drain db;
  if incomplete && (50 <? zlen (db_buffer db)) then Err SVN_ERR_SVNDIFF_CORRUPT_WINDOW else Ok db.

Lemma write_handler_eq db c :
  write_handler consumer db c =
    '(db, c) ← chew_header db c; write_buffered (append_buffer db c).
Proof. done. Qed.

Lemma append_buffer_app (db : baton) x y :
  append_buffer (append_buffer db x) y = append_buffer db (x ++ y).
Proof. unfold append_buffer. simpl. by rewrite app_assoc. Qed.

Lemma append_buffer_nil (db : baton) : append_buffer db [] = db.
Proof. unfold append_buffer. rewrite app_nil_r. by destruct db. Qed.

Lemma write_buffered_app db x :
  header_cached db ->
  write_buffered (append_buffer db x) =
    db ← write_buffered db; write_buffered (append_buffer db x).
Proof.
  intros Hc. unfold write_buffered. pose proof (drain_app db x Hc) as H.
  destruct (drain db) as [[db' b]|e]; [|by rewrite H].
  destruct H as (Hc' & Hx & _ & _ & Hf). cbn [mbind result_bind].
  destruct (b && (50 <? zlen (db_buffer db'))) eqn:E; cbn [mbind result_bind].
  2: { by rewrite Hx. }
  apply andb_true_iff in E as [-> Hlen]. apply Z.ltb_lt in Hlen. specialize (Hf eq_refl).
  rewrite Hx, drain_round by by apply header_cached_app.
  unfold round. rewrite fresh_header_None by (done || lia). simpl.
  rewrite zlen_app. pose proof (zlen_nonneg x).
  destruct (Z.ltb_spec 50 (zlen (db_buffer db') + zlen x)); [done|lia].
Qed.

Lemma write_buffered_ok db db' :
  parser_ok db -> write_buffered db = Ok db' ->
  parser_ok db' /\ header_bytes db' = header_bytes db /\
  error_on_early_close db' = error_on_early_close db.
Proof.
  intros [Hb Hs Hc] E. unfold write_buffered in E. pose proof (drain_app db [] Hc) as H.
  destruct (drain db) as [[db1 b]|] eqn:Ed; [|done]. destruct H as (Hc' & _ & Hb' & He' & _).
  cbn [mbind result_bind] in E. destruct (_ && _); [done|]. injection E as <-.
  split; [|done]. split; [by rewrite Hb'| |done]. rewrite Hb'. intros H4.
  specialize (Hs H4). rewrite drain_round in Ed by done. unfold round, fresh_header in Ed.
  rewrite Hs in Ed. simpl in Ed. by injection Ed as <- _.
Qed.

Lemma write_handler_ok db c db' :
  parser_ok db -> write_handler consumer db c = Ok db' ->
  parser_ok db' /\ error_on_early_close db' = error_on_early_close db.
Proof.
  intros Hok E. rewrite write_handler_eq in E. apply bind_Ok in E as ([db1 r] & Hchew & E).
  destruct (chew_ok _ _ _ _ Hok Hchew) as (Hok1 & Hbuf & Hr & He).
  apply write_buffered_ok in E as (Hok' & _ & He'); [split; [done|by rewrite He', <- He]|].
  destruct Hok1 as [H1 H2 H3]. split; [done| |by apply header_cached_app].
  simpl. intros H4. by rewrite (H2 H4), (Hr H4).
Qed.

(** Writing two pieces is writing them at once, errors included. *)
Lemma write_handler_app db c1 c2 :
  parser_ok db ->
  write_handler consumer db (c1 ++ c2) =
    db ← write_handler consumer db c1; write_handler consumer db c2.
Proof.
  intros Hok. rewrite !write_handler_eq, chew_app by apply Hok.
  destruct (chew_header db c1) as [[db1 r1]|e] eqn:E1; [|done]. cbn [mbind result_bind].
  destruct (chew_ok _ _ _ _ Hok E1) as (Hok1 & _ & Hr & _).
  destruct (decide (header_bytes db1 = 4)) as [H4|H4].
  - rewrite chew_done by done. cbn [mbind result_bind].
    rewrite <- append_buffer_app, write_buffered_app by apply header_cached_app, Hok1.
    destruct (write_buffered (append_buffer db1 r1)) as [db2|] eqn:E2; [|done].
    cbn [mbind result_bind].
    apply write_buffered_ok in E2 as (_ & Hb & _).
    + rewrite write_handler_eq, chew_done by (rewrite Hb; exact H4). done.
    + destruct Hok1 as [H1 H2 H3]. split; [done|simpl; lia|by apply header_cached_app].
  - destruct Hok1 as [H1 H2 H3]. rewrite (Hr ltac:(lia)), append_buffer_nil.
    assert (write_buffered db1 = Ok db1) as ->.
    { unfold write_buffered. rewrite drain_round by done. unfold round, fresh_header.
      rewrite (H2 ltac:(lia)). simpl. by rewrite (H2 ltac:(lia)). }
    cbn [mbind result_bind]. rewrite write_handler_eq.
    destruct (chew_header db1 c2) as [[db2 r2]|]; done.
Qed.

(** The handler on a list of pieces. *)
Fixpoint write_pieces (pieces : list bytes) (db : baton) : result baton :=
  match pieces with
  | [] => Ok db
  | c :: pieces => db ← write_handler consumer db c; write_pieces pieces db
  end.

Lemma write_pieces_concat c pieces db :
  parser_ok db -> write_pieces (c :: pieces) db = write_handler consumer db (concat (c :: pieces)).
Proof.
  revert c db. induction pieces as [|c' pieces IH]; intros c db Hok.
  - simpl. rewrite app_nil_r. by destruct (write_handler consumer db c).
  - cbn [write_pieces concat]. rewrite write_handler_app by done.
    destruct (write_handler consumer db c) as [db1|] eqn:E; [|done]. cbn [mbind result_bind].
    apply write_handler_ok in E as [Hok1 _]; [|done].
    exact (IH c' db1 Hok1).
Qed.
End ParserFacts.
