(* ===== verification/SvndiffStreamFacts.v ===== *)
(** * Safety, termination and round trips of svndiff streams

    The consumer of the parser only sees valid windows; the parser comes to an
    end; what the encoder writes is parsed, in any pieces, to the windows that
    were encoded. *)

From S2P Require Import Prelude Buffers Encode Delta DeltaFacts Compress Svndiff SvndiffFacts Xdelta.
From S2P Require Import XdeltaFacts DeltaStreamFacts.

(** ** Checking windows *)

#[export] Instance news_ok_dec npos ops : Decision (news_ok npos ops).
Proof. revert npos. induction ops; intros npos; simpl; [apply _|]. case_decide; apply _. Defined.

#[export] Instance svndiff_window_dec w : Decision (svndiff_window w).
Proof.
  refine (cast_if (decide (
    ops_ok (sview_len w) (zlen (w_new_data w)) 0 (w_ops w) /\ ops_len (w_ops w) = tview_len w /\
    news_ok 0 (w_ops w) /\ new_len (w_ops w) = zlen (w_new_data w) /\
    w_src_ops w = count_sources (w_ops w) /\ 0 <= sview_offset w < 2 ^ 63 /\
    0 <= sview_len w <= SVN_DELTA_WINDOW_SIZE /\ 0 <= tview_len w <= SVN_DELTA_WINDOW_SIZE)));
    [split|intros []]; tauto.
Defined.

Section Checking.
Context `{zlib : Zlib} `{lz4 : Lz4} {S : Type}.
Context (consumer : option svn_txdelta_window_t -> S -> result S).

(** The consumer with a test of its argument in front. *)
Definition checking (w : option svn_txdelta_window_t) (s : S) : result S :=
  match w with
  | Some window => if decide (svndiff_window window) then consumer w s else Err C_ABORT
  | None => consumer w s
  end.

Lemma round_checking db : round checking db = round consumer db.
Proof.
  unfold round. destruct (fresh_header db) as [[h|]|] eqn:Hh; [|done|done]. cbn [mbind result_bind].
  apply fresh_header_Some in Hh as [Hs _]. destruct (_ <? _); [done|].
  destruct (decode_window _ _ _ _ _ _ _) as [w|] eqn:E; [|done]. cbn [mbind result_bind checking].
  apply decode_window_valid in E as [Hw _]; [|done]. by rewrite decide_True.
Qed.

Lemma write_loop_checking f db :
  header_cached db -> write_loop checking f db = write_loop consumer f db.
Proof.
  revert db. induction f as [|f IH]; intros db Hc; [done|].
  rewrite !write_loop_round, round_checking by done.
  destruct (round consumer db) as [[db'|]|] eqn:E; [|done|done].
  apply round_inl in E as (_ & Hc' & _). by apply IH.
Qed.

Lemma write_handler_checking db c :
  parser_ok db -> write_handler checking db c = write_handler consumer db c.
Proof.
  intros Hok. unfold write_handler. destruct (chew_header db c) as [[db1 r]|] eqn:E; [|done].
  cbn [mbind result_bind]. apply chew_ok in E as ([_ _ Hc] & _); [|done].
  by rewrite write_loop_checking by by apply header_cached_app.
Qed.
End Checking.

(** ** Termination *)

(** The loop over the instructions uses up a byte per instruction at least. *)
Lemma count_loop_fuel fuel p slen tlen nlen n tpos npos unset :
  (length p <= fuel)%nat -> count_loop fuel p slen tlen nlen n tpos npos unset <> Err OUT_OF_FUEL.
Proof.
  revert p n tpos npos unset. induction fuel as [|f IH]; intros [|c p] n tpos npos unset Hf;
    cbn [count_loop]; try (simpl in Hf; lia); try (repeat (case_match; [done|]); done).
  destruct (decode_instruction unset (c :: p)) as [[op rest]|] eqn:E; [|done].
  apply decode_instruction_inv in E as ((e & Ep & He) & _).
  apply (f_equal length) in Ep. rewrite length_app in Ep.
  do 2 (case_match; [done|]).
  match goal with |- ?x ≫= _ <> _ => destruct x as [npos'|e'] eqn:Ex end.
  - cbn [mbind result_bind]. apply IH. lia.
  - simpl. intros [= ->]. repeat case_match; done.
Qed.

Lemma decode_ops_fuel n p npos src_ops : decode_ops n p npos src_ops <> Err OUT_OF_FUEL.
Proof.
  revert p npos src_ops. induction n as [|n IH]; intros p npos src_ops; cbn [decode_ops]; [done|].
  destruct (decode_instruction 0 p) as [[op rest]|]; [|done].
  destruct (action_code op);
    (match goal with |- context [decode_ops n ?a ?b ?c] =>
       specialize (IH a b c); destruct (decode_ops n a b c) as [[[? ?] ?]|] end); simpl; congruence.
Qed.

Section Termination.
Context `{zlib : Zlib} `{lz4 : Lz4}.
Context (Hzlib : forall data len, uncompress data len <> Err OUT_OF_FUEL).

Lemma decompress_section_fuel version limit data :
  decompress_section version limit data <> Err OUT_OF_FUEL.
Proof.
  unfold decompress_section, svn__decompress_lz4, svn__decompress_zlib, zlib_decode, memcpy_from,
    c_assert.
  destruct (version =? 2); [|destruct (version =? 1); [|done]].
  - destruct (zlen data <=? INT_MAX); [|done]. destruct (limit <=? INT_MAX); [|done]. simpl.
    repeat case_match; done.
  - repeat (case_match; try done). destruct (uncompress _ _) eqn:E; simpl.
    + by case_match.
    + intros [= ->]. by eapply Hzlib.
Qed.

Lemma decode_window_fuel so sl tl il nl p v : decode_window so sl tl il nl p v <> Err OUT_OF_FUEL.
Proof.
  unfold decode_window.
  destruct (decompress_section v SVN_DELTA_WINDOW_SIZE _) eqn:E1; simpl;
    [|intros [= ->]; by eapply decompress_section_fuel].
  destruct (decompress_section v MAX_INSTRUCTION_SECTION_LEN _) eqn:E2; simpl;
    [|intros [= ->]; by eapply decompress_section_fuel].
  destruct (count_and_verify_instructions _ _ _ _) eqn:E3; simpl;
    [|intros [= ->]; by eapply count_loop_fuel].
  destruct (decode_ops _ _ _ _) as [[[ops rest] src_ops]|] eqn:E4; simpl;
    [|intros [= ->]; by eapply decode_ops_fuel].
  by case_bool_decide.
Qed.

Lemma write_handler_fuel {S} (consumer : option svn_txdelta_window_t -> S -> result S) db c :
  parser_ok db -> (forall w s, consumer w s <> Err OUT_OF_FUEL) ->
  write_handler consumer db c <> Err OUT_OF_FUEL.
Proof.
  intros Hok Hcons. rewrite write_handler_eq.
  destruct (chew_header db c) as [[db1 r]|e] eqn:E.
  - cbn [mbind result_bind]. apply chew_ok in E as ([_ _ Hc] & _); [|done].
    unfold write_buffered.
    destruct (drain consumer (append_buffer db1 r)) as [[db2 b]|e] eqn:Ed; simpl; [by case_match|].
    intros [= ->]. eapply drain_terminates; [|done|apply decode_window_fuel|exact Ed].
    by apply header_cached_app.
  - simpl. intros [= ->]. unfold chew_header in E. repeat case_match; done.
Qed.
End Termination.

(** ** Encoded numbers and instructions *)

Lemma encode_uint_small val : 0 <= val < 128 -> svn__encode_uint val = [val].
Proof.
  intros H. unfold svn__encode_uint. rewrite Z.shiftr_div_pow2, Z.div_small by lia.
  change (encode_bytes (Z.to_nat (encoded_length 9 0 1 - 1)) val) with [Z.land val 0x7f].
  by rewrite land_127, Z.mod_small by lia.
Qed.

Lemma encode_uint_short val : 0 <= val < 2 ^ 21 -> zlen (svn__encode_uint val) <= 3.
Proof.
  intros H. unfold zlen. rewrite encode_uint_length by lia. unfold uint_len.
  rewrite Z.shiftr_div_pow2 by lia.
  assert (0 <= val / 2 ^ 7 < 2 ^ 14) as Hv by dlia. set (v := val / 2 ^ 7) in *. clearbody v.
  cbn [encoded_length]. rewrite !Z.shiftr_div_pow2 by lia.
  destruct (Z.ltb_spec 0 v); [|simpl; lia].
  destruct (Z.ltb_spec 0 (v / 2 ^ 7)); [|simpl; lia].
  destruct (Z.ltb_spec 0 (v / 2 ^ 7 / 2 ^ 7)); [dlia|simpl; lia].
Qed.

Lemma encode_instruction_size op :
  0 < op_length op < 2 ^ 21 -> 0 <= op_offset op < 2 ^ 21 ->
  1 <= zlen (encode_instruction op) <= 7.
Proof.
  intros Hl Ho. unfold encode_instruction. rewrite zlen_app.
  set (l := if _ =? 0 then _ else _). set (o := if negb _ then _ else _).
  assert (1 <= zlen l <= 4) as Hll.
  { unfold l. pose proof (encode_uint_short (op_length op) ltac:(lia)).
    destruct (_ =? 0); [by unfold zlen|]. unfold zlen in *. simpl. lia. }
  assert (0 <= zlen o <= 3) as Hoo.
  { unfold o. pose proof (encode_uint_short (op_offset op) ltac:(lia)).
    destruct (negb _); [pose proof (zlen_nonneg (svn__encode_uint (op_offset op))); lia|done]. }
  lia.
Qed.

(** Numbers in an instruction of a window with small views. *)
Lemma op_ok_small slen nlen tpos tlen op :
  op_ok slen nlen tpos op -> slen < 2 ^ 21 -> nlen < 2 ^ 21 -> tpos + op_length op <= tlen ->
  tlen < 2 ^ 21 -> 0 <= tpos ->
  0 < op_length op < 2 ^ 21 /\ 0 <= op_offset op < 2 ^ 21.
Proof. intros (Ho & Hl & Hop) ? ? ? ? ?. destruct (action_code op); lia. Qed.

Lemma encode_instructions_size slen nlen tpos tlen ops :
  ops_ok slen nlen tpos ops -> slen < 2 ^ 21 -> nlen < 2 ^ 21 -> tpos + ops_len ops <= tlen ->
  tlen < 2 ^ 21 -> 0 <= tpos ->
  zlen (encode_instructions ops) <= 7 * ops_len ops.
Proof.
  intros Hok Hs Hn Ht Htl Htp. revert tpos Hok Ht Htp.
  induction ops as [|op ops IH]; intros tpos Hok Ht Htp; [done|].
  destruct Hok as [Hop Hok]. simpl in Ht. pose proof (ops_ok_len_nonneg _ _ _ _ Hok).
  destruct (op_ok_small slen nlen tpos tlen op) as [Hl Ho]; try (done || lia).
  pose proof (encode_instruction_size op Hl Ho).
  change (encode_instructions (op :: ops)) with (encode_instruction op ++ encode_instructions ops).
  rewrite zlen_app. specialize (IH _ Hok ltac:(lia) ltac:(lia)). simpl. lia.
Qed.

(** The checks accept the encoding of valid instructions. *)
Lemma count_loop_encode slen tlen nlen fuel ops n tpos npos unset :
  small slen -> small tlen -> small nlen -> slen < 2 ^ 21 -> tlen < 2 ^ 21 -> nlen < 2 ^ 21 ->
  ops_ok slen nlen tpos ops -> tpos + ops_len ops = tlen ->
  news_ok npos ops -> npos + new_len ops = nlen -> 0 <= tpos -> 0 <= npos ->
  (length (encode_instructions ops) <= fuel)%nat ->
  count_loop fuel (encode_instructions ops) slen tlen nlen n tpos npos unset =
    Ok (n + Z.of_nat (length ops)).
Proof.
  unfold small, SIZE_BOUND. intros Hs Ht Hn Hs' Ht' Hn'.
  revert fuel n tpos npos unset. induction ops as [|op ops IH];
    intros fuel n tpos npos unset Hok Hlen Hnews Hnl Htp Hnp Hf.
  - simpl in *. rewrite Z.add_0_r in *. subst. destruct fuel; cbn [count_loop];
      by rewrite !Z.eqb_refl.
  - destruct Hok as [Hop Hok]. pose proof (ops_ok_len_nonneg _ _ _ _ Hok) as Hpos.
    pose proof (new_len_le_ops_len _ _ _ _ Hok) as Hnpos.
    cbn [ops_len new_len fold_right] in Hlen, Hnl. fold (ops_len ops) in Hlen.
    fold (new_len ops) in Hnl.
    destruct (op_ok_small slen nlen tpos tlen op) as [Hl Ho]; try (done || lia).
    pose proof (encode_instruction_size op Hl Ho) as Hsize.
    change (encode_instructions (op :: ops)) with
      (encode_instruction op ++ encode_instructions ops) in *.
    rewrite length_app in Hf. unfold zlen in Hsize.
    destruct fuel as [|f]; [lia|].
    pose proof (decode_encode_instruction unset op (encode_instructions ops)
      ltac:(lia) ltac:(lia)) as Hdec.
    destruct (encode_instruction op) as [|c e] eqn:Eenc; [simpl in Hsize; lia|].
    cbn [app] in Hdec |- *. cbn [count_loop]. rewrite Hdec.
    assert (op_length (with_unset unset op) = op_length op) as ->
      by (unfold with_unset; by case_decide).
    assert (action_code (with_unset unset op) = action_code op) as ->
      by (unfold with_unset; by case_decide).
    rewrite (proj2 (Z.eqb_neq _ _)) by lia. rewrite u64_small by lia.
    rewrite (proj2 (Z.ltb_ge _ _)) by lia. simpl in Hf.
    assert (forall u npos', npos' + new_len ops = nlen -> news_ok npos' ops -> 0 <= npos' ->
      count_loop f (encode_instructions ops) slen tlen nlen (n + 1) (u64 (tpos + op_length op))
        npos' u = Ok (n + Z.of_nat (length (op :: ops)))) as Hrec.
    { intros u npos' H1 H2 H3. rewrite u64_small by lia. rewrite IH; try (done || lia).
      simpl. f_equal. lia. }
    destruct Hop as (_ & _ & Hop). cbn [news_ok] in Hnews. unfold with_unset.
    destruct (action_code op) eqn:Hc.
    + repeat (case_decide; [done|]). rewrite (u64_small (slen - op_offset op)) by lia.
      rewrite (proj2 (Z.ltb_ge (slen - _) _)), (proj2 (Z.ltb_ge slen _)) by lia. simpl. apply Hrec; (done || lia).
    + repeat (case_decide; [done|]). rewrite (proj2 (Z.leb_gt _ _)) by lia. simpl.
      apply Hrec; (done || lia).
    + repeat (case_decide; [|done]). destruct Hnews as [Hoff Hnews].
      rewrite (u64_small (nlen - npos)), (u64_small (npos + _)) by lia.
      rewrite (proj2 (Z.ltb_ge _ _)) by lia. cbn [mbind result_bind]. apply Hrec; (done || lia).
Qed.

Lemma decodes_encode slen nlen tpos tlen npos ops :
  slen < 2 ^ 21 -> tlen < 2 ^ 21 -> nlen < 2 ^ 21 ->
  ops_ok slen nlen tpos ops -> tpos + ops_len ops <= tlen ->
  news_ok npos ops -> npos + new_len ops <= nlen -> 0 <= tpos -> 0 <= npos ->
  decodes_to (encode_instructions ops) npos ops.
Proof.
  intros Hs Ht Hn. revert tpos npos. induction ops as [|op ops IH];
    intros tpos npos Hok Hlen Hnews Hnl Htp Hnp.
  { intros src_ops. simpl. do 2 f_equal. lia. }
  destruct Hok as [Hop Hok]. pose proof (ops_ok_len_nonneg _ _ _ _ Hok) as Hpos.
  pose proof (new_len_le_ops_len _ _ _ _ Hok) as Hnpos.
  cbn [ops_len new_len fold_right] in Hlen, Hnl. fold (ops_len ops) in Hlen.
  fold (new_len ops) in Hnl.
  destruct (op_ok_small slen nlen tpos tlen op) as [Hl Ho]; try (done || lia).
  assert (op = with_npos npos (with_unset 0 op)) as Hop'.
  { unfold with_npos, with_unset. destruct op as [action off len]. simpl in *.
    destruct action; simpl in *; try done. destruct Hnews as [-> _]. done. }
  assert (next_npos npos (with_unset 0 op) = npos + new_len [op] /\
    news_ok (npos + new_len [op]) ops) as [Hnext Hnews'].
  { unfold next_npos, with_unset. destruct op as [action off len]. simpl in *.
    destruct action; simpl in *; rewrite ?Z.add_0_r; try done. destruct Hnews as [_ ?]. done. }
  cbn [new_len fold_right] in Hnext, Hnews'. rewrite Z.add_0_r in Hnext, Hnews'.
  rewrite Hop' at 2.
  change (encode_instructions (op :: ops)) with
    (encode_instruction op ++ encode_instructions ops).
  assert (op_length (with_unset 0 op) = op_length op) as Hul
    by (unfold with_unset; by case_decide).
  eapply decodes_to_cons; [apply decode_encode_instruction; lia|lia|lia| |].
  - rewrite Hnext. lia.
  - rewrite Hnext. eapply (IH (tpos + op_length op)); try (done || lia). case_decide; lia.
Qed.

(** * What the encoder writes, the parser reads

    The round trip of one window, of a stream of windows in any pieces, and of
    the functions that read one window at a time. *)

(** ** Windows that can be written *)

Record encodable (w : svn_txdelta_window_t) : Prop := {
  ec_ops : ops_ok (sview_len w) (zlen (w_new_data w)) 0 (w_ops w);
  ec_tview : ops_len (w_ops w) = tview_len w;
  ec_built : window_built w;
  ec_sview_offset : 0 <= sview_offset w < 2 ^ 63;
  ec_sview_len : 0 <= sview_len w <= SVN_DELTA_WINDOW_SIZE;
  ec_tview_len : 0 <= tview_len w <= SVN_DELTA_WINDOW_SIZE
}.

(** What becomes of a window: the copies from the source are counted again. *)
Definition decoded (w : svn_txdelta_window_t) : svn_txdelta_window_t :=
  mk_window (sview_offset w) (sview_len w) (tview_len w) (count_sources (w_ops w)) (w_ops w)
    (w_new_data w).

Lemma decoded_valid w : encodable w -> svndiff_window (decoded w).
Proof. by intros [Hops Htv [Hnews Hnl Hsrc] Hso Hsl Htl]. Qed.

Lemma valid_encodable w : svndiff_window w -> encodable w /\ decoded w = w.
Proof.
  intros [Hops Htv Hnews Hnl Hsrc Hso Hsl Htl]. split.
  - split; try done. split; try done. by rewrite Hsrc.
  - unfold decoded. rewrite <- Hsrc. by destruct w.
Qed.

Section StreamFacts.
Context `{zlib_laws : ZlibLaws} `{lz4_laws : Lz4Laws}.

(** ** Sections *)

Lemma compress_section_size version level data out :
  compress_section version level data = Ok out -> zlen data < 2 ^ 31 ->
  zlen data = zlen out \/ zlen out <= zlen data + 10 /\ version <> 0.
Proof.
  unfold compress_section. destruct (Z.eqb_spec version 2) as [->|]; [|destruct (Z.eqb_spec version 1) as [->|]].
  - intros E ?. right. split; [|done]. by apply lz4_encode_size.
  - intros E ?. right. split; [|done]. unfold svn__compress_zlib in E. destruct (_ || _); [done|].
    apply zlib_encode_size in E; [done|lia].
  - intros [= <-]. by left.
Qed.

Lemma decompress_compress_section version level limit data out :
  compress_section version level data = Ok out -> zlen data <= limit -> limit <= INT_MAX ->
  decompress_section version limit out = Ok data.
Proof.
  unfold compress_section, decompress_section.
  destruct (version =? 2); [|destruct (version =? 1)]; intros E Hd Hl.
  - by apply lz4_decode_encode.
  - eapply zlib_decode_encode; [done..|]. unfold INT_MAX in Hl. lia.
  - by injection E as <-.
Qed.

(** ** One window *)

Lemma append_encoded_int_Ok header val :
  0 <= val < 2 ^ 64 -> append_encoded_int header val = Ok (header ++ svn__encode_uint val).
Proof.
  intros H. unfold append_encoded_int. rewrite c_assert_le, u64_small by lia. done.
Qed.

(** The header that the encoder writes. *)
Definition header_bytes_of (w : svn_txdelta_window_t) (inslen newlen : Z) : bytes :=
  svn__encode_uint (sview_offset w) ++ svn__encode_uint (sview_len w)
    ++ svn__encode_uint (tview_len w) ++ svn__encode_uint inslen ++ svn__encode_uint newlen.

Definition header_of (w : svn_txdelta_window_t) (inslen newlen : Z) : window_header :=
  mk_window_header (zlen (header_bytes_of w inslen newlen)) (sview_offset w) (sview_len w)
    (tview_len w) inslen newlen.

Lemma encode_window_inv w version level ins header newdata :
  encodable w -> encode_window w version level = Ok (ins, header, newdata) ->
  compress_section version level (encode_instructions (w_ops w)) = Ok ins /\
  compress_section version level (w_new_data w) = Ok newdata /\
  header = header_bytes_of w (zlen ins) (zlen newdata) /\
  zlen (encode_instructions (w_ops w)) <= 7 * SVN_DELTA_WINDOW_SIZE /\
  zlen (w_new_data w) <= SVN_DELTA_WINDOW_SIZE.
Proof.
  intros [Hops Htv [Hnews Hnl Hsrc] Hso Hsl Htl] E. unfold encode_window in E.
  assert (zlen (w_new_data w) <= SVN_DELTA_WINDOW_SIZE) as Hnd.
  { rewrite <- Hnl. pose proof (new_len_le_ops_len _ _ _ _ Hops). lia. }
  assert (zlen (encode_instructions (w_ops w)) <= 7 * SVN_DELTA_WINDOW_SIZE) as Hil.
  { pose proof (encode_instructions_size _ _ 0 (tview_len w) _ Hops) as H.
    unfold SVN_DELTA_WINDOW_SIZE in *. lia. }
  pose proof (zlen_nonneg (encode_instructions (w_ops w))). pose proof (zlen_nonneg (w_new_data w)).
  unfold SVN_DELTA_WINDOW_SIZE in *.
  rewrite !append_encoded_int_Ok in E by lia. cbn [mbind result_bind] in E.
  rewrite !append_encoded_int_Ok in E by lia. cbn [mbind result_bind] in E.
  rewrite !append_encoded_int_Ok in E by lia. cbn [mbind result_bind] in E.
  apply bind_Ok in E as (i & Hi & E).
  pose proof (compress_section_size _ _ _ _ Hi ltac:(lia)).
  rewrite append_encoded_int_Ok in E by (pose proof (zlen_nonneg i); lia). cbn [mbind result_bind] in E.
  apply bind_Ok in E as (nd & Hn & E).
  pose proof (compress_section_size _ _ _ _ Hn ltac:(lia)).
  rewrite append_encoded_int_Ok in E by (pose proof (zlen_nonneg nd); lia). cbn [mbind result_bind] in E.
  injection E as <- <- <-. split_and!; try done. unfold header_bytes_of.
  by rewrite <- !app_assoc.
Qed.

(** The parser accepts the header. *)
Lemma encoded_header w version level ins header newdata rest :
  encodable w -> encode_window w version level = Ok (ins, header, newdata) ->
  let h := header_of w (zlen ins) (zlen newdata) in
  decode_window_header (header ++ rest) = Some h /\ check_window_header h = Ok () /\
  header_sizes h /\ wh_len h = zlen header.
Proof.
  intros Hw E. destruct (encode_window_inv _ _ _ _ _ _ Hw E) as (Hi & Hn & -> & Hil & Hnl).
  pose proof Hw as [_ _ _ Hso Hsl Htl].
  pose proof (zlen_nonneg ins). pose proof (zlen_nonneg newdata).
  pose proof (zlen_nonneg (encode_instructions (w_ops w))). pose proof (zlen_nonneg (w_new_data w)).
  apply compress_section_size in Hi; [|unfold SVN_DELTA_WINDOW_SIZE in *; lia].
  apply compress_section_size in Hn; [|unfold SVN_DELTA_WINDOW_SIZE in *; lia].
  intros h.
  assert (header_sizes h) as Hh.
  { split; simpl; unfold MAX_INSTRUCTION_SECTION_LEN, MAX_INSTRUCTION_LEN, SVN__MAX_ENCODED_UINT_LEN,
      SVN_DELTA_WINDOW_SIZE in *; lia. }
  split_and!; [|..|done|done].
  - rewrite decode_window_header_numbers. unfold header_bytes_of.
    unfold SVN_DELTA_WINDOW_SIZE in *.
    assert (decode_numbers 5 ((svn__encode_uint (sview_offset w) ++ svn__encode_uint (sview_len w) ++
      svn__encode_uint (tview_len w) ++ svn__encode_uint (zlen ins) ++ svn__encode_uint (zlen newdata)) ++
      rest) = Some ([sview_offset w; sview_len w; tview_len w; zlen ins; zlen newdata], rest)) as ->.
    { rewrite <- !app_assoc. cbn [decode_numbers].
      do 5 (rewrite decode_encode_uint by lia; cbn [mbind option_bind]). done. }
    unfold h, header_of. do 2 f_equal.
    + rewrite !zlen_app. unfold header_bytes_of. rewrite !zlen_app. lia.
    + unfold s64. rewrite Z.mod_small by lia. destruct (Z.ltb_spec (sview_offset w) (2 ^ 63)); lia.
  - destruct Hh as [Hh1 Hh2 Hh3 Hh4 Hh5]. unfold check_window_header.
    rewrite (proj2 (Z.ltb_ge _ (wh_tview_len h))), (proj2 (Z.ltb_ge _ (wh_sview_len h))),
      (proj2 (Z.ltb_ge _ (wh_newlen h))), (proj2 (Z.ltb_ge _ (wh_inslen h))) by lia. cbn [orb].
    unfold MAX_INSTRUCTION_SECTION_LEN, MAX_INSTRUCTION_LEN, SVN__MAX_ENCODED_UINT_LEN,
      SVN_DELTA_WINDOW_SIZE in *.
    rewrite (u64_small (wh_inslen h + _)), (u64_small (wh_sview_len h + _)), (u64_small (wh_sview_offset h)),
      (u64_small (wh_sview_offset h + _)) by lia.
    by rewrite !(proj2 (Z.ltb_ge _ _)) by lia.
Qed.

(** The sections decode to the window. *)
Lemma decode_encode_window w version level ins header newdata rest :
  encodable w -> encode_window w version level = Ok (ins, header, newdata) ->
  decode_window (sview_offset w) (sview_len w) (tview_len w) (zlen ins) (zlen newdata)
    (ins ++ newdata ++ rest) version = Ok (decoded w).
Proof.
  intros Hw E. destruct (encode_window_inv _ _ _ _ _ _ Hw E) as (Hi & Hn & -> & Hil & Hnd).
  destruct Hw as [Hops Htv [Hnews Hnl Hsrc] Hso Hsl Htl].
  unfold decode_window. rewrite slice_suffix.
  assert (take (Z.to_nat (zlen newdata)) (newdata ++ rest) = newdata) as ->
    by (unfold zlen; by rewrite Nat2Z.id, take_app_length).
  assert (slice (ins ++ newdata ++ rest) 0 (zlen ins) = ins) as ->
    by (rewrite slice_prefix, slice_full; [done|lia|apply zlen_nonneg|lia]).
  rewrite (decompress_compress_section _ _ _ _ _ Hn) by (unfold INT_MAX, SVN_DELTA_WINDOW_SIZE in *; lia).
  cbn [mbind result_bind].
  rewrite (decompress_compress_section _ _ _ _ _ Hi)
    by (unfold INT_MAX, MAX_INSTRUCTION_SECTION_LEN, MAX_INSTRUCTION_LEN, SVN__MAX_ENCODED_UINT_LEN,
      SVN_DELTA_WINDOW_SIZE in *; lia).
  cbn [mbind result_bind].
  pose proof (zlen_nonneg (w_new_data w)).
  unfold count_and_verify_instructions, SVN_DELTA_WINDOW_SIZE in *.
  rewrite count_loop_encode by (unfold small, SIZE_BOUND; (done || lia)).
  cbn [mbind result_bind]. rewrite Z.add_0_l, Nat2Z.id.
  assert (decodes_to (encode_instructions (w_ops w)) 0 (w_ops w)) as Hdec.
  { eapply (decodes_encode (sview_len w) (zlen (w_new_data w)) 0 (tview_len w)); (done || lia). }
  rewrite (Hdec 0). cbn [mbind result_bind]. rewrite bool_decide_true by done. done.
Qed.

(** ** Parsing a sequence of windows *)

(** The bytes of a window. *)
Definition window_block (w : svn_txdelta_window_t) (version level : Z) : result bytes :=
  '(ins, header, newdata) ← encode_window w version level;
  Ok (header ++ ins ++ newdata).

Fixpoint window_blocks (ws : list svn_txdelta_window_t) (version level : Z) : result bytes :=
  match ws with
  | [] => Ok []
  | w :: ws =>
      block ← window_block w version level;
      blocks ← window_blocks ws version level;
      Ok (block ++ blocks)
  end.

(** Source views do not slide backwards, from the last one on. *)
Fixpoint views_ok (last_offset last_len : Z) (ws : list svn_txdelta_window_t) : Prop :=
  match ws with
  | [] => True
  | w :: ws =>
      (0 < sview_len w -> last_offset <= sview_offset w /\
         last_offset + last_len <= sview_offset w + sview_len w) /\
      views_ok (sview_offset w) (sview_len w) ws
  end.

Context {S : Type} (consumer : option svn_txdelta_window_t -> S -> result S).

Fixpoint consume (ws : list svn_txdelta_window_t) (s : S) : result S :=
  match ws with
  | [] => Ok s
  | w :: ws => s ← consumer (Some w) s; consume ws s
  end.

(** The parser between two windows. *)
Definition between (s : S) (buffer : bytes) (last_offset last_len : Z) (early : bool) (version : Z)
    : decode_baton :=
  mk_decode_baton s buffer last_offset last_len 4 early version no_window_header.

Lemma between_cached s buffer lo ll early version :
  header_cached (between s buffer lo ll early version).
Proof. by left. Qed.

Lemma fresh_header_block s lo ll early version level w ins header newdata rest :
  encodable w -> encode_window w version level = Ok (ins, header, newdata) ->
  0 <= lo < 2 ^ 63 -> 0 <= ll <= SVN_DELTA_WINDOW_SIZE ->
  (0 < sview_len w -> lo <= sview_offset w /\ lo + ll <= sview_offset w + sview_len w) ->
  fresh_header (between s ((header ++ ins ++ newdata) ++ rest) lo ll early version) =
    Ok (Some (header_of w (zlen ins) (zlen newdata))).
Proof.
  intros Hw E Hlo Hll Hv. unfold fresh_header. simpl. rewrite <- app_assoc.
  destruct (encoded_header _ _ _ _ _ _ ((ins ++ newdata) ++ rest) Hw E) as (-> & -> & _ & _).
  cbn [mbind result_bind]. unfold check_view.
  destruct Hw as [_ _ _ Hso Hsl Htl]. simpl. unfold SVN_DELTA_WINDOW_SIZE in *.
  destruct (Z.ltb_spec 0 (sview_len w)) as [Hp|]; [|done]. destruct (Hv Hp) as [H1 H2]. simpl.
  rewrite !u64_small by lia. by rewrite !(proj2 (Z.ltb_ge _ _)) by lia.
Qed.

(** The parser takes the block of a window from its buffer. *)
Lemma drain_block s lo ll early version level w block rest :
  encodable w -> window_block w version level = Ok block ->
  0 <= lo < 2 ^ 63 -> 0 <= ll <= SVN_DELTA_WINDOW_SIZE ->
  (0 < sview_len w -> lo <= sview_offset w /\ lo + ll <= sview_offset w + sview_len w) ->
  drain consumer (between s (block ++ rest) lo ll early version) =
    s ← consumer (Some (decoded w)) s;
    drain consumer (between s rest (sview_offset w) (sview_len w) early version).
Proof.
  intros Hw E Hlo Hll Hv. apply bind_Ok in E as ([[ins header] newdata] & E & Eb).
  injection Eb as <-. rewrite drain_round by apply between_cached. unfold round.
  rewrite (fresh_header_block _ _ _ _ _ _ _ _ _ _ _ Hw E) by done. cbn [mbind result_bind].
  destruct (encoded_header _ _ _ _ _ _ [] Hw E) as (_ & _ & Hs & Hl).
  set (h := header_of w (zlen ins) (zlen newdata)) in *.
  assert (behind_header (between s ((header ++ ins ++ newdata) ++ rest) lo ll early version) h =
    ins ++ newdata ++ rest) as Hbehind.
  { unfold behind_header. rewrite Hl. unfold zlen, between. cbn [db_buffer].
    by rewrite Nat2Z.id, <- app_assoc, drop_app_length, <- app_assoc. }
  rewrite Hbehind, window_bytes by done. simpl. rewrite !zlen_app.
  pose proof (zlen_nonneg rest).
  destruct (Z.ltb_spec (zlen ins + (zlen newdata + zlen rest)) (zlen ins + zlen newdata)); [lia|].
  rewrite (decode_encode_window _ _ _ _ _ _ _ Hw E). cbn [mbind result_bind].
  destruct (consumer (Some (decoded w)) s) as [s'|]; [|done]. cbn [mbind result_bind]. f_equal.
  unfold behind_window, between. f_equal. unfold between in Hbehind. rewrite Hbehind. simpl.
  rewrite app_assoc. rewrite <- zlen_app. unfold zlen. by rewrite Nat2Z.id, drop_app_length.
Qed.

(** The view that the parser remembers behind some windows. *)
Definition last_view (lo ll : Z) (ws : list svn_txdelta_window_t) : Z * Z :=
  match last ws with Some w => (sview_offset w, sview_len w) | None => (lo, ll) end.

Lemma last_view_cons lo ll w ws :
  last_view lo ll (w :: ws) = last_view (sview_offset w) (sview_len w) ws.
Proof.
  unfold last_view. destruct ws as [|w' ws']; [done|]. rewrite last_cons_cons.
  by destruct (last (w' :: ws')) eqn:El; [|apply last_None in El].
Qed.

Lemma views_ok_snoc lo ll ws w :
  Forall encodable ws -> views_ok lo ll (ws ++ [w]) ->
  0 <= lo < 2 ^ 63 -> 0 <= ll <= SVN_DELTA_WINDOW_SIZE ->
  let '(lo', ll') := last_view lo ll ws in
  views_ok lo ll ws /\
  (0 < sview_len w -> lo' <= sview_offset w /\ lo' + ll' <= sview_offset w + sview_len w) /\
  0 <= lo' < 2 ^ 63 /\ 0 <= ll' <= SVN_DELTA_WINDOW_SIZE.
Proof.
  intros Hws. revert lo ll. induction Hws as [|w' ws Hw' Hws IH]; intros lo ll.
  - intros [H _] ? ?. done.
  - intros [H1 H2] _ _. pose proof Hw' as [_ _ _ Hso Hsl _].
    rewrite last_view_cons. specialize (IH _ _ H2 Hso Hsl).
    destruct (last_view _ _ ws) as [lo' ll']. by destruct IH as (H3 & H4).
Qed.

Lemma drain_blocks s lo ll early version level ws blocks rest :
  Forall encodable ws -> window_blocks ws version level = Ok blocks -> views_ok lo ll ws ->
  0 <= lo < 2 ^ 63 -> 0 <= ll <= SVN_DELTA_WINDOW_SIZE ->
  drain consumer (between s (blocks ++ rest) lo ll early version) =
    s ← consume (decoded <$> ws) s;
    drain consumer (between s rest (last_view lo ll ws).1 (last_view lo ll ws).2 early version).
Proof.
  intros Hws. revert s lo ll blocks. induction Hws as [|w ws Hw Hws IH]; intros s lo ll blocks; simpl.
  { by intros [= <-]. }
  intros E [Hv Hvs] Hlo Hll. apply bind_Ok in E as (block & Eb & E).
  apply bind_Ok in E as (blocks' & Ebs & E). injection E as <-. rewrite <- app_assoc.
  erewrite drain_block by done. destruct (consumer (Some (decoded w)) s) as [s'|]; [|done].
  cbn [mbind result_bind]. pose proof Hw as [_ _ _ Hso Hsl _].
  by rewrite (IH _ _ _ _ Ebs), last_view_cons by done.
Qed.

Lemma drain_empty s lo ll early version :
  drain consumer (between s [] lo ll early version) = Ok (between s [] lo ll early version, true).
Proof. by rewrite drain_round by apply between_cached. Qed.

(** ** Streams *)

Definition known_version (version : Z) : Prop := version = 0 \/ version = 1 \/ version = 2.

Lemma chew_svndiff_header s early version data :
  known_version version ->
  chew_header (svn_txdelta_parse_svndiff s early) (get_svndiff_header version ++ data) =
    Ok (between s [] 0 0 early version, data).
Proof.
  intros Hv. rewrite chew_long; [|simpl; lia|].
  2: { rewrite zlen_app. pose proof (zlen_nonneg data).
       by destruct Hv as [->|[->| ->]]; simpl; unfold zlen; simpl; lia. }
  destruct Hv as [->|[->| ->]]; reflexivity.
Qed.

(** The parser reads the windows of a stream. *)
Lemma write_handler_stream s early version level ws blocks :
  known_version version -> Forall encodable ws -> views_ok 0 0 ws ->
  window_blocks ws version level = Ok blocks ->
  write_handler consumer (svn_txdelta_parse_svndiff s early)
      (get_svndiff_header version ++ blocks) =
    s ← consume (decoded <$> ws) s;
    Ok (between s [] (last_view 0 0 ws).1 (last_view 0 0 ws).2 early version).
Proof.
  intros Hv Hws Hviews E. rewrite write_handler_eq, chew_svndiff_header by done.
  cbn [mbind result_bind]. unfold write_buffered.
  change (append_buffer (between s [] 0 0 early version) blocks) with
    (between s blocks 0 0 early version).
  rewrite <- (app_nil_r blocks) at 1.
  erewrite drain_blocks by (done || (unfold SVN_DELTA_WINDOW_SIZE; lia)).
  destruct (consume (decoded <$> ws) s) as [s'|]; [|done]. cbn [mbind result_bind].
  rewrite drain_empty. done.
Qed.
End StreamFacts.

(** * The encoder of svndiff streams

    What the window handler writes is the header of the stream and the blocks
    of the windows, also where it takes the short way for a window of new data
    only; the round trips of whole streams follow. *)

Section EncoderFacts.
Context `{zlib_laws : ZlibLaws} `{lz4_laws : Lz4Laws}.

(** All that was written. *)
Definition written (eb : encoder_baton) : bytes := concat (eb_output eb).

Lemma written_write eb data : written (svn_stream_write eb data) = written eb ++ data.
Proof. unfold written, svn_stream_write. simpl. rewrite concat_app. simpl. by rewrite app_nil_r. Qed.

Definition pending_header (eb : encoder_baton) : bytes :=
  if eb_header_done eb then [] else get_svndiff_header (eb_version eb).

(** [eb'] is [eb] after [data] and the header of the stream were written. *)
Definition has_written (eb eb' : encoder_baton) (data : bytes) : Prop :=
  written eb' = written eb ++ pending_header eb ++ data /\ eb_header_done eb' = true /\
  eb_closed eb' = eb_closed eb /\ eb_version eb' = eb_version eb /\
  eb_compression_level eb' = eb_compression_level eb.

(** The only instruction of a window without a source is new data. *)
Lemma single_insertion w :
  encodable w -> w_src_ops w = 0 -> zlen (w_ops w) = 1 ->
  w_ops w = [mk_op svn_txdelta_new 0 (tview_len w)] /\ zlen (w_new_data w) = tview_len w /\
  0 < tview_len w.
Proof.
  intros [Hops Htv [Hnews Hnl Hsrc] _ _ _] H0 H1.
  destruct (w_ops w) as [|op [|op' ops]]; [done| |unfold zlen in H1; simpl in H1; lia].
  destruct op as [action off len]. simpl in *. destruct Hops as [(Ho & Hl & Hop) _].
  destruct action; simpl in *; [lia|lia|]. destruct Hnews as [-> _].
  split_and!; [|lia|lia]. do 2 f_equal. lia.
Qed.

Lemma simple_instruction len :
  0 < len < 2 ^ 21 ->
  encode_instruction (mk_op svn_txdelta_new 0 len) =
    if Z.shiftr len 6 =? 0 then [u8 (len + Z.shiftl 2 6)]
    else Z.shiftl 2 6 :: svn__encode_uint len.
Proof.
  intros Hl. unfold encode_instruction. simpl. rewrite app_nil_r.
  rewrite Z.shiftr_div_pow2 by lia.
  destruct (Z.eqb_spec (len / 2 ^ 6) 0) as [E|E]; [|done].
  assert (0 <= len < 64) as Hr by dlia. f_equal.
  assert (Forall (fun len => Z.lor 128 (u8 len) = u8 (len + 128)) (seqZ 0 64)) as HF by by_evaluation.
  rewrite Forall_forall in HF. apply HF, elem_of_seqZ. lia.
Qed.

(** The short way writes what the general one does. *)
Lemma simple_insertion_spec w eb :
  encodable w -> w_src_ops w = 0 -> zlen (w_ops w) = 1 -> eb_version eb = 0 ->
  exists eb', send_simple_insertion_window w eb = Ok eb' /\
    has_written eb eb' (header_bytes_of w (zlen (encode_instructions (w_ops w)))
        (zlen (w_new_data w)) ++ encode_instructions (w_ops w) ++ w_new_data w).
Proof.
  intros Hw H0 H1 Hv. destruct (single_insertion w Hw H0 H1) as (Hops & Hnd & Hpos).
  pose proof Hw as [_ _ _ Hso Hsl Htl]. unfold SVN_DELTA_WINDOW_SIZE in *.
  unfold send_simple_insertion_window. rewrite Hops, Hnd. cbn [mbind result_bind action_code op_length op_offset].
  rewrite bool_decide_true, !c_assert_eq by done. cbn [c_assert mbind result_bind].
  assert (encode_instructions [mk_op svn_txdelta_new 0 (tview_len w)] =
    encode_instruction (mk_op svn_txdelta_new 0 (tview_len w))) as Hins
    by (unfold encode_instructions; simpl; by rewrite app_nil_r).
  rewrite Hins. rewrite <- simple_instruction by lia.
  pose proof (encode_instruction_size (mk_op svn_txdelta_new 0 (tview_len w)) ltac:(simpl; lia) ltac:(simpl; lia)) as Hsize.
  set (ins := encode_instruction (mk_op svn_txdelta_new 0 (tview_len w))) in *.
  rewrite (proj2 (Z.eqb_neq _ _)) by lia. simpl negb.
  eexists. split; [reflexivity|]. split; [|done].
  rewrite !written_write. change (written (set_header_done eb)) with (written eb).
  rewrite u64_small by lia.
  assert ([u8 (zlen ins)] = svn__encode_uint (zlen ins)) as ->.
  { rewrite encode_uint_small by lia. unfold u8. by rewrite Z.mod_small by lia. }
  unfold pending_header, header_bytes_of. by rewrite <- !app_assoc.
Qed.

(** The general way. *)
Lemma window_handler_spec w eb block :
  encodable w -> window_block w (eb_version eb) (eb_compression_level eb) = Ok block ->
  exists eb', window_handler (Some w) eb = Ok eb' /\ has_written eb eb' block.
Proof.
  intros Hw E. apply bind_Ok in E as ([[ins header] newdata] & E & Eb). injection Eb as <-.
  unfold window_handler.
  destruct (_ && _ && _) eqn:Hsimple.
  - apply andb_true_iff in Hsimple as [Hsimple Hv]. apply andb_true_iff in Hsimple as [H0 H1].
    apply Z.eqb_eq in H0, H1, Hv.
    destruct (encode_window_inv _ _ _ _ _ _ Hw E) as (Hi & Hn & -> & _ & _).
    rewrite Hv in Hi, Hn. injection Hi as <-. injection Hn as <-.
    by apply simple_insertion_spec.
  - set (eb1 := if eb_header_done eb then eb else _).
    assert (written eb1 = written eb ++ pending_header eb /\ eb_header_done eb1 = true /\
      eb_closed eb1 = eb_closed eb /\ eb_version eb1 = eb_version eb /\
      eb_compression_level eb1 = eb_compression_level eb) as (H1 & H2 & H3 & H4 & H5).
    { unfold eb1, pending_header. destruct (eb_header_done eb) eqn:Hd.
      - by rewrite app_nil_r.
      - split; [|done]. exact (written_write eb _). }
    rewrite H4, H5, E. cbn [mbind result_bind].
    eexists. split; [reflexivity|].
    assert (forall (b : bytes) (e : encoder_baton),
      written (if 0 <? zlen b then svn_stream_write e b else e) = written e ++ b /\
      eb_header_done (if 0 <? zlen b then svn_stream_write e b else e) = eb_header_done e /\
      eb_closed (if 0 <? zlen b then svn_stream_write e b else e) = eb_closed e /\
      eb_version (if 0 <? zlen b then svn_stream_write e b else e) = eb_version e /\
      eb_compression_level (if 0 <? zlen b then svn_stream_write e b else e) =
        eb_compression_level e) as Hwrite.
    { intros b e. destruct (Z.ltb_spec 0 (zlen b)) as [|Hz]; [by rewrite written_write|].
      pose proof (zlen_nonneg b). rewrite (zlen_zero b) by lia. by rewrite app_nil_r. }
    set (eb2 := svn_stream_write eb1 header).
    destruct (Hwrite ins eb2) as (W1 & W2 & W3 & W4 & W5).
    set (eb3 := if 0 <? zlen ins then _ else _) in *.
    destruct (Hwrite newdata eb3) as (X1 & X2 & X3 & X4 & X5).
    unfold has_written. rewrite X1, X2, X3, X4, X5, W1, W2, W3, W4, W5. unfold eb2.
    rewrite written_write, H1. rewrite <- !app_assoc. done.
Qed.

(** Handing windows to the encoder, and the end. *)
Fixpoint encode_stream (ws : list svn_txdelta_window_t) (eb : encoder_baton) : result encoder_baton :=
  match ws with
  | [] => window_handler None eb
  | w :: ws => eb ← window_handler (Some w) eb; encode_stream ws eb
  end.

Lemma encode_stream_spec ws eb blocks :
  Forall encodable ws ->
  window_blocks ws (eb_version eb) (eb_compression_level eb) = Ok blocks ->
  exists eb', encode_stream ws eb = Ok eb' /\ eb_closed eb' = true /\
    written eb' = written eb ++ pending_header eb ++ blocks.
Proof.
  intros Hws. revert eb blocks. induction Hws as [|w ws Hw Hws IH]; intros eb blocks;
    cbn [encode_stream window_blocks].
  - intros [= <-]. eexists. split; [reflexivity|]. split; [done|].
    rewrite app_nil_r. unfold pending_header. destruct (eb_header_done eb).
    + by rewrite app_nil_r.
    + exact (written_write eb _).
  - intros E. apply bind_Ok in E as (block & Eb & E). apply bind_Ok in E as (blocks' & Ebs & E).
    injection E as <-.
    destruct (window_handler_spec w eb block Hw Eb) as (eb1 & -> & H1 & H2 & _ & H4 & H5).
    cbn [mbind result_bind]. rewrite <- H4, <- H5 in Ebs.
    destruct (IH eb1 _ Ebs) as (eb2 & -> & Hc & Hw2). exists eb2. split; [done|]. split; [done|].
    rewrite Hw2, H1. unfold pending_header at 2. rewrite H2. by rewrite <- !app_assoc.
Qed.

(** The compressors that are used succeed. *)
Definition compressor_works (version level : Z) : Prop :=
  forall data, zlen data <= 7 * SVN_DELTA_WINDOW_SIZE ->
    exists out, compress_section version level data = Ok out.

Lemma compressor_works_0 level : compressor_works 0 level.
Proof. intros data _. by exists data. Qed.

Lemma window_block_Ok w version level :
  encodable w -> compressor_works version level ->
  exists block, window_block w version level = Ok block.
Proof.
  intros [Hops Htv [Hnews Hnl Hsrc] Hso Hsl Htl] Hcomp. unfold window_block, encode_window.
  assert (zlen (w_new_data w) <= SVN_DELTA_WINDOW_SIZE) as Hnd.
  { rewrite <- Hnl. pose proof (new_len_le_ops_len _ _ _ _ Hops). lia. }
  assert (zlen (encode_instructions (w_ops w)) <= 7 * SVN_DELTA_WINDOW_SIZE) as Hil.
  { pose proof (encode_instructions_size _ _ 0 (tview_len w) _ Hops) as H.
    unfold SVN_DELTA_WINDOW_SIZE in *. lia. }
  pose proof (zlen_nonneg (encode_instructions (w_ops w))). pose proof (zlen_nonneg (w_new_data w)).
  destruct (Hcomp _ Hil) as [i Hi]. pose proof (compress_section_size _ _ _ _ Hi).
  destruct (Hcomp (w_new_data w)) as [n Hn]; [unfold SVN_DELTA_WINDOW_SIZE in *; lia|].
  pose proof (compress_section_size _ _ _ _ Hn). unfold SVN_DELTA_WINDOW_SIZE in *.
  pose proof (zlen_nonneg i). pose proof (zlen_nonneg n).
  do 3 (rewrite append_encoded_int_Ok by lia; cbn [mbind result_bind]).
  rewrite Hi. cbn [mbind result_bind]. rewrite append_encoded_int_Ok by lia. cbn [mbind result_bind].
  rewrite Hn. cbn [mbind result_bind]. rewrite append_encoded_int_Ok by lia. by eexists.
Qed.

Lemma window_blocks_Ok ws version level :
  Forall encodable ws -> compressor_works version level ->
  exists blocks, window_blocks ws version level = Ok blocks.
Proof.
  intros Hws Hcomp. induction Hws as [|w ws Hw Hws [blocks IH]]; simpl; [by eexists|].
  destruct (window_block_Ok w version level Hw Hcomp) as [block ->]. simpl. rewrite IH. by eexists.
Qed.

(** ** Round trips *)

Context {S : Type} (consumer : option svn_txdelta_window_t -> S -> result S).

(** Any pieces of the stream that the encoder writes are parsed to the windows
    that were encoded. *)
Lemma stream_roundtrip version level ws s early :
  known_version version -> Forall encodable ws -> views_ok 0 0 ws ->
  compressor_works version level ->
  exists eb, encode_stream ws (svn_txdelta_to_svndiff3 version level) = Ok eb /\
    eb_closed eb = true /\
    forall pieces, concat pieces = written eb ->
      (db ← write_pieces consumer pieces (svn_txdelta_parse_svndiff s early);
       close_handler consumer db) =
      (s ← consume consumer (decoded <$> ws) s; consumer None s).
Proof.
  intros Hv Hws Hviews Hcomp.
  destruct (window_blocks_Ok ws version level Hws Hcomp) as [blocks E].
  destruct (encode_stream_spec ws (svn_txdelta_to_svndiff3 version level) blocks Hws E)
    as (eb & -> & Hc & Hw). exists eb. split; [done|]. split; [done|].
  intros pieces Hp.
  change (written eb = get_svndiff_header version ++ blocks) in Hw.
  destruct pieces as [|c pieces].
  { simpl in Hp. rewrite Hw in Hp. apply (f_equal length) in Hp. rewrite length_app in Hp.
    by destruct Hv as [->|[->| ->]]; simpl in Hp. }
  rewrite write_pieces_concat, Hp, Hw by apply parse_svndiff_ok.
  rewrite (write_handler_stream _ _ _ _ level _ _ Hv Hws Hviews E).
  destruct (consume consumer (decoded <$> ws) s) as [s'|]; [|done]. cbn [mbind result_bind].
  unfold close_handler. simpl. by rewrite andb_false_r.
Qed.

(** The parser with a part of a block in its buffer: it waits. *)
Lemma partial_block s lo ll early version level w block p q :
  encodable w -> window_block w version level = Ok block ->
  block = p ++ q -> q <> [] ->
  0 <= lo < 2 ^ 63 -> 0 <= ll <= SVN_DELTA_WINDOW_SIZE ->
  (0 < sview_len w -> lo <= sview_offset w /\ lo + ll <= sview_offset w + sview_len w) ->
  exists db b, round consumer (between s p lo ll early version) = Ok (inr (db, b)) /\
    db_buffer db = p /\ header_bytes db = 4 /\ error_on_early_close db = early /\
    consumer_baton db = s /\ (b = true -> zlen p < 50).
Proof.
  intros Hw E Hblock Hq Hlo Hll Hview. set (db := between s p lo ll early version).
  apply bind_Ok in E as ([[ins header] newdata] & E1 & Eb). injection Eb as Eb.
  pose proof (fresh_header_block s lo ll early version level w ins header newdata []
    Hw E1 Hlo Hll Hview) as Hfresh.
  rewrite app_nil_r, Eb, Hblock in Hfresh.
  change (between s (p ++ q) lo ll early version) with (append_buffer db q) in Hfresh.
  unfold round. destruct (fresh_header db) as [[h|]|] eqn:Hf; cbn [mbind result_bind].
  - rewrite fresh_header_app, Hf in Hfresh by by rewrite Hf. injection Hfresh as ->.
    destruct (encoded_header _ _ _ _ _ _ [] Hw E1) as (_ & _ & Hs & Hlh).
    set (h := header_of w (zlen ins) (zlen newdata)) in *. rewrite window_bytes by done.
    destruct (Z.ltb_spec (zlen (behind_header db h)) (wh_inslen h + wh_newlen h)) as [|Hge].
    { eexists _, _. split; [reflexivity|]. done. }
    exfalso. apply fresh_header_Some in Hf as [_ Hl]. unfold behind_header in Hge.
    rewrite zlen_drop in Hge by lia. rewrite Hlh in Hge. simpl in Hge.
    apply (f_equal zlen) in Eb. rewrite Hblock, !zlen_app in Eb.
    destruct q; [done|]. unfold zlen in *. simpl in *. lia.
  - eexists _, _. split; [reflexivity|]. split_and!; try done. intros _.
    destruct (Z.le_gt_cases 50 (zlen p)) as [Hz|Hz]; [|lia]. exfalso.
    rewrite fresh_header_None in Hfresh; done.
  - rewrite fresh_header_app, Hf in Hfresh; [done|]. by rewrite Hf.
Qed.

(** A stream that ends within a window: nothing of it is delivered, and it is
    an error to close the parser if that was asked for. *)
Lemma truncated_stream version level ws w blocks block p q s early :
  known_version version -> Forall encodable ws -> encodable w ->
  views_ok 0 0 (ws ++ [w]) ->
  window_blocks ws version level = Ok blocks -> window_block w version level = Ok block ->
  block = p ++ q -> p <> [] -> q <> [] ->
  (db ← write_handler consumer (svn_txdelta_parse_svndiff s early)
          (get_svndiff_header version ++ blocks ++ p);
   close_handler consumer db) =
  (s ← consume consumer (decoded <$> ws) s;
   if early then Err SVN_ERR_SVNDIFF_UNEXPECTED_END else consumer None s).
Proof.
  intros Hv Hws Hw Hviews E Eb Hblock Hp Hq.
  pose proof (views_ok_snoc 0 0 ws w Hws Hviews ltac:(lia)
    ltac:(unfold SVN_DELTA_WINDOW_SIZE; lia)) as Hsnoc.
  destruct (last_view 0 0 ws) as [lo ll] eqn:Elast. destruct Hsnoc as (Hviews1 & Hview & Hlo & Hll).
  rewrite write_handler_eq, chew_svndiff_header by done. cbn [mbind result_bind].
  unfold write_buffered.
  change (append_buffer (between s [] 0 0 early version) (blocks ++ p)) with
    (between s (blocks ++ p) 0 0 early version).
  erewrite drain_blocks by (done || (unfold SVN_DELTA_WINDOW_SIZE; lia)).
  destruct (consume consumer (decoded <$> ws) s) as [s'|]; [|done]. cbn [mbind result_bind].
  rewrite Elast. cbn [fst snd].
  destruct (partial_block s' lo ll early version level w block p q Hw Eb Hblock Hq Hlo Hll Hview)
    as (db' & b & Hround & Hbuf & Hhb & Hearly & Hcb & Hb).
  rewrite drain_round, Hround by apply between_cached. cbn [mbind result_bind]. rewrite Hbuf.
  assert (b && (50 <? zlen p) = false) as ->.
  { destruct b; [|done]. specialize (Hb eq_refl). simpl. lia. }
  cbn [mbind result_bind]. unfold close_handler. rewrite Hearly, Hhb, Hbuf, Hcb. simpl.
  assert (zlen p =? 0 = false) as ->.
  { apply Z.eqb_neq. intros Hz. by apply zlen_zero in Hz. }
  by destruct early.
Qed.
End EncoderFacts.

(** * A delta over a svndiff stream

    The windows of [svn_txdelta_run] can be written, so that a target that is
    sent as a svndiff stream, in any pieces, is rebuilt by the application of
    the windows that are parsed. *)

(** ** The windows of a run *)

(** The windows that a delta stream still delivers. *)
Fixpoint windows_of (fuel : nat) (tb : txdelta_baton) : result (list svn_txdelta_window_t) :=
  '(window, tb) ← txdelta_next_window tb;
  match window with
  | None => Ok []
  | Some w =>
      match fuel with
      | O => Err OUT_OF_FUEL
      | S f => ws ← windows_of f tb; Ok (w :: ws)
      end
  end.

(** Running is handing these windows to the handler. *)
Lemma run_loop_windows {T} (handler : option svn_txdelta_window_t -> T -> result T) fuel tb s ws :
  windows_of fuel tb = Ok ws ->
  run_loop handler fuel tb s = (s ← consume handler ws s; handler None s).
Proof.
  revert tb s ws. induction fuel as [|f IH]; intros tb s ws; cbn [windows_of run_loop];
    (destruct (txdelta_next_window tb) as [[window tb']|]; [|done]); cbn [mbind result_bind];
    (destruct window as [w|]; [|intros [= <-]; simpl; by destruct (handler None s)]); [done|].
  intros E. apply bind_Ok in E as (ws' & E & E'). injection E' as <-. simpl.
  destruct (handler (Some w) s) as [s'|]; [|done]. cbn [mbind result_bind]. by apply IH.
Qed.

(** The windows of a run can be written and their views do not slide back. *)
Lemma windows_of_spec fuel s t tb ab pos tpos lo ll :
  run_inv s t tb ab pos tpos -> zlen s < SIZE_BOUND -> zlen t - tpos <= Z.of_nat fuel ->
  lo + ll = pos -> 0 <= ll ->
  exists ws, windows_of fuel tb = Ok ws /\ Forall encodable ws /\ views_ok lo ll ws /\
    exists ab', consume apply_window ws ab = Ok ab' /\ ab_target ab' = t.
Proof.
  intros Hinv Hb. revert tb ab pos tpos lo ll Hinv.
  induction fuel as [|f IH]; intros tb ab pos tpos lo ll Hinv Hf Hlo Hll; cbn [windows_of];
    pose proof (ri_range _ _ _ _ _ _ Hinv) as Hr; (destruct (decide (tpos = zlen t)) as [->|E]; [|]);
    try (destruct (next_window_end _ _ _ _ _ Hinv) as (tb' & ->); simpl; exists [];
         split_and!; [done|constructor|done|]; exists ab; split; [done|];
         rewrite (ri_written _ _ _ _ _ _ Hinv); apply slice_full); [lia|].
  destruct (next_window_spec s t tb ab pos tpos Hinv Hb ltac:(lia))
    as (w & tb' & Hn & Hok & Hbuilt & Hwo & Hwl & Hwt & _).
  destruct (run_step s t tb ab pos tpos Hinv Hb ltac:(lia))
    as (w' & tb'' & ab' & pos' & tpos' & Hn' & Ha & Hinv' & Hlt).
  rewrite Hn in Hn'. injection Hn' as <- <-. rewrite Hn. cbn [mbind result_bind].
  pose proof (ri_pos _ _ _ _ _ _ Hinv) as Hp. pose proof (ri_end _ _ _ _ _ _ Hinv) as He.
  pose proof (ri_apply _ _ _ _ _ _ Hinv) as [Ho _ Hse _ _ _].
  pose proof (zlen_nonneg (ab_sbuf ab)). unfold read_end in He.
  set (slen := if td_more_source tb then _ else _) in *.
  assert (0 <= slen <= SVN_DELTA_WINDOW_SIZE) as Hsl.
  { unfold slen, SVN_DELTA_WINDOW_SIZE. destruct (td_more_source tb); lia. }
  assert (pos' = pos + slen) as Hpos'.
  { destruct (next_window_spec s t tb ab pos tpos Hinv Hb ltac:(lia))
      as (w2 & tb2 & Hn2 & _ & _ & _ & _ & _ & _ & _ & Hpos2 & _).
    rewrite Hn in Hn2. injection Hn2 as <- <-.
    rewrite <- (ri_pos _ _ _ _ _ _ Hinv'). exact Hpos2. }
  destruct (IH tb' ab' pos' tpos' pos slen Hinv') as (ws & -> & Hws & Hviews & ab2 & Hc & Ht);
    [lia|lia|lia|].
  cbn [mbind result_bind]. exists (w :: ws). split_and!; [done| | |].
  - constructor; [|done]. pose proof Hok as (Hops & Hol & _).
    pose proof (ops_ok_len_nonneg _ _ _ _ Hops).
    split; rewrite ?Hwo, ?Hwl, ?Hwt in *; try done; unfold SIZE_BOUND, SVN_DELTA_WINDOW_SIZE in *; lia.
  - simpl. rewrite Hwo, Hwl. split; [lia|done].
  - exists ab2. cbn [consume]. by rewrite Ha.
Qed.

(** Applying a window does not depend on the count. *)
Lemma apply_window_decoded w ab : apply_window (Some (decoded w)) ab = apply_window (Some w) ab.
Proof.
  assert (forall sbuf tlen ops tpos tbuf,
    apply_loop (decoded w) sbuf tlen ops tpos tbuf = apply_loop w sbuf tlen ops tpos tbuf) as Hloop.
  { intros sbuf tlen ops. induction ops as [|op ops IH]; intros tpos tbuf; [done|].
    cbn [apply_loop]. destruct (c_assert _); [|done]. cbn [mbind result_bind].
    change (apply_op (decoded w)) with (apply_op w).
    destruct (apply_op w sbuf op _ tpos tbuf); [|done]. cbn [mbind result_bind]. by rewrite IH. }
  assert (forall sbuf tlen, svn_txdelta_apply_instructions (decoded w) sbuf tlen =
    svn_txdelta_apply_instructions w sbuf tlen) as Hins.
  { intros sbuf tlen. unfold svn_txdelta_apply_instructions. by rewrite Hloop. }
  unfold apply_window. change (slide_sbuf (decoded w)) with (slide_sbuf w).
  change (fill_sbuf (decoded w)) with (fill_sbuf w). cbn [decoded sview_offset sview_len tview_len].
  destruct (svn_err_assert _); [|done]. cbn [mbind result_bind].
  destruct (size_buffer _ _) as [tsize|]; [|done]. cbn [mbind result_bind].
  destruct (slide_sbuf w ab) as [[[sbuf size] off]|]; [|done]. cbn [mbind result_bind].
  destruct (fill_sbuf w sbuf (ab_source ab)) as [[sbuf' source']|]; [|done].
  cbn [mbind result_bind]. by rewrite Hins.
Qed.

Lemma consume_decoded ws ab :
  consume apply_window (decoded <$> ws) ab = consume apply_window ws ab.
Proof.
  revert ab. induction ws as [|w ws IH]; intros ab; [done|].
  cbn [consume fmap list_fmap]. rewrite apply_window_decoded.
  destruct (apply_window (Some w) ab); [|done]. apply IH.
Qed.

Lemma consume_encode `{zlib : Zlib} `{lz4 : Lz4} ws eb :
  (eb ← consume window_handler ws eb; window_handler None eb) = encode_stream ws eb.
Proof.
  revert eb. induction ws as [|w ws IH]; intros eb; [done|]. cbn [consume encode_stream].
  destruct (window_handler (Some w) eb); [|done]. apply IH.
Qed.

Section EndToEnd.
Context `{zlib_laws : ZlibLaws} `{lz4_laws : Lz4Laws}.

(** The source and the stream are enough to rebuild the target. *)
Lemma svndiff_run_apply version level s t :
  known_version version -> compressor_works version level -> zlen s < SIZE_BOUND ->
  exists eb, svn_txdelta_run window_handler s t (svn_txdelta_to_svndiff3 version level) = Ok eb /\
    eb_closed eb = true /\
    forall pieces, concat pieces = written eb ->
      exists ab,
        (db ← write_pieces apply_window pieces (svn_txdelta_parse_svndiff (svn_txdelta_apply s) true);
         close_handler apply_window db) = Ok ab /\ ab_target ab = t.
Proof.
  intros Hv Hcomp Hs.
  assert (run_inv s t (svn_txdelta2 s t) (svn_txdelta_apply s) 0 0) as Hinv.
  { pose proof (zlen_nonneg s). pose proof (zlen_nonneg t). by split. }
  destruct (windows_of_spec (length t) s t _ _ 0 0 0 0 Hinv Hs) as
    (ws & Hw & Hws & Hviews & ab & Hc & Ht); [unfold zlen; lia|lia|lia|].
  destruct (stream_roundtrip apply_window version level ws (svn_txdelta_apply s) true)
    as (eb & E & Hclosed & Hpieces); [done..|].
  exists eb. unfold svn_txdelta_run. rewrite (run_loop_windows _ _ _ _ _ Hw), consume_encode.
  split_and!; [done..|]. intros pieces Hp. rewrite Hpieces by done.
  rewrite consume_decoded, Hc. exists ab. by split.
Qed.
End EndToEnd.
