(* ===== verification/SvndiffReadFacts.v ===== *)
(** * Reading svndiff windows one at a time, and svndiff data on demand

    [svn_txdelta_read_svndiff_window] and its relatives on the blocks that the
    encoder writes and on arbitrary data, and the stream of
    [svn_txdelta_to_svndiff_stream], which delivers what the encoder writes. *)

From S2P Require Import Prelude Buffers Encode Delta DeltaFacts Compress Svndiff SvndiffFacts.
From S2P Require Import SvndiffStreamFacts.

(** ** Numbers *)

Lemma read_one_byte_cons c stream : read_one_byte (c :: stream) = Ok (c, stream).
Proof. done. Qed.

Lemma land_0x80 c : 0 <= c < 256 -> (Z.land c 0x80 =? 0) = (c <? 0x80) /\ (c < 0x80 -> Z.land c 0x7f = c).
Proof.
  intros H. assert (Forall (fun c => (Z.land c 0x80 =? 0) = (c <? 0x80) /\
    (c < 0x80 -> Z.land c 0x7f = c)) (seqZ 0 256)) as HF.
  { apply Forall_forall. intros x Hx. split.
    - revert x Hx. apply Forall_forall. by_evaluation.
    - intros Hlt. apply elem_of_seqZ in Hx. rewrite land_127. apply Z.mod_small. lia. }
  rewrite Forall_forall in HF. apply HF, elem_of_seqZ. lia.
Qed.

(** The loop reads what [svn__decode_uint] does. *)
Lemma read_size_loop_decode n fuel e rest temp bc v :
  decode_loop n (e ++ rest) temp = Some (v, rest) -> Forall is_byte e -> (length e <= fuel)%nat ->
  read_size_loop fuel temp bc (e ++ rest) = Ok (v, bc + zlen e, rest).
Proof.
  revert fuel e temp bc. induction n as [|n IH]; intros fuel e temp bc; [by destruct (e ++ rest)|].
  destruct e as [|c e].
  { intros E. destruct (decode_loop_suffix _ _ _ _ _ E) as (e & He & Hl & _).
    apply (f_equal length) in He. rewrite !length_app in He. simpl in He. lia. }
  intros E [Hc He]%Forall_cons Hf. destruct fuel as [|f]; [simpl in Hf; lia|].
  cbn [app read_size_loop]. rewrite read_one_byte_cons. cbn [mbind result_bind].
  destruct (land_0x80 c Hc) as [-> Hsmall]. cbn [app decode_loop] in E.
  destruct (Z.ltb_spec c 0x80) as [Hlt|Hge].
  - injection E as <- Er. assert (e = []) as ->.
    { apply (f_equal length) in Er. rewrite length_app in Er. destruct e; [done|simpl in Er; lia]. }
    by rewrite Hsmall by done.
  - rewrite (IH f e) by (done || (simpl in Hf; lia)). unfold zlen. simpl length. do 3 f_equal. lia.
Qed.

Lemma read_one_size_encode bc val rest :
  0 <= val < 2 ^ 64 ->
  read_one_size bc (svn__encode_uint val ++ rest) = Ok (val, bc + zlen (svn__encode_uint val), rest).
Proof.
  intros H. unfold read_one_size.
  apply (read_size_loop_decode (Z.to_nat SVN__MAX_ENCODED_UINT_LEN)).
  - exact (decode_encode_uint val rest H).
  - apply encode_uint_bytes.
  - rewrite length_app. lia.
Qed.

(** What is read is a machine word. *)
Lemma read_size_loop_range fuel size bc stream v bc' rest :
  read_size_loop fuel size bc stream = Ok (v, bc', rest) -> 0 <= v < 2 ^ 64.
Proof.
  revert size bc stream. induction fuel as [|f IH]; intros size bc stream; [done|].
  cbn [read_size_loop]. intros E. apply bind_Ok in E as ([c stream'] & _ & E).
  destruct (_ =? 0); [|by eapply IH]. injection E as <- _ _. unfold u64. dlia.
Qed.

(** ** Windows *)

Section ReadFacts.
Context `{zlib_laws : ZlibLaws} `{lz4_laws : Lz4Laws}.

Lemma read_window_header_sizes stream h rest :
  read_window_header stream = Ok (h, rest) -> header_sizes h.
Proof.
  unfold read_window_header, read_one_size. intros E.
  apply bind_Ok in E as ([[so l1] s1] & E1 & E). apply bind_Ok in E as ([[sl l2] s2] & E2 & E).
  apply bind_Ok in E as ([[tl l3] s3] & E3 & E). apply bind_Ok in E as ([[il l4] s4] & E4 & E).
  apply bind_Ok in E as ([[nl l5] s5] & E5 & E). apply bind_Ok in E as (u & Ec & E).
  injection E as <- _. apply read_size_loop_range in E2, E3, E4, E5. pose proof (s64_range so).
  eapply check_window_header_Ok; simpl; (done || lia).
Qed.

(** Whatever the stream has, a window that is read is valid. *)
Lemma read_svndiff_window_valid stream version w rest :
  svn_txdelta_read_svndiff_window stream version = Ok (w, rest) -> svndiff_window w.
Proof.
  unfold svn_txdelta_read_svndiff_window, svn_stream_read_full. intros E.
  apply bind_Ok in E as ([h s1] & Eh & E). apply read_window_header_sizes in Eh.
  destruct (_ <? _); [done|]. apply bind_Ok in E as (w' & Ew & E). injection E as <- _.
  by apply decode_window_valid in Ew as [? _].
Qed.

Lemma read_window_header_encoded w version level ins header newdata rest :
  encodable w -> encode_window w version level = Ok (ins, header, newdata) ->
  read_window_header (header ++ rest) = Ok (header_of w (zlen ins) (zlen newdata), rest).
Proof.
  intros Hw E. destruct (encoded_header _ _ _ _ _ _ rest Hw E) as (_ & Hcheck & Hs & _).
  destruct (encode_window_inv _ _ _ _ _ _ Hw E) as (_ & _ & -> & _ & _).
  destruct Hs as [H1 H2 H3 H4 H5]. simpl in *.
  unfold MAX_INSTRUCTION_SECTION_LEN, MAX_INSTRUCTION_LEN, SVN__MAX_ENCODED_UINT_LEN,
    SVN_DELTA_WINDOW_SIZE in *.
  unfold read_window_header, header_bytes_of at 1. rewrite <- !app_assoc.
  do 5 (rewrite read_one_size_encode by lia; cbn [mbind result_bind]).
  assert (s64 (sview_offset w) = sview_offset w) as ->.
  { unfold s64. rewrite Z.mod_small by lia. destruct (Z.ltb_spec (sview_offset w) (2 ^ 63)); lia. }
  assert (mk_window_header (0 + zlen (svn__encode_uint (sview_offset w)) +
      zlen (svn__encode_uint (sview_len w)) + zlen (svn__encode_uint (tview_len w)) +
      zlen (svn__encode_uint (zlen ins)) + zlen (svn__encode_uint (zlen newdata)))
      (sview_offset w) (sview_len w) (tview_len w) (zlen ins) (zlen newdata) =
    header_of w (zlen ins) (zlen newdata)) as ->.
  { unfold header_of, header_bytes_of. rewrite !zlen_app. f_equal. lia. }
  by rewrite Hcheck.
Qed.

(** A block that the encoder wrote is read back, passed over or measured. *)
Lemma read_encoded_window w version level block rest :
  encodable w -> window_block w version level = Ok block ->
  svn_txdelta_read_svndiff_window (block ++ rest) version = Ok (decoded w, rest) /\
  svn_txdelta_skip_svndiff_window (block ++ rest) = Ok rest /\
  exists rest', svn_txdelta__read_raw_window_len (block ++ rest) = Ok (zlen block, rest').
Proof.
  intros Hw E. apply bind_Ok in E as ([[ins header] newdata] & E & Eb). injection Eb as <-.
  destruct (encoded_header _ _ _ _ _ _ [] Hw E) as (_ & _ & Hs & Hl).
  pose proof (window_bytes _ Hs) as Hbytes. rewrite <- app_assoc.
  unfold svn_txdelta_read_svndiff_window, svn_txdelta_skip_svndiff_window,
    svn_txdelta__read_raw_window_len.
  rewrite (read_window_header_encoded _ _ _ _ _ _ _ Hw E). cbn [mbind result_bind].
  rewrite Hbytes, Hl.
  assert (Z.to_nat (wh_inslen (header_of w (zlen ins) (zlen newdata)) +
    wh_newlen (header_of w (zlen ins) (zlen newdata))) = length (ins ++ newdata)) as Hlen.
  { simpl. rewrite length_app. unfold zlen. lia. }
  split_and!.
  - unfold svn_stream_read_full. rewrite Hlen, take_app_length, drop_app_length.
    simpl. rewrite zlen_app. destruct (Z.ltb_spec (zlen ins + zlen newdata) (zlen ins + zlen newdata)); [lia|].
    pose proof (decode_encode_window _ _ _ _ _ _ [] Hw E) as Hd. rewrite app_nil_r in Hd.
    by rewrite Hd.
  - by rewrite Hlen, drop_app_length.
  - eexists. do 2 f_equal. simpl. destruct Hs as [_ _ _ H4 H5]. simpl in *.
    pose proof (zlen_nonneg header).
    destruct (encode_window_inv _ _ _ _ _ _ Hw E) as (_ & _ & Hh & _ & _).
    destruct (encoded_header _ _ _ _ _ _ [] Hw E) as (Hd & _).
    destruct (decode_window_header_cases (header ++ [])) as [(h & Hd' & Hlh & _)|[Hd' _]];
      rewrite Hd' in Hd; [|done]. injection Hd as ->. simpl in Hlh. rewrite Hl in Hlh.
    unfold MAX_INSTRUCTION_SECTION_LEN, MAX_INSTRUCTION_LEN, SVN__MAX_ENCODED_UINT_LEN,
      SVN_DELTA_WINDOW_SIZE in *.
    rewrite u64_small by lia. rewrite !zlen_app. lia.
Qed.

(** ** The stream of svndiff data *)

Context {T : Type} (next_window : T -> result (option svn_txdelta_window_t * T)).

(** The delta stream delivers these windows. *)
Fixpoint delivers (t : T) (ws : list svn_txdelta_window_t) : Prop :=
  match ws with
  | [] => exists t', next_window t = Ok (None, t')
  | w :: ws => exists t', next_window t = Ok (Some w, t') /\ delivers t' ws
  end.

Notation baton := (svndiff_stream_baton_t (T := T)).

Definition buffered (b : baton) : bytes := drop (Z.to_nat (read_pos b)) (window_buffer b).

(** [rem] is what the stream still delivers. *)
Definition stream_state (b : baton) (rem : bytes) : Prop :=
  0 <= read_pos b <= zlen (window_buffer b) /\
  if hit_eof b then rem = buffered b
  else exists ws blocks, delivers (sb_txstream b) ws /\ Forall encodable ws /\
    window_blocks ws (eb_version (sb_encoder b)) (eb_compression_level (sb_encoder b)) = Ok blocks /\
    rem = buffered b ++ pending_header (sb_encoder b) ++ blocks.

Lemma block_nonempty w version level block :
  encodable w -> window_block w version level = Ok block -> 0 < zlen block.
Proof.
  intros Hw E. apply bind_Ok in E as ([[ins header] newdata] & E & Eb). injection Eb as <-.
  destruct (encoded_header _ _ _ _ _ _ [] Hw E) as (Hd & _ & _ & Hl).
  destruct (decode_window_header_cases (header ++ [])) as [(h & Hd' & Hlh & _)|[Hd' _]];
    rewrite Hd' in Hd; [|done]. injection Hd as ->. rewrite Hl in Hlh.
  rewrite !zlen_app. pose proof (zlen_nonneg ins). pose proof (zlen_nonneg newdata). lia.
Qed.

(** Filling the buffer loses nothing, and an empty buffer means the end. *)
Lemma fill_window_buffer_spec b rem :
  stream_state b rem ->
  exists b', fill_window_buffer next_window b = Ok b' /\ stream_state b' rem /\
    (read_pos b' = zlen (window_buffer b') -> rem = []).
Proof.
  intros [Hpos Hrem]. unfold fill_window_buffer.
  destruct (hit_eof b) eqn:Heof.
  { rewrite andb_false_r. exists b. split; [done|]. split; [split; [done|by rewrite Heof]|].
    intros E. rewrite Hrem. unfold buffered. apply drop_ge. unfold zlen in *. lia. }
  destruct (Z.eqb_spec (read_pos b) (zlen (window_buffer b))) as [E|E]; cbn [andb negb].
  2: { exists b. split; [done|]. split; [split; [done|by rewrite Heof]|]. lia. }
  destruct Hrem as (ws & blocks & Hd & Hws & Hb & Hrem).
  assert (buffered b = []) as Hbuf by (unfold buffered; apply drop_ge; unfold zlen in *; lia).
  rewrite Hbuf in Hrem. cbn [app] in Hrem.
  set (eb := mk_encoder_baton [] _ _ _ _).
  destruct ws as [|w ws].
  - destruct Hd as [t' ->]. cbn [mbind result_bind]. injection Hb as <-. rewrite app_nil_r in Hrem.
    eexists. split; [reflexivity|]. simpl.
    assert (concat (eb_output (svn_stream_close (if eb_header_done (sb_encoder b) then eb
      else set_header_done (svn_stream_write eb (get_svndiff_header (eb_version (sb_encoder b))))))) =
      rem) as Hout.
    { rewrite Hrem. unfold pending_header. destruct (eb_header_done (sb_encoder b)); [done|].
      simpl. by rewrite app_nil_r. }
    simpl in Hout. rewrite Hout. pose proof (zlen_nonneg rem).
    split; [split; [simpl; lia|done]|]. intros Hz. by apply zlen_zero.
  - destruct Hd as (t' & -> & Hd). cbn [mbind result_bind].
    apply Forall_cons in Hws as [Hw Hws].
    apply bind_Ok in Hb as (block & Eb & Hb). apply bind_Ok in Hb as (blocks' & Ebs & Hb).
    injection Hb as <-.
    destruct (window_handler_spec w eb block Hw Eb) as (eb' & -> & H1 & H2 & _ & H4 & H5).
    cbn [mbind result_bind]. eexists. split; [reflexivity|].
    change (concat (eb_output eb')) with (written eb').
    change (written eb') with (written eb') in H1. simpl in H1.
    change (pending_header eb) with (pending_header (sb_encoder b)) in H1.
    assert (written eb' = pending_header (sb_encoder b) ++ block) as H1' by exact H1.
    pose proof (block_nonempty _ _ _ _ Hw Eb) as Hne.
    pose proof (zlen_nonneg (pending_header (sb_encoder b))).
    simpl. rewrite H1', zlen_app. split; [|lia]. split; [simpl; rewrite zlen_app; lia|].
    simpl. exists ws, blocks'. rewrite H4, H5. split_and!; [done..|].
    unfold buffered. simpl. rewrite drop_0, Hrem. unfold pending_header at 3. rewrite H2.
    by rewrite <- app_assoc.
Qed.

(** Reading delivers the start of what is left. *)
Lemma svndiff_read_loop_spec fuel b rem left :
  stream_state b rem -> 0 <= left -> (Z.to_nat left <= fuel)%nat ->
  exists b', svndiff_read_loop next_window fuel b left = Ok (take (Z.to_nat left) rem, b') /\
    stream_state b' (drop (Z.to_nat left) rem).
Proof.
  revert b rem left. induction fuel as [|f IH]; intros b rem left Hb Hl Hf;
    cbn [svndiff_read_loop]; (destruct (Z.eqb_spec left 0) as [->|Hne]; [by exists b|]); [lia|].
  destruct (fill_window_buffer_spec b rem Hb) as (b1 & -> & Hb1 & Hend). cbn [mbind result_bind].
  pose proof Hb1 as [Hpos Hrem].
  set (avail := zlen (window_buffer b1) - read_pos b1) in *.
  assert ((if avail <? left then avail else left) = Z.min avail left) as ->
    by (destruct (Z.ltb_spec avail left); lia).
  destruct (Z.eqb_spec (Z.min avail left) 0) as [E|E].
  { rewrite (Hend ltac:(lia)) in *. exists b1. by rewrite take_nil, drop_nil. }
  set (n := Z.min avail left) in *.
  rewrite memcpy_from_Ok by lia. cbn [mbind result_bind].
  assert (exists tail, rem = buffered b1 ++ tail) as [tail Htail].
  { destruct (hit_eof b1); [exists []; by rewrite app_nil_r|].
    destruct Hrem as (ws & blocks & _ & _ & _ & ->). by eexists. }
  assert (zlen (buffered b1) = avail) as Hz by (unfold buffered; rewrite zlen_drop; lia).
  assert (slice (window_buffer b1) (read_pos b1) n = take (Z.to_nat n) rem) as ->.
  { rewrite Htail. unfold slice. rewrite take_app_le; [done|]. unfold zlen in *. lia. }
  assert (stream_state (mk_svndiff_stream_baton (sb_txstream b1) (sb_encoder b1)
    (window_buffer b1) (read_pos b1 + n) (hit_eof b1)) (drop (Z.to_nat n) rem)) as Hb2.
  { assert (drop (Z.to_nat n) (buffered b1) =
      drop (Z.to_nat (read_pos b1 + n)) (window_buffer b1)) as Hdrop
      by (unfold buffered; rewrite drop_drop; f_equal; lia).
    split; [simpl; lia|]. simpl. destruct (hit_eof b1).
    - rewrite Hrem. exact Hdrop.
    - destruct Hrem as (ws & blocks & H1 & H2 & H3 & ->). exists ws, blocks.
      split_and!; [done..|]. rewrite drop_app_le by (unfold zlen in *; lia). by rewrite Hdrop. }
  destruct (IH _ _ (left - n) Hb2) as (b2 & -> & Hb3); [lia|lia|]. cbn [mbind result_bind].
  exists b2. rewrite drop_drop in Hb3.
  replace (Z.to_nat n + Z.to_nat (left - n))%nat with (Z.to_nat left) in Hb3 by lia.
  split; [|done]. do 2 f_equal. rewrite take_take_drop. f_equal. lia.
Qed.

(** Reads of any sizes together. *)
Fixpoint read_all (lens : list Z) (b : baton) : result (bytes * baton) :=
  match lens with
  | [] => Ok ([], b)
  | len :: lens =>
      '(data, b) ← svndiff_stream_read_fn next_window b len;
      '(rest, b) ← read_all lens b;
      Ok (data ++ rest, b)
  end.

Lemma read_all_spec lens b rem :
  stream_state b rem -> Forall (fun len => 0 <= len) lens ->
  exists b', read_all lens b = Ok (take (Z.to_nat (foldr Z.add 0 lens)) rem, b').
Proof.
  intros Hb Hlens. revert b rem Hb. induction Hlens as [|len lens Hl Hlens IH]; intros b rem Hb.
  { exists b. done. }
  cbn [read_all]. unfold svndiff_stream_read_fn.
  destruct (svndiff_read_loop_spec (Z.to_nat len) b rem len Hb Hl) as (b1 & -> & Hb1); [lia|].
  cbn [mbind result_bind]. destruct (IH b1 _ Hb1) as (b2 & ->). cbn [mbind result_bind].
  exists b2. do 2 f_equal. cbn [foldr].
  assert (0 <= foldr Z.add 0 lens) as Hsum
    by (clear -Hlens; induction Hlens; simpl in *; lia).
  rewrite take_take_drop. f_equal. lia.
Qed.

(** The stream delivers what the encoder writes, in reads of any sizes. *)
Lemma svndiff_stream_spec t ws version level lens :
  delivers t ws -> Forall encodable ws -> compressor_works version level ->
  Forall (fun len => 0 <= len) lens ->
  exists eb b', encode_stream ws (svn_txdelta_to_svndiff3 version level) = Ok eb /\
    read_all lens (svn_txdelta_to_svndiff_stream t version level) =
      Ok (take (Z.to_nat (foldr Z.add 0 lens)) (written eb), b').
Proof.
  intros Hd Hws Hcomp Hlens.
  destruct (window_blocks_Ok ws version level Hws Hcomp) as [blocks E].
  destruct (encode_stream_spec ws (svn_txdelta_to_svndiff3 version level) blocks Hws E)
    as (eb & -> & _ & Hw).
  destruct (read_all_spec lens (svn_txdelta_to_svndiff_stream t version level) (written eb))
    as (b' & ->); [|done|by exists eb, b'].
  split; [unfold zlen; simpl; lia|]. simpl. exists ws, blocks. by rewrite Hw.
Qed.
End ReadFacts.
