(* ===== verification/DeltaTheorems.v ===== *)
(** * Text deltas: theorems

    Computing, composing, applying and transferring text deltas. *)

From S2P Require Import Prelude Buffers Encode Delta DeltaFacts Xdelta XdeltaFacts DeltaStreamFacts.
From S2P Require Import Compose ComposeFacts Compress Svndiff SvndiffFacts SvndiffStreamFacts.
From S2P Require Import SvndiffReadFacts.

(** ** Compressors for the witnesses *)

Lemma zero_run (data : bytes) :
  forallb (Z.eqb 0) data = true -> data = replicate (length data) 0.
Proof.
  induction data as [|c data IH]; [done|]. intros [Hc Hd]%andb_true_iff.
  apply Z.eqb_eq in Hc as <-. simpl. f_equal. auto.
Qed.

(** A run of zeros becomes one zero. *)
Definition zero_compress (data : bytes) : bytes :=
  if forallb (Z.eqb 0) data && negb (zlen data =? 0) then [0] else data.

Definition zero_uncompress (data : bytes) (len : Z) : bytes :=
  match data with [0] => replicate (Z.to_nat len) 0 | _ => data end.

Lemma zero_uncompress_compress data : zero_uncompress (zero_compress data) (zlen data) = data.
Proof.
  unfold zero_compress. destruct (forallb (Z.eqb 0) data) eqn:E; simpl.
  - destruct data as [|c data]; [done|]. simpl. unfold zlen. rewrite Nat2Z.id.
    symmetry. by apply zero_run.
  - destruct data as [|c [|c' data]]; [done| |by destruct c]. by destruct c.
Qed.

#[local] Instance zero_zlib : Zlib := {
  compress2 data _ := Ok (zero_compress data);
  uncompress data len := Ok (zero_uncompress data len)
}.

#[local] Instance zero_zlib_laws : ZlibLaws zero_zlib.
Proof. intros data level out [= <-]. simpl. by rewrite zero_uncompress_compress. Qed.

#[local] Instance zero_lz4 : Lz4 := {
  LZ4_compress_default data := match data with [] => [0] | _ => zero_compress data end;
  LZ4_decompress_safe data len := Some (zero_uncompress data len)
}.

#[local] Instance zero_lz4_laws : Lz4Laws zero_lz4.
Proof.
  intros data _. destruct data as [|c data]; [done|].
  cbn -[zero_uncompress zero_compress]. by rewrite zero_uncompress_compress.
Qed.

(** ** Transferring a delta *)

(** C1: The windows that [svn_txdelta_run] computes for a source and a target,
    encoded as a svndiff stream of any version, parsed from the pieces the
    stream is cut into in whatever way, and applied to the source, give the
    target; nothing on the way fails. *)
Theorem delta_over_svndiff (zlib : Zlib) (lz4 : Lz4) version level source target :
  ZlibLaws zlib -> Lz4Laws lz4 -> known_version version -> compressor_works version level ->
  zlen source < SIZE_BOUND ->
  exists eb,
    svn_txdelta_run window_handler source target (svn_txdelta_to_svndiff3 version level) = Ok eb /\
    eb_closed eb = true /\
    forall pieces, concat pieces = written eb ->
      exists ab,
        (db ← write_pieces apply_window pieces
                (svn_txdelta_parse_svndiff (svn_txdelta_apply source) true);
         close_handler apply_window db) = Ok ab /\
        ab_target ab = target.
Proof. intros ? ? Hv Hc Hs. by apply svndiff_run_apply. Qed.

Lemma delta_over_svndiff_witness :
  exists eb,
    svn_txdelta_run window_handler [1; 2; 3; 4; 5; 6] [1; 2; 3; 4; 5; 9]
      (svn_txdelta_to_svndiff3 1 5) = Ok eb /\
    eb_closed eb = true /\
    forall pieces, concat pieces = written eb ->
      exists ab,
        (db ← write_pieces apply_window pieces
                (svn_txdelta_parse_svndiff (svn_txdelta_apply [1; 2; 3; 4; 5; 6]) true);
         close_handler apply_window db) = Ok ab /\
        ab_target ab = [1; 2; 3; 4; 5; 9].
Proof.
  apply (delta_over_svndiff zero_zlib zero_lz4 1 5 [1; 2; 3; 4; 5; 6] [1; 2; 3; 4; 5; 9]).
  - apply _.
  - apply _.
  - by right; left.
  - intros data _. unfold compress_section, svn__compress_zlib, zlib_encode. simpl.
    destruct (_ || _); [by eexists|]. by destruct (_ <=? _); eexists.
  - done.
Defined.

(** C2: [svn_txdelta_compose_windows] never fails on a window from A to B and
    one from B to C that fit each other: the composite is a valid window with
    the source view of the first and the target view of the second, and
    applying it is applying the one after the other. *)
Theorem compose_windows_sem window_A window_B src :
  window_ok window_A -> window_ok window_B -> sview_len window_A <= zlen src ->
  sview_len window_B <= tview_len window_A ->
  exists window_C, svn_txdelta_compose_windows window_A window_B = Ok window_C /\
    window_ok window_C /\
    window_sem window_C src = window_sem window_B (window_sem window_A src) /\
    sview_offset window_C = sview_offset window_A /\ sview_len window_C = sview_len window_A /\
    tview_len window_C = tview_len window_B.
Proof. apply compose_windows_spec. Qed.

(** A copy with overlap behind a copy of the source, new data at the end. *)
Definition example_A : svn_txdelta_window_t :=
  mk_window 0 4 9 1
    [mk_op svn_txdelta_source 1 2; mk_op svn_txdelta_target 0 5; mk_op svn_txdelta_new 0 2] [8; 9].

Definition example_B : svn_txdelta_window_t :=
  mk_window 0 9 10 2
    [mk_op svn_txdelta_source 1 5; mk_op svn_txdelta_source 3 4; mk_op svn_txdelta_new 0 1] [7].

Lemma compose_windows_sem_witness :
  exists window_C, svn_txdelta_compose_windows example_A example_B = Ok window_C /\
    window_ok window_C /\
    window_sem window_C [1; 2; 3; 4] = window_sem example_B (window_sem example_A [1; 2; 3; 4]) /\
    sview_offset window_C = sview_offset example_A /\ sview_len window_C = sview_len example_A /\
    tview_len window_C = tview_len example_B.
Proof.
  apply (compose_windows_sem example_A example_B [1; 2; 3; 4]).
  - apply (bool_decide_unpack _). by vm_compute.
  - apply (bool_decide_unpack _). by vm_compute.
  - by vm_compute.
  - by vm_compute.
Defined.

(** C3: [compute_window] on a source and a target view never fails; the window
    it returns is valid, has the two views, and its instructions describe the
    target. *)
Theorem compute_window_describes source target offset :
  zlen source < 2 ^ 31 -> 0 < zlen target < 2 ^ 31 -> 0 <= offset < SIZE_BOUND ->
  exists w, compute_window (source ++ target) (zlen source) (zlen target) offset = Ok w /\
    window_ok w /\ sview_offset w = offset /\ sview_len w = zlen source /\
    tview_len w = zlen target /\ window_sem w source = target.
Proof.
  intros Hs Ht Ho. destruct (compute_window_spec source target offset Hs Ht Ho)
    as (w & H1 & H2 & H3 & H4 & H5 & H6 & _). by exists w.
Qed.

Lemma compute_window_describes_witness :
  exists w, compute_window ([1; 2; 3; 4; 5; 6] ++ [1; 2; 3; 4; 5; 7]) 6 6 10 = Ok w /\
    window_ok w /\ sview_offset w = 10 /\ sview_len w = 6 /\ tview_len w = 6 /\
    window_sem w [1; 2; 3; 4; 5; 6] = [1; 2; 3; 4; 5; 7].
Proof.
  apply (compute_window_describes [1; 2; 3; 4; 5; 6] [1; 2; 3; 4; 5; 7] 10); by vm_compute.
Defined.

(** C4: [apply_window], on a window whose source view slides forward over the
    source without a gap - it starts within the old view or right behind what
    has been read, and does not end before it, unless it is empty - and whose
    instructions are valid, writes the target that the instructions describe for
    this view, and leaves the source buffer and the stream where the next
    window needs them. *)
Theorem apply_window_slides s ab w :
  source_inv s ab -> slides s ab w -> window_ok w -> zlen s < SIZE_BOUND ->
  exists ab', apply_window (Some w) ab = Ok ab' /\ source_inv s ab' /\
    ab_target ab' = ab_target ab ++ window_sem w (slice s (sview_offset w) (sview_len w)) /\
    ab_sbuf_offset ab' = sview_offset w /\
    read_end ab' = Z.max (read_end ab) (sview_offset w + sview_len w).
Proof. apply apply_window_spec. Qed.

Lemma apply_window_slides_witness :
  exists ab', apply_window (Some example_A) (svn_txdelta_apply [1; 2; 3; 4; 5]) = Ok ab' /\
    source_inv [1; 2; 3; 4; 5] ab' /\
    ab_target ab' = [] ++ window_sem example_A (slice [1; 2; 3; 4; 5] 0 4) /\
    ab_sbuf_offset ab' = 0 /\ read_end ab' = Z.max 0 (0 + 4).
Proof.
  apply (apply_window_slides [1; 2; 3; 4; 5] (svn_txdelta_apply [1; 2; 3; 4; 5]) example_A).
  - by split.
  - split; [|split]; [by vm_compute|right; by vm_compute|by vm_compute].
  - apply (bool_decide_unpack _). by vm_compute.
  - by vm_compute.
Defined.

(** C5: Pushing the target to [svn_txdelta_target_push] in whatever pieces has
    the effect of [svn_txdelta_run] on the whole target, for every handler,
    errors of the handler included. *)
Theorem target_push_any_pieces (T : Type) (handler : option svn_txdelta_window_t -> T -> result T)
    source pieces s :
  ('(tp, s) ← tpush_writes handler (svn_txdelta_target_push source) pieces s;
   tpush_close_handler handler tp s) = svn_txdelta_run handler source (concat pieces) s.
Proof. apply target_push_run. Qed.

(** C6: The table of [init_blocks_table] is built and searched without running
    in circles: [find_block] finds a block of the source that equals the given
    block of the target, and misses none of the blocks that were entered; and
    [adler32_replace] keeps the checksum that it is searched with in step. *)
Theorem block_table_finds source target j :
  zlen source < 2 ^ 31 -> 0 <= j -> j + MATCH_BLOCKSIZE < zlen target ->
  let content j := slice target j MATCH_BLOCKSIZE in
  exists bl p, init_blocks_table source (zlen source) = Ok bl /\
    find_block bl (adler_block (content j)) target j = Ok p /\
    (p <> NO_POSITION -> 0 <= p /\ p + MATCH_BLOCKSIZE <= zlen source /\
       slice source p MATCH_BLOCKSIZE = content j) /\
    (p = NO_POSITION -> forall k, 0 <= k -> MATCH_BLOCKSIZE * k + MATCH_BLOCKSIZE <= zlen source ->
       slice source (MATCH_BLOCKSIZE * k) MATCH_BLOCKSIZE <> content j) /\
    adler32_replace (adler_block (content j)) (byte_at target j)
      (byte_at target (j + MATCH_BLOCKSIZE)) = adler_block (content (j + 1)).
Proof.
  intros Hs Hj Hlen content.
  destruct (init_blocks_table_spec source Hs) as (bl & Hbl & Hok & Hfree & Hall).
  destruct (find_block_spec source bl Hok (adler_block (content j)) target j Hfree)
    as (p & Hp & Hfound & Hmissed); [lia|lia|].
  exists bl, p. split_and!; [done|done|done| |].
  - intros Hno k Hk1 Hk2 Heq.
    destruct (Hall k Hk1 Hk2) as (i & slot & Hi & Hu & Hh).
    apply (Hmissed Hno i slot Hi Hu). unfold content in *. by rewrite <- Heq.
  - unfold content.
    assert (slice target j MATCH_BLOCKSIZE = byte_at target j :: slice target (j + 1) 63) as E1.
    { change MATCH_BLOCKSIZE with (1 + 63). unfold MATCH_BLOCKSIZE in Hlen. rewrite <- slice_app, slice_byte by lia. done. }
    assert (slice target (j + 1) MATCH_BLOCKSIZE =
      slice target (j + 1) 63 ++ [byte_at target (j + MATCH_BLOCKSIZE)]) as E2.
    { change MATCH_BLOCKSIZE with (63 + 1). unfold MATCH_BLOCKSIZE in Hlen.
      rewrite <- slice_app, (slice_byte _ (j + 1 + 63)) by lia. do 3 f_equal. lia. }
    rewrite E1, E2. apply adler32_replace_spec. rewrite <- E1.
    apply zlen_slice; unfold MATCH_BLOCKSIZE in *; lia.
Qed.

Lemma block_table_finds_witness :
  let source := replicate 64 1 ++ replicate 64 2 in
  let target := replicate 70 2 in
  let content j := slice target j MATCH_BLOCKSIZE in
  exists bl p, init_blocks_table source (zlen source) = Ok bl /\
    find_block bl (adler_block (content 3)) target 3 = Ok p /\
    (p <> NO_POSITION -> 0 <= p /\ p + MATCH_BLOCKSIZE <= zlen source /\
       slice source p MATCH_BLOCKSIZE = content 3) /\
    (p = NO_POSITION -> forall k, 0 <= k -> MATCH_BLOCKSIZE * k + MATCH_BLOCKSIZE <= zlen source ->
       slice source (MATCH_BLOCKSIZE * k) MATCH_BLOCKSIZE <> content 3) /\
    adler32_replace (adler_block (content 3)) (byte_at target 3)
      (byte_at target (3 + MATCH_BLOCKSIZE)) = adler_block (content (3 + 1)).
Proof.
  apply (block_table_finds (replicate 64 1 ++ replicate 64 2) (replicate 70 2) 3); by vm_compute.
Defined.

(** ** The parser of svndiff streams *)

(** C7: A parser that is given a stream in several pieces does what it does
    with the whole stream in one piece: the same windows for the consumer, the
    same state, the same error. *)
Theorem parser_any_pieces (zlib : Zlib) (lz4 : Lz4) (S : Type)
    (consumer : option svn_txdelta_window_t -> S -> result S) s early piece pieces piece' pieces' :
  concat (piece :: pieces) = concat (piece' :: pieces') ->
  write_pieces consumer (piece :: pieces) (svn_txdelta_parse_svndiff s early) =
    write_pieces consumer (piece' :: pieces') (svn_txdelta_parse_svndiff s early).
Proof. intros E. by rewrite !write_pieces_concat, E by apply parse_svndiff_ok. Qed.

(** A consumer that collects windows. *)
Definition collect (w : option svn_txdelta_window_t) (ws : list (option svn_txdelta_window_t))
    : result (list (option svn_txdelta_window_t)) := Ok (ws ++ [w]).

Lemma parser_any_pieces_witness :
  concat [[83]; [86; 78]; [0; 0; 0; 1; 1]; []; [1; 129; 9]] =
    concat [[83; 86; 78; 0; 0; 0; 1; 1; 1; 129; 9]] /\
  write_pieces collect [[83]; [86; 78]; [0; 0; 0; 1; 1]; []; [1; 129; 9]]
      (svn_txdelta_parse_svndiff [] true) =
    write_pieces collect [[83; 86; 78; 0; 0; 0; 1; 1; 1; 129; 9]] (svn_txdelta_parse_svndiff [] true).
Proof.
  split; [done|].
  apply (parser_any_pieces zero_zlib zero_lz4 _ collect [] true [83]
    [[86; 78]; [0; 0; 0; 1; 1]; []; [1; 129; 9]] [83; 86; 78; 0; 0; 0; 1; 1; 1; 129; 9] []). done.
Defined.

(** C8: Whatever the data are, the consumer of the parser is only handed valid
    windows of bounded size: putting a test of the window in front of the
    consumer, which would stop the process, changes nothing. *)
Theorem parser_valid_windows (zlib : Zlib) (lz4 : Lz4) (S : Type)
    (consumer : option svn_txdelta_window_t -> S -> result S) s early piece pieces :
  write_pieces (checking consumer) (piece :: pieces) (svn_txdelta_parse_svndiff s early) =
    write_pieces consumer (piece :: pieces) (svn_txdelta_parse_svndiff s early).
Proof.
  rewrite !write_pieces_concat by apply parse_svndiff_ok.
  by rewrite write_handler_checking by apply parse_svndiff_ok.
Qed.

(** C9: Every window is delivered as soon as its last byte has been written:
    after any pieces that make up the header of the stream and the blocks of
    some windows the consumer has had just these windows, without the stream
    being closed. *)
Theorem parser_delivers (zlib : Zlib) (lz4 : Lz4) (S : Type)
    (consumer : option svn_txdelta_window_t -> S -> result S)
    version level ws blocks s early piece pieces :
  ZlibLaws zlib -> Lz4Laws lz4 -> known_version version ->
  Forall encodable ws -> views_ok 0 0 ws -> window_blocks ws version level = Ok blocks ->
  concat (piece :: pieces) = get_svndiff_header version ++ blocks ->
  consumer_baton <$> write_pieces consumer (piece :: pieces) (svn_txdelta_parse_svndiff s early) =
    consume consumer (decoded <$> ws) s.
Proof.
  intros ? ? Hv Hws Hviews E Hp. rewrite write_pieces_concat, Hp by apply parse_svndiff_ok.
  rewrite (write_handler_stream _ _ _ _ level _ _ Hv Hws Hviews E).
  by destruct (consume consumer (decoded <$> ws) s).
Qed.

Lemma encodable_by_evaluation w : bool_decide (svndiff_window w) = true -> encodable w.
Proof. intros H. apply valid_encodable. by apply bool_decide_eq_true in H. Qed.

Definition example_blocks : bytes :=
  Eval vm_compute in
    match window_blocks [example_A; example_A] 1 5 with Ok blocks => blocks | Err _ => [] end.

Lemma parser_delivers_witness :
  consumer_baton <$> write_pieces collect [[83; 86]; [78; 1] ++ example_blocks]
      (svn_txdelta_parse_svndiff [] true) =
    consume collect (decoded <$> [example_A; example_A]) [].
Proof.
  apply (parser_delivers zero_zlib zero_lz4 _ collect 1 5 [example_A; example_A] example_blocks
    [] true [83; 86] [[78; 1] ++ example_blocks]).
  - apply _.
  - apply _.
  - by right; left.
  - repeat (apply Forall_cons_2; [apply encodable_by_evaluation; by vm_compute|]).
    by apply Forall_nil_2.
  - vm_compute. repeat split; intros; done.
  - by vm_compute.
  - by vm_compute.
Defined.

(** C10: The loop of the parser ends on every input by itself, whatever the
    data are: the fuel of its model, the length of the buffer, never runs
    out. *)
Theorem parser_terminates (zlib : Zlib) (lz4 : Lz4) (S : Type)
    (consumer : option svn_txdelta_window_t -> S -> result S) s early piece pieces :
  (forall data len, uncompress data len <> Err OUT_OF_FUEL) ->
  (forall w s, consumer w s <> Err OUT_OF_FUEL) ->
  write_pieces consumer (piece :: pieces) (svn_txdelta_parse_svndiff s early) <> Err OUT_OF_FUEL.
Proof.
  intros Hz Hc. rewrite write_pieces_concat by apply parse_svndiff_ok.
  apply write_handler_fuel; [done|apply parse_svndiff_ok|done].
Qed.

Lemma parser_terminates_witness :
  write_pieces collect [[83; 86; 78; 1; 0; 0]; [3; 7]] (svn_txdelta_parse_svndiff [] true) <>
    Err OUT_OF_FUEL.
Proof.
  apply (parser_terminates zero_zlib zero_lz4 _ collect [] true [83; 86; 78; 1; 0; 0] [[3; 7]]);
    by intros.
Defined.

(** C11: A stream that ends within a window: the windows in front of it have
    been delivered, nothing of it has, and closing the parser reports
    [SVN_ERR_SVNDIFF_UNEXPECTED_END] exactly if that was asked for. *)
Theorem parser_unexpected_end (zlib : Zlib) (lz4 : Lz4) (S : Type)
    (consumer : option svn_txdelta_window_t -> S -> result S)
    version level ws w blocks block p q s early :
  ZlibLaws zlib -> Lz4Laws lz4 -> known_version version ->
  Forall encodable ws -> encodable w -> views_ok 0 0 (ws ++ [w]) ->
  window_blocks ws version level = Ok blocks -> window_block w version level = Ok block ->
  block = p ++ q -> p <> [] -> q <> [] ->
  (db ← write_handler consumer (svn_txdelta_parse_svndiff s early)
          (get_svndiff_header version ++ blocks ++ p);
   close_handler consumer db) =
  (s ← consume consumer (decoded <$> ws) s;
   if early then Err SVN_ERR_SVNDIFF_UNEXPECTED_END else consumer None s).
Proof. intros. by eapply truncated_stream. Qed.

Definition example_block : bytes :=
  Eval vm_compute in
    match window_block example_A 1 5 with Ok block => block | Err _ => [] end.

Lemma parser_unexpected_end_witness :
  (db ← write_handler collect (svn_txdelta_parse_svndiff [] true)
          ([83; 86; 78; 1] ++ [] ++ take 7 example_block);
   close_handler collect db) =
  (s ← consume collect [] []; Err SVN_ERR_SVNDIFF_UNEXPECTED_END).
Proof.
  apply (parser_unexpected_end zero_zlib zero_lz4 _ collect 1 5 [] example_A [] example_block
    (take 7 example_block) (drop 7 example_block) [] true).
  - apply _.
  - apply _.
  - by right; left.
  - constructor.
  - apply encodable_by_evaluation. by vm_compute.
  - vm_compute. repeat split; intros; done.
  - done.
  - by vm_compute.
  - by vm_compute.
  - done.
  - done.
Defined.

(** Reading one window at a time: a window that is read is valid whatever
    the stream holds; from a block that the encoder wrote the window is read
    back, skipping it leads behind it, and its length is measured. *)
Theorem read_window_roundtrip (zlib : Zlib) (lz4 : Lz4) version level w block rest :
  ZlibLaws zlib -> Lz4Laws lz4 -> encodable w -> window_block w version level = Ok block ->
  (forall stream w' rest',
     svn_txdelta_read_svndiff_window stream version = Ok (w', rest') -> svndiff_window w') /\
  svn_txdelta_read_svndiff_window (block ++ rest) version = Ok (decoded w, rest) /\
  svn_txdelta_skip_svndiff_window (block ++ rest) = Ok rest /\
  exists rest', svn_txdelta__read_raw_window_len (block ++ rest) = Ok (zlen block, rest').
Proof.
  intros ? ? Hw E. split; [intros; by eapply read_svndiff_window_valid|].
  by eapply read_encoded_window.
Qed.

Lemma read_window_roundtrip_witness :
  (forall stream w' rest',
     svn_txdelta_read_svndiff_window stream 1 = Ok (w', rest') -> svndiff_window w') /\
  svn_txdelta_read_svndiff_window (example_block ++ [1; 2]) 1 = Ok (decoded example_A, [1; 2]) /\
  svn_txdelta_skip_svndiff_window (example_block ++ [1; 2]) = Ok [1; 2] /\
  exists rest', svn_txdelta__read_raw_window_len (example_block ++ [1; 2]) =
    Ok (zlen example_block, rest').
Proof.
  apply (read_window_roundtrip zero_zlib zero_lz4 1 5 example_A example_block [1; 2]).
  - apply _.
  - apply _.
  - apply encodable_by_evaluation. by vm_compute.
  - by vm_compute.
Defined.

(** The stream of [svn_txdelta_to_svndiff_stream] delivers, in reads of
    whatever sizes, what the window handler of the encoder writes for the
    windows of the delta stream. *)
Theorem svndiff_stream_delivers (zlib : Zlib) (lz4 : Lz4) (T : Type)
    (next_window : T -> result (option svn_txdelta_window_t * T)) txstream ws version level lens :
  ZlibLaws zlib -> Lz4Laws lz4 ->
  delivers next_window txstream ws -> Forall encodable ws -> compressor_works version level ->
  Forall (fun len => 0 <= len) lens ->
  exists eb b, encode_stream ws (svn_txdelta_to_svndiff3 version level) = Ok eb /\
    read_all next_window lens (svn_txdelta_to_svndiff_stream txstream version level) =
      Ok (take (Z.to_nat (foldr Z.add 0 lens)) (written eb), b).
Proof. intros. by apply svndiff_stream_spec. Qed.

(** The delta stream of a list. *)
Definition next_of_list (ws : list svn_txdelta_window_t)
    : result (option svn_txdelta_window_t * list svn_txdelta_window_t) :=
  match ws with [] => Ok (None, []) | w :: ws => Ok (Some w, ws) end.

Lemma svndiff_stream_delivers_witness :
  exists eb b, encode_stream [example_A; example_A] (svn_txdelta_to_svndiff3 0 5) = Ok eb /\
    read_all next_of_list [3; 0; 20] (svn_txdelta_to_svndiff_stream [example_A; example_A] 0 5) =
      Ok (take 23 (written eb), b).
Proof.
  apply (svndiff_stream_delivers zero_zlib zero_lz4 _ next_of_list [example_A; example_A]
    [example_A; example_A] 0 5 [3; 0; 20]).
  - apply _.
  - apply _.
  - eexists. split; [done|]. eexists. split; [done|]. by eexists.
  - repeat (apply Forall_cons_2; [apply encodable_by_evaluation; by vm_compute|]).
    by apply Forall_nil_2.
  - apply compressor_works_0.
  - by repeat constructor.
Defined.

(** [svn__decode_uint] and [svn__decode_int] read back what
    [svn__encode_uint] and [svn__encode_int] wrote for every 64-bit number,
    whatever follows; an encoding has one to ten bytes. *)
Theorem encoded_integers val ival rest :
  0 <= val < 2 ^ 64 -> - 2 ^ 63 <= ival < 2 ^ 63 ->
  svn__decode_uint (svn__encode_uint val ++ rest) = Some (val, rest) /\
  svn__decode_int (svn__encode_int ival ++ rest) = Some (ival, rest) /\
  1 <= zlen (svn__encode_uint val) <= SVN__MAX_ENCODED_UINT_LEN.
Proof.
  intros Hv Hi. split_and!; [by apply decode_encode_uint|by apply decode_encode_int|..];
    pose proof (zlen_encode_uint val Hv); unfold SVN__MAX_ENCODED_UINT_LEN; lia.
Qed.

Lemma encoded_integers_witness :
  svn__decode_uint (svn__encode_uint 300 ++ [7]) = Some (300, [7]) /\
  svn__decode_int (svn__encode_int (-5) ++ [7]) = Some (-5, [7]) /\
  1 <= zlen (svn__encode_uint 300) <= SVN__MAX_ENCODED_UINT_LEN.
Proof. apply (encoded_integers 300 (-5) [7]); lia. Defined.

(** ** What the model shows beside *)

(** A window with an empty source view further to the left passes the checks
    of the parser and of [apply_window], whose [memmove] then reads outside
    its buffer. *)
Example empty_view_slides_back :
  (ab ← apply_window (Some (mk_window 4 2 2 1 [mk_op svn_txdelta_source 0 2] []))
          (svn_txdelta_apply [1; 2; 3; 4; 5; 6; 7]);
   apply_window (Some (mk_window 1 0 1 0 [mk_op svn_txdelta_new 0 1] [9])) ab) = Err C_UNDEFINED /\
  is_ok (write_handler collect (svn_txdelta_parse_svndiff [] true)
    [83; 86; 78; 0; 4; 2; 2; 2; 0; 2; 0; 1; 0; 1; 1; 1; 129; 9]) = true.
Proof. by vm_compute. Qed.

(** Source views that leave a gap: the bytes of the gap stay in the stream and
    are taken for the view. *)
Example gap_between_views :
  (ab ← apply_window (Some (mk_window 3 2 2 1 [mk_op svn_txdelta_source 0 2] []))
          (svn_txdelta_apply [1; 2; 3; 4; 5]);
   Ok (ab_target ab)) = Ok [1; 2] /\
  window_sem (mk_window 3 2 2 1 [mk_op svn_txdelta_source 0 2] []) (slice [1; 2; 3; 4; 5] 3 2) = [4; 5].
Proof. by vm_compute. Qed.

(** Removing a copy from the source does not reduce the count of such copies. *)
Example remove_copy_keeps_count :
  let b := mk_ops_baton 1 [mk_op svn_txdelta_source 0 4] [] in
  svn_txdelta__remove_copy b 4 = (mk_ops_baton 1 [] [], 4) /\ count_sources (b_ops b) = 1.
Proof. by vm_compute. Qed.

(** A window without text, which [svn_txdelta_send_string] sends for an empty
    string, has an instruction of length zero: it is not valid, and the parser
    refuses its encoding. *)
Example empty_string_window :
  let w := insertion_window [] in
  bool_decide (window_ok w) = false /\
  (block ← window_block w 0 5;
   write_handler collect (svn_txdelta_parse_svndiff [] true) (SVNDIFF_V0 ++ block)) =
    Err SVN_ERR_SVNDIFF_INVALID_OPS.
Proof. by vm_compute. Qed.
