(* ===== verification/CString.v ===== *)
(** * Numbers as C strings

    The decimal and base-36 conversions of libsvn_subr/string.c
    ([svn__strtoul], [svn__ui64toa], [svn__i64toa], [svn__ui64toa_sep],
    [svn__ui64tobase36], [svn__base36toui64]) and the revision number parser
    [svn_revnum_parse] of libsvn_subr/types.c, with the printing of [%ld] from
    the C library as the reference they are compared with. *)

From S2P Require Import Prelude.

(** ** The C library: [%ld] and [isspace] in the C locale *)

(** The decimal digits of [n], most significant first, in front of [acc]. *)
Fixpoint dec_digits (fuel : nat) (n : Z) (acc : bytes) : bytes :=
  match fuel with
  | O => acc
  | S f =>
      let acc' := ("0"%cc + n mod 10) :: acc in
      if n <? 10 then acc' else dec_digits f (n / 10) acc'
  end.

(** [%lu] and [%ld]. *)
Definition print_lu (n : Z) : bytes := dec_digits (S (Z.to_nat (Z.log2 n))) n [].

Definition print_ld (n : Z) : bytes :=
  if n <? 0 then "-"%cc :: print_lu (- n) else print_lu n.

Definition isspace (c : Z) : bool := (c =? 32) || ((9 <=? c) && (c <=? 13)).

Definition is_digit (c : Z) : bool := ("0"%cc <=? c) && (c <=? "9"%cc).

(** ** [svn__strtoul] *)

(** The parsed value, which wraps at 64 bits, and the position of the first
    character that is not a digit. *)
Fixpoint strtoul_loop (buffer : bytes) (result : Z) : Z * bytes :=
  match buffer with
  | [] => (result, [])
  | b :: rest =>
      let c := u64 (b - "0"%cc) in
      if 9 <? c then (result, buffer)
      else strtoul_loop rest (u64 (result * 10 + c))
  end.

Definition svn__strtoul (buffer : bytes) : Z * bytes := strtoul_loop buffer 0.

(** ** [svn__ui64toa] *)

Definition decimal_table : list bytes := map cstr
    [
     "00"; "01"; "02"; "03"; "04"; "05"; "06"; "07"; "08"; "09";
     "10"; "11"; "12"; "13"; "14"; "15"; "16"; "17"; "18"; "19";
     "20"; "21"; "22"; "23"; "24"; "25"; "26"; "27"; "28"; "29";
     "30"; "31"; "32"; "33"; "34"; "35"; "36"; "37"; "38"; "39";
     "40"; "41"; "42"; "43"; "44"; "45"; "46"; "47"; "48"; "49";
     "50"; "51"; "52"; "53"; "54"; "55"; "56"; "57"; "58"; "59";
     "60"; "61"; "62"; "63"; "64"; "65"; "66"; "67"; "68"; "69";
     "70"; "71"; "72"; "73"; "74"; "75"; "76"; "77"; "78"; "79";
     "80"; "81"; "82"; "83"; "84"; "85"; "86"; "87"; "88"; "89";
     "90"; "91"; "92"; "93"; "94"; "95"; "96"; "97"; "98"; "99"
    ]%string.

(** [COPY_TWO_BYTES (target, decimal_table[i])]: the buffer is filled from its
    end, so the two characters go in front of what has been written. *)
Definition copy_two_bytes (i : Z) (written : bytes) : bytes :=
  default [] (decimal_table !! Z.to_nat i) ++ written.

(** The first loop: four pairs of digits per round while the number does not
    fit into eight digits. *)
Fixpoint ui64toa_loop8 (fuel : nat) (number : Z) (target : bytes)
    : option (Z * bytes) :=
  if 100000000 <=? number then
    match fuel with
    | O => None
    | S f =>
        let reduced := u32 (number mod 100000000) in
        let number := number / 100000000 in
        let target := copy_two_bytes (reduced mod 100) target in
        let reduced := reduced / 100 in
        let target := copy_two_bytes (reduced mod 100) target in
        let reduced := reduced / 100 in
        let target := copy_two_bytes (reduced mod 100) target in
        let reduced := reduced / 100 in
        let target := copy_two_bytes (reduced mod 100) target in
        ui64toa_loop8 f number target
    end
  else Some (number, target).

(** The second loop: one pair per round while the number exceeds 99. *)
Fixpoint ui64toa_loop2 (fuel : nat) (reduced : Z) (target : bytes)
    : option (Z * bytes) :=
  if 100 <=? reduced then
    match fuel with
    | O => None
    | S f => ui64toa_loop2 f (reduced / 100)
               (copy_two_bytes (reduced mod 100) target)
    end
  else Some (reduced, target).

Definition svn__ui64toa (number : Z) : option bytes :=
  if number <? 100 then
    if number <? 10 then Some ["0"%cc + number]
    else Some (copy_two_bytes number [])
  else
    '(number, target) ← ui64toa_loop8 2 number [];
    '(reduced, target) ← ui64toa_loop2 4 (u32 number) target;
    let target := copy_two_bytes reduced target in
    (** Correction for an uneven count of places. *)
    Some (if reduced <? 10 then tail target else target).

Definition svn__i64toa (number : Z) : option bytes :=
  if 0 <=? number then svn__ui64toa number
  else s ← svn__ui64toa (u64 (0 - u64 number)); Some ("-"%cc :: s).

(** The loop of [ui64toa_sep]: the separator goes in front of the last three
    characters not yet grouped. *)
Fixpoint ui64toa_sep_loop (fuel i : nat) (separator : Z) (buffer : bytes) : bytes :=
  match fuel with
  | O => buffer
  | S f =>
      if (3 <? i)%nat then
        ui64toa_sep_loop f (i - 3) separator
          (take (i - 3) buffer ++ separator :: drop (i - 3) buffer)
      else buffer
  end.

Definition ui64toa_sep (number separator : Z) : option bytes :=
  buffer ← svn__ui64toa number;
  Some (ui64toa_sep_loop (length buffer) (length buffer) separator buffer).

Definition svn__ui64toa_sep := ui64toa_sep.

Definition svn__i64toa_sep (number separator : Z) : option bytes :=
  if number <? 0 then
    s ← ui64toa_sep (u64 (- number)) separator; Some ("-"%cc :: s)
  else ui64toa_sep (u64 number) separator.

(** ** Base 36 *)

(** The digit loop of [svn__ui64tobase36]; the least significant digit is
    written first and the copy to the destination reverses them. *)
Fixpoint base36_loop (fuel : nat) (value : Z) (acc : bytes) : bytes :=
  match fuel with
  | O => acc
  | S f =>
      if 0 <? value then
        let c := value mod 36 in
        base36_loop f (value / 36)
          ((if c <=? 9 then c + "0"%cc else c - 10 + "a"%cc) :: acc)
      else acc
  end.

Definition svn__ui64tobase36 (value : Z) : bytes :=
  if value <? 10 then [value + "0"%cc] else base36_loop 64 value [].

(** [SVN_INT64_BUFFER_SIZE] *)
Definition SVN_INT64_BUFFER_SIZE : nat := 21.

(** The scan for digits: their values in reading order and the position after
    them.  At most [room] digits fit into the local buffer. *)
Fixpoint base36_digits (room : nat) (source : bytes) : list Z * bytes :=
  match room, source with
  | S room', c :: rest =>
      if c <? "a"%cc then
        if (c <? "0"%cc) || ("9"%cc <? c) then ([], source)
        else let '(ds, next) := base36_digits room' rest in ((c - "0"%cc) :: ds, next)
      else if (c <? "a"%cc) || ("z"%cc <? c) then ([], source)
      else let '(ds, next) := base36_digits room' rest in
           ((c - ("a"%cc - 10)) :: ds, next)
  | _, _ => ([], source)
  end.

(** The fold into the result, from the last digit to the first. *)
Fixpoint base36_fold (rev_digits : list Z) (result factor : Z) : Z :=
  match rev_digits with
  | [] => result
  | d :: ds => base36_fold ds (u64 (result + factor * d)) (u64 (factor * 36))
  end.

Definition svn__base36toui64 (source : bytes) : Z * bytes :=
  let '(digits, next) := base36_digits SVN_INT64_BUFFER_SIZE source in
  (base36_fold (reverse digits) 0 1, next).

(** ** [svn_revnum_parse] *)

(** The revision and the position after it.  On an error the caller's end
    pointer is left at [str], which no caller in the development reads. *)
Definition svn_revnum_parse (str : bytes) : result (Z * bytes) :=
  let '(result, end_) := svn__strtoul str in
  let n := (length str - length end_)%nat in
  if (n =? 0)%nat then Err SVN_ERR_REVNUM_PARSE_FAILURE
  else if (10 <=? n)%nat then
    if (10 <? n)%nat then Err SVN_ERR_REVNUM_PARSE_FAILURE
    else if ("2"%cc <? deref str) || (APR_INT32_MAX <? u32 result)
    then Err SVN_ERR_REVNUM_PARSE_FAILURE
    else Ok (result, end_)
  else Ok (result, end_).

(** * Theorems *)

(** ** The decimal digits of a number *)

Lemma dec_digits_fuel f1 f2 n acc :
  0 <= n < 10 ^ Z.of_nat f1 -> 0 <= n < 10 ^ Z.of_nat f2 ->
  (0 < f1)%nat -> (0 < f2)%nat ->
  dec_digits f1 n acc = dec_digits f2 n acc.
Proof.
  revert f2 n acc. induction f1 as [|f1 IH]; intros f2 n acc H1 H2 ??; [lia|].
  destruct f2 as [|f2]; [lia|]. simpl.
  destruct (Z.ltb_spec n 10); [done|].
  rewrite Nat2Z.inj_succ, Z.pow_succ_r in H1, H2 by lia.
  assert (0 <= n / 10) by (apply Z.div_pos; lia).
  assert (n / 10 < 10 ^ Z.of_nat f1) by (apply Z.div_lt_upper_bound; lia).
  assert (n / 10 < 10 ^ Z.of_nat f2) by (apply Z.div_lt_upper_bound; lia).
  apply IH; [lia..| |].
  - destruct f1; [|lia]. simpl in *. lia.
  - destruct f2; [|lia]. simpl in *. lia.
Qed.

Definition dec_fuel (n : Z) : nat := S (Z.to_nat (Z.log2 n)).

Lemma dec_fuel_enough n : 0 <= n -> n < 10 ^ Z.of_nat (dec_fuel n).
Proof.
  intros Hn. unfold dec_fuel. destruct (Z.eq_dec n 0) as [->|].
  { done. }
  rewrite Nat2Z.inj_succ, Z2Nat.id by apply Z.log2_nonneg.
  destruct (Z.log2_spec n) as [_ Hlt]; [lia|].
  eapply Z.lt_le_trans; [exact Hlt|].
  apply Z.pow_le_mono_l. split; [lia|]. lia.
Qed.

Lemma print_lu_step n acc :
  0 <= n ->
  dec_digits (dec_fuel n) n acc =
    (if n <? 10 then ("0"%cc + n mod 10) :: acc
     else dec_digits (dec_fuel (n / 10)) (n / 10) (("0"%cc + n mod 10) :: acc)).
Proof.
  intros Hn. unfold dec_fuel at 1. cbn [dec_digits].
  destruct (Z.ltb_spec n 10); [done|].
  assert (0 <= n / 10) by (apply Z.div_pos; lia).
  assert (3 <= Z.log2 n) by (change 3 with (Z.log2 10); by apply Z.log2_le_mono).
  apply dec_digits_fuel; [split; [done|]|split; [done|]|lia|unfold dec_fuel; lia].
  - rewrite Z2Nat.id by lia. apply Z.div_lt_upper_bound; [lia|].
    destruct (Z.log2_spec n) as [_ Hlt]; [lia|].
    rewrite Z.pow_succ_r in Hlt by lia.
    assert (2 ^ Z.log2 n <= 10 ^ Z.log2 n) by (apply Z.pow_le_mono_l; lia).
    lia.
  - by apply dec_fuel_enough.
Qed.

Arguments dec_digits : simpl never.

(** The value of a string of digits read on top of [r]. *)
Definition dec_value (r : Z) (ds : bytes) : Z :=
  foldl (fun r c => r * 10 + (c - "0"%cc)) r ds.

Lemma dec_value_app r ds es : dec_value r (ds ++ es) = dec_value (dec_value r ds) es.
Proof. unfold dec_value. by rewrite foldl_app. Qed.

Lemma dec_digits_spec n :
  0 <= n -> exists ds,
    (forall acc, dec_digits (dec_fuel n) n acc = ds ++ acc) /\
    Forall (fun c => is_digit c = true) ds /\ dec_value 0 ds = n /\
    (0 < length ds)%nat /\ (n = 0 \/ 10 ^ (Z.of_nat (length ds) - 1) <= n).
Proof.
  intros Hn. pattern n. apply Zlt_0_ind; [|done]. clear n Hn. intros n IH Hn.
  assert (Hd : is_digit ("0"%cc + n mod 10) = true).
  { pose proof (Z.mod_pos_bound n 10). unfold is_digit.
    apply andb_true_iff; split; apply Z.leb_le; lia. }
  destruct (Z.ltb_spec n 10) as [Hlt|Hge].
  - exists ["0"%cc + n mod 10]. split; [|split; [|split; [|split]]].
    + intros. rewrite print_lu_step by done. destruct (Z.ltb_spec n 10); [done|lia].
    + by constructor.
    + unfold dec_value. simpl. rewrite Z.mod_small by lia. lia.
    + simpl. lia.
    + simpl. lia.
  - destruct (IH (n / 10)) as (ds & Heq & Hds & Hval & Hlen & Hmag).
    { split; [apply Z.div_pos; lia|apply Z.div_lt; lia]. }
    exists (ds ++ ["0"%cc + n mod 10]). split; [|split; [|split; [|split]]].
    + intros. rewrite print_lu_step by done. destruct (Z.ltb_spec n 10); [lia|].
      rewrite Heq. by rewrite <-app_assoc.
    + apply Forall_app; split; [done|by constructor].
    + rewrite dec_value_app, Hval. unfold dec_value. simpl.
      pose proof (Z.div_mod n 10). lia.
    + rewrite length_app. simpl. lia.
    + right. rewrite length_app. simpl.
      pose proof (Z.div_mod n 10). pose proof (Z.mod_pos_bound n 10).
      assert (1 <= n / 10) by (apply Z.div_le_lower_bound; lia).
      destruct Hmag as [|Hmag]; [lia|].
      replace (Z.of_nat (length ds + 1) - 1) with (Z.succ (Z.of_nat (length ds) - 1)) by lia.
      rewrite Z.pow_succ_r by lia. lia.
Qed.

Lemma print_lu_spec n :
  0 <= n ->
    Forall (fun c => is_digit c = true) (print_lu n) /\ dec_value 0 (print_lu n) = n /\
    (0 < length (print_lu n))%nat /\
    (n = 0 \/ 10 ^ (Z.of_nat (length (print_lu n)) - 1) <= n).
Proof.
  intros Hn. destruct (dec_digits_spec n Hn) as (ds & Heq & ? & ? & ? & ?).
  unfold print_lu. fold (dec_fuel n). by rewrite Heq, app_nil_r.
Qed.

Lemma print_lu_length n k :
  0 <= n < 10 ^ Z.of_nat k -> (0 < k)%nat -> (length (print_lu n) <= k)%nat.
Proof.
  intros [Hn Hk] Hpos. destruct (print_lu_spec n Hn) as (_ & _ & Hlen & [->|Hmag]).
  { done. }
  assert (10 ^ (Z.of_nat (length (print_lu n)) - 1) < 10 ^ Z.of_nat k) as Hlt by lia.
  apply Z.pow_lt_mono_r_iff in Hlt; lia.
Qed.

(** ** [svn__strtoul] reads the decimal digits back *)

Lemma dec_value_mono r ds :
  0 <= r -> Forall (fun c => is_digit c = true) ds -> r <= dec_value r ds.
Proof.
  intros Hr Hds. revert r Hr. induction Hds as [|c ds Hc _ IH]; intros r Hr; [done|].
  unfold is_digit in Hc. reflect_bools. unfold dec_value in *. simpl.
  etransitivity; [|apply IH]; lia.
Qed.

Lemma strtoul_loop_app ds rest r :
  Forall (fun c => is_digit c = true) ds -> 0 <= r -> dec_value r ds < 2 ^ 64 ->
  strtoul_loop (ds ++ rest) r = strtoul_loop rest (dec_value r ds).
Proof.
  intros Hds. revert r. induction Hds as [|c ds Hc Hds IH]; intros r Hr Hv; [done|].
  unfold is_digit in Hc. reflect_bools. simpl.
  assert (0 <= r * 10 + (c - "0"%cc) <= dec_value r (c :: ds)).
  { split; [lia|]. apply (dec_value_mono (r * 10 + (c - "0"%cc))); [lia|done]. }
  rewrite (u64_small (c - "0"%cc)) by lia.
  destruct (Z.ltb_spec 9 (c - "0"%cc)); [lia|].
  rewrite u64_small by lia.
  apply IH; [lia|]. unfold dec_value in *. simpl in *. lia.
Qed.

Lemma strtoul_loop_stop rest r :
  is_digit (deref rest) = false -> Forall (fun c => 0 <= c < 256) rest ->
  strtoul_loop rest r = (r, rest).
Proof.
  intros Hd Hb. destruct rest as [|c rest]; [done|]. simpl.
  apply Forall_cons in Hb as [Hc _].
  unfold is_digit, deref in Hd. simpl in Hd. reflect_bools.
  destruct (Z.ltb_spec 9 (u64 (c - "0"%cc))) as [|Hle]; [done|]. exfalso.
  unfold u64 in Hle. destruct Hd; reflect_bools.
  - rewrite <-(Z_mod_plus_full (c - "0"%cc) 1) in Hle.
    rewrite Z.mod_small in Hle; lia.
  - rewrite Z.mod_small in Hle; lia.
Qed.

Lemma svn__strtoul_print n rest :
  0 <= n < 2 ^ 64 -> is_digit (deref rest) = false ->
  Forall (fun c => 0 <= c < 256) rest ->
  svn__strtoul (print_lu n ++ rest) = (n, rest).
Proof.
  intros Hn Hd Hb. destruct (print_lu_spec n) as (Hds & Hv & _); [lia|].
  unfold svn__strtoul. rewrite strtoul_loop_app by (rewrite ?Hv; done || lia).
  rewrite Hv. by apply strtoul_loop_stop.
Qed.

(** ** [svn__ui64toa] prints what [%lu] prints *)

Lemma decimal_table_lookup i :
  0 <= i < 100 ->
  decimal_table !! Z.to_nat i = Some ["0"%cc + i / 10; "0"%cc + i mod 10].
Proof.
  intros Hi.
  assert (Hall : forallb (fun k => bool_decide (decimal_table !! k =
            Some ["0"%cc + Z.of_nat k / 10; "0"%cc + Z.of_nat k mod 10])) (seq 0 100) = true)
    by (vm_compute; reflexivity).
  rewrite forallb_forall in Hall.
  specialize (Hall (Z.to_nat i)). rewrite bool_decide_eq_true, Z2Nat.id in Hall by lia.
  apply Hall, in_seq. lia.
Qed.

Lemma copy_two_bytes_eq i acc :
  0 <= i < 100 ->
  copy_two_bytes i acc = ("0"%cc + i / 10) :: ("0"%cc + i mod 10) :: acc.
Proof. intros Hi. unfold copy_two_bytes. by rewrite decimal_table_lookup. Qed.

Lemma dec_digits_pair n acc :
  100 <= n ->
  dec_digits (dec_fuel n) n acc =
    dec_digits (dec_fuel (n / 100)) (n / 100) (copy_two_bytes (n mod 100) acc).
Proof.
  intros Hn. rewrite print_lu_step by lia. destruct (Z.ltb_spec n 10); [lia|].
  rewrite print_lu_step by (apply Z.div_pos; lia).
  destruct (Z.ltb_spec (n / 10) 10); [dlia|].
  rewrite Z.div_div by lia. change (10 * 10) with 100.
  rewrite copy_two_bytes_eq by dlia.
  replace (n mod 100 / 10) with ((n / 10) mod 10) by dlia.
  by replace ((n mod 100) mod 10) with (n mod 10) by dlia.
Qed.

Lemma ui64toa_loop2_spec fuel n t :
  1 <= n < 100 ^ (1 + Z.of_nat fuel) -> exists r t',
    ui64toa_loop2 fuel n t = Some (r, t') /\ 1 <= r < 100 /\
    dec_digits (dec_fuel n) n t = dec_digits (dec_fuel r) r t'.
Proof.
  revert n t. induction fuel as [|f IH]; intros n t Hn; cbn [ui64toa_loop2];
    destruct (Z.leb_spec 100 n) as [Hge|Hlt]; try (exists n, t; split; [done|]; split; [lia|done]).
  { change (100 ^ (1 + Z.of_nat 0)) with 100 in Hn. lia. }
  destruct (IH (n / 100) (copy_two_bytes (n mod 100) t)) as (r & t' & Heq & Hr & Hd).
  { replace (1 + Z.of_nat (S f)) with (Z.succ (1 + Z.of_nat f)) in Hn by lia.
    rewrite Z.pow_succ_r in Hn by lia.
    split; [apply Z.div_le_lower_bound; lia|apply Z.div_lt_upper_bound; lia]. }
  exists r, t'. split; [done|]. split; [done|]. by rewrite dec_digits_pair by lia.
Qed.

Lemma ui64toa_loop8_spec fuel n t :
  1 <= n < 100000000 ^ (1 + Z.of_nat fuel) -> exists r t',
    ui64toa_loop8 fuel n t = Some (r, t') /\ 1 <= r < 100000000 /\
    dec_digits (dec_fuel n) n t = dec_digits (dec_fuel r) r t'.
Proof.
  revert n t. induction fuel as [|f IH]; intros n t Hn; cbn [ui64toa_loop8];
    destruct (Z.leb_spec 100000000 n) as [Hge|Hlt]; try (exists n, t; split; [done|]; split; [lia|done]).
  { change (100000000 ^ (1 + Z.of_nat 0)) with 100000000 in Hn. lia. }
  rewrite !u32_small by dlia.
  edestruct (IH (n / 100000000)) as (r & t' & Heq & Hr & Hd).
  { replace (1 + Z.of_nat (S f)) with (Z.succ (1 + Z.of_nat f)) in Hn by lia.
    rewrite Z.pow_succ_r in Hn by lia.
    split; [apply Z.div_le_lower_bound; lia|apply Z.div_lt_upper_bound; lia]. }
  exists r, t'. split; [exact Heq|]. split; [done|]. rewrite <-Hd.
  do 4 rewrite dec_digits_pair by dlia.
  rewrite !Z.div_div by lia.
  replace (n mod 100000000 mod 100) with (n mod 100) by dlia.
  replace (n mod 100000000 / 100 mod 100) with (n / 100 mod 100) by dlia.
  replace (n mod 100000000 / (100 * 100) mod 100) with (n / (100 * 100) mod 100) by dlia.
  by replace (n mod 100000000 / (100 * (100 * 100)) mod 100)
    with (n / (100 * (100 * 100)) mod 100) by dlia.
Qed.

Lemma print_lu_two n :
  10 <= n < 100 -> print_lu n = copy_two_bytes n [].
Proof.
  intros Hn. unfold print_lu. fold (dec_fuel n).
  rewrite print_lu_step by lia. destruct (Z.ltb_spec n 10); [lia|].
  rewrite print_lu_step by dlia. destruct (Z.ltb_spec (n / 10) 10); [|dlia].
  rewrite copy_two_bytes_eq by lia.
  by replace ((n / 10) mod 10) with (n / 10) by dlia.
Qed.

Lemma print_lu_one n : 0 <= n < 10 -> print_lu n = ["0"%cc + n].
Proof.
  intros Hn. unfold print_lu. fold (dec_fuel n).
  rewrite print_lu_step by lia. destruct (Z.ltb_spec n 10); [|lia].
  by rewrite Z.mod_small by lia.
Qed.

Theorem ui64toa_print n : 0 <= n < 2 ^ 64 -> svn__ui64toa n = Some (print_lu n).
Proof.
  intros Hn. unfold svn__ui64toa.
  destruct (Z.ltb_spec n 100).
  { destruct (Z.ltb_spec n 10); [rewrite print_lu_one by lia|rewrite print_lu_two by lia];
      done. }
  destruct (ui64toa_loop8_spec 2 n []) as (r & t & Heq & Hr & Hd); [simpl; lia|].
  rewrite Heq. cbn [mbind option_bind]. rewrite u32_small by lia.
  destruct (ui64toa_loop2_spec 4 r t) as (r' & t' & Heq' & Hr' & Hd'); [simpl; lia|].
  rewrite Heq'. cbn [mbind option_bind]. f_equal. unfold print_lu. fold (dec_fuel n). rewrite Hd, Hd'.
  rewrite copy_two_bytes_eq, print_lu_step by lia.
  destruct (Z.ltb_spec r' 10); simpl.
  - by rewrite Z.mod_small by lia.
  - rewrite print_lu_step by dlia. destruct (Z.ltb_spec (r' / 10) 10); [|dlia].
    by rewrite (Z.mod_small (r' / 10)) by dlia.
Qed.

Theorem i64toa_print n : - 2 ^ 63 <= n < 2 ^ 63 -> svn__i64toa n = Some (print_ld n).
Proof.
  intros Hn. unfold svn__i64toa, print_ld.
  destruct (Z.leb_spec 0 n), (Z.ltb_spec n 0); try lia.
  { apply ui64toa_print. lia. }
  replace (u64 (0 - u64 n)) with (- n).
  { by rewrite ui64toa_print by lia. }
  unfold u64. rewrite Zminus_mod_idemp_r, Z.mod_small; lia.
Qed.

(** ** Grouping by thousands *)

Lemma ui64toa_sep_loop_spec f sep d t :
  (length d <= 3 * f)%nat -> exists g gs,
    ui64toa_sep_loop f (length d) sep (d ++ t) =
      g ++ concat (map (cons sep) gs) ++ t /\
    d = g ++ concat gs /\ Forall (fun h => length h = 3%nat) gs /\
    (length g <= 3)%nat /\ (d <> [] -> g <> []).
Proof.
  revert d t. induction f as [|f IH]; intros d t Hf; cbn [ui64toa_sep_loop].
  { exists d, []. rewrite app_nil_r. split_and!; done || lia. }
  destruct (Nat.ltb_spec 3 (length d)) as [Hlt|Hle].
  2:{ exists d, []. rewrite app_nil_r. split_and!; done || lia. }
  set (k := (length d - 3)%nat).
  rewrite take_app_le, drop_app_le by lia.
  destruct (IH (take k d) (sep :: drop k d ++ t)) as (g & gs & Heq & Hd & Hgs & Hg & Hne).
  { rewrite length_take. lia. }
  exists g, (gs ++ [drop k d]). split; [|split; [|split; [|split; [done|]]]].
  - rewrite length_take_le in Heq by lia.
    rewrite Heq, map_app, concat_app. simpl. by rewrite app_nil_r, <-app_assoc.
  - rewrite concat_app. simpl. rewrite app_nil_r, app_assoc, <-Hd. by rewrite take_drop.
  - apply Forall_app; split; [done|]. constructor; [|done]. rewrite length_drop. lia.
  - intros _. apply Hne. intros Hnil. apply (f_equal length) in Hnil.
    rewrite length_take in Hnil. simpl in Hnil. lia.
Qed.

Theorem ui64toa_sep_groups n sep :
  0 <= n < 2 ^ 64 -> exists g gs,
    ui64toa_sep n sep = Some (g ++ concat (map (cons sep) gs)) /\
    print_lu n = g ++ concat gs /\ Forall (fun h => length h = 3%nat) gs /\
    (1 <= length g <= 3)%nat.
Proof.
  intros Hn. unfold ui64toa_sep. rewrite ui64toa_print by done. cbn [mbind option_bind].
  destruct (ui64toa_sep_loop_spec (length (print_lu n)) sep (print_lu n) [])
    as (g & gs & Heq & Hd & Hgs & Hg & Hne); [lia|].
  rewrite !app_nil_r in Heq. exists g, gs. split; [by rewrite Heq|].
  split; [done|]. split; [done|]. split; [|done].
  destruct (print_lu_spec n) as (_ & _ & Hlen & _); [lia|].
  destruct g; [|simpl; lia]. exfalso. apply Hne; [|done].
  intros Hnil. rewrite Hnil in Hlen. simpl in Hlen. lia.
Qed.

(** ** Base 36 *)

Definition base36_char (c : Z) : Z := if c <=? 9 then c + "0"%cc else c - 10 + "a"%cc.

(** The value of digits, least significant first. *)
Fixpoint base36_value (ds : list Z) : Z :=
  match ds with [] => 0 | d :: ds => d + 36 * base36_value ds end.

Lemma base36_loop_spec fuel v acc :
  0 <= v < 36 ^ Z.of_nat fuel -> exists ds,
    base36_loop fuel v acc = map base36_char (reverse ds) ++ acc /\
    Forall (fun d => 0 <= d < 36) ds /\ base36_value ds = v /\
    (ds = [] \/ 36 ^ (Z.of_nat (length ds) - 1) <= v).
Proof.
  revert v acc. induction fuel as [|f IH]; intros v acc Hv; cbn [base36_loop].
  { exists []. simpl in *. split_and!; [done|constructor|simpl; lia|by left]. }
  destruct (Z.ltb_spec 0 v).
  2:{ exists []. simpl in *. split_and!; [done|constructor|simpl; lia|by left]. }
  rewrite Nat2Z.inj_succ, Z.pow_succ_r in Hv by lia.
  destruct (IH (v / 36) (base36_char (v mod 36) :: acc)) as (ds & Heq & Hds & Hval & Hm).
  { split; [apply Z.div_pos; lia|apply Z.div_lt_upper_bound; lia]. }
  exists (v mod 36 :: ds). split; [|split; [|split]].
  - fold (base36_char (v mod 36)). rewrite Heq.
    rewrite reverse_cons, map_app, <-app_assoc. done.
  - constructor; [apply Z.mod_pos_bound; lia|done].
  - simpl. rewrite Hval. dlia.
  - right. simpl. destruct Hm as [->|Hm]; [simpl; lia|].
    destruct ds as [|d ds']; [simpl; lia|].
    replace (Z.of_nat (S (length (d :: ds'))) - 1)
      with (Z.succ (Z.of_nat (length (d :: ds')) - 1)) by lia.
    rewrite Z.pow_succ_r by (simpl; lia). dlia.
Qed.

Definition is_base36 (c : Z) : bool :=
  is_digit c || (("a"%cc <=? c) && (c <=? "z"%cc)).

Lemma base36_digits_spec room ds rest :
  Forall (fun d => 0 <= d < 36) ds -> (length ds <= room)%nat ->
  is_base36 (deref rest) = false ->
  base36_digits room (map base36_char ds ++ rest) = (ds, rest).
Proof.
  intros Hds. revert room. induction Hds as [|d ds Hd Hds IH]; intros room Hr Hstop; simpl.
  - destruct room, rest as [|c rest]; try done. simpl.
    unfold is_base36, is_digit, deref in Hstop. simpl in Hstop. reflect_bools.
    destruct (Z.ltb_spec c 97), (Z.ltb_spec c 48), (Z.ltb_spec 57 c), (Z.ltb_spec 122 c);
      simpl; try done; lia.
  - destruct room as [|room]; simpl in *; [lia|]. rewrite IH by (done || lia).
    unfold base36_char. destruct (Z.leb_spec d 9).
    + destruct (Z.ltb_spec (d + 48) 97), (Z.ltb_spec (d + 48) 48), (Z.ltb_spec 57 (d + 48));
        try lia. simpl. f_equal. f_equal. lia.
    + destruct (Z.ltb_spec (d - 10 + 97) 97), (Z.ltb_spec 122 (d - 10 + 97)); try lia.
      simpl. f_equal. f_equal. lia.
Qed.

Lemma base36_fold_spec ds r f :
  r = u64 r -> base36_fold ds r f = u64 (r + f * base36_value ds).
Proof.
  revert r f. induction ds as [|d ds IH]; intros r f Hr; simpl.
  { rewrite Z.mul_0_r, Z.add_0_r. done. }
  rewrite IH by (unfold u64; by rewrite Z.mod_mod by lia). unfold u64.
  rewrite Zplus_mod_idemp_l, <-Zplus_mod_idemp_r, Zmult_mod_idemp_l, Zplus_mod_idemp_r.
  f_equal. lia.
Qed.

Theorem base36_roundtrip n rest :
  0 <= n < 2 ^ 64 -> is_base36 (deref rest) = false ->
  svn__base36toui64 (svn__ui64tobase36 n ++ rest) = (n, rest).
Proof.
  intros Hn Hstop.
  assert (Hds : exists ds, svn__ui64tobase36 n = map base36_char (reverse ds) /\
    Forall (fun d => 0 <= d < 36) ds /\ base36_value ds = n /\ (length ds <= 21)%nat).
  { unfold svn__ui64tobase36. destruct (Z.ltb_spec n 10).
    - exists [n]. split; [|split; [|split]].
      + unfold base36_char. simpl. by destruct (Z.leb_spec n 9); [|lia].
      + constructor; [lia|constructor].
      + simpl. lia.
      + simpl. lia.
    - destruct (base36_loop_spec 64 n []) as (ds & Heq & Hds & Hv & Hm).
      { split; [lia|]. eapply Z.lt_trans; [apply Hn|]. by vm_compute. }
      exists ds. rewrite Heq, app_nil_r. split; [done|]. split; [done|]. split; [done|].
      destruct Hm as [->|Hm]; [simpl; lia|].
      assert (36 ^ (Z.of_nat (length ds) - 1) < 36 ^ 14) as Hlt.
      { assert (2 ^ 64 < 36 ^ 14) by (by vm_compute). lia. }
      apply Z.pow_lt_mono_r_iff in Hlt; lia. }
  destruct Hds as (ds & -> & Hds & Hv & Hlen). unfold svn__base36toui64.
  rewrite base36_digits_spec.
  - rewrite reverse_involutive, base36_fold_spec by done.
    f_equal. rewrite Hv. rewrite Z.add_0_l, Z.mul_1_l. by apply u64_small.
  - by apply Forall_reverse.
  - by rewrite length_reverse.
  - done.
Qed.

(** ** [svn_revnum_parse] *)

Lemma strtoul_loop_inv str r n rest :
  Forall (fun c => 0 <= c < 256) str ->
  strtoul_loop str r = (n, rest) -> exists ds,
    str = ds ++ rest /\ Forall (fun c => is_digit c = true) ds /\
    is_digit (deref rest) = false /\
    (0 <= r -> dec_value r ds < 2 ^ 64 -> n = dec_value r ds).
Proof.
  intros Hb. revert r. induction Hb as [|c str Hc Hb IH]; intros r Heq; simpl in Heq.
  { simplify_eq. exists []. repeat split; constructor. }
  assert (Hu : u64 (c - 48) <= 9 <-> is_digit c = true).
  { unfold u64, is_digit. rewrite andb_true_iff, !Z.leb_le. change "0"%cc with 48.
    destruct (Z.lt_ge_cases c 48).
    - rewrite <-(Z_mod_plus_full (c - 48) 1), Z.mod_small; lia.
    - rewrite Z.mod_small; lia. }
  destruct (Z.ltb_spec 9 (u64 (c - 48))) as [Hlt|Hle].
  { simplify_eq. exists []. split; [done|]. split; [constructor|]. split; [|done].
    simpl. apply not_true_iff_false. rewrite <-Hu. lia. }
  apply Hu in Hle. assert (Hcd := Hle). unfold is_digit in Hcd. reflect_bools.
  destruct (IH _ Heq) as (ds & -> & Hds & Hstop & Hn).
  exists (c :: ds). split; [done|]. split; [by constructor|]. split; [done|].
  intros Hr Hv. simpl in Hv. unfold dec_value in Hv. simpl in Hv.
  fold (dec_value (r * 10 + (c - 48)) ds) in Hv.
  assert (r * 10 + (c - 48) <= dec_value (r * 10 + (c - 48)) ds)
    by (apply dec_value_mono; [lia|done]).
  rewrite (u64_small (c - 48)) in Hn by lia. rewrite u64_small in Hn by lia.
  apply Hn; lia.
Qed.

Lemma dec_value_lt r ds k :
  0 <= r < 10 ^ k -> 0 <= k -> Forall (fun c => is_digit c = true) ds ->
  0 <= dec_value r ds < 10 ^ (k + Z.of_nat (length ds)).
Proof.
  intros Hr Hk Hds. revert r k Hr Hk. induction Hds as [|c ds Hc Hds IH]; intros r k Hr Hk.
  { simpl. by rewrite Z.add_0_r. }
  unfold is_digit in Hc. reflect_bools. unfold dec_value in *. simpl.
  replace (k + Z.of_nat (S (length ds))) with (Z.succ k + Z.of_nat (length ds)) by lia.
  apply IH; [|lia]. rewrite Z.pow_succ_r by lia. lia.
Qed.

Lemma dec_value_lead es r :
  dec_value r es = r * 10 ^ Z.of_nat (length es) + dec_value 0 es.
Proof.
  revert r. induction es as [|e es IH]; intros r; [unfold dec_value; simpl; lia|].
  change (dec_value r (e :: es)) with (dec_value (r * 10 + (e - "0"%cc)) es).
  change (dec_value 0 (e :: es)) with (dec_value (0 * 10 + (e - "0"%cc)) es).
  rewrite IH, (IH (0 * 10 + _)). cbn [length]. rewrite Nat2Z.inj_succ, Z.pow_succ_r by lia.
  ring.
Qed.

(** Whatever the input, a parsed revision fits a signed 32-bit integer and is
    the value of the digits consumed. *)
Lemma revnum_parse_inv str n rest :
  Forall (fun c => 0 <= c < 256) str -> svn_revnum_parse str = Ok (n, rest) ->
  0 <= n <= APR_INT32_MAX /\ is_digit (deref rest) = false /\ exists ds,
    str = ds ++ rest /\ Forall (fun c => is_digit c = true) ds /\
    ds <> [] /\ n = dec_value 0 ds.
Proof.
  intros Hb. unfold svn_revnum_parse, svn__strtoul.
  destruct (strtoul_loop str 0) as [m end_] eqn:Heq.
  destruct (strtoul_loop_inv _ _ _ _ Hb Heq) as (ds & -> & Hds & Hstop & Hm).
  rewrite length_app. replace (length ds + length end_ - length end_)%nat with (length ds) by lia.
  destruct (Nat.eqb_spec (length ds) 0); [done|].
  assert (Hsmall : (length ds <= 10)%nat -> m = dec_value 0 ds /\ 0 <= m < 10 ^ Z.of_nat (length ds)).
  { intros Hlen. destruct (dec_value_lt 0 ds 0) as [H0 H1]; [lia|lia|done|].
    rewrite Z.add_0_l in H1.
    assert (10 ^ Z.of_nat (length ds) <= 10 ^ 10) by (apply Z.pow_le_mono_r; lia).
    rewrite Hm by lia. lia. }
  assert (Hne : ds <> []) by (by intros ->).
  assert (Hgoal : (0 <= m <= APR_INT32_MAX) -> (length ds <= 10)%nat ->
    Ok (m, end_) = Ok (n, rest) ->
    0 <= n <= APR_INT32_MAX /\ is_digit (deref rest) = false /\ exists ds0,
      ds ++ end_ = ds0 ++ rest /\ Forall (fun c => is_digit c = true) ds0 /\
      ds0 <> [] /\ n = dec_value 0 ds0).
  { intros ???. simplify_eq. split; [done|]. split; [done|]. exists ds.
    repeat split; try done. by apply Hsmall. }
  destruct (Nat.leb_spec 10 (length ds)); [destruct (Nat.ltb_spec 10 (length ds)); [done|]|].
  - destruct Hsmall as [Hv Hb']; [lia|].
    destruct (("2"%cc <? deref (ds ++ end_)) || (APR_INT32_MAX <? u32 m)) eqn:E; [done|].
    reflect_bools. apply Hgoal; [|lia].
    assert (m < 2 ^ 32); [|by rewrite u32_small in * by lia; lia].
    destruct Hds as [|c ds Hc Hds]; [done|]. simpl in *. unfold is_digit in Hc. reflect_bools.
    subst m. unfold dec_value. simpl.
    destruct (dec_value_lt 0 ds 0) as [? Hd]; [lia|lia|done|].
    fold (dec_value (c - 48) ds). rewrite dec_value_lead.
    replace (length ds) with 9%nat in * by lia. change (Z.of_nat 9) with 9 in *.
    change (0 + 9) with 9 in Hd. unfold deref in *. simpl in *. nia.
  - destruct Hsmall as [Hv Hb']; [lia|]. apply Hgoal; [|lia].
    assert (10 ^ Z.of_nat (length ds) <= 10 ^ 9) by (apply Z.pow_le_mono_r; lia).
    unfold APR_INT32_MAX. lia.
Qed.

Lemma revnum_parse_print n rest :
  0 <= n <= APR_INT32_MAX -> is_digit (deref rest) = false ->
  Forall (fun c => 0 <= c < 256) rest ->
  svn_revnum_parse (print_lu n ++ rest) = Ok (n, rest).
Proof.
  intros Hn Hd Hb. unfold APR_INT32_MAX in Hn. unfold svn_revnum_parse.
  rewrite svn__strtoul_print by (done || lia).
  destruct (print_lu_spec n) as (Hds & Hv & Hpos & Hm); [lia|].
  pose proof (print_lu_length n 10) as Hlen.
  rewrite length_app. replace (length (print_lu n) + length rest - length rest)%nat
    with (length (print_lu n)) by lia.
  destruct (Nat.eqb_spec (length (print_lu n)) 0); [lia|].
  destruct (Nat.leb_spec 10 (length (print_lu n))); [|done].
  destruct (Nat.ltb_spec 10 (length (print_lu n))); [lia|].
  rewrite u32_small by lia. unfold APR_INT32_MAX.
  destruct (Z.ltb_spec (2 ^ 31 - 1) n); [lia|]. rewrite orb_false_r.
  destruct (Z.ltb_spec "2"%cc (deref (print_lu n ++ rest))) as [Hbig|]; [exfalso|done].
  destruct (print_lu n) as [|c ds] eqn:Hp; [simpl in *; lia|].
  unfold deref in Hbig. simpl in *. inversion Hds; subst.
  unfold dec_value in Hn, Hm. simpl in Hn, Hm.
  assert (0 <= dec_value 0 ds) by (apply dec_value_mono; [lia|done]).
  fold (dec_value (c - 48) ds) in Hn. rewrite dec_value_lead in Hn.
  replace (length ds) with 9%nat in Hn by lia. change (Z.of_nat 9) with 9 in Hn.
  nia.
Qed.
