(* ===== verification/Strings.v ===== *)
(** * C strings (libsvn_subr/string.c)

    Splitting and joining, comparing without regard to case, reading numbers,
    and the similarity of two strings by the length of their longest common
    subsequence.  A C string is the list of its characters. *)

From S2P Require Import Prelude Buffers Ctype StringBuf CString.

(** ** Tokens *)

(** What a loop skips while a test holds for the character that it is at, up
    to the end of the string, and what is left. *)
Fixpoint span (test : Z -> bool) (p : bytes) : bytes * bytes :=
  match p with
  | [] => ([], [])
  | c :: p' => if test c then let '(skipped, rest) := span test p' in (c :: skipped, rest) else ([], p)
  end.

(** [strchr (sep, c)] for a character that is not NUL. *)
Definition strchr_in (sep : bytes) (c : Z) : bool := bool_decide (c ∈ sep).

(** The token, if there is one, and the new value of what [last] points
    to; the separator
    that ends the token is overwritten and skipped. *)
Definition apr_strtok (sep last : bytes) : option bytes * bytes :=
  match (span (strchr_in sep) last).2 with
  | [] => (None, last)
  | c :: p =>
      let '(token, rest) := span (fun d => negb (strchr_in sep d)) p in
      (Some (c :: token), drop 1 rest)
  end.

Definition svn_cstring_tokenize (sep str : bytes) : option bytes * bytes :=
  match sep with
  | [csep] =>
      let token := (span (fun c => c =? csep) str).2 in
      match token with
      | [] => (None, str)
      | _ =>
          let '(token, next) := span (fun c => negb (c =? csep)) token in
          (Some token, drop 1 next)
      end
  | _ => apr_strtok sep str
  end.

(** Removing white space from both ends of a token; the loop at the end does
    not go beyond the start. *)
Definition chop (p : bytes) : bytes :=
  let p := (span svn_ctype_isspace p).2 in
  reverse (span svn_ctype_isspace (reverse p)).2.

Fixpoint split_loop (fuel : nat) (array : list bytes) (pats sep_chars : bytes)
    (chop_whitespace : bool) : result (list bytes) :=
  match svn_cstring_tokenize sep_chars pats with
  | (None, _) => Ok array
  | (Some p, pats) =>
      match fuel with
      | O => Err OUT_OF_FUEL
      | S f =>
          let p := if chop_whitespace then chop p else p in
          let array := if bool_decide (p = []) then array else array ++ [p] in
          split_loop f array pats sep_chars chop_whitespace
      end
  end.

Definition svn_cstring_split_append (array : list bytes) (input sep_chars : bytes)
    (chop_whitespace : bool) : result (list bytes) :=
  split_loop (length input) array input sep_chars chop_whitespace.

Definition svn_cstring_split (input sep_chars : bytes) (chop_whitespace : bool)
    : result (list bytes) :=
  svn_cstring_split_append [] input sep_chars chop_whitespace.

Definition svn_cstring_match_list (str : bytes) (list_ : list bytes) : bool :=
  existsb (fun this_str => bool_decide (this_str = str)) list_.

Definition LF : Z := 10.
Definition CR : Z := 13.

Fixpoint svn_cstring_count_newlines (msg : bytes) : Z :=
  match msg with
  | [] => 0
  | c :: p =>
      if c =? LF then
        1 + match p with
            | d :: q => if d =? CR then svn_cstring_count_newlines q else svn_cstring_count_newlines p
            | [] => 0
            end
      else if c =? CR then
        1 + match p with
            | d :: q => if d =? LF then svn_cstring_count_newlines q else svn_cstring_count_newlines p
            | [] => 0
            end
      else svn_cstring_count_newlines p
  end.

(** The offset of [prefix] in [str] is its length. *)
Definition svn_cstring_skip_prefix (str prefix : bytes) : option bytes :=
  if starts_with str prefix then Some (drop (length prefix) str) else None.

(** ** Joining *)

Section Join.
Context `{Allocator}.

(** [i] tells whether an element has been added before. *)
Fixpoint join_loop (i : bool) (new_str : svn_stringbuf_t) (strings : list bytes) (separator : bytes)
    : result svn_stringbuf_t :=
  match strings with
  | [] => Ok new_str
  | string :: strings =>
      new_str ← (if i then svn_stringbuf_appendbytes new_str (Outside separator) (zlen separator)
                 else Ok new_str);
      new_str ← svn_stringbuf_appendbytes new_str (Outside string) (zlen string);
      join_loop true new_str strings separator
  end.

(** The buffer whose data are returned. *)
Definition svn_cstring_join2 (strings : list bytes) (separator : bytes) (trailing_separator : bool)
    : result svn_stringbuf_t :=
  new_str ← svn_stringbuf_create_empty;
  new_str ← join_loop false new_str strings separator;
  if negb (bool_decide (strings = [])) && trailing_separator
  then svn_stringbuf_appendbytes new_str (Outside separator) (zlen separator)
  else Ok new_str.
End Join.

(** ** Comparing without regard to case *)

Fixpoint svn_cstring_casecmp (str1 str2 : bytes) {struct str1} : Z :=
  let a := deref str1 in
  let b := deref str2 in
  let cmp := svn_ctype_casecmp a b in
  if negb (cmp =? 0) || (a =? 0) || (b =? 0) then cmp
  else match str1 with
       | _ :: str1' => svn_cstring_casecmp str1' (tail str2)
       | [] => cmp
       end.

(** ** Reading numbers *)

(** The value of a character as a digit. *)
Definition digit_value (c : Z) : Z :=
  if (48 <=? c) && (c <=? 57) then c - 48
  else if (65 <=? c) && (c <=? 90) then c - 65 + 10
  else if (97 <=? c) && (c <=? 122) then c - 97 + 10
  else 36.

(** The digits of a base: their value, which is not bounded here, and what
    follows them. *)
Fixpoint strtol_digits (s : bytes) (base acc : Z) : Z * bytes :=
  match s with
  | c :: s' => if digit_value c <? base then strtol_digits s' base (acc * base + digit_value c)
               else (acc, s)
  | [] => (acc, s)
  end.

Definition INT64_MAX : Z := 2 ^ 63 - 1.
Definition INT64_MIN : Z := - 2 ^ 63.

(** The sign of [s] and what follows it. *)
Definition strtol_sign (s : bytes) : bool * bytes :=
  match s with
  | c :: s' => if c =? "-"%cc then (true, s') else if c =? "+"%cc then (false, s') else (false, s)
  | [] => (false, s)
  end.

(** The base that a prefix selects and what follows the prefix: [0x] in front
    of a hexadecimal digit for bases 16 and 0, a leading 0 for base 0. *)
Definition strtol_base (s : bytes) (base : Z) : Z * bytes :=
  match s with
  | z :: x :: d :: _ =>
      if ((base =? 0) || (base =? 16)) && (z =? "0"%cc) && ((x =? "x"%cc) || (x =? "X"%cc))
         && (digit_value d <? 16)
      then (16, drop 2 s)
      else if base =? 0 then (if z =? "0"%cc then 8 else 10, s) else (base, s)
  | _ => if base =? 0 then (if deref s =? "0"%cc then 8 else 10, s) else (base, s)
  end.

(** [strtol] of the C library, which [apr_strtoi64] stands for, with a valid
    base: the number, what [endptr] points at, and whether [errno] is
    [ERANGE].  Without digits, [endptr] is the string. *)
Definition apr_strtoi64 (str : bytes) (base : Z) : Z * bytes * bool :=
  let '(neg, s) := strtol_sign (span isspace str).2 in
  let '(base, s) := strtol_base s base in
  let '(v, rest) := strtol_digits s base 0 in
  if (length rest =? length s)%nat then (0, str, false)
  else
    let v := if neg : bool then - v else v in
    if INT64_MAX <? v then (INT64_MAX, rest, true)
    else if v <? INT64_MIN then (INT64_MIN, rest, true)
    else (v, rest, false).

(** The test that the conversion failed. *)
Definition not_converted (str endptr : bytes) : bool :=
  (length endptr =? length str)%nat || bool_decide (str = []) || negb (bool_decide (endptr = [])).

Definition svn_cstring_strtoi64 (str : bytes) (minval maxval base : Z) : result Z :=
  let '(val, endptr, erange) := apr_strtoi64 str base in
  if not_converted str endptr then Err SVN_ERR_INCORRECT_PARAMS
  else if (erange && ((val =? INT64_MIN) || (val =? INT64_MAX))) || (val <? minval) || (maxval <? val)
  then Err SVN_ERR_INCORRECT_PARAMS
  else Ok val.

Definition svn_cstring_atoi64 (str : bytes) : result Z :=
  svn_cstring_strtoi64 str INT64_MIN INT64_MAX 10.

Definition svn_cstring_atoi (str : bytes) : result Z :=
  val ← svn_cstring_strtoi64 str (- 2 ^ 31) (2 ^ 31 - 1) 10; Ok (s32 val).

Definition svn_cstring_strtoui64 (str : bytes) (minval maxval base : Z) : result Z :=
  let '(val, endptr, erange) := apr_strtoi64 str base in
  if not_converted str endptr then Err SVN_ERR_INCORRECT_PARAMS
  else if (erange && ((val =? INT64_MIN) || (val =? INT64_MAX))) || (val <? 0)
          || (u64 val <? minval) || (maxval <? u64 val)
  then Err SVN_ERR_INCORRECT_PARAMS
  else Ok (u64 val).

Definition svn_cstring_atoui64 (str : bytes) : result Z :=
  svn_cstring_strtoui64 str 0 (2 ^ 64 - 1) 10.

Definition svn_cstring_atoui (str : bytes) : result Z :=
  val ← svn_cstring_strtoui64 str 0 (2 ^ 32 - 1) 10; Ok (u32 val).

(** ** Similarity *)

Definition SVN_STRING__SIM_RANGE_MAX : Z := 1000000.

(** The common prefix is skipped. *)
Fixpoint skip_common (stra strb : bytes) (lcs : Z) : bytes * bytes * Z :=
  match stra, strb with
  | a :: stra', b :: strb' => if a =? b then skip_common stra' strb' (lcs + 1) else (stra, strb, lcs)
  | _, _ => (stra, strb, lcs)
  end.

(** Reading a column of the matrix. *)
Definition word_at (column : list Z) (i : nat) : result Z :=
  match column !! i with Some v => Ok v | None => Err C_UNDEFINED end.

(** The inner loop: [n] entries of the current column from [i] on are
    computed. *)
Fixpoint column_loop (n i : nat) (c : Z) (strb : bytes) (curr prev : list Z) : result (list Z) :=
  match n with
  | O => Ok curr
  | S n =>
      b ← word_at strb (i - 1);
      v ← (if c =? b then v ← word_at prev (i - 1); Ok (v + 1)
           else
             x ← word_at curr (i - 1);
             y ← word_at prev i;
             Ok (if y <? x then x else y));
      column_loop n (S i) c strb (<[i := v]> curr) prev
  end.

(** The outer loop, which swaps the columns: the last one that was computed. *)
Fixpoint matrix_loop (stra strb : bytes) (slots : nat) (curr prev : list Z) : result (list Z) :=
  match stra with
  | [] => Ok prev
  | c :: stra =>
      curr ← column_loop slots 1 c strb curr prev;
      matrix_loop stra strb slots prev curr
  end.

(** What the matrix adds to the length; [buffer] gives the words of the
    buffer when it has the given size, of which the first are set to zero. *)
Definition matrix_lcs (buffer : nat -> list Z) (stra strb : bytes) : result Z :=
  let resta := length stra in
  let restb := length strb in
  let slots := if (restb <? resta)%nat then restb else resta in
  let '(stra, strb) := if (resta <? restb)%nat then (strb, stra) else (stra, strb) in
  let words := replicate (slots + 2) 0 ++ drop (slots + 2) (buffer (2 * (slots + 1)))%nat in
  let prev := take (slots + 1) words in
  let curr := drop (slots + 1) words in
  prev ← matrix_loop stra strb slots curr prev;
  word_at prev slots.

(** The ratio and the length of the longest common subsequence. *)
Definition svn_string__similarity (buffer : nat -> list Z) (stringa stringb : bytes)
    : result (Z * Z) :=
  let total := u64 (zlen stringa + zlen stringb) in
  let '(stra, strb, lcs) := skip_common stringa stringb 0 in
  let '(reva, revb, lcs) := skip_common (reverse stra) (reverse strb) lcs in
  let '(stra, strb) := (reverse reva, reverse revb) in
  rest ← (if bool_decide (stra = []) || bool_decide (strb = []) then Ok 0
          else matrix_lcs buffer stra strb);
  let lcs := lcs + rest in
  Ok (if negb (total =? 0) then u64 (2 * SVN_STRING__SIM_RANGE_MAX * lcs + total / 2) / total
      else SVN_STRING__SIM_RANGE_MAX, lcs).

Definition svn_cstring__similarity (buffer : nat -> list Z) (stra strb : bytes) : result (Z * Z) :=
  svn_string__similarity buffer stra strb.
