(* ===== verification/Subsequence.v ===== *)
(** * Longest common subsequences

    What a longest common subsequence of two lists is, and how its length
    changes when the lists grow at an end. *)

From stdpp Require Import list.
From S2P Require Import Prelude.

(** Some common subsequence has the length [n], and none is longer. *)
Definition is_lcs {A} (a b : list A) (n : nat) : Prop :=
  (exists c, sublist c a /\ sublist c b /\ length c = n) /\
  forall c, sublist c a -> sublist c b -> (length c <= n)%nat.

Section Lcs.
Context {A : Type}.
Implicit Types a b c p : list A.

Lemma is_lcs_unique a b n m : is_lcs a b n -> is_lcs a b m -> n = m.
Proof.
  intros [(c & Ha & Hb & Hc) H1] [(d & Hda & Hdb & Hd) H2].
  specialize (H1 d Hda Hdb). specialize (H2 c Ha Hb). lia.
Qed.

Lemma is_lcs_sym a b n : is_lcs a b n -> is_lcs b a n.
Proof. intros [(c & ? & ? & ?) Hmax]. split; eauto. Qed.

Lemma is_lcs_nil a : is_lcs a [] 0.
Proof.
  split.
  - exists []. split_and!; [apply sublist_nil_l|done..].
  - intros c _ ->%sublist_nil_r. done.
Qed.

Lemma sublist_cons_inv x c a :
  sublist c (x :: a) -> sublist c a \/ exists d, c = x :: d /\ sublist d a.
Proof. intros [|(d & -> & ?)]%sublist_cons_r; eauto. Qed.

Lemma is_lcs_cons x a b n : is_lcs a b n -> is_lcs (x :: a) (x :: b) (S n).
Proof.
  intros [(c & Ha & Hb & Hc) H]. split.
  - exists (x :: c). split_and!; [by apply sublist_skip..|by simpl; f_equal].
  - intros d Hda Hdb.
    apply sublist_cons_inv in Hda as [Hda|(d1 & -> & Hda)].
    + apply sublist_cons_inv in Hdb as [Hdb|(d2 & -> & Hdb)]; [specialize (H _ Hda Hdb); lia|].
      simpl. apply le_n_S, H; [|done]. etrans; [|done]. by apply sublist_cons.
    + apply sublist_cons_inv in Hdb as [Hdb|(d2 & E & Hdb)].
      * simpl. apply le_n_S, H; [done|]. etrans; [|done]. by apply sublist_cons.
      * injection E as ->. simpl. by apply le_n_S, H.
Qed.

(** When the first characters differ, one of them is of no use. *)
Lemma is_lcs_diff x y a b n m :
  x <> y -> is_lcs (x :: a) b n -> is_lcs a (y :: b) m -> is_lcs (x :: a) (y :: b) (n `max` m).
Proof.
  intros Hxy [(c & Ha & Hb & Hc) H1] [(d & Hda & Hdb & Hd) H2]. split.
  - destruct (Nat.max_spec n m) as [[_ ->]|[_ ->]].
    + exists d. split_and!; [by apply sublist_cons|done..].
    + exists c. split_and!; [done|by apply sublist_cons|done].
  - intros e Hea Heb.
    apply sublist_cons_inv in Heb as [Heb|(e1 & -> & Heb)]; [specialize (H1 _ Hea Heb); lia|].
    apply sublist_cons_inv in Hea as [Hea|(e2 & E & Hea)].
    + specialize (H2 (y :: e1) Hea (sublist_skip _ _ _ Heb)). lia.
    + congruence.
Qed.

Lemma is_lcs_reverse a b n : is_lcs a b n -> is_lcs (reverse a) (reverse b) n.
Proof.
  assert (forall c d : list A, sublist c d -> sublist (reverse c) (reverse d)) as Hrev.
  { induction 1 as [|x c d _ IH|x c d _ IH]; rewrite ?reverse_cons; [constructor|..].
    - by apply sublist_app.
    - by apply sublist_inserts_r. }
  intros [(c & Ha & Hb & Hc) H]. split.
  - exists (reverse c). rewrite length_reverse. auto.
  - intros d Hda%Hrev Hdb%Hrev. rewrite reverse_involutive in Hda, Hdb.
    rewrite <- length_reverse. auto.
Qed.

Lemma is_lcs_snoc x a b n : is_lcs a b n -> is_lcs (a ++ [x]) (b ++ [x]) (S n).
Proof.
  intros H%is_lcs_reverse%(is_lcs_cons x)%is_lcs_reverse.
  by rewrite !reverse_cons, !reverse_involutive in H.
Qed.

Lemma is_lcs_snoc_diff x y a b n m :
  x <> y -> is_lcs (a ++ [x]) b n -> is_lcs a (b ++ [y]) m ->
  is_lcs (a ++ [x]) (b ++ [y]) (n `max` m).
Proof.
  intros Hxy Hn%is_lcs_reverse Hm%is_lcs_reverse. rewrite reverse_snoc in *.
  pose proof (is_lcs_reverse _ _ _ (is_lcs_diff _ _ _ _ _ _ Hxy Hn Hm)) as H.
  by rewrite !reverse_cons, !reverse_involutive in H.
Qed.

(** What the strings have in common at an end is part of it. *)
Lemma is_lcs_prefix p a b n : is_lcs a b n -> is_lcs (p ++ a) (p ++ b) (length p + n).
Proof. intros H. induction p as [|x p IH]; [done|]. by apply is_lcs_cons. Qed.

Lemma is_lcs_suffix p a b n : is_lcs a b n -> is_lcs (a ++ p) (b ++ p) (length p + n).
Proof.
  intros H%is_lcs_reverse%(is_lcs_prefix (reverse p))%is_lcs_reverse.
  by rewrite !reverse_app, !reverse_involutive, length_reverse in H.
Qed.

Lemma is_lcs_bounds a b n : is_lcs a b n -> (n <= length a)%nat /\ (n <= length b)%nat.
Proof.
  intros [(c & Ha & Hb & <-) _]. split; by apply sublist_length.
Qed.

Lemma sublist_same_length c d : sublist c d -> (length d <= length c)%nat -> c = d.
Proof.
  induction 1 as [|x c d Hs IH|x c d Hs IH]; intros Hl; simpl in Hl; [done|f_equal; apply IH; lia|].
  apply sublist_length in Hs. lia.
Qed.

(** Only equal strings have nothing else. *)
Lemma is_lcs_full a b n : is_lcs a b n -> length a = n -> length b = n -> a = b.
Proof.
  intros [(c & Ha & Hb & Hc) _] Hla Hlb.
  apply sublist_same_length in Ha as <-; [|lia]. apply sublist_same_length in Hb; [done|lia].
Qed.

Lemma is_lcs_self a : is_lcs a a (length a).
Proof.
  pose proof (is_lcs_suffix a [] [] 0 (is_lcs_nil [])) as Hs. simpl in Hs.
  by rewrite Nat.add_0_r in Hs.
Qed.
End Lcs.

(** Renaming the elements. *)
Lemma sublist_fmap_inv {A B} (f : A -> B) c a :
  sublist c (f <$> a) -> exists c', c = f <$> c' /\ sublist c' a.
Proof.
  revert c. induction a as [|x a IH]; intros c H; cbn in H.
  - apply sublist_nil_r in H as ->. by exists [].
  - apply sublist_cons_inv in H as [H|(d & -> & H)]; destruct (IH _ H) as (c' & -> & Hs).
    + exists c'. split; [done|by apply sublist_cons].
    + exists (x :: c'). split; [done|by apply sublist_skip].
Qed.

Lemma sublist_fmap {A B} (f : A -> B) c a : sublist c a -> sublist (f <$> c) (f <$> a).
Proof. induction 1; cbn; [constructor|by apply sublist_skip|by apply sublist_cons]. Qed.

Lemma sublist_all_in {A} (c a : list A) : sublist c a -> Forall (fun t => t ∈ a) c.
Proof.
  induction 1 as [|x c a _ IH|x c a _ IH]; [constructor|constructor; [left|]|];
    (eapply Forall_impl; [exact IH|]; by right).
Qed.

Lemma is_lcs_fmap {A B} (f : A -> B) (a b : list A) n :
  (forall x y, x ∈ a -> y ∈ b -> f x = f y -> x = y) -> is_lcs a b n -> is_lcs (f <$> a) (f <$> b) n.
Proof.
  intros Hf [(c & Ha & Hb & Hc) Hmax]. split.
  - exists (f <$> c). split_and!; [by apply sublist_fmap..|by rewrite length_fmap].
  - intros d (d0 & -> & Hda)%sublist_fmap_inv (d1 & E & Hdb)%sublist_fmap_inv. rewrite length_fmap.
    apply Hmax; [done|]. replace d0 with d1; [done|].
    apply sublist_all_in in Hda as H0. apply sublist_all_in in Hdb as H1.
    clear -Hf E H0 H1. revert d1 E H1. induction d0 as [|x d0 IH]; intros [|y d1] E H1; [done|done|done|].
    cbn in E. injection E as Exy E. apply Forall_cons in H0 as [Hx H0]. apply Forall_cons in H1 as [Hy H1].
    f_equal; [symmetry; by apply Hf|by apply IH].
Qed.
