(* ===== verification/StringsFacts.v ===== *)
(** * C strings: similarity and small functions

    The two columns of [svn_string__similarity] hold the lengths of longest
    common subsequences; the other functions of [Strings] against plain
    definitions. *)

From stdpp Require Import list.
From S2P Require Import Prelude Subsequence Buffers StringBuf Strings Ctype StringBufFacts CString.

(** ** The columns *)

(** [col] has the lengths for [a] and every start of [b]. *)
Definition column_of (a b : bytes) (col : list Z) (upto : nat) : Prop :=
  forall i, (i <= upto)%nat -> exists n, col !! i = Some (Z.of_nat n) /\ is_lcs a (take i b) n.

Lemma column_of_zero b slots col :
  (forall i, (i <= slots)%nat -> col !! i = Some 0) -> column_of [] b col slots.
Proof. intros H0 i Hi. exists O. split; [by apply H0|]. apply is_lcs_sym, is_lcs_nil. Qed.

Lemma column_of_first a b col upto : column_of a b col upto -> col !! O = Some 0.
Proof.
  intros Hcol. destruct (Hcol O) as (n & -> & Hn); [lia|]. rewrite take_0 in Hn.
  by rewrite (is_lcs_unique _ _ _ _ Hn (is_lcs_nil a)).
Qed.

Lemma word_at_Ok col i v : col !! i = Some v -> word_at col i = Ok v.
Proof. unfold word_at. by intros ->. Qed.

(** The inner loop completes the column of a string that is longer by [c]. *)
Lemma column_loop_spec a b c prev n : forall i curr,
  (1 <= i)%nat -> (i + n = S (length b))%nat -> length curr = S (length b) ->
  column_of a b prev (length b) -> column_of (a ++ [c]) b curr (i - 1) ->
  exists curr', column_loop n i c b curr prev = Ok curr' /\
    length curr' = S (length b) /\ column_of (a ++ [c]) b curr' (length b).
Proof.
  induction n as [|n IH]; intros i curr Hi Hn Hl Hprev Hcurr; cbn [column_loop].
  { exists curr. replace (length b) with (i - 1)%nat by lia. split_and!; [done|lia|done]. }
  destruct (lookup_lt_is_Some_2 b (i - 1)) as [y Hy]; [lia|].
  rewrite (word_at_Ok b _ y) by done. cbn [mbind result_bind].
  assert (take i b = take (i - 1) b ++ [y]) as Et.
  { replace i with (S (i - 1)) at 1 by lia. by apply take_S_r. }
  destruct (Hprev (i - 1)%nat) as (u & Eu & Hu); [lia|].
  destruct (Hprev i) as (v & Ev & Hv); [lia|]. rewrite Et in Hv.
  destruct (Hcurr (i - 1)%nat) as (w & Ew & Hw); [lia|].
  assert (exists m, is_lcs (a ++ [c]) (take i b) m /\
    (if c =? y then v ← word_at prev (i - 1); Ok (v + 1)
     else x ← word_at curr (i - 1); y ← word_at prev i; Ok (if y <? x then x else y))
    = Ok (Z.of_nat m)) as (m & Hm & ->).
  { rewrite (word_at_Ok prev _ _ Eu), (word_at_Ok prev _ _ Ev), (word_at_Ok curr _ _ Ew), Et.
    cbn [mbind result_bind]. destruct (Z.eqb_spec c y) as [->|Hne].
    - exists (S u). split; [by apply is_lcs_snoc|]. f_equal. lia.
    - exists (w `max` v)%nat. split; [by apply is_lcs_snoc_diff|]. f_equal.
      destruct (Z.ltb_spec (Z.of_nat v) (Z.of_nat w)); lia. }
  cbn [mbind result_bind]. apply IH; [lia|lia|by rewrite length_insert|done|].
  intros j Hj. destruct (decide (j = i)) as [->|Hji].
  - exists m. split; [apply list_lookup_insert_eq; lia|done].
  - destruct (Hcurr j) as (k & Ek & Hk); [lia|]. exists k.
    by rewrite list_lookup_insert_ne by done.
Qed.

(** The outer loop. *)
Lemma matrix_loop_spec b : forall t a curr prev,
  length curr = S (length b) -> length prev = S (length b) -> curr !! O = Some 0 ->
  column_of a b prev (length b) ->
  exists col, matrix_loop t b (length b) curr prev = Ok col /\ column_of (a ++ t) b col (length b).
Proof.
  induction t as [|c t IH]; intros a curr prev Hlc Hlp H0 Hprev; cbn [matrix_loop].
  { exists prev. by rewrite app_nil_r. }
  destruct (column_loop_spec a b c prev (length b) 1 curr) as (curr' & -> & Hl & Hcol);
    [lia|lia|done|done| |].
  { intros i Hi. replace i with O by lia. exists O. split; [done|]. rewrite take_0. apply is_lcs_nil. }
  cbn [mbind result_bind].
  destruct (IH (a ++ [c]) prev curr') as (col & -> & Hc); [done|done|by eapply column_of_first|done|].
  exists col. by rewrite <- app_assoc in Hc.
Qed.

(** The words of the buffer are enough. *)
Lemma matrix_lcs_longer buffer a b :
  (forall n, length (buffer n) = n) ->
  let words := replicate (length b + 2) 0 ++ drop (length b + 2) (buffer (2 * (length b + 1)))%nat in
  exists col, matrix_loop a b (length b) (drop (length b + 1) words) (take (length b + 1) words) = Ok col /\
    column_of a b col (length b).
Proof.
  intros Hbuf words.
  assert (length words = 2 * (length b + 1))%nat as Hw.
  { unfold words. rewrite length_app, length_replicate, length_drop, Hbuf. lia. }
  assert (forall i, (i < length b + 2)%nat -> words !! i = Some 0) as H0.
  { intros i Hi. unfold words. rewrite lookup_app_l by (rewrite length_replicate; lia).
    by apply lookup_replicate_2. }
  apply (matrix_loop_spec b a []).
  - rewrite length_drop. lia.
  - rewrite length_take. lia.
  - rewrite lookup_drop. apply H0. lia.
  - apply column_of_zero. intros i Hi. rewrite lookup_take_lt by lia. apply H0. lia.
Qed.

Lemma matrix_lcs_spec buffer a b :
  (forall n, length (buffer n) = n) ->
  exists n, matrix_lcs buffer a b = Ok (Z.of_nat n) /\ is_lcs a b n.
Proof.
  intros Hbuf. unfold matrix_lcs.
  assert (forall a' b', exists n,
    (let words := replicate (length b' + 2) 0 ++ drop (length b' + 2) (buffer (2 * (length b' + 1)))%nat in
     prev ← matrix_loop a' b' (length b') (drop (length b' + 1) words) (take (length b' + 1) words);
     word_at prev (length b')) = Ok (Z.of_nat n) /\ is_lcs a' b' n) as Hrun.
  { intros a' b'. destruct (matrix_lcs_longer buffer a' b' Hbuf) as (col & E & Hcol).
    cbv zeta. rewrite E. cbn [mbind result_bind].
    destruct (Hcol (length b')) as (n & Hn & Hlcs); [lia|]. rewrite firstn_all in Hlcs.
    exists n. by rewrite (word_at_Ok _ _ _ Hn). }
  destruct (Nat.ltb_spec (length a) (length b)).
  - rewrite (proj2 (Nat.ltb_ge _ _)) by lia.
    destruct (Hrun b a) as (n & E & Hn). exists n. split; [exact E|by apply is_lcs_sym].
  - destruct (Nat.ltb_spec (length b) (length a)).
    + apply (Hrun a b).
    + replace (length a) with (length b) by lia. apply (Hrun a b).
Qed.

(** ** The whole computation *)

Lemma skip_common_spec a : forall b l a' b' l', skip_common a b l = (a', b', l') ->
  exists p, a = p ++ a' /\ b = p ++ b' /\ l' = l + zlen p.
Proof.
  induction a as [|x a IH]; intros b l a' b' l'; simpl.
  { intros [= <- <- <-]. exists []. by rewrite zlen_nil, Z.add_0_r. }
  destruct b as [|y b].
  { intros [= <- <- <-]. exists []. by rewrite zlen_nil, Z.add_0_r. }
  destruct (Z.eqb_spec x y) as [->|_].
  - intros (p & -> & -> & ->)%IH. exists (y :: p). rewrite zlen_cons. split_and!; [done..|lia].
  - intros [= <- <- <-]. exists []. by rewrite zlen_nil, Z.add_0_r.
Qed.

(** The rest that the matrix is computed for. *)
Lemma rest_spec buffer a b :
  (forall n, length (buffer n) = n) ->
  exists n, (if bool_decide (a = []) || bool_decide (b = []) then Ok 0 else matrix_lcs buffer a b)
      = Ok (Z.of_nat n) /\ is_lcs a b n.
Proof.
  intros Hbuf. case_bool_decide as Ha; [|case_bool_decide as Hb]; simpl.
  - exists O. subst. split; [done|]. apply is_lcs_sym, is_lcs_nil.
  - exists O. subst. split; [done|]. apply is_lcs_nil.
  - by apply matrix_lcs_spec.
Qed.

Lemma similarity_lcs_spec buffer a b :
  (forall n, length (buffer n) = n) ->
  exists n r, svn_string__similarity buffer a b = Ok (r, Z.of_nat n) /\ is_lcs a b n /\
    r = let total := u64 (zlen a + zlen b) in
        if negb (total =? 0)
        then u64 (2 * SVN_STRING__SIM_RANGE_MAX * Z.of_nat n + total / 2) / total
        else SVN_STRING__SIM_RANGE_MAX.
Proof.
  intros Hbuf. unfold svn_string__similarity.
  destruct (skip_common a b 0) as [[a1 b1] l1] eqn:E1.
  destruct (skip_common (reverse a1) (reverse b1) l1) as [[a2 b2] l2] eqn:E2.
  apply skip_common_spec in E1 as (p & -> & -> & ->).
  apply skip_common_spec in E2 as (q & Ea & Eb & ->).
  apply (f_equal reverse) in Ea, Eb. rewrite reverse_involutive, reverse_app in Ea, Eb. subst a1 b1.
  destruct (rest_spec buffer (reverse a2) (reverse b2) Hbuf) as (n & -> & Hn).
  cbn [mbind result_bind]. cbv zeta.
  exists (length p + (length (reverse q) + n))%nat. eexists.
  replace (0 + zlen p + zlen q + Z.of_nat n) with (Z.of_nat (length p + (length (reverse q) + n)))
    by (rewrite length_reverse; zlen_lia).
  split_and!; [reflexivity| |reflexivity].
  by apply is_lcs_prefix, is_lcs_suffix.
Qed.

(** The ratio is at most the maximum, and lies at the ends of its range
    exactly for strings without a common character and for equal strings, if
    they are not so long that it is rounded. *)
Lemma ratio_range total n :
  0 < total -> 0 <= 2 * n <= total ->
  0 <= (2 * SVN_STRING__SIM_RANGE_MAX * n + total / 2) / total <= SVN_STRING__SIM_RANGE_MAX.
Proof.
  unfold SVN_STRING__SIM_RANGE_MAX. intros Ht Hn. split; [apply Z.div_pos; dlia|].
  apply Z.lt_succ_r, Z.div_lt_upper_bound; [done|]. dlia.
Qed.

Lemma ratio_max total n :
  0 < total < 2 * SVN_STRING__SIM_RANGE_MAX -> 0 <= 2 * n <= total ->
  (2 * SVN_STRING__SIM_RANGE_MAX * n + total / 2) / total = SVN_STRING__SIM_RANGE_MAX -> 2 * n = total.
Proof.
  unfold SVN_STRING__SIM_RANGE_MAX. intros Ht Hn E.
  assert (1000000 * total <= 2 * 1000000 * n + total / 2) by (rewrite <- E at 1; dlia).
  dlia.
Qed.

(** * Splitting, joining, comparing and reading C strings

    The functions of [Strings] agree with declarative definitions: the pieces
    between separators, the strings with separators in between, the order of
    strings whose case is folded, and the grammar of decimal numbers. *)

(** ** Splitting *)

Lemma span_app test p : (span test p).1 ++ (span test p).2 = p.
Proof.
  induction p as [|c p IH]; simpl; [done|]. destruct (test c); [|done].
  destruct (span test p). simpl in *. by rewrite IH.
Qed.

Lemma span_length test p : (length (span test p).2 <= length p)%nat.
Proof. rewrite <- (span_app test p) at 2. rewrite length_app. lia. Qed.

(** Where the skipping ends. *)
Lemma span_spec test p skipped rest :
  span test p = (skipped, rest) ->
  p = skipped ++ rest /\ Forall (fun c => test c = true) skipped /\
  match rest with [] => True | c :: _ => test c = false end.
Proof.
  revert skipped rest. induction p as [|c p IH]; intros skipped rest; simpl.
  { intros [= <- <-]. auto. }
  destruct (test c) eqn:E.
  - destruct (span test p) as [s r]. intros [= <- <-].
    destruct (IH s r) as (-> & Hs & Hr); [done|]. auto.
  - intros [= <- <-]. auto.
Qed.

Lemma span_ext test test' p :
  (forall c, test c = test' c) -> span test p = span test' p.
Proof. intros E. induction p as [|c p IH]; simpl; [done|]. by rewrite E, IH. Qed.

(** One separator is not a special case. *)
Lemma tokenize_apr_strtok sep str : svn_cstring_tokenize sep str = apr_strtok sep str.
Proof.
  destruct sep as [|csep [|]]; [done| |done].
  unfold svn_cstring_tokenize, apr_strtok.
  assert (forall c, strchr_in [csep] c = (c =? csep)) as E.
  { intros c. unfold strchr_in. destruct (Z.eqb_spec c csep) as [->|Hne].
    - by rewrite bool_decide_true by set_solver.
    - rewrite bool_decide_false; [done|]. by rewrite list_elem_of_singleton. }
  rewrite (span_ext _ _ _ E).
  destruct (span (fun c => c =? csep) str) as [s r] eqn:Es. apply span_spec in Es as (_ & _ & Hr).
  simpl. destruct r as [|c r]; [done|]. cbn [span]. rewrite Hr. cbn [negb].
  rewrite (span_ext _ (fun d => negb (strchr_in [csep] d))) by (intros d; by rewrite E).
  by destruct (span _ r).
Qed.

(** The pieces of a string between separators. *)
Fixpoint pieces (sep s : bytes) : list bytes :=
  match s with
  | [] => [[]]
  | c :: s =>
      if strchr_in sep c then [] :: pieces sep s
      else match pieces sep s with
           | p :: ps => (c :: p) :: ps
           | [] => [[c]]
           end
  end.

(** What is left of them when the empty ones are dropped. *)
Definition nonempty (l : list bytes) : list bytes := filter (fun p => p <> []) l.

Lemma pieces_skip sep a s :
  Forall (fun c => strchr_in sep c = true) a -> nonempty (pieces sep (a ++ s)) = nonempty (pieces sep s).
Proof. induction 1 as [|c a Hc _ IH]; simpl; [done|]. by rewrite Hc. Qed.

Lemma pieces_token sep t s :
  Forall (fun c => strchr_in sep c = false) t ->
  match s with [] => True | c :: _ => strchr_in sep c = true end ->
  pieces sep (t ++ s) = t :: (if bool_decide (s = []) then [] else pieces sep (drop 1 s)).
Proof.
  intros Ht Hs. induction Ht as [|c t Hc _ IH]; simpl; [|by rewrite Hc, IH].
  destruct s as [|c s]; simpl; [done|]. by rewrite Hs, drop_0.
Qed.

(** A token is the first piece that is not empty. *)
Lemma strtok_spec sep str :
  match apr_strtok sep str with
  | (None, _) => nonempty (pieces sep str) = []
  | (Some token, rest) =>
      token <> [] /\ nonempty (pieces sep str) = token :: nonempty (pieces sep rest) /\
      (length rest < length str)%nat
  end.
Proof.
  unfold apr_strtok. destruct (span (strchr_in sep) str) as [skipped p] eqn:E.
  apply span_spec in E as (-> & Hs & Hp). simpl. rewrite pieces_skip by done.
  destruct p as [|c p]; [done|].
  destruct (span (fun d => negb (strchr_in sep d)) p) as [t r] eqn:E.
  apply span_spec in E as (-> & Ht & Hr).
  split_and!; [done| |rewrite !length_app, length_drop; simpl; rewrite length_app; lia].
  change (c :: t ++ r) with ((c :: t) ++ r). rewrite pieces_token.
  - unfold nonempty. rewrite filter_cons_True by done. f_equal.
    case_bool_decide; [subst; done|done].
  - constructor; [done|]. eapply Forall_impl; [exact Ht|]. intros d. apply negb_true_iff.
  - destruct r; [done|]. by apply negb_false_iff in Hr.
Qed.

(** Trimming both ends. *)
Lemma span_isspace p : (span svn_ctype_isspace p).2 = drop_space p.
Proof.
  induction p as [|c p IH]; simpl; [done|]. destruct (svn_ctype_isspace c); [|done].
  rewrite <- IH. by destruct (span svn_ctype_isspace p).
Qed.

Lemma chop_trims p : chop p = drop_space_end (drop_space p).
Proof. unfold chop, drop_space_end. by rewrite !span_isspace. Qed.

Definition trimmed (chop_whitespace : bool) (p : bytes) : bytes :=
  if chop_whitespace then drop_space_end (drop_space p) else p.

Lemma split_loop_spec sep ws fuel : forall array pats,
  (length pats <= fuel)%nat ->
  split_loop fuel array pats sep ws =
    Ok (array ++ nonempty (map (trimmed ws) (nonempty (pieces sep pats)))).
Proof.
  induction fuel as [|fuel IH]; intros array pats Hf; cbn [split_loop];
    rewrite tokenize_apr_strtok; pose proof (strtok_spec sep pats) as Hs;
    destruct (apr_strtok sep pats) as [[token|] rest].
  - lia.
  - by rewrite Hs, app_nil_r.
  - destruct Hs as (_ & -> & Hl). rewrite IH by lia. f_equal.
    assert ((if ws then chop token else token) = trimmed ws token) as ->.
    { unfold trimmed. by rewrite chop_trims. }
    cbn [map]. unfold nonempty at 3. case_bool_decide.
    + by rewrite filter_cons_False by auto.
    + rewrite filter_cons_True, <- app_assoc by done. done.
  - by rewrite Hs, app_nil_r.
Qed.

Lemma nonempty_trimmed ws l :
  nonempty (map (trimmed ws) (nonempty l)) = nonempty (map (trimmed ws) l).
Proof.
  induction l as [|p l IH]; [done|]. unfold nonempty in *. cbn [map].
  rewrite filter_cons. case_decide as Hp.
  - cbn [map]. rewrite !filter_cons. by rewrite IH.
  - rewrite IH, Hp, filter_cons_False; [done|].
    intros []. by destruct ws.
Qed.

Lemma split_append_spec array input sep ws :
  svn_cstring_split_append array input sep ws =
    Ok (array ++ nonempty (map (trimmed ws) (pieces sep input))).
Proof.
  unfold svn_cstring_split_append. rewrite split_loop_spec by lia. by rewrite nonempty_trimmed.
Qed.

(** ** Joining *)

(** The strings with separators in between. *)
Fixpoint joined (strings : list bytes) (separator : bytes) : bytes :=
  match strings with
  | [] => []
  | [s] => s
  | s :: rest => s ++ separator ++ joined rest separator
  end.

Lemma joined_cons s rest separator :
  joined (s :: rest) separator = s ++ concat (map (app separator) rest).
Proof.
  revert s. induction rest as [|t rest IH]; intros s; [simpl; by rewrite app_nil_r|].
  change (joined (s :: t :: rest) separator) with (s ++ separator ++ joined (t :: rest) separator).
  rewrite IH. simpl. by rewrite <- app_assoc.
Qed.

Section Join.
Context `{Allocator}.

Lemma join_loop_more separator : forall strings str s,
  holds str s -> zlen s + zlen (concat (map (app separator) strings)) < STRING_BOUND - 1 ->
  exists str', join_loop true str strings separator = Ok str' /\
    holds str' (s ++ concat (map (app separator) strings)).
Proof.
  induction strings as [|t strings IH]; intros str s Hstr Hb; cbn [join_loop map concat] in *.
  { exists str. by rewrite app_nil_r. }
  rewrite !zlen_app in Hb. pose proof (zlen_nonneg t).
  pose proof (zlen_nonneg (concat (map (app separator) strings))).
  destruct (appendbytes_outside str s separator) as (str1 & -> & Hstr1); [done|lia|].
  cbn [mbind result_bind].
  destruct (appendbytes_outside str1 (s ++ separator) t) as (str2 & -> & Hstr2); [done|rewrite zlen_app; lia|].
  cbn [mbind result_bind].
  destruct (IH str2 ((s ++ separator) ++ t)) as (str' & -> & H'); [done|rewrite !zlen_app; lia|].
  exists str'. by rewrite <- !app_assoc in *.
Qed.

Lemma join_loop_holds separator strings str :
  holds str [] -> zlen (joined strings separator) < STRING_BOUND - 1 ->
  exists str', join_loop false str strings separator = Ok str' /\ holds str' (joined strings separator).
Proof.
  intros Hstr Hb. destruct strings as [|s strings]; [by exists str|].
  rewrite joined_cons in *. rewrite zlen_app in Hb. cbn [join_loop].
  cbn [mbind result_bind].
  pose proof (zlen_nonneg (concat (map (app separator) strings))).
  destruct (appendbytes_outside str [] s) as (str1 & -> & Hstr1); [done|change (zlen []) with 0; lia|].
  by apply join_loop_more.
Qed.

(** What [svn_cstring_join2] returns. *)
Definition joined2 (strings : list bytes) (separator : bytes) (trailing : bool) : bytes :=
  joined strings separator
  ++ (if negb (bool_decide (strings = [])) && trailing then separator else []).

Lemma join2_holds strings separator trailing :
  zlen (joined2 strings separator trailing) < STRING_BOUND - 1 ->
  exists str, svn_cstring_join2 strings separator trailing = Ok str /\
    holds str (joined2 strings separator trailing).
Proof.
  unfold joined2. rewrite zlen_app. intros Hb. unfold svn_cstring_join2, svn_stringbuf_create_empty.
  destruct (create_ensure_holds 0) as (str0 & -> & H0 & _); [done|].
  cbn [mbind result_bind]. set (trail := if _ && _ then _ else _) in *.
  pose proof (zlen_nonneg trail).
  destruct (join_loop_holds separator strings str0 H0) as (str & -> & Hstr); [lia|].
  cbn [mbind result_bind]. unfold trail in *. destruct (_ && _).
  - by apply appendbytes_outside.
  - exists str. by rewrite app_nil_r.
Qed.
End Join.

(** Strings that contain no separator are what their join splits into. *)
Lemma split_joined sep separator strings :
  separator <> [] -> Forall (fun c => c ∈ sep) separator ->
  Forall (fun s => s <> [] /\ Forall (fun c => ~ c ∈ sep) s) strings ->
  nonempty (pieces sep (joined strings separator)) = strings.
Proof.
  intros Hne Hsep. assert (Forall (fun c => strchr_in sep c = true) separator) as Htrue.
  { eapply Forall_impl; [exact Hsep|]. intros c. apply bool_decide_eq_true_2. }
  assert (forall t s, Forall (fun c => ~ c ∈ sep) t -> t <> [] ->
    match s with [] => True | c :: _ => strchr_in sep c = true end ->
    nonempty (pieces sep (t ++ s)) = t :: nonempty (pieces sep s)) as Htoken.
  { intros t s Ht Htne Hs. rewrite pieces_token; [|by eapply Forall_impl;
      [exact Ht|]; intros c; apply bool_decide_eq_false_2|done].
    unfold nonempty. rewrite filter_cons_True by done. f_equal.
    destruct s as [|c s]; [done|]. simpl. by rewrite Hs, drop_0. }
  intros Hall. destruct Hall as [|s strings [Hs1 Hs2] Hall]; [done|]. rewrite joined_cons.
  revert s Hs1 Hs2. induction Hall as [|t strings [Ht1 Ht2] Hall IH]; intros s Hs1 Hs2.
  { simpl. by rewrite Htoken. }
  cbn [map concat]. rewrite Htoken; [|done..|].
  - f_equal. rewrite <- app_assoc, pieces_skip by done. by apply IH.
  - destruct separator; [done|]. by inversion Htrue.
Qed.

(** ** Comparing without regard to case *)

(** A C string: bytes that are not NUL. *)
Definition c_string (s : bytes) : Prop := Forall (fun c => 0 < c < 256) s.

(** The difference of the first characters that differ; the end of a string
    is NUL. *)
Fixpoint first_difference (a b : bytes) : Z :=
  match a, b with
  | x :: a', y :: b' => if x =? y then first_difference a' b' else x - y
  | x :: _, [] => x
  | [], y :: _ => - y
  | [], [] => 0
  end.

Lemma fold_case_pos c : 0 < c < 256 -> 0 < fold_case c < 256.
Proof. unfold fold_case. intros. split_ifs; reflect_bools; lia. Qed.

Lemma c_string_fold s : c_string s -> c_string (map fold_case s).
Proof. induction 1; constructor; [by apply fold_case_pos|done]. Qed.

Lemma casecmp_folded a b :
  c_string a -> c_string b ->
  svn_cstring_casecmp a b = first_difference (map fold_case a) (map fold_case b).
Proof.
  intros Ha. revert b. induction Ha as [|x a Hx _ IH]; intros b Hb; cbn [svn_cstring_casecmp].
  - destruct Hb as [|y b Hy _]; [done|]. unfold deref. cbn [head default from_option id tail map first_difference].
    rewrite casecmp_fold by lia. rewrite orb_true_r. simpl. by destruct (fold_case y).
  - pose proof (fold_case_pos x Hx). destruct Hb as [|y b Hy Hb]; unfold deref; cbn [head default from_option id tail map first_difference].
    + rewrite casecmp_fold by lia. rewrite orb_true_r. change (fold_case 0) with 0. lia.
    + rewrite casecmp_fold by lia. rewrite (proj2 (Z.eqb_neq x 0)), (proj2 (Z.eqb_neq y 0)), !orb_false_r by lia.
      destruct (Z.eqb_spec (fold_case x) (fold_case y)) as [->|Hne].
      * rewrite Z.sub_diag. simpl. by apply IH.
      * rewrite (proj2 (Z.eqb_neq _ _)) by lia. done.
Qed.

Lemma first_difference_zero a b :
  c_string a -> c_string b -> first_difference a b = 0 <-> a = b.
Proof.
  intros Ha. revert b. induction Ha as [|x a Hx _ IH]; intros b Hb; destruct Hb as [|y b Hy Hb]; simpl.
  - done.
  - split; [lia|done].
  - split; [lia|done].
  - destruct (Z.eqb_spec x y) as [->|Hne].
    + rewrite IH by done. naive_solver.
    + split; [lia|congruence].
Qed.

Lemma first_difference_opp a b : first_difference b a = - first_difference a b.
Proof.
  revert b. induction a as [|x a IH]; intros [|y b]; simpl; [done|lia|lia|].
  rewrite Z.eqb_sym. destruct (x =? y); [apply IH|lia].
Qed.

Lemma first_difference_trans a b c :
  c_string a -> c_string b -> c_string c ->
  first_difference a b <= 0 -> first_difference b c <= 0 -> first_difference a c <= 0.
Proof.
  intros Ha. revert b c. induction Ha as [|x a Hx _ IH]; intros b c Hb Hc;
    destruct Hb as [|y b Hy Hb]; destruct Hc as [|z c Hz Hc]; simpl; try lia.
  destruct (Z.eqb_spec x y), (Z.eqb_spec y z), (Z.eqb_spec x z); try lia.
  by apply IH.
Qed.

(** ** Reading decimal numbers *)

Lemma digit_value_10 c : (digit_value c <? 10) = is_digit c.
Proof.
  unfold digit_value, is_digit. change ("0"%cc) with 48. change ("9"%cc) with 57.
  split_ifs; reflect_bools; lia.
Qed.

Lemma digit_value_digit c : is_digit c = true -> digit_value c = c - "0"%cc.
Proof.
  unfold digit_value, is_digit. change ("0"%cc) with 48. change ("9"%cc) with 57.
  by intros ->.
Qed.

Lemma strtol_digits_app ds rest acc :
  Forall (fun c => is_digit c = true) ds -> is_digit (deref rest) = false ->
  strtol_digits (ds ++ rest) 10 acc = (dec_value acc ds, rest).
Proof.
  intros Hds Hr. revert acc. induction Hds as [|c ds Hc _ IH]; intros acc; simpl.
  - destruct rest as [|c rest]; [done|]. cbn [strtol_digits]. rewrite digit_value_10.
    unfold deref in Hr. simpl in Hr. by rewrite Hr.
  - rewrite digit_value_10, Hc, digit_value_digit by done. apply IH.
Qed.

Lemma strtol_digits_inv s acc v rest :
  strtol_digits s 10 acc = (v, rest) -> exists ds, s = ds ++ rest /\
    Forall (fun c => is_digit c = true) ds /\ is_digit (deref rest) = false /\ v = dec_value acc ds.
Proof.
  revert acc. induction s as [|c s IH]; intros acc; cbn [strtol_digits].
  { intros [= <- <-]. by exists []. }
  rewrite digit_value_10. destruct (is_digit c) eqn:E.
  - rewrite digit_value_digit by done. intros (ds & -> & Hds & Hr & ->)%IH. exists (c :: ds). auto.
  - intros [= <- <-]. by exists [].
Qed.

Lemma strtol_base_10 s : strtol_base s 10 = (10, s).
Proof. by destruct s as [|? [|? [|? ?]]]. Qed.

(** The text of a number: blanks, a sign or none, and digits. *)
Definition sign_text (neg : bool) (sign : bytes) : Prop :=
  if neg then sign = ["-"%cc] else sign = [] \/ sign = ["+"%cc].

Definition number_text (str : bytes) (n : Z) : Prop :=
  exists blanks neg sign ds, str = blanks ++ sign ++ ds /\
    Forall (fun c => isspace c = true) blanks /\ sign_text neg sign /\
    ds <> [] /\ Forall (fun c => is_digit c = true) ds /\
    n = if neg : bool then - dec_value 0 ds else dec_value 0 ds.

Lemma span_stop test a p :
  Forall (fun c => test c = true) a -> match p with [] => True | c :: _ => test c = false end ->
  (span test (a ++ p)).2 = p.
Proof.
  intros Ha Hp. induction Ha as [|c a Hc _ IH]; simpl.
  - destruct p as [|c p]; simpl; [done|]. by rewrite Hp.
  - rewrite Hc. by destruct (span test (a ++ p)).
Qed.

Lemma digit_not_special c :
  is_digit c = true -> isspace c = false /\ (c =? "-"%cc) = false /\ (c =? "+"%cc) = false.
Proof.
  unfold is_digit, isspace. change ("0"%cc) with 48. change ("9"%cc) with 57.
  change ("-"%cc) with 45. change ("+"%cc) with 43. intros Hc. reflect_bools. lia.
Qed.

Lemma strtol_sign_text neg sign ds :
  sign_text neg sign -> ds <> [] -> Forall (fun c => is_digit c = true) ds ->
  strtol_sign (sign ++ ds) = (neg, ds) /\
  match sign ++ ds with [] => True | c :: _ => isspace c = false end.
Proof.
  intros Hs Hne Hds. destruct neg; simpl in Hs; [by subst|]. destruct Hs as [-> | ->]; [|done].
  destruct Hds as [|c ds Hc Hds]; [done|]. simpl.
  apply digit_not_special in Hc as (? & -> & ->). done.
Qed.

(** A value is clipped to the range of the type, with an error. *)
Definition clipped (v : Z) (rest : bytes) : Z * bytes * bool :=
  if INT64_MAX <? v then (INT64_MAX, rest, true)
  else if v <? INT64_MIN then (INT64_MIN, rest, true)
  else (v, rest, false).

Lemma strtoi64_text str n : number_text str n -> apr_strtoi64 str 10 = clipped n [].
Proof.
  intros (blanks & neg & sign & ds & -> & Hb & Hs & Hne & Hds & ->).
  destruct (strtol_sign_text neg sign ds Hs Hne Hds) as [E Hsp].
  unfold apr_strtoi64. rewrite span_stop by done. rewrite E, strtol_base_10.
  rewrite <- (app_nil_r ds) at 1. rewrite strtol_digits_app by done.
  destruct ds as [|c ds]; [done|]. cbn [length Nat.eqb]. by destruct neg.
Qed.

(** Everything else does not convert the whole string. *)
Lemma strtoi64_inv str v e :
  apr_strtoi64 str 10 = (v, [], e) -> str <> [] -> exists n, number_text str n.
Proof.
  unfold apr_strtoi64. destruct (span isspace str) as [blanks p] eqn:E.
  apply span_spec in E as (-> & Hb & Hp). simpl.
  destruct (strtol_sign p) as [neg s] eqn:Es. rewrite strtol_base_10.
  destruct (strtol_digits s 10 0) as [w rest] eqn:Ed.
  apply strtol_digits_inv in Ed as (ds & -> & Hds & Hr & ->).
  destruct (Nat.eqb_spec (length rest) (length (ds ++ rest))) as [El|El].
  { intros [= _ Hnil _] Hne. by rewrite Hnil in Hne. }
  intros Ev _. assert (rest = []) as ->.
  { destruct neg; repeat case_match; congruence. }
  rewrite app_nil_r in *.
  exists (if neg then - dec_value 0 ds else dec_value 0 ds).
  assert (exists sign, sign_text neg sign /\ p = sign ++ ds) as (sign & Hs & ->).
  { unfold strtol_sign in Es. destruct p as [|c p]; [injection Es as <- <-; exists []; by split; [left|]|].
    destruct (Z.eqb_spec c "-"%cc) as [->|_]; [injection Es as <- <-; by exists ["-"%cc]|].
    destruct (Z.eqb_spec c "+"%cc) as [->|_]; injection Es as <- <-.
    - exists ["+"%cc]. by split; [right|].
    - exists []. by split; [left|]. }
  exists blanks, neg, sign, ds. split_and!; try done. by intros ->.
Qed.

Lemma number_text_nonempty str n : number_text str n -> str <> [].
Proof. intros (blanks & neg & sign & ds & -> & _ & _ & Hne & _). by destruct blanks, sign, ds. Qed.

Lemma not_converted_false str endptr :
  not_converted str endptr = false <-> endptr = [] /\ str <> [].
Proof.
  unfold not_converted. rewrite !orb_false_iff, negb_false_iff, bool_decide_eq_true, bool_decide_eq_false.
  rewrite Nat.eqb_neq. split; [naive_solver|]. intros [-> Hne]. by destruct str.
Qed.

(** The numbers that are read. *)
Lemma strtoi64_iff str minval maxval n :
  svn_cstring_strtoi64 str minval maxval 10 = Ok n <->
  number_text str n /\ INT64_MIN <= n <= INT64_MAX /\ minval <= n <= maxval.
Proof.
  unfold svn_cstring_strtoi64. split.
  - destruct (apr_strtoi64 str 10) as [[v endptr] e] eqn:E.
    destruct (not_converted str endptr) eqn:Ec; [done|].
    apply not_converted_false in Ec as [-> Hne].
    destruct (strtoi64_inv str v e E Hne) as [m Hm]. rewrite (strtoi64_text str m Hm) in E.
    unfold clipped, INT64_MAX, INT64_MIN in *.
    destruct (Z.ltb_spec (2 ^ 63 - 1) m); [by injection E as <- <-|].
    destruct (Z.ltb_spec m (- 2 ^ 63)); [by injection E as <- <-|].
    injection E as <- <-. cbn [andb orb]. destruct (_ || _) eqn:Er; [done|].
    intros [= <-]. reflect_bools. split; [done|lia].
  - intros (Hn & Hr & Hm). rewrite (strtoi64_text str n Hn). unfold clipped.
    rewrite (proj2 (Z.ltb_ge _ _)), (proj2 (Z.ltb_ge n INT64_MIN)) by lia.
    rewrite (proj2 (not_converted_false str [])) by (eauto using number_text_nonempty).
    cbn [andb orb]. rewrite (proj2 (Z.ltb_ge _ _)), (proj2 (Z.ltb_ge maxval n)) by lia. done.
Qed.

(** The other error does not occur. *)
Lemma strtoi64_error str minval maxval base e :
  svn_cstring_strtoi64 str minval maxval base = Err e -> e = SVN_ERR_INCORRECT_PARAMS.
Proof. unfold svn_cstring_strtoi64. destruct (apr_strtoi64 str base) as [[v endptr] er]. repeat case_match; congruence. Qed.

Lemma strtoui64_strtoi64 str minval maxval n :
  0 <= minval -> maxval < 2 ^ 64 ->
  svn_cstring_strtoui64 str minval maxval 10 = Ok n <->
  svn_cstring_strtoi64 str minval maxval 10 = Ok n.
Proof.
  intros Hmin Hmax. unfold svn_cstring_strtoui64, svn_cstring_strtoi64.
  destruct (apr_strtoi64 str 10) as [[v endptr] e] eqn:E.
  destruct (not_converted str endptr) eqn:Ec; [done|].
  destruct (e && _) eqn:Ee; [done|]. cbn [orb].
  assert (INT64_MIN <= v <= INT64_MAX) as Hv.
  { apply not_converted_false in Ec as [-> Hne].
    destruct (strtoi64_inv str v e E Hne) as [m Hm]. rewrite (strtoi64_text str m Hm) in E.
    unfold clipped, INT64_MAX, INT64_MIN in *. repeat case_match; reflect_bools; simplify_eq; lia. }
  unfold INT64_MIN, INT64_MAX in Hv. destruct (Z.ltb_spec v 0).
  { rewrite (proj2 (Z.ltb_lt v minval)) by lia. done. }
  by rewrite u64_small by lia.
Qed.

(** The text that [svn__i64toa] writes is such a text. *)
Lemma number_text_print n : number_text (print_ld n) n.
Proof.
  unfold print_ld, number_text. destruct (Z.ltb_spec n 0).
  - destruct (print_lu_spec (- n)) as (Hds & Hv & Hl & _); [lia|].
    exists [], true, ["-"%cc], (print_lu (- n)). split_and!; [done..| |done|lia].
    intros E. rewrite E in Hl. simpl in Hl. lia.
  - destruct (print_lu_spec n) as (Hds & Hv & Hl & _); [lia|].
    exists [], false, [], (print_lu n). split_and!; [done..|by left| |done|done].
    intros E. rewrite E in Hl. simpl in Hl. lia.
Qed.
