(* ===== verification/StringTheorems.v ===== *)
(** * The properties of numbers as strings, string buffers and C strings

    The theorems on [CString], [StringBuf], [Strings] and [Ctype], each with an
    instance at concrete data, and examples of what the code does outside of
    their hypotheses. *)

From S2P Require Import Prelude CString Buffers Ctype StringBuf StringBufFacts Strings Subsequence.
From S2P Require Import StringsFacts.

(** ** Decimal numbers *)

Lemma print_lu_lead n : 0 <= n -> deref (print_lu n) = "0"%cc -> n = 0.
Proof.
  intros Hn H0. destruct (print_lu_spec n Hn) as (Hds & Hv & _ & [|Hmag]); [done|].
  destruct (print_lu n) as [|c ds]; [done|]. unfold deref in H0. simpl in H0. subst c.
  inversion Hds as [|? ? _ Hds']. destruct (dec_value_lt 0 ds 0) as [_ Hlt]; [lia..|done|].
  change (dec_value 0 (48 :: ds)) with (dec_value 0 ds) in Hv. rewrite Hv, Z.add_0_l in Hlt.
  simpl length in Hmag. replace (Z.of_nat (S (length ds)) - 1) with (Z.of_nat (length ds)) in Hmag by lia. lia.
Qed.

(** [svn__ui64toa] and [svn__i64toa] write what [%lu] and [%ld] would
    print, for every 64-bit number; the text leaves room for the NUL in a
    buffer of 21 bytes, has no leading zero, and [svn__strtoul] reads the
    number back and stops behind it. *)
Theorem ui64toa_decimal n m rest :
  0 <= n < 2 ^ 64 -> - 2 ^ 63 <= m < 2 ^ 63 -> is_digit (deref rest) = false ->
  Forall (fun c => 0 <= c < 256) rest ->
  svn__ui64toa n = Some (print_lu n) /\ svn__i64toa m = Some (print_ld m) /\
  (1 <= length (print_lu n) < SVN_INT64_BUFFER_SIZE)%nat /\
  (length (print_ld m) < SVN_INT64_BUFFER_SIZE)%nat /\
  (deref (print_lu n) = "0"%cc -> n = 0) /\
  svn__strtoul (print_lu n ++ rest) = (n, rest).
Proof.
  intros Hn Hm Hd Hb. change SVN_INT64_BUFFER_SIZE with 21%nat.
  pose proof (print_lu_length n 20) as Hl.
  destruct (print_lu_spec n) as (_ & _ & Hpos & _); [lia|]. split_and!.
  - by apply ui64toa_print.
  - by apply i64toa_print.
  - lia.
  - lia.
  - unfold print_ld. destruct (Z.ltb_spec m 0).
    + pose proof (print_lu_length (- m) 19). simpl length. lia.
    + pose proof (print_lu_length m 19). lia.
  - apply print_lu_lead. lia.
  - by apply svn__strtoul_print.
Qed.

Lemma ui64toa_decimal_witness :
  svn__ui64toa (2 ^ 64 - 1) = Some (print_lu (2 ^ 64 - 1)) /\
  svn__i64toa (- 2 ^ 63) = Some (print_ld (- 2 ^ 63)) /\
  (1 <= length (print_lu (2 ^ 64 - 1)) < SVN_INT64_BUFFER_SIZE)%nat /\
  (length (print_ld (- 2 ^ 63)) < SVN_INT64_BUFFER_SIZE)%nat /\
  (deref (print_lu (2 ^ 64 - 1)) = "0"%cc -> 2 ^ 64 - 1 = 0) /\
  svn__strtoul (print_lu (2 ^ 64 - 1) ++ cstr " x") = (2 ^ 64 - 1, cstr " x").
Proof. apply ui64toa_decimal; [lia|lia|reflexivity|by_evaluation]. Defined.

(** [svn__ui64toa_sep] writes the same digits with the separator in front
    of every group of three, counted from the right; the first group is not
    empty. *)
Theorem ui64toa_sep_grouping n sep :
  0 <= n < 2 ^ 64 -> exists g gs,
    svn__ui64toa_sep n sep = Some (g ++ concat (map (cons sep) gs)) /\
    print_lu n = g ++ concat gs /\ Forall (fun h => length h = 3%nat) gs /\
    (1 <= length g <= 3)%nat.
Proof. apply ui64toa_sep_groups. Qed.

Lemma ui64toa_sep_grouping_witness : exists g gs,
  svn__ui64toa_sep 1234567 ","%cc = Some (g ++ concat (map (cons ","%cc) gs)) /\
  print_lu 1234567 = g ++ concat gs /\ Forall (fun h => length h = 3%nat) gs /\
  (1 <= length g <= 3)%nat.
Proof. apply ui64toa_sep_grouping. lia. Defined.

(** ** Base 36 *)

(** [svn__base36toui64] reads back what [svn__ui64tobase36] wrote, for
    every 64-bit number, and stops at the first character that is not a digit
    of base 36. *)
Theorem base36_encode_decode n rest :
  0 <= n < 2 ^ 64 -> is_base36 (deref rest) = false ->
  svn__base36toui64 (svn__ui64tobase36 n ++ rest) = (n, rest).
Proof. apply base36_roundtrip. Qed.

Lemma base36_encode_decode_witness :
  svn__base36toui64 (svn__ui64tobase36 (2 ^ 64 - 1) ++ cstr "-x") = (2 ^ 64 - 1, cstr "-x").
Proof. apply base36_encode_decode; [lia|reflexivity]. Defined.

(** ** Revision numbers *)

Lemma dec_value_first c ds : dec_value 0 (c :: ds) = dec_value (c - "0"%cc) ds.
Proof. done. Qed.

Lemma revnum_parse_digits ds rest :
  Forall (fun c => is_digit c = true) ds -> (1 <= length ds <= 10)%nat ->
  dec_value 0 ds <= APR_INT32_MAX -> is_digit (deref rest) = false ->
  Forall (fun c => 0 <= c < 256) rest ->
  svn_revnum_parse (ds ++ rest) = Ok (dec_value 0 ds, rest).
Proof.
  intros Hds Hlen Hv Hd Hb. unfold svn_revnum_parse, svn__strtoul.
  destruct (dec_value_lt 0 ds 0) as [Hpos _]; [lia..|done|]. unfold APR_INT32_MAX in *.
  rewrite strtoul_loop_app, strtoul_loop_stop by (done || lia).
  rewrite length_app, Nat.add_sub.
  destruct (Nat.eqb_spec (length ds) 0); [lia|].
  destruct (Nat.leb_spec 10 (length ds)); [|done].
  destruct (Nat.ltb_spec 10 (length ds)); [lia|].
  rewrite u32_small by lia. destruct (Z.ltb_spec (2 ^ 31 - 1) (dec_value 0 ds)); [lia|].
  rewrite orb_false_r. destruct ds as [|c ds]; [simpl in *; lia|].
  unfold deref. simpl head. simpl default.
  destruct (Z.ltb_spec "2"%cc c); [exfalso|done].
  inversion Hds as [|? ? Hc Hds']; subst. rewrite dec_value_first, dec_value_lead in Hv.
  simpl length in *. replace (length ds) with 9%nat in Hv by lia. change (Z.of_nat 9) with 9 in Hv.
  destruct (dec_value_lt 0 ds 0) as [? _]; [lia..|done|]. nia.
Qed.

Lemma revnum_parse_length str n rest :
  svn_revnum_parse str = Ok (n, rest) -> (length str - length rest <= 10)%nat.
Proof.
  unfold svn_revnum_parse. destruct (svn__strtoul str) as [m e].
  destruct (Nat.eqb_spec (length str - length e) 0); [done|].
  destruct (Nat.leb_spec 10 (length str - length e)).
  - destruct (Nat.ltb_spec 10 (length str - length e)); [done|].
    destruct (_ || _); [done|]. intros [= <- <-]. lia.
  - intros [= <- <-]. lia.
Qed.

(** [svn_revnum_parse] accepts exactly one to ten decimal digits that
    denote a number below 2^31, and returns that number and the position
    behind the digits; it never reads a number that wrapped around. *)
Theorem revnum_parse_iff str n rest :
  Forall (fun c => 0 <= c < 256) str ->
  svn_revnum_parse str = Ok (n, rest) <-> exists ds,
    str = ds ++ rest /\ Forall (fun c => is_digit c = true) ds /\
    is_digit (deref rest) = false /\ (1 <= length ds <= 10)%nat /\
    n = dec_value 0 ds /\ n <= APR_INT32_MAX.
Proof.
  intros Hb. split.
  - intros Hp. destruct (revnum_parse_inv _ _ _ Hb Hp) as (Hn & Hd & ds & -> & Hds & Hne & ->).
    exists ds. split_and!; try done; [destruct ds; [done|simpl; lia]| |lia].
    apply revnum_parse_length in Hp. rewrite length_app in Hp. lia.
  - intros (ds & -> & Hds & Hd & Hlen & -> & Hmax). apply Forall_app in Hb as [_ Hb].
    by apply revnum_parse_digits.
Qed.

Lemma revnum_parse_iff_witness :
  svn_revnum_parse (cstr "2147483647-") = Ok (2147483647, cstr "-") <-> exists ds,
    cstr "2147483647-" = ds ++ cstr "-" /\ Forall (fun c => is_digit c = true) ds /\
    is_digit (deref (cstr "-")) = false /\ (1 <= length ds <= 10)%nat /\
    2147483647 = dec_value 0 ds /\ 2147483647 <= APR_INT32_MAX.
Proof. apply revnum_parse_iff. by_evaluation. Defined.

(** ** String buffers and C strings *)

(** ** Operations on string buffers and on strings *)

Inductive string_op :=
  | OpSet (value : bytes)
  | OpSetempty
  | OpFillchar (c : Z)
  | OpChop (nbytes : Z)
  | OpLeftchop (nbytes : Z)
  | OpAppendbyte (c : Z)
  | OpAppendbytes (src : source) (count : Z)
  | OpAppendfill (c count : Z)
  | OpInsert (pos : Z) (src : source) (count : Z)
  | OpRemove (pos count : Z)
  | OpReplace (pos old_count : Z) (src : source) (new_count : Z)
  | OpStrip
  | OpDup.

Section Operations.
Context `{Allocator}.

Definition run_op (op : string_op) (str : svn_stringbuf_t) : result svn_stringbuf_t :=
  match op with
  | OpSet value => svn_stringbuf_set str value
  | OpSetempty => svn_stringbuf_setempty str
  | OpFillchar c => svn_stringbuf_fillchar str c
  | OpChop nbytes => svn_stringbuf_chop str nbytes
  | OpLeftchop nbytes => svn_stringbuf_leftchop str nbytes
  | OpAppendbyte c => svn_stringbuf_appendbyte str c
  | OpAppendbytes src count => svn_stringbuf_appendbytes str src count
  | OpAppendfill c count => svn_stringbuf_appendfill str c count
  | OpInsert pos src count => svn_stringbuf_insert str pos src count
  | OpRemove pos count => svn_stringbuf_remove str pos count
  | OpReplace pos old_count src new_count => svn_stringbuf_replace str pos old_count src new_count
  | OpStrip => svn_stringbuf_strip_whitespace str
  | OpDup => svn_stringbuf_dup str
  end.

Fixpoint run_ops (ops : list string_op) (str : svn_stringbuf_t) : result svn_stringbuf_t :=
  match ops with
  | [] => Ok str
  | op :: ops => str ← run_op op str; run_ops ops str
  end.
End Operations.

(** The bytes at a pointer. *)
Definition source_value (s : bytes) (src : source) (count : Z) : bytes :=
  match src with
  | Outside bytes => slice bytes 0 count
  | Inside off => slice s off count
  end.

(** What the operations mean for the string. *)
Definition on_string (op : string_op) (s : bytes) : bytes :=
  match op with
  | OpSet value => value
  | OpSetempty => []
  | OpFillchar c => replicate (length s) c
  | OpChop nbytes => take (length s - Z.to_nat nbytes) s
  | OpLeftchop nbytes => drop (Z.to_nat nbytes) s
  | OpAppendbyte c => s ++ [c]
  | OpAppendbytes src count => s ++ source_value s src count
  | OpAppendfill c count => s ++ replicate (Z.to_nat count) c
  | OpInsert pos src count =>
      take (Z.to_nat pos) s ++ source_value s src count ++ drop (Z.to_nat pos) s
  | OpRemove pos count => take (Z.to_nat pos) s ++ drop (Z.to_nat (pos + count)) s
  | OpReplace pos old_count src new_count =>
      take (Z.to_nat pos) s ++ source_value s src new_count ++ drop (Z.to_nat (pos + old_count)) s
  | OpStrip => drop_space_end (drop_space s)
  | OpDup => s
  end.

(** The pointer has [count] bytes: of other memory, or of the string itself. *)
Definition source_valid (s : bytes) (src : source) (count : Z) : Prop :=
  0 <= count /\
  match src with
  | Outside bytes => count <= zlen bytes
  | Inside off => 0 <= off /\ off + count <= zlen s
  end.

(** The arguments of an operation are sizes, and the result is not too long. *)
Definition op_valid (op : string_op) (s : bytes) : Prop :=
  match op with
  | OpSet value => zlen value < STRING_BOUND - 1
  | OpChop n | OpLeftchop n => 0 <= n
  | OpAppendbyte _ => zlen s < STRING_BOUND - 2
  | OpAppendbytes src count => source_valid s src count /\ zlen s + count < STRING_BOUND - 1
  | OpAppendfill _ count => 0 <= count /\ zlen s + count < STRING_BOUND - 1
  | OpInsert pos src count =>
      0 <= pos /\ source_valid s src count /\ zlen s + count < STRING_BOUND - 1
  | OpRemove pos count => 0 <= pos /\ 0 <= count
  | OpReplace pos old_count src new_count =>
      0 <= pos /\ 0 <= old_count /\ source_valid s src new_count /\
      zlen s + new_count < STRING_BOUND - 1
  | OpSetempty | OpFillchar _ | OpStrip | OpDup => True
  end.

Fixpoint ops_valid (ops : list string_op) (s : bytes) : Prop :=
  match ops with
  | [] => True
  | op :: ops => op_valid op s /\ ops_valid ops (on_string op s)
  end.

Definition on_string_all (ops : list string_op) (s : bytes) : bytes :=
  foldl (fun s op => on_string op s) s ops.

Lemma source_valid_gives s src count :
  source_valid s src count -> source_gives s src count (source_value s src count).
Proof. intros [? Hv]. split; [done|]. destruct src; simpl in *; naive_solver. Qed.

Lemma run_op_holds `{Allocator} op str s :
  holds str s -> op_valid op s ->
  exists str', run_op op str = Ok str' /\ holds str' (on_string op s).
Proof.
  intros Hstr Hv. destruct op; simpl in *.
  - by apply (set_holds str s).
  - by apply (setempty_holds str s).
  - by apply fillchar_holds.
  - by apply chop_holds.
  - by apply leftchop_holds.
  - by apply appendbyte_holds.
  - destruct Hv as [?%source_valid_gives ?]. by eapply appendbytes_holds.
  - destruct Hv. by apply appendfill_holds.
  - destruct Hv as (? & ?%source_valid_gives & ?). by eapply insert_holds.
  - destruct Hv. by apply remove_holds.
  - destruct Hv as (? & ? & ?%source_valid_gives & ?). by eapply replace_holds.
  - by apply strip_whitespace_holds.
  - by apply dup_holds.
Qed.

(** C22: String buffers refine strings: any sequence of the operations of
    [string_op] - all that change a buffer but [svn_stringbuf_replace_all], for
    which see [replace_all_replaces] and [replace_all_over_read] - on a buffer
    that is created with a string, with arguments in range ([op_valid]), succeeds without reading or writing outside
    of the block, whatever fresh memory contains, and leaves in the buffer the
    string that the corresponding functions on lists give, followed by a NUL;
    the bytes that are added may be part of the buffer itself. *)
Theorem stringbuf_refines `{Allocator} ops s :
  zlen s < STRING_BOUND -> ops_valid ops s ->
  exists str, (str ← svn_stringbuf_ncreate s; run_ops ops str) = Ok str /\
    holds str (on_string_all ops s).
Proof.
  intros Hs Hv. destruct (ncreate_holds s Hs) as (str & -> & Hstr). cbn [mbind result_bind].
  clear Hs. revert s str Hstr Hv. induction ops as [|op ops IH]; intros s str Hstr Hv; [by exists str|].
  destruct Hv as [Hop Hops]. destruct (run_op_holds op str s Hstr Hop) as (str' & E & Hstr').
  cbn [run_ops]. rewrite E. by apply IH.
Qed.

(** Memory that is filled with some byte. *)
Program Definition filled (c : Z) : Allocator := {| apr_palloc size := replicate (Z.to_nat size) c |}.
Next Obligation. intros c size H0. unfold zlen. rewrite length_replicate. lia. Qed.

Definition sample_ops : list string_op :=
  [OpAppendbytes (Inside 0) 5; OpInsert 5 (Outside (cstr ", ")) 2; OpReplace 0 1 (Outside (cstr "  H")) 3;
   OpStrip; OpRemove 7 100; OpAppendfill 33 20; OpLeftchop 2; OpChop 19; OpDup].

Lemma stringbuf_refines_witness :
  zlen (cstr "hello") < STRING_BOUND /\ ops_valid sample_ops (cstr "hello") /\
  on_string_all sample_ops (cstr "hello") = cstr "llo, !" /\
  exists str, (str ← svn_stringbuf_ncreate (H := filled 170) (cstr "hello");
               run_ops (H := filled 170) sample_ops str) = Ok str /\
    holds str (on_string_all sample_ops (cstr "hello")).
Proof.
  assert (zlen (cstr "hello") < STRING_BOUND) by by vm_compute.
  assert (ops_valid sample_ops (cstr "hello")) by (vm_compute; repeat split; congruence).
  split_and!; [done..|by vm_compute|].
  by apply (stringbuf_refines (H := filled 170)).
Defined.

(** [svn_stringbuf_replace_all] replaces the occurrences of the text, found
    from the left without overlap, and counts them, if the block of the buffer
    has room behind the NUL and the text is not empty. *)
Theorem replace_all_replaces `{Allocator} str s to_find replacement :
  holds str s -> no_nul s -> no_nul to_find -> to_find <> [] -> zlen s + 1 < blocksize str ->
  zlen s + zlen (replaced to_find replacement 0 s) < STRING_BOUND - 3 ->
  exists str', svn_stringbuf_replace_all str to_find replacement
      = Ok (str', occurrences to_find 0 s) /\
    holds str' (replaced to_find replacement 0 s).
Proof. intros. by apply replace_all_holds. Qed.

Definition banana : svn_stringbuf_t := mk_stringbuf (cstr "banana" ++ [0; 7]) 6.

Lemma replace_all_replaces_witness :
  replaced (cstr "an") (cstr "-AN-") 0 (cstr "banana") = cstr "b-AN--AN-a" /\
  occurrences (cstr "an") 0 (cstr "banana") = 2 /\
  exists str', svn_stringbuf_replace_all (H := filled 170) banana (cstr "an") (cstr "-AN-")
      = Ok (str', occurrences (cstr "an") 0 (cstr "banana")) /\
    holds str' (replaced (cstr "an") (cstr "-AN-") 0 (cstr "banana")).
Proof.
  split_and!; [by vm_compute..|].
  apply (replace_all_replaces (H := filled 170));
    [|by_evaluation|by_evaluation|done|by vm_compute|by vm_compute].
  split_and!; [done|by vm_compute|by exists [7]].
Defined.

(** Without room behind the NUL, the byte behind the block is read when the
    buffer grows: the length counts the NUL then, and [svn_stringbuf_ensure]
    copies one byte more than that. *)
Example replace_all_over_read :
  (str ← svn_stringbuf_ncreate (H := filled 170) (cstr "1234567");
   svn_stringbuf_replace_all (H := filled 170) str (cstr "5") (cstr "five")) = Err C_UNDEFINED /\
  (str ← svn_stringbuf_ncreate (H := filled 170) (cstr "123456");
   '(str, n) ← svn_stringbuf_replace_all (H := filled 170) str (cstr "5") (cstr "five");
   Ok (take 9 (sb_data str), n)) = Ok (cstr "1234five6", 1).
Proof. by vm_compute. Qed.

(** An empty text is found again at the same place, without end. *)
Example replace_all_empty_text fuel n :
  replace_loop (H := filled 170) fuel (mk_stringbuf (sb_data banana) 7) [] [] (Some 0) 0 n
  = Err OUT_OF_FUEL.
Proof. revert n. induction fuel as [|fuel IH]; intros n; [done|]. apply (IH (n + 1)). Qed.

(** ** Similarity *)

(** C23: [svn_string__similarity] computes the length of a longest common
    subsequence, whatever its buffer contained, and the ratio of twice that
    length to the total length, scaled to [0..SVN_STRING__SIM_RANGE_MAX] and
    rounded; for strings of less than two million characters in total the
    maximum means that they are equal. *)
Theorem similarity_lcs buffer a b :
  (forall n, length (buffer n) = n) -> zlen a + zlen b < 2 ^ 42 ->
  exists n r, svn_string__similarity buffer a b = Ok (r, Z.of_nat n) /\ is_lcs a b n /\
    0 <= r <= SVN_STRING__SIM_RANGE_MAX /\
    (0 < zlen a + zlen b ->
     r = (2 * SVN_STRING__SIM_RANGE_MAX * Z.of_nat n + (zlen a + zlen b) / 2) / (zlen a + zlen b)) /\
    (zlen a + zlen b < 2 * SVN_STRING__SIM_RANGE_MAX -> r = SVN_STRING__SIM_RANGE_MAX <-> a = b).
Proof.
  intros Hbuf Hb. destruct (similarity_lcs_spec buffer a b Hbuf) as (n & r & E & Hn & Hr).
  exists n, r. pose proof (is_lcs_bounds _ _ _ Hn) as [Hna Hnb].
  pose proof (zlen_nonneg a). pose proof (zlen_nonneg b).
  assert (2 * Z.of_nat n <= zlen a + zlen b) as H2 by zlen_lia.
  rewrite u64_small in Hr by lia. cbv zeta in Hr.
  destruct (Z.eqb_spec (zlen a + zlen b) 0) as [E0|E0]; cbn [negb] in Hr.
  - assert (a = [] /\ b = []) as [-> ->] by (split; apply zlen_zero; lia).
    split_and!; [done|done|subst; by vm_compute..|done|done].
  - rewrite u64_small in Hr by (unfold SVN_STRING__SIM_RANGE_MAX; dlia).
    split_and!; [done|done|subst r; apply ratio_range; lia..|done|].
    intros Hsmall. rewrite Hr. split.
    + intros Emax%ratio_max; [|lia..]. apply (is_lcs_full a b n Hn); zlen_lia.
    + intros <-. rewrite (is_lcs_unique _ _ _ _ Hn (is_lcs_self a)).
      change (Z.of_nat (length a)) with (zlen a).
      replace (2 * SVN_STRING__SIM_RANGE_MAX * zlen a + (zlen a + zlen a) / 2)
        with ((zlen a + zlen a) / 2 + SVN_STRING__SIM_RANGE_MAX * (zlen a + zlen a)) by lia.
      rewrite Z.div_add, Z.div_small by dlia. done.
Qed.

Lemma similarity_lcs_witness :
  svn_string__similarity (fun n => replicate n 5) (cstr "apple") (cstr "people") = Ok (727273, 4) /\
  exists n r, svn_string__similarity (fun n => replicate n 5) (cstr "apple") (cstr "people")
      = Ok (r, Z.of_nat n) /\ is_lcs (cstr "apple") (cstr "people") n /\
    0 <= r <= SVN_STRING__SIM_RANGE_MAX /\
    (0 < zlen (cstr "apple") + zlen (cstr "people") ->
     r = (2 * SVN_STRING__SIM_RANGE_MAX * Z.of_nat n + (zlen (cstr "apple") + zlen (cstr "people")) / 2)
         / (zlen (cstr "apple") + zlen (cstr "people"))) /\
    (zlen (cstr "apple") + zlen (cstr "people") < 2 * SVN_STRING__SIM_RANGE_MAX ->
     r = SVN_STRING__SIM_RANGE_MAX <-> cstr "apple" = cstr "people").
Proof.
  split; [by vm_compute|].
  apply (similarity_lcs (fun n => replicate n 5)); [intros k; apply length_replicate|by vm_compute].
Defined.

(** ** Splitting and joining *)

(** [svn_cstring_split] gives the pieces of the string between separators,
    trimmed at both ends if this is asked for, without the empty ones;
    [svn_cstring_join2] gives the strings with the separator in between, and
    splitting that gives the strings again if they are not empty and contain
    no separator. *)
Theorem cstring_split_join `{Allocator} sep input ws strings separator trailing :
  zlen (joined2 strings separator trailing) < STRING_BOUND - 1 ->
  svn_cstring_split input sep ws = Ok (nonempty (map (trimmed ws) (pieces sep input))) /\
  (exists str, svn_cstring_join2 strings separator trailing = Ok str /\
     holds str (joined2 strings separator trailing)) /\
  (separator <> [] -> Forall (fun c => c ∈ sep) separator ->
   Forall (fun s => s <> [] /\ Forall (fun c => ~ c ∈ sep) s) strings ->
   svn_cstring_split (joined strings separator) sep false = Ok strings).
Proof.
  intros Hb. unfold svn_cstring_split. split_and!.
  - apply split_append_spec.
  - by apply join2_holds.
  - intros. rewrite split_append_spec. simpl. f_equal. unfold trimmed.
    rewrite map_id. by apply split_joined.
Qed.

Lemma cstring_split_join_witness :
  nonempty (map (trimmed true) (pieces (cstr ",;") (cstr " a b ,; ,c;;"))) = [cstr "a b"; cstr "c"] /\
  svn_cstring_split (cstr " a b ,; ,c;;") (cstr ",;") true =
    Ok (nonempty (map (trimmed true) (pieces (cstr ",;") (cstr " a b ,; ,c;;")))) /\
  (exists str, svn_cstring_join2 (H := filled 170) [cstr "x"; cstr "yz"] (cstr ";,") true = Ok str /\
     holds str (joined2 [cstr "x"; cstr "yz"] (cstr ";,") true)) /\
  (cstr ";," <> [] -> Forall (fun c => c ∈ cstr ",;") (cstr ";,") ->
   Forall (fun s => s <> [] /\ Forall (fun c => ~ c ∈ cstr ",;") s) [cstr "x"; cstr "yz"] ->
   svn_cstring_split (joined [cstr "x"; cstr "yz"] (cstr ";,")) (cstr ",;") false
     = Ok [cstr "x"; cstr "yz"]).
Proof.
  split; [by vm_compute|]. apply (cstring_split_join (H := filled 170)). by vm_compute.
Defined.

(** ** Comparing without regard to case *)

(** [svn_cstring_casecmp] is a total order of C strings up to the case of
    ASCII letters, and 0 exactly for strings that are equal up to case. *)
Theorem casecmp_order a b c :
  c_string a -> c_string b -> c_string c ->
  (svn_cstring_casecmp a b = 0 <-> map fold_case a = map fold_case b) /\
  svn_cstring_casecmp b a = - svn_cstring_casecmp a b /\
  (svn_cstring_casecmp a b <= 0 -> svn_cstring_casecmp b c <= 0 -> svn_cstring_casecmp a c <= 0).
Proof.
  intros Ha Hb Hc. rewrite !casecmp_folded by done.
  apply c_string_fold in Ha, Hb, Hc. split_and!.
  - by apply first_difference_zero.
  - apply first_difference_opp.
  - by apply first_difference_trans.
Qed.

Lemma casecmp_order_witness :
  (svn_cstring_casecmp (cstr "HeLLo") (cstr "hello") = 0 <->
   map fold_case (cstr "HeLLo") = map fold_case (cstr "hello")) /\
  svn_cstring_casecmp (cstr "hello") (cstr "HeLLo") = - svn_cstring_casecmp (cstr "HeLLo") (cstr "hello") /\
  (svn_cstring_casecmp (cstr "HeLLo") (cstr "hello") <= 0 ->
   svn_cstring_casecmp (cstr "hello") (cstr "z") <= 0 ->
   svn_cstring_casecmp (cstr "HeLLo") (cstr "z") <= 0).
Proof. apply casecmp_order; by_evaluation. Defined.

(** ** Reading numbers *)

(** C24: [svn_cstring_strtoi64] and [svn_cstring_strtoui64] accept in base 10
    exactly white space, a sign or none and one or more digits that denote a
    number in the given range and in the range of the signed type; they return
    that number, never one that was clipped, and the only other result is the
    error for incorrect parameters; what [svn__i64toa] writes is read back. *)
Theorem strtoi64_reads str minval maxval m :
  - 2 ^ 63 <= m < 2 ^ 63 ->
  (forall v, svn_cstring_strtoi64 str minval maxval 10 = Ok v <->
     number_text str v /\ INT64_MIN <= v <= INT64_MAX /\ minval <= v <= maxval) /\
  (forall v, 0 <= minval -> maxval < 2 ^ 64 ->
     svn_cstring_strtoui64 str minval maxval 10 = Ok v <->
     number_text str v /\ v <= INT64_MAX /\ minval <= v <= maxval) /\
  (forall base e, svn_cstring_strtoi64 str minval maxval base = Err e -> e = SVN_ERR_INCORRECT_PARAMS) /\
  (svn__i64toa m ≫= fun s => Some (svn_cstring_atoi64 s)) = Some (Ok m).
Proof.
  intros Hm. split_and!.
  - intros v. apply strtoi64_iff.
  - intros v Hmin Hmax. rewrite strtoui64_strtoi64, strtoi64_iff by done.
    unfold INT64_MIN. split; intros (? & ? & ?); split_and!; (done || lia).
  - intros base e. apply strtoi64_error.
  - rewrite i64toa_print by done. simpl. f_equal. unfold svn_cstring_atoi64.
    apply strtoi64_iff. unfold INT64_MIN, INT64_MAX.
    split; [apply number_text_print|lia].
Qed.

Lemma strtoi64_reads_witness :
  svn_cstring_strtoi64 (cstr " +0042") 0 100 10 = Ok 42 /\
  (forall v, svn_cstring_strtoi64 (cstr " +0042") 0 100 10 = Ok v <->
     number_text (cstr " +0042") v /\ INT64_MIN <= v <= INT64_MAX /\ 0 <= v <= 100) /\
  (forall v, 0 <= 0 -> 100 < 2 ^ 64 ->
     svn_cstring_strtoui64 (cstr " +0042") 0 100 10 = Ok v <->
     number_text (cstr " +0042") v /\ v <= INT64_MAX /\ 0 <= v <= 100) /\
  (forall base e, svn_cstring_strtoi64 (cstr " +0042") 0 100 base = Err e -> e = SVN_ERR_INCORRECT_PARAMS) /\
  (svn__i64toa (- 2 ^ 63) ≫= fun s => Some (svn_cstring_atoi64 s)) = Some (Ok (- 2 ^ 63)).
Proof. split; [by vm_compute|]. apply strtoi64_reads. lia. Defined.

(** ** Classes of characters *)

(** The tests for white space, digits and letters are those of ASCII, and the
    class of printable characters contains tabs and line ends. *)
Example ctype_ascii :
  Forall (fun c =>
    svn_ctype_isspace c = (c =? 32) || (9 <=? c) && (c <=? 13) /\
    svn_ctype_isdigit c = (48 <=? c) && (c <=? 57) /\
    svn_ctype_isalpha c = (65 <=? c) && (c <=? 90) || (97 <=? c) && (c <=? 122) /\
    svn_ctype_isascii c = (c <? 128) /\
    svn_ctype_isprint c = (32 <=? c) && (c <=? 126) || (9 <=? c) && (c <=? 13))
  (Z.of_nat <$> seq 0 256).
Proof. by_evaluation. Qed.

(** The flag for leading bytes is missing for two bytes that start characters,
    and set for bytes that start none. *)
Example ctype_utf8_lead :
  svn_ctype_isutf8lead 0xe0 = false /\ svn_ctype_isutf8lead 0xf0 = false /\
  svn_ctype_isutf8lead 0xc1 = true /\ svn_ctype_isutf8lead 0xf5 = true.
Proof. by vm_compute. Qed.
