(* ===== verification/Quoprint.v ===== *)
(** * Quoted-printable (libsvn_subr/quoprint.c)

    The encoder and the decoder as conversions of strings and as streams.  The
    loop of the decoder also reads the byte behind its data, so that the model
    of the data is a block of memory with a length. *)

From S2P Require Import Prelude Buffers StringBuf OutStream.

Definition QUOPRINT_LINELEN : Z := 76.

Definition VALID_LITERAL (c : Z) : bool :=
  (c =? 9) || ((" "%cc <=? c) && (c <=? "~"%cc) && negb (c =? "="%cc)).

(** 39, 34: the two kinds of quotes. *)
Definition ENCODE_AS_LITERAL (c : Z) : bool :=
  VALID_LITERAL c && negb (c =? 9) && negb (c =? "<"%cc) && negb (c =? ">"%cc) && negb (c =? 39)
  && negb (c =? 34) && negb (c =? "&"%cc).

Definition hextab : bytes := cstr "0123456789ABCDEF".

Section Quoprint.
Context `{Allocator}.

(** ** Encoding *)

Fixpoint encode_bytes (str : svn_stringbuf_t) (data : bytes) (linelen : Z) : result (svn_stringbuf_t * Z) :=
  match data with
  | [] => Ok (str, linelen)
  | c :: data =>
      '(str, linelen) ←
        (if ENCODE_AS_LITERAL c then
           str ← svn_stringbuf_appendbyte str c; Ok (str, linelen + 1)
         else
           let buf := ["="%cc; byte_at hextab (Z.land (Z.shiftr c 4) 0xf); byte_at hextab (Z.land c 0xf)] in
           str ← svn_stringbuf_appendbytes str (Outside buf) 3; Ok (str, linelen + 3));
      '(str, linelen) ←
        (if QUOPRINT_LINELEN <? linelen + 3 then
           str ← svn_stringbuf_appendcstr str ["="%cc; 10]; Ok (str, 0)
         else Ok (str, linelen));
      encode_bytes str data linelen
  end.

Record encode_baton := mk_encode_baton {
  eb_output : svn_stream_t;
  eb_linelen : Z
}.

Definition encode_data (eb : encode_baton) (data : bytes) : result encode_baton :=
  encoded ← svn_stringbuf_create_empty;
  '(encoded, linelen) ← encode_bytes encoded data (eb_linelen eb);
  output ← write_buffer (eb_output eb) encoded;
  Ok (mk_encode_baton output linelen).

Definition finish_encoding_data (eb : encode_baton) : svn_stream_t :=
  let output := if 0 <? eb_linelen eb then svn_stream_write (eb_output eb) ["="%cc; 10] else eb_output eb in
  svn_stream_close output.

Definition svn_quoprint_encode (output : svn_stream_t) : encode_baton := mk_encode_baton output 0.

Definition svn_quoprint_encode_string (str : svn_stringbuf_t) : result svn_stringbuf_t :=
  encoded ← svn_stringbuf_create_empty;
  data ← memcpy_from (sb_data str) 0 (sb_len str);
  '(encoded, linelen) ← encode_bytes encoded data 0;
  if 0 <? linelen then svn_stringbuf_appendcstr encoded ["="%cc; 10] else Ok encoded.

(** ** Decoding *)

(** [strchr (hextab, c) - hextab]: the NUL at the end is found, too. *)
Definition hex_index (c : Z) : option Z :=
  if c =? 0 then Some 16 else Z.of_nat ∘ fst <$> list_find (fun d => d = c) hextab.

(** The body of the loop: [inbuf] has the bytes that wait. *)
Definition decode_byte (str : svn_stringbuf_t) (inbuf : bytes) (p : Z) : result (svn_stringbuf_t * bytes) :=
  match inbuf ++ [p] with
  | [] => Err C_UNDEFINED
  | c0 :: waiting =>
      if negb (c0 =? "="%cc) then
        str ← (if VALID_LITERAL c0 then svn_stringbuf_appendbyte str c0 else Ok str);
        Ok (str, [])
      else
        match waiting with
        | [c1] => if c1 =? 10 then Ok (str, []) else Ok (str, c0 :: waiting)
        | [c1; c2] =>
            str ← match hex_index c1, hex_index c2 with
                  | Some find1, Some find2 =>
                      svn_stringbuf_appendbyte str (u8 (Z.lor (Z.shiftl find1 4) find2))
                  | _, _ => Ok str
                  end;
            Ok (str, [])
        | _ => Ok (str, c0 :: waiting)
        end
  end.

Fixpoint decode_loop (str : svn_stringbuf_t) (p inbuf : bytes) : result (svn_stringbuf_t * bytes) :=
  match p with
  | [] => Ok (str, inbuf)
  | c :: p => '(str, inbuf) ← decode_byte str inbuf c; decode_loop str p inbuf
  end.

(** The loop condition is [p <= data + len]. *)
Definition decode_bytes (str : svn_stringbuf_t) (data : bytes) (len : Z) (inbuf : bytes)
    : result (svn_stringbuf_t * bytes) :=
  p ← memcpy_from data 0 (len + 1);
  decode_loop str p inbuf.

Record decode_baton := mk_decode_baton {
  db_output : svn_stream_t;
  db_buf : bytes
}.

Definition decode_data (db : decode_baton) (data : bytes) (len : Z) : result decode_baton :=
  decoded ← svn_stringbuf_create_empty;
  '(decoded, buf) ← decode_bytes decoded data len (db_buf db);
  output ← write_buffer (db_output db) decoded;
  Ok (mk_decode_baton output buf).

Definition finish_decoding_data (db : decode_baton) : svn_stream_t := svn_stream_close (db_output db).

Definition svn_quoprint_decode (output : svn_stream_t) : decode_baton := mk_decode_baton output [].

Definition svn_quoprint_decode_string (str : svn_stringbuf_t) : result svn_stringbuf_t :=
  decoded ← svn_stringbuf_create_empty;
  '(decoded, _) ← decode_bytes decoded (sb_data str) (sb_len str) [];
  Ok decoded.
End Quoprint.
