(* ===== verification/QuoprintFacts.v ===== *)
(** * Quoted-printable: text and data

    The text of data and the data of a text; the operations of [Quoprint]
    agree with both, decoding undoes encoding, and lines are not longer than
    77 characters. *)

From S2P Require Import Prelude Buffers StringBuf StringBufFacts Strings StringsFacts OutStream Quoprint.

(** ** The text of data *)

Definition quoted_byte (c : Z) : bytes :=
  if ENCODE_AS_LITERAL c then [c]
  else ["="%cc; byte_at hextab (Z.land (Z.shiftr c 4) 0xf); byte_at hextab (Z.land c 0xf)].

(** A soft line break when nothing else fits, and the length of the line
    behind it. *)
Definition breaks (linelen : Z) : bool := QUOPRINT_LINELEN <? linelen + 3.

Definition soft_break (linelen : Z) : bytes := if breaks linelen then ["="%cc; 10] else [].

(** The text, and the length of its last line. *)
Fixpoint quoted (linelen : Z) (data : bytes) : bytes * Z :=
  match data with
  | [] => ([], linelen)
  | c :: data =>
      let l := linelen + zlen (quoted_byte c) in
      let '(t, m) := quoted (if breaks l then 0 else l) data in
      (quoted_byte c ++ soft_break l ++ t, m)
  end.

Definition quoprint_text (data : bytes) : bytes :=
  let '(t, m) := quoted 0 data in t ++ (if 0 <? m then ["="%cc; 10] else []).

Lemma quoted_app data1 data2 : forall l,
  quoted l (data1 ++ data2) =
    let '(t1, l1) := quoted l data1 in let '(t2, l2) := quoted l1 data2 in (t1 ++ t2, l2).
Proof.
  induction data1 as [|c data1 IH]; intros l; cbn [quoted app]; [by destruct (quoted l data2)|].
  cbv zeta. rewrite IH. destruct (quoted _ data1) as [t1 l1]. destruct (quoted l1 data2) as [t2 l2].
  by rewrite <- !app_assoc.
Qed.

Lemma quoted_byte_length c : 1 <= zlen (quoted_byte c) <= 3.
Proof. unfold quoted_byte. destruct (ENCODE_AS_LITERAL c); by split. Qed.

Lemma quoted_length data : forall l, zlen (quoted l data).1 <= 5 * zlen data.
Proof.
  induction data as [|c data IH]; intros l; cbn [quoted]; [done|]. cbv zeta.
  set (l' := if breaks _ then _ else _). specialize (IH l'). destruct (quoted l' data) as [t m].
  cbn [fst] in *. rewrite !zlen_app, zlen_cons. pose proof (quoted_byte_length c).
  assert (zlen (soft_break (l + zlen (quoted_byte c))) <= 2) by (unfold soft_break; by destruct (breaks _)).
  lia.
Qed.

Section Encoder.
Context `{Allocator}.

Lemma appendcstr_holds str s b :
  holds str s -> zlen s + zlen b < STRING_BOUND - 1 ->
  exists str', svn_stringbuf_appendcstr str b = Ok str' /\ holds str' (s ++ b).
Proof. apply appendbytes_outside. Qed.

Lemma quoprint_encode_bytes data : forall str s l,
  holds str s -> zlen s + zlen (quoted l data).1 < STRING_BOUND - 8 ->
  exists str', encode_bytes str data l = Ok (str', (quoted l data).2) /\ holds str' (s ++ (quoted l data).1).
Proof.
  induction data as [|c data IH]; intros str s l Hstr Hb; cbn [encode_bytes quoted] in *.
  { exists str. by rewrite app_nil_r. }
  cbv zeta in *. set (l1 := l + zlen (quoted_byte c)) in *. set (l2 := if breaks l1 then 0 else l1) in *.
  specialize (IH). destruct (quoted l2 data) as [t m] eqn:E. cbn [fst snd] in *.
  rewrite !zlen_app in Hb. pose proof (zlen_nonneg t). pose proof (zlen_nonneg s).
  pose proof (zlen_nonneg (soft_break l1)). pose proof (zlen_nonneg (quoted_byte c)).
  assert (exists str1, (if ENCODE_AS_LITERAL c then
           str ← svn_stringbuf_appendbyte str c; Ok (str, l + 1)
         else
           str ← svn_stringbuf_appendbytes str (Outside ["="%cc; byte_at hextab (Z.land (Z.shiftr c 4) 0xf);
             byte_at hextab (Z.land c 0xf)]) 3; Ok (str, l + 3)) = Ok (str1, l1) /\
    holds str1 (s ++ quoted_byte c)) as (str1 & -> & Hstr1).
  { unfold l1, quoted_byte in *. destruct (ENCODE_AS_LITERAL c).
    - destruct (appendbyte_holds str s c Hstr) as (str1 & -> & Hs1); [lia|]. by exists str1.
    - match goal with |- context [Outside ?b] => destruct (appendbytes_outside str s b Hstr) as (str1 & E1 & Hs1); [lia|] end.
      exists str1. split; [|done]. exact (f_equal (fun r => r ≫= fun str => Ok (str, l + 3)) E1). }
  cbn [mbind result_bind].
  assert (exists str2, (if QUOPRINT_LINELEN <? l1 + 3 then
           str ← svn_stringbuf_appendcstr str1 ["="%cc; 10]; Ok (str, 0)
         else Ok (str1, l1)) = Ok (str2, l2) /\
    holds str2 ((s ++ quoted_byte c) ++ soft_break l1)) as (str2 & -> & Hstr2).
  { unfold l2, soft_break in *. unfold breaks in *. destruct (QUOPRINT_LINELEN <? l1 + 3).
    - destruct (appendcstr_holds str1 _ ["="%cc; 10] Hstr1) as (str2 & -> & Hs2); [rewrite zlen_app; lia|].
      by exists str2.
    - exists str1. by rewrite app_nil_r. }
  cbn [mbind result_bind].
  destruct (IH str2 _ l2 Hstr2) as (str' & -> & Hstr'); [rewrite E, !zlen_app; cbn [fst]; lia|].
  rewrite E in *. cbn [fst snd] in *. exists str'. by rewrite <- !app_assoc in Hstr'.
Qed.

Lemma quoprint_encode_string str s :
  holds str s -> zlen s < 2 ^ 57 ->
  exists str', svn_quoprint_encode_string str = Ok str' /\ holds str' (quoprint_text s).
Proof.
  intros (Hl & _ & junk & Hd) Hb. unfold svn_quoprint_encode_string, quoprint_text.
  pose proof (quoted_length s 0). pose proof (zlen_nonneg (quoted 0 s).1).
  destruct (create_ensure_holds 0) as (str0 & E0 & Hstr0 & _); [done|].
  change svn_stringbuf_create_empty with (svn_stringbuf_create_ensure 0). rewrite E0. cbn [mbind result_bind].
  rewrite Hd, Hl, memcpy_from_prefix. cbn [mbind result_bind].
  destruct (quoprint_encode_bytes s str0 [] 0 Hstr0) as (str1 & -> & Hstr1); [unfold STRING_BOUND; rewrite zlen_nil; lia|].
  cbn [mbind result_bind app] in *. destruct (quoted 0 s) as [t m]. cbn [fst snd] in *.
  destruct (0 <? m).
  - apply appendcstr_holds; [done|]. unfold STRING_BOUND. change (zlen ["="%cc; 10]) with 2. lia.
  - exists str1. by rewrite app_nil_r.
Qed.

(** Data in pieces. *)
Lemma quoprint_encode_blocks blocks : forall output l,
  zlen (concat blocks) < 2 ^ 57 ->
  exists output', write_blocks encode_data (mk_encode_baton output l) blocks =
    Ok (mk_encode_baton output' (quoted l (concat blocks)).2) /\
    received output' = received output ++ (quoted l (concat blocks)).1.
Proof.
  induction blocks as [|data blocks IH]; intros output l Hb; cbn [write_blocks concat].
  { exists output. by rewrite app_nil_r. }
  cbn [concat] in Hb. rewrite zlen_app in Hb. pose proof (zlen_nonneg data). pose proof (zlen_nonneg (concat blocks)).
  unfold encode_data at 2. cbn [eb_linelen eb_output].
  destruct (create_ensure_holds 0) as (str0 & E0 & Hstr0 & _); [done|].
  change svn_stringbuf_create_empty with (svn_stringbuf_create_ensure 0). rewrite E0. cbn [mbind result_bind].
  pose proof (quoted_length data l).
  destruct (quoprint_encode_bytes data str0 [] l Hstr0) as (str1 & -> & Hstr1); [unfold STRING_BOUND; rewrite zlen_nil; lia|].
  cbn [mbind result_bind app] in *.
  destruct (write_buffer_received output str1 _ Hstr1) as (output1 & -> & Hrec & _). cbn [mbind result_bind].
  rewrite quoted_app. destruct (quoted l data) as [t1 l1]. cbn [fst snd] in *.
  destruct (IH output1 l1) as (output' & -> & Hrec'); [lia|].
  exists output'. destruct (quoted l1 (concat blocks)) as [t2 l2]. cbn [fst snd] in *.
  by rewrite Hrec', Hrec, <- app_assoc.
Qed.

Lemma quoprint_encode_stream blocks :
  zlen (concat blocks) < 2 ^ 57 ->
  exists eb, write_blocks encode_data (svn_quoprint_encode new_stream) blocks = Ok eb /\
    received (finish_encoding_data eb) = quoprint_text (concat blocks) /\
    closed (finish_encoding_data eb) = true.
Proof.
  intros Hb. destruct (quoprint_encode_blocks blocks new_stream 0 Hb) as (output & E & Hrec).
  unfold svn_quoprint_encode. rewrite E. eexists. split; [done|]. split; [|done].
  unfold finish_encoding_data, quoprint_text. cbn [eb_linelen eb_output].
  destruct (quoted 0 (concat blocks)) as [t m]. cbn [fst snd] in *.
  change (received (svn_stream_close ?x)) with (received x).
  destruct (0 <? m); [|by rewrite app_nil_r].
  unfold received, svn_stream_write in *. cbn [written svn_stream_close] in *.
  rewrite concat_app. cbn [concat]. by rewrite Hrec, app_nil_r.
Qed.
End Encoder.

(** ** The data of a text *)

(** What one more byte gives, and the bytes that wait then. *)
Definition dequoted_byte (inbuf : bytes) (p : Z) : bytes * bytes :=
  match inbuf ++ [p] with
  | [] => ([], [])
  | c0 :: waiting =>
      if negb (c0 =? "="%cc) then (if VALID_LITERAL c0 then [c0] else [], [])
      else
        match waiting with
        | [c1] => if c1 =? 10 then ([], []) else ([], c0 :: waiting)
        | [c1; c2] =>
            (match hex_index c1, hex_index c2 with
             | Some find1, Some find2 => [u8 (Z.lor (Z.shiftl find1 4) find2)]
             | _, _ => []
             end, [])
        | _ => ([], c0 :: waiting)
        end
  end.

Fixpoint dequoted (inbuf p : bytes) : bytes * bytes :=
  match p with
  | [] => ([], inbuf)
  | c :: p =>
      let '(out, inbuf) := dequoted_byte inbuf c in
      let '(rest, inbuf) := dequoted inbuf p in (out ++ rest, inbuf)
  end.

Lemma dequoted_app p1 p2 : forall inbuf,
  dequoted inbuf (p1 ++ p2) =
    let '(o1, b1) := dequoted inbuf p1 in let '(o2, b2) := dequoted b1 p2 in (o1 ++ o2, b2).
Proof.
  induction p1 as [|c p1 IH]; intros inbuf; cbn [dequoted app]; [by destruct (dequoted inbuf p2)|].
  destruct (dequoted_byte inbuf c) as [o b]. rewrite IH. destruct (dequoted b p1) as [o1 b1].
  destruct (dequoted b1 p2) as [o2 b2]. by rewrite app_assoc.
Qed.

Lemma dequoted_byte_length inbuf p : zlen (dequoted_byte inbuf p).1 <= 1.
Proof.
  unfold dequoted_byte. destruct (inbuf ++ [p]) as [|c0 w]; [done|].
  destruct (negb _); [by destruct (VALID_LITERAL c0)|].
  destruct w as [|c1 [|c2 [|]]]; try done; [by destruct (c1 =? 10)|].
  by destruct (hex_index c1), (hex_index c2).
Qed.

Section Decoder.
Context `{Allocator}.

Lemma decode_byte_holds str s inbuf p :
  holds str s -> zlen s < STRING_BOUND - 2 ->
  exists str', decode_byte str inbuf p = Ok (str', (dequoted_byte inbuf p).2) /\
    holds str' (s ++ (dequoted_byte inbuf p).1).
Proof.
  intros Hstr Hb. assert (forall c, exists str', svn_stringbuf_appendbyte str c = Ok str' /\ holds str' (s ++ [c])) as Happ.
  { intros c. by apply appendbyte_holds. }
  assert (holds str (s ++ [])) as Hnil by by rewrite app_nil_r.
  unfold decode_byte, dequoted_byte. destruct (inbuf ++ [p]) as [|c0 w] eqn:E; [by destruct inbuf|].
  destruct (negb _).
  { destruct (VALID_LITERAL c0); [|by exists str].
    destruct (Happ c0) as (str' & -> & Hs'). by exists str'. }
  destruct w as [|c1 [|c2 [|]]]; try (by exists str).
  - destruct (c1 =? 10); by exists str.
  - destruct (hex_index c1) as [f1|]; [|by exists str]. destruct (hex_index c2) as [f2|]; [|by exists str].
    destruct (Happ (u8 (Z.lor (Z.shiftl f1 4) f2))) as (str' & -> & Hs'). by exists str'.
Qed.

Lemma quoprint_decode_loop p : forall str s inbuf,
  holds str s -> zlen s + zlen p < STRING_BOUND - 2 ->
  exists str', decode_loop str p inbuf = Ok (str', (dequoted inbuf p).2) /\
    holds str' (s ++ (dequoted inbuf p).1).
Proof.
  induction p as [|c p IH]; intros str s inbuf Hstr Hb; cbn [decode_loop dequoted].
  { exists str. by rewrite app_nil_r. }
  rewrite zlen_cons in Hb. pose proof (zlen_nonneg p).
  destruct (decode_byte_holds str s inbuf c Hstr) as (str1 & -> & Hs1); [lia|].
  pose proof (dequoted_byte_length inbuf c). destruct (dequoted_byte inbuf c) as [o b]. cbn [mbind result_bind fst snd] in *.
  destruct (IH str1 _ b Hs1) as (str' & -> & Hs'); [rewrite zlen_app; lia|].
  destruct (dequoted b p) as [o2 b2]. exists str'. cbn [fst snd] in *. by rewrite app_assoc.
Qed.

(** The NUL behind the text takes part. *)
Lemma quoprint_decode_string str s :
  holds str s -> zlen s < STRING_BOUND - 4 ->
  exists str', svn_quoprint_decode_string str = Ok str' /\ holds str' (dequoted [] (s ++ [0])).1.
Proof.
  intros (Hl & _ & junk & Hd) Hb. unfold svn_quoprint_decode_string, decode_bytes.
  destruct (create_ensure_holds 0) as (str0 & E0 & Hstr0 & _); [done|].
  change svn_stringbuf_create_empty with (svn_stringbuf_create_ensure 0). rewrite E0. cbn [mbind result_bind].
  assert (memcpy_from (sb_data str) 0 (sb_len str + 1) = Ok (s ++ [0])) as ->.
  { rewrite Hd, Hl. change (s ++ 0 :: junk) with (s ++ [0] ++ junk). rewrite app_assoc.
    replace (zlen s + 1) with (zlen (s ++ [0])) by zlen_lia. apply memcpy_from_prefix. }
  cbn [mbind result_bind].
  destruct (quoprint_decode_loop (s ++ [0]) str0 [] [] Hstr0) as (str' & -> & Hs');
    [rewrite zlen_app, zlen_nil; change (zlen [0]) with 1; lia|].
  cbn [mbind result_bind]. by exists str'.
Qed.
End Decoder.

(** ** Decoding undoes encoding *)

Lemma dequoted_quoted_byte c p :
  is_byte c -> dequoted [] (quoted_byte c ++ p) = let '(o, b) := dequoted [] p in (c :: o, b).
Proof.
  intros Hc. rewrite dequoted_app.
  assert (Forall (fun c => dequoted [] (quoted_byte c) = ([c], [])) (seqZ 0 256)) as Hall by by_evaluation.
  rewrite Forall_forall in Hall. rewrite Hall; [done|]. apply elem_of_seqZ. unfold is_byte in Hc. lia.
Qed.

Lemma dequoted_break l p : dequoted [] (soft_break l ++ p) = dequoted [] p.
Proof.
  unfold soft_break. destruct (breaks l); [|done]. rewrite dequoted_app.
  change (dequoted [] ["="%cc; 10]) with ([] : bytes, [] : bytes). cbv beta iota. by destruct (dequoted [] p).
Qed.

Lemma dequoted_quoted data : forall l p, Forall is_byte data ->
  dequoted [] ((quoted l data).1 ++ p) = let '(o, b) := dequoted [] p in (data ++ o, b).
Proof.
  induction data as [|c data IH]; intros l p Hall; cbn [quoted]; [cbn [fst app]; by destruct (dequoted [] p)|].
  apply Forall_cons in Hall as [Hc Hall]. cbv zeta. set (l' := if breaks _ then _ else _).
  specialize (IH l' p Hall). destruct (quoted l' data) as [t m]. cbn [fst] in *.
  rewrite <- !app_assoc, dequoted_quoted_byte, dequoted_break, IH by done.
  by destruct (dequoted [] p).
Qed.

Lemma dequoted_text data : Forall is_byte data -> (dequoted [] (quoprint_text data ++ [0])).1 = data.
Proof.
  intros Hall. unfold quoprint_text. pose proof (dequoted_quoted data 0) as Hq.
  destruct (quoted 0 data) as [t m]. cbn [fst] in Hq.
  destruct (0 <? m); rewrite <- app_assoc, Hq by done;
    match goal with |- (let '(o, b) := ?x in _).1 = _ => change x with ([] : bytes, [] : bytes) end;
    simpl; by rewrite app_nil_r.
Qed.

(** ** Lines *)

Lemma quoted_byte_no_newline c : is_byte c -> Forall (fun d => strchr_in [10] d = false) (quoted_byte c).
Proof.
  intros Hc.
  assert (Forall (fun c => Forall (fun d => strchr_in [10] d = false) (quoted_byte c)) (seqZ 0 256)) as Hall by by_evaluation.
  rewrite Forall_forall in Hall. apply Hall, elem_of_seqZ. unfold is_byte in Hc. lia.
Qed.

(** A line with [l] characters so far continues. *)
Lemma quoted_lines data : forall l cur, Forall is_byte data ->
  Forall (fun d => strchr_in [10] d = false) cur -> zlen cur = l -> breaks l = false ->
  let '(t, m) := quoted l data in
  Forall (fun line => zlen line <= QUOPRINT_LINELEN + 1)
    (pieces [10] (cur ++ t ++ (if 0 <? m then ["="%cc; 10] else []))).
Proof.
  unfold breaks, QUOPRINT_LINELEN. induction data as [|c data IH]; intros l cur Hall Hcur Hl Hbr; cbn [quoted].
  { apply Z.ltb_ge in Hbr. simpl. destruct (0 <? l) eqn:E.
    - change (cur ++ ["="%cc; 10]) with (cur ++ ["="%cc] ++ [10]). rewrite app_assoc, pieces_token;
        [|apply Forall_app; by split; [|repeat constructor]|done].
      simpl. repeat constructor; zlen_lia.
    - rewrite pieces_token by done. simpl. constructor; [lia|constructor]. }
  apply Forall_cons in Hall as [Hc Hall]. cbv zeta. apply Z.ltb_ge in Hbr.
  pose proof (quoted_byte_length c) as Hqb. set (l1 := l + zlen (quoted_byte c)) in *.
  unfold soft_break, breaks, QUOPRINT_LINELEN. destruct (76 <? l1 + 3) eqn:E.
  - specialize (IH 0 [] Hall ltac:(constructor) ltac:(done) ltac:(done)). destruct (quoted 0 data) as [t m].
    set (tail := if 0 <? m then _ else _) in *. cbn [app] in IH.
    assert (cur ++ (quoted_byte c ++ ["="%cc; 10] ++ t) ++ tail =
            (cur ++ quoted_byte c ++ ["="%cc]) ++ 10 :: t ++ tail) as -> by by rewrite <- !app_assoc.
    rewrite pieces_token; [|apply Forall_app; split; [done|apply Forall_app; split;
        [by apply quoted_byte_no_newline|by repeat constructor]]|done].
    simpl. rewrite drop_0. constructor; [|exact IH]. unfold l1 in *. zlen_lia.
  - specialize (IH l1 (cur ++ quoted_byte c) Hall).
    destruct (quoted l1 data) as [t m]. cbn [app] in IH |- *. rewrite <- !app_assoc in *. apply IH.
    + apply Forall_app. split; [done|]. by apply quoted_byte_no_newline.
    + rewrite zlen_app. unfold l1. lia.
    + done.
Qed.

Lemma quoprint_text_lines data : Forall is_byte data ->
  Forall (fun line => zlen line <= QUOPRINT_LINELEN + 1) (pieces [10] (quoprint_text data)).
Proof.
  intros Hall. unfold quoprint_text. pose proof (quoted_lines data 0 [] Hall) as Hq.
  destruct (quoted 0 data) as [t m]. by apply Hq.
Qed.
