(* ===== verification/EncoderTheorems.v ===== *)
(** * The properties of base64 and quoted-printable

    The theorems on the strings and streams of [Base64] and [Quoprint], with
    instances at concrete data, the text of a digest, and texts that the
    decoder of quoted-printable reads wrongly. *)

From S2P Require Import Prelude Buffers StringBuf StringBufFacts Strings StringsFacts OutStream Base64.
From S2P Require Import Base64Facts StringTheorems.

Lemma base64_text_length brk s : zlen (base64_text brk s) <= 2 * zlen s + 12.
Proof.
  unfold base64_text. pose proof (zlen_nonneg s) as Hs.
  pose proof (body_length_false s 0) as Hf. pose proof (body_length_true s 0 ltac:(done) ltac:(done)) as Ht.
  destruct (body brk 0 s) as [[t r] l] eqn:E. rewrite zlen_app.
  assert (zlen (ending brk l r) <= 5) as He.
  { unfold ending. rewrite zlen_app. destruct r as [|a [|b r]]; destruct (brk && _);
      change (zlen [10]) with 1; change (zlen (@nil Z)) with 0;
      repeat match goal with |- context [zlen (take ?n (encode_group ?x ?y ?z) ++ ?u)] =>
        change (zlen (take n (encode_group x y z) ++ u)) with 4 end; lia. }
  assert (zlen t <= 2 * zlen s) as Hlen.
  { unfold BASE64_LINELEN in *. destruct brk; rewrite E in *; cbn [fst] in *; dlia. }
  lia.
Qed.

(** C28: Base64: the conversion of a string never writes outside of the block
    that was allocated in advance, gives the text of the data, with or without
    line breaks, and is undone by decoding; the streams give the same text and
    the same data however what is written to them is cut into pieces. *)
Theorem base64_roundtrip `{Allocator} brk blocks pieces :
  Forall is_byte (concat blocks) -> zlen (concat blocks) < 2 ^ 50 ->
  concat pieces = base64_text brk (concat blocks) ->
  (exists enc, svn_base64_encode_string2 (concat blocks) brk = Ok enc /\
     is_string enc (base64_text brk (concat blocks))) /\
  (exists dec, svn_base64_decode_string (base64_text brk (concat blocks)) = Ok dec /\
     is_string dec (concat blocks)) /\
  (exists stream, write_blocks encode_data (svn_base64_encode2 new_stream brk) blocks ≫= finish_encoding_data
     = Ok stream /\ received stream = base64_text brk (concat blocks) /\ closed stream = true) /\
  (exists db, write_blocks decode_data (svn_base64_decode new_stream) pieces = Ok db /\
     received (finish_decoding_data db) = concat blocks /\ closed (finish_decoding_data db) = true).
Proof.
  intros Hall Hb Hp. pose proof (base64_text_length brk (concat blocks)) as Hl. split_and!.
  - destruct (base64_encode_string brk (concat blocks)) as (str & rest & l & str' & E1 & E2 & Hstr); [lia|].
    unfold svn_base64_encode_string2. destruct svn_stringbuf_create_empty as [str0|]; [|done].
    cbn [mbind result_bind] in *. rewrite E1. cbn [mbind result_bind]. rewrite E2. eexists. split; [done|].
    by apply morph_is_string.
  - destruct (base64_decode_string (base64_text brk (concat blocks))) as (dec & E & Hdec); [lia|].
    rewrite decoded_base64_text in Hdec by done. by exists dec.
  - apply base64_encode_stream. lia.
  - destruct (base64_decode_blocks pieces new_stream [] false) as (output & E & Hrec); [simpl; lia|rewrite Hp; lia|].
    unfold svn_base64_decode. rewrite E. eexists. split; [done|]. split; [|done].
    change (received (finish_decoding_data _)) with (received output). rewrite Hrec, Hp. cbn [decoded_if].
    by rewrite decoded_base64_text.
Qed.

Definition sample_data : bytes := Z.of_nat <$> seq 200 56 ++ seq 0 5.

Lemma base64_roundtrip_witness :
  base64_text true (cstr "Man!") = cstr "TWFuIQ==" ++ [10] /\
  (exists enc, svn_base64_encode_string2 (H := filled 170) (concat [sample_data; [7]]) true = Ok enc /\
     is_string enc (base64_text true (concat [sample_data; [7]]))) /\
  (exists dec, svn_base64_decode_string (H := filled 170) (base64_text true (concat [sample_data; [7]])) = Ok dec /\
     is_string dec (concat [sample_data; [7]])) /\
  (exists stream, write_blocks (encode_data (H := filled 170)) (svn_base64_encode2 new_stream true)
       [sample_data; [7]] ≫= finish_encoding_data (H := filled 170)
     = Ok stream /\ received stream = base64_text true (concat [sample_data; [7]]) /\ closed stream = true) /\
  (exists db, write_blocks (decode_data (H := filled 170)) (svn_base64_decode new_stream)
       [take 3 (base64_text true (concat [sample_data; [7]])); drop 3 (base64_text true (concat [sample_data; [7]]))]
     = Ok db /\
     received (finish_decoding_data db) = concat [sample_data; [7]] /\ closed (finish_decoding_data db) = true).
Proof.
  split; [by vm_compute|].
  apply (base64_roundtrip (H := filled 170)); [by_evaluation|by vm_compute|by vm_compute].
Defined.

(** The digest of a checksum: the text without the last line break. *)
Lemma base64_checksum_text `{Allocator} digest :
  digest <> [] -> zlen digest < 2 ^ 50 ->
  exists str, svn_base64_from_md5 digest = Ok str /\
    holds str (take (length (base64_text true digest) - 1) (base64_text true digest)).
Proof.
  intros Hne Hb. destruct (base64_encode_string true digest) as (str & rest & l & str' & E1 & E2 & Hstr); [lia|].
  unfold svn_base64_from_md5, base64_from_checksum. destruct svn_stringbuf_create_empty as [str0|]; [|done].
  cbn [mbind result_bind] in *. rewrite E1. cbn [mbind result_bind]. rewrite E2. cbn [mbind result_bind].
  pose proof Hstr as (Hl & _). rewrite Hl. destruct (Z.eqb_spec (zlen (base64_text true digest)) 0) as [E|E]; cbn [negb].
  - apply zlen_zero in E. rewrite E in *. exists str'. done.
  - destruct (cut_holds str' _ (zlen (base64_text true digest) - 1) Hstr) as (mem & -> & Hm).
    { pose proof (zlen_nonneg (base64_text true digest)). lia. }
    cbn [mbind result_bind]. eexists. split; [done|]. unfold zlen in Hm at 2. 
    by replace (Z.to_nat _) with (length (base64_text true digest) - 1)%nat in Hm by lia.
Qed.

(** ** Quoted-printable *)

From S2P Require Import Quoprint QuoprintFacts.

(** C29: Quoted-printable: encoding gives the text of the data, also when the
    data are written to the stream in pieces; decoding that text gives the data
    back; a line of the text has at most 77 characters. *)
Theorem quoprint_roundtrip `{Allocator} str blocks :
  Forall is_byte (concat blocks) -> zlen (concat blocks) < 2 ^ 50 -> holds str (concat blocks) ->
  (exists enc dec, svn_quoprint_encode_string str = Ok enc /\ holds enc (quoprint_text (concat blocks)) /\
     svn_quoprint_decode_string enc = Ok dec /\ holds dec (concat blocks)) /\
  (exists eb, write_blocks encode_data (svn_quoprint_encode new_stream) blocks = Ok eb /\
     received (finish_encoding_data eb) = quoprint_text (concat blocks) /\
     closed (finish_encoding_data eb) = true) /\
  Forall (fun line => zlen line <= QUOPRINT_LINELEN + 1) (pieces [10] (quoprint_text (concat blocks))).
Proof.
  intros Hall Hb Hstr. split_and!.
  - destruct (quoprint_encode_string str (concat blocks) Hstr) as (enc & -> & Henc); [lia|].
    destruct (quoprint_decode_string enc (quoprint_text (concat blocks)) Henc) as (dec & E & Hdec).
    { unfold quoprint_text. pose proof (quoted_length (concat blocks) 0). pose proof (zlen_nonneg (concat blocks)).
      destruct (quoted 0 (concat blocks)) as [t m]. cbn [fst] in *. unfold STRING_BOUND.
      destruct (0 <? m); rewrite zlen_app; [change (zlen ["="%cc; 10]) with 2|rewrite zlen_nil]; lia. }
    rewrite dequoted_text in Hdec by done. by exists enc, dec.
  - apply quoprint_encode_stream. lia.
  - by apply quoprint_text_lines.
Qed.

Definition sample_buffer : svn_stringbuf_t := mk_stringbuf (cstr "a=b" ++ [10; 255] ++ [0; 9]) 5.

Lemma quoprint_roundtrip_witness :
  quoprint_text (cstr "a=b" ++ [10; 255]) = cstr "a=3Db=0A=FF=" ++ [10] /\
  (exists enc dec, svn_quoprint_encode_string (H := filled 170) sample_buffer = Ok enc /\
     holds enc (quoprint_text (concat [cstr "a=b"; [10]; [255]])) /\
     svn_quoprint_decode_string (H := filled 170) enc = Ok dec /\
     holds dec (concat [cstr "a=b"; [10]; [255]])) /\
  (exists eb, write_blocks (encode_data (H := filled 170)) (svn_quoprint_encode new_stream)
       [cstr "a=b"; [10]; [255]] = Ok eb /\
     received (finish_encoding_data eb) = quoprint_text (concat [cstr "a=b"; [10]; [255]]) /\
     closed (finish_encoding_data eb) = true) /\
  Forall (fun line => zlen line <= QUOPRINT_LINELEN + 1)
    (pieces [10] (quoprint_text (concat [cstr "a=b"; [10]; [255]]))).
Proof.
  split; [by vm_compute|].
  apply (quoprint_roundtrip (H := filled 170) sample_buffer); [by_evaluation|by vm_compute|].
  split_and!; [done|by vm_compute|by exists [9]].
Defined.

(** The byte behind a block is read: undefined if there is none, and taken for
    a part of the text if there is one.  An escape at the end of a string is
    completed by the NUL, whose index in the table of digits is 16. *)
Example quoprint_reads_behind :
  decode_data (H := filled 170) (svn_quoprint_decode new_stream) (cstr "ab") 2 = Err C_UNDEFINED /\
  (db ← decode_data (H := filled 170) (svn_quoprint_decode new_stream) (cstr "=41") 2;
   db ← decode_data (H := filled 170) db (cstr "1" ++ [0]) 1;
   Ok (received (finish_decoding_data db))) = Ok (cstr "A1") /\
  (str ← svn_stringbuf_ncreate (H := filled 170) (cstr "=4");
   str ← svn_quoprint_decode_string (H := filled 170) str;
   Ok (take 1 (sb_data str))) = Ok (cstr "P").
Proof. by vm_compute. Qed.

(** A line of 73 characters takes one more escape and the equals sign. *)
Example quoprint_long_line :
  Forall (fun line => zlen line = QUOPRINT_LINELEN + 1)
    (take 1 (pieces [10] (quoprint_text (replicate 73 97 ++ [0])))).
Proof. by_evaluation. Qed.
