(* ===== verification/Rangelist.v ===== *)
(** * Merge ranges and rangelists (libsvn_subr/mergeinfo.c)

    A merge range describes the revisions [start + 1 .. end] of a merge source
    (a forward range) or their reverse; a rangelist is the array of the ranges
    merged from one path.  This file translates the operations of mergeinfo.c
    on single ranges and on rangelists; [Mergeinfo] builds the operations on
    whole mergeinfo hashes from them.  A [svn_boolean_t] is a [bool]; a
    rangelist modified in place is returned. *)

From S2P Require Import Prelude CString.

(** ** Data *)

Record svn_merge_range := mk_range {
  start : Z;
  end_ : Z;
  inheritable : bool
}.

#[export] Instance merge_range_eq_dec : EqDecision svn_merge_range.
Proof. solve_decision. Defined.

Notation rangelist := (list svn_merge_range).

Definition set_start (r : svn_merge_range) (s : Z) := mk_range s (end_ r) (inheritable r).
Definition set_end (r : svn_merge_range) (e : Z) := mk_range (start r) e (inheritable r).
Definition set_inheritable (r : svn_merge_range) (b : bool) :=
  mk_range (start r) (end_ r) b.

Definition SVN_INVALID_REVNUM : Z := -1.
Definition SVN_IS_VALID_REVNUM (n : Z) : bool := 0 <=? n.

Definition IS_VALID_FORWARD_RANGE (r : svn_merge_range) : bool :=
  SVN_IS_VALID_REVNUM (start r) && (start r <? end_ r).

(** ** Comparing and sorting (libsvn_subr/sorts.c) *)

Definition svn_sort_compare_ranges (item1 item2 : svn_merge_range) : Z :=
  if (start item1 =? start item2) && (end_ item1 =? end_ item2) then 0
  else if start item1 =? start item2 then
    if end_ item1 <? end_ item2 then -1 else 1
  else if start item1 <? start item2 then -1 else 1.

Definition range_le (a b : svn_merge_range) : Prop := svn_sort_compare_ranges a b <= 0.

#[export] Instance range_le_dec : RelDecision range_le.
Proof. unfold RelDecision, range_le. intros. apply _. Defined.

(** [svn_sort__array] with that comparison: [qsort] of the C library. *)
Definition sort_ranges (rl : rangelist) : rangelist := merge_sort range_le rl.

(** ** Operations on two ranges *)

Definition combine_ranges (in1 in2 : svn_merge_range) (consider_inheritance : bool)
    : option svn_merge_range :=
  if (start in1 <=? end_ in2) && (start in2 <=? end_ in1) then
    if negb consider_inheritance
       || (consider_inheritance && eqb (inheritable in1) (inheritable in2))
    then Some (mk_range (Z.min (start in1) (start in2)) (Z.max (end_ in1) (end_ in2))
                        (inheritable in1 || inheritable in2))
    else None
  else None.

Inductive intersection_type_t :=
  | svn__no_intersection
  | svn__equal_intersection
  | svn__adjoining_intersection
  | svn__overlapping_intersection
  | svn__proper_subset_intersection.

Definition get_type_of_intersection (r1 r2 : svn_merge_range) : result intersection_type_t :=
  svn_err_assert (IS_VALID_FORWARD_RANGE r1);;
  svn_err_assert (IS_VALID_FORWARD_RANGE r2);;
  Ok (if negb ((start r1 <=? end_ r2) && (start r2 <=? end_ r1)) then
        svn__no_intersection
      else if (start r1 =? start r2) && (end_ r1 =? end_ r2) then
        svn__equal_intersection
      else if (end_ r1 =? start r2) || (end_ r2 =? start r1) then
        svn__adjoining_intersection
      else if (start r1 <=? start r2) && (end_ r2 <=? end_ r1) then
        svn__proper_subset_intersection
      else if (start r2 <=? start r1) && (end_ r1 <=? end_ r2) then
        svn__proper_subset_intersection
      else svn__overlapping_intersection).

Definition range_intersect (first second : svn_merge_range) (consider_inheritance : bool)
    : result bool :=
  svn_err_assert (IS_VALID_FORWARD_RANGE first);;
  svn_err_assert (IS_VALID_FORWARD_RANGE second);;
  Ok ((start first + 1 <=? end_ second) && (start second + 1 <=? end_ first)
      && (negb consider_inheritance || eqb (inheritable first) (inheritable second))).

Definition range_contains (first second : svn_merge_range) (consider_inheritance : bool)
    : result bool :=
  svn_err_assert (IS_VALID_FORWARD_RANGE first);;
  svn_err_assert (IS_VALID_FORWARD_RANGE second);;
  Ok ((start first <=? start second) && (end_ second <=? end_ first)
      && (negb consider_inheritance || eqb (inheritable first) (inheritable second))).

Definition range_swap_endpoints (r : svn_merge_range) : svn_merge_range :=
  mk_range (end_ r) (start r) (inheritable r).

Definition svn_merge_range_contains_rev (range : svn_merge_range) (rev : Z) : result bool :=
  c_assert (SVN_IS_VALID_REVNUM (start range));;
  c_assert (SVN_IS_VALID_REVNUM (end_ range));;
  c_assert (negb (start range =? end_ range));;
  Ok (if start range <? end_ range
      then (start range <? rev) && (rev <=? end_ range)
      else (end_ range <? rev) && (rev <=? start range)).

(** ** [combine_with_lastrange] *)

(** The overlapping case: the older range first, the intersection absorbed
    into the inheritable one. *)
Definition combine_overlapping (lastrange new_range : svn_merge_range)
    : svn_merge_range * svn_merge_range :=
  let r1 := lastrange in
  let r2 := new_range in
  let '(r1, r2) := if start r2 <? start r1 then (new_range, r1) else (r1, r2) in
  if inheritable r1 then (r1, set_start r2 (end_ r1))
  else (set_end r1 (start r2), r2).

(** The proper subset case: the superset first, then what the subset and the
    remainder of the superset become. *)
Definition combine_subset (lastrange new_range : svn_merge_range)
    : svn_merge_range * option svn_merge_range * option svn_merge_range :=
  let r1 := lastrange in
  let r2 := new_range in
  let '(r1, r2) :=
    if (start r2 <? start r1) || (end_ r1 <? end_ r2) then (new_range, r1) else (r1, r2) in
  if inheritable r1 then
    (mk_range (Z.min (start r1) (start r2)) (Z.max (end_ r1) (end_ r2)) (inheritable r1),
     None, None)
  else if start r1 =? start r2 then
    let tmp_revnum := end_ r1 in
    let r1' := mk_range (start r1) (end_ r2) true in
    (r1', Some (mk_range (end_ r1') tmp_revnum (inheritable r1)), None)
  else if end_ r1 =? end_ r2 then
    (set_end r1 (start r2), Some (set_inheritable r2 true), None)
  else
    let r3 := mk_range (end_ r2) (end_ r1) (inheritable r1) in
    (set_end r1 (start r2), Some (set_inheritable r2 true), Some r3).

Definition is_less (a b : svn_merge_range) : bool := svn_sort_compare_ranges a b <? 0.

(** The case where inheritance is considered and the ranges could not simply
    be combined; [init] is the rangelist without its last range. *)
Definition combine_considering_inheritance (init : rangelist)
    (lastrange new_range : svn_merge_range) : result rangelist :=
  intersection_type ← get_type_of_intersection new_range lastrange;
  let '(rl, sorted) :=
    match intersection_type with
    | svn__no_intersection =>
        (init ++ [lastrange; new_range], is_less lastrange new_range)
    | svn__equal_intersection => (init ++ [set_inheritable lastrange true], true)
    | svn__adjoining_intersection =>
        (init ++ [lastrange; new_range], is_less lastrange new_range)
    | svn__overlapping_intersection =>
        let '(r1, r2) := combine_overlapping lastrange new_range in
        (init ++ [r1; r2], is_less lastrange r1 && is_less r1 r2)
    | svn__proper_subset_intersection =>
        match combine_subset lastrange new_range with
        | (r1, Some r2, Some r3) =>
            (init ++ [r1; r2; r3], is_less lastrange r1 && is_less r1 r2 && is_less r2 r3)
        | (r1, Some r2, None) =>
            (init ++ [r1; r2], is_less lastrange r1 && is_less r1 r2)
        | (r1, None, Some r3) =>
            (init ++ [r1; r3], is_less lastrange r1 && is_less r1 r3)
        | (r1, None, None) => (init ++ [r1], is_less lastrange r1)
        end
    end in
  Ok (if sorted then rl else sort_ranges rl).

Definition combine_with_lastrange (new_range : svn_merge_range) (rl : rangelist)
    (consider_inheritance : bool) : result rangelist :=
  match last rl with
  | None => Ok (rl ++ [new_range])
  | Some lastrange =>
      let init := take (length rl - 1) rl in
      match combine_ranges lastrange new_range consider_inheritance with
      | Some combined_range => Ok (init ++ [combined_range])
      | None =>
          if negb consider_inheritance then Ok (rl ++ [new_range])
          else combine_considering_inheritance init lastrange new_range
      end
  end.

(** ** Canonical form *)

(** The two loops of [svn_rangelist__is_canonical]. *)
Fixpoint no_overlaps (ranges : rangelist) : bool :=
  match ranges with
  | r :: ((r' :: _) as rest) =>
      if start r' <? end_ r then false
      else if (end_ r =? start r') && eqb (inheritable r) (inheritable r') then false
      else no_overlaps rest
  | _ => true
  end.

Definition svn_rangelist__is_canonical (rl : rangelist) : bool :=
  forallb (fun r => negb (end_ r <=? start r)) rl && no_overlaps rl.

(** The sweep over the sorted array; [lastrange] is the element in front of
    the current one. *)
Fixpoint canonicalize_loop (lastrange : svn_merge_range) (rest : rangelist)
    : result rangelist :=
  match rest with
  | [] => Ok [lastrange]
  | range :: rest' =>
      if (start lastrange <=? end_ range) && (start range <=? end_ lastrange) then
        if (start range <? end_ lastrange)
           && negb (eqb (inheritable range) (inheritable lastrange))
        then Err SVN_ERR_MERGEINFO_PARSE_ERROR
        else if eqb (inheritable lastrange) (inheritable range) then
          canonicalize_loop (set_end lastrange (Z.max (end_ range) (end_ lastrange))) rest'
        else rl ← canonicalize_loop range rest'; Ok (lastrange :: rl)
      else rl ← canonicalize_loop range rest'; Ok (lastrange :: rl)
  end.

Definition svn_rangelist__canonicalize (rl : rangelist) : result rangelist :=
  if svn_rangelist__is_canonical rl then Ok rl
  else match sort_ranges rl with
       | lastrange :: rest => canonicalize_loop lastrange rest
       | [] => Err C_UNDEFINED
       end.

Fixpoint rangelist_is_sorted (rl : rangelist) : bool :=
  match rl with
  | lastrange :: ((thisrange :: _) as rest) =>
      if 0 <? svn_sort_compare_ranges lastrange thisrange then false
      else rangelist_is_sorted rest
  | _ => true
  end.

(** ** Intersection and removal *)

Record ior_state := mk_ior {
  ior_i1 : nat;
  ior_i2 : nat;
  ior_lasti2 : option nat;              (** [None] is the initial -1 *)
  ior_working_elt2 : svn_merge_range;
  ior_output : rangelist
}.

(** One round of the loop of [rangelist_intersect_or_remove]. *)
Definition ior_step (rangelist1 rangelist2 : rangelist)
    (do_remove consider_inheritance : bool) (st : ior_state) : result ior_state :=
  let '(mk_ior i1 i2 lasti2 working_elt2 output) := st in
  match rangelist1 !! i1, rangelist2 !! i2 with
  | Some elt1, Some cur2 =>
      let elt2 := if decide (Some i2 = lasti2) then working_elt2 else cur2 in
      let lasti2 := Some i2 in
      elt1_contains_elt2 ← range_contains elt1 elt2 consider_inheritance;
      elt1_intersects_elt2 ← range_intersect elt1 elt2 consider_inheritance;
      let either := inheritable elt2 || inheritable elt1 in
      if elt1_contains_elt2 : bool then
        output ← (if do_remove then Ok output
                  else combine_with_lastrange (mk_range (start elt2) (end_ elt2) either)
                         output consider_inheritance);
        let i1' := if (start elt2 =? start elt1) && (end_ elt2 =? end_ elt1)
                   then S i1 else i1 in
        Ok (mk_ior i1' (S i2) lasti2 elt2 output)
      else if elt1_intersects_elt2 : bool then
        output ← (if start elt2 <? start elt1 then
                    let tmp_range :=
                      if do_remove
                      then mk_range (start elt2) (start elt1) (inheritable elt2)
                      else mk_range (start elt1) (Z.min (end_ elt2) (end_ elt1)) either in
                    combine_with_lastrange tmp_range output consider_inheritance
                  else Ok output);
        if end_ elt1 <? end_ elt2 then
          output ← (if do_remove then Ok output
                    else combine_with_lastrange
                           (mk_range (Z.max (start elt2) (start elt1)) (end_ elt1) either)
                           output consider_inheritance);
          Ok (mk_ior i1 i2 lasti2 (set_start elt2 (end_ elt1)) output)
        else Ok (mk_ior i1 (S i2) lasti2 elt2 output)
      else if svn_sort_compare_ranges elt1 elt2 <? 0 then
        Ok (mk_ior (S i1) i2 lasti2 elt2 output)
      else
        let output :=
          if do_remove then
            match last output with
            | Some lastrange =>
                match combine_ranges lastrange elt2 consider_inheritance with
                | Some lastrange' => take (length output - 1) output ++ [lastrange']
                | None => output ++ [elt2]
                end
            | None => output ++ [elt2]
            end
          else output in
        Ok (mk_ior i1 (S i2) lasti2 elt2 output)
  | _, _ => Err C_UNDEFINED
  end.

Fixpoint ior_loop (rangelist1 rangelist2 : rangelist)
    (do_remove consider_inheritance : bool) (fuel : nat) (st : ior_state)
    : result ior_state :=
  if (ior_i1 st <? length rangelist1)%nat && (ior_i2 st <? length rangelist2)%nat then
    match fuel with
    | O => Err OUT_OF_FUEL
    | S f =>
        st' ← ior_step rangelist1 rangelist2 do_remove consider_inheritance st;
        ior_loop rangelist1 rangelist2 do_remove consider_inheritance f st'
    end
  else Ok st.

(** Appending the ranges that are left of the whiteboard. *)
Fixpoint ior_copy_rest (consider_inheritance : bool) (rest output : rangelist)
    : result rangelist :=
  match rest with
  | [] => Ok output
  | elt :: rest' =>
      output' ← combine_with_lastrange elt output consider_inheritance;
      ior_copy_rest consider_inheritance rest' output'
  end.

(** Every round advances one of the indices or trims the working element, and
    a trimmed element makes the next round advance the first index. *)
Definition ior_fuel (rangelist1 rangelist2 : rangelist) : nat :=
  2 * length rangelist1 + length rangelist2 + 1.

Definition rangelist_intersect_or_remove (rangelist1 rangelist2 : rangelist)
    (do_remove consider_inheritance : bool) : result rangelist :=
  st ← ior_loop rangelist1 rangelist2 do_remove consider_inheritance
         (ior_fuel rangelist1 rangelist2)
         (mk_ior 0 0 None (mk_range 0 0 false) []);
  let '(mk_ior _ i2 lasti2 working_elt2 output) := st in
  if do_remove then
    if bool_decide (Some i2 = lasti2) && (i2 <? length rangelist2)%nat then
      output ← combine_with_lastrange working_elt2 output consider_inheritance;
      ior_copy_rest consider_inheritance (drop (S i2) rangelist2) output
    else ior_copy_rest consider_inheritance (drop i2 rangelist2) output
  else Ok output.

Definition svn_rangelist_intersect (rangelist1 rangelist2 : rangelist)
    (consider_inheritance : bool) : result rangelist :=
  rangelist_intersect_or_remove rangelist1 rangelist2 false consider_inheritance.

Definition svn_rangelist_remove (eraser whiteboard : rangelist)
    (consider_inheritance : bool) : result rangelist :=
  rangelist_intersect_or_remove eraser whiteboard true consider_inheritance.

(** The pair (deleted, added). *)
Definition svn_rangelist_diff (from to : rangelist) (consider_inheritance : bool)
    : result (rangelist * rangelist) :=
  deleted ← svn_rangelist_remove to from consider_inheritance;
  added ← svn_rangelist_remove from to consider_inheritance;
  Ok (deleted, added).

(** ** The other operations on a rangelist *)

Definition svn_rangelist_reverse (rl : rangelist) : rangelist :=
  map range_swap_endpoints (reverse rl).

Definition svn_rangelist__set_inheritance (rl : rangelist) (inh : bool) : rangelist :=
  map (fun r => set_inheritable r inh) rl.

Definition svn_rangelist__initialize (s e : Z) (inh : bool) : rangelist := [mk_range s e inh].

Definition svn_rangelist_inheritable2 (rl : rangelist) (start_rev end_rev : Z)
    (inh : bool) : result rangelist :=
  match rl with
  | [] => Ok []
  | _ =>
      if negb (SVN_IS_VALID_REVNUM start_rev) || negb (SVN_IS_VALID_REVNUM end_rev)
         || (end_rev <? start_rev)
      then Ok (filter (fun r => eqb (inheritable r) inh = true) rl)
      else svn_rangelist_remove (svn_rangelist__initialize start_rev end_rev inh) rl true
  end.
