(* ===== verification/RangelistMerge.v ===== *)
(** * Merging two rangelists (libsvn_subr/mergeinfo.c)

    [svn_rangelist_merge2] walks the intervals of both rangelists - the ranges
    and the gaps in front of them - with two iterators and feeds the combined
    intervals to a builder.  The iterators, the builder and the main loop are
    translated here; [RangelistMergeFacts] proves what the loop computes. *)

From S2P Require Import Prelude CString Rangelist.

(** ** Intervals and their iterator *)

Inductive rangelist_interval_kind_t := MI_NONE | MI_NON_INHERITABLE | MI_INHERITABLE.

#[export] Instance interval_kind_eq_dec : EqDecision rangelist_interval_kind_t.
Proof. solve_decision. Defined.

(** The value of the C enumerator, which [MAX] and [>] compare. *)
Definition kind_val (k : rangelist_interval_kind_t) : Z :=
  match k with MI_NONE => 0 | MI_NON_INHERITABLE => 1 | MI_INHERITABLE => 2 end.

Definition kind_max (a b : rangelist_interval_kind_t) : rangelist_interval_kind_t :=
  if kind_val b <? kind_val a then a else b.

Record rangelist_interval_t := mk_interval {
  iv_start : Z;
  iv_end : Z;
  iv_kind : rangelist_interval_kind_t
}.

Record rangelist_interval_iterator_t := mk_iterator {
  it_rl : rangelist;
  it_i : nat;
  it_in_range : bool;
  it_interval : rangelist_interval_t
}.

(** [range->inheritable ? MI_INHERITABLE : MI_NON_INHERITABLE] *)
Definition kind_of (r : svn_merge_range) : rangelist_interval_kind_t :=
  if inheritable r then MI_INHERITABLE else MI_NON_INHERITABLE.

(** The null pointer is [None]. *)
Definition rlii_update (it : rangelist_interval_iterator_t)
    : option rangelist_interval_iterator_t :=
  match it_rl it !! it_i it with
  | None => None
  | Some range =>
      let interval :=
        if negb (it_in_range it) then
          mk_interval (match it_i it with
                       | O => 0
                       | S j => match it_rl it !! j with
                                | Some prev => end_ prev
                                | None => 0
                                end
                       end) (start range) MI_NONE
        else mk_interval (start range) (end_ range) (kind_of range) in
      Some (mk_iterator (it_rl it) (it_i it) (it_in_range it) interval)
  end.

Definition rlii_next_any_interval (it : rangelist_interval_iterator_t)
    : option rangelist_interval_iterator_t :=
  if (length (it_rl it) <=? it_i it)%nat then None
  else Some (mk_iterator (it_rl it) (if it_in_range it then S (it_i it) else it_i it)
               (negb (it_in_range it)) (it_interval it)).

(** The loop that [rlii_first] and [rlii_next] share: update, and skip empty
    intervals.  Updating through a null pointer would be undefined. *)
Fixpoint rlii_skip_empty (fuel : nat) (it : option rangelist_interval_iterator_t)
    : result (option rangelist_interval_iterator_t) :=
  match it with
  | None => Err C_UNDEFINED
  | Some it =>
      match rlii_update it with
      | None => Ok None
      | Some it' =>
          if iv_start (it_interval it') =? iv_end (it_interval it') then
            match fuel with
            | O => Err OUT_OF_FUEL
            | S f => rlii_skip_empty f (rlii_next_any_interval it')
            end
          else Ok (Some it')
      end
  end.

(** A rangelist of n ranges has 2n intervals. *)
Definition rlii_fuel (rl : rangelist) : nat := 2 * length rl.

Definition rlii_first (rl : rangelist) : result (option rangelist_interval_iterator_t) :=
  rlii_skip_empty (rlii_fuel rl) (Some (mk_iterator rl 0 false (mk_interval 0 0 MI_NONE))).

Definition rlii_next (it : rangelist_interval_iterator_t)
    : result (option rangelist_interval_iterator_t) :=
  rlii_skip_empty (rlii_fuel (it_rl it)) (rlii_next_any_interval it).

(** ** The builder *)

Record rangelist_builder_t := mk_builder {
  b_rl : rangelist;
  b_accu_interval : rangelist_interval_t
}.

Definition rl_builder_new (rl : rangelist) : rangelist_builder_t :=
  mk_builder rl (mk_interval 0 0 MI_NONE).

Definition rl_builder_flush (b : rangelist_builder_t) : rangelist_builder_t :=
  if kind_val MI_NONE <? kind_val (iv_kind (b_accu_interval b)) then
    mk_builder (b_rl b ++
        [mk_range (iv_start (b_accu_interval b)) (iv_end (b_accu_interval b))
           (bool_decide (iv_kind (b_accu_interval b) = MI_INHERITABLE))])
      (b_accu_interval b)
  else b.

Definition rl_builder_add_interval (b : rangelist_builder_t)
    (interval : rangelist_interval_t) : result rangelist_builder_t :=
  c_assert (iv_start interval <? iv_end interval);;
  c_assert (iv_start interval =? iv_end (b_accu_interval b));;
  Ok (if bool_decide (iv_kind interval = iv_kind (b_accu_interval b)) then
        mk_builder (b_rl b)
          (mk_interval (iv_start (b_accu_interval b)) (iv_end interval)
             (iv_kind (b_accu_interval b)))
      else mk_builder (b_rl (rl_builder_flush b)) interval).

(** ** The main loop *)

(** [if (it && it->interval.end <= r_next) it = rlii_next(it);] *)
Definition advance (it : option rangelist_interval_iterator_t) (r_next : Z)
    : result (option rangelist_interval_iterator_t) :=
  match it with
  | None => Ok None
  | Some i => if iv_end (it_interval i) <=? r_next then rlii_next i else Ok it
  end.

Fixpoint rangelist_merge_loop (fuel : nat)
    (it0 it1 : option rangelist_interval_iterator_t)
    (rl_builder : rangelist_builder_t) (r_last : Z) : result rangelist_builder_t :=
  let round r_next kind :=
    match fuel with
    | O => Err OUT_OF_FUEL
    | S f =>
        let interval := mk_interval r_last r_next kind in
        svn_err_assert (iv_start interval <? iv_end interval);;
        rl_builder ← rl_builder_add_interval rl_builder interval;
        it0 ← advance it0 r_next;
        it1 ← advance it1 r_next;
        rangelist_merge_loop f it0 it1 rl_builder (iv_end interval)
    end in
  match it0, it1 with
  | None, None => Ok rl_builder
  | Some i, None => round (iv_end (it_interval i)) (iv_kind (it_interval i))
  | None, Some j => round (iv_end (it_interval j)) (iv_kind (it_interval j))
  | Some i, Some j =>
      round (Z.min (iv_end (it_interval i)) (iv_end (it_interval j)))
            (kind_max (iv_kind (it_interval i)) (iv_kind (it_interval j)))
  end.

Definition rangelist_merge (rl_out rl1 rl2 : rangelist) : result rangelist :=
  svn_err_assert (rangelist_is_sorted rl1);;
  svn_err_assert (rangelist_is_sorted rl2);;
  svn_err_assert (bool_decide (length rl_out = 0%nat));;
  it0 ← rlii_first rl1;
  it1 ← rlii_first rl2;
  rl_builder ← rangelist_merge_loop (2 * length rl1 + 2 * length rl2) it0 it1
                 (rl_builder_new rl_out) 0;
  Ok (b_rl (rl_builder_flush rl_builder)).

(** [rangelist] is moved aside, cleared and rebuilt as the merge of its old
    contents and [chg] (the build without [SVN_DEBUG]). *)
Definition svn_rangelist_merge2 (rl chg : rangelist) : result rangelist :=
  rangelist_merge [] rl chg.
