(* ===== verification/RangelistSem.v ===== *)
(** * What a rangelist means

    The abstract specification the operations of [Rangelist] and
    [RangelistMerge] are proved against: a rangelist denotes the kind of merge
    (none, non-inheritable, inheritable) recorded for each revision.  Canonical
    rangelists are the unique representatives of what they denote. *)

From S2P Require Import Prelude CString Rangelist RangelistMerge.

(** ** Denotation *)

(** Revision [n] is described by the forward range [r]. *)
Definition in_range (r : svn_merge_range) (n : Z) : Prop := start r < n <= end_ r.

#[export] Instance in_range_dec r n : Decision (in_range r n).
Proof. unfold in_range. apply _. Defined.

(** Revision [n] is described by some range of the rangelist. *)
Definition covers (rl : rangelist) (n : Z) : Prop := Exists (fun r => in_range r n) rl.

#[export] Instance covers_dec rl n : Decision (covers rl n).
Proof. unfold covers. apply _. Defined.

(** What the rangelist records for revision [n]. *)
Fixpoint kind_at (rl : rangelist) (n : Z) : rangelist_interval_kind_t :=
  match rl with
  | [] => MI_NONE
  | r :: rl => if decide (in_range r n) then kind_max (kind_of r) (kind_at rl n)
               else kind_at rl n
  end.

(** ** Well-formedness *)

Definition forward (r : svn_merge_range) : Prop := 0 <= start r < end_ r.

(** Sorted, forward and without overlaps; ranges may touch. *)
Fixpoint disjoint_sorted (rl : rangelist) : Prop :=
  match rl with
  | [] => True
  | r :: rl => forward r /\ Forall (fun r' => end_ r <= start r') rl /\ disjoint_sorted rl
  end.

(** In addition, touching ranges differ in inheritability. *)
Fixpoint canonical (rl : rangelist) : Prop :=
  match rl with
  | [] => True
  | r :: rl =>
      forward r /\
      Forall (fun r' => end_ r <= start r' /\
                        (end_ r = start r' -> inheritable r <> inheritable r')) rl /\
      canonical rl
  end.

#[export] Instance forward_dec r : Decision (forward r).
Proof. unfold forward. apply _. Defined.

#[export] Instance disjoint_sorted_dec rl : Decision (disjoint_sorted rl).
Proof. induction rl; simpl; unfold forward; apply _. Defined.

#[export] Instance canonical_dec rl : Decision (canonical rl).
Proof. induction rl; simpl; unfold forward; apply _. Defined.

(** * Lemmas *)

Ltac kind_solve :=
  repeat match goal with
  | k : rangelist_interval_kind_t |- _ => destruct k
  end; simpl in *; try done; try lia.

Lemma kind_max_comm a b : kind_max a b = kind_max b a.
Proof. destruct a, b; done. Qed.

Lemma kind_max_assoc a b c : kind_max a (kind_max b c) = kind_max (kind_max a b) c.
Proof. destruct a, b, c; done. Qed.

Lemma kind_max_idemp a : kind_max a a = a.
Proof. by destruct a. Qed.

Lemma kind_max_none_l a : kind_max MI_NONE a = a.
Proof. by destruct a. Qed.

Lemma kind_max_none_r a : kind_max a MI_NONE = a.
Proof. by destruct a. Qed.

Lemma kind_max_none a b : kind_max a b = MI_NONE <-> a = MI_NONE /\ b = MI_NONE.
Proof. destruct a, b; vm_compute; intuition congruence. Qed.

Lemma kind_of_not_none r : kind_of r <> MI_NONE.
Proof. unfold kind_of. by destruct (inheritable r). Qed.

Lemma kind_of_inj r1 r2 : kind_of r1 = kind_of r2 -> inheritable r1 = inheritable r2.
Proof. unfold kind_of. by destruct (inheritable r1), (inheritable r2). Qed.

#[export] Hint Rewrite kind_max_none_l kind_max_none_r kind_max_idemp : svn.
#[export] Hint Resolve kind_of_not_none : svn.

Lemma kind_at_app rl1 rl2 n :
  kind_at (rl1 ++ rl2) n = kind_max (kind_at rl1 n) (kind_at rl2 n).
Proof.
  induction rl1 as [|r rl1 IH]; simpl; [by rewrite kind_max_none_l|].
  case_decide; rewrite IH; [by rewrite kind_max_assoc|done].
Qed.

Lemma kind_at_single r n :
  kind_at [r] n = if decide (in_range r n) then kind_of r else MI_NONE.
Proof. simpl. case_decide; [|done]. by rewrite kind_max_none_r. Qed.

Lemma covers_kind_at rl n : covers rl n <-> kind_at rl n <> MI_NONE.
Proof.
  unfold covers. induction rl as [|r rl IH]; simpl.
  { split; [by intros H%Exists_nil|done]. }
  rewrite Exists_cons. case_decide.
  - split; [|by left]. intros _ Hk. apply (kind_of_not_none r). revert Hk.
    by intros [? _]%kind_max_none.
  - rewrite IH. naive_solver.
Qed.

Lemma covers_nil n : ~ covers [] n.
Proof. by intros H%Exists_nil. Qed.

Lemma covers_cons r rl n : covers (r :: rl) n <-> in_range r n \/ covers rl n.
Proof. unfold covers. by rewrite Exists_cons. Qed.

Lemma covers_app rl1 rl2 n : covers (rl1 ++ rl2) n <-> covers rl1 n \/ covers rl2 n.
Proof. unfold covers. by rewrite Exists_app. Qed.

Lemma covers_Permutation rl1 rl2 n : rl1 ≡ₚ rl2 -> covers rl1 n <-> covers rl2 n.
Proof.
  intros HP. unfold covers. rewrite !Exists_exists.
  split; intros (r & Hr & ?); exists r; split; try done.
  - by rewrite <-HP.
  - by rewrite HP.
Qed.

Lemma kind_at_outside rl n :
  Forall (fun r => ~ in_range r n) rl -> kind_at rl n = MI_NONE.
Proof. induction 1; simpl; [done|]. by case_decide. Qed.

Lemma kind_at_below rl s n :
  Forall (fun r => s <= start r) rl -> n <= s -> kind_at rl n = MI_NONE.
Proof.
  intros H Hn. apply kind_at_outside. eapply Forall_impl; [exact H|].
  unfold in_range. simpl. intros r Hr. lia.
Qed.

Lemma kind_at_Permutation rl1 rl2 n : rl1 ≡ₚ rl2 -> kind_at rl1 n = kind_at rl2 n.
Proof.
  induction 1 as [|r l1 l2 _ IH|r1 r2 l|l1 l2 l3 _ IH1 _ IH2]; simpl; [done| | |congruence].
  - by rewrite IH.
  - repeat case_decide; try done. rewrite !kind_max_assoc. by rewrite (kind_max_comm (kind_of _)).
Qed.

(** ** Well-formed rangelists *)

Lemma canonical_disjoint_sorted rl : canonical rl -> disjoint_sorted rl.
Proof.
  induction rl as [|r rl IH]; simpl; [done|]. intros (Hf & Hr & Hc).
  split_and!; [done| |by apply IH]. eapply Forall_impl; [exact Hr|]. naive_solver.
Qed.

Lemma disjoint_sorted_cons r r' rl :
  disjoint_sorted (r :: r' :: rl) <->
  forward r /\ end_ r <= start r' /\ disjoint_sorted (r' :: rl).
Proof.
  simpl. unfold forward. rewrite Forall_cons. split; [naive_solver|].
  intros (? & ? & ? & Hall & ?). split_and!; try lia; try done.
  eapply Forall_impl; [exact Hall|]. simpl. intros ??. lia.
Qed.

Lemma canonical_cons r r' rl :
  canonical (r :: r' :: rl) <->
  forward r /\ end_ r <= start r' /\
  (end_ r = start r' -> inheritable r <> inheritable r') /\ canonical (r' :: rl).
Proof.
  simpl. unfold forward. rewrite Forall_cons. split; [naive_solver|].
  intros (? & ? & ? & ? & Hall & ?). split_and!; try lia; try done.
  eapply Forall_impl; [exact Hall|]. simpl. intros ??. lia.
Qed.

Lemma disjoint_sorted_forward rl : disjoint_sorted rl -> Forall forward rl.
Proof. induction rl; simpl; [constructor|]. intros (? & ? & ?). constructor; auto. Qed.

Lemma disjoint_sorted_app rl1 rl2 :
  disjoint_sorted (rl1 ++ rl2) <->
  disjoint_sorted rl1 /\ disjoint_sorted rl2 /\
  Forall (fun r => Forall (fun r' => end_ r <= start r') rl2) rl1.
Proof.
  induction rl1 as [|r rl1 IH]; simpl.
  { split; [intros; split_and!; [done..|constructor]|tauto]. }
  rewrite IH, Forall_app, Forall_cons. tauto.
Qed.

Lemma disjoint_sorted_drop i rl : disjoint_sorted rl -> disjoint_sorted (drop i rl).
Proof. rewrite <-(take_drop i rl) at 1. rewrite disjoint_sorted_app. tauto. Qed.

Lemma disjoint_sorted_is_sorted rl : disjoint_sorted rl -> rangelist_is_sorted rl = true.
Proof.
  induction rl as [|r [|r' rl] IH]; [done..|]. intros (Hf & Hle & Hd)%disjoint_sorted_cons.
  cbn [rangelist_is_sorted].
  assert (Hc : (0 <? svn_sort_compare_ranges r r') = false).
  { unfold forward, svn_sort_compare_ranges in *.
    destruct (Z.eqb_spec (start r) (start r')); [lia|]. simpl.
    destruct (Z.ltb_spec (start r) (start r')); [done|]. lia. }
  rewrite Hc. by apply IH.
Qed.

(** The test of the code decides the specification, for ranges that start at
    revision 0 or later. *)
Theorem is_canonical_spec rl :
  svn_rangelist__is_canonical rl = true /\ Forall (fun r => 0 <= start r) rl <->
  canonical rl.
Proof.
  unfold svn_rangelist__is_canonical. rewrite andb_true_iff.
  induction rl as [|r [|r' rl] IH].
  - simpl. split; [done|]. intros _. split; [done|constructor].
  - cbn [forallb no_overlaps canonical]. unfold forward.
    rewrite Forall_singleton, !andb_true_iff, negb_true_iff, Z.leb_gt.
    split; [|intros; split_and!; try done; lia]. intros [[[? _] _] ?].
    split_and!; try lia; done || constructor.
  - rewrite canonical_cons, <-IH. cbn [forallb no_overlaps]. unfold forward.
    rewrite !Forall_cons, !andb_true_iff, !negb_true_iff, !Z.leb_gt.
    destruct (Z.ltb_spec (start r') (end_ r)).
    { split; [|lia]. intros [[_ ?] _]. done. }
    destruct (Z.eqb_spec (end_ r) (start r')), (eqb_spec (inheritable r) (inheritable r'));
      simpl; intuition (congruence || lia).
Qed.

Lemma is_canonical_true rl : canonical rl -> svn_rangelist__is_canonical rl = true.
Proof. by intros [? _]%is_canonical_spec. Qed.

(** ** Uniqueness of the canonical representative *)

Lemma kind_at_cons_in r rl n :
  Forall (fun r' => end_ r <= start r') rl -> in_range r n -> kind_at (r :: rl) n = kind_of r.
Proof.
  intros Hall Hin. simpl. rewrite decide_True by done.
  rewrite (kind_at_below rl (end_ r)); [apply kind_max_none_r|done|]. unfold in_range in Hin. lia.
Qed.

Lemma canonical_below r rl :
  canonical (r :: rl) -> Forall (fun r' => end_ r <= start r') rl.
Proof. intros (_ & H & _). eapply Forall_impl; [exact H|]. naive_solver. Qed.

Lemma kind_at_start_none r rl n :
  canonical (r :: rl) -> n <= start r -> kind_at (r :: rl) n = MI_NONE.
Proof.
  intros Hc Hn. apply (kind_at_below _ (start r)); [|done].
  assert (Hb := canonical_below _ _ Hc). destruct Hc as (Hf & _ & _). unfold forward in Hf.
  constructor; [lia|]. eapply Forall_impl; [exact Hb|]. simpl. lia.
Qed.

(** Just behind the first range a canonical rangelist changes its kind. *)
Lemma kind_at_after_first r rl :
  canonical (r :: rl) -> kind_at rl (end_ r + 1) <> kind_of r.
Proof.
  intros Hc. destruct rl as [|r' rl].
  { simpl. intros H. by apply (kind_of_not_none r). }
  apply canonical_cons in Hc as (Hf & Hle & Hne & Hc).
  destruct (decide (end_ r = start r')) as [Heq|].
  - rewrite kind_at_cons_in.
    + intros H%eq_sym%kind_of_inj. by apply Hne.
    + by apply canonical_below.
    + destruct Hc as (Hf' & _). unfold in_range, forward in *. lia.
  - rewrite kind_at_start_none; [|done|lia]. intros H. by apply (kind_of_not_none r).
Qed.

Lemma kind_at_cons_after r rl n :
  end_ r < n -> kind_at (r :: rl) n = kind_at rl n.
Proof. intros. simpl. case_decide; [unfold in_range in *; lia|done]. Qed.

Lemma canonical_first_le r1 rl1 r2 rl2 :
  canonical (r1 :: rl1) -> canonical (r2 :: rl2) ->
  (forall n, kind_at (r1 :: rl1) n = kind_at (r2 :: rl2) n) ->
  start r1 <= start r2 /\ (start r1 = start r2 -> inheritable r1 = inheritable r2 ->
                           end_ r1 <= end_ r2).
Proof.
  intros Hc1 Hc2 Heq. assert (Hf2 := Hc2). destruct Hf2 as (Hf2 & _). unfold forward in Hf2.
  assert (Hf1 := Hc1). destruct Hf1 as (Hf1 & _). unfold forward in Hf1.
  split.
  - destruct (Z.le_gt_cases (start r1) (start r2)) as [|Hlt]; [done|exfalso].
    specialize (Heq (start r2 + 1)).
    rewrite kind_at_start_none in Heq by (done || lia).
    rewrite kind_at_cons_in in Heq; [by apply (kind_of_not_none r2)|by apply canonical_below|].
    unfold in_range. lia.
  - intros Hs Hi. destruct (Z.le_gt_cases (end_ r1) (end_ r2)) as [|Hlt]; [done|exfalso].
    specialize (Heq (end_ r2 + 1)).
    rewrite kind_at_cons_in in Heq; [|by apply canonical_below|unfold in_range; lia].
    rewrite kind_at_cons_after in Heq by lia.
    apply (kind_at_after_first r2 rl2 Hc2). rewrite <-Heq. unfold kind_of. by rewrite Hi.
Qed.

Theorem canonical_unique rl1 rl2 :
  canonical rl1 -> canonical rl2 -> (forall n, kind_at rl1 n = kind_at rl2 n) -> rl1 = rl2.
Proof.
  revert rl2. induction rl1 as [|r1 rl1 IH]; intros [|r2 rl2] Hc1 Hc2 Heq; [done| | |].
  - exfalso. specialize (Heq (start r2 + 1)). assert (Hf := Hc2). destruct Hf as (Hf & _).
    rewrite kind_at_cons_in in Heq; [by apply (kind_of_not_none r2)|by apply canonical_below|].
    unfold in_range, forward in *. lia.
  - exfalso. specialize (Heq (start r1 + 1)). assert (Hf := Hc1). destruct Hf as (Hf & _).
    rewrite kind_at_cons_in in Heq; [by apply (kind_of_not_none r1)|by apply canonical_below|].
    unfold in_range, forward in *. lia.
  - destruct (canonical_first_le _ _ _ _ Hc1 Hc2 Heq) as [Hs1 He1].
    destruct (canonical_first_le _ _ _ _ Hc2 Hc1) as [Hs2 He2]; [done|].
    assert (Hs : start r1 = start r2) by lia.
    assert (Hf1 := Hc1). destruct Hf1 as (Hf1 & Hr1 & Ht1).
    assert (Hf2 := Hc2). destruct Hf2 as (Hf2 & Hr2 & Ht2). unfold forward in *.
    assert (Hi : inheritable r1 = inheritable r2).
    { apply kind_of_inj. specialize (Heq (start r1 + 1)).
      rewrite !kind_at_cons_in in Heq; try done; try (by apply canonical_below);
        unfold in_range; lia. }
    assert (He : end_ r1 = end_ r2) by (specialize (He1 Hs Hi); specialize (He2 (eq_sym Hs) (eq_sym Hi)); lia).
    assert (Hr : r1 = r2) by (destruct r1, r2; simpl in *; congruence).
    subst r2. f_equal. apply IH; [done|done|]. intros n.
    destruct (Z.le_gt_cases n (end_ r1)).
    + rewrite !(kind_at_below _ (end_ r1)); try done; by apply canonical_below.
    + specialize (Heq n). by rewrite !kind_at_cons_after in Heq by lia.
Qed.

Lemma disjoint_sorted_nonneg rl : disjoint_sorted rl -> Forall (fun r => 0 <= start r) rl.
Proof.
  intros H%disjoint_sorted_forward. eapply Forall_impl; [exact H|]. unfold forward. simpl. lia.
Qed.

Lemma kind_at_positive rl n : disjoint_sorted rl -> n <= 0 -> kind_at rl n = MI_NONE.
Proof. intros H Hn. by apply (kind_at_below _ 0), Hn; apply disjoint_sorted_nonneg. Qed.
