(* ===== verification/RangelistMergeFacts.v ===== *)
(** * Merging rangelists, and the other set operations

    The iterators enumerate the non-empty intervals of a rangelist, the builder
    keeps its output canonical, and the main loop of [svn_rangelist_merge2]
    therefore computes, for each revision, the stronger of the two kinds of
    merge.  Removal, intersection and differences are characterised in the
    same way. *)

From S2P Require Import Prelude CString Rangelist RangelistMerge RangelistSem.

(** ** The intervals of a rangelist *)

Fixpoint all_intervals (prev : Z) (rl : rangelist) : list rangelist_interval_t :=
  match rl with
  | [] => []
  | r :: rl =>
      mk_interval prev (start r) MI_NONE ::
      mk_interval (start r) (end_ r) (kind_of r) :: all_intervals (end_ r) rl
  end.

Definition iv_nonempty (iv : rangelist_interval_t) : Prop := iv_start iv <> iv_end iv.

#[export] Instance iv_nonempty_dec iv : Decision (iv_nonempty iv).
Proof. unfold iv_nonempty. apply _. Defined.

(** The position of an iterator in that list. *)
Definition it_pos (it : rangelist_interval_iterator_t) : nat :=
  (2 * it_i it + (if it_in_range it then 1 else 0))%nat.

(** The non-empty intervals from position [p] on. *)
Definition remaining (rl : rangelist) (p : nat) : list rangelist_interval_t :=
  filter iv_nonempty (drop p (all_intervals 0 rl)).

(** An iterator (or null) that stands at the head of [l]. *)
Definition at_intervals (rl : rangelist) (it : option rangelist_interval_iterator_t)
    (l : list rangelist_interval_t) : Prop :=
  match l with
  | [] => it = None
  | iv :: l' => exists it', it = Some it' /\ it_rl it' = rl /\ it_interval it' = iv /\
                  (it_i it' < length rl)%nat /\ remaining rl (S (it_pos it')) = l'
  end.

(** Consecutive non-empty intervals from [s] on. *)
Fixpoint contiguous (s : Z) (l : list rangelist_interval_t) : Prop :=
  match l with
  | [] => True
  | iv :: l => iv_start iv = s /\ s < iv_end iv /\ contiguous (iv_end iv) l
  end.

Fixpoint kind_iv (l : list rangelist_interval_t) (n : Z) : rangelist_interval_kind_t :=
  match l with
  | [] => MI_NONE
  | iv :: l => if decide (iv_start iv < n <= iv_end iv) then iv_kind iv else kind_iv l n
  end.

(** The iteration has reached revision [r]. *)
Definition reached (r : Z) (l : list rangelist_interval_t) : Prop :=
  match l with
  | [] => True
  | iv :: l => iv_start iv <= r < iv_end iv /\ contiguous (iv_end iv) l
  end.

Lemma length_all_intervals prev rl : length (all_intervals prev rl) = (2 * length rl)%nat.
Proof. revert prev. induction rl as [|r rl IH]; intros; simpl; [done|]. rewrite IH. lia. Qed.

Lemma all_intervals_even prev rl i :
  all_intervals prev rl !! (2 * i)%nat =
    (fun r => mk_interval (match i with O => prev
                           | S j => match rl !! j with Some q => end_ q | None => prev end end)
                (start r) MI_NONE) <$> rl !! i.
Proof.
  revert prev i. induction rl as [|r rl IH]; intros prev i; [by rewrite !lookup_nil|].
  destruct i as [|i]; [done|]. replace (2 * S i)%nat with (S (S (2 * i))) by lia. simpl.
  change (i + (i + 0))%nat with (2 * i)%nat. rewrite IH.
  destruct (rl !! i) as [r'|] eqn:Hr; simpl; [|done]. do 2 f_equal.
  destruct i as [|j]; [done|]. simpl.
  assert (is_Some (rl !! j)) as [q ->] by (apply lookup_lt_is_Some; apply lookup_lt_Some in Hr; lia).
  done.
Qed.

Lemma all_intervals_odd prev rl i :
  all_intervals prev rl !! (2 * i + 1)%nat =
    (fun r => mk_interval (start r) (end_ r) (kind_of r)) <$> rl !! i.
Proof.
  revert prev i. induction rl as [|r rl IH]; intros prev i; [by rewrite !lookup_nil|].
  destruct i as [|i]; [done|]. replace (2 * S i + 1)%nat with (S (S (2 * i + 1))) by lia.
  cbn [all_intervals lookup list_lookup]. by rewrite IH.
Qed.

Lemma rlii_update_spec it :
  rlii_update it =
    (fun iv => mk_iterator (it_rl it) (it_i it) (it_in_range it) iv) <$>
      all_intervals 0 (it_rl it) !! it_pos it.
Proof.
  unfold rlii_update, it_pos. destruct (it_in_range it); simpl.
  - change (it_i it + (it_i it + 0))%nat with (2 * it_i it)%nat. rewrite all_intervals_odd.
    by destruct (it_rl it !! it_i it).
  - change (it_i it + (it_i it + 0) + 0)%nat with (2 * it_i it + 0)%nat.
    rewrite Nat.add_0_r, all_intervals_even.
    destruct (it_rl it !! it_i it); [|done]. simpl. by destruct (it_i it).
Qed.

Lemma rlii_next_any_interval_spec it :
  (it_i it < length (it_rl it))%nat -> exists it',
    rlii_next_any_interval it = Some it' /\ it_rl it' = it_rl it /\
    it_pos it' = S (it_pos it).
Proof.
  intros Hi. unfold rlii_next_any_interval, it_pos.
  destruct (Nat.leb_spec (length (it_rl it)) (it_i it)); [lia|].
  eexists. split; [done|]. split; [done|]. simpl. destruct (it_in_range it); simpl; lia.
Qed.

Lemma rlii_skip_empty_spec fuel it rl :
  it_rl it = rl -> (2 * length rl <= fuel + it_pos it)%nat -> exists o,
    rlii_skip_empty fuel (Some it) = Ok o /\ at_intervals rl o (remaining rl (it_pos it)).
Proof.
  intros <-. revert it. induction fuel as [|f IH]; intros it Hf;
    cbn [rlii_skip_empty]; rewrite rlii_update_spec; unfold remaining;
    destruct (all_intervals 0 (it_rl it) !! it_pos it) as [iv|] eqn:Hl; simpl.
  - apply lookup_lt_Some in Hl. rewrite length_all_intervals in Hl. lia.
  - rewrite drop_ge by by apply lookup_ge_None. by exists None.
  - assert (Hi : (it_i it < length (it_rl it))%nat).
    { apply lookup_lt_Some in Hl. rewrite length_all_intervals in Hl. unfold it_pos in Hl.
      destruct (it_in_range it); lia. }
    rewrite (lookup_drop_cons _ _ _ Hl).
    destruct (Z.eqb_spec (iv_start iv) (iv_end iv)) as [Heq|Hne].
    + rewrite filter_cons_False by (unfold iv_nonempty; lia).
      edestruct (rlii_next_any_interval_spec (mk_iterator (it_rl it) (it_i it) (it_in_range it) iv))
        as (it' & -> & Hrl & Hpos); [done|]. simpl in Hrl, Hpos.
      destruct (IH it') as (o & Ho & Hat).
      { rewrite Hrl, Hpos. unfold it_pos in *. simpl in *. lia. }
      exists o. split; [done|]. rewrite Hrl, Hpos in Hat. exact Hat.
    + rewrite filter_cons_True by done. eexists. split; [done|].
      simpl. eexists. split; [done|]. by split_and!.
  - rewrite drop_ge by by apply lookup_ge_None. by exists None.
Qed.

Lemma rlii_first_spec rl :
  exists o, rlii_first rl = Ok o /\ at_intervals rl o (remaining rl 0).
Proof.
  unfold rlii_first.
  apply (rlii_skip_empty_spec _ (mk_iterator rl 0 false (mk_interval 0 0 MI_NONE)) rl); [done|].
  unfold rlii_fuel. lia.
Qed.

Lemma rlii_next_spec rl it iv l :
  at_intervals rl (Some it) (iv :: l) ->
  exists o, rlii_next it = Ok o /\ at_intervals rl o l.
Proof.
  intros (it' & [= <-] & Hrl & _ & Hi & <-). unfold rlii_next.
  destruct (rlii_next_any_interval_spec it) as (it' & -> & Hrl' & Hpos); [by rewrite Hrl|].
  rewrite <-Hpos. apply rlii_skip_empty_spec; [congruence|]. unfold rlii_fuel. rewrite Hrl. lia.
Qed.

(** ** Contiguity and meaning of the intervals *)

Lemma all_intervals_contiguous prev rl :
  disjoint_sorted rl -> Forall (fun r => prev <= start r) rl ->
  contiguous prev (filter iv_nonempty (all_intervals prev rl)).
Proof.
  revert prev. induction rl as [|r rl IH]; intros prev Hd Hp; [done|].
  destruct Hd as (Hf & Hr & Hd). apply Forall_cons in Hp as [Hp _]. unfold forward in Hf.
  cbn [all_intervals]. destruct (decide (prev = start r)) as [->|].
  - rewrite filter_cons_False by (unfold iv_nonempty; simpl; lia).
    rewrite filter_cons_True by (unfold iv_nonempty; simpl; lia).
    simpl. split; [done|]. split; [lia|]. by apply IH.
  - rewrite filter_cons_True by (unfold iv_nonempty; simpl; lia).
    rewrite filter_cons_True by (unfold iv_nonempty; simpl; lia).
    simpl. split; [done|]. split; [lia|]. split; [done|]. split; [lia|]. by apply IH.
Qed.

Lemma kind_iv_cons iv l n :
  kind_iv (iv :: l) n =
    if decide (iv_start iv < n <= iv_end iv) then iv_kind iv else kind_iv l n.
Proof. done. Qed.

Lemma kind_iv_all prev rl n :
  disjoint_sorted rl -> Forall (fun r => prev <= start r) rl -> prev < n ->
  kind_iv (filter iv_nonempty (all_intervals prev rl)) n = kind_at rl n.
Proof.
  revert prev. induction rl as [|r rl IH]; intros prev Hd Hp Hn; [done|].
  destruct Hd as (Hf & Hr & Hd). apply Forall_cons in Hp as [Hp _]. unfold forward in Hf.
  assert (Hrest : kind_iv (mk_interval (start r) (end_ r) (kind_of r) ::
             filter iv_nonempty (all_intervals (end_ r) rl)) n =
             if decide (n <= start r) then kind_iv (filter iv_nonempty (all_intervals (end_ r) rl)) n
             else kind_at (r :: rl) n).
  { simpl. unfold in_range. repeat case_decide; simpl in *; try lia; try done.
    - rewrite (kind_at_below rl (end_ r)) by (done || lia). by rewrite kind_max_none_r.
    - apply IH; [done..|lia]. }
  assert (Hlow : n <= start r -> kind_at (r :: rl) n = MI_NONE).
  { intros. apply (kind_at_below _ (start r)); [|done]. constructor; [lia|].
    eapply Forall_impl; [exact Hr|]. simpl. lia. }
  cbn [all_intervals]. destruct (decide (prev = start r)) as [->|].
  - rewrite filter_cons_False by (unfold iv_nonempty; simpl; lia).
    rewrite filter_cons_True by (unfold iv_nonempty; simpl; lia).
    rewrite Hrest. by destruct (decide (n <= start r)); [lia|].
  - do 2 rewrite filter_cons_True by (unfold iv_nonempty; simpl; lia).
    rewrite kind_iv_cons. cbn [iv_start iv_end iv_kind].
    destruct (decide (prev < n <= start r)); [symmetry; apply Hlow; lia|].
    rewrite Hrest. by destruct (decide (n <= start r)); [lia|].
Qed.

Lemma kind_iv_below s l n : contiguous s l -> n <= s -> kind_iv l n = MI_NONE.
Proof.
  revert s. induction l as [|iv l IH]; intros s; simpl; [done|]. intros (Hs & Hlt & Hc) Hn.
  case_decide; [lia|]. apply (IH _ Hc). lia.
Qed.

Lemma contiguous_reached s l : contiguous s l -> reached s l.
Proof. destruct l; simpl; [done|]. intros (-> & ? & ?). split; [lia|done]. Qed.

(** Advancing an iterator past [r_next], which lies in its current interval. *)
Lemma advance_spec rl it l r r_next :
  at_intervals rl it l -> reached r l -> r < r_next ->
  match l with [] => True | iv :: _ => r_next <= iv_end iv end ->
  exists it' l', advance it r_next = Ok it' /\ at_intervals rl it' l' /\ reached r_next l' /\
    (length l' <= length l)%nat /\
    (forall n, r_next < n -> kind_iv l' n = kind_iv l n) /\
    (match l with iv :: _ => iv_end iv = r_next -> (length l' < length l)%nat | [] => True end).
Proof.
  intros Hat Hre Hlt Hend. destruct l as [|iv l].
  { simpl in Hat. subst it. exists None, []. by split_and!. }
  assert (Hat' := Hat). destruct Hat' as (it' & -> & Hrl & Hiv & Hi & Hrem).
  destruct Hre as [Hre Hc]. unfold advance. rewrite Hiv.
  destruct (Z.leb_spec (iv_end iv) r_next).
  - destruct (rlii_next_spec _ _ _ _ Hat) as (o & -> & Ho). exists o, l.
    split; [done|]. split; [done|]. replace r_next with (iv_end iv) by lia.
    split; [by apply contiguous_reached|]. split; [simpl; lia|]. split; [|simpl; lia].
    intros n Hn. simpl. case_decide; [lia|done].
  - exists (Some it'), (iv :: l). split; [done|]. split; [done|]. split; [simpl; split; [lia|done]|].
    split; [done|]. split; [done|]. lia.
Qed.

(** ** The builder *)

Definition flushed (b : rangelist_builder_t) : rangelist := b_rl (rl_builder_flush b).

Definition accu (b : rangelist_builder_t) := b_accu_interval b.

Lemma canonical_snoc rl r :
  canonical (rl ++ [r]) <->
  canonical rl /\ forward r /\
  Forall (fun r' => end_ r' <= start r /\
                    (end_ r' = start r -> inheritable r' <> inheritable r)) rl.
Proof.
  induction rl as [|r' rl IH]; simpl.
  { split; [intros (?&?&?)|]; naive_solver. }
  rewrite IH, Forall_app, !Forall_cons, Forall_nil. tauto.
Qed.

Record builder_inv (b : rangelist_builder_t) : Prop := {
  bi_canonical : canonical (b_rl b);
  bi_start : 0 <= iv_start (accu b) <= iv_end (accu b);
  bi_some : iv_kind (accu b) <> MI_NONE -> iv_start (accu b) < iv_end (accu b);
  bi_none : iv_kind (accu b) = MI_NONE -> b_rl b = [] \/ iv_start (accu b) < iv_end (accu b);
  bi_last : Forall (fun r => end_ r <= iv_start (accu b) /\
                     (end_ r = iv_start (accu b) -> kind_of r <> iv_kind (accu b))) (b_rl b)
}.

Definition accu_range (b : rangelist_builder_t) : svn_merge_range :=
  mk_range (iv_start (accu b)) (iv_end (accu b))
    (bool_decide (iv_kind (accu b) = MI_INHERITABLE)).

Lemma flushed_spec b :
  flushed b = if decide (iv_kind (accu b) = MI_NONE) then b_rl b
              else b_rl b ++ [accu_range b].
Proof.
  unfold flushed, rl_builder_flush, accu_range, accu.
  destruct (iv_kind (b_accu_interval b)); done.
Qed.

Lemma kind_of_accu_range b :
  iv_kind (accu b) <> MI_NONE -> kind_of (accu_range b) = iv_kind (accu b).
Proof. unfold accu_range, kind_of. by destruct (iv_kind (accu b)). Qed.

Lemma flushed_canonical b : builder_inv b -> canonical (flushed b).
Proof.
  intros [Hc Hs Hsome _ Hl]. rewrite flushed_spec. case_decide as Hk; [done|].
  apply canonical_snoc. split; [done|]. split; [unfold forward; simpl; specialize (Hsome Hk); lia|].
  eapply Forall_impl; [exact Hl|]. simpl. intros r [Hr Hne]. split; [done|]. intros He Hi.
  apply (Hne He). rewrite <-kind_of_accu_range by done. unfold kind_of. by rewrite Hi.
Qed.

Lemma flushed_below b :
  builder_inv b -> Forall (fun r => end_ r <= iv_end (accu b)) (flushed b).
Proof.
  intros [Hc Hs Hsome _ Hl]. rewrite flushed_spec.
  assert (Forall (fun r => end_ r <= iv_end (accu b)) (b_rl b)).
  { eapply Forall_impl; [exact Hl|]. simpl. intros r [? _]. lia. }
  case_decide; [done|]. apply Forall_app. split; [done|]. constructor; [simpl; lia|constructor].
Qed.

Lemma kind_at_above rl e n : Forall (fun r => end_ r <= e) rl -> e < n -> kind_at rl n = MI_NONE.
Proof.
  intros H ?. apply kind_at_outside. eapply Forall_impl; [exact H|]. unfold in_range. simpl. lia.
Qed.

Lemma rl_builder_add_interval_spec b iv :
  builder_inv b -> iv_start iv = iv_end (accu b) -> iv_start iv < iv_end iv ->
  exists b', rl_builder_add_interval b iv = Ok b' /\ builder_inv b' /\
    iv_end (accu b') = iv_end iv /\
    forall n, kind_at (flushed b') n =
      if decide (n <= iv_start iv) then kind_at (flushed b) n
      else if decide (n <= iv_end iv) then iv_kind iv else MI_NONE.
Proof.
  intros Hb Hs Hlt. assert (Hb' := Hb). destruct Hb' as [Hc Hst Hsome Hnone Hl].
  unfold rl_builder_add_interval. fold (accu b).
  rewrite (proj2 (Z.ltb_lt _ _) Hlt). rewrite (proj2 (Z.eqb_eq _ _) Hs). simpl.
  case_bool_decide as Hk.
  - (* the accumulated interval is extended *)
    eexists. split; [done|]. split.
    { constructor; unfold accu in *; simpl; done || lia. }
    split; [done|]. intros n. rewrite !flushed_spec. unfold accu_range, accu in *. simpl in *.
    assert (Hab : iv_start (b_accu_interval b) < n -> kind_at (b_rl b) n = MI_NONE).
    { intros. apply (kind_at_above _ (iv_start (b_accu_interval b))); [|done].
      eapply Forall_impl; [exact Hl|]. naive_solver. }
    case_decide as Hn.
    + rewrite Hk, Hn. repeat case_decide; first [done|apply Hab; lia].
    + rewrite !kind_at_app, !kind_at_single. unfold in_range. simpl.
      assert (Hkk : kind_of (accu_range b) = iv_kind (accu b)) by (by apply kind_of_accu_range).
      unfold accu_range, kind_of, accu in Hkk. simpl in Hkk. unfold kind_of. simpl.
      rewrite Hkk, Hk. repeat case_decide; try lia;
        first [done | rewrite Hab by lia; by rewrite ?kind_max_none_l].
  - (* flush, and start a new interval *)
    eexists. split; [done|]. split.
    { constructor; unfold accu; simpl; try lia.
      - by apply flushed_canonical.
      - change (Forall (fun r => end_ r <= iv_start iv /\
          (end_ r = iv_start iv -> kind_of r <> iv_kind iv)) (flushed b)).
        rewrite flushed_spec. rewrite Hs.
        assert (Forall (fun r => end_ r <= iv_end (accu b) /\
          (end_ r = iv_end (accu b) -> kind_of r <> iv_kind iv)) (b_rl b)).
        { rewrite Forall_forall in Hl |- *. intros r Hr. destruct (Hl r Hr) as [H1 H2].
          split; [lia|]. intros He. exfalso.
          destruct (decide (iv_kind (accu b) = MI_NONE)) as [Hn|Hn].
          - destruct (Hnone Hn) as [Hnil|]; [|lia]. rewrite Hnil in Hr. by apply elem_of_nil in Hr.
          - specialize (Hsome Hn). lia. }
        case_decide as Hn; [done|]. apply Forall_app. split; [done|]. constructor; [|constructor].
        simpl. split; [lia|]. intros _. by rewrite kind_of_accu_range. }
    split; [done|]. intros n. rewrite (flushed_spec (mk_builder _ _)). unfold accu_range, accu. simpl.
    change (b_rl (rl_builder_flush b)) with (flushed b).
    assert (Habove : iv_end (accu b) < n -> kind_at (flushed b) n = MI_NONE)
      by (apply kind_at_above; by apply flushed_below).
    case_decide as Hn.
    + repeat case_decide; try done; try (apply Habove; lia).
      rewrite Hn. apply Habove. lia.
    + rewrite kind_at_app, kind_at_single. unfold in_range, kind_of. simpl.
      assert (Hkk : (if bool_decide (iv_kind iv = MI_INHERITABLE) then MI_INHERITABLE
                     else MI_NON_INHERITABLE) = iv_kind iv) by (by destruct (iv_kind iv)).
      rewrite Hkk. repeat case_decide; try lia; rewrite ?kind_max_none_r;
        first [done | rewrite Habove by lia; by rewrite ?kind_max_none_l].
Qed.

(** ** The main loop *)

(** The kind of merge the union records for a revision. *)
Definition union_kind (rl1 rl2 : rangelist) (n : Z) : rangelist_interval_kind_t :=
  kind_max (kind_at rl1 n) (kind_at rl2 n).

Lemma kind_iv_head r iv l n :
  reached r (iv :: l) -> r < n <= iv_end iv -> kind_iv (iv :: l) n = iv_kind iv.
Proof. intros [? _] ?. rewrite kind_iv_cons. case_decide; [done|lia]. Qed.

(** The invariant of the main loop at revision [r]: what has been built agrees
    with [f] up to [r], what the iterators still have to deliver beyond it. *)
Record merge_inv (f : Z -> rangelist_interval_kind_t) (b : rangelist_builder_t) (r : Z)
    (l0 l1 : list rangelist_interval_t) : Prop := {
  mi_builder : builder_inv b;
  mi_last : iv_end (accu b) = r;
  mi_reached0 : reached r l0;
  mi_reached1 : reached r l1;
  mi_built : forall n, n <= r -> kind_at (flushed b) n = f n;
  mi_todo : forall n, r < n -> f n = kind_max (kind_iv l0 n) (kind_iv l1 n)
}.

Lemma merge_round f b r l0 l1 rl1 rl2 it0 it1 r_next kind :
  merge_inv f b r l0 l1 -> at_intervals rl1 it0 l0 -> at_intervals rl2 it1 l1 ->
  r < r_next ->
  match l0 with [] => True | iv :: _ => r_next <= iv_end iv end ->
  match l1 with [] => True | iv :: _ => r_next <= iv_end iv end ->
  (forall n, r < n <= r_next -> kind_max (kind_iv l0 n) (kind_iv l1 n) = kind) ->
  exists b' it0' it1' l0' l1',
    rl_builder_add_interval b (mk_interval r r_next kind) = Ok b' /\
    advance it0 r_next = Ok it0' /\ advance it1 r_next = Ok it1' /\
    at_intervals rl1 it0' l0' /\ at_intervals rl2 it1' l1' /\
    merge_inv f b' r_next l0' l1' /\
    (length l0' <= length l0)%nat /\ (length l1' <= length l1)%nat /\
    match l0 with iv :: _ => iv_end iv = r_next -> (length l0' < length l0)%nat | [] => True end /\
    match l1 with iv :: _ => iv_end iv = r_next -> (length l1' < length l1)%nat | [] => True end.
Proof.
  intros [Hb Hlast Hr0 Hr1 Hbuilt Htodo] Hat0 Hat1 Hlt He0 He1 Hkind.
  destruct (rl_builder_add_interval_spec b (mk_interval r r_next kind))
    as (b' & -> & Hb' & Hend & Hk'); [done|done|done|].
  destruct (advance_spec _ _ _ _ _ Hat0 Hr0 Hlt He0) as (it0' & l0' & -> & ? & ? & ? & Hk0 & ?).
  destruct (advance_spec _ _ _ _ _ Hat1 Hr1 Hlt He1) as (it1' & l1' & -> & ? & ? & ? & Hk1 & ?).
  exists b', it0', it1', l0', l1'. split_and!; try done.
  constructor; try done.
  - intros n Hn. rewrite Hk'. simpl. repeat case_decide; try lia.
    + by apply Hbuilt.
    + rewrite Htodo by lia. rewrite Hkind; [done|lia].
  - intros n Hn. rewrite Htodo, Hk0, Hk1 by lia. done.
Qed.

Lemma rangelist_merge_loop_spec f rl1 rl2 fuel it0 it1 l0 l1 b r :
  merge_inv f b r l0 l1 -> at_intervals rl1 it0 l0 -> at_intervals rl2 it1 l1 ->
  (length l0 + length l1 <= fuel)%nat ->
  exists b', rangelist_merge_loop fuel it0 it1 b r = Ok b' /\ builder_inv b' /\
    forall n, kind_at (flushed b') n = f n.
Proof.
  revert it0 it1 l0 l1 b r. induction fuel as [|fuel IH];
    intros it0 it1 l0 l1 b r Hinv Hat0 Hat1 Hfuel;
    assert (Hinv' := Hinv); destruct Hinv' as [Hb Hlast Hr0 Hr1 Hbuilt Htodo].
  - destruct l0, l1; simpl in Hfuel; try lia. simpl in Hat0, Hat1. subst it0 it1.
    exists b. split; [done|]. split; [done|]. intros n.
    destruct (Z.le_gt_cases n r); [by apply Hbuilt|].
    rewrite Htodo by lia. apply (kind_at_above _ r); [|lia].
    rewrite <-Hlast. by apply flushed_below.
  - destruct l0 as [|iv0 l0], l1 as [|iv1 l1].
    + simpl in Hat0, Hat1. subst it0 it1.
      exists b. split; [done|]. split; [done|]. intros n.
      destruct (Z.le_gt_cases n r); [by apply Hbuilt|].
      rewrite Htodo by lia. apply (kind_at_above _ r); [|lia].
      rewrite <-Hlast. by apply flushed_below.
    + simpl in Hat0. subst it0. assert (Hat1' := Hat1).
      destruct Hat1' as (j & -> & _ & Hiv & _). cbn [rangelist_merge_loop]. rewrite Hiv.
      destruct Hr1 as [Hlt1 Hc1] eqn:E; clear E.
      rewrite (proj2 (Z.ltb_lt r _)) by (simpl; lia). cbn [svn_err_assert mbind result_bind].
      destruct (merge_round f b r [] (iv1 :: l1) rl1 rl2 None (Some j) (iv_end iv1) (iv_kind iv1))
        as (b' & it0' & it1' & l0' & l1' & -> & Ha0 & -> & ? & ? & ? & ? & ? & ? & Hdec);
        try done; [lia| |].
      { intros n Hn. rewrite (kind_iv_head r iv1) by done. by rewrite kind_max_none_l. }
      cbn [mbind result_bind]. rewrite Ha0. cbn [mbind result_bind iv_end].
      eapply IH; [done..|]. specialize (Hdec eq_refl). simpl in *. lia.
    + simpl in Hat1. subst it1. assert (Hat0' := Hat0).
      destruct Hat0' as (i & -> & _ & Hiv & _). cbn [rangelist_merge_loop]. rewrite Hiv.
      destruct Hr0 as [Hlt0 Hc0] eqn:E; clear E.
      rewrite (proj2 (Z.ltb_lt r _)) by (simpl; lia). cbn [svn_err_assert mbind result_bind].
      destruct (merge_round f b r (iv0 :: l0) [] rl1 rl2 (Some i) None (iv_end iv0) (iv_kind iv0))
        as (b' & it0' & it1' & l0' & l1' & -> & -> & Ha1 & ? & ? & ? & ? & ? & Hdec & ?);
        try done; [lia| |].
      { intros n Hn. rewrite (kind_iv_head r iv0) by done. by rewrite kind_max_none_r. }
      cbn [mbind result_bind]. rewrite Ha1. cbn [mbind result_bind iv_end].
      eapply IH; [done..|]. specialize (Hdec eq_refl). simpl in *. lia.
    + assert (Hat0' := Hat0). assert (Hat1' := Hat1).
      destruct Hat0' as (i & -> & _ & Hiv0 & _). destruct Hat1' as (j & -> & _ & Hiv1 & _).
      cbn [rangelist_merge_loop]. rewrite Hiv0, Hiv1.
      assert (Hlt0 : r < iv_end iv0) by (destruct Hr0; lia).
      assert (Hlt1 : r < iv_end iv1) by (destruct Hr1; lia).
      rewrite (proj2 (Z.ltb_lt r _)) by (simpl; lia). cbn [svn_err_assert mbind result_bind].
      destruct (merge_round f b r (iv0 :: l0) (iv1 :: l1) rl1 rl2 (Some i) (Some j)
                  (Z.min (iv_end iv0) (iv_end iv1)) (kind_max (iv_kind iv0) (iv_kind iv1)))
        as (b' & it0' & it1' & l0' & l1' & -> & -> & -> & ? & ? & ? & ? & ? & Hd0 & Hd1);
        try done; [lia|lia|lia| |].
      { intros n Hn. rewrite (kind_iv_head r iv0), (kind_iv_head r iv1) by (done || lia). done. }
      cbn [mbind result_bind iv_end]. eapply IH; [done..|].
      destruct (Z.le_gt_cases (iv_end iv0) (iv_end iv1)).
      * assert ((length l0' < length (iv0 :: l0))%nat) by (apply Hd0; lia). simpl in *. lia.
      * assert ((length l1' < length (iv1 :: l1))%nat) by (apply Hd1; lia). simpl in *. lia.
Qed.

(** For well-formed inputs the merge succeeds, and its output is the canonical
    rangelist of the union. *)
Lemma merge2_spec rl1 rl2 :
  disjoint_sorted rl1 -> disjoint_sorted rl2 -> exists out,
    svn_rangelist_merge2 rl1 rl2 = Ok out /\ canonical out /\
    forall n, kind_at out n = union_kind rl1 rl2 n.
Proof.
  intros Hd1 Hd2. unfold svn_rangelist_merge2, rangelist_merge.
  rewrite !disjoint_sorted_is_sorted by done. cbn [svn_err_assert mbind result_bind].
  destruct (rlii_first_spec rl1) as (it0 & -> & Hat0).
  destruct (rlii_first_spec rl2) as (it1 & -> & Hat1). cbn [svn_err_assert mbind result_bind].
  change (bool_decide (length (@nil svn_merge_range) = 0%nat)) with true.
  cbn [svn_err_assert mbind result_bind].
  destruct (rangelist_merge_loop_spec (union_kind rl1 rl2) rl1 rl2
    (2 * length rl1 + 2 * length rl2) it0 it1 (remaining rl1 0) (remaining rl2 0)
    (rl_builder_new []) 0) as (b' & -> & Hb & Hk); [|done|done| |].
  - constructor; try done.
    + constructor; simpl; try done; try lia. by left.
    + apply contiguous_reached. apply all_intervals_contiguous; [done|].
      by apply disjoint_sorted_nonneg.
    + apply contiguous_reached. apply all_intervals_contiguous; [done|].
      by apply disjoint_sorted_nonneg.
    + intros n Hn. unfold union_kind. by rewrite !kind_at_positive.
    + intros n Hn. unfold union_kind, remaining. rewrite !drop_0.
      by rewrite !kind_iv_all by (done || by apply disjoint_sorted_nonneg).
  - unfold remaining. rewrite <-!length_all_intervals with (prev := 0). rewrite !drop_0.
    pose proof (length_filter iv_nonempty (all_intervals 0 rl1)).
    pose proof (length_filter iv_nonempty (all_intervals 0 rl2)). lia.
  - cbn [mbind result_bind]. exists (flushed b').
    split; [done|]. split; [by apply flushed_canonical|done].
Qed.

(** * Correctness of intersection, removal and difference

    For well-formed rangelists and without considering inheritance,
    [svn_rangelist_intersect], [svn_rangelist_remove] and [svn_rangelist_diff]
    compute the intersection and the difference of the sets of revisions, in
    canonical form and without a failed assertion. *)

(** Canonical whatever the inheritability: ranges do not even touch. *)
Fixpoint separated (rl : rangelist) : Prop :=
  match rl with
  | [] => True
  | r :: rl => forward r /\ Forall (fun r' => end_ r < start r') rl /\ separated rl
  end.

(** The elements of the second rangelist still to be treated: the current one
    may have been trimmed. *)
Definition ior_rest2 (rl2 : rangelist) (st : ior_state) : rangelist :=
  if decide (ior_lasti2 st = Some (ior_i2 st))
  then ior_working_elt2 st :: drop (S (ior_i2 st)) rl2
  else drop (ior_i2 st) rl2.

Definition ior_rest1 (rl1 : rangelist) (st : ior_state) : rangelist := drop (ior_i1 st) rl1.

(** The set that is computed, for the rest [A] of the first rangelist and the
    rest [B] of the second. *)
Definition ior_target (do_remove : bool) (A B : rangelist) (n : Z) : Prop :=
  covers B n /\ if do_remove then ~ covers A n else covers A n.

Lemma separated_canonical rl : separated rl -> canonical rl.
Proof.
  induction rl as [|r rl IH]; simpl; [done|]. intros (? & Hall & ?). split_and!; auto.
  eapply Forall_impl; [exact Hall|]. simpl. intros ? ?. split; lia.
Qed.

Lemma separated_snoc rl r :
  separated (rl ++ [r]) <->
  separated rl /\ forward r /\ Forall (fun r' => end_ r' < start r) rl.
Proof.
  induction rl as [|r' rl IH]; simpl.
  { split; [intros (?&?&?)|]; naive_solver. }
  rewrite IH, Forall_app, !Forall_cons, Forall_nil. tauto.
Qed.

Lemma covers_single r n : covers [r] n <-> in_range r n.
Proof. rewrite covers_cons. pose proof (covers_nil n). tauto. Qed.

(** Combining with the last range is the union, provided the new range does
    not start in front of the last one. *)
Lemma combine_with_lastrange_union rl r :
  separated rl -> forward r -> Forall (fun r' => start r' <= start r) rl ->
  exists out, combine_with_lastrange r rl false = Ok out /\ separated out /\
    (forall n, covers out n <-> covers rl n \/ in_range r n) /\
    (forall s, start r <= s -> Forall (fun r' => start r' <= s) out).
Proof.
  intros Hs Hf Hst. unfold combine_with_lastrange.
  destruct (last rl) as [lastr|] eqn:Hlast.
  2:{ apply last_None in Hlast as ->. exists [r]. split; [done|].
      split; [simpl; split_and!; done|]. split.
      - intros n. rewrite covers_single. pose proof (covers_nil n). tauto.
      - intros s ?. by constructor. }
  apply last_snoc_inv in Hlast as [init ->].
  rewrite take_init.
  apply separated_snoc in Hs as (Hsi & Hfl & Hil).
  apply Forall_app in Hst as [Hsti Hstl]. apply Forall_cons in Hstl as [Hstl _].
  unfold combine_ranges. cbn [negb orb andb]. unfold forward in *.
  assert (Hil' : forall s, start r <= s -> Forall (fun r' => start r' <= s) init).
  { intros s ?. eapply Forall_impl; [exact Hsti|]. simpl. lia. }
  destruct ((start lastr <=? end_ r) && (start r <=? end_ lastr)) eqn:E; reflect_bools.
  - eexists. split; [done|]. split; [|split].
    + apply separated_snoc. split; [done|]. unfold forward. simpl. split; [lia|].
      eapply Forall_impl; [exact Hil|]. simpl. lia.
    + intros n. rewrite !covers_app, !covers_single. unfold in_range. simpl.
      assert (start lastr < n <= end_ lastr \/ start r < n <= end_ r <->
              Z.min (start lastr) (start r) < n <= Z.max (end_ lastr) (end_ r)) by lia. tauto.
    + intros s ?. apply Forall_app. split; [by apply Hil'|]. constructor; [simpl; lia|done].
  - eexists. split; [done|]. split; [|split].
    + apply separated_snoc. split; [by apply separated_snoc|]. split; [done|].
      apply Forall_app. split; [|constructor; [simpl; lia|done]].
      eapply Forall_impl; [exact Hil|]. simpl. lia.
    + intros n. rewrite !covers_app, !covers_single. tauto.
    + intros s ?. rewrite !Forall_app. split; [split; [by apply Hil'|]|];
        constructor; try done; simpl; lia.
Qed.

(** The inlined variant of the removal loop does the same. *)
Lemma combine_or_push output elt2 :
  (match last output with
   | Some lastrange =>
       match combine_ranges lastrange elt2 false with
       | Some lastrange' => take (length output - 1) output ++ [lastrange']
       | None => output ++ [elt2]
       end
   | None => output ++ [elt2]
   end) = match combine_with_lastrange elt2 output false with Ok o => o | Err _ => [] end.
Proof.
  unfold combine_with_lastrange. destruct (last output); [|done].
  by destruct (combine_ranges _ _ _).
Qed.

(** ** One round of the loop, on the rests of the two lists *)

Definition rest_inv (do_remove : bool) (T : Z -> Prop) (A B out : rangelist) : Prop :=
  disjoint_sorted A /\ disjoint_sorted B /\ separated out /\
  match B with
  | elt2 :: _ => Forall (fun r => start r <= start elt2) out
  | [] => True
  end /\
  forall n, T n <-> covers out n \/ ior_target do_remove A B n.

(** The measure of the loop: a range of the first list that has not been
    passed yet may still trim the current element. *)
Definition ior_measure (A B : rangelist) : nat :=
  (2 * length A + length B +
   match A, B with
   | elt1 :: _, elt2 :: _ => if decide (end_ elt1 <= start elt2)%Z then 0 else 1
   | _, _ => 0
   end)%nat.

Arguments ior_measure : simpl never.

Lemma ior_measure_bounds A B :
  (2 * length A + length B <= ior_measure A B <= 2 * length A + length B + 1)%nat.
Proof. unfold ior_measure. destruct A, B; simpl; repeat case_decide; lia. Qed.

Lemma covers_after s rl n :
  Forall (fun r' => s <= start r') rl -> covers rl n -> s < n.
Proof.
  unfold covers. rewrite Forall_forall, Exists_exists. intros H (r & Hr & Hin).
  specialize (H r Hr). unfold in_range in Hin. simpl in H. lia.
Qed.

(** Replace an atom [covers l n] by [True] or [False]. *)
Ltac decide_covers l n :=
  let H := fresh "Hcov" in
  destruct (decide (covers l n)) as [H|H];
  [ repeat match goal with
    | H' : covers l n -> _ |- _ => specialize (H' H)
    end;
    rewrite ?(prop_true H)
  | rewrite ?(prop_false H);
    repeat match goal with H' : covers l n -> _ |- _ => clear H' end ].

Section Rounds.
Context (do_remove : bool) (T : Z -> Prop).
Context (elt1 elt2 : svn_merge_range) (A B out : rangelist).
Hypothesis Hinv : rest_inv do_remove T (elt1 :: A) (elt2 :: B) out.

Lemma rounds_facts :
  forward elt1 /\ forward elt2 /\ disjoint_sorted A /\ disjoint_sorted B /\
  (forall n, covers A n -> end_ elt1 < n) /\ (forall n, covers B n -> end_ elt2 < n) /\
  separated out /\ Forall (fun r => start r <= start elt2) out /\
  (forall n, T n <-> covers out n \/ ior_target do_remove (elt1 :: A) (elt2 :: B) n).
Proof using Hinv.
  destruct Hinv as ((? & HA & ?) & (? & HB & ?) & ? & ? & ?).
  split_and!; try done; intros n; by apply covers_after.
Qed.

Lemma starts_next out' s :
  (forall s', s <= s' -> Forall (fun r => start r <= s') out') -> s <= end_ elt2 ->
  match B with
  | elt2' :: _ => Forall (fun r => start r <= start elt2') out'
  | [] => True
  end.
Proof using Hinv.
  intros Hout Hs. destruct Hinv as (_ & (_ & HB & _) & _). destruct B as [|elt2' B']; [done|].
  apply Hout. apply Forall_cons in HB as [? _]. lia.
Qed.

Lemma starts_out s' :
  start elt2 <= s' -> Forall (fun r => start r <= s') out.
Proof using Hinv.
  intros ?. destruct Hinv as (_ & _ & _ & Hs & _). eapply Forall_impl; [exact Hs|]. simpl. lia.
Qed.

Ltac target :=
  intros n; destruct rounds_facts as (?&?&?&?&HA&HB&?&?&HT); specialize (HA n);
  specialize (HB n); rewrite HT; clear HT; unfold ior_target, forward in *;
  repeat match goal with H : forall n, covers _ n <-> _ |- _ =>
           rewrite (H n); clear H end;
  destruct do_remove;
  repeat match goal with |- context [covers (?r :: ?l) ?n] =>
           rewrite (covers_cons r l n) end;
  unfold in_range in *; simpl in *; clear Hinv;
  decide_covers A n; decide_covers B n; decide_covers out n; lia.

(** The current element lies within [elt1]. *)
Lemma round_contains :
  start elt1 <= start elt2 -> end_ elt2 <= end_ elt1 -> exists out',
    (if do_remove then Ok out
     else combine_with_lastrange
            (mk_range (start elt2) (end_ elt2) (inheritable elt2 || inheritable elt1))
            out false) = Ok out' /\
    rest_inv do_remove T (elt1 :: A) B out' /\
    (start elt2 = start elt1 -> end_ elt2 = end_ elt1 -> rest_inv do_remove T A B out').
Proof using Hinv.
  intros Hle1 Hle2. destruct rounds_facts as (Hf1&Hf2&HdA&HdB&_&_&Hsep&Hst&_).
  assert (Hout : exists out', (if do_remove then Ok out
     else combine_with_lastrange
            (mk_range (start elt2) (end_ elt2) (inheritable elt2 || inheritable elt1))
            out false) = Ok out' /\ separated out' /\
    (forall n, covers out' n <-> covers out n \/ (if do_remove then False else in_range elt2 n)) /\
    (forall s, start elt2 <= s -> Forall (fun r' => start r' <= s) out')).
  { pose proof starts_out as Hso. destruct do_remove.
    - exists out. split_and!; try done. intros n. tauto.
    - destruct (combine_with_lastrange_union out
        (mk_range (start elt2) (end_ elt2) (inheritable elt2 || inheritable elt1)))
        as (out' & ? & ? & Hc & ?); [done|done|done|].
      exists out'. split_and!; done. }
  destruct Hout as (out' & -> & Hsep' & Hcov & Hst'). exists out'. split; [done|].
  assert (Hd1 := Hinv). destruct Hd1 as (Hd1 & _).
  pose proof (starts_next out' (start elt2) Hst') as Hnext. unfold forward in *.
  split; [|intros Hs He]; split_and!; try done; try (apply Hnext; lia); target.
Qed.

(** [elt1] ends within the current element or behind it. *)
Lemma round_left :
  start elt1 < end_ elt2 -> start elt2 < end_ elt1 ->
  ~ (start elt1 <= start elt2 /\ end_ elt2 <= end_ elt1) -> exists out',
    (if start elt2 <? start elt1 then
       combine_with_lastrange
         (if do_remove then mk_range (start elt2) (start elt1) (inheritable elt2)
          else mk_range (start elt1) (Z.min (end_ elt2) (end_ elt1))
                 (inheritable elt2 || inheritable elt1)) out false
     else Ok out) = Ok out' /\ separated out' /\
    (forall n, covers out' n <-> covers out n \/ (start elt2 < start elt1 /\
        if do_remove then start elt2 < n <= start elt1
        else start elt1 < n <= Z.min (end_ elt2) (end_ elt1))) /\
    (forall s, Z.max (start elt1) (start elt2) <= s -> Forall (fun r' => start r' <= s) out').
Proof using Hinv.
  intros Hi1 Hi2 Hnc. destruct rounds_facts as (Hf1&Hf2&HdA&HdB&_&_&Hsep&Hst&_).
  unfold forward in *. destruct (Z.ltb_spec (start elt2) (start elt1)).
  - edestruct (combine_with_lastrange_union out) as (out' & Heq & Hsep' & Hcov & Hst');
      [done| | |exists out'; split; [exact Heq|]; split; [done|]; split].
    + unfold forward. destruct do_remove; simpl; lia.
    + apply starts_out. destruct do_remove; simpl; lia.
    + intros n. rewrite Hcov. unfold in_range. destruct do_remove; simpl; intuition lia.
    + intros s Hs. apply Hst'. destruct do_remove; simpl; lia.
  - exists out. split; [done|]. split; [done|]. split; [intros n; intuition lia|].
    intros s Hs. apply starts_out. lia.
Qed.

(** The current element goes on behind [elt1]: it is trimmed. *)
Lemma round_trim out1 :
  start elt1 < end_ elt2 -> start elt2 < end_ elt1 -> end_ elt1 < end_ elt2 ->
  separated out1 ->
  (forall n, covers out1 n <-> covers out n \/ (start elt2 < start elt1 /\
      if do_remove then start elt2 < n <= start elt1
      else start elt1 < n <= Z.min (end_ elt2) (end_ elt1))) ->
  (forall s, Z.max (start elt1) (start elt2) <= s ->
     Forall (fun r' => start r' <= s) out1) -> exists out',
    (if do_remove then Ok out1
     else combine_with_lastrange
            (mk_range (Z.max (start elt2) (start elt1)) (end_ elt1)
               (inheritable elt2 || inheritable elt1)) out1 false) = Ok out' /\
    rest_inv do_remove T (elt1 :: A) (set_start elt2 (end_ elt1) :: B) out'.
Proof using Hinv.
  intros Hi1 Hi2 Hlt Hsep1 Hcov1 Hst1.
  assert (Hd1 := Hinv). destruct Hd1 as (Hd1 & (Hf2 & HBall & HdB) & _).
  destruct rounds_facts as (Hf1&_&HdA&_&_&_&_&_&_). unfold forward in *.
  assert (Hd2 : disjoint_sorted (set_start elt2 (end_ elt1) :: B)).
  { simpl. unfold forward. simpl. split_and!; done || lia. }
  assert (Hout : exists out', (if do_remove then Ok out1
     else combine_with_lastrange
            (mk_range (Z.max (start elt2) (start elt1)) (end_ elt1)
               (inheritable elt2 || inheritable elt1)) out1 false) = Ok out' /\
    separated out' /\
    (forall n, covers out' n <-> covers out1 n \/ (if do_remove then False
        else Z.max (start elt2) (start elt1) < n <= end_ elt1)) /\
    (forall s, Z.max (start elt1) (start elt2) <= s -> Forall (fun r' => start r' <= s) out')).
  { destruct do_remove.
    - exists out1. split_and!; try done. intros n. tauto.
    - edestruct (combine_with_lastrange_union out1) as (out' & Heq & Hsep' & Hcov & Hst');
        [done| | |exists out'; split; [exact Heq|]; split; [done|]; split].
      + unfold forward. simpl. lia.
      + apply Hst1. simpl. lia.
      + intros n. rewrite Hcov. unfold in_range. simpl. tauto.
      + intros s Hs. apply Hst'. simpl. lia. }
  destruct Hout as (out' & -> & Hsep' & Hcov & Hst'). exists out'. split; [done|].
  split_and!; try done; [apply Hst'; simpl; lia|].
  target.
Qed.

(** The current element ends within [elt1]. *)
Lemma round_end out1 :
  start elt1 < end_ elt2 -> start elt2 < end_ elt1 -> end_ elt2 <= end_ elt1 ->
  start elt2 < start elt1 -> separated out1 ->
  (forall n, covers out1 n <-> covers out n \/ (start elt2 < start elt1 /\
      if do_remove then start elt2 < n <= start elt1
      else start elt1 < n <= Z.min (end_ elt2) (end_ elt1))) ->
  (forall s, Z.max (start elt1) (start elt2) <= s ->
     Forall (fun r' => start r' <= s) out1) ->
  rest_inv do_remove T (elt1 :: A) B out1.
Proof using Hinv.
  intros Hi1 Hi2 Hle Hlt Hsep1 Hcov1 Hst1.
  destruct rounds_facts as (_&_&_&HdB&_&_&_&_&_).
  assert (Hd1 := Hinv). destruct Hd1 as (Hd1 & _).
  split_and!; try done; [eapply starts_next; [exact Hst1|lia]|]. target.
Qed.

(** [elt1] lies in front of the current element. *)
Lemma round_skip1 :
  end_ elt1 <= start elt2 -> rest_inv do_remove T A (elt2 :: B) out.
Proof using Hinv.
  intros Hle. destruct rounds_facts as (_&_&HdA&_&_&_&Hsep&Hst&_).
  assert (Hd2 := Hinv). destruct Hd2 as (_ & Hd2 & _).
  split_and!; try done. target.
Qed.

(** [elt1] lies behind the current element. *)
Lemma round_skip2 :
  end_ elt2 <= start elt1 -> exists out',
    (if do_remove then combine_with_lastrange elt2 out false else Ok out) = Ok out' /\
    rest_inv do_remove T (elt1 :: A) B out'.
Proof using Hinv.
  intros Hle. destruct rounds_facts as (Hf1&Hf2&HdA&HdB&_&_&Hsep&Hst&_).
  assert (Hd1 := Hinv). destruct Hd1 as (Hd1 & _).
  assert (Hout : exists out',
    (if do_remove then combine_with_lastrange elt2 out false else Ok out) = Ok out' /\
    separated out' /\
    (forall n, covers out' n <-> covers out n \/ (if do_remove then in_range elt2 n else False)) /\
    (forall s, start elt2 <= s -> Forall (fun r' => start r' <= s) out')).
  { pose proof starts_out as Hso. destruct do_remove.
    - destruct (combine_with_lastrange_union out elt2) as (out' & ? & ? & Hc & ?);
        [done..|]. exists out'. split_and!; done.
    - exists out. split_and!; try done. intros n. tauto. }
  destruct Hout as (out' & -> & Hsep' & Hcov & Hst'). exists out'. split; [done|].
  pose proof (starts_next out' (start elt2) Hst') as Hnext. unfold forward in *.
  split_and!; try done; [apply Hnext; lia|]. target.
Qed.
End Rounds.

(** ** The loop *)

Record ior_inv (do_remove : bool) (rl1 rl2 : rangelist) (st : ior_state) : Prop := {
  ii_rest : rest_inv do_remove (ior_target do_remove rl1 rl2)
              (ior_rest1 rl1 st) (ior_rest2 rl2 st) (ior_output st);
  ii_last : ior_lasti2 st = Some (ior_i2 st) -> (ior_i2 st < length rl2)%nat
}.

Definition st_measure (rl1 rl2 : rangelist) (st : ior_state) : nat :=
  ior_measure (ior_rest1 rl1 st) (ior_rest2 rl2 st).

Lemma rest2_next rl2 i1 i2 w o :
  ior_rest2 rl2 (mk_ior i1 (S i2) (Some i2) w o) = drop (S i2) rl2.
Proof. unfold ior_rest2. simpl. case_decide; [simplify_eq; lia|done]. Qed.

Lemma rest2_same rl2 i1 i2 w o :
  ior_rest2 rl2 (mk_ior i1 i2 (Some i2) w o) = w :: drop (S i2) rl2.
Proof. unfold ior_rest2. simpl. by rewrite decide_True. Qed.

Lemma range_contains_forward r1 r2 :
  forward r1 -> forward r2 ->
  range_contains r1 r2 false = Ok ((start r1 <=? start r2) && (end_ r2 <=? end_ r1)) /\
  range_intersect r1 r2 false =
    Ok ((start r1 + 1 <=? end_ r2) && (start r2 + 1 <=? end_ r1)).
Proof.
  unfold forward, range_contains, range_intersect, IS_VALID_FORWARD_RANGE, SVN_IS_VALID_REVNUM.
  intros H1 H2. rewrite (proj2 (Z.leb_le 0 (start r1))), (proj2 (Z.leb_le 0 (start r2))),
    (proj2 (Z.ltb_lt (start r1) _)), (proj2 (Z.ltb_lt (start r2) _)) by lia.
  simpl. by rewrite !andb_true_r.
Qed.

(** Where a state stands: the current elements and their indices. *)
Lemma ior_heads rl1 rl2 st :
  (ior_i1 st < length rl1)%nat -> (ior_i2 st < length rl2)%nat ->
  exists elt1 elt2 cur2,
    rl1 !! ior_i1 st = Some elt1 /\ rl2 !! ior_i2 st = Some cur2 /\
    (if decide (Some (ior_i2 st) = ior_lasti2 st) then ior_working_elt2 st else cur2) = elt2 /\
    ior_rest1 rl1 st = elt1 :: drop (S (ior_i1 st)) rl1 /\
    ior_rest2 rl2 st = elt2 :: drop (S (ior_i2 st)) rl2.
Proof.
  intros H1 H2. apply lookup_lt_is_Some in H1 as [elt1 H1].
  apply lookup_lt_is_Some in H2 as [cur2 H2].
  eexists elt1, _, cur2. split; [done|]. split; [done|]. split; [done|].
  unfold ior_rest1, ior_rest2. split; [by apply lookup_drop_cons|].
  destruct (decide (ior_lasti2 st = Some (ior_i2 st))) as [->|].
  - by rewrite decide_True.
  - rewrite decide_False by congruence. by apply lookup_drop_cons.
Qed.

Lemma compare_disjoint elt1 elt2 :
  forward elt1 -> forward elt2 -> end_ elt1 <= start elt2 \/ end_ elt2 <= start elt1 ->
  (svn_sort_compare_ranges elt1 elt2 <? 0) = (end_ elt1 <=? start elt2).
Proof.
  unfold forward, svn_sort_compare_ranges. intros H1 H2 H. split_ifs; lia.
Qed.

Lemma ior_round do_remove rl1 rl2 st :
  ior_inv do_remove rl1 rl2 st ->
  (ior_i1 st < length rl1)%nat -> (ior_i2 st < length rl2)%nat -> exists st',
    ior_step rl1 rl2 do_remove false st = Ok st' /\ ior_inv do_remove rl1 rl2 st' /\
    (st_measure rl1 rl2 st' < st_measure rl1 rl2 st)%nat.
Proof.
  intros [Hrest _] Hi1 Hi2.
  destruct (ior_heads rl1 rl2 st Hi1 Hi2) as (elt1 & elt2 & cur2 & H1 & H2 & Helt & HA & HB).
  rewrite HA, HB in Hrest.
  assert (Hm : st_measure rl1 rl2 st =
    ior_measure (elt1 :: drop (S (ior_i1 st)) rl1) (elt2 :: drop (S (ior_i2 st)) rl2))
    by (unfold st_measure; by rewrite HA, HB).
  destruct st as [i1 i2 lasti2 w out]. unfold ior_step. simpl in *.
  rewrite H1, H2, Helt. clear HA HB Helt. unfold ior_measure in Hm. simpl in Hm.
  generalize dependent (st_measure rl1 rl2 (mk_ior i1 i2 lasti2 w out)). intros m Hm.
  destruct (rounds_facts _ _ _ _ _ _ _ Hrest) as (Hf1&Hf2&_&_&_&_&_&_&_).
  destruct (range_contains_forward elt1 elt2 Hf1 Hf2) as [-> ->]. cbn -[Z.add Z.leb].
  assert (Hd1 : ior_rest1 rl1 (mk_ior i1 i2 lasti2 w out) = elt1 :: drop (S i1) rl1)
    by (unfold ior_rest1; simpl; by apply lookup_drop_cons).
  unfold ior_rest1 in Hd1. simpl in Hd1.
  destruct ((start elt1 <=? start elt2) && (end_ elt2 <=? end_ elt1)) eqn:Ec; reflect_bools.
  { (* contained *)
    destruct (round_contains _ _ _ _ _ _ _ Hrest) as (out' & Hout & Hinv & Hinv'); [done..|].
    unfold mbind in *. rewrite Hout. simpl.
    eexists. split; [done|].
    destruct ((start elt2 =? start elt1) && (end_ elt2 =? end_ elt1)) eqn:Ee; reflect_bools;
      (split; [split; [|simpl; intros; simplify_eq; lia]|]).
    all: unfold st_measure, ior_rest1; rewrite ?rest2_next; simpl; rewrite ?Hd1; auto.
    all: unfold forward in *.
    all: pose proof (ior_measure_bounds (drop (S i1) rl1) (drop (S i2) rl2)).
    all: pose proof (ior_measure_bounds (elt1 :: drop (S i1) rl1) (drop (S i2) rl2)).
    all: cbn [length] in *; case_decide; lia. }
  destruct ((start elt1 + 1 <=? end_ elt2) && (start elt2 + 1 <=? end_ elt1)) eqn:Ei; reflect_bools.
  { (* partly overlapping *)
    destruct (round_left _ _ _ _ _ _ _ Hrest) as (out1 & Hout1 & Hsep1 & Hcov1 & Hst1); [lia..|].
    unfold mbind in *. rewrite Hout1. simpl.
    destruct (end_ elt1 <? end_ elt2) eqn:Et; reflect_bools.
    - destruct (round_trim _ _ _ _ _ _ _ Hrest out1) as (out' & Hout' & Hinv);
        [done || lia..|].
      rewrite Hout'. simpl. eexists. split; [done|].
      split; [split; [|simpl; intros; simplify_eq; lia]|];
        unfold st_measure, ior_rest1; rewrite rest2_same; simpl; [by rewrite Hd1|].
      rewrite Hd1. unfold ior_measure. simpl. rewrite decide_True by lia. case_decide; lia.
    - pose proof (round_end _ _ _ _ _ _ _ Hrest out1) as Hinv.
      eexists. split; [done|].
      split; [split; [|simpl; intros; simplify_eq; lia]|];
        unfold st_measure, ior_rest1; rewrite rest2_next; simpl; rewrite Hd1;
        [apply Hinv; done || lia|].
      pose proof (ior_measure_bounds (elt1 :: drop (S i1) rl1) (drop (S i2) rl2)).
      simpl in *. case_decide; lia. }
  (* disjoint *)
  unfold forward in *. rewrite compare_disjoint by (done || lia).
  destruct (end_ elt1 <=? start elt2) eqn:Es; reflect_bools.
  - pose proof (round_skip1 _ _ _ _ _ _ _ Hrest Es) as Hinv.
    eexists. split; [done|].
    split; [split; [|simpl; intros; simplify_eq; lia]|];
      unfold st_measure, ior_rest1; rewrite rest2_same; simpl; [done|].
    pose proof (ior_measure_bounds (drop (S i1) rl1) (elt2 :: drop (S i2) rl2)).
    simpl in *. case_decide; lia.
  - destruct (round_skip2 _ _ _ _ _ _ _ Hrest) as (out' & Hout & Hinv); [lia|].
    eexists. split; [done|].
    split; [split; [|simpl; intros; simplify_eq; lia]|];
      unfold st_measure, ior_rest1; rewrite rest2_next; simpl; rewrite Hd1.
    + destruct do_remove; [|by simplify_eq]. rewrite combine_or_push.
      by rewrite Hout.
    + pose proof (ior_measure_bounds (elt1 :: drop (S i1) rl1) (drop (S i2) rl2)).
      simpl in *. case_decide; lia.
Qed.

Lemma ior_loop_spec do_remove rl1 rl2 fuel st :
  ior_inv do_remove rl1 rl2 st -> (st_measure rl1 rl2 st <= fuel)%nat -> exists st',
    ior_loop rl1 rl2 do_remove false fuel st = Ok st' /\ ior_inv do_remove rl1 rl2 st' /\
    ~ ((ior_i1 st' < length rl1)%nat /\ (ior_i2 st' < length rl2)%nat).
Proof.
  revert st. induction fuel as [|fuel IH]; intros st Hinv Hm; simpl;
    destruct ((ior_i1 st <? length rl1)%nat && (ior_i2 st <? length rl2)%nat) eqn:E;
    try (exists st; split; [done|]; split; [done|]; intros [? ?];
         apply andb_false_iff in E as [E|E]; apply Nat.ltb_ge in E; lia);
    apply andb_true_iff in E as [E1 E2]; apply Nat.ltb_lt in E1, E2;
    destruct (ior_round do_remove rl1 rl2 st Hinv E1 E2) as (st' & Hst & Hinv' & Hlt); [lia|].
  rewrite Hst. simpl. apply IH; [done|lia].
Qed.

Lemma ior_copy_rest_spec rest out :
  separated out -> disjoint_sorted rest ->
  match rest with
  | r :: _ => Forall (fun r' => start r' <= start r) out
  | [] => True
  end ->
  exists out', ior_copy_rest false rest out = Ok out' /\ separated out' /\
    forall n, covers out' n <-> covers out n \/ covers rest n.
Proof.
  revert out. induction rest as [|r rest IH]; intros out Hs Hd Hst; simpl.
  { exists out. split_and!; try done. intros n. pose proof (covers_nil n). tauto. }
  destruct Hd as (Hf & Hall & Hd).
  destruct (combine_with_lastrange_union out r) as (out1 & -> & Hs1 & Hc1 & Hst1); [done..|].
  simpl. destruct (IH out1 Hs1 Hd) as (out' & -> & Hs' & Hc').
  { destruct rest as [|r' rest]; [done|]. apply Hst1. apply Forall_cons in Hall as [? _].
    unfold forward in Hf. lia. }
  exists out'. split_and!; try done. intros n. rewrite Hc', Hc1, covers_cons. tauto.
Qed.

(** Intersection and removal compute their sets. *)
Lemma intersect_or_remove_spec do_remove rl1 rl2 :
  disjoint_sorted rl1 -> disjoint_sorted rl2 -> exists out,
    rangelist_intersect_or_remove rl1 rl2 do_remove false = Ok out /\ separated out /\
    forall n, covers out n <-> ior_target do_remove rl1 rl2 n.
Proof.
  intros Hd1 Hd2. unfold rangelist_intersect_or_remove.
  destruct (ior_loop_spec do_remove rl1 rl2 (ior_fuel rl1 rl2)
              (mk_ior 0 0 None (mk_range 0 0 false) [])) as (st & -> & [Hrest Hlast] & Hend).
  { split; [|done]. unfold ior_rest1, ior_rest2. simpl. rewrite !drop_0.
    split_and!; try done; [by destruct rl2|]. intros n. pose proof (covers_nil n). tauto. }
  { unfold st_measure, ior_rest1, ior_rest2, ior_fuel. simpl. rewrite !drop_0.
    pose proof (ior_measure_bounds rl1 rl2). lia. }
  simpl. destruct st as [i1 i2 lasti2 w out]. simpl in *.
  destruct Hrest as (_ & Hd & Hs & Hst & HT).
  assert (Hdone : forall n, ior_target do_remove (ior_rest1 rl1 (mk_ior i1 i2 lasti2 w out))
      (ior_rest2 rl2 (mk_ior i1 i2 lasti2 w out)) n <->
      if do_remove then covers (ior_rest2 rl2 (mk_ior i1 i2 lasti2 w out)) n else False).
  { intros n. unfold ior_target. pose proof (covers_nil n) as Hnil.
    destruct (decide (i1 < length rl1)%nat) as [?|Hi1].
    - assert (length rl2 <= i2)%nat by lia.
      assert (ior_rest2 rl2 (mk_ior i1 i2 lasti2 w out) = []) as ->.
      { unfold ior_rest2. simpl. case_decide as Hl; [apply Hlast in Hl; lia|].
        by apply drop_ge. }
      destruct do_remove; tauto.
    - assert (ior_rest1 rl1 (mk_ior i1 i2 lasti2 w out) = []) as ->.
      { unfold ior_rest1. simpl. apply drop_ge. lia. }
      destruct do_remove; tauto. }
  destruct do_remove.
  2:{ exists out. split; [done|]. split; [done|]. intros n. rewrite (HT n), (Hdone n). tauto. }
  destruct (ior_copy_rest_spec (ior_rest2 rl2 (mk_ior i1 i2 lasti2 w out)) out)
    as (out' & Hcp & Hs' & Hc'); [done..|].
  exists out'. split; [|split; [done|]; intros n; by rewrite Hc', HT, Hdone].
  rewrite <- Hcp. unfold ior_rest2. simpl.
  destruct (decide (lasti2 = Some i2)) as [->|Hl].
  - rewrite bool_decide_true by done. rewrite (proj2 (Nat.ltb_lt _ _)) by auto. done.
  - rewrite bool_decide_false by done. done.
Qed.

(** * Canonicalization and the combination of ranges

    Lemmas on [svn_rangelist__canonicalize], on [combine_with_lastrange] when
    inheritance is considered, and on sorting. *)

(** Revision [n] is recorded with inheritability [b]. *)
Definition has_kind (b : bool) (rl : rangelist) (n : Z) : Prop :=
  Exists (fun r => in_range r n /\ inheritable r = b) rl.

(** Some revision is recorded both as inheritable and as non-inheritable. *)
Definition conflict (rl : rangelist) : Prop :=
  exists n, has_kind true rl n /\ has_kind false rl n.

(** * Lemmas *)

Lemma has_kind_cons b r rl n :
  has_kind b (r :: rl) n <-> (in_range r n /\ inheritable r = b) \/ has_kind b rl n.
Proof. unfold has_kind. by rewrite Exists_cons. Qed.

Lemma has_kind_nil b n : ~ has_kind b [] n.
Proof. by intros ?%Exists_nil. Qed.

#[export] Instance has_kind_dec b rl n : Decision (has_kind b rl n).
Proof. unfold has_kind. apply _. Defined.

Lemma kind_at_has_kind rl n :
  kind_at rl n = if decide (has_kind true rl n) then MI_INHERITABLE
                 else if decide (has_kind false rl n) then MI_NON_INHERITABLE else MI_NONE.
Proof.
  induction rl as [|r rl IH]; cbn [kind_at].
  { rewrite !decide_False by apply has_kind_nil. done. }
  rewrite IH. repeat case_decide; rewrite ?has_kind_cons in *;
    unfold kind_of; destruct (inheritable r); try done; intuition congruence.
Qed.

Lemma kind_at_ext rl1 rl2 :
  (forall b n, has_kind b rl1 n <-> has_kind b rl2 n) ->
  forall n, kind_at rl1 n = kind_at rl2 n.
Proof.
  intros H n. rewrite !kind_at_has_kind.
  repeat case_decide; try done; exfalso; rewrite H in *; tauto.
Qed.

Lemma conflict_ext rl1 rl2 :
  (forall b n, has_kind b rl1 n <-> has_kind b rl2 n) -> conflict rl1 <-> conflict rl2.
Proof.
  intros H. split; intros (n & H1 & H2); exists n; split; by apply H.
Qed.

Lemma has_kind_Permutation b rl1 rl2 n : rl1 ≡ₚ rl2 -> has_kind b rl1 n <-> has_kind b rl2 n.
Proof.
  intros HP. unfold has_kind. rewrite !Exists_exists.
  split; intros (r & Hr & ?); exists r; split; try done.
  - by rewrite <-HP.
  - by rewrite HP.
Qed.

(** ** Sorting *)

#[export] Instance range_le_total : Total range_le.
Proof. intros x y. unfold range_le, svn_sort_compare_ranges. split_ifs; lia. Qed.

#[export] Instance range_le_trans : Transitive range_le.
Proof.
  intros x y z. unfold range_le, svn_sort_compare_ranges.
  repeat match goal with
  | |- context [(?a =? ?b)%Z] => destruct (Z.eqb_spec a b)
  | |- context [(?a <? ?b)%Z] => destruct (Z.ltb_spec a b)
  end; simpl; lia.
Qed.

Lemma sort_ranges_Permutation rl : sort_ranges rl ≡ₚ rl.
Proof. apply merge_sort_Permutation. Qed.

Lemma sort_ranges_sorted rl : StronglySorted range_le (sort_ranges rl).
Proof. apply StronglySorted_merge_sort; apply _. Qed.

Lemma range_le_start r1 r2 : range_le r1 r2 -> start r1 <= start r2.
Proof. unfold range_le, svn_sort_compare_ranges. split_ifs; reflect_bools; lia. Qed.

(** ** The sweep *)

Definition starts_sorted (rl : rangelist) : Prop :=
  StronglySorted (fun r1 r2 => start r1 <= start r2) rl.

Lemma merge_has_kind last range rest b n :
  start last <= start range -> start range <= end_ last -> forward last -> forward range ->
  inheritable last = inheritable range ->
  has_kind b (set_end last (Z.max (end_ range) (end_ last)) :: rest) n <->
  has_kind b (last :: range :: rest) n.
Proof.
  unfold forward. intros. rewrite !has_kind_cons. unfold in_range, set_end. simpl.
  destruct (decide (inheritable last = b)); [|intuition congruence].
  assert (inheritable range = b) by congruence.
  assert (start last < n <= Z.max (end_ range) (end_ last) <->
          start last < n <= end_ last \/ start range < n <= end_ range) by lia.
  intuition congruence.
Qed.

(** A range in front of the others does not take part in a conflict. *)
Lemma conflict_front last rest :
  Forall (fun r => end_ last <= start r) rest -> conflict (last :: rest) <-> conflict rest.
Proof.
  intros Hall. rewrite Forall_forall in Hall.
  assert (Hafter : forall b n, has_kind b rest n -> ~ in_range last n).
  { unfold has_kind. intros b n (r & Hr & Hin & _)%Exists_exists Hlast.
    specialize (Hall r Hr). unfold in_range in *. simpl in Hall. lia. }
  unfold conflict. split; intros (n & H1 & H2); exists n; rewrite !has_kind_cons in *;
    [|tauto].
  destruct H1 as [[H1 E1]|H1], H2 as [[H2 E2]|H2]; try done; [congruence| |].
  - by apply Hafter in H2.
  - by apply Hafter in H1.
Qed.

Lemma canonicalize_loop_spec last rest :
  Forall forward (last :: rest) -> starts_sorted (last :: rest) ->
  match canonicalize_loop last rest with
  | Ok out =>
      canonical out /\ (forall b n, has_kind b out n <-> has_kind b (last :: rest) n) /\
      ~ conflict (last :: rest) /\
      exists r out', out = r :: out' /\ start r = start last /\ inheritable r = inheritable last
  | Err e => e = SVN_ERR_MERGEINFO_PARSE_ERROR /\ conflict (last :: rest)
  end.
Proof.
  revert last. induction rest as [|range rest IH]; intros last Hf Hs; simpl.
  { apply Forall_cons in Hf as [Hf _]. split_and!; eauto.
    intros (n & H1 & H2). rewrite !has_kind_cons in *.
    pose proof (has_kind_nil true n). pose proof (has_kind_nil false n).
    intuition congruence. }
  apply Forall_cons in Hf as [Hl Hf]. assert (Hf' := Hf).
  apply Forall_cons in Hf' as [Hr Hf'].
  apply StronglySorted_inv in Hs as [Hs Hall]. assert (Hall' := Hall).
  apply Forall_cons in Hall as [Hle Hall].
  unfold forward in Hl, Hr.
  assert (Hstep : end_ last <= start range ->
    (end_ last = start range -> inheritable last <> inheritable range) ->
    match (rl ← canonicalize_loop range rest; Ok (last :: rl)) with
    | Ok out =>
      canonical out /\ (forall b n, has_kind b out n <-> has_kind b (last :: range :: rest) n) /\
      ~ conflict (last :: range :: rest) /\
      exists r out', out = r :: out' /\ start r = start last /\ inheritable r = inheritable last
    | Err e => e = SVN_ERR_MERGEINFO_PARSE_ERROR /\ conflict (last :: range :: rest)
    end).
  { intros Hend Hinh. specialize (IH range Hf Hs).
    assert (Hfront : Forall (fun r => end_ last <= start r) (range :: rest)).
    { constructor; [done|]. apply StronglySorted_inv in Hs as [_ Hs].
      eapply Forall_impl; [exact Hs|]. simpl. lia. }
    destruct (canonicalize_loop range rest) as [out|e]; simpl.
    - destruct IH as (Hc & Hk & Hno & r & out' & -> & Hst & Hin). split; [|split; [|split]].
      + apply (canonical_cons last r out'). unfold forward. rewrite Hst, Hin. tauto.
      + intros b n. by rewrite (has_kind_cons b last), Hk, <- has_kind_cons.
      + by rewrite conflict_front.
      + eauto.
    - destruct IH as [-> IH]. split; [done|]. by apply conflict_front. }
  destruct (Z.leb_spec (start last) (end_ range)); [|lia].
  destruct (Z.leb_spec (start range) (end_ last)); simpl; [|apply Hstep; lia].
  destruct (eqb_spec (inheritable range) (inheritable last)) as [Hinh|Hinh].
  - rewrite andb_false_r. rewrite (proj2 (eqb_true_iff _ _)) by congruence.
    assert (Hk : forall b n, has_kind b (set_end last (Z.max (end_ range) (end_ last)) :: rest) n
                 <-> has_kind b (last :: range :: rest) n).
    { intros. by apply merge_has_kind. }
    specialize (IH (set_end last (Z.max (end_ range) (end_ last)))).
    destruct (canonicalize_loop _ rest) as [out|e].
    + destruct IH as (Hc & Hk' & Hno & Hhd).
      * constructor; [unfold forward; simpl; lia|done].
      * constructor; [by apply StronglySorted_inv in Hs as [? _]|].
        by apply Forall_cons in Hall' as [_ ?].
      * split; [done|]; split; [|split; [by rewrite (conflict_ext _ _ Hk) in Hno|done]].
        intros b n. by rewrite Hk', Hk.
    + rewrite <- (conflict_ext _ _ Hk). apply IH.
      * constructor; [unfold forward; simpl; lia|done].
      * constructor; [by apply StronglySorted_inv in Hs as [? _]|].
        by apply Forall_cons in Hall' as [_ ?].
  - rewrite andb_true_r. rewrite (proj2 (eqb_false_iff _ _)) by congruence.
    destruct (Z.ltb_spec (start range) (end_ last)).
    + split; [done|]. exists (start range + 1). rewrite !has_kind_cons. unfold in_range.
      destruct (inheritable last), (inheritable range); try done; intuition lia.
    + apply Hstep; [lia|congruence].
Qed.

Lemma canonical_no_conflict rl : canonical rl -> ~ conflict rl.
Proof.
  induction rl as [|r rl IH]; intros Hc.
  { intros (n & H & _). by eapply has_kind_nil. }
  rewrite conflict_front; [by apply IH; destruct Hc as (_ & _ & ?)|by apply canonical_below].
Qed.

(** Canonicalization succeeds unless there is a conflict, and keeps what the
    rangelist records. *)
Lemma canonicalize_spec rl :
  Forall forward rl ->
  match svn_rangelist__canonicalize rl with
  | Ok out => canonical out /\ (forall b n, has_kind b out n <-> has_kind b rl n) /\ ~ conflict rl
  | Err e => e = SVN_ERR_MERGEINFO_PARSE_ERROR /\ conflict rl
  end.
Proof.
  intros Hf. unfold svn_rangelist__canonicalize.
  destruct (svn_rangelist__is_canonical rl) eqn:Hc.
  { assert (canonical rl).
    { apply is_canonical_spec. split; [done|]. eapply Forall_impl; [exact Hf|].
      unfold forward. simpl. lia. }
    split_and!; try done. by apply canonical_no_conflict. }
  pose proof (sort_ranges_Permutation rl) as HP.
  pose proof (sort_ranges_sorted rl) as Hs.
  assert (Hk : forall b n, has_kind b (sort_ranges rl) n <-> has_kind b rl n).
  { intros. by apply has_kind_Permutation. }
  destruct (sort_ranges rl) as [|last rest].
  { symmetry in HP. apply Permutation_nil_r in HP. by subst. }
  assert (Hf' : Forall forward (last :: rest)) by by rewrite HP.
  pose proof (canonicalize_loop_spec last rest Hf') as Hloop.
  destruct (canonicalize_loop last rest) as [out|e].
  - destruct Hloop as (Hcan & Hk' & Hno & _).
    { eapply StronglySorted_weaken; [apply range_le_start|exact Hs]. }
    split; [done|]. split; [|by rewrite (conflict_ext _ _ Hk) in Hno].
    intros. by rewrite Hk', Hk.
  - rewrite <- (conflict_ext _ _ Hk). apply Hloop.
    eapply StronglySorted_weaken; [apply range_le_start|exact Hs].
Qed.

(** ** [combine_with_lastrange] with inheritance *)

Lemma disjoint_sorted_StronglySorted rl :
  disjoint_sorted rl -> StronglySorted range_le rl.
Proof.
  induction rl as [|r rl IH]; simpl; [constructor|]. intros (Hf & Hall & Hd).
  constructor; [by apply IH|]. eapply Forall_impl; [exact Hall|].
  unfold forward, range_le, svn_sort_compare_ranges in *. simpl. intros r' Hr'.
  destruct (Z.eqb_spec (start r) (start r')); [lia|]. simpl.
  destruct (Z.ltb_spec (start r) (start r')); lia.
Qed.

(** Sorting restores the order of a disjoint rangelist. *)
Lemma range_le_antisym_fields r1 r2 :
  range_le r1 r2 -> range_le r2 r1 -> start r1 = start r2 /\ end_ r1 = end_ r2.
Proof.
  unfold range_le, svn_sort_compare_ranges. intros H1 H2.
  destruct (Z.eqb_spec (start r1) (start r2)), (Z.eqb_spec (end_ r1) (end_ r2)),
    (Z.ltb_spec (end_ r1) (end_ r2)), (Z.ltb_spec (start r1) (start r2)),
    (Z.eqb_spec (start r2) (start r1)), (Z.eqb_spec (end_ r2) (end_ r1)),
    (Z.ltb_spec (end_ r2) (end_ r1)), (Z.ltb_spec (start r2) (start r1));
    simpl in *; lia.
Qed.

Lemma sorted_disjoint_unique l1 l2 :
  StronglySorted range_le l1 -> disjoint_sorted l2 -> l1 ≡ₚ l2 -> l1 = l2.
Proof.
  revert l2. induction l1 as [|r1 l1 IH]; intros l2 Hs Hd HP.
  { by apply Permutation_nil_l in HP. }
  destruct l2 as [|r2 l2]; [by apply Permutation_nil_r in HP|].
  assert (r1 = r2) as <-.
  { apply StronglySorted_inv in Hs as [_ H1]. assert (Hs2 := Hd).
    apply disjoint_sorted_StronglySorted, StronglySorted_inv in Hs2 as [_ H2].
    assert (Hin1 : In r1 (r2 :: l2)) by (rewrite <-HP; by left).
    assert (Hin2 : In r2 (r1 :: l1)) by (rewrite HP; by left).
    destruct Hin1 as [|Hin1]; [done|]. destruct Hin2 as [|Hin2]; [done|]. exfalso.
    rewrite List.Forall_forall in H1, H2.
    destruct (range_le_antisym_fields r1 r2); [by apply H1|by apply H2|].
    simpl in Hd. destruct Hd as (Hf & Hall & _). rewrite List.Forall_forall in Hall.
    specialize (Hall r1 Hin1). unfold forward in Hf. simpl in Hall. lia. }
  f_equal. apply IH; [by apply StronglySorted_inv in Hs as [? _]|by destruct Hd as (_ & _ & ?)|].
  by eapply Permutation_cons_inv.
Qed.

Lemma sort_ranges_disjoint l1 l2 :
  l1 ≡ₚ l2 -> disjoint_sorted l2 -> sort_ranges l1 = l2.
Proof.
  intros HP Hd. apply sorted_disjoint_unique; [apply sort_ranges_sorted|done|].
  by rewrite sort_ranges_Permutation.
Qed.

Lemma has_kind_app b l1 l2 n : has_kind b (l1 ++ l2) n <-> has_kind b l1 n \/ has_kind b l2 n.
Proof. unfold has_kind. by rewrite Exists_app. Qed.

(** What becomes of the last range [l] and the new range [r]: ranges that
    record the union, in which inheritable wins. *)
Record combined (l r : svn_merge_range) (tl : rangelist) (sorted : bool) : Prop := {
  cb_kind : forall n, kind_at tl n = kind_max (kind_at [l] n) (kind_at [r] n);
  cb_sorted : exists tl', disjoint_sorted tl' /\ tl' ≡ₚ tl /\ (sorted = true -> tl' = tl) /\
                Forall (fun x => Z.min (start l) (start r) <= start x) tl'
}.

Ltac kinds n :=
  intros n; simpl; unfold in_range, kind_of; simpl;
  repeat case_decide; simpl;
  repeat match goal with
  | H : inheritable ?x = _ |- _ => rewrite H
  end; simpl; try done; try lia.

Ltac orders :=
  eexists; split; [|split; [reflexivity|split; [done|]]];
  [simpl; unfold forward; simpl; split_and!; repeat constructor; simpl; lia
  |repeat constructor; simpl; lia].

Lemma combine_overlapping_spec l r :
  forward l -> forward r -> inheritable l <> inheritable r ->
  start r < end_ l -> start l < end_ r ->
  ~ (start l <= start r /\ end_ r <= end_ l) -> ~ (start r <= start l /\ end_ l <= end_ r) ->
  let '(r1, r2) := combine_overlapping l r in
  forall s, combined l r [r1; r2] s.
Proof.
  unfold forward, combine_overlapping. intros Hl Hr Hi H1 H2 H3 H4.
  destruct (Z.ltb_spec (start r) (start l)).
  - destruct (inheritable r) eqn:Er; destruct (inheritable l) eqn:El; try done;
      intros s; split; [kinds n|orders|kinds n|orders].
  - destruct (inheritable l) eqn:El; destruct (inheritable r) eqn:Er; try done;
      intros s; split; [kinds n|orders|kinds n|orders].
Qed.

Definition subset_list (x : svn_merge_range * option svn_merge_range * option svn_merge_range)
    : rangelist :=
  match x with
  | (r1, Some r2, Some r3) => [r1; r2; r3]
  | (r1, Some r2, None) => [r1; r2]
  | (r1, None, Some r3) => [r1; r3]
  | (r1, None, None) => [r1]
  end.

Lemma combine_subset_spec l r :
  forward l -> forward r -> inheritable l <> inheritable r ->
  (start l <= start r /\ end_ r <= end_ l) \/ (start r <= start l /\ end_ l <= end_ r) ->
  ~ (start l = start r /\ end_ l = end_ r) ->
  forall s, combined l r (subset_list (combine_subset l r)) s.
Proof.
  unfold forward, combine_subset. intros Hl Hr Hi Hsub Hne.
  destruct ((start r <? start l) || (end_ l <? end_ r)) eqn:Esw.
  - assert (start r <= start l /\ end_ l <= end_ r) as [? ?].
    { apply orb_true_iff in Esw as [E|E]; reflect_bools; lia. }
    destruct (inheritable r) eqn:Er; destruct (inheritable l) eqn:El; try done; cbn [subset_list].
    + intros s; split; [kinds m|orders].
    + destruct (Z.eqb_spec (start r) (start l)); [intros s; split; [kinds m|orders]|].
      destruct (Z.eqb_spec (end_ r) (end_ l)); intros s; (split; [kinds m|orders]).
  - reflect_bools.
    destruct (inheritable l) eqn:El; destruct (inheritable r) eqn:Er; try done; cbn [subset_list].
    + intros s; split; [kinds m|orders].
    + destruct (Z.eqb_spec (start l) (start r)); [intros s; split; [kinds m|orders]|].
      destruct (Z.eqb_spec (end_ l) (end_ r)); intros s; (split; [kinds m|orders]).
Qed.

Lemma combine_disjoint_spec l r :
  forward l -> forward r -> end_ l <= start r \/ end_ r <= start l ->
  combined l r [l; r] (is_less l r).
Proof.
  unfold forward. intros Hl Hr Hd. split.
  - intros m. simpl. repeat case_decide; by rewrite ?kind_max_none_r, ?kind_max_none_l.
  - destruct (Z.le_gt_cases (end_ l) (start r)).
    + exists [l; r]. unfold forward. simpl. split_and!; repeat constructor; lia.
    + exists [r; l]. unfold forward, is_less, svn_sort_compare_ranges. simpl.
      split_and!; repeat constructor; try lia.
      destruct (Z.eqb_spec (start l) (start r)); [lia|]. simpl.
      destruct (Z.ltb_spec (start l) (start r)); [lia|]. done.
Qed.

Lemma combine_equal_spec l r :
  forward l -> inheritable l <> inheritable r -> start l = start r -> end_ l = end_ r ->
  combined l r [set_inheritable l true] true.
Proof.
  unfold forward. intros Hl Hi Hs He. split.
  - destruct (inheritable l) eqn:El, (inheritable r) eqn:Er; try done; kinds m.
  - orders.
Qed.

(** The array after the new elements were written, sorted if necessary. *)
Lemma combined_result init l r tl sorted :
  combined l r tl sorted ->
  let rl := init ++ tl in
  let out := if sorted then rl else sort_ranges rl in
  (forall n, kind_at out n = kind_max (kind_at (init ++ [l]) n) (kind_at [r] n)) /\
  (disjoint_sorted init ->
   Forall (fun x => end_ x <= Z.min (start l) (start r)) init -> disjoint_sorted out).
Proof.
  intros [Hk (tl' & Hd & HP & Hs & Hlow)] rl out. split.
  - intros n. assert (kind_at out n = kind_at rl n) as ->.
    { subst out. destruct sorted; [done|]. apply kind_at_Permutation, sort_ranges_Permutation. }
    subst rl. rewrite !kind_at_app, Hk, kind_max_assoc. done.
  - intros Hdi Hi. assert (Hall : disjoint_sorted (init ++ tl')).
    { apply disjoint_sorted_app. split_and!; try done.
      eapply Forall_impl; [exact Hi|]. simpl. intros x Hx.
      eapply Forall_impl; [exact Hlow|]. simpl. lia. }
    subst out rl. destruct sorted.
    + by rewrite <- Hs.
    + rewrite (sort_ranges_disjoint _ (init ++ tl')); [done| |done]. by rewrite HP.
Qed.

Lemma get_type_of_intersection_forward r1 r2 :
  forward r1 -> forward r2 -> exists t, get_type_of_intersection r1 r2 = Ok t /\
  match t with
  | svn__no_intersection | svn__adjoining_intersection =>
      end_ r2 <= start r1 \/ end_ r1 <= start r2
  | svn__equal_intersection => start r2 = start r1 /\ end_ r2 = end_ r1
  | svn__proper_subset_intersection =>
      ((start r2 <= start r1 /\ end_ r1 <= end_ r2) \/
       (start r1 <= start r2 /\ end_ r2 <= end_ r1)) /\
      ~ (start r2 = start r1 /\ end_ r2 = end_ r1)
  | svn__overlapping_intersection =>
      start r1 < end_ r2 /\ start r2 < end_ r1 /\
      ~ (start r2 <= start r1 /\ end_ r1 <= end_ r2) /\
      ~ (start r1 <= start r2 /\ end_ r2 <= end_ r1)
  end.
Proof.
  unfold forward, get_type_of_intersection, IS_VALID_FORWARD_RANGE, SVN_IS_VALID_REVNUM.
  intros H1 H2. rewrite (proj2 (Z.leb_le 0 (start r1))), (proj2 (Z.leb_le 0 (start r2))),
    (proj2 (Z.ltb_lt (start r1) _)), (proj2 (Z.ltb_lt (start r2) _)) by lia.
  simpl. eexists. split; [done|].
  destruct (Z.leb_spec (start r1) (end_ r2)), (Z.leb_spec (start r2) (end_ r1)),
    (Z.eqb_spec (start r1) (start r2)), (Z.eqb_spec (end_ r1) (end_ r2)),
    (Z.eqb_spec (end_ r1) (start r2)), (Z.eqb_spec (end_ r2) (start r1)),
    (Z.leb_spec (start r1) (start r2)), (Z.leb_spec (end_ r2) (end_ r1)),
    (Z.leb_spec (start r2) (start r1)), (Z.leb_spec (end_ r1) (end_ r2));
    simpl; lia.
Qed.

Lemma combine_considering_inheritance_spec init l r :
  forward l -> forward r -> combine_ranges l r true = None -> exists out,
    combine_considering_inheritance init l r = Ok out /\
    (forall n, kind_at out n = kind_max (kind_at (init ++ [l]) n) (kind_at [r] n)) /\
    (disjoint_sorted init ->
     Forall (fun x => end_ x <= Z.min (start l) (start r)) init -> disjoint_sorted out).
Proof.
  intros Hl Hr Hnone. unfold combine_considering_inheritance.
  destruct (get_type_of_intersection_forward r l) as (t & -> & Ht); [done..|].
  cbn [mbind result_bind].
  assert (Hi : start l < end_ r -> start r < end_ l -> inheritable l <> inheritable r).
  { intros H1 H2 Heq. revert Hnone. unfold combine_ranges. rewrite Heq.
    rewrite eqb_reflx. destruct (Z.leb_spec (start l) (end_ r)), (Z.leb_spec (start r) (end_ l));
      done || lia. }
  destruct t.
  - eexists. split; [done|]. apply combined_result. by apply combine_disjoint_spec.
  - eexists. split; [done|]. destruct Ht as [Hs He].
    apply (combined_result init l r [set_inheritable l true] true). unfold forward in *.
    apply combine_equal_spec; [done|apply Hi; lia|done|done].
  - eexists. split; [done|]. apply combined_result. by apply combine_disjoint_spec.
  - destruct Ht as (H1 & H2 & H3 & H4).
    pose proof (combine_overlapping_spec l r Hl Hr) as Hc.
    destruct (combine_overlapping l r) as [r1 r2]. eexists. split; [done|].
    apply combined_result. apply Hc; [by apply Hi; lia|lia..].
  - pose proof (combine_subset_spec l r Hl Hr) as Hc. destruct Ht as [Ht Hne].
    unfold forward in *.
    specialize (Hc ltac:(apply Hi; lia) ltac:(lia) ltac:(lia)).
    destruct (combine_subset l r) as [[r1 [r2|]] [r3|]]; simpl in Hc;
      (eexists; split; [done|]; by apply combined_result).
Qed.

(** Combining a range with a rangelist records it, inheritable ranges winning
    over non-inheritable ones. *)
Lemma combine_with_lastrange_kind rl r :
  Forall forward rl -> forward r -> exists out,
    combine_with_lastrange r rl true = Ok out /\
    (forall n, kind_at out n = kind_max (kind_at rl n) (kind_at [r] n)) /\
    (disjoint_sorted rl -> Forall (fun x => end_ x <= start r) (take (length rl - 1) rl) ->
     disjoint_sorted out).
Proof.
  intros Hf Hr. unfold combine_with_lastrange. destruct (last rl) as [l|] eqn:Hlast.
  2:{ apply last_None in Hlast as ->. eexists. split; [done|]. split.
      - intros n. symmetry. apply kind_max_none_l.
      - intros _ _. simpl. split_and!; done. }
  apply last_snoc_inv in Hlast as [init ->]. rewrite take_init.
  assert (Hd : disjoint_sorted (init ++ [l]) -> disjoint_sorted init /\
    Forall (fun x => end_ x <= start l) init).
  { rewrite disjoint_sorted_app. intros (? & ? & Hall). split; [done|].
    eapply Forall_impl; [exact Hall|]. intros x Hx. by apply Forall_cons in Hx as [? _]. }
  apply Forall_app in Hf as [Hfi Hfl]. apply Forall_cons in Hfl as [Hfl _].
  assert (Hmin : disjoint_sorted (init ++ [l]) -> Forall (fun x => end_ x <= start r) init ->
    Forall (fun x => end_ x <= Z.min (start l) (start r)) init).
  { intros [_ H1]%Hd H2. rewrite Forall_forall in *. intros x Hx.
    specialize (H1 x Hx). specialize (H2 x Hx). simpl in *. lia. }
  destruct (combine_ranges l r true) as [c|] eqn:Hc; cbn [negb].
  - eexists. split; [done|].
    unfold combine_ranges in Hc. cbn [negb orb andb] in Hc.
    destruct ((start l <=? end_ r) && (start r <=? end_ l)) eqn:E; [|done].
    destruct (eqb_spec (inheritable l) (inheritable r)) as [Hi|]; [|done].
    reflect_bools. unfold forward in *. simplify_eq. split.
    + intros n. rewrite !kind_at_app, <-kind_max_assoc. f_equal.
      destruct (inheritable l) eqn:El, (inheritable r) eqn:Er; try done; revert n; kinds m.
    + intros Hdd Hall. destruct (Hd Hdd) as [? _]. apply disjoint_sorted_app.
      split; [done|]. split; [simpl; unfold forward; simpl; split_and!; done || lia|].
      eapply Forall_impl; [by apply Hmin|]. simpl. intros x Hx. by constructor.
  - destruct (combine_considering_inheritance_spec init l r) as (out & -> & Hk & Hdd); [done..|].
    exists out. split; [done|]. split; [done|]. intros H1 H2. apply Hdd; [by apply Hd|].
    by apply Hmin.
Qed.

(** ** Reversal *)

Lemma reverse_involutive_lemma rl : svn_rangelist_reverse (svn_rangelist_reverse rl) = rl.
Proof.
  unfold svn_rangelist_reverse. unfold reverse.
  rewrite <- !rev_alt, !map_rev, rev_involutive, map_map. rewrite <- (map_id rl) at 2.
  apply map_ext. by intros [].
Qed.
