(* ===== verification/RangelistText.v ===== *)
(** * Rangelists as text (libsvn_subr/mergeinfo.c)

    Printing ([range_to_string], [svn_rangelist_to_string]) and parsing
    ([parse_rangelist], [svn_rangelist__parse]) of rangelists, and the proof
    that parsing is total, produces ranges of 31-bit revisions only and undoes
    printing. *)

From S2P Require Import Prelude CString Rangelist.

(** ** Printing *)

Definition SVN_MERGEINFO_NONINHERITABLE_STR : bytes := ["*"%cc].

Definition range_to_string (range : svn_merge_range) : result bytes :=
  let mark := if inheritable range then [] else SVN_MERGEINFO_NONINHERITABLE_STR in
  if start range =? end_ range - 1 then Ok (print_ld (end_ range) ++ mark)
  else if start range - 1 =? end_ range then
    Ok ("-"%cc :: print_ld (start range) ++ mark)
  else if start range <? end_ range then
    Ok (print_ld (start range + 1) ++ ["-"%cc] ++ print_ld (end_ range) ++ mark)
  else if end_ range <? start range then
    Ok (print_ld (start range) ++ ["-"%cc] ++ print_ld (end_ range + 1) ++ mark)
  else Err SVN_ERR_ASSERTION_FAIL.

(** The loop over the elements that need a comma, then the last element. *)
Fixpoint rangelist_to_string_loop (buf : bytes) (rl : rangelist) : result bytes :=
  match rl with
  | [] => Ok buf
  | [range] => s ← range_to_string range; Ok (buf ++ s)
  | range :: rl' =>
      s ← range_to_string range;
      rangelist_to_string_loop (buf ++ s ++ [","%cc]) rl'
  end.

Definition svn_rangelist_to_string (rl : rangelist) : result bytes :=
  rangelist_to_string_loop [] rl.

(** ** Parsing

    The pointer [curr] is the suffix of the input it points at; [end] is the
    end of the input, where the suffix is empty. *)

Definition NL : Z := 10.

Fixpoint eat_blanks (curr : bytes) : bytes :=
  match curr with
  | c :: rest => if negb (c =? NL) && isspace c then eat_blanks rest else curr
  | [] => []
  end.

(** [*curr == '\n' || curr == end] *)
Definition at_end (curr : bytes) : bool :=
  (deref curr =? NL) || match curr with [] => true | _ => false end.

(** One revision element: the range and the position behind its revisions;
    the mark and the separator are left to the loop. *)
Definition parse_element (curr : bytes) : result (svn_merge_range * bytes) :=
  '(firstrev, curr) ← svn_revnum_parse curr;
  let c := deref curr in
  if negb (c =? "-"%cc) && negb (c =? NL) && negb (c =? ","%cc) && negb (c =? "*"%cc)
     && match curr with [] => false | _ => true end
  then Err SVN_ERR_MERGEINFO_PARSE_ERROR
  else if firstrev =? 0 then Err SVN_ERR_MERGEINFO_PARSE_ERROR
  else if c =? "-"%cc then
    '(secondrev, curr) ← svn_revnum_parse (tail curr);
    if secondrev <? firstrev then Err SVN_ERR_MERGEINFO_PARSE_ERROR
    else if firstrev =? secondrev then Err SVN_ERR_MERGEINFO_PARSE_ERROR
    else Ok (mk_range (firstrev - 1) secondrev true, curr)
  else Ok (mk_range (firstrev - 1) firstrev true, curr).

Fixpoint parse_rangelist_loop (fuel : nat) (curr : bytes) (rl : rangelist)
    : result (rangelist * bytes) :=
  match curr with
  | [] => Err SVN_ERR_MERGEINFO_PARSE_ERROR
  | c :: _ =>
      if c =? NL then Ok (rl, curr)
      else match fuel with
      | O => Err OUT_OF_FUEL
      | S f =>
          '(mrange, curr) ← parse_element curr;
          if at_end curr then Ok (rl ++ [mrange], curr)
          else if deref curr =? ","%cc then
            parse_rangelist_loop f (tail curr) (rl ++ [mrange])
          else if deref curr =? "*"%cc then
            let mrange := set_inheritable mrange false in
            let curr := tail curr in
            if deref curr =? ","%cc then
              parse_rangelist_loop f (tail curr) (rl ++ [mrange])
            else if at_end curr then Ok (rl ++ [mrange], curr)
            else Err SVN_ERR_MERGEINFO_PARSE_ERROR
          else Err SVN_ERR_MERGEINFO_PARSE_ERROR
      end
  end.

Definition parse_rangelist (input : bytes) : result (rangelist * bytes) :=
  let curr := eat_blanks input in
  if at_end curr then Ok ([], curr)
  else parse_rangelist_loop (length curr) curr [].

Definition svn_rangelist__parse (str : bytes) : result rangelist :=
  '(rl, _) ← parse_rangelist str; Ok rl.

(** ** The ranges that can be written *)

Definition printable (r : svn_merge_range) : Prop :=
  0 <= start r < end_ r /\ end_ r <= APR_INT32_MAX.

(** * Lemmas *)

#[local] Notation is_char := (Forall (fun c => 0 <= c < 256)).

Lemma is_char_tail s : is_char s -> is_char (tail s).
Proof. by intros [|? ? ? ?]. Qed.

Lemma eat_blanks_suffix s : exists p, s = p ++ eat_blanks s.
Proof.
  induction s as [|c s [p IH]]; simpl; [by exists []|]. case_match; [|by exists []].
  exists (c :: p). simpl. by rewrite <- IH.
Qed.

Lemma parse_element_inv curr r rest :
  is_char curr -> parse_element curr = Ok (r, rest) ->
  printable r /\ is_char rest /\ (length rest < length curr)%nat.
Proof.
  intros Hb. unfold parse_element.
  destruct (svn_revnum_parse curr) as [[n rest1]|] eqn:E1; [|done]. cbn [mbind result_bind].
  apply revnum_parse_inv in E1 as (Hn & _ & ds & -> & _ & Hds & _); [|done].
  apply Forall_app in Hb as [_ Hb]. rewrite length_app.
  assert (0 < length ds)%nat by (destruct ds; simpl; [congruence|lia]).
  match goal with |- context [if ?b then Err _ else _] => destruct b; [done|] end.
  destruct (Z.eqb_spec n 0); [done|]. destruct (deref rest1 =? "-"%cc).
  - destruct (svn_revnum_parse (tail rest1)) as [[m rest2]|] eqn:E2; [|done].
    cbn [mbind result_bind].
    apply revnum_parse_inv in E2 as (Hm & _ & ds2 & Heq & _); [|by apply is_char_tail].
    destruct (Z.ltb_spec m n); [done|]. destruct (Z.eqb_spec n m); [done|].
    intros. simplify_eq. unfold printable. simpl. split; [lia|].
    assert (length (tail rest1) <= length rest1)%nat as Hlen by (destruct rest1; simpl; lia).
    assert (Hb2 := is_char_tail _ Hb).
    rewrite Heq in Hlen, Hb2. rewrite length_app in Hlen.
    apply Forall_app in Hb2 as [_ Hb2]. split; [done|lia].
  - intros. simplify_eq. unfold printable. simpl. split; [lia|]. split; [done|lia].
Qed.

Lemma parse_element_total curr : is_char curr -> parse_element curr <> Err OUT_OF_FUEL.
Proof.
  intros _. unfold parse_element, svn_revnum_parse.
  repeat (case_match; simpl; try done).
Qed.

Lemma parse_rangelist_loop_inv fuel curr rl :
  is_char curr -> Forall printable rl -> (length curr <= fuel)%nat ->
  parse_rangelist_loop fuel curr rl <> Err OUT_OF_FUEL /\
  forall rl' rest, parse_rangelist_loop fuel curr rl = Ok (rl', rest) ->
    Forall printable rl' /\ is_char rest /\ at_end rest = true.
Proof.
  revert curr rl. induction fuel as [|f IH]; intros [|c curr] rl Hb Hrl Hf; simpl; try done;
    try (simpl in Hf; lia).
  destruct (Z.eqb_spec c NL) as [->|].
  { split; [done|]. intros. simplify_eq. done. }
  destruct (parse_element (c :: curr)) as [[r rest]|e] eqn:E; simpl.
  2:{ split; [|done]. intros Heq. simplify_eq. by eapply parse_element_total. }
  apply parse_element_inv in E as (Hr & Hb' & Hlen); [|done].
  assert (Hsnoc : forall b, Forall printable (rl ++ [set_inheritable r b])).
  { intros b. apply Forall_app. split; [done|]. by constructor. }
  assert (Hsnoc1 : Forall printable (rl ++ [r])).
  { apply Forall_app. split; [done|]. by constructor. }
  assert (Ht : is_char (tail rest)) by by apply is_char_tail.
  assert (Htt : is_char (tail (tail rest))) by by apply is_char_tail.
  assert (Hl1 : (length (tail rest) <= f)%nat) by (destruct rest; simpl in *; lia).
  assert (Hl2 : (length (tail (tail rest)) <= f)%nat) by (destruct (tail rest); simpl in *; lia).
  destruct (at_end rest) eqn:E1; [split; [done|]; intros; by simplify_eq|].
  destruct (deref rest =? ","%cc) eqn:E2; [by apply IH|].
  destruct (deref rest =? "*"%cc) eqn:E3; [|by split].
  destruct (deref (tail rest) =? ","%cc) eqn:E4; [by apply IH|].
  destruct (at_end (tail rest)) eqn:E5; [|by split].
  split; [done|]; intros; by simplify_eq.
Qed.

(** Parsing is total and yields valid forward ranges of 31-bit revisions. *)
Lemma parse_rangelist_inv input :
  is_char input ->
  parse_rangelist input <> Err OUT_OF_FUEL /\
  forall rl rest, parse_rangelist input = Ok (rl, rest) ->
    Forall printable rl /\ is_char rest /\ at_end rest = true.
Proof.
  intros Hb. unfold parse_rangelist. destruct (eat_blanks_suffix input) as [p Hp].
  assert (Hc : is_char (eat_blanks input)).
  { rewrite Hp in Hb. by apply Forall_app in Hb as [_ Hb]. }
  destruct (at_end (eat_blanks input)) eqn:E.
  - split; [done|]. intros. simplify_eq. done.
  - by apply parse_rangelist_loop_inv.
Qed.

(** ** Round trip *)

Lemma print_ld_nonneg n : 0 <= n -> print_ld n = print_lu n.
Proof. intros. unfold print_ld. by destruct (Z.ltb_spec n 0); [lia|]. Qed.

Lemma print_lu_char n : 0 <= n -> is_char (print_lu n).
Proof.
  intros. destruct (print_lu_spec n) as (Hd & _); [done|].
  eapply Forall_impl; [exact Hd|]. unfold is_digit. simpl. intros c Hc. reflect_bools.
  change "0"%cc with 48 in *. change "9"%cc with 57 in *. lia.
Qed.

(** A printed number is not empty and starts with a digit. *)
Lemma print_lu_head n :
  0 <= n -> exists c s, print_lu n = c :: s /\ is_digit c = true.
Proof.
  intros. destruct (print_lu_spec n) as (Hd & _ & Hl & _); [done|].
  destruct (print_lu n) as [|c s]; [simpl in Hl; lia|].
  apply Forall_cons in Hd as [? _]. eauto.
Qed.

(** The text of a printable range. *)
Lemma range_to_string_printable r :
  printable r -> range_to_string r =
    Ok ((if start r =? end_ r - 1 then print_lu (end_ r)
         else print_lu (start r + 1) ++ ["-"%cc] ++ print_lu (end_ r)) ++
        if inheritable r then [] else ["*"%cc]).
Proof.
  intros [Hr _]. unfold range_to_string.
  rewrite !print_ld_nonneg by lia.
  destruct (Z.eqb_spec (start r) (end_ r - 1)); [done|].
  destruct (Z.eqb_spec (start r - 1) (end_ r)); [lia|].
  destruct (Z.ltb_spec (start r) (end_ r)); [|lia].
  by rewrite <- !app_assoc.
Qed.

(** What may follow a printed range. *)
Definition separator_next (rest : bytes) : Prop :=
  rest = [] \/ exists c s, rest = c :: s /\ (c = NL \/ c = ","%cc \/ c = "*"%cc).

Lemma separator_not_digit rest : separator_next rest -> is_digit (deref rest) = false.
Proof. by intros [->|(c & s & -> & [->|[->| ->]])]. Qed.

Lemma parse_element_print r rest :
  printable r -> separator_next rest -> is_char rest ->
  parse_element ((if start r =? end_ r - 1 then print_lu (end_ r)
                  else print_lu (start r + 1) ++ ["-"%cc] ++ print_lu (end_ r)) ++ rest) =
    Ok (set_inheritable r true, rest).
Proof.
  intros [Hr Hmax] Hsep Hb. unfold parse_element.
  destruct (Z.eqb_spec (start r) (end_ r - 1)) as [Heq|].
  - rewrite revnum_parse_print by (first [lia | done | by apply separator_not_digit]).
    cbn [mbind result_bind].
    destruct (Z.eqb_spec (end_ r) 0); [lia|].
    replace (mk_range (end_ r - 1) (end_ r) true) with (set_inheritable r true)
      by (unfold set_inheritable; f_equal; lia).
    by destruct Hsep as [->|(c & s & -> & [->|[->| ->]])].
  - rewrite <- !app_assoc. unfold APR_INT32_MAX in *.
    assert (Hd := print_lu_char (end_ r)).
    rewrite revnum_parse_print; [|unfold APR_INT32_MAX; lia|done|].
    2:{ apply Forall_app. split; [by constructor|]. apply Forall_app. split; [|done].
        apply Hd. lia. }
    cbn [mbind result_bind app deref head default tail].
    destruct (Z.eqb_spec (start r + 1) 0); [lia|]. simpl.
    rewrite revnum_parse_print by
      (first [unfold APR_INT32_MAX; lia | done | by apply separator_not_digit]).
    cbn [mbind result_bind].
    destruct (Z.ltb_spec (end_ r) (start r + 1)); [lia|].
    destruct (Z.eqb_spec (start r + 1) (end_ r)); [lia|].
    unfold set_inheritable. do 3 f_equal. lia.
Qed.

Lemma range_to_string_text r :
  printable r -> exists s, range_to_string r = Ok s /\ is_char s /\
    (exists c s', s = c :: s' /\ is_digit c = true) /\
    forall rest fuel rl, separator_next rest -> deref rest <> "*"%cc -> is_char rest ->
      parse_rangelist_loop (S fuel) (s ++ rest) rl =
        if at_end rest then Ok (rl ++ [r], rest)
        else parse_rangelist_loop fuel (tail rest) (rl ++ [r]).
Proof.
  intros Hp. rewrite range_to_string_printable by done. assert (Hr := Hp). destruct Hr as [Hr _].
  pose proof (print_lu_char (end_ r)) as Hc1. pose proof (print_lu_char (start r + 1)) as Hc2.
  assert (Hmark : is_char (if inheritable r then [] else ["*"%cc])).
  { destruct (inheritable r); [done|]. by constructor. }
  eexists. split; [done|]. split; [|split].
  - apply Forall_app. split; [|done]. destruct (start r =? end_ r - 1); [apply Hc1; lia|].
    apply Forall_app. split; [apply Hc2; lia|]. constructor; [done|]. apply Hc1; lia.
  - destruct (start r =? end_ r - 1).
    + destruct (print_lu_head (end_ r)) as (c & s & -> & ?); [lia|]. simpl. eauto.
    + destruct (print_lu_head (start r + 1)) as (c & s & -> & ?); [lia|]. simpl. eauto.
  - intros rest fuel rl Hsep Hstar Hb. rewrite <- app_assoc.
    pose proof (parse_element_print r ((if inheritable r then [] else ["*"%cc]) ++ rest) Hp) as Hel.
    set (txt := if start r =? end_ r - 1 then _ else _) in *.
    assert (Hhd : exists c s, txt = c :: s /\ is_digit c = true).
    { subst txt. destruct (start r =? end_ r - 1).
      - destruct (print_lu_head (end_ r)) as (c & s & -> & ?); [lia|]. eauto.
      - destruct (print_lu_head (start r + 1)) as (c & s & -> & ?); [lia|]. simpl. eauto. }
    destruct Hhd as (c & s & Htxt & Hdig). rewrite Htxt in *. cbn [app] in *.
    cbn [parse_rangelist_loop].
    destruct (Z.eqb_spec c NL) as [->|_]; [done|].
    rewrite Hel; [|destruct (inheritable r); [done|right; eexists _, _; by eauto]
                  |by apply Forall_app].
    cbn [mbind result_bind].
    destruct r as [s0 e0 [|]]; unfold set_inheritable in *; simpl in *.
    + destruct Hsep as [->|(x & y & -> & [->|[->| ->]])]; done.
    + destruct Hsep as [->|(x & y & -> & [->|[->| ->]])]; done.
Qed.

Lemma to_string_loop_spec rl buf :
  Forall printable rl -> rl <> [] -> exists s, 
    rangelist_to_string_loop buf rl = Ok (buf ++ s) /\ is_char s /\
    (exists c s', s = c :: s' /\ is_digit c = true) /\
    (length rl <= length s)%nat /\
    forall rest fuel acc, rest = [] \/ (exists t, rest = NL :: t) -> is_char rest ->
      (length rl <= fuel)%nat ->
      parse_rangelist_loop fuel (s ++ rest) acc = Ok (acc ++ rl, rest).
Proof.
  intros Hrl Hne. revert buf. induction Hrl as [|r rl Hr Hrl IH]; intros buf; [done|].
  destruct (range_to_string_text r Hr) as (s & Hs & Hc & Hhd & Hparse). clear Hne.
  destruct rl as [|r' rl].
  - exists s. simpl. rewrite Hs. split; [done|]. split; [done|]. split; [done|].
    destruct Hhd as (c & s' & -> & ?). split; [simpl; lia|].
    intros rest [|fuel] acc Hrest Hb Hf; [simpl in Hf; lia|].
    rewrite Hparse; [|unfold separator_next; naive_solver| |done].
    + by destruct Hrest as [->|[t ->]].
    + by destruct Hrest as [->|[t ->]].
  - destruct (IH ltac:(done) (buf ++ s ++ [","%cc])) as (s2 & Hs2 & Hc2 & Hhd2 & Hlen2 & Hp2).
    exists (s ++ [","%cc] ++ s2).
    change (rangelist_to_string_loop buf (r :: r' :: rl))
      with (s ← range_to_string r; rangelist_to_string_loop (buf ++ s ++ [","%cc]) (r' :: rl)).
    rewrite Hs. cbn [mbind result_bind]. rewrite Hs2.
    split; [by rewrite <- !app_assoc|].
    split; [apply Forall_app; split; [done|]; by constructor|].
    destruct Hhd as (c & s' & -> & Hdig). split; [simpl; eauto|].
    split; [rewrite !length_app; simpl in *; lia|].
    intros rest [|fuel] acc Hrest Hb Hf; [simpl in Hf; lia|].
    rewrite <- !app_assoc. rewrite Hparse; [|by right; eexists _, _; eauto|done|].
    + simpl. rewrite Hp2; [|done|done|simpl in *; lia]. by rewrite <- app_assoc.
    + constructor; [done|]. by apply Forall_app.
Qed.

(** Parsing undoes printing, in front of a newline or at the end of the input. *)
Lemma parse_rangelist_print rl :
  Forall printable rl -> exists s, svn_rangelist_to_string rl = Ok s /\ is_char s /\
    forall rest, rest = [] \/ (exists t, rest = NL :: t) -> is_char rest ->
      parse_rangelist (s ++ rest) = Ok (rl, rest).
Proof.
  intros Hrl. unfold svn_rangelist_to_string. destruct rl as [|r rl].
  { exists []. split; [done|]. split; [done|]. intros rest [->|[t ->]] _; done. }
  destruct (to_string_loop_spec (r :: rl) []) as (s & Hs & Hc & (c & s' & -> & Hdig) & Hlen & Hp);
    [done..|].
  exists (c :: s'). split; [done|]. split; [done|]. intros rest Hrest Hb.
  unfold parse_rangelist. unfold is_digit in Hdig. reflect_bools.
  change "0"%cc with 48 in *. change "9"%cc with 57 in *.
  assert (Heat : eat_blanks ((c :: s') ++ rest) = (c :: s') ++ rest).
  { simpl. unfold isspace, NL.
    destruct (Z.eqb_spec c 10), (Z.eqb_spec c 32), (Z.leb_spec 9 c), (Z.leb_spec c 13);
      simpl; done || lia. }
  rewrite Heat. unfold at_end. change (deref ((c :: s') ++ rest)) with c.
  destruct (Z.eqb_spec c NL); [unfold NL in *; lia|]. cbn [orb app].
  change (c :: s' ++ rest) with ((c :: s') ++ rest). rewrite Hp; [done|done|done|].
  simpl in *. rewrite length_app. lia.
Qed.
