(* ===== verification/RangelistTheorems.v ===== *)
(** * The properties of rangelists

    The theorems on the operations of [Rangelist], [RangelistMerge] and
    [RangelistText], each with an instance at concrete rangelists. *)

From S2P Require Import Prelude CString Rangelist RangelistMerge RangelistText RangelistSem.
From S2P Require Import RangelistMergeFacts.

(** ** Merging *)

(** C30: [svn_rangelist_merge2] on sorted rangelists without overlaps returns
    without a failed assertion; its result is canonical and records, for every
    revision, the stronger of what the two rangelists record. *)
Theorem rangelist_merge2_union rl1 rl2 :
  disjoint_sorted rl1 -> disjoint_sorted rl2 -> exists out,
    svn_rangelist_merge2 rl1 rl2 = Ok out /\ canonical out /\
    forall n, kind_at out n = kind_max (kind_at rl1 n) (kind_at rl2 n).
Proof. apply merge2_spec. Qed.

Lemma rangelist_merge2_union_witness : exists out,
  svn_rangelist_merge2 [mk_range 0 4 true; mk_range 6 9 false] [mk_range 2 7 false] = Ok out /\
  canonical out /\ forall n, kind_at out n =
    kind_max (kind_at [mk_range 0 4 true; mk_range 6 9 false] n) (kind_at [mk_range 2 7 false] n).
Proof. apply rangelist_merge2_union; by_evaluation. Defined.

(** Merging is commutative and associative, whatever the order in which
    rangelists are merged, and merging a canonical rangelist with itself
    returns it. *)
Theorem rangelist_merge2_algebra rl1 rl2 rl3 :
  disjoint_sorted rl1 -> disjoint_sorted rl2 -> disjoint_sorted rl3 ->
  svn_rangelist_merge2 rl1 rl2 = svn_rangelist_merge2 rl2 rl1 /\
  (rl ← svn_rangelist_merge2 rl1 rl2; svn_rangelist_merge2 rl rl3) =
    (rl ← svn_rangelist_merge2 rl2 rl3; svn_rangelist_merge2 rl1 rl) /\
  (canonical rl1 -> svn_rangelist_merge2 rl1 rl1 = Ok rl1).
Proof.
  intros H1 H2 H3. split; [|split].
  - destruct (merge2_spec rl1 rl2) as (a & -> & Ha & Hka); [done..|].
    destruct (merge2_spec rl2 rl1) as (b & -> & Hb & Hkb); [done..|].
    f_equal. apply canonical_unique; [done..|]. intros n. rewrite Hka, Hkb. apply kind_max_comm.
  - destruct (merge2_spec rl1 rl2) as (a & -> & Ha & Hka); [done..|].
    destruct (merge2_spec rl2 rl3) as (b & -> & Hb & Hkb); [done..|]. cbn [mbind result_bind].
    destruct (merge2_spec a rl3) as (c & -> & Hc & Hkc); [by apply canonical_disjoint_sorted|done|].
    destruct (merge2_spec rl1 b) as (d & -> & Hd & Hkd); [done|by apply canonical_disjoint_sorted|].
    f_equal. apply canonical_unique; [done..|]. intros n.
    rewrite Hkc, Hkd. unfold union_kind. rewrite Hka, Hkb. unfold union_kind.
    by rewrite kind_max_assoc.
  - intros Hc. destruct (merge2_spec rl1 rl1) as (a & -> & Ha & Hka); [done..|].
    f_equal. apply canonical_unique; [done..|]. intros n. rewrite Hka. apply kind_max_idemp.
Qed.

Lemma rangelist_merge2_algebra_witness :
  let rl1 := [mk_range 0 4 true] in
  let rl2 := [mk_range 2 7 false] in
  let rl3 := [mk_range 6 8 true] in
  svn_rangelist_merge2 rl1 rl2 = svn_rangelist_merge2 rl2 rl1 /\
  (rl ← svn_rangelist_merge2 rl1 rl2; svn_rangelist_merge2 rl rl3) =
    (rl ← svn_rangelist_merge2 rl2 rl3; svn_rangelist_merge2 rl1 rl) /\
  (canonical rl1 -> svn_rangelist_merge2 rl1 rl1 = Ok rl1).
Proof. apply rangelist_merge2_algebra; by_evaluation. Defined.

(** ** Intersection, removal and difference *)

(** C31: without considering inheritance, [svn_rangelist_intersect] returns a
    canonical rangelist of the revisions that are in both rangelists. *)
Theorem rangelist_intersect_set rl1 rl2 :
  disjoint_sorted rl1 -> disjoint_sorted rl2 -> exists out,
    svn_rangelist_intersect rl1 rl2 false = Ok out /\ canonical out /\
    forall n, covers out n <-> covers rl1 n /\ covers rl2 n.
Proof.
  intros H1 H2. destruct (intersect_or_remove_spec false rl1 rl2 H1 H2) as (out & Heq & Hs & Hc).
  exists out. split; [exact Heq|]. split; [by apply separated_canonical|].
  intros n. rewrite Hc. unfold ior_target. tauto.
Qed.

Lemma rangelist_intersect_set_witness : exists out,
  svn_rangelist_intersect [mk_range 0 4 true; mk_range 6 9 true] [mk_range 2 7 true] false = Ok out /\
  canonical out /\ forall n, covers out n <->
    covers [mk_range 0 4 true; mk_range 6 9 true] n /\ covers [mk_range 2 7 true] n.
Proof. apply rangelist_intersect_set; by_evaluation. Defined.

(** Without considering inheritance, [svn_rangelist_diff] returns two
    canonical rangelists: the revisions that are only in the first rangelist,
    and those that are only in the second one. *)
Theorem rangelist_diff_sets from to :
  disjoint_sorted from -> disjoint_sorted to -> exists deleted added,
    svn_rangelist_diff from to false = Ok (deleted, added) /\
    canonical deleted /\ canonical added /\
    (forall n, covers deleted n <-> covers from n /\ ~ covers to n) /\
    (forall n, covers added n <-> covers to n /\ ~ covers from n).
Proof.
  intros Hf Ht. unfold svn_rangelist_diff, svn_rangelist_remove.
  destruct (intersect_or_remove_spec true to from Ht Hf) as (d & -> & Hsd & Hd).
  destruct (intersect_or_remove_spec true from to Hf Ht) as (a & -> & Hsa & Ha).
  cbn [mbind result_bind]. exists d, a. split; [done|].
  split; [by apply separated_canonical|]. split; [by apply separated_canonical|done].
Qed.

Lemma rangelist_diff_sets_witness : exists deleted added,
  svn_rangelist_diff [mk_range 0 5 true] [mk_range 2 3 true; mk_range 4 8 true] false =
    Ok (deleted, added) /\ canonical deleted /\ canonical added /\
  (forall n, covers deleted n <->
     covers [mk_range 0 5 true] n /\ ~ covers [mk_range 2 3 true; mk_range 4 8 true] n) /\
  (forall n, covers added n <->
     covers [mk_range 2 3 true; mk_range 4 8 true] n /\ ~ covers [mk_range 0 5 true] n).
Proof. apply rangelist_diff_sets; by_evaluation. Defined.

(** Applying a difference: removing what [svn_rangelist_diff] reports as
    deleted and merging what it reports as added turns the first rangelist
    into one that records the revisions of the second. *)
Theorem rangelist_diff_patch from to :
  disjoint_sorted from -> disjoint_sorted to -> exists deleted added kept out,
    svn_rangelist_diff from to false = Ok (deleted, added) /\
    svn_rangelist_remove deleted from false = Ok kept /\
    svn_rangelist_merge2 kept added = Ok out /\
    canonical out /\ forall n, covers out n <-> covers to n.
Proof.
  intros Hf Ht. unfold svn_rangelist_diff, svn_rangelist_remove.
  destruct (intersect_or_remove_spec true to from Ht Hf) as (d & -> & Hsd & Hd).
  destruct (intersect_or_remove_spec true from to Hf Ht) as (a & -> & Hsa & Ha).
  cbn [mbind result_bind].
  assert (Hdd : disjoint_sorted d) by by apply canonical_disjoint_sorted, separated_canonical.
  assert (Hda : disjoint_sorted a) by by apply canonical_disjoint_sorted, separated_canonical.
  destruct (intersect_or_remove_spec true d from Hdd Hf) as (k & Hk & Hsk & Hck).
  assert (Hdk : disjoint_sorted k) by by apply canonical_disjoint_sorted, separated_canonical.
  destruct (merge2_spec k a Hdk Hda) as (out & Hout & Hc & Hu).
  exists d, a, k, out. split_and!; [done|done|done|done|]. intros n.
  assert (Hor : covers out n <-> covers k n \/ covers a n).
  { rewrite !covers_kind_at, Hu. unfold union_kind. rewrite kind_max_none.
    destruct (kind_at k n), (kind_at a n); intuition congruence. }
  rewrite Hor, Hck, Ha. unfold ior_target. rewrite Hd. unfold ior_target.
  destruct (decide (covers from n)), (decide (covers to n)); tauto.
Qed.

Lemma rangelist_diff_patch_witness : exists deleted added kept out,
  svn_rangelist_diff [mk_range 0 5 true] [mk_range 2 8 true] false = Ok (deleted, added) /\
  svn_rangelist_remove deleted [mk_range 0 5 true] false = Ok kept /\
  svn_rangelist_merge2 kept added = Ok out /\
  canonical out /\ forall n, covers out n <-> covers [mk_range 2 8 true] n.
Proof. apply rangelist_diff_patch; by_evaluation. Defined.

(** ** Canonical form *)

(** [svn_rangelist__canonicalize] fails exactly when some revision is
    recorded both as inheritable and as non-inheritable; otherwise the result
    is canonical and records the same as the argument. *)
Theorem rangelist_canonicalize_spec rl :
  Forall forward rl ->
  match svn_rangelist__canonicalize rl with
  | Ok out => canonical out /\ (forall n, kind_at out n = kind_at rl n) /\ ~ conflict rl
  | Err e => e = SVN_ERR_MERGEINFO_PARSE_ERROR /\ conflict rl
  end.
Proof.
  intros Hf. pose proof (canonicalize_spec rl Hf) as H.
  destruct (svn_rangelist__canonicalize rl); [|done]. destruct H as (Hc & Hk & Hn).
  split; [done|]. split; [|done]. by apply kind_at_ext.
Qed.

Lemma rangelist_canonicalize_spec_witness :
  match svn_rangelist__canonicalize [mk_range 5 8 true; mk_range 0 2 false; mk_range 7 9 true] with
  | Ok out => canonical out /\
      (forall n, kind_at out n =
         kind_at [mk_range 5 8 true; mk_range 0 2 false; mk_range 7 9 true] n) /\
      ~ conflict [mk_range 5 8 true; mk_range 0 2 false; mk_range 7 9 true]
  | Err e => e = SVN_ERR_MERGEINFO_PARSE_ERROR /\
      conflict [mk_range 5 8 true; mk_range 0 2 false; mk_range 7 9 true]
  end.
Proof. apply rangelist_canonicalize_spec. by_evaluation. Defined.

(** [svn_rangelist__is_canonical] accepts exactly the canonical
    rangelists, and two canonical rangelists that record the same are equal. *)
Theorem rangelist_canonical_form rl1 rl2 :
  Forall (fun r => 0 <= start r) rl1 -> Forall (fun r => 0 <= start r) rl2 ->
  (svn_rangelist__is_canonical rl1 = true <-> canonical rl1) /\
  (svn_rangelist__is_canonical rl1 = true -> svn_rangelist__is_canonical rl2 = true ->
   (forall n, kind_at rl1 n = kind_at rl2 n) -> rl1 = rl2).
Proof.
  intros H1 H2. pose proof (is_canonical_spec rl1). pose proof (is_canonical_spec rl2).
  split; [tauto|]. intros Hc1 Hc2. apply canonical_unique; tauto.
Qed.

Lemma rangelist_canonical_form_witness :
  (svn_rangelist__is_canonical [mk_range 0 2 true; mk_range 2 5 false] = true <->
   canonical [mk_range 0 2 true; mk_range 2 5 false]) /\
  (svn_rangelist__is_canonical [mk_range 0 2 true; mk_range 2 5 false] = true ->
   svn_rangelist__is_canonical [mk_range 0 2 true; mk_range 2 5 false] = true ->
   (forall n, kind_at [mk_range 0 2 true; mk_range 2 5 false] n =
      kind_at [mk_range 0 2 true; mk_range 2 5 false] n) ->
   [mk_range 0 2 true; mk_range 2 5 false] = [mk_range 0 2 true; mk_range 2 5 false]).
Proof. apply rangelist_canonical_form; by_evaluation. Defined.

(** When inheritance is considered, [combine_with_lastrange] succeeds on
    forward ranges and records the new range, inheritable winning over
    non-inheritable; if the new range starts behind all but the last range,
    the result is again sorted and without overlaps. *)
Theorem combine_with_lastrange_inheritance rl r :
  Forall forward rl -> forward r -> exists out,
    combine_with_lastrange r rl true = Ok out /\
    (forall n, kind_at out n = kind_max (kind_at rl n) (kind_at [r] n)) /\
    (disjoint_sorted rl -> Forall (fun x => end_ x <= start r) (take (length rl - 1) rl) ->
     disjoint_sorted out).
Proof. apply combine_with_lastrange_kind. Qed.

Lemma combine_with_lastrange_inheritance_witness : exists out,
  combine_with_lastrange (mk_range 3 6 true) [mk_range 0 2 true; mk_range 2 9 false] true = Ok out /\
  (forall n, kind_at out n = kind_max (kind_at [mk_range 0 2 true; mk_range 2 9 false] n)
                               (kind_at [mk_range 3 6 true] n)) /\
  (disjoint_sorted [mk_range 0 2 true; mk_range 2 9 false] ->
   Forall (fun x => end_ x <= start (mk_range 3 6 true))
     (take (length [mk_range 0 2 true; mk_range 2 9 false] - 1)
        [mk_range 0 2 true; mk_range 2 9 false]) ->
   disjoint_sorted out).
Proof. apply combine_with_lastrange_inheritance; by_evaluation. Defined.

(** ** Text *)

(** A rangelist of forward ranges of 31-bit revisions has a text, and
    [svn_rangelist__parse] reads it back. *)
Theorem rangelist_text_roundtrip rl :
  Forall printable rl -> exists s,
    svn_rangelist_to_string rl = Ok s /\ svn_rangelist__parse s = Ok rl.
Proof.
  intros H. destruct (parse_rangelist_print rl H) as (s & Hs & _ & Hp). exists s. split; [done|].
  unfold svn_rangelist__parse. specialize (Hp []). rewrite app_nil_r in Hp.
  rewrite Hp; [done|by left|done].
Qed.

Lemma rangelist_text_roundtrip_witness : exists s,
  svn_rangelist_to_string [mk_range 0 4 true; mk_range 6 7 false; mk_range 9 2147483647 true] = Ok s /\
  svn_rangelist__parse s = Ok [mk_range 0 4 true; mk_range 6 7 false; mk_range 9 2147483647 true].
Proof.
  apply rangelist_text_roundtrip. repeat constructor; simpl; unfold APR_INT32_MAX; lia.
Defined.

(** Whatever the input, [svn_rangelist__parse] terminates, and the ranges
    it returns are forward ranges of revisions that fit in 31 bits. *)
Theorem rangelist_parse_bounds s :
  Forall (fun c => 0 <= c < 256) s ->
  svn_rangelist__parse s <> Err OUT_OF_FUEL /\
  forall rl, svn_rangelist__parse s = Ok rl ->
    Forall (fun r => 0 <= start r < end_ r /\ end_ r <= APR_INT32_MAX) rl.
Proof.
  intros Hs. destruct (parse_rangelist_inv s Hs) as [Hf Hinv]. unfold svn_rangelist__parse.
  destruct (parse_rangelist s) as [[rl rest]|e]; cbn [mbind result_bind].
  - split; [done|]. intros rl' [= <-]. by destruct (Hinv rl rest eq_refl).
  - split; [|done]. intros [= ->]. done.
Qed.

Lemma rangelist_parse_bounds_witness :
  svn_rangelist__parse (cstr "4,7-9*") <> Err OUT_OF_FUEL /\
  forall rl, svn_rangelist__parse (cstr "4,7-9*") = Ok rl ->
    Forall (fun r => 0 <= start r < end_ r /\ end_ r <= APR_INT32_MAX) rl.
Proof. apply rangelist_parse_bounds. by_evaluation. Defined.

(** ** Observations *)

(** When inheritance is considered, ranges that overlap but differ in
    inheritability make the loop advance past a range that still has
    ranges to remove behind it: the eraser 1-10* should remove 8-9*. *)
Example remove_inheritance_keeps :
  svn_rangelist_remove [mk_range 0 10 false] [mk_range 4 6 true; mk_range 7 9 false] true =
    Ok [mk_range 4 6 true; mk_range 7 9 false].
Proof. reflexivity. Qed.

Example intersect_inheritance_misses :
  svn_rangelist_intersect [mk_range 0 10 false] [mk_range 4 6 true; mk_range 7 9 false] true = Ok [].
Proof. reflexivity. Qed.

(** Bounded by revisions, [svn_rangelist_inheritable2] removes the ranges whose
    inheritability is the one asked for; unbounded, it keeps them. *)
Example inheritable2_unbounded :
  svn_rangelist_inheritable2 [mk_range 0 5 true; mk_range 7 9 false] (-1) (-1) true =
    Ok [mk_range 0 5 true].
Proof. reflexivity. Qed.

Example inheritable2_bounded :
  svn_rangelist_inheritable2 [mk_range 0 5 true; mk_range 7 9 false] 0 9 true =
    Ok [mk_range 7 9 false].
Proof. reflexivity. Qed.

(** A comma in front of the end of a line is accepted. *)
Example parse_trailing_comma :
  parse_rangelist (cstr "3," ++ [NL]) = Ok ([mk_range 2 3 true], [NL]).
Proof. reflexivity. Qed.
