(* ===== verification/Paths.v ===== *)
(** * Paths (libsvn_subr/dirent_uri.c)

    Relative paths (relpaths), local paths (dirents) and filesystem paths
    (fspaths) on a platform without drive letters: the segment-wise
    canonicalization, the tests for canonical form and the functions that join
    and split paths.  A C string is the list of its bytes without the
    terminating NUL; an [assert] is [c_assert]. *)

From S2P Require Import Prelude.

Notation SLASH := ("/"%cc).
Notation DOT := ("."%cc).

Inductive path_type_t := type_uri | type_dirent | type_relpath.

Definition SVN_PATH_IS_EMPTY (s : bytes) : bool := deref s =? 0.

Definition canonicalize_to_lower (c : Z) : Z :=
  if (c <? "A"%cc) || ("Z"%cc <? c) then c else c - "A"%cc + "a"%cc.

Definition canonicalize_to_upper (c : Z) : Z :=
  if (c <? "a"%cc) || ("z"%cc <? c) then c else c - "a"%cc + "A"%cc.

(** [strcmp] and [strncmp] are only used to test for equality. *)
Definition streq (a b : bytes) : bool := bool_decide (a = b).

(** [strncmp (prefix, s, strlen (prefix)) == 0], with what follows. *)
Fixpoint strip_prefix (prefix s : bytes) : option bytes :=
  match prefix, s with
  | [], _ => Some s
  | c :: prefix', d :: s' => if c =? d then strip_prefix prefix' s' else None
  | _, [] => None
  end.

(** ** Roots and previous segments *)

Definition dirent_root_length (dirent : bytes) (len : nat) : nat :=
  if (1 <=? len)%nat && (char_at dirent 0 =? SLASH) then 1 else 0.

(** [while (len > 0 && s[len] != '/') --len;] *)
Fixpoint back_to_slash (s : bytes) (len : nat) : nat :=
  match len with
  | O => O
  | S len' => if char_at s len =? SLASH then len else back_to_slash s len'
  end.

Definition dirent_previous_segment (dirent : bytes) (len : nat) : nat :=
  match len with
  | O => O
  | S len' =>
      let len := back_to_slash dirent len' in
      if (dirent_root_length dirent (len + 1) =? len + 1)%nat then (len + 1)%nat else len
  end.

Definition dirent_is_rooted (dirent : bytes) : bool := char_at dirent 0 =? SLASH.

Definition relpath_previous_segment (relpath : bytes) (len : nat) : nat :=
  match len with
  | O => O
  | S len' => back_to_slash relpath len'
  end.

(** ** The segments of [canonicalize] *)

(** A slash written as [%2F] in a URI. *)
Definition is_escaped_slash (type : path_type_t) (next : bytes) : bool :=
  match type with
  | type_uri => (char_at next 0 =? "%"%cc) && (char_at next 1 =? "2"%cc)
                && (canonicalize_to_upper (char_at next 2) =? "F"%cc)
  | _ => false
  end.

(** The segment at the front of [src] and the position behind it. *)
Fixpoint next_segment (type : path_type_t) (src : bytes) : bytes * bytes :=
  match src with
  | [] => ([], [])
  | c :: src' =>
      if (c =? SLASH) || is_escaped_slash type src then ([], src)
      else let '(seg, next) := next_segment type src' in (c :: seg, next)
  end.

Definition slash_length (type : path_type_t) (next : bytes) : nat :=
  if char_at next 0 =? SLASH then 1
  else match type with
       | type_uri => if char_at next 0 =? "%"%cc then 3 else 0
       | _ => 0
       end.

(** A segment that is dropped: empty, [.] or, in a URI, [%2E]. *)
Definition noop_segment (type : path_type_t) (seg : bytes) : bool :=
  let seglen := length seg in
  (seglen =? 0)%nat
  || ((seglen =? 1)%nat && (char_at seg 0 =? DOT))
  || match type with
     | type_uri => (seglen =? 3)%nat && (char_at seg 0 =? "%"%cc) && (char_at seg 1 =? "2"%cc)
                   && (canonicalize_to_upper (char_at seg 2) =? "E"%cc)
     | _ => false
     end.

(** The loop over the segments: [dst] is what has been written. *)
Fixpoint canonicalize_segments (fuel : nat) (type : path_type_t) (src dst : bytes)
    (canon_segments : nat) : option (bytes * nat) :=
  match src with
  | [] => Some (dst, canon_segments)
  | _ =>
      match fuel with
      | O => None
      | S f =>
          let '(seg, next) := next_segment type src in
          let slash_len := slash_length type next in
          let src := drop slash_len next in
          if noop_segment type seg then
            canonicalize_segments f type src dst canon_segments
          else
            canonicalize_segments f type src
              (dst ++ seg ++ if (slash_len =? 0)%nat then [] else [SLASH])
              (S canon_segments)
      end
  end.

(** Removing the slash behind the last segment. *)
Definition remove_trailing_slash (dst : bytes) : bytes :=
  if bool_decide (last dst = Some SLASH) then take (length dst - 1) dst else dst.

(** [canonicalize] for relpaths and dirents. *)
Definition canonicalize_path (type : path_type_t) (path : bytes) : option bytes :=
  if SVN_PATH_IS_EMPTY path then Some []
  else
    let '(src, dst) :=
      match type with
      | type_relpath => (path, [])
      | _ => if deref path =? SLASH then (tail path, [SLASH]) else (path, [])
      end in
    '(dst, canon_segments) ← canonicalize_segments (length src) type src dst 0;
    Some (if (0 <? canon_segments)%nat then remove_trailing_slash dst else dst).

Definition svn_relpath_canonicalize (relpath : bytes) : option bytes :=
  canonicalize_path type_relpath relpath.

Definition svn_dirent_canonicalize (dirent : bytes) : option bytes :=
  canonicalize_path type_dirent dirent.

Definition svn_fspath__canonicalize (fspath : bytes) : option bytes :=
  if (char_at fspath 0 =? SLASH) && (char_at fspath 1 =? 0) then Some [SLASH]
  else rel ← svn_relpath_canonicalize fspath; Some (SLASH :: rel).

(** ** Tests for canonical form *)

(** The search for ["/./"]: [prev] is the character in front of [ptr]. *)
Fixpoint dot_loop (prev : option Z) (ptr : bytes) : bool :=
  match ptr with
  | [] => true
  | c :: rest =>
      if (c =? DOT) && bool_decide (prev = Some SLASH) && (deref rest =? SLASH)
      then false else dot_loop (Some c) rest
  end.

(** The search for ["//"] in all but the last character. *)
Fixpoint pattern_loop (pattern : Z) (ptr : bytes) : bool :=
  match ptr with
  | [] => true
  | c :: rest =>
      let pattern := u32 (Z.shiftl (Z.land pattern 255) 8 + c) in
      if pattern =? 257 * SLASH then false else pattern_loop pattern rest
  end.

Definition relpath_is_canonical (relpath : bytes) : bool :=
  if deref relpath =? SLASH then false
  else if (char_at relpath 0 =? DOT)
          && ((char_at relpath 1 =? SLASH) || (char_at relpath 1 =? 0)) then false
  else
    let len := length relpath in
    if (len <? 2)%nat then true
    else if (char_at relpath (len - 1) =? SLASH)
            || ((char_at relpath (len - 1) =? DOT) && (char_at relpath (len - 2) =? SLASH))
    then false
    else if negb (dot_loop None relpath) then false
    else pattern_loop 0 (take (len - 1) relpath).

Definition svn_relpath_is_canonical := relpath_is_canonical.

Definition svn_dirent_is_canonical (dirent : bytes) : bool :=
  relpath_is_canonical (if deref dirent =? SLASH then tail dirent else dirent).

Definition svn_fspath__is_canonical (fspath : bytes) : bool :=
  (char_at fspath 0 =? SLASH) && relpath_is_canonical (tail fspath).

(** The variants that check their result. *)
Definition svn_relpath_canonicalize_safe (relpath : bytes) : result bytes :=
  match svn_relpath_canonicalize relpath with
  | Some res => if svn_relpath_is_canonical res then Ok res
                else Err SVN_ERR_CANONICALIZATION_FAILED
  | None => Err OUT_OF_FUEL
  end.

Definition svn_dirent_canonicalize_safe (dirent : bytes) : result bytes :=
  match svn_dirent_canonicalize dirent with
  | Some res => if svn_dirent_is_canonical res then Ok res
                else Err SVN_ERR_CANONICALIZATION_FAILED
  | None => Err OUT_OF_FUEL
  end.

(** The separator of local paths is the slash. *)
Definition internal_style (path : bytes) : bytes := path.

Definition svn_dirent_internal_style (dirent : bytes) : option bytes :=
  svn_dirent_canonicalize (internal_style dirent).

Definition svn_dirent_internal_style_safe (dirent : bytes) : result bytes :=
  svn_dirent_canonicalize_safe (internal_style dirent).

Definition svn_dirent_local_style (dirent : bytes) : bytes :=
  if SVN_PATH_IS_EMPTY dirent then [DOT] else dirent.

Definition svn_relpath__make_internal (relpath : bytes) : result bytes :=
  svn_relpath_canonicalize_safe (internal_style relpath).

(** ** Common ancestors and children *)

(** The index of the first difference or of the end of a path, and the index
    of the last slash passed; [p1] and [p2] are [path1 + i] and [path2 + i]. *)
Fixpoint ancestor_loop (p1 p2 : bytes) (i last_dirsep : nat) : nat * nat :=
  match p1, p2 with
  | c1 :: p1, c2 :: p2 =>
      if c1 =? c2 then
        let last_dirsep := if c1 =? SLASH then i else last_dirsep in
        match p1, p2 with
        | [], _ | _, [] => (S i, last_dirsep)
        | _, _ => ancestor_loop p1 p2 (S i) last_dirsep
        end
      else (i, last_dirsep)
  | _, _ => (i, last_dirsep)
  end.

Definition get_longest_ancestor_length (types : path_type_t) (path1 path2 : bytes) : nat :=
  let path1_len := length path1 in
  let path2_len := length path2 in
  if SVN_PATH_IS_EMPTY path1 || SVN_PATH_IS_EMPTY path2 then 0
  else
    let '(i, last_dirsep) := ancestor_loop path1 path2 0 0 in
    if (i =? 1)%nat && (char_at path1 0 =? SLASH) && (char_at path2 0 =? SLASH) then 1
    else if match types with type_dirent => (i =? 0)%nat | _ => false end then 0
    else if ((i =? path1_len)%nat && (char_at path2 i =? SLASH))
            || ((i =? path2_len)%nat && (char_at path1 i =? SLASH))
            || ((i =? path1_len)%nat && (i =? path2_len)%nat) then i
    else if (last_dirsep =? 0)%nat && (char_at path1 0 =? SLASH) && (char_at path2 0 =? SLASH)
    then 1
    else last_dirsep.

Definition svn_dirent_get_longest_ancestor (dirent1 dirent2 : bytes) : bytes :=
  take (get_longest_ancestor_length type_dirent dirent1 dirent2) dirent1.

Definition svn_relpath_get_longest_ancestor (relpath1 relpath2 : bytes) : result bytes :=
  c_assert (relpath_is_canonical relpath1);;
  c_assert (relpath_is_canonical relpath2);;
  Ok (take (get_longest_ancestor_length type_relpath relpath1 relpath2) relpath1).

(** The rest of [path2] behind [path1], its parent; [path1_prev] is the last
    character of the part of [path1] that was passed. *)
Fixpoint is_child_loop (path1_prev : Z) (path1 path2 : bytes) : option bytes :=
  match path1, path2 with
  | c1 :: path1, c2 :: path2 => if c1 =? c2 then is_child_loop c1 path1 path2 else None
  | [], c2 :: rest2 =>
      if path1_prev =? SLASH then
        if c2 =? SLASH then None else Some path2
      else if c2 =? SLASH then
        match rest2 with [] => None | _ => Some rest2 end
      else None
  | _, [] => None
  end.

Definition is_child (type : path_type_t) (path1 path2 : bytes) : option bytes :=
  if SVN_PATH_IS_EMPTY path1 then
    if SVN_PATH_IS_EMPTY path2 then None
    else if match type with
            | type_uri => true
            | type_dirent => dirent_is_rooted path2
            | type_relpath => false
            end then None
    else Some path2
  else is_child_loop 0 path1 path2.

Definition svn_dirent_is_child (parent child : bytes) : option bytes :=
  is_child type_dirent parent child.

(** ** Joining and splitting *)

Definition svn_dirent_is_root (dirent : bytes) (len : nat) : bool :=
  (len =? 1)%nat && (char_at dirent 0 =? SLASH).

Definition svn_dirent_is_absolute (dirent : bytes) : bool := char_at dirent 0 =? SLASH.

Definition svn_dirent_join (base component : bytes) : result bytes :=
  c_assert (svn_dirent_is_canonical base);;
  c_assert (svn_dirent_is_canonical component);;
  if svn_dirent_is_absolute component then Ok component
  else if SVN_PATH_IS_EMPTY base then Ok component
  else if SVN_PATH_IS_EMPTY component then Ok base
  else
    let add_separator := negb (char_at base (length base - 1) =? SLASH) in
    Ok (base ++ (if add_separator then [SLASH] else []) ++ component).

Definition svn_relpath_join (base component : bytes) : result bytes :=
  c_assert (relpath_is_canonical base);;
  c_assert (relpath_is_canonical component);;
  if (length base =? 0)%nat then Ok component
  else if (length component =? 0)%nat then Ok base
  else Ok (base ++ [SLASH] ++ component).

Definition svn_dirent_dirname (dirent : bytes) : result bytes :=
  let len := length dirent in
  c_assert (svn_dirent_is_canonical dirent);;
  if (len =? dirent_root_length dirent len)%nat then Ok (take len dirent)
  else Ok (take (dirent_previous_segment dirent len) dirent).

(** [while (start > 0 && s[start - 1] != '/') --start;] *)
Fixpoint basename_start (s : bytes) (start : nat) : nat :=
  match start with
  | O => O
  | S start' => if char_at s start' =? SLASH then start else basename_start s start'
  end.

Definition svn_dirent_basename (dirent : bytes) : result bytes :=
  let len := length dirent in
  c_assert (svn_dirent_is_canonical dirent);;
  if svn_dirent_is_root dirent len then Ok []
  else Ok (drop (basename_start dirent len) dirent).

Definition svn_dirent_split (dirent : bytes) : result (bytes * bytes) :=
  dirpath ← svn_dirent_dirname dirent;
  base_name ← svn_dirent_basename dirent;
  Ok (dirpath, base_name).

Definition svn_relpath_dirname (relpath : bytes) : result bytes :=
  c_assert (relpath_is_canonical relpath);;
  Ok (take (relpath_previous_segment relpath (length relpath)) relpath).

Definition svn_relpath_basename (relpath : bytes) : result bytes :=
  c_assert (relpath_is_canonical relpath);;
  Ok (drop (basename_start relpath (length relpath)) relpath).

Definition svn_relpath_split (relpath : bytes) : result (bytes * bytes) :=
  dirpath ← svn_relpath_dirname relpath;
  base_name ← svn_relpath_basename relpath;
  Ok (dirpath, base_name).

(** The loop of [svn_relpath_prefix]: the characters in front of [end]. *)
Fixpoint relpath_prefix_loop (end_ : bytes) (max_components : Z) : bytes :=
  match end_ with
  | [] => []
  | c :: rest =>
      if c =? SLASH then
        let max_components := max_components - 1 in
        if max_components =? 0 then [] else c :: relpath_prefix_loop rest max_components
      else c :: relpath_prefix_loop rest max_components
  end.

Definition svn_relpath_prefix (relpath : bytes) (max_components : Z) : result bytes :=
  c_assert (relpath_is_canonical relpath);;
  Ok (if max_components <=? 0 then [] else relpath_prefix_loop relpath max_components).

Definition svn_dirent_skip_ancestor (parent_dirent child_dirent : bytes) : option bytes :=
  let len := length parent_dirent in
  match strip_prefix parent_dirent child_dirent with
  | None => None
  | Some rest =>
      if deref rest =? 0 then Some []
      else
        let root_len := dirent_root_length child_dirent (length child_dirent) in
        if (len <? root_len)%nat then None
        else if deref rest =? SLASH then Some (tail rest)
        else if (root_len =? len)%nat then Some rest
        else None
  end.

Definition svn_dirent_is_ancestor (parent_dirent child_dirent : bytes) : bool :=
  bool_decide (is_Some (svn_dirent_skip_ancestor parent_dirent child_dirent)).

Definition svn_relpath_skip_ancestor (parent_relpath child_relpath : bytes)
    : result (option bytes) :=
  c_assert (relpath_is_canonical parent_relpath);;
  c_assert (relpath_is_canonical child_relpath);;
  if (length parent_relpath =? 0)%nat then Ok (Some child_relpath)
  else match strip_prefix parent_relpath child_relpath with
       | None => Ok None
       | Some rest =>
           if deref rest =? 0 then Ok (Some [])
           else if deref rest =? SLASH then Ok (Some (tail rest))
           else Ok None
       end.

(** ** fspaths *)

Definition svn_fspath__is_root (fspath : bytes) (len : nat) : bool :=
  (len =? 1)%nat && (char_at fspath 0 =? SLASH).

Definition svn_fspath__skip_ancestor (parent_fspath child_fspath : bytes)
    : result (option bytes) :=
  c_assert (svn_fspath__is_canonical parent_fspath);;
  c_assert (svn_fspath__is_canonical child_fspath);;
  svn_relpath_skip_ancestor (tail parent_fspath) (tail child_fspath).

Definition svn_fspath__dirname (fspath : bytes) : result bytes :=
  c_assert (svn_fspath__is_canonical fspath);;
  if (char_at fspath 0 =? SLASH) && (char_at fspath 1 =? 0) then Ok fspath
  else d ← svn_relpath_dirname (tail fspath); Ok (SLASH :: d).

Definition svn_fspath__basename (fspath : bytes) : result bytes :=
  c_assert (svn_fspath__is_canonical fspath);;
  res ← svn_relpath_basename (tail fspath);
  c_assert (bool_decide (SLASH ∉ res));;
  Ok res.

Definition svn_fspath__split (fspath : bytes) : result (bytes * bytes) :=
  dirpath ← svn_fspath__dirname fspath;
  base_name ← svn_fspath__basename fspath;
  Ok (dirpath, base_name).

Definition svn_fspath__join (fspath relpath : bytes) : result bytes :=
  c_assert (svn_fspath__is_canonical fspath);;
  c_assert (svn_relpath_is_canonical relpath);;
  let result :=
    if char_at relpath 0 =? 0 then fspath
    else if char_at fspath 1 =? 0 then SLASH :: relpath
    else fspath ++ [SLASH] ++ relpath in
  c_assert (svn_fspath__is_canonical result);;
  Ok result.

Definition svn_fspath__get_longest_ancestor (fspath1 fspath2 : bytes) : result bytes :=
  c_assert (svn_fspath__is_canonical fspath1);;
  c_assert (svn_fspath__is_canonical fspath2);;
  rel ← svn_relpath_get_longest_ancestor (tail fspath1) (tail fspath2);
  let result := SLASH :: rel in
  c_assert (svn_fspath__is_canonical result);;
  Ok result.

(** ** Joining many components

    [svn_dirent_join_many] walks over its arguments twice: the first pass
    computes the length of the result, remembering the lengths of the
    arguments in an array of ten elements, the second one copies.  An access
    behind the array is undefined behaviour. *)

Definition MAX_SAVED_LENGTHS : nat := 10.

Record join_state := mk_join {
  jm_nargs : nat;
  jm_total_len : nat;
  jm_base : bytes;
  jm_base_arg : nat;
  jm_saved_lengths : list nat;
  jm_add_separator : bool
}.

Definition save_length (saved_lengths : list nat) (i len : nat) : result (list nat) :=
  if (i <? length saved_lengths)%nat then Ok (<[i := len]> saved_lengths)
  else Err C_UNDEFINED.

Definition join_many_length (s : bytes) (st : join_state) : result join_state :=
  let '(mk_join nargs total_len base base_arg saved_lengths add_separator) := st in
  let len := length s in
  c_assert (svn_dirent_is_canonical s);;
  if SVN_PATH_IS_EMPTY s then Ok st
  else
    let nargs' := S nargs in
    saved_lengths ← (if (nargs <? MAX_SAVED_LENGTHS)%nat
                     then save_length saved_lengths nargs' len else Ok saved_lengths);
    if dirent_is_rooted s then
      Ok (mk_join nargs' len [] nargs' (<[0%nat := 0%nat]> saved_lengths)
            (negb (char_at s (len - 1) =? SLASH)))
    else if (nargs' <=? base_arg + 1)%nat then
      Ok (mk_join nargs' (total_len + ((if add_separator then 1 else 0) + len))
            base base_arg saved_lengths add_separator)
    else
      Ok (mk_join nargs' (total_len + (1 + len)) base base_arg saved_lengths add_separator).

Fixpoint join_many_pass1 (args : list bytes) (st : join_state) : result join_state :=
  match args with
  | [] => Ok st
  | s :: args => st ← join_many_length s st; join_many_pass1 args st
  end.

(** The second pass: [p] is what has been written. *)
Fixpoint join_many_pass2 (st : join_state) (args : list bytes) (nargs : nat) (p : bytes)
    : bytes :=
  match args with
  | [] => p
  | s :: args =>
      if SVN_PATH_IS_EMPTY s then join_many_pass2 st args nargs p
      else
        let nargs := S nargs in
        if (nargs <? jm_base_arg st)%nat then join_many_pass2 st args nargs p
        else
          let len := if (nargs <? MAX_SAVED_LENGTHS)%nat
                     then default 0%nat (jm_saved_lengths st !! nargs) else length s in
          let sep :=
            if negb (bool_decide (p = []))
               && (negb (nargs - 1 <=? jm_base_arg st)%nat || jm_add_separator st)
            then [SLASH] else [] in
          join_many_pass2 st args nargs (p ++ sep ++ take len s)
  end.

Definition svn_dirent_join_many (base : bytes) (args : list bytes) : result bytes :=
  let total_len := length base in
  c_assert (svn_dirent_is_canonical base);;
  let add_separator :=
    negb ((total_len =? 0)%nat || (char_at base (total_len - 1) =? SLASH)) in
  st ← join_many_pass1 args
         (mk_join 0 total_len base 0 (total_len :: replicate 9 0%nat) add_separator);
  if negb (jm_add_separator st) && (jm_total_len st =? 1)%nat then Ok [SLASH]
  else
    let p := if SVN_PATH_IS_EMPTY (jm_base st) then []
             else take (default 0%nat (jm_saved_lengths st !! 0%nat)) (jm_base st) in
    let dirent := join_many_pass2 st args 0 p in
    c_assert (length dirent =? jm_total_len st)%nat;;
    Ok dirent.

(** ** Matching the name in a certificate *)

(** Both positions advance while the characters agree up to case. *)
Fixpoint cert_match_loop (pattern hostname : bytes) : option (bytes * bytes) :=
  match pattern, hostname with
  | pattern_c :: pattern', hostname_c :: hostname' =>
      if canonicalize_to_lower pattern_c =? canonicalize_to_lower hostname_c
      then cert_match_loop pattern' hostname' else None
  | _, _ => Some (pattern, hostname)
  end.

(** The hostname behind its first label. *)
Fixpoint skip_label (hostname : bytes) : bytes :=
  match hostname with
  | c :: rest => if c =? DOT then hostname else skip_label rest
  | [] => []
  end.

Definition svn_cert__match_dns_identity (pattern hostname : bytes) : bool :=
  let wildcard := (2 <=? length pattern)%nat && (char_at pattern 0 =? "*"%cc)
                  && (char_at pattern 1 =? DOT) in
  let hostname' := if wildcard then skip_label hostname else hostname in
  if wildcard && (length hostname' =? length hostname)%nat then false
  else
    match cert_match_loop (if wildcard then tail pattern else pattern) hostname' with
    | None => false
    | Some (pattern_rest, hostname_rest) =>
        let hostname_rest :=
          if (length pattern_rest =? 0)%nat && (length hostname_rest =? 1)%nat
             && (char_at hostname_rest 0 =? DOT) then [] else hostname_rest in
        (length pattern_rest =? 0)%nat && (length hostname_rest =? 0)%nat
    end.
