(* ===== verification/PathFacts.v ===== *)
(** * Paths as lists of segments

    The specification of [Paths]: a relpath is the list of its segments
    between slashes; it is canonical when no segment is empty or a dot.  The
    tests of the code decide this, and canonicalization drops the other
    segments.  At the end, matching host names against the patterns of
    certificates, and joining many components. *)

From S2P Require Import Prelude Paths.

(** ** Segments *)

Fixpoint split_slash (s : bytes) : list bytes :=
  match s with
  | [] => [[]]
  | c :: s =>
      if c =? SLASH then [] :: split_slash s
      else match split_slash s with
           | seg :: segs => (c :: seg) :: segs
           | [] => [[c]]
           end
  end.

Fixpoint join_slash (segs : list bytes) : bytes :=
  match segs with
  | [] => []
  | [s] => s
  | s :: segs => s ++ SLASH :: join_slash segs
  end.

(** A segment that may occur in a canonical path. *)
Definition good (s : bytes) : Prop := s <> [] /\ s <> [DOT].

#[export] Instance good_dec s : Decision (good s).
Proof. unfold good. apply _. Defined.

(** The segments of a relpath: the empty path has none. *)
Definition segments (p : bytes) : list bytes := if decide (p = []) then [] else split_slash p.

Definition rel_canonical (p : bytes) : Prop := Forall good (segments p).

(** A C string: bytes other than NUL. *)
Notation c_string := (Forall (fun c => 0 < c < 256)).

Lemma split_slash_cons s : exists seg segs, split_slash s = seg :: segs.
Proof.
  induction s as [|c s (seg & segs & IH)]; simpl; [eauto|].
  case_match; [eauto|]. rewrite IH. eauto.
Qed.

Lemma join_slash_cons seg segs :
  join_slash (seg :: segs) = seg ++ match segs with [] => [] | _ => SLASH :: join_slash segs end.
Proof. destruct segs; simpl; [by rewrite app_nil_r|done]. Qed.

Lemma join_split s : join_slash (split_slash s) = s.
Proof.
  induction s as [|c s IH]; [done|]. simpl. destruct (split_slash_cons s) as (seg & segs & Hs).
  destruct (Z.eqb_spec c SLASH) as [->|].
  - rewrite Hs in *. simpl in *. by rewrite IH.
  - rewrite Hs in *. rewrite join_slash_cons in *. simpl. by rewrite IH.
Qed.

Lemma split_slash_app seg rest :
  SLASH ∉ seg -> split_slash (seg ++ SLASH :: rest) = seg :: split_slash rest.
Proof.
  induction seg as [|c seg IH]; intros H; simpl; [done|].
  apply not_elem_of_cons in H as [Hc H].
  destruct (Z.eqb_spec c SLASH); [congruence|]. by rewrite IH.
Qed.

Lemma split_slash_single seg : SLASH ∉ seg -> split_slash seg = [seg].
Proof.
  induction seg as [|c seg IH]; intros H; simpl; [done|].
  apply not_elem_of_cons in H as [Hc H].
  destruct (Z.eqb_spec c SLASH); [congruence|]. by rewrite IH.
Qed.

Lemma split_join segs :
  segs <> [] -> Forall (fun s => SLASH ∉ s) segs -> split_slash (join_slash segs) = segs.
Proof.
  intros Hne Hall. induction Hall as [|s segs Hs Hall IH]; [done|].
  destruct segs as [|s' segs]; [by apply split_slash_single|].
  change (join_slash (s :: s' :: segs)) with (s ++ SLASH :: join_slash (s' :: segs)).
  rewrite split_slash_app by done. by rewrite IH.
Qed.

Lemma split_slash_noslash s : Forall (fun seg => SLASH ∉ seg) (split_slash s).
Proof.
  induction s as [|c s IH]; simpl.
  { constructor; [|done]. apply not_elem_of_nil. }
  destruct (split_slash_cons s) as (seg & segs & Hs). rewrite Hs in *.
  apply Forall_cons in IH as [H1 H2].
  destruct (Z.eqb_spec c SLASH).
  - constructor; [apply not_elem_of_nil|by constructor].
  - constructor; [|done]. apply not_elem_of_cons. split; [congruence|done].
Qed.

Lemma segments_noslash p : Forall (fun seg => SLASH ∉ seg) (segments p).
Proof. unfold segments. case_decide; [done|]. apply split_slash_noslash. Qed.

Lemma join_segments p : join_slash (segments p) = p.
Proof. unfold segments. case_decide; [by subst|]. apply join_split. Qed.

Lemma join_slash_nil segs : Forall good segs -> join_slash segs = [] -> segs = [].
Proof.
  intros [|s segs' [Hs _] _]; [done|]. rewrite join_slash_cons.
  intros H%app_eq_nil. by destruct H.
Qed.

Lemma segments_join segs :
  Forall good segs -> Forall (fun s => SLASH ∉ s) segs -> segments (join_slash segs) = segs.
Proof.
  intros Hg Hn. unfold segments. case_decide as H.
  - by apply join_slash_nil in H as ->.
  - apply split_join; [|done]. by intros ->.
Qed.

(** ** The test for canonical form *)

(** The state of a scan: at the start of a segment, behind a single dot,
    within a good segment. *)
Fixpoint scan (st : nat) (s : bytes) : bool :=
  match s with
  | [] => (st =? 2)%nat
  | c :: s =>
      if c =? SLASH then (st =? 2)%nat && scan 0 s
      else if (c =? DOT) && (st =? 0)%nat then scan 1 s else scan 2 s
  end.

Lemma scan_segments s :
  (scan 0 s = true <-> Forall good (split_slash s)) /\
  (scan 1 s = true <-> exists hd tl, split_slash s = hd :: tl /\ Forall good ((DOT :: hd) :: tl)) /\
  (scan 2 s = true <-> exists hd tl, split_slash s = hd :: tl /\ Forall good tl).
Proof.
  induction s as [|c s (IH0 & IH1 & IH2)].
  { simpl. split_and!; split; try done.
    - intros H. apply Forall_cons in H as [[] _]. done.
    - intros (hd & tl & ? & H). simplify_eq. apply Forall_cons in H as [[] _]. done.
    - intros _. eexists _, _. split; [done|]. constructor. }
  cbn [scan split_slash]. destruct (split_slash_cons s) as (seg & segs & Hs). rewrite Hs in *.
  assert (IH1' : scan 1 s = true <-> Forall good ((DOT :: seg) :: segs)).
  { rewrite IH1. split; [intros (? & ? & ? & ?); by simplify_eq|eauto]. }
  assert (IH2' : scan 2 s = true <-> Forall good segs).
  { rewrite IH2. split; [intros (? & ? & ? & ?); by simplify_eq|eauto]. }
  clear IH1 IH2.
  destruct (Z.eqb_spec c SLASH) as [->|Hc]; simpl.
  - split_and!.
    + split; [done|]. intros H. apply Forall_cons in H as [[] _]. done.
    + split; [done|]. intros (? & ? & ? & H). simplify_eq.
      apply Forall_cons in H as [[] _]. done.
    + rewrite IH0. split; [eauto|]. intros (? & ? & ? & H). by simplify_eq.
  - destruct (Z.eqb_spec c DOT) as [->|Hd]; simpl.
    + split_and!; [done| |].
      * rewrite IH2'. split.
        -- intros H. eexists _, _. split; [done|]. constructor; [by split|done].
        -- intros (? & ? & ? & H). simplify_eq. by apply Forall_cons in H as [_ H].
      * rewrite IH2'. split; [eauto|]. intros (? & ? & ? & H). by simplify_eq.
    + assert (good (c :: seg)) by (split; congruence).
      split_and!.
      * rewrite IH2', Forall_cons. tauto.
      * rewrite IH2'. split.
        -- intros H'. eexists _, _. split; [done|]. constructor; [by split|done].
        -- intros (? & ? & ? & H'). simplify_eq. by apply Forall_cons in H' as [_ H'].
      * rewrite IH2'. split; [eauto|]. intros (? & ? & ? & H'). by simplify_eq.
Qed.

(** No two adjacent slashes, with [prev] in front. *)
Fixpoint no_double (prev : Z) (s : bytes) : bool :=
  match s with
  | [] => true
  | c :: s => negb ((prev =? SLASH) && (c =? SLASH)) && no_double c s
  end.

Lemma pattern_loop_spec pattern prev s :
  Z.land pattern 255 = prev -> 0 <= prev < 256 -> Forall (fun c => 0 <= c < 256) s ->
  pattern_loop pattern s = no_double prev s.
Proof.
  intros Hp Hr Hs. revert pattern prev Hp Hr.
  induction Hs as [|c s Hc Hs IH]; intros pattern prev Hp Hr; simpl; [done|].
  rewrite Hp, Z.shiftl_mul_pow2 by lia. rewrite u32_small by lia.
  change (257 * SLASH) with 12079. change SLASH with 47.
  assert ((prev * 2 ^ 8 + c =? 12079) = ((prev =? 47) && (c =? 47))) as ->.
  { destruct (Z.eqb_spec (prev * 2 ^ 8 + c) 12079), (Z.eqb_spec prev 47), (Z.eqb_spec c 47);
      simpl; done || lia. }
  destruct ((prev =? 47) && (c =? 47)); [done|]. simpl. apply IH; [|done].
  change 255 with (Z.ones 8). rewrite Z.land_ones by lia.
  rewrite Z.add_comm, Z.mod_add by lia. apply Z.mod_small. lia.
Qed.

Lemma no_double_snoc prev s x :
  x <> SLASH -> no_double prev (s ++ [x]) = no_double prev s.
Proof.
  intros Hx. revert prev. induction s as [|c s IH]; intros prev; simpl.
  - destruct (Z.eqb_spec x SLASH); [done|]. by rewrite andb_false_r.
  - by rewrite IH.
Qed.

(** The last two characters, with [a] and [b] in front. *)
Fixpoint end_ok (a b : Z) (s : bytes) : bool :=
  match s with
  | [] => negb (b =? SLASH) && negb ((b =? DOT) && (a =? SLASH))
  | c :: s => end_ok b c s
  end.

Lemma end_ok_spec a b s :
  let p := a :: b :: s in
  end_ok a b s = negb ((char_at p (length p - 1) =? SLASH)
    || ((char_at p (length p - 1) =? DOT) && (char_at p (length p - 2) =? SLASH))).
Proof.
  revert a b. induction s as [|c s IH]; intros a b.
  { cbn -[Z.eqb]. by rewrite negb_orb. }
  cbn zeta in *. cbn [end_ok]. rewrite IH. unfold char_at. simpl. by rewrite !Nat.sub_0_r.
Qed.

Lemma scan_checks s a b :
  (b <> SLASH -> ~ (b = DOT /\ a = SLASH) ->
   scan 2 s = dot_loop (Some b) s && no_double b s && end_ok a b s) /\
  (b = SLASH -> scan 0 s = dot_loop (Some b) s && no_double b s && end_ok a b s) /\
  (b = DOT -> a = SLASH ->
   scan 1 s = negb (deref s =? SLASH) && (dot_loop (Some b) s && no_double b s && end_ok a b s)).
Proof.
  revert a b. induction s as [|c s IH]; intros a b.
  { simpl. split_and!; intros; subst; simpl; try done.
    destruct (Z.eqb_spec b SLASH); [done|]. simpl.
    destruct (Z.eqb_spec b DOT), (Z.eqb_spec a SLASH); simpl; done || tauto. }
  cbn [scan dot_loop no_double end_ok deref head default from_option].
  destruct (IH b c) as (IH2 & IH0 & IH1). clear IH.
  split_and!.
  - intros Hb Hab. destruct (Z.eqb_spec b SLASH); [done|].
    rewrite (bool_decide_eq_false_2 (Some b = Some SLASH)) by congruence.
    rewrite !andb_false_r. cbn [andb negb Nat.eqb].
    destruct (Z.eqb_spec c SLASH); [by apply IH0|]. apply IH2; [done|]. tauto.
  - intros ->. rewrite bool_decide_eq_true_2 by done.
    destruct (Z.eqb_spec c SLASH) as [->|]; cbn [andb negb Nat.eqb].
    + change (SLASH =? DOT) with false. change (SLASH =? SLASH) with true. simpl.
      by rewrite andb_false_r.
    + rewrite Z.eqb_refl. cbn [andb negb]. destruct (Z.eqb_spec c DOT) as [->|]; cbn [andb].
      * rewrite IH1 by done. destruct (deref s =? SLASH); done.
      * apply IH2; tauto.
  - intros -> ->. rewrite (bool_decide_eq_false_2 (Some DOT = Some SLASH)) by done.
    rewrite !andb_false_r. cbn [andb Nat.eqb].
    unfold id. destruct (Z.eqb_spec c SLASH); [done|]. cbn [andb negb].
    apply IH2; [done|]. intros [_ ?]. done.
Qed.

(** The test of the code decides the specification. *)
Lemma relpath_is_canonical_spec p :
  c_string p -> relpath_is_canonical p = true <-> rel_canonical p.
Proof.
  intros Hp. unfold rel_canonical, segments, relpath_is_canonical.
  destruct (decide (p = [])) as [->|Hne]; [by split|].
  destruct p as [|c p]; [done|]. clear Hne.
  destruct (scan_segments (c :: p)) as [<- _].
  apply Forall_cons in Hp as [Hc Hp].
  change (deref (c :: p)) with c. change (char_at (c :: p) 0) with c. cbn [scan].
  destruct (Z.eqb_spec c SLASH) as [->|Hns]; [by split|].
  destruct p as [|y p].
  { destruct (Z.eqb_spec c DOT) as [->|]; simpl; by split. }
  apply Forall_cons in Hp as [Hy Hp].
  change (char_at (c :: y :: p) 1) with y.
  destruct (Z.eqb_spec y 0); [lia|]. rewrite orb_false_r.
  change (length (c :: y :: p) <? 2)%nat with false. cbn iota.
  rewrite <- (negb_involutive (_ || _)), <- (end_ok_spec c y p).
  assert (Htake : end_ok c y p = true ->
    pattern_loop 0 (take (length (c :: y :: p) - 1) (c :: y :: p)) = no_double c (y :: p)).
  { intros Hend.
    assert (Hb : Forall (fun c => 0 <= c < 256) (c :: y :: p)).
    { repeat constructor; try lia. eapply Forall_impl; [exact Hp|]. simpl. lia. }
    destruct (last (c :: y :: p)) as [x|] eqn:Hl; [|by apply last_None in Hl].
    apply last_snoc_inv in Hl as [init Hi]. rewrite Hi in Hb |- *. rewrite take_init.
    rewrite (pattern_loop_spec 0 0); [|done|lia|by apply Forall_app in Hb as [? _]].
    assert (Hx : x <> SLASH).
    { intros ->. rewrite end_ok_spec in Hend. apply negb_true_iff, orb_false_iff in Hend as [He _].
      rewrite Hi in He. unfold char_at in He. rewrite length_app in He. simpl in He.
      rewrite Nat.add_sub, lookup_app_r, Nat.sub_diag in He by lia. done. }
    rewrite <- (no_double_snoc 0 init x), <- Hi by done. cbn [no_double].
    by destruct (Z.eqb_spec 0 SLASH). }
  change (dot_loop None (c :: y :: p)) with
    (if (c =? DOT) && bool_decide (None = Some SLASH) && (y =? SLASH)
     then false else dot_loop (Some c) (y :: p)).
  rewrite (bool_decide_eq_false_2 (None = Some SLASH)) by done.
  rewrite andb_false_r. cbn [andb].
  assert (Hgoal : (if (c =? DOT) && (y =? SLASH) then false
      else dot_loop (Some c) (y :: p) && no_double c (y :: p) && end_ok c y p) =
    (if (c =? DOT) && (0 =? 0)%nat then scan 1 (y :: p) else scan 2 (y :: p))).
  { destruct (scan_checks (y :: p) SLASH c) as (H2 & _ & H1).
    destruct (scan_checks (y :: p) 0 c) as (H2' & _ & _).
    destruct (Z.eqb_spec c DOT) as [->|]; cbn [andb Nat.eqb].
    - rewrite H1 by done. change (deref (y :: p)) with y. cbn [end_ok].
      by destruct (Z.eqb_spec y SLASH).
    - rewrite H2'; [done|done|]. intros [? _]. done. }
  rewrite <- Hgoal. clear Hgoal.
  destruct ((c =? DOT) && (y =? SLASH)); [done|].
  destruct (end_ok c y p); cbn [negb].
  - rewrite Htake by done. rewrite andb_true_r.
    destruct (dot_loop (Some c) (y :: p)); cbn [negb andb]; done.
  - by rewrite andb_false_r.
Qed.

(** ** Canonicalization *)

Lemma next_segment_spec type src seg next :
  type <> type_uri -> next_segment type src = (seg, next) ->
  src = seg ++ next /\ SLASH ∉ seg /\ (next = [] \/ exists rest, next = SLASH :: rest).
Proof.
  intros Ht. revert seg next. induction src as [|c src IH]; intros seg next; cbn [next_segment].
  { intros. simplify_eq. split_and!; [done|apply not_elem_of_nil|by left]. }
  assert (is_escaped_slash type (c :: src) = false) as -> by (by destruct type).
  rewrite orb_false_r. destruct (Z.eqb_spec c SLASH) as [->|Hc].
  { intros. simplify_eq. split_and!; [done|apply not_elem_of_nil|right; eauto]. }
  destruct (next_segment type src) as [seg' next'] eqn:E. intros. simplify_eq.
  destruct (IH seg' next eq_refl) as (-> & Hn & Hnext). split_and!; [done| |done].
  apply not_elem_of_cons. split; [congruence|done].
Qed.

Lemma noop_segment_good type seg :
  type <> type_uri -> noop_segment type seg = negb (bool_decide (good seg)).
Proof.
  intros Ht. unfold noop_segment. assert (Hu : forall b, (match type with type_uri => b | _ => false end) = false)
    by (by destruct type).
  rewrite Hu, orb_false_r. clear Hu Ht. unfold good.
  destruct seg as [|c [|d seg]]; [done| |].
  - change (char_at [c] 0) with c. destruct (Z.eqb_spec c DOT) as [->|]; simpl.
    + done.
    + rewrite bool_decide_eq_true_2; [done|]. split; congruence.
  - simpl. rewrite bool_decide_eq_true_2; [done|]. split; congruence.
Qed.

Lemma slash_length_drop type next :
  type <> type_uri -> next = [] \/ (exists rest, next = SLASH :: rest) ->
  drop (slash_length type next) next = tail next /\
  (slash_length type next =? 0)%nat = bool_decide (next = []).
Proof.
  intros Ht [->|[rest ->]].
  - by destruct type.
  - by destruct type.
Qed.

(** What the loop writes: the good segments, perhaps with a trailing slash. *)
Lemma canonicalize_segments_spec fuel type src dst k :
  type <> type_uri -> (length src <= fuel)%nat -> exists out,
    let gs := filter good (split_slash src) in
    canonicalize_segments fuel type src dst k = Some (dst ++ out, k + length gs)%nat /\
    (out = join_slash gs \/ gs <> [] /\ out = join_slash gs ++ [SLASH]).
Proof.
  intros Ht. revert src dst k. induction fuel as [|f IH]; intros src dst k Hf.
  { destruct src; [|simpl in Hf; lia]. exists []. simpl. split; [|by left].
    by rewrite app_nil_r, Nat.add_0_r. }
  destruct src as [|c src].
  { exists []. simpl. split; [|by left]. by rewrite app_nil_r, Nat.add_0_r. }
  set (s := c :: src) in *. cbn [canonicalize_segments]. unfold s at 1.
  destruct (next_segment type s) as [seg next] eqn:E.
  destruct (next_segment_spec _ _ _ _ Ht E) as (Hs & Hn & Hnext).
  destruct (slash_length_drop type next Ht Hnext) as [-> ->].
  rewrite noop_segment_good by done.
  assert (Hlen : (length (tail next) <= f)%nat).
  { assert (length s = length seg + length next)%nat as Hl by (rewrite Hs; apply length_app).
    destruct Hnext as [->|[rest ->]]; simpl in *; [lia|lia]. }
  assert (Hsplit : split_slash s = seg :: match next with [] => [] | _ => split_slash (tail next) end).
  { rewrite Hs. destruct Hnext as [->|[rest ->]].
    - rewrite app_nil_r. by apply split_slash_single.
    - by apply split_slash_app. }
  assert (Hfilter : filter good (split_slash s) =
    (if decide (good seg) then [seg] else []) ++ filter good (split_slash (tail next))).
  { rewrite Hsplit. destruct Hnext as [->|[rest ->]]; cbn [tail].
    - rewrite filter_cons. by case_decide.
    - rewrite filter_cons. by case_decide. }
  cbn zeta. rewrite Hfilter. destruct (decide (good seg)) as [Hg|Hg].
  - rewrite bool_decide_eq_true_2 by done. cbn [negb].
    destruct (IH (tail next) (dst ++ seg ++ (if bool_decide (next = []) then [] else [SLASH])) (S k) Hlen)
      as (out & -> & Hout).
    exists (seg ++ (if bool_decide (next = []) then [] else [SLASH]) ++ out).
    rewrite <- !app_assoc. split; [simpl; do 2 f_equal; lia|].
    destruct Hnext as [->|[rest ->]].
    + simpl. destruct Hout as [->|[? _]]; [|done]. left. by rewrite app_nil_r.
    + rewrite bool_decide_eq_false_2 by done. cbn [app tail] in *.
      rewrite join_slash_cons.
      destruct (filter good (split_slash rest)) as [|g gs].
      * destruct Hout as [->|[? _]]; [|done]. right. split; [done|]. by rewrite app_nil_r.
      * destruct Hout as [->|[_ ->]]; [left|right; split; [done|]].
        -- done.
        -- by rewrite <- !app_assoc.
  - rewrite bool_decide_eq_false_2 by done. cbn [negb app].
    destruct (IH (tail next) dst k Hlen) as (out & -> & Hout). eauto.
Qed.

Lemma last_app_ne {A} (l1 l2 : list A) : l2 <> [] -> last (l1 ++ l2) = last l2.
Proof. intros. rewrite last_app. destruct (last l2) eqn:E; [done|]. by apply last_None in E. Qed.

(** Joined good segments do not end in a slash. *)
Lemma join_slash_last segs :
  Forall good segs -> Forall (fun s => SLASH ∉ s) segs -> segs <> [] ->
  last (join_slash segs) <> Some SLASH.
Proof.
  intros Hg Hn Hne. induction Hg as [|s segs [Hs _] Hg IH]; [done|].
  apply Forall_cons in Hn as [Hn1 Hn].
  destruct segs as [|s' segs].
  - simpl. intros H. apply Hn1. apply last_Some_elem_of in H. done.
  - change (join_slash (s :: s' :: segs)) with (s ++ [SLASH] ++ join_slash (s' :: segs)).
    rewrite app_assoc, last_app_ne; [by apply IH|].
    intros H. apply join_slash_nil in H; [done|done].
Qed.

Lemma filter_split_good s :
  Forall good (filter good (split_slash s)) /\
  Forall (fun s => SLASH ∉ s) (filter good (split_slash s)).
Proof.
  split; apply Forall_forall; intros x [Hg Hx]%list_elem_of_filter; [done|].
  clear Hg. revert x Hx. apply Forall_forall, split_slash_noslash.
Qed.

Lemma remove_trailing_slash_spec dst gs out :
  Forall good gs -> Forall (fun s => SLASH ∉ s) gs -> gs <> [] ->
  out = join_slash gs \/ gs <> [] /\ out = join_slash gs ++ [SLASH] ->
  remove_trailing_slash (dst ++ out) = dst ++ join_slash gs.
Proof.
  intros Hg Hn Hne Hout. unfold remove_trailing_slash.
  assert (Hj : join_slash gs <> []) by (intros H; by apply join_slash_nil in H).
  destruct Hout as [->|[_ ->]].
  - rewrite bool_decide_eq_false_2; [done|]. rewrite last_app_ne by done. by apply join_slash_last.
  - rewrite app_assoc, last_snoc, bool_decide_eq_true_2 by done. by rewrite take_init.
Qed.

Lemma c_string_not_empty c s : c_string (c :: s) -> SVN_PATH_IS_EMPTY (c :: s) = false.
Proof.
  intros H. apply Forall_cons in H as [H _]. 
  change ((c =? 0) = false). apply Z.eqb_neq. lia.
Qed.

(** Canonicalizing a relpath keeps its good segments. *)
Lemma relpath_canonicalize_spec p :
  c_string p -> svn_relpath_canonicalize p = Some (join_slash (filter good (split_slash p))).
Proof.
  intros Hp. unfold svn_relpath_canonicalize, canonicalize_path.
  destruct p as [|c p]; [done|]. rewrite c_string_not_empty by done.
  destruct (canonicalize_segments_spec (length (c :: p)) type_relpath (c :: p) [] 0)
    as (out & -> & Hout); [done|done|]. cbn [mbind option_bind app Nat.add].
  destruct (filter_split_good (c :: p)) as [Hg Hn].
  destruct (filter good (split_slash (c :: p))) as [|g gs].
  - destruct Hout as [->|[? _]]; done.
  - change (0 <? length (g :: gs))%nat with true. cbn iota. f_equal.
    by apply (remove_trailing_slash_spec [] (g :: gs)).
Qed.

Lemma dirent_canonicalize_spec p :
  c_string p -> svn_dirent_canonicalize p =
    Some (if deref p =? SLASH then SLASH :: join_slash (filter good (split_slash (tail p)))
          else join_slash (filter good (split_slash p))).
Proof.
  intros Hp. unfold svn_dirent_canonicalize, canonicalize_path.
  destruct p as [|c p]; [done|]. rewrite c_string_not_empty by done.
  change (deref (c :: p)) with c. destruct (Z.eqb_spec c SLASH) as [->|].
  - cbn [tail]. destruct (canonicalize_segments_spec (length p) type_dirent p [SLASH] 0)
      as (out & -> & Hout); [done|done|]. cbn [mbind option_bind Nat.add].
    destruct (filter_split_good p) as [Hg Hn].
    destruct (filter good (split_slash p)) as [|g gs].
    + destruct Hout as [->|[? _]]; done.
    + change (0 <? length (g :: gs))%nat with true. cbn iota. f_equal.
      by rewrite (remove_trailing_slash_spec _ (g :: gs)) by done.
  - destruct (canonicalize_segments_spec (length (c :: p)) type_dirent (c :: p) [] 0)
      as (out & -> & Hout); [done|done|]. cbn [mbind option_bind app Nat.add].
    destruct (filter_split_good (c :: p)) as [Hg Hn].
    destruct (filter good (split_slash (c :: p))) as [|g gs].
    + destruct Hout as [->|[? _]]; done.
    + change (0 <? length (g :: gs))%nat with true. cbn iota. f_equal.
    by apply (remove_trailing_slash_spec [] (g :: gs)).
Qed.

(** The canonical form of a relpath. *)
Lemma canonical_filter p :
  rel_canonical (join_slash (filter good (split_slash p))).
Proof.
  unfold rel_canonical. destruct (filter_split_good p). by rewrite segments_join.
Qed.

Lemma canonical_fixed p :
  rel_canonical p -> join_slash (filter good (split_slash p)) = p.
Proof.
  unfold rel_canonical, segments. case_decide as H; [by subst|].
  intros Hg. rewrite filter_all by done. apply join_split.
Qed.

(** ** Splitting off the last segment *)

Lemma back_to_slash_spec s len :
  (len <= length s)%nat ->
  (back_to_slash s len <= len)%nat /\
  (forall i, (back_to_slash s len < i <= len)%nat -> s !! i <> Some SLASH) /\
  (back_to_slash s len <> 0%nat -> s !! back_to_slash s len = Some SLASH).
Proof.
  induction len as [|len IH]; intros Hl; cbn [back_to_slash].
  { split_and!; [lia|lia|done]. }
  unfold char_at. destruct (s !! S len) as [c|] eqn:Hc; cbn [default from_option].
  - unfold id. destruct (Z.eqb_spec c SLASH) as [->|Hns].
    + split_and!; [lia|lia|done].
    + destruct IH as (H1 & H2 & H3); [lia|]. split_and!; [lia| |done].
      intros i Hi. destruct (decide (i = S len)) as [->|]; [congruence|]. apply H2. lia.
  - destruct (Z.eqb_spec 0 SLASH); [done|].
    destruct IH as (H1 & H2 & H3); [lia|]. split_and!; [lia| |done].
    intros i Hi. destruct (decide (i = S len)) as [->|]; [congruence|]. apply H2. lia.
Qed.

Lemma basename_start_spec s n :
  (n <= length s)%nat ->
  (basename_start s n <= n)%nat /\
  (forall i, (basename_start s n <= i < n)%nat -> s !! i <> Some SLASH) /\
  (basename_start s n <> 0%nat -> s !! (basename_start s n - 1)%nat = Some SLASH).
Proof.
  induction n as [|n IH]; intros Hl; cbn [basename_start].
  { split_and!; [lia|lia|done]. }
  unfold char_at. destruct (lookup_lt_is_Some_2 s n) as [c Hc]; [lia|].
  rewrite Hc. cbn [default from_option]. unfold id.
  destruct (Z.eqb_spec c SLASH) as [->|Hns].
  - split_and!; [lia|lia|]. intros _. replace (S n - 1)%nat with n by lia. done.
  - destruct IH as (H1 & H2 & H3); [lia|]. split_and!; [lia| |done].
    intros i Hi. destruct (decide (i = n)) as [->|]; [congruence|]. apply H2. lia.
Qed.

(** A nonempty string is a front part, perhaps with a slash, and a last
    segment without one. *)
Lemma last_segment_decomp s :
  SLASH ∉ s \/ exists d b, s = d ++ SLASH :: b /\ SLASH ∉ b.
Proof.
  induction s as [|c s [IH|(d & b & -> & IH)]].
  - left. apply not_elem_of_nil.
  - destruct (decide (c = SLASH)) as [->|].
    + right. by exists [], s.
    + left. apply not_elem_of_cons. split; [congruence|done].
  - right. by exists (c :: d), b.
Qed.

Lemma back_to_slash_app d b n :
  SLASH ∉ b -> (n <= length b)%nat ->
  back_to_slash (d ++ SLASH :: b) (length d + n) = length d.
Proof.
  intros Hb. induction n as [|n IH]; intros Hn.
  - rewrite Nat.add_0_r. destruct (length d) as [|k] eqn:Hd; [done|].
    cbn [back_to_slash]. unfold char_at. rewrite <- Hd, lookup_app_r, Nat.sub_diag by lia. done.
  - rewrite Nat.add_succ_r. cbn [back_to_slash]. unfold char_at.
    rewrite lookup_app_r by lia. replace (S (length d + n) - length d)%nat with (S n) by lia.
    destruct (lookup_lt_is_Some_2 b n) as [c Hc]; [lia|].
    change ((SLASH :: b) !! S n) with (b !! n). rewrite Hc. cbn [default from_option]. unfold id.
    destruct (Z.eqb_spec c SLASH) as [->|].
    + exfalso. apply Hb. by eapply list_elem_of_lookup_2.
    + apply IH. lia.
Qed.

Lemma back_to_slash_none b n :
  SLASH ∉ b -> back_to_slash b n = 0%nat.
Proof.
  intros Hb. induction n as [|n IH]; [done|]. cbn [back_to_slash]. unfold char_at.
  destruct (b !! S n) as [c|] eqn:Hc; cbn [default from_option]; [|done].
  unfold id. destruct (Z.eqb_spec c SLASH) as [->|]; [|done].
  exfalso. apply Hb. by eapply list_elem_of_lookup_2.
Qed.

Lemma basename_start_app d b n :
  SLASH ∉ b -> (n <= length b)%nat ->
  basename_start (d ++ SLASH :: b) (length d + 1 + n) = (length d + 1)%nat.
Proof.
  intros Hb. induction n as [|n IH]; intros Hn.
  - rewrite Nat.add_0_r, Nat.add_1_r. cbn [basename_start]. unfold char_at.
    rewrite lookup_app_r, Nat.sub_diag by lia. done.
  - replace (length d + 1 + S n)%nat with (S (length d + 1 + n)) by lia.
    cbn [basename_start]. unfold char_at.
    rewrite lookup_app_r by lia. replace (length d + 1 + n - length d)%nat with (S n) by lia.
    destruct (lookup_lt_is_Some_2 b n) as [c Hc]; [lia|].
    change ((SLASH :: b) !! S n) with (b !! n). rewrite Hc. cbn [default from_option]. unfold id.
    destruct (Z.eqb_spec c SLASH) as [->|].
    + exfalso. apply Hb. by eapply list_elem_of_lookup_2.
    + apply IH. lia.
Qed.

Lemma basename_start_none b n :
  SLASH ∉ b -> basename_start b n = 0%nat.
Proof.
  intros Hb. induction n as [|n IH]; [done|]. cbn [basename_start]. unfold char_at.
  destruct (b !! n) as [c|] eqn:Hc; cbn [default from_option]; [|done].
  unfold id. destruct (Z.eqb_spec c SLASH) as [->|]; [|done].
  exfalso. apply Hb. by eapply list_elem_of_lookup_2.
Qed.

(** Dirname and basename of a relpath, on the two shapes it can have. *)
Lemma relpath_dirname_basename p :
  relpath_is_canonical p = true ->
  (SLASH ∉ p /\ svn_relpath_dirname p = Ok [] /\ svn_relpath_basename p = Ok p) \/
  (exists d b, p = d ++ SLASH :: b /\ SLASH ∉ b /\
     svn_relpath_dirname p = Ok d /\ svn_relpath_basename p = Ok b).
Proof.
  intros Hc. unfold svn_relpath_dirname, svn_relpath_basename. rewrite Hc. simpl.
  destruct (last_segment_decomp p) as [Hn|(d & b & -> & Hb)]; [left|right].
  - split; [done|]. split.
    + unfold relpath_previous_segment. destruct (length p); [done|].
      by rewrite back_to_slash_none.
    + by rewrite basename_start_none.
  - exists d, b. split; [done|]. split; [done|].
    assert (length (d ++ SLASH :: b) = length d + 1 + length b)%nat as Hl.
    { rewrite length_app. simpl. lia. }
    rewrite Hl. split.
    + replace (length d + 1 + length b)%nat with (S (length d + length b)) by lia.
      cbn [relpath_previous_segment]. rewrite back_to_slash_app by done.
      by rewrite take_app_length.
    + rewrite basename_start_app by done. f_equal.
      rewrite drop_app_ge by lia. by replace (length d + 1 - length d)%nat with 1%nat by lia.
Qed.

(** ** Joining *)

Lemma split_slash_join s1 s2 :
  split_slash (s1 ++ SLASH :: s2) = split_slash s1 ++ split_slash s2.
Proof.
  induction s1 as [|c s1 IH]; simpl; [done|].
  rewrite IH. destruct (c =? SLASH); [done|].
  by destruct (split_slash_cons s1) as (seg & segs & ->).
Qed.

Lemma segments_app p q :
  p <> [] -> q <> [] -> segments (p ++ SLASH :: q) = segments p ++ segments q.
Proof.
  intros Hp Hq. unfold segments. rewrite (decide_False (P := p = [])), (decide_False (P := q = [])),
    decide_False by (done || by destruct p). apply split_slash_join.
Qed.

Lemma rel_canonical_app p q :
  p <> [] -> q <> [] -> rel_canonical (p ++ SLASH :: q) <-> rel_canonical p /\ rel_canonical q.
Proof. intros. unfold rel_canonical. rewrite segments_app by done. apply Forall_app. Qed.

Lemma strip_prefix_app p s : strip_prefix p (p ++ s) = Some s.
Proof. induction p as [|c p IH]; simpl; [done|]. by rewrite Z.eqb_refl. Qed.

Lemma strip_prefix_Some p s rest : strip_prefix p s = Some rest <-> s = p ++ rest.
Proof.
  split; [|intros ->; apply strip_prefix_app].
  revert s. induction p as [|c p IH]; intros s; simpl; [by intros [= ->]|].
  destruct s as [|d s]; [done|]. destruct (Z.eqb_spec c d) as [->|]; [|done].
  by intros ->%IH.
Qed.

(** ** Ancestors *)

(** [a] is the relpath of an ancestor of [p], or [p] itself. *)
Definition rel_ancestor (a p : bytes) : Prop :=
  a = [] \/ p = a \/ exists rest, p = a ++ SLASH :: rest.

Lemma rel_ancestor_canonical a p : rel_canonical p -> rel_ancestor a p -> rel_canonical a.
Proof.
  intros Hp [->|[->|[rest ->]]]; [constructor|done|].
  destruct (decide (a = [])) as [->|Ha]; [constructor|].
  destruct (decide (rest = [])) as [->|Hr].
  - unfold rel_canonical, segments in Hp |- *. rewrite decide_False in Hp by (by destruct a).
    rewrite split_slash_join in Hp. apply Forall_app in Hp as [_ Hp].
    apply Forall_cons in Hp as [[? _] _]. done.
  - by apply rel_canonical_app in Hp as [? _].
Qed.

Lemma rel_canonical_head p : rel_canonical (SLASH :: p) -> False.
Proof. unfold rel_canonical, segments. simpl. intros H. apply Forall_cons in H as [[] _]. done. Qed.

(** The common part of two strings. *)
Definition common_part (r1 r2 : bytes) : Prop :=
  r1 = [] \/ r2 = [] \/ exists x1 t1 x2 t2, r1 = x1 :: t1 /\ r2 = x2 :: t2 /\ x1 <> x2.

Lemma common_part_greatest a c r1 r2 s1 s2 :
  common_part r1 r2 -> c ++ r1 = a ++ s1 -> c ++ r2 = a ++ s2 -> exists t, c = a ++ t.
Proof.
  intros Hc. revert a. induction c as [|x c IH]; intros a H1 H2; simpl in *.
  - destruct a as [|y a]; [by exists []|]. subst. simpl in *.
    destruct Hc as [|[|(?&?&?&?&?&?&?)]]; simplify_eq.
  - destruct a as [|y a]; [by eexists|]. simplify_eq/=.
    destruct (IH a) as [t ->]; [done|done|]. by exists t.
Qed.

Lemma ancestor_loop_spec p1 p2 i last :
  exists c r1 r2, p1 = c ++ r1 /\ p2 = c ++ r2 /\ common_part r1 r2 /\
  fst (ancestor_loop p1 p2 i last) = (i + length c)%nat /\
  ((SLASH ∉ c /\ snd (ancestor_loop p1 p2 i last) = last) \/
   exists c1 c2, c = c1 ++ SLASH :: c2 /\ SLASH ∉ c2 /\
     snd (ancestor_loop p1 p2 i last) = (i + length c1)%nat).
Proof.
  revert p2 i last. induction p1 as [|x p1 IH]; intros p2 i last.
  { exists [], [], p2. split_and!;
      [done|done|by left|simpl; lia|left; split; [apply not_elem_of_nil|done]]. }
  destruct p2 as [|y p2].
  { exists [], (x :: p1), []. split_and!;
      [done|done|right; by left|simpl; lia|left; split; [apply not_elem_of_nil|done]]. }
  cbn [ancestor_loop]. destruct (Z.eqb_spec x y) as [<-|Hne].
  2:{ exists [], (x :: p1), (y :: p2). split_and!;
      [done|done| |simpl; lia|left; split; [apply not_elem_of_nil|done]].
    right. right. eexists _, _, _, _. eauto. }
  assert (Hloop : match p1 with
       | [] => (S i, if x =? SLASH then i else last)
       | _ :: _ => match p2 with
                   | [] => (S i, if x =? SLASH then i else last)
                   | _ :: _ => ancestor_loop p1 p2 (S i) (if x =? SLASH then i else last)
                   end
       end = ancestor_loop p1 p2 (S i) (if x =? SLASH then i else last)).
  { by destruct p1, p2. }
  rewrite Hloop. clear Hloop.
  destruct (IH p2 (S i) (if x =? SLASH then i else last))
    as (c & r1 & r2 & -> & -> & Hc & Hfst & Hsnd).
  exists (x :: c), r1, r2. split_and!; [done|done|done|rewrite Hfst; simpl; lia|].
  destruct Hsnd as [[Hn Hsnd]|(c1 & c2 & -> & Hn & Hsnd)].
  - destruct (Z.eqb_spec x SLASH) as [->|Hx].
    + right. exists [], c. split_and!; [done|done|]. rewrite Hsnd. simpl. lia.
    + left. split; [|done]. apply not_elem_of_cons. split; [congruence|done].
  - right. exists (x :: c1), c2. split_and!; [done|done|]. rewrite Hsnd. simpl. lia.
Qed.

Lemma rel_ancestor_trans_app a c1 c2 t :
  SLASH ∉ c2 -> c1 ++ SLASH :: c2 = a ++ SLASH :: t -> rel_ancestor a c1.
Proof.
  intros Hn H. destruct (app_eq_inv _ _ _ _ H) as [(k & H1 & H2)|(k & H1 & H2)].
  - destruct k as [|x k]; [rewrite app_nil_r in H1; subst; right; by left|].
    simplify_eq/=. right. right. eauto.
  - destruct k as [|x k]; [rewrite app_nil_r in H1; subst; right; by left|].
    simplify_eq/=. exfalso. apply Hn. set_solver.
Qed.

Lemma lookup_boundary (c r : bytes) : char_at (c ++ r) (length c) = deref r.
Proof. unfold char_at. rewrite lookup_app_r, Nat.sub_diag by lia. by destruct r. Qed.

(** The result is the greatest common ancestor. *)
Lemma relpath_longest_ancestor_spec p1 p2 :
  c_string p1 -> c_string p2 ->
  relpath_is_canonical p1 = true -> relpath_is_canonical p2 = true -> exists a,
    svn_relpath_get_longest_ancestor p1 p2 = Ok a /\
    rel_ancestor a p1 /\ rel_ancestor a p2 /\
    forall a', rel_ancestor a' p1 -> rel_ancestor a' p2 -> rel_ancestor a' a.
Proof.
  intros Hs1 Hs2 Hc1 Hc2. unfold svn_relpath_get_longest_ancestor. rewrite Hc1, Hc2. simpl.
  eexists. split; [done|].
  apply relpath_is_canonical_spec in Hc1; [|done]. apply relpath_is_canonical_spec in Hc2; [|done].
  unfold get_longest_ancestor_length.
  destruct p1 as [|x p1'] eqn:E1.
  { simpl. split_and!; [by left|by left|]. intros a' [->|[<-|[r Hr]]] _; [by left|by left|].
    by destruct a'. }
  destruct p2 as [|y p2'] eqn:E2.
  { rewrite orb_true_r. split_and!; [by left|by left|].
    intros a' _ [->|[<-|[r Hr]]]; [by left|by left|]. by destruct a'. }
  rewrite !c_string_not_empty by done. cbn [orb].
  assert (Hx : x <> SLASH) by (intros ->; by eapply rel_canonical_head).
  rewrite <- E1, <- E2 in *.
  assert (H0 : char_at p1 0 =? SLASH = false) by (subst p1; by apply Z.eqb_neq).
  destruct (ancestor_loop_spec p1 p2 0 0) as (c & r1 & r2 & Hp1 & Hp2 & Hc & Hfst & Hsnd).
  destruct (ancestor_loop p1 p2 0 0) as [i last_dirsep].
  cbn -[Z.eqb Nat.eqb] in Hfst, Hsnd. subst i. rewrite H0, !andb_false_r. cbn [andb].
  assert (Hlow : forall a', a' <> [] -> rel_ancestor a' p1 -> rel_ancestor a' p2 ->
    (a' = c /\ (r1 = [] \/ exists t, r1 = SLASH :: t) /\ (r2 = [] \/ exists t, r2 = SLASH :: t)) \/
    exists t, c = a' ++ SLASH :: t).
  { intros a' Hne Ha1 Ha2.
    assert (Hpre : exists t1, c ++ r1 = a' ++ t1 /\ (t1 = [] \/ exists t, t1 = SLASH :: t)).
    { rewrite <- Hp1. destruct Ha1 as [|[->|[t ->]]]; [done| |eauto].
      exists []. rewrite app_nil_r. eauto. }
    assert (Hpre2 : exists t2, c ++ r2 = a' ++ t2 /\ (t2 = [] \/ exists t, t2 = SLASH :: t)).
    { rewrite <- Hp2. destruct Ha2 as [|[->|[t ->]]]; [done| |eauto].
      exists []. rewrite app_nil_r. eauto. }
    destruct Hpre as (t1 & Ht1 & Hsh1), Hpre2 as (t2 & Ht2 & Hsh2).
    destruct (common_part_greatest _ _ _ _ _ _ Hc Ht1 Ht2) as [t ->].
    rewrite <- !app_assoc in Ht1, Ht2. simplify_eq.
    destruct t as [|z t].
    - left. rewrite app_nil_r. simpl in *. done.
    - right. exists t. destruct Hsh1 as [|[? Hsh1]]; [done|]. simplify_eq/=. done. }
  assert (Hcond : forall P : bool, P = ((length c =? length p1)%nat && (char_at p2 (length c) =? SLASH)
       || (length c =? length p2)%nat && (char_at p1 (length c) =? SLASH)
       || (length c =? length p1)%nat && (length c =? length p2)%nat) ->
    if P then (r1 = [] \/ exists t, r1 = SLASH :: t) /\ (r2 = [] \/ exists t, r2 = SLASH :: t)
    else ~ ((r1 = [] \/ exists t, r1 = SLASH :: t) /\ (r2 = [] \/ exists t, r2 = SLASH :: t))).
  { intros P ->. rewrite Hp1, Hp2, !length_app, !lookup_boundary.
    assert (Hlen : forall r : bytes, (length c =? length c + length r)%nat = bool_decide (r = [])).
    { intros [|z r]; [by rewrite Nat.add_0_r, Nat.eqb_refl|]. simpl.
      apply Nat.eqb_neq. lia. }
    rewrite !Hlen.
    destruct r1 as [|z1 r1], r2 as [|z2 r2];
      try change (deref (z1 :: r1)) with z1; try change (deref (z2 :: r2)) with z2; simpl.
    - split; by left.
    - destruct (Z.eqb_spec z2 SLASH) as [->|]; simpl; [split; eauto|].
      intros [_ [?|[??]]]; simplify_eq.
    - destruct (Z.eqb_spec z1 SLASH) as [->|]; simpl; [split; eauto|].
      intros [[?|[??]] _]; simplify_eq.
    - intros [[?|[??]] [?|[??]]]; simplify_eq.
      destruct Hc as [?|[?|(?&?&?&?&?&?&?)]]; simplify_eq. }
  specialize (Hcond _ eq_refl).
  match goal with |- context [if ?b then length c else _] => destruct b eqn:EP end.
  - destruct Hcond as [Hr1 Hr2].
    assert (take (length c) p1 = c) as -> by (rewrite Hp1; apply take_app_length).
    split_and!.
    + right. destruct Hr1 as [->|[t ->]]; [left|right]; rewrite Hp1; [by rewrite app_nil_r|eauto].
    + right. destruct Hr2 as [->|[t ->]]; [left|right]; rewrite Hp2; [by rewrite app_nil_r|eauto].
    + intros a' Ha1 Ha2. destruct (decide (a' = [])) as [->|Hne]; [by left|].
      destruct (Hlow a' Hne Ha1 Ha2) as [[-> _]|[t ->]]; right; [by left|eauto].
  - destruct Hsnd as [[Hn ->]|(c1 & c2 & -> & Hn & ->)].
    + rewrite take_0. split_and!; [by left|by left|]. intros a' Ha1 Ha2.
      destruct (decide (a' = [])) as [->|Hne]; [by left|].
      destruct (Hlow a' Hne Ha1 Ha2) as [[_ ?]|[t ->]]; [done|].
      exfalso. apply Hn. set_solver.
    + assert (take (length c1) p1 = c1) as ->.
      { rewrite Hp1, <- app_assoc. apply take_app_length. }
      split_and!.
      * right. right. eexists. rewrite Hp1, <- app_assoc. done.
      * right. right. eexists. rewrite Hp2, <- app_assoc. done.
      * intros a' Ha1 Ha2. destruct (decide (a' = [])) as [->|Hne]; [by left|].
        destruct (Hlow a' Hne Ha1 Ha2) as [[_ ?]|[t Ht]]; [done|].
        by eapply rel_ancestor_trans_app.
Qed.

(** ** Characters of paths *)

Lemma elem_of_join_slash x segs :
  x ∈ join_slash segs -> x = SLASH \/ exists s, s ∈ segs /\ x ∈ s.
Proof.
  induction segs as [|s segs IH]; [by intros ?%elem_of_nil|].
  rewrite join_slash_cons. intros [H|H]%elem_of_app; [right; exists s; split; [left|]; done|].
  destruct segs as [|s' segs]; [by apply elem_of_nil in H|].
  apply elem_of_cons in H as [->|H]; [by left|].
  destruct (IH H) as [|(s0 & ? & ?)]; [by left|]. right. exists s0. split; [by right|done].
Qed.

Lemma elem_of_split_elem x s seg : seg ∈ split_slash s -> x ∈ seg -> x ∈ s.
Proof.
  revert seg. induction s as [|c s IH]; intros seg; cbn [split_slash].
  { intros ->%list_elem_of_singleton ?%elem_of_nil. done. }
  destruct (split_slash_cons s) as (seg0 & segs & Hs). rewrite Hs in *.
  destruct (c =? SLASH).
  - intros [->|H]%elem_of_cons Hx; [by apply elem_of_nil in Hx|]. right. by eapply IH.
  - intros [->|H]%elem_of_cons Hx.
    + apply elem_of_cons in Hx as [->|Hx]; [by left|]. right. by eapply (IH seg0); [left|].
    + right. eapply IH; [|done]. by right.
Qed.

Lemma rel_canonical_last p : rel_canonical p -> p <> [] -> last p <> Some SLASH.
Proof.
  intros Hc Hne. rewrite <- (join_segments p). apply join_slash_last; [done|apply segments_noslash|].
  intros H. apply Hne. by rewrite <- (join_segments p), H.
Qed.

Lemma filter_split_c_string p :
  c_string p -> c_string (join_slash (filter good (split_slash p))).
Proof.
  intros Hp. apply Forall_forall. intros x [->|(seg & Hseg & Hx)]%elem_of_join_slash; [done|].
  apply list_elem_of_filter in Hseg as [_ Hseg]. rewrite Forall_forall in Hp.
  apply Hp. by eapply elem_of_split_elem.
Qed.

(** ** Joining and skipping *)

Lemma c_string_app p q : c_string (p ++ q) <-> c_string p /\ c_string q.
Proof. apply Forall_app. Qed.

Lemma relpath_join_eq p q :
  relpath_is_canonical p = true -> relpath_is_canonical q = true ->
  svn_relpath_join p q =
    Ok (if decide (p = []) then q else if decide (q = []) then p else p ++ SLASH :: q).
Proof.
  intros Hp Hq. unfold svn_relpath_join. rewrite Hp, Hq. cbn [mbind result_bind c_assert].
  destruct p; [done|]. destruct q; done.
Qed.

Lemma relpath_join_canonical p q :
  c_string p -> c_string q -> rel_canonical p -> rel_canonical q ->
  let r := if decide (p = []) then q else if decide (q = []) then p else p ++ SLASH :: q in
  c_string r /\ rel_canonical r /\ segments r = segments p ++ segments q.
Proof.
  intros Hsp Hsq Hp Hq. cbn zeta. destruct (decide (p = [])) as [->|Hnp]; [done|].
  destruct (decide (q = [])) as [->|Hnq].
  - split_and!; [done|done|]. change (segments []) with (@nil bytes). by rewrite app_nil_r.
  - split_and!.
    + apply c_string_app. split; [done|by constructor].
    + by apply rel_canonical_app.
    + by apply segments_app.
Qed.

(** Skipping is the inverse of joining. *)
Lemma relpath_skip_ancestor_spec parent child r :
  c_string parent -> c_string child ->
  relpath_is_canonical parent = true -> relpath_is_canonical child = true ->
  svn_relpath_skip_ancestor parent child = Ok (Some r) <->
  (relpath_is_canonical r = true /\ svn_relpath_join parent r = Ok child).
Proof.
  intros Hsp Hsc Hp Hc. unfold svn_relpath_skip_ancestor. rewrite Hp, Hc.
  cbn [mbind result_bind c_assert].
  assert (Hcan : rel_canonical child) by by apply relpath_is_canonical_spec.
  destruct parent as [|c0 parent']; [|set (parent := c0 :: parent') in *].
  { simpl. split.
    - intros [= ->]. split; [done|]. by rewrite relpath_join_eq.
    - intros [Hr Hj]. rewrite relpath_join_eq in Hj by done. simpl in Hj. by simplify_eq. }
  change (length parent =? 0)%nat with false. cbn iota.
  assert (Hne : parent <> []) by done.
  assert (Hjoin : forall r, relpath_is_canonical r = true -> svn_relpath_join parent r =
    Ok (if decide (r = []) then parent else parent ++ SLASH :: r)).
  { intros r' Hr'. rewrite relpath_join_eq by done. by rewrite decide_False. }
  destruct (strip_prefix parent child) as [rest|] eqn:E.
  - apply strip_prefix_Some in E. assert (Hrest : c_string rest).
    { rewrite E in Hsc. by apply c_string_app in Hsc as [_ ?]. }
    destruct rest as [|c rest].
    + change (deref [] =? 0) with true. cbn iota. rewrite app_nil_r in E. split.
      * intros [= <-]. split; [done|]. by rewrite Hjoin, decide_True, E.
      * intros [Hr Hj]. rewrite Hjoin in Hj by done. rewrite E in Hj.
        destruct (decide (r = [])) as [->|]; [done|]. injection Hj as Hj.
        apply (f_equal length) in Hj. rewrite length_app in Hj. simpl in Hj. lia.
    + change (deref (c :: rest)) with c. apply Forall_cons in Hrest as [Hc0 Hrest].
      destruct (Z.eqb_spec c 0); [lia|].
      destruct (Z.eqb_spec c SLASH) as [->|Hcs].
      * cbn [tail]. assert (Hnr : rest <> []).
        { intros ->. rewrite E in Hcan. unfold rel_canonical, segments in Hcan.
          rewrite decide_False in Hcan by (by destruct parent).
          rewrite split_slash_join in Hcan. apply Forall_app in Hcan as [_ Hcan].
          apply Forall_cons in Hcan as [[] _]. done. }
        assert (Hcr : relpath_is_canonical rest = true).
        { apply relpath_is_canonical_spec; [done|]. rewrite E in Hcan.
          by apply rel_canonical_app in Hcan as [_ ?]. }
        split.
        -- intros [= <-]. split; [done|]. by rewrite Hjoin, decide_False, E.
        -- intros [Hr Hj]. rewrite Hjoin in Hj by done. rewrite E in Hj.
           destruct (decide (r = [])) as [->|].
           ++ injection Hj as Hj. apply (f_equal length) in Hj. rewrite length_app in Hj. simpl in Hj. lia.
           ++ injection Hj as Hj. apply app_inv_head in Hj. by simplify_eq.
      * split; [done|]. intros [Hr Hj]. rewrite Hjoin in Hj by done. rewrite E in Hj. exfalso.
        destruct (decide (r = [])) as [->|].
        -- injection Hj as Hj. apply (f_equal length) in Hj. rewrite length_app in Hj. simpl in Hj. lia.
        -- injection Hj as Hj. apply app_inv_head in Hj. by simplify_eq.
  - split; [done|]. intros [Hr Hj]. rewrite Hjoin in Hj by done. exfalso.
    destruct (decide (r = [])) as [->|]; injection Hj as <-.
    + assert (strip_prefix parent parent = Some []) by (apply strip_prefix_Some; by rewrite app_nil_r).
      congruence.
    + assert (strip_prefix parent (parent ++ SLASH :: r) = Some (SLASH :: r))
        by apply strip_prefix_app.
      change (c0 :: parent' ++ SLASH :: r) with (parent ++ SLASH :: r) in E. congruence.
Qed.

(** * Matching the name in a certificate

    What [svn_cert__match_dns_identity] of [Paths] accepts. *)

(** The names, up to the case of ASCII letters. *)
Definition lower : bytes -> bytes := map canonicalize_to_lower.

(** The hostname may end in a dot that the pattern does not have. *)
Definition same_name (pattern hostname : bytes) : Prop :=
  lower hostname = lower pattern \/ lower hostname = lower pattern ++ [DOT].

(** The part of the matching behind the wildcard. *)
Definition rest_matches (pattern hostname : bytes) : bool :=
  match cert_match_loop pattern hostname with
  | None => false
  | Some (pattern_rest, hostname_rest) =>
      let hostname_rest :=
        if (length pattern_rest =? 0)%nat && (length hostname_rest =? 1)%nat
           && (char_at hostname_rest 0 =? DOT) then [] else hostname_rest in
      (length pattern_rest =? 0)%nat && (length hostname_rest =? 0)%nat
  end.

Lemma lower_dot c : canonicalize_to_lower c = DOT <-> c = DOT.
Proof.
  unfold canonicalize_to_lower. change DOT with 46. split; [|by intros ->].
  destruct (_ || _) eqn:E; [done|]. reflect_bools. lia.
Qed.

Lemma same_name_cons c p d h :
  same_name (c :: p) (d :: h) <->
    canonicalize_to_lower c = canonicalize_to_lower d /\ same_name p h.
Proof. unfold same_name. simpl. split; [intros [[= ??]|[= ??]]|intros [-> [->| ->]]]; eauto. Qed.

Lemma rest_matches_spec p h : rest_matches p h = true <-> same_name p h.
Proof.
  revert h. induction p as [|c p IH]; intros h.
  - unfold rest_matches. cbn [cert_match_loop]. destruct h as [|d [|d' h]].
    + split; [by left|done].
    + unfold same_name. cbn [length Nat.eqb andb lower map app]. unfold char_at. cbn.
      destruct (Z.eqb_spec d 46) as [->|Hd]; cbn; [split; [by right|done]|].
      split; [done|]. intros [?|H]; [done|]. exfalso. apply Hd, lower_dot.
      by injection H.
    + split; [done|]. intros [?|?]; done.
  - destruct h as [|d h].
    + split; [done|]. intros [?|?]; [done|]. by destruct p.
    + rewrite same_name_cons, <- IH. unfold rest_matches. cbn [cert_match_loop].
      destruct (Z.eqb_spec (canonicalize_to_lower c) (canonicalize_to_lower d)); [tauto|].
      split; [done|]. by intros [? _].
Qed.

Lemma skip_label_spec label rest :
  DOT ∉ label -> rest = [] \/ deref rest = DOT -> skip_label (label ++ rest) = rest.
Proof.
  intros Hl Hr. induction label as [|c label IH]; simpl.
  - destruct Hr as [->|Hr]; [done|]. destruct rest as [|c rest]; [done|].
    unfold deref in Hr. simpl in *. subst c. done.
  - apply not_elem_of_cons in Hl as [Hc Hl]. destruct (Z.eqb_spec c DOT); [congruence|]. by apply IH.
Qed.

Lemma skip_label_split h : exists label,
  h = label ++ skip_label h /\ DOT ∉ label /\ (skip_label h = [] \/ deref (skip_label h) = DOT).
Proof.
  induction h as [|c h (label & Heq & Hl & Hr)]; simpl.
  - exists []. split_and!; [done|apply not_elem_of_nil|by left].
  - destruct (Z.eqb_spec c DOT) as [->|Hc].
    + exists []. split_and!; [done|apply not_elem_of_nil|by right].
    + exists (c :: label). split; [simpl; by f_equal|]. split; [|done].
      apply not_elem_of_cons. done.
Qed.

(** The pattern starts with the label [*]. *)
Definition is_wildcard (pattern : bytes) : Prop := exists p, pattern = "*"%cc :: DOT :: p.

Lemma wildcard_spec pattern :
  (2 <=? length pattern)%nat && (char_at pattern 0 =? "*"%cc) && (char_at pattern 1 =? DOT) = true <->
  is_wildcard pattern.
Proof.
  unfold is_wildcard. split.
  - destruct pattern as [|a [|b p]]; try done. unfold char_at. cbn. intros. reflect_bools.
    subst. by exists p.
  - by intros (p & ->).
Qed.

Lemma cert_match_spec pattern hostname :
  svn_cert__match_dns_identity pattern hostname = true <->
    ~ is_wildcard pattern /\ same_name pattern hostname \/
    is_wildcard pattern /\ exists label rest, hostname = label ++ rest /\ label <> [] /\
      DOT ∉ label /\ (rest = [] \/ deref rest = DOT) /\ same_name (tail pattern) rest.
Proof.
  pose proof (wildcard_spec pattern) as Hw. unfold svn_cert__match_dns_identity.
  destruct (_ && _) eqn:E.
  - assert (is_wildcard pattern) as Hp by tauto. cbn [andb].
    transitivity ((length (skip_label hostname) <> length hostname) /\
      rest_matches (tail pattern) (skip_label hostname) = true).
    { destruct (Nat.eqb_spec (length (skip_label hostname)) (length hostname)); [by intuition|].
      unfold rest_matches. tauto. }
    rewrite rest_matches_spec. split.
    + intros [Hlen Hs]. right. split; [done|]. destruct (skip_label_split hostname) as (l & Heq & Hl & Hr).
      exists l, (skip_label hostname). split_and!; try done. intros ->. by apply Hlen, (f_equal length).
    + intros [[Hn _]|(_ & l & rest & -> & Hne & Hl & Hr & Hs)]; [done|].
      rewrite skip_label_spec by done. split; [|done]. rewrite length_app. destruct l; [done|]. simpl. lia.
  - assert (~ is_wildcard pattern) as Hp by (rewrite <- Hw; congruence). cbn [andb].
    change (rest_matches pattern hostname = true <->
      ~ is_wildcard pattern /\ same_name pattern hostname \/
      is_wildcard pattern /\ exists label rest, hostname = label ++ rest /\ label <> [] /\
        DOT ∉ label /\ (rest = [] \/ deref rest = DOT) /\ same_name (tail pattern) rest).
    rewrite rest_matches_spec. tauto.
Qed.

(** * Joining many components

    [svn_dirent_join_many] of [Paths], with its two passes and its array of
    saved lengths, compared with repeated calls of [svn_dirent_join]. *)

(** ** One component *)

(** What [svn_dirent_join] computes on canonical dirents. *)
Definition join_step (b s : bytes) : bytes :=
  if decide (s = []) then b
  else if decide (deref s = SLASH) then s
  else if decide (b = []) then s
  else if decide (last b = Some SLASH) then b ++ s
  else b ++ SLASH :: s.

Definition joined (base : bytes) (args : list bytes) : bytes := foldl join_step base args.

(** A dirent as the functions get it. *)
Record dirent_ok (d : bytes) : Prop := {
  dirent_chars : c_string d;
  dirent_canonical : svn_dirent_is_canonical d = true
}.

Lemma last_char_at (s : bytes) : s <> [] -> last s = Some (char_at s (length s - 1)).
Proof.
  intros Hs. destruct s as [|c s _] using rev_ind; [done|]. rewrite last_snoc. f_equal.
  unfold char_at. rewrite length_app. simpl. by rewrite Nat.add_sub, list_lookup_middle by lia.
Qed.

Lemma dirent_is_absolute_deref s : svn_dirent_is_absolute s = (deref s =? SLASH).
Proof. by destruct s. Qed.

Lemma is_empty_nil s : c_string s -> SVN_PATH_IS_EMPTY s = bool_decide (s = []).
Proof. intros Hs. destruct s; [done|]. by apply c_string_not_empty. Qed.

Lemma dirent_join_step b s :
  dirent_ok b -> dirent_ok s -> svn_dirent_join b s = Ok (join_step b s).
Proof.
  intros [Hb Hcb] [Hs Hcs]. unfold svn_dirent_join, join_step. rewrite Hcb, Hcs.
  cbn [c_assert mbind result_bind]. rewrite dirent_is_absolute_deref, !is_empty_nil by done.
  destruct (decide (s = [])) as [->|Hns]; [by destruct b|].
  destruct (Z.eqb_spec (deref s) SLASH); [by rewrite decide_True|].
  rewrite decide_False by done. destruct (decide (b = [])) as [->|Hnb]; [done|].
  rewrite !bool_decide_false by done. rewrite last_char_at by done.
  destruct (Z.eqb_spec (char_at b (length b - 1)) SLASH) as [->|Hne]; cbn [negb].
  - by rewrite decide_True.
  - rewrite decide_False by congruence. done.
Qed.

(** A canonical dirent ends in a slash only if it is the root. *)
Lemma dirent_last d : dirent_ok d -> last d = Some SLASH -> d = [SLASH].
Proof.
  intros [Hs Hc] Hl. unfold svn_dirent_is_canonical in Hc.
  destruct (Z.eqb_spec (deref d) SLASH) as [Hr|Hr].
  - destruct d as [|c d]; [done|]. unfold deref in Hr. simpl in Hr. subst c. simpl in Hc.
    apply Forall_cons in Hs as [_ Hs].
    apply relpath_is_canonical_spec in Hc; [|done].
    destruct (decide (d = [])) as [->|Hd]; [done|].
    exfalso. apply (rel_canonical_last d Hc Hd). by destruct d.
  - apply relpath_is_canonical_spec in Hc; [|done].
    exfalso. apply (rel_canonical_last d Hc); [by intros ->|done].
Qed.

Lemma join_step_ok b s : dirent_ok b -> dirent_ok s -> dirent_ok (join_step b s).
Proof.
  intros Hb Hs. unfold join_step. repeat case_decide; try done.
  - assert (b = [SLASH]) as -> by by apply dirent_last. destruct Hs as [Hs Hc].
    split; [by constructor|]. unfold svn_dirent_is_canonical in *.
    destruct (Z.eqb_spec (deref s) SLASH); done.
  - destruct Hb as [Hb Hcb], Hs as [Hs Hcs].
    assert (Hch : c_string (b ++ SLASH :: s)) by (apply Forall_app; split; [done|by constructor]).
    split; [done|]. unfold svn_dirent_is_canonical in *.
    destruct (Z.eqb_spec (deref s) SLASH); [done|].
    apply relpath_is_canonical_spec in Hcs; [|done].
    destruct b as [|c b]; [done|]. change (deref ((c :: b) ++ SLASH :: s)) with c.
    change (deref (c :: b)) with c in *.
    destruct (Z.eqb_spec c SLASH) as [->|Hc]; cbn [tail app] in *.
    + apply Forall_cons in Hb as [_ Hb]. apply Forall_cons in Hch as [_ Hch].
      apply relpath_is_canonical_spec in Hcb; [|done]. apply relpath_is_canonical_spec; [done|].
      apply rel_canonical_app; [by intros ->|done|done].
    + apply relpath_is_canonical_spec in Hcb; [|done]. apply relpath_is_canonical_spec; [done|].
      by apply (rel_canonical_app (c :: b)).
Qed.

Lemma joined_ok b args : dirent_ok b -> Forall dirent_ok args -> dirent_ok (joined b args).
Proof.
  intros Hb Ha. revert b Hb. induction Ha as [|s args Hs Ha IH]; intros b Hb; [done|].
  by apply IH, join_step_ok.
Qed.

Lemma joined_snoc b args s : joined b (args ++ [s]) = join_step (joined b args) s.
Proof. unfold joined. by rewrite foldl_app. Qed.

(** A relative component does not end in a slash, nor does what it is joined
    to. *)
Lemma join_step_rel b s :
  dirent_ok b -> dirent_ok s -> s <> [] -> deref s <> SLASH ->
  join_step b s <> [] /\ last (join_step b s) <> Some SLASH.
Proof.
  intros Hb Hs Hne Hr. assert (Hl : last s <> Some SLASH).
  { intros Hl. by rewrite (dirent_last s Hs Hl) in Hr. }
  unfold join_step. rewrite decide_False, decide_False by done.
  repeat case_decide; split; try done; try by destruct b.
  - by rewrite last_app_ne.
  - rewrite last_app_ne by done. destruct s; [done|]. done.
Qed.

(** ** Empty components are skipped *)

Lemma pass1_skip_empty args st :
  Forall dirent_ok args ->
  join_many_pass1 args st = join_many_pass1 (filter (fun s => s <> []) args) st.
Proof.
  intros Ha. revert st. induction Ha as [|s args [Hs Hc] Ha IH]; intros st; [done|].
  cbn [join_many_pass1]. rewrite filter_cons. destruct (decide (s <> [])) as [Hne|He].
  - cbn [join_many_pass1]. destruct (join_many_length s st); [|done]. apply IH.
  - assert (s = []) as -> by (destruct s; [done|by destruct He]).
    rewrite <- IH. by destruct st.
Qed.

Lemma pass2_skip_empty st args n p :
  Forall dirent_ok args ->
  join_many_pass2 st args n p = join_many_pass2 st (filter (fun s => s <> []) args) n p.
Proof.
  intros Ha. revert n p. induction Ha as [|s args [Hs Hc] Ha IH]; intros n p; [done|].
  cbn [join_many_pass2]. rewrite filter_cons, is_empty_nil by done.
  destruct (decide (s <> [])) as [Hne|He].
  - cbn [join_many_pass2]. rewrite is_empty_nil, bool_decide_false by done. by rewrite !IH.
  - assert (s = []) as -> by (destruct s; [done|by destruct He]). by rewrite IH.
Qed.

Lemma joined_skip_empty b args :
  joined b args = joined b (filter (fun s => s <> []) args).
Proof.
  revert b. induction args as [|s args IH]; intros b; [done|].
  rewrite filter_cons. destruct (decide (s <> [])) as [Hne|He]; [apply IH|].
  assert (s = []) as -> by (destruct s; [done|by destruct He]). apply IH.
Qed.

(** ** The first pass *)

(** Whether a separator follows the dirent the result starts with. *)
Definition needs_separator (b : bytes) : bool :=
  negb (bool_decide (b = []) || bool_decide (last b = Some SLASH)).

(** A component to be joined. *)
Record component_ok (s : bytes) : Prop := {
  component_dirent : dirent_ok s;
  component_ne : s <> []
}.

(** The state after the first pass over [args]: the result starts with
    [first] - the base, or the last absolute component - and continues with
    the relative components [rel]. *)
Record pass1_inv (base : bytes) (args : list bytes) (st : join_state)
    (first : bytes) (rel : list bytes) : Prop := {
  p1_nargs : jm_nargs st = length args;
  p1_total : jm_total_len st = length (joined first rel);
  p1_sep : jm_add_separator st = needs_separator first;
  p1_joined : joined base args = joined first rel;
  p1_first : dirent_ok first;
  p1_rel : Forall (fun s => deref s <> SLASH) rel;
  p1_saved : exists l0, jm_saved_lengths st =
    l0 :: map length args ++ replicate (9 - length args) 0%nat /\
    (jm_base st <> [] -> l0 = length base);
  p1_case :
    jm_base st = base /\ first = base /\ rel = args /\ jm_base_arg st = 0%nat \/
    exists pre, args = pre ++ first :: rel /\ deref first = SLASH /\ first <> [] /\
      jm_base st = [] /\ jm_base_arg st = S (length pre)
}.

Definition pass1_init (base : bytes) : join_state :=
  mk_join 0 (length base) base 0 (length base :: replicate 9 0%nat) (needs_separator base).

Lemma pass1_inv_init base : dirent_ok base -> pass1_inv base [] (pass1_init base) base [].
Proof.
  intros Hb. split; try done; [|by left]. exists (length base). done.
Qed.

Lemma pass1_app args s st :
  join_many_pass1 (args ++ [s]) st = st' ← join_many_pass1 args st; join_many_length s st'.
Proof.
  revert st. induction args as [|a args IH]; intros st; cbn [join_many_pass1 app mbind result_bind].
  - by destruct (join_many_length s st).
  - destruct (join_many_length a st); [|done]. apply IH.
Qed.

(** The array after the length of the next component has been stored. *)
Lemma saved_insert (l0 : nat) (args : list bytes) (s : bytes) :
  (length args < 9)%nat ->
  <[S (length args) := length s]> (l0 :: map length args ++ replicate (9 - length args) 0%nat) =
  l0 :: map length (args ++ [s]) ++ replicate (9 - length (args ++ [s])) 0%nat.
Proof.
  intros Hlen. rewrite length_app. cbn [length].
  replace (9 - length args)%nat with (S (9 - (length args + 1))) by lia. cbn [replicate].
  match goal with |- <[_ := _]> (_ :: ?l) = _ =>
    change (l0 :: <[length args := length s]> l = l0 :: map length (args ++ [s]) ++ replicate (9 - (length args + 1)) 0%nat) end.
  rewrite insert_app_r_alt by (by rewrite length_map). rewrite length_map, Nat.sub_diag.
  by rewrite map_app, <- app_assoc.
Qed.

Lemma join_step_app b s :
  s <> [] -> deref s <> SLASH ->
  join_step b s = b ++ (if needs_separator b then [SLASH] else []) ++ s.
Proof.
  intros Hs Hr. unfold join_step, needs_separator. rewrite decide_False, decide_False by done.
  case_decide as Hb; [by subst|]. rewrite bool_decide_false by done.
  by case_decide; [rewrite bool_decide_true by done|rewrite bool_decide_false by done].
Qed.

Lemma length_join_step b s :
  s <> [] -> deref s <> SLASH ->
  length (join_step b s) = (length b + ((if needs_separator b then 1 else 0) + length s))%nat.
Proof.
  intros Hs Hr. rewrite join_step_app by done. rewrite !length_app. by destruct (needs_separator b).
Qed.

(** What has relative components behind it needs a separator. *)
Lemma needs_separator_rel first rel :
  dirent_ok first -> Forall component_ok rel -> Forall (fun s => deref s <> SLASH) rel ->
  rel <> [] -> needs_separator (joined first rel) = true.
Proof.
  intros Hf Hc Hr Hne. destruct rel as [|s rel _] using rev_ind; [done|].
  apply Forall_app in Hc as [Hc Hs], Hr as [_ Hrs].
  rewrite Forall_singleton in Hs, Hrs. destruct Hs as [Hs Hsn]. rewrite joined_snoc.
  destruct (join_step_rel (joined first rel) s) as [H1 H2]; try done.
  { apply joined_ok; [done|]. eapply Forall_impl; [exact Hc|]. by intros ? []. }
  unfold needs_separator. by rewrite !bool_decide_false.
Qed.

Lemma pass1_inv_step base args st first rel s :
  Forall component_ok args -> component_ok s -> (length args < 9)%nat ->
  pass1_inv base args st first rel -> exists st' first' rel',
    join_many_length s st = Ok st' /\ pass1_inv base (args ++ [s]) st' first' rel'.
Proof.
  intros Hargs [Hs Hns] Hlen [Hn Ht Hsep Hj Hf Hr (l0 & Hl & Hl0) Hcase].
  destruct st as [nargs total b base_arg saved sep].
  cbn [jm_nargs jm_total_len jm_base jm_base_arg jm_saved_lengths jm_add_separator] in *.
  subst nargs total saved sep. unfold join_many_length.
  rewrite (dirent_canonical _ Hs). cbn [c_assert mbind result_bind].
  rewrite is_empty_nil, bool_decide_false by (done || by destruct Hs).
  unfold MAX_SAVED_LENGTHS. destruct (Nat.ltb_spec (length args) 10); [|lia].
  unfold save_length. rewrite (proj2 (Nat.ltb_lt _ _)).
  2:{ cbn [length]. rewrite length_app, length_map, length_replicate. lia. }
  cbn [mbind result_bind]. rewrite saved_insert by done.
  change (dirent_is_rooted s) with (svn_dirent_is_absolute s). rewrite dirent_is_absolute_deref.
  assert (Hnargs : S (length args) = length (args ++ [s])) by (rewrite length_app; simpl; lia).
  destruct (Z.eqb_spec (deref s) SLASH) as [Hroot|Hrel].
  - eexists _, s, []. split; [done|]. split; simpl; try done.
    + unfold needs_separator. rewrite bool_decide_false by done. simpl. f_equal.
      rewrite last_char_at by done. destruct (Z.eqb_spec (char_at s (length s - 1)) SLASH) as [->|].
      * by rewrite bool_decide_true.
      * rewrite bool_decide_false by congruence. done.
    + rewrite joined_snoc. unfold join_step. rewrite decide_False, decide_True by done. done.
    + by exists 0%nat.
    + right. exists args. split_and!; try done.
  - assert (Hrc : Forall component_ok rel).
    { destruct Hcase as [(_ & _ & -> & _)|(pre & -> & _)]; [done|].
      apply Forall_app in Hargs as [_ Hargs]. by apply Forall_cons in Hargs as [_ ?]. }
    assert (Hsl : length (joined first (rel ++ [s])) =
        (length (joined first rel) +
          ((if needs_separator (joined first rel) then 1 else 0) + length s))%nat).
    { rewrite joined_snoc. by apply length_join_step. }
    assert (Hb : length args = (base_arg + length rel)%nat).
    { destruct Hcase as [(_ & _ & -> & ->)|(pre & -> & _ & _ & _ & ->)]; [done|].
      rewrite length_app. simpl. lia. }
    assert (Hcase' :
      b = base /\ first = base /\ rel ++ [s] = args ++ [s] /\ base_arg = 0%nat \/
      exists pre, args ++ [s] = pre ++ first :: rel ++ [s] /\ deref first = SLASH /\ first <> [] /\
        b = [] /\ base_arg = S (length pre)).
    { destruct Hcase as [(? & ? & -> & ?)|(pre & -> & ?)]; [left; done|right].
      exists pre. split; [|done]. by rewrite <- app_assoc. }
    assert (Hj' : joined base (args ++ [s]) = joined first (rel ++ [s])).
    { by rewrite !joined_snoc, Hj. }
    assert (Hr' : Forall (fun s => deref s <> SLASH) (rel ++ [s])).
    { apply Forall_app. split; [done|]. by apply Forall_singleton. }
    destruct (Nat.leb_spec (S (length args)) (base_arg + 1)).
    + assert (rel = []) as -> by (destruct rel; [done|cbn [length] in *; lia]).
      eexists _, first, [s]. split; [done|]. split; simpl; try done; eauto.
    + assert (Hsr : needs_separator (joined first rel) = true).
      { apply needs_separator_rel; try done. intros ->. cbn [length] in *. lia. }
      rewrite Hsr in Hsl.
      eexists _, first, (rel ++ [s]). split; [done|]. split; simpl; try done; eauto.
Qed.

Lemma pass1_spec base args :
  dirent_ok base -> Forall component_ok args -> (length args <= 9)%nat ->
  exists st first rel, join_many_pass1 args (pass1_init base) = Ok st /\
    pass1_inv base args st first rel.
Proof.
  intros Hb. induction args as [|s args IH] using rev_ind; intros Ha Hlen.
  { eexists _, base, []. split; [done|]. by apply pass1_inv_init. }
  apply Forall_app in Ha as [Ha Hs]. rewrite Forall_singleton in Hs.
  rewrite length_app in Hlen. simpl in Hlen.
  destruct IH as (st & first & rel & Heq & Hinv); [done|lia|].
  destruct (pass1_inv_step base args st first rel s) as (st' & first' & rel' & Heq' & Hinv');
    try done; [lia|].
  exists st', first', rel'. split; [|done]. by rewrite pass1_app, Heq.
Qed.

(** ** The second pass *)

Lemma pass2_component st s args n p :
  component_ok s ->
  (S n < 10 -> jm_saved_lengths st !! S n = Some (length s))%nat ->
  join_many_pass2 st (s :: args) n p =
    if (S n <? jm_base_arg st)%nat then join_many_pass2 st args (S n) p
    else join_many_pass2 st args (S n)
      (p ++ (if negb (bool_decide (p = []))
                && (negb (n <=? jm_base_arg st)%nat || jm_add_separator st)
             then [SLASH] else []) ++ s).
Proof.
  intros [[Hs _] Hne] Hl. cbn [join_many_pass2].
  rewrite is_empty_nil, bool_decide_false by done. change MAX_SAVED_LENGTHS with 10%nat.
  replace (S n - 1)%nat with n by lia. destruct (Nat.ltb_spec (S n) (jm_base_arg st)); [done|].
  do 3 f_equal. destruct (Nat.ltb_spec (S n) 10) as [Hlt|].
  - rewrite Hl by done. by apply firstn_all.
  - by apply firstn_all.
Qed.

(** The saved lengths of the components from the [n]-th on. *)
Definition lengths_saved (st : join_state) (n : nat) (todo : list bytes) : Prop :=
  forall i s, todo !! i = Some s -> jm_saved_lengths st !! S (n + i) = Some (length s).

Lemma lengths_saved_cons st n s todo :
  lengths_saved st n (s :: todo) ->
  jm_saved_lengths st !! S n = Some (length s) /\ lengths_saved st (S n) todo.
Proof.
  intros H. split.
  - specialize (H 0%nat s eq_refl). by rewrite Nat.add_0_r in H.
  - intros i s' Hi. specialize (H (S i) s' Hi). by rewrite Nat.add_succ_r in H.
Qed.

Lemma pass2_rel st first don todo :
  jm_add_separator st = needs_separator first -> dirent_ok first ->
  Forall component_ok (don ++ todo) -> Forall (fun s => deref s <> SLASH) (don ++ todo) ->
  lengths_saved st (jm_base_arg st + length don) todo ->
  join_many_pass2 st todo (jm_base_arg st + length don) (joined first don) =
    joined first (don ++ todo).
Proof.
  intros Hsep Hf. revert don. induction todo as [|s todo IH]; intros don Hc Hr Hl.
  { by rewrite app_nil_r. }
  apply lengths_saved_cons in Hl as [Hl0 Hl].
  assert (Hcs := Hc). apply Forall_app in Hcs as [Hcd Hcs]. apply Forall_cons in Hcs as [Hcs _].
  assert (Hrs := Hr). apply Forall_app in Hrs as [Hrd Hrs]. apply Forall_cons in Hrs as [Hrs _].
  rewrite pass2_component by done.
  destruct (Nat.ltb_spec (S (jm_base_arg st + length don)) (jm_base_arg st)); [lia|].
  rewrite (cons_middle s don todo), (app_assoc don [s] todo) in Hc, Hr |- *.
  rewrite <- IH; [|done|done|]; rewrite length_app, Nat.add_1_r, Nat.add_succ_r; [|done].
  f_equal. rewrite joined_snoc, join_step_app by (done || by destruct Hcs). do 2 f_equal.
  destruct (decide (don = [])) as [->|Hd].
  - rewrite Nat.add_0_r, Nat.leb_refl, Hsep. cbn [negb orb joined foldl].
    unfold needs_separator. by destruct (bool_decide (first = [])).
  - assert (Hsn : needs_separator (joined first don) = true) by by apply needs_separator_rel.
    rewrite Hsn. destruct don as [|s' don]; [done|]. cbn [length].
    destruct (Nat.leb_spec (jm_base_arg st + S (length don)) (jm_base_arg st)); [lia|].
    unfold needs_separator in Hsn. by destruct (bool_decide (joined first (s' :: don) = [])).
Qed.

Lemma pass2_skip st pre todo n :
  Forall component_ok pre -> lengths_saved st n (pre ++ todo) ->
  (n + length pre < jm_base_arg st)%nat ->
  join_many_pass2 st (pre ++ todo) n [] = join_many_pass2 st todo (n + length pre) [].
Proof.
  intros Hc. revert n. induction Hc as [|s pre Hs Hc IH]; intros n Hl Hlt; cbn [app length] in *.
  { by rewrite Nat.add_0_r. }
  apply lengths_saved_cons in Hl as [Hl0 Hl]. rewrite pass2_component by done.
  destruct (Nat.ltb_spec (S n) (jm_base_arg st)); [|lia].
  rewrite IH by (done || lia). f_equal. lia.
Qed.

Lemma pass2_spec base args st first rel :
  Forall component_ok args -> (length args <= 9)%nat -> dirent_ok base ->
  pass1_inv base args st first rel ->
  join_many_pass2 st args 0
    (if SVN_PATH_IS_EMPTY (jm_base st) then []
     else take (default 0%nat (jm_saved_lengths st !! 0%nat)) (jm_base st)) = joined base args.
Proof.
  intros Hc Hlen Hb [Hn Ht Hsep Hj Hf Hr (l0 & Hl & Hl0) Hcase].
  assert (Hls : lengths_saved st 0 args).
  { intros i s Hi. rewrite Hl, lookup_cons_ne_0 by done. cbn [Nat.add Nat.pred].
    rewrite lookup_app_l by (rewrite length_map; by eapply lookup_lt_Some).
    rewrite list_lookup_fmap. by rewrite Hi. }
  destruct Hcase as [(Hbase & -> & -> & Harg)|(pre & Heq & Hroot & Hfne & Hbase & Harg)].
  - assert (Hp : (if SVN_PATH_IS_EMPTY (jm_base st) then []
        else take (default 0%nat (jm_saved_lengths st !! 0%nat)) (jm_base st)) = base).
    { rewrite Hbase, is_empty_nil by by destruct Hb. case_bool_decide as He; [done|].
      rewrite Hl, Hl0 by by rewrite Hbase. by apply firstn_all. }
    rewrite Hp. pose proof (pass2_rel st base [] args Hsep Hb Hc Hr) as H.
    rewrite Harg in H. by apply H.
  - rewrite Hbase. cbn [SVN_PATH_IS_EMPTY deref head default]. subst args.
    rewrite pass2_skip by (done || (by apply Forall_app in Hc as [? _]) || lia).
    assert (Hfc := Hc). apply Forall_app in Hfc as [_ Hfc]. apply Forall_cons in Hfc as [Hfc Hrc].
    rewrite Hj. cbn [Nat.add].
    assert (Hlf : lengths_saved st (length pre) (first :: rel)).
    { intros i s Hi. specialize (Hls (length pre + i)%nat s). apply Hls.
      rewrite lookup_app_r by lia. by rewrite Nat.add_sub_swap, Nat.sub_diag by lia. }
    apply lengths_saved_cons in Hlf as [Hlf Hlr].
    cbn [SVN_PATH_IS_EMPTY deref head default].
    change (if 0 =? 0 then [] else _) with (@nil Z).
    rewrite pass2_component by done. rewrite Harg, Nat.ltb_irrefl. cbn [app bool_decide].
    pose proof (pass2_rel st first [] rel Hsep Hf) as H. rewrite Harg, Nat.add_0_r in H.
    by apply H.
Qed.

(** ** The whole function *)

Lemma pass1_app_list args1 args2 st :
  join_many_pass1 (args1 ++ args2) st =
    (st' ← join_many_pass1 args1 st; join_many_pass1 args2 st').
Proof.
  revert st. induction args1 as [|a args1 IH]; intros st; [done|].
  cbn [join_many_pass1 app mbind result_bind]. destruct (join_many_length a st); [|done]. apply IH.
Qed.

(** The tenth component is stored behind the end of the array. *)
Lemma pass1_overflow base args :
  dirent_ok base -> Forall component_ok args -> (9 < length args)%nat ->
  join_many_pass1 args (pass1_init base) = Err C_UNDEFINED.
Proof.
  intros Hb Hc Hlen. rewrite <- (take_drop 9 args) in Hc |- *.
  apply Forall_app in Hc as [Hc Hd].
  assert (Hlt : length (take 9 args) = 9%nat) by (rewrite length_take; lia).
  destruct (pass1_spec base (take 9 args) Hb Hc) as (st & first & rel & Heq & Hinv); [lia|].
  rewrite pass1_app_list, Heq. cbn [mbind result_bind].
  destruct (drop 9 args) as [|s rest] eqn:Hdrop.
  { apply (f_equal length) in Hdrop. rewrite length_drop in Hdrop. simpl in Hdrop. lia. }
  apply Forall_cons in Hd as [[Hs Hne] _]. destruct Hinv as [Hn _ _ _ _ _ (l0 & Hl & _) _].
  destruct st as [nargs total b base_arg saved sep].
  cbn [join_many_pass1 jm_nargs jm_saved_lengths] in *. unfold join_many_length.
  rewrite (dirent_canonical _ Hs), is_empty_nil, bool_decide_false by (done || by destruct Hs).
  cbn [c_assert mbind result_bind]. subst nargs saved. rewrite Hlt. cbn [Nat.ltb Nat.leb].
  unfold MAX_SAVED_LENGTHS, save_length. rewrite Nat.sub_diag. cbn [length].
  rewrite length_app, length_map, length_replicate, Hlt. done.
Qed.

Lemma joined_length first rel :
  Forall component_ok rel -> Forall (fun s => deref s <> SLASH) rel ->
  (length first + length (concat rel) <= length (joined first rel))%nat.
Proof.
  induction rel as [|s rel IH] using rev_ind; intros Hc Hr; [simpl; lia|].
  apply Forall_app in Hc as [Hc Hs], Hr as [Hr Hrs]. rewrite Forall_singleton in Hs, Hrs.
  destruct Hs as [_ Hne]. rewrite joined_snoc, length_join_step by done.
  rewrite concat_app, length_app. specialize (IH Hc Hr). simpl. rewrite app_nil_r. lia.
Qed.

Lemma concat_length_one (cs : list bytes) :
  Forall component_ok cs -> length (concat cs) = 1%nat -> exists x, cs = [x] /\ length x = 1%nat.
Proof.
  intros Hc Hl. destruct Hc as [|x cs [_ Hx] Hc]; [done|]. simpl in Hl. rewrite length_app in Hl.
  destruct x as [|c x]; [done|]. simpl in Hl. exists (c :: x).
  destruct Hc as [|y cs [_ Hy] _]; [simpl in *; split; [done|lia]|].
  destruct y; [done|]. simpl in Hl. lia.
Qed.

Lemma filter_component_ok args :
  Forall dirent_ok args -> Forall component_ok (filter (fun s => s <> []) args).
Proof.
  intros Ha. apply Forall_forall. intros s [Hne Hs]%list_elem_of_filter.
  rewrite Forall_forall in Ha. split; [by apply Ha|done].
Qed.

Lemma pass1_inv_root base args st first rel :
  Forall component_ok args -> dirent_ok base -> pass1_inv base args st first rel ->
  needs_separator first = false -> length (joined first rel) = 1%nat ->
  joined first rel = [SLASH] \/ base = [] /\ length (concat args) = 1%nat.
Proof.
  intros Hc Hb [_ _ _ _ Hf Hr _ Hcase] Hsep Hlen.
  assert (Hrc : Forall component_ok rel).
  { destruct Hcase as [(_ & _ & -> & _)|(pre & -> & _)]; [done|].
    apply Forall_app in Hc as [_ Hc]. by apply Forall_cons in Hc as [_ ?]. }
  pose proof (joined_length first rel Hrc Hr) as Hle. unfold needs_separator in Hsep.
  destruct (decide (first = [])) as [->|Hne].
  - right. destruct Hcase as [(_ & <- & -> & _)|(pre & _ & _ & Hne & _)]; [|done].
    split; [done|]. rewrite Hlen in Hle. destruct Hrc as [|s args [_ Hs] _]; [done|].
    destruct s; [done|]. simpl in Hle |- *. lia.
  - left. rewrite bool_decide_false in Hsep by done. apply negb_false_iff, bool_decide_eq_true in Hsep.
    assert (first = [SLASH]) as -> by by apply dirent_last.
    rewrite Hlen in Hle.
    destruct Hrc as [|s rel [_ Hs] _]; [done|]. destruct s; [done|]. simpl in Hle. lia.
Qed.

Lemma pass1_inv_one args st first rel :
  Forall component_ok args -> pass1_inv [] args st first rel -> length (concat args) = 1%nat ->
  needs_separator first = false /\ length (joined first rel) = 1%nat.
Proof.
  intros Hc [_ _ _ Hj _ _ _ Hcase] Hlen. rewrite <- Hj.
  destruct (concat_length_one args Hc Hlen) as (x & -> & Hx).
  assert (Hjx : joined [] [x] = x).
  { unfold joined. simpl. unfold join_step. destruct x; [done|]. rewrite decide_False by done.
    by case_decide. }
  rewrite Hjx. split; [|done]. destruct Hcase as [(_ & -> & _)|(pre & Heq & Hroot & Hne & _)]; [done|].
  destruct pre as [|? [|? ?]]; try done. simplify_eq/=. destruct first as [|c [|? ?]]; try done.
  unfold deref in Hroot. simpl in Hroot. by subst c.
Qed.

Lemma join_many_spec base args :
  dirent_ok base -> Forall dirent_ok args ->
  let cs := filter (fun s => s <> []) args in
  svn_dirent_join_many base args =
    if (9 <? length cs)%nat then Err C_UNDEFINED
    else if bool_decide (base = []) && (length (concat cs) =? 1)%nat then Ok [SLASH]
    else Ok (joined base args).
Proof.
  intros Hb Ha cs. assert (Hc : Forall component_ok cs) by by apply filter_component_ok.
  unfold svn_dirent_join_many. rewrite (dirent_canonical _ Hb). cbn [c_assert mbind result_bind].
  assert (Hsep : negb ((length base =? 0)%nat || (char_at base (length base - 1) =? SLASH)) =
      needs_separator base).
  { unfold needs_separator. destruct base as [|c b]; [done|]. rewrite last_char_at by done.
    rewrite bool_decide_false by done. cbn [length Nat.eqb orb]. f_equal.
    destruct (Z.eqb_spec (char_at (c :: b) (S (length b) - 1)) SLASH) as [->|].
    - by rewrite bool_decide_true.
    - by rewrite bool_decide_false by congruence. }
  rewrite Hsep, pass1_skip_empty by done. fold cs (pass1_init base).
  destruct (Nat.ltb_spec 9 (length cs)) as [Hlong|Hshort].
  { by rewrite pass1_overflow. }
  destruct (pass1_spec base cs) as (st & first & rel & Heq & Hinv); [done..|lia|].
  rewrite Heq. cbn [mbind result_bind]. rewrite pass2_skip_empty by done. fold cs.
  rewrite (pass2_spec base cs st first rel) by (done || lia).
  rewrite (joined_skip_empty base args). fold cs. assert (Hinv' := Hinv).
  destruct Hinv as [_ Ht Hs Hj _ _ _ _]. rewrite Ht, Hs, Hj, Nat.eqb_refl.
  cbn [c_assert mbind result_bind].
  destruct (needs_separator first) eqn:Hsf, (Nat.eqb_spec (length (joined first rel)) 1) as [H1|H1];
    cbn [negb andb].
  all: destruct (bool_decide_reflect (base = [])) as [->|], (Nat.eqb_spec (length (concat cs)) 1);
    cbn [andb]; try done.
  all: try (destruct (pass1_inv_one cs st first rel); congruence).
  all: by destruct (pass1_inv_root _ cs st first rel Hc Hb Hinv' Hsf H1) as [->|[? ?]].
Qed.

(** Repeated binary joins. *)
Definition join_each (base : bytes) (args : list bytes) : result bytes :=
  foldl (fun r s => b ← r; svn_dirent_join b s) (Ok base) args.

Lemma join_each_eq base args :
  dirent_ok base -> Forall dirent_ok args -> join_each base args = Ok (joined base args).
Proof.
  intros Hb Ha. unfold join_each. revert base Hb.
  induction Ha as [|s args Hs Ha IH]; intros base Hb; [done|]. cbn [foldl mbind result_bind].
  rewrite dirent_join_step by done. by apply IH, join_step_ok.
Qed.
