(* ===== verification/PathLib.v ===== *)
(** * The path library (libsvn_subr/path.c)

    Comparing, composing and decomposing paths, and the URI encoding.  An
    [assert] is [c_assert]. *)

From S2P Require Import Prelude Paths.

(** [strstr (s, needle) != NULL] *)
Fixpoint strstr (s needle : bytes) : bool :=
  match strip_prefix needle s with
  | Some _ => true
  | None => match s with [] => false | _ :: s' => strstr s' needle end
  end.

(** The approximation of canonical form that is only used in assertions. *)
Definition is_canonical (path : bytes) (len : nat) : bool :=
  negb ((len =? 1)%nat && (char_at path 0 =? DOT))
  && negb (strstr path [SLASH; DOT; SLASH])
  && ((len =? 0)%nat || ((len =? 1)%nat && (char_at path 0 =? SLASH))
      || negb (char_at path (len - 1) =? SLASH)).

(** ** Comparison *)

(** The order of the first characters that differ; the end of a path is NUL. *)
Definition compare_chars (c1 c2 : Z) : Z :=
  if (c1 =? SLASH) && (c2 =? 0) then 1
  else if (c2 =? SLASH) && (c1 =? 0) then -1
  else if c1 =? SLASH then -1
  else if c2 =? SLASH then 1
  else if c1 <? c2 then -1 else 1.

Fixpoint compare_loop (path1 path2 : bytes) : Z :=
  match path1, path2 with
  | [], [] => 0
  | c1 :: path1', c2 :: path2' =>
      if c1 =? c2 then compare_loop path1' path2' else compare_chars c1 c2
  | [], c2 :: _ => compare_chars 0 c2
  | c1 :: _, [] => compare_chars c1 0
  end.

Definition svn_path_compare_paths (path1 path2 : bytes) : result Z :=
  c_assert (is_canonical path1 (length path1));;
  c_assert (is_canonical path2 (length path2));;
  Ok (compare_loop path1 path2).

(** ** Components *)

(** [count] components have been seen; [inside] tells whether the pointer is
    within a component. *)
Fixpoint component_count_loop (path : bytes) (inside : bool) (count : nat) : nat :=
  match path with
  | [] => count
  | c :: path' =>
      if c =? SLASH then component_count_loop path' false count
      else component_count_loop path' true (if inside then count else S count)
  end.

Definition svn_path_component_count (path : bytes) : result nat :=
  c_assert (is_canonical path (length path));;
  Ok (component_count_loop path false 0).

(** [while (len > 0 && path[--len] != '/') ;] *)
Fixpoint previous_segment_loop (path : bytes) (len : nat) : nat :=
  match len with
  | O => O
  | S len' => if char_at path len' =? SLASH then len' else previous_segment_loop path len'
  end.

Definition previous_segment (path : bytes) (len : nat) : nat :=
  match len with
  | O => O
  | _ =>
      let len := previous_segment_loop path len in
      if (len =? 0)%nat && (char_at path 0 =? SLASH) then 1%nat else len
  end.

Definition svn_path_add_component (path component : bytes) : result bytes :=
  c_assert (is_canonical path (length path));;
  c_assert (is_canonical component (length component));;
  Ok (path
      ++ (if negb (SVN_PATH_IS_EMPTY path)
             && negb ((length path =? 1)%nat && (char_at path 0 =? SLASH))
          then [SLASH] else [])
      ++ component).

Definition svn_path_remove_component (path : bytes) : result bytes :=
  c_assert (is_canonical path (length path));;
  Ok (take (previous_segment path (length path)) path).

Fixpoint svn_path_remove_components (path : bytes) (n : nat) : result bytes :=
  match n with
  | O => Ok path
  | S n => path ← svn_path_remove_component path; svn_path_remove_components path n
  end.

(** The loop of [svn_path_decompose]: [component] holds the characters from
    [oldi] to [i]. *)
Fixpoint decompose_loop (path component : bytes) (components : list bytes) : list bytes :=
  let push := components ++ [if bool_decide (component = [DOT]) then [] else component] in
  match path with
  | [] => push
  | c :: path' =>
      if c =? SLASH then decompose_loop path' [] push
      else decompose_loop path' (component ++ [c]) components
  end.

(** [path] is assumed to be canonical as the assertion demands. *)
Definition svn_path_decompose (path : bytes) : list bytes :=
  if SVN_PATH_IS_EMPTY path then []
  else if char_at path 0 =? SLASH then
    match tail path with
    | [] => [[SLASH]]
    | rest => decompose_loop rest [] [[SLASH]]
    end
  else decompose_loop path [] [].

(** [i] is the index of the first component. *)
Fixpoint compose_loop (components : list bytes) (i : nat) (first p : bytes) : bytes :=
  match components with
  | [] => p
  | s :: components' =>
      let sep := (1 <? i)%nat || ((i =? 1)%nat && negb (streq [SLASH] first)) in
      compose_loop components' (S i) first (p ++ (if sep then [SLASH] else []) ++ s)
  end.

Definition svn_path_compose (components : list bytes) : bytes :=
  compose_loop components 0 (default [] (components !! 0%nat)) [].

Definition svn_path_is_single_path_component (name : bytes) : result bool :=
  c_assert (is_canonical name (length name));;
  Ok (if SVN_PATH_IS_EMPTY name
         || ((char_at name 0 =? DOT) && (char_at name 1 =? DOT) && (char_at name 2 =? 0))
      then false
      else if bool_decide (SLASH ∈ name) then false
      else true).

Definition svn_path_is_dotpath_present (path : bytes) : bool :=
  if char_at path 0 =? 0 then false
  else if (char_at path 0 =? DOT) && ((char_at path 1 =? 0) || (char_at path 1 =? SLASH))
  then true
  else if char_at path 1 =? 0 then false
  else if strstr path [SLASH; DOT; SLASH] then true
  else let len := length path in
       (char_at path (len - 2) =? SLASH) && (char_at path (len - 1) =? DOT).

Definition svn_path_is_backpath_present (path : bytes) : bool :=
  if (char_at path 0 =? 0) || (char_at path 1 =? 0) then false
  else if (char_at path 0 =? DOT) && (char_at path 1 =? DOT)
          && ((char_at path 2 =? 0) || (char_at path 2 =? SLASH)) then true
  else if char_at path 2 =? 0 then false
  else if strstr path [SLASH; DOT; DOT; SLASH] then true
  else let len := length path in
       (char_at path (len - 3) =? SLASH) && (char_at path (len - 2) =? DOT)
       && (char_at path (len - 1) =? DOT).

(** The rest of [path2] behind its parent [path1]; [i] is the number of
    characters passed and [first] the first character of [path1]. *)
Fixpoint path_is_child_loop (path1 path2 : bytes) (i : nat) (first : Z) : option bytes :=
  match path1, path2 with
  | c1 :: path1', c2 :: path2' =>
      if c1 =? c2 then path_is_child_loop path1' path2' (S i) first else None
  | [], c2 :: rest2 =>
      if c2 =? SLASH then Some rest2
      else if (i =? 1)%nat && (first =? SLASH) then Some path2
      else None
  | _, [] => None
  end.

Definition svn_path_is_child (path1 path2 : bytes) : option bytes :=
  if SVN_PATH_IS_EMPTY path1 then
    if SVN_PATH_IS_EMPTY path2 || (char_at path2 0 =? SLASH) then None else Some path2
  else path_is_child_loop path1 path2 0 (char_at path1 0).

Definition svn_path_is_ancestor (path1 path2 : bytes) : bool :=
  let path1_len := length path1 in
  if SVN_PATH_IS_EMPTY path1 then negb (deref path2 =? SLASH)
  else match strip_prefix path1 path2 with
       | Some rest => (char_at path1 (path1_len - 1) =? SLASH)
                      || (deref rest =? SLASH) || (deref rest =? 0)
       | None => false
       end.

Definition get_path_ancestor_length (path1 path2 : bytes) : nat :=
  let path1_len := length path1 in
  let path2_len := length path2 in
  if SVN_PATH_IS_EMPTY path1 || SVN_PATH_IS_EMPTY path2 then 0
  else
    let '(i, last_dirsep) := ancestor_loop path1 path2 0 0 in
    if (i =? 1)%nat && (char_at path1 0 =? SLASH) && (char_at path2 0 =? SLASH) then 1
    else if ((i =? path1_len)%nat && (char_at path2 i =? SLASH))
            || ((i =? path2_len)%nat && (char_at path1 i =? SLASH))
            || ((i =? path1_len)%nat && (i =? path2_len)%nat) then i
    else if (last_dirsep =? 0)%nat && (char_at path1 0 =? SLASH) && (char_at path2 0 =? SLASH)
    then 1
    else last_dirsep.

(** ** URIs *)

(** The rest behind [scheme://]; [j] characters of the scheme were passed. *)
Fixpoint skip_uri_scheme_loop (path : bytes) (j : nat) : option bytes :=
  match path with
  | [] => None
  | c :: rest =>
      if c =? ":"%cc then
        if (0 <? j)%nat && (char_at rest 0 =? SLASH) && (char_at rest 1 =? SLASH)
        then Some (drop 2 rest) else None
      else if c =? SLASH then None
      else skip_uri_scheme_loop rest (S j)
  end.

Definition skip_uri_scheme (path : bytes) : option bytes := skip_uri_scheme_loop path 0.

Definition svn_path_is_url (path : bytes) : bool := bool_decide (is_Some (skip_uri_scheme path)).

Definition svn_ctype_isxdigit (c : Z) : bool :=
  (("0"%cc <=? c) && (c <=? "9"%cc)) || (("A"%cc <=? c) && (c <=? "F"%cc))
  || (("a"%cc <=? c) && (c <=? "f"%cc)).

Definition svn_uri__char_validity : list Z :=
  [
   0; 0; 0; 0; 0; 0; 0; 0; 0; 0; 0; 0; 0; 0; 0; 0;
   0; 0; 0; 0; 0; 0; 0; 0; 0; 0; 0; 0; 0; 0; 0; 0;
   0; 1; 0; 0; 1; 0; 1; 1; 1; 1; 1; 1; 1; 1; 1; 1;
   1; 1; 1; 1; 1; 1; 1; 1; 1; 1; 1; 0; 0; 1; 0; 0;
   1; 1; 1; 1; 1; 1; 1; 1; 1; 1; 1; 1; 1; 1; 1; 1;
   1; 1; 1; 1; 1; 1; 1; 1; 1; 1; 1; 0; 0; 0; 0; 1;
   0; 1; 1; 1; 1; 1; 1; 1; 1; 1; 1; 1; 1; 1; 1; 1;
   1; 1; 1; 1; 1; 1; 1; 1; 1; 1; 1; 0; 0; 0; 1; 0;
   0; 0; 0; 0; 0; 0; 0; 0; 0; 0; 0; 0; 0; 0; 0; 0;
   0; 0; 0; 0; 0; 0; 0; 0; 0; 0; 0; 0; 0; 0; 0; 0;
   0; 0; 0; 0; 0; 0; 0; 0; 0; 0; 0; 0; 0; 0; 0; 0;
   0; 0; 0; 0; 0; 0; 0; 0; 0; 0; 0; 0; 0; 0; 0; 0;
   0; 0; 0; 0; 0; 0; 0; 0; 0; 0; 0; 0; 0; 0; 0; 0;
   0; 0; 0; 0; 0; 0; 0; 0; 0; 0; 0; 0; 0; 0; 0; 0;
   0; 0; 0; 0; 0; 0; 0; 0; 0; 0; 0; 0; 0; 0; 0; 0;
   0; 0; 0; 0; 0; 0; 0; 0; 0; 0; 0; 0; 0; 0; 0; 0
  ].

Definition iri_escape_chars : list Z :=
  [
   0; 1; 1; 1; 1; 1; 1; 1; 1; 1; 1; 1; 1; 1; 1; 1;
   1; 1; 1; 1; 1; 1; 1; 1; 1; 1; 1; 1; 1; 1; 1; 1;
   1; 1; 1; 1; 1; 1; 1; 1; 1; 1; 1; 1; 1; 1; 1; 1;
   1; 1; 1; 1; 1; 1; 1; 1; 1; 1; 1; 1; 1; 1; 1; 1;
   1; 1; 1; 1; 1; 1; 1; 1; 1; 1; 1; 1; 1; 1; 1; 1;
   1; 1; 1; 1; 1; 1; 1; 1; 1; 1; 1; 1; 1; 1; 1; 1;
   1; 1; 1; 1; 1; 1; 1; 1; 1; 1; 1; 1; 1; 1; 1; 1;
   1; 1; 1; 1; 1; 1; 1; 1; 1; 1; 1; 1; 1; 1; 1; 1;
   0; 0; 0; 0; 0; 0; 0; 0; 0; 0; 0; 0; 0; 0; 0; 0;
   0; 0; 0; 0; 0; 0; 0; 0; 0; 0; 0; 0; 0; 0; 0; 0;
   0; 0; 0; 0; 0; 0; 0; 0; 0; 0; 0; 0; 0; 0; 0; 0;
   0; 0; 0; 0; 0; 0; 0; 0; 0; 0; 0; 0; 0; 0; 0; 0;
   0; 0; 0; 0; 0; 0; 0; 0; 0; 0; 0; 0; 0; 0; 0; 0;
   0; 0; 0; 0; 0; 0; 0; 0; 0; 0; 0; 0; 0; 0; 0; 0;
   0; 0; 0; 0; 0; 0; 0; 0; 0; 0; 0; 0; 0; 0; 0; 0;
   0; 0; 0; 0; 0; 0; 0; 0; 0; 0; 0; 0; 0; 0; 0; 0
  ].

Definition uri_autoescape_chars : list Z :=
  [
   0; 1; 1; 1; 1; 1; 1; 1; 1; 1; 1; 1; 1; 1; 1; 1;
   1; 1; 1; 1; 1; 1; 1; 1; 1; 1; 1; 1; 1; 1; 1; 1;
   0; 1; 0; 1; 1; 1; 1; 1; 1; 1; 1; 1; 1; 1; 1; 1;
   1; 1; 1; 1; 1; 1; 1; 1; 1; 1; 1; 1; 0; 1; 0; 1;
   1; 1; 1; 1; 1; 1; 1; 1; 1; 1; 1; 1; 1; 1; 1; 1;
   1; 1; 1; 1; 1; 1; 1; 1; 1; 1; 1; 1; 0; 1; 0; 1;
   0; 1; 1; 1; 1; 1; 1; 1; 1; 1; 1; 1; 1; 1; 1; 1;
   1; 1; 1; 1; 1; 1; 1; 1; 1; 1; 1; 0; 0; 0; 1; 1;
   1; 1; 1; 1; 1; 1; 1; 1; 1; 1; 1; 1; 1; 1; 1; 1;
   1; 1; 1; 1; 1; 1; 1; 1; 1; 1; 1; 1; 1; 1; 1; 1;
   1; 1; 1; 1; 1; 1; 1; 1; 1; 1; 1; 1; 1; 1; 1; 1;
   1; 1; 1; 1; 1; 1; 1; 1; 1; 1; 1; 1; 1; 1; 1; 1;
   1; 1; 1; 1; 1; 1; 1; 1; 1; 1; 1; 1; 1; 1; 1; 1;
   1; 1; 1; 1; 1; 1; 1; 1; 1; 1; 1; 1; 1; 1; 1; 1;
   1; 1; 1; 1; 1; 1; 1; 1; 1; 1; 1; 1; 1; 1; 1; 1;
   1; 1; 1; 1; 1; 1; 1; 1; 1; 1; 1; 1; 1; 1; 1; 1
  ].

(** [table[c]] is not 0. *)
Definition in_table (table : list Z) (c : Z) : bool :=
  negb (default 0 (table !! Z.to_nat c) =? 0).

(** [strchr (s, c)] *)
Fixpoint strchr (s : bytes) (c : Z) : option bytes :=
  match s with
  | [] => None
  | d :: s' => if d =? c then Some s else strchr s' c
  end.

Fixpoint uri_safe_loop (path : bytes) : bool :=
  match path with
  | [] => true
  | c :: rest =>
      if c =? "%"%cc then
        match rest with
        | d1 :: (d2 :: rest') =>
            if svn_ctype_isxdigit d1 && svn_ctype_isxdigit d2 then uri_safe_loop rest' else false
        | _ => false
        end
      else if negb (in_table svn_uri__char_validity c) then false
      else uri_safe_loop rest
  end.

Definition svn_path_is_uri_safe (path : bytes) : bool :=
  match skip_uri_scheme path with
  | None => false
  | Some path =>
      match strchr path SLASH with
      | None => true
      | Some path => uri_safe_loop path
      end
  end.

(** A digit of [%X]. *)
Definition upper_hex (d : Z) : Z := if d <? 10 then "0"%cc + d else "A"%cc + (d - 10).

(** [apr_snprintf (p, 4, "%%%02X", c)] *)
Definition percent_escape (c : Z) : bytes :=
  ["%"%cc; upper_hex (c / 16); upper_hex (c mod 16)].

(** The loop of [uri_escape]: [uncopied] are the characters from [copied] to
    [i]. *)
Fixpoint uri_escape_loop (table : list Z) (path uncopied retstr : bytes) : bytes :=
  match path with
  | [] => retstr ++ uncopied
  | c :: path' =>
      if in_table table c then uri_escape_loop table path' (uncopied ++ [c]) retstr
      else uri_escape_loop table path' [] (retstr ++ uncopied ++ percent_escape c)
  end.

Definition uri_escape (path : bytes) (table : list Z) : bytes :=
  if forallb (in_table table) path then path else uri_escape_loop table path [] [].

Definition svn_path_uri_encode (path : bytes) : bytes := uri_escape path svn_uri__char_validity.
Definition svn_path_uri_from_iri (iri : bytes) : bytes := uri_escape iri iri_escape_chars.
Definition svn_path_uri_autoescape (uri : bytes) : bytes := uri_escape uri uri_autoescape_chars.

(** [strtol (digitz, NULL, 16)] of two digits. *)
Definition hex_digit (c : Z) : Z :=
  if c <=? "9"%cc then c - "0"%cc else if c <=? "F"%cc then c - "A"%cc + 10 else c - "a"%cc + 10.

Definition hex_value (d1 d2 : Z) : Z := 16 * hex_digit d1 + hex_digit d2.

Fixpoint uri_decode_loop (path : bytes) (query_start : bool) (retstr : bytes) : bytes :=
  match path with
  | [] => retstr
  | c :: rest =>
      if c =? "?"%cc then uri_decode_loop rest true (retstr ++ [c])
      else if (c =? "+"%cc) && query_start then
        uri_decode_loop rest query_start (retstr ++ [" "%cc])
      else if c =? "%"%cc then
        match rest with
        | d1 :: (d2 :: rest') =>
            if svn_ctype_isxdigit d1 && svn_ctype_isxdigit d2
            then uri_decode_loop rest' query_start (retstr ++ [hex_value d1 d2])
            else uri_decode_loop rest query_start (retstr ++ [c])
        | _ => uri_decode_loop rest query_start (retstr ++ [c])
        end
      else uri_decode_loop rest query_start (retstr ++ [c])
  end.

(** The result is a C string: a decoded NUL would end it. *)
Definition svn_path_uri_decode (path : bytes) : bytes := c_str (uri_decode_loop path false []).
