(* ===== verification/PathLibFacts.v ===== *)
(** * Facts on the path library

    The order of [svn_path_compare_paths], the round trips of [PathLib] and
    the meaning of its tests in terms of segments. *)

From S2P Require Import Prelude Paths PathFacts PathLib.

(** ** The order on paths

    A path is compared as the word of the ranks of its characters: the end
    comes first, then the slash, then the other characters. *)

Definition rank (c : Z) : Z := if c =? 0 then 0 else if c =? SLASH then 1 else c + 2.

Lemma rank_inj c1 c2 : 0 <= c1 -> 0 <= c2 -> rank c1 = rank c2 -> c1 = c2.
Proof.
  unfold rank. destruct (Z.eqb_spec c1 0), (Z.eqb_spec c2 0), (Z.eqb_spec c1 SLASH),
    (Z.eqb_spec c2 SLASH); lia.
Qed.

Lemma compare_chars_rank c1 c2 :
  0 <= c1 -> 0 <= c2 -> c1 <> c2 ->
  compare_chars c1 c2 = if rank c1 <? rank c2 then -1 else 1.
Proof.
  intros H1 H2 Hne. unfold compare_chars, rank. change SLASH with 47.
  destruct (Z.eqb_spec c1 47), (Z.eqb_spec c2 0), (Z.eqb_spec c2 47), (Z.eqb_spec c1 0),
    (Z.ltb_spec c1 c2); cbn [andb];
    repeat match goal with |- context [(?a <? ?b)%Z] => destruct (Z.ltb_spec a b) end;
    lia.
Qed.

Definition compare_heads (c1 c2 : Z) (rest : Z) : Z :=
  if c1 =? c2 then rest else if rank c1 <? rank c2 then -1 else 1.

Lemma compare_loop_cases p1 p2 :
  c_string p1 -> c_string p2 ->
  compare_loop p1 p2 =
    match p1, p2 with
    | [], [] => 0
    | _, _ => compare_heads (deref p1) (deref p2) (compare_loop (tail p1) (tail p2))
    end.
Proof.
  intros H1 H2. destruct p1 as [|c1 p1], p2 as [|c2 p2]; [done| | |]; cbn [compare_loop tail];
    unfold compare_heads.
  - apply Forall_cons in H2 as [? _]. change (deref (c2 :: p2)) with c2. change (deref []) with 0.
    destruct (Z.eqb_spec 0 c2); [lia|]. apply compare_chars_rank; lia.
  - apply Forall_cons in H1 as [? _]. change (deref (c1 :: p1)) with c1. change (deref []) with 0.
    destruct (Z.eqb_spec c1 0); [lia|]. apply compare_chars_rank; lia.
  - apply Forall_cons in H1 as [? _]. apply Forall_cons in H2 as [? _].
    change (deref (c1 :: p1)) with c1. change (deref (c2 :: p2)) with c2.
    destruct (Z.eqb_spec c1 c2); [done|]. apply compare_chars_rank; lia.
Qed.

Lemma compare_loop_refl p : compare_loop p p = 0.
Proof. induction p as [|c p IH]; simpl; [done|]. by rewrite Z.eqb_refl. Qed.

Lemma compare_loop_antisym p1 p2 :
  c_string p1 -> c_string p2 -> compare_loop p2 p1 = - compare_loop p1 p2.
Proof.
  revert p2. induction p1 as [|c1 p1 IH]; intros [|c2 p2] H1 H2; [done| | |];
    rewrite compare_loop_cases by done; rewrite (compare_loop_cases _ _ H1 H2); unfold compare_heads;
    change (deref []) with 0;
    repeat match goal with |- context [deref (?c :: ?p)] => change (deref (c :: p)) with c end;
    try apply Forall_cons in H1 as [H1 H1']; try apply Forall_cons in H2 as [H2 H2'].
  - destruct (Z.eqb_spec 0 c2), (Z.eqb_spec c2 0); try lia.
    destruct (Z.ltb_spec (rank c2) (rank 0)), (Z.ltb_spec (rank 0) (rank c2)); try lia.
    assert (Heq : rank c2 = rank 0) by lia. apply rank_inj in Heq; lia.
  - destruct (Z.eqb_spec 0 c1), (Z.eqb_spec c1 0); try lia.
    destruct (Z.ltb_spec (rank c1) (rank 0)), (Z.ltb_spec (rank 0) (rank c1)); try lia.
    assert (Heq : rank c1 = rank 0) by lia. apply rank_inj in Heq; lia.
  - cbn [tail]. destruct (Z.eqb_spec c1 c2), (Z.eqb_spec c2 c1); try lia; [by apply IH|].
    destruct (Z.ltb_spec (rank c1) (rank c2)), (Z.ltb_spec (rank c2) (rank c1)); try lia.
    assert (Heq : rank c1 = rank c2) by lia. apply rank_inj in Heq; lia.
Qed.

Lemma compare_loop_eq p1 p2 :
  c_string p1 -> c_string p2 -> compare_loop p1 p2 = 0 <-> p1 = p2.
Proof.
  intros H1 H2. split; [|intros ->; apply compare_loop_refl].
  revert p2 H2. induction H1 as [|c1 p1 Hc1 H1 IH]; intros [|c2 p2] H2; [done| | |];
    rewrite compare_loop_cases by (done || by constructor); unfold compare_heads;
    change (deref []) with 0;
    repeat match goal with |- context [deref (?c :: ?p)] => change (deref (c :: p)) with c end;
    try apply Forall_cons in H2 as [H2 H2'].
  - destruct (Z.eqb_spec 0 c2); [lia|]. by case_match.
  - destruct (Z.eqb_spec c1 0); [lia|]. by case_match.
  - cbn [tail]. destruct (Z.eqb_spec c1 c2) as [->|]; [|by case_match].
    intros ->%IH; done.
Qed.

Lemma compare_loop_trans p1 p2 p3 :
  c_string p1 -> c_string p2 -> c_string p3 ->
  compare_loop p1 p2 <= 0 -> compare_loop p2 p3 <= 0 -> compare_loop p1 p3 <= 0.
Proof.
  intros H1. revert p2 p3.
  induction H1 as [|c1 p1 Hc1 H1 IH]; intros p2 p3 H2 H3.
  { destruct p3 as [|c3 p3]; [done|]. intros _ _.
    rewrite compare_loop_cases by (done || by constructor). unfold compare_heads.
    change (deref []) with 0. change (deref (c3 :: p3)) with c3.
    apply Forall_cons in H3 as [H3 _]. destruct (Z.eqb_spec 0 c3); [lia|].
    destruct (Z.ltb_spec (rank 0) (rank c3)) as [|Hr]; [done|].
    unfold rank in Hr. simpl in Hr. destruct (Z.eqb_spec c3 0), (Z.eqb_spec c3 SLASH); lia. }
  destruct p2 as [|c2 p2].
  { rewrite (compare_loop_cases (c1 :: p1) []) by (done || by constructor). unfold compare_heads.
    change (deref []) with 0. change (deref (c1 :: p1)) with c1.
    destruct (Z.eqb_spec c1 0); [lia|].
    destruct (Z.ltb_spec (rank c1) (rank 0)) as [Hr|]; [|lia].
    unfold rank in Hr. simpl in Hr. destruct (Z.eqb_spec c1 0), (Z.eqb_spec c1 SLASH); lia. }
  assert (H2' := H2). apply Forall_cons in H2' as [Hc2 H2'].
  destruct p3 as [|c3 p3].
  { rewrite (compare_loop_cases (c2 :: p2) []) by done. unfold compare_heads.
    change (deref []) with 0. change (deref (c2 :: p2)) with c2.
    destruct (Z.eqb_spec c2 0); [lia|].
    destruct (Z.ltb_spec (rank c2) (rank 0)) as [Hr|]; [|lia].
    unfold rank in Hr. simpl in Hr. destruct (Z.eqb_spec c2 0), (Z.eqb_spec c2 SLASH); lia. }
  assert (H3' := H3). apply Forall_cons in H3' as [Hc3 H3'].
  rewrite (compare_loop_cases (c1 :: p1) (c2 :: p2)), (compare_loop_cases (c2 :: p2)),
    (compare_loop_cases (c1 :: p1)) by (done || by constructor).
  unfold compare_heads. cbn [tail].
  repeat match goal with |- context [deref (?c :: ?p)] => change (deref (c :: p)) with c end.
  destruct (Z.eqb_spec c1 c2) as [->|], (Z.eqb_spec c2 c3) as [->|].
  - by apply IH.
  - done.
  - by destruct (Z.eqb_spec c1 c3).
  - destruct (Z.ltb_spec (rank c1) (rank c2)), (Z.ltb_spec (rank c2) (rank c3)); try lia.
    intros _ _. destruct (Z.eqb_spec c1 c3) as [->|]; [lia|].
    destruct (Z.ltb_spec (rank c1) (rank c3)); lia.
Qed.

(** A parent sorts before its children, and its children before the siblings
    that extend its name. *)
Lemma compare_loop_app p q1 q2 : compare_loop (p ++ q1) (p ++ q2) = compare_loop q1 q2.
Proof. induction p as [|c p IH]; simpl; [done|]. by rewrite Z.eqb_refl. Qed.

(** ** Encoding and decoding *)

Lemma uri_escape_loop_spec table path uncopied retstr :
  uri_escape_loop table path uncopied retstr =
    retstr ++ uncopied ++ concat (map (fun c => if in_table table c then [c] else percent_escape c) path).
Proof.
  revert uncopied retstr. induction path as [|c path IH]; intros uncopied retstr; simpl.
  { by rewrite app_nil_r. }
  destruct (in_table table c); rewrite IH; by rewrite <- !app_assoc.
Qed.

(** Escaping replaces every character that is not in the table. *)
Lemma uri_escape_spec path table :
  uri_escape path table =
    concat (map (fun c => if in_table table c then [c] else percent_escape c) path).
Proof.
  unfold uri_escape. destruct (forallb (in_table table) path) eqn:E.
  - induction path as [|c path IH]; [done|]. cbn [forallb map concat] in *.
    apply andb_true_iff in E as [-> E]. simpl. by rewrite <- IH.
  - by rewrite uri_escape_loop_spec.
Qed.

Lemma uri_decode_loop_acc path q acc :
  uri_decode_loop path q acc = acc ++ uri_decode_loop path q [].
Proof.
  remember (length path) as n eqn:Hn. assert (Hle : (length path <= n)%nat) by lia. clear Hn.
  revert path q acc Hle. induction n as [|n IH]; intros [|c path] q acc Hle;
    try (simpl; by rewrite app_nil_r); [simpl in Hle; lia|].
  assert (Hstep : forall q' x, uri_decode_loop path q' (acc ++ x) =
     acc ++ uri_decode_loop path q' x).
  { intros q' x. rewrite (IH path q' (acc ++ x)), (IH path q' x) by (simpl in Hle; lia).
    by rewrite app_assoc. }
  cbn [uri_decode_loop app]. destruct (c =? 63); [apply Hstep|].
  destruct ((c =? 43) && q); [apply Hstep|]. destruct (c =? 37); [|apply Hstep].
  destruct path as [|d1 [|d2 path]]; [apply Hstep|apply Hstep|].
  destruct (svn_ctype_isxdigit d1 && svn_ctype_isxdigit d2); [|apply Hstep].
  rewrite (IH path q (acc ++ _)), (IH path q [_]) by (simpl in Hle; lia). by rewrite app_assoc.
Qed.

Lemma upper_hex_digit d :
  0 <= d < 16 -> svn_ctype_isxdigit (upper_hex d) = true /\ hex_digit (upper_hex d) = d.
Proof.
  intros Hd. assert (Hall : forall i, (i < 16)%nat ->
    svn_ctype_isxdigit (upper_hex (Z.of_nat i)) = true /\
    hex_digit (upper_hex (Z.of_nat i)) = Z.of_nat i).
  { intros i Hi. do 16 (destruct i as [|i]; [by vm_compute|]). lia. }
  specialize (Hall (Z.to_nat d)). rewrite Z2Nat.id in Hall by lia. apply Hall. lia.
Qed.

(** The characters that may stay are not special to the decoder. *)
Lemma char_validity_plain c :
  in_table svn_uri__char_validity c = true -> 0 <= c -> c <> "?"%cc /\ c <> "%"%cc.
Proof. intros H Hc. split; intros ->; by vm_compute in H. Qed.

Lemma decode_encode_loop path q :
  Forall (fun c => 0 <= c < 256) path -> q = false ->
  uri_decode_loop (concat (map (fun c => if in_table svn_uri__char_validity c then [c]
                                         else percent_escape c) path)) q [] = path.
Proof.
  intros H ->. induction H as [|c path Hc H IH]; [done|]. cbn [map concat].
  destruct (in_table svn_uri__char_validity c) eqn:E.
  - apply char_validity_plain in E as [H1 H2]; [|lia].
    set (rest := concat _) in *. cbn [app uri_decode_loop].
    destruct (Z.eqb_spec c "?"%cc); [done|]. rewrite andb_false_r.
    destruct (Z.eqb_spec c "%"%cc); [done|]. rewrite uri_decode_loop_acc, IH. done.
  - set (rest := concat _) in *. unfold percent_escape. cbn [app uri_decode_loop].
    rewrite andb_false_r. cbn [Z.eqb Pos.eqb].
    assert (H1 : 0 <= c / 16 < 16) by dlia. assert (H2 : 0 <= c mod 16 < 16) by dlia.
    destruct (upper_hex_digit _ H1) as [-> Hv1]. destruct (upper_hex_digit _ H2) as [-> Hv2].
    cbn [andb]. unfold hex_value. rewrite Hv1, Hv2, uri_decode_loop_acc, IH.
    cbn [app]. f_equal. dlia.
Qed.

Lemma c_str_no_nul s : Forall (fun c => c <> 0) s -> c_str s = s.
Proof.
  induction 1 as [|c s Hc H IH]; simpl; [done|]. destruct (Z.eqb_spec c 0); [done|]. by rewrite IH.
Qed.

Lemma c_str_id s : c_string s -> c_str s = s.
Proof.
  induction 1 as [|c s Hc H IH]; simpl; [done|]. destruct (Z.eqb_spec c 0); [lia|]. by rewrite IH.
Qed.

Lemma decode_encode p : Forall (fun c => 0 < c < 256) p -> svn_path_uri_decode (svn_path_uri_encode p) = p.
Proof.
  intros Hp. unfold svn_path_uri_decode, svn_path_uri_encode. rewrite uri_escape_spec, decode_encode_loop.
  - by apply c_str_id.
  - eapply Forall_impl; [exact Hp|]. cbv beta. lia.
  - done.
Qed.

(** An encoded path is safe. *)
Lemma uri_safe_encoded path :
  Forall (fun c => 0 <= c < 256) path ->
  uri_safe_loop (svn_path_uri_encode path) = true.
Proof.
  intros H. unfold svn_path_uri_encode. rewrite uri_escape_spec.
  induction H as [|c path Hc H IH]; [done|]. cbn [map concat].
  destruct (in_table svn_uri__char_validity c) eqn:E.
  - assert (Hp := E). apply char_validity_plain in Hp as [_ H2]; [|lia].
    cbn [app uri_safe_loop]. destruct (Z.eqb_spec c "%"%cc); [done|]. by rewrite E.
  - unfold percent_escape. cbn [app uri_safe_loop]. rewrite Z.eqb_refl.
    assert (H1 : 0 <= c / 16 < 16) by dlia. assert (H2 : 0 <= c mod 16 < 16) by dlia.
    destruct (upper_hex_digit _ H1) as [-> _]. destruct (upper_hex_digit _ H2) as [-> _]. done.
Qed.

(** ** Components and segments *)

Lemma decompose_loop_spec path comp acc :
  decompose_loop path comp acc = acc ++
    map (fun s => if bool_decide (s = [DOT]) then [] else s)
      (match split_slash path with hd :: tl => (comp ++ hd) :: tl | [] => [] end).
Proof.
  revert comp acc. induction path as [|c path IH]; intros comp acc; cbn [decompose_loop split_slash].
  { by rewrite app_nil_r. }
  destruct (split_slash_cons path) as (seg & segs & Hs). rewrite Hs in *.
  destruct (Z.eqb_spec c SLASH).
  - rewrite IH. cbn [map]. rewrite app_nil_r, <- app_assoc. done.
  - rewrite IH. cbn [map]. by rewrite <- !app_assoc.
Qed.

Lemma map_dot_good segs :
  Forall good segs -> map (fun s => if bool_decide (s = [DOT]) then [] else s) segs = segs.
Proof.
  induction 1 as [|s segs [_ Hs] _ IH]; [done|]. cbn [map].
  rewrite bool_decide_eq_false_2 by done. by rewrite IH.
Qed.

Lemma decompose_rel p :
  c_string p -> rel_canonical p -> svn_path_decompose p = segments p.
Proof.
  intros Hp Hc. unfold svn_path_decompose.
  destruct p as [|c p]; [done|]. rewrite c_string_not_empty by done.
  change (char_at (c :: p) 0) with c.
  destruct (Z.eqb_spec c SLASH) as [->|]; [by apply rel_canonical_head in Hc|].
  rewrite decompose_loop_spec. unfold rel_canonical, segments in *.
  rewrite decide_False in * by done. destruct (split_slash (c :: p)) as [|hd tl]; [done|].
  by rewrite map_dot_good.
Qed.

Lemma decompose_abs p :
  c_string p -> rel_canonical p -> svn_path_decompose (SLASH :: p) = [SLASH] :: segments p.
Proof.
  intros Hp Hc. unfold svn_path_decompose. change (SVN_PATH_IS_EMPTY (SLASH :: p)) with false.
  change (char_at (SLASH :: p) 0 =? SLASH) with true. cbn [tail].
  destruct p as [|c p]; [done|]. rewrite decompose_loop_spec.
  unfold rel_canonical, segments in *. rewrite decide_False in * by done.
  destruct (split_slash (c :: p)) as [|hd tl]; [done|]. by rewrite map_dot_good.
Qed.

Lemma compose_loop_later components i first p :
  (1 < i)%nat ->
  compose_loop components i first p = p ++ concat (map (fun s => SLASH :: s) components).
Proof.
  revert i p. induction components as [|s components IH]; intros i p Hi; cbn [compose_loop map concat].
  { by rewrite app_nil_r. }
  rewrite (proj2 (Nat.ltb_lt 1 i)) by done. rewrite IH by lia. cbn [orb]. by rewrite <- !app_assoc.
Qed.

Lemma join_slash_concat s segs :
  join_slash (s :: segs) = s ++ concat (map (fun s => SLASH :: s) segs).
Proof.
  revert s. induction segs as [|s' segs IH]; intros s; [simpl; by rewrite app_nil_r|].
  change (join_slash (s :: s' :: segs)) with (s ++ SLASH :: join_slash (s' :: segs)).
  rewrite IH. done.
Qed.

Lemma compose_rel segs :
  head segs <> Some [SLASH] -> svn_path_compose segs = join_slash segs.
Proof.
  unfold svn_path_compose. destruct segs as [|s [|s' segs]]; intros Hh; [done|done|].
  change (default [] ((s :: s' :: segs) !! 0%nat)) with s. cbn [compose_loop].
  assert (streq [SLASH] s = false) as ->.
  { apply bool_decide_eq_false. intros <-. by apply Hh. }
  cbn [Nat.ltb Nat.leb Nat.eqb negb andb orb]. rewrite compose_loop_later by lia.
  rewrite join_slash_concat. cbn [app map concat]. by rewrite <- !app_assoc.
Qed.

Lemma compose_abs segs : svn_path_compose ([SLASH] :: segs) = SLASH :: join_slash segs.
Proof.
  unfold svn_path_compose. change (default [] (([SLASH] :: segs) !! 0%nat)) with [SLASH].
  destruct segs as [|s segs]; [done|]. cbn [compose_loop].
  change (streq [SLASH] [SLASH]) with true.
  cbn [Nat.ltb Nat.leb Nat.eqb negb andb orb]. rewrite compose_loop_later by lia.
  by rewrite join_slash_concat.
Qed.

Lemma segments_head p : c_string p -> rel_canonical p -> head (segments p) <> Some [SLASH].
Proof.
  intros _ _ H. pose proof (segments_noslash p) as Hn.
  destruct (segments p) as [|s segs]; [done|]. simplify_eq/=.
  apply Forall_cons in Hn as [Hn _]. apply Hn. by left.
Qed.

Lemma component_count_loop_spec path inside count :
  component_count_loop path inside count =
    (count + length (filter (fun s : bytes => s <> [])
       (match split_slash path with
        | hd :: tl => (if inside then [] else hd) :: tl | [] => [] end)))%nat.
Proof.
  revert inside count. induction path as [|c path IH]; intros inside count;
    cbn [component_count_loop split_slash].
  { destruct inside; simpl; lia. }
  destruct (split_slash_cons path) as (seg & segs & Hs). rewrite Hs in *.
  destruct (Z.eqb_spec c SLASH).
  - rewrite IH. f_equal. f_equal. by destruct inside.
  - rewrite IH. destruct inside; [done|].
    rewrite (filter_cons_False _ []), (filter_cons_True _ (c :: seg)) by (done || tauto).
    cbn [length]. lia.
Qed.

(** The number of components is the number of segments. *)
Lemma component_count_rel p :
  c_string p -> rel_canonical p -> component_count_loop p false 0 = length (segments p).
Proof.
  intros Hp Hc. rewrite component_count_loop_spec. cbn [Nat.add].
  unfold rel_canonical, segments in *. destruct (decide (p = [])) as [->|]; [done|].
  destruct (split_slash_cons p) as (seg & segs & Hs). rewrite Hs in *.
  rewrite filter_all; [done|]. eapply Forall_impl; [exact Hc|]. by intros x [? _].
Qed.

(** ** Special segments *)

Lemma strstr_spec s needle : strstr s needle = true <-> exists l r, s = l ++ needle ++ r.
Proof.
  induction s as [|c s IH]; cbn [strstr].
  - destruct (strip_prefix needle []) as [rest|] eqn:E.
    + split; [|done]. intros _. apply strip_prefix_Some in E. by exists [], rest.
    + split; [done|]. intros (l & r & H). exfalso.
      symmetry in H. apply app_eq_nil in H as [-> H].
      assert (strip_prefix needle [] = Some r) by (apply strip_prefix_Some; by rewrite H). congruence.
  - destruct (strip_prefix needle (c :: s)) as [rest|] eqn:E.
    + split; [|done]. intros _. apply strip_prefix_Some in E. by exists [], rest.
    + rewrite IH. split.
      * intros (l & r & ->). by exists (c :: l), r.
      * intros (l & r & H). destruct l as [|d l].
        -- assert (strip_prefix needle (c :: s) = Some r) by (apply strip_prefix_Some; by rewrite H).
           congruence.
        -- simplify_eq/=. eauto.
Qed.

(** Where a segment can stand. *)
Lemma elem_of_split_slash x p :
  SLASH ∉ x ->
  x ∈ split_slash p <->
  p = x \/ (exists r, p = x ++ SLASH :: r) \/ (exists l, p = l ++ SLASH :: x) \/
  (exists l r, p = l ++ SLASH :: x ++ SLASH :: r).
Proof.
  intros Hx. split.
  - intros (l1 & l2 & H)%list_elem_of_split.
    pose proof (join_split p) as Hj. rewrite H in Hj.
    destruct l2 as [|y l2].
    + destruct l1 as [|z l1]; [left; by rewrite <- Hj|].
      right; right; left. exists (join_slash (z :: l1)). rewrite <- Hj. cbn [app].
      rewrite !join_slash_concat, map_app, concat_app. cbn [map concat].
      by rewrite app_nil_r, <- !app_assoc.
    + assert (Hr : concat (map (fun s => SLASH :: s) (y :: l2)) = SLASH :: join_slash (y :: l2)).
      { by rewrite join_slash_concat. }
      destruct l1 as [|z l1].
      * right; left. exists (join_slash (y :: l2)). rewrite <- Hj. cbn [app].
        by rewrite join_slash_concat, Hr.
      * right; right; right. exists (join_slash (z :: l1)), (join_slash (y :: l2)).
        rewrite <- Hj. cbn [app]. rewrite (join_slash_concat z), map_app, concat_app.
        rewrite (join_slash_concat z l1), <- !app_assoc. do 2 f_equal.
        change (map (fun s => SLASH :: s) (x :: y :: l2))
          with ((SLASH :: x) :: map (fun s => SLASH :: s) (y :: l2)).
        cbn [concat app]. by rewrite Hr.
  - intros [->|[[r ->]|[[l ->]|(l & r & ->)]]].
    + rewrite split_slash_single by done. by left.
    + rewrite split_slash_app by done. by left.
    + rewrite split_slash_join, (split_slash_single x) by done. set_solver.
    + rewrite split_slash_join, (split_slash_app x) by done. set_solver.
Qed.

Lemma char_at_end l x i :
  (i < length x)%nat -> char_at (l ++ x) (length (l ++ x) - length x + i) = char_at x i.
Proof.
  intros Hi. unfold char_at. rewrite length_app, lookup_app_r by lia. do 2 f_equal. lia.
Qed.

Lemma ends_with_slash x p :
  (length x < length p)%nat ->
  (exists l, p = l ++ SLASH :: x) <->
  char_at p (length p - length x - 1) = SLASH /\ drop (length p - length x) p = x.
Proof.
  intros Hl. split.
  - intros [l ->]. rewrite length_app. cbn [length].
    replace (length l + S (length x) - length x - 1)%nat with (length l) by lia.
    split.
    + unfold char_at. rewrite lookup_app_r, Nat.sub_diag by lia. done.
    + rewrite drop_app_ge by lia. by replace (length l + S (length x) - length x - length l)%nat with 1%nat by lia.
  - intros [H1 H2]. exists (take (length p - length x - 1) p).
    unfold char_at in H1. destruct (lookup_lt_is_Some_2 p (length p - length x - 1)) as [c Hc]; [lia|].
    rewrite Hc in H1. simpl in H1. unfold id in H1. subst c.
    rewrite <- H2 at 2. rewrite <- (take_drop (length p - length x - 1) p) at 1. f_equal.
    erewrite (drop_S _ _ (length p - length x - 1)) by done. f_equal. f_equal. lia.
Qed.


Lemma bool_iff (b1 b2 : bool) : (b1 = true <-> b2 = true) -> b1 = b2.
Proof. destruct b1, b2; intuition congruence. Qed.

(** The test finds the segment [..] anywhere in the path. *)
Lemma backpath_present_spec p :
  c_string p -> svn_path_is_backpath_present p = true <-> [DOT; DOT] ∈ split_slash p.
Proof.
  intros Hp. rewrite elem_of_split_slash by (by intros [? [? ?%elem_of_nil]%elem_of_cons]%elem_of_cons || set_solver).
  unfold svn_path_is_backpath_present.
  destruct p as [|a [|b [|c r]]].
  - split; [done|]. intros [?|[[? ?]|[[l ?]|(l & ? & ?)]]]; try done; by destruct l.
  - split; [|intros [?|[[? ?]|[[l ?]|(l & ? & ?)]]]; try done; destruct l as [|? [|]]; done].
    change (char_at [a] 1) with 0. by rewrite orb_true_r.
  - apply Forall_cons in Hp as [Ha Hp]. apply Forall_cons in Hp as [Hb _].
    change (char_at [a; b] 0) with a. change (char_at [a; b] 1) with b.
    change (char_at [a; b] 2) with 0.
    destruct (Z.eqb_spec a 0); [lia|]. destruct (Z.eqb_spec b 0); [lia|]. cbn [orb].
    split.
    + destruct (Z.eqb_spec a DOT) as [->|], (Z.eqb_spec b DOT) as [->|]; cbn [andb];
        try done. by left.
    + intros [?|[[? ?]|[[l ?]|(l & ? & ?)]]].
      * simplify_eq. done.
      * done.
      * destruct l as [|? [|? [|]]]; done.
      * destruct l as [|? [|? [|]]]; done.
  - apply Forall_cons in Hp as [Ha Hp]. apply Forall_cons in Hp as [Hb Hp].
    apply Forall_cons in Hp as [Hc Hp].
    set (p := a :: b :: c :: r).
    assert (Hend : (exists l, p = l ++ SLASH :: [DOT; DOT]) <->
      (char_at p (length p - 3) =? SLASH) && (char_at p (length p - 2) =? DOT)
       && (char_at p (length p - 1) =? DOT) = true).
    { rewrite ends_with_slash by (unfold p; simpl; lia).
      replace (length p - length [DOT; DOT] - 1)%nat with (length p - 3)%nat by (simpl; lia).
      rewrite !andb_true_iff, !Z.eqb_eq.
      change (length [DOT; DOT]) with 2%nat.
      assert (drop (length p - 2) p = [DOT; DOT] <->
        char_at p (length p - 2) = DOT /\ char_at p (length p - 1) = DOT); [|tauto].
      split.
      - intros Hd. unfold char_at.
        assert (forall i, (i < 2)%nat -> p !! (length p - 2 + i)%nat = [DOT; DOT] !! i) as Hi.
        { intros i Hi. by rewrite <- Hd, lookup_drop. }
        rewrite <- (Nat.add_0_r (length p - 2)), (Hi 0%nat) by lia.
        replace (length p - 1)%nat with (length p - 2 + 1)%nat by (unfold p; simpl; lia).
        rewrite (Hi 1%nat) by lia. done.
      - intros [H1 H2]. unfold char_at in H1, H2.
        destruct (lookup_lt_is_Some_2 p (length p - 2)) as [x Hx]; [unfold p; simpl; lia|].
        destruct (lookup_lt_is_Some_2 p (length p - 1)) as [y Hy]; [unfold p; simpl; lia|].
        rewrite Hx in H1. rewrite Hy in H2. simpl in H1, H2. unfold id in *. subst x y.
        rewrite (drop_S _ DOT) by done.
        replace (S (length p - 2)) with (length p - 1)%nat by (unfold p; simpl; lia).
        rewrite (drop_S _ DOT) by done. do 2 f_equal. apply drop_ge. lia. }
    change (char_at p 0) with a. change (char_at p 1) with b. change (char_at p 2) with c.
    destruct (Z.eqb_spec a 0); [lia|]. destruct (Z.eqb_spec b 0); [lia|].
    destruct (Z.eqb_spec c 0); [lia|]. cbn [orb]. cbn zeta.
    destruct ((a =? DOT) && (b =? DOT) && (c =? SLASH)) eqn:E.
    { split; [|done]. intros _. right. left. reflect_bools. subst. by exists r. }
    assert (Hno : ~ exists r', p = [DOT; DOT] ++ SLASH :: r').
    { intros [r' Hr']. unfold p in Hr'. simplify_eq/=. }
    assert (Hno' : p <> [DOT; DOT]) by done.
    pose proof (strstr_spec p [SLASH; DOT; DOT; SLASH]) as Hstr.
    destruct (strstr p [SLASH; DOT; DOT; SLASH]).
    + split; [|done]. intros _. right. right. right.
      destruct (proj1 Hstr eq_refl) as (l & r' & ->). by exists l, r'.
    + rewrite <- Hend. split; [tauto|]. intros [?|[?|[?|(l & r' & ?)]]]; try tauto.
      exfalso. assert (false = true); [|done]. apply Hstr. by exists l, r'.
Qed.
