(* ===== verification/PathTheorems.v ===== *)
(** * The properties of paths

    The theorems on [Paths] and [PathLib], each with an instance at concrete
    paths. *)

From S2P Require Import Prelude Paths PathFacts PathLib PathLibFacts.

(** ** Canonical relpaths *)

(** C36: canonicalizing a relpath keeps, in order, its segments that are
    neither empty nor a dot; the result passes the test for canonical form and
    is its own canonical form. *)
Theorem relpath_canonicalize_segments p :
  c_string p -> exists q,
    svn_relpath_canonicalize p = Some q /\
    segments q = filter good (split_slash p) /\
    svn_relpath_is_canonical q = true /\
    svn_relpath_canonicalize_safe p = Ok q /\
    svn_relpath_canonicalize q = Some q.
Proof.
  intros Hp. set (q := join_slash (filter good (split_slash p))).
  assert (Hq : c_string q) by by apply filter_split_c_string.
  assert (Hc : rel_canonical q) by apply canonical_filter.
  assert (Hic : relpath_is_canonical q = true) by by apply relpath_is_canonical_spec.
  exists q. split_and!.
  - by apply relpath_canonicalize_spec.
  - destruct (filter_split_good p). by apply segments_join.
  - done.
  - unfold svn_relpath_canonicalize_safe. rewrite relpath_canonicalize_spec by done.
    fold q. unfold svn_relpath_is_canonical. by rewrite Hic.
  - rewrite relpath_canonicalize_spec by done. f_equal. by apply canonical_fixed.
Qed.

Lemma relpath_canonicalize_segments_witness : exists q,
  svn_relpath_canonicalize (cstr "a//./b/") = Some q /\
  segments q = filter good (split_slash (cstr "a//./b/")) /\
  svn_relpath_is_canonical q = true /\
  svn_relpath_canonicalize_safe (cstr "a//./b/") = Ok q /\
  svn_relpath_canonicalize q = Some q.
Proof. apply relpath_canonicalize_segments. by_evaluation. Defined.

(** The hand-written test [relpath_is_canonical] decides the
    specification: no segment of the path is empty or a dot. *)
Theorem relpath_is_canonical_iff p :
  c_string p -> relpath_is_canonical p = true <-> Forall good (segments p).
Proof. apply relpath_is_canonical_spec. Qed.

Lemma relpath_is_canonical_iff_witness :
  relpath_is_canonical (cstr "a/.b/c") = true <-> Forall good (segments (cstr "a/.b/c")).
Proof. apply relpath_is_canonical_iff. by_evaluation. Defined.

(** Canonicalizing a dirent keeps the leading slash and canonicalizes the
    rest; the result passes the test of [svn_dirent_is_canonical]. *)
Theorem dirent_canonicalize_canonical p :
  c_string p -> exists q,
    svn_dirent_canonicalize_safe p = Ok q /\
    (deref p = SLASH -> exists r, q = SLASH :: r /\
       segments r = filter good (split_slash (tail p))) /\
    (deref p <> SLASH -> segments q = filter good (split_slash p)) /\
    svn_dirent_canonicalize q = Some q.
Proof.
  intros Hp. unfold svn_dirent_canonicalize_safe. rewrite dirent_canonicalize_spec by done.
  destruct (Z.eqb_spec (deref p) SLASH) as [Hs|Hs].
  - set (r := join_slash (filter good (split_slash (tail p)))).
    assert (Ht : c_string (tail p)) by (destruct Hp; [constructor|done]).
    assert (Hr : c_string r) by by apply filter_split_c_string.
    assert (Hc : rel_canonical r) by apply canonical_filter.
    assert (Hic : relpath_is_canonical r = true) by by apply relpath_is_canonical_spec.
    exists (SLASH :: r). unfold svn_dirent_is_canonical.
    change (deref (SLASH :: r) =? SLASH) with true. cbn [tail]. rewrite Hic.
    split_and!; [done| |done|].
    + intros _. exists r. split; [done|]. destruct (filter_split_good (tail p)).
      by apply segments_join.
    + rewrite dirent_canonicalize_spec by by constructor.
      change (deref (SLASH :: r) =? SLASH) with true. cbn [tail]. do 2 f_equal.
      by apply canonical_fixed.
  - set (q := join_slash (filter good (split_slash p))).
    assert (Hq : c_string q) by by apply filter_split_c_string.
    assert (Hc : rel_canonical q) by apply canonical_filter.
    assert (Hic : relpath_is_canonical q = true) by by apply relpath_is_canonical_spec.
    assert (Hhead : deref q =? SLASH = false).
    { apply Z.eqb_neq. intros Hh. destruct q as [|c q']; [done|].
      assert (c = SLASH) as -> by done. by eapply rel_canonical_head. }
    exists q. unfold svn_dirent_is_canonical. rewrite Hhead, Hic.
    split_and!; [done|done| |].
    + intros _. destruct (filter_split_good p). by apply segments_join.
    + rewrite dirent_canonicalize_spec by done. rewrite Hhead. f_equal. by apply canonical_fixed.
Qed.

Lemma dirent_canonicalize_canonical_witness : exists q,
  svn_dirent_canonicalize_safe (cstr "/usr/./lib//") = Ok q /\
  (deref (cstr "/usr/./lib//") = SLASH -> exists r, q = SLASH :: r /\
     segments r = filter good (split_slash (tail (cstr "/usr/./lib//")))) /\
  (deref (cstr "/usr/./lib//") <> SLASH ->
     segments q = filter good (split_slash (cstr "/usr/./lib//"))) /\
  svn_dirent_canonicalize q = Some q.
Proof. apply dirent_canonicalize_canonical. by_evaluation. Defined.

(** ** Joining and splitting *)

(** A canonical relpath is split into a canonical directory and a last
    segment without a slash, and joining the two gives it back. *)
Theorem relpath_split_join p :
  c_string p -> relpath_is_canonical p = true -> exists d b,
    svn_relpath_split p = Ok (d, b) /\
    relpath_is_canonical d = true /\ SLASH ∉ b /\
    svn_relpath_join d b = Ok p.
Proof.
  intros Hs Hc. unfold svn_relpath_split.
  destruct (relpath_dirname_basename p Hc) as [(Hn & -> & ->)|(d & b & -> & Hb & -> & ->)];
    cbn [mbind result_bind].
  - exists [], p. split_and!; [done|done|done|]. by rewrite relpath_join_eq.
  - exists d, b. assert (Hcan := Hc). apply relpath_is_canonical_spec in Hcan; [|done].
    apply c_string_app in Hs as [Hsd Hsb]. apply Forall_cons in Hsb as [_ Hsb].
    assert (Hne : d <> []) by (intros ->; by eapply rel_canonical_head).
    assert (Hcd : rel_canonical d).
    { eapply rel_ancestor_canonical; [exact Hcan|]. right. right. by eexists. }
    assert (Hnb : b <> []).
    { intros ->. unfold rel_canonical, segments in Hcan.
      rewrite decide_False in Hcan by (by destruct d).
      rewrite split_slash_join in Hcan. apply Forall_app in Hcan as [_ Hcan].
      apply Forall_cons in Hcan as [[] _]. done. }
    apply rel_canonical_app in Hcan as [_ Hcb]; [|done|done].
    assert (relpath_is_canonical d = true) by by apply relpath_is_canonical_spec.
    assert (relpath_is_canonical b = true) by by apply relpath_is_canonical_spec.
    split_and!; [done|done|done|]. rewrite relpath_join_eq by done. by rewrite !decide_False.
Qed.

Lemma relpath_split_join_witness : exists d b,
  svn_relpath_split (cstr "trunk/src/main.c") = Ok (d, b) /\
  relpath_is_canonical d = true /\ SLASH ∉ b /\
  svn_relpath_join d b = Ok (cstr "trunk/src/main.c").
Proof. apply relpath_split_join; [by_evaluation|reflexivity]. Defined.

(** Joining canonical relpaths concatenates their segments, and
    [svn_relpath_skip_ancestor] is its inverse: it returns [r] exactly when
    [r] is the canonical relpath that joins the parent to the child. *)
Theorem relpath_join_skip parent child :
  c_string parent -> c_string child ->
  relpath_is_canonical parent = true -> relpath_is_canonical child = true ->
  (exists p, svn_relpath_join parent child = Ok p /\ relpath_is_canonical p = true /\
     segments p = segments parent ++ segments child) /\
  (forall r, svn_relpath_skip_ancestor parent child = Ok (Some r) <->
     relpath_is_canonical r = true /\ svn_relpath_join parent r = Ok child).
Proof.
  intros Hsp Hsc Hp Hc. split.
  - rewrite relpath_join_eq by done. eexists. split; [done|].
    destruct (relpath_join_canonical parent child) as (Hs & Hr & Hseg); try done;
      [by apply relpath_is_canonical_spec..|].
    split; [by apply relpath_is_canonical_spec|done].
  - intros r. by apply relpath_skip_ancestor_spec.
Qed.

Lemma relpath_join_skip_witness :
  (exists p, svn_relpath_join (cstr "a/b") (cstr "a/b/c") = Ok p /\ relpath_is_canonical p = true /\
     segments p = segments (cstr "a/b") ++ segments (cstr "a/b/c")) /\
  (forall r, svn_relpath_skip_ancestor (cstr "a/b") (cstr "a/b/c") = Ok (Some r) <->
     relpath_is_canonical r = true /\ svn_relpath_join (cstr "a/b") r = Ok (cstr "a/b/c")).
Proof. apply relpath_join_skip; [by_evaluation|by_evaluation|reflexivity|reflexivity]. Defined.

(** [svn_relpath_get_longest_ancestor] returns the greatest common
    ancestor: an ancestor of both paths that every common ancestor is an
    ancestor of. *)
Theorem relpath_longest_ancestor_greatest p1 p2 :
  c_string p1 -> c_string p2 ->
  relpath_is_canonical p1 = true -> relpath_is_canonical p2 = true -> exists a,
    svn_relpath_get_longest_ancestor p1 p2 = Ok a /\
    rel_ancestor a p1 /\ rel_ancestor a p2 /\
    forall a', rel_ancestor a' p1 -> rel_ancestor a' p2 -> rel_ancestor a' a.
Proof. apply relpath_longest_ancestor_spec. Qed.

Lemma relpath_longest_ancestor_greatest_witness : exists a,
  svn_relpath_get_longest_ancestor (cstr "a/bc/d") (cstr "a/bcd") = Ok a /\
  rel_ancestor a (cstr "a/bc/d") /\ rel_ancestor a (cstr "a/bcd") /\
  forall a', rel_ancestor a' (cstr "a/bc/d") -> rel_ancestor a' (cstr "a/bcd") -> rel_ancestor a' a.
Proof. apply relpath_longest_ancestor_greatest; [by_evaluation|by_evaluation|reflexivity|reflexivity]. Defined.

(** ** The path library *)

(** [svn_path_compare_paths] is a total order in which a path is followed
    by its children before the siblings that extend its name: its result is
    zero for equal paths only, changes its sign when the arguments are
    swapped, and is transitive. *)
Theorem compare_paths_order p1 p2 p3 :
  c_string p1 -> c_string p2 -> c_string p3 ->
  is_canonical p1 (length p1) = true -> is_canonical p2 (length p2) = true ->
  is_canonical p3 (length p3) = true -> exists c12 c21 c23 c13,
    svn_path_compare_paths p1 p2 = Ok c12 /\ svn_path_compare_paths p2 p1 = Ok c21 /\
    svn_path_compare_paths p2 p3 = Ok c23 /\ svn_path_compare_paths p1 p3 = Ok c13 /\
    (c12 = 0 <-> p1 = p2) /\ c21 = - c12 /\ (c12 <= 0 -> c23 <= 0 -> c13 <= 0) /\
    (forall c r x, 0 < x < 256 -> x <> SLASH ->
       compare_loop p1 (p1 ++ SLASH :: c) = -1 /\
       compare_loop (p1 ++ SLASH :: c) (p1 ++ x :: r) = -1).
Proof.
  intros H1 H2 H3 Hc1 Hc2 Hc3. unfold svn_path_compare_paths. rewrite Hc1, Hc2, Hc3.
  cbn [c_assert mbind result_bind]. do 4 eexists. do 4 (split; [reflexivity|]). split_and!.
  - by apply compare_loop_eq.
  - by apply compare_loop_antisym.
  - by apply compare_loop_trans.
  - intros c r x Hx Hne. split.
    + rewrite <- (app_nil_r p1) at 1. by rewrite compare_loop_app.
    + rewrite compare_loop_app. cbn [compare_loop]. destruct (Z.eqb_spec SLASH x); [congruence|].
      unfold compare_chars. rewrite Z.eqb_refl.
      destruct (Z.eqb_spec x 0); [lia|]. cbn [andb]. by rewrite andb_false_r.
Qed.

Lemma compare_paths_order_witness : exists c12 c21 c23 c13,
  svn_path_compare_paths (cstr "a") (cstr "a/b") = Ok c12 /\
  svn_path_compare_paths (cstr "a/b") (cstr "a") = Ok c21 /\
  svn_path_compare_paths (cstr "a/b") (cstr "a.c") = Ok c23 /\
  svn_path_compare_paths (cstr "a") (cstr "a.c") = Ok c13 /\
  (c12 = 0 <-> cstr "a" = cstr "a/b") /\ c21 = - c12 /\ (c12 <= 0 -> c23 <= 0 -> c13 <= 0) /\
  (forall c r x, 0 < x < 256 -> x <> SLASH ->
     compare_loop (cstr "a") (cstr "a" ++ SLASH :: c) = -1 /\
     compare_loop (cstr "a" ++ SLASH :: c) (cstr "a" ++ x :: r) = -1).
Proof. apply compare_paths_order; [by_evaluation..|reflexivity|reflexivity|reflexivity]. Defined.

(** URI encoding escapes every character outside the table, its result is
    safe within a URI, and decoding gives the path back. *)
Theorem uri_encode_decode p :
  c_string p ->
  svn_path_uri_decode (svn_path_uri_encode p) = p /\
  uri_safe_loop (svn_path_uri_encode p) = true.
Proof.
  intros Hp. assert (Hb : Forall (fun c => 0 <= c < 256) p).
  { eapply Forall_impl; [exact Hp|]. simpl. lia. }
  split; [by apply decode_encode|by apply uri_safe_encoded].
Qed.

Lemma uri_encode_decode_witness :
  svn_path_uri_decode (svn_path_uri_encode (cstr "a b/100%?#+")) = cstr "a b/100%?#+" /\
  uri_safe_loop (svn_path_uri_encode (cstr "a b/100%?#+")) = true.
Proof. apply uri_encode_decode. by_evaluation. Defined.

(** Composing the components of a canonical path - relative or absolute -
    gives the path back, and the components of a relpath are its segments. *)
Theorem decompose_compose p :
  c_string p -> rel_canonical p ->
  svn_path_decompose p = segments p /\
  svn_path_compose (svn_path_decompose p) = p /\
  svn_path_compose (svn_path_decompose (SLASH :: p)) = SLASH :: p /\
  component_count_loop p false 0 = length (svn_path_decompose p).
Proof.
  intros Hs Hc. rewrite decompose_rel, decompose_abs by done. split_and!; [done| | |].
  - rewrite compose_rel by by apply segments_head. apply join_segments.
  - by rewrite compose_abs, join_segments.
  - by apply component_count_rel.
Qed.

Lemma decompose_compose_witness :
  svn_path_decompose (cstr "a/b.c/d") = segments (cstr "a/b.c/d") /\
  svn_path_compose (svn_path_decompose (cstr "a/b.c/d")) = cstr "a/b.c/d" /\
  svn_path_compose (svn_path_decompose (SLASH :: cstr "a/b.c/d")) = SLASH :: cstr "a/b.c/d" /\
  component_count_loop (cstr "a/b.c/d") false 0 = length (svn_path_decompose (cstr "a/b.c/d")).
Proof. apply decompose_compose; [by_evaluation|unfold rel_canonical; by_evaluation]. Defined.

(** [svn_path_is_backpath_present] finds the segment [..] wherever it
    stands in the path, and nothing else. *)
Theorem backpath_present_iff p :
  c_string p -> svn_path_is_backpath_present p = true <-> [DOT; DOT] ∈ split_slash p.
Proof. apply backpath_present_spec. Qed.

Lemma backpath_present_iff_witness :
  svn_path_is_backpath_present (cstr "a/..") = true <-> [DOT; DOT] ∈ split_slash (cstr "a/..").
Proof. apply backpath_present_iff. by_evaluation. Defined.

(** ** Joining many components *)

(** C37: the two passes of [svn_dirent_join_many] compute what repeated calls
    of [svn_dirent_join] do, for up to nine components that are not empty, with
    one exception: a single component of one character behind an empty base
    becomes the root.  From ten components on, a length is stored behind the
    end of the array of ten. *)
Theorem join_many_join_each base args :
  dirent_ok base -> Forall dirent_ok args ->
  let components := filter (fun s => s <> []) args in
  svn_dirent_join_many base args =
    if (9 <? length components)%nat then Err C_UNDEFINED
    else if bool_decide (base = []) && (length (concat components) =? 1)%nat then Ok [SLASH]
    else join_each base args.
Proof.
  intros Hb Ha components. rewrite join_each_eq by done. by apply join_many_spec.
Qed.

Lemma join_many_join_each_witness :
  svn_dirent_join_many (cstr "/home") [cstr "a"; []; cstr "b/c"; cstr "/opt"; cstr "d"] =
    join_each (cstr "/home") [cstr "a"; []; cstr "b/c"; cstr "/opt"; cstr "d"].
Proof.
  apply (join_many_join_each (cstr "/home") [cstr "a"; []; cstr "b/c"; cstr "/opt"; cstr "d"]);
    [split; [by_evaluation|reflexivity]|].
  repeat apply Forall_cons_2; try apply Forall_nil_2; (split; [by_evaluation|reflexivity]).
Defined.

(** Ten components, none of them empty. *)
Example join_many_ten :
  svn_dirent_join_many (cstr "/") (replicate 10 (cstr "x")) = Err C_UNDEFINED.
Proof. reflexivity. Qed.

Example join_many_one_character : svn_dirent_join_many [] [cstr "a"] = Ok [SLASH].
Proof. reflexivity. Qed.

(** ** Names in certificates *)

(** [svn_cert__match_dns_identity] matches names up to the case of ASCII
    letters and a dot at the end of the hostname; a wildcard stands for
    exactly one label that is not empty, and only as the first label of the
    pattern. *)
Theorem cert_match_iff pattern hostname :
  svn_cert__match_dns_identity pattern hostname = true <->
    ~ is_wildcard pattern /\ same_name pattern hostname \/
    is_wildcard pattern /\ exists label rest, hostname = label ++ rest /\ label <> [] /\
      DOT ∉ label /\ (rest = [] \/ deref rest = DOT) /\ same_name (tail pattern) rest.
Proof. apply cert_match_spec. Qed.
