(* ===== verification/Hash.v ===== *)
(** * Hash tables keyed by strings (APR, libsvn_subr/hash.c and sorts.c)

    An [apr_hash_t] is a finite map.  The order in which APR iterates over a
    table depends on a random seed: the operations take it from the class
    [HashOrder], and their theorems hold for every order.  Also
    [svn_hash_diff] and the sorting of the entries of a table by path. *)

From S2P Require Import Prelude Buffers Paths PathFacts PathLib PathLibFacts.

(** ** Iteration *)

(** What APR promises: every entry is visited once. *)
Class HashOrder := {
  hash_items {A : Type} : gmap bytes A -> list (bytes * A);
  hash_items_perm {A : Type} (m : gmap bytes A) : hash_items m ≡ₚ map_to_list m
}.

(** One order, to evaluate examples with. *)
Definition map_order : HashOrder :=
  {| hash_items A m := map_to_list m; hash_items_perm A m := Permutation_refl _ |}.

(** [for (hi = apr_hash_first (pool, ht); hi; hi = apr_hash_next (hi))], the
    body being able to fail. *)
Fixpoint for_each {A S : Type} (f : bytes -> A -> S -> result S) (items : list (bytes * A))
    (s : S) : result S :=
  match items with
  | [] => Ok s
  | (key, val) :: items => s ← f key val s; for_each f items s
  end.

(** ** [svn_hash_diff] *)

Inductive svn_hash_diff_key_status :=
  | svn_hash_diff_key_both
  | svn_hash_diff_key_a
  | svn_hash_diff_key_b.

Section Operations.
Context `{HO : HashOrder}.

(** The state of the callback's baton is passed on; a missing table is the
    empty one. *)
Definition svn_hash_diff {A B S : Type} (hash_a : gmap bytes A) (hash_b : gmap bytes B)
    (diff_func : bytes -> svn_hash_diff_key_status -> S -> result S) (baton : S) : result S :=
  baton ← for_each (fun key _ baton =>
      match hash_b !! key with
      | Some _ => diff_func key svn_hash_diff_key_both baton
      | None => diff_func key svn_hash_diff_key_a baton
      end) (hash_items hash_a) baton;
  for_each (fun key _ baton =>
      match hash_a !! key with
      | Some _ => Ok baton
      | None => diff_func key svn_hash_diff_key_b baton
      end) (hash_items hash_b) baton.

(** ** [svn_sort__hash]

    The keys in the array, which is sorted if the iteration has not visited
    them in order. *)

Section Sort.
Context {A : Type} (comparison_func : bytes -> bytes -> Z).

Definition item_le (a b : bytes * A) : Prop := comparison_func a.1 b.1 <= 0.

#[export] Instance item_le_dec : RelDecision item_le.
Proof. unfold RelDecision, item_le. intros. apply _. Defined.

Fixpoint items_sorted (ary : list (bytes * A)) : bool :=
  match ary with
  | prev_item :: ((item :: _) as rest) =>
      if comparison_func prev_item.1 item.1 <? 0 then items_sorted rest else false
  | _ => true
  end.

Definition sort_items (ary : list (bytes * A)) : list (bytes * A) :=
  if items_sorted ary then ary else merge_sort item_le ary.
End Sort.

(** With [svn_sort_compare_items_as_paths]: every key takes part in a
    comparison, and so in its assertion, unless there is only one. *)
Definition svn_sort__hash {A : Type} (ht : gmap bytes A) : result (list (bytes * A)) :=
  let ary := hash_items ht in
  c_assert ((length ary <? 2)%nat
            || forallb (fun item => is_canonical item.1 (length item.1)) ary);;
  Ok (sort_items compare_loop ary).

Definition svn_sort_compare_items_lexically (a b : bytes) : Z :=
  let len := Nat.min (length a) (length b) in
  let val := memcmp (take len a) (take len b) in
  if negb (val =? 0) then val
  else if (length a <? length b)%nat then -1 else if (length b <? length a)%nat then 1 else 0.

Definition svn_sort__hash_lexically {A : Type} (ht : gmap bytes A) : list (bytes * A) :=
  sort_items svn_sort_compare_items_lexically (hash_items ht).
End Operations.

(** * Lemmas *)

Section Facts.
Context `{HO : HashOrder}.

Lemma hash_items_elem {A} (m : gmap bytes A) k v : (k, v) ∈ hash_items m <-> m !! k = Some v.
Proof. rewrite hash_items_perm. apply elem_of_map_to_list. Qed.

Lemma hash_items_NoDup {A} (m : gmap bytes A) : NoDup (hash_items m).*1.
Proof. rewrite hash_items_perm. apply NoDup_fst_map_to_list. Qed.

(** An iteration whose body only changes the part of the state that belongs
    to the key it visits: every key is updated once, from its first value. *)
Lemma for_each_get_list {A S X} (f : bytes -> A -> S -> result S) (get : S -> bytes -> X)
    (F : bytes -> A -> X -> X) (I : S -> Prop) (items : list (bytes * A)) (s : S) :
  NoDup items.*1 -> I s ->
  (forall k v s', (k, v) ∈ items -> I s' -> get s' k = get s k -> exists s'',
     f k v s' = Ok s'' /\ I s'' /\ get s'' k = F k v (get s' k) /\
     forall k', k' <> k -> get s'' k' = get s' k') ->
  exists s', for_each f items s = Ok s' /\ I s' /\
    (forall k v, (k, v) ∈ items -> get s' k = F k v (get s k)) /\
    (forall k, k ∉ items.*1 -> get s' k = get s k).
Proof.
  revert s. induction items as [|[k0 v0] items IH]; intros s Hnd HI Hf; cbn [for_each].
  { exists s. split_and!; try done. intros k v H. by apply elem_of_nil in H. }
  apply NoDup_cons in Hnd as [Hk0 Hnd]. cbn [fst] in Hk0.
  destruct (Hf k0 v0 s) as (s1 & -> & HI1 & Hget1 & Hne1); [left|done|done|].
  cbn [mbind result_bind].
  assert (Hfresh : forall k v, (k, v) ∈ items -> k <> k0).
  { intros k v Hkv ->. apply Hk0. apply list_elem_of_fmap. by exists (k0, v). }
  destruct (IH s1 Hnd HI1) as (s' & -> & HI' & Hin & Hout).
  { intros k v s' Hkv HIs' Hg. apply Hf; [by right|done|].
    rewrite Hg. apply Hne1. by eapply Hfresh. }
  exists s'. split_and!; [done|done| |].
  - intros k v [Heq|Hv]%elem_of_cons.
    + simplify_eq. by rewrite Hout, Hget1.
    + rewrite (Hin k v Hv), Hne1 by (by eapply Hfresh). done.
  - intros k [Hk Hn]%not_elem_of_cons. rewrite Hout by done. by apply Hne1.
Qed.

Lemma for_each_get {A S X} (f : bytes -> A -> S -> result S) (get : S -> bytes -> X)
    (F : bytes -> A -> X -> X) (I : S -> Prop) (m : gmap bytes A) (s : S) :
  I s ->
  (forall k v s', m !! k = Some v -> I s' -> get s' k = get s k -> exists s'',
     f k v s' = Ok s'' /\ I s'' /\ get s'' k = F k v (get s' k) /\
     forall k', k' <> k -> get s'' k' = get s' k') ->
  exists s', for_each f (hash_items m) s = Ok s' /\ I s' /\
    forall k, get s' k = match m !! k with Some v => F k v (get s k) | None => get s k end.
Proof.
  intros HI Hf. destruct (for_each_get_list f get F I (hash_items m) s) as (s' & Heq & HI' & Hin & Hout).
  - apply hash_items_NoDup.
  - done.
  - intros k v s' Hkv. apply Hf. by apply hash_items_elem.
  - exists s'. split_and!; [done|done|]. intros k. destruct (m !! k) as [v|] eqn:Hk.
    + apply Hin. by apply hash_items_elem.
    + apply Hout. intros ([k' v'] & -> & Hkv)%list_elem_of_fmap.
      apply hash_items_elem in Hkv. simpl in *. congruence.
Qed.

(** An iteration that stores at most one value for every key it visits. *)
Lemma for_each_collect {A B} (g : bytes -> A -> result (option B))
    (h : bytes -> A -> option B) (m : gmap bytes A) :
  (forall k v, m !! k = Some v -> g k v = Ok (h k v)) -> exists acc' : gmap bytes B,
    for_each (fun k v acc => r ← g k v;
                Ok (match r with Some x => <[k := x]> acc | None => acc end)) (hash_items m) ∅ = Ok acc' /\
    forall k, acc' !! k = m !! k ≫= h k.
Proof.
  intros Hg.
  destruct (for_each_get (fun k v acc => r ← g k v;
      Ok (match r with Some x => <[k := x]> acc | None => acc end))
    (fun (acc : gmap bytes B) k => acc !! k) (fun k v x => match h k v with Some y => Some y | None => x end)
    (fun _ => True) m ∅) as (acc' & Heq & _ & Hacc); [done| |].
  - intros k v acc Hk _ _. rewrite (Hg k v Hk). cbn [mbind result_bind]. eexists. split; [done|].
    split; [done|]. destruct (h k v).
    + split; [by rewrite lookup_insert_eq|]. intros k' Hne. by rewrite lookup_insert_ne.
    + done.
  - exists acc'. split; [done|]. intros k. rewrite Hacc, lookup_empty.
    destruct (m !! k) as [v|]; [|done]. simpl. by destruct (h k v).
Qed.

Lemma sort_items_Permutation {A} compare (l : list (bytes * A)) : sort_items compare l ≡ₚ l.
Proof. unfold sort_items. destruct (items_sorted _ _); [done|]. apply merge_sort_Permutation. Qed.

Lemma svn_sort__hash_Permutation {A} (ht : gmap bytes A) l :
  svn_sort__hash ht = Ok l -> l ≡ₚ map_to_list ht.
Proof.
  unfold svn_sort__hash. destruct (c_assert _) as [[]|]; [|done]. simpl. intros. simplify_eq.
  rewrite <- hash_items_perm. apply sort_items_Permutation.
Qed.
End Facts.

(** ** The lexical order *)

#[local] Notation lex := svn_sort_compare_items_lexically.

Lemma lex_nil_l b : lex [] b = match b with [] => 0 | _ => -1 end.
Proof. by destruct b. Qed.

Lemma lex_nil_r a : lex a [] = match a with [] => 0 | _ => 1 end.
Proof. by destruct a. Qed.

Lemma lex_cons x a y b : lex (x :: a) (y :: b) = if x =? y then lex a b else if x <? y then -1 else 1.
Proof.
  unfold svn_sort_compare_items_lexically. cbn [length Nat.min take memcmp].
  destruct (Z.eqb_spec x y); [done|]. by destruct (x <? y).
Qed.

Lemma lex_antisym a b : lex a b <= 0 -> lex b a <= 0 -> a = b.
Proof.
  revert b. induction a as [|x a IH]; intros [|y b]; rewrite ?lex_nil_l, ?lex_nil_r, ?lex_cons; try done.
  destruct (Z.eqb_spec x y) as [->|Hne].
  - rewrite Z.eqb_refl. intros. f_equal. by apply IH.
  - rewrite (proj2 (Z.eqb_neq y x)) by done.
    destruct (Z.ltb_spec x y), (Z.ltb_spec y x); lia.
Qed.

Lemma lex_trans a b c : lex a b <= 0 -> lex b c <= 0 -> lex a c <= 0.
Proof.
  revert b c. induction a as [|x a IH]; intros [|y b] [|z c];
    rewrite ?lex_nil_l, ?lex_nil_r, ?lex_cons; try done.
  destruct (Z.eqb_spec x y), (Z.eqb_spec y z), (Z.eqb_spec x z); subst; try done; [eauto|..];
    repeat case_match; reflect_bools; lia.
Qed.

Lemma lex_total a b : lex a b <= 0 \/ lex b a <= 0.
Proof.
  revert b. induction a as [|x a IH]; intros [|y b]; rewrite ?lex_nil_l, ?lex_nil_r, ?lex_cons; try lia.
  rewrite (Z.eqb_sym y x). destruct (Z.eqb_spec x y); [apply IH|].
  destruct (Z.ltb_spec x y), (Z.ltb_spec y x); lia.
Qed.

Lemma strcmp_lex a : forall b, strcmp a b = lex a b.
Proof.
  induction a as [|x a IH]; intros [|y b]; rewrite ?lex_nil_l, ?lex_nil_r; try done.
  by rewrite lex_cons, <- IH.
Qed.

#[export] Instance item_le_trans {A} : Transitive (@item_le A lex).
Proof. intros [? ?] [? ?] [? ?]. apply lex_trans. Qed.

#[export] Instance item_le_total {A} : Total (@item_le A lex).
Proof. intros [? ?] [? ?]. apply lex_total. Qed.

Lemma items_sorted_le {A} (l : list (bytes * A)) : items_sorted lex l = true -> Sorted (item_le lex) l.
Proof.
  induction l as [|a l IH]; [constructor|]. destruct l as [|b l]; [repeat constructor|].
  cbn [items_sorted]. destruct (Z.ltb_spec (lex a.1 b.1) 0); [|done].
  intros Hs. constructor; [by apply IH|]. constructor. unfold item_le. lia.
Qed.

Lemma sort_items_sorted {A} (l : list (bytes * A)) : StronglySorted (item_le lex) (sort_items lex l).
Proof.
  unfold sort_items. destruct (items_sorted lex l) eqn:E.
  - apply Sorted_StronglySorted; [apply _|by apply items_sorted_le].
  - apply StronglySorted_merge_sort; apply _.
Qed.

(** The sorted array has every entry of the table, and it is the same for
    every order of iteration. *)
Lemma sort_hash_Permutation `{HO : HashOrder} {A} (ht : gmap bytes A) :
  svn_sort__hash_lexically ht ≡ₚ map_to_list ht.
Proof. unfold svn_sort__hash_lexically. by rewrite sort_items_Permutation, hash_items_perm. Qed.

Lemma sort_hash_unique {A} (HO1 HO2 : HashOrder) (ht : gmap bytes A) :
  @svn_sort__hash_lexically HO1 A ht = @svn_sort__hash_lexically HO2 A ht.
Proof.
  eapply (StronglySorted_unique_strong (item_le lex)).
  - intros [k1 v1] [k2 v2] H1 H2 Hle Hge. rewrite (sort_hash_Permutation (HO := HO1)), elem_of_map_to_list in H1.
    rewrite (sort_hash_Permutation (HO := HO2)), elem_of_map_to_list in H2.
    assert (k1 = k2) as -> by (by apply lex_antisym). congruence.
  - apply sort_items_sorted.
  - apply sort_items_sorted.
  - by rewrite (sort_hash_Permutation (HO := HO1)), (sort_hash_Permutation (HO := HO2)).
Qed.
