(* ===== verification/HashDump.v ===== *)
(** * Dumps of hash tables (libsvn_subr/hash.c, stream.c, io.c, types.c)

    Writing hash tables whose values are strings to a stream, reading them
    back, incrementally or not, and what else hash.c does with hash tables.  A
    stream, or a file, that is read is the list of the bytes that are left in
    it, one that is written the list of the bytes that have arrived; streams
    have no [readline_fn] of their own.  Memory does not run out. *)

From S2P Require Import Prelude Buffers CString Strings PathLib Hash.

(** ** Reading streams *)

(** [match_] is what is missing of the sequence [eol]. *)
Fixpoint readline_loop (eol match_ stream str : bytes) {struct stream} : bytes * bool * bytes :=
  match match_ with
  | [] => (take (length str - length eol) str, false, stream)
  | m :: match' =>
      match stream with
      | [] => (str, true, [])
      | c :: stream => readline_loop eol (if c =? m then match' else eol) stream (str ++ [c])
      end
  end.

(** The line, whether the stream has run out, and what is left of it. *)
Definition svn_stream_readline (stream eol : bytes) : bytes * bool * bytes :=
  readline_loop eol eol stream [].

(** The bytes that are read, fewer than [len] if the stream runs out. *)
Definition svn_stream_read_full (stream : bytes) (len : Z) : bytes * bytes :=
  (take (Z.to_nat len) stream, drop (Z.to_nat len) stream).

(** Reading one byte into a variable, which keeps its value (nothing, if it
    has not been initialized) when the stream has run out. *)
Definition read_char (c : option Z) (stream : bytes) : option Z * bytes :=
  match stream with
  | x :: stream => (Some x, stream)
  | [] => (c, [])
  end.

(** ** [svn_hash__read_entry] *)

(** A key of [None] is the end of the hash, a value of [None] a deletion. *)
Record svn_hash__entry_t := mk_entry {
  entry_key : option bytes;
  entry_val : option bytes
}.

Definition APR_SIZE_MAX : Z := 2 ^ 64 - 1.

(** [buf->data + 2] as a number; every error is wrapped in one. *)
Definition read_length (buf : bytes) : result Z :=
  match svn_cstring_strtoui64 (c_str (drop 2 buf)) 0 APR_SIZE_MAX 10 with
  | Ok ui64 => Ok ui64
  | Err _ => Err SVN_ERR_MALFORMED_FILE
  end.

(** The data of the given length and the newline behind it; [c] is the
    character that the newline is read into. *)
Definition read_data (len : Z) (c : option Z) (stream : bytes) : result (bytes * option Z * bytes) :=
  let '(data, stream) := svn_stream_read_full stream len in
  let '(c, stream) := read_char c stream in
  match c with
  | None => Err C_UNDEFINED
  | Some x => if negb (x =? LF) then Err SVN_ERR_MALFORMED_FILE else Ok (data, c, stream)
  end.

Definition is_line (kind : Z) (buf : bytes) : bool := (char_at buf 0 =? kind) && (char_at buf 1 =? " "%cc).

(** The end of the hash: the terminator, or the end of the stream. *)
Definition at_end (terminator : option bytes) (buf : bytes) (eof : bool) : bool :=
  match terminator with
  | None => eof && (zlen buf =? 0)
  | Some terminator => bool_decide (c_str buf = terminator)
  end.

Definition svn_hash__read_entry (stream : bytes) (terminator : option bytes) (incremental : bool)
    : result (svn_hash__entry_t * bytes) :=
  let '(buf, eof, stream) := svn_stream_readline stream [LF] in
  if at_end terminator buf eof then Ok (mk_entry None None, stream)
  else if eof : bool then Err SVN_ERR_MALFORMED_FILE
  else if (3 <=? zlen buf) && is_line "K"%cc buf then
    keylen ← read_length buf;
    '(key, c, stream) ← read_data keylen None stream;
    let '(buf, _, stream) := svn_stream_readline stream [LF] in
    if is_line "V"%cc buf then
      vallen ← read_length buf;
      '(val, _, stream) ← read_data vallen c stream;
      Ok (mk_entry (Some key) (Some val), stream)
    else Err SVN_ERR_MALFORMED_FILE
  else if incremental && (3 <=? zlen buf) && is_line "D"%cc buf then
    keylen ← read_length buf;
    '(key, _, stream) ← read_data keylen None stream;
    Ok (mk_entry (Some key) None, stream)
  else Err SVN_ERR_MALFORMED_FILE.

(** Every entry takes at least one byte of the stream. *)
Fixpoint read_loop (fuel : nat) (hash : gmap bytes bytes) (stream : bytes) (terminator : option bytes)
    (incremental : bool) : result (gmap bytes bytes * bytes) :=
  match fuel with
  | O => Err OUT_OF_FUEL
  | S f =>
      '(entry, stream) ← svn_hash__read_entry stream terminator incremental;
      match entry_key entry with
      | None => Ok (hash, stream)
      | Some key =>
          let hash := match entry_val entry with
                      | Some val => <[key := val]> hash
                      | None => delete key hash
                      end in
          read_loop f hash stream terminator incremental
      end
  end.

Definition hash_read (hash : gmap bytes bytes) (stream : bytes) (terminator : option bytes)
    (incremental : bool) : result (gmap bytes bytes * bytes) :=
  read_loop (S (length stream)) hash stream terminator incremental.

Definition svn_hash_read2 (hash : gmap bytes bytes) (stream : bytes) (terminator : option bytes)
    : result (gmap bytes bytes * bytes) :=
  hash_read hash stream terminator false.

Definition svn_hash_read_incremental (hash : gmap bytes bytes) (stream : bytes)
    (terminator : option bytes) : result (gmap bytes bytes * bytes) :=
  hash_read hash stream terminator true.

(** ** Writing *)

(** The formats of [svn_stream_printf]; a key is printed as a C string. *)
Definition key_lines (kind : Z) (len key : bytes) : bytes :=
  kind :: " "%cc :: len ++ [LF] ++ c_str key ++ [LF].

Definition val_line (len : bytes) : bytes := "V"%cc :: " "%cc :: len ++ [LF].

Section Write.
Context `{HO : HashOrder}.

Fixpoint write_entries (items : list (bytes * bytes)) (oldhash : option (gmap bytes bytes))
    (stream : bytes) : bytes :=
  match items with
  | [] => stream
  | (key, valstr) :: items =>
      let equal :=
        match oldhash with
        | Some oldhash =>
            match oldhash !! key with Some oldstr => bool_decide (valstr = oldstr) | None => false end
        | None => false
        end in
      if equal then write_entries items oldhash stream
      else
        let stream := stream ++ key_lines "K"%cc (print_lu (zlen key)) key
                             ++ val_line (print_lu (zlen valstr)) in
        let stream := stream ++ valstr in
        write_entries items oldhash (stream ++ [LF])
  end.

Fixpoint write_deletions (items : list (bytes * bytes)) (hash : gmap bytes bytes) (stream : bytes)
    : bytes :=
  match items with
  | [] => stream
  | (key, _) :: items =>
      write_deletions items hash
        (match hash !! key with
         | None => stream ++ key_lines "D"%cc (print_ld (zlen key)) key
         | Some _ => stream
         end)
  end.

(** Lengths of keys are not negative, so there is no error. *)
Definition hash_write (hash : gmap bytes bytes) (oldhash : option (gmap bytes bytes)) (stream : bytes)
    (terminator : option bytes) : bytes :=
  let stream := write_entries (svn_sort__hash_lexically hash) oldhash stream in
  let stream := match oldhash with
                | Some oldhash => write_deletions (svn_sort__hash_lexically oldhash) hash stream
                | None => stream
                end in
  match terminator with
  | Some terminator => stream ++ terminator ++ [LF]
  | None => stream
  end.

Definition svn_hash_write2 (hash : gmap bytes bytes) (stream : bytes) (terminator : option bytes) : bytes :=
  hash_write hash None stream terminator.

Definition svn_hash_write_incremental (hash : gmap bytes bytes) (oldhash : option (gmap bytes bytes))
    (stream : bytes) (terminator : option bytes) : result bytes :=
  svn_err_assert (match oldhash with Some _ => true | None => false end);;
  Ok (hash_write hash oldhash stream terminator).

Definition SVN_HASH_TERMINATOR : bytes := cstr "END".

Definition svn_hash_write (hash : gmap bytes bytes) (destfile : bytes) : bytes :=
  hash_write hash None destfile (Some SVN_HASH_TERMINATOR).

Definition svn_hash_keys {A : Type} (hash : gmap bytes A) : list bytes := (hash_items hash).*1.
End Write.

(** ** The deprecated [svn_hash_read] *)

(** [svn_io_file_read_full2] without [eof_p]: a short read is an error. *)
Definition svn_io_file_read_full2 (file : bytes) (nbytes : Z) : result (bytes * bytes) :=
  if zlen file <? nbytes then Err APR_EOF else Ok (svn_stream_read_full file nbytes).

Definition svn_io_file_getc (file : bytes) : result (Z * bytes) :=
  match file with c :: file => Ok (c, file) | [] => Err APR_EOF end.

(** The bytes in front of the first newline, if it comes before a NUL. *)
Fixpoint strchr_newline (buf : bytes) : option bytes :=
  match buf with
  | [] => None
  | c :: buf =>
      if c =? LF then Some []
      else if c =? 0 then None
      else match strchr_newline buf with Some line => Some (c :: line) | None => None end
  end.

(** [total] is what the earlier rounds have put into the buffer. *)
Fixpoint read_length_line_loop (fuel : nat) (file total : bytes) (buf_size : Z) : result (bytes * bytes) :=
  match fuel with
  | O => Err OUT_OF_FUEL
  | S f =>
      if 0 <? buf_size then
        let to_read := if buf_size <? 129 then buf_size - 1 else 128 in
        if to_read =? 0 then Err SVN_ERR_MALFORMED_FILE
        else
          let '(buf, file') := svn_stream_read_full file to_read in
          let eof := zlen buf <? to_read in
          match strchr_newline buf with
          | Some line => Ok (total ++ line, drop (S (length line)) file)
          | None =>
              (if eof : bool then '(_, _) ← svn_io_file_getc file'; Ok () else Ok ());;
              read_length_line_loop f file' (total ++ buf) (buf_size - zlen buf)
          end
      else Err SVN_ERR_MALFORMED_FILE
  end.

(** The line without its end, and what is left of the file. *)
Definition svn_io_read_length_line (file : bytes) (limit : Z) : result (bytes * bytes) :=
  read_length_line_loop (S (Z.to_nat limit)) file [] limit.

Definition SVN_KEYLINE_MAXLEN : Z := 100.

(** A number is converted to [size_t]: of -1, nothing is allocated for what
    is read; other negative numbers ask for more memory than there is. *)
Definition file_data (buf file : bytes) : result (bytes * bytes) :=
  parsed_len ← svn_cstring_atoi (c_str (drop 2 buf));
  if parsed_len =? -1 then (if zlen file =? 0 then Err APR_EOF else Err C_UNDEFINED)
  else if parsed_len <? 0 then Err C_ABORT
  else
    '(data, file) ← svn_io_file_read_full2 file parsed_len;
    '(c, file) ← svn_io_file_getc file;
    if negb (c =? LF) then Err SVN_ERR_MALFORMED_FILE else Ok (data, file).

Fixpoint file_loop (fuel : nat) (first_time : bool) (hash : gmap bytes bytes) (srcfile : bytes)
    : result (gmap bytes bytes * bytes) :=
  match fuel with
  | O => Err OUT_OF_FUEL
  | S f =>
      match svn_io_read_length_line srcfile SVN_KEYLINE_MAXLEN with
      | Err err =>
          if bool_decide (err = APR_EOF) && first_time then Ok (hash, []) else Err err
      | Ok (buf, srcfile) =>
          if bool_decide (buf = cstr "END") || bool_decide (buf = cstr "PROPS-END")
          then Ok (hash, srcfile)
          else if is_line "K"%cc buf then
            '(key, srcfile) ← file_data buf srcfile;
            '(buf, srcfile) ← svn_io_read_length_line srcfile SVN_KEYLINE_MAXLEN;
            if is_line "V"%cc buf then
              '(value, srcfile) ← file_data buf srcfile;
              file_loop f false (<[key := value]> hash) srcfile
            else Err SVN_ERR_MALFORMED_FILE
          else Err SVN_ERR_MALFORMED_FILE
      end
  end.

Definition svn_hash_read (hash : gmap bytes bytes) (srcfile : bytes) : result (gmap bytes bytes * bytes) :=
  file_loop (S (length srcfile)) true hash srcfile.

(** ** Other functions on hash tables *)

Definition svn_hash_from_cstring_keys (keys : list bytes) : gmap bytes bytes :=
  foldl (fun hash key => <[key := key]> hash) ∅ keys.

(** Values are C strings here. *)
Definition svn_hash__get_cstring (hash : option (gmap bytes bytes)) (key : bytes)
    (default_value : option bytes) : option bytes :=
  match hash with
  | Some hash => match hash !! key with Some value => Some value | None => default_value end
  | None => default_value
  end.

Inductive svn_tristate_t := svn_tristate_false | svn_tristate_true | svn_tristate_unknown.

Definition svn_tristate__to_word (tristate : svn_tristate_t) : option bytes :=
  match tristate with
  | svn_tristate_false => Some (cstr "false")
  | svn_tristate_true => Some (cstr "true")
  | svn_tristate_unknown => None
  end.

Definition svn_tristate__from_word (word : option bytes) : svn_tristate_t :=
  match word with
  | None => svn_tristate_unknown
  | Some word =>
      if (svn_cstring_casecmp word (cstr "true") =? 0) || (svn_cstring_casecmp word (cstr "yes") =? 0)
         || (svn_cstring_casecmp word (cstr "on") =? 0) || bool_decide (word = cstr "1")
      then svn_tristate_true
      else if (svn_cstring_casecmp word (cstr "false") =? 0) || (svn_cstring_casecmp word (cstr "no") =? 0)
              || (svn_cstring_casecmp word (cstr "off") =? 0) || bool_decide (word = cstr "0")
      then svn_tristate_false
      else svn_tristate_unknown
  end.

Definition svn_hash__get_bool (hash : option (gmap bytes bytes)) (key : bytes) (default_value : bool) : bool :=
  match svn_tristate__from_word (svn_hash__get_cstring hash key None) with
  | svn_tristate_true => true
  | svn_tristate_false => false
  | svn_tristate_unknown => default_value
  end.

(** The bytes that are left one by one. *)
Fixpoint hash_tail (p : bytes) (hash : Z) : Z :=
  match p with
  | [] => hash
  | c :: p => hash_tail p (u32 (hash * 33 + c))
  end.

(** [unaligned_ok] is [SVN_UNALIGNED_ACCESS_IS_OK], with little-endian
    chunks of four bytes. *)
Fixpoint hash_loop (unaligned_ok : bool) (key : bytes) (hash : Z) {struct key} : Z :=
  match key with
  | p0 :: p1 :: p2 :: p3 :: p =>
      hash_loop unaligned_ok p
        (if unaligned_ok then
           let chunk := p0 + 2 ^ 8 * p1 + 2 ^ 16 * p2 + 2 ^ 24 * p3 in
           u32 (hash * 33 * 33 * 33 * 33 + chunk + Z.shiftr chunk 17)
         else
           u32 (hash * 33 * 33 * 33 * 33 + p0 * 33 * 33 * 33 + p1 * 33 * 33 + p2 * 33 + p3))
  | p => hash_tail p hash
  end.

(** Of the [klen] first bytes of a key; for [APR_HASH_KEY_STRING], those of
    the C string. *)
Definition hashfunc_compatible (unaligned_ok : bool) (char_key : bytes) (klen : option nat) : Z :=
  let klen := match klen with Some n => n | None => length (c_str char_key) end in
  hash_loop unaligned_ok (take klen char_key) 0.
