(* ===== verification/HashDumpTheorems.v ===== *)
(** * Hash dumps are read back

    The text of a dump as a list of changes: writing makes it, and reading
    applies the changes one after the other.  Dumps do not depend on the order
    in which the table is iterated over, and the hash function computes what
    APR's own one does when it reads bytes one by one. *)

From S2P Require Import Prelude Buffers CString Strings StringsFacts PathLib PathLibFacts Hash HashDump.

(** ** Reading pieces of a stream *)

Lemma readline_newline line rest :
  LF ∉ line -> svn_stream_readline (line ++ LF :: rest) [LF] = (line, false, rest).
Proof.
  unfold svn_stream_readline. intros Hl.
  enough (forall str, readline_loop [LF] [LF] (line ++ LF :: rest) str = (str ++ line, false, rest)) as E
    by apply (E []).
  induction line as [|c line IH]; intros str; cbn [app readline_loop].
  - rewrite Z.eqb_refl, app_nil_r.
    assert (Ht : take (length (str ++ [LF]) - length [LF]) (str ++ [LF]) = str) by apply take_init.
    destruct rest; cbn [readline_loop]; by rewrite Ht.
  - apply not_elem_of_cons in Hl as [Hc Hl]. rewrite (proj2 (Z.eqb_neq c LF)) by done.
    rewrite IH by done. by rewrite <- (assoc_L (++)).
Qed.

Lemma read_full_app data rest : svn_stream_read_full (data ++ rest) (zlen data) = (data, rest).
Proof. unfold svn_stream_read_full, zlen. by rewrite Nat2Z.id, take_app_length, drop_app_length. Qed.

(** A length that can be read back. *)
Definition readable {A} (s : list A) : Prop := zlen s < 2 ^ 63.

Lemma print_lu_chars n x : 0 <= n -> x = 0 \/ x = LF -> x ∉ print_lu n.
Proof.
  intros Hn Hx Hin. destruct (print_lu_spec n Hn) as (Hd & _).
  rewrite Forall_forall in Hd. apply Hd in Hin. unfold is_digit, LF in *.
  destruct Hx as [->| ->]; by vm_compute in Hin.
Qed.

Lemma print_lu_number n : 0 <= n -> number_text (print_lu n) n.
Proof.
  intros Hn. destruct (print_lu_spec n Hn) as (Hd & Hv & Hpos & _).
  exists [], false, [], (print_lu n). split_and!; [done|constructor|by left| |done|done].
  intros E. rewrite E in Hpos. simpl in Hpos. lia.
Qed.

Lemma read_length_print kind n : 0 <= n < 2 ^ 63 -> read_length (kind :: " "%cc :: print_lu n) = Ok n.
Proof.
  intros Hn. unfold read_length. cbn [drop]. rewrite drop_0, c_str_plain by (apply print_lu_chars; lia || by left).
  assert (E : svn_cstring_strtoui64 (print_lu n) 0 APR_SIZE_MAX 10 = Ok n); [|by rewrite E].
  apply strtoui64_strtoi64; [done|done|]. apply strtoi64_iff.
  unfold INT64_MIN, INT64_MAX, APR_SIZE_MAX. split_and!; [apply print_lu_number; lia|lia..].
Qed.

Lemma read_data_app data c rest :
  read_data (zlen data) c (data ++ LF :: rest) = Ok (data, Some LF, rest).
Proof. unfold read_data. by rewrite read_full_app. Qed.

(** ** Dumps as lists of changes *)

(** A key and its value, or no value if it is deleted. *)
Notation change := (bytes * option bytes)%type.

Definition change_text (ch : change) : bytes :=
  match ch.2 with
  | Some val => key_lines "K"%cc (print_lu (zlen ch.1)) ch.1 ++ val_line (print_lu (zlen val)) ++ val ++ [LF]
  | None => key_lines "D"%cc (print_lu (zlen ch.1)) ch.1
  end.

Definition changes_text (cs : list change) : bytes := concat (map change_text cs).

Definition apply_change (hash : gmap bytes bytes) (ch : change) : gmap bytes bytes :=
  match ch.2 with Some val => <[ch.1 := val]> hash | None => delete ch.1 hash end.

(** What can be read: keys without NUL, lengths that fit, deletions only if
    the reader allows them. *)
Definition readable_change (incremental : bool) (ch : change) : Prop :=
  0 ∉ ch.1 /\ readable ch.1 /\
  match ch.2 with Some val => readable val | None => incremental = true end.

(** A terminator is a line that is not taken for the start of an entry. *)
Definition good_terminator (terminator : option bytes) : Prop :=
  match terminator with
  | None => True
  | Some t => 0 ∉ t /\ LF ∉ t /\ is_line "K"%cc t = false /\ is_line "D"%cc t = false
  end.

Definition terminator_text (terminator : option bytes) : bytes :=
  match terminator with Some t => t ++ [LF] | None => [] end.

Lemma at_end_line terminator kind n :
  good_terminator terminator -> kind = "K"%cc \/ kind = "D"%cc -> 0 <= n ->
  at_end terminator (kind :: " "%cc :: print_lu n) false = false.
Proof.
  destruct terminator as [t|]; [|done]. intros (_ & _ & HK & HD) Hkind Hn. unfold at_end.
  rewrite c_str_plain.
  2: { rewrite !not_elem_of_cons. split_and!; [by destruct Hkind as [->| ->]|done|].
       apply print_lu_chars; [done|by left]. }
  apply bool_decide_eq_false. intros <-. by destruct Hkind as [->| ->].
Qed.

Lemma line_no_newline kind n : kind = "K"%cc \/ kind = "V"%cc \/ kind = "D"%cc -> 0 <= n ->
  LF ∉ kind :: " "%cc :: print_lu n.
Proof.
  intros Hk Hn. rewrite !not_elem_of_cons. split_and!; [by destruct Hk as [->|[->| ->]]|done|].
  apply print_lu_chars; [done|by right].
Qed.

Lemma line_length kind n : 0 <= n -> 3 <= zlen (kind :: " "%cc :: print_lu n).
Proof. intros Hn. destruct (print_lu_spec n Hn) as (_ & _ & ? & _). rewrite !zlen_cons. unfold zlen. lia. Qed.

(** The line with the length of what follows. *)
Lemma readline_length kind n rest :
  kind = "K"%cc \/ kind = "V"%cc \/ kind = "D"%cc -> 0 <= n ->
  svn_stream_readline (kind :: " "%cc :: print_lu n ++ LF :: rest) [LF] =
  (kind :: " "%cc :: print_lu n, false, rest).
Proof. intros Hk Hn. exact (readline_newline (kind :: " "%cc :: print_lu n) rest (line_no_newline kind n Hk Hn)). Qed.

Lemma set_text key val rest : 0 ∉ key ->
  change_text (key, Some val) ++ rest =
  "K"%cc :: " "%cc :: print_lu (zlen key) ++ LF :: key ++ LF ::
  "V"%cc :: " "%cc :: print_lu (zlen val) ++ LF :: val ++ LF :: rest.
Proof.
  intros Hk. unfold change_text, key_lines, val_line. cbn [fst snd]. rewrite c_str_plain by done.
  repeat (cbn [app]; rewrite <- (assoc_L (++))). done.
Qed.

Lemma delete_text key rest : 0 ∉ key ->
  change_text (key, None) ++ rest =
  "D"%cc :: " "%cc :: print_lu (zlen key) ++ LF :: key ++ LF :: rest.
Proof.
  intros Hk. unfold change_text, key_lines. cbn [fst snd]. rewrite c_str_plain by done.
  repeat (cbn [app]; rewrite <- (assoc_L (++))). done.
Qed.

Lemma read_entry_change terminator incremental ch rest :
  good_terminator terminator -> readable_change incremental ch ->
  svn_hash__read_entry (change_text ch ++ rest) terminator incremental =
  Ok (mk_entry (Some ch.1) ch.2, rest).
Proof.
  destruct ch as [key [val|]]; unfold readable_change, readable; cbn [fst snd];
    intros Ht (Hk & Hlk & Hv); pose proof (zlen_nonneg key); unfold svn_hash__read_entry.
  - pose proof (zlen_nonneg val). rewrite set_text by done.
    rewrite readline_length by (lia || auto). rewrite at_end_line by (lia || auto).
    rewrite (proj2 (Z.leb_le 3 _)) by (apply line_length; lia). cbn [andb].
    change (is_line "K"%cc ("K"%cc :: " "%cc :: print_lu (zlen key))) with true. cbv iota beta.
    rewrite read_length_print by lia. cbn [mbind result_bind]. rewrite read_data_app.
    cbn [mbind result_bind]. rewrite readline_length by (lia || auto).
    change (is_line "V"%cc ("V"%cc :: " "%cc :: print_lu (zlen val))) with true. cbv iota beta.
    rewrite read_length_print by lia. cbn [mbind result_bind]. by rewrite read_data_app.
  - rewrite delete_text by done.
    rewrite readline_length by (lia || auto). rewrite at_end_line by (lia || auto).
    rewrite (proj2 (Z.leb_le 3 _)) by (apply line_length; lia).
    change (is_line "K"%cc ("D"%cc :: " "%cc :: print_lu (zlen key))) with false.
    change (is_line "D"%cc ("D"%cc :: " "%cc :: print_lu (zlen key))) with true. rewrite Hv.
    cbn [andb]. cbv iota beta. rewrite read_length_print by lia. cbn [mbind result_bind].
    by rewrite read_data_app.
Qed.

Lemma read_entry_end terminator incremental rest :
  good_terminator terminator -> (terminator = None -> rest = []) ->
  svn_hash__read_entry (terminator_text terminator ++ rest) terminator incremental =
  Ok (mk_entry None None, rest).
Proof.
  intros Ht Hr. unfold svn_hash__read_entry. destruct terminator as [t|]; cbn [terminator_text].
  - destruct Ht as (H0 & Hlf & _). rewrite <- (assoc_L (++)). cbn [app].
    rewrite readline_newline by done. unfold at_end. rewrite c_str_plain by done.
    by rewrite bool_decide_true.
  - by rewrite (Hr eq_refl).
Qed.

Lemma change_text_length ch : (1 <= length (change_text ch))%nat.
Proof. destruct ch as [k [v|]]; cbn; lia. Qed.

Lemma read_loop_changes terminator incremental rest cs : forall fuel hash,
  good_terminator terminator -> (terminator = None -> rest = []) ->
  Forall (readable_change incremental) cs -> (length cs < fuel)%nat ->
  read_loop fuel hash (changes_text cs ++ terminator_text terminator ++ rest) terminator incremental =
  Ok (foldl apply_change hash cs, rest).
Proof.
  induction cs as [|ch cs IH]; intros fuel hash Ht Hr Hcs Hf; (destruct fuel as [|fuel]; [simpl in Hf; lia|]).
  - cbn [changes_text map concat app read_loop foldl]. by rewrite read_entry_end.
  - apply Forall_cons in Hcs as [Hch Hcs]. simpl in Hf. unfold changes_text.
    cbn [map concat read_loop foldl]. rewrite <- (assoc_L (++)).
    rewrite read_entry_change by done. cbn [mbind result_bind entry_key entry_val].
    apply IH; [done|done|done|lia].
Qed.

Lemma changes_text_length cs : (length cs <= length (changes_text cs))%nat.
Proof.
  unfold changes_text. induction cs as [|ch cs IH]; cbn [map concat length]; [lia|].
  rewrite length_app. pose proof (change_text_length ch). lia.
Qed.

Lemma hash_read_changes terminator incremental hash cs rest :
  good_terminator terminator -> (terminator = None -> rest = []) ->
  Forall (readable_change incremental) cs ->
  hash_read hash (changes_text cs ++ terminator_text terminator ++ rest) terminator incremental =
  Ok (foldl apply_change hash cs, rest).
Proof.
  intros. apply read_loop_changes; [done..|]. rewrite length_app.
  pose proof (changes_text_length cs). lia.
Qed.

(** What is recorded for a key after changes to different keys. *)
Lemma apply_changes_lookup cs : forall hash k, NoDup cs.*1 ->
  foldl apply_change hash cs !! k =
  match (list_to_map cs : gmap bytes (option bytes)) !! k with Some o => o | None => hash !! k end.
Proof.
  induction cs as [|[k0 o] cs IH]; intros hash k Hnd; [done|].
  apply NoDup_cons in Hnd as [Hk0 Hnd]. cbn [foldl]. rewrite IH, list_to_map_cons by done.
  destruct (decide (k = k0)) as [->|Hne].
  - rewrite lookup_insert_eq, (not_elem_of_list_to_map_1 _ k0 Hk0).
    destruct o; cbn [apply_change fst snd]; [apply lookup_insert_eq|apply lookup_delete_eq].
  - rewrite lookup_insert_ne by done. destruct (list_to_map cs !! k); [done|].
    destruct o; cbn [apply_change fst snd]; [by rewrite lookup_insert_ne|by rewrite lookup_delete_ne].
Qed.

(** ** What is written *)

Section Written.
Context `{HO : HashOrder}.

Definition additions (oldhash : option (gmap bytes bytes)) (items : list (bytes * bytes)) : list change :=
  map (fun it => (it.1, Some it.2))
    (filter (fun it => (oldhash ≫= fun old => old !! it.1) <> Some it.2) items).

Definition deletions (hash : gmap bytes bytes) (items : list (bytes * bytes)) : list change :=
  map (fun it => (it.1, None)) (filter (fun it => hash !! it.1 = None) items).

Definition written_changes (hash : gmap bytes bytes) (oldhash : option (gmap bytes bytes)) : list change :=
  additions oldhash (svn_sort__hash_lexically hash) ++
  match oldhash with Some old => deletions hash (svn_sort__hash_lexically old) | None => [] end.

Lemma write_entries_text items oldhash : forall stream,
  write_entries items oldhash stream = stream ++ changes_text (additions oldhash items).
Proof.
  unfold additions, changes_text.
  induction items as [|[key val] items IH]; intros stream; cbn [write_entries]; [by rewrite app_nil_r|].
  match goal with |- context [if ?b then _ else _] =>
    assert (Hb : b = bool_decide ((oldhash ≫= fun old => old !! key) = Some val)) end.
  { destruct oldhash as [old|]; [|done]. cbn [mbind option_bind].
    destruct (old !! key) as [w|]; [|done]. apply bool_decide_ext. naive_solver. }
  rewrite Hb, !IH. destruct (decide ((oldhash ≫= fun old => old !! key) = Some val)) as [E|E].
  - rewrite bool_decide_true by done. rewrite filter_cons_False by (cbn [fst snd]; tauto). done.
  - rewrite bool_decide_false by done. rewrite filter_cons_True by done.
    cbn [map concat]. unfold change_text at 2. cbn [fst snd]. by rewrite <- !(assoc_L (++)).
Qed.

Lemma write_deletions_text items hash : forall stream,
  write_deletions items hash stream = stream ++ changes_text (deletions hash items).
Proof.
  unfold deletions, changes_text.
  induction items as [|[key val] items IH]; intros stream; cbn [write_deletions]; [by rewrite app_nil_r|].
  rewrite IH. destruct (hash !! key) as [w|] eqn:E.
  - rewrite filter_cons_False by (cbn [fst]; congruence). done.
  - rewrite filter_cons_True by done. cbn [map concat]. unfold change_text at 2. cbn [fst snd].
    replace (print_ld (zlen key)) with (print_lu (zlen key)).
    + by rewrite <- !(assoc_L (++)).
    + unfold print_ld. by rewrite (proj2 (Z.ltb_ge _ 0)) by apply zlen_nonneg.
Qed.

Lemma hash_write_text hash oldhash terminator :
  hash_write hash oldhash [] terminator =
  changes_text (written_changes hash oldhash) ++ terminator_text terminator.
Proof.
  unfold hash_write, written_changes. rewrite write_entries_text. cbn [app].
  assert (Happ : forall a b, changes_text (a ++ b) = changes_text a ++ changes_text b).
  { intros a b. unfold changes_text. by rewrite map_app, concat_app. }
  destruct oldhash as [old|].
  - rewrite write_deletions_text, Happ. destruct terminator; [done|]. by rewrite app_nil_r.
  - rewrite app_nil_r. destruct terminator; [done|]. by rewrite app_nil_r.
Qed.

Lemma sort_hash_elem (ht : gmap bytes bytes) k v :
  (k, v) ∈ svn_sort__hash_lexically ht <-> ht !! k = Some v.
Proof. rewrite sort_hash_Permutation. apply elem_of_map_to_list. Qed.

(** The changes: entries that are new or different, keys that are gone. *)
Lemma additions_elem hash oldhash k o :
  (k, o) ∈ additions oldhash (svn_sort__hash_lexically hash) <->
  exists v, o = Some v /\ hash !! k = Some v /\ (oldhash ≫= fun old => old !! k) <> Some v.
Proof.
  unfold additions. rewrite list_elem_of_fmap. split.
  - intros ([k' v] & [= -> ->] & [Hne Hin]%list_elem_of_filter). apply sort_hash_elem in Hin. eauto.
  - intros (v & -> & Hk & Hne). exists (k, v). split; [done|]. apply list_elem_of_filter.
    split; [done|]. by apply sort_hash_elem.
Qed.

Lemma deletions_elem hash old k o :
  (k, o) ∈ deletions hash (svn_sort__hash_lexically old) <->
  o = None /\ hash !! k = None /\ is_Some (old !! k).
Proof.
  unfold deletions. rewrite list_elem_of_fmap. split.
  - intros ([k' v] & [= -> ->] & [Hne Hin]%list_elem_of_filter). apply sort_hash_elem in Hin. eauto.
  - intros (-> & Hk & [v Hv]). exists (k, v). split; [done|]. apply list_elem_of_filter.
    split; [done|]. by apply sort_hash_elem.
Qed.

Lemma filtered_keys_NoDup (P : bytes * bytes -> Prop) `{!forall x, Decision (P x)}
    (f : bytes * bytes -> option bytes) (ht : gmap bytes bytes) :
  NoDup (map (fun it => (it.1, f it)) (filter P (svn_sort__hash_lexically ht))).*1.
Proof.
  change (map ?g ?l) with (g <$> l). rewrite <- list_fmap_compose.
  change (fst ∘ _) with (@fst bytes bytes).
  apply (sublist_NoDup _ (svn_sort__hash_lexically ht).*1).
  - rewrite sort_hash_Permutation. apply NoDup_fst_map_to_list.
  - apply fmap_sublist, sublist_filter.
Qed.

Lemma written_changes_NoDup hash oldhash : NoDup (written_changes hash oldhash).*1.
Proof.
  unfold written_changes. rewrite fmap_app. apply NoDup_app. split_and!.
  - apply filtered_keys_NoDup.
  - intros k ([k1 o1] & -> & Hin)%list_elem_of_fmap. apply additions_elem in Hin as (v & _ & Hv & _).
    destruct oldhash as [old|]; [|apply not_elem_of_nil].
    intros ([k2 o2] & E & Hin)%list_elem_of_fmap. apply deletions_elem in Hin as (_ & Hn & _).
    cbn [fst] in *. congruence.
  - destruct oldhash; [apply filtered_keys_NoDup|constructor].
Qed.

(** Applying the changes to a table that agrees with the old one. *)
Lemma written_changes_apply hash oldhash base :
  (forall old, oldhash = Some old -> base = old) ->
  foldl apply_change base (written_changes hash oldhash) =
  match oldhash with Some _ => hash | None => hash ∪ base end.
Proof.
  intros Hbase. apply map_eq. intros k.
  rewrite apply_changes_lookup by apply written_changes_NoDup.
  assert (Hmap : forall o, (list_to_map (written_changes hash oldhash) : gmap bytes (option bytes)) !! k = Some o <->
    (k, o) ∈ written_changes hash oldhash).
  { intros o. symmetry. apply elem_of_list_to_map, written_changes_NoDup. }
  unfold written_changes in Hmap. setoid_rewrite elem_of_app in Hmap. setoid_rewrite additions_elem in Hmap.
  fold (written_changes hash oldhash) in Hmap.
  destruct oldhash as [old|]; [rewrite <- (Hbase old eq_refl) in *|]; cbn [mbind option_bind] in Hmap.
  - setoid_rewrite deletions_elem in Hmap.
    destruct (_ !! k) as [o|] eqn:E.
    + destruct (proj1 (Hmap o) eq_refl) as [(v & -> & Hv & _)|(-> & Hn & _)]; congruence.
    + destruct (hash !! k) as [v|] eqn:Hk, (base !! k) as [w|] eqn:Hb; [|exfalso..|done].
      * destruct (decide (w = v)) as [->|Hne]; [done|]. exfalso.
        enough (None = Some (Some v)) by done. apply Hmap. left. exists v. split_and!; congruence.
      * enough (None = Some (Some v)) by done. apply Hmap. left. by exists v.
      * enough (None = Some (@None bytes)) by done. apply Hmap. right. eauto.
  - rewrite lookup_union. destruct (_ !! k) as [o|] eqn:E.
    + destruct (proj1 (Hmap o) eq_refl) as [(v & -> & Hv & _)|Hn]; [|by apply elem_of_nil in Hn].
      rewrite Hv. by destruct (base !! k).
    + destruct (hash !! k) as [v|] eqn:Hk; [|by destruct (base !! k)].
      enough (None = Some (Some v)) by done. apply Hmap. left. by exists v.
Qed.
End Written.

(** ** Every stream is read to an end *)

Lemma readline_loop_shrinks eol match_ stream : forall str line eof rest,
  readline_loop eol match_ stream str = (line, eof, rest) ->
  (length rest <= length stream)%nat /\ (match_ <> [] -> eof = false -> (length rest < length stream)%nat).
Proof.
  revert match_. induction stream as [|c stream IH]; intros [|m match_] str line eof rest;
    cbn [readline_loop]; try (intros [= <- <- <-]; simpl; split; [lia|done]).
  intros H. apply IH in H as [Hle _]. simpl. split; intros; lia.
Qed.

Lemma read_data_shrinks len c stream data c' stream' :
  read_data len c stream = Ok (data, c', stream') -> (length stream' <= length stream)%nat.
Proof.
  unfold read_data, svn_stream_read_full. intros H.
  destruct (read_char c _) as [d s] eqn:E. destruct d as [x|]; [|done].
  destruct (negb _); [done|]. injection H as _ _ <-.
  assert (length s <= length (drop (Z.to_nat len) stream))%nat as Hs.
  { destruct (drop (Z.to_nat len) stream); cbn [read_char] in E; simplify_eq; simpl; lia. }
  rewrite length_drop in Hs. lia.
Qed.

Lemma read_entry_shrinks stream terminator incremental entry stream' :
  svn_hash__read_entry stream terminator incremental = Ok (entry, stream') ->
  (length stream' <= length stream)%nat /\ (entry_key entry <> None -> (length stream' < length stream)%nat).
Proof.
  unfold svn_hash__read_entry, svn_stream_readline.
  destruct (readline_loop _ _ stream []) as [[buf eof] s1] eqn:E1. apply readline_loop_shrinks in E1 as [Hle E1].
  destruct (at_end _ _ _); [by intros [= <- <-]|]. destruct eof; [done|].
  specialize (E1 ltac:(done) eq_refl).
  enough (forall len c r, read_data len c s1 = Ok r -> (length r.2 < length stream)%nat) as Hdata.
  2: { intros len c [[data d] s] E%read_data_shrinks. simpl. lia. }
  destruct (_ && _).
  - intros (keylen & _ & ([[key c] s2] & E2%Hdata & H)%bind_Ok)%bind_Ok. cbn [snd] in E2.
    destruct (readline_loop _ _ s2 []) as [[buf' eof'] s3] eqn:E3.
    apply readline_loop_shrinks in E3 as [E3 _]. destruct (is_line _ _); [|done].
    apply bind_Ok in H as (vallen & _ & ([[val c'] s4] & E4 & H)%bind_Ok).
    apply read_data_shrinks in E4. injection H as _ <-. lia.
  - destruct (_ && _); [|done].
    intros (keylen & _ & ([[key c] s2] & E2%Hdata & H)%bind_Ok)%bind_Ok. cbn [snd] in E2.
    injection H as _ <-. lia.
Qed.

Lemma read_data_error len c stream e :
  read_data len c stream = Err e -> e = SVN_ERR_MALFORMED_FILE \/ c = None /\ e = C_UNDEFINED.
Proof.
  unfold read_data, svn_stream_read_full. destruct (drop _ _); cbn [read_char].
  - destruct c; [destruct (negb _)|]; intros [=]; auto.
  - destruct (negb _); intros [=]; auto.
Qed.

Lemma bind_Err {A B} (x : result A) (f : A -> result B) e :
  x ≫= f = Err e -> x = Err e \/ exists a, x = Ok a /\ f a = Err e.
Proof. destruct x; simpl; naive_solver. Qed.

Lemma read_length_error buf e : read_length buf = Err e -> e = SVN_ERR_MALFORMED_FILE.
Proof. unfold read_length. destruct (svn_cstring_strtoui64 _ _ _ _); congruence. Qed.

Lemma read_entry_error stream terminator incremental e :
  svn_hash__read_entry stream terminator incremental = Err e -> e = SVN_ERR_MALFORMED_FILE \/ e = C_UNDEFINED.
Proof.
  unfold svn_hash__read_entry. destruct (svn_stream_readline stream _) as [[buf eof] s1].
  destruct (at_end _ _ _); [done|]. destruct eof; [intros [=]; auto|]. destruct (_ && _).
  - intros [H|(keylen & _ & H)]%bind_Err; [left; by eapply read_length_error|].
    apply bind_Err in H as [H|([[key c] s2] & _ & H)]; [apply read_data_error in H; tauto|].
    destruct (svn_stream_readline s2 _) as [[buf' eof'] s3]. destruct (is_line _ _); [|injection H; auto].
    apply bind_Err in H as [H|(vallen & _ & H)]; [left; by eapply read_length_error|].
    apply bind_Err in H as [H|([[val c'] s4] & _ & H)]; [apply read_data_error in H; tauto|done].
  - destruct (_ && _); [|intros [=]; auto].
    intros [H|(keylen & _ & H)]%bind_Err; [left; by eapply read_length_error|].
    apply bind_Err in H as [H|([[key c] s2] & _ & H)]; [apply read_data_error in H; tauto|done].
Qed.

(** Reading ends for every stream: with a table, with the error for malformed
    files, or, for a stream that stops in front of the newline behind a key,
    with a comparison of a character that was never read. *)
Theorem hash_read_total hash stream terminator incremental :
  match hash_read hash stream terminator incremental with
  | Ok (_, rest) => (length rest <= length stream)%nat
  | Err e => e = SVN_ERR_MALFORMED_FILE \/ e = C_UNDEFINED
  end.
Proof.
  unfold hash_read. remember (S (length stream)) as fuel eqn:Hf.
  assert (length stream < fuel)%nat as Hlt by lia. clear Hf. revert hash stream Hlt.
  induction fuel as [|fuel IH]; intros hash stream Hlt; [lia|]. cbn [read_loop].
  destruct (svn_hash__read_entry stream terminator incremental) as [[entry s]|e] eqn:E;
    [|by apply read_entry_error in E]. apply read_entry_shrinks in E as [Hle Hlt'].
  cbn [mbind result_bind]. destruct (entry_key entry) as [key|]; [|done].
  specialize (Hlt' ltac:(done)).
  match goal with |- match read_loop _ ?h _ _ _ with _ => _ end => specialize (IH h s ltac:(lia)) end.
  destruct (read_loop _ _ _ _ _) as [[? rest]|]; [lia|done].
Qed.

(** ** Files *)

Lemma strchr_newline_app line rest :
  LF ∉ line -> 0 ∉ line -> strchr_newline (line ++ LF :: rest) = Some line.
Proof.
  induction line as [|c line IH]; [done|]. intros [Hc Hl]%not_elem_of_cons [Hc0 Hl0]%not_elem_of_cons.
  cbn [app strchr_newline]. rewrite (proj2 (Z.eqb_neq c LF)), (proj2 (Z.eqb_neq c 0)) by done.
  by rewrite IH.
Qed.

Lemma read_length_line_app line rest :
  LF ∉ line -> 0 ∉ line -> (length line <= 98)%nat ->
  svn_io_read_length_line (line ++ LF :: rest) SVN_KEYLINE_MAXLEN = Ok (line, rest).
Proof.
  intros Hl H0 Hlen. unfold svn_io_read_length_line, SVN_KEYLINE_MAXLEN.
  change (S (Z.to_nat 100)) with (S 100). generalize 100%nat. intros fuel.
  cbn [read_length_line_loop]. unfold svn_stream_read_full.
  change (0 <? 100) with true. change (100 <? 129) with true. change (100 - 1 =? 0) with false. cbv iota beta.
  change (Z.to_nat (100 - 1)) with 99%nat.
  replace (take 99 (line ++ LF :: rest)) with (line ++ LF :: take (98 - length line) rest).
  - rewrite strchr_newline_app by done. cbn [app]. f_equal. f_equal.
    by rewrite cons_middle, (assoc_L (++)), drop_app_length' by (rewrite length_app; simpl; lia).
  - rewrite take_app. rewrite (take_ge line) by lia. f_equal.
    replace (99 - length line)%nat with (S (98 - length line)) by lia. done.
Qed.

Lemma file_data_app kind data rest :
  zlen data < 2 ^ 31 ->
  file_data (kind :: " "%cc :: print_lu (zlen data)) (data ++ LF :: rest) = Ok (data, rest).
Proof.
  intros Hd. pose proof (zlen_nonneg data) as H0. unfold file_data. cbn [drop]. rewrite drop_0.
  rewrite c_str_plain by (apply print_lu_chars; lia || by left).
  assert (E : svn_cstring_atoi (print_lu (zlen data)) = Ok (zlen data)).
  { unfold svn_cstring_atoi. rewrite (proj2 (strtoi64_iff _ _ _ (zlen data))).
    - cbn [mbind result_bind]. unfold s32. rewrite Z.mod_small by lia.
      by rewrite (proj2 (Z.ltb_lt _ _)) by lia.
    - unfold INT64_MIN, INT64_MAX. split_and!; [by apply print_lu_number|lia..]. }
  rewrite E. cbn [mbind result_bind]. rewrite (proj2 (Z.eqb_neq _ (-1))), (proj2 (Z.ltb_ge _ 0)) by lia.
  unfold svn_io_file_read_full2.
  rewrite (proj2 (Z.ltb_ge _ _)) by (rewrite zlen_app; pose proof (zlen_nonneg (LF :: rest)); lia).
  by rewrite read_full_app.
Qed.

Lemma file_line kind n rest :
  kind = "K"%cc \/ kind = "V"%cc \/ kind = "D"%cc -> 0 <= n < 2 ^ 31 ->
  svn_io_read_length_line (kind :: " "%cc :: print_lu n ++ LF :: rest) SVN_KEYLINE_MAXLEN =
  Ok (kind :: " "%cc :: print_lu n, rest).
Proof.
  intros Hk Hn. apply (read_length_line_app (kind :: " "%cc :: print_lu n)).
  - apply line_no_newline; [done|lia].
  - rewrite !not_elem_of_cons. split_and!; [by destruct Hk as [->|[->| ->]]|done|].
    apply print_lu_chars; [lia|by left].
  - assert (length (print_lu n) <= 10)%nat by (apply print_lu_length; lia). simpl. lia.
Qed.

(** The deprecated reader takes smaller lengths, and no deletions. *)
Definition small_change (ch : change) : Prop :=
  readable_change false ch /\ zlen ch.1 < 2 ^ 31 /\ zlen (default [] ch.2) < 2 ^ 31.

Lemma file_loop_changes rest cs : forall fuel first hash,
  Forall small_change cs -> (length cs < fuel)%nat ->
  file_loop fuel first hash (changes_text cs ++ terminator_text (Some SVN_HASH_TERMINATOR) ++ rest) =
  Ok (foldl apply_change hash cs, rest).
Proof.
  induction cs as [|ch cs IH]; intros fuel first hash Hcs Hf; (destruct fuel as [|fuel]; [simpl in Hf; lia|]).
  - cbn [file_loop].
    change (changes_text [] ++ _) with (cstr "END" ++ LF :: rest).
    rewrite read_length_line_app; [|by_evaluation|by_evaluation|simpl; lia]. done.
  - apply Forall_cons in Hcs as [[(Hk & _ & Hv) [Hlk Hlv]] Hcs]. simpl in Hf. unfold changes_text.
    destruct ch as [key [val|]]; [|done]. cbn [fst snd default] in *.
    cbn [map concat file_loop]. rewrite <- (assoc_L (++)), set_text by done.
    pose proof (zlen_nonneg key). pose proof (zlen_nonneg val).
    rewrite file_line by (lia || auto). rewrite !bool_decide_false by done. cbn [orb].
    change (is_line "K"%cc ("K"%cc :: " "%cc :: print_lu (zlen key))) with true. cbv iota beta.
    rewrite file_data_app by done. cbn [mbind result_bind]. rewrite file_line by (lia || auto).
    cbn [mbind result_bind].
    change (is_line "V"%cc ("V"%cc :: " "%cc :: print_lu (zlen val))) with true. cbv iota beta.
    rewrite file_data_app by done. cbn [mbind result_bind]. apply IH; [done|lia].
Qed.

(** ** Round trip *)

(** Tables that can be dumped: keys are C strings, lengths fit. *)
Definition dumpable (limit : Z) (hash : gmap bytes bytes) : Prop :=
  map_Forall (fun key val => 0 ∉ key /\ zlen key < limit /\ zlen val < limit) hash.

#[export] Instance dumpable_dec limit hash : Decision (dumpable limit hash).
Proof. unfold dumpable. apply _. Defined.

Lemma written_changes_readable `{HO : HashOrder} hash oldhash :
  dumpable (2 ^ 63) hash -> (forall old, oldhash = Some old -> dumpable (2 ^ 63) old) ->
  Forall (readable_change (match oldhash with Some _ => true | None => false end)) (written_changes hash oldhash).
Proof.
  intros Hh Ho. apply Forall_forall. intros [k o] [Hin|Hin]%elem_of_app.
  - apply additions_elem in Hin as (v & -> & Hv & _). exact (Hh k v Hv).
  - destruct oldhash as [old|]; [|by apply elem_of_nil in Hin].
    apply deletions_elem in Hin as (-> & _ & [v Hv]).
    by destruct (Ho old eq_refl k v Hv) as (? & ? & _).
Qed.

(** C35: What [svn_hash_write2] writes, [svn_hash_read2] reads into any table,
    leaving what follows the dump in the stream; what
    [svn_hash_write_incremental] writes about two tables turns the old one
    into the new one when [svn_hash_read_incremental] reads it; the deprecated
    functions for files agree, for lengths of 31 bits; and a dump does not depend on the order in
    which the tables are iterated over. *)
Theorem hash_dump_roundtrip `{HO : HashOrder} (hash old base : gmap bytes bytes) terminator rest :
  dumpable (2 ^ 63) hash -> dumpable (2 ^ 63) old -> good_terminator terminator ->
  (terminator = None -> rest = []) ->
  svn_hash_read2 base (svn_hash_write2 hash [] terminator ++ rest) terminator = Ok (hash ∪ base, rest) /\
  (exists dump, svn_hash_write_incremental hash (Some old) [] terminator = Ok dump /\
     svn_hash_read_incremental old (dump ++ rest) terminator = Ok (hash, rest)) /\
  (dumpable (2 ^ 31) hash -> svn_hash_read base (svn_hash_write hash [] ++ rest) = Ok (hash ∪ base, rest)) /\
  (forall (HO' : HashOrder) oldhash,
     @hash_write HO' hash oldhash [] terminator = hash_write hash oldhash [] terminator).
Proof.
  intros Hh Ho Ht Hr. split_and!.
  - unfold svn_hash_read2, svn_hash_write2. rewrite hash_write_text, <- (assoc_L (++)).
    rewrite hash_read_changes; [by rewrite written_changes_apply|done|done|].
    by apply (written_changes_readable hash None).
  - eexists. split; [reflexivity|]. unfold svn_hash_read_incremental.
    rewrite hash_write_text, <- (assoc_L (++)). rewrite hash_read_changes; [|done|done|].
    + rewrite written_changes_apply; [done|by intros ? [= ->]].
    + apply (written_changes_readable hash (Some old)); [done|by intros ? [= <-]].
  - intros Hsmall. unfold svn_hash_read, svn_hash_write. rewrite hash_write_text, <- (assoc_L (++)).
    rewrite file_loop_changes; [by rewrite written_changes_apply| |].
    + apply Forall_forall. intros [k o] Hin. unfold written_changes in Hin. rewrite app_nil_r in Hin.
      apply additions_elem in Hin as (v & -> & Hv & _). split; [exact (Hh k v Hv)|].
      by destruct (Hsmall k v Hv) as (_ & ? & ?).
    + rewrite length_app. pose proof (changes_text_length (written_changes hash None)). lia.
  - intros HO' oldhash. unfold hash_write. rewrite (sort_hash_unique HO' HO).
    destruct oldhash as [o|]; [|done]. by rewrite (sort_hash_unique HO' HO o).
Qed.

Definition sample_hash : gmap bytes bytes :=
  <[cstr "color" := cstr "red"]> (<[cstr "price" := cstr "US $6.50"]> (<[cstr "empty" := []]> ∅)).

Definition sample_old : gmap bytes bytes :=
  <[cstr "color" := cstr "blue"]> (<[cstr "price" := cstr "US $6.50"]> (<[cstr "year" := cstr "1999"]> ∅)).

#[local] Existing Instance map_order.

Lemma hash_dump_roundtrip_witness :
  svn_hash_read2 sample_old (svn_hash_write2 sample_hash [] (Some SVN_HASH_TERMINATOR) ++ cstr "more")
    (Some SVN_HASH_TERMINATOR) = Ok (sample_hash ∪ sample_old, cstr "more") /\
  (exists dump,
     svn_hash_write_incremental sample_hash (Some sample_old) [] (Some SVN_HASH_TERMINATOR) = Ok dump /\
     svn_hash_read_incremental sample_old (dump ++ cstr "more") (Some SVN_HASH_TERMINATOR) =
     Ok (sample_hash, cstr "more")) /\
  (dumpable (2 ^ 31) sample_hash ->
   svn_hash_read sample_old (svn_hash_write sample_hash [] ++ cstr "more") =
   Ok (sample_hash ∪ sample_old, cstr "more")) /\
  (forall (HO' : HashOrder) oldhash,
     @hash_write HO' sample_hash oldhash [] (Some SVN_HASH_TERMINATOR) =
     hash_write sample_hash oldhash [] (Some SVN_HASH_TERMINATOR)).
Proof.
  apply (hash_dump_roundtrip sample_hash sample_old sample_old (Some SVN_HASH_TERMINATOR) (cstr "more")).
  - by_evaluation.
  - by_evaluation.
  - split_and!; [by_evaluation|by_evaluation|reflexivity|reflexivity].
  - done.
Defined.

(** The text itself. *)
Definition lines (ls : list string) : bytes := concat (map (fun l => cstr l ++ [LF]) ls).

Example incremental_dump :
  svn_hash_write_incremental sample_hash (Some sample_old) [] (Some SVN_HASH_TERMINATOR) =
  Ok (lines ["K 5"; "color"; "V 3"; "red"; "K 5"; "empty"; "V 0"; ""; "D 4"; "year"; "END"]%string).
Proof. vm_compute. reflexivity. Qed.

(** ** What readers accept *)

(** A stream that ends within a value: no error without a terminator, because
    the character that is compared with the newline is still the newline
    behind the key. *)
Example truncated_value :
  svn_hash_read2 ∅ (lines ["K 5"; "color"; "V 300"]%string ++ cstr "red") None =
  Ok (<[cstr "color" := cstr "red"]> ∅, []).
Proof. vm_compute. reflexivity. Qed.

(** A stream that ends within a key: the character was never read. *)
Example truncated_key :
  svn_hash_read2 ∅ (lines ["K 5"]%string ++ cstr "col") (Some SVN_HASH_TERMINATOR) = Err C_UNDEFINED.
Proof. vm_compute. reflexivity. Qed.

(** The deprecated function takes a file without any newline for an empty
    one, and -1 for a length. *)
Example file_without_newline : svn_hash_read ∅ (cstr "not a hash dump") = Ok (∅, []).
Proof. vm_compute. reflexivity. Qed.

Example negative_length : svn_hash_read ∅ (lines ["K -1"; "color"; "V 3"; "red"; "END"]%string) = Err C_UNDEFINED.
Proof. vm_compute. reflexivity. Qed.

(** Words other than true and false are accepted, too. *)
Example tristate_words :
  svn_tristate__from_word (Some (cstr "On")) = svn_tristate_true /\
  svn_tristate__from_word (Some (cstr "0")) = svn_tristate_false /\
  svn_tristate__from_word (Some (cstr "maybe")) = svn_tristate_unknown.
Proof. vm_compute. by split_and!. Qed.

(** ** The hash function *)

Lemma hash_tail_foldl p : forall hash, hash_tail p hash = foldl (fun h c => u32 (h * 33 + c)) hash p.
Proof. induction p as [|c p IH]; intros hash; [done|]. cbn [hash_tail foldl]. apply IH. Qed.

Lemma u32_step h c : u32 (u32 h * 33 + c) = u32 (h * 33 + c).
Proof. unfold u32. by rewrite <- Z.add_mod_idemp_l, Z.mul_mod_idemp_l, Z.add_mod_idemp_l by done. Qed.

(** Where unaligned access is not used, four bytes at a time give what APR's
    function makes of the bytes one by one. *)
Theorem hashfunc_bytewise char_key klen :
  hashfunc_compatible false char_key (Some klen) =
  foldl (fun h c => u32 (h * 33 + c)) 0 (take klen char_key).
Proof.
  unfold hashfunc_compatible. generalize (take klen char_key) 0. clear. intros key.
  remember (length key) as n eqn:Hn. revert key Hn. induction (lt_wf n) as [n _ IH]. intros key -> hash.
  destruct key as [|p0 [|p1 [|p2 [|p3 p]]]]; try apply hash_tail_foldl.
  cbn [hash_loop]. rewrite (IH (length p)); [|simpl; lia|done]. cbn [foldl]. f_equal.
  rewrite (u32_step (hash * 33 + p0)), (u32_step ((hash * 33 + p0) * 33 + p1)),
    (u32_step (((hash * 33 + p0) * 33 + p1) * 33 + p2)). f_equal. ring.
Qed.
