(* ===== verification/Skel.v ===== *)
(** * Skels (libsvn_subr/skel.c)

    A skel is an atom or a list of skels, written as text with lengths in front
    of the atoms that need them.  Parsing, writing, building and examining
    skels, and the conversion of property lists.

    A chain of skels that are linked by [next] is a list, and a skel that is
    added to a list is not in another chain.  For a list, [data] is the text it
    was parsed from. *)

From S2P Require Import Prelude Buffers StringBuf CString Strings Paths PathFacts PathLib PathLibFacts.
From S2P Require Import Hash.

(** ** Characters *)

Inductive char_type :=
  | type_nothing
  | type_space
  | type_digit
  | type_paren
  | type_name.

#[export] Instance char_type_eq_dec : EqDecision char_type.
Proof. solve_decision. Defined.

(** The table, by runs of equal entries. *)
Definition skel_char_type : list char_type :=
  replicate 9 type_nothing ++ replicate 2 type_space ++ [type_nothing] ++ replicate 2 type_space
  ++ replicate 18 type_nothing ++ [type_space] ++ replicate 7 type_nothing ++ replicate 2 type_paren
  ++ replicate 6 type_nothing ++ replicate 10 type_digit ++ replicate 7 type_nothing
  ++ replicate 26 type_name ++ [type_paren; type_nothing; type_paren] ++ replicate 3 type_nothing
  ++ replicate 26 type_name ++ replicate 133 type_nothing.

Definition char_type_of (c : Z) : char_type := default type_nothing (skel_char_type !! Z.to_nat c).

Definition is_type (t : char_type) (c : Z) : bool := bool_decide (char_type_of c = t).

(** ** Numbers *)

(** The digits at the start of [data]; [i] counts them.  There is no result
    if the value is larger than [max]. *)
Fixpoint getsize_loop (data : bytes) (max value : Z) (i : nat) : option (Z * nat) :=
  match data with
  | c :: data' =>
      if ("0"%cc <=? c) && (c <=? "9"%cc) then
        let digit := c - "0"%cc in
        let max_prefix := max / 10 in
        let max_digit := max mod 10 in
        if (max_prefix <? value) || ((value =? max_prefix) && (max_digit <? digit)) then None
        else getsize_loop data' max (value * 10 + digit) (S i)
      else Some (value, i)
  | [] => Some (value, i)
  end.

(** The value and what follows it. *)
Definition getsize (data : bytes) (max : Z) : option (Z * bytes) :=
  match getsize_loop data max 0 0 with
  | Some (value, S i) => Some (value, drop (S i) data)
  | _ => None
  end.

(** ** Skels *)

Inductive svn_skel_t := mk_skel {
  is_atom : bool;
  data : bytes;
  children : list svn_skel_t
}.

(** ** Parsing *)

(** An atom and what follows it. *)
Definition implicit_atom (data : bytes) : option (svn_skel_t * bytes) :=
  match data with
  | c :: rest =>
      if is_type type_name c then
        let '(name, rest) :=
          span (fun d => negb (is_type type_space d) && negb (is_type type_paren d)) rest in
        Some (mk_skel true (c :: name) [], rest)
      else None
  | [] => None
  end.

Definition explicit_atom (data : bytes) : option (svn_skel_t * bytes) :=
  match getsize data (zlen data) with
  | Some (size, c :: rest) =>
      if is_type type_space c then
        if zlen rest <? size then None
        else Some (mk_skel true (take (Z.to_nat size) rest) [], drop (Z.to_nat size) rest)
      else None
  | _ => None
  end.

(** A skel and what follows it; [None] is a null pointer.  [list_elements] is
    the loop of [list] behind the opening parenthesis, and [list_start] the
    place of that. *)
Fixpoint parse (fuel : nat) (data : bytes) : result (option (svn_skel_t * bytes)) :=
  match fuel with
  | O => Err OUT_OF_FUEL
  | S f =>
      match data with
      | [] => Ok None
      | c :: rest =>
          if c =? "("%cc then list_elements f data rest []
          else if is_type type_name c then Ok (implicit_atom data)
          else Ok (explicit_atom data)
      end
  end
with list_elements (fuel : nat) (list_start data : bytes) (children : list svn_skel_t)
    : result (option (svn_skel_t * bytes)) :=
  match fuel with
  | O => Err OUT_OF_FUEL
  | S f =>
      match (span (is_type type_space) data).2 with
      | [] => Ok None
      | c :: rest =>
          if c =? ")"%cc then
            Ok (Some (mk_skel false (take (length list_start - length rest) list_start) children, rest))
          else
            element ← parse f (c :: rest);
            match element with
            | None => Ok None
            | Some (element, data) => list_elements f list_start data (children ++ [element])
            end
      end
  end.

(** What follows the skel is ignored. *)
Definition svn_skel__parse (data : bytes) : result (option svn_skel_t) :=
  r ← parse (2 * length data + 1) data;
  Ok (match r with Some (skel, _) => Some skel | None => None end).

(** ** Writing *)

Fixpoint estimate_unparsed_size (skel : svn_skel_t) : Z :=
  if is_atom skel then
    if zlen (data skel) <? 100 then u64 (zlen (data skel) + 3) else u64 (zlen (data skel) + 30)
  else
    (fix estimate_children (l : list svn_skel_t) (total_len : Z) : Z :=
       match l with
       | [] => total_len
       | child :: l => estimate_children l (u64 (total_len + (estimate_unparsed_size child + 1)))
       end) (children skel) 2.

Definition use_implicit (skel : svn_skel_t) : bool :=
  match data skel with
  | [] => false
  | c :: rest =>
      negb (100 <=? zlen (data skel)) && is_type type_name c
      && forallb (fun d => negb (is_type type_space d || is_type type_paren d)) rest
  end.

Section Unparse.
Context `{Allocator}.

(** [svn__ui64toa] gives a result for every 64-bit number. *)
Definition unparse_atom (skel : svn_skel_t) (str : svn_stringbuf_t) : result svn_stringbuf_t :=
  if use_implicit skel then svn_stringbuf_appendbytes str (Outside (data skel)) (zlen (data skel))
  else
    match svn__ui64toa (zlen (data skel)) with
    | None => Err OUT_OF_FUEL
    | Some buf =>
        c_assert (0 <? zlen buf);;
        str ← svn_stringbuf_ensure str (u64 (sb_len str + zlen buf + 1 + zlen (data skel)));
        str ← svn_stringbuf_appendbytes str (Outside buf) (zlen buf);
        str ← svn_stringbuf_appendbyte str " "%cc;
        svn_stringbuf_appendbytes str (Outside (data skel)) (zlen (data skel))
    end.

Fixpoint unparse (skel : svn_skel_t) (str : svn_stringbuf_t) : result svn_stringbuf_t :=
  if is_atom skel then unparse_atom skel str
  else
    str ← svn_stringbuf_appendbyte str "("%cc;
    str ← (fix unparse_children (l : list svn_skel_t) (str : svn_stringbuf_t) : result svn_stringbuf_t :=
             match l with
             | [] => Ok str
             | child :: l =>
                 str ← unparse child str;
                 str ← (if bool_decide (l = []) then Ok str else svn_stringbuf_appendbyte str " "%cc);
                 unparse_children l str
             end) (children skel) str;
    svn_stringbuf_appendbyte str ")"%cc.

Definition svn_skel__unparse (skel : svn_skel_t) : result svn_stringbuf_t :=
  str ← svn_stringbuf_create_ensure (u64 (estimate_unparsed_size skel + 200));
  unparse skel str.
End Unparse.

(** ** Building *)

Definition svn_skel__str_atom (str : bytes) : svn_skel_t := mk_skel true str [].

(** [addr] are the [len] bytes. *)
Definition svn_skel__mem_atom (addr : bytes) : svn_skel_t := mk_skel true addr [].

Definition svn_skel__make_empty_list : svn_skel_t := mk_skel false [] [].

(** The text of a list is not copied. *)
Fixpoint svn_skel__dup (src_skel : svn_skel_t) (dup_data : bool) : svn_skel_t :=
  mk_skel (is_atom src_skel)
    (if dup_data && negb (is_atom src_skel) then [] else data src_skel)
    (map (fun child => svn_skel__dup child dup_data) (children src_skel)).

Definition svn_skel__prepend (skel list_skel : svn_skel_t) : result svn_skel_t :=
  c_assert (negb (is_atom list_skel));;
  Ok (mk_skel (is_atom list_skel) (data list_skel) (skel :: children list_skel)).

Definition svn_skel__prepend_str (value : bytes) (skel : svn_skel_t) : result svn_skel_t :=
  svn_skel__prepend (svn_skel__str_atom value) skel.

Definition svn_skel__prepend_int (value : Z) (skel : svn_skel_t) : result svn_skel_t :=
  match svn__i64toa value with
  | None => Err OUT_OF_FUEL
  | Some val_string => svn_skel__prepend_str val_string skel
  end.

Definition svn_skel__append (list_skel skel : svn_skel_t) : result svn_skel_t :=
  c_assert (negb (is_atom list_skel));;
  Ok (mk_skel (is_atom list_skel) (data list_skel) (children list_skel ++ [skel])).

(** ** Examining *)

Definition svn_skel__matches_atom (skel : option svn_skel_t) (str : bytes) : bool :=
  match skel with
  | Some skel => is_atom skel && bool_decide (data skel = str)
  | None => false
  end.

Definition svn_skel__list_length (skel : option svn_skel_t) : Z :=
  match skel with
  | Some skel => if is_atom skel then -1 else zlen (children skel)
  | None => -1
  end.

Definition is_valid_proplist_skel (skel : svn_skel_t) : bool :=
  let len := svn_skel__list_length (Some skel) in
  (0 <=? len) && (Z.land len 1 =? 0) && forallb is_atom (children skel).

(** The loop over the pairs of a path and a property list. *)
Fixpoint valid_iprops_loop (l : list svn_skel_t) : bool :=
  match l with
  | [] => true
  | [elt] => false
  | elt :: next :: l =>
      if negb (is_atom elt) then false
      else if negb (is_valid_proplist_skel next) then false
      else valid_iprops_loop l
  end.

Definition is_valid_iproplist_skel (skel : svn_skel_t) : bool :=
  let len := svn_skel__list_length (Some skel) in
  if (0 <=? len) && (Z.land len 1 =? 0) then valid_iprops_loop (children skel) else false.

(** ** Conversion to and from other types *)

Definition svn_skel__parse_int (skel : svn_skel_t) : result Z := svn_cstring_atoi64 (c_str (data skel)).

(** The loop over names and values, which are counted. *)
Fixpoint proplist_loop (l : list svn_skel_t) (proplist : gmap bytes bytes) : result (gmap bytes bytes) :=
  match l with
  | [] => Ok proplist
  | [elt] => Err C_UNDEFINED
  | elt :: next :: l => proplist_loop l (<[data elt := data next]> proplist)
  end.

Definition svn_skel__parse_proplist (skel : svn_skel_t) : result (gmap bytes bytes) :=
  if negb (is_valid_proplist_skel skel) then Err SVN_ERR_FS_MALFORMED_SKEL
  else proplist_loop (children skel) ∅.

Fixpoint iprops_loop (l : list svn_skel_t) (iprops : list (bytes * gmap bytes bytes))
    : result (list (bytes * gmap bytes bytes)) :=
  match l with
  | [] => Ok iprops
  | [elt] => Err C_UNDEFINED
  | elt :: next :: l =>
      prop_hash ← svn_skel__parse_proplist next;
      iprops_loop l (iprops ++ [(c_str (data elt), prop_hash)])
  end.

Definition svn_skel__parse_iprops (skel : svn_skel_t) : result (list (bytes * gmap bytes bytes)) :=
  if negb (is_valid_iproplist_skel skel) then Err SVN_ERR_FS_MALFORMED_SKEL
  else iprops_loop (children skel) [].

Fixpoint prop_loop (l : list svn_skel_t) (propname : bytes) : result (option bytes) :=
  match l with
  | [] => Ok None
  | [elt] => Err C_UNDEFINED
  | elt :: next :: l => if bool_decide (data elt = propname) then Ok (Some (data next)) else prop_loop l propname
  end.

Definition svn_skel__parse_prop (skel : svn_skel_t) (propname : bytes) : result (option bytes) :=
  if negb (is_valid_proplist_skel skel) then Err SVN_ERR_FS_MALFORMED_SKEL
  else prop_loop (children skel) propname.

Section Hashes.
Context `{HashOrder}.

(** The body of the loop over a hash. *)
Definition prepend_prop (key value : bytes) (skel : svn_skel_t) : result svn_skel_t :=
  skel ← svn_skel__prepend (svn_skel__mem_atom value) skel;
  svn_skel__prepend (svn_skel__mem_atom key) skel.

Definition svn_skel__unparse_proplist (proplist : option (gmap bytes bytes)) : result svn_skel_t :=
  skel ← match proplist with
         | Some proplist => for_each prepend_prop (hash_items proplist) svn_skel__make_empty_list
         | None => Ok svn_skel__make_empty_list
         end;
  if negb (is_valid_proplist_skel skel) then Err SVN_ERR_FS_MALFORMED_SKEL else Ok skel.

Fixpoint unparse_iprops_loop (inherited_props : list (bytes * gmap bytes bytes)) (skel : svn_skel_t)
    : result svn_skel_t :=
  match inherited_props with
  | [] => Ok skel
  | (path_or_url, prop_hash) :: inherited_props =>
      skel_list ← for_each prepend_prop (hash_items prop_hash) svn_skel__make_empty_list;
      let skel_atom := svn_skel__str_atom path_or_url in
      skel ← svn_skel__append skel skel_atom;
      skel ← svn_skel__append skel skel_list;
      unparse_iprops_loop inherited_props skel
  end.

Definition svn_skel__unparse_iproplist (inherited_props : option (list (bytes * gmap bytes bytes)))
    : result svn_skel_t :=
  skel ← match inherited_props with
         | Some iprops => unparse_iprops_loop iprops svn_skel__make_empty_list
         | None => Ok svn_skel__make_empty_list
         end;
  if negb (is_valid_iproplist_skel skel) then Err SVN_ERR_FS_MALFORMED_SKEL else Ok skel.
End Hashes.
