(* ===== verification/SkelTheorems.v ===== *)
(** * Skels and their text

    The text of a skel; writing produces it inside the buffer that was
    estimated, and parsing reads it back.  Parsing terminates on every input
    and makes well-formed skels. *)

From S2P Require Import Prelude Buffers Ctype StringBuf StringBufFacts CString Strings StringsFacts.
From S2P Require Import PathLib PathLibFacts Hash Skel StringTheorems.

(** ** Induction and equality up to the text of lists *)

Section Induction.
Variable P : svn_skel_t -> Prop.
Hypothesis Hskel : forall a d ch, Forall P ch -> P (mk_skel a d ch).

Fixpoint skel_nested_ind (s : svn_skel_t) : P s :=
  match s with
  | mk_skel a d ch =>
      Hskel a d ch ((fix go (l : list svn_skel_t) : Forall P l :=
                       match l with
                       | [] => Forall_nil_2 P
                       | s :: l => Forall_cons_2 P s l (skel_nested_ind s) (go l)
                       end) ch)
  end.
End Induction.

(** The skel without the text of its lists. *)
Fixpoint erase (s : svn_skel_t) : svn_skel_t :=
  mk_skel (is_atom s) (if is_atom s then data s else []) (map erase (children s)).

(** Atoms have no children. *)
Inductive well_formed : svn_skel_t -> Prop :=
  | wf_atom d : well_formed (mk_skel true d [])
  | wf_list d ch : Forall well_formed ch -> well_formed (mk_skel false d ch).

(** ** The text of a skel *)

Definition atom_text (d : bytes) : bytes :=
  if use_implicit (mk_skel true d []) then d else print_lu (zlen d) ++ " "%cc :: d.

Fixpoint skel_text (s : svn_skel_t) : bytes :=
  if is_atom s then atom_text (data s)
  else "("%cc :: joined (map skel_text (children s)) [" "%cc] ++ [")"%cc].

(** A bound that keeps estimates from wrapping around. *)
Definition SKEL_BOUND : Z := 2 ^ 56.

Lemma zlen_joined_cons t ts :
  zlen (joined (t :: ts) [" "%cc]) = zlen t + (if bool_decide (ts = []) then 0 else 1) + zlen (joined ts [" "%cc]).
Proof.
  destruct ts as [|u ts]; [rewrite bool_decide_true by done; simpl; zlen_lia|].
  rewrite bool_decide_false by done.
  change (joined (t :: u :: ts) [" "%cc]) with (t ++ [" "%cc] ++ joined (u :: ts) [" "%cc]). zlen_lia.
Qed.

Section Writing.
Context `{Allocator}.

Lemma ensure_keeps str s m :
  holds str s -> 0 <= m < STRING_BOUND - 1 ->
  exists str', svn_stringbuf_ensure str m = Ok str' /\ holds str' s.
Proof.
  intros Hstr Hm. pose proof Hstr as (_ & Hs & _).
  destruct (ensure_holds str s m Hstr Hm) as (str' & junk & E & Hl & Hd & _).
  exists str'. split; [done|]. split_and!; [done..|by exists junk].
Qed.

Lemma unparse_atom_holds str t a d ch :
  holds str t -> zlen t + zlen (atom_text d) < STRING_BOUND - 2 ->
  exists str', unparse_atom (mk_skel a d ch) str = Ok str' /\ holds str' (t ++ atom_text d).
Proof.
  intros Hstr. pose proof Hstr as (Hl & _). pose proof (zlen_nonneg t). pose proof (zlen_nonneg d).
  unfold atom_text, unparse_atom. change (use_implicit (mk_skel a d ch)) with (use_implicit (mk_skel true d [])).
  cbn [data]. destruct (use_implicit _).
  { intros Hb. apply appendbytes_outside; [done|lia]. }
  intros Hb. rewrite zlen_app, zlen_cons in Hb. unfold STRING_BOUND in Hb.
  pose proof (zlen_nonneg (print_lu (zlen d))).
  rewrite ui64toa_print by lia.
  destruct (print_lu_spec (zlen d)) as (_ & _ & Hpos & _); [lia|].
  rewrite c_assert_lt by zlen_lia. cbn [mbind result_bind]. rewrite Hl, u64_small by lia.
  destruct (ensure_keeps str t (zlen t + zlen (print_lu (zlen d)) + 1 + zlen d)) as (str1 & -> & Hs1);
    [done|unfold STRING_BOUND; lia|]. cbn [mbind result_bind].
  destruct (appendbytes_outside str1 t (print_lu (zlen d))) as (str2 & -> & Hs2);
    [done|unfold STRING_BOUND; lia|]. cbn [mbind result_bind].
  destruct (appendbyte_holds str2 _ " "%cc Hs2) as (str3 & -> & Hs3);
    [unfold STRING_BOUND; rewrite zlen_app; lia|]. cbn [mbind result_bind].
  destruct (appendbytes_outside str3 _ d Hs3) as (str4 & -> & Hs4);
    [unfold STRING_BOUND; rewrite !zlen_app; change (zlen [" "%cc]) with 1; lia|].
  exists str4. by rewrite <- !app_assoc in Hs4.
Qed.

(** The loop over the children. *)
Definition unparse_children : list svn_skel_t -> svn_stringbuf_t -> result svn_stringbuf_t :=
  fix unparse_children l str :=
    match l with
    | [] => Ok str
    | child :: l =>
        str ← unparse child str;
        str ← (if bool_decide (l = []) then Ok str else svn_stringbuf_appendbyte str " "%cc);
        unparse_children l str
    end.

Lemma unparse_list d ch str :
  unparse (mk_skel false d ch) str =
    str ← svn_stringbuf_appendbyte str "("%cc;
    str ← unparse_children ch str;
    svn_stringbuf_appendbyte str ")"%cc.
Proof. done. Qed.

Definition unparses (s : svn_skel_t) : Prop := forall str t,
  holds str t -> zlen t + zlen (skel_text s) < STRING_BOUND - 2 ->
  exists str', unparse s str = Ok str' /\ holds str' (t ++ skel_text s).

Lemma unparse_children_holds ch : Forall unparses ch -> forall str t,
  holds str t -> zlen t + zlen (joined (map skel_text ch) [" "%cc]) < STRING_BOUND - 2 ->
  exists str', unparse_children ch str = Ok str' /\
    holds str' (t ++ joined (map skel_text ch) [" "%cc]).
Proof.
  induction 1 as [|s ch Hs _ IH]; intros str t Hstr Hb; cbn [unparse_children map] in *.
  { exists str. by rewrite app_nil_r. }
  rewrite zlen_joined_cons in Hb. pose proof (zlen_nonneg (joined (map skel_text ch) [" "%cc])).
  destruct (Hs str t Hstr) as (str1 & -> & Hs1); [case_bool_decide; lia|]. cbn [mbind result_bind].
  destruct ch as [|u ch].
  { rewrite bool_decide_true by done. cbn [mbind result_bind]. by exists str1. }
  rewrite bool_decide_false by done. rewrite bool_decide_false in Hb by done.
  destruct (appendbyte_holds str1 _ " "%cc Hs1) as (str2 & -> & Hs2);
    [rewrite zlen_app; lia|]. cbn [mbind result_bind].
  destruct (IH str2 _ Hs2) as (str' & -> & Hs'); [rewrite !zlen_app; change (zlen [" "%cc]) with 1; lia|].
  exists str'. split; [done|]. by rewrite <- !app_assoc in Hs'.
Qed.

Lemma unparse_holds s : unparses s.
Proof.
  induction s as [a d ch IH] using skel_nested_ind. intros str t Hstr Hb.
  destruct a; [by apply unparse_atom_holds|]. cbn [skel_text is_atom children] in *.
  rewrite zlen_cons, zlen_app in Hb. change (zlen [")"%cc]) with 1 in Hb.
  pose proof (zlen_nonneg (joined (map skel_text ch) [" "%cc])).
  rewrite unparse_list.
  destruct (appendbyte_holds str t "("%cc Hstr) as (str1 & -> & Hs1); [lia|]. cbn [mbind result_bind].
  destruct (unparse_children_holds ch IH str1 _ Hs1) as (str2 & -> & Hs2);
    [rewrite zlen_app; change (zlen ["("%cc]) with 1; lia|]. cbn [mbind result_bind].
  destruct (appendbyte_holds str2 _ ")"%cc Hs2) as (str3 & -> & Hs3);
    [rewrite !zlen_app; change (zlen ["("%cc]) with 1; lia|].
  exists str3. split; [done|]. by rewrite <- !app_assoc in Hs3.
Qed.
End Writing.

(** ** The estimate *)

Definition estimate_children : list svn_skel_t -> Z -> Z :=
  fix estimate_children l total_len :=
    match l with
    | [] => total_len
    | child :: l => estimate_children l (u64 (total_len + (estimate_unparsed_size child + 1)))
    end.

Lemma estimate_list d ch : estimate_unparsed_size (mk_skel false d ch) = estimate_children ch 2.
Proof. done. Qed.

(** It is not less than the length of the text and at most proportional to it. *)
Definition well_estimated (s : svn_skel_t) : Prop :=
  zlen (skel_text s) < SKEL_BOUND ->
  zlen (skel_text s) <= estimate_unparsed_size s <= 31 * zlen (skel_text s).

Lemma estimate_atom d ch : well_estimated (mk_skel true d ch).
Proof.
  unfold well_estimated, SKEL_BOUND. cbn [skel_text is_atom data estimate_unparsed_size].
  unfold atom_text. pose proof (zlen_nonneg d).
  assert (forall n, 0 <= n < 2 ^ 64 -> 1 <= zlen (print_lu n) <= 20 /\ (n < 100 -> zlen (print_lu n) <= 2)) as Hlu.
  { intros n Hn. destruct (print_lu_spec n) as (_ & _ & Hpos & _); [lia|].
    assert (length (print_lu n) <= 20)%nat by (apply print_lu_length; lia).
    assert (n < 100 -> (length (print_lu n) <= 2)%nat) by (intros; apply print_lu_length; lia).
    zlen_lia. }
  destruct (use_implicit (mk_skel true d [])) eqn:E.
  - intros Hb. assert (1 <= zlen d).
    { unfold use_implicit in E. cbn [data] in E. destruct d; [done|zlen_lia]. }
    destruct (Z.ltb_spec (zlen d) 100); rewrite u64_small; lia.
  - rewrite zlen_app, zlen_cons. pose proof (zlen_nonneg (print_lu (zlen d))). intros Hb.
    specialize (Hlu (zlen d)). destruct (Z.ltb_spec (zlen d) 100); rewrite u64_small; lia.
Qed.

Lemma estimate_children_bounds ch : Forall well_estimated ch -> forall total,
  0 <= total -> total + 31 * zlen (joined (map skel_text ch) [" "%cc]) + 31 < 2 ^ 63 ->
  zlen (joined (map skel_text ch) [" "%cc]) < SKEL_BOUND ->
  total + zlen (joined (map skel_text ch) [" "%cc]) <= estimate_children ch total
  <= total + 31 * zlen (joined (map skel_text ch) [" "%cc]) + 1.
Proof.
  induction 1 as [|s ch Hs _ IH]; intros total H0 Hb Hj; cbn [estimate_children map] in *.
  { simpl. change (zlen []) with 0. lia. }
  rewrite zlen_joined_cons in *. pose proof (zlen_nonneg (joined (map skel_text ch) [" "%cc])).
  pose proof (zlen_nonneg (skel_text s)). destruct Hs as [Hlo Hhi]; [case_bool_decide; lia|].
  rewrite u64_small by (case_bool_decide; lia).
  destruct ch as [|u ch]; [cbn in *; change (zlen []) with 0 in *; lia|].
  rewrite bool_decide_false in * by done.
  specialize (IH (total + (estimate_unparsed_size s + 1))). lia.
Qed.

Lemma estimate_bounds s : well_estimated s.
Proof.
  induction s as [a d ch IH] using skel_nested_ind. destruct a; [apply estimate_atom|].
  unfold well_estimated. rewrite estimate_list. cbn [skel_text is_atom children].
  rewrite zlen_cons, zlen_app. change (zlen [")"%cc]) with 1. unfold SKEL_BOUND. intros Hb.
  pose proof (zlen_nonneg (joined (map skel_text ch) [" "%cc])).
  pose proof (estimate_children_bounds ch IH 2). unfold SKEL_BOUND in *. lia.
Qed.

(** The text is written into the block that is created. *)
Lemma skel_unparse_holds `{Allocator} s :
  zlen (skel_text s) < SKEL_BOUND ->
  exists str, svn_skel__unparse s = Ok str /\ holds str (skel_text s).
Proof.
  intros Hb. unfold svn_skel__unparse. pose proof (estimate_bounds s Hb). unfold SKEL_BOUND in *.
  pose proof (zlen_nonneg (skel_text s)).
  rewrite u64_small by lia.
  destruct (create_ensure_holds (estimate_unparsed_size s + 200)) as (str & -> & Hstr & _);
    [unfold STRING_BOUND; lia|].
  apply (unparse_holds s str []); [done|]. change (zlen []) with 0. unfold STRING_BOUND. lia.
Qed.

(** ** Reading sizes *)

Lemma getsize_loop_digits ds rest max value i :
  Forall (fun c => is_digit c = true) ds -> is_digit (deref rest) = false ->
  0 <= value -> dec_value value ds <= max ->
  getsize_loop (ds ++ rest) max value i = Some (dec_value value ds, (i + length ds)%nat).
Proof.
  intros Hds Hr. revert value i. induction Hds as [|c ds Hc Hds IH]; intros value i Hv Hmax; simpl.
  - rewrite Nat.add_0_r. destruct rest as [|c rest]; [done|]. cbn [getsize_loop].
    unfold deref in Hr. simpl in Hr. unfold is_digit in Hr. by rewrite Hr.
  - unfold is_digit in Hc. rewrite Hc. reflect_bools.
    change (dec_value value (c :: ds)) with (dec_value (value * 10 + (c - "0"%cc)) ds) in *.
    assert (value * 10 + (c - "0"%cc) <= max).
    { etrans; [|done]. apply dec_value_mono; [lia|done]. }
    destruct ((max / 10 <? value) || _) eqn:E.
    + exfalso. apply orb_true_iff in E as [E|E]; reflect_bools; dlia.
    + rewrite IH by (done || lia). do 2 f_equal. lia.
Qed.

Lemma getsize_print n rest max :
  0 <= n <= max -> is_digit (deref rest) = false ->
  getsize (print_lu n ++ rest) max = Some (n, rest).
Proof.
  intros Hn Hr. destruct (print_lu_spec n) as (Hds & Hv & Hpos & _); [lia|].
  unfold getsize. rewrite getsize_loop_digits by (done || lia). rewrite Hv.
  destruct (print_lu n) as [|c ds]; [simpl in Hpos; lia|]. simpl. by rewrite drop_app_length.
Qed.

Lemma getsize_loop_count data max value i v j :
  getsize_loop data max value i = Some (v, j) -> (i <= j <= i + length data)%nat.
Proof.
  revert value i. induction data as [|c data IH]; intros value i; cbn [getsize_loop length].
  { intros [= _ <-]. lia. }
  destruct (_ && _); [|intros [= _ <-]; lia]. cbv zeta. destruct (_ || _); [done|].
  intros Hl%IH. lia.
Qed.

Lemma getsize_shorter data max v rest : getsize data max = Some (v, rest) -> (length rest < length data)%nat.
Proof.
  unfold getsize. destruct (getsize_loop data max 0 0) as [[w [|j]]|] eqn:E; [done| |done].
  apply getsize_loop_count in E. intros [= _ <-]. rewrite length_drop. lia.
Qed.

(** ** Parsing atoms *)

(** The text behind a skel cannot be taken for a part of an atom. *)
Definition delimited (rest : bytes) : Prop :=
  match rest with [] => True | c :: _ => is_type type_space c || is_type type_paren c = true end.

Lemma implicit_atom_text d rest :
  use_implicit (mk_skel true d []) = true -> delimited rest ->
  implicit_atom (d ++ rest) = Some (mk_skel true d [], rest).
Proof.
  intros Hu Hrest. unfold use_implicit in Hu. cbn [data] in Hu. destruct d as [|c d]; [done|].
  apply andb_true_iff in Hu as [[_ Hc]%andb_true_iff Hd]. unfold implicit_atom. simpl. rewrite Hc.
  assert (span (fun d => negb (is_type type_space d) && negb (is_type type_paren d)) (d ++ rest) = (d, rest)) as ->.
  { clear Hc. induction d as [|e d IH]; simpl.
    - destruct rest as [|e rest]; [done|]. simpl. unfold delimited in Hrest. by rewrite <- negb_orb, Hrest.
    - simpl in Hd. apply andb_true_iff in Hd as [He Hd]. rewrite <- negb_orb, He, IH by done. done. }
  done.
Qed.

(** The first character of a number in front of a blank. *)
Lemma print_lu_first n : 0 <= n -> exists c ds, print_lu n = c :: ds /\ is_digit c = true.
Proof.
  intros Hn. destruct (print_lu_spec n) as (Hds & _ & Hpos & _); [done|].
  destruct (print_lu n) as [|c ds]; [simpl in Hpos; lia|]. exists c, ds. by inversion Hds.
Qed.

Lemma explicit_atom_text d rest :
  explicit_atom (print_lu (zlen d) ++ " "%cc :: d ++ rest) = Some (mk_skel true d [], rest).
Proof.
  pose proof (zlen_nonneg d). pose proof (zlen_nonneg rest). unfold explicit_atom.
  rewrite getsize_print by (try done; zlen_lia). cbv beta iota.
  change (is_type type_space " "%cc) with true. cbv iota.
  rewrite (proj2 (Z.ltb_ge _ _)) by zlen_lia.
  replace (Z.to_nat (zlen d)) with (length d) by zlen_lia.
  by rewrite take_app_length, drop_app_length.
Qed.

Lemma digit_type c : is_digit c = true -> (c =? "("%cc) = false /\ is_type type_name c = false.
Proof.
  unfold is_digit. change ("0"%cc) with 48. change ("9"%cc) with 57. change ("("%cc) with 40.
  intros Hc. reflect_bools. split; [lia|].
  assert (c = 48 \/ c = 49 \/ c = 50 \/ c = 51 \/ c = 52 \/ c = 53 \/ c = 54 \/ c = 55 \/ c = 56 \/ c = 57)
    as Hcases by lia.
  by destruct_or! Hcases; subst.
Qed.

Lemma type_name_not c t : is_type type_name c = true -> t <> type_name -> is_type t c = false.
Proof. unfold is_type. intros ->%bool_decide_eq_true ?. by apply bool_decide_eq_false. Qed.

Lemma parse_atom_text fuel d rest :
  (1 <= fuel)%nat -> delimited rest ->
  parse fuel (atom_text d ++ rest) = Ok (Some (mk_skel true d [], rest)).
Proof.
  intros Hf Hrest. destruct fuel as [|f]; [lia|]. unfold atom_text.
  destruct (use_implicit (mk_skel true d [])) eqn:Hu.
  - pose proof (implicit_atom_text d rest Hu Hrest) as E. unfold use_implicit in Hu. cbn [data] in Hu.
    destruct d as [|c d]; [done|]. apply andb_true_iff in Hu as [[_ Hc]%andb_true_iff _].
    cbn [parse app] in *. destruct (Z.eqb_spec c "("%cc) as [->|_]; [by vm_compute in Hc|].
    by rewrite Hc, E.
  - rewrite <- app_assoc. simpl. pose proof (explicit_atom_text d rest) as E.
    destruct (print_lu_first (zlen d)) as (c & ds & Ep & Hc); [apply zlen_nonneg|].
    rewrite Ep in *. cbn [app] in *. apply digit_type in Hc as [-> ->]. by rewrite E.
Qed.

(** ** Parsing lists *)

Lemma skel_text_first s rest :
  (span (is_type type_space) (skel_text s ++ rest)).2 = skel_text s ++ rest /\
  exists c t, skel_text s = c :: t /\ c <> ")"%cc.
Proof.
  assert (exists c t, skel_text s = c :: t /\ is_type type_space c = false /\ c <> ")"%cc)
    as (c & t & -> & Hc & Hp); [|split; [simpl; by rewrite Hc|by exists c, t]].
  destruct s as [[] d ch]; cbn [skel_text is_atom data]; [|by eexists _, _].
  unfold atom_text. destruct (use_implicit (mk_skel true d [])) eqn:Hu.
  - unfold use_implicit in Hu. cbn [data] in Hu. destruct d as [|c d]; [done|].
    apply andb_true_iff in Hu as [[_ Hc]%andb_true_iff _]. exists c, d.
    split_and!; [done|by apply (type_name_not c)|intros ->; by vm_compute in Hc].
  - destruct (print_lu_first (zlen d)) as (c & ds & -> & Hc); [apply zlen_nonneg|].
    eexists _, _. split; [done|]. unfold is_digit in Hc. change ("0"%cc) with 48 in Hc.
    change ("9"%cc) with 57 in Hc. change (")"%cc) with 41. reflect_bools.
    split; [|lia].
    assert (c = 48 \/ c = 49 \/ c = 50 \/ c = 51 \/ c = 52 \/ c = 53 \/ c = 54 \/ c = 55 \/ c = 56 \/ c = 57)
      as Hcases by lia.
    by destruct_or! Hcases; subst.
Qed.

Definition parses_back (s : svn_skel_t) : Prop := well_formed s -> forall fuel rest,
  (2 * length (skel_text s) + 1 <= fuel)%nat -> delimited rest ->
  exists s', parse fuel (skel_text s ++ rest) = Ok (Some (s', rest)) /\ erase s' = erase s /\ well_formed s'.

Lemma list_elements_text ch : Forall parses_back ch -> Forall well_formed ch ->
  forall fuel start rest acc,
  (2 * length (joined (map skel_text ch) [" "%cc]) + 2 <= fuel)%nat -> Forall well_formed acc ->
  exists ch' d, list_elements fuel start (joined (map skel_text ch) [" "%cc] ++ ")"%cc :: rest) acc
    = Ok (Some (mk_skel false d (acc ++ ch'), rest)) /\ map erase ch' = map erase ch /\
    Forall well_formed ch'.
Proof.
  induction 1 as [|s ch Hs _ IH]; intros Hwf fuel start rest acc Hf Hacc;
    (destruct fuel as [|f]; [lia|]).
  { cbn [map joined app list_elements]. simpl. exists [], (take (length start - length rest) start).
    by rewrite app_nil_r. }
  apply Forall_cons in Hwf as [Hws Hwf].
  assert (joined (map skel_text (s :: ch)) [" "%cc] ++ ")"%cc :: rest =
          skel_text s ++ (if bool_decide (ch = []) then [] else [" "%cc]) ++
            joined (map skel_text ch) [" "%cc] ++ ")"%cc :: rest) as ->.
  { destruct ch; [done|]. rewrite bool_decide_false by done. cbn [map joined]. by rewrite <- !app_assoc. }
  assert (length (joined (map skel_text (s :: ch)) [" "%cc]) =
          length (skel_text s) + (if bool_decide (ch = []) then 0 else 1) + length (joined (map skel_text ch) [" "%cc]))%nat as El.
  { destruct ch; [simpl; lia|]. rewrite bool_decide_false by done. cbn [map joined]. rewrite !length_app. simpl. lia. }
  rewrite El in Hf. cbn [list_elements].
  destruct (skel_text_first s ((if bool_decide (ch = []) then [] else [" "%cc]) ++
            joined (map skel_text ch) [" "%cc] ++ ")"%cc :: rest)) as [-> (c & t & Et & Hc)].
  destruct (Hs Hws f ((if bool_decide (ch = []) then [] else [" "%cc]) ++
            joined (map skel_text ch) [" "%cc] ++ ")"%cc :: rest)) as (s' & E & Ee & Hws');
    [lia|destruct ch; [done|by rewrite bool_decide_false]|].
  rewrite Et in E |- *. cbn [app] in E |- *. rewrite (proj2 (Z.eqb_neq c _)) by done. rewrite E.
  cbn [mbind result_bind].
  assert (1 <= length (skel_text s))%nat by (rewrite Et; simpl; lia).
  destruct ch as [|u ch].
  - rewrite bool_decide_true in * by done.
    destruct (IH Hwf f start rest (acc ++ [s'])) as (ch' & d & E2 & He2 & Hw2);
      [simpl in *; lia|apply Forall_app; by repeat constructor|].
    exists (s' :: ch'), d. rewrite <- app_assoc in E2. split_and!; [exact E2|simpl in *; congruence|by constructor].
  - rewrite bool_decide_false in * by done. 
    destruct (IH Hwf f start rest (acc ++ [s'])) as (ch' & d & E2 & He2 & Hw2);
      [lia|apply Forall_app; by repeat constructor|].
    exists (s' :: ch'), d. rewrite <- app_assoc in E2. split_and!; [|cbn [map] in *; congruence|by constructor].
    etrans; [|exact E2]. destruct f as [|f]; [lia|]. cbn [list_elements app span]. 
    change (is_type type_space " "%cc) with true. cbv iota. 
    by destruct (span (is_type type_space) (joined _ _ ++ _)).
Qed.

Lemma skel_parses_back s : parses_back s.
Proof.
  induction s as [a d ch IH] using skel_nested_ind. intros Hwf fuel rest Hf Hrest.
  destruct a.
  - inversion Hwf; subst. cbn [skel_text is_atom data] in *.
    exists (mk_skel true d []). rewrite parse_atom_text by (done || lia). done.
  - inversion Hwf as [|? ? Hch]; subst. cbn [skel_text is_atom children] in *.
    destruct fuel as [|f]; [simpl in Hf; lia|]. rewrite <- app_comm_cons, <- app_assoc.
    cbn [app parse]. rewrite Z.eqb_refl.
    simpl length in Hf. rewrite length_app in Hf. simpl in Hf.
    destruct (list_elements_text ch IH Hch f ("("%cc :: joined (map skel_text ch) [" "%cc] ++ ")"%cc :: rest) rest [])
      as (ch' & d' & E & He & Hw); [lia|done|].
    exists (mk_skel false d' ch'). rewrite E. split_and!; [done| |by constructor].
    cbn [erase is_atom children]. by rewrite He.
Qed.

(** The skel is read back, up to the text of its lists. *)
Lemma skel_parse_text s rest :
  well_formed s -> delimited rest ->
  exists s', svn_skel__parse (skel_text s ++ rest) = Ok (Some s') /\ erase s' = erase s /\ well_formed s'.
Proof.
  intros Hwf Hrest. unfold svn_skel__parse.
  destruct (skel_parses_back s Hwf (2 * length (skel_text s ++ rest) + 1)%nat rest) as (s' & -> & He & Hw);
    [rewrite length_app; lia|done|]. by exists s'.
Qed.

(** ** Every text *)

Lemma implicit_atom_shorter data s rest :
  implicit_atom data = Some (s, rest) -> (length rest < length data)%nat /\ well_formed s.
Proof.
  unfold implicit_atom. destruct data as [|c data]; [done|]. destruct (is_type _ _); [|done].
  destruct (span _ data) as [name r] eqn:E. apply span_spec in E as (-> & _).
  intros [= <- <-]. simpl. rewrite length_app. split; [lia|constructor].
Qed.

Lemma explicit_atom_shorter data s rest :
  explicit_atom data = Some (s, rest) -> (length rest < length data)%nat /\ well_formed s.
Proof.
  unfold explicit_atom. destruct (getsize _ _) as [[size [|c r]]|] eqn:E; [done| |done].
  apply getsize_shorter in E. simpl in E. destruct (is_type _ _); [|done]. destruct (_ <? _); [done|].
  intros [= <- <-]. rewrite length_drop. split; [lia|constructor].
Qed.

(** What parsing returns is well-formed and a proper start of the text. *)
Definition parse_returns (data : bytes) (r : result (option (svn_skel_t * bytes))) : Prop :=
  r = Ok None \/ exists s rest, r = Ok (Some (s, rest)) /\ (length rest < length data)%nat /\ well_formed s.

Lemma parse_total fuel :
  (forall data, (2 * length data + 1 <= fuel)%nat -> parse_returns data (parse fuel data)) /\
  (forall start data acc, (2 * length data + 2 <= fuel)%nat -> Forall well_formed acc ->
     parse_returns data (list_elements fuel start data acc)).
Proof.
  induction fuel as [|f [IHp IHl]]; [split; intros; lia|]. split.
  - intros data Hf. cbn [parse]. destruct data as [|c rest]; [by left|]. simpl length in Hf.
    destruct (c =? _).
    { destruct (IHl (c :: rest) rest []) as [->|(s & r & -> & Hl & Hw)]; [lia|done|by left|].
      right. exists s, r. simpl. split_and!; [done|lia|done]. }
    destruct (is_type _ _).
    + destruct (implicit_atom _) as [[s r]|] eqn:E; [right|by left].
      apply implicit_atom_shorter in E as []. eauto.
    + destruct (explicit_atom _) as [[s r]|] eqn:E; [right|by left].
      apply explicit_atom_shorter in E as []. eauto.
  - intros start data acc Hf Hacc. cbn [list_elements].
    pose proof (span_length (is_type type_space) data) as Hsp.
    destruct (span _ data).2 as [|c rest] eqn:E; [by left|]. simpl length in Hsp.
    destruct (c =? _).
    { right. eexists _, _. split; [done|]. split; [lia|by constructor]. }
    destruct (IHp (c :: rest)) as [->|(s & r & -> & Hl & Hw)]; [simpl; lia|by left|].
    cbn [mbind result_bind].
    destruct (IHl start r (acc ++ [s])) as [->|(s' & r' & -> & Hl' & Hw')];
      [simpl in Hl; lia|apply Forall_app; by repeat constructor|by left|].
    right. exists s', r'. simpl in Hl. split_and!; [done|lia|done].
Qed.

Lemma skel_parse_total data :
  svn_skel__parse data = Ok None \/ exists s, svn_skel__parse data = Ok (Some s) /\ well_formed s.
Proof.
  unfold svn_skel__parse.
  destruct (proj1 (parse_total (2 * length data + 1)%nat) data) as [->|(s & r & -> & _ & Hw)];
    [lia|by left|right; eauto].
Qed.

(** ** Property lists *)

Lemma even_length (n : Z) : 0 <= n -> (Z.land n 1 =? 0) = Z.even n.
Proof.
  intros _. change 1 with (Z.ones 1). rewrite Z.land_ones by lia. rewrite Zeven_mod.
  change (2 ^ 1) with 2. done.
Qed.

(** The atoms of a list of pairs. *)
Definition pair_atoms (l : list (bytes * bytes)) : list svn_skel_t :=
  concat (map (fun kv => [svn_skel__mem_atom kv.1; svn_skel__mem_atom kv.2]) l).

(** A list of atoms of even length is a list of pairs. *)
Lemma pairs_of_atoms ch n :
  length ch = (2 * n)%nat -> Forall well_formed ch -> forallb is_atom ch = true ->
  exists l, ch = pair_atoms l.
Proof.
  revert ch. induction n as [|n IH]; intros ch Hl Hwf Ha; [exists []; by destruct ch|].
  destruct ch as [|a [|b ch]]; [done|simpl in Hl; lia|]. simpl in Hl, Ha.
  apply andb_true_iff in Ha as [Hta [Htb Htl]%andb_true_iff].
  apply Forall_cons in Hwf as [Hwa [Hwb Hwf]%Forall_cons].
  destruct (IH ch) as [l ->]; [lia|done|done|].
  inversion Hwa; subst; [|done]. inversion Hwb; subst; [|done].
  by eexists ((_, _) :: l).
Qed.

Lemma pair_atoms_valid l d : is_valid_proplist_skel (mk_skel false d (pair_atoms l)) = true.
Proof.
  unfold is_valid_proplist_skel. cbn [svn_skel__list_length is_atom children].
  rewrite even_length by apply zlen_nonneg. apply andb_true_iff. split.
  - apply andb_true_iff. split; [apply Z.leb_le, zlen_nonneg|].
    induction l as [|[k v] l IH]; [done|]. unfold pair_atoms in *. cbn [map concat app].
    rewrite !zlen_cons. replace (1 + (1 + _)) with (zlen (concat (map (fun kv : bytes * bytes => [svn_skel__mem_atom kv.1; svn_skel__mem_atom kv.2]) l)) + 2 * 1) by lia.
    by rewrite Z.even_add_mul_2.
  - induction l as [|[k v] l IH]; [done|exact IH].
Qed.

Lemma valid_proplist_pairs s :
  well_formed s -> is_valid_proplist_skel s = true -> exists l d, s = mk_skel false d (pair_atoms l).
Proof.
  intros Hwf. unfold is_valid_proplist_skel. destruct s as [a d ch]. cbn [svn_skel__list_length is_atom children].
  destruct a; [done|]. rewrite even_length by apply zlen_nonneg.
  intros [[_ He]%andb_true_iff Ha]%andb_true_iff.
  apply Zeven_bool_iff in He. destruct (Zeven_ex _ He) as [m Hm].
  destruct (pairs_of_atoms ch (Z.to_nat m)) as [l ->]; [zlen_lia|by inversion Hwf|done|].
  by exists l, d.
Qed.

Lemma proplist_loop_pairs l m :
  proplist_loop (pair_atoms l) m = Ok (foldl (fun m kv => <[kv.1 := kv.2]> m) m l).
Proof. revert m. induction l as [|[k v] l IH]; intros m; [done|]. apply IH. Qed.

Lemma foldl_insert_lookup (l : list (bytes * bytes)) (m : gmap bytes bytes) k :
  NoDup l.*1 ->
  foldl (fun m kv => <[kv.1 := kv.2]> m) m l !! k
  = match (list_to_map l : gmap bytes bytes) !! k with Some v => Some v | None => m !! k end.
Proof.
  revert m. induction l as [|[k' v] l IH]; intros m; simpl; [by rewrite lookup_empty|].
  intros [Hk Hnd]%NoDup_cons. rewrite IH by done.
  destruct (decide (k = k')) as [->|Hne].
  - rewrite not_elem_of_list_to_map_1 by done. by rewrite !lookup_insert_eq.
  - by rewrite !lookup_insert_ne by done.
Qed.

Lemma proplist_of_pairs (l : list (bytes * bytes)) (d : bytes) (m : gmap bytes bytes) :
  l ≡ₚ map_to_list m ->
  svn_skel__parse_proplist (mk_skel false d (pair_atoms l)) = Ok m.
Proof.
  intros Hl. unfold svn_skel__parse_proplist. rewrite pair_atoms_valid. cbn [negb children].
  rewrite proplist_loop_pairs. f_equal. apply map_eq. intros k.
  assert (NoDup l.*1) as Hnd by (rewrite Hl; apply NoDup_fst_map_to_list).
  rewrite foldl_insert_lookup by done.
  rewrite (list_to_map_proper l (map_to_list m)), list_to_map_to_list, lookup_empty by done.
  by destruct (m !! k).
Qed.

(** The first value of a name is the only one. *)
Lemma prop_loop_pairs (l : list (bytes * bytes)) (k : bytes) :
  NoDup l.*1 -> prop_loop (pair_atoms l) k = Ok ((list_to_map l : gmap bytes bytes) !! k).
Proof.
  induction l as [|[k' v] l IH]; [done|]. intros [_ Hnd]%NoDup_cons.
  unfold pair_atoms in *. cbn [map concat app prop_loop svn_skel__mem_atom data fst snd].
  case_bool_decide as Hk; simpl.
  - subst. by rewrite lookup_insert_eq.
  - rewrite lookup_insert_ne by done. by apply IH.
Qed.

Lemma prop_of_pairs (l : list (bytes * bytes)) (d : bytes) (m : gmap bytes bytes) k :
  l ≡ₚ map_to_list m ->
  svn_skel__parse_prop (mk_skel false d (pair_atoms l)) k = Ok (m !! k).
Proof.
  intros Hl. unfold svn_skel__parse_prop. rewrite pair_atoms_valid. cbn [negb children].
  assert (NoDup l.*1) as Hnd by (rewrite Hl; apply NoDup_fst_map_to_list).
  rewrite prop_loop_pairs by done.
  by rewrite (list_to_map_proper l (map_to_list m)), list_to_map_to_list by done.
Qed.

Section Proplists.
Context `{HashOrder}.

Lemma prepend_props l l0 d :
  for_each prepend_prop l (mk_skel false d (pair_atoms l0)) = Ok (mk_skel false d (pair_atoms (reverse l ++ l0))).
Proof.
  revert l0. induction l as [|[k v] l IH]; intros l0; [done|].
  cbn [for_each]. unfold prepend_prop at 1, svn_skel__prepend. cbn [is_atom negb c_assert data children].
  simpl. rewrite reverse_cons, <- app_assoc. apply (IH ((k, v) :: l0)).
Qed.

Lemma unparse_hash m :
  for_each prepend_prop (hash_items m) svn_skel__make_empty_list
  = Ok (mk_skel false [] (pair_atoms (reverse (hash_items m)))).
Proof. rewrite <- (app_nil_r (reverse _)). apply (prepend_props _ []). Qed.

Lemma reverse_items (m : gmap bytes bytes) : reverse (hash_items m) ≡ₚ map_to_list m.
Proof. by rewrite reverse_Permutation, hash_items_perm. Qed.

Lemma unparse_proplist_pairs m :
  svn_skel__unparse_proplist (Some m) = Ok (mk_skel false [] (pair_atoms (reverse (hash_items m)))).
Proof. unfold svn_skel__unparse_proplist. rewrite unparse_hash. cbn [mbind result_bind]. by rewrite pair_atoms_valid. Qed.

(** *** Inherited properties *)

Definition iprop_skels (iprops : list (bytes * gmap bytes bytes)) : list svn_skel_t :=
  concat (map (fun ip => [svn_skel__str_atom ip.1; mk_skel false [] (pair_atoms (reverse (hash_items ip.2)))]) iprops).

Lemma unparse_iprops_pairs iprops ch :
  unparse_iprops_loop iprops (mk_skel false [] ch) = Ok (mk_skel false [] (ch ++ iprop_skels iprops)).
Proof.
  revert ch. induction iprops as [|[p m] iprops IH]; intros ch; cbn [unparse_iprops_loop].
  { by rewrite app_nil_r. }
  rewrite unparse_hash. simpl. rewrite IH, <- !app_assoc. done.
Qed.

Lemma iprop_skels_valid iprops d : is_valid_iproplist_skel (mk_skel false d (iprop_skels iprops)) = true.
Proof.
  unfold is_valid_iproplist_skel. cbn [svn_skel__list_length is_atom children].
  rewrite even_length by apply zlen_nonneg. rewrite (proj2 (Z.leb_le 0 _)) by apply zlen_nonneg.
  assert (Z.even (zlen (iprop_skels iprops)) = true) as ->.
  { induction iprops as [|ip iprops IH]; [done|]. unfold iprop_skels in *. cbn [map concat app].
    rewrite !zlen_cons, Z.add_assoc, Z.add_comm. change (1 + 1) with (2 * 1). by rewrite Z.even_add_mul_2. }
  simpl. induction iprops as [|ip iprops IH]; [done|]. unfold iprop_skels in *.
  cbn [map concat app valid_iprops_loop]. by rewrite pair_atoms_valid.
Qed.

Lemma unparse_iproplist_skels iprops :
  svn_skel__unparse_iproplist (Some iprops) = Ok (mk_skel false [] (iprop_skels iprops)).
Proof.
  unfold svn_skel__unparse_iproplist, svn_skel__make_empty_list. rewrite (unparse_iprops_pairs iprops []). simpl.
  by rewrite iprop_skels_valid.
Qed.
End Proplists.

(** *** What erasing leaves *)

Lemma erase_atom s d : well_formed s -> erase s = mk_skel true d [] -> s = mk_skel true d [].
Proof. intros Hwf. inversion Hwf; subst; cbn; congruence. Qed.

Lemma erase_pair_atoms l : map erase (pair_atoms l) = pair_atoms l.
Proof. induction l as [|[k v] l IH]; [done|]. unfold pair_atoms in *. cbn. by rewrite IH. Qed.

Lemma erase_pairs_inv ch l :
  Forall well_formed ch -> map erase ch = pair_atoms l -> ch = pair_atoms l.
Proof.
  revert ch. induction l as [|[k v] l IH]; intros ch Hwf E; [by destruct ch|].
  destruct ch as [|a [|b ch]]; [done|done|]. unfold pair_atoms in *. cbn in E. injection E as Ea Eb E.
  apply Forall_cons in Hwf as [Hwa [Hwb Hwf]%Forall_cons].
  apply erase_atom in Ea as ->; [|done]. apply erase_atom in Eb as ->; [|done].
  cbn. by rewrite (IH ch) by done.
Qed.

Lemma erase_list_inv s ch :
  well_formed s -> erase s = mk_skel false [] ch -> exists d ch', s = mk_skel false d ch' /\
    map erase ch' = ch /\ Forall well_formed ch'.
Proof.
  intros Hwf. inversion Hwf as [|d ch' Hch]; subst; cbn; [done|]. intros [= <-]. eauto.
Qed.

Lemma erase_proplist_inv s l :
  well_formed s -> erase s = mk_skel false [] (pair_atoms l) -> exists d, s = mk_skel false d (pair_atoms l).
Proof.
  intros Hwf (d & ch & -> & E & Hch)%erase_list_inv; [|done].
  exists d. by rewrite (erase_pairs_inv ch l).
Qed.

(** Text without a NUL is all of the C string. *)
(** Inherited properties are read from a skel that erases to theirs. *)
Lemma iprops_read `{HashOrder} iprops : forall ch acc,
  Forall (fun ip => Forall (fun c => c <> 0) ip.1) iprops -> Forall well_formed ch ->
  map erase ch = iprop_skels iprops ->
  valid_iprops_loop ch = true /\ length ch = (2 * length iprops)%nat /\
  iprops_loop ch acc = Ok (acc ++ iprops).
Proof.
  induction iprops as [|[p m] iprops IH]; intros ch acc Hp Hwf E.
  { destruct ch; [|done]. by rewrite app_nil_r. }
  destruct ch as [|a [|b ch]]; [done|done|]. unfold iprop_skels in E. cbn in E. injection E as Ea Eb E.
  apply Forall_cons in Hwf as [Hwa [Hwb Hwf]%Forall_cons]. apply Forall_cons in Hp as [Hp0 Hp].
  apply erase_atom in Ea as ->; [|done]. apply erase_proplist_inv in Eb as [d ->]; [|done].
  destruct (IH ch (acc ++ [(p, m)]) Hp Hwf E) as (Hv & Hl & Hr).
  cbn [valid_iprops_loop iprops_loop is_atom negb data]. rewrite pair_atoms_valid. cbn [negb].
  rewrite (proplist_of_pairs _ d m) by apply reverse_items. cbn [mbind result_bind].
  rewrite c_str_no_nul, Hr, <- app_assoc by done. split_and!; [done|simpl; lia|done].
Qed.

Lemma parse_iprops_erased `{HashOrder} s iprops :
  Forall (fun ip => Forall (fun c => c <> 0) ip.1) iprops -> well_formed s ->
  erase s = mk_skel false [] (map erase (iprop_skels iprops)) ->
  svn_skel__parse_iprops s = Ok iprops.
Proof.
  intros Hp Hwf (d & ch & -> & E & Hch)%erase_list_inv; [|done].
  assert (map erase (iprop_skels iprops) = iprop_skels iprops) as Eid.
  { clear. induction iprops as [|[p m] iprops IH]; [done|]. unfold iprop_skels in *. cbn.
    by rewrite IH, erase_pair_atoms. }
  rewrite Eid in E. destruct (iprops_read iprops ch [] Hp Hch E) as (Hv & Hl & Hr).
  unfold svn_skel__parse_iprops, is_valid_iproplist_skel. cbn [svn_skel__list_length is_atom children].
  rewrite even_length by apply zlen_nonneg. rewrite Hv, (proj2 (Z.leb_le 0 _)) by apply zlen_nonneg.
  assert (zlen ch = 0 + 2 * zlen iprops) as -> by zlen_lia. rewrite Z.even_add_mul_2. cbn. by rewrite Hr.
Qed.

(** Every other skel is refused. *)
Lemma parse_proplist_error s :
  is_valid_proplist_skel s = false -> svn_skel__parse_proplist s = Err SVN_ERR_FS_MALFORMED_SKEL.
Proof. unfold svn_skel__parse_proplist. by intros ->. Qed.

Lemma pair_atoms_well_formed l d : well_formed (mk_skel false d (pair_atoms l)).
Proof.
  constructor. induction l as [|[k v] l IH]; [constructor|]. unfold pair_atoms in *. cbn.
  repeat constructor. exact IH.
Qed.

Lemma iprop_skels_well_formed `{HashOrder} iprops d : well_formed (mk_skel false d (iprop_skels iprops)).
Proof.
  constructor. induction iprops as [|[p m] iprops IH]; [constructor|]. unfold iprop_skels in *. cbn.
  constructor; [constructor|]. constructor; [apply pair_atoms_well_formed|exact IH].
Qed.

(** ** Building and examining *)

(** A copy is the same skel. *)
Lemma dup_erase s b : erase (svn_skel__dup s b) = erase s.
Proof.
  induction s as [a d ch IH] using skel_nested_ind. cbn [svn_skel__dup erase is_atom data children].
  f_equal; [by destruct a, b|]. rewrite map_map. by apply map_ext_Forall.
Qed.

(** Adding to a list at either end. *)
Lemma list_grows s d ch :
  svn_skel__prepend s (mk_skel false d ch) = Ok (mk_skel false d (s :: ch)) /\
  svn_skel__append (mk_skel false d ch) s = Ok (mk_skel false d (ch ++ [s])) /\
  svn_skel__list_length (Some (mk_skel false d (s :: ch))) = 1 + zlen ch /\
  svn_skel__list_length (Some (mk_skel false d (ch ++ [s]))) = 1 + zlen ch.
Proof. split_and!; [done..| |]; cbn [svn_skel__list_length is_atom children]; zlen_lia. Qed.

(** Adding to an atom stops the program. *)
Lemma atom_does_not_grow s d ch :
  svn_skel__prepend s (mk_skel true d ch) = Err C_ABORT /\
  svn_skel__append (mk_skel true d ch) s = Err C_ABORT /\
  svn_skel__list_length (Some (mk_skel true d ch)) = -1.
Proof. done. Qed.

Lemma matches_atom_iff s str :
  well_formed s -> svn_skel__matches_atom (Some s) str = true <-> s = svn_skel__str_atom str.
Proof.
  intros Hwf. unfold svn_skel__matches_atom. rewrite andb_true_iff, bool_decide_eq_true.
  inversion Hwf; subst; cbn; [|by split; [intros []|]]. unfold svn_skel__str_atom. naive_solver.
Qed.

(** * The properties of skels

    The theorems on [Skel], each with an instance at a concrete skel, and
    examples of texts that the documented syntax does not have. *)

(** The text in a buffer. *)
Definition contents (str : svn_stringbuf_t) : bytes := take (Z.to_nat (sb_len str)) (sb_data str).

Lemma contents_holds str s : holds str s -> contents str = s.
Proof.
  intros (Hl & _ & junk & Hd). unfold contents. rewrite Hl, Hd. unfold zlen.
  by rewrite Nat2Z.id, take_app_length.
Qed.

(** C25: Writing a well-formed skel succeeds within the block of estimated size,
    and parsing what was written, with or without white space or a parenthesis
    behind it, gives the skel back, up to the text of its lists. *)
Theorem skel_write_read `{Allocator} s rest :
  well_formed s -> zlen (skel_text s) < SKEL_BOUND -> delimited rest ->
  zlen (skel_text s) <= estimate_unparsed_size s /\
  exists str s', svn_skel__unparse s = Ok str /\ holds str (skel_text s) /\
    svn_skel__parse (contents str ++ rest) = Ok (Some s') /\ erase s' = erase s.
Proof.
  intros Hwf Hb Hrest. split; [by apply estimate_bounds|].
  destruct (skel_unparse_holds s Hb) as (str & E & Hstr).
  destruct (skel_parse_text s rest Hwf Hrest) as (s' & Ep & He & _).
  exists str, s'. by rewrite (contents_holds _ _ Hstr).
Qed.

Definition sample_skel : svn_skel_t :=
  mk_skel false [] [svn_skel__str_atom (cstr "file"); svn_skel__mem_atom [0; 40; 255];
                    mk_skel false [] []; svn_skel__str_atom []].

Lemma skel_write_read_witness :
  skel_text sample_skel = cstr "(file 3 " ++ [0; 40; 255] ++ cstr " () 0 )" /\
  zlen (skel_text sample_skel) <= estimate_unparsed_size sample_skel /\
  exists str s', svn_skel__unparse (H := filled 170) sample_skel = Ok str /\
    holds str (skel_text sample_skel) /\
    svn_skel__parse (contents str ++ cstr " x") = Ok (Some s') /\ erase s' = erase sample_skel.
Proof.
  split; [by vm_compute|]. apply (skel_write_read (H := filled 170)); [|by vm_compute|by vm_compute].
  repeat constructor.
Defined.

(** C26: Parsing terminates on every text, and returns a null pointer or a
    well-formed skel; writing that skel and parsing the text gives the same
    skel. *)
Theorem skel_parse_every `{Allocator} data :
  svn_skel__parse data = Ok None \/
  exists s, svn_skel__parse data = Ok (Some s) /\ well_formed s /\
    (zlen (skel_text s) < SKEL_BOUND ->
     exists str s', svn_skel__unparse s = Ok str /\ svn_skel__parse (contents str) = Ok (Some s') /\
       erase s' = erase s).
Proof.
  destruct (skel_parse_total data) as [->|(s & -> & Hwf)]; [by left|right].
  exists s. split_and!; [done..|]. intros Hb.
  destruct (skel_unparse_holds s Hb) as (str & E & Hstr).
  destruct (skel_parse_text s [] Hwf I) as (s' & Ep & He & _). rewrite app_nil_r in Ep.
  exists str, s'. by rewrite (contents_holds _ _ Hstr).
Qed.

(** C27: A property list and the inherited properties of paths survive the way
    through skels and text, whatever the iteration order of the hash tables:
    what is parsed is what was unparsed, and every property is found under its
    name; skels that are not lists of pairs of atoms are refused. *)
Theorem proplist_roundtrip `{Allocator, HashOrder} (m : gmap bytes bytes)
    (iprops : list (bytes * gmap bytes bytes)) bad name :
  Forall (fun ip => Forall (fun c => c <> 0) ip.1) iprops ->
  (exists skel, svn_skel__unparse_proplist (Some m) = Ok skel /\
     (zlen (skel_text skel) < SKEL_BOUND ->
      exists str s, svn_skel__unparse skel = Ok str /\ svn_skel__parse (contents str) = Ok (Some s) /\
        svn_skel__parse_proplist s = Ok m /\ svn_skel__parse_prop s name = Ok (m !! name))) /\
  (exists skel, svn_skel__unparse_iproplist (Some iprops) = Ok skel /\
     (zlen (skel_text skel) < SKEL_BOUND ->
      exists str s, svn_skel__unparse skel = Ok str /\ svn_skel__parse (contents str) = Ok (Some s) /\
        svn_skel__parse_iprops s = Ok iprops)) /\
  (well_formed bad -> svn_skel__parse_proplist bad = Err SVN_ERR_FS_MALFORMED_SKEL \/
     exists l d, bad = mk_skel false d (pair_atoms l)).
Proof.
  intros Hp. rewrite unparse_proplist_pairs, unparse_iproplist_skels. split_and!.
  - eexists. split; [done|]. intros Hb. destruct (skel_unparse_holds _ Hb) as (str & E & Hstr).
    destruct (skel_parse_text _ [] (pair_atoms_well_formed (reverse (hash_items m)) []) I)
      as (s & Ep & He & Hw). rewrite app_nil_r in Ep.
    exists str, s. rewrite (contents_holds _ _ Hstr). split_and!; [done..| |];
      cbn [erase is_atom children] in He; rewrite erase_pair_atoms in He;
      apply erase_proplist_inv in He as [d ->]; try done.
    + apply proplist_of_pairs, reverse_items.
    + apply prop_of_pairs, reverse_items.
  - eexists. split; [done|]. intros Hb. destruct (skel_unparse_holds _ Hb) as (str & E & Hstr).
    destruct (skel_parse_text _ [] (iprop_skels_well_formed iprops []) I) as (s & Ep & He & Hw).
    rewrite app_nil_r in Ep. exists str, s. rewrite (contents_holds _ _ Hstr).
    split_and!; [done..|]. by apply parse_iprops_erased.
  - intros Hwf. destruct (is_valid_proplist_skel bad) eqn:E.
    + right. by apply valid_proplist_pairs.
    + left. by apply parse_proplist_error.
Qed.

Definition sample_props : gmap bytes bytes :=
  {[cstr "svn:eol-style" := cstr "native"; cstr "p" := [0; 1]]}.

Lemma proplist_roundtrip_witness :
  (exists skel, svn_skel__unparse_proplist (H := map_order) (Some sample_props) = Ok skel /\
     (zlen (skel_text skel) < SKEL_BOUND ->
      exists str s, svn_skel__unparse (H := filled 170) skel = Ok str /\
        svn_skel__parse (contents str) = Ok (Some s) /\ svn_skel__parse_proplist s = Ok sample_props /\
        svn_skel__parse_prop s (cstr "p") = Ok (sample_props !! cstr "p"))) /\
  (exists skel, svn_skel__unparse_iproplist (H := map_order)
                  (Some [(cstr "/trunk", sample_props); ([], ∅)]) = Ok skel /\
     (zlen (skel_text skel) < SKEL_BOUND ->
      exists str s, svn_skel__unparse (H := filled 170) skel = Ok str /\
        svn_skel__parse (contents str) = Ok (Some s) /\
        svn_skel__parse_iprops s = Ok [(cstr "/trunk", sample_props); ([], ∅)])) /\
  (well_formed (svn_skel__str_atom (cstr "a")) ->
     svn_skel__parse_proplist (svn_skel__str_atom (cstr "a")) = Err SVN_ERR_FS_MALFORMED_SKEL \/
     exists l d, svn_skel__str_atom (cstr "a") = mk_skel false d (pair_atoms l)).
Proof.
  apply (proplist_roundtrip (H := filled 170) (H0 := map_order) sample_props
           [(cstr "/trunk", sample_props); ([], ∅)]). by_evaluation.
Defined.

(** ** Texts outside of the documented syntax *)

(** Brackets end an atom without a length, as parentheses do. *)
Example brackets_end_atoms :
  svn_skel__parse (cstr "a[b]") = Ok (Some (svn_skel__str_atom (cstr "a"))) /\
  use_implicit (svn_skel__str_atom (cstr "a[b]")) = false.
Proof. by vm_compute. Qed.

(** No white space is needed behind an atom with a length. *)
Example atoms_without_space :
  svn_skel__parse (cstr "(1 a1 bcd)")
  = Ok (Some (mk_skel false (cstr "(1 a1 bcd)")
                [svn_skel__str_atom (cstr "a"); svn_skel__str_atom (cstr "b"); svn_skel__str_atom (cstr "cd")])).
Proof. by vm_compute. Qed.

(** *** Other operations *)

(** Integers are written and read, and atoms are matched by their contents;
    an integer with a NUL inside is cut there. *)
Lemma prepend_int_parse n l :
  - 2 ^ 63 <= n < 2 ^ 63 -> is_atom l = false ->
  exists atom, svn_skel__prepend_int n l = Ok (mk_skel false (data l) (atom :: children l)) /\
    svn_skel__parse_int atom = Ok n.
Proof.
  intros Hn Hl. unfold svn_skel__prepend_int. rewrite i64toa_print by done.
  exists (svn_skel__str_atom (print_ld n)). unfold svn_skel__prepend_str, svn_skel__prepend.
  rewrite Hl. split; [done|]. unfold svn_skel__parse_int. cbn [svn_skel__str_atom data].
  rewrite c_str_no_nul.
  - apply strtoi64_iff. unfold INT64_MIN, INT64_MAX.
    split; [apply number_text_print|lia].
  - assert (forall k, 0 <= k -> Forall (fun c => c <> 0) (print_lu k)) as Hlu.
    { intros k Hk. destruct (print_lu_spec k Hk) as (Hds & _). eapply Forall_impl; [exact Hds|].
      intros c Hc ->. by vm_compute in Hc. }
    unfold print_ld. destruct (Z.ltb_spec n 0); [constructor; [done|]|]; apply Hlu; lia.
Qed.
