(* ===== verification/Mergeinfo.v ===== *)
(** * Mergeinfo (libsvn_subr/mergeinfo.c)

    Mergeinfo maps paths to rangelists and a catalog maps paths to mergeinfo.
    This file translates the operations of mergeinfo.c on whole hashes; those
    on rangelists are in [Rangelist], [RangelistMerge] and [RangelistText].  A
    hash that is modified in place is returned; that two hashes may share a
    rangelist afterwards is not modelled.  A [NULL] mergeinfo is [None]. *)

From S2P Require Import Prelude CString Rangelist RangelistMerge RangelistText Paths PathLib Hash.

Notation mergeinfo := (gmap bytes rangelist).
Notation catalog := (gmap bytes (gmap bytes rangelist)).

(** ** Parsing *)

(** The position of the last colon of the line: what precedes it and what
    follows, from the colon on. *)
Fixpoint find_last_colon (curr : bytes) : option (bytes * bytes) :=
  match curr with
  | [] => None
  | c :: rest =>
      if c =? NL then None
      else match find_last_colon rest with
           | Some (before, from_colon) => Some (c :: before, from_colon)
           | None => if c =? ":"%cc then Some ([], curr) else None
           end
  end.

Definition parse_pathname (input : bytes) : result (bytes * bytes) :=
  match find_last_colon input with
  | None => Err SVN_ERR_MERGEINFO_PARSE_ERROR
  | Some (before, from_colon) =>
      match svn_fspath__canonicalize before with
      | Some pathname => Ok (pathname, from_colon)
      | None => Err OUT_OF_FUEL
      end
  end.

Definition parse_revision_line (input : bytes) (hash : mergeinfo)
    : result (bytes * mergeinfo) :=
  '(pathname, input) ← parse_pathname input;
  if negb (deref input =? ":"%cc) then Err SVN_ERR_MERGEINFO_PARSE_ERROR
  else
    '(rl, input) ← parse_rangelist (tail input);
    match rl with
    | [] => Err SVN_ERR_MERGEINFO_PARSE_ERROR
    | _ =>
        if negb (at_end input) then Err SVN_ERR_MERGEINFO_PARSE_ERROR
        else
          let input := tail input in
          rl ← svn_rangelist__canonicalize rl;
          rl ← match hash !! pathname with
               | Some existing_rangelist => svn_rangelist_merge2 rl existing_rangelist
               | None => Ok rl
               end;
          Ok (input, <[pathname := rl]> hash)
    end.

(** Every line takes at least the colon from the input. *)
Fixpoint parse_top (fuel : nat) (input : bytes) (hash : mergeinfo) : result mergeinfo :=
  match input with
  | [] => Ok hash
  | _ =>
      match fuel with
      | O => Err OUT_OF_FUEL
      | S f =>
          '(input, hash) ← parse_revision_line input hash;
          parse_top f input hash
      end
  end.

(** All errors are reported as parse errors. *)
Definition svn_mergeinfo_parse (input : bytes) : result mergeinfo :=
  match parse_top (length input) input ∅ with
  | Ok m => Ok m
  | Err (C_ABORT as e) | Err (C_UNDEFINED as e) | Err (OUT_OF_FUEL as e) => Err e
  | Err _ => Err SVN_ERR_MERGEINFO_PARSE_ERROR
  end.

(** ** Inheritance words *)

Inductive svn_mergeinfo_inheritance_t :=
  | svn_mergeinfo_explicit
  | svn_mergeinfo_inherited
  | svn_mergeinfo_nearest_ancestor.

Definition svn_inheritance_to_word (inherit : svn_mergeinfo_inheritance_t) : bytes :=
  match inherit with
  | svn_mergeinfo_inherited => cstr "inherited"
  | svn_mergeinfo_nearest_ancestor => cstr "nearest-ancestor"
  | _ => cstr "explicit"
  end.

Definition svn_inheritance_from_word (word : bytes) : svn_mergeinfo_inheritance_t :=
  if streq word (cstr "inherited") then svn_mergeinfo_inherited
  else if streq word (cstr "nearest-ancestor") then svn_mergeinfo_nearest_ancestor
  else svn_mergeinfo_explicit.

(** A location segment; [None] is the [NULL] path of a gap. *)
Record svn_location_segment_t := mk_segment {
  range_start : Z;
  range_end : Z;
  segment_path : option bytes
}.

(** One round of the loop of [svn_mergeinfo__mergeinfo_from_segments]. *)
Definition add_segment (mergeinfo_ : mergeinfo) (segment : svn_location_segment_t) : mergeinfo :=
  match segment_path segment with
  | None => mergeinfo_
  | Some path =>
      let source_path := SLASH :: path in
      let path_ranges := default [] (mergeinfo_ !! source_path) in
      if (range_start segment =? 0) && (range_end segment =? 0) then mergeinfo_
      else
        let range := mk_range (Z.max (range_start segment - 1) 0) (range_end segment) true in
        <[source_path := path_ranges ++ [range]]> mergeinfo_
  end.

Definition svn_mergeinfo__mergeinfo_from_segments (segments : list svn_location_segment_t)
    : mergeinfo := fold_left add_segment segments ∅.

(** The loop of [svn_mergeinfo__adjust_mergeinfo_rangelists] on one rangelist:
    the adjusted ranges, and the rangelist whose ranges were adjusted in
    place. *)
Fixpoint adjust_rangelist (rl : rangelist) (offset : Z) : rangelist * rangelist :=
  match rl with
  | [] => ([], [])
  | range :: rl =>
      let '(adjusted, after) := adjust_rangelist rl offset in
      if (0 <? start range + offset) && (0 <? end_ range + offset) then
        let range := mk_range (start range + offset) (end_ range + offset) (inheritable range) in
        (range :: adjusted, range :: after)
      else (adjusted, range :: after)
  end.

(** The comparison of ranges in [svn_mergeinfo__equals], for rangelists of the
    same length. *)
Inductive quick_compare_t := all_match | range_mismatch | inheritance_mismatch.

Fixpoint quick_compare (lhs rhs : rangelist) (consider_inheritance : bool) : quick_compare_t :=
  match lhs, rhs with
  | lrange :: lhs, rrange :: rhs =>
      if negb (start lrange =? start rrange) || negb (end_ lrange =? end_ rrange)
      then range_mismatch
      else if consider_inheritance && negb (eqb (inheritable lrange) (inheritable rrange))
      then inheritance_mismatch
      else quick_compare lhs rhs consider_inheritance
  | _, _ => all_match
  end.

Section Operations.
Context `{HO : HashOrder}.

Definition svn_mergeinfo__set_inheritance (mergeinfo_ : option mergeinfo) (inh : bool)
    : option mergeinfo :=
  option_map (fun m : mergeinfo => (fun rl => svn_rangelist__set_inheritance rl inh) <$> m) mergeinfo_.

(** ** Difference *)

(** The [deleted] and [added] hashes of the baton, where wanted. *)
Definition mergeinfo_hash_diff_cb (from to : mergeinfo) (consider_inheritance : bool)
    (path : bytes) (status : svn_hash_diff_key_status)
    (baton : option mergeinfo * option mergeinfo)
    : result (option mergeinfo * option mergeinfo) :=
  let '(deleted, added) := baton in
  match status with
  | svn_hash_diff_key_both =>
      '(deleted_rangelist, added_rangelist) ←
        svn_rangelist_diff (default [] (from !! path)) (default [] (to !! path))
          consider_inheritance;
      Ok (match deleted, deleted_rangelist with
          | Some d, _ :: _ => Some (<[path := deleted_rangelist]> d)
          | _, _ => deleted
          end,
          match added, added_rangelist with
          | Some a, _ :: _ => Some (<[path := added_rangelist]> a)
          | _, _ => added
          end)
  | svn_hash_diff_key_a =>
      Ok (match deleted with
          | Some d => Some (<[path := default [] (from !! path)]> d)
          | None => deleted
          end, added)
  | svn_hash_diff_key_b =>
      Ok (deleted,
          match added with
          | Some a => Some (<[path := default [] (to !! path)]> a)
          | None => added
          end)
  end.

Definition walk_mergeinfo_hash_for_diff (from to : mergeinfo)
    (deleted added : option mergeinfo) (consider_inheritance : bool)
    : result (option mergeinfo * option mergeinfo) :=
  svn_hash_diff from to (mergeinfo_hash_diff_cb from to consider_inheritance) (deleted, added).

Definition svn_mergeinfo_dup (mergeinfo_ : mergeinfo) : mergeinfo := mergeinfo_.

(** The pair (deleted, added). *)
Definition svn_mergeinfo_diff2 (from to : option mergeinfo) (consider_inheritance : bool)
    : result (mergeinfo * mergeinfo) :=
  match from, to with
  | Some from, None => Ok (svn_mergeinfo_dup from, ∅)
  | None, Some to => Ok (∅, svn_mergeinfo_dup to)
  | None, None => Ok (∅, ∅)
  | Some from, Some to =>
      '(deleted, added) ←
        walk_mergeinfo_hash_for_diff from to (Some ∅) (Some ∅) consider_inheritance;
      Ok (default ∅ deleted, default ∅ added)
  end.

(** ** Equality *)

Fixpoint equals_loop (items : list (bytes * rangelist)) (info2 : mergeinfo)
    (consider_inheritance : bool) : result bool :=
  match items with
  | [] => Ok true
  | (key, lhs) :: items =>
      match info2 !! key with
      | None => Ok false
      | Some rhs =>
          match (if (length lhs =? length rhs)%nat
                 then quick_compare lhs rhs consider_inheritance else range_mismatch) with
          | all_match => equals_loop items info2 consider_inheritance
          | inheritance_mismatch => Ok false
          | range_mismatch =>
              '(deleted, added) ← svn_rangelist_diff lhs rhs consider_inheritance;
              match deleted, added with
              | [], [] => equals_loop items info2 consider_inheritance
              | _, _ => Ok false
              end
          end
      end
  end.

Definition svn_mergeinfo__equals (info1 info2 : option mergeinfo)
    (consider_inheritance : bool) : result bool :=
  match info1, info2 with
  | None, None => Ok true
  | None, Some _ | Some _, None => Ok false
  | Some info1, Some info2 =>
      if negb (size info1 =? size info2)%nat then Ok false
      else equals_loop (hash_items info1) info2 consider_inheritance
  end.

(** ** Merging *)

(** One round of the loop. *)
Definition merge2_entry (key : bytes) (to_insert : rangelist) (m : mergeinfo)
    : result mergeinfo :=
  match m !! key with
  | Some target => target ← svn_rangelist_merge2 target to_insert; Ok (<[key := target]> m)
  | None => Ok (<[key := to_insert]> m)
  end.

Definition svn_mergeinfo_merge2 (mergeinfo_ changes : mergeinfo) : result mergeinfo :=
  if (size changes =? 0)%nat then Ok mergeinfo_
  else for_each merge2_entry (hash_items changes) mergeinfo_.

(** The simultaneous walk over the two sorted catalogs. *)
Fixpoint catalog_merge_loop (fuel : nat) (sorted_cat sorted_changes : list (bytes * mergeinfo))
    (mergeinfo_cat : catalog) : result catalog :=
  match sorted_cat, sorted_changes with
  | cat_elt :: sorted_cat', change_elt :: sorted_changes' =>
      match fuel with
      | O => Err OUT_OF_FUEL
      | S f =>
          res ← svn_path_compare_paths cat_elt.1 change_elt.1;
          if res =? 0 then
            m ← svn_mergeinfo_merge2 cat_elt.2 change_elt.2;
            catalog_merge_loop f sorted_cat' sorted_changes' (<[cat_elt.1 := m]> mergeinfo_cat)
          else if res <? 0 then
            catalog_merge_loop f sorted_cat' sorted_changes mergeinfo_cat
          else
            catalog_merge_loop f sorted_cat sorted_changes'
              (<[change_elt.1 := svn_mergeinfo_dup change_elt.2]> mergeinfo_cat)
      end
  | _, _ =>
      Ok (fold_left (fun cat elt => <[elt.1 := svn_mergeinfo_dup elt.2]> cat)
            sorted_changes mergeinfo_cat)
  end.

Definition svn_mergeinfo_catalog_merge (mergeinfo_cat changes_cat : catalog) : result catalog :=
  sorted_cat ← svn_sort__hash mergeinfo_cat;
  sorted_changes ← svn_sort__hash changes_cat;
  catalog_merge_loop (length sorted_cat + length sorted_changes) sorted_cat sorted_changes
    mergeinfo_cat.

(** ** Intersection and removal *)

(** The entry that is stored for one path, unless it is empty. *)
Definition nonempty (rl : rangelist) : option rangelist :=
  match rl with [] => None | _ => Some rl end.

Definition svn_mergeinfo_intersect2 (mergeinfo1 mergeinfo2 : mergeinfo)
    (consider_inheritance : bool) : result mergeinfo :=
  for_each (fun path rangelist1 acc =>
    r ← match mergeinfo2 !! path with
        | Some rangelist2 =>
            rl ← svn_rangelist_intersect rangelist1 rangelist2 consider_inheritance;
            Ok (nonempty rl)
        | None => Ok None
        end;
    Ok (match r with Some rl => <[path := rl]> acc | None => acc end))
    (hash_items mergeinfo1) ∅.

Definition svn_mergeinfo_remove2 (eraser whiteboard : mergeinfo)
    (consider_inheritance : bool) : result mergeinfo :=
  '(deleted, _) ←
    walk_mergeinfo_hash_for_diff whiteboard eraser (Some ∅) None consider_inheritance;
  Ok (default ∅ deleted).

(** ** Printing *)

(** The lines of the sorted entries; [prefix] may be the empty string. *)
Fixpoint to_stringbuf_loop (sorted : list (bytes * rangelist)) (prefix output : bytes)
    : result bytes :=
  match sorted with
  | [] => Ok output
  | (key, val) :: sorted' =>
      revlist ← svn_rangelist_to_string val;
      let output := output ++ prefix ++ (if deref key =? SLASH then [] else [SLASH])
                    ++ key ++ [":"%cc] ++ revlist in
      to_stringbuf_loop sorted' prefix
        (match sorted' with [] => output | _ => output ++ [NL] end)
  end.

Definition mergeinfo_to_stringbuf (input : mergeinfo) (prefix : option bytes) : result bytes :=
  if (0 <? size input)%nat then
    sorted ← svn_sort__hash input;
    to_stringbuf_loop sorted (default [] prefix) []
  else Ok [].

Definition svn_mergeinfo_to_string (input : mergeinfo) : result bytes :=
  mergeinfo_to_stringbuf input None.

Fixpoint formatted_string_loop (sorted_catalog : list (bytes * mergeinfo))
    (key_prefix val_prefix : option bytes) (output_buf : bytes) : result bytes :=
  match sorted_catalog with
  | [] => Ok output_buf
  | (path1, m) :: sorted_catalog =>
      mergeinfo_output_buf ← mergeinfo_to_stringbuf m (Some (default [] val_prefix));
      formatted_string_loop sorted_catalog key_prefix val_prefix
        (output_buf ++ default [] key_prefix ++ path1 ++ [NL] ++ mergeinfo_output_buf ++ [NL])
  end.

(** Without SVN_DEBUG. *)
Definition svn_mergeinfo__catalog_to_formatted_string (cat : option catalog)
    (key_prefix val_prefix : option bytes) : result bytes :=
  match cat with
  | Some c =>
      if (size c =? 0)%nat then Ok [NL]
      else sorted_catalog ← svn_sort__hash c;
           formatted_string_loop sorted_catalog key_prefix val_prefix []
  | None => Ok [NL]
  end.

(** ** The other operations *)

Definition svn_mergeinfo_sort (input : mergeinfo) : mergeinfo := sort_ranges <$> input.

Definition svn_mergeinfo__canonicalize_ranges (mergeinfo_ : mergeinfo) : result mergeinfo :=
  for_each (fun key rl m => rl ← svn_rangelist__canonicalize rl; Ok (<[key := rl]> m))
    (hash_items mergeinfo_) mergeinfo_.

Definition svn_mergeinfo_inheritable2 (mergeinfo_ : mergeinfo) (path : option bytes)
    (start_rev end_rev : Z) (inh : bool) : result mergeinfo :=
  for_each (fun key rl acc =>
    r ← (selected ← match path with
                    | None => Ok true
                    | Some path => res ← svn_path_compare_paths path key; Ok (res =? 0)
                    end;
         inheritable_rangelist ←
           (if selected : bool then svn_rangelist_inheritable2 rl start_rev end_rev inh
            else Ok rl);
         Ok (nonempty inheritable_rangelist));
    Ok (match r with Some rl => <[key := rl]> acc | None => acc end))
    (hash_items mergeinfo_) ∅.

(** The hash without the empty rangelists and whether there were any. *)
Definition svn_mergeinfo__remove_empty_rangelists (mergeinfo_ : option mergeinfo)
    : option mergeinfo * bool :=
  match mergeinfo_ with
  | None => (None, false)
  | Some m =>
      let '(m', removed_some_ranges) :=
        fold_left (fun '(m, removed) '(path, rl) =>
            match rl with
            | [] => (delete path m, true)
            | _ => (m, removed)
            end) (hash_items m) (m, false) in
      (Some m', removed_some_ranges)
  end.

Definition svn_mergeinfo__remove_prefix_from_catalog (in_catalog : catalog)
    (prefix_path : bytes) : result catalog :=
  svn_err_assert (deref prefix_path =? SLASH);;
  for_each (fun original_path value out =>
    new_path ← svn_fspath__skip_ancestor prefix_path original_path;
    match new_path with
    | Some new_path => Ok (<[new_path := value]> out)
    | None => Err SVN_ERR_ASSERTION_FAIL
    end) (hash_items in_catalog) ∅.

Definition svn_mergeinfo__add_prefix_to_catalog (in_catalog : catalog)
    (prefix_path : bytes) : result catalog :=
  for_each (fun original_path value out =>
    let original_path := if deref original_path =? SLASH then tail original_path
                         else original_path in
    path ← svn_dirent_join prefix_path original_path;
    Ok (<[path := value]> out)) (hash_items in_catalog) ∅.

Definition svn_mergeinfo__add_suffix_to_mergeinfo (mergeinfo_ : mergeinfo)
    (suffix_relpath : bytes) : result mergeinfo :=
  svn_err_assert (svn_relpath_is_canonical suffix_relpath);;
  for_each (fun fspath rl out =>
    path ← svn_fspath__join fspath suffix_relpath;
    Ok (<[path := rl]> out)) (hash_items mergeinfo_) ∅.

(** The pair (youngest, oldest). *)
Definition svn_mergeinfo__get_range_endpoints (mergeinfo_ : option mergeinfo) : Z * Z :=
  match mergeinfo_ with
  | None => (SVN_INVALID_REVNUM, SVN_INVALID_REVNUM)
  | Some m =>
      fold_left (fun '(youngest_rev, oldest_rev) '(_, rl) =>
          match last rl, head rl with
          | Some r1, Some r2 =>
              (if negb (SVN_IS_VALID_REVNUM youngest_rev) || (youngest_rev <? end_ r1)
               then end_ r1 else youngest_rev,
               if negb (SVN_IS_VALID_REVNUM oldest_rev) || (start r2 <? oldest_rev)
               then start r2 else oldest_rev)
          | _, _ => (youngest_rev, oldest_rev)
          end) (hash_items m) (SVN_INVALID_REVNUM, SVN_INVALID_REVNUM)
  end.

Definition svn_mergeinfo__filter_mergeinfo_by_ranges (mergeinfo_ : option mergeinfo)
    (youngest_rev oldest_rev : Z) (include_range : bool) : result mergeinfo :=
  svn_err_assert (SVN_IS_VALID_REVNUM youngest_rev);;
  svn_err_assert (SVN_IS_VALID_REVNUM oldest_rev);;
  svn_err_assert (oldest_rev <? youngest_rev);;
  match mergeinfo_ with
  | None => Ok ∅
  | Some m =>
      let filter_rangelist := svn_rangelist__initialize oldest_rev youngest_rev true in
      for_each (fun path rl acc =>
        r ← match rl with
            | [] => Ok None
            | _ =>
                new_rangelist ←
                  rangelist_intersect_or_remove filter_rangelist rl (negb include_range) false;
                Ok (nonempty new_rangelist)
            end;
        Ok (match r with Some rl => <[path := rl]> acc | None => acc end))
        (hash_items m) ∅
  end.

Definition svn_mergeinfo__filter_catalog_by_ranges (cat : catalog)
    (youngest_rev oldest_rev : Z) (include_range : bool) : result catalog :=
  for_each (fun path m acc =>
    r ← (filtered ← svn_mergeinfo__filter_mergeinfo_by_ranges (Some m) youngest_rev
                      oldest_rev include_range;
         Ok (if (size filtered =? 0)%nat then None else Some filtered));
    Ok (match r with Some m => <[path := m]> acc | None => acc end)) (hash_items cat) ∅.

(** The adjusted mergeinfo and the argument, whose ranges were changed. *)
Definition svn_mergeinfo__adjust_mergeinfo_rangelists (mergeinfo_ : option mergeinfo)
    (offset : Z) : result mergeinfo * option mergeinfo :=
  match mergeinfo_ with
  | None => (Ok ∅, None)
  | Some m =>
      (for_each (fun path rl acc =>
         r ← Ok (nonempty (adjust_rangelist rl offset).1);
         Ok (match r with Some rl => <[path := rl]> acc | None => acc end)) (hash_items m) ∅,
       Some ((fun rl => (adjust_rangelist rl offset).2) <$> m))
  end.

Definition svn_mergeinfo__is_noninheritable (mergeinfo_ : option mergeinfo) : bool :=
  match mergeinfo_ with
  | None => false
  | Some m => existsb (fun '(_, rl) => existsb (fun r => negb (inheritable r)) rl) (hash_items m)
  end.

Definition svn_rangelist__merge_many (merged_rangelist : rangelist)
    (merge_history : mergeinfo) : result rangelist :=
  if (size merge_history =? 0)%nat then Ok merged_rangelist
  else for_each (fun _ subtree_rangelist merged =>
         svn_rangelist_merge2 merged subtree_rangelist) (hash_items merge_history)
         merged_rangelist.
End Operations.
