(* ===== verification/MergeinfoTheorems.v ===== *)
(** * Facts on mergeinfo

    What the operations on whole mergeinfo record, path by path, in terms of
    the meaning of rangelists ([RangelistSem]), and how mergeinfo is written
    and parsed. *)

From S2P Require Import Prelude CString Rangelist RangelistMerge RangelistText RangelistSem.
From S2P Require Import RangelistMergeFacts Paths PathFacts PathLib PathLibFacts Hash.
From S2P Require Import Mergeinfo.

(** ** Meaning and well-formedness *)

(** The rangelist of a path; a path that is not a key has none. *)
Definition ranges_of (m : mergeinfo) (path : bytes) : rangelist := default [] (m !! path).

(** Every rangelist is sorted, forward and without overlaps. *)
Definition wf_mergeinfo (m : mergeinfo) : Prop := map_Forall (fun _ rl => disjoint_sorted rl) m.

(** Revision [n] of [path] is recorded as merged. *)
Definition merged (m : mergeinfo) (path : bytes) (n : Z) : Prop := covers (ranges_of m path) n.

Lemma wf_lookup m k rl : m !! k = Some rl -> wf_mergeinfo m -> disjoint_sorted rl.
Proof. intros Hk Hwf. by apply (Hwf k). Qed.

Lemma separated_disjoint rl : separated rl -> disjoint_sorted rl.
Proof. intros H. by apply canonical_disjoint_sorted, separated_canonical. Qed.

Lemma separated_nil_iff rl : separated rl -> rl = [] <-> forall n, ~ covers rl n.
Proof.
  intros Hs. split; [intros -> n; apply covers_nil|]. intros Hn.
  destruct rl as [|r rl]; [done|]. destruct Hs as (Hf & _). exfalso.
  apply (Hn (end_ r)). apply covers_cons. left. unfold in_range, forward in *. lia.
Qed.

(** The difference of two rangelists. *)
Lemma rangelist_diff_spec from to :
  disjoint_sorted from -> disjoint_sorted to -> exists deleted added,
    svn_rangelist_diff from to false = Ok (deleted, added) /\
    separated deleted /\ separated added /\
    (forall n, covers deleted n <-> covers from n /\ ~ covers to n) /\
    (forall n, covers added n <-> covers to n /\ ~ covers from n).
Proof.
  intros Hf Ht. unfold svn_rangelist_diff, svn_rangelist_remove.
  destruct (intersect_or_remove_spec true to from Ht Hf) as (d & -> & Hsd & Hd).
  destruct (intersect_or_remove_spec true from to Hf Ht) as (a & -> & Hsa & Ha).
  cbn [mbind result_bind]. eauto 10.
Qed.

Lemma nonempty_default rl : default [] (nonempty rl) = rl.
Proof. by destruct rl. Qed.

Lemma nonempty_Some rl rl' : nonempty rl = Some rl' -> rl' = rl /\ rl <> [].
Proof. destruct rl; [done|]. intros. by simplify_eq/=. Qed.

Section Facts.
Context `{HO : HashOrder}.

(** ** Merging *)

Lemma merge2_body_get (k : bytes) (v : rangelist) (m : mergeinfo) :
  disjoint_sorted v -> disjoint_sorted (default [] (m !! k)) ->
  exists m' : mergeinfo, merge2_entry k v m = Ok m' /\
    (exists rl, m' !! k = Some rl /\ disjoint_sorted rl /\
       forall n, kind_at rl n = union_kind (default [] (m !! k)) v n) /\
    forall k', k' <> k -> m' !! k' = m !! k'.
Proof.
  intros Hv Hm. unfold merge2_entry. destruct (m !! k) as [target|] eqn:Hk; simpl in Hm.
  - destruct (merge2_spec target v) as (rl & -> & Hc & Hu); [done|done|].
    cbn [mbind result_bind]. eexists. split; [done|]. split.
    + exists rl. rewrite lookup_insert_eq. split; [done|].
      split; [by apply canonical_disjoint_sorted|done].
    + intros. by rewrite lookup_insert_ne.
  - eexists. split; [done|]. split.
    + exists v. rewrite lookup_insert_eq. split; [done|]. split; [done|].
      intros n. unfold union_kind. simpl. by rewrite kind_max_none_l.
    + intros. by rewrite lookup_insert_ne.
Qed.

(** Merging records the union, path by path. *)
Lemma mergeinfo_merge2_spec m changes :
  wf_mergeinfo m -> wf_mergeinfo changes -> exists out,
    svn_mergeinfo_merge2 m changes = Ok out /\ wf_mergeinfo out /\
    (forall k, is_Some (out !! k) <-> is_Some (m !! k) \/ is_Some (changes !! k)) /\
    (forall k n, kind_at (ranges_of out k) n =
       kind_max (kind_at (ranges_of m k) n) (kind_at (ranges_of changes k) n)).
Proof.
  intros Hm Hch. unfold svn_mergeinfo_merge2.
  destruct (Nat.eqb_spec (size changes) 0) as [He|_].
  { apply map_size_empty_inv in He as ->. exists m. split; [done|]. split; [done|]. split.
    - intros k. rewrite lookup_empty. split; [tauto|]. intros [?|[? ?]]; done.
    - intros k n. unfold ranges_of. rewrite lookup_empty. simpl. by rewrite kind_max_none_r. }
  assert (Hgen : forall (items : list (bytes * rangelist)) (s : mergeinfo), NoDup items.*1 ->
    (forall k v, (k, v) ∈ items -> disjoint_sorted v /\ disjoint_sorted (default [] (s !! k))) ->
    exists out : mergeinfo,
    for_each merge2_entry items s = Ok out /\
    (forall k v, (k, v) ∈ items -> exists rl, out !! k = Some rl /\ disjoint_sorted rl /\
       forall n, kind_at rl n = union_kind (default [] (s !! k)) v n) /\
    (forall k, k ∉ items.*1 -> out !! k = s !! k)).
  { induction items as [|[k0 v0] items IH]; intros s Hnd Hwf; cbn [for_each].
    { exists s. split_and!; try done. intros k v H. by apply elem_of_nil in H. }
    apply NoDup_cons in Hnd as [Hk0 Hnd]. cbn [fst] in Hk0.
    destruct (Hwf k0 v0) as [Hv0 Hs0]; [by left|].
    destruct (merge2_body_get k0 v0 s Hv0 Hs0) as (s1 & -> & Hget & Hne).
    cbn [mbind result_bind].
    assert (Hfresh : forall k v, (k, v) ∈ items -> k <> k0).
    { intros k v Hkv ->. apply Hk0. apply list_elem_of_fmap. by exists (k0, v). }
    destruct (IH s1 Hnd) as (out & -> & Hin & Hout).
    { intros k v Hkv. rewrite Hne by (by eapply Hfresh). apply Hwf. by right. }
    exists out. split_and!; [done| |].
    - intros k v [Heq|Hv]%elem_of_cons.
      + simplify_eq. by rewrite Hout.
      + rewrite <- (Hne k) by (by eapply Hfresh). by apply Hin.
    - intros k [Hk Hn]%not_elem_of_cons. rewrite Hout by done. by apply Hne. }
  destruct (Hgen (hash_items changes) m) as (out & -> & Hin & Hout).
  { apply hash_items_NoDup. }
  { intros k v Hkv. apply hash_items_elem in Hkv. split; [by eapply wf_lookup|].
    destruct (m !! k) eqn:Hk; [by eapply wf_lookup|done]. }
  clear Hgen.
  assert (Hcase : forall k, (exists v, changes !! k = Some v /\ exists rl, out !! k = Some rl /\
      disjoint_sorted rl /\ forall n, kind_at rl n = union_kind (default [] (m !! k)) v n) \/
    (changes !! k = None /\ out !! k = m !! k)).
  { intros k. destruct (changes !! k) as [v|] eqn:Hk.
    - left. exists v. split; [done|]. apply Hin. by apply hash_items_elem.
    - right. split; [done|]. apply Hout. intros ([k' v'] & -> & Hkv)%list_elem_of_fmap.
      apply hash_items_elem in Hkv. simpl in *. congruence. }
  exists out. split; [done|]. split; [|split].
  - intros k rl Hk. destruct (Hcase k) as [(v & _ & rl' & Hrl & Hd & _)|[_ Heq]].
    + congruence.
    + rewrite Heq in Hk. by eapply wf_lookup.
  - intros k. destruct (Hcase k) as [(v & -> & rl' & -> & _)|[-> ->]].
    + split; [|done]. intros _. right. done.
    + split; [tauto|]. intros [?|[? ?]]; done.
  - intros k n. unfold ranges_of. destruct (Hcase k) as [(v & -> & rl' & -> & _ & Hu)|[-> ->]].
    + simpl. by rewrite Hu.
    + simpl. by rewrite kind_max_none_r.
Qed.

(** ** Intersection, removal, difference *)

Lemma mergeinfo_intersect2_spec m1 m2 :
  wf_mergeinfo m1 -> wf_mergeinfo m2 -> exists out,
    svn_mergeinfo_intersect2 m1 m2 false = Ok out /\
    map_Forall (fun _ rl => separated rl /\ rl <> []) out /\
    forall k n, merged out k n <-> merged m1 k n /\ merged m2 k n.
Proof.
  intros H1 H2. unfold svn_mergeinfo_intersect2.
  set (h := fun (k : bytes) (rl1 : rangelist) => match m2 !! k with
    | Some rl2 => match svn_rangelist_intersect rl1 rl2 false with
                  | Ok rl => nonempty rl | Err _ => None end
    | None => None end).
  destruct (for_each_collect (fun path rangelist1 =>
    match m2 !! path with
    | Some rangelist2 => rl ← svn_rangelist_intersect rangelist1 rangelist2 false; Ok (nonempty rl)
    | None => Ok None
    end) h m1) as (out & -> & Hout).
  { intros k v Hk. unfold h. destruct (m2 !! k) as [rl2|] eqn:Hk2; [|done].
    unfold svn_rangelist_intersect.
    destruct (intersect_or_remove_spec false v rl2) as (rl & -> & _);
      [by eapply wf_lookup|by eapply wf_lookup|done]. }
  exists out. split; [done|].
  assert (Hk : forall k, (separated (ranges_of out k)) /\
    (out !! k <> Some []) /\ forall n, merged out k n <-> merged m1 k n /\ merged m2 k n).
  { intros k. unfold merged, ranges_of. rewrite Hout. unfold h.
    destruct (m1 !! k) as [rl1|] eqn:Hk1; simpl.
    2:{ split_and!; [done|done|]. intros n. pose proof (covers_nil n). tauto. }
    destruct (m2 !! k) as [rl2|] eqn:Hk2; simpl.
    2:{ split_and!; [done|done|]. intros n. pose proof (covers_nil n). tauto. }
    unfold svn_rangelist_intersect.
    destruct (intersect_or_remove_spec false rl1 rl2) as (rl & -> & Hs & Hc);
      [by eapply wf_lookup|by eapply wf_lookup|].
    rewrite nonempty_default. split_and!; [done|by destruct rl|].
    intros n. rewrite Hc. unfold ior_target. tauto. }
  split; [|intros k; apply Hk].
  intros k rl Hrl. destruct (Hk k) as (Hs & Hne & _). unfold ranges_of in Hs.
  rewrite Hrl in Hs, Hne. split; [done|]. intros ->. done.
Qed.

(** What the callback does to the entries of one path. *)
Lemma diff_cb_walk (from to : mergeinfo) (added0 : option mergeinfo) :
  wf_mergeinfo from -> wf_mergeinfo to -> added0 = Some ∅ \/ added0 = None ->
  exists (deleted : mergeinfo) (added : option mergeinfo),
    walk_mergeinfo_hash_for_diff from to (Some ∅) added0 false = Ok (Some deleted, added) /\
    (added = None <-> added0 = None) /\
    (forall k n, merged deleted k n <-> merged from k n /\ ~ merged to k n) /\
    (forall a, added = Some a ->
       forall k n, merged a k n <-> merged to k n /\ ~ merged from k n) /\
    (forall k, is_Some (deleted !! k) -> is_Some (from !! k)) /\ wf_mergeinfo deleted.
Proof.
  intros Hf Ht Ha0. unfold walk_mergeinfo_hash_for_diff, svn_hash_diff.
  set (get := fun (s : option mergeinfo * option mergeinfo) k =>
    (default ∅ s.1 !! k, default ∅ s.2 !! k) : option rangelist * option rangelist).
  set (I := fun s : option mergeinfo * option mergeinfo =>
    is_Some s.1 /\ (s.2 = None <-> added0 = None)).
  set (F := fun (k : bytes) (v : rangelist) (x : option rangelist * option rangelist) =>
    match to !! k with
    | Some rl2 => match svn_rangelist_diff v rl2 false with
        | Ok (d, a) => (match nonempty d with Some d => Some d | None => x.1 end,
                        match added0, nonempty a with Some _, Some a => Some a | _, _ => x.2 end)
        | Err _ => x end
    | None => (Some v, x.2)
    end).
  destruct (for_each_get (fun key (_ : rangelist) baton => match to !! key with
      | Some _ => mergeinfo_hash_diff_cb from to false key svn_hash_diff_key_both baton
      | None => mergeinfo_hash_diff_cb from to false key svn_hash_diff_key_a baton
      end) get F I from (Some ∅, added0)) as (s1 & -> & HI1 & Hget1).
  { split; [done|done]. }
  { intros k v [d a] Hk [[d' Hd] Hi] _. simpl in Hd, Hi. subst d.
    unfold F, get, mergeinfo_hash_diff_cb. cbn [fst snd]. rewrite Hk. cbn [default from_option].
    destruct (to !! k) as [rl2|] eqn:Hk2.
    - unfold id. cbn [default from_option].
      destruct (rangelist_diff_spec v rl2) as (dl & ad & -> & _);
        [by eapply wf_lookup|by eapply wf_lookup|].
      cbn [mbind result_bind]. eexists. split; [done|]. split; [|split].
      + split; [by destruct dl|]. destruct a, ad; simpl; intuition done.
      + destruct added0 as [a0|], a as [a|]; simpl in *;
          [|by destruct Hi as [Hi _]; specialize (Hi eq_refl)
           |by destruct Hi as [_ Hi]; specialize (Hi eq_refl)|];
          destruct dl, ad; simpl; rewrite ?lookup_insert_eq; done.
      + intros k' Hne. destruct a as [a|], dl, ad; simpl; rewrite ?lookup_insert_ne by done; done.
    - eexists. split; [done|]. split; [split; [done|done]|]. split.
      + simpl. by rewrite lookup_insert_eq.
      + intros k' Hne. simpl. by rewrite lookup_insert_ne. }
  cbn [mbind result_bind].
  set (F2 := fun (k : bytes) (v : rangelist) (x : option rangelist * option rangelist) =>
    match from !! k with
    | Some _ => x
    | None => (x.1, match added0 with Some _ => Some v | None => x.2 end)
    end).
  destruct (for_each_get (fun key (_ : rangelist) baton => match from !! key with
      | Some _ => Ok baton
      | None => mergeinfo_hash_diff_cb from to false key svn_hash_diff_key_b baton
      end) get F2 I to s1) as (s2 & -> & HI2 & Hget2).
  { done. }
  { intros k v [d a] Hk [[d' Hd] Hi] _. simpl in Hd, Hi. subst d.
    unfold F2, get, mergeinfo_hash_diff_cb. cbn [fst snd]. rewrite Hk. cbn [default from_option].
    destruct (from !! k) as [rl2|] eqn:Hk2.
    - eexists. split; [done|]. split; [split; done|]. done.
    - eexists. split; [done|]. split; [|split].
      + split; [done|]. destruct a; simpl; intuition done.
      + destruct added0 as [a0|], a as [a|]; simpl in *;
          [|by destruct Hi as [Hi _]; specialize (Hi eq_refl)
           |by destruct Hi as [_ Hi]; specialize (Hi eq_refl)|];
          rewrite ?lookup_insert_eq; done.
      + intros k' Hne. destruct a as [a|]; simpl; rewrite ?lookup_insert_ne by done; done. }
  destruct s2 as [d2 a2]. destruct HI2 as [[d Hd] Ha]. cbn [fst snd] in Hd, Ha. subst d2.
  exists d, a2. split; [done|]. split; [done|].
  assert (Hget : forall k, get (Some d, a2) k =
    match from !! k, to !! k with
    | Some v, Some rl2 => match svn_rangelist_diff v rl2 false with
         | Ok (dl, ad) => (nonempty dl, match added0 with Some _ => nonempty ad | None => None end)
         | Err _ => (None, None) end
    | Some v, None => (Some v, None)
    | None, Some v => (None, match added0 with Some _ => Some v | None => None end)
    | None, None => (None, None)
    end).
  { intros k. assert (Hinit : get (Some ∅, added0) k = (None, None)).
    { unfold get. destruct Ha0 as [->| ->]; simpl; by rewrite lookup_empty. }
    rewrite Hget2, Hget1, Hinit. unfold F, F2.
    destruct (to !! k) as [rl2|] eqn:Hk2, (from !! k) as [v|] eqn:Hk1; try done; simpl.
    destruct (svn_rangelist_diff v rl2 false) as [[dl ad]|]; [|done]. simpl.
      destruct dl, ad, added0; done. }
  unfold get in Hget. cbn [fst snd default from_option] in Hget. unfold id in Hget.
  split_and!.
  - intros k n. unfold merged, ranges_of. specialize (Hget k).
    apply (f_equal fst) in Hget. cbn [fst] in Hget. rewrite Hget.
    destruct (from !! k) as [v|] eqn:Hk1, (to !! k) as [rl2|] eqn:Hk2; simpl.
    + destruct (rangelist_diff_spec v rl2) as (dl & ad & -> & _ & _ & Hc & _);
        [by eapply wf_lookup|by eapply wf_lookup|]. simpl. rewrite nonempty_default. apply Hc.
    + pose proof (covers_nil n). tauto.
    + pose proof (covers_nil n). tauto.
    + pose proof (covers_nil n). tauto.
  - intros a -> k n. unfold merged, ranges_of. specialize (Hget k).
    destruct added0 as [a0|]; [|by destruct Ha as [_ Ha]; specialize (Ha eq_refl)].
    apply (f_equal snd) in Hget. cbn [snd default from_option] in Hget. unfold id in Hget.
    rewrite Hget.
    destruct (from !! k) as [v|] eqn:Hk1, (to !! k) as [rl2|] eqn:Hk2; simpl.
    + destruct (rangelist_diff_spec v rl2) as (dl & ad & -> & _ & _ & _ & Hc);
        [by eapply wf_lookup|by eapply wf_lookup|]. simpl. rewrite nonempty_default. apply Hc.
    + pose proof (covers_nil n). tauto.
    + pose proof (covers_nil n). tauto.
    + pose proof (covers_nil n). tauto.
  - intros k [x Hx]. specialize (Hget k). apply (f_equal fst) in Hget. cbn [fst] in Hget.
    rewrite Hx in Hget. destruct (from !! k); [done|]. by destruct (to !! k).
  - intros k rl Hrl. specialize (Hget k). apply (f_equal fst) in Hget. cbn [fst] in Hget.
    rewrite Hrl in Hget.
    destruct (from !! k) as [v|] eqn:Hk1, (to !! k) as [rl2|] eqn:Hk2; try done.
    + destruct (rangelist_diff_spec v rl2) as (dl & ad & Hd & Hs & _);
        [by eapply wf_lookup|by eapply wf_lookup|].
      rewrite Hd in Hget. symmetry in Hget. apply nonempty_Some in Hget as [-> _].
      by apply separated_disjoint.
    + simplify_eq/=. by apply (wf_lookup from k).
Qed.

(** ** Equality *)

Lemma quick_compare_false lhs rhs :
  length lhs = length rhs ->
  match quick_compare lhs rhs false with
  | all_match => forall n, covers lhs n <-> covers rhs n
  | range_mismatch => True
  | inheritance_mismatch => False
  end.
Proof.
  revert rhs. induction lhs as [|r1 lhs IH]; intros [|r2 rhs] Hl; try done; cbn [quick_compare].
  destruct (Z.eqb_spec (start r1) (start r2)) as [Hs|]; cbn [negb orb andb]; [|done].
  destruct (Z.eqb_spec (end_ r1) (end_ r2)) as [He|]; cbn [negb orb andb]; [|done].
  specialize (IH rhs ltac:(simpl in Hl; lia)). destruct (quick_compare lhs rhs false); try done.
  intros n. rewrite !covers_cons, IH. unfold in_range. by rewrite Hs, He.
Qed.

Lemma equals_loop_spec (items : list (bytes * rangelist)) (info2 : mergeinfo) :
  (forall k v, (k, v) ∈ items -> disjoint_sorted v) -> wf_mergeinfo info2 -> exists b,
    equals_loop items info2 false = Ok b /\
    (b = true <-> forall k v, (k, v) ∈ items -> exists rhs,
       info2 !! k = Some rhs /\ forall n, covers v n <-> covers rhs n).
Proof.
  intros Hi H2. induction items as [|[k lhs] items IH]; cbn [equals_loop].
  { exists true. split; [done|]. split; [|done]. intros _ k v H. by apply elem_of_nil in H. }
  assert (Hlhs : disjoint_sorted lhs) by (eapply Hi; by left).
  destruct IH as (b & Hb & HbP); [intros; eapply Hi; by right|].
  assert (Hfalse : forall P : Prop, P -> ~ P -> exists b, Ok false = Ok b /\ (b = true <-> P)) by tauto.
  destruct (info2 !! k) as [rhs|] eqn:Hk.
  2:{ exists false. split; [done|]. split; [done|]. intros H.
      destruct (H k lhs) as (rhs & ? & _); [by left|congruence]. }
  assert (Hrhs : disjoint_sorted rhs) by by eapply wf_lookup.
  assert (Hyes : (forall n, covers lhs n <-> covers rhs n) ->
    (b = true <-> forall k' v, (k', v) ∈ (k, lhs) :: items -> exists rhs,
       info2 !! k' = Some rhs /\ forall n, covers v n <-> covers rhs n)).
  { intros Hc. rewrite HbP. split.
    - intros H k' v [Heq|Hv]%elem_of_cons; [simplify_eq; eauto|by apply H].
    - intros H k' v Hv. apply H. by right. }
  assert (Hno : ~ (forall n, covers lhs n <-> covers rhs n) ->
    (false = true <-> forall k' v, (k', v) ∈ (k, lhs) :: items -> exists rhs,
       info2 !! k' = Some rhs /\ forall n, covers v n <-> covers rhs n)).
  { intros Hc. split; [done|]. intros H. exfalso.
    destruct (H k lhs) as (rhs' & Hr & Hcv); [by left|]. simplify_eq. done. }
  assert (Hdiff : exists b0,
    ('(deleted, added) ← svn_rangelist_diff lhs rhs false;
     match deleted, added with
     | [], [] => equals_loop items info2 false
     | _, _ => Ok false
     end) = Ok b0 /\ (b0 = true <-> forall k' v, (k', v) ∈ (k, lhs) :: items -> exists rhs,
       info2 !! k' = Some rhs /\ forall n, covers v n <-> covers rhs n)).
  { destruct (rangelist_diff_spec lhs rhs Hlhs Hrhs) as (d & a & -> & Hsd & Hsa & Hd & Ha).
    cbn [mbind result_bind].
    assert (Hiff : (d = [] /\ a = []) <-> forall n, covers lhs n <-> covers rhs n).
    { rewrite (separated_nil_iff d), (separated_nil_iff a) by done. split.
      - intros [Hd0 Ha0] n. specialize (Hd0 n). specialize (Ha0 n). rewrite Hd in Hd0.
        rewrite Ha in Ha0. destruct (decide (covers lhs n)), (decide (covers rhs n)); tauto.
      - intros H. split; intros n; rewrite ?Hd, ?Ha, H; tauto. }
    destruct d as [|x d], a as [|y a].
    - exists b. split; [done|]. apply Hyes. by apply Hiff.
    - exists false. split; [done|]. apply Hno. rewrite <- Hiff. by intros [_ ?].
    - exists false. split; [done|]. apply Hno. rewrite <- Hiff. by intros [? _].
    - exists false. split; [done|]. apply Hno. rewrite <- Hiff. by intros [? _]. }
  destruct (Nat.eqb_spec (length lhs) (length rhs)) as [Hlen|]; [|done].
  pose proof (quick_compare_false lhs rhs Hlen) as Hq.
  destruct (quick_compare lhs rhs false); [|done|done]. exists b. split; [done|]. by apply Hyes.
Qed.

(** Two mergeinfos are equal when they have the same paths and record the
    same revisions. *)
Lemma mergeinfo_equals_spec (info1 info2 : mergeinfo) :
  wf_mergeinfo info1 -> wf_mergeinfo info2 -> exists b,
    svn_mergeinfo__equals (Some info1) (Some info2) false = Ok b /\
    (b = true <-> (forall k, is_Some (info1 !! k) <-> is_Some (info2 !! k)) /\
                  forall k n, merged info1 k n <-> merged info2 k n).
Proof.
  intros H1 H2. unfold svn_mergeinfo__equals.
  destruct (Nat.eqb_spec (size info1) (size info2)) as [Hsz|Hsz]; cbn [negb].
  2:{ exists false. split; [done|]. split; [done|]. intros [Hdom _]. exfalso. apply Hsz.
      rewrite <- !(size_dom (D := gset bytes)).
      assert (dom info1 = (dom info2 : gset bytes)) as ->; [|done].
      apply set_eq. intros k. rewrite !elem_of_dom. apply Hdom. }
  destruct (equals_loop_spec (hash_items info1) info2) as (b & -> & HbP).
  { intros k v Hkv. apply hash_items_elem in Hkv. by eapply wf_lookup. }
  { done. }
  exists b. split; [done|]. rewrite HbP. split.
  - intros H. assert (Hsub : dom info1 = (dom info2 : gset bytes)).
    { apply set_subseteq_size_eq.
      - intros k. rewrite !elem_of_dom. intros [v Hv].
        destruct (H k v) as (rhs & -> & _); [by apply hash_items_elem|done].
      - rewrite !(size_dom (D := gset bytes)). lia. }
    split.
    + intros k. rewrite <- !(elem_of_dom (D := gset bytes)). by rewrite Hsub.
    + intros k n. unfold merged, ranges_of. destruct (info1 !! k) as [v|] eqn:Hk.
      * destruct (H k v) as (rhs & -> & Hc); [by apply hash_items_elem|]. apply Hc.
      * apply (not_elem_of_dom (D := gset bytes)) in Hk. rewrite Hsub in Hk.
        apply (not_elem_of_dom (D := gset bytes)) in Hk. by rewrite Hk.
  - intros [Hdom Hc] k v Hkv. apply hash_items_elem in Hkv.
    destruct (proj1 (Hdom k)) as [rhs Hr]; [by rewrite Hkv|]. exists rhs. split; [done|].
    intros n. specialize (Hc k n). unfold merged, ranges_of in Hc. by rewrite Hkv, Hr in Hc.
Qed.

(** ** Filtering *)

Lemma filter_by_ranges_spec (m : mergeinfo) youngest oldest include :
  wf_mergeinfo m -> 0 <= oldest < youngest -> exists out,
    svn_mergeinfo__filter_mergeinfo_by_ranges (Some m) youngest oldest include = Ok out /\
    map_Forall (fun _ rl => separated rl /\ rl <> []) out /\
    forall k n, merged out k n <-> merged m k n /\
      (if include : bool then oldest < n <= youngest else ~ (oldest < n <= youngest)).
Proof.
  intros Hwf Hr. unfold svn_mergeinfo__filter_mergeinfo_by_ranges, svn_err_assert, SVN_IS_VALID_REVNUM.
  rewrite (proj2 (Z.leb_le 0 youngest)), (proj2 (Z.leb_le 0 oldest)),
    (proj2 (Z.ltb_lt oldest youngest)) by lia. cbn [mbind result_bind].
  set (frl := svn_rangelist__initialize oldest youngest true).
  assert (Hfrl : disjoint_sorted frl).
  { simpl. unfold forward. simpl. split_and!; done || lia. }
  assert (Hfc : forall n, covers frl n <-> oldest < n <= youngest).
  { intros n. unfold frl, svn_rangelist__initialize. rewrite covers_single. done. }
  set (h := fun (k : bytes) (rl : rangelist) =>
    match rl with [] => None | _ =>
      match rangelist_intersect_or_remove frl rl (negb include) false with
      | Ok rl => nonempty rl | Err _ => None end end).
  destruct (for_each_collect (fun (path : bytes) (rl : rangelist) =>
    match rl with
    | [] => Ok None
    | _ => new_rangelist ← rangelist_intersect_or_remove frl rl (negb include) false;
           Ok (nonempty new_rangelist)
    end) h m) as (out & Heq & Hout).
  { intros k v Hk. unfold h. destruct v as [|r v]; [done|].
    destruct (intersect_or_remove_spec (negb include) frl (r :: v)) as (rl & -> & _);
      [done|by eapply wf_lookup|done]. }
  exists out. split; [exact Heq|].
  assert (Hk : forall k, separated (ranges_of out k) /\ (out !! k <> Some []) /\
    forall n, merged out k n <-> merged m k n /\
      (if include : bool then oldest < n <= youngest else ~ (oldest < n <= youngest))).
  { intros k. unfold merged, ranges_of. rewrite Hout. unfold h.
    destruct (m !! k) as [rl|] eqn:Hk; simpl.
    2:{ split_and!; [done|done|]. intros n. pose proof (covers_nil n). tauto. }
    destruct rl as [|r rl].
    { split_and!; [done|done|]. intros n. simpl. pose proof (covers_nil n). tauto. }
    destruct (intersect_or_remove_spec (negb include) frl (r :: rl)) as (rl' & -> & Hs & Hc);
      [done|by eapply wf_lookup|].
    rewrite nonempty_default. split_and!; [done|by destruct rl'|].
    intros n. rewrite Hc. unfold ior_target. specialize (Hfc n). destruct include; simpl; tauto. }
  split; [|intros k; apply Hk].
  intros k rl Hrl. destruct (Hk k) as (Hs & Hne & _). unfold ranges_of in Hs.
  rewrite Hrl in Hs, Hne. split; [done|]. intros ->. done.
Qed.
End Facts.

(** * Mergeinfo as text

    Parsing is total: it fails with a parse error or yields mergeinfo that can
    be written again; writing and parsing such mergeinfo gives it back. *)

(** ** The mergeinfo that has a text *)

Record writable_entry (k : bytes) (rl : rangelist) : Prop := {
  we_string : c_string k;
  we_line : NL ∉ k;
  we_path : exists p, k = SLASH :: p /\ rel_canonical p;
  we_nonempty : rl <> [];
  we_canonical : canonical rl;
  we_printable : Forall printable rl
}.

Definition writable (m : mergeinfo) : Prop := map_Forall writable_entry m.

(** ** Paths *)

(** A canonical fspath satisfies the assertion of the comparison. *)
Lemma fspath_is_canonical p :
  c_string p -> rel_canonical p -> is_canonical (SLASH :: p) (length (SLASH :: p)) = true.
Proof.
  intros Hs Hc. unfold is_canonical.
  change (char_at (SLASH :: p) 0 =? DOT) with false. rewrite andb_false_r. cbn [negb andb].
  assert (Hstr : strstr (SLASH :: p) [SLASH; DOT; SLASH] = false).
  { apply not_true_is_false. intros (l & r & H)%strstr_spec.
    assert (Hin : [DOT] ∈ split_slash (SLASH :: p)).
    { apply elem_of_split_slash; [set_solver|]. right; right; right. exists l, r. by rewrite H. }
    cbn [split_slash] in Hin. rewrite Z.eqb_refl in Hin.
    apply elem_of_cons in Hin as [|Hin]; [done|].
    destruct (decide (p = [])) as [->|Hne]; [set_solver|].
    unfold rel_canonical, segments in Hc. rewrite decide_False in Hc by done.
    rewrite Forall_forall in Hc. destruct (Hc _ Hin) as [_ ?]. done. }
  rewrite Hstr. cbn [negb andb].
  destruct (decide (p = [])) as [->|Hne]; [done|].
  pose proof (rel_canonical_last p Hc Hne) as Hl.
  destruct (last p) as [x|] eqn:Hx; [|by apply last_None in Hx].
  apply last_snoc_inv in Hx as [init ->].
  apply orb_true_iff. right. apply negb_true_iff, Z.eqb_neq.
  replace (length (SLASH :: init ++ [x]) - 1)%nat with (length (SLASH :: init))
    by (simpl; rewrite length_app; simpl; lia).
  change (SLASH :: init ++ [x]) with ((SLASH :: init) ++ [x]).
  unfold char_at. rewrite lookup_app_r, Nat.sub_diag by lia. simpl. unfold id. congruence.
Qed.

Lemma fspath_canonicalize_fixed p :
  c_string p -> rel_canonical p -> svn_fspath__canonicalize (SLASH :: p) = Some (SLASH :: p).
Proof.
  intros Hs Hc. unfold svn_fspath__canonicalize.
  change (char_at (SLASH :: p) 0 =? SLASH) with true. cbn [andb].
  destruct p as [|c p]; [done|]. change (char_at (SLASH :: c :: p) 1) with c.
  assert (Hc0 := Hs). apply Forall_cons in Hc0 as [Hc0 _].
  destruct (Z.eqb_spec c 0); [lia|].
  rewrite relpath_canonicalize_spec by (by constructor). cbn [mbind option_bind].
  change (split_slash (SLASH :: c :: p)) with ([] :: split_slash (c :: p)).
  rewrite filter_cons_False by (by intros []). do 2 f_equal. by apply canonical_fixed.
Qed.

(** What canonicalization of an fspath yields. *)
Lemma fspath_canonicalize_inv s :
  c_string s -> exists p, svn_fspath__canonicalize s = Some (SLASH :: p) /\
    rel_canonical p /\ c_string p /\ (forall x, x ∈ p -> x = SLASH \/ x ∈ s).
Proof.
  intros Hs. unfold svn_fspath__canonicalize.
  destruct ((char_at s 0 =? SLASH) && (char_at s 1 =? 0)).
  { exists []. split; [done|]. split; [constructor|]. split; [done|].
    intros x H. by apply elem_of_nil in H. }
  rewrite relpath_canonicalize_spec by done. cbn [mbind option_bind].
  eexists. split; [done|]. split; [apply canonical_filter|].
  assert (Hin : forall x, x ∈ join_slash (filter good (split_slash s)) -> x = SLASH \/ x ∈ s).
  { intros x [|(seg & Hseg & Hx)]%elem_of_join_slash; [by left|].
    apply list_elem_of_filter in Hseg as [_ Hseg]. right. by eapply elem_of_split_elem. }
  split; [|done]. apply Forall_forall. intros x [->|Hx]%Hin; [done|].
  rewrite Forall_forall in Hs. by apply Hs.
Qed.

(** ** The characters of a revision list *)

Definition rev_char (c : Z) : Prop :=
  is_digit c = true \/ c = "-"%cc \/ c = ","%cc \/ c = "*"%cc.

Lemma rev_char_plain c : rev_char c -> c <> ":"%cc /\ c <> NL /\ 0 < c < 256.
Proof.
  unfold rev_char, is_digit, NL. intros [H|[->|[->| ->]]]; [|lia..].
  reflect_bools. change "0"%cc with 48 in *. change "9"%cc with 57 in *.
  change ":"%cc with 58. lia.
Qed.

Lemma print_lu_rev_char n : 0 <= n -> Forall rev_char (print_lu n).
Proof.
  intros. destruct (print_lu_spec n) as (Hd & _); [done|].
  eapply Forall_impl; [exact Hd|]. intros c ?. by left.
Qed.

Lemma range_to_string_rev_char r s :
  printable r -> range_to_string r = Ok s -> Forall rev_char s.
Proof.
  intros Hp. rewrite range_to_string_printable by done. intros [= <-].
  destruct Hp as [Hr _]. apply Forall_app. split.
  - destruct (start r =? end_ r - 1); [apply print_lu_rev_char; lia|].
    apply Forall_app. split; [apply print_lu_rev_char; lia|].
    constructor; [right; by left|]. apply print_lu_rev_char; lia.
  - destruct (inheritable r); [done|]. constructor; [|done]. right; right; by right.
Qed.

Lemma to_string_rev_char rl buf s :
  Forall printable rl -> Forall rev_char buf ->
  rangelist_to_string_loop buf rl = Ok s -> Forall rev_char s.
Proof.
  intros Hrl. revert buf. induction Hrl as [|r rl Hr Hrl IH]; intros buf Hb.
  { simpl. by intros [= <-]. }
  destruct rl as [|r' rl].
  - simpl. destruct (range_to_string r) as [t|] eqn:E; [|done]. simpl. intros [= <-].
    apply Forall_app. split; [done|]. by eapply range_to_string_rev_char.
  - change (rangelist_to_string_loop buf (r :: r' :: rl))
      with (s ← range_to_string r; rangelist_to_string_loop (buf ++ s ++ [","%cc]) (r' :: rl)).
    destruct (range_to_string r) as [t|] eqn:E; [|done]. cbn [mbind result_bind].
    apply IH. apply Forall_app. split; [done|]. apply Forall_app.
    split; [by eapply range_to_string_rev_char|]. constructor; [|done]. right; right; by left.
Qed.

(** ** One line *)

Lemma find_last_colon_none s rest :
  Forall rev_char s -> rest = [] \/ (exists t, rest = NL :: t) -> find_last_colon (s ++ rest) = None.
Proof.
  intros Hs Hrest. induction Hs as [|c s Hc Hs IH]; simpl.
  - by destruct Hrest as [->|[t ->]].
  - apply rev_char_plain in Hc as (H1 & H2 & _).
    destruct (Z.eqb_spec c NL); [done|]. rewrite IH. by destruct (Z.eqb_spec c ":"%cc).
Qed.

Lemma find_last_colon_line k s rest :
  NL ∉ k -> Forall rev_char s -> rest = [] \/ (exists t, rest = NL :: t) ->
  find_last_colon (k ++ ":"%cc :: s ++ rest) = Some (k, ":"%cc :: s ++ rest).
Proof.
  intros Hk Hs Hrest. induction k as [|c k IH].
  - simpl. by rewrite find_last_colon_none.
  - apply not_elem_of_cons in Hk as [Hc Hk]. cbn [app find_last_colon].
    destruct (Z.eqb_spec c NL); [congruence|]. by rewrite IH.
Qed.

Lemma parse_line_print k rl hash :
  writable_entry k rl -> hash !! k = None -> exists s,
    svn_rangelist_to_string rl = Ok s /\ c_string s /\
    forall rest, rest = [] \/ (exists t, rest = NL :: t) -> c_string rest ->
      parse_revision_line (k ++ ":"%cc :: s ++ rest) hash = Ok (tail rest, <[k := rl]> hash).
Proof.
  intros [Hks Hnl (p & -> & Hp) Hne Hc Hpr] Hh.
  destruct (parse_rangelist_print rl Hpr) as (s & Hs & Hsc & Hparse).
  assert (Hrc : Forall rev_char s).
  { by eapply to_string_rev_char; [exact Hpr| |exact Hs]. }
  exists s. split; [done|]. split.
  { eapply Forall_impl; [exact Hrc|]. intros c Hcc. by apply rev_char_plain in Hcc as (_ & _ & ?). }
  intros rest Hrest Hrs. unfold parse_revision_line, parse_pathname.
  rewrite find_last_colon_line by done.
  rewrite fspath_canonicalize_fixed by (done || by apply Forall_cons in Hks as [_ ?]).
  cbn [mbind result_bind]. change (deref (":"%cc :: s ++ rest) =? ":"%cc) with true.
  cbn [negb tail]. rewrite Hparse; [|done|].
  2:{ eapply Forall_impl; [exact Hrs|]. simpl. lia. }
  cbn [mbind result_bind].
  assert (Hat : at_end rest = true) by (by destruct Hrest as [->|[t ->]]).
  rewrite Hat. cbn [negb].
  destruct rl as [|r rl]; [done|].
  unfold svn_rangelist__canonicalize. rewrite is_canonical_true by done.
  cbn [mbind result_bind]. by rewrite Hh.
Qed.

(** ** The whole text *)

Lemma to_stringbuf_acc sorted output text :
  to_stringbuf_loop sorted [] [] = Ok text ->
  to_stringbuf_loop sorted [] output = Ok (output ++ text).
Proof.
  assert (Hgen : forall (sorted : list (bytes * rangelist)) out1 out2,
    match to_stringbuf_loop sorted [] out2 with
    | Ok t => to_stringbuf_loop sorted [] (out1 ++ out2) = Ok (out1 ++ t)
    | Err e => True
    end).
  { clear. induction sorted as [|[k v] sorted IH]; intros out1 out2; cbn [to_stringbuf_loop]; [done|].
    destruct (svn_rangelist_to_string v) as [rv|]; [|done]. cbn [mbind result_bind].
    set (line := [] ++ _ ++ _).
    assert (Heq : (match sorted with [] => (out1 ++ out2) ++ line | _ => ((out1 ++ out2) ++ line) ++ [NL] end) =
      out1 ++ (match sorted with [] => out2 ++ line | _ => (out2 ++ line) ++ [NL] end)).
    { destruct sorted; by rewrite <- !app_assoc. }
    rewrite Heq. apply IH. }
  intros H. specialize (Hgen sorted output []). rewrite H, app_nil_r in Hgen. done.
Qed.

Lemma parse_top_print (sorted : list (bytes * rangelist)) :
  Forall (fun kv => writable_entry kv.1 kv.2) sorted -> NoDup sorted.*1 -> exists text,
    to_stringbuf_loop sorted [] [] = Ok text /\ c_string text /\
    forall fuel (hash : mergeinfo), (length text <= fuel)%nat ->
      (forall k, k ∈ sorted.*1 -> hash !! k = None) ->
      parse_top fuel text hash = Ok (list_to_map sorted ∪ hash).
Proof.
  induction 1 as [|[k rl] sorted Hw Hws IH]; intros Hnd; cbn [to_stringbuf_loop].
  { exists []. split; [done|]. split; [done|]. intros [|fuel] hash _ _; simpl; by rewrite (left_id_L ∅ (∪)). }
  apply NoDup_cons in Hnd as [Hk Hnd]. destruct (IH Hnd) as (text & Htext & Htc & Hparse).
  cbn [fst snd] in *.
  destruct (parse_line_print k rl ∅ Hw) as (s & Hs & Hsc & _); [apply lookup_empty|].
  rewrite Hs. cbn [mbind result_bind].
  assert (Hk0 : deref k =? SLASH = true) by (destruct Hw as [_ _ (p & -> & _) _ _ _]; done).
  rewrite Hk0. cbn [app].
  set (rest := match sorted with [] => [] | _ => NL :: text end).
  exists (k ++ ":"%cc :: s ++ rest). split; [|split].
  - destruct sorted as [|kv sorted].
    + simpl. unfold rest. by rewrite app_nil_r.
    + rewrite (to_stringbuf_acc _ _ text Htext). unfold rest. f_equal. by rewrite <- !app_assoc.
  - apply Forall_app. split; [apply Hw|]. constructor; [done|]. apply Forall_app. split; [done|].
    unfold rest. destruct sorted; [done|]. by constructor.
  - intros fuel hash Hfuel Hfresh.
    assert (Hlen : (length (k ++ ":"%cc :: s ++ rest) = length k + 1 + length s + length rest)%nat).
    { rewrite !length_app. simpl. rewrite length_app. lia. }
    rewrite Hlen in Hfuel. destruct fuel as [|fuel]; [lia|].
    destruct (parse_line_print k rl hash Hw) as (s' & Hs' & _ & Hline); [apply Hfresh; by left|].
    assert (s' = s) as -> by congruence.
    assert (Hp : forall A (a b : A), match k ++ ":"%cc :: s ++ rest with [] => a | _ => b end = b)
      by (by destruct k).
    cbn [parse_top]. rewrite Hp. rewrite Hline.
    2:{ unfold rest. destruct sorted; [by left|right; eauto]. }
    2:{ unfold rest. destruct sorted; [done|by constructor]. }
    cbn [mbind result_bind].
    assert (Htail : tail rest = match sorted with [] => [] | _ => text end) by (by destruct sorted).
    rewrite Htail. cbn [list_to_map foldr fst snd].
    rewrite <- insert_union_l, insert_union_r by (by apply not_elem_of_list_to_map_1).
    destruct sorted as [|kv sorted].
    + simpl. rewrite (left_id_L ∅ (∪)). by destruct fuel.
    + apply Hparse.
      * unfold rest in Hfuel. simpl in Hfuel. lia.
      * intros k' Hk'. rewrite lookup_insert_ne by (intros ->; done). apply Hfresh. by right.
Qed.

Section RoundTrip.
Context `{HO : HashOrder}.

(** Writing and parsing gives the mergeinfo back. *)
Lemma mergeinfo_parse_to_string (m : mergeinfo) :
  writable m -> exists text,
    svn_mergeinfo_to_string m = Ok text /\ svn_mergeinfo_parse text = Ok m.
Proof.
  intros Hw. unfold svn_mergeinfo_to_string, mergeinfo_to_stringbuf.
  destruct (Nat.ltb_spec 0 (size m)) as [_|Hsz].
  2:{ assert (size m = 0%nat) as ->%map_size_empty_inv by lia. exists []. done. }
  assert (Hsort : exists sorted, svn_sort__hash m = Ok sorted).
  { unfold svn_sort__hash. rewrite (proj2 (orb_true_iff _ _)); [eexists; done|]. right.
    apply forallb_forall. intros [k rl] Hin. apply list_elem_of_In in Hin.
    apply hash_items_elem in Hin. destruct (Hw k rl Hin) as [Hks _ (p & -> & Hp) _ _ _].
    cbn [fst]. apply fspath_is_canonical; [|done]. by apply Forall_cons in Hks as [_ ?]. }
  destruct Hsort as [sorted Hsort]. rewrite Hsort. cbn [mbind result_bind default from_option].
  apply svn_sort__hash_Permutation in Hsort.
  destruct (parse_top_print sorted) as (text & Htext & Htc & Hparse).
  { apply Forall_forall. intros [k rl] Hin. rewrite Hsort in Hin.
    apply elem_of_map_to_list in Hin. by apply Hw. }
  { rewrite Hsort. apply NoDup_fst_map_to_list. }
  exists text. split; [done|]. unfold svn_mergeinfo_parse.
  rewrite Hparse by (try done; intros; apply lookup_empty).
  rewrite (right_id_L ∅ (∪)). f_equal.
  rewrite (list_to_map_proper _ (map_to_list m)); [apply list_to_map_to_list| |done].
  rewrite Hsort. apply NoDup_fst_map_to_list.
Qed.
End RoundTrip.

(** ** What parsing yields *)

Lemma canonical_end_covered rl r : disjoint_sorted rl -> r ∈ rl -> covers rl (end_ r).
Proof.
  intros Hd Hr. apply Exists_exists. exists r. split; [done|].
  apply disjoint_sorted_forward in Hd. rewrite Forall_forall in Hd.
  specialize (Hd r Hr). unfold in_range, forward in *. lia.
Qed.

(** Bounds on the covered revisions are bounds on the ranges. *)
Lemma canonical_printable rl :
  canonical rl -> (forall n, covers rl n -> n <= APR_INT32_MAX) -> Forall printable rl.
Proof.
  intros Hc Hn. apply canonical_disjoint_sorted in Hc. apply Forall_forall. intros r Hr.
  assert (Hf := disjoint_sorted_forward rl Hc). rewrite Forall_forall in Hf.
  split; [by apply Hf|]. apply Hn. by apply canonical_end_covered.
Qed.

Lemma covers_printable rl n : Forall printable rl -> covers rl n -> n <= APR_INT32_MAX.
Proof.
  rewrite Forall_forall. intros H (r & Hr & Hin)%Exists_exists.
  destruct (H r Hr). unfold in_range in Hin. lia.
Qed.

Lemma has_kind_covers rl n : covers rl n <-> exists b, has_kind b rl n.
Proof.
  unfold covers, has_kind. setoid_rewrite Exists_exists. split.
  - intros (r & Hr & Hin). eauto.
  - intros (b & r & Hr & Hin & _). eauto.
Qed.

Lemma find_last_colon_inv s before rest :
  find_last_colon s = Some (before, rest) ->
  s = before ++ rest /\ NL ∉ before /\ exists t, rest = ":"%cc :: t.
Proof.
  revert before. induction s as [|c s IH]; intros before; cbn [find_last_colon]; [done|].
  destruct (Z.eqb_spec c NL); [done|].
  destruct (find_last_colon s) as [[b r]|].
  - intros [= <- <-]. destruct (IH b eq_refl) as (-> & Hn & Ht). split_and!; [done| |done].
    apply not_elem_of_cons. split; [congruence|done].
  - destruct (Z.eqb_spec c ":"%cc) as [->|]; [|done]. intros [= <- <-].
    split_and!; [done|apply not_elem_of_nil|eauto].
Qed.

Lemma eat_blanks_char s : Forall (fun c => 0 < c < 256) s -> c_string (eat_blanks s).
Proof.
  intros H. destruct (eat_blanks_suffix s) as [p Hp]. rewrite Hp in H. by apply Forall_app in H as [_ H].
Qed.

(** The rest of the input is a suffix of it. *)
Lemma parse_element_suffix curr r rest :
  Forall (fun c => 0 <= c < 256) curr -> parse_element curr = Ok (r, rest) ->
  exists p, curr = p ++ rest.
Proof.
  intros Hb. unfold parse_element.
  destruct (svn_revnum_parse curr) as [[n rest1]|] eqn:E1; [|done]. cbn [mbind result_bind].
  apply revnum_parse_inv in E1 as (_ & _ & ds & -> & _); [|done].
  apply Forall_app in Hb as [_ Hb].
  match goal with |- context [if ?b then Err _ else _] => destruct b; [done|] end.
  destruct (n =? 0); [done|]. destruct (deref rest1 =? "-"%cc).
  - destruct (svn_revnum_parse (tail rest1)) as [[m rest2]|] eqn:E2; [|done].
    cbn [mbind result_bind].
    apply revnum_parse_inv in E2 as (_ & _ & ds2 & Heq & _); [|by apply is_char_tail].
    repeat (match goal with |- context [if ?b then Err _ else _] => destruct b; [done|] end).
    intros. simplify_eq. destruct rest1 as [|c rest1].
    + simpl in Heq. symmetry in Heq. apply app_eq_nil in Heq as [_ ->]. eexists. done.
    + simpl in Heq. subst rest1. exists (ds ++ c :: ds2). by rewrite <- !app_assoc.
  - intros. simplify_eq. eauto.
Qed.

Lemma suffix_tail {A} (s rest : list A) :
  (exists p, s = p ++ rest) -> exists p, s = p ++ tail rest.
Proof.
  intros [p ->]. destruct rest as [|x rest]; [by exists p|]. exists (p ++ [x]). by rewrite <- app_assoc.
Qed.

Lemma suffix_trans {A} (a b c : list A) :
  (exists p, a = p ++ b) -> (exists p, b = p ++ c) -> exists p, a = p ++ c.
Proof. intros [p ->] [q ->]. exists (p ++ q). by rewrite <- app_assoc. Qed.

Lemma parse_rangelist_loop_suffix fuel curr rl rl' rest :
  Forall (fun c => 0 <= c < 256) curr ->
  parse_rangelist_loop fuel curr rl = Ok (rl', rest) -> exists p, curr = p ++ rest.
Proof.
  revert curr rl. induction fuel as [|f IH]; intros [|c curr] rl Hb; cbn [parse_rangelist_loop];
    try done; (destruct (c =? NL); [intros [= _ <-]; by exists []|]); [done|].
  destruct (parse_element (c :: curr)) as [[r rest1]|] eqn:E; [|done]. cbn [mbind result_bind].
  assert (Hi := E). apply parse_element_inv in Hi as (_ & Hb1 & _); [|done].
  apply parse_element_suffix in E; [|done].
  destruct (at_end rest1); [by intros [= _ <-]|].
  assert (Ht : exists p, c :: curr = p ++ tail rest1) by by apply suffix_tail.
  assert (Htt : exists p, c :: curr = p ++ tail (tail rest1)) by by apply suffix_tail.
  destruct (deref rest1 =? ","%cc).
  { intros H%IH; [|by apply is_char_tail]. exact (suffix_trans _ _ _ Ht H). }
  destruct (deref rest1 =? "*"%cc); [|done]. cbn zeta.
  destruct (deref (tail rest1) =? ","%cc).
  { intros H%IH; [|by do 2 apply is_char_tail]. exact (suffix_trans _ _ _ Htt H). }
  destruct (at_end (tail rest1)); [by intros [= _ <-]|done].
Qed.

Lemma parse_rangelist_suffix input rl rest :
  Forall (fun c => 0 <= c < 256) input ->
  parse_rangelist input = Ok (rl, rest) -> exists p, input = p ++ rest.
Proof.
  intros Hb. unfold parse_rangelist. destruct (eat_blanks_suffix input) as [q Hq].
  destruct (at_end (eat_blanks input)); [by intros [= _ <-]; exists q|].
  intros H%parse_rangelist_loop_suffix.
  - eapply suffix_trans; [|exact H]. by exists q.
  - rewrite Hq in Hb. by apply Forall_app in Hb as [_ Hb].
Qed.

Lemma c_string_bytes s : c_string s -> Forall (fun c => 0 <= c < 256) s.
Proof. intros H. eapply Forall_impl; [exact H|]. simpl. lia. Qed.

(** The ways of failing that are not reported as an error code. *)
Definition is_failure (e : svn_errcode) : Prop :=
  e = C_ABORT \/ e = C_UNDEFINED \/ e = OUT_OF_FUEL.

Lemma revnum_parse_error s e : svn_revnum_parse s = Err e -> ~ is_failure e.
Proof.
  unfold svn_revnum_parse, is_failure. destruct (svn__strtoul s).
  repeat case_match; intros; simplify_eq; naive_solver.
Qed.

Lemma parse_element_error s e : parse_element s = Err e -> ~ is_failure e.
Proof.
  unfold parse_element. destruct (svn_revnum_parse s) as [[n rest]|e'] eqn:E; cbn [mbind result_bind].
  - match goal with |- context [if ?b then Err _ else _] => destruct b end.
    { intros. simplify_eq. unfold is_failure. naive_solver. }
    destruct (n =? 0); [intros; simplify_eq; unfold is_failure; naive_solver|].
    destruct (deref rest =? "-"%cc); [|done].
    destruct (svn_revnum_parse (tail rest)) as [[m rest2]|e'] eqn:E2; cbn [mbind result_bind].
    + repeat case_match; intros; simplify_eq; unfold is_failure; naive_solver.
    + intros. simplify_eq. by eapply revnum_parse_error.
  - intros. simplify_eq. by eapply revnum_parse_error.
Qed.

Lemma parse_rangelist_loop_error fuel curr rl e :
  Forall (fun c => 0 <= c < 256) curr -> Forall printable rl -> (length curr <= fuel)%nat ->
  parse_rangelist_loop fuel curr rl = Err e -> ~ is_failure e.
Proof.
  intros Hb Hrl Hf H.
  destruct (parse_rangelist_loop_inv fuel curr rl Hb Hrl Hf) as [Hfuel _].
  assert (Hgen : forall fuel curr rl, parse_rangelist_loop fuel curr rl = Err e ->
    e = OUT_OF_FUEL \/ ~ is_failure e).
  { clear. induction fuel as [|f IH]; intros [|c curr] rl; cbn [parse_rangelist_loop];
      try (intros [= <-]; right; unfold is_failure; naive_solver);
      (destruct (c =? NL); [done|]); [by intros [= <-]; left|].
    destruct (parse_element (c :: curr)) as [[r rest]|e'] eqn:E; cbn [mbind result_bind].
    2:{ intros [= <-]. right. by eapply parse_element_error. }
    destruct (at_end rest); [done|].
    destruct (deref rest =? ","%cc); [by intros H%IH|].
    destruct (deref rest =? "*"%cc); [|intros [= <-]; right; unfold is_failure; naive_solver].
    cbn zeta. destruct (deref (tail rest) =? ","%cc); [by intros H%IH|].
    destruct (at_end (tail rest)); [done|]. intros [= <-]. right. unfold is_failure. naive_solver. }
  destruct (Hgen _ _ _ H) as [->|]; [done|done].
Qed.

(** One line either fails with an error code or stores a writable entry. *)
Lemma parse_revision_line_inv (input : bytes) (hash : mergeinfo) :
  c_string input -> writable hash ->
  match parse_revision_line input hash with
  | Ok (rest, hash') => writable hash' /\ c_string rest /\ (length rest < length input)%nat
  | Err e => ~ is_failure e
  end.
Proof.
  intros Hs Hw. unfold parse_revision_line, parse_pathname.
  assert (Herr : forall e, e = SVN_ERR_MERGEINFO_PARSE_ERROR -> ~ is_failure e).
  { intros e ->. unfold is_failure. naive_solver. }
  destruct (find_last_colon input) as [[before from_colon]|] eqn:Ec; [|by apply Herr].
  apply find_last_colon_inv in Ec as (-> & Hnl & t & ->).
  apply Forall_app in Hs as [Hsb Hst]. apply Forall_cons in Hst as [_ Hst].
  destruct (fspath_canonicalize_inv before Hsb) as (p & -> & Hp & Hps & Hpin).
  cbn [mbind result_bind tail]. change (deref (":"%cc :: t) =? ":"%cc) with true. cbn [negb].
  destruct (parse_rangelist t) as [[rl rest]|e] eqn:Er; cbn [mbind result_bind].
  2:{ assert (Hb := c_string_bytes _ Hst). revert Er. unfold parse_rangelist.
      destruct (at_end (eat_blanks t)); [done|].
      intros Er. eapply parse_rangelist_loop_error; [| | |exact Er]; [|constructor|done].
      by apply c_string_bytes, eat_blanks_char. }
  destruct (parse_rangelist_suffix t rl rest) as [q Hq]; [by apply c_string_bytes|done|].
  destruct (parse_rangelist_inv t) as [_ Hinv]; [by apply c_string_bytes|].
  destruct (Hinv rl rest Er) as (Hpr & _ & Hat).
  assert (Hrest : c_string rest) by (rewrite Hq in Hst; by apply Forall_app in Hst as [_ ?]).
  assert (Hlen : (length (tail rest) < length (before ++ ":"%cc :: t))%nat).
  { rewrite length_app. simpl. rewrite Hq, length_app. destruct rest; simpl; lia. }
  destruct rl as [|r rl]; [by apply Herr|]. rewrite Hat. cbn [negb].
  assert (Hfw : Forall forward (r :: rl)).
  { eapply Forall_impl; [exact Hpr|]. by intros x [? _]. }
  pose proof (canonicalize_spec (r :: rl) Hfw) as Hcan.
  destruct (svn_rangelist__canonicalize (r :: rl)) as [rl1|e]; cbn [mbind result_bind].
  2:{ apply Herr. by destruct Hcan. }
  destruct Hcan as (Hc1 & Hk1 & _).
  assert (Hcov : forall n, covers rl1 n <-> covers (r :: rl) n).
  { intros n. rewrite !has_kind_covers. setoid_rewrite Hk1. done. }
  assert (Hr0 : covers rl1 (end_ r)).
  { apply Hcov, covers_cons. left. apply Forall_cons in Hfw as [Hf _].
    unfold in_range, forward in *. lia. }
  assert (Hmax : forall n, covers rl1 n -> n <= APR_INT32_MAX).
  { intros n Hn. apply Hcov in Hn. by eapply covers_printable. }
  assert (Hentry : forall rl2, canonical rl2 -> covers rl2 (end_ r) ->
    (forall n, covers rl2 n -> n <= APR_INT32_MAX) -> writable_entry (SLASH :: p) rl2).
  { intros rl2 Hc Hr2 Hm. split.
    - by constructor.
    - apply not_elem_of_cons. split; [done|]. intros [|Hin]%Hpin; [done|done].
    - eauto.
    - intros ->. by apply covers_nil in Hr2.
    - done.
    - by apply canonical_printable. }
  destruct (hash !! (SLASH :: p)) as [existing|] eqn:Hex; cbn [mbind result_bind].
  - destruct (Hw _ _ Hex) as [_ _ _ _ Hce Hpe].
    destruct (merge2_spec rl1 existing) as (out & -> & Hco & Hu);
      [by apply canonical_disjoint_sorted..|]. cbn [mbind result_bind].
    assert (Hco2 : forall n, covers out n <-> covers rl1 n \/ covers existing n).
    { intros n. rewrite !covers_kind_at, Hu. unfold union_kind. rewrite kind_max_none.
      destruct (kind_at rl1 n), (kind_at existing n); intuition congruence. }
    split; [|split; [|done]].
    + apply map_Forall_insert_2; [|done]. apply Hentry; [done| |].
      * apply Hco2. by left.
      * intros n [Hn|Hn]%Hco2; [by apply Hmax|]. by eapply covers_printable.
    + destruct rest; [done|]. by apply Forall_cons in Hrest as [_ ?].
  - split; [|split; [|done]].
    + apply map_Forall_insert_2; [|done]. by apply Hentry.
    + destruct rest; [done|]. by apply Forall_cons in Hrest as [_ ?].
Qed.

Lemma parse_top_inv (fuel : nat) (input : bytes) (hash : mergeinfo) :
  c_string input -> writable hash -> (length input <= fuel)%nat ->
  match parse_top fuel input hash with
  | Ok m => writable m
  | Err e => ~ is_failure e
  end.
Proof.
  revert input hash. induction fuel as [|f IH]; intros [|c input] hash Hs Hw Hf;
    cbn [parse_top]; try done; [simpl in Hf; lia|].
  pose proof (parse_revision_line_inv (c :: input) hash Hs Hw) as Hline.
  destruct (parse_revision_line (c :: input) hash) as [[rest hash']|e]; cbn [mbind result_bind]; [|done].
  destruct Hline as (Hw' & Hs' & Hlen). apply IH; [done|done|]. simpl in *. lia.
Qed.

(** Parsing yields writable mergeinfo or reports a parse error. *)
Lemma mergeinfo_parse_inv (input : bytes) :
  c_string input ->
  match svn_mergeinfo_parse input with
  | Ok m => writable m
  | Err e => e = SVN_ERR_MERGEINFO_PARSE_ERROR
  end.
Proof.
  intros Hs. unfold svn_mergeinfo_parse.
  pose proof (parse_top_inv (length input) input ∅ Hs) as H.
  destruct (parse_top (length input) input ∅) as [m|e].
  - by apply H; [apply map_Forall_empty|].
  - assert (Hne : ~ is_failure e) by by apply H; [apply map_Forall_empty|].
    unfold is_failure in Hne. destruct e; try done; exfalso; apply Hne; naive_solver.
Qed.

(** * The properties of mergeinfo

    The theorems on the operations of [Mergeinfo], for every order in which a
    hash can be iterated over. *)

(** Mergeinfo for the examples. *)
Definition trunk_info : mergeinfo :=
  {[ cstr "/trunk" := [mk_range 3 9 true; mk_range 11 12 false] ]}.

Definition branch_info : mergeinfo :=
  {[ cstr "/trunk" := [mk_range 5 20 true]; cstr "/branches/a b:1" := [mk_range 0 1 true] ]}.

#[export] Instance wf_mergeinfo_dec m : Decision (wf_mergeinfo m).
Proof. unfold wf_mergeinfo. apply _. Defined.

(** ** Text *)

(** C32: mergeinfo with canonical paths and canonical rangelists of 31-bit
    revisions has a text, and [svn_mergeinfo_parse] reads the mergeinfo back
    from it, in whatever order the hash was iterated over. *)
Theorem mergeinfo_text_roundtrip `{HO : HashOrder} (m : mergeinfo) :
  writable m -> exists text,
    svn_mergeinfo_to_string m = Ok text /\ svn_mergeinfo_parse text = Ok m.
Proof. apply mergeinfo_parse_to_string. Qed.

Lemma writable_trunk_info : writable trunk_info.
Proof.
  apply map_Forall_singleton. split; [by_evaluation|by_evaluation| |done|by_evaluation|].
  - exists (cstr "trunk"). split; [done|]. unfold rel_canonical. by_evaluation.
  - repeat constructor; simpl; unfold APR_INT32_MAX; lia.
Qed.

Lemma mergeinfo_text_roundtrip_witness : exists text,
  svn_mergeinfo_to_string (HO := map_order) trunk_info = Ok text /\
  svn_mergeinfo_parse text = Ok trunk_info.
Proof. apply (mergeinfo_text_roundtrip (HO := map_order)). exact writable_trunk_info. Defined.

(** C33: whatever the input string, [svn_mergeinfo_parse] terminates without a
    failed assertion; it reports a parse error or returns mergeinfo whose keys
    are canonical absolute paths and whose rangelists are not empty, canonical
    and within 31-bit revisions - mergeinfo that the round trip applies to. *)
Theorem mergeinfo_parse_sound (input : bytes) :
  c_string input ->
  match svn_mergeinfo_parse input with
  | Ok m => writable m
  | Err e => e = SVN_ERR_MERGEINFO_PARSE_ERROR
  end.
Proof. apply mergeinfo_parse_inv. Qed.

Lemma mergeinfo_parse_sound_witness :
  match svn_mergeinfo_parse (cstr "trunk//x:4,9-11*,2-3" ++ [NL] ++ cstr "/trunk/./x:7") with
  | Ok m => writable m
  | Err e => e = SVN_ERR_MERGEINFO_PARSE_ERROR
  end.
Proof. apply mergeinfo_parse_sound. by_evaluation. Defined.

(** ** Set operations *)

(** C34: [svn_mergeinfo_merge2] succeeds on well-formed mergeinfo; the result
    is well-formed, has the paths of both arguments and records, for every
    path and revision, the stronger of what they record. *)
Theorem mergeinfo_merge2_union `{HO : HashOrder} (m changes : mergeinfo) :
  wf_mergeinfo m -> wf_mergeinfo changes -> exists out,
    svn_mergeinfo_merge2 m changes = Ok out /\ wf_mergeinfo out /\
    (forall k, is_Some (out !! k) <-> is_Some (m !! k) \/ is_Some (changes !! k)) /\
    (forall k n, kind_at (ranges_of out k) n =
       kind_max (kind_at (ranges_of m k) n) (kind_at (ranges_of changes k) n)).
Proof. apply mergeinfo_merge2_spec. Qed.

Lemma mergeinfo_merge2_union_witness : exists out,
  svn_mergeinfo_merge2 (HO := map_order) trunk_info branch_info = Ok out /\ wf_mergeinfo out /\
  (forall k, is_Some (out !! k) <-> is_Some (trunk_info !! k) \/ is_Some (branch_info !! k)) /\
  (forall k n, kind_at (ranges_of out k) n =
     kind_max (kind_at (ranges_of trunk_info k) n) (kind_at (ranges_of branch_info k) n)).
Proof. apply (mergeinfo_merge2_union (HO := map_order)); by_evaluation. Defined.

(** [svn_mergeinfo_diff2] of two well-formed mergeinfos, without
    considering inheritance, reports for every path the revisions that only
    the first one records and those that only the second one records. *)
Theorem mergeinfo_diff2_sets `{HO : HashOrder} (from to : mergeinfo) :
  wf_mergeinfo from -> wf_mergeinfo to -> exists deleted added,
    svn_mergeinfo_diff2 (Some from) (Some to) false = Ok (deleted, added) /\
    (forall k n, merged deleted k n <-> merged from k n /\ ~ merged to k n) /\
    (forall k n, merged added k n <-> merged to k n /\ ~ merged from k n).
Proof.
  intros Hf Ht. unfold svn_mergeinfo_diff2.
  destruct (diff_cb_walk from to (Some ∅) Hf Ht) as (d & a & -> & Ha & Hd & Hadd & _);
    [by left|]. cbn [mbind result_bind].
  destruct a as [a|]; [|by destruct Ha as [Ha _]; specialize (Ha eq_refl)].
  exists d, a. split; [done|]. split; [done|]. by apply Hadd.
Qed.

Lemma mergeinfo_diff2_sets_witness : exists deleted added,
  svn_mergeinfo_diff2 (HO := map_order) (Some trunk_info) (Some branch_info) false =
    Ok (deleted, added) /\
  (forall k n, merged deleted k n <-> merged trunk_info k n /\ ~ merged branch_info k n) /\
  (forall k n, merged added k n <-> merged branch_info k n /\ ~ merged trunk_info k n).
Proof. apply (mergeinfo_diff2_sets (HO := map_order)); by_evaluation. Defined.

(** [svn_mergeinfo__equals], without considering inheritance, holds
    exactly when both mergeinfos have the same paths and record the same
    revisions for them, however these are split into ranges. *)
Theorem mergeinfo_equals_iff `{HO : HashOrder} (info1 info2 : mergeinfo) :
  wf_mergeinfo info1 -> wf_mergeinfo info2 -> exists b,
    svn_mergeinfo__equals (Some info1) (Some info2) false = Ok b /\
    (b = true <-> (forall k, is_Some (info1 !! k) <-> is_Some (info2 !! k)) /\
                  forall k n, merged info1 k n <-> merged info2 k n).
Proof. apply mergeinfo_equals_spec. Qed.

Lemma mergeinfo_equals_iff_witness : exists b,
  svn_mergeinfo__equals (HO := map_order) (Some trunk_info) (Some branch_info) false = Ok b /\
  (b = true <-> (forall k, is_Some (trunk_info !! k) <-> is_Some (branch_info !! k)) /\
                forall k n, merged trunk_info k n <-> merged branch_info k n).
Proof. apply (mergeinfo_equals_iff (HO := map_order)); by_evaluation. Defined.

(** [svn_mergeinfo_intersect2], without considering inheritance, records
    the revisions both mergeinfos record, in canonical rangelists, and leaves
    out the paths without any. *)
Theorem mergeinfo_intersect2_set `{HO : HashOrder} (m1 m2 : mergeinfo) :
  wf_mergeinfo m1 -> wf_mergeinfo m2 -> exists out,
    svn_mergeinfo_intersect2 m1 m2 false = Ok out /\
    map_Forall (fun _ rl => canonical rl /\ rl <> []) out /\
    forall k n, merged out k n <-> merged m1 k n /\ merged m2 k n.
Proof.
  intros H1 H2. destruct (mergeinfo_intersect2_spec m1 m2 H1 H2) as (out & Heq & Hf & Hm).
  exists out. split; [done|]. split; [|done]. intros k rl Hk. destruct (Hf k rl Hk).
  split; [by apply separated_canonical|done].
Qed.

Lemma mergeinfo_intersect2_set_witness : exists out,
  svn_mergeinfo_intersect2 (HO := map_order) trunk_info branch_info false = Ok out /\
  map_Forall (fun _ rl => canonical rl /\ rl <> []) out /\
  forall k n, merged out k n <-> merged trunk_info k n /\ merged branch_info k n.
Proof. apply (mergeinfo_intersect2_set (HO := map_order)); by_evaluation. Defined.

(** [svn_mergeinfo_remove2], without considering inheritance, records the
    revisions of the whiteboard that the eraser does not record. *)
Theorem mergeinfo_remove2_set `{HO : HashOrder} (eraser whiteboard : mergeinfo) :
  wf_mergeinfo eraser -> wf_mergeinfo whiteboard -> exists out,
    svn_mergeinfo_remove2 eraser whiteboard false = Ok out /\ wf_mergeinfo out /\
    forall k n, merged out k n <-> merged whiteboard k n /\ ~ merged eraser k n.
Proof.
  intros He Hw. unfold svn_mergeinfo_remove2.
  destruct (diff_cb_walk whiteboard eraser None Hw He) as (d & a & -> & _ & Hd & _ & _ & Hwf);
    [by right|]. cbn [mbind result_bind]. exists d. split; [done|]. split; [done|exact Hd].
Qed.

Lemma mergeinfo_remove2_set_witness : exists out,
  svn_mergeinfo_remove2 (HO := map_order) trunk_info branch_info false = Ok out /\
  wf_mergeinfo out /\
  forall k n, merged out k n <-> merged branch_info k n /\ ~ merged trunk_info k n.
Proof. apply (mergeinfo_remove2_set (HO := map_order)); by_evaluation. Defined.

(** [svn_mergeinfo__filter_mergeinfo_by_ranges] keeps exactly the
    revisions within (or, on demand, outside) the given bounds, and only paths
    with revisions. *)
Theorem mergeinfo_filter_by_ranges `{HO : HashOrder} (m : mergeinfo) youngest oldest include :
  wf_mergeinfo m -> 0 <= oldest < youngest -> exists out,
    svn_mergeinfo__filter_mergeinfo_by_ranges (Some m) youngest oldest include = Ok out /\
    map_Forall (fun _ rl => canonical rl /\ rl <> []) out /\
    forall k n, merged out k n <-> merged m k n /\
      (if include : bool then oldest < n <= youngest else ~ (oldest < n <= youngest)).
Proof.
  intros Hm Hr.
  destruct (filter_by_ranges_spec m youngest oldest include Hm Hr) as (out & Heq & Hf & Hc).
  exists out. split; [done|]. split; [|done]. intros k rl Hk. destruct (Hf k rl Hk).
  split; [by apply separated_canonical|done].
Qed.

Lemma mergeinfo_filter_by_ranges_witness : exists out,
  svn_mergeinfo__filter_mergeinfo_by_ranges (HO := map_order) (Some branch_info) 10 2 true = Ok out /\
  map_Forall (fun _ rl => canonical rl /\ rl <> []) out /\
  forall k n, merged out k n <-> merged branch_info k n /\ 2 < n <= 10.
Proof. apply (mergeinfo_filter_by_ranges (HO := map_order) branch_info 10 2 true); [by_evaluation|lia]. Defined.
