(* ===== verification/Sorts.v ===== *)
(** * Sorted arrays and priority queues (libsvn_subr/sorts.c)

    Binary search, lookup with a hint, insertion into, deletion from and
    reversal of arrays, and the priority queue.  An [apr_array_header_t] is the
    list of its elements; reading an element that does not exist is undefined
    behaviour.  What the functions expect of a [compare_func] is the class
    [CompareFunc]. *)

From S2P Require Import Prelude Rangelist.

(** ** Comparison functions *)

(** [0 < c x y] and [c y x < 0] go together, and "not greater" is transitive. *)
Class CompareFunc {A : Type} (compare_func : A -> A -> Z) : Prop := {
  compare_flip x y : 0 < compare_func x y <-> compare_func y x < 0;
  compare_trans x y z : compare_func x y <= 0 -> compare_func y z <= 0 -> compare_func x z <= 0
}.

#[export] Instance compare_ranges_func : CompareFunc svn_sort_compare_ranges.
Proof.
  split.
  - intros [s1 e1 i1] [s2 e2 i2]. unfold svn_sort_compare_ranges. cbn [start end_].
    repeat (case_match; reflect_bools; simpl in *; try lia).
  - intros [s1 e1 i1] [s2 e2 i2] [s3 e3 i3]. unfold svn_sort_compare_ranges. cbn [start end_].
    repeat (case_match; reflect_bools; simpl in *; try lia).
Qed.

(** ** Binary search *)

Section Lookup.
Context {A K : Type} (compare_func : A -> K -> Z).

(** [array->elts + i * array->elt_size] *)
Definition array_elt (array : list A) (i : Z) : result A :=
  if i <? 0 then Err C_UNDEFINED
  else match array !! Z.to_nat i with Some x => Ok x | None => Err C_UNDEFINED end.

Fixpoint bsearch_loop (fuel : nat) (key : K) (array : list A) (lower upper : Z)
    : result (Z * Z) :=
  if lower <=? upper then
    match fuel with
    | O => Err OUT_OF_FUEL
    | S f =>
        let try := s32 (lower + Z.quot (s32 (upper - lower)) 2) in
        elt ← array_elt array try;
        if compare_func elt key <? 0 then bsearch_loop f key array (s32 (try + 1)) upper
        else bsearch_loop f key array lower (s32 (try - 1))
    end
  else Ok (lower, upper).

Definition bsearch_lower_bound (key : K) (array : list A) : result Z :=
  '(lower, upper) ← bsearch_loop (length array) key array 0 (Z.of_nat (length array) - 1);
  c_assert (lower =? upper + 1);;
  Ok lower.

Definition svn_sort__bsearch_lower_bound (array : list A) (key : K) : result Z :=
  bsearch_lower_bound key array.

(** The part of the lookup that uses the hint: [Some] if the function returns
    there.  The result is the element found and the new hint. *)
Definition try_hint (array : list A) (key : K) (hint : Z) : result (option (option A * Z)) :=
  let nelts := Z.of_nat (length array) in
  let idx := hint + 1 in
  if nelts <=? idx then
    if nelts =? 0 then Ok (Some (None, nelts))
    else
      last ← array_elt array (nelts - 1);
      Ok (if compare_func last key <? 0 then Some (None, nelts) else None)
  else if 0 <? idx then
    previous ← array_elt array (idx - 1);
    result ← array_elt array idx;
    Ok (if negb (compare_func previous key =? 0) && (compare_func result key =? 0)
        then Some (Some result, idx) else None)
  else
    first ← array_elt array 0;
    Ok (if compare_func first key =? 0 then Some (Some first, 0) else None).

(** [hint] is the value [*HINT] has when a hint is given. *)
Definition svn_sort__array_lookup (array : list A) (key : K) (hint : option Z)
    : result (option A * Z) :=
  early ← match hint with Some h => try_hint array key h | None => Ok None end;
  match early with
  | Some res => Ok res
  | None =>
      idx ← bsearch_lower_bound key array;
      if Z.of_nat (length array) <=? idx then Ok (None, idx)
      else
        result ← array_elt array idx;
        Ok (if compare_func result key =? 0 then Some result else None, idx)
  end.
End Lookup.

(** ** Insertion, deletion, reversal *)

Section Arrays.
Context {A : Type}.

Definition svn_sort__array_insert2 (array : list A) (new_element : A) (insert_index : Z)
    : result (list A) :=
  if (insert_index <? 0) || (Z.of_nat (length array) <? insert_index)
  then Err SVN_ERR_INCORRECT_PARAMS
  else
    let i := Z.to_nat insert_index in
    Ok (take i array ++ new_element :: drop i array).

Definition svn_sort__array_delete2 (arr : list A) (delete_index elements_to_delete : Z)
    : result (list A) :=
  let nelts := Z.of_nat (length arr) in
  if negb ((0 <=? delete_index) && (delete_index <? nelts) && (0 <? elements_to_delete)
           && (elements_to_delete <=? nelts - delete_index))
  then Err SVN_ERR_INCORRECT_PARAMS
  else
    let i := Z.to_nat delete_index in
    Ok (take i arr ++ drop (i + Z.to_nat elements_to_delete) arr).

(** Exchange the elements number [i] and [j]. *)
Definition swap (array : list A) (i j : nat) : list A :=
  match array !! i, array !! j with
  | Some x, Some y => <[i := y]> (<[j := x]> array)
  | _, _ => array
  end.

Fixpoint reverse_loop (todo i : nat) (array : list A) : list A :=
  match todo with
  | O => array
  | S todo => reverse_loop todo (S i) (swap array i (length array - i - 1))
  end.

Definition svn_sort__array_reverse (array : list A) : list A :=
  reverse_loop (length array / 2) 0 array.
End Arrays.

(** ** Priority queues

    The elements of the queue; its [compare_func] is the section's variable. *)

Section Queue.
Context {A : Type} (compare_func : A -> A -> Z).

Definition heap_is_less (queue : list A) (lhs rhs : nat) : result bool :=
  match queue !! lhs, queue !! rhs with
  | Some lhs_value, Some rhs_value => Ok (compare_func lhs_value rhs_value <? 0)
  | _, _ => Err C_ABORT
  end.

Definition heap_swap (queue : list A) (lhs rhs : nat) : list A := swap queue lhs rhs.

Fixpoint heap_bubble_down (fuel : nat) (queue : list A) (idx : nat) : result (list A) :=
  if (0 <? idx)%nat then
    let parent := ((idx - 1) / 2)%nat in
    less ← heap_is_less queue idx parent;
    if less : bool then
      match fuel with
      | O => Err OUT_OF_FUEL
      | S f => heap_bubble_down f (heap_swap queue idx parent) parent
      end
    else Ok queue
  else Ok queue.

Fixpoint heap_bubble_up (fuel : nat) (queue : list A) (idx : nat) : result (list A) :=
  if (2 * idx + 2 <? length queue)%nat then
    less ← heap_is_less queue (2 * idx + 1) (2 * idx + 2);
    let child := if less : bool then (2 * idx + 1)%nat else (2 * idx + 2)%nat in
    done ← heap_is_less queue idx child;
    if done : bool then Ok queue
    else match fuel with
         | O => Err OUT_OF_FUEL
         | S f => heap_bubble_up f (heap_swap queue idx child) child
         end
  else if (2 * idx + 1 <? length queue)%nat then
    less ← heap_is_less queue (2 * idx + 1) idx;
    Ok (if less : bool then heap_swap queue (2 * idx + 1) idx else queue)
  else Ok queue.

(** The index at least doubles in every round. *)
Definition bubble_up (queue : list A) (idx : nat) : result (list A) :=
  heap_bubble_up (length queue) queue idx.

(** [for (i = elements->nelts / 2; i >= 0; --i)] *)
Fixpoint create_loop (i : nat) (queue : list A) : result (list A) :=
  queue ← bubble_up queue i;
  match i with O => Ok queue | S i => create_loop i queue end.

Definition svn_priority_queue__create (elements : list A) : result (list A) :=
  create_loop (length elements / 2) elements.

Definition svn_priority_queue__size (queue : list A) : nat := length queue.

Definition svn_priority_queue__peek (queue : list A) : option A := head queue.

(** The caller has changed the element [svn_priority_queue__peek] returned. *)
Definition svn_priority_queue__update (queue : list A) : result (list A) := bubble_up queue 0.

Definition svn_priority_queue__pop (queue : list A) : result (list A) :=
  match last queue with
  | Some x => bubble_up (take (length queue - 1) (<[0%nat := x]> queue)) 0
  | None => Ok queue
  end.

Definition svn_priority_queue__push (queue : list A) (element : A) : result (list A) :=
  let queue := queue ++ [element] in
  heap_bubble_down (length queue) queue (length queue - 1).
End Queue.
