(* ===== verification/SortsTheorems.v ===== *)
(** * Sorted arrays and priority queues

    Binary search finds the place of a key, insertion keeps an array sorted;
    the operations of the queue keep the heap and its elements. *)

From S2P Require Import Prelude Rangelist Sorts.

(** ** Binary search *)

Section LookupFacts.
Context {A K : Type} (compare_func : A -> K -> Z) (key : K).

(** The array is sorted as far as the comparison with the key can tell. *)
Definition sorted_for (array : list A) : Prop :=
  StronglySorted (fun x y =>
    (compare_func y key < 0 -> compare_func x key < 0) /\
    (compare_func y key <= 0 -> compare_func x key <= 0)) array.

(** The number of elements less than the key. *)
Definition lower_bound (array : list A) : nat :=
  length (filter (fun x => compare_func x key < 0) array).

Lemma lower_bound_spec array i x :
  sorted_for array -> array !! i = Some x ->
  (compare_func x key < 0 <-> (i < lower_bound array)%nat).
Proof.
  unfold lower_bound. intros Hs. revert i x. induction Hs as [|y array Hs IH Hy]; intros i x Hi; [done|].
  rewrite filter_cons. destruct i as [|i]; simpl in Hi.
  - simplify_eq. destruct (decide (compare_func x key < 0)) as [Hx|Hx]; simpl; [split; [lia|done]|].
    split; [done|]. intros Hl.
    destruct (filter (fun x => compare_func x key < 0) array) as [|z zs] eqn:Hf; [simpl in Hl; lia|].
    assert (z ∈ filter (fun x => compare_func x key < 0) array) as Hz by (rewrite Hf; left).
    apply list_elem_of_filter in Hz as [Hz1 Hz2]. rewrite Forall_forall in Hy.
    by apply (Hy z).
  - assert (Hix : compare_func x key < 0 -> compare_func y key < 0).
    { rewrite Forall_forall in Hy. apply Hy. by eapply list_elem_of_lookup_2. }
    rewrite (IH i x Hi). destruct (decide (compare_func y key < 0)) as [Hlt|Hlt]; cbn [length]; [lia|].
    rewrite <- (IH i x Hi). split; [intros H; by apply Hix in H|]. intros H.
    destruct array as [|z array]; [by rewrite lookup_nil in Hi|]. exfalso. apply Hlt.
    apply Forall_cons in Hy as [[Hz _] _]. apply Hz.
    apply (IH 0%nat z); [done|]. lia.
Qed.

Lemma lower_bound_le array : (lower_bound array <= length array)%nat.
Proof. apply length_filter. Qed.

Lemma sorted_for_le array i j x y :
  sorted_for array -> (i <= j)%nat -> array !! i = Some x -> array !! j = Some y ->
  compare_func y key <= 0 -> compare_func x key <= 0.
Proof.
  intros Hs Hij Hi Hj. destruct (decide (i = j)) as [->|Hne]; [by simplify_eq|].
  revert i j Hij Hne Hi Hj. induction Hs as [|z array Hs IH Hz]; intros i j Hij Hne Hi Hj; [done|].
  destruct j as [|j]; [lia|]. simpl in Hj. destruct i as [|i]; simpl in Hi.
  - simplify_eq. rewrite Forall_forall in Hz. apply Hz. by eapply list_elem_of_lookup_2.
  - apply (IH i j); try done; lia.
Qed.

Lemma array_elt_ok (array : list A) i x :
  0 <= i -> array !! Z.to_nat i = Some x -> array_elt array i = Ok x.
Proof. intros Hi Hx. unfold array_elt. destruct (Z.ltb_spec i 0); [lia|]. by rewrite Hx. Qed.

Lemma array_elt_ex (array : list A) i :
  0 <= i < Z.of_nat (length array) -> exists x,
    array_elt array i = Ok x /\ array !! Z.to_nat i = Some x.
Proof.
  intros Hi. destruct (lookup_lt_is_Some_2 array (Z.to_nat i)) as [x Hx]; [lia|].
  exists x. split; [|done]. apply array_elt_ok; [lia|done].
Qed.

Lemma s32_small z : - 2 ^ 31 <= z < 2 ^ 31 -> s32 z = z.
Proof.
  intros Hz. unfold s32. destruct (Z.lt_ge_cases z 0).
  - rewrite <- (Z_mod_plus_full z 1), (Z.mod_small (z + 1 * 2 ^ 32)) by lia.
    destruct (Z.ltb_spec (z + 1 * 2 ^ 32) (2 ^ 31)); lia.
  - rewrite Z.mod_small by lia. destruct (Z.ltb_spec z (2 ^ 31)); lia.
Qed.

Lemma bsearch_loop_spec array fuel lower upper :
  sorted_for array -> Z.of_nat (length array) <= APR_INT32_MAX ->
  0 <= lower <= Z.of_nat (lower_bound array) ->
  Z.of_nat (lower_bound array) <= upper + 1 <= Z.of_nat (length array) ->
  upper + 1 - lower <= Z.of_nat fuel ->
  bsearch_loop compare_func fuel key array lower upper =
    Ok (Z.of_nat (lower_bound array), Z.of_nat (lower_bound array) - 1).
Proof.
  intros Hs Hn. unfold APR_INT32_MAX in Hn. revert lower upper.
  induction fuel as [|fuel IH]; intros lower upper Hl Hu Hf; cbn [bsearch_loop];
    destruct (Z.leb_spec lower upper); try lia; try (do 2 f_equal; lia).
  rewrite (s32_small (upper - lower)) by lia.
  assert (0 <= Z.quot (upper - lower) 2 <= upper - lower) by dlia.
  set (try := lower + Z.quot (upper - lower) 2) in *. rewrite (s32_small try) by lia.
  destruct (array_elt_ex array try) as (x & -> & Hx); [lia|]. cbn [mbind result_bind].
  pose proof (lower_bound_spec array _ x Hs Hx) as Hlt. rewrite (s32_small (try + 1)), (s32_small (try - 1)) by lia.
  destruct (Z.ltb_spec (compare_func x key) 0); apply IH; lia.
Qed.

Lemma bsearch_lower_bound_spec array :
  sorted_for array -> Z.of_nat (length array) <= APR_INT32_MAX ->
  bsearch_lower_bound compare_func key array = Ok (Z.of_nat (lower_bound array)).
Proof.
  intros Hs Hn. unfold bsearch_lower_bound. pose proof (lower_bound_le array).
  rewrite bsearch_loop_spec by (done || lia). cbn [mbind result_bind].
  destruct (Z.eqb_spec (Z.of_nat (lower_bound array)) (Z.of_nat (lower_bound array) - 1 + 1)); [done|lia].
Qed.

(** The element at the lower bound, if it matches. *)
Definition lookup_result (array : list A) : option A * Z :=
  (x ← array !! lower_bound array; if compare_func x key =? 0 then Some x else None,
   Z.of_nat (lower_bound array)).

(** An early return gives the result of the search. *)
Lemma try_hint_spec array hint :
  sorted_for array -> -1 <= hint -> exists early,
    try_hint compare_func array key hint = Ok early /\
    (early = None \/ early = Some (lookup_result array)).
Proof.
  intros Hs Hh. unfold try_hint, lookup_result. pose proof (lower_bound_le array) as Hle.
  destruct (Z.leb_spec (Z.of_nat (length array)) (hint + 1)).
  - destruct (Z.eqb_spec (Z.of_nat (length array)) 0) as [H0|H0].
    + eexists. split; [done|]. right. rewrite H0. destruct array; [done|simpl in H0; lia].
    + destruct (array_elt_ex array (Z.of_nat (length array) - 1)) as (x & -> & Hx); [lia|].
      cbn [mbind result_bind]. eexists. split; [done|].
      destruct (Z.ltb_spec (compare_func x key) 0) as [Hlt|]; [right|by left].
      apply (lower_bound_spec array) in Hx as Hlb; [|done]. apply Hlb in Hlt.
      rewrite lookup_ge_None_2 by lia. do 2 f_equal. lia.
  - destruct (Z.ltb_spec 0 (hint + 1)).
    + destruct (array_elt_ex array (hint + 1 - 1)) as (p & -> & Hp); [lia|].
      destruct (array_elt_ex array (hint + 1)) as (x & -> & Hx); [lia|].
      cbn [mbind result_bind]. eexists. split; [done|].
      destruct (Z.eqb_spec (compare_func p key) 0), (Z.eqb_spec (compare_func x key) 0) as [Hx0|];
        cbn [negb andb]; try by left. right.
      assert (compare_func p key <= 0).
      { eapply (sorted_for_le array (Z.to_nat (hint + 1 - 1)) (Z.to_nat (hint + 1)));
          [done|lia|done|done|lia]. }
      apply (lower_bound_spec array) in Hp; [|done].
      assert (Hx' := Hx). apply (lower_bound_spec array) in Hx'; [|done].
      replace (lower_bound array) with (Z.to_nat (hint + 1)) by lia.
      rewrite Hx. cbn [mbind option_bind]. rewrite Hx0, Z.eqb_refl. do 2 f_equal. lia.
    + destruct (array_elt_ex array 0) as (x & -> & Hx); [lia|]. cbn [mbind result_bind].
      eexists. split; [done|]. destruct (Z.eqb_spec (compare_func x key) 0) as [Hx0|]; [right|by left].
      assert (Hx' := Hx). apply (lower_bound_spec array) in Hx'; [|done].
      replace (lower_bound array) with 0%nat by lia.
      change (Z.to_nat 0) with 0%nat in Hx. rewrite Hx. cbn [mbind option_bind].
      by rewrite Hx0, Z.eqb_refl.
Qed.

Lemma array_lookup_spec array hint :
  sorted_for array -> Z.of_nat (length array) <= APR_INT32_MAX ->
  (forall h, hint = Some h -> -1 <= h) ->
  svn_sort__array_lookup compare_func array key hint = Ok (lookup_result array).
Proof.
  intros Hs Hn Hh. unfold svn_sort__array_lookup.
  assert (Hearly : exists early,
    match hint with Some h => try_hint compare_func array key h | None => Ok None end = Ok early /\
    (early = None \/ early = Some (lookup_result array))).
  { destruct hint as [h|]; [apply try_hint_spec; [done|by apply Hh]|]. exists None. auto. }
  destruct Hearly as (early & -> & [->| ->]); cbn [mbind result_bind]; [|done].
  rewrite bsearch_lower_bound_spec by done. cbn [mbind result_bind]. unfold lookup_result.
  destruct (Z.leb_spec (Z.of_nat (length array)) (Z.of_nat (lower_bound array))).
  - by rewrite lookup_ge_None_2 by lia.
  - destruct (array_elt_ex array (Z.of_nat (lower_bound array))) as (x & -> & Hx); [lia|].
    rewrite Nat2Z.id in Hx. rewrite Hx. done.
Qed.
End LookupFacts.

(** * Facts about arrays and priority queues

    Exchanging elements, reversal, and the heap order that the operations of a
    priority queue restore. *)

(** ** Exchanging two elements *)

Section Swap.
Context {A : Type}.
Implicit Types l : list A.

Lemma swap_length l i j : length (swap l i j) = length l.
Proof. unfold swap. repeat case_match; by rewrite ?length_insert. Qed.

Lemma swap_lookup l i j k :
  (i < length l)%nat -> (j < length l)%nat ->
  swap l i j !! k = l !! (if decide (k = i) then j else if decide (k = j) then i else k).
Proof.
  intros Hi Hj. unfold swap.
  destruct (lookup_lt_is_Some_2 l i Hi) as [x Hx], (lookup_lt_is_Some_2 l j Hj) as [y Hy].
  rewrite Hx, Hy. repeat case_decide; subst.
  - rewrite list_lookup_insert_eq; [done|by rewrite length_insert].
  - rewrite list_lookup_insert_ne, list_lookup_insert_eq by done. done.
  - by rewrite !list_lookup_insert_ne.
Qed.

Lemma swap_Permutation l i j : swap l i j ≡ₚ l.
Proof.
  unfold swap. destruct (l !! i) as [x|] eqn:Hx; [|done]. destruct (l !! j) as [y|] eqn:Hy; [|done].
  by apply Permutation_insert_swap.
Qed.

(** ** Reversal *)

Lemma reverse_loop_lookup l todo i p :
  (2 * (i + todo) <= length l)%nat -> (p < length l)%nat ->
  reverse_loop todo i l !! p =
    l !! (if decide (i <= p < i + todo \/ i <= length l - 1 - p < i + todo)%nat
          then (length l - 1 - p)%nat else p).
Proof.
  revert l i. induction todo as [|todo IH]; intros l i Hn Hp; cbn [reverse_loop].
  { rewrite decide_False by lia. done. }
  rewrite IH by (rewrite swap_length; lia). rewrite swap_length, swap_lookup by lia.
  f_equal. repeat case_decide; lia.
Qed.

Lemma reverse_loop_length l todo i : length (reverse_loop todo i l) = length l.
Proof.
  revert l i. induction todo as [|todo IH]; intros l i; [done|].
  cbn [reverse_loop]. by rewrite IH, swap_length.
Qed.

Lemma array_reverse_spec l : svn_sort__array_reverse l = reverse l.
Proof.
  unfold svn_sort__array_reverse. apply list_eq. intros p.
  destruct (decide (p < length l)%nat) as [Hp|Hp].
  - pose proof (Nat.div_mod (length l) 2). pose proof (Nat.mod_upper_bound (length l) 2).
    rewrite reverse_loop_lookup, reverse_lookup by lia. f_equal. case_decide; lia.
  - by rewrite !lookup_ge_None_2 by (rewrite ?length_reverse, ?reverse_loop_length; lia).
Qed.
End Swap.

(** ** The heap order *)

Section Heap.
Context {A : Type} (compare_func : A -> A -> Z) `{!CompareFunc compare_func}.
Implicit Types queue : list A.

Notation le x y := (compare_func x y <= 0).

Lemma compare_not_less x y : ~ compare_func x y < 0 -> le y x.
Proof. rewrite <- compare_flip. lia. Qed.

Lemma compare_refl x : compare_func x x = 0.
Proof. pose proof (compare_flip x x). lia. Qed.

(** The elements at [i] and [j] are in order. *)
Definition in_order queue (i j : nat) : Prop :=
  forall x y, queue !! i = Some x -> queue !! j = Some y -> le x y.

Definition child (i j : nat) : Prop := (j = 2 * i + 1 \/ j = 2 * i + 2)%nat.

Definition heap queue : Prop := forall i j, child i j -> in_order queue i j.

Lemma in_order_trans queue i j k :
  (j < length queue)%nat -> in_order queue i j -> in_order queue j k -> in_order queue i k.
Proof.
  intros Hj Hij Hjk x z Hx Hz. destruct (lookup_lt_is_Some_2 queue j Hj) as [y Hy].
  eapply compare_trans; eauto.
Qed.

Lemma in_order_refl queue i : in_order queue i i.
Proof. intros x y Hx Hy. simplify_eq. rewrite compare_refl. lia. Qed.

(** The order after an exchange. *)
Lemma in_order_swap queue i j a b :
  (i < length queue)%nat -> (j < length queue)%nat ->
  in_order queue (if decide (a = i) then j else if decide (a = j) then i else a)
                 (if decide (b = i) then j else if decide (b = j) then i else b) ->
  in_order (swap queue i j) a b.
Proof. intros Hi Hj H x y. rewrite !swap_lookup by done. apply H. Qed.

Lemma heap_is_less_spec queue i j :
  (i < length queue)%nat -> (j < length queue)%nat -> exists b,
    heap_is_less compare_func queue i j = Ok b /\
    (b = true -> in_order queue i j) /\ (b = false -> in_order queue j i).
Proof.
  intros Hi Hj. unfold heap_is_less.
  destruct (lookup_lt_is_Some_2 queue i Hi) as [x Hx], (lookup_lt_is_Some_2 queue j Hj) as [y Hy].
  rewrite Hx, Hy. eexists. split; [done|]. split; intros Hb ?? H1 H2; simplify_eq.
  - apply Z.ltb_lt in Hb. lia.
  - apply compare_not_less. apply Z.ltb_ge in Hb. lia.
Qed.

(** ** Sifting towards the leaves *)

(** From [k] on, the heap order holds except below [idx]. *)
Record hole queue (k idx : nat) : Prop := {
  hole_order i j : (k <= i)%nat -> i <> idx -> child i j -> in_order queue i j;
  hole_jump p j : (k <= p)%nat -> child p idx -> child idx j -> in_order queue p j
}.

Definition heap_from queue (k : nat) : Prop :=
  forall i j, (k <= i)%nat -> child i j -> in_order queue i j.

Lemma in_order_out queue i j : (length queue <= j)%nat -> in_order queue i j.
Proof. intros Hj x y _ Hy. apply lookup_lt_Some in Hy. lia. Qed.

(** The last step, where the hole has at most one child. *)
Lemma bubble_last queue k idx :
  (length queue <= 2 * idx + 2)%nat -> (k <= idx)%nat -> hole queue k idx -> exists queue',
    (if (2 * idx + 1 <? length queue)%nat then
       less ← heap_is_less compare_func queue (2 * idx + 1) idx;
       Ok (if less : bool then heap_swap queue (2 * idx + 1) idx else queue)
     else Ok queue) = Ok queue' /\ queue' ≡ₚ queue /\ heap_from queue' k.
Proof.
  intros Hlen Hk [Ho Hj]. destruct (Nat.ltb_spec (2 * idx + 1) (length queue)) as [Hlt|Hge].
  2:{ exists queue. split; [done|]. split; [done|]. intros i j Hi Hij.
      destruct (decide (i = idx)) as [->|Hne]; [|by apply Ho].
      apply in_order_out. unfold child in Hij. lia. }
  destruct (heap_is_less_spec queue (2 * idx + 1) idx) as (b & -> & Hb1 & Hb2); [lia..|].
  cbn [mbind result_bind]. eexists. split; [done|]. destruct b.
  - split; [apply swap_Permutation|]. intros i j Hi Hij. apply in_order_swap; [lia|lia|].
    unfold child in *. repeat case_decide; try lia; subst;
      first [by apply Hb1|apply in_order_out; lia|apply Hj; lia|apply Ho; lia].
  - split; [done|]. intros i j Hi Hij. destruct (decide (i = idx)) as [->|Hne]; [|by apply Ho].
    destruct Hij as [-> | ->]; [by apply Hb2|apply in_order_out; lia].
Qed.

(** The child that the hole moves to. *)
Lemma smaller_child queue idx :
  (2 * idx + 2 < length queue)%nat -> exists b,
    heap_is_less compare_func queue (2 * idx + 1) (2 * idx + 2) = Ok b /\
    let c := if b : bool then (2 * idx + 1)%nat else (2 * idx + 2)%nat in
    child idx c /\ (c < length queue)%nat /\ forall j, child idx j -> in_order queue c j.
Proof.
  intros Hlt. destruct (heap_is_less_spec queue (2 * idx + 1) (2 * idx + 2)) as (b & Hb & Hb1 & Hb2);
    [lia..|]. exists b. split; [done|]. cbn zeta. split_and!.
  - unfold child. destruct b; lia.
  - destruct b; lia.
  - intros j [-> | ->]; destruct b; try apply in_order_refl; auto.
Qed.

Lemma heap_bubble_up_spec fuel queue k idx :
  (length queue <= fuel + idx)%nat -> (k <= idx)%nat -> hole queue k idx -> exists queue',
    heap_bubble_up compare_func fuel queue idx = Ok queue' /\
    queue' ≡ₚ queue /\ heap_from queue' k.
Proof.
  revert queue idx. induction fuel as [|fuel IH]; intros queue idx Hf Hk Hh;
    cbn [heap_bubble_up]; destruct (Nat.ltb_spec (2 * idx + 2) (length queue)) as [Hlt|Hge];
    try (apply bubble_last; done || lia).
  1: lia.
  destruct (smaller_child queue idx Hlt) as (b & -> & Hc & Hcl & Hcmin).
  cbn [mbind result_bind]. cbn zeta in *.
  set (c := if b then (2 * idx + 1)%nat else (2 * idx + 2)%nat) in *.
  destruct (heap_is_less_spec queue idx c) as (d & -> & Hd1 & Hd2); [lia|lia|].
  destruct Hh as [Ho Hj]. cbn [mbind result_bind]. destruct d.
  - exists queue. split; [done|]. split; [done|]. intros i j Hi Hij.
    destruct (decide (i = idx)) as [->|Hne]; [|by apply Ho].
    eapply in_order_trans; [exact Hcl|by apply Hd1|by apply Hcmin].
  - destruct (IH (heap_swap queue idx c) c) as (queue' & Heq & Hp & Hh).
    + unfold heap_swap. rewrite swap_length. unfold child in Hc. lia.
    + unfold child in Hc. lia.
    + unfold heap_swap. split.
      * intros i j Hi Hne Hij. apply in_order_swap; [lia|done|].
        repeat case_decide; subst; try (unfold child in *; lia);
          first [by apply Hd2|by apply Hcmin|by apply Hj|by apply Ho].
      * intros p j Hp Hpc Hcj. apply in_order_swap; [lia|done|].
        repeat case_decide; subst; try (unfold child in *; lia). apply Ho; [unfold child in *; lia..|done].
    + exists queue'. split; [done|]. split; [|done]. rewrite Hp. apply swap_Permutation.
Qed.
(** ** Sifting towards the root *)

(** The heap order holds except above [idx]. *)
Record rising queue (idx : nat) : Prop := {
  rising_order i j : j <> idx -> child i j -> in_order queue i j;
  rising_jump p j : child p idx -> child idx j -> in_order queue p j
}.

Lemma parent_child idx : (0 < idx)%nat -> child ((idx - 1) / 2) idx.
Proof.
  intros Hi. unfold child. pose proof (Nat.div_mod (idx - 1) 2).
  pose proof (Nat.mod_upper_bound (idx - 1) 2). lia.
Qed.

Lemma child_unique i i' j : child i j -> child i' j -> i = i'.
Proof. unfold child. lia. Qed.

Lemma heap_bubble_down_spec fuel queue idx :
  (idx <= fuel)%nat -> (idx < length queue)%nat -> rising queue idx -> exists queue',
    heap_bubble_down compare_func fuel queue idx = Ok queue' /\ queue' ≡ₚ queue /\ heap queue'.
Proof.
  revert queue idx. induction fuel as [|fuel IH]; intros queue idx Hf Hlt [Ho Hj];
    cbn [heap_bubble_down]; (destruct (Nat.ltb_spec 0 idx) as [Hpos|Hz]; [try lia|]).
  1,3: exists queue; split; [done|]; split; [done|]; intros i j Hij; apply Ho; [unfold child in Hij; lia|done].
  pose proof (parent_child idx Hpos) as Hp. set (p := ((idx - 1) / 2)%nat) in *.
  assert (Hpl : (p < idx)%nat) by (unfold child in Hp; lia).
  destruct (heap_is_less_spec queue idx p) as (b & -> & Hb1 & Hb2); [lia..|].
  cbn [mbind result_bind]. destruct b.
  - destruct (IH (heap_swap queue idx p) p) as (queue' & Heq & Hq & Hh).
    + lia.
    + unfold heap_swap. rewrite swap_length. lia.
    + unfold heap_swap. split.
      * intros i j Hne Hij. apply in_order_swap; [lia|lia|].
        destruct (decide (j = idx)) as [->|Hji].
        { assert (i = p) as -> by by eapply child_unique.
          repeat case_decide; try lia. by apply Hb1. }
        rewrite (decide_False (P := j = p)) by done.
        destruct (decide (i = idx)) as [->|Hi]; [by apply Hj|].
        destruct (decide (i = p)) as [->|Hip]; [|by apply Ho].
        eapply (in_order_trans queue idx p); [lia|by apply Hb1|by apply Ho].
      * intros pp j Hpp Hpj. apply in_order_swap; [lia|lia|].
        assert (pp < p)%nat by (unfold child in Hpp; lia).
        rewrite (decide_False (P := pp = idx)), (decide_False (P := pp = p)) by lia.
        assert (in_order queue pp p) by (apply Ho; [lia|done]).
        destruct (decide (j = idx)) as [->|Hji]; [done|].
        rewrite decide_False by (unfold child in Hpj; lia).
        eapply (in_order_trans queue pp p); [lia|done|by apply Ho].
    + exists queue'. split; [done|]. split; [|done]. rewrite Hq. apply swap_Permutation.
  - exists queue. split; [done|]. split; [done|]. intros i j Hij.
    destruct (decide (j = idx)) as [->|Hne]; [|by apply Ho].
    assert (i = p) as -> by by eapply child_unique. by apply Hb2.
Qed.

(** ** The operations *)

Lemma bubble_up_root queue :
  hole queue 0 0 -> exists queue',
    bubble_up compare_func queue 0 = Ok queue' /\ queue' ≡ₚ queue /\ heap queue'.
Proof.
  intros Hh. unfold bubble_up.
  destruct (heap_bubble_up_spec (length queue) queue 0 0) as (queue' & -> & Hp & Ho); [lia|done|done|].
  exists queue'. split; [done|]. split; [done|]. intros i j. apply Ho. lia.
Qed.

Lemma create_loop_spec i queue :
  heap_from queue (S i) -> exists queue',
    create_loop compare_func i queue = Ok queue' /\ queue' ≡ₚ queue /\ heap queue'.
Proof.
  revert queue. induction i as [|i IH]; intros queue Hh; cbn [create_loop]; unfold bubble_up;
    match goal with |- context [heap_bubble_up _ _ _ ?k] =>
      destruct (heap_bubble_up_spec (length queue) queue k k) as (q & -> & Hp & Ho) end;
    [lia|done| | |lia|done| | ]; cbn [mbind result_bind].
  1,3: split; [intros i' j Hi Hne; apply Hh; lia|intros p j Hpk Hc; unfold child in Hc; lia].
  - exists q. split; [done|]. split; [done|]. intros i j. apply Ho. lia.
  - destruct (IH q Ho) as (queue' & -> & Hp' & Hh'). exists queue'. split; [done|].
    split; [by rewrite Hp'|done].
Qed.

Lemma create_spec queue : exists queue',
  svn_priority_queue__create compare_func queue = Ok queue' /\ queue' ≡ₚ queue /\ heap queue'.
Proof.
  apply create_loop_spec. intros i j Hi Hij. apply in_order_out. unfold child in Hij.
  pose proof (Nat.div_mod (length queue) 2). pose proof (Nat.mod_upper_bound (length queue) 2). lia.
Qed.

Lemma heap_hole queue queue' :
  heap queue -> (forall i, i <> 0%nat -> queue' !! i = queue !! i \/ queue' !! i = None) ->
  hole queue' 0 0.
Proof.
  intros Hh Heq. split.
  - intros i j _ Hi Hij x y Hx Hy.
    destruct (Heq i Hi) as [Hei|Hei]; [|by rewrite Hei in Hx].
    destruct (Heq j) as [Hej|Hej]; [unfold child in Hij; lia| |by rewrite Hej in Hy].
    rewrite Hei in Hx. rewrite Hej in Hy. by eapply Hh.
  - intros p j _ Hp. unfold child in Hp. lia.
Qed.

Lemma update_spec queue x :
  heap queue -> exists queue',
    svn_priority_queue__update compare_func (<[0%nat := x]> queue) = Ok queue' /\
    queue' ≡ₚ <[0%nat := x]> queue /\ heap queue'.
Proof.
  intros Hh. apply bubble_up_root. apply (heap_hole queue); [done|]. intros i Hi. left.
  by apply list_lookup_insert_ne.
Qed.

Lemma pop_spec queue x rest :
  heap queue -> queue = x :: rest -> exists queue',
    svn_priority_queue__pop compare_func queue = Ok queue' /\ queue' ≡ₚ rest /\ heap queue'.
Proof.
  intros Hh Hq. unfold svn_priority_queue__pop. destruct (last queue) as [y|] eqn:Hl.
  2:{ apply last_None in Hl. by rewrite Hl in Hq. }
  destruct (bubble_up_root (take (length queue - 1) (<[0%nat := y]> queue)))
    as (queue' & -> & Hp & Ho).
  { apply (heap_hole queue); [done|]. intros i Hi.
    destruct (decide (i < length queue - 1)%nat) as [Hlt|Hge].
    - left. by rewrite lookup_take_lt, list_lookup_insert_ne.
    - right. apply lookup_take_ge. lia. }
  exists queue'. split; [done|]. split; [|done]. rewrite Hp. subst queue. cbn [length Nat.sub].
  rewrite Nat.sub_0_r. destruct rest as [|z rest] using rev_ind; [done|].
  assert (y = z) as ->. { rewrite app_comm_cons, last_snoc in Hl. by simplify_eq. }
  rewrite length_app. cbn [length]. rewrite Nat.add_1_r.
  change (<[0%nat := z]> (x :: rest ++ [z])) with (z :: rest ++ [z]).
  cbn [take]. rewrite take_app_length. by rewrite Permutation_app_comm.
Qed.

Lemma push_spec queue x :
  heap queue -> exists queue',
    svn_priority_queue__push compare_func queue x = Ok queue' /\
    queue' ≡ₚ x :: queue /\ heap queue'.
Proof.
  intros Hh. unfold svn_priority_queue__push. rewrite length_app, Nat.add_sub.
  destruct (heap_bubble_down_spec (length queue + length [x]) (queue ++ [x]) (length queue))
    as (queue' & -> & Hp & Ho).
  - simpl. lia.
  - rewrite length_app. simpl. lia.
  - split.
    + intros i j Hne Hij y z Hy Hz.
      assert (j < length queue)%nat.
      { apply lookup_lt_Some in Hz. rewrite length_app in Hz. simpl in Hz. lia. }
      rewrite lookup_app_l in Hz by done. rewrite lookup_app_l in Hy by (unfold child in Hij; lia).
      by eapply Hh.
    + intros p j Hp Hj. apply in_order_out. rewrite length_app. unfold child in Hj. simpl. lia.
  - exists queue'. split; [done|]. split; [|done]. by rewrite Hp, Permutation_app_comm.
Qed.

(** The root of a heap is not greater than any element. *)
Lemma heap_root queue x rest :
  heap queue -> queue = x :: rest -> Forall (fun y => le x y) queue.
Proof.
  intros Hh Hq. apply Forall_lookup. intros i y Hy.
  assert (Hio : in_order queue 0 i).
  { clear Hy. induction i as [i IH] using lt_wf_ind.
    destruct (decide (i < length queue)%nat); [|apply in_order_out; lia].
    destruct (decide (i = 0%nat)) as [->|Hi]; [apply in_order_refl|].
    pose proof (parent_child i) as Hp. assert ((i - 1) / 2 < i)%nat by (unfold child in Hp; lia).
    apply (in_order_trans queue 0 ((i - 1) / 2)); [lia|by apply IH|apply Hh, Hp; lia]. }
  apply (Hio x y); [by subst|done].
Qed.

(** ** Emptying the queue *)

(** [while (size > 0) { use (peek); pop }] *)
Fixpoint drain (n : nat) (queue : list A) : result (list A) :=
  match n, svn_priority_queue__peek queue with
  | S n, Some x =>
      queue ← svn_priority_queue__pop compare_func queue;
      xs ← drain n queue; Ok (x :: xs)
  | _, _ => Ok []
  end.

Lemma drain_spec n queue :
  heap queue -> length queue = n -> exists xs,
    drain n queue = Ok xs /\ xs ≡ₚ queue /\ StronglySorted (fun x y => le x y) xs.
Proof.
  revert queue. induction n as [|n IH]; intros queue Hh Hn.
  { destruct queue; [|done]. exists []. split; [done|]. split; [done|constructor]. }
  destruct queue as [|x rest] eqn:Hq; [done|]. cbn [drain svn_priority_queue__peek head].
  destruct (pop_spec (x :: rest) x rest) as (queue' & -> & Hp & Hh'); [done|done|].
  cbn [mbind result_bind]. destruct (IH queue') as (xs & -> & Hpx & Hs); [done| |].
  { apply Permutation_length in Hp. rewrite Hp. by injection Hn. }
  cbn [mbind result_bind]. exists (x :: xs). split; [done|]. split; [by rewrite Hpx, Hp|].
  constructor; [done|]. rewrite Hpx, Hp. pose proof (heap_root (x :: rest) x rest Hh eq_refl) as Hr.
  by apply Forall_cons in Hr as [_ Hr].
Qed.
End Heap.

(** * The properties of sorted arrays and priority queues

    The theorems on [Sorts], for every comparison function that is a
    [CompareFunc], with instances for [svn_sort_compare_ranges]. *)

(** ** Lookup *)

(** Binary search finds the number of elements less than the key, without
    leaving the array or the range of [int]; [svn_sort__array_lookup] returns
    the element there if it matches, and no hint changes what it returns. *)
Theorem array_lookup_any_hint {A K : Type} (compare_func : A -> K -> Z) key array (hint : option Z) :
  sorted_for compare_func key array -> Z.of_nat (length array) <= APR_INT32_MAX ->
  (forall h, hint = Some h -> -1 <= h) ->
  let i := lower_bound compare_func key array in
  svn_sort__bsearch_lower_bound compare_func array key = Ok (Z.of_nat i) /\
  (forall j x, array !! j = Some x -> compare_func x key < 0 <-> (j < i)%nat) /\
  svn_sort__array_lookup compare_func array key hint =
    Ok (x ← array !! i; if compare_func x key =? 0 then Some x else None, Z.of_nat i).
Proof.
  intros Hs Hn Hh i. split_and!.
  - by apply bsearch_lower_bound_spec.
  - intros j x Hx. by apply lower_bound_spec.
  - by apply array_lookup_spec.
Qed.

Lemma array_lookup_any_hint_witness :
  let array := [mk_range 0 4 true; mk_range 5 6 true; mk_range 8 9 true] in
  let key := mk_range 8 9 true in
  svn_sort__bsearch_lower_bound svn_sort_compare_ranges array key = Ok 2 /\
  (forall j x, array !! j = Some x -> svn_sort_compare_ranges x key < 0 <-> (j < 2)%nat) /\
  svn_sort__array_lookup svn_sort_compare_ranges array key (Some 1) = Ok (Some key, 2).
Proof.
  apply (array_lookup_any_hint svn_sort_compare_ranges (mk_range 8 9 true)
           [mk_range 0 4 true; mk_range 5 6 true; mk_range 8 9 true] (Some 1)).
  - repeat constructor; vm_compute; intros; congruence.
  - vm_compute. intros; congruence.
  - intros h [= <-]. lia.
Defined.

(** ** Arrays *)

Section SortedInsert.
Context {A : Type} (compare_func : A -> A -> Z) `{!CompareFunc compare_func}.

Definition array_sorted : list A -> Prop := StronglySorted (fun x y => compare_func x y <= 0).

Lemma array_sorted_for array key : array_sorted array -> sorted_for compare_func key array.
Proof.
  apply StronglySorted_weaken. intros x y Hxy. split.
  - intros Hy. destruct (Z.lt_ge_cases (compare_func x key) 0) as [|Hx]; [done|]. exfalso.
    assert (compare_func key x <= 0) by (apply (compare_not_less compare_func); lia).
    assert (compare_func key y <= 0) by (by eapply (compare_trans (compare_func := compare_func))).
    apply compare_flip in Hy. lia.
  - intros Hy. by eapply (compare_trans (compare_func := compare_func)).
Qed.

(** Inserting an element into a sorted array at the place binary search
    gives keeps the array sorted, and deleting it there restores the array;
    the arguments out of range are refused; [svn_sort__array_reverse]
    reverses. *)
Theorem array_insert_sorted array x :
  array_sorted array -> Z.of_nat (length array) <= APR_INT32_MAX -> exists i out,
    svn_sort__bsearch_lower_bound compare_func array x = Ok i /\
    svn_sort__array_insert2 array x i = Ok out /\
    array_sorted out /\ out ≡ₚ x :: array /\
    svn_sort__array_delete2 out i 1 = Ok array /\
    svn_sort__array_reverse out = reverse out /\
    (forall j, is_ok (svn_sort__array_insert2 array x j) = true <->
       0 <= j <= Z.of_nat (length array)) /\
    (forall j n, is_ok (svn_sort__array_delete2 out j n) = true <->
       0 <= j /\ 0 < n /\ j + n <= Z.of_nat (length out)).
Proof.
  intros Hs Hn. pose proof (array_sorted_for array x Hs) as Hsf.
  pose proof (lower_bound_le compare_func x array) as Hle.
  set (i := lower_bound compare_func x array) in *.
  exists (Z.of_nat i), (take i array ++ x :: drop i array). split_and!.
  - by apply bsearch_lower_bound_spec.
  - unfold svn_sort__array_insert2. destruct (Z.ltb_spec (Z.of_nat i) 0); [lia|].
    destruct (Z.ltb_spec (Z.of_nat (length array)) (Z.of_nat i)); [lia|]. by rewrite Nat2Z.id.
  - assert (Hbelow : Forall (fun y => compare_func y x <= 0) (take i array)).
    { apply Forall_lookup. intros j y Hy. apply lookup_take_Some in Hy as [Hy Hj].
      apply (lower_bound_spec compare_func x array j y Hsf) in Hy. fold i in Hy. lia. }
    assert (Habove : Forall (fun y => compare_func x y <= 0) (drop i array)).
    { apply Forall_lookup. intros j y Hy. rewrite lookup_drop in Hy.
      apply (lower_bound_spec compare_func x array _ y Hsf) in Hy. fold i in Hy.
      apply (compare_not_less compare_func). lia. }
    unfold array_sorted in *. rewrite <- (take_drop i array) in Hs.
    apply StronglySorted_app in Hs as (Hc & H1 & H2). apply StronglySorted_app. split_and!.
    + intros a b Ha [->|Hb]%elem_of_cons; [by rewrite Forall_forall in Hbelow; apply Hbelow|].
      by apply Hc.
    + done.
    + by constructor.
  - rewrite <- Permutation_middle. by rewrite take_drop.
  - unfold svn_sort__array_delete2. rewrite length_app. cbn [length].
    rewrite length_take, length_drop, Nat2Z.id.
    destruct (Z.leb_spec 0 (Z.of_nat i)); [|lia]. cbn [andb].
    destruct (Z.ltb_spec (Z.of_nat i) (Z.of_nat (i `min` length array + S (length array - i)))); [|lia].
    destruct (Z.leb_spec 1 (Z.of_nat (i `min` length array + S (length array - i)) - Z.of_nat i)); [|lia].
    cbn [andb negb Z.ltb Z.compare]. f_equal.
    rewrite take_app_length' by (rewrite length_take; lia).
    change (Z.to_nat 1) with 1%nat.
    rewrite drop_app_ge by (rewrite length_take; lia). rewrite length_take.
    replace (i + 1 - i `min` length array)%nat with 1%nat by lia.
    change (take i array ++ drop i array = array). apply take_drop.
  - apply array_reverse_spec.
  - intros j. unfold svn_sort__array_insert2.
    destruct (Z.ltb_spec j 0), (Z.ltb_spec (Z.of_nat (length array)) j); simpl; split; try done; lia.
  - intros j n. unfold svn_sort__array_delete2.
    set (len := Z.of_nat (length (take i array ++ x :: drop i array))).
    destruct (Z.leb_spec 0 j), (Z.ltb_spec j len), (Z.ltb_spec 0 n), (Z.leb_spec n (len - j));
      simpl; split; try done; lia.
Qed.
End SortedInsert.

Lemma array_insert_sorted_witness :
  let array := [mk_range 0 4 true; mk_range 8 9 true] in
  let x := mk_range 5 6 false in
  exists i out,
    svn_sort__bsearch_lower_bound svn_sort_compare_ranges array x = Ok i /\
    svn_sort__array_insert2 array x i = Ok out /\
    array_sorted svn_sort_compare_ranges out /\ out ≡ₚ x :: array /\
    svn_sort__array_delete2 out i 1 = Ok array /\
    svn_sort__array_reverse out = reverse out /\
    (forall j, is_ok (svn_sort__array_insert2 array x j) = true <->
       0 <= j <= Z.of_nat (length array)) /\
    (forall j n, is_ok (svn_sort__array_delete2 out j n) = true <->
       0 <= j /\ 0 < n /\ j + n <= Z.of_nat (length out)).
Proof.
  apply (array_insert_sorted svn_sort_compare_ranges
           [mk_range 0 4 true; mk_range 8 9 true] (mk_range 5 6 false)).
  - repeat constructor; vm_compute; intros; congruence.
  - vm_compute. intros; congruence.
Defined.

(** ** Priority queues *)

(** The operations on a queue; [op_update] changes the element that
    [svn_priority_queue__peek] returned. *)
Inductive queue_op (A : Type) :=
  | op_push (x : A)
  | op_pop
  | op_update (x : A).
Arguments op_push {A} x.
Arguments op_pop {A}.
Arguments op_update {A} x.

Section Queues.
Context {A : Type} (compare_func : A -> A -> Z) `{!CompareFunc compare_func}.

Definition run_op (op : queue_op A) (queue : list A) : result (list A) :=
  match op with
  | op_push x => svn_priority_queue__push compare_func queue x
  | op_pop => svn_priority_queue__pop compare_func queue
  | op_update x => svn_priority_queue__update compare_func (<[0%nat := x]> queue)
  end.

Fixpoint run_ops (ops : list (queue_op A)) (queue : list A) : result (list A) :=
  match ops with
  | [] => Ok queue
  | op :: ops => queue ← run_op op queue; run_ops ops queue
  end.

(** The specification: a queue is a collection of elements without an order;
    [op_pop] takes some minimum out of it, [op_update] replaces one. *)
Inductive spec_op : list A -> queue_op A -> list A -> Prop :=
  | spec_push s x : spec_op s (op_push x) (x :: s)
  | spec_pop m s : Forall (fun y => compare_func m y <= 0) s -> spec_op (m :: s) op_pop s
  | spec_pop_empty : spec_op [] op_pop []
  | spec_update m s x :
      Forall (fun y => compare_func m y <= 0) s -> spec_op (m :: s) (op_update x) (x :: s)
  | spec_update_empty x : spec_op [] (op_update x) [].

Inductive spec_run : list A -> list (queue_op A) -> list A -> Prop :=
  | spec_done s : spec_run s [] s
  | spec_step s s1 op s2 s3 ops s' :
      s ≡ₚ s1 -> spec_op s1 op s2 -> s2 ≡ₚ s3 -> spec_run s3 ops s' ->
      spec_run s (op :: ops) s'.

Lemma run_op_refines op queue :
  heap compare_func queue -> exists queue' s1 s2,
    run_op op queue = Ok queue' /\ heap compare_func queue' /\
    queue ≡ₚ s1 /\ spec_op s1 op s2 /\ s2 ≡ₚ queue'.
Proof.
  intros Hh. destruct op as [x| |x]; cbn [run_op].
  - destruct (push_spec compare_func queue x Hh) as (q & -> & Hp & Hq).
    exists q, queue, (x :: queue). split_and!; try done. constructor.
  - destruct queue as [|m rest].
    { exists [], [], []. split_and!; try done. constructor. }
    destruct (pop_spec compare_func (m :: rest) m rest Hh eq_refl) as (q & -> & Hp & Hq).
    pose proof (heap_root compare_func (m :: rest) m rest Hh eq_refl) as Hm.
    apply Forall_cons in Hm as [_ Hm].
    exists q, (m :: rest), rest. split_and!; try done. by constructor.
  - destruct (update_spec compare_func queue x Hh) as (q & -> & Hp & Hq).
    destruct queue as [|m rest].
    { exists q, [], []. split_and!; try done. constructor. }
    pose proof (heap_root compare_func (m :: rest) m rest Hh eq_refl) as Hm.
    apply Forall_cons in Hm as [_ Hm].
    exists q, (m :: rest), (x :: rest). split_and!; try done. by constructor.
Qed.

Lemma run_ops_refines ops queue :
  heap compare_func queue -> exists queue' s,
    run_ops ops queue = Ok queue' /\ heap compare_func queue' /\
    spec_run queue ops s /\ s ≡ₚ queue'.
Proof.
  revert queue. induction ops as [|op ops IH]; intros queue Hh; cbn [run_ops].
  { exists queue, queue. split_and!; try done. constructor. }
  destruct (run_op_refines op queue Hh) as (q & s1 & s2 & -> & Hq & H1 & H2 & H3).
  cbn [mbind result_bind]. destruct (IH q Hq) as (q' & s & -> & Hq' & Hs & Hp).
  exists q', s. split_and!; try done. by eapply spec_step.
Qed.

(** C38: a priority queue made from any elements refines the specification
    through any sequence of operations, none of which fails; taking the
    elements out one by one returns what the specification says is left, in
    ascending order. *)
Theorem priority_queue_refines elements ops : exists q0 queue s out,
  svn_priority_queue__create compare_func elements = Ok q0 /\
  run_ops ops q0 = Ok queue /\
  spec_run elements ops s /\
  drain compare_func (svn_priority_queue__size queue) queue = Ok out /\
  out ≡ₚ s /\ array_sorted compare_func out.
Proof.
  destruct (create_spec compare_func elements) as (q0 & Hc & Hp & Hh).
  destruct (run_ops_refines ops q0 Hh) as (queue & s & Hr & Hq & Hs & Hps).
  destruct (drain_spec compare_func (length queue) queue Hq eq_refl) as (out & Hd & Hpo & Hso).
  assert (Hse : exists s', spec_run elements ops s' /\ s' ≡ₚ s).
  { destruct Hs as [q0|q0 s1 op s2 s3 ops s H1 H2 H3 H4].
    - exists elements. split; [constructor|done].
    - exists s. split; [|done]. eapply spec_step; [|done|done|done]. by rewrite <- Hp. }
  destruct Hse as (s' & Hs' & Hps'). exists q0, queue, s', out. split_and!; try done.
  by rewrite Hpo, Hps', Hps.
Qed.
End Queues.

Lemma priority_queue_refines_witness : exists q0 queue s out,
  let elements := [mk_range 8 9 true; mk_range 0 4 true; mk_range 5 6 false] in
  let ops := [op_push (mk_range 1 2 true); op_pop; op_update (mk_range 7 9 true)] in
  svn_priority_queue__create svn_sort_compare_ranges elements = Ok q0 /\
  run_ops svn_sort_compare_ranges ops q0 = Ok queue /\
  spec_run svn_sort_compare_ranges elements ops s /\
  drain svn_sort_compare_ranges (svn_priority_queue__size queue) queue = Ok out /\
  out ≡ₚ s /\ array_sorted svn_sort_compare_ranges out.
Proof. apply (priority_queue_refines svn_sort_compare_ranges). Defined.

(** What is left, in order. *)
Example priority_queue_drained :
  (q0 ← svn_priority_queue__create svn_sort_compare_ranges
          [mk_range 8 9 true; mk_range 0 4 true; mk_range 5 6 false];
   queue ← run_ops svn_sort_compare_ranges
             [op_push (mk_range 1 2 true); op_pop; op_update (mk_range 7 9 true)] q0;
   drain svn_sort_compare_ranges (svn_priority_queue__size queue) queue) =
    Ok [mk_range 5 6 false; mk_range 7 9 true; mk_range 8 9 true].
Proof. reflexivity. Qed.
