(* ===== verification/Utf8.v ===== *)
(** * UTF-8 validation (libsvn_subr/utf_validate.c)

    The automaton that decides whether bytes are well-formed UTF-8, as a table
    and as a [switch].  A pointer into the data is its offset.  Reading outside
    a table is undefined behaviour. *)

From S2P Require Import Prelude.

(** ** The tables *)

(** The category of an octet, from 0x00 to 0xff. *)
Definition octet_category : list nat :=
  (replicate 128 0 ++ replicate 16 1 ++ replicate 16 2 ++ replicate 32 3
   ++ replicate 2 4 ++ replicate 30 5 ++ [6] ++ replicate 12 7 ++ [8] ++ replicate 2 9
   ++ [10] ++ replicate 3 11 ++ [12] ++ replicate 11 13)%nat.

Definition FSM_START : nat := 0.
Definition FSM_80BF : nat := 1.
Definition FSM_A0BF : nat := 2.
Definition FSM_80BF80BF : nat := 3.
Definition FSM_809F : nat := 4.
Definition FSM_90BF : nat := 5.
Definition FSM_80BF80BF80BF : nat := 6.
Definition FSM_808F : nat := 7.
Definition FSM_ERROR : nat := 8.

(** The rows are the states, the columns the categories. *)
Definition machine : list (list nat) :=
  [ [FSM_START; FSM_ERROR; FSM_ERROR; FSM_ERROR; FSM_ERROR; FSM_80BF; FSM_A0BF;
      FSM_80BF80BF; FSM_809F; FSM_80BF80BF; FSM_90BF; FSM_80BF80BF80BF; FSM_808F;
      FSM_ERROR];
    [FSM_ERROR; FSM_START; FSM_START; FSM_START; FSM_ERROR; FSM_ERROR; FSM_ERROR; FSM_ERROR;
      FSM_ERROR; FSM_ERROR; FSM_ERROR; FSM_ERROR; FSM_ERROR; FSM_ERROR];
    [FSM_ERROR; FSM_ERROR; FSM_ERROR; FSM_80BF; FSM_ERROR; FSM_ERROR; FSM_ERROR; FSM_ERROR;
      FSM_ERROR; FSM_ERROR; FSM_ERROR; FSM_ERROR; FSM_ERROR; FSM_ERROR];
    [FSM_ERROR; FSM_80BF; FSM_80BF; FSM_80BF; FSM_ERROR; FSM_ERROR; FSM_ERROR; FSM_ERROR;
      FSM_ERROR; FSM_ERROR; FSM_ERROR; FSM_ERROR; FSM_ERROR; FSM_ERROR];
    [FSM_ERROR; FSM_80BF; FSM_80BF; FSM_ERROR; FSM_ERROR; FSM_ERROR; FSM_ERROR; FSM_ERROR;
      FSM_ERROR; FSM_ERROR; FSM_ERROR; FSM_ERROR; FSM_ERROR; FSM_ERROR];
    [FSM_ERROR; FSM_ERROR; FSM_80BF80BF; FSM_80BF80BF; FSM_ERROR; FSM_ERROR; FSM_ERROR;
      FSM_ERROR; FSM_ERROR; FSM_ERROR; FSM_ERROR; FSM_ERROR; FSM_ERROR; FSM_ERROR];
    [FSM_ERROR; FSM_80BF80BF; FSM_80BF80BF; FSM_80BF80BF; FSM_ERROR; FSM_ERROR; FSM_ERROR;
      FSM_ERROR; FSM_ERROR; FSM_ERROR; FSM_ERROR; FSM_ERROR; FSM_ERROR; FSM_ERROR];
    [FSM_ERROR; FSM_80BF80BF; FSM_ERROR; FSM_ERROR; FSM_ERROR; FSM_ERROR; FSM_ERROR;
      FSM_ERROR; FSM_ERROR; FSM_ERROR; FSM_ERROR; FSM_ERROR; FSM_ERROR; FSM_ERROR];
    [FSM_ERROR; FSM_ERROR; FSM_ERROR; FSM_ERROR; FSM_ERROR; FSM_ERROR; FSM_ERROR; FSM_ERROR;
      FSM_ERROR; FSM_ERROR; FSM_ERROR; FSM_ERROR; FSM_ERROR; FSM_ERROR] ].

(** [state = machine[state][octet_category[octet]]] *)
Definition next_state (state : nat) (octet : Z) : result nat :=
  match octet_category !! Z.to_nat octet with
  | None => Err C_UNDEFINED
  | Some category =>
      match machine !! state ≫= (fun row => row !! category) with
      | Some state => Ok state
      | None => Err C_UNDEFINED
      end
  end.

(** ** Skipping the leading ASCII characters *)

Definition SVN__BIT_7_SET : Z := 0x8080808080808080.

(** The machine word at a pointer, least significant byte first. *)
Fixpoint read_word (bs : bytes) : Z :=
  match bs with [] => 0 | b :: bs => Z.lor b (Z.shiftl (read_word bs) 8) end.

(** Eight bytes at a time while more than eight are left. *)
Fixpoint scan_words (fuel : nat) (data : bytes) : bytes :=
  match fuel with
  | O => data
  | S f =>
      if (8 <? length data)%nat then
        if Z.land (read_word (take 8 data)) SVN__BIT_7_SET =? 0
        then scan_words f (drop 8 data) else data
      else data
  end.

Fixpoint scan_bytes (data : bytes) : bytes :=
  match data with
  | [] => []
  | c :: data' => if 0x80 <=? c then data else scan_bytes data'
  end.

(** What is left of the data from the first character outside ASCII on. *)
Definition first_non_fsm_start_char (data : bytes) : bytes :=
  scan_bytes (scan_words (length data) data).

(** ** Validation *)

Fixpoint run_machine (state : nat) (data : bytes) : result nat :=
  match data with
  | [] => Ok state
  | octet :: data => state ← next_state state octet; run_machine state data
  end.

(** [None] is the null pointer. *)
Definition svn_utf__is_valid (data : option bytes) : result bool :=
  match data with
  | None => Ok false
  | Some data =>
      state ← run_machine FSM_START (first_non_fsm_start_char data);
      Ok (state =? FSM_START)%nat
  end.

Definition svn_utf__cstring_is_valid (data : option bytes) : result bool :=
  match data with
  | None => Ok false
  | Some data => svn_utf__is_valid (Some (c_str data))
  end.

(** [pos] is the offset of the octet that comes next. *)
Fixpoint last_valid_loop (data : bytes) (state pos start : nat) : result nat :=
  match data with
  | [] => Ok start
  | octet :: data =>
      state ← next_state state octet;
      last_valid_loop data state (S pos) (if (state =? FSM_START)%nat then S pos else start)
  end.

(** The offset of the end of the longest valid prefix. *)
Definition svn_utf__last_valid (data : bytes) : result nat :=
  let rest := first_non_fsm_start_char data in
  let start := (length data - length rest)%nat in
  last_valid_loop rest FSM_START start start.

(** ** The version without tables *)

Definition between (lo hi octet : Z) (next : nat) : nat :=
  if (lo <=? octet) && (octet <=? hi) then next else FSM_ERROR.

(** The [switch]; [None] is the early return from the error state. *)
Definition switch_state (state : nat) (octet : Z) : option nat :=
  match state with
  | 0%nat => Some (
      if octet <=? 0x7F then FSM_START
      else if octet <=? 0xC1 then FSM_ERROR
      else if octet <=? 0xDF then FSM_80BF
      else if octet =? 0xE0 then FSM_A0BF
      else if octet <=? 0xEC then FSM_80BF80BF
      else if octet =? 0xED then FSM_809F
      else if octet <=? 0xEF then FSM_80BF80BF
      else if octet =? 0xF0 then FSM_90BF
      else if octet <=? 0xF3 then FSM_80BF80BF80BF
      else if octet <=? 0xF4 then FSM_808F
      else FSM_ERROR)
  | 1%nat => Some (between 0x80 0xBF octet FSM_START)
  | 2%nat => Some (between 0xA0 0xBF octet FSM_80BF)
  | 3%nat => Some (between 0x80 0xBF octet FSM_80BF)
  | 4%nat => Some (between 0x80 0x9F octet FSM_80BF)
  | 5%nat => Some (between 0x90 0xBF octet FSM_80BF80BF)
  | 6%nat => Some (between 0x80 0xBF octet FSM_80BF80BF)
  | 7%nat => Some (between 0x80 0x8F octet FSM_80BF80BF)
  | _ => None
  end.

Fixpoint last_valid2_loop (data : bytes) (state pos start : nat) : nat :=
  match data with
  | [] => start
  | octet :: data =>
      match switch_state state octet with
      | None => start
      | Some state =>
          last_valid2_loop data state (S pos) (if (state =? FSM_START)%nat then S pos else start)
      end
  end.

Definition svn_utf__last_valid2 (data : bytes) : nat :=
  let rest := first_non_fsm_start_char data in
  let start := (length data - length rest)%nat in
  last_valid2_loop rest FSM_START start start.
