(* ===== verification/Utf8Theorems.v ===== *)
(** * UTF-8 validation

    The encoding form of the Unicode Standard, facts about the automaton of
    [Utf8], and the theorem that relates them. *)

From S2P Require Import Prelude Utf8.

(** ** The encoding form *)

(** A code point that is not a surrogate. *)
Definition scalar (c : Z) : Prop := 0 <= c < 0xD800 \/ 0xE000 <= c < 0x110000.

#[export] Instance scalar_dec c : Decision (scalar c).
Proof. unfold scalar. apply _. Defined.

Definition tail_byte (x : Z) : Z := 0x80 + x mod 64.

Definition utf8_encode (c : Z) : bytes :=
  if c <? 0x80 then [c]
  else if c <? 0x800 then [0xC0 + c / 64; tail_byte c]
  else if c <? 0x10000 then [0xE0 + c / 4096; tail_byte (c / 64); tail_byte c]
  else [0xF0 + c / 262144; tail_byte (c / 4096); tail_byte (c / 64); tail_byte c].

(** The bytes encode some text. *)
Definition well_formed (data : bytes) : Prop :=
  exists cs, Forall scalar cs /\ data = concat (map utf8_encode cs).

Notation octets := (Forall (fun c => 0 <= c < 256)).

(** ** The tables are the switch *)

Definition state_ok (state : nat) (octet : Z) : bool :=
  match next_state state octet with
  | Ok s => (s =? default FSM_ERROR (switch_state state octet))%nat
  | Err _ => false
  end.

Lemma forall_octets (P : Z -> bool) :
  forallb P (seqZ 0 256) = true -> forall c, 0 <= c < 256 -> P c = true.
Proof.
  intros H c Hc. rewrite forallb_forall in H. apply H, list_elem_of_In, elem_of_seqZ. lia.
Qed.

Lemma next_state_switch state octet :
  (state <= 8)%nat -> 0 <= octet < 256 ->
  next_state state octet = Ok (default FSM_ERROR (switch_state state octet)).
Proof.
  intros Hs Ho. assert (H : state_ok state octet = true).
  { apply (forall_octets (state_ok state)); [|done].
    do 9 (destruct state as [|state]; [by vm_compute|]). lia. }
  unfold state_ok in H. destruct (next_state state octet); [|done].
  apply Nat.eqb_eq in H. by subst.
Qed.

Lemma switch_state_le state octet s :
  switch_state state octet = Some s -> (s <= 8)%nat.
Proof.
  unfold switch_state, between, FSM_START, FSM_80BF, FSM_A0BF, FSM_80BF80BF, FSM_809F, FSM_90BF,
    FSM_80BF80BF80BF, FSM_808F, FSM_ERROR.
  do 8 (destruct state as [|state];
    [intros [= <-]; repeat match goal with |- context [if ?b then _ else _] => destruct b end; lia|]).
  done.
Qed.

(** The state reached, by the switch. *)
Fixpoint reach (state : nat) (data : bytes) : nat :=
  match data with
  | [] => state
  | octet :: data => reach (default FSM_ERROR (switch_state state octet)) data
  end.

Lemma default_switch_le state octet : (default FSM_ERROR (switch_state state octet) <= 8)%nat.
Proof.
  destruct (switch_state state octet) as [s|] eqn:E; [by eapply switch_state_le|].
  unfold FSM_ERROR. simpl. lia.
Qed.

Lemma run_machine_reach state data :
  (state <= 8)%nat -> octets data -> run_machine state data = Ok (reach state data).
Proof.
  intros Hs Ho. revert state Hs. induction Ho as [|octet data Hc Ho IH]; intros state Hs; [done|].
  cbn [run_machine reach]. rewrite next_state_switch by done. cbn [mbind result_bind].
  apply IH, default_switch_le.
Qed.

Lemma reach_app state d1 d2 : reach state (d1 ++ d2) = reach (reach state d1) d2.
Proof. revert state. induction d1 as [|o d1 IH]; intros state; [done|]. apply IH. Qed.

Lemma reach_error data : reach FSM_ERROR data = FSM_ERROR.
Proof. induction data as [|o data IH]; [done|]. apply IH. Qed.

(** ** Skipping ASCII *)

Lemma land_128 c : 0 <= c < 256 -> (Z.land c 128 =? 0) = (c <? 128).
Proof.
  intros Hc. apply eqb_prop.
  apply (forall_octets (fun c => eqb (Z.land c 128 =? 0) (c <? 128))); [by vm_compute|done].
Qed.

Lemma land_word b w m :
  0 <= b < 256 ->
  Z.land (Z.lor b (Z.shiftl w 8)) (Z.lor 128 (Z.shiftl m 8)) =
    Z.lor (Z.land b 128) (Z.shiftl (Z.land w m) 8).
Proof.
  intros Hb. apply Z.bits_inj'. intros n Hn.
  rewrite !Z.land_spec, !Z.lor_spec, Z.land_spec.
  destruct (Z.lt_ge_cases n 8).
  - rewrite !Z.shiftl_spec_low by done. by rewrite !orb_false_r.
  - rewrite !Z.shiftl_spec_high, Z.land_spec by lia.
    assert (Hhigh : forall x, 0 <= x < 256 -> Z.testbit x n = false).
    { intros x Hx. rewrite <- (Z.mod_small x (2 ^ 8)) by lia. apply Z.mod_pow2_bits_high. lia. }
    by rewrite !Hhigh by lia.
Qed.

Lemma scan_word_spec data k m :
  octets data -> length data = k -> m = read_word (replicate k 128) ->
  (Z.land (read_word data) m =? 0) = forallb (fun c => c <? 128) data.
Proof.
  intros Ho. revert k m. induction Ho as [|c data Hc Ho IH]; intros k m Hk ->; simpl in Hk; subst k.
  { done. }
  cbn [replicate read_word forallb]. rewrite land_word by done.
  rewrite <- (IH (length data) _ eq_refl eq_refl), <- (land_128 c Hc).
  set (w := Z.land (read_word data) (read_word (replicate (length data) 128))).
  apply eq_true_iff_eq. rewrite andb_iff, !Z.eqb_eq, Z.lor_eq_0_iff. split; intros [H1 H2].
  - split; [done|]. by apply Z.shiftl_eq_0_iff in H2.
  - split; [done|]. rewrite H2. done.
Qed.

(** Only ASCII characters are skipped. *)
Lemma scan_words_spec fuel data :
  octets data -> exists skipped, data = skipped ++ scan_words fuel data /\
    Forall (fun c => 0 <= c < 128) skipped.
Proof.
  revert data. induction fuel as [|fuel IH]; intros data Ho; cbn [scan_words].
  { by exists []. }
  destruct (Nat.ltb_spec 8 (length data)) as [Hlt|]; [|by exists []].
  rewrite (scan_word_spec (take 8 data) 8); [| |rewrite length_take; lia|done].
  2:{ by apply Forall_take. }
  destruct (forallb _ _) eqn:Hall; [|by exists []].
  destruct (IH (drop 8 data)) as (skipped & Heq & Hs); [by apply Forall_drop|].
  exists (take 8 data ++ skipped). rewrite <- app_assoc, <- Heq, take_drop. split; [done|].
  apply Forall_app. split; [|done].
  rewrite forallb_forall in Hall. apply Forall_forall. intros c Hc.
  assert (Hc' := Hc). apply list_elem_of_In, Hall, Z.ltb_lt in Hc'.
  apply Forall_take with (n := 8%nat) in Ho. rewrite Forall_forall in Ho.
  pose proof (Ho c Hc). lia.
Qed.

Lemma scan_bytes_spec data :
  octets data -> exists skipped, data = skipped ++ scan_bytes data /\
    Forall (fun c => 0 <= c < 128) skipped.
Proof.
  induction 1 as [|c data Hc Ho (skipped & Heq & Hs)]; cbn [scan_bytes]; [by exists []|].
  destruct (Z.leb_spec 0x80 c); [by exists []|].
  exists (c :: skipped). split; [simpl; by f_equal|]. constructor; [lia|done].
Qed.

Lemma first_non_ascii_spec data :
  octets data -> exists skipped, data = skipped ++ first_non_fsm_start_char data /\
    Forall (fun c => 0 <= c < 128) skipped.
Proof.
  intros Ho. unfold first_non_fsm_start_char.
  destruct (scan_words_spec (length data) data Ho) as (s1 & Heq1 & Hs1).
  set (rest := scan_words (length data) data) in *.
  assert (Hr : octets rest) by (rewrite Heq1 in Ho; by apply Forall_app in Ho as [_ ?]).
  destruct (scan_bytes_spec rest Hr) as (s2 & Heq2 & Hs2).
  exists (s1 ++ s2). rewrite <- app_assoc, <- Heq2. split; [done|]. by apply Forall_app.
Qed.

Lemma reach_ascii data :
  Forall (fun c => 0 <= c < 128) data -> reach FSM_START data = FSM_START.
Proof.
  induction 1 as [|c data Hc Ho IH]; [done|]. cbn [reach].
  change (switch_state FSM_START c) with (switch_state 0 c). cbn [switch_state default].
  destruct (Z.leb_spec c 0x7F); [done|lia].
Qed.

(** ** The states *)

Lemma between_in lo hi o next : lo <= o <= hi -> between lo hi o next = next.
Proof.
  intros H. unfold between. destruct (Z.leb_spec lo o), (Z.leb_spec o hi); try lia. done.
Qed.

(** A state that accepts one range of octets. *)
Definition range_state (s : nat) (lo hi : Z) (next : nat) : Prop :=
  s <> FSM_START /\ forall o, switch_state s o = Some (between lo hi o next).

Lemma reach_range s lo hi next o rest :
  range_state s lo hi next -> lo <= o <= hi -> reach s (o :: rest) = reach next rest.
Proof. intros [_ Hs] Ho. cbn [reach]. rewrite Hs. cbn [default from_option]. unfold id. by rewrite between_in. Qed.

Lemma reach_range_inv s lo hi next data :
  range_state s lo hi next -> reach s data = FSM_START -> exists o rest,
    data = o :: rest /\ lo <= o <= hi /\ reach next rest = FSM_START.
Proof.
  intros [Hne Hs] Hr. destruct data as [|o rest]; [done|]. exists o, rest. split; [done|].
  cbn [reach] in Hr. rewrite Hs in Hr. cbn [default from_option] in Hr. unfold id, between in Hr.
  destruct (Z.leb_spec lo o), (Z.leb_spec o hi); cbn [andb] in Hr;
    try (by rewrite reach_error in Hr). done.
Qed.

Lemma range_80BF : range_state FSM_80BF 0x80 0xBF FSM_START.
Proof. by split. Qed.
Lemma range_A0BF : range_state FSM_A0BF 0xA0 0xBF FSM_80BF.
Proof. by split. Qed.
Lemma range_80BF80BF : range_state FSM_80BF80BF 0x80 0xBF FSM_80BF.
Proof. by split. Qed.
Lemma range_809F : range_state FSM_809F 0x80 0x9F FSM_80BF.
Proof. by split. Qed.
Lemma range_90BF : range_state FSM_90BF 0x90 0xBF FSM_80BF80BF.
Proof. by split. Qed.
Lemma range_80BF80BF80BF : range_state FSM_80BF80BF80BF 0x80 0xBF FSM_80BF80BF.
Proof. by split. Qed.
Lemma range_808F : range_state FSM_808F 0x80 0x8F FSM_80BF80BF.
Proof. by split. Qed.

(** What the first octet of a character leads to. *)
Inductive first_octet (o : Z) : nat -> Prop :=
  | first_ascii : o <= 0x7F -> first_octet o FSM_START
  | first_two : 0xC2 <= o <= 0xDF -> first_octet o FSM_80BF
  | first_e0 : o = 0xE0 -> first_octet o FSM_A0BF
  | first_three : 0xE1 <= o <= 0xEC \/ 0xEE <= o <= 0xEF -> first_octet o FSM_80BF80BF
  | first_ed : o = 0xED -> first_octet o FSM_809F
  | first_f0 : o = 0xF0 -> first_octet o FSM_90BF
  | first_four : 0xF1 <= o <= 0xF3 -> first_octet o FSM_80BF80BF80BF
  | first_f4 : o = 0xF4 -> first_octet o FSM_808F
  | first_bad : 0x80 <= o <= 0xC1 \/ 0xF5 <= o -> first_octet o FSM_ERROR.

Lemma first_octet_spec o : first_octet o (default FSM_ERROR (switch_state FSM_START o)).
Proof.
  change (switch_state FSM_START o) with (switch_state 0 o).
  cbn [switch_state default from_option]. unfold id.
  repeat match goal with
  | |- context [?a <=? ?b] => destruct (Z.leb_spec a b)
  | |- context [?a =? ?b] => destruct (Z.eqb_spec a b)
  end; constructor; lia.
Qed.

Lemma first_octet_fun o s s' : first_octet o s -> first_octet o s' -> s = s'.
Proof. intros [] []; done || lia. Qed.

Lemma reach_first o s rest : first_octet o s -> reach FSM_START (o :: rest) = reach s rest.
Proof. intros H. cbn [reach]. by rewrite (first_octet_fun _ _ _ (first_octet_spec o) H). Qed.

(** ** Characters lead from the start state to the start state *)

Lemma tail_byte_range x : 0x80 <= tail_byte x <= 0xBF.
Proof. unfold tail_byte. pose proof (Z.mod_pos_bound x 64). lia. Qed.

Lemma reach_encode c rest :
  scalar c -> reach FSM_START (utf8_encode c ++ rest) = reach FSM_START rest.
Proof.
  intros Hc. unfold scalar in Hc. unfold utf8_encode.
  destruct (Z.ltb_spec c 0x80); [by apply reach_first, first_ascii; lia|].
  destruct (Z.ltb_spec c 0x800).
  { cbn [app]. rewrite (reach_first _ FSM_80BF) by (constructor; dlia).
    by rewrite (reach_range _ _ _ _ _ _ range_80BF (tail_byte_range _)). }
  destruct (Z.ltb_spec c 0x10000).
  { cbn [app].
    assert (Htail : reach FSM_80BF (tail_byte c :: rest) = reach FSM_START rest).
    { apply (reach_range _ _ _ _ _ _ range_80BF), tail_byte_range. }
    destruct (Z.lt_ge_cases c 0x1000).
    { rewrite (reach_first _ FSM_A0BF), (reach_range _ _ _ _ _ _ range_A0BF); [done| |].
      - unfold tail_byte. dlia.
      - constructor. dlia. }
    destruct (decide (0xD000 <= c < 0xE000)).
    { rewrite (reach_first _ FSM_809F), (reach_range _ _ _ _ _ _ range_809F); [done| |].
      - unfold tail_byte. dlia.
      - constructor. dlia. }
    rewrite (reach_first _ FSM_80BF80BF) by (constructor; dlia).
    by rewrite (reach_range _ _ _ _ _ _ range_80BF80BF (tail_byte_range _)). }
  cbn [app].
  assert (Htail : reach FSM_80BF80BF (tail_byte (c / 64) :: tail_byte c :: rest) = reach FSM_START rest).
  { rewrite (reach_range _ _ _ _ _ _ range_80BF80BF (tail_byte_range _)).
    apply (reach_range _ _ _ _ _ _ range_80BF), tail_byte_range. }
  destruct (Z.lt_ge_cases c 0x40000).
  { rewrite (reach_first _ FSM_90BF), (reach_range _ _ _ _ _ _ range_90BF); [done| |].
    - unfold tail_byte. dlia.
    - constructor. dlia. }
  destruct (Z.lt_ge_cases c 0x100000).
  { rewrite (reach_first _ FSM_80BF80BF80BF) by (constructor; dlia).
    by rewrite (reach_range _ _ _ _ _ _ range_80BF80BF80BF (tail_byte_range _)). }
  rewrite (reach_first _ FSM_808F), (reach_range _ _ _ _ _ _ range_808F); [done| |].
  - unfold tail_byte. dlia.
  - constructor. dlia.
Qed.

(** ** The start state is only reached by characters *)

Lemma encode_two o1 o2 :
  0xC2 <= o1 <= 0xDF -> 0x80 <= o2 <= 0xBF -> exists c, scalar c /\ utf8_encode c = [o1; o2].
Proof.
  intros H1 H2. exists ((o1 - 0xC0) * 64 + (o2 - 0x80)). split; [left; lia|].
  unfold utf8_encode, tail_byte.
  set (c := (o1 - 0xC0) * 64 + (o2 - 0x80)).
  destruct (Z.ltb_spec c 0x80); [lia|]. destruct (Z.ltb_spec c 0x800); [|lia].
  repeat f_equal; dlia.
Qed.

Lemma encode_three o1 o2 o3 :
  0xE0 <= o1 <= 0xEF -> 0x80 <= o2 <= 0xBF -> 0x80 <= o3 <= 0xBF ->
  (o1 = 0xE0 -> 0xA0 <= o2) -> (o1 = 0xED -> o2 <= 0x9F) ->
  exists c, scalar c /\ utf8_encode c = [o1; o2; o3].
Proof.
  intros H1 H2 H3 Hlo Hhi. exists ((o1 - 0xE0) * 4096 + (o2 - 0x80) * 64 + (o3 - 0x80)).
  set (c := (o1 - 0xE0) * 4096 + (o2 - 0x80) * 64 + (o3 - 0x80)).
  split; [unfold scalar; lia|]. unfold utf8_encode, tail_byte.
  destruct (Z.ltb_spec c 0x80); [lia|]. destruct (Z.ltb_spec c 0x800); [lia|].
  destruct (Z.ltb_spec c 0x10000); [|lia]. repeat f_equal; dlia.
Qed.

Lemma encode_four o1 o2 o3 o4 :
  0xF0 <= o1 <= 0xF4 -> 0x80 <= o2 <= 0xBF -> 0x80 <= o3 <= 0xBF -> 0x80 <= o4 <= 0xBF ->
  (o1 = 0xF0 -> 0x90 <= o2) -> (o1 = 0xF4 -> o2 <= 0x8F) ->
  exists c, scalar c /\ utf8_encode c = [o1; o2; o3; o4].
Proof.
  intros H1 H2 H3 H4 Hlo Hhi.
  exists ((o1 - 0xF0) * 262144 + (o2 - 0x80) * 4096 + (o3 - 0x80) * 64 + (o4 - 0x80)).
  set (c := (o1 - 0xF0) * 262144 + (o2 - 0x80) * 4096 + (o3 - 0x80) * 64 + (o4 - 0x80)).
  split; [unfold scalar; lia|]. unfold utf8_encode, tail_byte.
  destruct (Z.ltb_spec c 0x80); [lia|]. destruct (Z.ltb_spec c 0x800); [lia|].
  destruct (Z.ltb_spec c 0x10000); [lia|]. repeat f_equal; dlia.
Qed.

(** Take the octets of one range off the data. *)
Ltac next_octet H range :=
  let o := fresh "o" in let Heq := fresh "Heq" in let Ho := fresh "Ho" in
  apply (reach_range_inv _ _ _ _ _ range) in H as (o & ? & -> & Ho & H).

Lemma reach_decode o data :
  0 <= o -> reach FSM_START (o :: data) = FSM_START -> exists c rest,
    scalar c /\ o :: data = utf8_encode c ++ rest /\ reach FSM_START rest = FSM_START.
Proof.
  intros H0 H. cbn [reach] in H. pose proof (first_octet_spec o) as Hf.
  assert (Hdone : forall os rest, (exists c, scalar c /\ utf8_encode c = os) ->
    reach FSM_START rest = FSM_START -> exists c rest',
      scalar c /\ os ++ rest = utf8_encode c ++ rest' /\ reach FSM_START rest' = FSM_START).
  { intros os rest (c & Hc & <-) Hr. by exists c, rest. }
  destruct Hf as [Ho|Ho|Ho|Ho|Ho|Ho|Ho|Ho|Ho].
  - apply (Hdone [o] data); [|done]. exists o. split; [left; lia|]. unfold utf8_encode.
    destruct (Z.ltb_spec o 0x80); [done|lia].
  - next_octet H range_80BF. apply (Hdone [o; o0]); [by apply encode_two|done].
  - next_octet H range_A0BF. next_octet H range_80BF.
    apply (Hdone [o; o0; o1]); [apply encode_three; lia|done].
  - next_octet H range_80BF80BF. next_octet H range_80BF.
    apply (Hdone [o; o0; o1]); [apply encode_three; lia|done].
  - next_octet H range_809F. next_octet H range_80BF.
    apply (Hdone [o; o0; o1]); [apply encode_three; lia|done].
  - next_octet H range_90BF. next_octet H range_80BF80BF. next_octet H range_80BF.
    apply (Hdone [o; o0; o1; o2]); [apply encode_four; lia|done].
  - next_octet H range_80BF80BF80BF. next_octet H range_80BF80BF. next_octet H range_80BF.
    apply (Hdone [o; o0; o1; o2]); [apply encode_four; lia|done].
  - next_octet H range_808F. next_octet H range_80BF80BF. next_octet H range_80BF.
    apply (Hdone [o; o0; o1; o2]); [apply encode_four; lia|done].
  - by rewrite reach_error in H.
Qed.

Lemma utf8_encode_ne c : utf8_encode c <> [].
Proof. unfold utf8_encode. repeat case_match; done. Qed.

Lemma reach_well_formed data :
  octets data -> reach FSM_START data = FSM_START <-> well_formed data.
Proof.
  intros Ho. split.
  - remember (length data) as n eqn:Hn. revert data Ho Hn.
    induction n as [n IH] using lt_wf_ind. intros data Ho -> Hr.
    destruct data as [|o data]; [by exists []|].
    destruct (reach_decode o data) as (c & rest & Hc & Heq & Hrest);
      [by apply Forall_cons in Ho as [? _]; lia|done|].
    rewrite Heq in Ho |- *. apply Forall_app in Ho as [_ Ho].
    destruct (IH (length rest)) with (data := rest) as (cs & Hcs & ->); [|done|done|done|].
    { rewrite Heq, length_app. pose proof (utf8_encode_ne c). destruct (utf8_encode c); [done|].
      simpl. lia. }
    exists (c :: cs). split; [by constructor|done].
  - intros (cs & Hcs & ->). clear Ho. induction Hcs as [|c cs Hc Hcs IH]; [done|].
    cbn [map concat]. by rewrite reach_encode.
Qed.

Lemma octets_c_str data : octets data -> octets (c_str data).
Proof. induction 1 as [|c data Hc _ IH]; cbn [c_str]; [done|]. destruct (c =? 0); by constructor. Qed.

Lemma is_valid_reach data :
  octets data -> svn_utf__is_valid (Some data) = Ok (reach FSM_START data =? FSM_START)%nat.
Proof.
  intros Ho. cbn [svn_utf__is_valid].
  destruct (first_non_ascii_spec data Ho) as (skipped & Heq & Hs).
  set (rest := first_non_fsm_start_char data) in *. rewrite Heq in Ho |- *.
  apply Forall_app in Ho as [_ Ho]. rewrite run_machine_reach by (done || (unfold FSM_START; lia)).
  cbn [mbind result_bind]. by rewrite reach_app, (reach_ascii skipped).
Qed.

(** ** The longest valid prefix *)

(** The greatest [n] such that the first [n] octets lead from [state] to the
    start state, counted from [pos]; [start] if there is none but the empty
    prefix. *)
Fixpoint last_start (data : bytes) (state pos start : nat) : nat :=
  match data with
  | [] => start
  | o :: data =>
      let state := default FSM_ERROR (switch_state state o) in
      last_start data state (S pos) (if (state =? FSM_START)%nat then S pos else start)
  end.

Lemma last_valid_loop_start data state pos start :
  (state <= 8)%nat -> octets data ->
  last_valid_loop data state pos start = Ok (last_start data state pos start).
Proof.
  intros Hs Ho. revert state pos start Hs.
  induction Ho as [|o data Hc Ho IH]; intros state pos start Hs; [done|].
  cbn [last_valid_loop last_start]. rewrite next_state_switch by done. cbn [mbind result_bind].
  apply IH, default_switch_le.
Qed.

Lemma last_start_error data pos start : last_start data FSM_ERROR pos start = start.
Proof. revert pos. induction data as [|o data IH]; intros pos; [done|]. apply IH. Qed.

Lemma last_valid2_loop_start data state pos start :
  last_valid2_loop data state pos start = last_start data state pos start.
Proof.
  revert state pos start. induction data as [|o data IH]; intros state pos start; [done|].
  cbn [last_valid2_loop last_start]. destruct (switch_state state o) as [s|]; [apply IH|].
  cbn [default from_option]. change (FSM_ERROR =? FSM_START)%nat with false.
  by rewrite last_start_error.
Qed.

Lemma last_start_spec data state pos start :
  let n := last_start data state pos start in
  (n = start /\ (forall m, (0 < m <= length data)%nat -> reach state (take m data) <> FSM_START)) \/
  exists k, n = (pos + k)%nat /\ (0 < k <= length data)%nat /\ reach state (take k data) = FSM_START /\
    forall m, (k < m <= length data)%nat -> reach state (take m data) <> FSM_START.
Proof.
  revert state pos start. induction data as [|o data IH]; intros state pos start; cbn zeta in *.
  { left. split; [done|]. simpl. lia. }
  cbn [last_start]. set (s := default FSM_ERROR (switch_state state o)) in *.
  assert (Htake : forall m, reach state (take (S m) (o :: data)) = reach s (take m data)) by done.
  destruct (IH s (S pos) (if (s =? FSM_START)%nat then S pos else start))
    as [[Hn Hno]|(k & Hn & Hk & Hr & Hno)].
  - destruct (Nat.eqb_spec s FSM_START) as [Hs|Hs]; rewrite Hn.
    + right. exists 1%nat. split; [lia|]. split; [simpl; lia|]. split; [by rewrite Htake|].
      intros [|m] Hm; [lia|]. rewrite Htake. apply Hno. simpl in Hm. lia.
    + left. split; [done|]. intros [|[|m]] Hm; [lia|by rewrite Htake|]. rewrite Htake.
      apply Hno. simpl in Hm. lia.
  - right. exists (S k). rewrite Hn. split; [lia|]. split; [simpl; lia|]. split; [by rewrite Htake|].
    intros [|m] Hm; [lia|]. rewrite Htake. apply Hno. simpl in Hm. lia.
Qed.

(** The whole function, from the beginning of the data. *)
Lemma last_valid_spec data :
  octets data -> exists n,
    svn_utf__last_valid data = Ok n /\ svn_utf__last_valid2 data = n /\ (n <= length data)%nat /\
    reach FSM_START (take n data) = FSM_START /\
    forall m, (m <= length data)%nat -> reach FSM_START (take m data) = FSM_START -> (m <= n)%nat.
Proof.
  intros Ho. unfold svn_utf__last_valid, svn_utf__last_valid2.
  destruct (first_non_ascii_spec data Ho) as (skipped & Heq & Hs).
  set (rest := first_non_fsm_start_char data) in *.
  replace (length data - length rest)%nat with (length skipped)
    by (rewrite Heq, length_app; lia).
  assert (Hr : octets rest) by (rewrite Heq in Ho; by apply Forall_app in Ho as [_ ?]).
  rewrite last_valid_loop_start by (done || (unfold FSM_START; lia)). rewrite last_valid2_loop_start.
  set (n := last_start rest FSM_START (length skipped) (length skipped)).
  exists n. split; [done|]. split; [done|].
  assert (Htake : forall k, reach FSM_START (take (length skipped + k) data) =
    reach FSM_START (take k rest)).
  { intros k. rewrite Heq, take_app_add, reach_app, (reach_ascii skipped) by done. done. }
  assert (Hlen : length data = (length skipped + length rest)%nat).
  { rewrite Heq at 1. apply length_app. }
  destruct (last_start_spec rest FSM_START (length skipped) (length skipped))
    as [[Hn Hno]|(k & Hn & Hk & Hreach & Hno)]; fold n in Hn; rewrite Hn.
  - split; [lia|]. split.
    { pose proof (Htake 0%nat) as H. rewrite Nat.add_0_r in H. by rewrite H. }
    intros m Hm Hrm. destruct (decide (m <= length skipped)%nat); [done|]. exfalso.
    apply (Hno (m - length skipped)%nat); [lia|]. rewrite <- Htake.
    by replace (length skipped + (m - length skipped))%nat with m by lia.
  - split; [lia|]. split; [by rewrite Htake|].
    intros m Hm Hrm. destruct (decide (m <= length skipped + k)%nat); [done|]. exfalso.
    apply (Hno (m - length skipped)%nat); [lia|]. rewrite <- Htake.
    by replace (length skipped + (m - length skipped))%nat with m by lia.
Qed.

(** * The properties of UTF-8 validation

    The theorems on [Utf8], with respect to the encoding form of the Unicode
    Standard. *)

(** C39: [svn_utf__is_valid] accepts exactly the encodings of sequences of
    Unicode scalar values - no overlong forms, no surrogates, nothing above
    U+10FFFF - whatever part of the data the scan for ASCII skips; it never
    reads outside its tables.  [svn_utf__cstring_is_valid] decides the same of
    the data in front of the first NUL. *)
Theorem is_valid_well_formed data :
  octets data -> exists b b',
    svn_utf__is_valid (Some data) = Ok b /\ (b = true <-> well_formed data) /\
    svn_utf__cstring_is_valid (Some data) = Ok b' /\ (b' = true <-> well_formed (c_str data)) /\
    (0 ∉ data -> b' = b).
Proof.
  intros Ho. assert (octets (c_str data)) as Hc by by apply octets_c_str. do 2 eexists.
  split; [by apply is_valid_reach|]. split; [rewrite Nat.eqb_eq; by apply reach_well_formed|].
  split; [by apply is_valid_reach|]. split; [rewrite Nat.eqb_eq; by apply reach_well_formed|].
  intros H0. by rewrite c_str_plain.
Qed.

(** "Subversion" in Hangul and an emoji, after more than one machine word of
    ASCII. *)
Definition sample_text : bytes :=
  cstr "svn: commit message " ++ utf8_encode 0xC11C ++ utf8_encode 0xBE0C ++ utf8_encode 0x1F600.

Lemma is_valid_well_formed_witness : exists b b',
  svn_utf__is_valid (Some sample_text) = Ok b /\ (b = true <-> well_formed sample_text) /\
  svn_utf__cstring_is_valid (Some sample_text) = Ok b' /\ (b' = true <-> well_formed (c_str sample_text)) /\
  (0 ∉ sample_text -> b' = b).
Proof. apply is_valid_well_formed. by_evaluation. Defined.

(** [svn_utf__last_valid] returns the end of the longest prefix that is
    well-formed, and [svn_utf__last_valid2], which has a [switch] in place of
    the tables, returns the same. *)
Theorem last_valid_longest data :
  octets data -> exists n,
    svn_utf__last_valid data = Ok n /\ svn_utf__last_valid2 data = n /\
    (n <= length data)%nat /\ well_formed (take n data) /\
    forall m, (m <= length data)%nat -> well_formed (take m data) -> (m <= n)%nat.
Proof.
  intros Ho. destruct (last_valid_spec data Ho) as (n & H1 & H2 & H3 & H4 & H5).
  assert (Hwf : forall m, reach FSM_START (take m data) = FSM_START <-> well_formed (take m data)).
  { intros m. apply reach_well_formed. by apply Forall_take. }
  exists n. split_and!; try done; [by apply Hwf|]. intros m Hm Hw. by apply H5, Hwf.
Qed.

Lemma last_valid_longest_witness : exists n,
  svn_utf__last_valid (take 25 sample_text) = Ok n /\
  svn_utf__last_valid2 (take 25 sample_text) = n /\
  (n <= length (take 25 sample_text))%nat /\ well_formed (take n (take 25 sample_text)) /\
  forall m, (m <= length (take 25 sample_text))%nat ->
    well_formed (take m (take 25 sample_text)) -> (m <= n)%nat.
Proof. apply last_valid_longest. by_evaluation. Defined.

(** The second character is cut off. *)
Example last_valid_cut : svn_utf__last_valid (take 25 sample_text) = Ok 23%nat.
Proof. reflexivity. Qed.
