(* ===== verification/Uri.v ===== *)
(** * URIs and absolute dirents (libsvn_subr/dirent_uri.c)

    The canonical form of URIs and the test for it, parents and common
    ancestors of URIs, the URLs of files, and, with apr_filepath_merge of APR
    for Unix and the conversion of C strings of utf.c, absolute dirents.  A pointer into a string is the
    rest of the string; platforms with drive letters are left out. *)

From S2P Require Import Prelude Buffers StringBuf Strings Ctype Utf8 Paths PathLib.

(** ** Canonical form *)

Definition COLON : Z := ":"%cc.
Definition AT : Z := "@"%cc.
Definition PERCENT : Z := "%"%cc.

(** The characters of loops that run up to one of two characters. *)
Definition is_neither (a b c : Z) : bool := negb (c =? a) && negb (c =? b).

Definition is_hex_or_colon (c : Z) : bool :=
  (c =? COLON) || (("0"%cc <=? c) && (c <=? "9"%cc)) || (("a"%cc <=? c) && (c <=? "f"%cc))
  || (("A"%cc <=? c) && (c <=? "F"%cc)).

(** Copying the host name in lower case; [dst] is what has been written. *)
Definition copy_host (dst src : bytes) : bytes * bytes :=
  if deref src =? "["%cc then
    let '(digits, src) := span is_hex_or_colon (tail src) in
    let dst := dst ++ ["["%cc] ++ map canonicalize_to_lower digits in
    if deref src =? "]"%cc then (dst ++ ["]"%cc], tail src) else (dst, src)
  else
    let '(host, src) := span (is_neither SLASH COLON) src in
    (dst ++ map canonicalize_to_lower host, src).

(** The port is [text] and nothing else. *)
Definition is_port (src text : bytes) : bool :=
  starts_with (tail src) text
  && ((char_at src (S (length text)) =? SLASH) || (char_at src (S (length text)) =? 0)).

Definition copy_port (dst src : bytes) : bytes * bytes :=
  if deref src =? COLON then
    let src :=
      if is_port src (cstr "80") && starts_with dst (cstr "http:") then drop 3 src
      else if is_port src (cstr "443") && starts_with dst (cstr "https:") then drop 4 src
      else if is_port src (cstr "3690") && starts_with dst (cstr "svn:") then drop 5 src
      else if is_port src [] then drop 1 src
      else src in
    let '(port, src) := span (fun c => negb (c =? SLASH)) src in
    (dst ++ map canonicalize_to_lower port, src)
  else (dst, src).

(** Scheme, user and host, with the slash behind them.  The result is what has
    been written, what is left, the length of the scheme with its slashes and
    [schema_data], the place behind the slash. *)
Definition copy_authority (path : bytes) : bytes * bytes * nat * option nat :=
  let '(scheme, src) := span (fun c => negb (c =? COLON)) path in
  let dst := map canonicalize_to_lower scheme ++ [COLON; SLASH; SLASH] in
  let src := drop 3 src in
  let '(user, host) := span (is_neither SLASH AT) src in
  let '(dst, src) := if deref host =? AT then (dst ++ user ++ [AT], tail host) else (dst, src) in
  let '(dst, src) := copy_host dst src in
  let '(dst, src) := copy_port dst src in
  match src with
  | [] => (dst, [], S (S (S (length scheme))), None)
  | c :: src => (dst ++ [c], src, S (S (S (length scheme))), Some (S (length dst)))
  end.

(** Extra bytes that escaping takes. *)
Fixpoint need_extra (src : bytes) : nat :=
  match src with
  | [] => 0%nat
  | c :: rest =>
      if c =? SLASH then need_extra rest
      else if c =? PERCENT then
        match rest with
        | d1 :: (d2 :: rest') =>
            if svn_ctype_isxdigit d1 && svn_ctype_isxdigit d2 then need_extra rest' else S (S (need_extra rest))
        | _ => S (S (need_extra rest))
        end
      else if in_table svn_uri__char_validity c then need_extra rest else S (S (need_extra rest))
  end.

Fixpoint normalize_chars (src : bytes) : bytes :=
  match src with
  | [] => []
  | c :: rest =>
      if c =? SLASH then SLASH :: normalize_chars rest
      else if c =? PERCENT then
        match rest with
        | d1 :: (d2 :: rest') =>
            if svn_ctype_isxdigit d1 && svn_ctype_isxdigit d2 then
              let val := hex_value d1 d2 in
              if in_table svn_uri__char_validity val then val :: normalize_chars rest'
              else PERCENT :: canonicalize_to_upper d1 :: canonicalize_to_upper d2 :: normalize_chars rest'
            else PERCENT :: "2"%cc :: "5"%cc :: normalize_chars rest
        | _ => PERCENT :: "2"%cc :: "5"%cc :: normalize_chars rest
        end
      else if in_table svn_uri__char_validity c then c :: normalize_chars rest
      else percent_escape c ++ normalize_chars rest
  end.

(** The characters behind [schema_data], where the buffer holds zeros behind
    the string; they are written in place, or, if they take more room, to a
    new block of the size that was computed. *)
Definition check_characters (canon : bytes) (schema_data : nat) : result bytes :=
  let src := drop schema_data canon in
  let dst := take schema_data canon ++ normalize_chars src in
  if (length dst <=? length canon + need_extra src)%nat then Ok dst else Err C_UNDEFINED.

(** [canonicalize] with [type_uri]. *)
Definition canonicalize_uri (path : bytes) : result bytes :=
  if SVN_PATH_IS_EMPTY path then Err SVN_ERR_CANONICALIZATION_FAILED
  else if deref path =? SLASH then Err SVN_ERR_CANONICALIZATION_FAILED
  else
    let src := (span (is_neither SLASH COLON) path).2 in
    let url := starts_with src [COLON; SLASH; SLASH] in
    let '(dst, src, schemelen, schema_data) :=
      if url then copy_authority path else ([], path, 0%nat, None) in
    match canonicalize_segments (length src) type_uri src dst (if url then 1 else 0) with
    | None => Err OUT_OF_FUEL
    | Some (dst, canon_segments) =>
        let dst :=
          if (0 <? canon_segments)%nat && negb (url && (char_at path schemelen =? 0))
          then remove_trailing_slash dst else dst in
        match schema_data with
        | Some schema_data => check_characters dst schema_data
        | None => Ok dst
        end
    end.

(** ** The test for canonical form *)

Definition is_upper (c : Z) : bool := ("A"%cc <=? c) && (c <=? "Z"%cc).

Definition is_decimal (c : Z) : bool := ("0"%cc <=? c) && (c <=? "9"%cc).

(** The digits of a canonical escape. *)
Definition is_upper_xdigit (c : Z) : bool := is_decimal c || (("A"%cc <=? c) && (c <=? "F"%cc)).

(** [port = 10 * port + ( *ptr - '0')] in 64 bits. *)
Fixpoint port_number (digits : bytes) (port : Z) : result Z :=
  match digits with
  | [] => Ok port
  | c :: digits =>
      let port := 10 * port + (c - "0"%cc) in
      if INT64_MAX <? port then Err C_UNDEFINED else port_number digits port
  end.

(** The host name from [ptr] on and what follows it; [None] is FALSE. *)
Definition check_host (ptr : bytes) : option bytes :=
  if deref ptr =? "["%cc then
    let '(_, ptr) := span (fun c => is_hex_or_colon c && negb (is_upper c)) (tail ptr) in
    if deref ptr =? "]"%cc then Some (tail ptr) else None
  else
    let '(host, ptr) := span (is_neither SLASH COLON) ptr in
    if forallb (fun c => negb (is_upper c)) host then Some ptr else None.

Definition check_port (uri ptr : bytes) : result (option bytes) :=
  if deref ptr =? COLON then
    let '(digits, ptr) := span is_decimal (tail ptr) in
    port ← port_number digits 0;
    if bool_decide (digits = []) && ((deref ptr =? SLASH) || (deref ptr =? 0)) then Ok None
    else if (port =? 80) && starts_with uri (cstr "http:") then Ok None
    else if (port =? 443) && starts_with uri (cstr "https:") then Ok None
    else if (port =? 3690) && starts_with uri (cstr "svn:") then Ok None
    else Ok (Some (span (fun c => negb (c =? SLASH)) ptr).2)
  else Ok (Some ptr).

(** The segments from [seg] on; [prev] is the character in front of it. *)
Fixpoint check_segments (fuel : nat) (prev : Z) (seg : bytes) : result bool :=
  match fuel with
  | O => Err OUT_OF_FUEL
  | S f =>
      let '(s, ptr) := span (fun c => negb (c =? SLASH)) seg in
      if bool_decide (s = [DOT]) then Ok false
      else if (deref ptr =? SLASH) && (char_at ptr 1 =? SLASH) then Ok false
      else
        match ptr with
        | [] => Ok (negb (default prev (last s) =? SLASH))
        | _ :: ptr => check_segments f SLASH ptr
        end
  end.

Fixpoint check_escapes (ptr : bytes) : bool :=
  match ptr with
  | [] => true
  | c :: rest =>
      if c =? PERCENT then
        match rest with
        | d1 :: (d2 :: rest') =>
            if negb (is_upper_xdigit d1) then false
            else if negb (is_upper_xdigit d2) then false
            else if in_table svn_uri__char_validity (hex_value d1 d2) then false
            else check_escapes rest'
        | _ => false
        end
      else if negb (c =? SLASH) && negb (in_table svn_uri__char_validity c) then false
      else check_escapes rest
  end.

Definition svn_uri_is_canonical (uri : bytes) : result bool :=
  if deref uri =? 0 then Ok false
  else if negb (svn_path_is_url uri) then Ok false
  else
    let ptr := (span (is_neither SLASH COLON) uri).2 in
    if negb (starts_with ptr [COLON; SLASH; SLASH]) then Ok false
    else
      let '(scheme, ptr) := span (fun c => negb (c =? COLON)) uri in
      if negb (forallb (fun c => negb (is_upper c)) scheme) then Ok false
      else
        let ptr := drop 3 ptr in
        if deref ptr =? 0 then Ok true
        else
          let host := (span (is_neither SLASH AT) ptr).2 in
          let seg := if deref host =? AT then tail host else ptr in
          match check_host seg with
          | None => Ok false
          | Some ptr =>
              schema_data ← check_port uri ptr;
              match schema_data with
              | None => Ok false
              | Some schema_data =>
                  let prev := char_at uri (length uri - length schema_data - 1) in
                  ok ← check_segments (S (length schema_data)) prev schema_data;
                  Ok (ok && check_escapes schema_data)
              end
          end.

(** [SVN_ERR_ASSERT_NO_RETURN] stops the process. *)
Definition svn_uri_canonicalize (uri : bytes) : result bytes :=
  match canonicalize_uri uri with
  | Err SVN_ERR_CANONICALIZATION_FAILED => Err C_ABORT
  | res => res
  end.

Definition svn_uri_canonicalize_safe (uri : bytes) : result bytes :=
  res ← canonicalize_uri uri;
  ok ← svn_uri_is_canonical res;
  if ok : bool then Ok res else Err SVN_ERR_CANONICALIZATION_FAILED.

(** [assert (svn_uri_is_canonical (uri, pool))] *)
Definition assert_canonical (uri : bytes) : result unit :=
  ok ← svn_uri_is_canonical uri; c_assert ok.

(** ** Parents *)

(** The first slash at or behind index [i] and before [len]. *)
Fixpoint find_slash (uri : bytes) (i len : nat) : option nat :=
  match uri with
  | [] => None
  | c :: uri =>
      match len with
      | O => None
      | S len => if c =? SLASH then Some i else find_slash uri (S i) len
      end
  end.

Definition uri_schema_root_length (uri : bytes) (len : nat) : nat :=
  match find_slash uri 0 len with
  | None => 0%nat
  | Some i =>
      if (0 <? i)%nat && (char_at uri (i - 1) =? COLON) && (i <? len - 1)%nat && (char_at uri (i + 1) =? SLASH) then
        if (i =? 5)%nat && starts_with uri (cstr "file") then 7%nat
        else match find_slash (drop (i + 2) uri) (i + 2) (len - (i + 2)) with Some i => i | None => len end
      else 0%nat
  end.

Definition svn_uri_is_root (uri : bytes) (len : nat) : result bool :=
  assert_canonical uri;; Ok (len =? uri_schema_root_length uri len)%nat.

(** [while (uri[i] != '/') --i], which must not leave the string. *)
Fixpoint previous_slash (uri : bytes) (i : nat) : result nat :=
  if char_at uri i =? SLASH then Ok i
  else match i with O => Err C_UNDEFINED | S i => previous_slash uri i end.

Definition uri_previous_segment (uri : bytes) (len : nat) : result nat :=
  if (len =? 0)%nat then Ok 0%nat
  else
    i ← (if (uri_schema_root_length uri len <? len)%nat then previous_slash uri (len - 1)
         else Ok (len - 1)%nat);
    Ok (if (i =? 0)%nat && (1 <? len)%nat && (deref uri =? SLASH) then 1%nat else i).

Definition svn_uri_dirname (uri : bytes) : result bytes :=
  let len := length uri in
  assert_canonical uri;;
  root ← svn_uri_is_root uri len;
  if root : bool then Ok uri
  else n ← uri_previous_segment uri len; Ok (take n uri).

(** The characters behind the last slash. *)
Fixpoint basename_of (uri acc : bytes) : bytes :=
  match uri with
  | [] => acc
  | c :: uri => if c =? SLASH then basename_of uri uri else basename_of uri acc
  end.

Definition svn_uri_basename (uri : bytes) : result bytes :=
  assert_canonical uri;;
  root ← svn_uri_is_root uri (length uri);
  if root : bool then Ok [] else Ok (svn_path_uri_decode (basename_of uri uri)).

Definition svn_uri_split (uri : bytes) : result (bytes * bytes) :=
  dirpath ← svn_uri_dirname uri; base_name ← svn_uri_basename uri; Ok (dirpath, base_name).

(** ** Ancestors *)

(** The length of the common scheme; [None] if it is not shared. *)
Fixpoint common_scheme (uri1 uri2 : bytes) (i : nat) : result (option nat) :=
  match uri1, uri2 with
  | c1 :: uri1, c2 :: uri2 =>
      if negb (c1 =? c2) then Ok None
      else if c1 =? COLON then Ok (Some i)
      else common_scheme uri1 uri2 (S i)
  | [], [] => Err C_ABORT
  | _, _ => Ok None
  end.

Definition svn_uri_get_longest_ancestor (uri1 uri2 : bytes) : result bytes :=
  assert_canonical uri1;;
  assert_canonical uri2;;
  common ← common_scheme uri1 uri2 0;
  match common with
  | None => Ok []
  | Some i =>
      let i := (i + 3)%nat in
      let uri_ancestor_len := get_longest_ancestor_length type_uri (drop i uri1) (drop i uri2) in
      if (uri_ancestor_len =? 0)%nat || ((uri_ancestor_len =? 1)%nat && (char_at uri1 i =? SLASH))
      then Ok [] else Ok (take (uri_ancestor_len + i) uri1)
  end.

Definition uri_skip_ancestor (parent_uri child_uri : bytes) : result (option bytes) :=
  assert_canonical parent_uri;;
  assert_canonical child_uri;;
  Ok (match strip_prefix parent_uri child_uri with
      | None => None
      | Some [] => Some []
      | Some (c :: rest) => if c =? SLASH then Some rest else None
      end).

Definition svn_uri_skip_ancestor (parent_uri child_uri : bytes) : result (option bytes) :=
  rest ← uri_skip_ancestor parent_uri child_uri; Ok (option_map svn_path_uri_decode rest).

Definition svn_uri__is_ancestor (parent_uri child_uri : bytes) : result bool :=
  rest ← uri_skip_ancestor parent_uri child_uri;
  Ok (match rest with Some _ => true | None => false end).

(** ** Condensing *)

(** The targets, and those of them that have been removed. *)
Definition is_removed (removed : list bool) (i : nat) : bool := default false (removed !! i).

Section RemoveChildren.
(** [svn_uri_get_longest_ancestor], or the function for dirents. *)
Context (longest_ancestor : bytes -> bytes -> result bytes).

(** The loop over [j]. *)
Fixpoint remove_children (uri_targets : list bytes) (i j : nat) (todo : nat) (removed : list bool)
    : result (list bool) :=
  match todo with
  | O => Ok removed
  | S todo =>
      removed ←
        (if is_removed removed j then Ok removed
         else
           let uri_i := default [] (uri_targets !! i) in
           let uri_j := default [] (uri_targets !! j) in
           ancestor ← longest_ancestor uri_i uri_j;
           Ok (if bool_decide (ancestor = []) then removed
               else if bool_decide (ancestor = uri_i) then <[j := true]> removed
               else if bool_decide (ancestor = uri_j) then <[i := true]> removed
               else removed));
      remove_children uri_targets i (S j) todo removed
  end.

Fixpoint first_pass (uri_targets : list bytes) (i todo : nat) (removed : list bool) : result (list bool) :=
  match todo with
  | O => Ok removed
  | S todo =>
      removed ← (if is_removed removed i then Ok removed
                 else remove_children uri_targets i (S i) todo removed);
      first_pass uri_targets (S i) todo removed
  end.
End RemoveChildren.

Definition second_pass (uri_targets : list bytes) (pcommon : bytes) (removed : list bool) : list bool :=
  zip_with (fun uri r => r || bool_decide (uri = pcommon)) uri_targets removed.

(** The common ancestor of the targets and of the canonical forms so far. *)
Fixpoint canonical_targets (targets : list bytes) (pcommon : bytes) : result (list bytes * bytes) :=
  match targets with
  | [] => Ok ([], pcommon)
  | target :: targets =>
      uri ← svn_uri_canonicalize target;
      pcommon ← (if bool_decide (pcommon = []) then Ok pcommon else svn_uri_get_longest_ancestor pcommon uri);
      '(uris, pcommon) ← canonical_targets targets pcommon;
      Ok (uri :: uris, pcommon)
  end.

Definition relative_item (pcommon rel_item : bytes) : result bytes :=
  let basedir_len := length pcommon in
  rel_item ←
    (if (0 <? basedir_len)%nat then
       let rel_item := drop basedir_len rel_item in
       if deref rel_item =? SLASH then Ok (tail rel_item)
       else if deref rel_item =? 0 then Ok rel_item
       else root ← svn_uri_is_root pcommon basedir_len; Ok (if root : bool then rel_item else tail rel_item)
     else Ok rel_item);
  Ok (svn_path_uri_decode rel_item).

Fixpoint condensed_items (pcommon : bytes) (uri_targets : list bytes) (removed : list bool)
    : result (list bytes) :=
  match uri_targets, removed with
  | uri :: uri_targets, r :: removed =>
      if r : bool then condensed_items pcommon uri_targets removed
      else
        item ← relative_item pcommon uri;
        items ← condensed_items pcommon uri_targets removed;
        Ok (item :: items)
  | _, _ => Ok []
  end.

(** No common ancestor is [None] if there are no targets.  The condensed
    targets are always asked for. *)
Definition svn_uri_condense_targets (targets : list bytes) (remove_redundancies : bool)
    : result (option bytes * list bytes) :=
  match targets with
  | [] => Ok (None, [])
  | target :: rest =>
      pcommon ← svn_uri_canonicalize target;
      match rest with
      | [] => Ok (Some pcommon, [])
      | _ =>
          '(uris, common) ← canonical_targets rest pcommon;
          let uri_targets := pcommon :: uris in
          let removed := replicate (length uri_targets) false in
          removed ←
            (if remove_redundancies then
               removed ← first_pass svn_uri_get_longest_ancestor uri_targets 0 (length uri_targets) removed;
               Ok (second_pass uri_targets common removed)
             else Ok removed);
          items ← condensed_items common uri_targets removed;
          Ok (Some common, items)
      end
  end.

(** ** Absolute dirents *)

(** The operating system: the working directory, and the converters between
    UTF-8 and the encoding of the locale, which [apr_xlate_open] makes or does
    not make; they convert whole strings. *)
Class Native := {
  getcwd : result bytes;
  uton_xlate : result (option (bytes -> result bytes));
  ntou_xlate : result (option (bytes -> result bytes))
}.

Definition check_non_ascii (data : bytes) : result unit :=
  if forallb (fun c => svn_ctype_isascii c && (svn_ctype_isspace c || negb (svn_ctype_iscntrl c))) data
  then Ok () else Err APR_EINVAL.

Definition check_cstring_utf8 (data : bytes) : result unit :=
  ok ← svn_utf__cstring_is_valid (Some data);
  if ok : bool then Ok () else Err APR_EINVAL.

Definition convert_cstring (src : bytes) (handle : option (bytes -> result bytes)) : result bytes :=
  match handle with
  | Some convert => if bool_decide (src = []) then Ok [] else dest ← convert src; Ok (c_str dest)
  | None => check_non_ascii src;; Ok src
  end.

Definition APR_FILEPATH_ENCODING_LOCALE : Z := 1.
Definition APR_FILEPATH_ENCODING_UTF8 : Z := 2.
Definition apr_filepath_encoding : Z := APR_FILEPATH_ENCODING_LOCALE.
Definition get_path_encoding : bool := apr_filepath_encoding =? APR_FILEPATH_ENCODING_UTF8.

Definition APR_FILEPATH_NOTABOVEROOT : Z := 0x01.
Definition APR_FILEPATH_SECUREROOTTEST : Z := 0x02.
Definition APR_FILEPATH_NOTRELATIVE : Z := 0x04.
Definition APR_FILEPATH_NOTABSOLUTE : Z := 0x08.

(** [PATH_MAX] of Linux. *)
Definition APR_PATH_MAX : nat := 4096.

Definition has_flag (flags flag : Z) : bool := negb (Z.land flags flag =? 0).

(** [do --pathlen; while (pathlen && path[pathlen - 1] != '/')] *)
Definition crop (path : bytes) : bytes :=
  rev (span (fun c => negb (c =? SLASH)) (tail (rev path))).2.

(** [../] or [/../] at the end. *)
Definition is_backpathed (path : bytes) : bool :=
  bool_decide (path = []) || bool_decide (path = [DOT; DOT; SLASH])
  || ((3 <? length path)%nat && bool_decide (drop (length path - 4) path = [SLASH; DOT; DOT; SLASH])).

(** One segment; [more] is set if a slash follows it. *)
Definition merge_segment (flags : Z) (seg : bytes) (more : bool) (path : bytes) (keptlen : nat)
    : result (bytes * nat) :=
  if bool_decide (seg = []) || bool_decide (seg = [DOT]) then Ok (path, keptlen)
  else if bool_decide (seg = [DOT; DOT]) then
    '(path, keptlen) ←
      (if bool_decide (path = [SLASH]) then
         if has_flag flags APR_FILEPATH_SECUREROOTTEST then Err APR_EABOVEROOT else Ok (path, 0%nat)
       else if is_backpathed path then
         if has_flag flags APR_FILEPATH_SECUREROOTTEST then Err APR_EABOVEROOT
         else Ok (path ++ [DOT; DOT] ++ (if more then [SLASH] else []), keptlen)
       else Ok (crop path, keptlen));
    if (length path <? keptlen)%nat then
      if has_flag flags APR_FILEPATH_SECUREROOTTEST then Err APR_EABOVEROOT else Ok (path, length path)
    else Ok (path, keptlen)
  else Ok (path ++ seg ++ (if more then [SLASH] else []), keptlen).

Fixpoint merge_segments (fuel : nat) (flags : Z) (addpath path : bytes) (keptlen : nat)
    : result (bytes * nat) :=
  match addpath with
  | [] => Ok (path, keptlen)
  | _ =>
      match fuel with
      | O => Err OUT_OF_FUEL
      | S f =>
          let '(seg, next) := span (fun c => negb (c =? SLASH)) addpath in
          '(path, keptlen) ← merge_segment flags seg (negb (deref next =? 0)) path keptlen;
          merge_segments f flags (tail next) path keptlen
      end
  end.

Section WithNative.
Context `{Native}.

Definition svn_utf_cstring_from_utf8 (src : bytes) : result bytes :=
  check_cstring_utf8 src;; handle ← uton_xlate; convert_cstring src handle.

Definition svn_utf_cstring_to_utf8 (src : bytes) : result bytes :=
  handle ← ntou_xlate;
  dest ← convert_cstring src handle;
  check_cstring_utf8 dest;; Ok dest.

Definition svn_path_cstring_from_utf8 (path_utf8 : bytes) : result bytes :=
  if get_path_encoding then Ok path_utf8 else svn_utf_cstring_from_utf8 path_utf8.

Definition svn_path_cstring_to_utf8 (path_apr : bytes) : result bytes :=
  if get_path_encoding then Ok path_apr else svn_utf_cstring_to_utf8 path_apr.

(** [apr_filepath_merge] of APR for Unix; a null [rootpath] is [None]. *)
Definition apr_filepath_merge (rootpath : option bytes) (addpath : bytes) (flags : Z) : result bytes :=
  let rooted := deref addpath =? SLASH in
  rootpath ←
    (if rooted then
       if has_flag flags APR_FILEPATH_SECUREROOTTEST then Err APR_EABOVEROOT
       else if has_flag flags APR_FILEPATH_NOTABSOLUTE then Err APR_EABSOLUTE
       else if bool_decide (rootpath = None) && negb (has_flag flags APR_FILEPATH_NOTABOVEROOT)
       then Ok (Some []) else Ok rootpath
     else if has_flag flags APR_FILEPATH_NOTABSOLUTE then
       match rootpath with
       | None => Ok (Some [])
       | Some root => if deref root =? SLASH then Err APR_EABSOLUTE else Ok rootpath
       end
     else Ok rootpath);
  rootpath ← (match rootpath with Some root => Ok root | None => getcwd end);
  let rootlen := length rootpath in
  if (APR_PATH_MAX <? rootlen + length addpath + 4)%nat then Err APR_ENAMETOOLONG
  else
    '(addpath, path, keptlen) ←
      (if rooted then Ok ((span (fun c => c =? SLASH) addpath).2, [SLASH], 0%nat)
       else if negb (deref rootpath =? SLASH) && has_flag flags APR_FILEPATH_NOTRELATIVE then Err APR_ERELATIVE
       else
         let path := if (0 <? rootlen)%nat && negb (bool_decide (last rootpath = Some SLASH))
                     then rootpath ++ [SLASH] else rootpath in
         Ok (addpath, path, length path));
    '(path, keptlen) ← merge_segments (length addpath) flags addpath path keptlen;
    if has_flag flags APR_FILEPATH_NOTABOVEROOT && (keptlen <? rootlen)%nat then
      if negb (starts_with path rootpath) then Err APR_EABOVEROOT
      else if negb (bool_decide (last rootpath = Some SLASH)) && negb (char_at path rootlen =? 0)
              && negb (char_at path rootlen =? SLASH) then Err APR_EABOVEROOT
      else Ok path
    else Ok path.

Definition dirent_canonicalize (dirent : bytes) : result bytes :=
  match svn_dirent_canonicalize dirent with Some dirent => Ok dirent | None => Err OUT_OF_FUEL end.

Definition svn_dirent_get_absolute (relative : bytes) : result bytes :=
  svn_err_assert (negb (svn_path_is_url relative));;
  path_apr ← svn_path_cstring_from_utf8 relative;
  match apr_filepath_merge None path_apr APR_FILEPATH_NOTRELATIVE with
  | Ok buffer => absolute ← svn_path_cstring_to_utf8 buffer; dirent_canonicalize absolute
  | Err OUT_OF_FUEL => Err OUT_OF_FUEL
  | Err _ =>
      if svn_dirent_is_absolute relative && svn_dirent_is_canonical relative
         && negb (svn_path_is_backpath_present relative)
      then Ok relative else Err SVN_ERR_BAD_FILENAME
  end.

(** Whether it is under the root, and if so the merged path. *)
Definition svn_dirent_is_under_root (base_path path : bytes) : result (bool * option bytes) :=
  match apr_filepath_merge (Some base_path) path
          (Z.lor APR_FILEPATH_NOTABOVEROOT APR_FILEPATH_SECUREROOTTEST) with
  | Ok full_path => result_path ← dirent_canonicalize full_path; Ok (true, Some result_path)
  | Err APR_EABOVEROOT => Ok (false, None)
  | Err status => Err status
  end.

(** The absolute dirents of the targets, and the common ancestor. *)
Fixpoint absolute_targets (targets : list bytes) (pcommon : bytes) : result (list bytes * bytes) :=
  match targets with
  | [] => Ok ([], pcommon)
  | rel :: targets =>
      absolute ← svn_dirent_get_absolute rel;
      '(abs_targets, pcommon) ← absolute_targets targets (svn_dirent_get_longest_ancestor pcommon absolute);
      Ok (absolute :: abs_targets, pcommon)
  end.

Definition relative_dirent (pcommon rel_item : bytes) : bytes :=
  let basedir_len := length pcommon in
  if (0 <? basedir_len)%nat then
    let rel_item := drop basedir_len rel_item in
    if negb (deref rel_item =? 0) && negb (svn_dirent_is_root pcommon basedir_len) then tail rel_item else rel_item
  else rel_item.

Definition kept_items (abs_targets : list bytes) (removed : list bool) : list bytes :=
  (filter (fun p => p.2 = false) (zip abs_targets removed)).*1.

Definition svn_dirent_condense_targets (targets : list bytes) (remove_redundancies : bool)
    : result (option bytes * list bytes) :=
  match targets with
  | [] => Ok (None, [])
  | target :: rest =>
      pcommon ← svn_dirent_get_absolute target;
      match rest with
      | [] => Ok (Some pcommon, [])
      | _ =>
          '(abs_rest, common) ← absolute_targets rest pcommon;
          let abs_targets := pcommon :: abs_rest in
          let removed := replicate (length abs_targets) false in
          removed ←
            (if remove_redundancies then
               removed ← first_pass (fun a b => Ok (svn_dirent_get_longest_ancestor a b)) abs_targets 0
                           (length abs_targets) removed;
               Ok (second_pass abs_targets common removed)
             else Ok removed);
          Ok (Some common, relative_dirent common <$> kept_items abs_targets removed)
      end
  end.
End WithNative.

(** ** URLs of files *)

Definition svn_uri_get_dirent_from_file_url (url : bytes) : result bytes :=
  ok ← svn_uri_is_canonical url;
  svn_err_assert ok;;
  match strip_prefix (cstr "file://") url with
  | None => Err SVN_ERR_RA_ILLEGAL_URL
  | Some hostname =>
      let '(hostname, path) :=
        match strchr hostname SLASH with
        | Some path => (take (length hostname - length path) hostname, path)
        | None => (hostname, [SLASH])
        end in
      if bool_decide (hostname = []) || bool_decide (svn_path_uri_decode hostname = cstr "localhost")
      then Ok (svn_path_uri_decode path)
      else Err SVN_ERR_RA_ILLEGAL_URL
  end.

Definition svn_uri_get_file_url_from_dirent `{Native} (dirent : bytes) : result bytes :=
  c_assert (svn_dirent_is_canonical dirent);;
  dirent ← svn_dirent_get_absolute dirent;
  let dirent := svn_path_uri_encode dirent in
  Ok (cstr "file://" ++ if bool_decide (dirent = [SLASH]) then [] else dirent).

Definition svn_urlpath__canonicalize (uri : bytes) : result bytes :=
  if svn_path_is_url uri then svn_uri_canonicalize uri
  else
    match svn_fspath__canonicalize uri with
    | None => Err OUT_OF_FUEL
    | Some uri => Ok (svn_path_uri_encode (svn_path_uri_decode uri))
    end.
