(* ===== verification/UriTheorems.v ===== *)
(** * Canonical URIs

    A URI is made of a scheme, a user, a host, a port and a path; its canonical
    form is that of its parts: lower case, no default port, and the segments
    of the path that are not dots, with only those characters escaped that
    have to be.  The test accepts it, and it is its own canonical form.  A
    dirent is made absolute by resolving its segments behind those of the
    working directory, and its URL leads back to this absolute path. *)

From S2P Require Import Prelude Buffers StringBuf StringBufFacts Strings StringsFacts Paths PathFacts.
From S2P Require Import Utf8 Utf8Theorems PathLib PathLibFacts Uri.

#[local] Notation valid c := (in_table svn_uri__char_validity c).

(** ** Escapes *)

(** Texts whose escapes are canonical: characters that may stay, slashes
    included, and escapes with upper case digits of all others. *)
Inductive uri_text : bytes -> Prop :=
  | uri_nil : uri_text []
  | uri_char c t : valid c = true -> 0 <= c -> uri_text t -> uri_text (c :: t)
  | uri_escape d1 d2 t :
      is_upper_xdigit d1 = true -> is_upper_xdigit d2 = true -> valid (hex_value d1 d2) = false ->
      uri_text t -> uri_text (PERCENT :: d1 :: d2 :: t).

(** Induction for functions that look at three characters. *)
Lemma three_ind (P : bytes -> Prop) :
  P [] ->
  (forall c s, P s -> (forall d1 d2 s', s = d1 :: d2 :: s' -> P s') -> P (c :: s)) ->
  forall s, P s.
Proof.
  intros H0 H1 s. remember (length s) as n eqn:Hn. revert s Hn.
  induction (lt_wf n) as [n _ IH]. intros [|c s] ->; [done|].
  apply H1; [eapply IH; [|done]; simpl; lia|].
  intros d1 d2 s' ->. eapply IH; [|done]. simpl. lia.
Qed.

Lemma upper_hex_upper d : 0 <= d < 16 -> is_upper_xdigit (upper_hex d) = true.
Proof.
  intros Hd. assert (Hall : forall i, (i < 16)%nat -> is_upper_xdigit (upper_hex (Z.of_nat i)) = true).
  { intros i Hi. do 16 (destruct i as [|i]; [by vm_compute|]). lia. }
  specialize (Hall (Z.to_nat d)). rewrite Z2Nat.id in Hall by lia. apply Hall. lia.
Qed.

(** The digits, one by one. *)
Lemma xdigit_all (test : Z -> bool) :
  forallb (fun i => let d := 48 + Z.of_nat i in implb (svn_ctype_isxdigit d) (test d)) (seq 0 55) = true ->
  forall d, svn_ctype_isxdigit d = true -> test d = true.
Proof.
  intros Hall d H. assert (Hr : 48 <= d < 103).
  { unfold svn_ctype_isxdigit in H. apply orb_true_iff in H as [[H|H]%orb_true_iff|H]; reflect_bools; lia. }
  rewrite List.forallb_forall in Hall. specialize (Hall (Z.to_nat (d - 48))).
  cbv zeta in Hall. rewrite List.in_seq, Z2Nat.id in Hall by lia. replace (48 + (d - 48)) with d in Hall by lia.
  rewrite H in Hall. apply Hall. lia.
Qed.

Lemma xdigit_upper d :
  svn_ctype_isxdigit d = true ->
  is_upper_xdigit (canonicalize_to_upper d) = true /\
  hex_digit (canonicalize_to_upper d) = hex_digit d /\ 0 <= hex_digit d < 16.
Proof.
  intros H.
  pose proof (xdigit_all (fun d => is_upper_xdigit (canonicalize_to_upper d)
    && (hex_digit (canonicalize_to_upper d) =? hex_digit d) && (0 <=? hex_digit d) && (hex_digit d <? 16))
    ltac:(by vm_compute) d H) as E. cbv beta in E. reflect_bools. by split_and!.
Qed.

Lemma xdigit_table d :
  svn_ctype_isxdigit d = true ->
  (hex_digit d = 2 -> d = "2"%cc) /\ (10 <= hex_digit d -> canonicalize_to_upper d = hex_digit d - 10 + "A"%cc).
Proof.
  intros H.
  pose proof (xdigit_all (fun d => implb (hex_digit d =? 2) (d =? "2"%cc) &&
    implb (10 <=? hex_digit d) (canonicalize_to_upper d =? hex_digit d - 10 + "A"%cc))
    ltac:(by vm_compute) d H) as E. cbv beta in E. apply andb_true_iff in E as [E1 E2]. split; intros Hd.
  - rewrite Hd in E1. by apply Z.eqb_eq in E1.
  - rewrite (proj2 (Z.leb_le _ _) Hd) in E2. by apply Z.eqb_eq in E2.
Qed.

Lemma upper_xdigit_spec d :
  is_upper_xdigit d = true -> svn_ctype_isxdigit d = true /\ canonicalize_to_upper d = d.
Proof.
  unfold svn_ctype_isxdigit, is_upper_xdigit, is_decimal, canonicalize_to_upper. intros H.
  repeat match goal with
  | |- context [?a <=? ?b] => destruct (Z.leb_spec a b)
  | |- context [?a <? ?b] => destruct (Z.ltb_spec a b)
  | H : context [?a <=? ?b] |- _ => destruct (Z.leb_spec a b)
  end; simpl in *; try done; lia.
Qed.

(** What is written is canonical, and stays as it is. *)
Lemma normalize_uri_text s : Forall is_byte s -> uri_text (normalize_chars s).
Proof.
  induction s as [|c s IH IH3] using three_ind; [constructor|].
  intros [Hc Hs]%Forall_cons. cbn [normalize_chars]. destruct (Z.eqb_spec c SLASH) as [->|Hns].
  { constructor; [done|done|by apply IH]. }
  destruct (Z.eqb_spec c PERCENT) as [->|Hnp].
  - assert (Hbad : uri_text (PERCENT :: "2"%cc :: "5"%cc :: normalize_chars s))
      by (constructor; [done|done|done|by apply IH]).
    destruct s as [|d1 [|d2 s']]; [exact Hbad|exact Hbad|].
    destruct (svn_ctype_isxdigit d1 && svn_ctype_isxdigit d2) eqn:E; [|exact Hbad].
    apply andb_true_iff in E as [E1 E2]. apply Forall_cons in Hs as [_ [_ Hs]%Forall_cons].
    specialize (IH3 d1 d2 s' eq_refl Hs).
    destruct (xdigit_upper d1 E1) as (U1 & V1 & R1), (xdigit_upper d2 E2) as (U2 & V2 & R2).
    destruct (valid (hex_value d1 d2)) eqn:Ev.
    + constructor; [done|unfold hex_value; lia|done].
    + constructor; [done|done| |done]. unfold hex_value. by rewrite V1, V2.
  - destruct (valid c) eqn:Ev.
    + constructor; [done|unfold is_byte in Hc; lia|by apply IH].
    + unfold is_byte in Hc. assert (0 <= c / 16 < 16) as R1 by dlia. assert (0 <= c mod 16 < 16) as R2 by dlia.
      unfold percent_escape. cbn [app]. constructor; [by apply upper_hex_upper|by apply upper_hex_upper| |by apply IH].
      unfold hex_value. destruct (upper_hex_digit _ R1) as [_ ->], (upper_hex_digit _ R2) as [_ ->].
      by replace (16 * (c / 16) + c mod 16) with c by dlia.
Qed.

Lemma valid_not_percent c : valid c = true -> 0 <= c -> c <> PERCENT.
Proof. intros H Hc. by apply (char_validity_plain c). Qed.

Lemma normalize_fixed t : uri_text t -> normalize_chars t = t.
Proof.
  induction 1 as [|c t Hv Hc H IH|d1 d2 t H1 H2 Hv H IH]; cbn [normalize_chars]; [done| |].
  - destruct (Z.eqb_spec c SLASH) as [->|]; [by rewrite IH|].
    rewrite (proj2 (Z.eqb_neq c PERCENT)) by (by apply valid_not_percent). by rewrite Hv, IH.
  - change (PERCENT =? SLASH) with false. rewrite Z.eqb_refl.
    destruct (upper_xdigit_spec d1 H1) as [-> ->], (upper_xdigit_spec d2 H2) as [-> ->].
    cbn [andb]. by rewrite Hv, IH.
Qed.

Lemma check_escapes_true t : uri_text t -> check_escapes t = true.
Proof.
  induction 1 as [|c t Hv Hc H IH|d1 d2 t H1 H2 Hv H IH]; cbn [check_escapes]; [done| |].
  - rewrite (proj2 (Z.eqb_neq c PERCENT)) by (by apply valid_not_percent). by rewrite Hv, andb_false_r.
  - rewrite Z.eqb_refl. by rewrite H1, H2, Hv.
Qed.

Lemma normalize_slash a b : normalize_chars (a ++ SLASH :: b) = normalize_chars a ++ SLASH :: normalize_chars b.
Proof.
  induction a as [|c a IH IH3] using three_ind; [done|]. cbn [app normalize_chars].
  destruct (c =? SLASH); [cbn [app]; by rewrite IH|]. destruct (c =? PERCENT).
  - assert (Hbad : PERCENT :: "2"%cc :: "5"%cc :: normalize_chars (a ++ SLASH :: b)
              = (PERCENT :: "2"%cc :: "5"%cc :: normalize_chars a) ++ SLASH :: normalize_chars b)
      by (cbn [app]; by rewrite IH).
    destruct a as [|d1 [|d2 a']]; cbn [app] in *.
    + destruct b; exact Hbad.
    + change (svn_ctype_isxdigit SLASH) with false. rewrite andb_false_r. exact Hbad.
    + destruct (svn_ctype_isxdigit d1 && svn_ctype_isxdigit d2); [|exact Hbad].
      rewrite (IH3 d1 d2 a' eq_refl). by destruct (valid (hex_value d1 d2)).
  - destruct (valid c); [cbn [app]; by rewrite IH|]. rewrite IH. by rewrite app_assoc.
Qed.

Lemma normalize_join segs : normalize_chars (join_slash segs) = join_slash (map normalize_chars segs).
Proof.
  induction segs as [|s segs IH]; [done|]. cbn [map]. rewrite !join_slash_cons.
  destruct segs as [|s' segs]; [by rewrite !app_nil_r|]. rewrite normalize_slash, IH. done.
Qed.

(** The new block is large enough, and without extra bytes nothing grows. *)
Lemma normalize_length s : (length (normalize_chars s) <= length s + need_extra s)%nat.
Proof.
  induction s as [|c s IH IH3] using three_ind; [done|]. cbn [normalize_chars need_extra].
  destruct (c =? SLASH); [simpl; lia|]. destruct (c =? PERCENT).
  - destruct s as [|d1 [|d2 s']]; [simpl in *; lia..|].
    specialize (IH3 d1 d2 s' eq_refl).
    destruct (svn_ctype_isxdigit d1 && svn_ctype_isxdigit d2); [|simpl in *; lia].
    destruct (valid (hex_value d1 d2)); simpl; lia.
  - destruct (valid c); simpl; lia.
Qed.

Lemma check_characters_spec canon schema_data :
  check_characters canon schema_data = Ok (take schema_data canon ++ normalize_chars (drop schema_data canon)).
Proof.
  unfold check_characters. pose proof (normalize_length (drop schema_data canon)).
  pose proof (f_equal length (take_drop schema_data canon)) as Hl. rewrite length_app in Hl.
  rewrite (proj2 (Nat.leb_le _ _)); [done|]. rewrite length_app. lia.
Qed.

(** ** Segments *)

(** The segments between slashes, which may be written as escapes. *)
Fixpoint split_uri (s : bytes) : list bytes :=
  let add c segs := match segs with seg :: segs => (c :: seg) :: segs | [] => [[c]] end in
  match s with
  | [] => [[]]
  | c :: s1 =>
      if c =? SLASH then [] :: split_uri s1
      else match s1 with
           | d :: (e :: s3) =>
               if (c =? PERCENT) && (d =? "2"%cc) && (canonicalize_to_upper e =? "F"%cc)
               then [] :: split_uri s3 else add c (split_uri s1)
           | _ => add c (split_uri s1)
           end
  end.

(** The segments that are kept. *)
Definition uri_good (seg : bytes) : Prop := noop_segment type_uri seg = false.

#[export] Instance uri_good_dec seg : Decision (uri_good seg).
Proof. unfold uri_good. apply _. Defined.

Lemma escaped_slash_nil c s :
  length s = 0%nat \/ length s = 1%nat -> is_escaped_slash type_uri (c :: s) = false.
Proof.
  intros H. unfold is_escaped_slash. destruct s as [|d [|e s]]; [..|simpl in H; lia];
    (change (char_at _ 2) with 0; by rewrite andb_false_r).
Qed.

Lemma split_uri_step c s seg segs :
  c <> SLASH -> is_escaped_slash type_uri (c :: s) = false -> split_uri s = seg :: segs ->
  split_uri (c :: s) = (c :: seg) :: segs.
Proof.
  intros Hc Ee Hs. cbn [split_uri]. rewrite (proj2 (Z.eqb_neq c SLASH) Hc), Hs.
  destruct s as [|d [|e s]]; [done|done|].
  change ((c =? PERCENT) && _ && _) with (is_escaped_slash type_uri (c :: d :: e :: s)). by rewrite Ee.
Qed.

(** Taking the first segment. *)
Lemma next_segment_uri src seg next :
  next_segment type_uri src = (seg, next) ->
  src = seg ++ next /\ split_uri seg = [seg] /\
  (next = [] /\ split_uri src = [seg] \/
   next <> [] /\ slash_length type_uri next <> 0%nat /\
   split_uri src = seg :: split_uri (drop (slash_length type_uri next) next)).
Proof.
  revert seg next. induction src as [|c src IH]; intros seg next; cbn [next_segment].
  { intros [= <- <-]. split_and!; [done|done|by left]. }
  destruct (Z.eqb_spec c SLASH) as [->|Hc].
  { cbn [orb]. intros [= <- <-]. split_and!; [done|done|right]. by split_and!. }
  cbn [orb]. destruct (is_escaped_slash type_uri (c :: src)) eqn:Ee.
  - intros [= <- <-]. split_and!; [done|done|right].
    destruct src as [|d [|e src]]; [by rewrite escaped_slash_nil in Ee by (simpl; lia)..|].
    assert (c = PERCENT) as -> by (by apply andb_true_iff in Ee as [[?%Z.eqb_eq _]%andb_true_iff _]).
    split_and!; [done|done|]. cbn [split_uri]. change (PERCENT =? SLASH) with false. cbv iota.
    change ((PERCENT =? PERCENT) && _ && _) with (is_escaped_slash type_uri (PERCENT :: d :: e :: src)).
    by rewrite Ee.
  - destruct (next_segment type_uri src) as [seg' next'] eqn:E. intros [= <- <-].
    destruct (IH seg' next' eq_refl) as (-> & Hseg & Hnext). split_and!; [done| |].
    + apply split_uri_step; [done| |done].
      destruct seg' as [|d [|e r]]; [by apply escaped_slash_nil; auto..|exact Ee].
    + destruct Hnext as [[-> Hs]|(Hne & Hsl & Hs)]; [left|right; split_and!; try done];
        (try split; try done); by apply split_uri_step.
Qed.

(** A segment contains no slash in either form. *)
Lemma split_uri_tail c s :
  split_uri (c :: s) = [c :: s] ->
  c <> SLASH /\ is_escaped_slash type_uri (c :: s) = false /\ split_uri s = [s].
Proof.
  cbn [split_uri]. destruct (Z.eqb_spec c SLASH) as [->|Hc]; [done|]. intros H.
  assert (Hadd : match split_uri s with seg :: segs => (c :: seg) :: segs | [] => [[c]] end = [c :: s] ->
            split_uri s = [s]).
  { intros H'. destruct (split_uri s) as [|seg segs] eqn:E; [by injection H' as <-|by injection H' as -> ->]. }
  destruct s as [|d [|e r]]; [split_and!; [done|by apply escaped_slash_nil; auto|by apply Hadd]..|].
  change ((c =? PERCENT) && _ && _) with (is_escaped_slash type_uri (c :: d :: e :: r)) in H.
  destruct (is_escaped_slash type_uri (c :: d :: e :: r)); [done|]. split_and!; [done|done|by apply Hadd].
Qed.

(** The two escapes that mean something to the loop over the segments. *)
Lemma hex_value_two d1 d2 k :
  svn_ctype_isxdigit d1 = true -> svn_ctype_isxdigit d2 = true -> 10 <= k < 16 -> hex_value d1 d2 = 32 + k ->
  d1 = "2"%cc /\ canonicalize_to_upper d2 = k - 10 + "A"%cc.
Proof.
  unfold hex_value. intros E1 E2 Hk H. pose proof (xdigit_upper d1 E1) as (_ & _ & R1).
  pose proof (xdigit_upper d2 E2) as (_ & _ & R2). destruct (xdigit_table d1 E1) as [H1 _].
  destruct (xdigit_table d2 E2) as [_ H2]. split; [apply H1; lia|]. rewrite H2 by lia. lia.
Qed.

Lemma upper_xdigit_not_slash d : is_upper_xdigit d = true -> d <> SLASH.
Proof. by intros H ->. Qed.

(** Normalizing a segment does not make slashes. *)
Lemma normalize_segment s : Forall is_byte s -> split_uri s = [s] -> SLASH ∉ normalize_chars s.
Proof.
  induction s as [|c s IH IH3] using three_ind; [intros _ _; apply not_elem_of_nil|].
  intros [Hb Hbs]%Forall_cons (Hc & Ee & Hs)%split_uri_tail. cbn [normalize_chars].
  rewrite (proj2 (Z.eqb_neq c SLASH) Hc). specialize (IH Hbs Hs). destruct (Z.eqb_spec c PERCENT) as [->|Hnp].
  - assert (Hbad : SLASH ∉ PERCENT :: "2"%cc :: "5"%cc :: normalize_chars s)
      by (rewrite !not_elem_of_cons; by split_and!).
    destruct s as [|d1 [|d2 r]]; [exact Hbad|exact Hbad|].
    destruct (svn_ctype_isxdigit d1 && svn_ctype_isxdigit d2) eqn:E; [|exact Hbad].
    apply andb_true_iff in E as [E1 E2]. apply Forall_cons in Hbs as [_ [_ Hbr]%Forall_cons].
    apply split_uri_tail in Hs as (_ & _ & (_ & _ & Hr)%split_uri_tail).
    specialize (IH3 d1 d2 r eq_refl Hbr Hr). destruct (valid (hex_value d1 d2)).
    + apply not_elem_of_cons. split; [|done]. intros Hv. symmetry in Hv.
      destruct (hex_value_two d1 d2 15 E1 E2 ltac:(lia) Hv) as [-> Hd2]. unfold is_escaped_slash in Ee.
      change (char_at (PERCENT :: "2"%cc :: d2 :: r) 2) with d2 in Ee. by rewrite Hd2 in Ee.
    + destruct (xdigit_upper d1 E1) as (U1 & _), (xdigit_upper d2 E2) as (U2 & _).
      rewrite !not_elem_of_cons. split_and!; [done| | |done]; intros Hv; symmetry in Hv;
        [by apply upper_xdigit_not_slash in U1|by apply upper_xdigit_not_slash in U2].
  - destruct (valid c); [by apply not_elem_of_cons; split|]. unfold percent_escape. cbn [app]. unfold is_byte in Hb.
    assert (0 <= c / 16 < 16) as R1%upper_hex_upper by dlia. assert (0 <= c mod 16 < 16) as R2%upper_hex_upper by dlia.
    rewrite !not_elem_of_cons. split_and!; [done| | |done]; intros Hv; symmetry in Hv;
      [by apply upper_xdigit_not_slash in R1|by apply upper_xdigit_not_slash in R2].
Qed.

Lemma normalize_nil s : normalize_chars s = [] -> s = [].
Proof.
  destruct s as [|c s]; [done|]. cbn [normalize_chars]. destruct (c =? SLASH); [done|].
  destruct (c =? PERCENT); [|by destruct (valid c)]. destruct s as [|d1 [|d2 r]]; [done..|].
  destruct (_ && _); [|done]. by destruct (valid _).
Qed.

(** A segment that is kept stays one after normalizing. *)
Lemma normalize_good s : uri_good s -> good (normalize_chars s).
Proof.
  unfold uri_good, noop_segment. intros H. split; [by intros ->%normalize_nil|].
  destruct s as [|c s]; [done|]. cbn [normalize_chars]. destruct (Z.eqb_spec c SLASH) as [->|Hc]; [done|].
  destruct (Z.eqb_spec c PERCENT) as [->|Hnp].
  - destruct s as [|d1 [|d2 r]]; [done..|].
    destruct (svn_ctype_isxdigit d1 && svn_ctype_isxdigit d2) eqn:E; [|done].
    apply andb_true_iff in E as [E1 E2]. destruct (valid (hex_value d1 d2)); [|done]. intros [= Hv ->%normalize_nil].
    destruct (hex_value_two d1 d2 14 E1 E2 ltac:(lia) Hv) as [-> Hd2].
    change (char_at [PERCENT; "2"%cc; d2] 2) with d2 in H. by rewrite Hd2 in H.
  - destruct (valid c); [|done]. intros [= -> ->%normalize_nil]. done.
Qed.

(** ** The loop over the segments *)

Lemma split_uri_unfold s : exists seg, split_uri seg = [seg] /\
  (s = seg /\ split_uri s = [seg] \/
   exists k, (0 < k)%nat /\ (length seg + k <= length s)%nat /\ seg = take (length seg) s /\
     split_uri s = seg :: split_uri (drop (length seg + k) s)).
Proof.
  destruct (next_segment type_uri s) as [seg next] eqn:E. apply next_segment_uri in E as (-> & Hseg & Hnext).
  exists seg. split; [done|]. destruct Hnext as [[-> Hs]|(Hne & Hsl & Hs)]; [left; by rewrite app_nil_r in *|right].
  exists (Nat.min (slash_length type_uri next) (length next)). rewrite length_app, take_app_length.
  assert (length next <> 0)%nat by (by destruct next). split_and!; [lia|lia|done|].
  rewrite Hs, <- drop_drop, drop_app_length. f_equal. f_equal.
  destruct (Nat.min_spec (slash_length type_uri next) (length next)) as [[_ ->]|[? ->]]; [done|].
  by rewrite !drop_ge by lia.
Qed.

(** Every segment is one, and made of characters of the text. *)
Lemma split_uri_segments (P : Z -> Prop) s :
  Forall P s -> Forall (fun seg => split_uri seg = [seg] /\ Forall P seg) (split_uri s).
Proof.
  remember (length s) as n eqn:Hn. revert s Hn. induction (lt_wf n) as [n _ IH]. intros s -> Hs.
  destruct (split_uri_unfold s) as (seg & Hseg & [[-> ->]|(k & Hk & Hl & Ht & ->)]); [by repeat constructor|].
  constructor.
  - split; [done|]. rewrite Ht. by apply Forall_take.
  - eapply IH; [|done|by apply Forall_drop]. rewrite length_drop. lia.
Qed.

Lemma segment_no_slash s : split_uri s = [s] -> SLASH ∉ s.
Proof.
  induction s as [|c s IH]; [intros _; apply not_elem_of_nil|]. intros (Hc & _ & Hs)%split_uri_tail.
  apply not_elem_of_cons. split; [done|by apply IH].
Qed.

(** The segments that are kept. *)
Definition kept (s : bytes) : list bytes := filter uri_good (split_uri s).

Lemma kept_nil : kept [] = [].
Proof. reflexivity. Qed.

Lemma kept_spec s :
  Forall is_byte s ->
  Forall (fun seg => uri_good seg /\ split_uri seg = [seg] /\ Forall is_byte seg) (kept s).
Proof.
  intros Hs. apply Forall_forall. intros seg [Hg Hin]%list_elem_of_filter.
  pose proof (split_uri_segments is_byte s Hs) as H. rewrite Forall_forall in H. by destruct (H seg Hin).
Qed.

Lemma uri_good_good seg : uri_good seg -> good seg.
Proof. unfold uri_good. intros H. by split; intros ->. Qed.

Lemma kept_good s : Forall is_byte s -> Forall good (kept s) /\ Forall (fun seg => SLASH ∉ seg) (kept s).
Proof.
  intros Hs%kept_spec. split; (eapply Forall_impl; [exact Hs|]); intros seg (Hg & H1 & _);
    [by apply uri_good_good|by apply segment_no_slash].
Qed.

Lemma canonicalize_segments_uri fuel src dst k :
  (length src <= fuel)%nat -> exists out,
    canonicalize_segments fuel type_uri src dst k = Some (dst ++ out, k + length (kept src))%nat /\
    (out = join_slash (kept src) \/ kept src <> [] /\ out = join_slash (kept src) ++ [SLASH]).
Proof.
  revert src dst k. induction fuel as [|f IH]; intros src dst k Hf.
  { destruct src; [|simpl in Hf; lia]. exists []. cbn. split; [|by left]. by rewrite app_nil_r, Nat.add_0_r. }
  destruct src as [|c src].
  { exists []. cbn. split; [|by left]. by rewrite app_nil_r, Nat.add_0_r. }
  set (s := c :: src) in *. cbn [canonicalize_segments]. unfold s at 1.
  destruct (next_segment type_uri s) as [seg next] eqn:E.
  pose proof (next_segment_uri s seg next E) as (Hs & Hseg & Hnext). cbn zeta.
  set (n := slash_length type_uri next) in *.
  assert (Hlen : (length (drop n next) <= f)%nat).
  { assert (length s = length seg + length next)%nat as Hl by (rewrite Hs; apply length_app).
    rewrite length_drop. destruct Hnext as [[-> _]|(Hne & Hn & _)]; [cbn [length]; lia|].
    destruct next as [|x next]; [done|]. cbn [length] in *. lia. }
  assert (Hn0 : (n =? 0)%nat = bool_decide (next = [])).
  { destruct Hnext as [[Hx _]|(Hne & Hn & _)].
    - unfold n. by rewrite Hx.
    - rewrite bool_decide_false by done. by apply Nat.eqb_neq. }
  assert (Hkept : kept s = (if decide (uri_good seg) then [seg] else []) ++
            match next with [] => [] | _ => kept (drop n next) end).
  { unfold kept. destruct Hnext as [[-> ->]|(Hne & _ & ->)].
    - rewrite filter_cons. by case_decide.
    - rewrite filter_cons. destruct next; [done|]. by case_decide. }
  rewrite Hkept, Hn0. destruct (decide (uri_good seg)) as [Hg|Hg].
  - rewrite (Hg : noop_segment type_uri seg = false).
    destruct (IH (drop n next) (dst ++ seg ++ (if bool_decide (next = []) then [] else [SLASH])) (S k) Hlen)
      as (out & -> & Hout).
    exists (seg ++ (if bool_decide (next = []) then [] else [SLASH]) ++ out).
    rewrite <- !app_assoc. destruct next as [|x next].
    + rewrite drop_nil, kept_nil in *. cbn [join_slash length app] in *. destruct Hout as [->|[? _]]; [|done].
      rewrite !app_nil_r. split; [do 2 f_equal; lia|by left].
    + rewrite bool_decide_eq_false_2 by done. cbn [app length]. rewrite join_slash_cons.
      split; [do 2 f_equal; lia|].
      destruct (kept (drop n (x :: next))) as [|g gs].
      * destruct Hout as [->|[? _]]; [|done]. right. split; [done|]. by rewrite app_nil_r.
      * destruct Hout as [->|[_ ->]]; [by left|right; split; [done|]]. by rewrite <- !app_assoc.
  - assert (noop_segment type_uri seg = true) as -> by (by destruct (noop_segment type_uri seg) eqn:En).
    destruct (IH (drop n next) dst k Hlen) as (out & -> & Hout). exists out. cbn [app].
    destruct next; [|done]. rewrite drop_nil, kept_nil in *. by split.
Qed.

(** The text of a path in front of which nothing else is needed. *)
Definition path_text (segs : list bytes) : bytes :=
  match segs with [] => [] | _ => SLASH :: join_slash segs end.

(** What becomes of the part behind the host. *)
Lemma canonicalize_path_part pre path :
  Forall is_byte path ->
  exists dst n, canonicalize_segments (length path) type_uri path (pre ++ [SLASH]) 1 = Some (dst, S n) /\
    check_characters (remove_trailing_slash dst) (S (length pre)) =
    Ok (pre ++ path_text (map normalize_chars (kept path))).
Proof.
  intros Hp. destruct (canonicalize_segments_uri (length path) path (pre ++ [SLASH]) 1) as (out & -> & Hout); [done|].
  eexists _, _. split; [reflexivity|]. destruct (kept_good path Hp) as [Hg Hn]. rewrite check_characters_spec.
  destruct (decide (kept path = [])) as [E|E].
  - rewrite E in *. destruct Hout as [->|[? _]]; [|done]. cbn [join_slash map path_text].
    rewrite !app_nil_r. unfold remove_trailing_slash. rewrite last_snoc, bool_decide_true, take_init by done.
    rewrite take_ge, drop_ge by lia. cbn [normalize_chars]. by rewrite app_nil_r.
  - rewrite (remove_trailing_slash_spec _ (kept path)) by done.
    assert (length (pre ++ [SLASH]) = S (length pre)) as Hl by (rewrite length_app; simpl; lia).
    rewrite <- Hl, take_app_length, drop_app_length, normalize_join, <- app_assoc.
    destruct (kept path); [done|]. done.
Qed.

(** ** The parts of a URI *)

Record uri_parts := mk_parts {
  u_scheme : bytes;
  u_user : option bytes;
  u_host : bytes;
  u_port : option bytes;
  u_path : option bytes
}.

Definition user_text (user : option bytes) : bytes := match user with Some u => u ++ [AT] | None => [] end.
Definition port_text (port : option bytes) : bytes := match port with Some t => COLON :: t | None => [] end.
Definition tail_text (path : option bytes) : bytes := match path with Some r => SLASH :: r | None => [] end.

Definition uri_of (p : uri_parts) : bytes :=
  u_scheme p ++ [COLON; SLASH; SLASH] ++ user_text (u_user p) ++ u_host p ++ port_text (u_port p) ++
  tail_text (u_path p).

Notation lower := (map canonicalize_to_lower).

(** The port that need not be written. *)
Definition default_port (scheme : bytes) : option bytes :=
  if decide (scheme = cstr "http") then Some (cstr "80")
  else if decide (scheme = cstr "https") then Some (cstr "443")
  else if decide (scheme = cstr "svn") then Some (cstr "3690")
  else None.

(** The canonical form: lower case, no default port, and of the path what is
    not empty or a dot, with the escapes it needs. *)
Definition canon_port (scheme : bytes) (t : bytes) : option bytes :=
  if decide (t = [] \/ default_port scheme = Some t) then None else Some t.

Definition canon_path (r : bytes) : option bytes :=
  match map normalize_chars (kept r) with [] => None | segs => Some (join_slash segs) end.

Definition canon_parts (p : uri_parts) : uri_parts :=
  mk_parts (lower (u_scheme p)) (u_user p) (lower (u_host p)) (u_port p ≫= canon_port (lower (u_scheme p)))
    (u_path p ≫= canon_path).

(** A name, or a numeric address in brackets. *)
Definition host_ok (host : bytes) : Prop :=
  Forall (fun c => 0 < c < 256 /\ c <> SLASH /\ c <> COLON /\ c <> AT) host /\ deref host <> "["%cc \/
  exists digits, host = "["%cc :: digits ++ ["]"%cc] /\ Forall (fun c => is_hex_or_colon c = true) digits.

(** A decimal number that fits, and is not the default port unless it is
    written like that; it needs a host. *)
Definition port_ok (scheme host t : bytes) : Prop :=
  host <> [] /\ Forall (fun c => is_decimal c = true) t /\ is_Some (match port_number t 0 with Ok n => Some n | Err _ => None end) /\
  forall d, default_port (lower scheme) = Some d -> t = d \/ port_number t 0 <> port_number d 0.

Record wf_parts (p : uri_parts) : Prop := {
  wf_scheme : u_scheme p <> [] /\ Forall (fun c => 0 < c < 256 /\ is_neither SLASH COLON c = true) (u_scheme p);
  wf_user : forall u, u_user p = Some u -> Forall (fun c => 0 < c < 256 /\ is_neither SLASH AT c = true) u;
  wf_host : host_ok (u_host p);
  wf_port : forall t, u_port p = Some t -> port_ok (u_scheme p) (u_host p) t;
  wf_path : forall r, u_path p = Some r -> c_string r
}.

Lemma span_exact test a p :
  Forall (fun c => test c = true) a -> match p with [] => True | c :: _ => test c = false end ->
  span test (a ++ p) = (a, p).
Proof.
  intros Ha Hp. induction Ha as [|c a Hc _ IH]; cbn [app span].
  - destruct p as [|c p]; cbn [span]; [done|]. by rewrite Hp.
  - by rewrite Hc, IH.
Qed.

Lemma is_neither_iff a b c : is_neither a b c = true <-> c <> a /\ c <> b.
Proof. unfold is_neither. rewrite andb_true_iff, !negb_true_iff, !Z.eqb_neq. done. Qed.

(** What follows a host: the end, a port or the path. *)
Definition after_host (rest : bytes) : Prop := match rest with [] => True | c :: _ => c = SLASH \/ c = COLON end.

Definition at_path (rest : bytes) : Prop := match rest with [] => True | c :: _ => c = SLASH end.

Lemma tail_text_path path : at_path (tail_text path).
Proof. by destruct path. Qed.

Lemma after_host_text port path : after_host (port_text port ++ tail_text path).
Proof. destruct port; [by right|]. destruct path; [by left|done]. Qed.

(** *** Copying the parts *)

Lemma copy_host_spec dst host rest :
  host_ok host -> after_host rest -> copy_host dst (host ++ rest) = (dst ++ lower host, rest).
Proof.
  intros [[Hh Hd]|(digits & -> & Hd)] Hr; unfold copy_host.
  - assert (deref (host ++ rest) =? "["%cc = false) as ->.
    { apply Z.eqb_neq. destruct host; [|done]. destruct rest as [|c rest]; [done|]. by destruct Hr as [-> | ->]. }
    rewrite span_exact; [done| |].
    + eapply Forall_impl; [exact Hh|]. intros c (_ & ? & ? & _). by apply is_neither_iff.
    + destruct rest as [|c rest]; [done|]. by destruct Hr as [-> | ->].
  - change (deref (("["%cc :: digits ++ ["]"%cc]) ++ rest) =? "["%cc) with true. cbv iota.
    cbn [tail app]. rewrite <- app_assoc, span_exact by done.
    change (deref (["]"%cc] ++ rest) =? "]"%cc) with true. cbn [tail app map].
    change (canonicalize_to_lower "["%cc) with "["%cc. rewrite map_app, <- !app_assoc. done.
Qed.

Lemma prefix_iff s text : starts_with s text = true <-> exists rest, s = text ++ rest.
Proof.
  revert s. induction text as [|c text IH]; intros [|d s]; cbn [starts_with app].
  1,2: by split; eauto.
  - split; [done|by intros (? & ?)].
  - rewrite andb_true_iff, Z.eqb_eq, IH. split; [intros (-> & r & ->); eauto|intros (r & [= -> ->]); eauto].
Qed.

Lemma is_port_iff t q text :
  Forall (fun c => is_decimal c = true) t -> Forall (fun c => is_decimal c = true) text -> at_path q ->
  is_port (COLON :: t ++ q) text = bool_decide (t = text).
Proof.
  intros Ht Htext Hq. unfold is_port. cbn [tail].
  change (char_at (COLON :: t ++ q) (S (length text))) with (char_at (t ++ q) (length text)).
  assert (Hdec : forall c, is_decimal c = true -> c <> SLASH /\ c <> 0) by (intros c H; by split; intros ->).
  destruct (bool_decide_reflect (t = text)) as [->|Hne].
  - rewrite (proj2 (prefix_iff _ _)) by eauto. unfold char_at. rewrite lookup_app_r, Nat.sub_diag by lia.
    destruct q as [|c q]; [done|]. by rewrite Hq.
  - apply not_true_iff_false. intros [Hs Hc]%andb_true_iff. apply prefix_iff in Hs as [r Hs].
    destruct (Nat.lt_total (length text) (length t)) as [Hl|[Hl|Hl]].
    + unfold char_at in Hc. rewrite lookup_app_l in Hc by done.
      destruct (lookup_lt_is_Some_2 t (length text) Hl) as [c Hct]. rewrite Hct in Hc. cbn [default] in Hc.
      rewrite Forall_forall in Ht. destruct (Hdec c) as [H1 H2]; [by apply Ht; apply list_elem_of_lookup_2 in Hct|].
      apply orb_true_iff in Hc as [Hc|Hc]; by apply Z.eqb_eq in Hc.
    + by apply Hne; apply app_inj_1 in Hs as [? _].
    + destruct (lookup_lt_is_Some_2 text (length t) Hl) as [c Hct].
      assert ((t ++ q) !! length t = Some c) as Hq' by (rewrite Hs, lookup_app_l by done; done).
      rewrite lookup_app_r, Nat.sub_diag in Hq' by lia. destruct q as [|c' q]; [done|]. injection Hq' as ->.
      rewrite Forall_forall in Htext. destruct (Hdec c) as [H1 _]; [|done].
      by apply Htext; apply list_elem_of_lookup_2 in Hct.
Qed.

Lemma starts_with_scheme scheme word rest :
  COLON ∉ scheme -> COLON ∉ word ->
  starts_with (scheme ++ COLON :: rest) (word ++ [COLON]) = bool_decide (scheme = word).
Proof.
  revert word. induction scheme as [|c scheme IH]; intros [|d word] Hs Hw; cbn [app starts_with].
  - rewrite Z.eqb_refl. by destruct rest.
  - rewrite (proj2 (Z.eqb_neq d COLON)); [done|]. intros ->. apply Hw. left.
  - rewrite (proj2 (Z.eqb_neq COLON c)); [done|]. intros <-. apply Hs. left.
  - apply not_elem_of_cons in Hs as [Hc Hs], Hw as [Hd Hw]. rewrite IH by done.
    rewrite Z.eqb_sym. destruct (Z.eqb_spec c d) as [->|Hne]; cbn [andb].
    + apply bool_decide_ext. split; [by intros ->|by intros [= ->]].
    + symmetry. apply bool_decide_eq_false. by intros [= -> ->].
Qed.

Lemma lower_decimal t : Forall (fun c => is_decimal c = true) t -> lower t = t.
Proof.
  induction 1 as [|c t Hc _ IH]; [done|]. cbn [map]. rewrite IH. f_equal.
  unfold is_decimal, canonicalize_to_lower in *. reflect_bools. by rewrite (proj2 (Z.ltb_lt _ _)) by lia.
Qed.

Lemma copy_port_spec scheme dst0 port q :
  COLON ∉ scheme -> at_path q -> (forall t, port = Some t -> Forall (fun c => is_decimal c = true) t) ->
  copy_port (scheme ++ COLON :: dst0) (port_text port ++ q) =
  ((scheme ++ COLON :: dst0) ++ port_text (port ≫= canon_port scheme), q).
Proof.
  intros Hs Hq Ht. unfold copy_port. set (dst := scheme ++ COLON :: dst0).
  assert (Hspan : span (fun c => negb (c =? SLASH)) q = ([], q)) by (destruct q as [|c q]; [done|by rewrite Hq]).
  destruct port as [t|]; cbn [port_text mbind option_bind app].
  2: { rewrite app_nil_r. destruct q as [|c q]; [done|]. by cbn in Hq; subst c. }
  specialize (Ht t eq_refl). change (deref (COLON :: t ++ q) =? COLON) with true. cbv iota.
  rewrite !is_port_iff by (done || by_evaluation). unfold dst at 1 2 3.
  change (cstr "http:") with (cstr "http" ++ [COLON]). change (cstr "https:") with (cstr "https" ++ [COLON]).
  change (cstr "svn:") with (cstr "svn" ++ [COLON]). rewrite !starts_with_scheme by (done || by_evaluation).
  unfold canon_port.
  assert (Hkeep : (let '(port, src) := span (fun c => negb (c =? SLASH)) (COLON :: t ++ q) in (dst ++ lower port, src))
            = (dst ++ COLON :: t, q)).
  { change (COLON :: t ++ q) with ((COLON :: t) ++ q). rewrite span_exact.
    - f_equal. f_equal. cbn [map]. by rewrite lower_decimal.
    - constructor; [done|]. eapply Forall_impl; [exact Ht|]. intros c Hc. apply negb_true_iff, Z.eqb_neq. by intros ->.
    - destruct q; [done|]. by rewrite Hq. }
  assert (Hdrop : forall k, k = S (length t) -> (let '(port, src) := span (fun c => negb (c =? SLASH)) (drop k (COLON :: t ++ q)) in
            (dst ++ lower port, src)) = (dst, q)).
  { intros k ->. cbn [drop]. rewrite drop_app_length, Hspan. cbn [map]. by rewrite app_nil_r. }
  destruct (decide (t = [])) as [->|Hne].
  { rewrite decide_True by (by left). cbn [port_text]. rewrite app_nil_r. by rewrite <- (Hdrop 1%nat eq_refl). }
  rewrite (bool_decide_false (t = []) Hne).
  destruct (decide (t = [] \/ _)) as [[?|Hd]|Hn]; [done| |].
  - cbn [port_text mbind option_bind]. rewrite app_nil_r. unfold default_port in Hd.
    repeat case_decide; simplify_eq; first [exact (Hdrop 3%nat eq_refl)|exact (Hdrop 4%nat eq_refl)|exact (Hdrop 5%nat eq_refl)].
  - assert (Hoff : forall x y, default_port y = Some x -> bool_decide (t = x) && bool_decide (scheme = y) = false).
    { intros x y Hxy. apply not_true_iff_false. rewrite andb_true_iff, !bool_decide_eq_true. intros [-> ->].
      apply Hn. by right. }
    rewrite !Hoff by done. exact Hkeep.
Qed.

(** What stands in front of the path. *)
Definition authority (scheme : bytes) (user : option bytes) (host : bytes) (port : option bytes) : bytes :=
  scheme ++ COLON :: [SLASH; SLASH] ++ user_text user ++ host ++ port_text port.

Lemma uri_of_authority p :
  uri_of p = authority (u_scheme p) (u_user p) (u_host p) (u_port p) ++ tail_text (u_path p).
Proof. unfold uri_of, authority. rewrite <- !app_assoc. cbn [app]. by rewrite <- !app_assoc. Qed.

Lemma host_no_at host : host_ok host -> Forall (fun c => is_neither SLASH AT c = true) host.
Proof.
  intros [[Hh _]|(digits & -> & Hd)].
  - eapply Forall_impl; [exact Hh|]. intros c (_ & ? & _ & ?). by apply is_neither_iff.
  - constructor; [done|]. apply Forall_app. split; [|by repeat constructor].
    eapply Forall_impl; [exact Hd|]. intros c Hc. apply is_neither_iff. by split; intros ->.
Qed.

Lemma decimal_no_at t :
  Forall (fun c => is_decimal c = true) t -> Forall (fun c => is_neither SLASH AT c = true) (COLON :: t).
Proof.
  intros Ht. constructor; [done|]. eapply Forall_impl; [exact Ht|]. intros c Hc. apply is_neither_iff.
  by split; intros ->.
Qed.

(** With the user or without, the same text is left for the host. *)
Lemma user_part user host port path :
  (forall u, user = Some u -> Forall (fun c => 0 < c < 256 /\ is_neither SLASH AT c = true) u) ->
  host_ok host -> (forall t, port = Some t -> Forall (fun c => is_decimal c = true) t) ->
  let rest := host ++ port_text port ++ tail_text path in
  let '(before, at_) := span (is_neither SLASH AT) (user_text user ++ rest) in
  if deref at_ =? AT then before ++ [AT] = user_text user /\ tail at_ = rest
  else user_text user = [].
Proof.
  intros Hu Hh Hp rest. destruct user as [u|]; cbn [user_text].
  - rewrite <- app_assoc, span_exact; [done| |done]. eapply Forall_impl; [exact (Hu u eq_refl)|]. by intros c [_ ?].
  - cbn [app]. unfold rest. rewrite app_assoc. rewrite span_exact.
    + by destruct path.
    + apply Forall_app. split; [by apply host_no_at|]. destruct port as [t|]; [|done]. by apply decimal_no_at, Hp.
    + by destruct path.
Qed.

Lemma span_scheme scheme rest :
  Forall (fun c => 0 < c < 256 /\ is_neither SLASH COLON c = true) scheme ->
  span (is_neither SLASH COLON) (scheme ++ COLON :: rest) = (scheme, COLON :: rest) /\
  span (fun c => negb (c =? COLON)) (scheme ++ COLON :: rest) = (scheme, COLON :: rest) /\ COLON ∉ scheme.
Proof.
  intros Hs. split_and!.
  - rewrite span_exact; [done| |done]. eapply Forall_impl; [exact Hs|]. by intros c [_ ?].
  - rewrite span_exact; [done| |done]. eapply Forall_impl; [exact Hs|]. intros c [_ [_ Hc]%is_neither_iff].
    by apply negb_true_iff, Z.eqb_neq.
  - rewrite Forall_forall in Hs. intros Hin. by apply Hs in Hin as [_ ?].
Qed.

Lemma lower_not c d : canonicalize_to_lower c = d -> ("a"%cc <=? d) && (d <=? "z"%cc) = false -> c = d.
Proof.
  unfold canonicalize_to_lower. intros H Hd. apply andb_false_iff in Hd.
  destruct (Z.ltb_spec c "A"%cc); [done|]. destruct (Z.ltb_spec "Z"%cc c); [done|]. cbn [orb] in H.
  exfalso. destruct Hd as [Hd|Hd]; reflect_bools; lia.
Qed.

Lemma lower_scheme scheme :
  Forall (fun c => 0 < c < 256 /\ is_neither SLASH COLON c = true) scheme ->
  Forall (fun c => 0 < c < 256 /\ is_neither SLASH COLON c = true) (lower scheme).
Proof.
  intros Hs. apply Forall_fmap. eapply Forall_impl; [exact Hs|]. intros c [Hr [H1 H2]%is_neither_iff].
  unfold compose. split.
  - unfold canonicalize_to_lower. destruct (Z.ltb_spec c "A"%cc); [done|].
    destruct (Z.ltb_spec "Z"%cc c); [done|]. cbn [orb]. lia.
  - apply is_neither_iff. split; intros Hc; [apply H1|apply H2]; by apply (lower_not _ _ Hc).
Qed.

Lemma copy_authority_spec p :
  wf_parts p ->
  copy_authority (uri_of p) =
  let auth := authority (lower (u_scheme p)) (u_user p) (lower (u_host p)) (u_port p ≫= canon_port (lower (u_scheme p))) in
  match u_path p with
  | None => (auth, [], S (S (S (length (u_scheme p)))), None)
  | Some r => (auth ++ [SLASH], r, S (S (S (length (u_scheme p)))), Some (S (length auth)))
  end.
Proof.
  intros [[_ Hs] Hu Hh Hp _]. assert (Hdec : forall t, u_port p = Some t -> Forall (fun c => is_decimal c = true) t)
    by (intros t Ht; by destruct (Hp t Ht) as (_ & ? & _)).
  unfold copy_authority, uri_of. cbn [app]. destruct (span_scheme (u_scheme p) (SLASH :: SLASH :: user_text (u_user p) ++
    u_host p ++ port_text (u_port p) ++ tail_text (u_path p)) Hs) as (_ & -> & _).
  cbn [drop]. rewrite drop_0. pose proof (user_part _ _ _ (u_path p) Hu Hh Hdec) as Huser. cbv zeta in Huser.
  destruct (span_scheme _ [] (lower_scheme _ Hs)) as (_ & _ & Hcolon).
  destruct (span (is_neither SLASH AT) _) as [before at_]. 
  assert (Hrest : (if deref at_ =? AT
            then ((lower (u_scheme p) ++ [COLON; SLASH; SLASH]) ++ before ++ [AT], tail at_)
            else (lower (u_scheme p) ++ [COLON; SLASH; SLASH],
                  user_text (u_user p) ++ u_host p ++ port_text (u_port p) ++ tail_text (u_path p)))
            = ((lower (u_scheme p) ++ [COLON; SLASH; SLASH]) ++ user_text (u_user p),
               u_host p ++ port_text (u_port p) ++ tail_text (u_path p))).
  { destruct (deref at_ =? AT); [by destruct Huser as [-> ->]|]. rewrite Huser. by rewrite app_nil_r. }
  rewrite Hrest, copy_host_spec by (done || apply after_host_text).
  rewrite <- !app_assoc. cbn [app]. rewrite copy_port_spec by (done || apply tail_text_path).
  unfold authority. destruct (u_path p); cbn [tail_text]; by repeat (progress (rewrite <- ?app_assoc; cbn [app])).
Qed.

(** The end of what stands in front of the path is no slash, if something
    stands behind the scheme. *)
Lemma authority_last p :
  wf_parts p -> (u_user p, u_host p) <> (None, []) ->
  last (authority (lower (u_scheme p)) (u_user p) (lower (u_host p)) (u_port p ≫= canon_port (lower (u_scheme p))))
  <> Some SLASH.
Proof.
  intros [_ Hu Hh Hp _] Hne. unfold authority.
  assert (Hcons : forall a (c : Z) b, b <> [] -> last (a ++ c :: [SLASH; SLASH] ++ b) = last b).
  { intros a c b Hb. change (c :: [SLASH; SLASH] ++ b) with ([c; SLASH; SLASH] ++ b). rewrite app_assoc.
    by apply last_app_ne. }
  destruct (u_port p ≫= canon_port (lower (u_scheme p))) as [t|] eqn:Et; cbn [port_text].
  - rewrite Hcons by (by destruct (user_text (u_user p)), (lower (u_host p))). rewrite app_assoc, last_app_ne by done.
    destruct (u_port p) as [t0|]; [|done]. cbn [mbind option_bind] in Et. unfold canon_port in Et.
    case_decide as Hd; [done|]. injection Et as <-.
    destruct (Hp t0 eq_refl) as (_ & Ht & _). assert (t0 <> []) as Ht0 by (intros ->; apply Hd; by left).
    change (COLON :: t0) with ([COLON] ++ t0). rewrite last_app_ne by done. intros Hl.
    rewrite Forall_forall in Ht. apply last_Some_elem_of in Hl. by apply Ht in Hl.
  - rewrite app_nil_r. destruct (decide (u_host p = [])) as [E|E].
    + rewrite E. cbn [map]. rewrite app_nil_r. destruct (u_user p) as [u|]; [|by rewrite E in Hne].
      cbn [user_text]. rewrite Hcons by (by destruct u). by rewrite last_snoc.
    + assert (lower (u_host p) <> []) as El by (by destruct (u_host p)).
      rewrite Hcons by (by destruct (user_text (u_user p))). rewrite last_app_ne by done.
      intros Hl. apply last_Some_elem_of, list_elem_of_fmap in Hl as (c & Hc & Hin).
      apply host_no_at in Hh. rewrite Forall_forall in Hh. apply Hh, is_neither_iff in Hin as [Hin _].
      apply Hin. symmetry in Hc. by apply (lower_not _ _ Hc).
Qed.

Lemma tail_text_canon r : tail_text (canon_path r) = path_text (map normalize_chars (kept r)).
Proof. unfold canon_path. by destruct (map normalize_chars (kept r)). Qed.

Lemma path_bytes s : c_string s -> Forall is_byte s.
Proof. intros H. eapply Forall_impl; [exact H|]. cbv beta. unfold is_byte. lia. Qed.

(** *** The canonical form *)

Lemma canonicalize_uri_parts p : wf_parts p -> canonicalize_uri (uri_of p) = Ok (uri_of (canon_parts p)).
Proof.
  intros Hp. pose proof (copy_authority_spec p Hp) as Hcopy. cbv zeta in Hcopy. unfold canonicalize_uri.
  pose proof (wf_scheme p Hp) as [Hne Hs].
  assert (Hstart : SVN_PATH_IS_EMPTY (uri_of p) = false /\ deref (uri_of p) =? SLASH = false).
  { unfold uri_of. destruct (u_scheme p) as [|c scheme]; [done|].
    apply Forall_cons in Hs as [[Hc [Hc' _]%is_neither_iff] _]. split; [|by apply Z.eqb_neq].
    unfold SVN_PATH_IS_EMPTY. cbn. apply Z.eqb_neq. lia. }
  destruct Hstart as [-> ->].
  destruct (span_scheme (u_scheme p) ([SLASH; SLASH] ++ user_text (u_user p) ++
    u_host p ++ port_text (u_port p) ++ tail_text (u_path p)) Hs) as (Hspan & _ & _).
  change (span (is_neither SLASH COLON) (uri_of p)) with (span (is_neither SLASH COLON) (u_scheme p ++ COLON ::
    [SLASH; SLASH] ++ user_text (u_user p) ++ u_host p ++ port_text (u_port p) ++ tail_text (u_path p))).
  rewrite Hspan. cbn [snd]. set (auth := authority _ _ _ _) in Hcopy.
  assert (starts_with (COLON :: [SLASH; SLASH] ++ user_text (u_user p) ++ u_host p ++ port_text (u_port p) ++
            tail_text (u_path p)) [COLON; SLASH; SLASH] = true) as -> by (apply prefix_iff; eexists; reflexivity).
  rewrite Hcopy, (uri_of_authority (canon_parts p)). unfold canon_parts. cbn [u_scheme u_user u_host u_port u_path].
  fold auth. 
  assert (Hat : char_at (uri_of p) (S (S (S (length (u_scheme p))))) =? 0 =
            (deref (user_text (u_user p) ++ u_host p ++ port_text (u_port p) ++ tail_text (u_path p)) =? 0)).
  { unfold char_at, uri_of. rewrite lookup_app_r by lia. replace (_ - _)%nat with 3%nat by lia. cbn.
    unfold deref. by destruct (user_text (u_user p) ++ _). }
  assert (Hbehind : deref (user_text (u_user p) ++ u_host p ++ port_text (u_port p) ++ tail_text (u_path p)) =? 0 =
            bool_decide ((u_user p, u_host p, u_path p) = (None, [], None))).
  { destruct Hp as [_ Hu Hh Hport _]. destruct (u_user p) as [u|].
    { rewrite bool_decide_false by done. cbn [user_text]. destruct u as [|c u]; [done|]. apply Z.eqb_neq.
      specialize (Hu _ eq_refl). apply Forall_cons in Hu as [[Hu _] _]. cbn. lia. }
    cbn [user_text app]. destruct (u_host p) as [|c host] eqn:Eh.
    - destruct (u_port p) as [t|]; [by destruct (Hport t eq_refl)|]. by destruct (u_path p).
    - rewrite bool_decide_false by done. apply Z.eqb_neq. destruct Hh as [[Hh _]|(digits & [= -> _] & _)]; [|done].
      apply Forall_cons in Hh as [[Hh _] _]. cbn. lia. }
  rewrite Hbehind in Hat. destruct (u_path p) as [r|] eqn:Er; cbn [tail_text mbind option_bind].
  - destruct (canonicalize_path_part auth r) as (dst & n & -> & Hdst).
    { by apply path_bytes, (wf_path p Hp). }
    rewrite Hat, tail_text_canon, bool_decide_false by done. exact Hdst.
  - rewrite app_nil_r. cbn [length canonicalize_segments]. rewrite Hat.
    destruct (decide ((u_user p, u_host p) = (None, []))) as [E|E].
    + rewrite bool_decide_true by (by injection E as -> ->). done.
    + rewrite bool_decide_false by (by intros [= ? ?]; apply E; congruence). cbn.
      unfold remove_trailing_slash. rewrite bool_decide_false; [done|]. by apply authority_last.
Qed.

(** ** Canonical parts *)

Lemma uri_text_app s t : uri_text s -> uri_text t -> uri_text (s ++ t).
Proof. intros Hs Ht. induction Hs; [done|..]; cbn [app]; by constructor. Qed.

Lemma uri_text_join segs : Forall uri_text segs -> uri_text (join_slash segs).
Proof.
  induction 1 as [|s segs Hs Hall IH]; [constructor|]. rewrite join_slash_cons. apply uri_text_app; [done|].
  destruct segs; [constructor|]. by constructor.
Qed.

Lemma valid_range c : valid c = true -> 0 <= c -> 0 < c < 256.
Proof.
  intros Hv Hc. destruct (decide (c = 0)) as [->|H0]; [done|]. split; [lia|].
  destruct (Z.lt_ge_cases c 256) as [|H]; [done|]. exfalso. unfold in_table in Hv.
  rewrite lookup_ge_None_2 in Hv; [done|]. change (length svn_uri__char_validity) with 256%nat. lia.
Qed.

Lemma upper_xdigit_range d : is_upper_xdigit d = true -> 0 < d < 256.
Proof.
  unfold is_upper_xdigit, is_decimal. intros [H|H]%orb_true_iff; reflect_bools; lia.
Qed.

Lemma uri_text_string t : uri_text t -> c_string t.
Proof.
  induction 1 as [|c t Hv Hc H IH|d1 d2 t H1 H2 Hv H IH]; [constructor| |].
  - constructor; [by apply valid_range|done].
  - constructor; [done|]. constructor; [by apply upper_xdigit_range|]. by constructor; [apply upper_xdigit_range|].
Qed.

(** No escape of a canonical text is that of a slash or of a dot. *)
Lemma upper_escape d1 d2 e k :
  is_upper_xdigit d1 = true -> is_upper_xdigit d2 = true -> valid (hex_value d1 d2) = false ->
  hex_value "2"%cc e = k -> valid k = true -> canonicalize_to_upper e = e ->
  (d1 =? "2"%cc) && (canonicalize_to_upper d2 =? e) = false.
Proof.
  intros H1 H2 Hv Hk Hvk He. apply not_true_iff_false. intros [->%Z.eqb_eq H]%andb_true_iff.
  apply Z.eqb_eq in H. destruct (upper_xdigit_spec d2 H2) as [_ Hd]. rewrite Hd in H. subst e.
  by rewrite Hk, Hvk in Hv.
Qed.

Lemma split_uri_text t : uri_text t -> split_uri t = split_slash t.
Proof.
  induction 1 as [|c t Hv Hc H IH|d1 d2 t H1 H2 Hv H IH]; [done| |].
  - destruct (split_slash_cons t) as (seg & segs & E). rewrite E in IH. cbn [split_slash].
    destruct (Z.eqb_spec c SLASH) as [->|Hs]; [cbn [split_uri]; by rewrite Z.eqb_refl, E, IH|].
    rewrite E. apply split_uri_step; [done| |done]. unfold is_escaped_slash.
    change (char_at (c :: t) 0) with c. by rewrite (proj2 (Z.eqb_neq c "%"%cc)) by (by apply valid_not_percent).
  - assert (Hs : forall d, is_upper_xdigit d = true -> d <> SLASH) by (intros d Hd ->; done).
    assert (Hp : forall d, is_upper_xdigit d = true -> d =? PERCENT = false) by (intros d Hd; apply Z.eqb_neq; by intros ->).
    destruct (split_slash_cons t) as (seg & segs & E). rewrite E in IH.
    assert (E1 : split_slash (PERCENT :: d1 :: d2 :: t) = (PERCENT :: d1 :: d2 :: seg) :: segs).
    { cbn [split_slash]. rewrite E. rewrite (proj2 (Z.eqb_neq d1 SLASH)), (proj2 (Z.eqb_neq d2 SLASH)) by auto. done. }
    rewrite E1. apply split_uri_step; [done| |].
    + unfold is_escaped_slash. change (char_at _ 0) with "%"%cc. change (char_at _ 1) with d1.
      change (char_at _ 2) with d2. rewrite Z.eqb_refl. cbn [andb]. by apply (upper_escape d1 d2 "F"%cc SLASH).
    + assert (Hno : forall d u, is_upper_xdigit d = true -> is_escaped_slash type_uri (d :: u) = false).
      { intros d u Hd. unfold is_escaped_slash. change (char_at (d :: u) 0) with d. by rewrite (Hp d Hd : d =? "%"%cc = false). }
      apply split_uri_step; [by auto|by apply Hno|]. apply split_uri_step; [by auto|by apply Hno|done].
Qed.

Lemma uri_text_good s : uri_text s -> good s -> uri_good s.
Proof.
  intros Hs [Hne Hd]. unfold uri_good, noop_segment.
  destruct s as [|c s]; [done|]. cbn [length Nat.eqb orb].
  assert ((length s =? 0)%nat && (char_at (c :: s) 0 =? DOT) = false) as ->.
  { apply not_true_iff_false. intros [H1%Nat.eqb_eq H2%Z.eqb_eq]%andb_true_iff. destruct s; [|done].
    apply Hd. by f_equal. }
  cbn [orb]. inversion Hs as [|c' t Hv Hc H|d1 d2 t H1 H2 Hv H]; subst.
  - change (char_at (c :: s) 0) with c. rewrite (proj2 (Z.eqb_neq c "%"%cc)) by (by apply valid_not_percent).
    by rewrite andb_false_r.
  - change (char_at _ 0) with "%"%cc. change (char_at _ 1) with d1. change (char_at _ 2) with d2.
    rewrite <- andb_assoc. rewrite (upper_escape d1 d2 "E"%cc DOT) by done. by rewrite andb_false_r.
Qed.

(** The segments of a canonical path. *)
Definition canonical_segment (s : bytes) : Prop := good s /\ SLASH ∉ s /\ uri_text s.

Record canonical_parts (p : uri_parts) : Prop := {
  cp_wf : wf_parts p;
  cp_scheme : lower (u_scheme p) = u_scheme p;
  cp_host : lower (u_host p) = u_host p;
  cp_port : forall t, u_port p = Some t -> t <> [] /\ default_port (u_scheme p) <> Some t;
  cp_path : forall r, u_path p = Some r ->
    exists segs, r = join_slash segs /\ segs <> [] /\ Forall canonical_segment segs
}.

Lemma kept_canonical segs :
  segs <> [] -> Forall canonical_segment segs ->
  kept (join_slash segs) = segs /\ map normalize_chars segs = segs.
Proof.
  intros Hne Hs. unfold kept. rewrite split_uri_text.
  2: { apply uri_text_join. eapply Forall_impl; [exact Hs|]. by intros s (_ & _ & ?). }
  rewrite split_join by (done || (eapply Forall_impl; [exact Hs|]; by intros s (_ & ? & _))). split.
  - clear Hne. induction Hs as [|s segs (? & _ & Hs) _ IH]; [done|].
    by rewrite filter_cons_True, IH by (by apply uri_text_good).
  - clear Hne. induction Hs as [|s segs (_ & _ & Hs) _ IH]; [done|]. cbn [map]. by rewrite normalize_fixed, IH.
Qed.

(** A canonical form stays as it is. *)
Lemma canon_parts_fixed p : canonical_parts p -> canon_parts p = p.
Proof.
  intros [_ Hs Hh Hp Hr]. destruct p as [scheme user host port path]. unfold canon_parts.
  cbn [u_scheme u_user u_host u_port u_path] in *. rewrite Hs, Hh. f_equal.
  - destruct port as [t|]; [|done]. cbn [mbind option_bind]. unfold canon_port. destruct (Hp t eq_refl).
    by rewrite decide_False by (by intros [?|?]).
  - destruct path as [r|]; [|done]. cbn [mbind option_bind]. destruct (Hr r eq_refl) as (segs & -> & Hne & Hsegs).
    unfold canon_path. destruct (kept_canonical segs Hne Hsegs) as [-> ->]. by destruct segs.
Qed.

Lemma lower_char c : canonicalize_to_lower (canonicalize_to_lower c) = canonicalize_to_lower c /\
  is_upper (canonicalize_to_lower c) = false.
Proof.
  assert (H : (canonicalize_to_lower c <? "A"%cc) || ("Z"%cc <? canonicalize_to_lower c) = true).
  { unfold canonicalize_to_lower. destruct (Z.ltb_spec c "A"%cc) as [H|H]; cbn [orb].
    { by rewrite (proj2 (Z.ltb_lt _ _)). }
    destruct (Z.ltb_spec "Z"%cc c); cbv iota; apply orb_true_iff; right; apply Z.ltb_lt; lia. }
  set (d := canonicalize_to_lower c) in *. unfold is_upper, canonicalize_to_lower. rewrite H. split; [done|].
  apply orb_true_iff in H. apply andb_false_iff.
  destruct H as [H|H]; [left|right]; reflect_bools; apply Z.leb_gt; lia.
Qed.

Lemma lower_lower s : lower (lower s) = lower s.
Proof. induction s as [|c s IH]; [done|]. cbn [map]. by rewrite IH, (proj1 (lower_char c)). Qed.

Lemma lower_fixed s : lower s = s -> forallb (fun c => negb (is_upper c)) s = true.
Proof.
  intros <-. apply List.forallb_forall. intros c (d & <- & _)%List.in_map_iff. by rewrite (proj2 (lower_char d)).
Qed.

Lemma lower_range c : 0 < c < 256 -> 0 < canonicalize_to_lower c < 256.
Proof. intros H. unfold canonicalize_to_lower. destruct (Z.ltb_spec c "A"%cc), (Z.ltb_spec "Z"%cc c); cbn [orb]; lia. Qed.

Lemma host_ok_lower host : host_ok host -> host_ok (lower host).
Proof.
  assert (Hback : forall c d, ("a"%cc <=? d) && (d <=? "z"%cc) = false -> c <> d -> canonicalize_to_lower c <> d)
    by (intros c d Hd Hne Hc; apply Hne; by apply lower_not).
  intros [[Hh Hd]|(digits & -> & Hd)]; [left|right].
  - split.
    + apply Forall_fmap. eapply Forall_impl; [exact Hh|]. intros c (? & ? & ? & ?). unfold compose.
      split_and!; [by apply lower_range..|by apply Hback|by apply Hback|by apply Hback].
    + destruct host; [done|]. by apply Hback.
  - exists (lower digits). split; [by cbn [map]; rewrite map_app|]. apply Forall_fmap.
    eapply Forall_impl; [exact Hd|]. intros c Hc. unfold compose, is_hex_or_colon, canonicalize_to_lower, COLON in *.
    repeat match goal with
    | |- context [?a <? ?b] => destruct (Z.ltb_spec a b)
    end; cbn [orb]; try done.
    repeat rewrite orb_true_iff in *. repeat rewrite andb_true_iff in *. repeat rewrite Z.leb_le in *. rewrite Z.eqb_eq in *.
    lia.
Qed.

Lemma normalized_segments r : Forall is_byte r -> Forall canonical_segment (map normalize_chars (kept r)).
Proof.
  intros Hr%kept_spec. apply Forall_fmap. eapply Forall_impl; [exact Hr|]. intros s (Hg & H1 & Hb). unfold compose.
  split_and!; [by apply normalize_good|by apply normalize_segment|by apply normalize_uri_text].
Qed.

Lemma canon_parts_canonical p : wf_parts p -> canonical_parts (canon_parts p).
Proof.
  intros [[Hne Hs] Hu Hh Hp Hr]. unfold canon_parts.
  assert (Hport : forall t, u_port p ≫= canon_port (lower (u_scheme p)) = Some t ->
            u_port p = Some t /\ t <> [] /\ default_port (lower (u_scheme p)) <> Some t).
  { intros t. destruct (u_port p) as [t0|]; [|done]. cbn [mbind option_bind]. unfold canon_port.
    case_decide as Hd; [done|]. intros [= ->]. split_and!; [done| |]; intros ?; apply Hd; [by left|by right]. }
  assert (Hpath : forall r, u_path p ≫= canon_path = Some r ->
            exists segs, r = join_slash segs /\ segs <> [] /\ Forall canonical_segment segs).
  { intros r. destruct (u_path p) as [r0|] eqn:E; [|done]. cbn [mbind option_bind]. unfold canon_path.
    pose proof (normalized_segments r0 (path_bytes _ (Hr r0 eq_refl))) as Hsegs.
    destruct (map normalize_chars (kept r0)) as [|s segs]; [done|]. intros [= <-].
    exists (s :: segs). by split_and!. }
  split; cbn [u_scheme u_user u_host u_port u_path]; [|apply lower_lower|apply lower_lower| |done].
  - split; cbn [u_scheme u_user u_host u_port u_path]; [|done|by apply host_ok_lower| |].
    + split; [by destruct (u_scheme p)|]. by apply lower_scheme.
    + intros t (Ht & _ & _)%Hport. destruct (Hp t Ht) as (Hne' & Hd & Hn & Hdef).
      unfold port_ok. rewrite lower_lower. split_and!; try done. by destruct (u_host p).
    + intros r (segs & -> & _ & Hsegs)%Hpath. apply uri_text_string, uri_text_join.
      eapply Forall_impl; [exact Hsegs|]. by intros s (_ & _ & ?).
  - intros t Ht%Hport. by destruct Ht as (_ & ? & ?).
Qed.

(** ** The test *)

Lemma scheme_is_url scheme rest :
  scheme <> [] -> Forall (fun c => 0 < c < 256 /\ is_neither SLASH COLON c = true) scheme ->
  svn_path_is_url (scheme ++ COLON :: SLASH :: SLASH :: rest) = true.
Proof.
  intros Hne Hs. apply bool_decide_eq_true. unfold skip_uri_scheme.
  assert (Hloop : forall s j, (s <> [] \/ 0 < j)%nat ->
            Forall (fun c => 0 < c < 256 /\ is_neither SLASH COLON c = true) s ->
            is_Some (skip_uri_scheme_loop (s ++ COLON :: SLASH :: SLASH :: rest) j)); [|by apply Hloop; [left|]].
  clear. intros s. induction s as [|c s IH]; intros j Hj Hs; cbn [app skip_uri_scheme_loop].
  - destruct Hj as [|Hj]; [done|]. rewrite (proj2 (Nat.ltb_lt _ _)) by done. cbn. eauto.
  - apply Forall_cons in Hs as [[_ [H1 H2]%is_neither_iff] Hs].
    rewrite (proj2 (Z.eqb_neq c ":"%cc)), (proj2 (Z.eqb_neq c SLASH)) by done. apply IH; [right; lia|done].
Qed.

Lemma check_host_spec host rest :
  host_ok host -> lower host = host -> after_host rest -> check_host (host ++ rest) = Some rest.
Proof.
  intros Hh Hl Hr. pose proof (lower_fixed host Hl) as Hup. unfold check_host.
  destruct Hh as [[Hh Hd]|(digits & -> & Hd)].
  - assert (deref (host ++ rest) =? "["%cc = false) as ->.
    { apply Z.eqb_neq. destruct host; [|done]. destruct rest as [|c rest]; [done|]. by destruct Hr as [-> | ->]. }
    rewrite span_exact; [by rewrite Hup| |].
    + eapply Forall_impl; [exact Hh|]. intros c (_ & ? & ? & _). by apply is_neither_iff.
    + destruct rest as [|c rest]; [done|]. by destruct Hr as [-> | ->].
  - change (deref (("["%cc :: digits ++ ["]"%cc]) ++ rest) =? "["%cc) with true. cbv iota.
    cbn [tail app]. rewrite <- app_assoc, span_exact; [done| |done].
    cbn [forallb] in Hup. rewrite forallb_app in Hup. apply andb_true_iff in Hup as [_ [Hup _]%andb_true_iff].
    rewrite List.forallb_forall in Hup. rewrite Forall_forall in Hd |- *. intros c Hc. rewrite (Hd c Hc).
    apply Hup. by apply list_elem_of_In.
Qed.

Lemma check_port_spec scheme dst0 host port path :
  COLON ∉ scheme -> lower scheme = scheme -> (forall t, port = Some t -> port_ok scheme host t) ->
  (forall t, port = Some t -> t <> [] /\ default_port scheme <> Some t) ->
  check_port (scheme ++ COLON :: dst0) (port_text port ++ tail_text path) = Ok (Some (tail_text path)).
Proof.
  intros Hs Hl Hp Hc. unfold check_port. destruct port as [t|]; cbn [port_text app]; [|by destruct path].
  destruct (Hp t eq_refl) as (_ & Hd & [n Hn] & Hdef), (Hc t eq_refl) as [Hne Hnd].
  change (deref (COLON :: t ++ tail_text path) =? COLON) with true. cbv iota. cbn [tail].
  rewrite span_exact by (done || by destruct path).
  destruct (port_number t 0) as [m|] eqn:Em; [|done]. cbn [mbind result_bind].
  rewrite bool_decide_false by done. cbn [andb].
  change (cstr "http:") with (cstr "http" ++ [COLON]). change (cstr "https:") with (cstr "https" ++ [COLON]).
  change (cstr "svn:") with (cstr "svn" ++ [COLON]). rewrite !starts_with_scheme by (done || by_evaluation).
  rewrite Hl in Hdef.
  assert (Hoff : forall d y k, default_port y = Some d -> port_number d 0 = Ok k ->
            (m =? k) && bool_decide (scheme = y) = false).
  { intros d y k Hy Hk. apply not_true_iff_false. intros [->%Z.eqb_eq ->%bool_decide_eq_true]%andb_true_iff.
    destruct (Hdef d Hy) as [->|H]; [done|]. by rewrite Hk in H. }
  rewrite (Hoff (cstr "80") (cstr "http") 80), (Hoff (cstr "443") (cstr "https") 443),
    (Hoff (cstr "3690") (cstr "svn") 3690) by reflexivity.
  by destruct path.
Qed.

Lemma segment_head s segs : good s -> SLASH ∉ s -> char_at (join_slash (s :: segs)) 0 <> SLASH.
Proof.
  intros [Hne _] Hn. rewrite join_slash_cons. destruct s as [|c s]; [done|]. cbn. by apply not_elem_of_cons in Hn as [? _].
Qed.

Lemma check_segments_join segs fuel prev :
  segs <> [] -> Forall canonical_segment segs -> (length (join_slash segs) < fuel)%nat ->
  check_segments fuel prev (join_slash segs) = Ok true.
Proof.
  intros Hne Hs. revert fuel prev. induction Hs as [|s segs (Hg & Hn & _) Hs IH]; [done|].
  intros [|f] prev Hf; [lia|]. cbn [check_segments].
  assert (Hall : Forall (fun c => negb (c =? SLASH) = true) s).
  { apply Forall_forall. intros c Hc. apply negb_true_iff, Z.eqb_neq. by intros ->. }
  destruct segs as [|s' segs].
  - cbn [join_slash]. rewrite <- (app_nil_r s) at 1. rewrite span_exact by done.
    rewrite bool_decide_false by (by destruct Hg). cbn. f_equal. apply negb_true_iff, Z.eqb_neq.
    destruct (last s) as [c|] eqn:El; [|by apply last_None in El; destruct Hg].
    cbn. intros ->. by apply last_Some_elem_of in El.
  - rewrite join_slash_cons in Hf |- *. rewrite span_exact by done. rewrite bool_decide_false by (by destruct Hg).
    change (char_at (SLASH :: join_slash (s' :: segs)) 1) with (char_at (join_slash (s' :: segs)) 0).
    pose proof Hs as Hs'. apply Forall_cons in Hs' as [(Hg' & Hn' & _) _].
    rewrite (proj2 (Z.eqb_neq _ _) (segment_head s' segs Hg' Hn')), andb_false_r. apply IH; [done|].
    rewrite length_app in Hf. cbn [length] in *. lia.
Qed.

Lemma check_segments_path segs fuel prev :
  segs <> [] -> Forall canonical_segment segs -> (length (join_slash segs) < fuel)%nat ->
  check_segments (S fuel) prev (SLASH :: join_slash segs) = Ok true.
Proof.
  intros Hne Hs Hf. cbn [check_segments].
  change (span _ (SLASH :: join_slash segs)) with (@nil Z, SLASH :: join_slash segs). cbv beta iota.
  rewrite bool_decide_false by done.
  change (char_at (SLASH :: join_slash segs) 1) with (char_at (join_slash segs) 0).
  destruct segs as [|s segs]; [done|]. pose proof Hs as Hs'. apply Forall_cons in Hs' as [(Hg & Hn & _) _].
  rewrite (proj2 (Z.eqb_neq _ _) (segment_head s segs Hg Hn)), andb_false_r. by apply check_segments_join.
Qed.

Lemma char_at_last s : char_at s (length s - 1) = default 0 (last s).
Proof. unfold char_at. by rewrite last_lookup, Nat.sub_1_r. Qed.

Lemma canonical_is_canonical p : canonical_parts p -> svn_uri_is_canonical (uri_of p) = Ok true.
Proof.
  intros Hc. pose proof (canon_parts_fixed p Hc) as Hfix. destruct Hc as [Hwf Hls Hlh Hcp Hpath].
  pose proof (authority_last p Hwf) as Hlast.
  assert (u_port p ≫= canon_port (lower (u_scheme p)) = u_port p) as Hport by (rewrite <- Hfix at 3; done).
  rewrite Hport, Hls, Hlh in Hlast. pose proof Hwf as [[Hne Hs] Hu Hh Hp Hr].
  assert (Hdec : forall t, u_port p = Some t -> Forall (fun c => is_decimal c = true) t)
    by (intros t Ht; by destruct (Hp t Ht) as (_ & ? & _)).
  unfold svn_uri_is_canonical.
  set (rest := user_text (u_user p) ++ u_host p ++ port_text (u_port p) ++ tail_text (u_path p)).
  assert (Huri : uri_of p = u_scheme p ++ COLON :: SLASH :: SLASH :: rest) by done.
  assert (deref (uri_of p) =? 0 = false) as ->.
  { apply Z.eqb_neq. rewrite Huri. destruct (u_scheme p) as [|c s]; [done|]. apply Forall_cons in Hs as [[Hs _] _].
    cbn. lia. }
  pose proof (scheme_is_url (u_scheme p) rest Hne Hs) as Hurl.
  destruct (span_scheme (u_scheme p) (SLASH :: SLASH :: rest) Hs) as (Hsp1 & Hsp2 & Hcolon).
  rewrite <- Huri in Hurl, Hsp1, Hsp2. rewrite Hurl, Hsp1, Hsp2.
  assert (starts_with (COLON :: SLASH :: SLASH :: rest) [COLON; SLASH; SLASH] = true) as Hst
    by (apply prefix_iff; by exists rest).
  cbn [snd negb]. rewrite Hst, (lower_fixed _ Hls). cbn [negb drop]. rewrite drop_0.
  destruct (Z.eqb_spec (deref rest) 0) as [|Hrest]; [done|].
  pose proof (user_part _ _ _ (u_path p) Hu Hh Hdec) as Huser. cbv zeta in Huser. fold rest in Huser.
  destruct (span (is_neither SLASH AT) rest) as [before at_]. cbn [snd].
  set (seg := if deref at_ =? AT then tail at_ else rest).
  assert (seg = u_host p ++ port_text (u_port p) ++ tail_text (u_path p)) as ->.
  { unfold seg. destruct (deref at_ =? AT); [by destruct Huser|]. unfold rest. by rewrite Huser. }
  rewrite check_host_spec by (done || apply after_host_text).
  pose proof (check_port_spec (u_scheme p) (SLASH :: SLASH :: rest) (u_host p) (u_port p) (u_path p)
    Hcolon Hls Hp Hcp) as Hcheck. rewrite <- Huri in Hcheck. rewrite Hcheck. cbn [mbind result_bind].
  destruct (u_path p) as [r|] eqn:Er; cbn [tail_text].
  - destruct (Hpath r eq_refl) as (segs & -> & Hsegs & Hall).
    assert (Htext : check_escapes (SLASH :: join_slash segs) = true).
    { apply check_escapes_true. constructor; [done|done|]. apply uri_text_join. eapply Forall_impl; [exact Hall|].
      by intros s (_ & _ & ?). }
    rewrite check_segments_path by (done || (cbn [length]; lia)). cbn [mbind result_bind]. by rewrite Htext.
  - cbn [check_segments span]. rewrite bool_decide_false by done. cbn [deref head default length].
    change (0 =? SLASH) with false. cbn [andb last default mbind result_bind].
    rewrite Nat.sub_0_r, char_at_last, uri_of_authority, Er. cbn [tail_text]. rewrite app_nil_r.
    assert (Hl : last (authority (u_scheme p) (u_user p) (u_host p) (u_port p)) <> Some SLASH).
    { apply Hlast. intros [= E1 E2]. unfold rest in Hrest. rewrite E1, E2 in Hrest.
      destruct (u_port p) as [t|] eqn:Et; [|done]. by destruct (Hp t eq_refl). }
    destruct (last _) as [c|]; [|done]. cbn. f_equal. rewrite andb_true_r. apply negb_true_iff, Z.eqb_neq. congruence.
Qed.

(** ** Theorems *)

Lemma canonicalize_twice p :
  wf_parts p -> canonicalize_uri (uri_of (canon_parts p)) = Ok (uri_of (canon_parts p)).
Proof.
  intros Hp%canon_parts_canonical. rewrite canonicalize_uri_parts by apply Hp. by rewrite (canon_parts_fixed _ Hp).
Qed.

(** C19: The canonical form of a URI with well-formed parts ([wf_parts]: a
    scheme; a host that is a name, maybe empty, or digits and colons in
    brackets; if there is a port, a host that is not empty and decimal digits
    that fit into 64 bits and are the number of the default port only if they
    are written like it; any path) is that of its parts: scheme and host in
    lower case, no default port, no empty segments and no dots, and only those
    characters escaped that have to be.  The test accepts it, so the safe
    variant succeeds, and it is its own canonical form.  For other ports see
    [port_leading_zero], [port_overflow] and [port_without_host]. *)
Theorem uri_canonicalize_parts p (Hp : wf_parts p) :
  svn_uri_canonicalize (uri_of p) = Ok (uri_of (canon_parts p)) /\
  svn_uri_canonicalize_safe (uri_of p) = Ok (uri_of (canon_parts p)) /\
  svn_uri_is_canonical (uri_of (canon_parts p)) = Ok true /\
  svn_uri_canonicalize (uri_of (canon_parts p)) = Ok (uri_of (canon_parts p)).
Proof.
  pose proof (canonicalize_uri_parts p Hp) as H1. pose proof (canonicalize_twice p Hp) as H2.
  pose proof (canonical_is_canonical _ (canon_parts_canonical p Hp)) as H3.
  unfold svn_uri_canonicalize, svn_uri_canonicalize_safe. rewrite H1, H2. cbn [mbind result_bind]. by rewrite H3.
Qed.

Definition example_parts : uri_parts :=
  mk_parts (cstr "HTTP") (Some (cstr "Me")) (cstr "Host.ORG") (Some (cstr "80"))
    (Some (cstr "a//./b%2fc%20%7e d/%2E/")).

Lemma uri_canonicalize_parts_witness : exists p,
  uri_of p = cstr "HTTP://Me@Host.ORG:80/a//./b%2fc%20%7e d/%2E/" /\ wf_parts p /\
  svn_uri_canonicalize_safe (uri_of p) = Ok (cstr "http://Me@host.org/a/b/c%20~%20d").
Proof.
  exists example_parts. split; [by vm_compute|].
  assert (Hp : wf_parts example_parts).
  { split; cbn [u_scheme u_user u_host u_port u_path example_parts].
    - split; [done|]. by_evaluation.
    - intros u [= <-]. by_evaluation.
    - left. split; [by_evaluation|done].
    - intros t [= <-]. unfold port_ok. split_and!; [done|by_evaluation|by eexists; vm_compute|].
      intros d Hd. left. vm_compute in Hd. by injection Hd as <-.
    - intros r [= <-]. by_evaluation. }
  split; [done|]. rewrite (proj1 (proj2 (uri_canonicalize_parts example_parts Hp))). by vm_compute.
Defined.

(** ** Parents *)

Lemma find_slash_app a b i len :
  SLASH ∉ a -> (length a <= len)%nat -> find_slash (a ++ b) i len = find_slash b (i + length a) (len - length a).
Proof.
  revert i len. induction a as [|c a IH]; intros i len Ha Hl; cbn [app length].
  { by rewrite Nat.add_0_r, Nat.sub_0_r. }
  destruct len as [|len]; [simpl in Hl; lia|]. apply not_elem_of_cons in Ha as [Hc Ha]. cbn [find_slash].
  rewrite (proj2 (Z.eqb_neq c SLASH)) by done. rewrite IH by (done || (simpl in Hl; lia)).
  f_equal; lia.
Qed.

(** The characters between the scheme and the path. *)
Definition server (p : uri_parts) : bytes := user_text (u_user p) ++ u_host p ++ port_text (u_port p).

Lemma uri_of_server p :
  uri_of p = u_scheme p ++ COLON :: SLASH :: SLASH :: server p ++ tail_text (u_path p).
Proof. unfold uri_of, server. by rewrite <- !app_assoc. Qed.

Lemma neither_no_slash s d : Forall (fun c => is_neither SLASH d c = true) s -> SLASH ∉ s.
Proof. intros Hs Hin. rewrite Forall_forall in Hs. by apply Hs, is_neither_iff in Hin as [? _]. Qed.

Lemma server_no_slash p : wf_parts p -> SLASH ∉ server p.
Proof.
  intros [_ Hu Hh Hp _]. unfold server. rewrite !not_elem_of_app. split_and!.
  - destruct (u_user p) as [u|]; [|apply not_elem_of_nil]. cbn [user_text]. apply not_elem_of_app. split.
    + apply (neither_no_slash u AT). eapply Forall_impl; [exact (Hu u eq_refl)|]. by intros c [_ ?].
    + by apply (neither_no_slash _ COLON); repeat constructor.
  - by apply (neither_no_slash _ AT), host_no_at.
  - destruct (u_port p) as [t|]; [|apply not_elem_of_nil]. cbn [port_text].
    by apply (neither_no_slash _ AT), decimal_no_at, (Hp t eq_refl).
Qed.

(** The root of a file URL does not contain the host. *)
Lemma schema_root_length p :
  wf_parts p ->
  uri_schema_root_length (uri_of p) (length (uri_of p)) =
  if decide (u_scheme p = cstr "file") then 7%nat
  else (length (u_scheme p) + 3 + length (server p))%nat.
Proof.
  intros Hp. pose proof (server_no_slash p Hp) as Hserver. destruct Hp as [[Hne Hs] _ _ _ _].
  assert (Hn : SLASH ∉ u_scheme p).
  { apply (neither_no_slash _ COLON). eapply Forall_impl; [exact Hs|]. by intros c [_ ?]. }
  rewrite uri_of_server. set (scheme := u_scheme p) in *. set (rest := server p ++ tail_text (u_path p)).
  set (uri := scheme ++ COLON :: SLASH :: SLASH :: rest).
  assert (Hlen : length uri = (length scheme + 3 + length rest)%nat).
  { unfold uri. rewrite length_app. cbn [length]. lia. }
  unfold uri_schema_root_length.
  assert (find_slash uri 0 (length uri) = Some (S (length scheme))) as ->.
  { unfold uri. change (scheme ++ COLON :: SLASH :: SLASH :: rest) with (scheme ++ [COLON] ++ SLASH :: SLASH :: rest).
    rewrite app_assoc, find_slash_app.
    - rewrite !length_app. cbn [length]. replace (_ + S (S (length rest)) - _)%nat with (S (S (length rest))) by lia.
      cbn [find_slash]. rewrite Z.eqb_refl. f_equal. lia.
    - apply not_elem_of_app. split; [done|]. by apply (neither_no_slash _ AT); repeat constructor.
    - rewrite !length_app. lia. }
  assert (Hat : forall k, char_at uri (length scheme + k) = char_at (COLON :: SLASH :: SLASH :: rest) k).
  { intros k. unfold char_at, uri. rewrite lookup_app_r by lia. do 3 f_equal. lia. }
  replace (S (length scheme) - 1)%nat with (length scheme + 0)%nat by lia.
  replace (S (length scheme) + 1)%nat with (length scheme + 2)%nat by lia. rewrite !Hat.
  change (char_at _ 0) with COLON. change (char_at (COLON :: SLASH :: SLASH :: rest) 2) with SLASH.
  rewrite !Z.eqb_refl, !andb_true_r. rewrite (proj2 (Nat.ltb_lt (S (length scheme)) _)) by lia. cbn [andb].
  change (0 <? S (length scheme))%nat with true. cbv iota.
  assert (Hfile : (S (length scheme) =? 5)%nat && starts_with uri (cstr "file") = bool_decide (scheme = cstr "file")).
  { apply eq_true_iff_eq. rewrite andb_true_iff, Nat.eqb_eq, prefix_iff, bool_decide_eq_true. split.
    - intros [Hl [r Hr]]. unfold uri in Hr. by apply app_inj_1 in Hr as [? _]; [|change (length (cstr "file")) with 4%nat; lia].
    - intros E. unfold uri. rewrite E. split; [done|eauto]. }
  rewrite Hfile. destruct (decide (scheme = cstr "file")); [by rewrite bool_decide_true|].
  rewrite bool_decide_false by done.
  assert (drop (S (length scheme) + 2) uri = rest) as ->.
  { unfold uri. replace (S (length scheme) + 2)%nat with (length scheme + 3)%nat by lia.
    rewrite <- drop_drop, drop_app_length. done. }
  rewrite Hlen. replace (_ - (S (length scheme) + 2))%nat with (length rest) by lia.
  unfold rest. rewrite length_app, find_slash_app by (done || lia).
  destruct (u_path p) as [r|]; cbn [tail_text length find_slash].
  - replace (length (server p) + S (length r) - length (server p))%nat with (S (length r)) by lia. rewrite Z.eqb_refl. cbn. lia.
  - cbn. lia.
Qed.

Lemma previous_slash_app a s k :
  SLASH ∉ s -> (k <= length s)%nat -> previous_slash (a ++ SLASH :: s) (length a + k) = Ok (length a).
Proof.
  intros Hs. induction k as [|k IH]; intros Hk.
  - rewrite Nat.add_0_r. destruct (length a) eqn:E; cbn [previous_slash]; unfold char_at;
      (rewrite lookup_app_r by lia); rewrite <- E, Nat.sub_diag; done.
  - rewrite Nat.add_succ_r. cbn [previous_slash]. unfold char_at. rewrite lookup_app_r by lia.
    replace (S (length a + k) - length a)%nat with (S k) by lia.
    destruct (lookup_lt_is_Some_2 s k) as [c Hc]; [lia|]. change ((SLASH :: s) !! S k) with (s !! k). rewrite Hc.
    change (default 0 (Some c)) with c. rewrite (proj2 (Z.eqb_neq c SLASH)); [apply IH; lia|].
    intros ->. by apply Hs; apply list_elem_of_lookup_2 in Hc.
Qed.

Lemma basename_of_app a s acc : SLASH ∉ s -> basename_of (a ++ SLASH :: s) acc = s.
Proof.
  intros Hs. assert (Hend : forall t acc, SLASH ∉ t -> basename_of t acc = acc).
  { clear. induction t as [|c t IH]; intros acc Ht; [done|]. apply not_elem_of_cons in Ht as [Hc Ht]. cbn [basename_of].
    rewrite (proj2 (Z.eqb_neq c SLASH)) by done. by apply IH. }
  revert acc. induction a as [|c a IH]; intros acc; cbn [app basename_of].
  - rewrite Z.eqb_refl. by apply Hend.
  - destruct (c =? SLASH); apply IH.
Qed.

Definition with_path (p : uri_parts) (segs : list bytes) : uri_parts :=
  mk_parts (u_scheme p) (u_user p) (u_host p) (u_port p)
    (match segs with [] => None | _ => Some (join_slash segs) end).

Lemma uri_of_with_path p segs :
  uri_of (with_path p segs) = authority (u_scheme p) (u_user p) (u_host p) (u_port p) ++ path_text segs.
Proof. rewrite uri_of_authority. by destruct segs. Qed.

Lemma with_path_canonical p segs :
  canonical_parts p -> Forall canonical_segment segs -> canonical_parts (with_path p segs).
Proof.
  intros [[Hs Hu Hh Hp Hr] Hls Hlh Hcp Hpath] Hall.
  assert (Hsegs : forall r, u_path (with_path p segs) = Some r -> r = join_slash segs /\ segs <> []).
  { intros r. destruct segs; [done|]. by intros [= <-]. }
  split; [split|..]; try done.
  - intros r [-> _]%Hsegs. apply uri_text_string, uri_text_join. eapply Forall_impl; [exact Hall|]. by intros s (_ & _ & ?).
  - intros r [-> Hne]%Hsegs. by exists segs.
Qed.

Lemma path_text_snoc segs s : path_text (segs ++ [s]) = path_text segs ++ SLASH :: s.
Proof.
  induction segs as [|s0 segs IH]; [done|]. cbn [app path_text]. f_equal. rewrite !join_slash_cons.
  unfold path_text in IH. destruct segs as [|s1 segs]; cbn [app] in *; [by rewrite app_nil_r|].
  rewrite IH, <- app_assoc. done.
Qed.

(** C20: Splitting a canonical URI takes off the last segment: the parent is
    canonical, and the base name is the segment without escapes.  Without a
    path there is nothing to take off, unless it is a file URL with a host. *)
Theorem uri_split_last_segment p segs (Hp : canonical_parts (with_path p segs)) (Hs : Forall canonical_segment segs) :
  match last segs with
  | Some s =>
      let parent := uri_of (with_path p (take (length segs - 1) segs)) in
      svn_uri_split (uri_of (with_path p segs)) = Ok (parent, svn_path_uri_decode s) /\
      svn_uri_is_canonical parent = Ok true
  | None =>
      u_scheme p <> cstr "file" \/ server p = [] ->
      svn_uri_split (uri_of (with_path p segs)) = Ok (uri_of (with_path p segs), [])
  end.
Proof.
  pose proof (canonical_is_canonical _ Hp) as Hcan.
  pose proof (schema_root_length _ (cp_wf _ Hp)) as Hroot. change (u_scheme (with_path p segs)) with (u_scheme p) in Hroot.
  change (server (with_path p segs)) with (server p) in Hroot.
  assert (Hlen : length (uri_of (with_path p segs)) =
            (length (u_scheme p) + 3 + length (server p) + length (path_text segs))%nat).
  { rewrite uri_of_with_path. unfold authority, server. rewrite !length_app. cbn [length]. rewrite !length_app.
    cbn [length]. lia. }
  unfold svn_uri_split, svn_uri_dirname, svn_uri_basename, svn_uri_is_root, assert_canonical. rewrite Hcan.
  cbn [mbind result_bind c_assert]. destruct segs as [|s segs _] using rev_ind.
  - cbn [last]. intros Hfile. assert (length (uri_of (with_path p [])) =? uri_schema_root_length (uri_of (with_path p []))
      (length (uri_of (with_path p []))) = true)%nat as ->; [|done].
    apply Nat.eqb_eq. rewrite Hroot, Hlen. cbn [path_text length]. case_decide as E; [|lia].
    destruct Hfile as [?|Hserver]; [done|]. rewrite E, Hserver. done.
  - rewrite last_snoc, length_app, Nat.add_sub, take_app_length. cbv zeta.
    apply Forall_app in Hs as [Hs (Hg & Hn & _)%Forall_singleton].
    split; [|by apply canonical_is_canonical, (with_path_canonical (with_path p (segs ++ [s])))].
    assert (Hlt : (uri_schema_root_length (uri_of (with_path p (segs ++ [s]))) (length (uri_of (with_path p (segs ++ [s]))))
              < length (uri_of (with_path p (segs ++ [s]))))%nat).
    { rewrite Hroot, Hlen, path_text_snoc, length_app. cbn [length]. case_decide as E; [|lia].
      rewrite E. destruct s; [by destruct Hg|]. cbn. lia. }
    rewrite (proj2 (Nat.eqb_neq _ _)) by lia. unfold uri_previous_segment.
    rewrite (proj2 (Nat.eqb_neq _ 0)) by lia. rewrite (proj2 (Nat.ltb_lt _ _) Hlt).
    set (a := authority (u_scheme p) (u_user p) (u_host p) (u_port p) ++ path_text segs).
    assert (Huri : uri_of (with_path p (segs ++ [s])) = a ++ SLASH :: s).
    { unfold a. by rewrite uri_of_with_path, path_text_snoc, app_assoc. }
    assert (Ha : (0 < length a)%nat).
    { unfold a, authority. rewrite !length_app. cbn [length]. lia. }
    rewrite Huri. rewrite length_app. cbn [length]. replace (length a + S (length s) - 1)%nat with (length a + length s)%nat by lia.
    rewrite previous_slash_app by done. cbn [mbind result_bind]. rewrite (proj2 (Nat.eqb_neq (length a) 0)) by lia.
    cbn [andb mbind result_bind]. rewrite take_app_length, basename_of_app by done.
    by rewrite uri_of_with_path.
Qed.

Lemma uri_split_last_segment_witness :
  svn_uri_split (cstr "http://host.org/a%20b/c%25") = Ok (cstr "http://host.org/a%20b", cstr "c%").
Proof.
  pose (p := mk_parts (cstr "http") None (cstr "host.org") None None).
  assert (Hs : Forall canonical_segment [cstr "a%20b"; cstr "c%25"]).
  { repeat constructor; try done; by_evaluation. }
  refine (proj1 (uri_split_last_segment p [cstr "a%20b"; cstr "c%25"] _ Hs)).
  apply with_path_canonical; [|done]. split; [split|..]; cbn [u_scheme u_user u_host u_port u_path p]; try done.
  - split; [done|by_evaluation].
  - left. split; [by_evaluation|done].
Defined.

(** The parent of a file URL that is only a host is no URI. *)
Example file_host_dirname :
  svn_uri_is_canonical (cstr "file://host") = Ok true /\
  svn_uri_dirname (cstr "file://host") = Ok (cstr "file:/") /\
  svn_uri_is_canonical (cstr "file:/") = Ok false.
Proof. by vm_compute. Qed.

(** ** Ancestors *)

Lemma path_text_app segs more : path_text (segs ++ more) = path_text segs ++ path_text more.
Proof.
  revert segs. induction more as [|s more IH] using rev_ind; intros segs; [by rewrite !app_nil_r|].
  by rewrite app_assoc, !path_text_snoc, IH, app_assoc.
Qed.

(** What is left of a URI below another one are the segments behind, without
    escapes; so every URI is its own ancestor and that of all below. *)
Theorem uri_skip_ancestor_below p segs more :
  canonical_parts p -> Forall canonical_segment segs -> Forall canonical_segment more ->
  let above := uri_of (with_path p segs) in
  let below := uri_of (with_path p (segs ++ more)) in
  svn_uri_skip_ancestor above below = Ok (Some (svn_path_uri_decode (join_slash more))) /\
  svn_uri__is_ancestor above below = Ok true.
Proof.
  intros Hp Hs Hm above below. assert (Hskip : uri_skip_ancestor above below = Ok (Some (join_slash more))).
  { unfold uri_skip_ancestor, assert_canonical, above, below.
    rewrite !canonical_is_canonical by (apply with_path_canonical; [done|by rewrite ?Forall_app]).
    cbn [mbind result_bind c_assert]. rewrite !uri_of_with_path, path_text_app, app_assoc, strip_prefix_app.
    by destruct more. }
  unfold svn_uri_skip_ancestor, svn_uri__is_ancestor. by rewrite Hskip.
Qed.

(** ** Absolute dirents *)

(** *** UTF-8 in segments *)

(** Well-formed UTF-8, by the automaton. *)
Definition utf8 (s : bytes) : Prop := reach FSM_START s = FSM_START.

#[export] Instance utf8_dec s : Decision (utf8 s).
Proof. unfold utf8. apply _. Defined.

(** In front of a slash a character ends. *)
Lemma reach_slash state s : (state <= 8)%nat -> reach state (SLASH :: s) = FSM_START -> state = FSM_START.
Proof.
  intros Hs. cbn [reach]. do 9 (destruct state as [|state]; [done || (cbn; by rewrite reach_error)|]). lia.
Qed.

Lemma reach_le state s : (state <= 8)%nat -> (reach state s <= 8)%nat.
Proof. revert state. induction s as [|c s IH]; intros state Hs; [done|]. apply IH, default_switch_le. Qed.

Lemma utf8_slash a b : utf8 (a ++ SLASH :: b) <-> utf8 a /\ utf8 b.
Proof.
  unfold utf8. rewrite reach_app. split.
  - intros H. assert (reach FSM_START a = FSM_START) as Ha.
    { eapply reach_slash; [|exact H]. apply reach_le. unfold FSM_START. lia. }
    by rewrite Ha in H.
  - intros [-> Hb]. exact Hb.
Qed.

Lemma utf8_join segs : utf8 (join_slash segs) <-> Forall utf8 segs.
Proof.
  induction segs as [|s segs IH]; [done|]. rewrite join_slash_cons, Forall_cons, <- IH. destruct segs as [|s' segs].
  - rewrite app_nil_r. split; [by split|by intros [? _]].
  - by rewrite utf8_slash.
Qed.

Lemma check_cstring_utf8_spec s : c_string s -> utf8 s -> check_cstring_utf8 s = Ok ().
Proof.
  intros Hs Hu. unfold check_cstring_utf8. cbn [svn_utf__cstring_is_valid].
  rewrite c_str_id by done. rewrite is_valid_reach.
  - by rewrite Hu.
  - eapply Forall_impl; [exact Hs|]. cbv beta. lia.
Qed.

(** *** Merging *)

Definition DOTDOT : bytes := [DOT; DOT].

(** A segment of an absolute path. *)
Definition path_segment (s : bytes) : Prop := good s /\ SLASH ∉ s.

(** [..] removes the segment in front of it, if there is one. *)
Definition resolve_segment (st : list bytes) (s : bytes) : list bytes :=
  if decide (s = DOTDOT) then take (length st - 1) st else st ++ [s].

Definition resolve (st segs : list bytes) : list bytes := fold_left resolve_segment segs st.

Definition dir_text (st : list bytes) : bytes := SLASH :: concat (map (fun s => s ++ [SLASH]) st).

Lemma dir_text_snoc st s : dir_text (st ++ [s]) = dir_text st ++ s ++ [SLASH].
Proof. unfold dir_text. rewrite map_app, concat_app. cbn [map concat app]. by rewrite app_nil_r. Qed.

Lemma dir_text_slash st : exists p, dir_text st = p ++ [SLASH].
Proof.
  destruct st as [|s st _] using rev_ind; [by exists []|]. rewrite dir_text_snoc, app_assoc. eauto.
Qed.

Lemma crop_dir st s : SLASH ∉ s -> crop (dir_text (st ++ [s])) = dir_text st.
Proof.
  intros Hs. unfold crop. destruct (dir_text_slash st) as [p Hp]. rewrite dir_text_snoc, Hp.
  rewrite !rev_app_distr. cbn [rev app tail]. rewrite span_exact.
  - cbn [snd]. cbn [rev]. by rewrite rev_involutive.
  - apply Forall_forall. intros c Hc%list_elem_of_In%in_rev%list_elem_of_In. apply negb_true_iff, Z.eqb_neq. by intros ->.
  - done.
Qed.

Lemma dir_not_backpathed st s : path_segment s -> s <> DOTDOT -> is_backpathed (dir_text (st ++ [s])) = false.
Proof.
  intros [_ Hn] Hd. unfold is_backpathed. rewrite !bool_decide_false by done. cbn [orb].
  apply andb_false_iff. right. apply bool_decide_eq_false. intros H.
  pose proof (take_drop (length (dir_text (st ++ [s])) - 4) (dir_text (st ++ [s]))) as E. rewrite H in E.
  set (q := take _ _) in E. rewrite dir_text_snoc in E. destruct (dir_text_slash st) as [p Hp]. rewrite Hp in E.
  change [SLASH; DOT; DOT; SLASH] with ((SLASH :: DOTDOT) ++ [SLASH]) in E. rewrite !app_assoc in E.
  apply app_inj_tail in E as [E _]. rewrite <- app_assoc in E. cbn [app] in E.
  apply Hd. transitivity (basename_of (p ++ SLASH :: s) []); [symmetry; by apply basename_of_app|].
  rewrite <- E. apply basename_of_app. by_evaluation.
Qed.

(** Where the stack stands after the segments of a path have been read: behind
    the last one there is no slash. *)
Definition merged_text (st : list bytes) (text : bytes) : Prop :=
  text = dir_text st \/ exists st0 s, st = st0 ++ [s] /\ text = dir_text st0 ++ s.

Definition resolved (st : list bytes) : Prop := Forall (fun s => path_segment s /\ s <> DOTDOT) st.

Lemma merge_segment_spec st s more keptlen :
  resolved st -> path_segment s -> exists keptlen' text,
    merge_segment APR_FILEPATH_NOTRELATIVE s more (dir_text st) keptlen = Ok (text, keptlen') /\
    merged_text (resolve_segment st s) text /\ (more = true -> text = dir_text (resolve_segment st s)).
Proof.
  intros Hst [[Hne Hdot] Hn]. unfold merge_segment, resolve_segment. rewrite !bool_decide_false by done. cbn [orb].
  change [DOT; DOT] with DOTDOT. destruct (decide (s = DOTDOT)) as [->|Hd].
  - rewrite bool_decide_true by done.
    change (has_flag APR_FILEPATH_NOTRELATIVE APR_FILEPATH_SECUREROOTTEST) with false. cbv iota.
    assert (Hgo : forall (text : bytes) (k : nat), exists keptlen',
              (if (length text <? k)%nat then Ok (text, length text) else Ok (text, k)) = Ok (text, keptlen')).
    { intros text k. destruct (length text <? k)%nat; eauto. }
    destruct st as [|s st _] using rev_ind.
    + rewrite bool_decide_true by done. cbn [mbind result_bind].
      exists 0%nat, [SLASH]. split_and!; [done|by left|done].
    + apply Forall_app in Hst as [Hst [Hs Hsd]%Forall_singleton].
      rewrite bool_decide_false.
      2: { rewrite dir_text_snoc. unfold dir_text. intros [= E]. by destruct (concat _), s. }
      rewrite dir_not_backpathed by done. cbn [mbind result_bind]. rewrite crop_dir by apply Hs.
      destruct (Hgo (dir_text st) keptlen) as [k' ->]. exists k', (dir_text st).
      rewrite length_app, Nat.add_sub, take_app_length. split_and!; [done|by left|done].
  - rewrite bool_decide_false by done. do 2 eexists. split; [done|]. destruct more.
    + rewrite <- dir_text_snoc. split; [by left|done].
    + rewrite app_nil_r. split; [|done]. right. eauto.
Qed.

Lemma resolve_segment_resolved st s : resolved st -> path_segment s -> resolved (resolve_segment st s).
Proof.
  intros Hst Hs. unfold resolve_segment. case_decide; [by apply Forall_take|]. apply Forall_app.
  split; [done|]. by apply Forall_singleton.
Qed.

Lemma merge_segments_spec segs st fuel keptlen :
  resolved st -> Forall path_segment segs -> (length (join_slash segs) <= fuel)%nat -> exists text keptlen',
    merge_segments fuel APR_FILEPATH_NOTRELATIVE (join_slash segs) (dir_text st) keptlen = Ok (text, keptlen') /\
    merged_text (resolve st segs) text /\ resolved (resolve st segs).
Proof.
  intros Hst Hs. revert st fuel keptlen Hst. induction Hs as [|s segs Hs Hall IH]; intros st fuel keptlen Hst Hf.
  { exists (dir_text st), keptlen. split; [by destruct fuel|]. split; [by left|done]. }
  pose proof Hs as [[Hne _] Hn]. rewrite join_slash_cons in Hf |- *.
  assert (Hspan : Forall (fun c => negb (c =? SLASH) = true) s).
  { apply Forall_forall. intros c Hc. apply negb_true_iff, Z.eqb_neq. by intros ->. }
  destruct s as [|c s]; [done|]. destruct fuel as [|f]; [simpl in Hf; lia|]. cbn [merge_segments app].
  rewrite (app_comm_cons s). rewrite span_exact by (done || by destruct segs).
  cbn [resolve fold_left]. fold (resolve (resolve_segment st (c :: s)) segs). destruct segs as [|s' segs].
  - destruct (merge_segment_spec st (c :: s) (negb (deref [] =? 0)) keptlen Hst Hs) as (k' & text & -> & Ht & _).
    cbn [mbind result_bind tail]. exists text, k'. split; [by destruct f|]. split; [done|].
    by apply resolve_segment_resolved.
  - destruct (merge_segment_spec st (c :: s) true keptlen Hst Hs) as (k' & text & E & _ & Ht).
    change (negb (deref (SLASH :: join_slash (s' :: segs)) =? 0)) with true. rewrite E, Ht by done.
    cbn [mbind result_bind tail]. apply IH; [by apply resolve_segment_resolved|].
    rewrite length_app in Hf. cbn [length] in Hf. lia.
Qed.

Lemma resolve_plain st segs : DOTDOT ∉ segs -> resolve st segs = st ++ segs.
Proof.
  revert st. induction segs as [|s segs IH]; intros st Hd; [by rewrite app_nil_r|].
  apply not_elem_of_cons in Hd as [Hd Hds]. cbn [resolve fold_left]. fold (resolve (resolve_segment st s) segs).
  rewrite IH by done. unfold resolve_segment. rewrite decide_False by done. by rewrite <- app_assoc.
Qed.

(** A system whose locale is UTF-8, and the segments of its working
    directory. *)
Class Utf8Locale `{Native} (cwd : list bytes) : Prop := {
  utf8_uton : exists convert, uton_xlate = Ok (Some convert) /\ forall s, utf8 s -> convert s = Ok s;
  utf8_ntou : exists convert, ntou_xlate = Ok (Some convert) /\ forall s, utf8 s -> convert s = Ok s;
  utf8_getcwd : getcwd = Ok (SLASH :: join_slash cwd);
  utf8_cwd : Forall (fun s => path_segment s /\ s <> DOTDOT /\ c_string s /\ utf8 s) cwd
}.

Definition rooted (d : bytes) : bool := deref d =? SLASH.

(** The segments of a dirent, and the absolute path that it stands for. *)
Definition dirent_segments (d : bytes) : list bytes := segments (if rooted d then tail d else d).

Definition absolute_segments (cwd : list bytes) (d : bytes) : list bytes :=
  resolve (if rooted d then [] else cwd) (dirent_segments d).

Definition absolute_path (cwd : list bytes) (d : bytes) : bytes := SLASH :: join_slash (absolute_segments cwd d).

(** What [apr_filepath_merge] has room for. *)
Definition fits (cwd : list bytes) (d : bytes) : Prop :=
  ((if rooted d then 0 else length (SLASH :: join_slash cwd)) + length d + 4 <= APR_PATH_MAX)%nat.

#[export] Instance fits_dec cwd d : Decision (fits cwd d).
Proof. unfold fits. apply _. Defined.

Lemma resolve_all (P : bytes -> Prop) st segs : Forall P st -> Forall P segs -> Forall P (resolve st segs).
Proof.
  intros Hst Hs. revert st Hst. induction Hs as [|s segs Hs _ IH]; intros st Hst; [done|].
  cbn [resolve fold_left]. apply IH. unfold resolve_segment. case_decide; [by apply Forall_take|].
  apply Forall_app. split; [done|]. by apply Forall_singleton.
Qed.

Lemma merged_text_split st text :
  resolved st -> merged_text st text -> deref text = SLASH /\ filter good (split_slash (tail text)) = st.
Proof.
  intros Hst Htext. assert (Hsplit : forall st rest, resolved st ->
    split_slash (concat (map (fun s => s ++ [SLASH]) st) ++ rest) = st ++ split_slash rest).
  { clear. intros st rest Hst. induction Hst as [|s st [[_ Hn] _] _ IH]; [done|]. cbn [map concat].
    rewrite <- !app_assoc. cbn [app]. rewrite split_slash_app by done. by rewrite IH. }
  assert (Hgood : forall st, resolved st -> filter good st = st).
  { clear. intros st Hst. induction Hst as [|s st [[Hg _] _] _ IH]; [done|]. by rewrite filter_cons_True, IH. }
  destruct Htext as [->|(st0 & s & -> & ->)]; split; try done; unfold dir_text; cbn [tail app].
  - rewrite <- (app_nil_r (concat _)), Hsplit by done. rewrite filter_app, Hgood by done. cbn. by rewrite app_nil_r.
  - pose proof Hst as [Hst0 [[_ Hn] _]%Forall_singleton]%Forall_app. rewrite Hsplit, split_slash_single by done.
    by apply Hgood.
Qed.

(** A property of characters, or of pieces between slashes, holds of the text. *)
Lemma merged_text_string st text : Forall (Forall (fun c => 0 < c < 256)) st -> merged_text st text -> c_string text.
Proof.
  assert (Hdir : forall st, Forall (Forall (fun c => 0 < c < 256)) st -> c_string (dir_text st)).
  { clear. intros st Hst. unfold dir_text. constructor; [done|]. induction Hst as [|s st Hs _ IH]; [constructor|].
    cbn [map concat]. rewrite !Forall_app. split_and!; [done|by repeat constructor|done]. }
  intros Hst [->|(st0 & s & -> & ->)]; [by apply Hdir|]. apply Forall_app in Hst as [Hst [Hs _]%Forall_cons].
  apply Forall_app. split; [by apply Hdir|done].
Qed.

Lemma merged_text_utf8 st text : Forall utf8 st -> merged_text st text -> utf8 text.
Proof.
  assert (Hdir : forall st s, Forall utf8 st -> utf8 s -> utf8 (dir_text st ++ s)).
  { clear. intros st s Hst Hs. unfold dir_text. cbn [app]. apply (utf8_slash []). split; [done|].
    induction Hst as [|s0 st Hs0 _ IH]; [done|]. cbn [map concat]. rewrite <- !app_assoc. by apply utf8_slash. }
  intros Hst [->|(st0 & s & -> & ->)]; [rewrite <- (app_nil_r (dir_text st)); by apply Hdir|].
  apply Forall_app in Hst as [Hst [Hs _]%Forall_cons]. by apply Hdir.
Qed.

Lemma merged_canonicalize st text :
  resolved st -> Forall (Forall (fun c => 0 < c < 256)) st -> merged_text st text ->
  dirent_canonicalize text = Ok (SLASH :: join_slash st).
Proof.
  intros Hst Hs Ht. unfold dirent_canonicalize. rewrite dirent_canonicalize_spec by by eapply merged_text_string.
  destruct (merged_text_split st text Hst Ht) as [-> ->]. by rewrite Z.eqb_refl.
Qed.

Section Absolute.
Context `{Utf8Locale}.

Lemma convert_utf8 (convert : bytes -> result bytes) s :
  (forall s, utf8 s -> convert s = Ok s) -> c_string s -> utf8 s -> convert_cstring s (Some convert) = Ok s.
Proof.
  intros Hconv Hs Hu. unfold convert_cstring. case_bool_decide; [by subst|]. rewrite Hconv by done.
  cbn [mbind result_bind]. by rewrite c_str_id.
Qed.

Lemma cstring_from_utf8_spec s : c_string s -> utf8 s -> svn_path_cstring_from_utf8 s = Ok s.
Proof.
  intros Hs Hu. unfold svn_path_cstring_from_utf8. cbn [get_path_encoding].
  change get_path_encoding with false. cbv iota. unfold svn_utf_cstring_from_utf8.
  rewrite check_cstring_utf8_spec by done. destruct utf8_uton as (f & -> & Hf). cbn [mbind result_bind].
  by apply convert_utf8.
Qed.

Lemma cstring_to_utf8_spec s : c_string s -> utf8 s -> svn_path_cstring_to_utf8 s = Ok s.
Proof.
  intros Hs Hu. unfold svn_path_cstring_to_utf8.
  change get_path_encoding with false. cbv iota. unfold svn_utf_cstring_to_utf8.
  destruct utf8_ntou as (f & -> & Hf). cbn [mbind result_bind]. rewrite convert_utf8 by done. cbn [mbind result_bind].
  by rewrite check_cstring_utf8_spec.
Qed.

Lemma join_head segs : Forall path_segment segs -> deref (join_slash segs) <> SLASH.
Proof.
  intros [|s segs' [[Hne _] Hn] _]; [done|]. rewrite join_slash_cons. destruct s as [|c s]; [done|].
  by apply not_elem_of_cons in Hn as [? _].
Qed.

(** What the working directory becomes in front of a relative path. *)
Lemma root_text :
  (if (0 <? length (SLASH :: join_slash cwd))%nat && negb (bool_decide (last (SLASH :: join_slash cwd) = Some SLASH))
   then (SLASH :: join_slash cwd) ++ [SLASH] else SLASH :: join_slash cwd) = dir_text cwd.
Proof.
  assert (Hall : Forall good cwd /\ Forall (fun s => SLASH ∉ s) cwd).
  { pose proof utf8_cwd as Hcwd. split; (eapply Forall_impl; [exact Hcwd|]); by intros s ((? & ?) & _). }
  destruct Hall as [Hg Hn]. clear -Hg Hn. destruct cwd as [|s segs]; [done|].
  change (SLASH :: join_slash (s :: segs)) with ([SLASH] ++ join_slash (s :: segs)).
  rewrite last_app_ne by (intros E; by apply join_slash_nil in E).
  rewrite bool_decide_false by by apply join_slash_last. cbn [length app Nat.ltb Nat.leb andb negb].
  unfold dir_text. f_equal. clear Hg Hn. revert s. induction segs as [|s' segs IH]; intros s.
  - cbn. by rewrite app_nil_r.
  - rewrite join_slash_cons. cbn [map concat] in *. rewrite <- !app_assoc. cbn [app]. f_equal. f_equal. by rewrite IH, <- app_assoc.
Qed.

Lemma merge_absolute d :
  Forall path_segment (dirent_segments d) -> fits cwd d -> exists text,
    apr_filepath_merge None d APR_FILEPATH_NOTRELATIVE = Ok text /\ merged_text (absolute_segments cwd d) text /\
    resolved (absolute_segments cwd d).
Proof.
  unfold dirent_segments, absolute_segments, fits, apr_filepath_merge. intros Hs Hfit.
  assert (Hcwd : resolved cwd) by (eapply Forall_impl; [exact utf8_cwd|]; by intros s (? & ? & _)).
  change (has_flag APR_FILEPATH_NOTRELATIVE APR_FILEPATH_SECUREROOTTEST) with false.
  change (has_flag APR_FILEPATH_NOTRELATIVE APR_FILEPATH_NOTABSOLUTE) with false.
  change (has_flag APR_FILEPATH_NOTRELATIVE APR_FILEPATH_NOTABOVEROOT) with false.
  change (has_flag APR_FILEPATH_NOTRELATIVE APR_FILEPATH_NOTRELATIVE) with true.
  unfold dirent_segments in *. destruct (rooted d) eqn:Er; unfold rooted in Er; rewrite Er; cbv iota.
  - rewrite bool_decide_true by done. cbn [andb negb mbind result_bind length]. rewrite (proj2 (Nat.ltb_ge _ _)) by lia.
    destruct d as [|c r]; [done|]. apply Z.eqb_eq in Er. change (deref (c :: r)) with c in Er. subst c. cbn [tail] in *.
    assert (span (fun c => c =? SLASH) (SLASH :: r) = ([SLASH], r)) as ->.
    { pose proof (join_head _ Hs) as Hh. rewrite join_segments in Hh. cbn [span]. rewrite Z.eqb_refl.
      destruct r as [|c r]; [done|]. cbn [span]. by rewrite (proj2 (Z.eqb_neq c SLASH) Hh). }
    cbn [snd mbind result_bind].
    destruct (merge_segments_spec (segments r) [] (length r) 0) as (text & k' & E & Ht & Hr);
      [constructor|done|by rewrite join_segments|].
    rewrite join_segments in E. change (dir_text []) with [SLASH] in E. rewrite E. cbn.
    by exists text.
  - cbn [mbind result_bind]. rewrite utf8_getcwd. cbn [mbind result_bind]. rewrite (proj2 (Nat.ltb_ge _ _)) by lia.
    change (deref (SLASH :: join_slash cwd) =? SLASH) with true. cbn [negb andb]. rewrite root_text. cbn [mbind result_bind].
    destruct (merge_segments_spec (segments d) cwd (length d) (length (dir_text cwd))) as (text & k' & E & Ht & Hr);
      [done|done|by rewrite join_segments|].
    rewrite join_segments in E. rewrite E. cbn. by exists text.
Qed.

Lemma canonical_dirent_segments d :
  c_string d -> svn_dirent_is_canonical d = true ->
  Forall path_segment (dirent_segments d) /\ Forall (fun s => c_string s) (dirent_segments d) /\
  (utf8 d -> Forall utf8 (dirent_segments d)).
Proof.
  intros Hd Hc. unfold dirent_segments. set (r := if rooted d then tail d else d).
  assert (Hr : c_string r) by (unfold r, rooted; destruct (deref d =? SLASH), Hd; by try constructor).
  assert (Hic : relpath_is_canonical r = true).
  { unfold svn_dirent_is_canonical in Hc. unfold r, rooted. by destruct (deref d =? SLASH). }
  apply relpath_is_canonical_spec in Hic; [|done]. split_and!.
  - pose proof (segments_noslash r) as Hn. rewrite Forall_forall in Hn. unfold rel_canonical in Hic.
    rewrite Forall_forall in Hic. apply Forall_forall. intros s Hs. split; [by apply Hic|by apply Hn].
  - apply Forall_forall. intros s Hs. apply Forall_forall. intros c Hcs. rewrite Forall_forall in Hr. apply Hr.
    unfold segments in Hs. case_decide; [by apply elem_of_nil in Hs|]. by eapply elem_of_split_elem.
  - intros Hu. apply utf8_join. rewrite join_segments. unfold r, rooted. destruct d as [|c d]; [done|].
    change (deref (c :: d)) with c. destruct (Z.eqb_spec c SLASH) as [->|]; [|done]. by apply (utf8_slash [] d).
Qed.

(** A canonical dirent has no [://]. *)
Lemma canonical_dirent_no_url d : c_string d -> svn_dirent_is_canonical d = true -> svn_path_is_url d = false.
Proof.
  intros Hd Hc. destruct (canonical_dirent_segments d Hd Hc) as (Hs & _).
  apply bool_decide_eq_false. intros [rest Hurl]. unfold skip_uri_scheme in Hurl.
  assert (Hloop : forall path j, skip_uri_scheme_loop path j = Some rest -> exists a,
            path = a ++ SLASH :: SLASH :: rest /\ deref path <> SLASH).
  { clear. induction path as [|c path IH]; intros j; cbn [skip_uri_scheme_loop]; [done|].
    destruct (Z.eqb_spec c ":"%cc) as [->|].
    - destruct path as [|c1 [|c2 path]]; [by rewrite andb_false_r..|].
      change (char_at (c1 :: c2 :: path) 0) with c1. change (char_at (c1 :: c2 :: path) 1) with c2.
      destruct (Z.eqb_spec c1 SLASH) as [->|]; [|by rewrite andb_false_r].
      destruct (Z.eqb_spec c2 SLASH) as [->|]; [|by rewrite andb_false_r].
      destruct (0 <? j)%nat; [|done]. intros [= <-]. by exists [":"%cc].
    - destruct (Z.eqb_spec c SLASH); [done|]. intros (a & -> & _)%IH. exists (c :: a). by split. }
  destruct (Hloop d 0%nat Hurl) as (a & -> & Hh). unfold dirent_segments, rooted in Hs.
  rewrite (proj2 (Z.eqb_neq _ _)) in Hs by done. unfold segments in Hs. rewrite decide_False in Hs by (by destruct a).
  rewrite split_slash_join in Hs. change (split_slash (SLASH :: rest)) with ([] :: split_slash rest) in Hs.
  apply Forall_app in Hs as [_ [[[? _] _] _]%Forall_cons]. done.
Qed.

Lemma absolute_path_plain d : rooted d = true -> DOTDOT ∉ dirent_segments d -> absolute_path cwd d = d.
Proof.
  intros Hroot Hdd. unfold absolute_path, absolute_segments. rewrite Hroot, resolve_plain by done. cbn [app].
  unfold dirent_segments. rewrite Hroot, join_segments. destruct d as [|c d]; [done|].
  apply Z.eqb_eq in Hroot. by change (deref (c :: d)) with c in Hroot; subst c.
Qed.

(** The absolute form of a dirent, if there is room for it, or if nothing is
    left to do. *)
Lemma get_absolute_spec d :
  c_string d -> svn_dirent_is_canonical d = true -> utf8 d ->
  fits cwd d \/ (rooted d = true /\ DOTDOT ∉ dirent_segments d) ->
  svn_dirent_get_absolute d = Ok (absolute_path cwd d).
Proof.
  intros Hd Hc Hu Hfit. destruct (canonical_dirent_segments d Hd Hc) as (Hs & Hcs & Hus). specialize (Hus Hu).
  unfold svn_dirent_get_absolute. rewrite canonical_dirent_no_url by done. cbn [negb svn_err_assert mbind result_bind].
  rewrite cstring_from_utf8_spec by done. cbn [mbind result_bind].
  destruct (decide (fits cwd d)) as [Hf|Hf].
  - destruct (merge_absolute d Hs Hf) as (text & -> & Ht & Hr).
    assert (Hstart : forall P : bytes -> Prop,
              (forall s, path_segment s /\ s <> DOTDOT /\ c_string s /\ utf8 s -> P s) ->
              Forall P (if rooted d then [] else cwd)).
    { intros P HP. destruct (rooted d); [done|]. eapply Forall_impl; [exact utf8_cwd|]. exact HP. }
    assert (Hac : Forall (fun s => c_string s) (absolute_segments cwd d)).
    { apply resolve_all; [|done]. apply Hstart. by intros s (_ & _ & ? & _). }
    assert (Hau : Forall utf8 (absolute_segments cwd d)).
    { apply resolve_all; [|done]. apply Hstart. by intros s (_ & _ & _ & ?). }
    rewrite cstring_to_utf8_spec by (by eapply merged_text_string || by eapply merged_text_utf8).
    cbn [mbind result_bind]. by apply merged_canonicalize.
  - destruct Hfit as [?|[Hroot Hdd]]; [done|].
    assert (apr_filepath_merge None d APR_FILEPATH_NOTRELATIVE = Err APR_ENAMETOOLONG) as ->.
    { unfold fits in Hf. rewrite Hroot in Hf. unfold apr_filepath_merge. unfold rooted in Hroot. rewrite Hroot.
      cbn [mbind result_bind length].
      change (has_flag APR_FILEPATH_NOTRELATIVE APR_FILEPATH_SECUREROOTTEST) with false.
      change (has_flag APR_FILEPATH_NOTRELATIVE APR_FILEPATH_NOTABSOLUTE) with false.
      change (has_flag APR_FILEPATH_NOTRELATIVE APR_FILEPATH_NOTABOVEROOT) with false. cbv iota.
      rewrite bool_decide_true by done. cbn [andb negb mbind result_bind length]. by rewrite (proj2 (Nat.ltb_lt _ _)) by lia. }
    pose proof (absolute_path_plain d Hroot Hdd) as Habs.
    assert (svn_dirent_is_absolute d = true) as -> by (unfold rooted in Hroot; by destruct d).
    rewrite Hc. assert (svn_path_is_backpath_present d = false) as ->; [|by rewrite Habs].
    apply not_true_iff_false. rewrite backpath_present_spec by done. intros Hin. apply Hdd.
    unfold dirent_segments. rewrite Hroot. destruct d as [|c d]; [done|]. apply Z.eqb_eq in Hroot.
    change (deref (c :: d)) with c in Hroot. subst c. cbn [tail]. change (split_slash (SLASH :: d)) with ([] :: split_slash d) in Hin.
    apply elem_of_cons in Hin as [?|Hin]; [done|]. unfold segments. case_decide; [subst|done].
    by apply list_elem_of_singleton in Hin.
Qed.
End Absolute.

(** ** URLs of files *)

Lemma encode_spec s :
  svn_path_uri_encode s = concat (map (fun c => if valid c then [c] else percent_escape c) s).
Proof. apply uri_escape_spec. Qed.

Lemma encode_app s t : svn_path_uri_encode (s ++ t) = svn_path_uri_encode s ++ svn_path_uri_encode t.
Proof. by rewrite !encode_spec, map_app, concat_app. Qed.

Lemma encode_join segs :
  svn_path_uri_encode (join_slash segs) = join_slash (map svn_path_uri_encode segs).
Proof.
  induction segs as [|s segs IH]; [done|]. cbn [map]. rewrite !join_slash_cons, encode_app.
  destruct segs as [|s' segs]; [done|]. f_equal.
  change (SLASH :: join_slash (s' :: segs)) with ([SLASH] ++ join_slash (s' :: segs)). by rewrite encode_app, IH.
Qed.

Lemma encode_segment s : c_string s -> good s -> SLASH ∉ s -> canonical_segment (svn_path_uri_encode s).
Proof.
  intros Hs [Hne Hd] Hn. assert (Hback : svn_path_uri_decode (svn_path_uri_encode s) = s) by by apply decode_encode.
  split_and!.
  - split; intros E; rewrite E in Hback; [by rewrite <- Hback in Hne|by rewrite <- Hback in Hd].
  - clear Hne Hd Hback. induction Hs as [|c s Hc Hs IH]; [apply not_elem_of_nil|].
    apply not_elem_of_cons in Hn as [Hcs Hn]. change (c :: s) with ([c] ++ s). rewrite encode_app.
    apply not_elem_of_app. split; [|by apply IH]. rewrite encode_spec. cbn [map concat]. rewrite app_nil_r.
    destruct (valid c); [by apply not_elem_of_cons; split; [done|apply not_elem_of_nil]|].
    assert (0 <= c / 16 < 16) as R1%upper_hex_upper by dlia. assert (0 <= c mod 16 < 16) as R2%upper_hex_upper by dlia.
    unfold percent_escape. rewrite !not_elem_of_cons.
    split_and!; [done| | |apply not_elem_of_nil]; intros E; symmetry in E;
      [by apply upper_xdigit_not_slash in R1|by apply upper_xdigit_not_slash in R2].
  - clear Hne Hd Hn Hback. induction Hs as [|c s Hc Hs IH]; [constructor|]. change (c :: s) with ([c] ++ s).
    rewrite encode_app. apply uri_text_app; [|done]. rewrite encode_spec. cbn [map concat]. rewrite app_nil_r.
    destruct (valid c) eqn:Ev; [constructor; [done|lia|constructor]|].
    assert (0 <= c / 16 < 16) as R1 by dlia. assert (0 <= c mod 16 < 16) as R2 by dlia.
    constructor; [by apply upper_hex_upper|by apply upper_hex_upper| |constructor].
    unfold hex_value. destruct (upper_hex_digit _ R1) as [_ ->], (upper_hex_digit _ R2) as [_ ->].
    by replace (16 * (c / 16) + c mod 16) with c by dlia.
Qed.

Definition file_parts : uri_parts := mk_parts (cstr "file") None [] None None.

Lemma file_parts_canonical : canonical_parts file_parts.
Proof.
  split; [split|..]; cbn [u_scheme u_user u_host u_port u_path file_parts]; try done.
  - split; [done|by_evaluation].
  - by left.
Qed.

Lemma file_url_absolute `{Native} d segs :
  Forall path_segment segs -> Forall (fun s => c_string s) segs -> svn_dirent_is_canonical d = true ->
  svn_dirent_get_absolute d = Ok (SLASH :: join_slash segs) ->
  exists url, svn_uri_get_file_url_from_dirent d = Ok url /\ svn_uri_is_canonical url = Ok true /\
    svn_uri_get_dirent_from_file_url url = Ok (SLASH :: join_slash segs).
Proof.
  intros Hs Hcs Hc Hget.
  assert (Hall : Forall canonical_segment (map svn_path_uri_encode segs)).
  { apply Forall_fmap, Forall_forall. intros s Hin. unfold compose. rewrite Forall_forall in Hs, Hcs.
    destruct (Hs s Hin). by apply encode_segment; [apply Hcs|..]. }
  assert (Henc : svn_path_uri_encode (SLASH :: join_slash segs) = SLASH :: join_slash (map svn_path_uri_encode segs)).
  { change (SLASH :: join_slash segs) with ([SLASH] ++ join_slash segs). by rewrite encode_app, <- encode_join. }
  assert (Hd : c_string (SLASH :: join_slash segs)).
  { constructor; [done|]. apply Forall_forall. intros x [->|(s & Hin & Hx)]%elem_of_join_slash; [done|].
    rewrite Forall_forall in Hcs. specialize (Hcs s Hin). rewrite Forall_forall in Hcs. by apply Hcs. }
  set (url := uri_of (with_path file_parts (map svn_path_uri_encode segs))).
  assert (Hurl : url = cstr "file://" ++ path_text (map svn_path_uri_encode segs)).
  { unfold url. by rewrite uri_of_with_path. }
  pose proof (canonical_is_canonical _ (with_path_canonical _ _ file_parts_canonical Hall)) as Hcan. fold url in Hcan.
  pose proof (decode_encode (SLASH :: join_slash segs) Hd) as Hback. rewrite Henc in Hback.
  exists url. split; [|split; [done|]].
  - unfold svn_uri_get_file_url_from_dirent. rewrite Hc, Hget. cbn [c_assert mbind result_bind]. rewrite Henc, Hurl.
    do 2 f_equal. clear Hback. destruct (map svn_path_uri_encode segs) as [|s segs'] eqn:E; [done|].
    rewrite bool_decide_false; [done|]. intros [= Hj]. apply (join_slash_nil (s :: segs')) in Hj; [done|].
    eapply Forall_impl; [exact Hall|]. by intros x (? & _).
  - unfold svn_uri_get_dirent_from_file_url. rewrite Hcan. cbn [mbind result_bind]. rewrite Hurl, strip_prefix_app.
    clear Hurl Hall Henc. destruct (map svn_path_uri_encode segs) as [|s segs'] eqn:E.
    + cbn [join_slash] in Hback. cbn [path_text]. rewrite <- Hback. by vm_compute.
    + cbn [path_text]. change (strchr (SLASH :: join_slash (s :: segs')) SLASH) with (Some (SLASH :: join_slash (s :: segs'))).
      cbv iota beta. rewrite Nat.sub_diag. cbn [take]. rewrite bool_decide_true by done. cbn [orb]. by rewrite Hback.
Qed.

(** C21: In a UTF-8 locale, a canonical dirent in UTF-8 is made absolute by
    putting the working directory in front of it, if it is relative, and
    resolving the segments [..], if there is room for it or nothing is left to
    do; the file URL of the dirent is canonical, and leads back to this
    absolute path, which for an absolute dirent without [..] is the dirent
    itself. *)
Theorem file_url_dirent `{Utf8Locale} d (Hd : c_string d) (Hu : utf8 d) (Hc : svn_dirent_is_canonical d = true)
    (Hfit : fits cwd d \/ (rooted d = true /\ DOTDOT ∉ dirent_segments d)) :
  svn_dirent_get_absolute d = Ok (absolute_path cwd d) /\
  (exists url, svn_uri_get_file_url_from_dirent d = Ok url /\ svn_uri_is_canonical url = Ok true /\
     svn_uri_get_dirent_from_file_url url = Ok (absolute_path cwd d)) /\
  (rooted d = true -> DOTDOT ∉ dirent_segments d -> absolute_path cwd d = d).
Proof.
  pose proof (get_absolute_spec d Hd Hc Hu Hfit) as Hget. split; [done|]. split; [|by apply absolute_path_plain].
  destruct (canonical_dirent_segments d Hd Hc) as (Hs & Hcs & _).
  assert (Hcwd : Forall (fun s => path_segment s /\ c_string s) (if rooted d then [] else cwd)).
  { destruct (rooted d); [done|]. eapply Forall_impl; [exact utf8_cwd|]. by intros s (? & _ & ? & _). }
  apply file_url_absolute; [| |done|done]; apply resolve_all; try done; (eapply Forall_impl; [exact Hcwd|]);
    by intros s [? ?].
Qed.

Definition utf8_locale (cwd : list bytes) : Native :=
  {| getcwd := Ok (SLASH :: join_slash cwd); uton_xlate := Ok (Some Ok); ntou_xlate := Ok (Some Ok) |}.

Lemma utf8_locale_ok cwd :
  Forall (fun s => path_segment s /\ s <> DOTDOT /\ c_string s /\ utf8 s) cwd -> @Utf8Locale (utf8_locale cwd) cwd.
Proof. intros Hcwd. split; [by exists Ok..|done|done]. Qed.

Lemma file_url_dirent_witness : exists url,
  @svn_uri_get_file_url_from_dirent (utf8_locale [cstr "home"; cstr "me"]) (cstr "../you/100%") = Ok url /\
  svn_uri_is_canonical url = Ok true /\ svn_uri_get_dirent_from_file_url url = Ok (cstr "/home/you/100%").
Proof.
  assert (Hok : @Utf8Locale (utf8_locale [cstr "home"; cstr "me"]) [cstr "home"; cstr "me"]).
  { apply utf8_locale_ok. repeat constructor; (done || by_evaluation). }
  apply (@file_url_dirent _ _ Hok (cstr "../you/100%")); [by_evaluation|by vm_compute|by vm_compute|].
  left. by_evaluation.
Defined.

(** Above the root there is nothing; a long absolute dirent is returned as it
    is, unless it contains [..]. *)
Example absolute_dirents :
  let native := utf8_locale [cstr "home"; cstr "me"] in
  let long := concat (replicate 2048 (cstr "/a")) in
  @svn_dirent_get_absolute native (cstr "/a/../../b") = Ok (cstr "/b") /\
  @svn_dirent_get_absolute native (cstr "") = Ok (cstr "/home/me") /\
  @svn_dirent_get_absolute native long = Ok long /\
  @svn_dirent_get_absolute native (long ++ cstr "/..") = Err SVN_ERR_BAD_FILENAME.
Proof. by vm_compute. Qed.

(** Paths under a root. *)
Example under_root :
  let native := utf8_locale [] in
  @svn_dirent_is_under_root native (cstr "/a/b") (cstr "c/../d") = Ok (true, Some (cstr "/a/b/d")) /\
  @svn_dirent_is_under_root native (cstr "/a/b") (cstr "../d") = Ok (false, None) /\
  @svn_dirent_is_under_root native (cstr "/a/b") (cstr "/a/b/c") = Ok (false, None).
Proof. by vm_compute. Qed.

Example condense_dirents :
  @svn_dirent_condense_targets (utf8_locale [cstr "w"]) [cstr "/w/a"; cstr "b/x"; cstr "a/y"; cstr "../w/b"] true
  = Ok (Some (cstr "/w"), [cstr "a"; cstr "b"]).
Proof. by vm_compute. Qed.

(** ** Boundary cases *)

(** A port that is the default one but for a leading zero is kept by the
    conversion and refused by the test, so the safe variant fails. *)
Example port_leading_zero :
  svn_uri_canonicalize (cstr "http://host:080/") = Ok (cstr "http://host:080") /\
  svn_uri_is_canonical (cstr "http://host:080") = Ok false /\
  svn_uri_canonicalize_safe (cstr "http://host:080/") = Err SVN_ERR_CANONICALIZATION_FAILED.
Proof. by vm_compute. Qed.

(** The test adds up the digits of the port in a signed number. *)
Example port_overflow :
  svn_uri_canonicalize (cstr "http://host:99999999999999999999") = Ok (cstr "http://host:99999999999999999999") /\
  svn_uri_is_canonical (cstr "http://host:99999999999999999999") = Err C_UNDEFINED.
Proof. by vm_compute. Qed.

(** Behind a default port without a host a slash of the scheme is removed. *)
Example port_without_host :
  svn_uri_canonicalize (cstr "http://:80") = Ok (cstr "http:/") /\
  svn_uri_canonicalize_safe (cstr "http://:80") = Err SVN_ERR_CANONICALIZATION_FAILED.
Proof. by vm_compute. Qed.

(** The test accepts a port in upper case, which the conversion changes. *)
Example port_upper_case :
  svn_uri_is_canonical (cstr "http://host:1STUFF") = Ok true /\
  svn_uri_canonicalize (cstr "http://host:1STUFF") = Ok (cstr "http://host:1stuff").
Proof. by vm_compute. Qed.

(** Of the targets those are left that are not below another one. *)
Example condense :
  svn_uri_condense_targets [cstr "http://host/A/B"; cstr "HTTP://host:80/A/C%20d/"; cstr "http://host/A/B/x"] true
  = Ok (Some (cstr "http://host/A"), [cstr "B"; cstr "C d"]).
Proof. by vm_compute. Qed.
