(* ===== verification/Adler32.v ===== *)
(** * Checksums of lines (libsvn_subr/adler32.c)

    Long buffers go to zlib's [adler32], which is a parameter; short ones are
    summed up here, with 32-bit sums that are reduced at the end only. *)

From S2P Require Import Prelude Buffers.

Definition ADLER_MOD_BASE : Z := 65521.

(** [s1 += b; s2 += s1;] *)
Definition adler_step (s : Z * Z) (b : Z) : Z * Z :=
  let s1 := u32 (s.1 + b) in (s1, u32 (s.2 + s1)).

(** The unrolled loop, which leaves less than eight bytes. *)
Fixpoint adler_unrolled (data : bytes) (s : Z * Z) : (Z * Z) * bytes :=
  match data with
  | b0 :: b1 :: b2 :: b3 :: b4 :: b5 :: b6 :: b7 :: data =>
      let s := adler_step s b0 in
      let s := adler_step s b1 in
      let s := adler_step s b2 in
      let s := adler_step s b3 in
      let s := adler_step s b4 in
      let s := adler_step s b5 in
      let s := adler_step s b6 in
      let s := adler_step s b7 in
      adler_unrolled data s
  | _ => (s, data)
  end.

Fixpoint adler_loop (data : bytes) (s : Z * Z) : Z * Z :=
  match data with
  | [] => s
  | b :: data => adler_loop data (adler_step s b)
  end.

Definition svn__adler32 (adler32 : Z -> bytes -> Z) (checksum : Z) (data : bytes) : Z :=
  if 80 <=? zlen data then u32 (adler32 checksum data)
  else
    let s1 := Z.land checksum 0xFFFF in
    let s2 := Z.shiftr checksum 16 in
    let '(s, input) := adler_unrolled data (s1, s2) in
    let '(s1, s2) := adler_loop input s in
    Z.lor (u32 (Z.shiftl (s2 mod ADLER_MOD_BASE) 16)) (s1 mod ADLER_MOD_BASE).

(** ** RFC 1950 *)

(** Both sums are kept modulo 65521. *)
Definition rfc_step (s : Z * Z) (b : Z) : Z * Z :=
  let s1 := (s.1 + b) mod ADLER_MOD_BASE in (s1, (s.2 + s1) mod ADLER_MOD_BASE).

Definition rfc_adler32 (checksum : Z) (data : bytes) : Z :=
  let s := foldl rfc_step (checksum mod 2 ^ 16 mod ADLER_MOD_BASE, checksum / 2 ^ 16 mod ADLER_MOD_BASE) data in
  s.2 * 2 ^ 16 + s.1.

(** ** They agree *)

Lemma adler_loop_foldl data : forall s, adler_loop data s = foldl adler_step s data.
Proof. induction data as [|b data IH]; intros s; [done|]. apply IH. Qed.

Lemma adler_unrolled_spec n : forall data s, (length data < n)%nat ->
  let '(s', rest) := adler_unrolled data s in foldl adler_step s data = foldl adler_step s' rest.
Proof.
  induction n as [|n IH]; intros data s Hn; [lia|].
  destruct data as [|b0 [|b1 [|b2 [|b3 [|b4 [|b5 [|b6 [|b7 data]]]]]]]]; try done.
  cbn [adler_unrolled foldl]. apply IH. simpl in Hn. lia.
Qed.

(** The sums of short buffers do not overflow. *)
Lemma adler_sums data : forall s t n,
  Forall is_byte data -> 0 <= s.1 <= 65535 + 255 * n -> 0 <= s.2 <= 65535 + n * 90000 -> 0 <= n -> n + zlen data <= 80 ->
  t.1 = s.1 mod ADLER_MOD_BASE -> t.2 = s.2 mod ADLER_MOD_BASE ->
  let s' := foldl adler_step s data in let t' := foldl rfc_step t data in
  t'.1 = s'.1 mod ADLER_MOD_BASE /\ t'.2 = s'.2 mod ADLER_MOD_BASE /\ 0 <= s'.1 /\ 0 <= s'.2.
Proof.
  induction data as [|b data IH]; intros s t n Hb H1 H2 Hn Hlen E1 E2; [cbn; split_and!; [done|done|lia|lia]|].
  apply Forall_cons in Hb as [Hb Hdata]. rewrite zlen_cons in Hlen. pose proof (zlen_nonneg data). unfold is_byte in Hb.
  assert (adler_step s b = (s.1 + b, s.2 + (s.1 + b))) as Es.
  { unfold adler_step. cbn zeta. rewrite !u32_small; [done|lia..]. }
  cbn [foldl]. apply (IH _ _ (n + 1)); rewrite ?Es; cbn [fst snd]; [done|lia..| |].
  - unfold rfc_step. cbn [fst]. rewrite E1. by rewrite Zplus_mod_idemp_l.
  - unfold rfc_step. cbn [fst snd]. rewrite E1, E2, (Zplus_mod_idemp_l s.1 b), Zplus_mod_idemp_l, Zplus_mod_idemp_r. done.
Qed.

Lemma rfc_step_range s b : 0 <= (rfc_step s b).1 < 65521 /\ 0 <= (rfc_step s b).2 < 65521.
Proof. unfold rfc_step, ADLER_MOD_BASE. cbn [fst snd]. split; apply Z.mod_pos_bound; lia. Qed.

(** What is summed up here is the checksum of the standard. *)
Lemma svn__adler32_short adler32 checksum data :
  0 <= checksum < 2 ^ 32 -> Forall is_byte data -> zlen data < 80 ->
  svn__adler32 adler32 checksum data = rfc_adler32 checksum data.
Proof.
  intros Hc Hb Hlen. unfold svn__adler32, rfc_adler32. rewrite (proj2 (Z.leb_gt 80 _)) by done. cbn zeta.
  assert (Z.land checksum 65535 = checksum mod 2 ^ 16) as -> by (change 65535 with (Z.ones 16); by rewrite Z.land_ones).
  rewrite Z.shiftr_div_pow2 by done.
  pose proof (adler_unrolled_spec (S (length data)) data (checksum mod 2 ^ 16, checksum / 2 ^ 16) ltac:(lia)) as Hu.
  destruct (adler_unrolled data _) as [s rest]. rewrite adler_loop_foldl, <- Hu.
  pose proof (adler_sums data (checksum mod 2 ^ 16, checksum / 2 ^ 16)
    (checksum mod 2 ^ 16 mod ADLER_MOD_BASE, checksum / 2 ^ 16 mod ADLER_MOD_BASE) 0 Hb) as Hs. cbn [fst snd] in Hs.
  specialize (Hs ltac:(dlia) ltac:(dlia) ltac:(lia) ltac:(lia) eq_refl eq_refl). cbn zeta in Hs.
  destruct (foldl adler_step _ data) as [s1 s2]. cbn [fst snd] in Hs. destruct Hs as (-> & -> & H1 & H2).
  pose proof (Z.mod_pos_bound s1 ADLER_MOD_BASE ltac:(done)). pose proof (Z.mod_pos_bound s2 ADLER_MOD_BASE ltac:(done)).
  unfold ADLER_MOD_BASE in *. rewrite u32_small.
  - apply lor_fields; lia.
  - rewrite Z.shiftl_mul_pow2 by done. lia.
Qed.

Lemma rfc_adler32_range checksum data : 0 <= rfc_adler32 checksum data < 2 ^ 32.
Proof.
  unfold rfc_adler32. cbn zeta.
  assert (forall s, 0 <= s.1 < 65521 /\ 0 <= s.2 < 65521 ->
            0 <= (foldl rfc_step s data).1 < 65521 /\ 0 <= (foldl rfc_step s data).2 < 65521) as H.
  { induction data as [|b data IH]; intros s Hs; [done|]. cbn [foldl]. apply IH, rfc_step_range. }
  specialize (H (checksum mod 2 ^ 16 mod ADLER_MOD_BASE, checksum / 2 ^ 16 mod ADLER_MOD_BASE)).
  unfold ADLER_MOD_BASE in *. cbn [fst snd] in H. destruct H as [H1 H2].
  { split; apply Z.mod_pos_bound; lia. }
  split; [lia|]. lia.
Qed.
