(* ===== verification/DiffNormalize.v ===== *)
(** * Lines without differences that do not matter (libsvn_diff/util.c)

    White space and the style of line ends can be ignored when lines are
    compared.  The function that normalizes a line copies as little as it can:
    what is already normal stays where it is, and is returned without a copy if
    there is one such block only.  It is compared with the plain definition
    that writes character after character. *)

From S2P Require Import Prelude Buffers Ctype.

Inductive svn_diff_file_ignore_space_t :=
  | svn_diff_file_ignore_space_none
  | svn_diff_file_ignore_space_change
  | svn_diff_file_ignore_space_all.

#[export] Instance ignore_space_eq_dec : EqDecision svn_diff_file_ignore_space_t.
Proof. solve_decision. Defined.

Record svn_diff_file_options_t := mk_file_options {
  ignore_space : svn_diff_file_ignore_space_t;
  ignore_eol_style : bool;
  show_c_function : bool;
  context_size : Z
}.

Inductive svn_diff__normalize_state_t :=
  | svn_diff__normalize_state_normal
  | svn_diff__normalize_state_whitespace
  | svn_diff__normalize_state_cr.

#[export] Instance normalize_state_eq_dec : EqDecision svn_diff__normalize_state_t.
Proof. solve_decision. Defined.

(** Characters 13 and 10. *)
Definition CR : Z := 13.
Definition LF : Z := 10.

(** ** The code *)

(** The variables of the loop; [ns_tgt] is what is between [*tgt] and
    [tgt_newend]. *)
Record norm_t := mk_norm {
  ns_start : Z;
  ns_include_len : Z;
  ns_last_skipped : bool;
  ns_tgt : bytes
}.

Section Normalize.
(** The size of the target buffer, the source (which does not overlap with
    it) and the options. *)
Context (room : Z) (buf : bytes) (opts : svn_diff_file_options_t).

Definition write_tgt (tgt data : bytes) : result bytes :=
  if zlen tgt + zlen data <=? room then Ok (tgt ++ data) else Err C_UNDEFINED.

Definition COPY_INCLUDED_SECTION (curp : Z) (s : norm_t) : result norm_t :=
  tgt ← (if 0 <? ns_include_len s then
           section ← memcpy_from buf (ns_start s) (ns_include_len s);
           write_tgt (ns_tgt s) section
         else Ok (ns_tgt s));
  Ok (mk_norm curp 0 (ns_last_skipped s) tgt).

Definition SKIP (curp : Z) (s : norm_t) : norm_t :=
  mk_norm (if ns_start s =? curp then ns_start s + 1 else ns_start s) (ns_include_len s) true (ns_tgt s).

Definition INCLUDE (curp : Z) (s : norm_t) : result norm_t :=
  s ← (if ns_last_skipped s then COPY_INCLUDED_SECTION curp s else Ok s);
  Ok (mk_norm (ns_start s) (ns_include_len s + 1) false (ns_tgt s)).

Definition INSERT (curp x : Z) (s : norm_t) : result norm_t :=
  s ← COPY_INCLUDED_SECTION curp s;
  tgt ← write_tgt (ns_tgt s) [x];
  Ok (mk_norm (ns_start s) (ns_include_len s) (ns_last_skipped s) tgt).

Definition INCLUDE_AS (curp c x : Z) (s : norm_t) : result norm_t :=
  if c =? x then INCLUDE curp s
  else s ← INSERT curp x s; Ok (SKIP curp s).

Definition normalize_step (curp c : Z) (s : norm_t) (state : svn_diff__normalize_state_t)
    : result (norm_t * svn_diff__normalize_state_t) :=
  if c =? CR then
    s ← (if ignore_eol_style opts then INCLUDE_AS curp c LF s else INCLUDE curp s);
    Ok (s, svn_diff__normalize_state_cr)
  else if c =? LF then
    s ← (if bool_decide (state = svn_diff__normalize_state_cr) && ignore_eol_style opts then Ok (SKIP curp s)
         else INCLUDE curp s);
    Ok (s, svn_diff__normalize_state_normal)
  else if svn_ctype_isspace c && negb (bool_decide (ignore_space opts = svn_diff_file_ignore_space_none)) then
    s ← (if negb (bool_decide (state = svn_diff__normalize_state_whitespace))
            && bool_decide (ignore_space opts = svn_diff_file_ignore_space_change)
         then INCLUDE_AS curp c 32 s
         else Ok (SKIP curp s));
    Ok (s, svn_diff__normalize_state_whitespace)
  else
    s ← INCLUDE curp s;
    Ok (s, svn_diff__normalize_state_normal).

(** [data] is what [buf] has from [curp] on. *)
Fixpoint normalize_loop (data : bytes) (curp : Z) (s : norm_t) (state : svn_diff__normalize_state_t)
    : result (Z * norm_t * svn_diff__normalize_state_t) :=
  match data with
  | [] => Ok (curp, s, state)
  | c :: data =>
      '(s, state) ← normalize_step curp c s state;
      normalize_loop data (curp + 1) s state
  end.

(** What [*tgt] points at when the function returns, and the state. *)
Definition svn_diff__normalize_buffer (state : svn_diff__normalize_state_t)
    : result (bytes * svn_diff__normalize_state_t) :=
  if bool_decide (ignore_space opts = svn_diff_file_ignore_space_none) && negb (ignore_eol_style opts) then
    Ok (buf, state)
  else
    '(curp, s, state) ← normalize_loop buf 0 (mk_norm 0 0 false []) state;
    match ns_tgt s with
    | [] => tgt ← memcpy_from buf (ns_start s) (ns_include_len s); Ok (tgt, state)
    | _ => s ← COPY_INCLUDED_SECTION curp s; Ok (ns_tgt s, state)
    end.

(** ** The definition it is compared with *)

(** What is written for a character. *)
Definition normal_char (c : Z) (state : svn_diff__normalize_state_t) : bytes * svn_diff__normalize_state_t :=
  if c =? CR then ([if ignore_eol_style opts then LF else CR], svn_diff__normalize_state_cr)
  else if c =? LF then
    (if bool_decide (state = svn_diff__normalize_state_cr) && ignore_eol_style opts then [] else [LF],
     svn_diff__normalize_state_normal)
  else if svn_ctype_isspace c && negb (bool_decide (ignore_space opts = svn_diff_file_ignore_space_none)) then
    (if negb (bool_decide (state = svn_diff__normalize_state_whitespace))
        && bool_decide (ignore_space opts = svn_diff_file_ignore_space_change) then [32] else [],
     svn_diff__normalize_state_whitespace)
  else ([c], svn_diff__normalize_state_normal).

Fixpoint normal_text (data : bytes) (state : svn_diff__normalize_state_t) : bytes * svn_diff__normalize_state_t :=
  match data with
  | [] => ([], state)
  | c :: data =>
      let '(out, state) := normal_char c state in
      let '(rest, state) := normal_text data state in
      (out ++ rest, state)
  end.
End Normalize.

(** The normal form of a line. *)
Definition normal_form (opts : svn_diff_file_options_t) (line : bytes) : bytes :=
  if bool_decide (ignore_space opts = svn_diff_file_ignore_space_none) && negb (ignore_eol_style opts) then line
  else (normal_text opts line svn_diff__normalize_state_normal).1.

(** ** They agree *)

Section NormalizeFacts.
Context (room : Z) (buf : bytes) (opts : svn_diff_file_options_t).
Hypothesis Hroom : zlen buf <= room.

(** In front of [curp], [out] was to be written. *)
Record norm_inv (curp : Z) (s : norm_t) (out : bytes) : Prop := {
  ni_start : 0 <= ns_start s /\ 0 <= ns_include_len s /\ ns_start s + ns_include_len s <= curp;
  ni_out : ns_tgt s ++ slice buf (ns_start s) (ns_include_len s) = out;
  ni_block : ns_last_skipped s = false -> ns_start s + ns_include_len s = curp;
  ni_length : zlen out <= curp <= zlen buf
}.

Lemma copy_included_spec curp s out : norm_inv curp s out ->
  COPY_INCLUDED_SECTION room buf curp s = Ok (mk_norm curp 0 (ns_last_skipped s) out).
Proof using Hroom.
  intros [Hs Ho _ Hl]. unfold COPY_INCLUDED_SECTION.
  destruct (Z.ltb_spec 0 (ns_include_len s)) as [Hi|Hi].
  - rewrite memcpy_from_Ok by lia. cbn [mbind result_bind]. unfold write_tgt.
    rewrite <- zlen_app, Ho, (proj2 (Z.leb_le _ _)) by lia. done.
  - replace (ns_include_len s) with 0 in Ho by lia. rewrite slice_zero, app_nil_r in Ho. by rewrite Ho.
Qed.

Lemma norm_inv_flush curp b out : zlen out <= curp <= zlen buf -> norm_inv curp (mk_norm curp 0 b out) out.
Proof.
  intros H. pose proof (zlen_nonneg out).
  split; cbn; [lia|by rewrite slice_zero, app_nil_r|lia|done].
Qed.

Lemma include_spec curp s out c : norm_inv curp s out -> buf !! Z.to_nat curp = Some c ->
  exists s', INCLUDE room buf curp s = Ok s' /\ norm_inv (curp + 1) s' (out ++ [c]).
Proof using Hroom.
  intros Hinv Hc.
  assert (exists s1, (if ns_last_skipped s then COPY_INCLUDED_SECTION room buf curp s else Ok s) = Ok s1 /\
            norm_inv curp s1 out /\ ns_start s1 + ns_include_len s1 = curp) as (s1 & E & Hinv1 & Hend).
  { destruct (ns_last_skipped s) eqn:Es.
    - rewrite (copy_included_spec _ _ _ Hinv). eexists. split; [done|]. split; [apply norm_inv_flush, Hinv|cbn; lia].
    - exists s. split_and!; [done|done|]. by apply (ni_block _ _ _ Hinv). }
  unfold INCLUDE. rewrite E. cbn [mbind result_bind]. eexists. split; [done|].
  destruct Hinv1 as [Hs Ho _ Hl]. apply lookup_lt_Some in Hc as Hlt.
  assert (byte_at buf curp = c) as Eb by (unfold byte_at; by rewrite Hc).
  split; cbn; [lia| |lia|rewrite zlen_app, zlen_cons; unfold zlen in *; simpl; lia].
  rewrite <- Ho, <- app_assoc. f_equal.
  rewrite <- (slice_app buf (ns_start s1) (ns_include_len s1) 1) by lia. f_equal.
  rewrite Hend, slice_byte by (unfold zlen; lia). by rewrite Eb.
Qed.

Lemma skip_spec curp s out : norm_inv curp s out -> curp < zlen buf -> norm_inv (curp + 1) (SKIP curp s) out.
Proof.
  intros [Hs Ho Hb Hl] Hc. unfold SKIP.
  destruct (Z.eqb_spec (ns_start s) curp) as [E|E]; (split; cbn; [lia| |done|lia]); [|done].
  replace (ns_include_len s) with 0 in * by lia. by rewrite slice_zero in *.
Qed.

Lemma include_as_spec curp s out c x : norm_inv curp s out -> buf !! Z.to_nat curp = Some c ->
  exists s', INCLUDE_AS room buf curp c x s = Ok s' /\ norm_inv (curp + 1) s' (out ++ [x]).
Proof using Hroom.
  intros Hinv Hc. unfold INCLUDE_AS. destruct (Z.eqb_spec c x) as [->|Hne]; [by apply include_spec|].
  unfold INSERT. rewrite (copy_included_spec _ _ _ Hinv). cbn [mbind result_bind ns_tgt]. unfold write_tgt.
  apply lookup_lt_Some in Hc. destruct Hinv as [Hs Ho _ Hl].
  rewrite (proj2 (Z.leb_le _ _)) by (unfold zlen in *; simpl; lia). cbn [mbind result_bind ns_start ns_include_len ns_last_skipped].
  eexists. split; [done|]. unfold SKIP. cbn. rewrite Z.eqb_refl.
  split; cbn; [lia|by rewrite slice_zero, app_nil_r|done|rewrite zlen_app, zlen_cons; unfold zlen in *; simpl; lia].
Qed.

Lemma normalize_step_spec curp s out c state : norm_inv curp s out -> buf !! Z.to_nat curp = Some c ->
  exists s', normalize_step room buf opts curp c s state = Ok (s', (normal_char opts c state).2) /\
    norm_inv (curp + 1) s' (out ++ (normal_char opts c state).1).
Proof using Hroom.
  intros Hinv Hc. assert (curp < zlen buf) as Hlt by (apply lookup_lt_Some in Hc; unfold zlen; destruct Hinv; lia).
  pose proof (skip_spec _ _ _ Hinv Hlt) as Hskip.
  destruct (include_spec _ _ _ _ Hinv Hc) as (s1 & E1 & H1).
  pose proof (include_as_spec _ _ _ _ LF Hinv Hc) as (s2 & E2 & H2).
  pose proof (include_as_spec _ _ _ _ 32 Hinv Hc) as (s3 & E3 & H3).
  unfold normalize_step, normal_char.
  destruct (Z.eqb_spec c CR) as [->|_].
  { destruct (ignore_eol_style opts); [rewrite E2|rewrite E1]; cbn; eauto. }
  destruct (Z.eqb_spec c LF) as [->|_].
  { destruct (bool_decide _ && _); [|rewrite E1]; cbn; [rewrite app_nil_r|]; eauto. }
  destruct (svn_ctype_isspace c && _); [|rewrite E1; cbn; eauto].
  destruct (negb _ && _); [rewrite E3|]; cbn; [|rewrite app_nil_r]; eauto.
Qed.

Lemma normalize_loop_spec data : forall curp s out state, norm_inv curp s out -> drop (Z.to_nat curp) buf = data ->
  exists s', normalize_loop room buf opts data curp s state = Ok (zlen buf, s', (normal_text opts data state).2) /\
    norm_inv (zlen buf) s' (out ++ (normal_text opts data state).1).
Proof using Hroom.
  induction data as [|c data IH]; intros curp s out state Hinv Hd; cbn [normalize_loop normal_text].
  - assert (curp = zlen buf) as ->.
    { apply (f_equal length) in Hd. rewrite length_drop in Hd. simpl in Hd. unfold zlen. destruct Hinv. unfold zlen in *. lia. }
    exists s. by rewrite app_nil_r.
  - assert (buf !! Z.to_nat curp = Some c) as Hc.
    { rewrite <- (Nat.add_0_r (Z.to_nat curp)), <- lookup_drop. by rewrite Hd. }
    destruct (normalize_step_spec curp s out c state Hinv Hc) as (s1 & -> & H1). cbn [mbind result_bind].
    destruct (normal_char opts c state) as [o st]. cbn [fst snd] in *.
    destruct (IH (curp + 1) s1 (out ++ o) st H1) as (s' & E & H').
    { destruct Hinv. replace (Z.to_nat (curp + 1)) with (S (Z.to_nat curp)) by lia.
      erewrite drop_S in Hd by done. by injection Hd. }
    rewrite E. destruct (normal_text opts data st) as [r st']. cbn [fst snd] in *. exists s'. by rewrite app_assoc.
Qed.
End NormalizeFacts.

(** What the function makes of a text from a state on. *)
Definition normalized (opts : svn_diff_file_options_t) (text : bytes) (state : svn_diff__normalize_state_t)
    : bytes * svn_diff__normalize_state_t :=
  if bool_decide (ignore_space opts = svn_diff_file_ignore_space_none) && negb (ignore_eol_style opts) then (text, state)
  else normal_text opts text state.

(** It writes within a buffer of the size of the text. *)
Lemma normalize_buffer_any room buf opts state : zlen buf <= room ->
  svn_diff__normalize_buffer room buf opts state = Ok (normalized opts buf state).
Proof.
  intros Hroom. unfold svn_diff__normalize_buffer, normalized. destruct (bool_decide _ && _); [done|].
  destruct (normalize_loop_spec room buf opts Hroom buf 0 (mk_norm 0 0 false []) [] state) as (s & -> & Hinv).
  { split; cbn; [lia|done|lia|]. pose proof (zlen_nonneg buf). change (zlen []) with 0. lia. }
  { apply drop_0. }
  cbn [mbind result_bind]. rewrite app_nil_l in Hinv. destruct (normal_text opts buf state) as [out st']. cbn [fst snd] in *.
  destruct (ns_tgt s) eqn:Et.
  - destruct Hinv as [Hs Ho _ Hl]. rewrite memcpy_from_Ok by lia. cbn [mbind result_bind].
    rewrite Et in Ho. cbn in Ho. by rewrite Ho.
  - by rewrite (copy_included_spec _ _ Hroom _ _ _ Hinv).
Qed.

Lemma normalized_line opts line : (normalized opts line svn_diff__normalize_state_normal).1 = normal_form opts line.
Proof. unfold normalized, normal_form. by destruct (bool_decide _ && _). Qed.

Lemma normalize_buffer_spec room buf opts : zlen buf <= room ->
  exists state, svn_diff__normalize_buffer room buf opts svn_diff__normalize_state_normal = Ok (normal_form opts buf, state).
Proof.
  intros H. rewrite normalize_buffer_any, <- normalized_line by done. destruct (normalized _ _ _) as [out st]. by exists st.
Qed.

(** The state carries over from one part of a text to the next. *)
Lemma normalized_app opts a b state :
  normalized opts (a ++ b) state =
  let '(x, state1) := normalized opts a state in
  let '(y, state2) := normalized opts b state1 in (x ++ y, state2).
Proof.
  unfold normalized. destruct (bool_decide _ && _); [done|]. revert state.
  induction a as [|c a IH]; intros state; cbn [app normal_text]; [by destruct (normal_text opts b state)|].
  destruct (normal_char opts c state) as [o st]. rewrite IH.
  destruct (normal_text opts a st) as [x st1]. destruct (normal_text opts b st1) as [y st2]. by rewrite app_assoc.
Qed.

(** A normal form is no longer than the line, and is made of bytes. *)
Lemma normal_form_length opts line : zlen (normal_form opts line) <= zlen line.
Proof.
  unfold normal_form. destruct (bool_decide _ && _); [done|].
  generalize svn_diff__normalize_state_normal as st. induction line as [|c line IH]; intros st; [done|].
  cbn [normal_text]. destruct (normal_char opts c st) as [o st'] eqn:E. specialize (IH st').
  destruct (normal_text opts line st') as [r st'']. cbn [fst] in *. rewrite zlen_app, zlen_cons.
  assert (zlen o <= 1); [|lia]. unfold normal_char in E. repeat case_match; simplify_eq; done.
Qed.

Lemma normal_form_bytes opts line : Forall is_byte line -> Forall is_byte (normal_form opts line).
Proof.
  intros H. unfold normal_form. destruct (bool_decide _ && _); [done|].
  generalize svn_diff__normalize_state_normal as st. induction H as [|c line Hc H IH]; intros st; [constructor|].
  cbn [normal_text]. destruct (normal_char opts c st) as [o st'] eqn:E. specialize (IH st').
  destruct (normal_text opts line st') as [r st'']. cbn [fst] in *. apply Forall_app. split; [|done].
  unfold normal_char in E. repeat case_match; simplify_eq;
    first [apply Forall_nil_2|apply Forall_singleton; unfold is_byte, LF, CR in *; lia].
Qed.
