(* ===== verification/DiffToken.v ===== *)
(** * Tokens of the data to compare (libsvn_diff/token.c, diff.h)

    The tokens (lines) of all data sources are entered into search trees, which
    number them, and every source becomes a ring of positions.  The positions
    are objects in a store, pointers to them are indices into it.

    The functions that deliver and compare tokens are a record of operations,
    as in the code; its client is modelled for every such record. *)

From S2P Require Import Prelude.

(** ** Positions *)

Record svn_diff__position_t := mk_position {
  pos_next : option nat;
  token_index : Z;
  offset : Z
}.

Notation position_store := (list svn_diff__position_t).

Definition get_position (store : position_store) (p : option nat) : result svn_diff__position_t :=
  match p ≫= (fun a => store !! a) with
  | Some pos => Ok pos
  | None => Err C_UNDEFINED
  end.

Definition set_next (store : position_store) (p next : option nat) : result position_store :=
  match p with
  | Some a => pos ← get_position store p;
              Ok (<[a := mk_position next (token_index pos) (offset pos)]> store)
  | None => Err C_UNDEFINED
  end.

(** ** Data sources *)

Inductive svn_diff_datasource_e :=
  | svn_diff_datasource_original
  | svn_diff_datasource_modified
  | svn_diff_datasource_latest
  | svn_diff_datasource_ancestor.

#[export] Instance svn_diff_datasource_e_eq_dec : EqDecision svn_diff_datasource_e.
Proof. solve_decision. Defined.

(** The baton is passed to every function and may be changed by it.  There is
    no token at the end of a source. *)
Record svn_diff_fns2_t (Baton Token : Type) := mk_diff_fns {
  datasources_open : Baton -> list svn_diff_datasource_e -> result (Baton * Z * Z);
  datasource_close : Baton -> svn_diff_datasource_e -> result Baton;
  datasource_get_next_token : Baton -> svn_diff_datasource_e -> result (Baton * option (Z * Token));
  token_compare : Baton -> Token -> Token -> result (Baton * Z);
  token_discard : option (Baton -> Token -> Baton);
  token_discard_all : option (Baton -> Baton)
}.
Arguments datasources_open {_ _}.
Arguments datasource_close {_ _}.
Arguments datasource_get_next_token {_ _}.
Arguments token_compare {_ _}.
Arguments token_discard {_ _}.
Arguments token_discard_all {_ _}.
Arguments mk_diff_fns {_ _}.

(** ** Search trees *)

Definition SVN_DIFF__HASH_SIZE : Z := 127.

Section Tokens.
Context {Baton Token : Type} (vtable : svn_diff_fns2_t Baton Token).

(** The field [parent] of the code is written and never read. *)
Inductive svn_diff__node_t :=
  | no_node
  | mk_node (left_ right_ : svn_diff__node_t) (hash index : Z) (token : Token).

Record svn_diff__tree_t := mk_tree {
  root : list svn_diff__node_t;
  node_count : Z
}.

Definition svn_diff__get_node_count (tree : svn_diff__tree_t) : Z := node_count tree.

Definition svn_diff__tree_create : svn_diff__tree_t :=
  mk_tree (replicate (Z.to_nat SVN_DIFF__HASH_SIZE) no_node) 0.

(** The loop of [tree_insert_token]; the result has the index of the node and
    whether it is new. *)
Fixpoint insert_below (node : svn_diff__node_t) (diff_baton : Baton) (count hash : Z) (token : Token)
    : result (svn_diff__node_t * Baton * Z * bool) :=
  match node with
  | no_node => Ok (mk_node no_node no_node hash count token, diff_baton, count, true)
  | mk_node left_ right_ phash index ptoken =>
      let rv := s32 (hash - phash) in
      '(diff_baton, rv) ← (if rv =? 0 then token_compare vtable diff_baton ptoken token
                           else Ok (diff_baton, rv));
      if rv =? 0 then
        let diff_baton := match token_discard vtable with
                          | Some discard => discard diff_baton ptoken
                          | None => diff_baton
                          end in
        Ok (mk_node left_ right_ phash index token, diff_baton, index, false)
      else if 0 <? rv then
        '(left_, diff_baton, index', new) ← insert_below left_ diff_baton count hash token;
        Ok (mk_node left_ right_ phash index ptoken, diff_baton, index', new)
      else
        '(right_, diff_baton, index', new) ← insert_below right_ diff_baton count hash token;
        Ok (mk_node left_ right_ phash index ptoken, diff_baton, index', new)
  end.

Definition tree_insert_token (tree : svn_diff__tree_t) (diff_baton : Baton) (hash : Z) (token : Token)
    : result (svn_diff__tree_t * Baton * Z) :=
  let i := Z.to_nat (hash mod SVN_DIFF__HASH_SIZE) in
  match root tree !! i with
  | Some node =>
      '(node, diff_baton, index, new) ← insert_below node diff_baton (node_count tree) hash token;
      Ok (mk_tree (<[i := node]> (root tree))
            (if new : bool then node_count tree + 1 else node_count tree), diff_baton, index)
  | None => Err C_UNDEFINED
  end.

(** ** Reading a source *)

(** The state of the loop: [start_position] and [position], the first and the
    last position so far. *)
Fixpoint get_tokens_loop (fuel : nat) (store : position_store) (tree : svn_diff__tree_t)
    (diff_baton : Baton) (datasource : svn_diff_datasource_e) (offset : Z)
    (start_position position : option nat)
    : result (position_store * svn_diff__tree_t * Baton * option nat * option nat) :=
  match fuel with
  | O => Err OUT_OF_FUEL
  | S f =>
      '(diff_baton, token) ← datasource_get_next_token vtable diff_baton datasource;
      match token with
      | None => Ok (store, tree, diff_baton, start_position, position)
      | Some (hash, token) =>
          let offset := offset + 1 in
          '(tree, diff_baton, index) ← tree_insert_token tree diff_baton hash token;
          let new := Some (length store) in
          let store := store ++ [mk_position None index offset] in
          '(store, start_position) ←
            (if position is Some _ then store ← set_next store position new; Ok (store, start_position)
             else Ok (store, new));
          get_tokens_loop f store tree diff_baton datasource offset start_position new
      end
  end.

(** The last position of the ring, and no position for an empty source. *)
Definition svn_diff__get_tokens (fuel : nat) (store : position_store) (tree : svn_diff__tree_t)
    (diff_baton : Baton) (datasource : svn_diff_datasource_e) (prefix_lines : Z)
    : result (position_store * svn_diff__tree_t * Baton * option nat) :=
  '(store, tree, diff_baton, start_position, position) ←
    get_tokens_loop fuel store tree diff_baton datasource prefix_lines None None;
  store ← (if position is Some _ then set_next store position start_position else Ok store);
  diff_baton ← datasource_close vtable diff_baton datasource;
  Ok (store, tree, diff_baton, position).
End Tokens.

Arguments no_node {Token}.
Arguments mk_node {Token}.
Arguments mk_tree {Token}.
Arguments root {Token}.
Arguments node_count {Token}.
Arguments svn_diff__tree_create {Token}.
Arguments svn_diff__get_node_count {Token}.
