(* ===== verification/DiffTokenFacts.v ===== *)
(** * Tokens and their numbers

    What the functions of a data source promise (a class), and that reading the
    sources numbers their tokens: two tokens get the same number if and only if
    they are equal, that is, have the same hash and compare as equal. *)

From S2P Require Import Prelude DiffToken.

#[local] Coercion Z.of_nat : nat >-> Z.

(** ** Promises of a data source *)

(** [key] is what the comparison looks at, [kcmp] its order; [valid] is what
    the functions keep true of the baton, [ok] what they need to know of
    tokens, [opened] the sources there are, and [remaining] are the tokens that are still to be read, with
    their hashes. *)
Class DiffFnsLaws {Baton Token K : Type} (vtable : svn_diff_fns2_t Baton Token)
    (key : Token -> K) (kcmp : K -> K -> Z) (valid : Baton -> Prop) (ok : Token -> Prop)
    (opened : svn_diff_datasource_e -> Prop) (remaining : Baton -> svn_diff_datasource_e -> list (Z * Token)) : Prop := {
  kcmp_eq : forall x y, kcmp x y = 0 <-> x = y;
  compare_law : forall b t u, valid b -> ok t -> ok u ->
    exists b', token_compare vtable b t u = Ok (b', kcmp (key t) (key u)) /\ valid b' /\
      forall ds, remaining b' ds = remaining b ds;
  next_law : forall b ds, valid b -> opened ds ->
    exists b', datasource_get_next_token vtable b ds = Ok (b', head (remaining b ds)) /\ valid b' /\
      remaining b' ds = tail (remaining b ds) /\ forall ds', ds' <> ds -> remaining b' ds' = remaining b ds';
  close_law : forall b ds, valid b -> opened ds ->
    exists b', datasource_close vtable b ds = Ok b' /\ valid b' /\ forall ds', remaining b' ds' = remaining b ds';
  discard_law : forall discard b t, token_discard vtable = Some discard -> valid b ->
    valid (discard b t) /\ forall ds, remaining (discard b t) ds = remaining b ds
}.

(** A token of a source. *)
Definition hashed {Token} (ok : Token -> Prop) (ht : Z * Token) : Prop := 0 <= ht.1 < 2 ^ 32 /\ ok ht.2.

Section Tokens.
Context {Baton Token K : Type} (vtable : svn_diff_fns2_t Baton Token).
Context (key : Token -> K) (kcmp : K -> K -> Z) (valid : Baton -> Prop) (ok : Token -> Prop).
Context (opened : svn_diff_datasource_e -> Prop) (remaining : Baton -> svn_diff_datasource_e -> list (Z * Token)).
Context `{!DiffFnsLaws vtable key kcmp valid ok opened remaining}.

Definition same_rest (b b' : Baton) : Prop := forall ds, remaining b' ds = remaining b ds.

#[local] Instance same_rest_preorder : PreOrder same_rest.
Proof. split; [by intros b ds|]. intros b1 b2 b3 H1 H2 ds. by rewrite H2. Qed.

(** What tokens are compared by. *)
Definition identity (ht : Z * Token) : Z * K := (ht.1, key ht.2).

(** ** Search trees *)

(** The comparison with a node. *)
Definition node_cmp (hash : Z) (k : K) (phash : Z) (pk : K) : Z :=
  if s32 (hash - phash) =? 0 then kcmp pk k else s32 (hash - phash).

Lemma s32_zero a b : 0 <= a < 2 ^ 32 -> 0 <= b < 2 ^ 32 -> s32 (a - b) = 0 <-> a = b.
Proof.
  intros Ha Hb. unfold s32. cbn zeta. destruct (Z.ltb_spec ((a - b) mod 2 ^ 32) (2 ^ 31)); dlia.
Qed.

Lemma node_cmp_eq hash k phash pk : 0 <= hash < 2 ^ 32 -> 0 <= phash < 2 ^ 32 ->
  node_cmp hash k phash pk = 0 <-> (hash, k) = (phash, pk).
Proof.
  intros Hh Hp. unfold node_cmp. destruct (Z.eqb_spec (s32 (hash - phash)) 0) as [E|E].
  - apply s32_zero in E as ->; [|done..]. rewrite kcmp_eq. naive_solver.
  - rewrite s32_zero in E by done. rewrite s32_zero by done. naive_solver.
Qed.

Lemma same_identity_false (h hash : Z) (k k' : K) :
  (h, k) <> (hash, k') -> bool_decide (h = hash) && (kcmp k k' =? 0) = false.
Proof.
  intros H. destruct (bool_decide_reflect (h = hash)) as [->|]; [|done]. cbn [andb].
  destruct (Z.eqb_spec (kcmp k k') 0) as [E|]; [|done]. apply kcmp_eq in E as ->. done.
Qed.

(** The number that the search in a tree arrives at. *)
Fixpoint find (node : svn_diff__node_t) (hash : Z) (k : K) : option Z :=
  match node with
  | no_node => None
  | mk_node l r phash index ptoken =>
      let rv := node_cmp hash k phash (key ptoken) in
      if rv =? 0 then Some index else if 0 <? rv then find l hash k else find r hash k
  end.

Fixpoint node_ok (node : svn_diff__node_t) : Prop :=
  match node with
  | no_node => True
  | mk_node l r phash index ptoken => node_ok l /\ node_ok r /\ hashed ok (phash, ptoken)
  end.

(** A token is found, or gets the next number; the search for others ends where
    it did. *)
Lemma insert_below_spec count hash token : hashed ok (hash, token) ->
  forall node b, node_ok node -> valid b ->
  exists node' b' index new,
    insert_below vtable node b count hash token = Ok (node', b', index, new) /\
    node_ok node' /\ valid b' /\ same_rest b b' /\
    (if new then find node hash (key token) = None /\ index = count
     else find node hash (key token) = Some index) /\
    forall h k, 0 <= h < 2 ^ 32 -> find node' h k =
      match find node h k with
      | Some i => Some i
      | None => if bool_decide (h = hash) && (kcmp k (key token) =? 0) then Some index else None
      end.
Proof.
  intros [Hhash Htok]. cbn in Hhash, Htok.
  induction node as [|l IHl r IHr phash index ptoken]; intros b Hok Hb.
  - cbn [insert_below]. eexists _, b, count, true. split; [done|]. split_and!; [done..|].
    intros h k Hh. cbn [find].
    destruct (Z.eqb_spec (node_cmp h k hash (key token)) 0) as [E|E].
    + apply node_cmp_eq in E as [= -> ->]; [|done..]. rewrite bool_decide_true by done.
      by rewrite (proj2 (Z.eqb_eq _ _)) by by apply kcmp_eq.
    + rewrite node_cmp_eq in E by done. rewrite same_identity_false by done. by destruct (0 <? _).
  - destruct Hok as (Hl & Hr & [Hph Hpt]). cbn in Hph, Hpt. cbn [insert_below find].
    assert (exists b1, (if s32 (hash - phash) =? 0 then token_compare vtable b ptoken token
                        else Ok (b, s32 (hash - phash))) = Ok (b1, node_cmp hash (key token) phash (key ptoken)) /\
              valid b1 /\ same_rest b b1) as (b1 & -> & Hb1 & Hs1).
    { unfold node_cmp. destruct (s32 (hash - phash) =? 0); [|by exists b].
      destruct (compare_law b ptoken token) as (b1 & ? & ? & ?); [done..|]. by exists b1. }
    cbn [mbind result_bind].
    destruct (Z.eqb_spec (node_cmp hash (key token) phash (key ptoken)) 0) as [E|E].
    + apply node_cmp_eq in E as [= Eh Ek]; [|done..]. subst phash.
      eexists _, _, index, false. split; [done|]. refine (conj (conj Hl (conj Hr (conj Hhash Htok))) _).
      split_and!; [| |done|].
      * destruct (token_discard vtable) eqn:Ed; [|done]. by apply (discard_law _ b1 ptoken Ed Hb1).
      * intros ds. destruct (token_discard vtable) eqn:Ed; [|done].
        destruct (discard_law _ b1 ptoken Ed Hb1) as [_ Hd]. by rewrite Hd.
      * intros h k Hh. cbn [find]. rewrite <- Ek.
        destruct (Z.eqb_spec (node_cmp h k hash (key token)) 0) as [E|E]; [done|].
        rewrite node_cmp_eq in E by done. rewrite same_identity_false by naive_solver.
        by destruct (if _ : bool then _ else _).
    + rewrite node_cmp_eq in E by done.
      destruct (Z.ltb_spec 0 (node_cmp hash (key token) phash (key ptoken))) as [Hlt|Hlt].
      * destruct (IHl b1 Hl Hb1) as (l' & b2 & index' & new & -> & Hl' & Hb2 & Hs2 & Hnew & Hfind).
        cbn [mbind result_bind]. eexists _, b2, index', new. split; [done|].
        split_and!; [done..|by etrans|done|].
        intros h k Hh. cbn [find]. destruct (node_cmp h k phash (key ptoken) =? 0); [done|].
        destruct (Z.ltb_spec 0 (node_cmp h k phash (key ptoken))); [by apply Hfind|].
        destruct (find r h k); [done|]. by rewrite same_identity_false by (intros [= -> ->]; lia).
      * destruct (IHr b1 Hr Hb1) as (r' & b2 & index' & new & -> & Hr' & Hb2 & Hs2 & Hnew & Hfind).
        cbn [mbind result_bind]. eexists _, b2, index', new. split; [done|].
        split_and!; [done..|by etrans|done|].
        intros h k Hh. cbn [find]. destruct (node_cmp h k phash (key ptoken) =? 0); [done|].
        destruct (Z.ltb_spec 0 (node_cmp h k phash (key ptoken))); [|by apply Hfind].
        destruct (find l h k); [done|]. by rewrite same_identity_false by (intros [= -> ->]; lia).
Qed.

(** ** The numbering *)

(** [ids] are the identities of the tokens so far, each at its number. *)
Record tree_inv (tree : svn_diff__tree_t) (ids : list (Z * K)) : Prop := {
  ti_count : node_count tree = length ids;
  ti_roots : length (root tree) = Z.to_nat SVN_DIFF__HASH_SIZE;
  ti_ok : Forall node_ok (root tree);
  ti_hashes : Forall (fun id => 0 <= id.1 < 2 ^ 32) ids;
  ti_find : forall slot node h k i, root tree !! slot = Some node -> 0 <= h < 2 ^ 32 ->
    slot = Z.to_nat (h mod SVN_DIFF__HASH_SIZE) ->
    find node h k = Some i <-> 0 <= i /\ ids !! Z.to_nat i = Some (h, k)
}.

Lemma tree_create_inv : tree_inv svn_diff__tree_create [].
Proof.
  split; [done|by cbn; rewrite length_replicate|by apply Forall_replicate|constructor|].
  intros slot node h k i Hn _ _. apply lookup_replicate in Hn as [-> _]. cbn. rewrite lookup_nil. naive_solver.
Qed.

Lemma slot_bound h : (Z.to_nat (h mod SVN_DIFF__HASH_SIZE) < Z.to_nat SVN_DIFF__HASH_SIZE)%nat.
Proof. pose proof (Z.mod_pos_bound h SVN_DIFF__HASH_SIZE ltac:(done)). unfold SVN_DIFF__HASH_SIZE in *. lia. Qed.

Lemma lookup_snoc_iff {X} (l : list X) (x y : X) (i : nat) :
  (l ++ [x]) !! i = Some y <-> l !! i = Some y \/ (i = length l /\ x = y).
Proof.
  rewrite lookup_app_Some, list_lookup_singleton_Some. split; [|naive_solver by lia].
  intros [H|[? [? ->]]]; [by left|right; split; [lia|done]].
Qed.

(** A token gets the number of its identity. *)
Lemma tree_insert_spec tree ids b hash token :
  tree_inv tree ids -> valid b -> hashed ok (hash, token) ->
  exists tree' b' index ids',
    tree_insert_token vtable tree b hash token = Ok (tree', b', index) /\ valid b' /\ same_rest b b' /\
    tree_inv tree' ids' /\ ids `prefix_of` ids' /\ 0 <= index /\
    ids' !! Z.to_nat index = Some (hash, key token).
Proof.
  intros [Hc Hl Hok Hh Hf] Hb Ht. pose proof (slot_bound hash) as Hslot.
  set (slot := Z.to_nat (hash mod SVN_DIFF__HASH_SIZE)) in *.
  destruct (lookup_lt_is_Some_2 (root tree) slot) as [node Hn]; [lia|].
  assert (node_ok node) as Hnode by (rewrite Forall_forall in Hok; apply Hok; by eapply list_elem_of_lookup_2).
  destruct (insert_below_spec (node_count tree) hash token Ht node b Hnode Hb) as
    (node' & b' & index & new & E & Hok' & Hb' & Hs & Hnew & Hfind).
  unfold tree_insert_token. fold slot. rewrite Hn, E. cbn [mbind result_bind].
  destruct Ht as [Hhash _]. cbn in Hhash.
  assert (forall s n, <[slot := node']> (root tree) !! s = Some n ->
            (s = slot /\ n = node') \/ (s <> slot /\ root tree !! s = Some n)) as Hlook.
  { intros s n H. destruct (decide (s = slot)) as [->|Hne].
    - left. rewrite list_lookup_insert_eq in H by by eapply lookup_lt_Some. naive_solver.
    - right. by rewrite list_lookup_insert_ne in H. }
  destruct new.
  - destruct Hnew as [Hnone ->].
    eexists _, b', (node_count tree), (ids ++ [(hash, key token)]). split; [done|]. split_and!; [done|done| |by eexists|lia|].
    2:{ apply lookup_snoc_iff. right. split; [lia|done]. }
    split; cbn [root node_count].
    + rewrite length_app. simpl. lia.
    + by rewrite length_insert.
    + by apply Forall_insert.
    + apply Forall_app. split; [done|]. constructor; [done|constructor].
    + intros s n h k i Hs' Hhb Hsl. rewrite lookup_snoc_iff. apply Hlook in Hs' as [[-> ->]|[Hne Hs']].
      * rewrite Hfind by done. specialize (Hf slot node h k). destruct (find node h k) as [i'|] eqn:Ef.
        -- destruct (Hf i' Hn Hhb Hsl) as [Hf1 _]. specialize (Hf1 eq_refl).
           split; [intros [= <-]; tauto|]. intros [Hi [Hids|[Hlen [= <- <-]]]]; [|congruence].
           by apply (proj2 (Hf i Hn Hhb Hsl)).
        -- destruct (bool_decide_reflect (h = hash)) as [->|Hne]; cbn [andb].
           ++ destruct (Z.eqb_spec (kcmp k (key token)) 0) as [Ek|Ek].
              ** apply kcmp_eq in Ek as ->. split; [intros [= <-]; split; [lia|right; split; [lia|done]]|].
                 intros [Hi [Hids|[Hlen _]]]; [|f_equal; lia].
                 destruct (Hf i Hn Hhb Hsl) as [_ Hf2]. by specialize (Hf2 (conj Hi Hids)).
              ** split; [done|]. intros [Hi [Hids|[Hlen [= <-]]]]; [|by rewrite kcmp_eq in Ek].
                 destruct (Hf i Hn Hhb Hsl) as [_ Hf2]. by specialize (Hf2 (conj Hi Hids)).
           ++ split; [done|]. intros [Hi [Hids|[Hlen [= <-]]]]; [|done].
              destruct (Hf i Hn Hhb Hsl) as [_ Hf2]. by specialize (Hf2 (conj Hi Hids)).
      * rewrite (Hf s n h k i) by done. split; [tauto|]. intros [Hi [Hids|[_ [= <- _]]]]; [tauto|].
        by destruct Hne.
  - assert (0 <= index /\ ids !! Z.to_nat index = Some (hash, key token)) as [Hi Hids].
    { by apply (Hf slot node). }
    eexists _, b', index, ids. split; [done|]. split_and!; [done|done| |done|done|done].
    split; cbn [root node_count].
    + done.
    + by rewrite length_insert.
    + by apply Forall_insert.
    + done.
    + intros s n h k i Hs' Hhb Hsl. apply Hlook in Hs' as [[-> ->]|[Hne Hs']]; [|by apply (Hf s n)].
      rewrite Hfind by done. rewrite <- (Hf slot node h k i) by done.
      destruct (find node h k) as [i'|] eqn:Ef; [done|].
      rewrite same_identity_false; [done|]. intros [= -> ->]. congruence.
Qed.

(** Numbers are equal if and only if what they stand for is. *)
Lemma number_unique tree ids i j id : tree_inv tree ids -> 0 <= i -> 0 <= j ->
  ids !! Z.to_nat i = Some id -> ids !! Z.to_nat j = Some id -> i = j.
Proof.
  intros [Hc Hl Hok Hh Hf] Hi Hj Ei Ej. destruct id as [h k].
  assert (0 <= h < 2 ^ 32) as Hhb.
  { rewrite Forall_forall in Hh. apply (Hh (h, k)). by eapply list_elem_of_lookup_2. }
  destruct (lookup_lt_is_Some_2 (root tree) (Z.to_nat (h mod SVN_DIFF__HASH_SIZE))) as [node Hn].
  { rewrite Hl. apply slot_bound. }
  pose proof (proj2 (Hf _ node h k i Hn Hhb eq_refl) (conj Hi Ei)).
  pose proof (proj2 (Hf _ node h k j Hn Hhb eq_refl) (conj Hj Ej)). congruence.
Qed.
End Tokens.
