(* ===== verification/DiffLcs.v ===== *)
(** * The longest common subsequence (libsvn_diff/lcs.c)

    The algorithm of Wu, Manber and Myers on two rings of positions, with its
    array of furthest points.  The chains of matches it builds share their
    ends; they are nodes in a heap, with counts of the references to them and a
    list of free nodes for reuse. *)

From S2P Require Import Prelude DiffToken.

(** ** Chains of matches *)

Record svn_diff__lcs_t := mk_lcs {
  lcs_next : option nat;
  lcs_position0 : option nat;
  lcs_position1 : option nat;
  lcs_length : Z;
  refcount : Z
}.

Notation lcs_store := (list svn_diff__lcs_t).

Definition get_lcs (ns : lcs_store) (lcs : option nat) : result svn_diff__lcs_t :=
  match lcs ≫= (fun a => ns !! a) with
  | Some node => Ok node
  | None => Err C_UNDEFINED
  end.

Definition set_refcount (node : svn_diff__lcs_t) (n : Z) : svn_diff__lcs_t :=
  mk_lcs (lcs_next node) (lcs_position0 node) (lcs_position1 node) (lcs_length node) n.

Definition set_lcs_next (node : svn_diff__lcs_t) (next : option nat) : svn_diff__lcs_t :=
  mk_lcs next (lcs_position0 node) (lcs_position1 node) (lcs_length node) (refcount node).

(** The nodes and the list of free ones. *)
Record lcs_heap := mk_heap {
  nodes : lcs_store;
  freelist : option nat
}.

(** The loop at the start of [svn_diff__snake]: a reference to [lcs] is given
    up. *)
Fixpoint release (fuel : nat) (h : lcs_heap) (lcs : option nat) : result lcs_heap :=
  match lcs with
  | None => Ok h
  | Some a =>
      match fuel with
      | O => Err OUT_OF_FUEL
      | S f =>
          node ← get_lcs (nodes h) lcs;
          let node := set_refcount node (refcount node - 1) in
          let h := mk_heap (<[a := node]> (nodes h)) (freelist h) in
          if negb (refcount node =? 0) then Ok h
          else
            let previous_lcs := lcs_next node in
            let h := mk_heap (<[a := set_lcs_next node (freelist h)]> (nodes h)) (Some a) in
            release f h previous_lcs
      end
  end.

(** A node from the list of free ones, or a new one. *)
Definition take_lcs (h : lcs_heap) (node : svn_diff__lcs_t) : result (lcs_heap * nat) :=
  match freelist h with
  | Some a =>
      free ← get_lcs (nodes h) (Some a);
      Ok (mk_heap (<[a := node]> (nodes h)) (lcs_next free), a)
  | None => Ok (mk_heap (nodes h ++ [node]) None, length (nodes h))
  end.

(** Another reference to [lcs]. *)
Definition retain (h : lcs_heap) (lcs : option nat) : result lcs_heap :=
  match lcs with
  | Some a =>
      node ← get_lcs (nodes h) lcs;
      Ok (mk_heap (<[a := set_refcount node (refcount node + 1)]> (nodes h)) (freelist h))
  | None => Ok h
  end.

(** ** Furthest points *)

Record svn_diff__snake_t := mk_snake {
  y : Z;
  snake_lcs : option nat;
  position0 : option nat;
  position1 : option nat
}.

(** What [apr_pcalloc] makes. *)
Definition zero_snake : svn_diff__snake_t := mk_snake 0 None None None.

(** [fp[k]], where [fp] points to the element [origin] of the array. *)
Definition fp_get (fp : list svn_diff__snake_t) (i : Z) : result svn_diff__snake_t :=
  if i <? 0 then Err C_UNDEFINED
  else match fp !! Z.to_nat i with Some s => Ok s | None => Err C_UNDEFINED end.

Definition fp_set (fp : list svn_diff__snake_t) (i : Z) (s : svn_diff__snake_t)
    : result (list svn_diff__snake_t) :=
  _ ← fp_get fp i; Ok (<[Z.to_nat i := s]> fp).

Section Snake.
Variables (store : position_store) (token_counts0 token_counts1 : list Z).

Definition next_of (p : option nat) : result (option nat) :=
  pos ← get_position store p; Ok (pos_next pos).

Definition count_of (token_counts : list Z) (index : Z) : result Z :=
  if index <? 0 then Err C_UNDEFINED
  else match token_counts !! Z.to_nat index with Some n => Ok n | None => Err C_UNDEFINED end.

Fixpoint match_loop (fuel : nat) (pos0 pos1 : option nat) : result (option nat * option nat) :=
  p0 ← get_position store pos0;
  p1 ← get_position store pos1;
  if token_index p0 =? token_index p1 then
    match fuel with
    | O => Err OUT_OF_FUEL
    | S f => match_loop f (pos_next p0) (pos_next p1)
    end
  else Ok (pos0, pos1).

(** The token only occurs in its own file. *)
Definition is_unique (p : svn_diff__position_t) (other_counts : list Z) : result bool :=
  if 0 <=? token_index p then
    n ← count_of other_counts (token_index p); Ok (n =? 0)
  else Ok false.

(** The loop [while (1)]. *)
Fixpoint snake_loop (fuel : nat) (h : lcs_heap) (previous_lcs start0 start1 pos0 pos1 : option nat)
    : result (lcs_heap * option nat * option nat * option nat) :=
  match fuel with
  | O => Err OUT_OF_FUEL
  | S f =>
      '(pos0, pos1) ← match_loop (length store) pos0 pos1;
      '(h, previous_lcs, start0, start1) ←
        (if bool_decide (pos1 <> start1) then
           p1 ← get_position store pos1;
           s1 ← get_position store start1;
           '(h, lcs) ← take_lcs h (mk_lcs previous_lcs start0 start1 (offset p1 - offset s1) 1);
           Ok (h, Some lcs, pos0, pos1)
         else Ok (h, previous_lcs, start0, start1));
      p0 ← get_position store pos0;
      unique0 ← is_unique p0 token_counts1;
      if unique0 : bool then snake_loop f h previous_lcs (pos_next p0) start1 (pos_next p0) pos1
      else
        p1 ← get_position store pos1;
        unique1 ← is_unique p1 token_counts0;
        if unique1 : bool then snake_loop f h previous_lcs start0 (pos_next p1) pos0 (pos_next p1)
        else Ok (h, previous_lcs, pos0, pos1)
  end.

Definition svn_diff__snake (h : lcs_heap) (fp : list svn_diff__snake_t) (k : Z)
    : result (lcs_heap * list svn_diff__snake_t) :=
  fp_k ← fp_get fp k;
  h ← release (length (nodes h)) h (snake_lcs fp_k);
  below ← fp_get fp (k - 1);
  above ← fp_get fp (k + 1);
  '(start0, start1, previous_lcs) ←
    (if y above <=? y below then
       start1 ← next_of (position1 below); Ok (position0 below, start1, snake_lcs below)
     else
       start0 ← next_of (position0 above); Ok (start0, position1 above, snake_lcs above));
  h ← retain h previous_lcs;
  '(h, lcs, pos0, pos1) ← snake_loop (S (length store)) h previous_lcs start0 start1 start0 start1;
  p1 ← get_position store pos1;
  fp ← fp_set fp k (mk_snake (offset p1) lcs pos0 pos1);
  Ok (h, fp).

(** The two inner loops over [k]. *)
Fixpoint snakes (h : lcs_heap) (fp : list svn_diff__snake_t) (ks : list Z)
    : result (lcs_heap * list svn_diff__snake_t) :=
  match ks with
  | [] => Ok (h, fp)
  | k :: ks => '(h, fp) ← svn_diff__snake h fp k; snakes h fp ks
  end.

(** [for (k = first; k < 0; k++)] *)
Definition ks_up (first : Z) : list Z := seqZ first (- first).

(** [for (k = first; k >= 0; k--)] *)
Definition ks_down (first : Z) : list Z := reverse (seqZ 0 (first + 1)).

(** The loop over [p]; [origin] is where [fp] points into its array. *)
Fixpoint lcs_loop (fuel : nat) (h : lcs_heap) (fp : list svn_diff__snake_t) (origin d p : Z)
    (sentinel1 : nat) : result (lcs_heap * list svn_diff__snake_t) :=
  match fuel with
  | O => Err OUT_OF_FUEL
  | S f =>
      '(h, fp) ← snakes h fp ((fun k => origin + k) <$> ks_up (Z.min d 0 - p));
      '(h, fp) ← snakes h fp ((fun k => origin + k) <$> ks_down (Z.max d 0 + p));
      fp_0 ← fp_get fp origin;
      if bool_decide (position1 fp_0 = Some sentinel1) then Ok (h, fp)
      else lcs_loop f h fp origin d (p + 1) sentinel1
  end.
End Snake.

(** ** Whole sequences *)

Fixpoint lcs_reverse_loop (fuel : nat) (ns : lcs_store) (lcs next : option nat)
    : result (lcs_store * option nat) :=
  match lcs with
  | None => Ok (ns, next)
  | Some a =>
      match fuel with
      | O => Err OUT_OF_FUEL
      | S f =>
          node ← get_lcs ns lcs;
          lcs_reverse_loop f (<[a := set_lcs_next node next]> ns) (lcs_next node) lcs
      end
  end.

Definition svn_diff__lcs_reverse (ns : lcs_store) (lcs : option nat) : result (lcs_store * option nat) :=
  lcs_reverse_loop (length ns) ns lcs None.

(** A position that [apr_pcalloc] made, with its offset. *)
Definition new_position (store : position_store) (offset : Z) : position_store * nat :=
  (store ++ [mk_position None 0 offset], length store).

Definition prepend_lcs (store : position_store) (ns : lcs_store) (lcs : option nat)
    (lines pos0_offset pos1_offset : Z) : result (position_store * lcs_store * nat) :=
  c_assert (0 <? lines);;
  let '(store, pos0) := new_position store pos0_offset in
  let '(store, pos1) := new_position store pos1_offset in
  Ok (store, ns ++ [mk_lcs lcs (Some pos0) (Some pos1) lines 1], length ns).

(** [if (lines) lcs = prepend_lcs (lcs, lines, ...)] *)
Definition maybe_prepend (store : position_store) (ns : lcs_store) (lcs : option nat)
    (lines pos0_offset pos1_offset : Z) : result (position_store * lcs_store * option nat) :=
  if negb (lines =? 0) then
    '(store, ns, lcs) ← prepend_lcs store ns lcs lines pos0_offset pos1_offset; Ok (store, ns, Some lcs)
  else Ok (store, ns, lcs).

(** The numbers of tokens that only occur in one of the files. *)
Fixpoint unique_counts (token_counts_list1 token_counts_list2 : list Z) : Z * Z :=
  match token_counts_list1, token_counts_list2 with
  | c1 :: l1, c2 :: l2 =>
      let '(unique0, unique1) := unique_counts l1 l2 in
      ((if c2 =? 0 then c1 else 0) + unique0, (if c1 =? 0 then c2 else 0) + unique1)
  | _, _ => (0, 0)
  end.

(** A sentinel behind the tail of a ring: it points to the first position, and
    the tail to it. *)
Definition add_sentinel (store : position_store) (position_list : nat) (index : Z)
    : result (position_store * nat) :=
  tail ← get_position store (Some position_list);
  let sentinel := length store in
  let store := store ++ [mk_position (pos_next tail) index (offset tail + 1)] in
  store ← set_next store (Some position_list) (Some sentinel);
  Ok (store, sentinel).

(** The tail points to the first position again. *)
Definition remove_sentinel (store : position_store) (position_list sentinel : nat)
    : result position_store :=
  sentinel_position ← get_position store (Some sentinel);
  set_next store (Some position_list) (pos_next sentinel_position).

(** The offset behind everything. *)
Definition eof_offset (store : position_store) (position_list : option nat) (prefix_lines suffix_lines : Z)
    : result Z :=
  match position_list with
  | Some _ => tail ← get_position store position_list; Ok (offset tail + suffix_lines + 1)
  | None => Ok (prefix_lines + suffix_lines + 1)
  end.

(** The matches of two rings, the last first: everything from the counting of
    unique tokens to the end of the loop over [p].  The result has the first
    match and the sentinels. *)
Definition lcs_of_rings (store : position_store) (ns : lcs_store) (list1 list2 : nat)
    (token_counts_list1 token_counts_list2 : list Z) (num_tokens : Z)
    : result (position_store * lcs_store * option nat * nat * nat) :=
  let '(unique0, unique1) :=
    unique_counts (take (Z.to_nat num_tokens) token_counts_list1)
      (take (Z.to_nat num_tokens) token_counts_list2) in
  tail1 ← get_position store (Some list1);
  head1 ← get_position store (pos_next tail1);
  tail2 ← get_position store (Some list2);
  head2 ← get_position store (pos_next tail2);
  let length0 := offset tail1 - offset head1 + 1 - unique0 in
  let length1 := offset tail2 - offset head2 + 1 - unique1 in
  let fp := replicate (Z.to_nat (length0 + length1 + 3)) zero_snake in
  let origin := length1 + 1 in
  '(store, sentinel0) ← add_sentinel store list1 (-1);
  '(store, sentinel1) ← add_sentinel store list2 (-2);
  let d := length0 - length1 in
  fp ← fp_set fp (origin + (d - 1)) (mk_snake 0 None (pos_next tail1) (Some sentinel1));
  '(h, fp) ← lcs_loop store token_counts_list1 token_counts_list2 (S (Z.to_nat length0))
               (mk_heap ns None) fp origin d 0 sentinel1;
  fp_0 ← fp_get fp origin;
  Ok (store, nodes h, snake_lcs fp_0, sentinel0, sentinel1).

Definition svn_diff__lcs (store : position_store) (ns : lcs_store)
    (position_list1 position_list2 : option nat) (token_counts_list1 token_counts_list2 : list Z)
    (num_tokens prefix_lines suffix_lines : Z) : result (position_store * lcs_store * option nat) :=
  eof0 ← eof_offset store position_list1 prefix_lines suffix_lines;
  eof1 ← eof_offset store position_list2 prefix_lines suffix_lines;
  let '(store, pos0) := new_position store eof0 in
  let '(store, pos1) := new_position store eof1 in
  let lcs := length ns in
  let ns := ns ++ [mk_lcs None (Some pos0) (Some pos1) 0 1] in
  match position_list1, position_list2 with
  | Some list1, Some list2 =>
      '(store, ns, matches, sentinel0, sentinel1) ←
        lcs_of_rings store ns list1 list2 token_counts_list1 token_counts_list2 num_tokens;
      '(store, ns, next) ← maybe_prepend store ns matches suffix_lines
                             (eof0 - suffix_lines) (eof1 - suffix_lines);
      node ← get_lcs ns (Some lcs);
      '(ns, lcs) ← svn_diff__lcs_reverse (<[lcs := set_lcs_next node next]> ns) (Some lcs);
      store ← remove_sentinel store list1 sentinel0;
      store ← remove_sentinel store list2 sentinel1;
      maybe_prepend store ns lcs prefix_lines 1 1
  | _, _ =>
      '(store, ns, lcs) ← maybe_prepend store ns (Some lcs) suffix_lines
                            (eof0 - suffix_lines) (eof1 - suffix_lines);
      maybe_prepend store ns lcs prefix_lines 1 1
  end.
