(* ===== verification/DiffHeap.v ===== *)
(** * The heap of chains of matches

    Chains share their ends.  The invariant says that every live node has as
    many references as its count says, and that free nodes are linked; it gives
    every live node the chain it starts, which no operation changes as long as
    the node is live. *)

From stdpp Require Import gmap.
From S2P Require Import Prelude DiffToken DiffLcs.

(** What a node says about its match. *)
Definition match_pointers : Type := option nat * option nat * Z.

Definition node_match (n : svn_diff__lcs_t) : match_pointers :=
  (lcs_position0 n, lcs_position1 n, lcs_length n).

(** The nodes at the addresses are linked, from [p] to the end. *)
Fixpoint linked (ns : lcs_store) (p : option nat) (addrs : list nat) : Prop :=
  match addrs with
  | [] => p = None
  | a :: addrs => p = Some a /\ exists n, ns !! a = Some n /\ linked ns (lcs_next n) addrs
  end.

Lemma linked_insert ns p addrs a n : a ∉ addrs -> linked ns p addrs -> linked (<[a := n]> ns) p addrs.
Proof.
  revert p. induction addrs as [|b addrs IH]; intros p Ha; [done|].
  intros (-> & m & Hm & Hl). split; [done|]. exists m.
  rewrite list_lookup_insert_ne by set_solver. split; [done|]. apply IH; [set_solver|done].
Qed.

Lemma linked_app ns p addrs ns' : linked ns p addrs -> linked (ns ++ ns') p addrs.
Proof.
  revert p. induction addrs as [|b addrs IH]; intros p; [done|].
  intros (-> & m & Hm & Hl). split; [done|]. exists m. split; [by apply lookup_app_l_Some|by apply IH].
Qed.

Lemma linked_bound ns p addrs : linked ns p addrs -> Forall (fun a => (a < length ns)%nat) addrs.
Proof.
  revert p. induction addrs as [|b addrs IH]; intros p; [constructor|].
  intros (-> & m & Hm & Hl). constructor; [by eapply lookup_lt_Some|by eapply IH].
Qed.

(** ** References *)

(** How often [a] is in a list. *)
Definition occurrences (a : nat) (l : list nat) : Z := Z.of_nat (length (filter (fun b => b = a) l)).

Lemma occurrences_app a l l' : occurrences a (l ++ l') = occurrences a l + occurrences a l'.
Proof. unfold occurrences. rewrite filter_app, length_app. lia. Qed.

Lemma occurrences_perm a l l' : l ≡ₚ l' -> occurrences a l = occurrences a l'.
Proof. intros H. unfold occurrences. by rewrite H. Qed.

Lemma occurrences_self a l : occurrences a (a :: l) = 1 + occurrences a l.
Proof. unfold occurrences. rewrite filter_cons_True by done. simpl. lia. Qed.

Lemma occurrences_other a b l : b <> a -> occurrences a (b :: l) = occurrences a l.
Proof. intros. unfold occurrences. by rewrite filter_cons_False. Qed.

Lemma occurrences_nonneg a l : 0 <= occurrences a l.
Proof. unfold occurrences. lia. Qed.

Lemma occurrences_zero a l : occurrences a l = 0 <-> a ∉ l.
Proof.
  induction l as [|b l IH].
  { split; [set_solver|done]. }
  destruct (decide (b = a)) as [->|Hb].
  - rewrite occurrences_self. pose proof (occurrences_nonneg a l). set_solver by lia.
  - rewrite occurrences_other by done. set_solver.
Qed.

(** The live nodes have their chains in [C]; the references between them. *)
Definition next_at (ns : lcs_store) (a : nat) : option nat := ns !! a ≫= lcs_next.

Definition links (ns : lcs_store) (C : gmap nat (list match_pointers)) : list nat :=
  omap (next_at ns) (elements (dom C)).

Definition chain_of (C : gmap nat (list match_pointers)) (p : option nat) : option (list match_pointers) :=
  match p with None => Some [] | Some a => C !! a end.

Lemma links_ext ns ns' C :
  (forall a, is_Some (C !! a) -> next_at ns a = next_at ns' a) -> links ns C = links ns' C.
Proof.
  intros H. apply list_omap_ext, Forall_Forall2_diag, Forall_forall.
  intros a Ha%elem_of_elements%elem_of_dom. by apply H.
Qed.

Lemma links_insert ns C a l :
  C !! a = None -> links ns (<[a := l]> C) ≡ₚ option_list (next_at ns a) ++ links ns C.
Proof.
  intros H. unfold links. rewrite dom_insert_L, elements_union_singleton by (by apply not_elem_of_dom).
  simpl. by destruct (next_at ns a).
Qed.

Lemma links_delete ns C a l :
  C !! a = Some l -> links ns C ≡ₚ option_list (next_at ns a) ++ links ns (delete a C).
Proof.
  intros H. rewrite <- (links_insert ns (delete a C) a l) by apply lookup_delete_eq.
  by rewrite insert_delete_id.
Qed.

(** ** The invariant *)

(** [R] are the references from outside, [base] the nodes that do not take part. *)
Record heap_inv (base : lcs_store) (h : lcs_heap) (R : list nat) (C : gmap nat (list match_pointers))
    : Prop := {
  hi_base : base `prefix_of` nodes h;
  hi_free : exists F, linked (nodes h) (freelist h) F /\ NoDup F /\
              Forall (fun a => C !! a = None /\ (length base <= a)%nat) F;
  hi_live : forall a l, C !! a = Some l -> (length base <= a)%nat /\
              exists n tl, nodes h !! a = Some n /\ chain_of C (lcs_next n) = Some tl /\
                l = node_match n :: tl /\ refcount n = occurrences a (R ++ links (nodes h) C);
  hi_roots : forall a, a ∈ R -> is_Some (C !! a)
}.

Lemma next_at_insert ns a n b : (a < length ns)%nat ->
  next_at (<[a := n]> ns) b = if decide (a = b) then lcs_next n else next_at ns b.
Proof.
  intros H. unfold next_at. destruct (decide (a = b)) as [<-|Hb].
  - by rewrite list_lookup_insert_eq.
  - by rewrite list_lookup_insert_ne.
Qed.

Lemma prefix_insert (base ns : lcs_store) a n :
  (length base <= a)%nat -> base `prefix_of` ns -> base `prefix_of` <[a := n]> ns.
Proof.
  intros Ha [k ->]. rewrite insert_app_r_alt by done. by eexists.
Qed.

(** A count follows a change of the references from outside to one node. *)
Lemma heap_inv_count base h R R' C a l n :
  heap_inv base h R C -> C !! a = Some l -> nodes h !! a = Some n ->
  (forall b, b <> a -> occurrences b R' = occurrences b R) ->
  (forall b, b ∈ R' -> is_Some (C !! b)) ->
  heap_inv base
    (mk_heap (<[a := set_refcount n (refcount n + occurrences a R' - occurrences a R)]> (nodes h)) (freelist h))
    R' C.
Proof.
  intros [Hbase (F & HF & HFd & HFf) Hlive Hroots] Ha Hn Hother Hroots'.
  assert (a < length (nodes h))%nat as Hlen by by eapply lookup_lt_Some.
  assert (links (<[a := set_refcount n (refcount n + occurrences a R' - occurrences a R)]> (nodes h)) C
          = links (nodes h) C) as Hlinks.
  { apply links_ext. intros b _. rewrite next_at_insert by done.
    destruct decide as [<-|]; [|done]. unfold next_at. by rewrite Hn. }
  split; cbn [nodes freelist].
  - apply prefix_insert; [|done]. by apply (Hlive a l).
  - exists F. split_and!; [|done..]. apply linked_insert; [|done].
    intros HaF. rewrite Forall_forall in HFf. destruct (HFf _ HaF). congruence.
  - intros b lb Hb. destruct (Hlive b lb Hb) as (Hbb & m & tl & Hm & Htl & -> & Hc).
    split; [done|]. rewrite Hlinks. destruct (decide (a = b)) as [<-|Hab].
    + rewrite list_lookup_insert_eq by done. eexists _, tl. split; [done|].
      simplify_eq. split_and!; [done..|]. cbn [set_refcount refcount].
      rewrite occurrences_app in *. lia.
    + rewrite list_lookup_insert_ne by done. exists m, tl. split_and!; [done..|].
      rewrite occurrences_app in *. rewrite Hother by congruence. done.
  - done.
Qed.

Lemma live_lookup base h R C a :
  heap_inv base h R C -> is_Some (C !! a) -> exists n, nodes h !! a = Some n /\ get_lcs (nodes h) (Some a) = Ok n.
Proof.
  intros Hinv [l Hl]. destruct (hi_live _ _ _ _ Hinv a l Hl) as (_ & n & tl & Hn & _).
  exists n. split; [done|]. unfold get_lcs. simpl. by rewrite Hn.
Qed.

Lemma retain_spec base h R C p :
  heap_inv base h R C -> is_Some (chain_of C p) ->
  exists h', retain h p = Ok h' /\ heap_inv base h' (option_list p ++ R) C.
Proof.
  intros Hinv Hp. destruct p as [a|]; [|by exists h]. destruct Hp as [l Hl]. cbn in Hl.
  destruct (live_lookup _ _ _ _ a Hinv) as (n & Hn & Hg); [by eexists|].
  unfold retain. rewrite Hg. cbn [mbind result_bind]. eexists. split; [done|].
  replace (refcount n + 1) with (refcount n + occurrences a (a :: R) - occurrences a R)
    by (rewrite occurrences_self; lia).
  eapply heap_inv_count; [done..| |].
  - intros b Hb. by apply occurrences_other.
  - intros b [->|Hb]%elem_of_cons; [by eexists|by apply (hi_roots _ _ _ _ Hinv)].
Qed.

(** A node without references leaves the live ones. *)
Lemma heap_inv_free base h R C a l n :
  heap_inv base h (a :: R) C -> C !! a = Some l -> nodes h !! a = Some n -> refcount n = 1 ->
  heap_inv base
    (mk_heap (<[a := set_lcs_next (set_refcount n 0) (freelist h)]> (nodes h)) (Some a))
    (option_list (lcs_next n) ++ R) (delete a C).
Proof.
  intros [Hbase (F & HF & HFd & HFf) Hlive Hroots] Ha Hn Hc.
  assert (a < length (nodes h))%nat as Hlen by by eapply lookup_lt_Some.
  destruct (Hlive a l Ha) as (Hba & n' & tl & Hn' & Htl & -> & Hc'). simplify_eq.
  assert (a ∉ R /\ a ∉ links (nodes h) C) as [HaR Hal].
  { simpl in Hc'. rewrite occurrences_self, occurrences_app in Hc'.
    pose proof (occurrences_nonneg a R). pose proof (occurrences_nonneg a (links (nodes h) C)).
    split; apply occurrences_zero; lia. }
  assert (forall b, is_Some (C !! b) -> next_at (nodes h) b <> Some a) as Hnext.
  { intros b Hb E. apply Hal. apply list_elem_of_omap. exists b. split; [|done].
    by apply elem_of_elements, elem_of_dom. }
  set (ns := <[a := _]> (nodes h)).
  assert (links ns (delete a C) = links (nodes h) (delete a C)) as Hlinks.
  { apply links_ext. intros b Hb. unfold ns. rewrite next_at_insert by done.
    destruct decide as [<-|]; [|done]. rewrite lookup_delete_eq in Hb. by destruct Hb. }
  assert (forall p tl', p <> Some a -> chain_of C p = Some tl' -> chain_of (delete a C) p = Some tl') as Hchain.
  { intros [b|] tl' Hb; cbn; [|done]. rewrite lookup_delete_ne by congruence. done. }
  split; cbn [nodes freelist].
  - by apply prefix_insert.
  - exists (a :: F). split_and!.
    + cbn. split; [done|]. eexists. split; [by apply list_lookup_insert_eq|]. cbn.
      apply linked_insert; [|done]. intros HaF. rewrite Forall_forall in HFf.
      destruct (HFf _ HaF). congruence.
    + constructor; [|done]. intros HaF. rewrite Forall_forall in HFf. destruct (HFf _ HaF). congruence.
    + constructor; [by rewrite lookup_delete_eq|]. eapply Forall_impl; [exact HFf|].
      intros b [Hb ?]. split; [|done]. rewrite lookup_delete_None. by right.
  - intros b lb Hb. apply lookup_delete_Some in Hb as [Hab Hb].
    destruct (Hlive b lb Hb) as (Hbb & m & tl' & Hm & Htl' & -> & Hcm).
    split; [done|]. exists m, tl'. unfold ns. rewrite list_lookup_insert_ne by done.
    split_and!; [done| |done|].
    + apply Hchain; [|done]. intros E. apply (Hnext b); [by eexists|]. unfold next_at. by rewrite Hm.
    + rewrite Hcm. change (<[a := _]> (nodes h)) with ns. rewrite Hlinks. simpl.
      rewrite occurrences_other by done. rewrite !occurrences_app.
      rewrite (occurrences_perm b _ _ (links_delete (nodes h) C a _ Ha)), occurrences_app.
      unfold next_at at 1. rewrite Hn. cbn. lia.
  - intros b [Hb|Hb]%elem_of_app.
    + destruct (lcs_next n) as [c|] eqn:E; cbn in Hb; [|by apply not_elem_of_nil in Hb].
      apply list_elem_of_singleton in Hb as ->. cbn in Htl.
      assert (c <> a).
      { intros ->. apply (Hnext a); [by eexists|]. unfold next_at. by rewrite Hn. }
      rewrite lookup_delete_ne by done. by eexists.
    + rewrite lookup_delete_ne by set_solver. apply Hroots. set_solver.
Qed.

Lemma heap_inv_size base h R C : heap_inv base h R C -> (size C <= length (nodes h))%nat.
Proof.
  intros Hinv. rewrite <- size_dom.
  transitivity (size (list_to_set (seq 0 (length (nodes h))) : gset nat)).
  - apply subseteq_size. intros a Ha%elem_of_dom. apply elem_of_list_to_set, elem_of_seq.
    destruct (live_lookup _ _ _ _ a Hinv Ha) as (n & Hn & _). apply lookup_lt_Some in Hn. lia.
  - rewrite size_list_to_set by apply NoDup_seq. by rewrite length_seq.
Qed.

(** Giving up a reference leaves the chains of all others as they are. *)
Lemma release_spec base fuel : forall h R C p,
  heap_inv base h (option_list p ++ R) C -> (size C <= fuel)%nat ->
  exists h' C', release fuel h p = Ok h' /\ heap_inv base h' R C' /\ C' ⊆ C /\
    length (nodes h') = length (nodes h).
Proof.
  induction fuel as [|f IH]; intros h R C [a|] Hinv Hf; cbn [release option_list app] in *;
    [|by exists h, C| |by exists h, C].
  - destruct (hi_roots _ _ _ _ Hinv a) as [l Hl]; [set_solver|].
    assert (size C <> 0)%nat; [|lia]. intros E%map_size_empty_inv. by rewrite E in Hl.
  - destruct (hi_roots _ _ _ _ Hinv a) as [l Hl]; [set_solver|].
    destruct (live_lookup _ _ _ _ a Hinv) as (n & Hn & Hg); [by eexists|].
    assert (a < length (nodes h))%nat as Hlen by by eapply lookup_lt_Some.
    rewrite Hg. cbn [mbind result_bind]. cbn [set_refcount refcount].
    destruct (Z.eqb_spec (refcount n - 1) 0) as [E|E]; cbn [negb].
    + cbn [nodes freelist]. rewrite E, list_insert_insert_eq. change (lcs_next (set_refcount n 0)) with (lcs_next n).
      pose proof (heap_inv_free _ _ _ _ _ _ _ Hinv Hl Hn ltac:(lia)) as Hfree.
      edestruct IH as (h' & C' & Hr & Hi & Hsub & Hln); [exact Hfree| |].
      { rewrite map_size_delete_Some by (by eexists). lia. }
      cbn [nodes freelist] in Hr, Hln. rewrite length_insert in Hln. exists h', C'. split_and!; [done..| |done].
      etrans; [done|]. apply delete_subseteq.
    + eexists _, C. split; [done|]. split_and!; [|done|cbn; by rewrite length_insert].
      replace (refcount n - 1) with (refcount n + occurrences a R - occurrences a (a :: R))
        by (rewrite occurrences_self; lia).
      eapply heap_inv_count; [done..| |].
      * intros b Hb. by rewrite occurrences_other.
      * intros b Hb. apply (hi_roots _ _ _ _ Hinv). set_solver.
Qed.

(** A new node takes over a reference to the chain it continues. *)
Lemma take_spec base h R C prev pos0 pos1 len tl :
  heap_inv base h (option_list prev ++ R) C -> chain_of C prev = Some tl ->
  exists h' a, take_lcs h (mk_lcs prev pos0 pos1 len 1) = Ok (h', a) /\ C !! a = None /\
    heap_inv base h' (a :: R) (<[a := (pos0, pos1, len) :: tl]> C).
Proof.
  intros Hinv Htl.
  set (node := mk_lcs prev pos0 pos1 len 1).
  assert (exists h' a F, take_lcs h node = Ok (h', a) /\ C !! a = None /\ (length base <= a)%nat /\
    nodes h' !! a = Some node /\ (forall b, is_Some (C !! b) -> nodes h' !! b = nodes h !! b) /\
    base `prefix_of` nodes h' /\ linked (nodes h') (freelist h') F /\ NoDup F /\ a ∉ F /\
    Forall (fun b => C !! b = None /\ (length base <= b)%nat) F) as
    (h' & a & F & Htake & Ha & Hba & Hn & Hsame & Hbase & HF & HFd & HaF & HFf).
  { destruct Hinv as [Hbase (F & HF & HFd & HFf) Hlive Hroots]. unfold take_lcs.
    destruct (freelist h) as [a|] eqn:Efree.
    - destruct F as [|a' F]; [done|]. cbn in HF. destruct HF as ([= <-] & m & Hm & HF).
      apply NoDup_cons in HFd as [HaF HFd]. apply Forall_cons in HFf as [[HaC Hba] HFf].
      unfold get_lcs. simpl. rewrite Hm. cbn. eexists _, a, F. split; [done|]. cbn [nodes freelist].
      split_and!; [done..| | | | |done|done|done].
      + apply list_lookup_insert_eq. by eapply lookup_lt_Some.
      + intros b [lb Hb]. rewrite list_lookup_insert_ne; [done|]. congruence.
      + by apply prefix_insert.
      + by apply linked_insert.
    - destruct F as [|a' F]; [|by destruct HF]. eexists _, (length (nodes h)), []. split; [done|].
      cbn [nodes freelist]. split_and!.
      + destruct (C !! _) as [l|] eqn:E; [|done]. destruct (Hlive _ _ E) as (_ & n & tl' & Hn & _).
        apply lookup_lt_Some in Hn. lia.
      + destruct Hbase as [k ->]. rewrite length_app. lia.
      + by rewrite lookup_app_r, Nat.sub_diag.
      + intros b [lb Hb]. destruct (Hlive _ _ Hb) as (_ & n & tl' & Hn & _).
        rewrite Hn. by apply lookup_app_l_Some.
      + destruct Hbase as [k ->]. rewrite <- app_assoc. by eexists.
      + done.
      + constructor.
      + set_solver.
      + constructor. }
  exists h', a. split_and!; [done..|]. destruct Hinv as [_ _ Hlive Hroots].
  assert (forall p l, chain_of C p = Some l -> chain_of (<[a := (pos0, pos1, len) :: tl]> C) p = Some l) as Hchain.
  { intros [b|] l Hb; cbn in *; [|done]. rewrite lookup_insert_ne; [done|congruence]. }
  assert (links (nodes h') (<[a := (pos0, pos1, len) :: tl]> C) ≡ₚ option_list prev ++ links (nodes h) C) as Hlinks.
  { rewrite links_insert by done. unfold next_at at 1. rewrite Hn. cbn.
    rewrite (links_ext (nodes h') (nodes h)); [done|]. intros b Hb. unfold next_at. by rewrite Hsame. }
  assert (occurrences a (option_list prev ++ R ++ links (nodes h) C) = 0) as Hocc.
  { apply occurrences_zero. rewrite !elem_of_app. intros [H|[H|H]].
    - destruct (Hroots a) as [? ?]; [set_solver|congruence].
    - destruct (Hroots a) as [? ?]; [set_solver|congruence].
    - apply list_elem_of_omap in H as (b & Hb%elem_of_elements%elem_of_dom & Hnb).
      destruct Hb as [lb Hb]. destruct (Hlive _ _ Hb) as (_ & m & tl' & Hm & Htl' & _).
      unfold next_at in Hnb. rewrite Hm in Hnb. cbn in Hnb. rewrite Hnb in Htl'. cbn in Htl'. congruence. }
  split.
  - done.
  - exists F. split_and!; [done..|]. apply Forall_forall. intros b Hb. rewrite Forall_forall in HFf.
    destruct (HFf _ Hb). split; [|done]. rewrite lookup_insert_ne; [done|set_solver].
  - intros b lb Hb. rewrite lookup_insert_Some in Hb. destruct Hb as [[<- <-]|[Hab Hb]].
    + split; [done|]. exists node, tl. split_and!; [done|by apply Hchain|done|].
      simpl. rewrite occurrences_self, occurrences_app, (occurrences_perm _ _ _ Hlinks), occurrences_app.
      rewrite !occurrences_app in Hocc. unfold node. simpl. lia.
    + destruct (Hlive b lb Hb) as (Hbb & m & tl' & Hm & Htl' & -> & Hcm).
      split; [done|]. exists m, tl'. split_and!; [rewrite Hsame; [done|by eexists]|by apply Hchain|done|].
      rewrite Hcm. simpl. rewrite occurrences_other by done.
      rewrite !occurrences_app, (occurrences_perm _ _ _ Hlinks), occurrences_app. lia.
  - intros b [->|Hb]%elem_of_cons.
    + rewrite lookup_insert_eq. by eexists.
    + destruct (Hroots b) as [lb Hlb]; [set_solver|]. rewrite lookup_insert_ne; [by eexists|congruence].
Qed.

(** Without live nodes. *)
Lemma heap_inv_empty base : heap_inv base (mk_heap base None) [] ∅.
Proof.
  split; cbn.
  - done.
  - exists []. repeat constructor.
  - intros a l H. by rewrite lookup_empty in H.
  - set_solver.
Qed.

(** The order of the references does not matter. *)
Lemma heap_inv_perm base h R R' C : R ≡ₚ R' -> heap_inv base h R C -> heap_inv base h R' C.
Proof.
  intros HR [Hbase HF Hlive Hroots]. split; [done..| |].
  - intros a l Ha. destruct (Hlive a l Ha) as (Hb & n & tl & Hn & Htl & -> & Hc).
    split; [done|]. exists n, tl. split_and!; [done..|]. rewrite Hc. apply occurrences_perm. by rewrite HR.
  - intros a Ha. apply Hroots. by rewrite HR.
Qed.

(** The chain of a live node, as it lies in the heap. *)
Lemma chain_linked base h R C : heap_inv base h R C -> forall l p, chain_of C p = Some l ->
  exists addrs, linked (nodes h) p addrs /\ NoDup addrs /\
    Forall2 (fun a m => exists n, nodes h !! a = Some n /\ node_match n = m) addrs l /\
    Forall (fun a => (length base <= a)%nat /\ exists l', C !! a = Some l' /\ (length l' <= length l)%nat) addrs.
Proof.
  intros Hinv. induction l as [|m l IH]; intros [a|] Hp; cbn in Hp; [| | |done].
  - destruct (hi_live _ _ _ _ Hinv a _ Hp) as (_ & n & tl & _ & _ & [=] & _).
  - exists []. repeat constructor.
  - destruct (hi_live _ _ _ _ Hinv a _ Hp) as (Hb & n & tl & Hn & Htl & [= -> <-] & _).
    destruct (IH (lcs_next n) Htl) as (addrs & Hl & Hd & Hm & Hf). exists (a :: addrs). split_and!.
    + cbn. split; [done|]. by exists n.
    + constructor; [|done]. intros Ha. rewrite Forall_forall in Hf.
      destruct (Hf a Ha) as (_ & l' & Hl' & Hle). rewrite Hp in Hl'. injection Hl' as <-. simpl in Hle. lia.
    + constructor; [|done]. by exists n.
    + constructor; [split; [done|]; by eexists|]. eapply Forall_impl; [exact Hf|].
      intros b (Hbb & l' & Hl' & Hle). split; [done|]. exists l'. simpl. split; [done|lia].
Qed.
