(* ===== verification/DiffSnakeFacts.v ===== *)
(** * The algorithm in libsvn_diff/lcs.c

    Aligning two sequences is walking through a grid: how far one can get on a
    diagonal with a bounded number of costly steps, and that the longest common
    subsequence is the largest number of matches.  Then [svn_diff__snake]
    follows matches as far as they go, and the loops of [svn_diff__lcs] keep
    the furthest points on all diagonals. *)

From stdpp Require Import gmap.
From S2P Require Import Prelude Subsequence DiffToken DiffLcs DiffHeap.

#[local] Coercion Z.of_nat : nat >-> Z.

Section Grid.
Variables A B : bytes.

(** [n] is the number of matches on the way. *)
Inductive reach : nat -> nat -> nat -> Prop :=
  | reach_start : reach 0 0 0
  | reach_match x y n t :
      reach x y n -> A !! x = Some t -> B !! y = Some t -> reach (S x) (S y) (S n)
  | reach_del x y n : reach x y n -> (x < length A)%nat -> reach (S x) y n
  | reach_ins x y n : reach x y n -> (y < length B)%nat -> reach x (S y) n.

Lemma reach_bounds x y n :
  reach x y n -> (n <= x)%nat /\ (n <= y)%nat /\ (x <= length A)%nat /\ (y <= length B)%nat.
Proof.
  induction 1 as [|x y n t H IH Hx Hy|x y n H IH Hx|x y n H IH Hy]; [lia| |lia|lia].
  apply lookup_lt_Some in Hx, Hy. lia.
Qed.

Lemma reach_dels x y n x' : reach x y n -> (x <= x' <= length A)%nat -> reach x' y n.
Proof.
  intros H [Hx Hx']. induction Hx as [|x' Hx IH]; [done|]. apply reach_del; [apply IH; lia|lia].
Qed.

Lemma reach_inss x y n y' : reach x y n -> (y <= y' <= length B)%nat -> reach x y' n.
Proof.
  intros H [Hy Hy']. induction Hy as [|y' Hy IH]; [done|]. apply reach_ins; [apply IH; lia|lia].
Qed.

(** ** Common subsequences *)

Lemma sublist_drop_head (c : bytes) t l x :
  sublist (t :: c) (drop x l) -> exists x', (x <= x')%nat /\ l !! x' = Some t /\ sublist c (drop (S x') l).
Proof.
  remember (drop x l) as m eqn:E. intros H. revert x E.
  induction m as [|u m IH]; intros x E; [by apply sublist_nil_r in H|].
  assert (l !! x = Some u /\ drop (S x) l = m) as [Hu Hm].
  { destruct (l !! x) as [v|] eqn:Ev.
    - rewrite (lookup_drop_cons l x v Ev) in E. by injection E as -> ->.
    - apply lookup_ge_None in Ev. rewrite drop_ge in E by done. done. }
  apply sublist_cons_inv in H as [H|(c' & [= <- <-] & H)].
  - destruct (IH H (S x)) as (x' & Hle & ? & ?); [done|]. exists x'. split_and!; [lia|done..].
  - exists x. split_and!; [lia|done|by rewrite Hm].
Qed.

Lemma reach_sublist c : forall x y n, sublist c (drop x A) -> sublist c (drop y B) -> reach x y n ->
  reach (length A) (length B) (n + length c).
Proof.
  induction c as [|t c IH]; intros x y n Ha Hb H.
  - pose proof (reach_bounds _ _ _ H). simpl. rewrite Nat.add_0_r.
    apply reach_inss with y; [|lia]. apply reach_dels with x; [done|lia].
  - apply sublist_drop_head in Ha as (x' & Hx & Htx & Ha). apply sublist_drop_head in Hb as (y' & Hy & Hty & Hb).
    pose proof (lookup_lt_Some _ _ _ Htx). pose proof (lookup_lt_Some _ _ _ Hty).
    replace (n + length (t :: c))%nat with (S n + length c)%nat by (simpl; lia).
    apply (IH (S x') (S y')); [done..|]. apply reach_match with t; [|done..].
    apply reach_inss with y; [|lia]. apply reach_dels with x; [done|lia].
Qed.

Lemma reach_common x y n :
  reach x y n -> exists c, sublist c (take x A) /\ sublist c (take y B) /\ length c = n.
Proof.
  induction 1 as [|x y n t H (c & Ha & Hb & Hc) Hx Hy|x y n H (c & Ha & Hb & Hc) Hx|x y n H (c & Ha & Hb & Hc) Hy].
  - exists []. split_and!; [apply sublist_nil_l..|done].
  - exists (c ++ [t]). rewrite (take_S_r _ _ _ Hx), (take_S_r _ _ _ Hy), length_app. simpl.
    split_and!; [by apply sublist_app..|lia].
  - exists c. destruct (lookup_lt_is_Some_2 _ _ Hx) as [t Ht]. rewrite (take_S_r _ _ _ Ht).
    split_and!; [by apply sublist_inserts_r|done..].
  - exists c. destruct (lookup_lt_is_Some_2 _ _ Hy) as [t Ht]. rewrite (take_S_r _ _ _ Ht).
    split_and!; [done|by apply sublist_inserts_r|done].
Qed.

Lemma reach_is_lcs n :
  reach (length A) (length B) n -> (forall m, reach (length A) (length B) m -> (m <= n)%nat) -> is_lcs A B n.
Proof.
  intros H Hmax. split.
  - destruct (reach_common _ _ _ H) as (c & Ha & Hb & Hc). rewrite !take_ge in * by done. by exists c.
  - intros c Ha Hb. apply Hmax. by apply (reach_sublist c 0 0 0); [rewrite drop_0..|constructor].
Qed.

(** ** Costs *)

(** The lengths of what remains differ by the number of the diagonal.  At the
    end they do not; steps towards that are free. *)
Definition diagonal (x y : nat) : Z := (Z.of_nat (length A) - x) - (Z.of_nat (length B) - y).

Definition dist : Z := Z.of_nat (length A) - Z.of_nat (length B).

(** [p] costly steps are enough. *)
Definition affordable (p k : Z) (x y n : nat) : Prop :=
  if 0 <=? k then Z.of_nat y - n <= p + Z.max 0 (- dist) else Z.of_nat x - n <= p + Z.max 0 dist.

(** Nothing that [p] costly steps can reach on the diagonal is behind [Y]. *)
Definition furthest (p k Y : Z) : Prop :=
  forall x y n, reach x y n -> diagonal x y = k -> affordable p k x y n -> Z.of_nat y <= Y.

Ltac grid := unfold furthest, affordable, diagonal, dist in *.

Lemma affordable_neg p k x y n : diagonal x y = k -> k <= 0 ->
  affordable p k x y n <-> Z.of_nat x - n <= p + Z.max 0 dist.
Proof. grid. destruct (Z.leb_spec 0 k); lia. Qed.

Lemma affordable_pos p k x y n : diagonal x y = k -> 0 <= k ->
  affordable p k x y n <-> Z.of_nat y - n <= p + Z.max 0 (- dist).
Proof. grid. destruct (Z.leb_spec 0 k); lia. Qed.

Lemma furthest_mono p k Y Y' : furthest p k Y -> Y <= Y' -> furthest p k Y'.
Proof. intros H HY x y n Hr Hd Ha. specialize (H x y n Hr Hd Ha). lia. Qed.

(** Diagonals that cannot be reached. *)
Lemma furthest_far p k Y : k < Z.min dist 0 - p \/ Z.max dist 0 + p < k -> furthest p k Y.
Proof.
  intros Hk x y n Hr Hd Ha. apply reach_bounds in Hr. grid. destruct (Z.leb_spec 0 k); lia.
Qed.

Lemma furthest_negative p k Y : p < 0 -> furthest p k Y.
Proof.
  intros Hp x y n Hr Hd Ha. apply reach_bounds in Hr. grid. destruct (Z.leb_spec 0 k); lia.
Qed.

(** The phase in which the neighbours of a diagonal were last visited. *)
Definition phase_below (p k : Z) : Z := if k <=? 0 then p else p - 1.
Definition phase_above (p k : Z) : Z := if k <? 0 then p - 1 else p.

Lemma furthest_step p k (X Y : nat) :
  furthest (phase_below p k) (k - 1) (Z.of_nat Y - 1) ->
  furthest (phase_above p k) (k + 1) Y ->
  diagonal X Y = k -> (forall t, A !! X = Some t -> B !! Y <> Some t) -> furthest p k Y.
Proof.
  intros Hb Ha Hd Hstop x y n Hr. induction Hr as [|x y n t Hr IH Hx Hy|x y n Hr IH Hx|x y n Hr IH Hy];
    intros Hk Haff.
  - lia.
  - assert (Z.of_nat y <= Y) as Hy'.
    { apply IH; [unfold diagonal in *; lia|]. unfold affordable in *. destruct (0 <=? k); lia. }
    destruct (decide (y = Y)) as [->|]; [|lia].
    assert (x = X) as -> by (unfold diagonal in *; lia). by destruct (Hstop t Hx).
  - apply (Ha x y n Hr); [unfold diagonal in *; lia|]. unfold phase_above.
    destruct (Z.ltb_spec k 0).
    + apply affordable_neg; [unfold diagonal in *; lia|lia|]. apply (affordable_neg p k (S x) y n) in Haff; lia.
    + apply affordable_pos; [unfold diagonal in *; lia|lia|]. apply (affordable_pos p k (S x) y n) in Haff; lia.
  - assert (Z.of_nat y <= Z.of_nat Y - 1); [|lia].
    apply (Hb x y n Hr); [unfold diagonal in *; lia|]. unfold phase_below.
    destruct (Z.leb_spec k 0).
    + apply affordable_neg; [unfold diagonal in *; lia|lia|]. apply (affordable_neg p k x (S y) n) in Haff; lia.
    + apply affordable_pos; [unfold diagonal in *; lia|lia|]. apply (affordable_pos p k x (S y) n) in Haff; lia.
Qed.

Lemma affordable_below p k x y n :
  diagonal x y = k - 1 -> affordable (phase_below p k) (k - 1) x y n -> affordable p k x (S y) n.
Proof.
  intros Hd. unfold phase_below. destruct (Z.leb_spec k 0); intros Haff.
  - apply affordable_neg in Haff; [|done|lia]. apply affordable_neg; [unfold diagonal in *; lia|lia..].
  - apply affordable_pos in Haff; [|done|lia]. apply affordable_pos; [unfold diagonal in *; lia|lia..].
Qed.

Lemma affordable_above p k x y n :
  diagonal x y = k + 1 -> affordable (phase_above p k) (k + 1) x y n -> affordable p k (S x) y n.
Proof.
  intros Hd. unfold phase_above. destruct (Z.ltb_spec k 0); intros Haff.
  - apply affordable_neg in Haff; [|done|lia]. apply affordable_neg; [unfold diagonal in *; lia|lia..].
  - apply affordable_pos in Haff; [|done|lia]. apply affordable_pos; [unfold diagonal in *; lia|lia..].
Qed.

(** ** The end is not reached with fewer costly steps *)

Definition beyond (p : Z) : Prop :=
  forall n, reach (length A) (length B) n -> p - 1 + Z.max 0 (- dist) < Z.of_nat (length B) - n.

Lemma beyond_0 : beyond 0.
Proof. intros n Hr%reach_bounds. grid. lia. Qed.

Lemma beyond_next p Y : furthest p 0 Y -> Y < length B -> beyond (p + 1).
Proof.
  intros Hf HY n Hr. specialize (Hf _ _ _ Hr). grid.
  destruct (Z.leb_spec 0 0); [|lia].
  destruct (decide (Z.of_nat (length B) - n <= p + Z.max 0 (- (Z.of_nat (length A) - length B)))); lia.
Qed.

Lemma beyond_bound p : beyond p -> p <= length A.
Proof.
  intros Hp. specialize (Hp 0%nat). grid.
  assert (reach (length A) (length B) 0); [|specialize (Hp H); lia].
  apply reach_inss with 0%nat; [|lia]. apply reach_dels with 0%nat; [constructor|lia].
Qed.

(** A visited point is not at the end of a sequence that still has to be
    walked. *)
Lemma beyond_ins p k x y n : beyond p -> reach x y n -> diagonal x y = k - 1 ->
  affordable (phase_below p k) (k - 1) x y n -> (y < length B)%nat.
Proof.
  intros Hp Hr Hd Haff. pose proof (reach_bounds _ _ _ Hr).
  destruct (decide (y = length B)) as [->|]; [|lia]. exfalso.
  unfold phase_below in Haff. destruct (Z.leb_spec k 0); [unfold diagonal in *; lia|].
  apply affordable_pos in Haff; [|done|lia].
  specialize (Hp n (reach_dels _ _ _ (length A) Hr ltac:(lia))). lia.
Qed.

Lemma beyond_del p k x y n : beyond p -> reach x y n -> diagonal x y = k + 1 ->
  affordable (phase_above p k) (k + 1) x y n -> (x < length A)%nat.
Proof.
  intros Hp Hr Hd Haff. pose proof (reach_bounds _ _ _ Hr).
  destruct (decide (x = length A)) as [->|]; [|lia]. exfalso.
  unfold phase_above in Haff. destruct (Z.ltb_spec k 0); [|unfold diagonal in *; lia].
  apply affordable_neg in Haff; [|done|lia].
  specialize (Hp n (reach_inss _ _ _ (length B) Hr ltac:(lia))). unfold diagonal, dist in *. lia.
Qed.

(** What reaches the end first is longest. *)
Lemma beyond_longest p n m : beyond p -> reach (length A) (length B) n ->
  affordable p 0 (length A) (length B) n -> reach (length A) (length B) m -> (m <= n)%nat.
Proof.
  intros Hp Hn Haff Hm. specialize (Hp m Hm). apply affordable_pos in Haff; [|unfold diagonal; lia|lia]. lia.
Qed.
End Grid.

(** * Following matches

    The loop of [svn_diff__snake] walks through two rings, past matches and
    past tokens that only one file has, and puts the matches into the heap. *)

(** ** Places in a sequence that is filtered *)

Section Rank.
Context (P : Z -> Prop) `{HPd : !forall t, Decision (P t)}.

(** The place in the filtered sequence. *)
Definition rank (T : bytes) (i : nat) : nat := length (filter P (take i T)).

Lemma rank_yes T i t : T !! i = Some t -> P t -> rank T (S i) = S (rank T i).
Proof.
  intros H HP. unfold rank. rewrite (take_S_r _ _ _ H), filter_app, length_app.
  rewrite filter_cons_True by done. simpl. lia.
Qed.

Lemma rank_no T i t : T !! i = Some t -> ~ P t -> rank T (S i) = rank T i.
Proof.
  intros H HP. unfold rank. rewrite (take_S_r _ _ _ H), filter_app, length_app.
  rewrite filter_cons_False by done. simpl. lia.
Qed.

Lemma rank_full T : rank T (length T) = length (filter P T).
Proof. unfold rank. by rewrite take_ge. Qed.

Lemma rank_lookup T i t : T !! i = Some t -> P t -> filter P T !! rank T i = Some t.
Proof.
  intros H HP. unfold rank. replace (filter P T) with (filter P (take i T ++ drop i T)) by (by rewrite take_drop).
  rewrite filter_app.
  rewrite lookup_app_r, Nat.sub_diag by done. rewrite (lookup_drop_cons _ _ _ H).
  by rewrite filter_cons_True.
Qed.

Lemma rank_le T i j : (i <= j)%nat -> (rank T i <= rank T j)%nat.
Proof.
  intros H. unfold rank. replace (take i T) with (take i (take j T)) by (rewrite take_take; f_equal; lia).
  generalize (take j T) as U. intros U. rewrite <- (take_drop i U) at 2. rewrite filter_app, length_app. lia.
Qed.

Lemma rank_lt T i j t : T !! i = Some t -> P t -> (i < j)%nat -> (rank T i < rank T j)%nat.
Proof. intros H HP Hij. pose proof (rank_le T (S i) j Hij). rewrite (rank_yes _ _ _ H HP) in *. lia. Qed.

Lemma rank_end T i t : rank T i = length (filter P T) -> T !! i = Some t -> ~ P t.
Proof.
  intros Hr H HP. pose proof (rank_lookup _ _ _ H HP) as Hl. apply lookup_lt_Some in Hl. lia.
Qed.
End Rank.

Section Files.
Variables T0 T1 : bytes.

(** The tokens that both files have. *)
Definition shared0 : bytes := filter (fun t => t ∈ T1) T0.
Definition shared1 : bytes := filter (fun t => t ∈ T0) T1.
Definition rank0 (i : nat) : nat := rank (fun t => t ∈ T1) T0 i.
Definition rank1 (j : nat) : nat := rank (fun t => t ∈ T0) T1 j.

(** A common subsequence has no others. *)
Lemma shared_is_lcs n : is_lcs shared0 shared1 n -> is_lcs T0 T1 n.
Proof.
  assert (forall (P : Z -> Prop) `{!forall t, Decision (P t)} (c T : bytes),
            sublist c T -> sublist (filter P c) (filter P T)) as Hf.
  { intros P HP c T. induction 1 as [|x c T _ IH|x c T _ IH]; [constructor|..]; rewrite !filter_cons.
    - by case_decide; [apply sublist_skip|].
    - by case_decide; [apply sublist_cons|]. }
  assert (forall (P : Z -> Prop) `{!forall t, Decision (P t)} (T : bytes), sublist (filter P T) T) as Hs.
  { intros P HP T. induction T as [|x T IH]; [done|]. rewrite filter_cons.
    by case_decide; [apply sublist_skip|apply sublist_cons]. }
  intros [(c & Ha & Hb & Hc) Hmax]. split.
  - exists c. split_and!; [|  |done].
    + etrans; [exact Ha|apply (Hs (fun t => t ∈ T1) _)].
    + etrans; [exact Hb|apply (Hs (fun t => t ∈ T0) _)].
  - intros c' Ha' Hb'. apply Hmax.
    + rewrite <- (filter_all (fun t => t ∈ T1) c'); [by apply (Hf (fun t => t ∈ T1) _)|].
      by apply sublist_all_in.
    + rewrite <- (filter_all (fun t => t ∈ T0) c'); [by apply (Hf (fun t => t ∈ T0) _)|].
      by apply sublist_all_in.
Qed.

(** The place [i], [j] is not where the last match ends. *)
Definition fresh (l : list (nat * nat * nat)) (i j : nat) : Prop :=
  match l with [] => True | (i0, j0, m) :: _ => (i0 + m < i \/ j0 + m < j)%nat end.

(** Matches, the last first, in front of the place [i], [j]; no match
    continues another. *)
Inductive aligned : list (nat * nat * nat) -> nat -> nat -> Prop :=
  | aligned_nil i j : aligned [] i j
  | aligned_cons l i j m i' j' :
      aligned l i j -> fresh l i j -> (0 < m)%nat -> take m (drop i T0) = take m (drop j T1) ->
      (i + m <= i')%nat -> (j + m <= j')%nat -> (i' <= length T0)%nat -> aligned ((i, j, m) :: l) i' j'.

Definition matched (l : list (nat * nat * nat)) : nat := sum_list (map snd l).

Lemma aligned_later l i j i' j' :
  aligned l i j -> (i <= i' <= length T0)%nat -> (j <= j')%nat -> aligned l i' j'.
Proof.
  intros H. destruct H as [|l i0 j0 m i j Ha Hfr Hm Heq Hi Hj Hl]; intros Hi' Hj'; [constructor|].
  econstructor; [done..| | |]; lia.
Qed.

Lemma aligned_fresh l i j i' j' : aligned l i j -> (i <= i')%nat -> (j <= j')%nat -> (i < i' \/ j < j')%nat ->
  fresh l i' j'.
Proof. intros H. destruct H; [done|]. simpl. lia. Qed.

(** A place with the matches that lead to it. *)
Record place (i j : nat) (l : list (nat * nat * nat)) : Prop := {
  place0 : (i <= length T0)%nat;
  place1 : (j <= length T1)%nat;
  place_aligned : aligned l i j;
  place_reach : reach shared0 shared1 (rank0 i) (rank1 j) (matched l)
}.

(** Neither a match nor a token of one file only follows. *)
Definition stopped (i j : nat) : Prop :=
  (forall t, T0 !! i = Some t -> t ∈ T1 /\ T1 !! j <> Some t) /\
  (forall t, T1 !! j = Some t -> t ∈ T0).

Lemma stopped_no_match i j t : (i <= length T0)%nat -> (j <= length T1)%nat -> stopped i j ->
  shared0 !! rank0 i = Some t -> shared1 !! rank1 j <> Some t.
Proof.
  intros Hi Hj [H0 H1] Ha Hb.
  assert (i < length T0)%nat as [u Hu]%lookup_lt_is_Some_2.
  { destruct (decide (i = length T0)) as [->|]; [|lia]. unfold rank0 in Ha. rewrite rank_full in Ha.
    apply lookup_lt_Some in Ha. unfold shared0 in Ha. lia. }
  assert (j < length T1)%nat as [v Hv]%lookup_lt_is_Some_2.
  { destruct (decide (j = length T1)) as [->|]; [|lia]. unfold rank1 in Hb. rewrite rank_full in Hb.
    apply lookup_lt_Some in Hb. unfold shared1 in Hb. lia. }
  destruct (H0 u Hu) as [Hut Hne]. pose proof (H1 v Hv) as Hvt.
  pose proof (rank_lookup (fun t => t ∈ T1) _ _ _ Hu Hut). pose proof (rank_lookup (fun t => t ∈ T0) _ _ _ Hv Hvt).
  unfold shared0, shared1, rank0, rank1 in *. congruence.
Qed.

Lemma place_start : place 0 0 [].
Proof. split; [lia..|constructor|]. apply reach_start. Qed.

(** A run of [m] matches. *)
Lemma place_run i j l m :
  place i j l -> take m (drop i T0) = take m (drop j T1) -> (i + m <= length T0)%nat -> (j + m <= length T1)%nat ->
  reach shared0 shared1 (rank0 (i + m)) (rank1 (j + m)) (matched l + m) /\
  rank0 (i + m) = (rank0 i + m)%nat /\ rank1 (j + m) = (rank1 j + m)%nat.
Proof.
  intros [_ _ _ Hr] Heq Hi Hj. induction m as [|m IH].
  { by rewrite !Nat.add_0_r. }
  destruct IH as (IH & E0 & E1); [|lia..|].
  { apply (f_equal (take m)) in Heq. by rewrite !take_take, !Nat.min_l in Heq by lia. }
  apply (f_equal (fun l => l !! m)) in Heq. rewrite !lookup_take_lt, !lookup_drop in Heq by lia.
  destruct (lookup_lt_is_Some_2 T0 (i + m)) as [t Ht]; [lia|]. rewrite Ht in Heq. symmetry in Heq.
  assert (t ∈ T0 /\ t ∈ T1) as [Hin0 Hin1] by (split; by eapply list_elem_of_lookup_2).
  unfold rank0, rank1 in *. rewrite !Nat.add_succ_r.
  rewrite (rank_yes (fun t => t ∈ T1) _ _ _ Ht Hin1), (rank_yes (fun t => t ∈ T0) _ _ _ Heq Hin0).
  split; [|lia]. apply reach_match with t; [done|by apply rank_lookup..].
Qed.

Lemma place_match i j l m :
  place i j l -> fresh l i j -> (0 < m)%nat -> take m (drop i T0) = take m (drop j T1) ->
  (i + m <= length T0)%nat -> (j + m <= length T1)%nat ->
  place (i + m) (j + m) ((i, j, m) :: l).
Proof.
  intros Hp Hfr Hm Heq Hi Hj. destruct (place_run _ _ _ _ Hp Heq Hi Hj) as (Hr & _).
  split; [done..| |].
  - econstructor; [apply Hp|done..|lia].
  - unfold matched in *. simpl. by rewrite (Nat.add_comm m).
Qed.

Lemma place_unique0 i j l t : place i j l -> T0 !! i = Some t -> t ∉ T1 ->
  place (S i) j l /\ rank0 (S i) = rank0 i.
Proof.
  intros [Hi Hj Ha Hr] Ht Hn. pose proof (lookup_lt_Some _ _ _ Ht).
  assert (rank0 (S i) = rank0 i) as E by by eapply rank_no. split; [|done].
  split; [lia|done| |by rewrite E]. apply (aligned_later l i j); [done|lia..].
Qed.

Lemma place_unique1 i j l t : place i j l -> T1 !! j = Some t -> t ∉ T0 ->
  place i (S j) l /\ rank1 (S j) = rank1 j.
Proof.
  intros [Hi Hj Ha Hr] Ht Hn. pose proof (lookup_lt_Some _ _ _ Ht).
  assert (rank1 (S j) = rank1 j) as E by by eapply rank_no. split; [|done].
  split; [done|lia| |by rewrite E]. apply (aligned_later l i j); [done|lia..].
Qed.
End Files.

(** ** Rings in the store *)

(** The ring of a file with the sentinel [s]; [o] is the offset of its first
    position. *)
Record file_ring (store : position_store) (ps : list nat) (T : bytes) (o s : Z) : Prop := {
  fr_length : length ps = S (length T);
  fr_nodup : NoDup ps;
  fr_position : forall i a, ps !! i = Some a ->
    store !! a = Some (mk_position (ps !! (if decide (i = length T) then 0%nat else S i))
                         (default s (T !! i)) (o + i));
  fr_sentinel : s < 0;
  fr_tokens : Forall (fun t => 0 <= t) T
}.

Lemma ring_get store ps T o s i : file_ring store ps T o s -> (i <= length T)%nat ->
  get_position store (ps !! i) =
  Ok (mk_position (ps !! (if decide (i = length T) then 0%nat else S i)) (default s (T !! i)) (o + i)).
Proof.
  intros Hr Hi. destruct (lookup_lt_is_Some_2 ps i) as [a Ha]; [rewrite (fr_length _ _ _ _ _ Hr); lia|].
  unfold get_position. rewrite Ha. cbn. by rewrite (fr_position _ _ _ _ _ Hr i a Ha).
Qed.

Lemma ring_pointer_inj store ps T o s i j : file_ring store ps T o s -> (i <= length T)%nat ->
  ps !! i = ps !! j -> i = j.
Proof.
  intros Hr Hi E. destruct (lookup_lt_is_Some_2 ps i) as [a Ha]; [rewrite (fr_length _ _ _ _ _ Hr); lia|].
  eapply NoDup_lookup; [apply (fr_nodup _ _ _ _ _ Hr)|done|by rewrite <- E].
Qed.

(** The number of occurrences of a token. *)
Definition token_count (t : Z) (T : bytes) : Z := Z.of_nat (length (filter (fun u => u = t) T)).

Lemma token_count_zero t T : token_count t T = 0 <-> t ∉ T.
Proof.
  unfold token_count. induction T as [|u T IH]; [split; [set_solver|done]|].
  rewrite filter_cons. case_decide as E; simpl; [subst; set_solver by lia|]. set_solver.
Qed.

Lemma is_unique_spec store ps T o s i next o' T' counts :
  file_ring store ps T o s -> (forall t, t ∈ T -> counts !! Z.to_nat t = Some (token_count t T')) ->
  exists u : bool, is_unique (mk_position next (default s (T !! i)) o') counts = Ok u /\
    if u then exists t, T !! i = Some t /\ t ∉ T' else forall t, T !! i = Some t -> t ∈ T'.
Proof.
  intros Hr Hc. unfold is_unique. cbn [token_index].
  destruct (T !! i) as [t|] eqn:E; cbn [default from_option id].
  - pose proof (list_elem_of_lookup_2 _ _ _ E) as Ht.
    pose proof (fr_tokens _ _ _ _ _ Hr) as H0. rewrite Forall_forall in H0. specialize (H0 t Ht).
    rewrite (proj2 (Z.leb_le 0 t)) by done. unfold count_of. rewrite (proj2 (Z.ltb_ge t 0)), (Hc t Ht) by done. cbn.
    exists (token_count t T' =? 0). split; [done|].
    destruct (Z.eqb_spec (token_count t T') 0) as [E'|E']; rewrite token_count_zero in E'.
    + by exists t.
    + intros ? [= <-]. destruct (decide (t ∈ T')); [done|by destruct E'].
  - exists false. split; [|done]. pose proof (fr_sentinel _ _ _ _ _ Hr).
    by rewrite (proj2 (Z.leb_gt 0 s)) by done.
Qed.

Section Rings.
Variables (store : position_store) (ps0 ps1 : list nat) (T0 T1 : bytes) (o0 o1 : Z) (counts0 counts1 : list Z).
Hypothesis Hring0 : file_ring store ps0 T0 o0 (-1).
Hypothesis Hring1 : file_ring store ps1 T1 o1 (-2).
Hypothesis Hcounts0 : forall t, t ∈ T1 -> counts0 !! Z.to_nat t = Some (token_count t T0).
Hypothesis Hcounts1 : forall t, t ∈ T0 -> counts1 !! Z.to_nat t = Some (token_count t T1).
Hypothesis Hstore : (length T0 + length T1 < length store)%nat.

Lemma tokens_match i j : (i <= length T0)%nat -> (j <= length T1)%nat ->
  default (-1) (T0 !! i) = default (-2) (T1 !! j) <-> exists t, T0 !! i = Some t /\ T1 !! j = Some t.
Proof.
  intros Hi Hj. pose proof (fr_tokens _ _ _ _ _ Hring0) as H0. pose proof (fr_tokens _ _ _ _ _ Hring1) as H1.
  rewrite Forall_forall in H0, H1.
  destruct (T0 !! i) as [t|] eqn:E0, (T1 !! j) as [u|] eqn:E1; simpl.
  - naive_solver.
  - specialize (H0 t (list_elem_of_lookup_2 _ _ _ E0)). split; [lia|naive_solver].
  - specialize (H1 u (list_elem_of_lookup_2 _ _ _ E1)). split; [lia|naive_solver].
  - split; [done|naive_solver].
Qed.

Lemma match_loop_spec fuel : forall i j,
  (i <= length T0)%nat -> (j <= length T1)%nat -> (length T0 - i <= fuel)%nat ->
  exists m, match_loop store fuel (ps0 !! i) (ps1 !! j) = Ok (ps0 !! (i + m)%nat, ps1 !! (j + m)%nat) /\
    take m (drop i T0) = take m (drop j T1) /\ (i + m <= length T0)%nat /\ (j + m <= length T1)%nat /\
    forall t, T0 !! (i + m)%nat = Some t -> T1 !! (j + m)%nat <> Some t.
Proof.
  induction fuel as [|f IH]; intros i j Hi Hj Hf; cbn [match_loop];
    rewrite (ring_get _ _ _ _ _ i Hring0 Hi), (ring_get _ _ _ _ _ j Hring1 Hj);
    cbn [mbind result_bind token_index pos_next];
    destruct (Z.eqb_spec (default (-1) (T0 !! i)) (default (-2) (T1 !! j))) as [E|E];
    rewrite (tokens_match i j) in E by done.
  - destruct E as (t & Ht & _). apply lookup_lt_Some in Ht. lia.
  - exists 0%nat. rewrite !Nat.add_0_r. split_and!; [done..|]. intros t Ht0 Ht1. naive_solver.
  - destruct E as (t & Ht0 & Ht1). pose proof (lookup_lt_Some _ _ _ Ht0). pose proof (lookup_lt_Some _ _ _ Ht1).
    rewrite !decide_False by lia. destruct (IH (S i) (S j)) as (m & -> & Heq & Hm0 & Hm1 & Hne); [lia..|].
    exists (S m). rewrite !Nat.add_succ_r. split_and!; [done| |lia..|done].
    rewrite (lookup_drop_cons _ _ _ Ht0), (lookup_drop_cons _ _ _ Ht1). simpl. by f_equal.
  - exists 0%nat. rewrite !Nat.add_0_r. split_and!; [done..|]. intros t Ht0 Ht1. naive_solver.
Qed.

(** The match of [i], [j], [m] as it is in a node. *)
Definition pointers (m : nat * nat * nat) : match_pointers :=
  (ps0 !! m.1.1, ps1 !! m.1.2, Z.of_nat m.2).

(** The loop arrives at a place to stop, with the matches on the way in front
    of those that led to its start; other chains stay. *)
Lemma snake_loop_spec base fuel : forall h R C prev i j l,
  (length T0 - i + (length T1 - j) < fuel)%nat ->
  place T0 T1 i j l -> fresh l i j -> heap_inv base h (option_list prev ++ R) C ->
  chain_of C prev = Some (map pointers l) ->
  exists h' lcs C' i' j' l',
    snake_loop store counts0 counts1 fuel h prev (ps0 !! i) (ps1 !! j) (ps0 !! i) (ps1 !! j)
      = Ok (h', lcs, ps0 !! i', ps1 !! j') /\
    heap_inv base h' (option_list lcs ++ R) C' /\ C ⊆ C' /\ chain_of C' lcs = Some (map pointers l') /\
    place T0 T1 i' j' l' /\ stopped T0 T1 i' j' /\ (j <= j')%nat /\
    (rank0 T0 T1 i' + matched l = rank0 T0 T1 i + matched l')%nat /\
    (rank1 T0 T1 j' + matched l = rank1 T0 T1 j + matched l')%nat.
Proof.
  induction fuel as [|f IH]; intros h R C prev i j l Hf Hp Hfr Hinv Hchain; [lia|].
  cbn [snake_loop]. pose proof (place0 _ _ _ _ _ Hp) as Hi. pose proof (place1 _ _ _ _ _ Hp) as Hj.
  destruct (match_loop_spec (length store) i j) as (m & -> & Heq & Hm0 & Hm1 & Hne); [lia..|].
  cbn [mbind result_bind].
  destruct (place_run T0 T1 i j l m Hp Heq Hm0 Hm1) as (_ & Hr0 & Hr1).
  assert (exists h1 lcs1 C1 l1,
    (if bool_decide (ps1 !! (j + m)%nat <> ps1 !! j) then
       p1 ← get_position store (ps1 !! (j + m)%nat);
       s1 ← get_position store (ps1 !! j);
       '(h, lcs) ← take_lcs h (mk_lcs prev (ps0 !! i) (ps1 !! j) (offset p1 - offset s1) 1);
       Ok (h, Some lcs, ps0 !! (i + m)%nat, ps1 !! (j + m)%nat)
     else Ok (h, prev, ps0 !! i, ps1 !! j)) = Ok (h1, lcs1, ps0 !! (i + m)%nat, ps1 !! (j + m)%nat) /\
    heap_inv base h1 (option_list lcs1 ++ R) C1 /\ C ⊆ C1 /\ chain_of C1 lcs1 = Some (map pointers l1) /\
    place T0 T1 (i + m) (j + m) l1 /\ matched l1 = (matched l + m)%nat) as
    (h1 & lcs1 & C1 & l1 & -> & Hinv1 & Hsub1 & Hchain1 & Hp1 & Hl1).
  { destruct m as [|m].
    - rewrite !Nat.add_0_r, bool_decide_eq_false_2 by naive_solver. exists h, prev, C, l. done.
    - rewrite bool_decide_eq_true_2.
      2:{ intros E%eq_sym. apply (ring_pointer_inj _ _ _ _ _ _ _ Hring1) in E; lia. }
      rewrite (ring_get _ _ _ _ _ (j + S m) Hring1), (ring_get _ _ _ _ _ j Hring1) by done.
      cbn [mbind result_bind offset]. replace (o1 + (j + S m)%nat - (o1 + j)) with (S m : Z) by lia.
      destruct (take_spec base h R C prev (ps0 !! i) (ps1 !! j) (S m) _ Hinv Hchain)
        as (h1 & a & -> & Ha & Hinv1). cbn [mbind result_bind].
      eexists _, _, _, ((i, j, S m) :: l). split; [done|]. split; [exact Hinv1|]. split_and!.
      + by apply insert_subseteq.
      + cbn. by rewrite lookup_insert_eq.
      + apply place_match; [done|done|lia|done..].
      + unfold matched. simpl. lia. }
  cbn [mbind result_bind].
  rewrite (ring_get _ _ _ _ _ (i + m) Hring0) by done. cbn [mbind result_bind].
  destruct (is_unique_spec _ _ _ _ _ (i + m) (ps0 !! (if decide ((i + m)%nat = length T0) then 0%nat else S (i + m)))
              (o0 + (i + m)%nat) T1 counts1 Hring0 Hcounts1) as ([|] & -> & Hu0); cbn [mbind result_bind pos_next].
  { destruct Hu0 as (t & Ht & Hn). pose proof (lookup_lt_Some _ _ _ Ht). rewrite decide_False by lia.
    destruct (place_unique0 _ _ _ _ _ _ Hp1 Ht Hn) as [Hp2 Hr2].
    destruct (IH h1 R C1 lcs1 (S (i + m)) (j + m)%nat l1) as
      (h' & lcs & C' & i' & j' & l' & E & Hinv' & Hsub & Hc' & Hp' & Hs' & Hj' & Hx & Hy);
      [lia|done|by eapply aligned_fresh; [apply Hp1|lia..]|done..|].
    exists h', lcs, C', i', j', l'. split_and!; [done|done|by etrans|done..|lia|lia|lia]. }
  rewrite (ring_get _ _ _ _ _ (j + m) Hring1) by done. cbn [mbind result_bind].
  destruct (is_unique_spec _ _ _ _ _ (j + m) (ps1 !! (if decide ((j + m)%nat = length T1) then 0%nat else S (j + m)))
              (o1 + (j + m)%nat) T0 counts0 Hring1 Hcounts0) as ([|] & -> & Hu1); cbn [mbind result_bind pos_next].
  { destruct Hu1 as (t & Ht & Hn). pose proof (lookup_lt_Some _ _ _ Ht). rewrite decide_False by lia.
    destruct (place_unique1 _ _ _ _ _ _ Hp1 Ht Hn) as [Hp2 Hr2].
    destruct (IH h1 R C1 lcs1 (i + m)%nat (S (j + m)) l1) as
      (h' & lcs & C' & i' & j' & l' & E & Hinv' & Hsub & Hc' & Hp' & Hs' & Hj' & Hx & Hy);
      [lia|done|by eapply aligned_fresh; [apply Hp1|lia..]|done..|].
    exists h', lcs, C', i', j', l'. split_and!; [done|done|by etrans|done..|lia|lia|lia]. }
  exists h1, lcs1, C1, (i + m)%nat, (j + m)%nat, l1. split_and!; [done..| |lia|lia|lia].
  split; [|done]. intros t Ht. split; [by apply Hu0|by apply Hne].
Qed.
End Rings.

(** * The furthest points

    What the entries of the array [fp] are after every step of the loops of
    [svn_diff__lcs]: places that are furthest on their diagonals, each with a
    chain of matches that leads to it. *)

Section Phases.
Variables (store : position_store) (ps0 ps1 : list nat) (T0 T1 : bytes) (o0 o1 : Z) (counts0 counts1 : list Z).
Hypothesis Hring0 : file_ring store ps0 T0 o0 (-1).
Hypothesis Hring1 : file_ring store ps1 T1 o1 (-2).
Hypothesis Hcounts0 : forall t, t ∈ T1 -> counts0 !! Z.to_nat t = Some (token_count t T0).
Hypothesis Hcounts1 : forall t, t ∈ T0 -> counts1 !! Z.to_nat t = Some (token_count t T1).
Hypothesis Hstore : (length T0 + length T1 < length store)%nat.
Hypothesis Ho1 : 1 <= o1.

Notation A := (shared0 T0 T1).
Notation B := (shared1 T0 T1).
Notation x := (rank0 T0 T1).
Notation y := (rank1 T0 T1).
Notation d := (dist A B).

(** ** Entries *)

(** The entry of the diagonal [k] after phase [q]. *)
Definition valid (C : gmap nat (list match_pointers)) (q k : Z) (e : svn_diff__snake_t) : Prop :=
  exists (i j : nat) l,
    position0 e = ps0 !! i /\ position1 e = ps1 !! j /\ DiffLcs.y e = o1 + j /\
    chain_of C (snake_lcs e) = Some (map (pointers ps0 ps1) l) /\
    place T0 T1 i j l /\ stopped T0 T1 i j /\ diagonal A B (x i) (y j) = k /\
    affordable A B q k (x i) (y j) (matched l) /\ furthest A B q k (y j).

(** The entry in front of the first diagonal says how to enter it. *)
Definition first_entry : svn_diff__snake_t := mk_snake 0 None (ps0 !! 0%nat) (ps1 !! length T1).

Definition unvisited (k : Z) : svn_diff__snake_t := if k =? d - 1 then first_entry else zero_snake.

Lemma unvisited_y k : DiffLcs.y (unvisited k) = 0.
Proof. unfold unvisited. by destruct (k =? d - 1). Qed.

(** What a step finds on a diagonal next to its own. *)
Definition neighbour (C : gmap nat (list match_pointers)) (q k : Z) (e : svn_diff__snake_t) : Prop :=
  valid C q k e \/ (e = unvisited k /\ forall Y, furthest A B q k Y).

Lemma rank1_last j : (j <= length T1)%nat -> (y j < length B)%nat -> (j < length T1)%nat.
Proof.
  intros Hj H. destruct (decide (j = length T1)) as [->|]; [|lia].
  unfold rank1 in H. rewrite rank_full in H. unfold shared1 in H. lia.
Qed.

Lemma rank0_last i : (i <= length T0)%nat -> (x i < length A)%nat -> (i < length T0)%nat.
Proof.
  intros Hi H. destruct (decide (i = length T0)) as [->|]; [|lia].
  unfold rank0 in H. rewrite rank_full in H. unfold shared0 in H. lia.
Qed.

(** Moves into the diagonal from both sides. *)
Lemma place_below i j l p k : beyond A B p -> place T0 T1 i j l -> stopped T0 T1 i j ->
  diagonal A B (x i) (y j) = k - 1 -> affordable A B (phase_below p k) (k - 1) (x i) (y j) (matched l) ->
  place T0 T1 i (S j) l /\ y (S j) = S (y j) /\ (j < length T1)%nat.
Proof.
  intros Hp [Hi Hj Ha Hr] [_ Hs] Hd Haff.
  pose proof (beyond_ins _ _ _ _ _ _ _ Hp Hr Hd Haff) as Hlt.
  pose proof (rank1_last _ Hj Hlt) as Hj'. destruct (lookup_lt_is_Some_2 _ _ Hj') as [t Ht].
  assert (y (S j) = S (y j)) as E by (eapply rank_yes; [done|by apply Hs]).
  split_and!; [|done..]. split; [done|lia| |].
  - apply (aligned_later _ _ _ i j); [done|lia..].
  - rewrite E. by apply reach_ins.
Qed.

Lemma place_above i j l p k : beyond A B p -> place T0 T1 i j l -> stopped T0 T1 i j ->
  diagonal A B (x i) (y j) = k + 1 -> affordable A B (phase_above p k) (k + 1) (x i) (y j) (matched l) ->
  place T0 T1 (S i) j l /\ x (S i) = S (x i) /\ (i < length T0)%nat.
Proof.
  intros Hp [Hi Hj Ha Hr] [Hs _] Hd Haff.
  pose proof (beyond_del _ _ _ _ _ _ _ Hp Hr Hd Haff) as Hlt.
  pose proof (rank0_last _ Hi Hlt) as Hi'. destruct (lookup_lt_is_Some_2 _ _ Hi') as [t Ht].
  assert (x (S i) = S (x i)) as E by (eapply rank_yes; [done|by apply (Hs t)]).
  split_and!; [|done..]. split; [lia|done| |].
  - apply (aligned_later _ _ _ i j); [done|lia..].
  - rewrite E. by apply reach_del.
Qed.

(** Where the step starts. *)
Definition choose (below above : svn_diff__snake_t) : result (option nat * option nat * option nat) :=
  if DiffLcs.y above <=? DiffLcs.y below then
    start1 ← next_of store (position1 below); Ok (position0 below, start1, snake_lcs below)
  else
    start0 ← next_of store (position0 above); Ok (start0, position1 above, snake_lcs above).

Lemma choose_spec C p k below above :
  beyond A B p -> 0 <= p ->
  neighbour C (phase_below p k) (k - 1) below -> neighbour C (phase_above p k) (k + 1) above ->
  (below = unvisited (k - 1) -> above = unvisited (k + 1) -> k = d) ->
  exists i j l prev,
    choose below above = Ok (ps0 !! i, ps1 !! j, prev) /\
    (prev = snake_lcs below \/ prev = snake_lcs above) /\
    chain_of C prev = Some (map (pointers ps0 ps1) l) /\ place T0 T1 i j l /\ fresh l i j /\
    diagonal A B (x i) (y j) = k /\ affordable A B p k (x i) (y j) (matched l) /\
    furthest A B (phase_below p k) (k - 1) (y j - 1) /\ furthest A B (phase_above p k) (k + 1) (y j).
Proof.
  intros Hp Hp0 Hb Ha Hstart. unfold choose.
  destruct Hb as [(ib & jb & lb & Eb0 & Eb1 & Ebk & Ebc & Hbp & Hbs & Hbd & Hba & Hbf)|[-> Hbf]];
    destruct Ha as [(ia & ja & la & Ea0 & Ea1 & Eak & Eac & Hap & Has & Had & Haa & Haf)|[-> Haf]].
  - rewrite Ebk, Eak. destruct (Z.leb_spec (o1 + ja) (o1 + jb)) as [Hle|Hle].
    + destruct (place_below _ _ _ _ _ Hp Hbp Hbs Hbd Hba) as (Hpl & Hy & Hj).
      unfold next_of. rewrite Eb1, (ring_get _ _ _ _ _ jb Hring1) by lia. rewrite decide_False by lia.
      cbn. exists ib, (S jb), lb, (snake_lcs below). rewrite Eb0, Hy. split_and!; [done|by left|done|done|eapply aligned_fresh; [apply Hbp|lia..]| | | |].
      * unfold diagonal in *. lia.
      * by apply affordable_below.
      * eapply furthest_mono; [done|lia].
      * eapply furthest_mono; [exact Haf|]. assert (y ja <= y jb)%nat by (apply rank_le; lia). lia.
    + destruct (place_above _ _ _ _ _ Hp Hap Has Had Haa) as (Hpl & Hx & Hi).
      unfold next_of. rewrite Ea0, (ring_get _ _ _ _ _ ia Hring0) by lia. rewrite decide_False by lia.
      cbn. exists (S ia), ja, la, (snake_lcs above). rewrite Ea1, Hx. split_and!; [done|by right|done|done|eapply aligned_fresh; [apply Hap|lia..]| | | |done].
      * unfold diagonal in *. lia.
      * by apply affordable_above.
      * eapply furthest_mono; [exact Hbf|].
        assert (jb < length T1)%nat as [t Ht]%lookup_lt_is_Some_2 by (pose proof (place1 _ _ _ _ _ Hap); lia).
        assert (y jb < y ja)%nat; [|lia]. eapply rank_lt; [exact Ht|by apply Hbs|lia].
  - rewrite Ebk, unvisited_y. rewrite (proj2 (Z.leb_le _ _)) by lia.
    destruct (place_below _ _ _ _ _ Hp Hbp Hbs Hbd Hba) as (Hpl & Hy & Hj).
    unfold next_of. rewrite Eb1, (ring_get _ _ _ _ _ jb Hring1) by lia. rewrite decide_False by lia.
    cbn. exists ib, (S jb), lb, (snake_lcs below). rewrite Eb0, Hy. split_and!; [done|by left|done|done|eapply aligned_fresh; [apply Hbp|lia..]| | | |done].
    + unfold diagonal in *. lia.
    + by apply affordable_below.
    + eapply furthest_mono; [done|lia].
  - rewrite Eak, unvisited_y. rewrite (proj2 (Z.leb_gt _ _)) by lia.
    destruct (place_above _ _ _ _ _ Hp Hap Has Had Haa) as (Hpl & Hx & Hi).
    unfold next_of. rewrite Ea0, (ring_get _ _ _ _ _ ia Hring0) by lia. rewrite decide_False by lia.
    cbn. exists (S ia), ja, la, (snake_lcs above). rewrite Ea1, Hx. split_and!; [done|by right|done|done|eapply aligned_fresh; [apply Hap|lia..]| | |done|done].
    + unfold diagonal in *. lia.
    + by apply affordable_above.
  - rewrite !unvisited_y. change (0 <=? 0) with true. cbn match.
    pose proof (Hstart eq_refl eq_refl) as Hk. clear Hstart. rewrite Hk in *.
    assert (unvisited (d - 1) = first_entry) as -> by (unfold unvisited; by rewrite Z.eqb_refl).
    cbn [first_entry position1 position0 snake_lcs].
    unfold next_of. rewrite (ring_get _ _ _ _ _ (length T1) Hring1) by lia. rewrite decide_True by done. cbn.
    exists 0%nat, 0%nat, [], None. split_and!; [done| |done|apply place_start|done|..|done|done].
    + by left.
    + unfold diagonal, dist. change (x 0) with 0%nat. change (y 0) with 0%nat. lia.
    + unfold affordable. change (x 0) with 0%nat. change (y 0) with 0%nat. change (matched []) with 0%nat.
      destruct (0 <=? d); lia.
Qed.

(** ** The array *)

Notation origin := (length B + 1).

(** [ph] gives the phase in which a diagonal was last visited. *)
Definition fp_inv (C : gmap nat (list match_pointers)) (fp : list svn_diff__snake_t) (ph : Z -> option Z) : Prop :=
  length fp = (length A + length B + 3)%nat /\
  forall k, - length B - 1 <= k <= length A + 1 ->
    exists e, fp_get fp (origin + k) = Ok e /\ fp !! Z.to_nat (origin + k) = Some e /\
      match ph k with Some q => valid C q k e | None => e = unvisited k end.

Lemma fp_get_lookup fp i e : 0 <= i -> fp !! Z.to_nat i = Some e -> fp_get fp i = Ok e.
Proof. intros Hi H. unfold fp_get. rewrite (proj2 (Z.ltb_ge i 0)) by done. by rewrite H. Qed.

Lemma fp_inv_ext C fp ph ph' : (forall k, ph k = ph' k) -> fp_inv C fp ph -> fp_inv C fp ph'.
Proof.
  intros Hph [Hl H]. split; [done|]. intros k Hk. rewrite <- Hph. by apply H.
Qed.

(** Entries keep their chains while these are referred to. *)
Lemma valid_chain C C' q k e :
  (forall a l, snake_lcs e = Some a -> C !! a = Some l -> C' !! a = Some l) -> valid C q k e -> valid C' q k e.
Proof.
  intros HC (i & j & l & E0 & E1 & Ey & Ec & H). exists i, j, l.
  refine (conj E0 (conj E1 (conj Ey (conj _ H)))). destruct (snake_lcs e) as [a|]; [|done]. cbn in *. by apply HC.
Qed.

Definition ready (ph : Z -> option Z) (q k : Z) : Prop :=
  match ph k with Some q' => q' = q | None => forall Y, furthest A B q k Y end.

Lemma neighbour_ready C fp ph q k :
  fp_inv C fp ph -> ready ph q k -> - length B - 1 <= k <= length A + 1 ->
  exists e, fp_get fp (origin + k) = Ok e /\ fp !! Z.to_nat (origin + k) = Some e /\ neighbour C q k e /\
    (e = unvisited k -> ph k = None).
Proof.
  intros [_ H] Hr Hk. destruct (H k Hk) as (e & Hg & Hl & He). exists e. split_and!; [done..| |].
  - unfold ready in Hr. destruct (ph k); [left; by subst|by right].
  - intros ->. destruct (ph k) as [q'|]; [|done]. destruct He as (i & j & l & _ & _ & Ey & _).
    rewrite unvisited_y in Ey. lia.
Qed.

Lemma omap_insert_perm (fp : list svn_diff__snake_t) n e :
  (n < length fp)%nat ->
  omap snake_lcs (<[n := e]> fp) ≡ₚ option_list (snake_lcs e) ++ omap snake_lcs (delete n fp).
Proof.
  intros Hn. rewrite insert_take_drop, delete_take_drop by done. rewrite !omap_app.
  change (omap snake_lcs (e :: drop (S n) fp))
    with (match snake_lcs e with Some a => a :: omap snake_lcs (drop (S n) fp) | None => omap snake_lcs (drop (S n) fp) end).
  destruct (snake_lcs e); cbn; [by rewrite <- Permutation_middle|done].
Qed.

Lemma omap_delete_perm (fp : list svn_diff__snake_t) n e :
  fp !! n = Some e -> omap snake_lcs fp ≡ₚ option_list (snake_lcs e) ++ omap snake_lcs (delete n fp).
Proof.
  intros H. rewrite <- omap_insert_perm by (by eapply lookup_lt_Some). by rewrite list_insert_id.
Qed.

Lemma root_in_rest (fp : list svn_diff__snake_t) n m e a :
  fp !! m = Some e -> m <> n -> snake_lcs e = Some a -> a ∈ omap snake_lcs (delete n fp).
Proof.
  intros Hm Hmn Ha. apply list_elem_of_omap. exists e. split; [|done].
  rewrite delete_take_drop. apply elem_of_app. destruct (decide (m < n)%nat).
  - left. apply list_elem_of_lookup. exists m. by rewrite lookup_take_lt.
  - right. apply list_elem_of_lookup. exists (m - S n)%nat. rewrite lookup_drop. by replace (S n + (m - S n))%nat with m by lia.
Qed.

Lemma snake_spec base h fp C ph p k :
  beyond A B p -> 0 <= p -> - length B <= k <= length A ->
  heap_inv base h (omap snake_lcs fp) C -> fp_inv C fp ph ->
  ready ph (phase_below p k) (k - 1) -> ready ph (phase_above p k) (k + 1) ->
  (ph (k - 1) = None -> ph (k + 1) = None -> k = d) ->
  exists h' fp' C', svn_diff__snake store counts0 counts1 h fp (origin + k) = Ok (h', fp') /\
    heap_inv base h' (omap snake_lcs fp') C' /\ fp_inv C' fp' (fun k' => if k' =? k then Some p else ph k').
Proof.
  intros Hp Hp0 Hk Hinv Hfp Hb Ha Hstart. set (n := Z.to_nat (origin + k)).
  destruct (proj2 Hfp k) as (e & Hge & Hle & _); [lia|].
  destruct (neighbour_ready _ _ _ _ _ Hfp Hb) as (below & Hgb & Hlb & Hnb & Hub); [lia|].
  destruct (neighbour_ready _ _ _ _ _ Hfp Ha) as (above & Hga & Hla & Hna & Hua); [lia|].
  set (rest := omap snake_lcs (delete n fp)).
  destruct (release_spec base (length (nodes h)) h rest C (snake_lcs e)) as (h1 & C1 & Er & Hinv1 & Hsub1 & _).
  { eapply heap_inv_perm; [by apply omap_delete_perm|done]. }
  { by eapply heap_inv_size. }
  assert (forall m e' a l, fp !! m = Some e' -> m <> n -> snake_lcs e' = Some a ->
            C !! a = Some l -> C1 !! a = Some l) as Hkeep.
  { intros m e' a l Hm Hmn Ha' Hl. destruct (hi_roots _ _ _ _ Hinv1 a) as [l' Hl'].
    - by eapply root_in_rest.
    - rewrite Hl'. pose proof (lookup_weaken _ _ _ _ Hl' Hsub1). congruence. }
  assert (neighbour C1 (phase_below p k) (k - 1) below) as Hnb1.
  { destruct Hnb as [Hv|Hn]; [left|by right]. eapply valid_chain; [|done].
    intros a l. apply (Hkeep (Z.to_nat (origin + (k - 1)))); [done|lia]. }
  assert (neighbour C1 (phase_above p k) (k + 1) above) as Hna1.
  { destruct Hna as [Hv|Hn]; [left|by right]. eapply valid_chain; [|done].
    intros a l. apply (Hkeep (Z.to_nat (origin + (k + 1)))); [done|lia]. }
  destruct (choose_spec C1 p k below above Hp Hp0 Hnb1 Hna1) as
    (i & j & l & prev & Ech & Hprev & Hcp & Hpl & Hfr & Hdg & Haff & Hfb & Hfa).
  { intros E1 E2. by apply Hstart; [apply Hub|apply Hua]. }
  destruct (retain_spec base h1 rest C1 prev Hinv1) as (h2 & Ere & Hinv2); [by eexists|].
  destruct (snake_loop_spec store ps0 ps1 T0 T1 o0 o1 counts0 counts1 Hring0 Hring1 Hcounts0 Hcounts1 Hstore
              base (S (length store)) h2 rest C1 prev i j l) as
    (h3 & lcs & C3 & i' & j' & l' & Es & Hinv3 & Hsub3 & Hc3 & Hpl' & Hst' & Hj' & Hx' & Hy'); [|done..|].
  { pose proof (place0 _ _ _ _ _ Hpl). pose proof (place1 _ _ _ _ _ Hpl). lia. }
  unfold svn_diff__snake. rewrite Hge. cbn [mbind result_bind]. rewrite Er. cbn [mbind result_bind].
  replace (origin + k - 1) with (origin + (k - 1)) by lia. replace (origin + k + 1) with (origin + (k + 1)) by lia.
  rewrite Hgb, Hga. cbn [mbind result_bind]. unfold choose in Ech. rewrite Ech. cbn [mbind result_bind].
  rewrite Ere. cbn [mbind result_bind]. rewrite Es. cbn [mbind result_bind].
  pose proof (place1 _ _ _ _ _ Hpl') as Hj1.
  rewrite (ring_get _ _ _ _ _ j' Hring1) by done. cbn [mbind result_bind offset].
  unfold fp_set. rewrite Hge. cbn [mbind result_bind]. eexists _, _, C3. split; [done|].
  set (e' := mk_snake (o1 + j') lcs (ps0 !! i') (ps1 !! j')).
  assert (valid C3 p k e') as Hv.
  { assert (y j <= y j')%nat as Hyy by by apply rank_le.
    exists i', j', l'. split_and!; [done..| | |].
    - unfold diagonal in *. lia.
    - unfold affordable in *. destruct (0 <=? k); lia.
    - apply furthest_step with (x i').
      + eapply furthest_mono; [exact Hfb|]. lia.
      + eapply furthest_mono; [exact Hfa|]. lia.
      + unfold diagonal in *. lia.
      + intros t. by apply stopped_no_match; [apply Hpl'|..]. }
  assert (n < length fp)%nat as Hn by by eapply lookup_lt_Some.
  split.
  - eapply heap_inv_perm; [symmetry; by apply omap_insert_perm|done].
  - split; [rewrite length_insert; apply Hfp|]. intros k' Hk'. destruct (Z.eqb_spec k' k) as [->|Hne].
    + exists e'. assert (<[Z.to_nat (origin + k) := e']> fp !! Z.to_nat (origin + k) = Some e') as E
        by by apply list_lookup_insert_eq.
      split_and!; [apply fp_get_lookup; [lia|done]|done..].
    + destruct (proj2 Hfp k' Hk') as (e1 & Hg1 & Hl1 & He1). exists e1.
      assert (<[Z.to_nat (origin + k) := e']> fp !! Z.to_nat (origin + k') = Some e1) as E
        by (rewrite list_lookup_insert_ne; [done|lia]).
      split_and!; [apply fp_get_lookup; [lia|done]|done|].
      destruct (ph k'); [|done]. eapply valid_chain; [|exact He1].
      intros a l0 Ha' Hl0. eapply lookup_weaken; [|exact Hsub3].
      apply (Hkeep (Z.to_nat (origin + k')) e1); [done|lia|done..].
Qed.

(** ** The loops *)

(** The diagonals visited up to the end of phase [p]. *)
Definition ph_done (p k : Z) : option Z :=
  if (0 <=? p) && (Z.min d 0 - p <=? k) && (k <=? Z.max d 0 + p) then Some p else None.

(** In phase [p], when the first loop is about to visit [first], and when the
    second one is. *)
Definition ph_up (p first k : Z) : option Z :=
  if (Z.min d 0 - p <=? k) && (k <? first) then Some p else ph_done (p - 1) k.

Definition ph_down (p first k : Z) : option Z :=
  if (first <? k) && (k <=? Z.max d 0 + p) then Some p else ph_up p 0 k.

Ltac phases :=
  unfold ready, ph_down, ph_up, ph_done, phase_below, phase_above;
  repeat match goal with
  | |- context [Z.eqb ?a ?b] => destruct (Z.eqb_spec a b); try lia
  | |- context [Z.leb ?a ?b] => destruct (Z.leb_spec a b); cbn [andb]; try lia
  | |- context [Z.ltb ?a ?b] => destruct (Z.ltb_spec a b); cbn [andb]; try lia
  end; try done; try lia.

Lemma ready_none ph q k : (q < 0 \/ k < Z.min d 0 - q \/ Z.max d 0 + q < k) -> ph k = None -> ready ph q k.
Proof.
  intros H E. unfold ready. rewrite E. intros Y. destruct H; [by apply furthest_negative|by apply furthest_far].
Qed.

Lemma ready_some ph q k : ph k = Some q -> ready ph q k.
Proof. intros E. unfold ready. by rewrite E. Qed.

Lemma ready_done p k : ready (ph_done p) p k.
Proof.
  destruct (ph_done p k) eqn:E.
  - apply ready_some. revert E. unfold ph_done. destruct (_ && _); congruence.
  - apply ready_none; [|done]. revert E. phases.
Qed.

Lemma beyond_range p : beyond A B p -> Z.min d 0 - p >= - length B /\ Z.max d 0 + p <= length A.
Proof.
  intros Hp. specialize (Hp 0%nat). unfold dist in *.
  assert (reach A B (length A) (length B) 0); [|specialize (Hp H); lia].
  apply reach_inss with 0%nat; [|lia]. apply reach_dels with 0%nat; [constructor|lia].
Qed.

(** The parts of the state that the loops keep up. *)
Definition loop_inv base (h : lcs_heap) (fp : list svn_diff__snake_t) (ph : Z -> option Z) : Prop :=
  exists C, heap_inv base h (omap snake_lcs fp) C /\ fp_inv C fp ph.

Lemma loop_inv_ext base h fp ph ph' : (forall k, ph k = ph' k) -> loop_inv base h fp ph -> loop_inv base h fp ph'.
Proof. intros E (C & Hi & Hf). exists C. split; [done|]. by eapply fp_inv_ext. Qed.

Lemma snake_inv base h fp ph p k :
  beyond A B p -> 0 <= p -> - length B <= k <= length A -> loop_inv base h fp ph ->
  ready ph (phase_below p k) (k - 1) -> ready ph (phase_above p k) (k + 1) ->
  (ph (k - 1) = None -> ph (k + 1) = None -> k = d) ->
  exists h' fp', svn_diff__snake store counts0 counts1 h fp (origin + k) = Ok (h', fp') /\
    loop_inv base h' fp' (fun k' => if k' =? k then Some p else ph k').
Proof.
  intros Hp Hp0 Hk (C & Hi & Hf) Hb Ha Hs.
  destruct (snake_spec base h fp C ph p k) as (h' & fp' & C' & E & Hi' & Hf'); [done..|].
  exists h', fp'. split; [done|]. by exists C'.
Qed.

Lemma snakes_up base p (n : nat) : beyond A B p -> 0 <= p -> forall h fp k,
  k + Z.of_nat n = 0 -> Z.min d 0 - p <= k -> loop_inv base h fp (ph_up p k) ->
  exists h' fp', snakes store counts0 counts1 h fp ((fun k => origin + k) <$> seqZ k n) = Ok (h', fp') /\
    loop_inv base h' fp' (ph_up p 0).
Proof.
  intros Hp Hp0. pose proof (beyond_range _ Hp) as Hrange.
  induction n as [|n IH]; intros h fp k Hk Hk0 Hinv.
  - exists h, fp. by replace k with 0 in Hinv by lia.
  - rewrite seqZ_cons by lia. cbn [fmap list_fmap snakes].
    destruct (snake_inv base h fp (ph_up p k) p k) as (h1 & fp1 & -> & Hinv1); [done|done|lia|done|..].
    + unfold phase_below. rewrite (proj2 (Z.leb_le k 0)) by lia.
      destruct (decide (k = Z.min d 0 - p)) as [->|]; [apply ready_none; [lia|phases]|apply ready_some; phases].
    + unfold phase_above. rewrite (proj2 (Z.ltb_lt k 0)) by lia.
      replace (ready (ph_up p k)) with (ready (fun k' => ph_up p k k')) by done.
      unfold ready, ph_up. replace (k + 1 <? k) with false by lia. rewrite andb_false_r. apply ready_done.
    + phases.
    + cbn [mbind result_bind]. replace (Z.pred (S n)) with (n : Z) by lia.
      apply (IH h1 fp1 (Z.succ k)); [lia..|]. eapply loop_inv_ext; [|exact Hinv1].
      intros k'. phases.
Qed.

Lemma snakes_down base p (n : nat) : beyond A B p -> 0 <= p -> forall h fp,
  n <= Z.max d 0 + p + 1 -> loop_inv base h fp (ph_down p (n - 1)) ->
  exists h' fp', snakes store counts0 counts1 h fp ((fun k => origin + k) <$> reverse (seqZ 0 n)) = Ok (h', fp') /\
    loop_inv base h' fp' (ph_down p (-1)).
Proof.
  intros Hp Hp0. pose proof (beyond_range _ Hp) as Hrange. pose proof (beyond_bound _ _ _ Hp).
  induction n as [|n IH]; intros h fp Hn Hinv.
  - by exists h, fp.
  - replace (Z.of_nat (S n)) with (n + 1) in * by lia. rewrite seqZ_app by lia.
    rewrite reverse_app. change (reverse (seqZ (0 + n) 1)) with [0 + Z.of_nat n]. rewrite Z.add_0_l.
    change ([Z.of_nat n] ++ ?l) with (Z.of_nat n :: l). cbn [fmap list_fmap snakes].
    replace (n + 1 - 1) with (n : Z) in Hinv by lia.
    destruct (snake_inv base h fp (ph_down p n) p n) as (h1 & fp1 & -> & Hinv1); [done|done|lia|done|..].
    + destruct (decide (n = 0%nat)) as [->|].
      * change (Z.of_nat 0) with 0 in *. unfold phase_below. change (0 <=? 0) with true. cbn match. change (0 - 1) with (-1).
        destruct (decide (Z.min d 0 - p <= -1)).
        -- apply ready_some. phases.
        -- apply ready_none; [lia|phases].
      * unfold phase_below. rewrite (proj2 (Z.leb_gt n 0)) by lia.
        unfold ready, ph_down, ph_up. replace (n <? n - 1) with false by lia.
        replace (n - 1 <? 0) with false by lia. rewrite andb_false_r. cbn [andb]. apply ready_done.
    + unfold phase_above. rewrite (proj2 (Z.ltb_ge n 0)) by lia.
      destruct (decide (n + 1 <= Z.max d 0 + p)); [apply ready_some; phases|apply ready_none; [lia|phases]].
    + phases.
    + cbn [mbind result_bind]. apply (IH h1 fp1); [lia|]. eapply loop_inv_ext; [|exact Hinv1].
      intros k'. phases.
Qed.

(** One phase. *)
Lemma phase_spec base p h fp : beyond A B p -> 0 <= p -> loop_inv base h fp (ph_done (p - 1)) ->
  exists h1 fp1 h' fp',
    snakes store counts0 counts1 h fp ((fun k => origin + k) <$> ks_up (Z.min d 0 - p)) = Ok (h1, fp1) /\
    snakes store counts0 counts1 h1 fp1 ((fun k => origin + k) <$> ks_down (Z.max d 0 + p)) = Ok (h', fp') /\
    loop_inv base h' fp' (ph_done p).
Proof.
  intros Hp Hp0 Hinv. unfold ks_up, ks_down.
  destruct (snakes_up base p (Z.to_nat (- (Z.min d 0 - p))) Hp Hp0 h fp (Z.min d 0 - p)) as
    (h1 & fp1 & E1 & Hinv1); [lia|lia| |].
  { eapply loop_inv_ext; [|exact Hinv]. intros k. phases. }
  rewrite Z2Nat.id in E1 by lia.
  destruct (snakes_down base p (Z.to_nat (Z.max d 0 + p + 1)) Hp Hp0 h1 fp1) as
    (h' & fp' & E' & Hinv'); [lia| |].
  { eapply loop_inv_ext; [|exact Hinv1]. intros k. rewrite Z2Nat.id by lia. phases. }
  rewrite Z2Nat.id in E' by lia. exists h1, fp1, h', fp'. split_and!; [done..|].
  eapply loop_inv_ext; [|exact Hinv']. intros k. phases.
Qed.

(** The end of both files is a place to stop, and no other place with the tail
    sentinel of one is. *)
Lemma stopped_end i j l :
  place T0 T1 i j l -> stopped T0 T1 i j -> diagonal A B (x i) (y j) = 0 -> j = length T1 -> i = length T0.
Proof.
  intros [Hi Hj _ Hr] [Hs _] Hd ->. unfold diagonal in Hd. unfold rank1 in Hd. rewrite rank_full in Hd.
  unfold shared1 in Hd. destruct (decide (i = length T0)) as [|Hne]; [done|].
  destruct (lookup_lt_is_Some_2 T0 i) as [t Ht]; [lia|].
  exfalso. eapply (rank_end (fun t => t ∈ T1) T0 i t); [|done|by apply (Hs t)].
  unfold rank0 in Hd. unfold shared0 in Hd. lia.
Qed.

Lemma lcs_loop_spec base sentinel1 (fuel : nat) : ps1 !! length T1 = Some sentinel1 -> forall h fp p,
  length A - p < fuel -> 0 <= p -> beyond A B p -> loop_inv base h fp (ph_done (p - 1)) ->
  exists h' fp' e R C l, lcs_loop store counts0 counts1 fuel h fp origin d p sentinel1 = Ok (h', fp') /\
    fp_get fp' origin = Ok e /\ heap_inv base h' R C /\
    chain_of C (snake_lcs e) = Some (map (pointers ps0 ps1) l) /\
    aligned T0 T1 l (length T0) (length T1) /\ is_lcs T0 T1 (matched l).
Proof.
  intros Hsent. induction fuel as [|f IH]; intros h fp p Hf Hp0 Hp Hinv.
  { pose proof (beyond_bound _ _ _ Hp). lia. }
  destruct (phase_spec base p h fp Hp Hp0 Hinv) as (h1 & fp1 & h2 & fp2 & E1 & E2 & (C & Hi & Hfp)).
  cbn [lcs_loop]. rewrite E1. cbn [mbind result_bind]. rewrite E2. cbn [mbind result_bind].
  destruct (proj2 Hfp 0) as (e & Hg & _ & He); [lia|]. rewrite Z.add_0_r in Hg. rewrite Hg. cbn [mbind result_bind].
  replace (ph_done p 0) with (Some p) in He by phases.
  destruct He as (i & j & l & E0 & Epos & Ey & Ec & Hpl & Hst & Hd & Haff & Hfar).
  destruct (decide (j = length T1)) as [->|Hj].
  - rewrite bool_decide_eq_true_2 by congruence.
    assert (i = length T0) as -> by by eapply stopped_end.
    exists h2, fp2, e, (omap snake_lcs fp2), C, l. split_and!; [done..|apply Hpl|].
    assert (x (length T0) = length A /\ y (length T1) = length B) as [Hx Hy].
    { split; [by unfold rank0; rewrite rank_full|by unfold rank1; rewrite rank_full]. }
    pose proof (place_reach _ _ _ _ _ Hpl) as Hr. rewrite Hx, Hy in Hr, Haff.
    apply shared_is_lcs, reach_is_lcs; [done|]. intros m Hm. by eapply beyond_longest.
  - rewrite bool_decide_eq_false_2.
    2:{ rewrite Epos, <- Hsent. intros E%(ring_pointer_inj _ _ _ _ _ _ _ Hring1); [done|apply Hpl]. }
    apply (IH h2 fp2 (p + 1)); [lia|lia| |].
    + eapply beyond_next; [exact Hfar|]. pose proof (place1 _ _ _ _ _ Hpl).
      destruct (lookup_lt_is_Some_2 T1 j) as [t Ht]; [lia|].
      unfold rank1. unfold shared1.
      pose proof (rank_lookup (fun t => t ∈ T0) T1 j t Ht (proj2 Hst t Ht)) as Hl. apply lookup_lt_Some in Hl. lia.
    + replace (p + 1 - 1) with p by lia. by exists C.
Qed.

(** The array at the start. *)
Lemma loop_inv_start base h fp :
  heap_inv base h [] ∅ -> fp_set (replicate (length A + length B + 3) zero_snake) (origin + (d - 1)) first_entry = Ok fp ->
  loop_inv base h fp (ph_done (-1)).
Proof.
  intros Hi Hset. unfold fp_set in Hset. apply bind_Ok in Hset as (e & _ & [= <-]).
  set (fp0 := replicate _ zero_snake).
  assert (forall k, - length B - 1 <= k <= length A + 1 ->
            <[Z.to_nat (origin + (d - 1)) := first_entry]> fp0 !! Z.to_nat (origin + k) = Some (unvisited k)) as Hl.
  { intros k Hk. unfold unvisited. unfold dist in *. destruct (Z.eqb_spec k (length A - length B - 1)) as [->|Hne].
    - apply list_lookup_insert_eq. unfold fp0. rewrite length_replicate. lia.
    - rewrite list_lookup_insert_ne by lia. apply lookup_replicate. split; [done|lia]. }
  exists ∅. split.
  - replace (omap snake_lcs _) with (@nil nat); [done|]. symmetry.
    apply elem_of_nil_inv. intros a (e' & He & Ha)%list_elem_of_omap.
    apply list_elem_of_lookup in He as [m Hm]. pose proof (lookup_lt_Some _ _ _ Hm) as Hlt.
    rewrite length_insert in Hlt. unfold fp0 in Hlt. rewrite length_replicate in Hlt.
    specialize (Hl (m - origin)). replace (Z.to_nat (origin + (m - origin))) with m in Hl by lia.
    rewrite Hm in Hl. injection Hl as ->; [|lia]. unfold unvisited in Ha. by destruct (_ =? _).
  - split; [by rewrite length_insert; unfold fp0; rewrite length_replicate|].
    intros k Hk. exists (unvisited k). pose proof (Hl k Hk) as E.
    split_and!; [apply fp_get_lookup; [lia|done]|done|done].
Qed.
End Phases.
