(* ===== verification/DiffLcsFacts.v ===== *)
(** * What [svn_diff__lcs] returns

    The chain it returns starts with the common prefix, if there is one, has
    the matches of a longest common subsequence in their order, the common
    suffix and the end of the files; the rings are as they were before. *)

From stdpp Require Import gmap.
From S2P Require Import Prelude Subsequence DiffToken DiffLcs DiffHeap DiffSnakeFacts.

#[local] Coercion Z.of_nat : nat >-> Z.

(** ** Counting unique tokens *)

Definition sum_Z (l : list Z) : Z := foldr Z.add 0 l.

Lemma sum_Z_app l l' : sum_Z (l ++ l') = sum_Z l + sum_Z l'.
Proof. unfold sum_Z. induction l as [|z l IH]; simpl; [done|]. rewrite IH. lia. Qed.

Lemma sum_Z_zero l : Forall (fun z => z = 0) l -> sum_Z l = 0.
Proof. unfold sum_Z. induction 1 as [|z l -> H IH]; simpl; [done|]. by rewrite IH. Qed.

Lemma sum_Z_add (f g : Z -> Z) l : sum_Z ((fun t => f t + g t) <$> l) = sum_Z (f <$> l) + sum_Z (g <$> l).
Proof. induction l as [|t l IH]; [done|]. rewrite !fmap_cons. unfold sum_Z in *. cbn [foldr]. rewrite IH. lia. Qed.

(** The counts of all tokens, as the function that counts makes them. *)
Definition counts_of (num : Z) (T : bytes) : list Z := (fun t => token_count t T) <$> seqZ 0 num.

Lemma counts_of_lookup num T t : 0 <= t < num -> counts_of num T !! Z.to_nat t = Some (token_count t T).
Proof.
  intros Ht. unfold counts_of. rewrite list_lookup_fmap, lookup_seqZ_lt by lia. cbn. do 2 f_equal. lia.
Qed.

Lemma token_count_cons t u T : token_count t (u :: T) = (if decide (u = t) then 1 else 0) + token_count t T.
Proof. unfold token_count. rewrite filter_cons. destruct (decide (u = t)); simpl; lia. Qed.

Lemma sum_single num u (f : Z -> Z) : 0 <= u < num ->
  sum_Z ((fun t => if decide (u = t) then f t else 0) <$> seqZ 0 num) = f u.
Proof.
  intros Hu. replace num with (u + (1 + (num - u - 1))) by lia.
  rewrite !seqZ_app, !fmap_app, !sum_Z_app by lia.
  replace (seqZ (0 + u) 1) with [u] by (rewrite Z.add_0_l; done). cbn [fmap list_fmap].
  rewrite (sum_Z_zero (_ <$> seqZ 0 u)), (sum_Z_zero (_ <$> seqZ (0 + u + 1) (num - u - 1))).
  - cbn. rewrite decide_True by done. lia.
  - apply Forall_fmap, Forall_forall. intros t Ht%elem_of_seqZ. cbn. rewrite decide_False; [done|lia].
  - apply Forall_fmap, Forall_forall. intros t Ht%elem_of_seqZ. cbn. rewrite decide_False; [done|lia].
Qed.

Lemma sum_counts (P : Z -> bool) num T : Forall (fun t => 0 <= t < num) T ->
  sum_Z ((fun t => if P t then token_count t T else 0) <$> seqZ 0 num) = length (filter (fun t => P t = true) T).
Proof.
  induction 1 as [|u T Hu HT IH].
  - apply sum_Z_zero, Forall_fmap, Forall_forall. intros t _. cbn. by destruct (P t).
  - transitivity (sum_Z ((fun t => (if decide (u = t) then (if P t then 1 else 0) else 0)
                                   + (if P t then token_count t T else 0)) <$> seqZ 0 num)).
    + f_equal. apply list_fmap_ext. intros _ t _. rewrite token_count_cons.
      destruct (P t), (decide (u = t)); lia.
    + rewrite sum_Z_add, IH, (sum_single num u (fun t => if P t then 1 else 0)) by done.
      rewrite filter_cons. destruct (P u) eqn:E; [rewrite decide_True by done|rewrite decide_False by congruence]; simpl; lia.
Qed.

Lemma unique_counts_sums c0 c1 : length c0 = length c1 ->
  unique_counts c0 c1 =
  (sum_Z (zip_with (fun a b => if b =? 0 then a else 0) c0 c1), sum_Z (zip_with (fun a b => if a =? 0 then b else 0) c0 c1)).
Proof.
  revert c1. induction c0 as [|a c0 IH]; intros [|b c1] Hl; try done.
  injection Hl as Hl. cbn [unique_counts zip_with]. by rewrite (IH c1 Hl).
Qed.

Lemma filter_length_split (P : Z -> Prop) `{HPd : !forall t, Decision (P t)} (T : bytes) :
  (length (filter P T) + length (filter (fun t => ~ P t) T) = length T)%nat.
Proof.
  induction T as [|t T IH]; [done|]. rewrite !filter_cons.
  destruct (decide (P t)); [rewrite decide_False by tauto|rewrite decide_True by done]; simpl; lia.
Qed.

(** What remains are the tokens that both files have. *)
Lemma unique_counts_shared num T0 T1 :
  Forall (fun t => 0 <= t < num) T0 -> Forall (fun t => 0 <= t < num) T1 ->
  unique_counts (counts_of num T0) (counts_of num T1) =
  (length T0 - length (shared0 T0 T1), length T1 - length (shared1 T0 T1)).
Proof.
  intros H0 H1. rewrite unique_counts_sums by (unfold counts_of; by rewrite !length_fmap).
  unfold counts_of. rewrite !zip_with_fmap_l, !zip_with_fmap_r, !zip_with_diag.
  pose proof (sum_counts (fun t => token_count t T1 =? 0) num T0 H0) as E0.
  pose proof (sum_counts (fun t => token_count t T0 =? 0) num T1 H1) as E1.
  assert (forall T T' : bytes, length (filter (fun t => (token_count t T' =? 0) = true) T) =
            (length T - length (filter (fun t => t ∈ T') T))%nat) as Hlen.
  { intros T T'. rewrite <- (filter_length_split (fun t => t ∈ T') T).
    replace (filter (fun t => (token_count t T' =? 0) = true) T) with (filter (fun t => ~ t ∈ T') T); [lia|].
    apply list_filter_iff. intros t. by rewrite Z.eqb_eq, token_count_zero. }
  cbn beta in E0, E1. rewrite Hlen in E0, E1. unfold shared0, shared1.
  pose proof (length_filter (fun t => t ∈ T1) T0). pose proof (length_filter (fun t => t ∈ T0) T1).
  f_equal; [etrans; [exact E0|]; lia|etrans; [exact E1|]; lia].
Qed.

(** ** Sentinels *)

(** The ring of a file as it was read. *)
Record token_ring (store : position_store) (ps : list nat) (T : bytes) (o : Z) : Prop := {
  tr_length : length ps = length T;
  tr_nodup : NoDup ps;
  tr_position : forall i a t, ps !! i = Some a -> T !! i = Some t ->
    store !! a = Some (mk_position (ps !! (if decide (S i = length T) then 0%nat else S i)) t (o + i))
}.

Lemma token_ring_store store store' ps T o :
  (forall a, a ∈ ps -> store' !! a = store !! a) -> token_ring store ps T o -> token_ring store' ps T o.
Proof.
  intros H [Hl Hd Hp]. split; [done..|]. intros i a t Ha Ht.
  rewrite H by by eapply list_elem_of_lookup_2. by apply Hp.
Qed.

Lemma token_ring_bound store ps T o : token_ring store ps T o -> Forall (fun a => (a < length store)%nat) ps.
Proof.
  intros [Hl Hd Hp]. apply Forall_forall. intros a [i Hi]%list_elem_of_lookup.
  destruct (lookup_lt_is_Some_2 T i) as [t Ht]; [rewrite <- Hl; by eapply lookup_lt_Some|].
  eapply lookup_lt_Some. by eapply Hp.
Qed.

Lemma ring_tail store ps T o tail : token_ring store ps T o -> last ps = Some tail ->
  exists t, store !! tail = Some (mk_position (ps !! 0%nat) t (o + length T - 1)) /\
    get_position store (Some tail) = Ok (mk_position (ps !! 0%nat) t (o + length T - 1)) /\
    ps !! (length T - 1)%nat = Some tail /\ (0 < length T)%nat.
Proof.
  intros [Hl Hd Hp] Hlast. rewrite last_lookup in Hlast. pose proof (lookup_lt_Some _ _ _ Hlast).
  rewrite Hl in *. replace (Nat.pred (length T)) with (length T - 1)%nat in Hlast by lia.
  destruct (lookup_lt_is_Some_2 T (length T - 1)) as [t Ht]; [lia|]. exists t.
  specialize (Hp _ _ _ Hlast Ht). rewrite decide_True in Hp by lia.
  replace (o + (length T - 1)%nat) with (o + length T - 1) in Hp by lia.
  split_and!; [done| |done|lia]. unfold get_position. cbn. by rewrite Hp.
Qed.

Lemma ring_head store ps T o : token_ring store ps T o -> (0 < length T)%nat ->
  exists p t, get_position store (ps !! 0%nat) = Ok (mk_position p t o).
Proof.
  intros [Hl Hd Hp] HT. destruct (lookup_lt_is_Some_2 T 0 HT) as [t Ht].
  destruct (lookup_lt_is_Some_2 ps 0) as [a Ha]; [lia|]. specialize (Hp _ _ _ Ha Ht).
  rewrite Z.add_0_r in Hp. eexists _, t. unfold get_position. rewrite Ha. cbn. by rewrite Hp.
Qed.

Lemma set_next_spec store a pos next : store !! a = Some pos ->
  set_next store (Some a) next = Ok (<[a := mk_position next (token_index pos) (offset pos)]> store).
Proof. intros H. unfold set_next, get_position. cbn. by rewrite H. Qed.

(** The ring grows by a sentinel at the end of the store. *)
Lemma add_sentinel_spec store ps T o tail s :
  token_ring store ps T o -> last ps = Some tail -> Forall (fun t => 0 <= t) T -> s < 0 ->
  exists t, add_sentinel store tail s =
    Ok (<[tail := mk_position (Some (length store)) t (o + length T - 1)]>
          (store ++ [mk_position (ps !! 0%nat) s (o + length T)]), length store) /\
  store !! tail = Some (mk_position (ps !! 0%nat) t (o + length T - 1)) /\
  forall store', (forall a, a ∈ ps ++ [length store] ->
      store' !! a = <[tail := mk_position (Some (length store)) t (o + length T - 1)]>
          (store ++ [mk_position (ps !! 0%nat) s (o + length T)]) !! a) ->
    file_ring store' (ps ++ [length store]) T o s.
Proof.
  intros Hr Hlast HT Hs. destruct (ring_tail _ _ _ _ _ Hr Hlast) as (t & Ht & Hg & Hi & Hpos).
  pose proof (token_ring_bound _ _ _ _ Hr) as Hb. rewrite Forall_forall in Hb.
  assert (tail < length store)%nat as Htl by (apply Hb; by eapply list_elem_of_lookup_2).
  exists t. split_and!; [|done|].
  - unfold add_sentinel. rewrite Hg. cbn [mbind result_bind pos_next offset].
    replace (o + length T - 1 + 1) with (o + length T) by lia.
    erewrite set_next_spec by by apply lookup_app_l_Some. done.
  - intros store' Hst. destruct Hr as [Hl Hd Hp]. split; [rewrite length_app, Hl; simpl; lia| | |done|done].
    + apply NoDup_app. split_and!; [done| |apply NoDup_singleton].
      intros a Ha Ha'%list_elem_of_singleton. specialize (Hb a Ha). lia.
    + intros i a Ha. rewrite Hst by by eapply list_elem_of_lookup_2.
      destruct (decide (i = length T)) as [->|Hne].
      * rewrite lookup_app_r, Hl, Nat.sub_diag in Ha by lia. cbn in Ha. injection Ha as <-.
        rewrite list_lookup_insert_ne by lia. rewrite lookup_app_r, Nat.sub_diag by done. cbn.
        rewrite (lookup_ge_None_2 T) by done. by rewrite lookup_app_l by lia.
      * assert (i < length T)%nat as Hlt.
        { pose proof (lookup_lt_Some _ _ _ Ha) as Hli. rewrite length_app, Hl in Hli. simpl in Hli. lia. }
        rewrite lookup_app_l in Ha by lia. destruct (lookup_lt_is_Some_2 T i Hlt) as [u Hu]. rewrite Hu. cbn.
        pose proof (Hp _ _ _ Ha Hu) as Hpa. destruct (decide (S i = length T)) as [E|E].
        -- assert (a = tail) as -> by (replace (length T - 1)%nat with i in Hi by lia; congruence).
           rewrite list_lookup_insert_eq by (rewrite length_app; lia).
           rewrite lookup_app_r by lia. rewrite Hl. replace (S i - length T)%nat with 0%nat by lia. cbn.
           rewrite Hpa in Ht. injection Ht as -> E2. by rewrite E2.
        -- rewrite list_lookup_insert_ne.
           2:{ intros ->. apply E. assert (length T - 1 = i)%nat; [|lia].
               eapply NoDup_lookup; [exact Hd|exact Hi|exact Ha]. }
           rewrite lookup_app_l by (apply Hb; by eapply list_elem_of_lookup_2).
           rewrite Hpa. by rewrite lookup_app_l by lia.
Qed.

(** ** The heap at the end *)

(** A chain with its matches, in nodes from [lo] on. *)
Definition lcs_chain (lo : nat) (ns : lcs_store) (p : option nat) (l : list match_pointers) : Prop :=
  exists addrs, linked ns p addrs /\ NoDup addrs /\ Forall (fun a => (lo <= a)%nat) addrs /\
    Forall2 (fun a m => exists n, ns !! a = Some n /\ node_match n = m) addrs l.

Lemma lcs_chain_app lo ns ns' p l : lcs_chain lo ns p l -> lcs_chain lo (ns ++ ns') p l.
Proof.
  intros (addrs & Hl & Hd & Hlo & Hm). exists addrs. split_and!; [by apply linked_app|done|done|].
  eapply Forall2_impl; [exact Hm|]. intros a m (n & Hn & E). exists n. split; [by apply lookup_app_l_Some|done].
Qed.

Lemma lcs_chain_cons lo ns p l m c : lcs_chain lo ns p l -> (lo <= length ns)%nat ->
  lcs_chain lo (ns ++ [mk_lcs p m.1.1 m.1.2 m.2 c]) (Some (length ns)) (m :: l).
Proof.
  intros (addrs & Hl & Hd & Hlo & Hm) Hle. pose proof (linked_bound _ _ _ Hl) as Hb. rewrite Forall_forall in Hb.
  exists (length ns :: addrs). split_and!.
  - split; [done|]. eexists. split; [by rewrite lookup_app_r, Nat.sub_diag|]. by apply linked_app.
  - constructor; [|done]. intros Hin. specialize (Hb _ Hin). lia.
  - by constructor.
  - constructor.
    + eexists. split; [by rewrite lookup_app_r, Nat.sub_diag|]. unfold node_match. by destruct m as [[]].
    + eapply Forall2_impl; [exact Hm|]. intros a m' (n & Hn & E). exists n. split; [by apply lookup_app_l_Some|done].
Qed.

(** A node in front of a chain. *)
Lemma lcs_chain_link a ns p l n : lcs_chain (S a) ns p l -> ns !! a = Some n ->
  lcs_chain a (<[a := set_lcs_next n p]> ns) (Some a) (node_match n :: l).
Proof.
  intros (addrs & Hl & Hd & Hlo & Hm) Hn. rewrite Forall_forall in Hlo.
  assert (a ∉ addrs) as Ha by (intros Hin; specialize (Hlo _ Hin); lia).
  assert (<[a := set_lcs_next n p]> ns !! a = Some (set_lcs_next n p)) as E
    by (apply list_lookup_insert_eq; by eapply lookup_lt_Some).
  exists (a :: addrs). split_and!.
  - split; [done|]. exists (set_lcs_next n p). split; [done|]. by apply linked_insert.
  - by constructor.
  - constructor; [done|]. apply Forall_forall. intros b Hb. specialize (Hlo _ Hb). lia.
  - constructor; [by exists (set_lcs_next n p)|].
    apply Forall2_lookup. intros i. rewrite Forall2_lookup in Hm. specialize (Hm i).
    destruct (addrs !! i) as [b|] eqn:Eb; inversion Hm as [? m (n' & Hn' & E')|]; constructor.
    exists n'. split; [|done]. rewrite list_lookup_insert_ne; [done|].
    apply list_elem_of_lookup_2 in Eb. set_solver.
Qed.

(** Reversing links the nodes the other way round and leaves their matches. *)
Lemma lcs_reverse_spec fuel : forall ns p q xs ys,
  linked ns p xs -> linked ns q ys -> NoDup (xs ++ ys) -> (length xs <= fuel)%nat ->
  exists ns' r, lcs_reverse_loop fuel ns p q = Ok (ns', r) /\ linked ns' r (reverse xs ++ ys) /\
    (forall a n, ns !! a = Some n -> exists n', ns' !! a = Some n' /\ node_match n' = node_match n) /\
    (forall a, a ∉ xs -> ns' !! a = ns !! a) /\ length ns' = length ns.
Proof.
  induction fuel as [|f IH]; intros ns p q [|a xs] ys Hp Hq Hd Hf; cbn in Hp; cbn in Hf; try lia.
  - subst p. exists ns, q. split_and!; [done|done|eauto|done|done].
  - subst p. exists ns, q. split_and!; [done|done|eauto|done|done].
  - destruct Hp as (-> & n & Hn & Hp). cbn [lcs_reverse_loop].
    assert (get_lcs ns (Some a) = Ok n) as -> by (unfold get_lcs; cbn; by rewrite Hn). cbn [mbind result_bind].
    assert (a < length ns)%nat as Hlen by by eapply lookup_lt_Some.
    cbn in Hd. apply NoDup_cons in Hd as [Ha Hd]. rewrite not_elem_of_app in Ha. destruct Ha as [Hax Hay].
    destruct (IH (<[a := set_lcs_next n q]> ns) (lcs_next n) (Some a) xs (a :: ys)) as
      (ns' & r & E & Hl & Hm & Hsame & Hlen'); [|cbn| | |].
    + by apply linked_insert.
    + split; [done|]. eexists. split; [by apply list_lookup_insert_eq|]. by apply linked_insert.
    + rewrite <- Permutation_middle. constructor; [|done]. rewrite not_elem_of_app. done.
    + lia.
    + exists ns', r. split_and!; [done| | | |by rewrite length_insert in Hlen'].
      * by rewrite reverse_cons, <- app_assoc.
      * intros b m Hb. destruct (decide (a = b)) as [<-|Hab].
        -- destruct (Hm a (set_lcs_next n q)) as (n' & Hn' & E'); [by apply list_lookup_insert_eq|].
           exists n'. split; [done|]. rewrite E'. by simplify_eq.
        -- apply Hm. by rewrite list_lookup_insert_ne.
      * intros b Hb. rewrite Hsame by set_solver. rewrite list_lookup_insert_ne by set_solver. done.
Qed.

Lemma NoDup_bound_length (xs : list nat) n : NoDup xs -> Forall (fun a => (a < n)%nat) xs -> (length xs <= n)%nat.
Proof.
  intros Hd Hb. rewrite <- (length_seq n 0). apply submseteq_length, NoDup_submseteq; [done|].
  intros a Ha. rewrite Forall_forall in Hb. specialize (Hb a Ha). apply elem_of_seq. lia.
Qed.

Lemma lcs_chain_reverse lo ns p l : lcs_chain lo ns p l ->
  exists ns' r, svn_diff__lcs_reverse ns p = Ok (ns', r) /\ lcs_chain lo ns' r (reverse l) /\
    length ns' = length ns /\ take lo ns' = take lo ns.
Proof.
  intros (addrs & Hl & Hd & Hlo & Hm). pose proof (linked_bound _ _ _ Hl) as Hb.
  destruct (lcs_reverse_spec (length ns) ns p None addrs []) as (ns' & r & E & Hl' & Hm' & Hsame & Hlen);
    [done|done|by rewrite app_nil_r|by apply NoDup_bound_length|].
  exists ns', r. split_and!; [done| |done|].
  - exists (reverse addrs). rewrite app_nil_r in Hl'. split_and!; [done|by rewrite reverse_Permutation| |].
    + by apply Forall_reverse.
    + apply Forall2_reverse. eapply Forall2_impl; [exact Hm|]. intros a m (n & Hn & <-). by apply Hm'.
  - apply list_eq. intros i. destruct (decide (i < lo)%nat).
    + rewrite !lookup_take_lt by done. apply Hsame. intros Hi. rewrite Forall_forall in Hlo. specialize (Hlo i Hi). lia.
    + by rewrite !lookup_take_ge by lia.
Qed.

(** ** The two rings with their sentinels *)

(** One tail in a store with sentinels. *)
Definition tail_moved (store store' : position_store) (tail sentinel : nat) : Prop :=
  exists pos s, store !! tail = Some pos /\
    store' !! tail = Some (mk_position (Some sentinel) (token_index pos) (offset pos)) /\
    store' !! sentinel = Some s /\ pos_next s = pos_next pos.

Definition with_sentinels (store store' : position_store) (tail0 tail1 : nat) : Prop :=
  length store' = (length store + 2)%nat /\ tail0 <> tail1 /\
  (forall a, (a < length store)%nat -> a <> tail0 -> a <> tail1 -> store' !! a = store !! a) /\
  tail_moved store store' tail0 (length store) /\ tail_moved store store' tail1 (S (length store)).

Lemma remove_sentinel_spec store store' tail sentinel :
  tail_moved store store' tail sentinel ->
  exists pos, store !! tail = Some pos /\ remove_sentinel store' tail sentinel = Ok (<[tail := pos]> store') /\
    forall a q, store' !! a = Some q -> exists q', <[tail := pos]> store' !! a = Some q' /\ offset q' = offset q.
Proof.
  intros (pos & s & Hp & Hp' & Hs & Hn). exists pos. split; [done|]. split.
  2:{ intros a q Hq. destruct (decide (a = tail)) as [->|Hne].
      - exists pos. split; [apply list_lookup_insert_eq; by eapply lookup_lt_Some|]. by simplify_eq.
      - exists q. by rewrite list_lookup_insert_ne. }
  unfold remove_sentinel. assert (get_position store' (Some sentinel) = Ok s) as ->.
  { unfold get_position. cbn. by rewrite Hs. }
  cbn [mbind result_bind]. erewrite set_next_spec by done. cbn. rewrite Hn. by destruct pos.
Qed.

(** Taking the sentinels out gives the store back, up to what was added. *)
Lemma remove_sentinels_spec store store' tail0 tail1 extra :
  with_sentinels store store' tail0 tail1 ->
  exists store1 store2, remove_sentinel (store' ++ extra) tail0 (length store) = Ok store1 /\
    remove_sentinel store1 tail1 (S (length store)) = Ok store2 /\ store `prefix_of` store2 /\
    forall a q, (store' ++ extra) !! a = Some q -> exists q', store2 !! a = Some q' /\ offset q' = offset q.
Proof.
  intros (Hlen & Hne & Hsame & H0 & H1).
  assert (forall tail sentinel, tail_moved store store' tail sentinel ->
            tail_moved store (store' ++ extra) tail sentinel) as Happ.
  { intros tail sentinel (pos & s & ? & ? & ? & ?). exists pos, s.
    split_and!; [done|by apply lookup_app_l_Some|by apply lookup_app_l_Some|done]. }
  assert (tail0 < length store /\ tail1 < length store)%nat as [Hlt0 Hlt1].
  { destruct H0 as (? & ? & H0 & _), H1 as (? & ? & H1 & _). apply lookup_lt_Some in H0, H1. done. }
  destruct (remove_sentinel_spec _ _ _ _ (Happ _ _ H0)) as (pos0 & Hp0 & E0 & Hk0).
  destruct (remove_sentinel_spec store (<[tail0 := pos0]> (store' ++ extra)) tail1 (S (length store))) as (pos1 & Hp1 & E1 & Hk1).
  { destruct (Happ _ _ H1) as (pos & s & ? & ? & ? & ?). exists pos, s.
    rewrite !list_lookup_insert_ne by lia. done. }
  eexists _, _. split_and!; [exact E0|exact E1| |].
  - exists (drop (length store) (<[tail1 := pos1]> (<[tail0 := pos0]> (store' ++ extra)))).
    set (s2 := <[tail1 := pos1]> (<[tail0 := pos0]> (store' ++ extra))).
    rewrite <- (take_drop (length store) s2) at 1. f_equal. apply list_eq. intros i.
    destruct (decide (i < length store)%nat) as [Hi|Hi]; [|rewrite lookup_take_ge, lookup_ge_None_2 by lia; done].
    rewrite lookup_take_lt by done. unfold s2.
    assert (i < length (store' ++ extra))%nat by (rewrite length_app; lia).
    destruct (decide (i = tail1)) as [->|]; [by rewrite list_lookup_insert_eq by (by rewrite length_insert)|].
    rewrite list_lookup_insert_ne by done.
    destruct (decide (i = tail0)) as [->|]; [by rewrite list_lookup_insert_eq|].
    rewrite list_lookup_insert_ne by done. rewrite lookup_app_l by lia. by apply Hsame.
  - intros a q (q1 & Hq1 & <-)%Hk0. by apply Hk1.
Qed.

Lemma aligned_bounds T0 T1 l i j : aligned T0 T1 l i j ->
  Forall (fun m => (0 < m.2 /\ m.1.1 + m.2 <= i /\ m.1.2 + m.2 <= j)%nat) l.
Proof.
  induction 1 as [i j|l i j m i' j' Ha IH Hfr Hm Heq Hi Hj Hl]; [constructor|].
  constructor; [simpl; lia|]. eapply Forall_impl; [exact IH|]. simpl. lia.
Qed.

Lemma last_lookup_tail (ps : list nat) tail : last ps = Some tail -> tail ∈ ps.
Proof. intros (l & ->)%last_Some. set_solver. Qed.

Section TwoRings.
Context (store : position_store) (ps0 ps1 : list nat) (T0 T1 : bytes) (o0 o1 : Z) (tail0 tail1 : nat) (num : Z).
Hypothesis Hr0 : token_ring store ps0 T0 o0.
Hypothesis Hr1 : token_ring store ps1 T1 o1.
Hypothesis Hl0 : last ps0 = Some tail0.
Hypothesis Hl1 : last ps1 = Some tail1.
Hypothesis Hdisj : forall a, a ∈ ps0 -> a ∉ ps1.
Hypothesis H0 : Forall (fun t => 0 <= t < num) T0.
Hypothesis H1 : Forall (fun t => 0 <= t < num) T1.

Lemma add_sentinels_spec :
  exists store1 store2, add_sentinel store tail0 (-1) = Ok (store1, length store) /\
    add_sentinel store1 tail1 (-2) = Ok (store2, S (length store)) /\
    file_ring store2 (ps0 ++ [length store]) T0 o0 (-1) /\
    file_ring store2 (ps1 ++ [S (length store)]) T1 o1 (-2) /\ with_sentinels store store2 tail0 tail1.
Proof.
  assert (Forall (fun t => 0 <= t) T0 /\ Forall (fun t => 0 <= t) T1) as [Hn0 Hn1].
  { split; (eapply Forall_impl; [eassumption|simpl; lia]). }
  pose proof (token_ring_bound _ _ _ _ Hr0) as Hb0. pose proof (token_ring_bound _ _ _ _ Hr1) as Hb1.
  rewrite Forall_forall in Hb0, Hb1.
  pose proof (last_lookup_tail _ _ Hl0) as Hin0. pose proof (last_lookup_tail _ _ Hl1) as Hin1.
  assert (tail0 <> tail1) as Hne by (intros ->; by apply (Hdisj tail1)).
  pose proof (Hb0 _ Hin0). pose proof (Hb1 _ Hin1).
  destruct (add_sentinel_spec _ _ _ _ _ (-1) Hr0 Hl0 Hn0 ltac:(lia)) as (w0 & E0 & Ht0 & Hfile0).
  set (store1 := <[tail0 := _]> (store ++ [mk_position (ps0 !! 0%nat) (-1) (o0 + length T0)])) in *.
  assert (length store1 = S (length store)) as Hlen1.
  { unfold store1. rewrite length_insert, length_app. simpl. lia. }
  assert (forall a, (a < length store)%nat -> a <> tail0 -> store1 !! a = store !! a) as Hs1.
  { intros a Ha Hne0. unfold store1. rewrite list_lookup_insert_ne by done. by rewrite lookup_app_l. }
  assert (token_ring store1 ps1 T1 o1) as Hr1'.
  { eapply token_ring_store; [|exact Hr1]. intros a Ha. apply Hs1; [by apply Hb1|].
    intros ->. by apply (Hdisj tail0). }
  destruct (add_sentinel_spec _ _ _ _ _ (-2) Hr1' Hl1 Hn1 ltac:(lia)) as (w1 & E1 & Ht1 & Hfile1).
  rewrite Hlen1 in *. set (store2 := <[tail1 := _]> (store1 ++ _)) in *.
  assert (forall a, (a < S (length store))%nat -> a <> tail1 -> store2 !! a = store1 !! a) as Hs2.
  { intros a Ha Hne1. unfold store2. rewrite list_lookup_insert_ne by done. rewrite lookup_app_l; [done|lia]. }
  exists store1, store2. split_and!; [done|done| |by apply Hfile1|].
  - apply Hfile0. intros a Ha. apply Hs2.
    + apply elem_of_app in Ha as [Ha| ->%list_elem_of_singleton]; [|lia]. specialize (Hb0 a Ha). lia.
    + intros ->. apply elem_of_app in Ha as [Ha|Ha%list_elem_of_singleton]; [by apply (Hdisj tail1)|lia].
  - split_and!; [|done| | |].
    + unfold store2. rewrite length_insert, length_app, Hlen1. simpl. lia.
    + intros a Ha Hne0 Hne1. rewrite Hs2 by (done || lia). by apply Hs1.
    + eexists _, _. split_and!; [exact Ht0| | |].
      * rewrite Hs2 by (done || lia). apply list_lookup_insert_eq. rewrite length_app. lia.
      * rewrite Hs2 by lia. unfold store1. rewrite list_lookup_insert_ne by lia.
        by rewrite lookup_app_r, Nat.sub_diag.
      * done.
    + eexists _, _. split_and!; [rewrite <- Hs1 by (done || lia); exact Ht1| | |].
      * apply list_lookup_insert_eq. rewrite length_app. lia.
      * unfold store2. rewrite list_lookup_insert_ne by lia. by rewrite lookup_app_r, Hlen1, Nat.sub_diag by lia.
      * done.
Qed.

(** Both rings are in the store. *)
Lemma rings_fit : (length T0 + length T1 <= length store)%nat.
Proof.
  rewrite <- (tr_length _ _ _ _ Hr0), <- (tr_length _ _ _ _ Hr1), <- length_app.
  apply NoDup_bound_length.
  - apply NoDup_app. split_and!; [apply Hr0|done|apply Hr1].
  - apply Forall_app. split; [by eapply token_ring_bound|by eapply token_ring_bound].
Qed.

Lemma ring_lengths :
  exists next0 next1 u0 u1 v0 v1 n0 n1,
    get_position store (Some tail0) = Ok (mk_position next0 u0 (o0 + length T0 - 1)) /\
    get_position store next0 = Ok (mk_position n0 v0 o0) /\ next0 = ps0 !! 0%nat /\
    get_position store (Some tail1) = Ok (mk_position next1 u1 (o1 + length T1 - 1)) /\
    get_position store next1 = Ok (mk_position n1 v1 o1).
Proof.
  destruct (ring_tail _ _ _ _ _ Hr0 Hl0) as (u0 & _ & Hg0 & _ & Hp0).
  destruct (ring_tail _ _ _ _ _ Hr1 Hl1) as (u1 & _ & Hg1 & _ & Hp1).
  destruct (ring_head _ _ _ _ Hr0 Hp0) as (n0 & v0 & Hh0). destruct (ring_head _ _ _ _ Hr1 Hp1) as (n1 & v1 & Hh1).
  by exists (ps0 !! 0%nat), (ps1 !! 0%nat), u0, u1, v0, v1, n0, n1.
Qed.

Lemma pointers_sentinel l : aligned T0 T1 l (length T0) (length T1) ->
  map (pointers (ps0 ++ [length store]) (ps1 ++ [S (length store)])) l = map (pointers ps0 ps1) l.
Proof.
  intros Hal%aligned_bounds. apply map_ext_in. intros [[i j] m] Hin. rewrite List.Forall_forall in Hal.
  specialize (Hal _ Hin). simpl in Hal. unfold pointers. cbn.
  rewrite !lookup_app_l; [done| |]; [rewrite (tr_length _ _ _ _ Hr1)|rewrite (tr_length _ _ _ _ Hr0)]; lia.
Qed.

Lemma lcs_of_rings_spec ns : 1 <= o1 ->
  exists store' ns' m l,
    lcs_of_rings store ns tail0 tail1 (counts_of num T0) (counts_of num T1) num
      = Ok (store', ns', m, length store, S (length store)) /\
    with_sentinels store store' tail0 tail1 /\ ns `prefix_of` ns' /\
    lcs_chain (length ns) ns' m (map (pointers ps0 ps1) l) /\
    aligned T0 T1 l (length T0) (length T1) /\ is_lcs T0 T1 (matched l).
Proof.
  intros Ho. destruct add_sentinels_spec as (store1 & store2 & E0 & E1 & Hf0 & Hf1 & Hws).
  destruct ring_lengths as (next0 & next1 & u0 & u1 & v0 & v1 & n0 & n1 & Hg0 & Hh0 & Hnext & Hg1 & Hh1).
  unfold lcs_of_rings.
  assert (forall T, take (Z.to_nat num) (counts_of num T) = counts_of num T) as Htake.
  { intros T. apply take_ge. unfold counts_of. rewrite length_fmap, length_seqZ. done. }
  rewrite !Htake, unique_counts_shared by done. rewrite Hg0. cbn [mbind result_bind pos_next offset].
  rewrite Hh0. cbn [mbind result_bind offset]. rewrite Hg1. cbn [mbind result_bind pos_next offset].
  rewrite Hh1. cbn [mbind result_bind offset].
  replace (o0 + length T0 - 1 - o0 + 1 - (length T0 - length (shared0 T0 T1))) with (length (shared0 T0 T1) : Z) by lia.
  replace (o1 + length T1 - 1 - o1 + 1 - (length T1 - length (shared1 T0 T1))) with (length (shared1 T0 T1) : Z) by lia.
  replace (Z.to_nat (length (shared0 T0 T1) + length (shared1 T0 T1) + 3))
    with (length (shared0 T0 T1) + length (shared1 T0 T1) + 3)%nat by lia.
  rewrite E0. cbn [mbind result_bind]. rewrite E1. cbn [mbind result_bind].
  assert ((ps0 ++ [length store]) !! 0%nat = next0 /\ (ps1 ++ [S (length store)]) !! length T1 = Some (S (length store)))
    as [Hfirst Hsent].
  { split; [|by rewrite lookup_app_r, (tr_length _ _ _ _ Hr1), Nat.sub_diag by (by rewrite (tr_length _ _ _ _ Hr1))].
    rewrite Hnext. apply lookup_app_l. rewrite (tr_length _ _ _ _ Hr0).
    destruct (ring_tail _ _ _ _ _ Hr0 Hl0) as (_ & _ & _ & _ & Hp). done. }
  set (first := mk_snake 0 None next0 (Some (S (length store)))).
  assert (first = first_entry (ps0 ++ [length store]) (ps1 ++ [S (length store)]) T1) as Hfe.
  { unfold first, first_entry. by rewrite Hfirst, Hsent. }
  match goal with |- context [fp_set ?arr ?i first] =>
    assert (exists fp, fp_set arr i first = Ok fp) as [fp Hfp] end.
  { unfold fp_set, fp_get. rewrite (proj2 (Z.ltb_ge _ 0)) by lia.
    rewrite lookup_replicate_2 by lia. by eexists. }
  rewrite Hfp. cbn [mbind result_bind]. rewrite Hfe in Hfp.
  assert (length T0 + length T1 < length store2)%nat as Hfit.
  { pose proof rings_fit. destruct Hws as (Hlen & _). lia. }
  destruct (lcs_loop_spec store2 (ps0 ++ [length store]) (ps1 ++ [S (length store)]) T0 T1 o0 o1
              (counts_of num T0) (counts_of num T1) Hf0 Hf1) with (base := ns) (sentinel1 := S (length store))
    (fuel := S (length (shared0 T0 T1))) (h := mk_heap ns None) (fp := fp) (p := 0)
    as (h' & fp' & e & R & C & l & El & Ee & Hinv & Hc & Hal & Hlcs); [..|done|lia|lia|apply beyond_0| |].
  - intros t Ht. apply counts_of_lookup. rewrite Forall_forall in H1. by apply H1.
  - intros t Ht. apply counts_of_lookup. rewrite Forall_forall in H0. by apply H0.
  - done.
  - done.
  - eapply loop_inv_start; eauto using heap_inv_empty.
  - rewrite Nat2Z.id. unfold dist in El. rewrite El. cbn [mbind result_bind]. rewrite Ee. cbn [mbind result_bind].
    exists store2, (nodes h'), (snake_lcs e), l. split_and!; [done|done|apply Hinv| |done|done].
    destruct (chain_linked _ _ _ _ Hinv _ _ Hc) as (addrs & Hlk & Hd & Hm & Hb). exists addrs.
    rewrite pointers_sentinel in Hm by done. split_and!; [done|done| |done].
    eapply Forall_impl; [exact Hb|]. by intros a [? _].
Qed.
End TwoRings.

(** ** The whole function *)

(** The end of a file whose positions start at [o]. *)
Definition file_end (T : bytes) (o prefix_lines : Z) : Z :=
  match T with [] => prefix_lines + 1 | _ => o + length T end.

(** A match whose positions have these offsets. *)
Definition match_at (store : position_store) (m : match_pointers) (at_ : Z * Z * Z) : Prop :=
  exists p0 p1, get_position store m.1.1 = Ok p0 /\ get_position store m.1.2 = Ok p1 /\
    offset p0 = at_.1.1 /\ offset p1 = at_.1.2 /\ m.2 = at_.2.

Lemma get_position_prefix store store' p pos :
  store `prefix_of` store' -> get_position store p = Ok pos -> get_position store' p = Ok pos.
Proof.
  intros [k ->]. unfold get_position. destruct p as [a|]; cbn; [|done].
  destruct (store !! a) as [q|] eqn:E; [|done]. by rewrite (lookup_app_l_Some _ _ _ _ E).
Qed.

Lemma match_at_prefix store store' m at_ : store `prefix_of` store' -> match_at store m at_ -> match_at store' m at_.
Proof.
  intros Hp (p0 & p1 & H0 & H1 & H). exists p0, p1. split_and!; [by eapply get_position_prefix..| | |]; apply H.
Qed.

Lemma match_at_offsets store store' m at_ :
  (forall a q, store !! a = Some q -> exists q', store' !! a = Some q' /\ offset q' = offset q) ->
  match_at store m at_ -> match_at store' m at_.
Proof.
  intros H.
  assert (forall p pos, get_position store p = Ok pos ->
            exists pos', get_position store' p = Ok pos' /\ offset pos' = offset pos) as Hg.
  { intros [a|] pos; unfold get_position; cbn; [|done]. destruct (store !! a) as [q|] eqn:E; [|done].
    intros [= <-]. destruct (H a q E) as (q' & -> & Ho). by exists q'. }
  intros (p0 & p1 & (p0' & H0 & E0)%Hg & (p1' & H1 & E1)%Hg & Hm). exists p0', p1'. by rewrite E0, E1.
Qed.

Definition added_match (lines a b : Z) : list (Z * Z * Z) := if lines =? 0 then [] else [(a, b, lines)].

Lemma maybe_prepend_spec lo store ns p l lines a b :
  lcs_chain lo ns p l -> (lo <= length ns)%nat -> 0 <= lines ->
  exists store' ns' p' ms, maybe_prepend store ns p lines a b = Ok (store', ns', p') /\
    store `prefix_of` store' /\ ns `prefix_of` ns' /\ lcs_chain lo ns' p' (ms ++ l) /\
    Forall2 (match_at store') ms (added_match lines a b).
Proof.
  intros Hc Hlo Hlines. unfold maybe_prepend, added_match.
  destruct (Z.eqb_spec lines 0) as [->|Hne]; cbn [negb].
  { exists store, ns, p, []. split_and!; [done..|constructor]. }
  unfold prepend_lcs. rewrite c_assert_lt by lia. cbn [mbind result_bind new_position].
  eexists _, _, _, [(Some (length store), Some (length (store ++ [mk_position None 0 a])), lines)].
  split_and!; [reflexivity| | | |].
  - rewrite <- app_assoc. by eexists.
  - by eexists.
  - by apply (lcs_chain_cons lo ns p l (Some (length store), Some (length (store ++ [mk_position None 0 a])), lines) 1).
  - constructor; [|constructor]. exists (mk_position None 0 a), (mk_position None 0 b).
    assert (((store ++ [mk_position None 0 a]) ++ [mk_position None 0 b]) !! length store = Some (mk_position None 0 a)) as E0.
    { rewrite <- app_assoc. by apply list_lookup_middle. }
    assert (((store ++ [mk_position None 0 a]) ++ [mk_position None 0 b]) !! length (store ++ [mk_position None 0 a])
            = Some (mk_position None 0 b)) as E1 by by apply list_lookup_middle.
    unfold get_position. cbn [fst snd option_bind mbind]. by rewrite E0, E1.
Qed.

Lemma token_ring_prefix store store' ps T o : store `prefix_of` store' -> token_ring store ps T o -> token_ring store' ps T o.
Proof.
  intros [k ->] Hr. pose proof (token_ring_bound _ _ _ _ Hr) as Hb. rewrite Forall_forall in Hb.
  eapply token_ring_store; [|exact Hr]. intros a Ha. apply lookup_app_l. by apply Hb.
Qed.

Lemma eof_offset_spec store ps T o prefix suffix : token_ring store ps T o ->
  eof_offset store (last ps) prefix suffix = Ok (file_end T o prefix + suffix).
Proof.
  intros Hr. destruct (last ps) as [tail|] eqn:E.
  - destruct (ring_tail _ _ _ _ _ Hr E) as (t & _ & Hg & _ & Hp). unfold eof_offset. rewrite Hg. cbn.
    unfold file_end. destruct T; simpl in *; [lia|]. f_equal. lia.
  - apply last_None in E as ->. pose proof (tr_length _ _ _ _ Hr) as Hl. destruct T; [|done].
    unfold eof_offset, file_end. f_equal. lia.
Qed.

(** The offsets of a match in the files. *)
Definition offsets (o0 o1 : Z) (m : nat * nat * nat) : Z * Z * Z := (o0 + m.1.1, o1 + m.1.2, m.2 : Z).

Lemma pointers_at store ps0 ps1 T0 T1 o0 o1 l :
  token_ring store ps0 T0 o0 -> token_ring store ps1 T1 o1 -> aligned T0 T1 l (length T0) (length T1) ->
  Forall2 (match_at store) (map (pointers ps0 ps1) l) (map (offsets o0 o1) l).
Proof.
  intros Hr0 Hr1 Hal%aligned_bounds. apply Forall2_fmap_2. apply Forall_Forall2_diag.
  eapply Forall_impl; [exact Hal|]. intros [[i j] m]. cbn. intros (Hm & Hi & Hj).
  destruct (lookup_lt_is_Some_2 T0 i) as [t Ht]; [lia|]. destruct (lookup_lt_is_Some_2 T1 j) as [u Hu]; [lia|].
  destruct (lookup_lt_is_Some_2 ps0 i) as [a Ha]; [rewrite (tr_length _ _ _ _ Hr0); lia|].
  destruct (lookup_lt_is_Some_2 ps1 j) as [b Hb]; [rewrite (tr_length _ _ _ _ Hr1); lia|].
  unfold match_at, pointers. cbn. rewrite Ha, Hb. unfold get_position. cbn.
  rewrite (tr_position _ _ _ _ Hr0 _ _ _ Ha Ht), (tr_position _ _ _ _ Hr1 _ _ _ Hb Hu). by eexists _, _.
Qed.

Lemma is_lcs_nil_r (T0 T1 : bytes) : T0 = [] \/ T1 = [] -> is_lcs T0 T1 0.
Proof. intros [->| ->]; [apply is_lcs_sym|]; apply is_lcs_nil. Qed.

(** The matches that are returned: the prefix, the matches between, the suffix
    and the end. *)
Definition all_matches (T0 T1 : bytes) (o0 o1 prefix suffix : Z) (l : list (nat * nat * nat)) : list (Z * Z * Z) :=
  added_match prefix 1 1 ++ map (offsets o0 o1) (reverse l) ++
  added_match suffix (file_end T0 o0 prefix) (file_end T1 o1 prefix) ++
  [(file_end T0 o0 prefix + suffix, file_end T1 o1 prefix + suffix, 0)].

Record lcs_outcome (store : position_store) (ns : lcs_store) (ps0 ps1 : list nat) (T0 T1 : bytes)
    (o0 o1 prefix suffix : Z) (store' : position_store) (ns' : lcs_store) (lcs : option nat)
    (ms : list match_pointers) (l : list (nat * nat * nat)) : Prop := {
  lo_store : store `prefix_of` store';
  lo_nodes : ns `prefix_of` ns';
  lo_chain : lcs_chain (length ns) ns' lcs ms;
  lo_aligned : aligned T0 T1 l (length T0) (length T1);
  lo_lcs : is_lcs T0 T1 (matched l);
  lo_offsets : Forall2 (match_at store') ms (all_matches T0 T1 o0 o1 prefix suffix l);
  lo_pointers : exists pre post, ms = pre ++ map (pointers ps0 ps1) (reverse l) ++ post /\
    length pre = length (added_match prefix 1 1)
}.

Lemma take_prefix (ns ns' : lcs_store) : take (length ns) ns' = ns -> ns `prefix_of` ns'.
Proof. intros E. exists (drop (length ns) ns'). by rewrite <- E at 1; rewrite take_drop. Qed.

Section Whole.
Context (store : position_store) (ns : lcs_store) (ps0 ps1 : list nat) (T0 T1 : bytes) (o0 o1 num prefix suffix : Z).
Hypothesis Hr0 : token_ring store ps0 T0 o0.
Hypothesis Hr1 : token_ring store ps1 T1 o1.
Hypothesis Hdisj : forall a, a ∈ ps0 -> a ∉ ps1.
Hypothesis H0 : Forall (fun t => 0 <= t < num) T0.
Hypothesis H1 : Forall (fun t => 0 <= t < num) T1.
Hypothesis Ho1 : 1 <= o1.
Hypothesis Hprefix : 0 <= prefix.
Hypothesis Hsuffix : 0 <= suffix.

Let eof0 := file_end T0 o0 prefix + suffix.
Let eof1 := file_end T1 o1 prefix + suffix.
Let store0 := (store ++ [mk_position None 0 eof0]) ++ [mk_position None 0 eof1].
Let eof_match : match_pointers := (Some (length store), Some (length (store ++ [mk_position None 0 eof0])), 0).
Let eof_node := mk_lcs None (Some (length store)) (Some (length (store ++ [mk_position None 0 eof0]))) 0 1.

Lemma store0_prefix : store `prefix_of` store0.
Proof. unfold store0. rewrite <- app_assoc. by eexists. Qed.

Lemma eof_at store' : store0 `prefix_of` store' -> match_at store' eof_match (eof0, eof1, 0).
Proof.
  intros Hp. eapply match_at_prefix; [exact Hp|]. exists (mk_position None 0 eof0), (mk_position None 0 eof1).
  unfold get_position, eof_match. cbn [fst snd option_bind mbind].
  assert (store0 !! length store = Some (mk_position None 0 eof0)) as ->.
  { unfold store0. rewrite <- app_assoc. by apply list_lookup_middle. }
  assert (store0 !! length (store ++ [mk_position None 0 eof0]) = Some (mk_position None 0 eof1)) as ->
    by by apply list_lookup_middle.
  done.
Qed.

Lemma eof_chain : lcs_chain (length ns) (ns ++ [eof_node]) (Some (length ns)) [eof_match].
Proof. apply (lcs_chain_cons (length ns) ns None [] eof_match 1); [|done]. exists []. repeat constructor. Qed.

(** One of the files has no tokens. *)
Lemma lcs_spec_empty : T0 = [] \/ T1 = [] ->
  exists store' ns' lcs ms,
    svn_diff__lcs store ns (last ps0) (last ps1) (counts_of num T0) (counts_of num T1) num prefix suffix
      = Ok (store', ns', lcs) /\
    lcs_outcome store ns ps0 ps1 T0 T1 o0 o1 prefix suffix store' ns' lcs ms [].
Proof.
  intros HT. unfold svn_diff__lcs.
  rewrite (eof_offset_spec _ _ _ _ _ _ Hr0), (eof_offset_spec _ _ _ _ _ _ Hr1). cbn [mbind result_bind new_position].
  fold eof0 eof1 store0. change (mk_lcs None _ _ 0 1) with eof_node.
  destruct (maybe_prepend_spec (length ns) store0 _ _ _ suffix (eof0 - suffix) (eof1 - suffix) eof_chain) as
    (store1 & ns1 & p1 & ms1 & E1 & Hs1 & Hn1 & Hc1 & Hm1); [rewrite length_app; lia|done|].
  destruct (maybe_prepend_spec (length ns) store1 ns1 p1 _ prefix 1 1 Hc1) as
    (store2 & ns2 & p2 & ms2 & E2 & Hs2 & Hn2 & Hc2 & Hm2); [destruct Hn1 as [k ->]; rewrite !length_app; lia|done|].
  exists store2, ns2, p2, (ms2 ++ ms1 ++ [eof_match]). split.
  - destruct (last ps0) eqn:El0, (last ps1) eqn:El1; try (rewrite E1; cbn [mbind result_bind]; exact E2).
    exfalso. destruct HT as [->| ->]; [pose proof (tr_length _ _ _ _ Hr0)|pose proof (tr_length _ _ _ _ Hr1)];
      [by destruct ps0|by destruct ps1].
  - split; [| |done|constructor|by apply is_lcs_nil_r| |].
    + etrans; [apply store0_prefix|]. by etrans.
    + etrans; [|exact Hn2]. etrans; [|exact Hn1]. by eexists.
    + unfold all_matches. apply Forall2_app; [done|].
      change (map (offsets o0 o1) (reverse [])) with (@nil (Z * Z * Z)). rewrite app_nil_l. apply Forall2_app.
      { replace (file_end T0 o0 prefix) with (eof0 - suffix) by (unfold eof0; lia).
        replace (file_end T1 o1 prefix) with (eof1 - suffix) by (unfold eof1; lia).
        eapply Forall2_impl; [exact Hm1|]. intros. by eapply match_at_prefix. }
      constructor; [|constructor]. apply eof_at. by etrans.
    + exists ms2, (ms1 ++ [eof_match]). split; [done|]. by apply Forall2_length in Hm2.
Qed.

Lemma lcs_spec_both tail0 tail1 : last ps0 = Some tail0 -> last ps1 = Some tail1 ->
  exists store' ns' lcs ms l,
    svn_diff__lcs store ns (last ps0) (last ps1) (counts_of num T0) (counts_of num T1) num prefix suffix
      = Ok (store', ns', lcs) /\
    lcs_outcome store ns ps0 ps1 T0 T1 o0 o1 prefix suffix store' ns' lcs ms l.
Proof.
  intros El0 El1. unfold svn_diff__lcs.
  rewrite (eof_offset_spec _ _ _ _ _ _ Hr0), (eof_offset_spec _ _ _ _ _ _ Hr1). cbn [mbind result_bind new_position].
  fold eof0 eof1 store0. change (mk_lcs None _ _ 0 1) with eof_node. rewrite El0, El1.
  destruct (lcs_of_rings_spec store0 ps0 ps1 T0 T1 o0 o1 tail0 tail1 num) with (ns := ns ++ [eof_node]) as
    (store1 & ns1 & m & l & E & Hws & Hn1 & Hc1 & Hal & Hlcs);
    [by eapply token_ring_prefix, Hr0; apply store0_prefix|by eapply token_ring_prefix, Hr1; apply store0_prefix|done..|].
  rewrite E. cbn [mbind result_bind]. rewrite length_app in Hc1. change (length [eof_node]) with 1%nat in Hc1.
  rewrite Nat.add_1_r in Hc1.
  assert (ns1 !! length ns = Some eof_node) as Heof.
  { eapply prefix_lookup_Some; [|exact Hn1]. by apply list_lookup_middle. }
  pose proof (lookup_lt_Some _ _ _ Heof) as Hlt.
  destruct (maybe_prepend_spec (S (length ns)) store1 ns1 m _ suffix (eof0 - suffix) (eof1 - suffix) Hc1) as
    (store2 & ns2 & p2 & ms2 & E2 & [extra ->] & Hn2 & Hc2 & Hm2); [lia|done|].
  rewrite E2. cbn [mbind result_bind].
  assert (ns2 !! length ns = Some eof_node) as Heof2 by by eapply prefix_lookup_Some.
  assert (get_lcs ns2 (Some (length ns)) = Ok eof_node) as -> by (unfold get_lcs; cbn; by rewrite Heof2).
  cbn [mbind result_bind].
  pose proof (lcs_chain_link _ _ _ _ _ Hc2 Heof2) as Hc3. change (node_match eof_node) with eof_match in Hc3.
  destruct (lcs_chain_reverse _ _ _ _ Hc3) as (ns4 & r & -> & Hc4 & Hlen4 & Htake). cbn [mbind result_bind].
  destruct (remove_sentinels_spec _ _ _ _ extra Hws) as (store3 & store4 & -> & E4 & Hs4 & Hoff). cbn [mbind result_bind].
  rewrite E4. cbn [mbind result_bind].
  destruct (maybe_prepend_spec _ store4 _ _ _ prefix 1 1 Hc4) as
    (store5 & ns5 & p5 & ms5 & E5 & Hs5 & Hn5 & Hc5 & Hm5).
  { rewrite Hlen4, length_insert. destruct Hn2 as [k ->]. rewrite length_app. lia. }
  { done. }
  exists store5, ns5, p5, (ms5 ++ map (pointers ps0 ps1) (reverse l) ++ reverse ms2 ++ [eof_match]), l.
  split; [done|].
  assert (store `prefix_of` store5) as Hpre by (etrans; [apply store0_prefix|by etrans]).
  rewrite reverse_cons, reverse_app, <- app_assoc in Hc5.
  change (map (pointers ps0 ps1) l) with (pointers ps0 ps1 <$> l) in Hc5. rewrite <- fmap_reverse in Hc5.
  split; [done| |done|done|done| |].
  - etrans; [|exact Hn5]. apply take_prefix. rewrite Htake.
    rewrite take_insert_ge by lia. destruct Hn2 as [k2 ->], Hn1 as [k1 ->].
    by rewrite <- !app_assoc, take_app_length.
  - unfold all_matches. apply Forall2_app; [done|]. apply Forall2_app.
    { change (map (pointers ps0 ps1) (reverse l)) with (pointers ps0 ps1 <$> reverse l).
      change (map (offsets o0 o1) (reverse l)) with (offsets o0 o1 <$> reverse l). rewrite !fmap_reverse.
      apply Forall2_reverse. by eapply pointers_at; [eapply token_ring_prefix..|]. }
    apply Forall2_app; [|constructor; [|constructor]; apply eof_at; by etrans].
    assert (reverse (added_match suffix (file_end T0 o0 prefix) (file_end T1 o1 prefix))
            = added_match suffix (eof0 - suffix) (eof1 - suffix)) as Hrev.
    { unfold added_match, eof0, eof1. destruct (suffix =? 0); [done|]. cbn. repeat f_equal; lia. }
    rewrite <- (reverse_involutive (added_match suffix _ _)), Hrev. apply Forall2_reverse.
    eapply Forall2_impl; [exact Hm2|]. intros [[p0 p1] len] at_ Hat. eapply match_at_prefix; [exact Hs5|].
    by eapply match_at_offsets.
  - eexists ms5, _. split; [done|]. by apply Forall2_length in Hm5.
Qed.
End Whole.

Lemma lcs_spec store ns ps0 ps1 T0 T1 o0 o1 num prefix suffix :
  token_ring store ps0 T0 o0 -> token_ring store ps1 T1 o1 -> (forall a, a ∈ ps0 -> a ∉ ps1) ->
  Forall (fun t => 0 <= t < num) T0 -> Forall (fun t => 0 <= t < num) T1 -> 1 <= o1 -> 0 <= prefix -> 0 <= suffix ->
  exists store' ns' lcs ms l,
    svn_diff__lcs store ns (last ps0) (last ps1) (counts_of num T0) (counts_of num T1) num prefix suffix
      = Ok (store', ns', lcs) /\
    lcs_outcome store ns ps0 ps1 T0 T1 o0 o1 prefix suffix store' ns' lcs ms l.
Proof.
  intros Hr0 Hr1 Hd H0 H1 Ho Hp Hs.
  destruct (last ps0) as [tail0|] eqn:E0; [destruct (last ps1) as [tail1|] eqn:E1|].
  - rewrite <- E0, <- E1. by eapply lcs_spec_both.
  - apply last_None in E1 as ->. pose proof (tr_length _ _ _ _ Hr1). rewrite <- E0. change None with (last (@nil nat)).
    destruct (lcs_spec_empty store ns ps0 [] T0 T1 o0 o1 num prefix suffix) as (s' & n' & q & ms & H'); [done..| |].
    { right. by destruct T1. }
    by exists s', n', q, ms, [].
  - apply last_None in E0 as ->. pose proof (tr_length _ _ _ _ Hr0). change None with (last (@nil nat)).
    destruct (lcs_spec_empty store ns [] ps1 T0 T1 o0 o1 num prefix suffix) as (s' & n' & q & ms & H'); [done..| |].
    { left. by destruct T0. }
    by exists s', n', q, ms, [].
Qed.
