(* ===== verification/Diff.v ===== *)
(** * Differences between two sources (libsvn_diff/diff.c, util.c)

    The two sources are read into rings of positions, the longest common
    subsequence is computed, and the chunks between its matches become the
    differences. *)

From S2P Require Import Prelude DiffToken DiffLcs.

Inductive svn_diff__type_e :=
  | svn_diff__type_common
  | svn_diff__type_diff_modified
  | svn_diff__type_diff_latest
  | svn_diff__type_diff_common
  | svn_diff__type_conflict.

#[export] Instance svn_diff__type_e_eq_dec : EqDecision svn_diff__type_e.
Proof. solve_decision. Defined.

(** A chain of differences that are linked by [next] is a list. *)
Inductive svn_diff_t := mk_diff {
  diff_type : svn_diff__type_e;
  original_start : Z;
  original_length : Z;
  modified_start : Z;
  modified_length : Z;
  latest_start : Z;
  latest_length : Z;
  resolved_diff : list svn_diff_t
}.

(** ** Counting tokens *)

Fixpoint count_loop (fuel : nat) (store : position_store) (token_counts : list Z)
    (loop_start current : option nat) : result (list Z) :=
  match fuel with
  | O => Err OUT_OF_FUEL
  | S f =>
      pos ← get_position store current;
      n ← count_of token_counts (token_index pos);
      let token_counts := <[Z.to_nat (token_index pos) := n + 1]> token_counts in
      if bool_decide (pos_next pos = loop_start) then Ok token_counts
      else count_loop f store token_counts loop_start (pos_next pos)
  end.

Definition svn_diff__get_token_counts (store : position_store) (loop_start : option nat) (num_tokens : Z)
    : result (list Z) :=
  let token_counts := replicate (Z.to_nat num_tokens) 0 in
  if loop_start is Some _ then count_loop (length store) store token_counts loop_start loop_start
  else Ok token_counts.

(** ** From matches to differences *)

Definition diff_modified (original_start modified_start original_end modified_end : Z) : svn_diff_t :=
  mk_diff svn_diff__type_diff_modified (original_start - 1) (original_end - original_start)
    (modified_start - 1) (modified_end - modified_start) 0 0 [].

Definition diff_common (original_start modified_start length : Z) : svn_diff_t :=
  mk_diff svn_diff__type_common (original_start - 1) length (modified_start - 1) length 0 0 [].

Fixpoint diff_loop (fuel : nat) (store : position_store) (ns : lcs_store) (lcs : option nat)
    (original_start modified_start : Z) (want_common : bool) : result (list svn_diff_t) :=
  match fuel with
  | O => Err OUT_OF_FUEL
  | S f =>
      node ← get_lcs ns lcs;
      p0 ← get_position store (lcs_position0 node);
      p1 ← get_position store (lcs_position1 node);
      let modified :=
        if (original_start <? offset p0) || (modified_start <? offset p1) then
          [diff_modified original_start modified_start (offset p0) (offset p1)]
        else [] in
      if lcs_length node =? 0 then Ok modified
      else
        let common := if want_common then [diff_common (offset p0) (offset p1) (lcs_length node)] else [] in
        diff ← diff_loop f store ns (lcs_next node) (offset p0 + lcs_length node)
                 (offset p1 + lcs_length node) want_common;
        Ok (modified ++ common ++ diff)
  end.

Definition svn_diff__diff (store : position_store) (ns : lcs_store) (lcs : option nat)
    (original_start modified_start : Z) (want_common : bool) : result (list svn_diff_t) :=
  diff_loop (length ns) store ns lcs original_start modified_start want_common.

(** ** The difference of two sources *)

Section Diff.
Context {Baton Token : Type} (vtable : svn_diff_fns2_t Baton Token).

Definition discard_all (diff_baton : Baton) : Baton :=
  match token_discard_all vtable with Some discard => discard diff_baton | None => diff_baton end.

(** [fuel] is more than the number of tokens of each source. *)
Definition svn_diff_diff_2 (fuel : nat) (diff_baton : Baton) : result (list svn_diff_t * Baton) :=
  '(diff_baton, prefix_lines, suffix_lines) ←
    datasources_open vtable diff_baton [svn_diff_datasource_original; svn_diff_datasource_modified];
  '(store, tree, diff_baton, list0) ←
    svn_diff__get_tokens vtable fuel [] svn_diff__tree_create diff_baton svn_diff_datasource_original
      prefix_lines;
  '(store, tree, diff_baton, list1) ←
    svn_diff__get_tokens vtable fuel store tree diff_baton svn_diff_datasource_modified prefix_lines;
  let num_tokens := svn_diff__get_node_count tree in
  let diff_baton := discard_all diff_baton in
  token_counts0 ← svn_diff__get_token_counts store list0 num_tokens;
  token_counts1 ← svn_diff__get_token_counts store list1 num_tokens;
  '(store, ns, lcs) ← svn_diff__lcs store [] list0 list1 token_counts0 token_counts1
                       num_tokens prefix_lines suffix_lines;
  diff ← svn_diff__diff store ns lcs 1 1 true;
  Ok (diff, diff_baton).
End Diff.

(** ** Questions about differences *)

Fixpoint svn_diff_contains_conflicts (diff : list svn_diff_t) : bool :=
  match diff with
  | [] => false
  | d :: diff =>
      if decide (diff_type d = svn_diff__type_conflict) then true else svn_diff_contains_conflicts diff
  end.

Fixpoint svn_diff_contains_diffs (diff : list svn_diff_t) : bool :=
  match diff with
  | [] => false
  | d :: diff =>
      if decide (diff_type d = svn_diff__type_common) then svn_diff_contains_diffs diff else true
  end.
