(* ===== verification/DiffFacts.v ===== *)
(** * Reading the sources, and from matches to differences

    A source becomes a ring of positions with the numbers of its tokens, and
    the counts of tokens are those of the ring.  The chunks made from the
    matches then describe the differences: they patch either list to the
    other. *)

From S2P Require Import Prelude Subsequence DiffToken DiffTokenFacts DiffLcs DiffSnakeFacts DiffLcsFacts.
From S2P Require Import Diff DiffHeap.

#[local] Coercion Z.of_nat : nat >-> Z.

(** The positions read so far, the last of which has no next one. *)
Definition open_ring (base : nat) (T : bytes) (o : Z) : position_store :=
  imap (fun i t => mk_position (if decide (S i = length T) then None else Some (base + S i)%nat) t (o + i)) T.

Lemma open_ring_length base T o : length (open_ring base T o) = length T.
Proof. apply length_imap. Qed.

Lemma open_ring_lookup base T o i t : T !! i = Some t ->
  open_ring base T o !! i =
  Some (mk_position (if decide (S i = length T) then None else Some (base + S i)%nat) t (o + i)).
Proof. intros H. unfold open_ring. by rewrite list_lookup_imap, H. Qed.

(** Another position. *)
Lemma open_ring_snoc (store : position_store) T o t :
  T <> [] ->
  exists pos, (store ++ open_ring (length store) T o) !! (length store + length T - 1)%nat = Some pos /\
    <[(length store + length T - 1)%nat :=
        mk_position (Some (length store + length T)%nat) (token_index pos) (offset pos)]>
      ((store ++ open_ring (length store) T o) ++ [mk_position None t (o + length T)])
    = store ++ open_ring (length store) (T ++ [t]) o.
Proof.
  intros HT. assert (0 < length T)%nat as Hl by (destruct T; simpl; [done|lia]).
  destruct (lookup_lt_is_Some_2 T (length T - 1)) as [u Hu]; [lia|].
  eexists. split.
  { rewrite lookup_app_r by lia. replace (length store + length T - 1 - length store)%nat with (length T - 1)%nat by lia.
    by apply open_ring_lookup. }
  cbn [token_index offset]. rewrite <- app_assoc, insert_app_r_alt by lia. f_equal.
  replace (length store + length T - 1 - length store)%nat with (length T - 1)%nat by lia.
  rewrite insert_app_l by (rewrite open_ring_length; lia).
  apply list_eq. intros i. destruct (decide (i < length T)%nat) as [Hi|Hi].
  - destruct (lookup_lt_is_Some_2 T i Hi) as [v Hv].
    rewrite lookup_app_l by (by rewrite length_insert, open_ring_length).
    rewrite (open_ring_lookup _ (T ++ [t]) _ i v) by by apply lookup_app_l_Some.
    rewrite length_app. change (length [t]) with 1%nat. rewrite decide_False by lia.
    destruct (decide (i = length T - 1)%nat) as [->|Hne].
    + rewrite list_lookup_insert_eq by (rewrite open_ring_length; lia). simplify_eq. do 3 f_equal. lia.
    + rewrite list_lookup_insert_ne by done. rewrite (open_ring_lookup _ _ _ _ _ Hv).
      by rewrite decide_False by lia.
  - rewrite lookup_app_r by (rewrite length_insert, open_ring_length; lia). rewrite length_insert, open_ring_length.
    destruct (decide (i = length T)) as [->|Hne].
    + rewrite Nat.sub_diag. rewrite (open_ring_lookup _ (T ++ [t]) _ (length T) t) by (by apply list_lookup_middle).
      rewrite length_app. simpl. by rewrite decide_True by lia.
    + rewrite !lookup_ge_None_2; [done| |simpl; lia].
      rewrite open_ring_length, length_app. simpl. lia.
Qed.

(** The ring is closed. *)
Lemma open_ring_close (store : position_store) T o : T <> [] ->
  exists store', set_next (store ++ open_ring (length store) T o) (Some (length store + length T - 1)%nat) (Some (length store))
      = Ok store' /\ store `prefix_of` store' /\ length store' = (length store + length T)%nat /\
    token_ring store' (seq (length store) (length T)) T o.
Proof.
  intros HT. assert (0 < length T)%nat as Hl by (destruct T; simpl; [done|lia]).
  destruct (lookup_lt_is_Some_2 T (length T - 1)) as [u Hu]; [lia|].
  assert ((store ++ open_ring (length store) T o) !! (length store + length T - 1)%nat
          = Some (mk_position None u (o + (length T - 1)%nat))) as Hlast.
  { rewrite lookup_app_r by lia. replace (length store + length T - 1 - length store)%nat with (length T - 1)%nat by lia.
    rewrite (open_ring_lookup _ _ _ _ _ Hu). by rewrite decide_True by lia. }
  eexists. split; [by apply set_next_spec|]. cbn [token_index offset]. split_and!.
  - rewrite insert_app_r_alt by lia. by eexists.
  - by rewrite length_insert, length_app, open_ring_length.
  - split; [by rewrite length_seq|apply NoDup_seq|]. intros i a t Ha Ht.
    apply lookup_seq in Ha as [-> Hi]. destruct (decide (S i = length T)) as [E|E].
    + replace (length store + i)%nat with (length store + length T - 1)%nat by lia.
      rewrite list_lookup_insert_eq by (rewrite length_app, open_ring_length; lia).
      rewrite lookup_seq_lt by lia. replace i with (length T - 1)%nat in * by lia. simplify_eq. do 3 f_equal. lia.
    + rewrite list_lookup_insert_ne by lia. rewrite lookup_app_r by lia.
      replace (length store + i - length store)%nat with i by lia.
      rewrite (open_ring_lookup _ _ _ _ _ Ht), decide_False by done. by rewrite lookup_seq_lt by lia.
Qed.

Section Read.
Context {Baton Token K : Type} (vtable : svn_diff_fns2_t Baton Token).
Context (key : Token -> K) (kcmp : K -> K -> Z) (valid : Baton -> Prop) (ok : Token -> Prop).
Context (opened : svn_diff_datasource_e -> Prop) (remaining : Baton -> svn_diff_datasource_e -> list (Z * Token)).
Context `{!DiffFnsLaws vtable key kcmp valid ok opened remaining}.

Notation tree_inv := (tree_inv key kcmp ok).
Notation identity := (identity key).

(** The numbers [T] stand for these tokens. *)
Definition numbers (ids : list (Z * K)) (toks : list (Z * Token)) (T : bytes) : Prop :=
  Forall2 (fun ht t => 0 <= t /\ ids !! Z.to_nat t = Some (identity ht)) toks T.

Lemma numbers_prefix ids ids' toks T : ids `prefix_of` ids' -> numbers ids toks T -> numbers ids' toks T.
Proof.
  intros Hp H. eapply Forall2_impl; [exact H|]. intros ht t [Ht Hi].
  split; [done|]. by eapply prefix_lookup_Some.
Qed.

Lemma get_tokens_loop_spec ds base o : forall toks fuel tree ids b T,
  opened ds -> tree_inv tree ids -> valid b -> remaining b ds = toks -> Forall (hashed ok) toks -> (length toks < fuel)%nat ->
  exists T' tree' ids' b',
    get_tokens_loop vtable fuel (base ++ open_ring (length base) T o) tree b ds (o - 1 + length T)
      (match T with [] => None | _ => Some (length base) end)
      (match T with [] => None | _ => Some (length base + length T - 1)%nat end)
    = Ok (base ++ open_ring (length base) (T ++ T') o, tree', b',
          match T ++ T' with [] => None | _ => Some (length base) end,
          match T ++ T' with [] => None | _ => Some (length base + length (T ++ T') - 1)%nat end) /\
    tree_inv tree' ids' /\ ids `prefix_of` ids' /\ numbers ids' toks T' /\ valid b' /\
    remaining b' ds = [] /\ forall ds', ds' <> ds -> remaining b' ds' = remaining b ds'.
Proof.
  induction toks as [|[hash token] toks IH]; intros fuel tree ids b T Hds Htree Hb Hrem Hok Hf.
  - destruct fuel as [|f]; [simpl in Hf; lia|]. cbn [get_tokens_loop].
    destruct (next_law b ds Hb Hds) as (b' & -> & Hb' & Hr & Ho). rewrite Hrem in *. cbn [head mbind result_bind].
    exists [], tree, ids, b'. rewrite app_nil_r. split_and!; [done|done|done|constructor|done|done|done].
  - destruct fuel as [|f]; [simpl in Hf; lia|]. cbn [get_tokens_loop].
    destruct (next_law b ds Hb Hds) as (b1 & -> & Hb1 & Hr & Ho). rewrite Hrem in *. cbn [head mbind result_bind tail] in *.
    apply Forall_cons in Hok as [Htok Hok].
    destruct (tree_insert_spec vtable key kcmp valid ok opened remaining tree ids b1 hash token Htree Hb1 Htok) as
      (tree2 & b2 & index & ids2 & -> & Hb2 & Hs2 & Htree2 & Hpre2 & Hi & Hid). cbn [mbind result_bind].
    assert (exists start,
      (if (match T with [] => None | _ => Some (length base + length T - 1)%nat end) is Some _
       then store ← set_next ((base ++ open_ring (length base) T o) ++ [mk_position None index (o - 1 + length T + 1)])
                      (match T with [] => None | _ => Some (length base + length T - 1)%nat end)
                      (Some (length (base ++ open_ring (length base) T o)));
            Ok (store, match T with [] => None | _ => Some (length base) end)
       else Ok ((base ++ open_ring (length base) T o) ++ [mk_position None index (o - 1 + length T + 1)],
                Some (length (base ++ open_ring (length base) T o))))
      = Ok (base ++ open_ring (length base) (T ++ [index]) o, start) /\ start = Some (length base)) as (start & -> & ->).
    { exists (Some (length base)). split; [|done]. replace (o - 1 + length T + 1) with (o + length T) by lia.
      rewrite (length_app base), open_ring_length. destruct T as [|t0 T0].
      - unfold open_ring. cbn. by rewrite Nat.add_0_r, app_nil_r, !Z.add_0_r.
      - destruct (open_ring_snoc base (t0 :: T0) o index) as (pos & Hpos & E); [done|].
        rewrite (set_next_spec _ _ pos) by by apply lookup_app_l_Some. cbn [mbind result_bind]. by rewrite E. }
    cbn [mbind result_bind].
    destruct (IH f tree2 ids2 b2 (T ++ [index])) as (T' & tree' & ids' & b' & E & Ht' & Hp' & Hn' & Hb' & Hr' & Ho');
      [done|done|done|by rewrite Hs2|done|simpl in Hf; lia|].
    exists (index :: T'), tree', ids', b'.
    assert (T ++ [index] <> []) as Hne by by destruct T.
    assert (match T ++ [index] with [] => None | _ => Some (length base) end = Some (length base)) as E1
      by by destruct T.
    assert (match T ++ [index] with [] => None | _ => Some (length base + length (T ++ [index]) - 1)%nat end
            = Some (length (base ++ open_ring (length base) T o))) as E2.
    { rewrite !length_app, open_ring_length. simpl. destruct T; simpl; f_equal; lia. }
    rewrite E1, E2, <- !app_assoc in E. cbn [app] in E.
    replace (o - 1 + length (T ++ [index])) with (o - 1 + length T + 1) in E by (rewrite length_app; simpl; lia).
    split_and!; [exact E|done|by etrans| |done|done|].
    + constructor; [|done]. split; [done|]. by eapply prefix_lookup_Some.
    + intros ds' Hds'. by rewrite Ho', Hs2, Ho.
Qed.

(** A ring behind the store, and its last position. *)
Lemma get_tokens_spec ds store tree ids b prefix fuel :
  opened ds -> tree_inv tree ids -> valid b -> Forall (hashed ok) (remaining b ds) -> (length (remaining b ds) < fuel)%nat ->
  exists store' T tree' ids' b',
    svn_diff__get_tokens vtable fuel store tree b ds prefix
      = Ok (store', tree', b', last (seq (length store) (length T))) /\
    store `prefix_of` store' /\ length store' = (length store + length T)%nat /\
    token_ring store' (seq (length store) (length T)) T (prefix + 1) /\
    tree_inv tree' ids' /\ ids `prefix_of` ids' /\ numbers ids' (remaining b ds) T /\ valid b' /\
    forall ds', ds' <> ds -> remaining b' ds' = remaining b ds'.
Proof.
  intros Hds Htree Hb Hok Hf. unfold svn_diff__get_tokens.
  destruct (get_tokens_loop_spec ds store (prefix + 1) (remaining b ds) fuel tree ids b [] Hds Htree Hb eq_refl Hok Hf) as
    (T & tree' & ids' & b1 & E & Ht' & Hp' & Hn' & Hb1 & _ & Ho1).
  cbn [length app] in E. change (open_ring (length store) [] (prefix + 1)) with (@nil svn_diff__position_t) in E.
  rewrite app_nil_r in E. replace (prefix + 1 - 1 + 0%nat) with prefix in E by lia. rewrite E. cbn [mbind result_bind].
  destruct (close_law b1 ds Hb1 Hds) as (b2 & Eb & Hb2 & Ho2).
  assert (forall ds', ds' <> ds -> remaining b2 ds' = remaining b ds') as Hrest.
  { intros ds' Hds'. by rewrite Ho2, Ho1. }
  destruct T as [|t0 T0].
  - cbn [mbind result_bind]. rewrite Eb. cbn [mbind result_bind].
    exists store, [], tree', ids', b2. change (open_ring (length store) [] (prefix + 1)) with (@nil svn_diff__position_t).
    rewrite app_nil_r. split_and!; [done|done|simpl; lia| |done..]. split; [done|constructor|done].
  - destruct (open_ring_close store (t0 :: T0) (prefix + 1)) as (store' & Eset & Hpre & Hlen & Hring); [done|].
    rewrite Eset. cbn [mbind result_bind]. rewrite Eb. cbn [mbind result_bind].
    exists store', (t0 :: T0), tree', ids', b2. split_and!; [|done..].
    do 2 f_equal. change (length (t0 :: T0)) with (S (length T0)). rewrite seq_S, last_snoc. f_equal. lia.
Qed.
End Read.

(** ** Counting *)

Lemma counts_of_nil num : counts_of num [] = replicate (Z.to_nat num) 0.
Proof.
  unfold counts_of. apply list_eq. intros i. rewrite list_lookup_fmap.
  destruct (decide (i < Z.to_nat num)%nat).
  - by rewrite lookup_seqZ_lt, lookup_replicate_2 by lia.
  - rewrite lookup_seqZ_ge by lia. symmetry. apply lookup_ge_None_2. rewrite length_replicate. lia.
Qed.

Lemma counts_of_perm num T T' : T ≡ₚ T' -> counts_of num T = counts_of num T'.
Proof. intros H. unfold counts_of. apply list_fmap_ext. intros _ t _. unfold token_count. by rewrite H. Qed.

(** One token more. *)
Lemma counts_of_add num T t : 0 <= t < num ->
  <[Z.to_nat t := token_count t T + 1]> (counts_of num T) = counts_of num (t :: T).
Proof.
  intros Ht. assert (length (counts_of num T) = Z.to_nat num) as Hl by (unfold counts_of; by rewrite length_fmap, length_seqZ).
  apply list_eq. intros i. destruct (decide (i < Z.to_nat num)%nat) as [Hi|Hi].
  - replace i with (Z.to_nat (i : Z)) by lia. rewrite (counts_of_lookup num (t :: T)) by lia. rewrite token_count_cons.
    destruct (decide (t = i)) as [->|Hne].
    + rewrite list_lookup_insert_eq by lia. f_equal. lia.
    + rewrite list_lookup_insert_ne by lia. rewrite counts_of_lookup by lia. f_equal.
  - rewrite !lookup_ge_None_2; [done| |by rewrite length_insert; lia].
    unfold counts_of. rewrite length_fmap, length_seqZ. lia.
Qed.

Lemma count_step num T t : 0 <= t < num -> count_of (counts_of num T) t = Ok (token_count t T).
Proof. intros Ht. unfold count_of. rewrite (proj2 (Z.ltb_ge t 0)), counts_of_lookup by lia. done. Qed.

Lemma ring_count_spec store ps T o num tail :
  token_ring store ps T o -> Forall (fun t => 0 <= t < num) T -> last ps = Some tail ->
  forall fuel i acc, (S i < length T)%nat -> (length T <= S i + fuel)%nat ->
  count_loop fuel store (counts_of num acc) (Some tail) (ps !! i)
  = Ok (counts_of num (reverse (drop i (take (length T - 1) T)) ++ acc)).
Proof.
  intros Hr HT Hlast. destruct (ring_tail _ _ _ _ _ Hr Hlast) as (_ & _ & _ & Htail & _).
  induction fuel as [|f IH]; intros i acc Hi Hf; [lia|]. cbn [count_loop].
  destruct (lookup_lt_is_Some_2 T i) as [t Ht]; [lia|].
  destruct (lookup_lt_is_Some_2 ps i) as [a Ha]; [rewrite (tr_length _ _ _ _ Hr); lia|].
  assert (0 <= t < num) as Htb by (rewrite Forall_forall in HT; apply HT; by eapply list_elem_of_lookup_2).
  assert (get_position store (ps !! i) = Ok (mk_position (ps !! S i) t (o + i))) as ->.
  { unfold get_position. rewrite Ha. cbn. rewrite (tr_position _ _ _ _ Hr _ _ _ Ha Ht). by rewrite decide_False by lia. }
  cbn [mbind result_bind token_index pos_next]. rewrite count_step by done. cbn [mbind result_bind].
  rewrite counts_of_add by done.
  assert (drop i (take (length T - 1) T) = t :: drop (S i) (take (length T - 1) T)) as E.
  { apply drop_S. by rewrite lookup_take_lt by lia. }
  destruct (decide (S (S i) = length T)) as [El|El].
  - rewrite bool_decide_true by (rewrite <- Htail; f_equal; lia). rewrite E, drop_ge; [done|].
    rewrite length_take. lia.
  - rewrite bool_decide_false.
    2:{ rewrite <- Htail. destruct (ps !! S i) as [b|] eqn:Eb.
        - intros Heq. rewrite <- Eb in Heq. rewrite Htail in Heq.
          pose proof (NoDup_lookup _ _ _ _ (tr_nodup _ _ _ _ Hr) Heq Htail). lia.
        - intros Heq. rewrite Htail in Heq. done. }
    rewrite IH by lia. by rewrite E, reverse_cons, <- app_assoc.
Qed.

Lemma get_token_counts_spec store ps T o num :
  token_ring store ps T o -> Forall (fun t => 0 <= t < num) T ->
  svn_diff__get_token_counts store (last ps) num = Ok (counts_of num T).
Proof.
  intros Hr HT. unfold svn_diff__get_token_counts. rewrite <- counts_of_nil.
  destruct (last ps) as [tail|] eqn:Hlast.
  2:{ apply last_None in Hlast as ->. pose proof (tr_length _ _ _ _ Hr). by destruct T. }
  destruct (ring_tail _ _ _ _ _ Hr Hlast) as (t & Hst & Hg & Htail & Hpos).
  assert (length T <= length store)%nat as Hle.
  { rewrite <- (tr_length _ _ _ _ Hr). rewrite <- (length_seq (length store) 0).
    apply submseteq_length, NoDup_submseteq; [apply Hr|]. intros a Ha. apply elem_of_seq.
    pose proof (token_ring_bound _ _ _ _ Hr) as Hb. rewrite Forall_forall in Hb. specialize (Hb a Ha). lia. }
  destruct (lookup_lt_is_Some_2 T (length T - 1)) as [u Hu]; [lia|].
  assert (u = t) as ->.
  { pose proof (tr_position _ _ _ _ Hr _ _ _ Htail Hu) as E. rewrite Hst in E. congruence. }
  assert (0 <= t < num) as Htb by (rewrite Forall_forall in HT; apply HT; by eapply list_elem_of_lookup_2).
  assert (T = take (length T - 1) T ++ [t]) as ET.
  { rewrite <- (take_drop (length T - 1) T) at 1. f_equal. rewrite (drop_S _ _ _ Hu), drop_ge; [done|lia]. }
  destruct (length store) as [|f] eqn:El; [lia|]. cbn [count_loop]. rewrite Hg. cbn [mbind result_bind token_index pos_next].
  rewrite count_step by done. cbn [mbind result_bind]. rewrite counts_of_add by done.
  destruct (decide (length T = 1%nat)) as [E1|E1].
  - rewrite bool_decide_true by (rewrite <- Htail; f_equal; lia). f_equal. apply counts_of_perm.
    rewrite ET, E1. done.
  - rewrite bool_decide_false.
    2:{ rewrite <- Htail. intros Heq. rewrite Htail in Heq.
        pose proof (NoDup_lookup _ _ _ _ (tr_nodup _ _ _ _ Hr) Heq Htail). lia. }
    rewrite (ring_count_spec _ _ _ _ _ _ Hr HT Hlast) by lia. f_equal. apply counts_of_perm.
    rewrite drop_0, reverse_Permutation. rewrite ET at 3. done.
Qed.

(** * From matches to differences

    What a correct list of differences of two lists of lines is, and that the
    loop over the chain of matches makes one. *)

(** ** Correct differences *)

Section Spec.
Context {A : Type}.
Implicit Types X Y a b c : list A.

(** The chunks go through both lists, from the lines [i] and [j] on, without a
    gap: lines that both have, and lines of the one that are replaced by lines
    of the other. *)
Inductive is_diff : nat -> nat -> list A -> list A -> list svn_diff_t -> Prop :=
  | is_diff_end i j : is_diff i j [] [] []
  | is_diff_common i j c X Y ds :
      c <> [] -> is_diff (i + length c) (j + length c) X Y ds ->
      is_diff i j (c ++ X) (c ++ Y)
        (mk_diff svn_diff__type_common i (length c) j (length c) 0 0 [] :: ds)
  | is_diff_modified i j a b X Y ds :
      a ++ b <> [] -> is_diff (i + length a) (j + length b) X Y ds ->
      is_diff i j (a ++ X) (b ++ Y)
        (mk_diff svn_diff__type_diff_modified i (length a) j (length b) 0 0 [] :: ds).

(** The number of lines in common. *)
Definition common_length (ds : list svn_diff_t) : Z :=
  sum_Z ((fun d => if decide (diff_type d = svn_diff__type_common) then original_length d else 0) <$> ds).

(** The lines of a chunk. *)
Definition chunk (X : list A) (start len : Z) : list A := take (Z.to_nat len) (drop (Z.to_nat start) X).

(** Replace the lines of the original in modified chunks. *)
Definition patch (X Y : list A) (ds : list svn_diff_t) : list A :=
  ds ≫= fun d => if decide (diff_type d = svn_diff__type_common)
                 then chunk X (original_start d) (original_length d)
                 else chunk Y (modified_start d) (modified_length d).

Definition unpatch (X Y : list A) (ds : list svn_diff_t) : list A :=
  ds ≫= fun d => if decide (diff_type d = svn_diff__type_common)
                 then chunk Y (modified_start d) (modified_length d)
                 else chunk X (original_start d) (original_length d).

Lemma chunk_app X a Y : chunk (X ++ a ++ Y) (length X) (length a) = a.
Proof. unfold chunk. by rewrite !Nat2Z.id, drop_app_length, take_app_length. Qed.

(** The chunks patch the one list to the other, both ways. *)
Lemma is_diff_patch i j X Y ds : is_diff i j X Y ds ->
  forall X0 Y0, length X0 = i -> length Y0 = j ->
  patch (X0 ++ X) (Y0 ++ Y) ds = Y /\ unpatch (X0 ++ X) (Y0 ++ Y) ds = X.
Proof.
  induction 1 as [i j|i j c X Y ds Hc Hd IH|i j a b X Y ds Hab Hd IH]; intros X0 Y0 <- <-; [done|..].
  - destruct (IH (X0 ++ c) (Y0 ++ c)) as [E1 E2]; [by rewrite length_app..|]. rewrite <- !app_assoc in E1, E2.
    unfold patch, unpatch in *. cbn. rewrite !chunk_app. split; f_equal; [exact E1|exact E2].
  - destruct (IH (X0 ++ a) (Y0 ++ b)) as [E1 E2]; [by rewrite length_app..|]. rewrite <- !app_assoc in E1, E2.
    unfold patch, unpatch in *. cbn. rewrite !chunk_app. split; f_equal; [exact E1|exact E2].
Qed.

Lemma is_diff_app_common i j c X Y ds : is_diff (i + length c) (j + length c) X Y ds ->
  is_diff i j (c ++ X) (c ++ Y)
    ((if (length c =? 0)%nat then [] else [mk_diff svn_diff__type_common i (length c) j (length c) 0 0 []]) ++ ds).
Proof.
  intros H. destruct c as [|x c]; [cbn in *; by rewrite !Nat.add_0_r in H|].
  cbn [Nat.eqb length app]. by apply (is_diff_common i j (x :: c)).
Qed.

(** There are differences between different lists only. *)
Lemma is_diff_same i j X Y ds : is_diff i j X Y ds -> svn_diff_contains_diffs ds = false -> X = Y.
Proof. induction 1 as [| |]; cbn; intros E; [done|f_equal; auto|done]. Qed.

Lemma common_length_common i j n ds :
  common_length (mk_diff svn_diff__type_common i n j n 0 0 [] :: ds) = n + common_length ds.
Proof. done. Qed.

Lemma common_length_modified i j m n ds :
  common_length (mk_diff svn_diff__type_diff_modified i m j n 0 0 [] :: ds) = common_length ds.
Proof. done. Qed.

Lemma is_diff_common_bound i j X Y ds : is_diff i j X Y ds ->
  0 <= common_length ds /\ common_length ds <= length X /\ common_length ds <= length Y.
Proof.
  induction 1 as [i j|i j c X Y ds Hc Hd IH|i j a b X Y ds Hab Hd IH]; [done|..].
  - rewrite common_length_common, !length_app. lia.
  - rewrite common_length_modified, !length_app. lia.
Qed.

Lemma is_diff_common_strict i j X Y ds : is_diff i j X Y ds ->
  svn_diff_contains_diffs ds = true -> X = Y -> common_length ds < length X.
Proof.
  induction 1 as [i j|i j c X Y ds Hc Hd IH|i j a b X Y ds Hab Hd _]; [done|..]; intros E Hxy.
  - rewrite common_length_common, length_app. apply app_inv_head in Hxy. specialize (IH E Hxy). lia.
  - rewrite common_length_modified. destruct (is_diff_common_bound _ _ _ _ _ Hd) as (H0 & H1 & H2).
    destruct a as [|x a]; [|rewrite length_app; simpl; lia]. cbn in *. subst X.
    rewrite length_app. destruct b; [done|cbn [length]; lia].
Qed.

Lemma is_diff_no_conflict i j X Y ds : is_diff i j X Y ds -> svn_diff_contains_conflicts ds = false.
Proof. by induction 1. Qed.
End Spec.

(** A list has no difference to itself, if the common part is longest. *)
Lemma is_diff_equal {A} (X : list A) ds : is_diff 0 0 X X ds -> is_lcs X X (Z.to_nat (common_length ds)) ->
  svn_diff_contains_diffs ds = false.
Proof.
  intros Hd Hl. destruct (svn_diff_contains_diffs ds) eqn:E; [|done].
  pose proof (is_diff_common_strict _ _ _ _ _ Hd E eq_refl).
  pose proof (is_diff_common_bound _ _ _ _ _ Hd).
  pose proof (is_lcs_unique _ _ _ _ Hl (is_lcs_self X)). lia.
Qed.

(** ** The loop *)

Definition chunk_modified (os ms a b : Z) : list svn_diff_t :=
  if (os <? a) || (ms <? b) then [diff_modified os ms a b] else [].

(** The differences that belong to matches. *)
Fixpoint hunks (at_ : list (Z * Z * Z)) (os ms : Z) : list svn_diff_t :=
  match at_ with
  | [] => []
  | (a, b, len) :: at_ =>
      chunk_modified os ms a b ++
      (if len =? 0 then [] else diff_common a b len :: hunks at_ (a + len) (b + len))
  end.

Lemma diff_loop_spec store ns : forall addrs p ml at_ os ms fuel,
  linked ns p addrs -> Forall2 (fun a m => exists n, ns !! a = Some n /\ node_match n = m) addrs ml ->
  Forall2 (match_at store) ml at_ -> (exists l0 e0 e1, at_ = l0 ++ [(e0, e1, 0)]) -> (length addrs <= fuel)%nat ->
  diff_loop fuel store ns p os ms true = Ok (hunks at_ os ms).
Proof.
  induction addrs as [|a addrs IH]; intros p ml at_ os ms fuel Hl Hm Hat Hend Hf.
  { inversion Hm; subst. inversion Hat; subst. destruct Hend as (l0 & e0 & e1 & Hend). by destruct l0. }
  inversion Hm as [|? m ? ml' (n & Hn & En) Hm']; subst. inversion Hat as [|? [[x y] len] ? at' H1 Hat']; subst.
  destruct fuel as [|f]; [simpl in Hf; lia|]. cbn [diff_loop]. destruct Hl as (-> & n' & Hn' & Hl).
  assert (n' = n) as -> by congruence.
  assert (get_lcs ns (Some a) = Ok n) as -> by (unfold get_lcs; cbn; by rewrite Hn). cbn [mbind result_bind].
  destruct H1 as (p0 & p1 & E0 & E1 & O0 & O1 & El). unfold node_match in *. cbn in E0, E1, O0, O1, El.
  rewrite E0, E1. cbn [mbind result_bind]. rewrite O0, O1, El. cbn [hunks]. fold (chunk_modified os ms x y).
  destruct (Z.eqb_spec len 0) as [->|Hlen]; [by rewrite app_nil_r|].
  destruct Hend as (l0 & e0 & e1 & Hend).
  destruct l0 as [|m0 l0]; [by injection Hend; intros; subst|]. injection Hend as <- ->.
  rewrite (IH (lcs_next n) ml' (l0 ++ [(e0, e1, 0)])); [done|done|done|done|by eexists _, _, _|simpl in Hf; lia].
Qed.

Lemma diff_spec store ns lo p ml at_ os ms :
  lcs_chain lo ns p ml -> Forall2 (match_at store) ml at_ -> (exists l0 e0 e1, at_ = l0 ++ [(e0, e1, 0)]) ->
  svn_diff__diff store ns p os ms true = Ok (hunks at_ os ms).
Proof.
  intros (addrs & Hl & Hd & _ & Hm) Hat Hend. eapply diff_loop_spec; [done..|].
  rewrite <- (length_seq (length ns) 0). apply submseteq_length, NoDup_submseteq; [done|].
  intros a Ha. apply elem_of_seq. pose proof (linked_bound _ _ _ Hl) as Hb. rewrite Forall_forall in Hb.
  specialize (Hb a Ha). lia.
Qed.

(** ** The chunks are correct *)

Section Cover.
Context {A : Type}.
Implicit Types X Y : list A.

(** Matches in order, from the lines [i] and [j] on, the last of which is the
    end of both lists. *)
Fixpoint covers X Y (i j : nat) (ms : list (nat * nat * nat)) : Prop :=
  match ms with
  | [] => False
  | (a, b, len) :: ms =>
      (i <= a)%nat /\ (j <= b)%nat /\
      match len with
      | O => a = length X /\ b = length Y /\ ms = []
      | S _ => take len (drop a X) = take len (drop b Y) /\ (a + len <= length X)%nat /\ (b + len <= length Y)%nat /\
          covers X Y (a + len) (b + len) ms
      end
  end.

Lemma covers_weaken X Y i j i' j' ms : covers X Y i j ms -> (i' <= i)%nat -> (j' <= j)%nat -> covers X Y i' j' ms.
Proof. destruct ms as [|[[a b] len] ms]; cbn; [done|]. intros (? & ? & H) ? ?. split_and!; [lia..|done]. Qed.

Lemma cover_match X Y i j a b len ms : (i <= a)%nat -> (j <= b)%nat -> (0 < len)%nat ->
  take len (drop a X) = take len (drop b Y) -> (a + len <= length X)%nat -> (b + len <= length Y)%nat ->
  covers X Y (a + len) (b + len) ms -> covers X Y i j ((a, b, len) :: ms).
Proof. destruct len; [lia|]. intros. cbn [covers]. split_and!; done. Qed.

Definition total (ms : list (nat * nat * nat)) : nat := sum_list_with snd ms.

Lemma chunk_modified_spec X Y i j a b ds : (i <= a <= length X)%nat -> (j <= b <= length Y)%nat ->
  is_diff a b (drop a X) (drop b Y) ds ->
  is_diff i j (drop i X) (drop j Y) (chunk_modified (1 + i) (1 + j) (1 + a) (1 + b) ++ ds) /\
  common_length (chunk_modified (1 + i) (1 + j) (1 + a) (1 + b) ++ ds) = common_length ds.
Proof.
  intros Ha Hb Hd. unfold chunk_modified.
  destruct (Z.ltb_spec (1 + i) (1 + a)), (Z.ltb_spec (1 + j) (1 + b)); cbn [orb app];
    [| | |by replace i with a by lia; replace j with b by lia].
  all: split; [|unfold diff_modified; apply common_length_modified].
  all: assert (forall (Z0 : list A) i a, (i <= a <= length Z0)%nat ->
         drop i Z0 = take (a - i) (drop i Z0) ++ drop a Z0 /\ length (take (a - i) (drop i Z0)) = (a - i)%nat) as Hsplit
    by (intros Z0 i0 a0 Hia; split;
        [rewrite <- (take_drop (a0 - i0) (drop i0 Z0)) at 1; rewrite drop_drop; do 2 f_equal; lia
        |rewrite length_take, length_drop; lia]).
  all: destruct (Hsplit X i a Ha) as [Ex La], (Hsplit Y j b Hb) as [Ey Lb]; rewrite Ex, Ey.
  all: replace (diff_modified (1 + i) (1 + j) (1 + a) (1 + b)) with
         (mk_diff svn_diff__type_diff_modified i (length (take (a - i) (drop i X))) j
            (length (take (b - j) (drop j Y))) 0 0 []) by (rewrite La, Lb; unfold diff_modified; f_equal; lia).
  all: apply is_diff_modified;
    [intros E; apply (f_equal length) in E; rewrite length_app, La, Lb in E; simpl in E; lia|].
  all: rewrite La, Lb; replace (i + (a - i))%nat with a by lia; by replace (j + (b - j))%nat with b by lia.
Qed.

Lemma covers_hunks X Y ms : forall i j, covers X Y i j ms -> (i <= length X)%nat -> (j <= length Y)%nat ->
  is_diff i j (drop i X) (drop j Y) (hunks (map (offsets 1 1) ms) (1 + i) (1 + j)) /\
  common_length (hunks (map (offsets 1 1) ms) (1 + i) (1 + j)) = total ms.
Proof.
  induction ms as [|[[a b] len] ms IH]; intros i j Hc Hi Hj; [done|]. cbn [map offsets fst snd hunks].
  change (offsets 1 1 (a, b, len)) with (1 + a, 1 + b, len : Z). cbn iota.
  destruct Hc as (Ha & Hb & Hc). destruct len as [|len].
  - destruct Hc as (-> & -> & ->). cbn iota. change (0%nat =? 0) with true. cbn iota.
    apply (chunk_modified_spec X Y i j); [lia..|]. rewrite !drop_all. constructor.
  - destruct Hc as (E & Hla & Hlb & Hc). replace (S len =? 0) with false by (symmetry; apply Z.eqb_neq; lia).
    destruct (IH _ _ Hc Hla Hlb) as [Hd Hsum].
    assert (is_diff a b (drop a X) (drop b Y)
      (diff_common (1 + a) (1 + b) (S len) :: hunks (map (offsets 1 1) ms) (1 + a + S len) (1 + b + S len))) as Hd'.
    { rewrite <- (take_drop (S len) (drop a X)), <- (take_drop (S len) (drop b Y)), <- E, !drop_drop.
      assert (length (take (S len) (drop a X)) = S len) as Lc by (rewrite length_take, length_drop; lia).
      replace (diff_common (1 + a) (1 + b) (S len)) with
        (mk_diff svn_diff__type_common a (length (take (S len) (drop a X))) b (length (take (S len) (drop a X))) 0 0 [])
        by (rewrite Lc; unfold diff_common; f_equal; lia).
      apply is_diff_common; [by intros Enil; rewrite Enil in Lc|]. rewrite Lc.
      replace (1 + a + S len) with (1 + (a + S len)%nat) by lia.
      replace (1 + b + S len) with (1 + (b + S len)%nat) by lia. exact Hd. }
    destruct (chunk_modified_spec X Y i j a b _ ltac:(lia) ltac:(lia) Hd') as [Hd2 Hs2].
    split; [exact Hd2|]. rewrite Hs2. unfold diff_common. rewrite common_length_common.
    replace (1 + a + S len) with (1 + (a + S len)%nat) by lia.
    replace (1 + b + S len) with (1 + (b + S len)%nat) by lia. rewrite Hsum. unfold total. cbn [sum_list_with snd]. lia.
Qed.
End Cover.

(** ** Files with something in common at both ends *)

Section Whole.
Context {A : Type} (f : Z -> option A) (pre suf X0 Y0 : list A) (T0 T1 : bytes).
Hypothesis HX : f <$> T0 = Some <$> X0.
Hypothesis HY : f <$> T1 = Some <$> Y0.

Let X := pre ++ X0 ++ suf.
Let Y := pre ++ Y0 ++ suf.
Let P := length pre.
Let S_ := length suf.

Lemma tokens_length : length T0 = length X0 /\ length T1 = length Y0.
Proof.
  split; [rewrite <- (length_fmap f), HX|rewrite <- (length_fmap f T1), HY]; by rewrite length_fmap.
Qed.

Lemma same_tokens i j m : (i + m <= length T0)%nat -> (j + m <= length T1)%nat ->
  take m (drop i T0) = take m (drop j T1) ->
  take m (drop (P + i) X) = take m (drop (P + j) Y).
Proof using HX HY.
  intros Hi Hj E. pose proof tokens_length as [L0 L1].
  assert (forall Z0, drop (P + i) (pre ++ Z0) = drop i Z0 /\ drop (P + j) (pre ++ Z0) = drop j Z0) as Hd.
  { intros Z0. unfold P. by rewrite !drop_app_add. }
  unfold X, Y. rewrite (proj1 (Hd _)), (proj2 (Hd _)), !drop_app_le by lia.
  rewrite !take_app_le by (rewrite length_drop; lia).
  apply (inj (fmap Some)). rewrite !fmap_take, !fmap_drop, <- HX, <- HY, <- !fmap_drop, <- !fmap_take. by rewrite E.
Qed.

Definition shift (m : nat * nat * nat) : nat * nat * nat := ((length pre + m.1.1)%nat, (length pre + m.1.2)%nat, m.2).

Lemma aligned_covers l : forall i j tail, aligned T0 T1 l i j -> (j <= length T1)%nat ->
  covers X Y (P + i) (P + j) tail -> covers X Y P P (map shift (reverse l) ++ tail).
Proof using HX HY.
  induction l as [|[[i j] m] l IH]; intros i' j' tail Hal Hj Htail.
  - eapply covers_weaken; [exact Htail|lia..].
  - inversion Hal as [|? ? ? ? ? ? Hal' Hfr Hm E Hi' Hj' HT]; subst. pose proof tokens_length as [L0 L1].
    change (map shift (reverse ((i, j, m) :: l)) ++ tail) with ((shift <$> reverse ((i, j, m) :: l)) ++ tail).
    rewrite reverse_cons, fmap_app, <- app_assoc. eapply (IH i j); [done|lia|].
    change ((shift <$> [(i, j, m)]) ++ tail) with (((P + i)%nat, (P + j)%nat, m) :: tail).
    apply cover_match; [done|done|done|by apply same_tokens; [lia|lia|]| | |].
    + unfold X. rewrite !length_app. fold P. lia.
    + unfold Y. rewrite !length_app. fold P. lia.
    + eapply covers_weaken; [exact Htail|lia..].
Qed.

Definition added (n a b : nat) : list (nat * nat * nat) := if decide (n = 0)%nat then [] else [(a, b, n)].

(** The matches in the whole files. *)
Definition whole_matches (l : list (nat * nat * nat)) : list (nat * nat * nat) :=
  added P 0 0 ++ map shift (reverse l) ++ added S_ (P + length T0) (P + length T1) ++
  [((P + length T0 + S_)%nat, (P + length T1 + S_)%nat, 0%nat)].

Lemma added_spec (n a b : nat) a' b' : a' = 1 + a -> b' = 1 + b -> added_match n a' b' = map (offsets 1 1) (added n a b).
Proof.
  intros -> ->. unfold added_match, added.
  destruct (decide (n = 0)%nat) as [->|Hn]; [done|]. by rewrite (proj2 (Z.eqb_neq n 0)) by lia.
Qed.

Lemma file_end_spec T : file_end T (P + 1) P = 1 + (P + length T)%nat.
Proof. unfold file_end. destruct T; [simpl; lia|lia]. Qed.

Lemma triple_eq (a b c a' b' c' : Z) : a = a' -> b = b' -> c = c' -> (a, b, c) = (a', b', c').
Proof. congruence. Qed.

Lemma all_matches_whole l : all_matches T0 T1 (P + 1) (P + 1) P S_ l = map (offsets 1 1) (whole_matches l).
Proof.
  unfold all_matches, whole_matches. rewrite !map_app, map_map, !file_end_spec.
  rewrite (added_spec P 0 0) by done. rewrite (added_spec S_ (P + length T0) (P + length T1)) by done.
  f_equal. f_equal.
  { apply map_ext. intros [[i j] m]. unfold offsets, shift. cbn [fst snd]. fold P. apply triple_eq; lia. }
  f_equal. cbn [map offsets fst snd]. f_equal. apply triple_eq; cbn [fst snd]; lia.
Qed.

Lemma whole_covers l : aligned T0 T1 l (length T0) (length T1) -> covers X Y 0 0 (whole_matches l).
Proof using HX HY.
  intros Hal. pose proof tokens_length as [L0 L1]. unfold whole_matches.
  assert (length X = (P + length T0 + S_)%nat /\ length Y = (P + length T1 + S_)%nat) as [LX LY].
  { unfold X, Y. rewrite !length_app. fold P S_. lia. }
  assert (covers X Y P P (map shift (reverse l) ++ added S_ (P + length T0) (P + length T1) ++
    [((P + length T0 + S_)%nat, (P + length T1 + S_)%nat, 0%nat)])) as Hrest.
  { apply (aligned_covers l (length T0) (length T1)); [done..|].
    unfold added. destruct (decide (S_ = 0)%nat) as [E|E].
    - cbn. split_and!; [lia..|done].
    - apply cover_match; [lia..| |lia|lia|cbn; split_and!; [lia..|done]].
      assert (forall (Z0 : list A) n, n = length Z0 -> drop (P + n) (pre ++ Z0 ++ suf) = suf) as Hd.
      { intros Z0 n ->. unfold P. by rewrite drop_app_add, drop_app_length. }
      unfold X, Y. by rewrite !Hd. }
  unfold added at 1. destruct (decide (P = 0)%nat) as [E|E].
  - by rewrite E in Hrest at 1 2.
  - apply cover_match; [lia..| |lia|lia|done].
    unfold X, Y, P. by rewrite !drop_0, !take_app_length.
Qed.

Lemma total_app l l' : total (l ++ l') = (total l + total l')%nat.
Proof. unfold total. induction l as [|m l IH]; [done|]. cbn. rewrite IH. lia. Qed.

Lemma total_whole l : total (whole_matches l) = (P + (S_ + matched l))%nat.
Proof.
  unfold whole_matches. rewrite !total_app.
  assert (forall n a b, total (added n a b) = n) as Hadd.
  { intros n a b. unfold added. destruct (decide (n = 0)%nat) as [->|]; [done|]. cbn. lia. }
  assert (total (map shift (reverse l)) = matched l) as ->; [|rewrite !Hadd; cbn; lia].
  induction l as [|[[i j] m] l IH]; [done|].
  change (map shift (reverse ((i, j, m) :: l))) with (shift <$> reverse ((i, j, m) :: l)).
  rewrite reverse_cons, fmap_app, total_app. change (shift <$> reverse l) with (map shift (reverse l)). rewrite IH.
  unfold matched, total. cbn. lia.
Qed.

(** Renaming back. *)
Lemma is_lcs_tokens n : (forall t u, t ∈ T0 -> u ∈ T1 -> f t = f u -> t = u) ->
  is_lcs T0 T1 n -> is_lcs X0 Y0 n.
Proof using HX HY.
  intros Hinj H. apply (is_lcs_fmap f) in H; [|done]. rewrite HX, HY in H. destruct H as [(c & Hc0 & Hc1 & Hc) Hmax].
  split.
  - apply sublist_fmap_inv in Hc0 as (c0 & -> & Hc0). apply sublist_fmap_inv in Hc1 as (c1 & E & Hc1).
    apply (inj (fmap Some)) in E as <-. exists c0. by rewrite length_fmap in Hc.
  - intros d Hd0 Hd1. rewrite <- (length_fmap Some). apply Hmax; by apply sublist_fmap.
Qed.

(** The differences are correct, and have as much in common as possible. *)
Lemma hunks_correct l : (forall t u, t ∈ T0 -> u ∈ T1 -> f t = f u -> t = u) ->
  aligned T0 T1 l (length T0) (length T1) -> is_lcs T0 T1 (matched l) ->
  is_diff 0 0 X Y (hunks (all_matches T0 T1 (P + 1) (P + 1) P S_ l) 1 1) /\
  is_lcs X Y (Z.to_nat (common_length (hunks (all_matches T0 T1 (P + 1) (P + 1) P S_ l) 1 1))).
Proof using HX HY.
  intros Hinj Hal Hlcs. rewrite all_matches_whole.
  destruct (covers_hunks X Y (whole_matches l) 0 0 (whole_covers l Hal)) as [Hd Hsum]; [lia..|].
  rewrite !drop_0 in Hd. split; [exact Hd|]. change (1 + 0%nat) with 1 in Hsum. rewrite Hsum, Nat2Z.id, total_whole.
  apply is_lcs_prefix, is_lcs_suffix. by apply is_lcs_tokens.
Qed.
End Whole.

(** ** The whole difference *)

Section Diff2.
Context {Baton Token K : Type} (vtable : svn_diff_fns2_t Baton Token).
Context (key : Token -> K) (kcmp : K -> K -> Z) (valid : Baton -> Prop) (ok : Token -> Prop).
Context (opened : svn_diff_datasource_e -> Prop) (remaining : Baton -> svn_diff_datasource_e -> list (Z * Token)).
Context `{!DiffFnsLaws vtable key kcmp valid ok opened remaining}.

Lemma numbers_fmap ids toks T : numbers key ids toks T ->
  (fun t => ids !! Z.to_nat t) <$> T = Some <$> (identity key <$> toks).
Proof. induction 1 as [|ht t toks T [Ht Hi] H IH]; [done|]. cbn. by rewrite Hi, IH. Qed.

Lemma numbers_bound ids toks T : numbers key ids toks T -> Forall (fun t => 0 <= t < length ids) T.
Proof.
  induction 1 as [|ht t toks T [Ht Hi] H IH]; constructor; [|done].
  apply lookup_lt_Some in Hi. lia.
Qed.

(** From the place after opening on: what has been found to be common at the
    ends, [pre] and [suf], is not read. *)
Lemma diff_2_spec fuel b b' (pre suf : list (Z * K)) :
  datasources_open vtable b [svn_diff_datasource_original; svn_diff_datasource_modified]
    = Ok (b', length pre : Z, length suf : Z) ->
  opened svn_diff_datasource_original -> opened svn_diff_datasource_modified ->
  valid b' -> (forall ds, Forall (hashed ok) (remaining b' ds)) -> (forall ds, (length (remaining b' ds) < fuel)%nat) ->
  exists diff b'', svn_diff_diff_2 vtable fuel b = Ok (diff, b'') /\
    let X := pre ++ (identity key <$> remaining b' svn_diff_datasource_original) ++ suf in
    let Y := pre ++ (identity key <$> remaining b' svn_diff_datasource_modified) ++ suf in
    is_diff 0 0 X Y diff /\ is_lcs X Y (Z.to_nat (common_length diff)).
Proof.
  intros Hopen Ho Hm Hb Hok Hf. unfold svn_diff_diff_2. rewrite Hopen. cbn [mbind result_bind].
  destruct (get_tokens_spec vtable key kcmp valid ok opened remaining svn_diff_datasource_original [] svn_diff__tree_create []
              b' (length pre) fuel) as (st0 & T0 & tr0 & ids0 & b1 & E0 & _ & L0 & R0 & Ht0 & _ & N0 & Hb1 & Hrest);
    [done|by eapply tree_create_inv|done..|]. rewrite E0. cbn [mbind result_bind].
  destruct (get_tokens_spec vtable key kcmp valid ok opened remaining svn_diff_datasource_modified st0 tr0 ids0
              b1 (length pre) fuel) as (st1 & T1 & tr1 & ids1 & b2 & E1 & Hp1 & L1 & R1 & Ht1 & Hpi & N1 & _ & _);
    [done|done|done|by rewrite Hrest|by rewrite Hrest|]. rewrite E1. cbn [mbind result_bind].
  rewrite Hrest in N1 by done. apply (numbers_prefix key ids0 ids1) in N0; [|done].
  pose proof (numbers_bound _ _ _ N0) as B0. pose proof (numbers_bound _ _ _ N1) as B1.
  assert (svn_diff__get_node_count tr1 = length ids1) as -> by by apply Ht1.
  eapply token_ring_prefix in R0; [|exact Hp1].
  rewrite (get_token_counts_spec _ _ _ _ _ R0 B0), (get_token_counts_spec _ _ _ _ _ R1 B1). cbn [mbind result_bind].
  destruct (lcs_spec st1 [] _ _ T0 T1 _ _ (length ids1) (length pre) (length suf) R0 R1) as
    (st2 & ns & lcs & ml & l & -> & Hout); [|done|done|lia..|].
  { intros a [_ Ha]%elem_of_seq [Ha' _]%elem_of_seq. rewrite L0 in Ha'. simpl in Ha, Ha'. lia. }
  cbn [mbind result_bind]. destruct Hout as [_ _ Hchain Hal Hlcs Hat _].
  rewrite (diff_spec _ _ _ _ _ _ 1 1 Hchain Hat) by (unfold all_matches; rewrite !app_assoc; by eexists _, _, _).
  cbn [mbind result_bind]. eexists _, _. split; [done|]. cbn zeta.
  apply (hunks_correct (fun t => ids1 !! Z.to_nat t)); [by apply numbers_fmap|by apply numbers_fmap| |done|done].
  intros t u Ht Hu E. rewrite Forall_forall in B0, B1. specialize (B0 t Ht). specialize (B1 u Hu).
  destruct (lookup_lt_is_Some_2 ids1 (Z.to_nat t)) as [id Hid]; [lia|].
  eapply number_unique; [done|lia|lia|exact Hid|by rewrite <- E].
Qed.
End Diff2.
