(* ===== verification/DiffMemory.v ===== *)
(** * Differences between strings in memory (libsvn_diff/diff_memory.c)

    The lines of a string are the tokens; the functions that deliver and
    compare them are the operations [DiffToken.svn_diff_fns2_t] asks for. *)

From S2P Require Import Prelude Buffers Adler32 DiffNormalize DiffToken DiffLcs Diff.

#[local] Coercion Z.of_nat : nat >-> Z.

(** ** Lines *)

Record source_tokens_t := mk_source {
  tokens : list bytes;
  next_token : Z;
  source : bytes;
  ends_without_eol : bool
}.

(** The text is followed by a NUL character, which the look at the next
    character may read. *)
Fixpoint fill_loop (fuel : nat) (text : bytes) (startp curp : nat) (tokens : list bytes)
    : result (list bytes * nat) :=
  match fuel with
  | O => Err OUT_OF_FUEL
  | S f =>
      if bool_decide (curp = length text) then Ok (tokens, startp)
      else
        let curp := if (char_at text curp =? CR) && (char_at text (curp + 1) =? LF) then (curp + 1)%nat else curp in
        if (char_at text curp =? CR) || (char_at text curp =? LF) then
          fill_loop f text (curp + 1) (curp + 1) (tokens ++ [slice text startp (curp - startp + 1)])
        else fill_loop f text startp (curp + 1) tokens
  end.

Definition fill_source_tokens (text : bytes) : result source_tokens_t :=
  '(tokens, startp) ← fill_loop (S (length text)) text 0 0 [];
  if bool_decide (startp <> length text) then
    Ok (mk_source (tokens ++ [slice text startp (length text - startp)]) 0 text true)
  else Ok (mk_source tokens 0 text false).

(** ** The functions *)

Record diff_mem_baton_t := mk_mem_baton {
  sources : list source_tokens_t;
  normalization_buf_size : Z;
  normalization_options : svn_diff_file_options_t
}.

Definition datasource_to_index (datasource : svn_diff_datasource_e) : nat :=
  match datasource with
  | svn_diff_datasource_original => 0
  | svn_diff_datasource_modified => 1
  | svn_diff_datasource_latest => 2
  | svn_diff_datasource_ancestor => 3
  end.

Section Memory.
(** zlib's function. *)
Context (adler32 : Z -> bytes -> Z).

Definition mem_datasources_open (baton : diff_mem_baton_t) (datasources : list svn_diff_datasource_e)
    : result (diff_mem_baton_t * Z * Z) := Ok (baton, 0, 0).

Definition mem_datasource_close (baton : diff_mem_baton_t) (datasource : svn_diff_datasource_e)
    : result diff_mem_baton_t := Ok baton.

Definition mem_get_next_token (mem_baton : diff_mem_baton_t) (datasource : svn_diff_datasource_e)
    : result (diff_mem_baton_t * option (Z * bytes)) :=
  let i := datasource_to_index datasource in
  match sources mem_baton !! i with
  | None => Err C_UNDEFINED
  | Some src =>
      if next_token src <? zlen (tokens src) then
        match tokens src !! Z.to_nat (next_token src) with
        | None => Err C_UNDEFINED
        | Some tok =>
            '(buf, _) ← svn_diff__normalize_buffer (normalization_buf_size mem_baton) tok
                          (normalization_options mem_baton) svn_diff__normalize_state_normal;
            let src := mk_source (tokens src) (next_token src + 1) (source src) (ends_without_eol src) in
            Ok (mk_mem_baton (<[i := src]> (sources mem_baton)) (normalization_buf_size mem_baton)
                  (normalization_options mem_baton),
                Some (svn__adler32 adler32 0 buf, tok))
        end
      else Ok (mem_baton, None)
  end.

Definition mem_token_compare (btn : diff_mem_baton_t) (t1 t2 : bytes) : result (diff_mem_baton_t * Z) :=
  '(buf1, _) ← svn_diff__normalize_buffer (normalization_buf_size btn) t1 (normalization_options btn)
                 svn_diff__normalize_state_normal;
  '(buf2, _) ← svn_diff__normalize_buffer (normalization_buf_size btn) t2 (normalization_options btn)
                 svn_diff__normalize_state_normal;
  let len1 := zlen buf1 in
  let len2 := zlen buf2 in
  Ok (btn, if negb (len1 =? len2) then if len1 <? len2 then -1 else 1
           else if len1 =? 0 then 0 else memcmp buf1 buf2).

Definition mem_token_discard (baton : diff_mem_baton_t) (token : bytes) : diff_mem_baton_t := baton.

Definition mem_token_discard_all (baton : diff_mem_baton_t) : diff_mem_baton_t := baton.

Definition svn_diff__mem_vtable : svn_diff_fns2_t diff_mem_baton_t bytes :=
  mk_diff_fns mem_datasources_open mem_datasource_close mem_get_next_token mem_token_compare
    (Some mem_token_discard) (Some mem_token_discard_all).

Definition alloc_normalization_bufs (sources : list source_tokens_t) : Z :=
  foldl (fun max_len source =>
           foldl (fun max_len token => if max_len <? zlen token then zlen token else max_len) max_len (tokens source))
        0 sources.

Definition svn_diff_mem_string_diff (original modified : bytes) (options : svn_diff_file_options_t)
    : result (list svn_diff_t) :=
  source0 ← fill_source_tokens original;
  source1 ← fill_source_tokens modified;
  let sources := [source0; source1] in
  let baton := mk_mem_baton sources (alloc_normalization_bufs sources) options in
  '(diff, _) ← svn_diff_diff_2 svn_diff__mem_vtable (S (length original + length modified)) baton;
  Ok diff.
End Memory.
