(* ===== verification/DiffMemoryFacts.v ===== *)
(** * Facts about differences between strings

    A string is taken apart into its lines; the functions of [DiffMemory] are
    a data source in the sense of [DiffTokenFacts.DiffFnsLaws]; so their
    differences are correct for the normal forms of the lines. *)

From S2P Require Import Prelude Buffers Adler32 DiffNormalize Subsequence DiffToken DiffTokenFacts DiffLcs.
From S2P Require Import Diff DiffFacts DiffMemory.

#[local] Coercion Z.of_nat : nat >-> Z.

(** ** Lines *)

(** The lines of [cur ++ text]: a line ends behind CR LF, CR or LF. *)
Fixpoint lines_from (cur text : bytes) : list bytes :=
  match text with
  | [] => match cur with [] => [] | _ => [cur] end
  | c :: text1 =>
      if c =? CR then
        match text1 with
        | d :: text2 => if d =? LF then (cur ++ [CR; LF]) :: lines_from [] text2 else (cur ++ [CR]) :: lines_from [] text1
        | [] => (cur ++ [CR]) :: lines_from [] text1
        end
      else if c =? LF then (cur ++ [LF]) :: lines_from [] text1
      else lines_from (cur ++ [c]) text1
  end.

Definition lines (text : bytes) : list bytes := lines_from [] text.

Lemma lines_from_ind (P : bytes -> bytes -> list bytes -> Prop) :
  P [] [] [] -> (forall cur, cur <> [] -> P cur [] [cur]) ->
  (forall cur text l, P [] text l -> P cur (CR :: LF :: text) ((cur ++ [CR; LF]) :: l)) ->
  (forall cur text l, head text <> Some LF -> P [] text l -> P cur (CR :: text) ((cur ++ [CR]) :: l)) ->
  (forall cur text l, P [] text l -> P cur (LF :: text) ((cur ++ [LF]) :: l)) ->
  (forall cur c text l, c <> CR -> c <> LF -> P (cur ++ [c]) text l -> P cur (c :: text) l) ->
  forall text cur, P cur text (lines_from cur text).
Proof.
  intros H0 H1 H2 H3 H4 H5.
  enough (forall n text cur, (length text < n)%nat -> P cur text (lines_from cur text)) as H
    by (intros text cur; by apply (H (S (length text))); lia).
  intros n. induction n as [|n IH]; intros text cur Hn; [lia|].
  destruct text as [|c text1]; [destruct cur; [done|by apply H1]|]. cbn [lines_from]. simpl in Hn.
  destruct (Z.eqb_spec c CR) as [->|Hcr].
  - destruct text1 as [|d text2]; [apply (H3 cur []); [done|apply (IH []); simpl; lia]|].
    destruct (Z.eqb_spec d LF) as [->|Hd]; [apply H2, IH; simpl in Hn; lia|].
    apply (H3 cur (d :: text2)); [by intros [= ->]|apply (IH (d :: text2)); lia].
  - destruct (Z.eqb_spec c LF) as [->|Hlf]; [apply H4, IH; lia|]. apply H5; [done|done|apply IH; lia].
Qed.

Lemma lines_concat text : concat (lines text) = text.
Proof.
  apply (lines_from_ind (fun cur text l => concat l = cur ++ text)); try done.
  - intros cur t l E. cbn. rewrite E. by rewrite <- app_assoc.
  - intros cur t l _ E. cbn. rewrite E. by rewrite <- app_assoc.
  - intros cur t l E. cbn. rewrite E. by rewrite <- app_assoc.
  - intros cur c t l _ _ E. rewrite E. by rewrite <- app_assoc.
Qed.

(** No line is empty. *)
Lemma lines_nonempty text : Forall (fun line => line <> []) (lines text).
Proof.
  apply (lines_from_ind (fun cur text l => Forall (fun line => line <> []) l)).
  - apply Forall_nil_2.
  - intros cur Hcur. by apply Forall_singleton.
  - intros cur t l H. apply Forall_cons. split; [by intros [_ ?]%app_nil|done].
  - intros cur t l _ H. apply Forall_cons. split; [by intros [_ ?]%app_nil|done].
  - intros cur t l H. apply Forall_cons. split; [by intros [_ ?]%app_nil|done].
  - done.
Qed.

Lemma concat_length_le (l : list bytes) : Forall (fun line => line <> []) l -> (length l <= length (concat l))%nat.
Proof. induction 1 as [|[|c x] l Hx Hl IH]; [done|done|]. cbn. rewrite length_app. lia. Qed.

Lemma lines_bound text : (length (lines text) <= length text)%nat.
Proof. rewrite <- (lines_concat text) at 2. apply concat_length_le, lines_nonempty. Qed.

Lemma lines_bytes text : Forall is_byte text -> Forall (Forall is_byte) (lines text).
Proof.
  rewrite <- (lines_concat text) at 1. induction (lines text) as [|x l IH]; [constructor|].
  cbn. rewrite Forall_app. intros [? ?]. constructor; auto.
Qed.

(** Line ends. *)
Definition is_eol (c : Z) : bool := (c =? CR) || (c =? LF).

Definition has_eol (line : bytes) : bool := existsb is_eol line.

Lemma has_eol_app a b : has_eol (a ++ b) = has_eol a || has_eol b.
Proof. apply existsb_app. Qed.

(** Only the last line may have no end. *)
Lemma lines_eol text : forall i line, lines text !! i = Some line ->
  has_eol line = false -> S i = length (lines text).
Proof.
  apply (lines_from_ind (fun cur text l => forall i line, l !! i = Some line -> has_eol line = false -> S i = length l)).
  - done.
  - by intros cur _ [|i] line H.
  - intros cur t l IH [|i] line; cbn; [|intros; f_equal; by eapply IH].
    intros [= <-]. rewrite has_eol_app, orb_true_r. done.
  - intros cur t l _ IH [|i] line; cbn; [|intros; f_equal; by eapply IH].
    intros [= <-]. rewrite has_eol_app, orb_true_r. done.
  - intros cur t l IH [|i] line; cbn; [|intros; f_equal; by eapply IH].
    intros [= <-]. rewrite has_eol_app, orb_true_r. done.
  - done.
Qed.

(** The text ends without a line end if and only if its last line does. *)
Definition ends_open (l : list bytes) : bool := match last l with Some line => negb (has_eol line) | None => false end.

Lemma ends_open_lookup l i line : (forall i line, l !! i = Some line -> has_eol line = false -> S i = length l) ->
  l !! i = Some line -> has_eol line = negb (ends_open l && bool_decide (S i = length l)).
Proof.
  intros H Hi. unfold ends_open. rewrite last_lookup. pose proof (lookup_lt_Some _ _ _ Hi).
  destruct (decide (S i = length l)) as [E|E].
  - rewrite bool_decide_true by done. replace (Nat.pred (length l)) with i by lia. rewrite Hi, andb_true_r.
    by rewrite negb_involutive.
  - rewrite bool_decide_false by done. rewrite andb_false_r. destruct (has_eol line) eqn:Ee; [done|]. by destruct E; eapply H.
Qed.

Lemma slice_nat (text : bytes) (a n : nat) : slice text a n = take n (drop a text).
Proof. unfold slice. by rewrite !Nat2Z.id. Qed.

Lemma char_at_drop text i c rest : drop i text = c :: rest -> char_at text i = c /\ drop (S i) text = rest.
Proof.
  intros E. unfold char_at.
  assert (text !! i = Some c) as -> by (rewrite <- (Nat.add_0_r i), <- lookup_drop, E; done).
  split; [done|]. rewrite <- Nat.add_1_r, <- drop_drop, E. done.
Qed.

Lemma char_at_past text i : drop i text = [] -> char_at text i = 0.
Proof.
  intros E. unfold char_at. rewrite lookup_ge_None_2; [done|].
  apply (f_equal length) in E. rewrite length_drop in E. simpl in E. lia.
Qed.

(** The current line grows. *)
Lemma cur_grow (text : bytes) (startp curp n : nat) : (startp <= curp)%nat ->
  slice text startp (curp - startp + n : Z) = slice text startp (curp - startp : Z) ++ take n (drop curp text).
Proof.
  intros H. replace (curp - startp + n : Z) with ((curp - startp + n)%nat : Z) by lia.
  replace (curp - startp : Z) with ((curp - startp)%nat : Z) by lia. rewrite !slice_nat.
  rewrite <- take_take_drop. f_equal. rewrite drop_drop. do 2 f_equal. lia.
Qed.

Lemma fill_loop_spec text fuel : forall startp curp toks,
  (startp <= curp <= length text)%nat -> (length text - curp < fuel)%nat ->
  has_eol (slice text startp (curp - startp)) = false ->
  exists toks' sp, fill_loop fuel text startp curp toks = Ok (toks ++ toks', sp) /\ (sp <= length text)%nat /\
    Forall (fun line => has_eol line = true) toks' /\ has_eol (slice text sp (length text - sp)) = false /\
    lines_from (slice text startp (curp - startp)) (drop curp text)
    = toks' ++ (if decide (sp = length text) then [] else [slice text sp (length text - sp)]).
Proof.
  induction fuel as [|f IH]; intros startp curp toks Hs Hf Hcur; [lia|]. cbn [fill_loop].
  destruct (bool_decide_reflect (curp = length text)) as [->|Hne].
  { exists [], startp. rewrite app_nil_r, drop_all. split_and!; [done|lia|constructor|done|]. cbn [lines_from app].
    destruct (decide _) as [->|Hn]; [by rewrite Z.sub_diag, slice_zero|].
    destruct (slice _ _ _) eqn:E; [|done]. apply (f_equal zlen) in E. rewrite zlen_slice in E by (unfold zlen; lia).
    change (zlen []) with 0 in E. lia. }
  destruct (drop curp text) as [|c rest] eqn:Ed.
  { apply (f_equal length) in Ed. rewrite length_drop in Ed. simpl in Ed. lia. }
  destruct (char_at_drop _ _ _ _ Ed) as [Ec Ed1]. cbn zeta. rewrite Ec, Nat.add_1_r.
  assert (forall n : nat, slice text startp (curp - startp + n : Z) = slice text startp (curp - startp) ++ take n (c :: rest)) as Hgrow.
  { intros n. rewrite cur_grow by lia. by rewrite Ed. }
  assert (forall e n : nat, e = (curp + n)%nat -> (0 < n)%nat -> (e <= length text)%nat -> has_eol (take n (c :: rest)) = true ->
    exists toks' sp, fill_loop f text e e (toks ++ [slice text startp (curp - startp + n)]) = Ok (toks ++ toks', sp) /\
      (sp <= length text)%nat /\ Forall (fun line => has_eol line = true) toks' /\
      has_eol (slice text sp (length text - sp)) = false /\
      (slice text startp (curp - startp) ++ take n (c :: rest)) :: lines_from [] (drop e text)
      = toks' ++ (if decide (sp = length text) then [] else [slice text sp (length text - sp)])) as Hline.
  { intros e n -> Hn He Heol. destruct (IH (curp + n)%nat (curp + n)%nat (toks ++ [slice text startp (curp - startp + n)])) as
      (toks' & sp & E & Hsp & Ht & Hlast & El); [lia|lia|by rewrite Z.sub_diag, slice_zero|].
    rewrite Z.sub_diag, slice_zero in El. rewrite El, E, <- app_assoc. eexists (_ :: toks'), sp.
    split_and!; [done|done| |done|cbn [app]; by rewrite Hgrow]. constructor; [|done].
    by rewrite Hgrow, has_eol_app, Heol, orb_true_r. }
  assert (length text = curp + S (length rest))%nat as Hlen.
  { apply (f_equal length) in Ed. rewrite length_drop in Ed. simpl in Ed. lia. }
  cbn [lines_from]. destruct (Z.eqb_spec c CR) as [->|Hcr]; cbn [andb orb].
  - assert (char_at text (S curp) =? LF = match rest with d :: _ => d =? LF | [] => false end) as Enext.
    { destruct rest as [|d rest1]; [by rewrite char_at_past|]. by destruct (char_at_drop _ _ _ _ Ed1) as [-> _]. }
    rewrite Enext. pose proof (Hline (S curp) 1%nat ltac:(lia) ltac:(lia) ltac:(lia) eq_refl) as Hcr. rewrite Ed1 in Hcr.
    destruct rest as [|d rest1]; [by rewrite Ec, Nat.add_1_r|].
    destruct (char_at_drop _ _ _ _ Ed1) as [Ec1 Ed2]. destruct (Z.eqb_spec d LF) as [->|Hd]; [|by rewrite Ec, Nat.add_1_r].
    rewrite Ec1, orb_true_r, Nat.add_1_r. replace (S curp - startp + 1) with (curp - startp + 2%nat) by lia.
    rewrite <- Ed2. exact (Hline (S (S curp)) 2%nat ltac:(lia) ltac:(lia) ltac:(simpl in Hlen; lia) eq_refl).
  - rewrite Ec, (proj2 (Z.eqb_neq c CR)) by done. cbn [orb]. destruct (Z.eqb_spec c LF) as [->|Hlf].
    + rewrite Nat.add_1_r, <- Ed1. exact (Hline (S curp) 1%nat ltac:(lia) ltac:(lia) ltac:(lia) eq_refl).
    + assert (slice text startp (S curp - startp) = slice text startp (curp - startp) ++ [c]) as Enew.
      { replace (S curp - startp : Z) with (curp - startp + 1%nat) by lia. by rewrite Hgrow. }
      destruct (IH startp (S curp) toks) as (toks' & sp & E & Hsp & Ht & Hlast & El); [lia..| |].
      { rewrite Enew, has_eol_app, Hcur. cbn. unfold is_eol.
        by rewrite (proj2 (Z.eqb_neq c CR)), (proj2 (Z.eqb_neq c LF)) by done. }
      rewrite Nat.add_1_r, E. exists toks', sp. split_and!; [done..|]. by rewrite <- El, Ed1, Enew.
Qed.

Lemma fill_source_tokens_spec text :
  fill_source_tokens text = Ok (mk_source (lines text) 0 text (ends_open (lines text))).
Proof.
  destruct (fill_loop_spec text (S (length text)) 0 0 []) as (toks & sp & E & Hsp & Ht & Hlast & El); [lia..|done|].
  unfold fill_source_tokens. rewrite E. cbn [mbind result_bind app]. rewrite drop_0 in El.
  change (slice text 0%nat (0%nat - 0%nat)) with (@nil Z) in El. fold (lines text) in El. rewrite El. unfold ends_open.
  destruct (decide (sp = length text)) as [->|Hne].
  - rewrite bool_decide_false by tauto. rewrite app_nil_r.
    destruct (last toks) as [line|] eqn:El'; [|done]. rewrite Forall_forall in Ht. rewrite Ht; [done|].
    rewrite last_lookup in El'. by eapply list_elem_of_lookup_2.
  - rewrite bool_decide_true by done. by rewrite last_snoc, Hlast.
Qed.

(** Nothing is ignored. *)
Lemma normal_form_exact options (l : list bytes) :
  ignore_space options = svn_diff_file_ignore_space_none -> ignore_eol_style options = false ->
  normal_form options <$> l = l.
Proof.
  intros Hsp Heol. rewrite <- (list_fmap_id l) at 2. apply list_fmap_ext. intros _ x _. unfold normal_form.
  by rewrite bool_decide_true, Heol by done.
Qed.

(** ** The order of lines *)

Lemma memcmp_eq buf1 : forall buf2, zlen buf1 = zlen buf2 -> memcmp buf1 buf2 = 0 <-> buf1 = buf2.
Proof.
  induction buf1 as [|b1 buf1 IH]; intros [|b2 buf2] Hl; cbn [memcmp]; try done.
  rewrite !zlen_cons in Hl. destruct (Z.eqb_spec b1 b2) as [->|Hne].
  - rewrite IH by lia. split; [by intros ->|by intros [= ->]].
  - destruct (b1 <? b2); (split; [done|congruence]).
Qed.

Definition line_cmp (buf1 buf2 : bytes) : Z :=
  if negb (zlen buf1 =? zlen buf2) then if zlen buf1 <? zlen buf2 then -1 else 1
  else if zlen buf1 =? 0 then 0 else memcmp buf1 buf2.

Lemma line_cmp_eq buf1 buf2 : line_cmp buf1 buf2 = 0 <-> buf1 = buf2.
Proof.
  unfold line_cmp. destruct (Z.eqb_spec (zlen buf1) (zlen buf2)) as [E|E]; cbn [negb].
  - destruct (Z.eqb_spec (zlen buf1) 0) as [E0|E0]; [|by apply memcmp_eq].
    split; [|done]. intros _. rewrite E0 in E. symmetry in E. apply zlen_zero in E0 as ->. by apply zlen_zero in E as ->.
  - destruct (zlen buf1 <? zlen buf2); (split; [done|congruence]).
Qed.

(** ** The data source *)

Section Memory.
Context (adler32 : Z -> bytes -> Z) (opts : svn_diff_file_options_t) (room : Z) (n : nat).

Definition line_ok (line : bytes) : Prop := zlen line <= room.

Definition source_valid (src : source_tokens_t) : Prop := 0 <= next_token src /\ Forall line_ok (tokens src).

Definition mem_valid (b : diff_mem_baton_t) : Prop :=
  length (sources b) = n /\ normalization_buf_size b = room /\ normalization_options b = opts /\
  Forall source_valid (sources b).

Definition mem_opened (ds : svn_diff_datasource_e) : Prop := (datasource_to_index ds < n)%nat.

Definition line_hash (line : bytes) : Z := svn__adler32 adler32 0 (normal_form opts line).

Definition mem_remaining (b : diff_mem_baton_t) (ds : svn_diff_datasource_e) : list (Z * bytes) :=
  match sources b !! datasource_to_index ds with
  | Some src => (fun line => (line_hash line, line)) <$> drop (Z.to_nat (next_token src)) (tokens src)
  | None => []
  end.

Lemma datasource_to_index_inj ds ds' : datasource_to_index ds = datasource_to_index ds' -> ds = ds'.
Proof. by destruct ds, ds'. Qed.

Lemma adler32_range data : Forall is_byte data -> 0 <= svn__adler32 adler32 0 data < 2 ^ 32.
Proof.
  intros Hb. destruct (Z.leb_spec 80 (zlen data)) as [Hl|Hl].
  - unfold svn__adler32. rewrite (proj2 (Z.leb_le _ _)) by done. apply Z.mod_pos_bound. done.
  - rewrite svn__adler32_short by done. apply rfc_adler32_range.
Qed.

#[export] Instance mem_fns_laws :
  DiffFnsLaws (svn_diff__mem_vtable adler32) (normal_form opts) line_cmp mem_valid line_ok mem_opened mem_remaining.
Proof.
  split.
  - intros x y. apply line_cmp_eq.
  - intros b t u (Hn & Hr & Ho & Hs) Ht Hu. exists b. split; [|done]. cbn. unfold mem_token_compare.
    rewrite Ho, Hr. destruct (normalize_buffer_spec room t opts Ht) as [st ->]. cbn [mbind result_bind].
    destruct (normalize_buffer_spec room u opts Hu) as [st' ->]. done.
  - intros b ds (Hn & Hr & Ho & Hs) Hds. unfold mem_opened in Hds. cbn. unfold mem_get_next_token, mem_remaining.
    destruct (lookup_lt_is_Some_2 (sources b) (datasource_to_index ds)) as [src Hsrc]; [lia|]. rewrite Hsrc.
    pose proof Hs as Hall. rewrite Forall_forall in Hall.
    destruct (Hall src) as [Hnext Hlines]; [by eapply list_elem_of_lookup_2|].
    destruct (Z.ltb_spec (next_token src) (zlen (tokens src))) as [Hlt|Hge].
    + destruct (lookup_lt_is_Some_2 (tokens src) (Z.to_nat (next_token src))) as [tok Htok]; [unfold zlen in Hlt; lia|].
      rewrite Htok. assert (line_ok tok) as Hok by (rewrite Forall_forall in Hlines; apply Hlines; by eapply list_elem_of_lookup_2).
      rewrite Hr, Ho. destruct (normalize_buffer_spec room tok opts Hok) as [st ->]. cbn [mbind result_bind].
      eexists. split; [|split; [|split]].
      * rewrite (drop_S _ _ _ Htok). done.
      * split_and!; cbn; [by rewrite length_insert|done|done|]. apply Forall_insert; [done|]. split; [cbn; lia|done].
      * cbn [sources]. rewrite list_lookup_insert_eq by lia. cbn [next_token tokens].
        rewrite (drop_S _ _ _ Htok). replace (Z.to_nat (next_token src + 1)) with (S (Z.to_nat (next_token src))) by lia. done.
      * intros ds' Hne. cbn [sources]. rewrite list_lookup_insert_ne; [done|]. intros E. by apply Hne, datasource_to_index_inj.
    + exists b. rewrite drop_ge by (unfold zlen in Hge; lia). rewrite Hsrc.
      rewrite drop_ge by (unfold zlen in Hge; lia). split_and!; done.
  - intros b ds Hb _. by exists b.
  - intros discard b t [= <-] Hb. done.
Qed.
End Memory.

(** ** The difference of two strings *)

Lemma is_diff_fmap {A B} (f : A -> B) i j X Y ds : is_diff i j X Y ds -> is_diff i j (f <$> X) (f <$> Y) ds.
Proof.
  induction 1 as [i j|i j c X Y ds Hc Hd IH|i j a b X Y ds Hab Hd IH]; [constructor|..]; rewrite !fmap_app.
  - rewrite <- (length_fmap f c) in *. apply is_diff_common; [by intros ?%fmap_nil_inv|done].
  - rewrite <- (length_fmap f a), <- (length_fmap f b) in *. apply is_diff_modified; [|done].
    rewrite <- fmap_app. by intros ?%fmap_nil_inv.
Qed.

Lemma foldl_longest (toks : list bytes) : forall m,
  let r := foldl (fun max_len token => if max_len <? zlen token then zlen token else max_len) m toks in
  m <= r /\ Forall (fun token => zlen token <= r) toks.
Proof.
  induction toks as [|t toks IH]; intros m; cbn; [split; [lia|constructor]|].
  destruct (IH (if m <? zlen t then zlen t else m)) as [H1 H2]. split; [|constructor; [|done]];
    revert H1; destruct (Z.ltb_spec m (zlen t)); lia.
Qed.

Lemma alloc_bufs_spec sources :
  Forall (fun src => Forall (line_ok (alloc_normalization_bufs sources)) (tokens src)) sources.
Proof.
  unfold alloc_normalization_bufs.
  enough (forall m, let r := foldl (fun max_len source =>
             foldl (fun max_len token => if max_len <? zlen token then zlen token else max_len) max_len (tokens source))
             m sources in
           m <= r /\ Forall (fun src => Forall (line_ok r) (tokens src)) sources) as H by apply (H 0).
  induction sources as [|src sources IH]; intros m; cbn; [split; [lia|constructor]|].
  destruct (foldl_longest (tokens src) m) as [H1 H2].
  destruct (IH (foldl (fun max_len token => if max_len <? zlen token then zlen token else max_len) m (tokens src))) as [H3 H4].
  cbn zeta in *. split; [lia|]. constructor; [|done].
  eapply Forall_impl; [exact H2|]. intros t Ht. unfold line_ok. cbn in Ht. lia.
Qed.

Lemma mem_string_diff_spec adler32 original modified opts :
  Forall is_byte original -> Forall is_byte modified ->
  exists ds, svn_diff_mem_string_diff adler32 original modified opts = Ok ds /\
    is_diff 0 0 (normal_form opts <$> lines original) (normal_form opts <$> lines modified) ds /\
    is_lcs (normal_form opts <$> lines original) (normal_form opts <$> lines modified) (Z.to_nat (common_length ds)).
Proof.
  intros Ho Hm. unfold svn_diff_mem_string_diff.
  rewrite !fill_source_tokens_spec.
  cbn [mbind result_bind].
  set (srcs := [mk_source (lines original) 0 original (ends_open (lines original));
               mk_source (lines modified) 0 modified (ends_open (lines modified))]).
  set (b := mk_mem_baton srcs (alloc_normalization_bufs srcs) opts).
  pose proof (alloc_bufs_spec srcs) as Halloc.
  assert (mem_remaining adler32 opts b svn_diff_datasource_original = (fun line => (line_hash adler32 opts line, line)) <$> lines original) as E0 by done.
  assert (mem_remaining adler32 opts b svn_diff_datasource_modified = (fun line => (line_hash adler32 opts line, line)) <$> lines modified) as E1 by done.
  destruct (diff_2_spec (svn_diff__mem_vtable adler32) (normal_form opts) line_cmp
    (mem_valid opts (alloc_normalization_bufs srcs) 2) (line_ok (alloc_normalization_bufs srcs)) (mem_opened 2)
    (mem_remaining adler32 opts) (S (length original + length modified)) b b [] []) as (ds & b' & -> & Hd & Hl).
  - done.
  - unfold mem_opened. simpl. lia.
  - unfold mem_opened. simpl. lia.
  - split_and!; [done..|]. apply Forall_cons in Halloc as [H0 H1]. rewrite Forall_singleton in H1.
    apply Forall_cons; split; [by split|]. apply Forall_singleton. by split.
  - assert (forall text, Forall is_byte text ->
      Forall (hashed (line_ok (alloc_normalization_bufs srcs))) ((fun line => (line_hash adler32 opts line, line)) <$> lines text)
      \/ ~ Forall (line_ok (alloc_normalization_bufs srcs)) (lines text)) as Hhash.
    { intros text Ht. destruct (decide (Forall (fun line => zlen line <= alloc_normalization_bufs srcs) (lines text))) as [Hok|Hok];
        [left|by right]. apply Forall_fmap, Forall_forall. intros line Hline. rewrite Forall_forall in Hok.
      split; [|by apply Hok]. apply adler32_range, normal_form_bytes.
      pose proof (lines_bytes text Ht) as Hb. rewrite Forall_forall in Hb. by apply Hb. }
    apply Forall_cons in Halloc as [H0 H1]. rewrite Forall_singleton in H1.
    intros []; [rewrite E0; by destruct (Hhash original Ho)|rewrite E1; by destruct (Hhash modified Hm)|constructor..].
  - pose proof (lines_bound original). pose proof (lines_bound modified).
    intros []; [rewrite E0, length_fmap; lia|rewrite E1, length_fmap; lia|simpl; lia..].
  - exists ds. split; [done|]. rewrite E0, E1, <- !list_fmap_compose, !app_nil_r in Hd, Hl. cbn [app] in Hd, Hl.
    assert (forall l : list bytes, normal_form opts <$> l = snd <$> ((identity (normal_form opts) ∘ (fun line => (line_hash adler32 opts line, line))) <$> l)) as E.
    { intros l. by rewrite <- list_fmap_compose. }
    rewrite !E. split; [by apply is_diff_fmap|]. apply is_lcs_fmap; [|done].
    intros x y (l0 & -> & _)%list_elem_of_fmap (l1 & -> & _)%list_elem_of_fmap. unfold identity, line_hash. cbn. by intros ->.
Qed.

(** What can be decided for concrete sources. *)
#[export] Instance line_hashed_dec room ht : Decision (hashed (line_ok room) ht).
Proof. unfold hashed, line_ok. solve_decision. Defined.

#[export] Instance line_ok_dec room line : Decision (line_ok room line).
Proof. unfold line_ok. solve_decision. Defined.

#[export] Instance source_valid_dec room src : Decision (source_valid room src).
Proof. unfold source_valid. solve_decision. Defined.

(** Options that ignore nothing. *)
Definition sample_options : svn_diff_file_options_t :=
  mk_file_options svn_diff_file_ignore_space_none false false 3.
