(* ===== verification/DiffUnified.v ===== *)
(** * Unified diffs (libsvn_diff/util.c, diff_memory.c)

    The differences are handed one after the other to a record of output
    functions.  Those of unified diffs collect lines in a hunk, and write it
    with its header when the next difference is too far away. *)

From S2P Require Import Prelude Buffers CString Adler32 DiffNormalize DiffToken DiffLcs Diff DiffMemory.

#[local] Coercion Z.of_nat : nat >-> Z.

(** ** Handing out differences *)

Section Output.
Context {Baton Cancel : Type}.

(** The arguments are the starts and lengths in the original, modified and
    latest source.  The function for conflicts may hand out differences itself:
    then it asks whether to cancel, too. *)
Notation output_fn := (Baton -> Z -> Z -> Z -> Z -> Z -> Z -> result Baton).

Record svn_diff_output_fns_t := mk_output_fns {
  output_common : option output_fn;
  output_diff_modified : option output_fn;
  output_diff_latest : option output_fn;
  output_diff_common : option output_fn;
  output_conflict : option (Baton -> Z -> Z -> Z -> Z -> Z -> Z -> list svn_diff_t -> Cancel -> result (Baton * Cancel))
}.

Definition output_diff (vtable : svn_diff_output_fns_t) (output_baton : Baton) (cancel_baton : Cancel) (diff : svn_diff_t)
    : result (Baton * Cancel) :=
  let output fn :=
    match fn with
    | Some output_fn =>
        output_baton ← output_fn output_baton (original_start diff) (original_length diff) (modified_start diff)
          (modified_length diff) (latest_start diff) (latest_length diff);
        Ok (output_baton, cancel_baton)
    | None => Ok (output_baton, cancel_baton)
    end in
  match diff_type diff with
  | svn_diff__type_common => output (output_common vtable)
  | svn_diff__type_diff_common => output (output_diff_common vtable)
  | svn_diff__type_diff_modified => output (output_diff_modified vtable)
  | svn_diff__type_diff_latest => output (output_diff_latest vtable)
  | svn_diff__type_conflict =>
      match output_conflict vtable with
      | Some output_conflict =>
          output_conflict output_baton (original_start diff) (original_length diff) (modified_start diff)
            (modified_length diff) (latest_start diff) (latest_length diff) (resolved_diff diff) cancel_baton
      | None => Ok (output_baton, cancel_baton)
      end
  end.

Fixpoint svn_diff_output2 (diff : list svn_diff_t) (output_baton : Baton) (vtable : svn_diff_output_fns_t)
    (cancel_func : option (Cancel -> result Cancel)) (cancel_baton : Cancel) : result (Baton * Cancel) :=
  match diff with
  | [] => Ok (output_baton, cancel_baton)
  | d :: diff =>
      cancel_baton ← (if cancel_func is Some cancel then cancel cancel_baton else Ok cancel_baton);
      '(output_baton, cancel_baton) ← output_diff vtable output_baton cancel_baton d;
      svn_diff_output2 diff output_baton vtable cancel_func cancel_baton
  end.
End Output.
Arguments svn_diff_output_fns_t : clear implicits.

(** ** Hunks *)

Definition APR_EOL_STR : bytes := [LF].
Definition SVN_DIFF__NO_NEWLINE_AT_END_OF_FILE : bytes := cstr "\ No newline at end of file".
Definition SVN_DIFF__NO_NEWLINE_AT_END_OF_PROPERTY : bytes := cstr "\ No newline at end of property".
Definition SVN_DIFF__UNIFIED_CONTEXT_SIZE : Z := 3.

Inductive unified_output_e :=
  | unified_output_context
  | unified_output_delete
  | unified_output_insert
  | unified_output_skip.

#[export] Instance unified_output_e_eq_dec : EqDecision unified_output_e.
Proof. solve_decision. Defined.

(** Arrays of two are pairs; what was written to the stream is [ob_output]. *)
Record output_baton_t := mk_output_baton {
  ob_output : bytes;
  ob_sources : source_tokens_t * source_tokens_t;
  ob_current_token : Z * Z;
  ob_context_size : Z;
  ob_prefix_str : unified_output_e -> bytes;
  ob_hunk : bytes;
  ob_hunk_length : Z * Z;
  ob_hunk_start : Z * Z;
  ob_hunk_delimiter : option bytes;
  ob_no_newline_string : bytes
}.

(** The element of an array; the index says whether it is the second. *)
Definition pick {A} (modified : bool) (p : A * A) : A := if modified then p.2 else p.1.

Definition put {A} (modified : bool) (p : A * A) (x : A) : A * A := if modified then (p.1, x) else (x, p.2).

Definition set_hunk (btn : output_baton_t) (current_token : Z * Z) (hunk : bytes) (hunk_length : Z * Z) : output_baton_t :=
  mk_output_baton (ob_output btn) (ob_sources btn) current_token (ob_context_size btn) (ob_prefix_str btn) hunk
    hunk_length (ob_hunk_start btn) (ob_hunk_delimiter btn) (ob_no_newline_string btn).

Definition set_hunk_start (btn : output_baton_t) (hunk_start : Z * Z) : output_baton_t :=
  mk_output_baton (ob_output btn) (ob_sources btn) (ob_current_token btn) (ob_context_size btn) (ob_prefix_str btn)
    (ob_hunk btn) (ob_hunk_length btn) hunk_start (ob_hunk_delimiter btn) (ob_no_newline_string btn).

(** Write the hunk and forget it. *)
Definition write_hunk (btn : output_baton_t) (output : bytes) : output_baton_t :=
  mk_output_baton output (ob_sources btn) (ob_current_token btn) (ob_context_size btn) (ob_prefix_str btn)
    [] (0, 0) (0, 0) (ob_hunk_delimiter btn) (ob_no_newline_string btn).

Section Unified.
(** The conversion to the encoding of headers. *)
Context (cstring_from_utf8 : bytes -> result bytes).

Fixpoint token_range_loop (fuel : nat) (btn : output_baton_t) (tokens_ : bool) (type : unified_output_e) (until : Z)
    : result output_baton_t :=
  match fuel with
  | O => Err OUT_OF_FUEL
  | S f =>
      let i := pick tokens_ (ob_current_token btn) in
      match (if 0 <=? i then tokens (pick tokens_ (ob_sources btn)) !! Z.to_nat i else None) with
      | None => Err C_UNDEFINED
      | Some token =>
          let hunk := if bool_decide (type = unified_output_skip) then ob_hunk btn
                      else ob_hunk btn ++ ob_prefix_str btn type ++ token in
          let length := ob_hunk_length btn in
          let length := match type with
                        | unified_output_context => (length.1 + 1, length.2 + 1)
                        | unified_output_delete => (length.1 + 1, length.2)
                        | unified_output_insert => (length.1, length.2 + 1)
                        | unified_output_skip => length
                        end in
          let btn := set_hunk btn (put tokens_ (ob_current_token btn) (i + 1)) hunk length in
          if i + 1 =? until then Ok btn else token_range_loop f btn tokens_ type until
      end
  end.

Definition output_unified_token_range (btn : output_baton_t) (tokens_ : bool) (type : unified_output_e) (until : Z)
    : result output_baton_t :=
  let source := pick tokens_ (ob_sources btn) in
  let until := if zlen (tokens source) <? until then zlen (tokens source) else until in
  if until <=? pick tokens_ (ob_current_token btn) then Ok btn
  else
    btn ← token_range_loop (Z.to_nat (until - pick tokens_ (ob_current_token btn))) btn tokens_ type until;
    if (pick tokens_ (ob_current_token btn) =? zlen (tokens source)) && ends_without_eol source then
      out_str ← cstring_from_utf8 (ob_no_newline_string btn);
      Ok (set_hunk btn (ob_current_token btn) (ob_hunk btn ++ out_str) (ob_hunk_length btn))
    else Ok btn.

(** [svn_stream_printf_from_utf8], after formatting. *)
Definition printf_from_utf8 (output str : bytes) : result bytes :=
  str ← cstring_from_utf8 str; Ok (output ++ str).

Definition svn_diff__unified_write_hunk_header (output hunk_delimiter : bytes)
    (old_start old_length new_start new_length : Z) (hunk_extra_context : option bytes) : result bytes :=
  output ← printf_from_utf8 output (hunk_delimiter ++ cstr " -" ++ print_ld old_start);
  output ← (if negb (old_length =? 1) then printf_from_utf8 output (cstr "," ++ print_ld old_length) else Ok output);
  output ← printf_from_utf8 output (cstr " +" ++ print_ld new_start);
  output ← (if negb (new_length =? 1) then printf_from_utf8 output (cstr "," ++ print_ld new_length) else Ok output);
  let hunk_extra_context := default [] hunk_extra_context in
  printf_from_utf8 output
    (cstr " " ++ hunk_delimiter ++ (if negb (deref hunk_extra_context =? 0) then cstr " " else [])
     ++ hunk_extra_context ++ APR_EOL_STR).

Definition svn_diff__unidiff_write_header (output old_header new_header : bytes) : result bytes :=
  printf_from_utf8 output
    (cstr "--- " ++ old_header ++ APR_EOL_STR ++ cstr "+++ " ++ new_header ++ APR_EOL_STR).

Definition output_unified_flush_hunk (baton : output_baton_t) (hunk_delimiter : option bytes) : result output_baton_t :=
  if bool_decide (ob_hunk baton = []) then Ok baton
  else
    let target_token := (ob_hunk_start baton).1 + (ob_hunk_length baton).1 + ob_context_size baton in
    baton ← output_unified_token_range baton false unified_output_context target_token;
    let hunk_delimiter := default (cstr "@@") hunk_delimiter in
    let '(old_start, new_start) := ob_hunk_start baton in
    let old_start := if negb ((ob_hunk_length baton).1 =? 0) then old_start + 1 else old_start in
    let new_start := if negb ((ob_hunk_length baton).2 =? 0) then new_start + 1 else new_start in
    output ← svn_diff__unified_write_hunk_header (ob_output baton) hunk_delimiter old_start (ob_hunk_length baton).1
               new_start (ob_hunk_length baton).2 None;
    Ok (write_hunk baton (output ++ ob_hunk baton)).

Definition output_unified_diff_modified (output_baton : output_baton_t)
    (original_start original_length modified_start modified_length latest_start latest_length : Z)
    : result output_baton_t :=
  let context_prefix_length :=
    if ob_context_size output_baton <? original_start then ob_context_size output_baton else original_start in
  let in_hunk := (0 <? (ob_hunk_length output_baton).1) || (0 <? (ob_hunk_length output_baton).2) in
  let prev_context_end :=
    if in_hunk then (ob_hunk_start output_baton).1 + (ob_hunk_length output_baton).1 + ob_context_size output_baton
    else -1 in
  let init_hunk :=
    negb in_hunk && ((ob_hunk_start output_baton).1 =? 0) && ((0 <? original_length) || (0 <? modified_length)) in
  let new_hunk_start := original_start - context_prefix_length in
  '(output_baton, init_hunk) ←
    (if ((ob_current_token output_baton).1 <? new_hunk_start) && (prev_context_end <=? new_hunk_start) then
       output_baton ← output_unified_flush_hunk output_baton (ob_hunk_delimiter output_baton);
       Ok (output_baton, true)
     else if in_hunk then
       output_baton ← output_unified_token_range output_baton false unified_output_context original_start;
       Ok (output_baton, init_hunk)
     else Ok (output_baton, init_hunk));
  output_baton ← output_unified_token_range output_baton false unified_output_skip
                   (original_start - context_prefix_length);
  output_baton ←
    (if init_hunk : bool then
       _ ← svn_err_assert (((ob_hunk_length output_baton).1 =? 0) && ((ob_hunk_length output_baton).2 =? 0));
       Ok (set_hunk_start output_baton
             (original_start - context_prefix_length, modified_start - context_prefix_length))
     else Ok output_baton);
  output_baton ← output_unified_token_range output_baton true unified_output_skip modified_start;
  output_baton ← output_unified_token_range output_baton false unified_output_context original_start;
  output_baton ← output_unified_token_range output_baton false unified_output_delete
                   (original_start + original_length);
  output_unified_token_range output_baton true unified_output_insert (modified_start + modified_length).

Definition mem_output_unified_vtable {Cancel} : svn_diff_output_fns_t output_baton_t Cancel :=
  mk_output_fns None (Some output_unified_diff_modified) None None None.

(** The output is what has been written to the stream before and now; the
    cancel baton is handed on, too. *)
Definition svn_diff_mem_string_output_unified3 {Cancel} (output : bytes) (diff : list svn_diff_t)
    (with_diff_header : bool) (hunk_delimiter : option bytes) (original_header modified_header : bytes)
    (original modified : bytes) (context_size : Z) (cancel_func : option (Cancel -> result Cancel))
    (cancel_baton : Cancel) : result (bytes * Cancel) :=
  if svn_diff_contains_diffs diff then
    let no_newline_string :=
      APR_EOL_STR ++
      (if negb (bool_decide (hunk_delimiter = Some (cstr "##"))) then SVN_DIFF__NO_NEWLINE_AT_END_OF_FILE
       else SVN_DIFF__NO_NEWLINE_AT_END_OF_PROPERTY) ++ APR_EOL_STR in
    let context_size := if 0 <=? context_size then context_size else SVN_DIFF__UNIFIED_CONTEXT_SIZE in
    context ← cstring_from_utf8 (cstr " ");
    delete ← cstring_from_utf8 (cstr "-");
    insert ← cstring_from_utf8 (cstr "+");
    let prefix_str type := match type with
                           | unified_output_context => context
                           | unified_output_delete => delete
                           | _ => insert
                           end in
    source0 ← fill_source_tokens original;
    source1 ← fill_source_tokens modified;
    output ← (if with_diff_header then svn_diff__unidiff_write_header output original_header modified_header
              else Ok output);
    let baton := mk_output_baton output (source0, source1) (0, 0) context_size prefix_str [] (0, 0) (0, 0)
                   hunk_delimiter no_newline_string in
    '(baton, cancel_baton) ← svn_diff_output2 diff baton mem_output_unified_vtable cancel_func cancel_baton;
    baton ← output_unified_flush_hunk baton hunk_delimiter;
    Ok (ob_output baton, cancel_baton)
  else Ok (output, cancel_baton).
End Unified.
