(* ===== verification/DiffUnifiedFacts.v ===== *)
(** * Unified diffs are correct

    What a unified diff means: hunks that are applied to the lines of the
    original, and how they are written.  The output functions write hunks that
    take the original to the modified text. *)

From S2P Require Import Prelude Buffers Ctype CString Adler32 DiffNormalize Subsequence DiffToken.
From S2P Require Import DiffTokenFacts DiffLcs Diff DiffFacts DiffMemory DiffMemoryFacts DiffUnified.

#[local] Coercion Z.of_nat : nat >-> Z.

(** ** Line ends *)

(** A line has an end if and only if its normal form has one. *)
Lemma normal_text_eol opts line : forall st,
  (st <> svn_diff__normalize_state_cr -> has_eol (normal_text opts line st).1 = has_eol line) /\
  (has_eol (normal_text opts line st).1 = true -> has_eol line = true).
Proof.
  induction line as [|c line IH]; intros st; [done|]. cbn [normal_text].
  destruct (normal_char opts c st) as [o st'] eqn:E. specialize (IH st').
  destruct (normal_text opts line st') as [r st'']. cbn [fst snd] in *.
  change (has_eol (c :: line)) with (is_eol c || has_eol line). rewrite has_eol_app.
  unfold normal_char in E. unfold is_eol at 1 2.
  destruct (Z.eqb_spec c CR) as [->|Hcr]; cbn [orb].
  { simplify_eq. by destruct (ignore_eol_style opts). }
  destruct (Z.eqb_spec c LF) as [->|Hlf]; cbn [orb].
  { split; [|done]. intros Hst. rewrite bool_decide_false in E by done. by simplify_eq. }
  assert (st' <> svn_diff__normalize_state_cr /\ has_eol o = false) as [Hst Ho].
  { destruct (svn_ctype_isspace c && _); simplify_eq; (split; [done|]).
    - by destruct (_ && _).
    - cbn. unfold is_eol. by rewrite (proj2 (Z.eqb_neq c CR)), (proj2 (Z.eqb_neq c LF)) by done. }
  rewrite Ho. cbn [orb]. split; [|apply IH]. intros _. by apply IH.
Qed.

Lemma normal_form_eol opts line : has_eol (normal_form opts line) = has_eol line.
Proof. unfold normal_form. destruct (bool_decide _ && _); [done|]. by apply normal_text_eol. Qed.


(** ** Hunks *)

Record hunk_t := mk_hunk {
  u_start0 : nat;
  u_start1 : nat;
  u_lines : list (unified_output_e * bytes)
}.

(** The lines that a hunk takes away and those that it puts in their place;
    context is in both. *)
Definition old_lines (ls : list (unified_output_e * bytes)) : list bytes :=
  ls ≫= fun l => match l.1 with unified_output_context | unified_output_delete => [l.2] | _ => [] end.

Definition new_lines (ls : list (unified_output_e * bytes)) : list bytes :=
  ls ≫= fun l => match l.1 with unified_output_context | unified_output_insert => [l.2] | _ => [] end.

(** The hunk [h] is at its place in the lines [X], the first of which is line
    [pos0], while the next line of the result is line [pos1]. *)
Definition hunk_fits (pos0 pos1 : nat) (X : list bytes) (h : hunk_t) : Prop :=
  (pos0 <= u_start0 h)%nat /\ u_start1 h = (pos1 + (u_start0 h - pos0))%nat /\
  take (length (old_lines (u_lines h))) (drop (u_start0 h - pos0) X) = old_lines (u_lines h) /\
  (u_start0 h - pos0 + length (old_lines (u_lines h)) <= length X)%nat.

#[export] Instance hunk_fits_dec pos0 pos1 X h : Decision (hunk_fits pos0 pos1 X h).
Proof. unfold hunk_fits. solve_decision. Defined.

(** Apply hunks to lines. *)
Fixpoint apply_hunks (pos0 pos1 : nat) (X : list bytes) (hs : list hunk_t) : option (list bytes) :=
  match hs with
  | [] => Some X
  | h :: hs =>
      let old := old_lines (u_lines h) in
      let new := new_lines (u_lines h) in
      let gap := (u_start0 h - pos0)%nat in
      if decide (hunk_fits pos0 pos1 X h) then
        rest ← apply_hunks (u_start0 h + length old) (u_start1 h + length new) (drop (gap + length old) X) hs;
        Some (take gap X ++ new ++ rest)
      else None
  end.

Lemma old_lines_app ls ls' : old_lines (ls ++ ls') = old_lines ls ++ old_lines ls'.
Proof. apply bind_app. Qed.

Lemma new_lines_app ls ls' : new_lines (ls ++ ls') = new_lines ls ++ new_lines ls'.
Proof. apply bind_app. Qed.

Lemma old_lines_map t l : t = unified_output_context \/ t = unified_output_delete -> old_lines (pair t <$> l) = l.
Proof.
  unfold old_lines. induction l as [|x l IH]; intros Ht; [done|]. cbn. rewrite IH by done. by destruct Ht as [-> | ->].
Qed.

Lemma new_lines_map t l : t = unified_output_context \/ t = unified_output_insert -> new_lines (pair t <$> l) = l.
Proof.
  unfold new_lines. induction l as [|x l IH]; intros Ht; [done|]. cbn. rewrite IH by done. by destruct Ht as [-> | ->].
Qed.

Lemma old_lines_insert l : old_lines (pair unified_output_insert <$> l) = [].
Proof. unfold old_lines. by induction l. Qed.

Lemma new_lines_delete l : new_lines (pair unified_output_delete <$> l) = [].
Proof. unfold new_lines. by induction l. Qed.

(** More lines behind. *)
Lemma hunk_fits_app p q A B h : hunk_fits p q A h -> hunk_fits p q (A ++ B) h.
Proof.
  intros (Hp & Hs & Ht & Hl). split_and!; [done|done| |rewrite length_app; lia].
  rewrite drop_app_le, take_app_le by (rewrite ?length_drop; lia). done.
Qed.

Lemma apply_hunks_cons p q A h hs Z : apply_hunks p q A (h :: hs) = Some Z ->
  exists R, hunk_fits p q A h /\
    apply_hunks (u_start0 h + length (old_lines (u_lines h))) (u_start1 h + length (new_lines (u_lines h)))
      (drop (u_start0 h - p + length (old_lines (u_lines h))) A) hs = Some R /\
    Z = take (u_start0 h - p) A ++ new_lines (u_lines h) ++ R.
Proof.
  cbn [apply_hunks]. destruct (decide _) as [Hf|]; [|done]. intros (R & HR & [= <-])%bind_Some. by exists R.
Qed.

Lemma apply_hunks_app_cons p q A B h hs R : hunk_fits p q A h ->
  apply_hunks (u_start0 h + length (old_lines (u_lines h))) (u_start1 h + length (new_lines (u_lines h)))
    (drop (u_start0 h - p + length (old_lines (u_lines h))) A ++ B) hs = Some R ->
  apply_hunks p q (A ++ B) (h :: hs) = Some (take (u_start0 h - p) A ++ new_lines (u_lines h) ++ R).
Proof.
  intros Hf HR. cbn [apply_hunks]. rewrite decide_True by by apply hunk_fits_app.
  destruct Hf as (Hp & Hs & Ht & Hl). rewrite drop_app_le, HR by lia. cbn. by rewrite take_app_le by lia.
Qed.

Lemma apply_hunks_app hs : forall p q A B Z, apply_hunks p q A hs = Some Z -> apply_hunks p q (A ++ B) hs = Some (Z ++ B).
Proof.
  induction hs as [|h hs IH]; intros p q A B Z; [by intros [= <-]|].
  intros (R & Hf & HR & ->)%apply_hunks_cons. rewrite (apply_hunks_app_cons _ _ _ _ _ _ (R ++ B)); [|done|by apply IH].
  by rewrite <- !app_assoc.
Qed.

(** One hunk more, at the end. *)
Lemma apply_hunks_snoc hs h : forall p q A Z, apply_hunks p q A hs = Some Z ->
  u_start0 h = (p + length A)%nat -> u_start1 h = (q + length Z)%nat ->
  apply_hunks p q (A ++ old_lines (u_lines h)) (hs ++ [h]) = Some (Z ++ new_lines (u_lines h)).
Proof.
  induction hs as [|h0 hs IH]; intros p q A Z.
  - intros [= <-] H0 H1. cbn [app apply_hunks].
    assert (u_start0 h - p = length A)%nat as Hgap by lia. rewrite decide_True.
    2:{ unfold hunk_fits. rewrite Hgap, drop_app_length, take_ge, length_app by lia. split_and!; [lia|lia|done|lia]. }
    rewrite Hgap, take_app_length, drop_ge by (rewrite length_app; lia). cbn. by rewrite app_nil_r.
  - intros (R & Hf & HR & ->)%apply_hunks_cons H0 H1. cbn [app]. pose proof Hf as (Hp & Hs & Ht & Hl).
    rewrite (apply_hunks_app_cons _ _ _ _ _ _ (R ++ new_lines (u_lines h))); [by rewrite <- !app_assoc|done|].
    apply IH; [done|rewrite length_drop; lia|]. rewrite H1, !length_app, length_take. lia.
Qed.

(** The last hunk grows. *)
Lemma apply_hunks_grow hs s0 s1 ls ls' : forall p q A Z, apply_hunks p q A (hs ++ [mk_hunk s0 s1 ls]) = Some Z ->
  (s0 + length (old_lines ls) = p + length A)%nat ->
  apply_hunks p q (A ++ old_lines ls') (hs ++ [mk_hunk s0 s1 (ls ++ ls')]) = Some (Z ++ new_lines ls').
Proof.
  induction hs as [|h0 hs IH]; intros p q A Z; cbn [app].
  - intros (R & Hf & HR & ->)%apply_hunks_cons Hend. destruct Hf as (Hp & Hs & Ht & Hl). cbn [u_start0 u_start1 u_lines] in *.
    rewrite drop_ge in HR by lia. injection HR as <-. rewrite take_ge in Ht by (rewrite length_drop; lia).
    cbn [apply_hunks u_start0 u_start1 u_lines]. rewrite old_lines_app, new_lines_app. rewrite decide_True.
    2:{ unfold hunk_fits. cbn [u_start0 u_start1 u_lines]. rewrite old_lines_app, !length_app.
        split_and!; [done|done| |lia]. rewrite drop_app_le, Ht by lia. apply take_ge. by rewrite length_app. }
    rewrite take_app_le by lia. rewrite drop_ge by (rewrite !length_app; lia). cbn. f_equal.
    by rewrite !app_nil_r, <- app_assoc.
  - intros (R & Hf & HR & ->)%apply_hunks_cons Hend. pose proof Hf as (Hp & Hs & Ht & Hl).
    rewrite (apply_hunks_app_cons _ _ _ _ _ _ (R ++ new_lines ls')); [by rewrite <- !app_assoc|done|].
    apply IH; [done|]. rewrite length_drop. lia.
Qed.

(** ** How hunks are written *)

Definition line_prefix (type : unified_output_e) : bytes :=
  match type with unified_output_context => cstr " " | unified_output_delete => cstr "-" | _ => cstr "+" end.

Section Render.
(** The delimiter of the hunk header, and what is written behind a line
    without an end. *)
Context (delimiter no_newline : bytes).

Definition render_line (l : unified_output_e * bytes) : bytes :=
  line_prefix l.1 ++ l.2 ++ (if has_eol l.2 then [] else no_newline).

Definition render_lines (ls : list (unified_output_e * bytes)) : bytes := ls ≫= render_line.

(** The first line, from 1 on unless there is none, and the number of lines,
    unless it is 1. *)
Definition render_range (start len : nat) : bytes :=
  print_ld (if (len =? 0)%nat then start else S start) ++ (if (len =? 1)%nat then [] else cstr "," ++ print_ld len).

Definition render_hunk (h : hunk_t) : bytes :=
  delimiter ++ cstr " -" ++ render_range (u_start0 h) (length (old_lines (u_lines h)))
  ++ cstr " +" ++ render_range (u_start1 h) (length (new_lines (u_lines h)))
  ++ cstr " " ++ delimiter ++ APR_EOL_STR ++ render_lines (u_lines h).

Lemma render_lines_app ls ls' : render_lines (ls ++ ls') = render_lines ls ++ render_lines ls'.
Proof. apply bind_app. Qed.

Lemma render_lines_nonempty ls : ls <> [] -> render_lines ls <> [].
Proof. destruct ls as [|[[] x] ls]; [done|by intros _; cbn..]. Qed.
End Render.

Definition ascii (s : bytes) : Prop := Forall (fun c => 0 <= c < 128) s.

Lemma ascii_app a b : ascii a -> ascii b -> ascii (a ++ b).
Proof. intros. by apply Forall_app. Qed.

Lemma dec_digits_ascii fuel : forall n acc, ascii acc -> ascii (dec_digits fuel n acc).
Proof.
  induction fuel as [|f IH]; intros n acc H; [done|]. unfold dec_digits; fold dec_digits. cbn zeta.
  assert (ascii (("0"%cc + n mod 10) :: acc)) as H' by (constructor; [dlia|done]).
  destruct (n <? 10); [exact H'|by apply IH].
Qed.

Lemma print_ld_ascii n : ascii (print_ld n).
Proof.
  unfold print_ld, print_lu. destruct (n <? 0); [constructor; [lia|]|]; apply dec_digits_ascii; constructor.
Qed.

Lemma eol_ascii : ascii APR_EOL_STR.
Proof. apply Forall_singleton. done. Qed.

Lemma cstr_ascii s : forallb (fun c => (0 <=? c) && (c <? 128)) (cstr s) = true -> ascii (cstr s).
Proof.
  intros H. apply Forall_forall. intros c Hc. rewrite forallb_forall in H. apply list_elem_of_In in Hc.
  specialize (H c Hc). cbn beta in H. reflect_bools. lia.
Qed.

(** Texts whose pieces are ASCII. *)
Ltac prove_ascii :=
  repeat first [apply ascii_app|apply print_ld_ascii|apply eol_ascii|done|apply Forall_nil_2|apply cstr_ascii; reflexivity].

(** ** Ranges of tokens *)

Definition grow (type : unified_output_e) (k : Z) (len : Z * Z) : Z * Z :=
  match type with
  | unified_output_context => (len.1 + k, len.2 + k)
  | unified_output_delete => (len.1 + k, len.2)
  | unified_output_insert => (len.1, len.2 + k)
  | unified_output_skip => len
  end.

Lemma pick_put {A} b (p : A * A) x : pick b (put b p x) = x.
Proof. by destruct b. Qed.

Lemma put_put {A} b (p : A * A) x y : put b (put b p x) y = put b p y.
Proof. by destruct b. Qed.

Lemma put_pick {A} b (p : A * A) : put b p (pick b p) = p.
Proof. by destruct b, p. Qed.

Lemma set_hunk_same btn : set_hunk btn (ob_current_token btn) (ob_hunk btn) (ob_hunk_length btn) = btn.
Proof. by destruct btn. Qed.

Lemma grow_grow type a b len : grow type b (grow type a len) = grow type (a + b) len.
Proof. destruct type, len; cbn; try done; f_equal; lia. Qed.

Lemma grow_zero type len : grow type 0 len = len.
Proof. destruct type, len; cbn; by rewrite ?Z.add_0_r. Qed.

Section Ranges.
Context (cstring_from_utf8 : bytes -> result bytes).
Hypothesis Hutf : forall s, ascii s -> cstring_from_utf8 s = Ok s.

(** The lines of the source with this index. *)
Record source_is (btn : output_baton_t) (b : bool) (L : list bytes) : Prop := {
  si_tokens : tokens (pick b (ob_sources btn)) = L;
  si_open : ends_without_eol (pick b (ob_sources btn)) = ends_open L;
  si_eol : forall i line, L !! i = Some line -> has_eol line = false -> S i = length L;
  si_newline : ascii (ob_no_newline_string btn)
}.

Lemma token_range_loop_spec b type L k : forall btn (c : nat),
  tokens (pick b (ob_sources btn)) = L -> pick b (ob_current_token btn) = c -> (c + S k <= length L)%nat ->
  token_range_loop (S k) btn b type (c + S k : Z) =
    Ok (set_hunk btn (put b (ob_current_token btn) (c + S k : Z))
          (ob_hunk btn ++ (if bool_decide (type = unified_output_skip) then []
                           else take (S k) (drop c L) ≫= fun token => ob_prefix_str btn type ++ token))
          (grow type (S k) (ob_hunk_length btn))).
Proof.
  induction k as [|k IH]; intros btn c HL Hc Hle; [|remember (S k) as k1 eqn:Ek1]; cbn [token_range_loop]; rewrite HL, Hc;
    (destruct (lookup_lt_is_Some_2 L c) as [token Ht]; [lia|]);
    rewrite (proj2 (Z.leb_le 0 c)), Nat2Z.id, Ht by lia; rewrite (drop_S _ _ _ Ht); cbn [take].
  - rewrite Z.eqb_refl. do 2 f_equal.
    destruct (bool_decide _); [by rewrite app_nil_r|]. cbn. by rewrite app_nil_r, app_assoc.
  - rewrite (proj2 (Z.eqb_neq _ _)) by lia.
    replace (c + S k1 : Z) with ((S c)%nat + k1 : Z) by lia. replace (c + 1) with (S c : Z) by lia.
    rewrite (IH _ (S c)); [|done|by cbn; rewrite pick_put|lia]. f_equal. unfold set_hunk. cbn. rewrite put_put. f_equal.
    + destruct (bool_decide (type = unified_output_skip)); [by rewrite !app_nil_r|].
      by rewrite <- !app_assoc.
    + replace (S k1 : Z) with (1 + k1) by lia. rewrite <- grow_grow. by destruct type.
Qed.

(** What lines look like, with the note behind a last line without an end. *)
Lemma range_text btn type L c k : type <> unified_output_skip -> ob_prefix_str btn type = line_prefix type ->
  (forall i line, L !! i = Some line -> has_eol line = false -> S i = length L) -> (c + S k <= length L)%nat ->
  (take (S k) (drop c L) ≫= fun token => ob_prefix_str btn type ++ token)
  ++ (if bool_decide (c + S k = length L)%nat && ends_open L then ob_no_newline_string btn else [])
  = render_lines (ob_no_newline_string btn) (pair type <$> take (S k) (drop c L)).
Proof.
  intros Ht Hp HL. revert c. induction k as [|k IH]; intros c Hle;
    (destruct (lookup_lt_is_Some_2 L c) as [token Hc]; [lia|]); rewrite (drop_S _ _ _ Hc); cbn [take].
  - pose proof (ends_open_lookup L c token HL Hc) as He. cbn. unfold render_line. cbn [fst snd]. rewrite Hp, !app_nil_r, He.
    rewrite andb_comm. replace (c + 1)%nat with (S c) by lia. rewrite <- app_assoc. by destruct (ends_open L && _).
  - cbn [fmap list_fmap mbind list_bind]. unfold render_lines in *. cbn [mbind list_bind]. rewrite <- (IH (S c)) by lia.
    replace (c + S (S k))%nat with (S c + S k)%nat by lia. rewrite <- !app_assoc. unfold render_line at 1. cbn [fst snd].
    assert (has_eol token = true) as ->.
    { destruct (has_eol token) eqn:E; [done|]. pose proof (HL c token Hc E). lia. }
    by rewrite Hp, app_nil_r, <- app_assoc.
Qed.

Lemma token_range_spec btn b type L (c n : nat) until :
  source_is btn b L -> type <> unified_output_skip -> ob_prefix_str btn type = line_prefix type ->
  pick b (ob_current_token btn) = c -> (c <= n)%nat -> Z.of_nat n = Z.min until (length L) ->
  output_unified_token_range cstring_from_utf8 btn b type until =
    Ok (set_hunk btn (put b (ob_current_token btn) n)
          (ob_hunk btn ++ render_lines (ob_no_newline_string btn) (pair type <$> take (n - c) (drop c L)))
          (grow type (n - c) (ob_hunk_length btn))).
Proof using Hutf.
  intros [HL Ho He Hn] Ht Hp Hc Hle Hmin. unfold output_unified_token_range. rewrite HL, Hc.
  assert ((if zlen L <? until then zlen L else until) = n) as ->.
  { unfold zlen. destruct (Z.ltb_spec (length L) until); lia. }
  destruct (Z.leb_spec n c) as [Hnc|Hnc].
  - assert (n = c) as -> by lia. rewrite Nat.sub_diag, Z.sub_diag. cbn [take fmap list_fmap]. unfold render_lines. cbn [mbind list_bind].
    rewrite app_nil_r, grow_zero, <- Hc, put_pick. by rewrite set_hunk_same.
  - destruct (n - c)%nat as [|k] eqn:Ek; [lia|]. replace (n - c) with (S k : Z) by lia. rewrite Nat2Z.id.
    replace (n : Z) with (c + S k : Z) by lia. rewrite (token_range_loop_spec b type L k btn c) by (done || lia).
    cbn [mbind result_bind ob_current_token set_hunk]. rewrite pick_put. cbn [ob_sources]. rewrite bool_decide_false by done.
    rewrite <- (range_text btn type L c k) by (done || lia).
    assert ((c + S k =? zlen L) = bool_decide (c + S k = length L)%nat) as ->.
    { unfold zlen. destruct (Z.eqb_spec (c + S k) (length L)), (bool_decide_reflect (c + S k = length L)%nat); lia. }
    rewrite Ho. destruct (bool_decide _ && ends_open L); [|by rewrite app_nil_r].
    cbn [ob_no_newline_string]. rewrite Hutf by done. cbn [mbind result_bind]. unfold set_hunk. cbn. by rewrite <- app_assoc.
Qed.

(** Lines are skipped without a trace, unless the last one without an end is
    among them. *)
Lemma token_range_skip btn b L (c n : nat) (until : Z) :
  source_is btn b L -> pick b (ob_current_token btn) = c -> (c <= n <= length L)%nat -> until = n ->
  ((c < n)%nat -> n = length L -> ends_open L = false) ->
  output_unified_token_range cstring_from_utf8 btn b unified_output_skip until =
    Ok (set_hunk btn (put b (ob_current_token btn) n) (ob_hunk btn) (ob_hunk_length btn)).
Proof.
  intros [HL Ho He Hn] Hc Hle -> Hend. unfold output_unified_token_range. rewrite HL, Hc.
  assert ((if zlen L <? n then zlen L else n) = n) as ->.
  { unfold zlen. destruct (Z.ltb_spec (length L) n); lia. }
  destruct (Z.leb_spec n c) as [Hnc|Hnc].
  - assert (n = c) as -> by lia. by rewrite <- Hc, put_pick, set_hunk_same.
  - destruct (n - c)%nat as [|k] eqn:Ek; [lia|]. replace (n - c) with (S k : Z) by lia. rewrite Nat2Z.id.
    replace (n : Z) with (c + S k : Z) by lia. rewrite (token_range_loop_spec b _ L k btn c) by (done || lia).
    cbn [mbind result_bind ob_current_token set_hunk]. rewrite pick_put. cbn [ob_sources]. rewrite bool_decide_true by done.
    rewrite Ho. unfold zlen. destruct (Z.eqb_spec (c + S k) (length L)) as [E|E]; cbn [andb].
    + rewrite Hend by lia. by rewrite app_nil_r.
    + by rewrite app_nil_r.
Qed.
End Ranges.

(** ** The output functions *)

Section Unified.
Context (cstring_from_utf8 : bytes -> result bytes).
Hypothesis Hutf : forall s, ascii s -> cstring_from_utf8 s = Ok s.
Context (opts : svn_diff_file_options_t) (X Y : list bytes) (source0 source1 : source_tokens_t) (ctx : nat).
Context (out0 : bytes) (hunk_delimiter : option bytes) (no_newline : bytes).
Hypothesis HX : tokens source0 = X /\ ends_without_eol source0 = ends_open X /\
  forall i line, X !! i = Some line -> has_eol line = false -> S i = length X.
Hypothesis HY : tokens source1 = Y /\ ends_without_eol source1 = ends_open Y /\
  forall i line, Y !! i = Some line -> has_eol line = false -> S i = length Y.
Hypothesis Hdelim : ascii (default (cstr "@@") hunk_delimiter).
Hypothesis Hnl : ascii no_newline.

Let delimiter := default (cstr "@@") hunk_delimiter.

(** *** Lines that are the same but for what is ignored *)

Definition sim (A B : list bytes) : Prop := normal_form opts <$> A = normal_form opts <$> B.

#[local] Instance sim_equivalence : Equivalence sim.
Proof. split; [by intros A|by intros A B|intros A B C H1 H2; unfold sim in *; congruence]. Qed.

Lemma sim_app A A' B B' : sim A A' -> sim B B' -> sim (A ++ B) (A' ++ B').
Proof. unfold sim. rewrite !fmap_app. by intros -> ->. Qed.

Lemma sim_length A B : sim A B -> length A = length B.
Proof. intros H. apply (f_equal length) in H. by rewrite !length_fmap in H. Qed.

(** The lines from one place to the other. *)
Definition seg (L : list bytes) (a b : nat) : list bytes := take (b - a) (drop a L).

Lemma seg_length L a b : (b <= length L)%nat -> length (seg L a b) = (b - a)%nat.
Proof. intros H. unfold seg. rewrite length_take, length_drop. lia. Qed.

Lemma take_seg L a b : (a <= b)%nat -> take a L ++ seg L a b = take b L.
Proof. intros H. unfold seg. rewrite take_take_drop. f_equal. lia. Qed.

Lemma seg_app L a b c : (a <= b <= c)%nat -> seg L a b ++ seg L b c = seg L a c.
Proof.
  intros H. unfold seg. replace (drop b L) with (drop (b - a) (drop a L)) by (rewrite drop_drop; f_equal; lia).
  rewrite take_take_drop. f_equal. lia.
Qed.

(** From one place in both files to another the lines are the same. *)
Record common (e0 e1 i j : nat) : Prop := {
  co_order : (e0 <= i <= length X)%nat /\ (e1 <= j <= length Y)%nat /\ (i - e0 = j - e1)%nat;
  co_sim : sim (seg X e0 i) (seg Y e1 j)
}.

Lemma common_refl i j : (i <= length X)%nat -> (j <= length Y)%nat -> common i j i j.
Proof. intros. split; [lia|]. unfold seg. by rewrite !Nat.sub_diag. Qed.

Lemma common_trans a b c d e f : common a b c d -> common c d e f -> common a b e f.
Proof.
  intros [H1 S1] [H2 S2]. split; [lia|]. rewrite <- (seg_app X a c e), <- (seg_app Y b d f) by lia. by apply sim_app.
Qed.

(** Any place between can be chosen. *)
Lemma common_split e0 e1 i j k : common e0 e1 i j -> (k <= i - e0)%nat ->
  common e0 e1 (e0 + k) (e1 + k) /\ common (e0 + k) (e1 + k) i j.
Proof.
  intros [H S] Hk.
  assert (forall L a b, (a + k <= b)%nat -> take k (seg L a b) = seg L a (a + k) /\ drop k (seg L a b) = seg L (a + k) b) as Hs.
  { intros L a b Hab. unfold seg. split.
    - rewrite take_take. f_equal. lia.
    - rewrite skipn_firstn_comm, drop_drop. f_equal. lia. }
  destruct (Hs X e0 i ltac:(lia)) as [X1 X2], (Hs Y e1 j ltac:(lia)) as [Y1 Y2].
  split; (split; [lia|]); unfold sim; [rewrite <- X1, <- Y1, !fmap_take|rewrite <- X2, <- Y2, !fmap_drop]; by rewrite S.
Qed.

(** Behind common lines there is more, or neither file ends without a line
    end. *)
Lemma common_not_end e0 e1 i j : common e0 e1 i j -> (e0 < i)%nat -> (i < length X \/ j < length Y)%nat ->
  (i = length X -> ends_open X = false) /\ (j = length Y -> ends_open Y = false).
Proof using HX HY.
  intros [H S] He Hmore. destruct HX as (_ & _ & EX), HY as (_ & _ & EY).
  assert (forall L a b, (a < b <= length L)%nat -> last (seg L a b) = L !! (b - 1)%nat) as Hlast.
  { intros L a b Hab. rewrite last_lookup, seg_length by lia. unfold seg. rewrite lookup_take_lt, lookup_drop by lia.
    f_equal. lia. }
  assert (last (normal_form opts <$> seg X e0 i) = last (normal_form opts <$> seg Y e1 j)) as E by by rewrite S.
  rewrite !fmap_last, !Hlast in E by lia.
  destruct (lookup_lt_is_Some_2 X (i - 1)) as [x Hx]; [lia|]. destruct (lookup_lt_is_Some_2 Y (j - 1)) as [y Hy]; [lia|].
  rewrite Hx, Hy in E. cbn in E. injection E as E. apply (f_equal has_eol) in E. rewrite !normal_form_eol in E.
  specialize (EX _ _ Hx). specialize (EY _ _ Hy). unfold ends_open. rewrite !last_lookup.
  destruct (has_eol y) eqn:Ey.
  - split; intros ->; [replace (Nat.pred (length X)) with (length X - 1)%nat by lia; by rewrite Hx, E|].
    replace (Nat.pred (length Y)) with (length Y - 1)%nat by lia. by rewrite Hy, Ey.
  - specialize (EX E). specialize (EY eq_refl). lia.
Qed.

(** *** Hunks so far *)

(** Applied to what is in front of [e0] they give what is in front of [e1]. *)
Definition valid (e0 e1 : nat) (hs : list hunk_t) : Prop :=
  (e0 <= length X)%nat /\ (e1 <= length Y)%nat /\
  exists Z, apply_hunks 0 0 (take e0 X) hs = Some Z /\ sim Z (take e1 Y).

Lemma valid_gap e0 e1 i j hs : valid e0 e1 hs -> common e0 e1 i j -> valid i j hs.
Proof.
  intros (H0 & H1 & Z & HZ & HS) [H S]. split_and!; [lia|lia|]. exists (Z ++ seg X e0 i).
  rewrite <- (take_seg X e0 i), <- (take_seg Y e1 j) by lia. split; [by apply apply_hunks_app|by apply sim_app].
Qed.

Lemma valid_new e0 e1 hs : valid e0 e1 hs -> valid e0 e1 (hs ++ [mk_hunk e0 e1 []]).
Proof.
  intros (H0 & H1 & Z & HZ & HS). split_and!; [done|done|]. exists Z. split; [|done].
  pose proof (apply_hunks_snoc hs (mk_hunk e0 e1 []) 0 0 (take e0 X) Z HZ) as H. cbn [u_start0 u_start1 u_lines] in H.
  change (old_lines []) with (@nil bytes) in H. change (new_lines []) with (@nil bytes) in H. rewrite !app_nil_r in H. apply H.
  - rewrite length_take. lia.
  - rewrite (sim_length _ _ HS), length_take. lia.
Qed.

Lemma valid_lines e0 e1 hs a b ls ls' i j : valid e0 e1 (hs ++ [mk_hunk a b ls]) -> (a + length (old_lines ls) = e0)%nat ->
  (e0 <= i <= length X)%nat -> (e1 <= j <= length Y)%nat -> old_lines ls' = seg X e0 i -> sim (new_lines ls') (seg Y e1 j) ->
  valid i j (hs ++ [mk_hunk a b (ls ++ ls')]).
Proof.
  intros (H0 & H1 & Z & HZ & HS) Ha Hi Hj Ho Hn. split_and!; [lia|lia|]. exists (Z ++ new_lines ls').
  rewrite <- (take_seg X e0 i), <- (take_seg Y e1 j), <- Ho by lia. split; [|by apply sim_app].
  apply apply_hunks_grow; [done|]. rewrite length_take. lia.
Qed.

Definition context_lines (e0 i : nat) : list (unified_output_e * bytes) := pair unified_output_context <$> seg X e0 i.

Lemma context_old e0 i : old_lines (context_lines e0 i) = seg X e0 i.
Proof. apply old_lines_map. by left. Qed.

Lemma context_new e0 i : new_lines (context_lines e0 i) = seg X e0 i.
Proof. apply new_lines_map. by left. Qed.

Lemma valid_context e0 e1 hs a b ls i j : valid e0 e1 (hs ++ [mk_hunk a b ls]) -> (a + length (old_lines ls) = e0)%nat ->
  common e0 e1 i j -> valid i j (hs ++ [mk_hunk a b (ls ++ context_lines e0 i)]).
Proof.
  intros Hv Ha [H S]. eapply valid_lines; [done|done|lia|lia|apply context_old|by rewrite context_new].
Qed.

Definition changed_lines (i m j n : nat) : list (unified_output_e * bytes) :=
  (pair unified_output_delete <$> seg X i (i + m)) ++ (pair unified_output_insert <$> seg Y j (j + n)).

Lemma changed_old i m j n : old_lines (changed_lines i m j n) = seg X i (i + m).
Proof. unfold changed_lines. rewrite old_lines_app, old_lines_insert, app_nil_r. apply old_lines_map. by right. Qed.

Lemma changed_new i m j n : new_lines (changed_lines i m j n) = seg Y j (j + n).
Proof. unfold changed_lines. rewrite new_lines_app, new_lines_delete. apply new_lines_map. by right. Qed.

(** *** States *)

Definition st (out : bytes) (current_token : Z * Z) (hunk : bytes) (hunk_length hunk_start : Z * Z) : output_baton_t :=
  mk_output_baton out (source0, source1) current_token ctx line_prefix hunk hunk_length hunk_start hunk_delimiter no_newline.

Lemma st_source out cur hunk len start b : source_is (st out cur hunk len start) b (if b then Y else X).
Proof using HX HY Hnl. destruct HX as (? & ? & ?), HY as (? & ? & ?). destruct b; by split. Qed.

Notation render := (render_lines no_newline).
Notation lens ls := (Z.of_nat (length (old_lines ls)), Z.of_nat (length (new_lines ls))).

(** Lines of the original become lines of the hunk. *)
Lemma range_original type out (c0 n : nat) c1 ls start until :
  type = unified_output_context \/ type = unified_output_delete -> (c0 <= n)%nat -> Z.of_nat n = Z.min until (length X) ->
  output_unified_token_range cstring_from_utf8 (st out (c0 : Z, c1) (render ls) (lens ls) start) false type until =
    Ok (st out (n : Z, c1) (render (ls ++ (pair type <$> seg X c0 n))) (lens (ls ++ (pair type <$> seg X c0 n))) start).
Proof using Hutf HX HY Hnl.
  intros Ht Hc Hn. assert (n <= length X)%nat as HnX by lia.
  rewrite (token_range_spec cstring_from_utf8 Hutf _ false type X c0 n until) by
    (done || exact (st_source _ _ _ _ _ false) || by destruct Ht as [-> | ->]).
  unfold set_hunk, st. cbn. do 2 f_equal.
  - by rewrite render_lines_app.
  - rewrite old_lines_app, new_lines_app, !length_app, old_lines_map by done.
    destruct Ht as [-> | ->]; cbn [grow fst snd]; rewrite ?new_lines_map, ?new_lines_delete by (by left);
      rewrite seg_length by done; cbn [length]; f_equal; lia.
Qed.

(** Lines of the modified text are added. *)
Lemma range_modified out (c1 n : nat) c0 ls start until :
  (c1 <= n)%nat -> Z.of_nat n = Z.min until (length Y) ->
  output_unified_token_range cstring_from_utf8 (st out (c0, c1 : Z) (render ls) (lens ls) start) true unified_output_insert until =
    Ok (st out (c0, n : Z) (render (ls ++ (pair unified_output_insert <$> seg Y c1 n)))
          (lens (ls ++ (pair unified_output_insert <$> seg Y c1 n))) start).
Proof using Hutf HX HY Hnl.
  intros Hc Hn. assert (n <= length Y)%nat as HnY by lia.
  rewrite (token_range_spec cstring_from_utf8 Hutf _ true _ Y c1 n until) by
    (done || exact (st_source _ _ _ _ _ true)).
  unfold set_hunk, st. cbn. do 2 f_equal.
  - by rewrite render_lines_app.
  - rewrite old_lines_app, new_lines_app, !length_app, old_lines_insert, new_lines_map by (by right).
    rewrite seg_length by done. cbn [length]. f_equal; lia.
Qed.

(** A hunk that is not yet written: the places behind it are [e0] and [e1]. *)
Record in_hunk (btn : output_baton_t) (hs : list hunk_t) (a b : nat) (ls : list (unified_output_e * bytes)) (e0 e1 : nat) : Prop := {
  ih_state : btn = st (out0 ++ (hs ≫= render_hunk delimiter no_newline)) (e0 : Z, e1 : Z) (render ls) (lens ls) (a : Z, b : Z);
  ih_lines : (0 < length (old_lines ls) + length (new_lines ls))%nat;
  ih_valid : valid e0 e1 (hs ++ [mk_hunk a b ls]);
  ih_old : (a + length (old_lines ls) = e0)%nat;
  ih_new : (b + length (new_lines ls) = e1)%nat
}.

(** Common lines up to the change, and the change. *)
Lemma change_spec hs a b ls (c0 c1 i m j n : nat) :
  (a + length (old_lines ls) = c0)%nat -> (b + length (new_lines ls) + (i - c0) = j)%nat ->
  valid c0 (j - (i - c0)) (hs ++ [mk_hunk a b ls]) -> common c0 (j - (i - c0)) i j -> (c1 <= j)%nat ->
  ((c1 < j)%nat -> j = length Y -> ends_open Y = false) ->
  (i + m <= length X)%nat -> (j + n <= length Y)%nat -> (0 < m + n)%nat ->
  exists btn,
    (output_baton ← output_unified_token_range cstring_from_utf8
        (st (out0 ++ (hs ≫= render_hunk delimiter no_newline)) (c0 : Z, c1 : Z) (render ls) (lens ls) (a : Z, b : Z))
        true unified_output_skip j;
     output_baton ← output_unified_token_range cstring_from_utf8 output_baton false unified_output_context i;
     output_baton ← output_unified_token_range cstring_from_utf8 output_baton false unified_output_delete (i + m);
     output_unified_token_range cstring_from_utf8 output_baton true unified_output_insert (j + n)) = Ok btn /\
    in_hunk btn hs a b (ls ++ context_lines c0 i ++ changed_lines i m j n) (i + m) (j + n).
Proof using Hutf HX HY Hnl Hdelim.
  intros Ha Hb Hv Hco Hc1 Hskip Hm Hn Hmn. pose proof (co_order _ _ _ _ Hco) as Hord.
  rewrite (token_range_skip cstring_from_utf8 _ true Y c1 j) by
    (done || lia || exact (st_source _ _ _ _ _ true)). cbn [mbind result_bind].
  unfold set_hunk. cbn. fold (st (out0 ++ (hs ≫= render_hunk delimiter no_newline)) (c0 : Z, j : Z) (render ls) (lens ls) (a : Z, b : Z)).
  rewrite (range_original unified_output_context _ c0 i) by first [by left|lia]. cbn [mbind result_bind].
  rewrite (range_original unified_output_delete _ i (i + m)) by first [by right|lia]. cbn [mbind result_bind].
  rewrite (range_modified _ j (j + n)) by lia. eexists. split; [done|].
  assert (forall (s t u : list (unified_output_e * bytes)), ((ls ++ s) ++ t) ++ u = ls ++ s ++ t ++ u) as Eass
    by (intros; by rewrite <- !app_assoc).
  rewrite Eass. split.
  - by rewrite !Nat2Z.inj_add.
  - rewrite !old_lines_app, !new_lines_app, !length_app, changed_old, changed_new, !seg_length by lia. lia.
  - rewrite app_assoc. eapply (valid_lines i j).
    + eapply valid_context; [exact Hv|done|exact Hco].
    + rewrite old_lines_app, length_app, context_old, seg_length by lia. lia.
    + lia.
    + lia.
    + apply changed_old.
    + by rewrite changed_new.
  - rewrite !old_lines_app, !length_app, context_old, changed_old, !seg_length by lia. lia.
  - rewrite !new_lines_app, !length_app, context_new, changed_new, !seg_length by lia. lia.
Qed.

(** The header of a hunk. *)
Lemma printf_spec out str : ascii str -> printf_from_utf8 cstring_from_utf8 out str = Ok (out ++ str).
Proof using Hutf. intros H. unfold printf_from_utf8. by rewrite Hutf. Qed.

Lemma hunk_header_spec out (a b len0 len1 : nat) :
  svn_diff__unified_write_hunk_header cstring_from_utf8 out delimiter
    (if negb (len0 =? 0) then a + 1 else a) len0 (if negb (len1 =? 0) then b + 1 else b) len1 None
  = Ok (out ++ delimiter ++ cstr " -" ++ render_range a len0 ++ cstr " +" ++ render_range b len1
        ++ cstr " " ++ delimiter ++ APR_EOL_STR).
Proof using Hutf Hdelim.
  assert (forall (start len : nat), print_ld (if negb (len =? 0) then start + 1 else start)
    = print_ld (if (len =? 0)%nat then start else S start)) as Estart.
  { intros start len. f_equal. destruct (Z.eqb_spec len 0), (Nat.eqb_spec len 0); cbn [negb]; lia. }
  assert (forall len : nat, (len =? 1) = (len =? 1)%nat) as Elen.
  { intros len. destruct (Z.eqb_spec len 1), (Nat.eqb_spec len 1); lia. }
  unfold svn_diff__unified_write_hunk_header, render_range. rewrite !Estart, !Elen. cbn zeta.
  change (default [] (@None bytes)) with (@nil Z). change (negb (deref [] =? 0)) with false. cbn iota.
  pose proof print_ld_ascii as Hp. fold delimiter in Hdelim.
  rewrite printf_spec by prove_ascii. cbn [mbind result_bind].
  assert (forall out len, (if negb (len =? 1)%nat then printf_from_utf8 cstring_from_utf8 out (cstr "," ++ print_ld (Z.of_nat len)) else Ok out)
            = Ok (out ++ (if (len =? 1)%nat then [] else cstr "," ++ print_ld (Z.of_nat len)))) as Hlen.
  { intros out' len. destruct (len =? 1)%nat; cbn [negb]; [by rewrite app_nil_r|]. by rewrite printf_spec by prove_ascii. }
  rewrite Hlen. cbn [mbind result_bind]. rewrite printf_spec by prove_ascii. cbn [mbind result_bind].
  rewrite Hlen. cbn [mbind result_bind]. rewrite printf_spec by prove_ascii.
  by rewrite !app_nil_l, <- !app_assoc.
Qed.

(** Writing the hunk, with the context behind it. *)
Lemma flush_spec btn hs a b ls (e0 e1 n : nat) : in_hunk btn hs a b ls e0 e1 -> n = Nat.min (e0 + ctx) (length X) ->
  output_unified_flush_hunk cstring_from_utf8 btn hunk_delimiter =
    Ok (st (out0 ++ ((hs ++ [mk_hunk a b (ls ++ context_lines e0 n)]) ≫= render_hunk delimiter no_newline))
          (n : Z, e1 : Z) [] (0, 0) (0, 0)).
Proof using Hutf HX HY Hnl Hdelim.
  intros [-> Hls Hv Ho Hn] En. destruct Hv as (HeX & _). unfold output_unified_flush_hunk.
  rewrite bool_decide_false by (cbn; apply render_lines_nonempty; by intros ->; simpl in Hls; lia). cbn zeta.
  change (ob_context_size _) with (Z.of_nat ctx). cbn [ob_hunk_start ob_hunk_length st fst].
  rewrite (range_original unified_output_context _ e0 n) by first [by left|lia]. cbn [mbind result_bind].
  fold (context_lines e0 n). fold delimiter. cbn [ob_hunk_start ob_hunk_length st fst snd ob_output ob_hunk].
  set (ls' := ls ++ context_lines e0 n).
  rewrite hunk_header_spec. cbn [mbind result_bind]. unfold write_hunk, st.
  cbn [ob_output ob_sources ob_current_token ob_context_size ob_prefix_str ob_hunk_delimiter ob_no_newline_string].
  do 2 f_equal. rewrite bind_app. cbn [mbind list_bind]. rewrite app_nil_r. unfold render_hunk at 3. cbn [u_start0 u_start1 u_lines]. by rewrite <- !app_assoc.
Qed.

Lemma token_range_noop btn b type until : until <= pick b (ob_current_token btn) ->
  output_unified_token_range cstring_from_utf8 btn b type until = Ok btn.
Proof.
  intros H. unfold output_unified_token_range.
  rewrite (proj2 (Z.leb_le _ _)); [done|]. destruct (Z.ltb_spec (zlen (tokens (pick b (ob_sources btn)))) until); lia.
Qed.

(** A new hunk, with at most [ctx] lines in front of the change. *)
Lemma start_spec hs (c0 c0' c1 i m j n p : nat) :
  valid c0 c0' hs -> common c0 c0' i j -> (p <= i - c0)%nat -> (c1 <= j)%nat ->
  ((c1 < j)%nat -> j = length Y -> ends_open Y = false) ->
  (i + m <= length X)%nat -> (j + n <= length Y)%nat -> (0 < m + n)%nat ->
  exists btn,
    (output_baton ← output_unified_token_range cstring_from_utf8
        (st (out0 ++ (hs ≫= render_hunk delimiter no_newline)) (c0 : Z, c1 : Z) [] (0, 0) (0, 0))
        false unified_output_skip (i - p);
     output_baton ←
       (_ ← svn_err_assert (((ob_hunk_length output_baton).1 =? 0) && ((ob_hunk_length output_baton).2 =? 0));
        Ok (set_hunk_start output_baton (i - p, j - p)));
     output_baton ← output_unified_token_range cstring_from_utf8 output_baton true unified_output_skip j;
     output_baton ← output_unified_token_range cstring_from_utf8 output_baton false unified_output_context i;
     output_baton ← output_unified_token_range cstring_from_utf8 output_baton false unified_output_delete (i + m);
     output_unified_token_range cstring_from_utf8 output_baton true unified_output_insert (j + n)) = Ok btn /\
    exists a b ls, in_hunk btn hs a b ls (i + m) (j + n).
Proof using Hutf HX HY Hnl Hdelim.
  intros Hv Hco Hp Hc1 Hskip Hm Hn Hmn. pose proof (co_order _ _ _ _ Hco) as Hord.
  rewrite (token_range_skip cstring_from_utf8 _ false X c0 (i - p)%nat); [|exact (st_source _ _ _ _ _ false)|done|lia|lia|].
  2:{ intros Hlt Hend. apply (common_not_end _ _ _ _ Hco); lia. }
  cbn [mbind result_bind]. unfold set_hunk, st. cbn [ob_hunk_length fst snd Z.eqb andb svn_err_assert mbind result_bind].
  unfold set_hunk_start.
  cbn [ob_output ob_sources ob_current_token ob_context_size ob_prefix_str ob_hunk ob_hunk_length ob_hunk_delimiter ob_no_newline_string put snd].
  replace (i - p : Z) with ((i - p)%nat : Z) by lia. replace (j - p : Z) with ((j - p)%nat : Z) by lia.
  destruct (common_split _ _ _ _ (i - p - c0) Hco ltac:(lia)) as [H1 H2].
  replace (c0 + (i - p - c0))%nat with (i - p)%nat in * by lia. replace (c0' + (i - p - c0))%nat with (j - p)%nat in * by lia.
  destruct (change_spec hs (i - p) (j - p) [] (i - p) c1 i m j n) as (btn & E & Hin); try done.
  - cbn. lia.
  - replace (j - (i - (i - p)))%nat with (j - p)%nat by lia. apply valid_new. by eapply valid_gap.
  - by replace (j - (i - (i - p)))%nat with (j - p)%nat by lia.
  - exists btn. split; [exact E|]. by eexists _, _, _.
Qed.

(** Between two changes. *)
Definition waiting (btn : output_baton_t) (i j : nat) : Prop :=
  (btn = st out0 (0, 0) [] (0, 0) (0, 0) /\ common 0 0 i j) \/
  exists hs a b ls e0 e1, in_hunk btn hs a b ls e0 e1 /\ common e0 e1 i j.

Lemma valid_start : valid 0 0 [].
Proof. split_and!; [lia|lia|]. exists []. by rewrite !take_0. Qed.

Lemma diff_modified_spec btn (i m j n : nat) :
  waiting btn i j -> (i + m <= length X)%nat -> (j + n <= length Y)%nat -> (0 < m + n)%nat ->
  exists btn', output_unified_diff_modified cstring_from_utf8 btn i m j n 0 0 = Ok btn' /\ waiting btn' (i + m) (j + n).
Proof using Hutf HX HY Hnl Hdelim.
  intros Hw Hm Hn Hmn. unfold output_unified_diff_modified. set (p := Nat.min ctx i).
  assert (forall btn', (exists hs a b ls, in_hunk btn' hs a b ls (i + m) (j + n)) -> waiting btn' (i + m) (j + n)) as Hfinal.
  { intros btn' (hs & a & b & ls & Hin). right. eexists hs, a, b, ls, _, _. split; [exact Hin|]. by apply common_refl. }
  destruct Hw as [[-> Hco]|(hs & a & b & ls & e0 & e1 & Hin & Hco)].
  - cbn [st ob_context_size ob_hunk_length ob_hunk_start ob_current_token fst snd Z.ltb Z.compare orb negb andb Z.eqb].
    assert ((if ctx <? i then (ctx : Z) else (i : Z)) = (p : Z)) as -> by (unfold p; destruct (Z.ltb_spec ctx i); lia).
    assert ((0 <? Z.of_nat m) || (0 <? Z.of_nat n) = true) as ->.
    { destruct (Z.ltb_spec 0 m), (Z.ltb_spec 0 n); [done..|lia]. }
    pose proof (co_order _ _ _ _ Hco) as Hord.
    destruct (start_spec [] 0 0 0 i m j n p) as (btn' & E & Hin');
      [apply valid_start|done|unfold p; lia|lia|intros; apply (common_not_end _ _ _ _ Hco); lia|done..|].
    exists btn'. split; [|apply Hfinal; by exists []]. cbn [app mbind list_bind] in E. rewrite app_nil_r in E.
    destruct (_ && _); exact E.
  - pose proof Hin as [-> Hls Hv Ho Hnew]. pose proof (co_order _ _ _ _ Hco) as Hord.
    cbn [st ob_context_size ob_hunk_length ob_hunk_start ob_current_token ob_hunk_delimiter fst snd].
    assert ((if ctx <? i then (ctx : Z) else (i : Z)) = (p : Z)) as -> by (unfold p; destruct (Z.ltb_spec ctx i); lia).
    assert ((0 <? Z.of_nat (length (old_lines ls))) || (0 <? Z.of_nat (length (new_lines ls))) = true) as ->.
    { destruct (Z.ltb_spec 0 (length (old_lines ls))), (Z.ltb_spec 0 (length (new_lines ls))); [done..|lia]. }
    cbn [negb andb]. destruct ((e0 <? i - p) && (a + length (old_lines ls) + ctx <=? i - p)) eqn:Efar.
    + apply andb_true_iff in Efar as [H1%Z.ltb_lt H2%Z.leb_le].
      rewrite (flush_spec _ hs a b ls e0 e1 (e0 + ctx) Hin) by lia. cbn [mbind result_bind].
      destruct (common_split _ _ _ _ ctx Hco ltac:(lia)) as [C1 C2].
      destruct (start_spec (hs ++ [mk_hunk a b (ls ++ context_lines e0 (e0 + ctx))]) (e0 + ctx) (e1 + ctx) e1 i m j n p)
        as (btn' & E & Hin'); [by eapply valid_context|done|lia|lia|intros; apply (common_not_end _ _ _ _ Hco); lia|done..|].
      exists btn'. split; [exact E|]. apply Hfinal. by eexists.
    + rewrite (range_original unified_output_context _ e0 i) by first [by left|lia]. fold (context_lines e0 i).
      cbn [mbind result_bind]. rewrite token_range_noop by (cbn; lia). cbn [mbind result_bind].
      destruct (change_spec hs a b (ls ++ context_lines e0 i) i e1 i m j n) as (btn' & E & Hin').
      * rewrite old_lines_app, length_app, context_old, seg_length by lia. lia.
      * rewrite new_lines_app, length_app, context_new, seg_length by lia. lia.
      * rewrite Nat.sub_diag, Nat.sub_0_r. by eapply valid_context.
      * rewrite Nat.sub_diag, Nat.sub_0_r. apply common_refl; lia.
      * lia.
      * intros; apply (common_not_end _ _ _ _ Hco); lia.
      * done.
      * done.
      * done.
      * exists btn'. split; [exact E|]. apply Hfinal. by eexists _, _, _, _.
Qed.

Lemma seg_normal L i (c R : list bytes) : normal_form opts <$> drop i L = c ++ R ->
  (i <= length L)%nat ->
  normal_form opts <$> seg L i (i + length c) = c /\ normal_form opts <$> drop (i + length c) L = R /\
  (i + length c <= length L)%nat.
Proof.
  intros E Hi. unfold seg. rewrite fmap_take, E, <- drop_drop, fmap_drop, E, Nat.add_comm, Nat.add_sub.
  rewrite take_app_length, drop_app_length. split_and!; [done|done|].
  apply (f_equal length) in E. rewrite length_fmap, length_drop, length_app in E. lia.
Qed.

Lemma waiting_common btn i j k l : waiting btn i j -> common i j k l -> waiting btn k l.
Proof.
  intros [[-> Hco]|(hs & a & b & ls & e0 & e1 & Hin & Hco)] Hco'; [left|right].
  - split; [done|]. by eapply common_trans.
  - eexists hs, a, b, ls, e0, e1. split; [done|]. by eapply common_trans.
Qed.

Lemma output2_spec {Cancel} (cancel_func : option (Cancel -> result Cancel)) ds i j NX NY :
  (forall f c, cancel_func = Some f -> exists c', f c = Ok c') ->
  is_diff i j NX NY ds -> normal_form opts <$> drop i X = NX -> normal_form opts <$> drop j Y = NY ->
  (i <= length X)%nat -> (j <= length Y)%nat -> forall btn cancel_baton, waiting btn i j ->
  exists btn' c', svn_diff_output2 ds btn (mem_output_unified_vtable cstring_from_utf8) cancel_func cancel_baton = Ok (btn', c') /\
    waiting btn' (length X) (length Y).
Proof using Hutf HX HY Hnl Hdelim.
  intros Hcancel. induction 1 as [i j|i j c X' Y' ds Hc Hd IH|i j a b X' Y' ds Hab Hd IH]; intros EX EY Hi Hj btn cb Hw.
  - apply fmap_nil_inv in EX, EY. apply (f_equal length) in EX, EY. rewrite !length_drop in EX, EY. simpl in EX, EY.
    exists btn, cb. split; [done|]. replace (length X) with i by lia. by replace (length Y) with j by lia.
  - destruct (seg_normal X i c X' EX Hi) as (SX & EX' & LX), (seg_normal Y j c Y' EY Hj) as (SY & EY' & LY).
    cbn [svn_diff_output2]. 
    assert (exists c', (if cancel_func is Some cancel then cancel cb else Ok cb) = Ok c') as [c' ->].
    { destruct cancel_func as [f|]; [by apply Hcancel|by eexists]. }
    cbn [mbind result_bind output_diff diff_type output_common mem_output_unified_vtable].
    apply IH; [done..|]. eapply waiting_common; [exact Hw|]. split; [lia|]. unfold sim. by rewrite SX, SY.
  - destruct (seg_normal X i a X' EX Hi) as (_ & EX' & LX), (seg_normal Y j b Y' EY Hj) as (_ & EY' & LY).
    cbn [svn_diff_output2].
    assert (exists c', (if cancel_func is Some cancel then cancel cb else Ok cb) = Ok c') as [c' ->].
    { destruct cancel_func as [f|]; [by apply Hcancel|by eexists]. }
    cbn [mbind result_bind output_diff diff_type output_diff_modified mem_output_unified_vtable original_start
         original_length modified_start modified_length latest_start latest_length].
    destruct (diff_modified_spec btn i (length a) j (length b) Hw LX LY) as (btn' & -> & Hw').
    { destruct a; [|simpl; lia]. destruct b; [done|simpl; lia]. }
    cbn [mbind result_bind]. by apply IH.
Qed.

(** The last hunk is written at the end. *)
Lemma final_flush btn : waiting btn (length X) (length Y) ->
  exists btn' hs Z, output_unified_flush_hunk cstring_from_utf8 btn hunk_delimiter = Ok btn' /\
    ob_output btn' = out0 ++ (hs ≫= render_hunk delimiter no_newline) /\
    apply_hunks 0 0 X hs = Some Z /\ sim Z Y.
Proof using Hutf HX HY Hnl Hdelim.
  assert (forall hs, valid (length X) (length Y) hs -> exists Z, apply_hunks 0 0 X hs = Some Z /\ sim Z Y) as Hv.
  { intros hs (_ & _ & Z & HZ & HS). rewrite !firstn_all in *. by exists Z. }
  intros [[-> Hco]|(hs & a & b & ls & e0 & e1 & Hin & Hco)].
  - destruct (Hv [] (valid_gap _ _ _ _ _ valid_start Hco)) as (Z & HZ & HS). eexists _, [], Z.
    split; [done|]. cbn. rewrite app_nil_r. done.
  - pose proof (co_order _ _ _ _ Hco) as Hord. set (n := Nat.min (e0 + ctx) (length X)).
    rewrite (flush_spec _ hs a b ls e0 e1 n Hin) by done.
    destruct (common_split _ _ _ _ (n - e0) Hco ltac:(unfold n; lia)) as [C1 C2].
    replace (e0 + (n - e0))%nat with n in * by (unfold n in *; lia).
    destruct (Hv (hs ++ [mk_hunk a b (ls ++ context_lines e0 n)])) as (Z & HZ & HS).
    { eapply valid_gap; [|exact C2]. eapply valid_context; [apply Hin|apply Hin|exact C1]. }
    eexists _, _, Z. split; [done|]. split; [done|]. done.
Qed.
End Unified.

(** What [svn_diff_mem_string_output_unified3] writes. *)
Lemma output_unified_spec {Cancel} cstring_from_utf8 opts output diff with_diff_header hunk_delimiter
    original_header modified_header original modified context_size
    (cancel_func : option (Cancel -> result Cancel)) cancel_baton :
  (forall s, ascii s -> cstring_from_utf8 s = Ok s) -> ascii (default (cstr "@@") hunk_delimiter) ->
  ascii original_header -> ascii modified_header ->
  (forall f c, cancel_func = Some f -> exists c', f c = Ok c') ->
  is_diff 0 0 (normal_form opts <$> lines original) (normal_form opts <$> lines modified) diff ->
  exists hs Z cancel_baton',
    svn_diff_mem_string_output_unified3 cstring_from_utf8 output diff with_diff_header hunk_delimiter original_header
      modified_header original modified context_size cancel_func cancel_baton
    = Ok (output ++
          (if with_diff_header && svn_diff_contains_diffs diff then
             cstr "--- " ++ original_header ++ APR_EOL_STR ++ cstr "+++ " ++ modified_header ++ APR_EOL_STR else []) ++
          (hs ≫= render_hunk (default (cstr "@@") hunk_delimiter)
             (APR_EOL_STR ++
              (if bool_decide (hunk_delimiter = Some (cstr "##")) then SVN_DIFF__NO_NEWLINE_AT_END_OF_PROPERTY
               else SVN_DIFF__NO_NEWLINE_AT_END_OF_FILE) ++ APR_EOL_STR)), cancel_baton') /\
    apply_hunks 0 0 (lines original) hs = Some Z /\
    normal_form opts <$> Z = normal_form opts <$> lines modified.
Proof.
  intros Hutf Hdelim Ho Hm Hcancel Hd. unfold svn_diff_mem_string_output_unified3.
  destruct (svn_diff_contains_diffs diff) eqn:Ec.
  2:{ exists [], (lines original), cancel_baton. rewrite andb_false_r, app_nil_r. split_and!; [done|done|]. by eapply is_diff_same. }
  rewrite andb_true_r, !fill_source_tokens_spec.
  do 3 (rewrite Hutf by (by apply cstr_ascii); cbn [mbind result_bind]).
  set (header := if with_diff_header then _ else []).
  assert ((if with_diff_header then svn_diff__unidiff_write_header cstring_from_utf8 output original_header modified_header
           else Ok output) = Ok (output ++ header)) as ->.
  { unfold header. destruct with_diff_header; [|by rewrite app_nil_r]. unfold svn_diff__unidiff_write_header.
    by rewrite printf_spec by prove_ascii. }
  cbn [mbind result_bind]. cbn zeta.
  assert ((if negb (bool_decide (hunk_delimiter = Some (cstr "##"))) then SVN_DIFF__NO_NEWLINE_AT_END_OF_FILE
           else SVN_DIFF__NO_NEWLINE_AT_END_OF_PROPERTY)
          = (if bool_decide (hunk_delimiter = Some (cstr "##")) then SVN_DIFF__NO_NEWLINE_AT_END_OF_PROPERTY
             else SVN_DIFF__NO_NEWLINE_AT_END_OF_FILE)) as -> by by destruct (bool_decide _).
  set (nl := APR_EOL_STR ++ _ ++ APR_EOL_STR).
  assert (ascii nl) as Hnl.
  { unfold nl. destruct (bool_decide _); prove_ascii. }
  set (ctx := Z.to_nat (if 0 <=? context_size then context_size else SVN_DIFF__UNIFIED_CONTEXT_SIZE)).
  destruct (output2_spec cstring_from_utf8 Hutf opts (lines original) (lines modified)
    (mk_source (lines original) 0 original (ends_open (lines original)))
    (mk_source (lines modified) 0 modified (ends_open (lines modified))) ctx (output ++ header) hunk_delimiter nl)
    with (ds := diff) (i := 0%nat) (j := 0%nat) (cancel_func := cancel_func) (cancel_baton := cancel_baton)
    (NX := normal_form opts <$> lines original) (NY := normal_form opts <$> lines modified)
    (btn := mk_output_baton (output ++ header)
       (mk_source (lines original) 0 original (ends_open (lines original)),
        mk_source (lines modified) 0 modified (ends_open (lines modified)))
       (0, 0) ctx line_prefix [] (0, 0) (0, 0) hunk_delimiter nl)
    as (btn & c' & E & Hw);
    [split_and!; [done|done|apply lines_eol]|split_and!; [done|done|apply lines_eol]|done|done|done|done|by rewrite drop_0|by rewrite drop_0|lia|lia| |].
  { left. split; [done|]. apply common_refl; lia. }
  assert ((if 0 <=? context_size then context_size else SVN_DIFF__UNIFIED_CONTEXT_SIZE) = ctx) as ->.
  { unfold ctx, SVN_DIFF__UNIFIED_CONTEXT_SIZE. destruct (Z.leb_spec 0 context_size); lia. }
  change (fun type => match type with unified_output_context => cstr " " | unified_output_delete => cstr "-" | _ => cstr "+" end)
    with line_prefix.
  rewrite E. cbn [mbind result_bind].
  destruct (final_flush cstring_from_utf8 Hutf opts (lines original) (lines modified)
    (mk_source (lines original) 0 original (ends_open (lines original)))
    (mk_source (lines modified) 0 modified (ends_open (lines modified))) ctx (output ++ header) hunk_delimiter nl)
    with (btn := btn) as (btn' & hs & Z & -> & Eo & HZ & HS);
    [split_and!; [done|done|apply lines_eol]|split_and!; [done|done|apply lines_eol]|done|done|done|].
  exists hs, Z, c'. cbn [mbind result_bind]. rewrite Eo, <- app_assoc. by split_and!.
Qed.
