(* ===== verification/DiffTheorems.v ===== *)
(** * Properties of differences

    Differences are correct and as small as possible for every lawful data
    source, and so for strings in memory; unified diffs take the one string to
    the other; lines are normalized and summed up as the plain definitions
    say. *)

From S2P Require Import Prelude Buffers CString Adler32 DiffNormalize Subsequence DiffToken DiffTokenFacts.
From S2P Require Import DiffLcs Diff DiffFacts DiffMemory DiffMemoryFacts DiffUnified DiffUnifiedFacts.

#[local] Coercion Z.of_nat : nat >-> Z.

(** What a correct list of differences gives. *)
Lemma diff_conclusions {A} (X Y : list A) diff :
  is_diff 0 0 X Y diff -> is_lcs X Y (Z.to_nat (common_length diff)) ->
  patch X Y diff = Y /\ unpatch X Y diff = X /\ (svn_diff_contains_diffs diff = false <-> X = Y) /\
  svn_diff_contains_conflicts diff = false.
Proof.
  intros Hd Hl. destruct (is_diff_patch 0 0 X Y diff Hd [] []) as [Hp Hu]; [done..|].
  split_and!; [exact Hp|exact Hu| |exact (is_diff_no_conflict _ _ _ _ _ Hd)].
  split; [intros E; exact (is_diff_same _ _ _ _ _ Hd E)|]. intros <-. by apply (is_diff_equal X).
Qed.

(** C12: [svn_diff_diff_2] returns for every data source whose functions keep
    their promises, with any common start [pre] and end [suf] that opening the
    sources found, and with fuel for all tokens.  The chunks it returns go
    through both sources without a gap; common chunks are equal, and no list of
    chunks has more in common: their length is that of a longest common
    subsequence of the whole sources.  Applying the chunks to the one source
    gives the other, there are differences exactly between different sources,
    and there are no conflicts. *)
Theorem diff_2_correct {Baton Token K : Type} (vtable : svn_diff_fns2_t Baton Token)
    (key : Token -> K) (kcmp : K -> K -> Z) (valid : Baton -> Prop) (ok : Token -> Prop)
    (opened : svn_diff_datasource_e -> Prop) (remaining : Baton -> svn_diff_datasource_e -> list (Z * Token))
    (laws : DiffFnsLaws vtable key kcmp valid ok opened remaining) (fuel : nat) (b b' : Baton) (pre suf : list (Z * K)) :
  datasources_open vtable b [svn_diff_datasource_original; svn_diff_datasource_modified]
    = Ok (b', length pre : Z, length suf : Z) ->
  opened svn_diff_datasource_original -> opened svn_diff_datasource_modified -> valid b' ->
  (forall ds, Forall (hashed ok) (remaining b' ds)) -> (forall ds, (length (remaining b' ds) < fuel)%nat) ->
  exists diff b'', svn_diff_diff_2 vtable fuel b = Ok (diff, b'') /\
    let X := pre ++ (identity key <$> remaining b' svn_diff_datasource_original) ++ suf in
    let Y := pre ++ (identity key <$> remaining b' svn_diff_datasource_modified) ++ suf in
    is_diff 0 0 X Y diff /\ is_lcs X Y (Z.to_nat (common_length diff)) /\
    patch X Y diff = Y /\ unpatch X Y diff = X /\ (svn_diff_contains_diffs diff = false <-> X = Y) /\
    svn_diff_contains_conflicts diff = false.
Proof.
  intros Hopen Ho Hm Hb Hok Hf.
  destruct (diff_2_spec vtable key kcmp valid ok opened remaining fuel b b' pre suf) as (diff & b'' & E & Hd & Hl); [done..|].
  exists diff, b''. split; [done|]. split; [done|]. split; [done|]. by apply diff_conclusions.
Qed.

Definition sample_baton : diff_mem_baton_t :=
  mk_mem_baton [mk_source (cstr <$> ["a"; "b"; "c"]) 0 (cstr "abc") true; mk_source (cstr <$> ["a"; "c"; "d"]) 0 (cstr "acd") true]
    1 sample_options.

Lemma diff_2_correct_witness :
  exists diff b'', svn_diff_diff_2 (svn_diff__mem_vtable rfc_adler32) 5 sample_baton = Ok (diff, b'') /\
    svn_diff_contains_conflicts diff = false.
Proof.
  destruct (diff_2_correct (svn_diff__mem_vtable rfc_adler32) (normal_form sample_options) line_cmp
    (mem_valid sample_options 1 2) (line_ok 1) (mem_opened 2) (mem_remaining rfc_adler32 sample_options)
    (mem_fns_laws rfc_adler32 sample_options 1 2) 5 sample_baton sample_baton [] [])
    as (diff & b'' & E & _ & _ & _ & _ & _ & H).
  - reflexivity.
  - unfold mem_opened. simpl. lia.
  - unfold mem_opened. simpl. lia.
  - split_and!; [done..|]. by_evaluation.
  - intros []; by_evaluation.
  - intros []; vm_compute; lia.
  - exists diff, b''. split; [exact E|exact H].
Defined.

(** [svn_diff_mem_string_diff] returns for all strings of bytes and all
    options, whatever zlib makes of long lines.  Its chunks are correct for
    the lines of the strings in normal form (the lines themselves, if nothing
    is to be ignored) and leave as many lines in common as possible. *)
Theorem mem_string_diff_correct adler32 original modified options :
  Forall is_byte original -> Forall is_byte modified ->
  exists diff, svn_diff_mem_string_diff adler32 original modified options = Ok diff /\
    let X := normal_form options <$> lines original in
    let Y := normal_form options <$> lines modified in
    is_diff 0 0 X Y diff /\ is_lcs X Y (Z.to_nat (common_length diff)) /\
    patch X Y diff = Y /\ unpatch X Y diff = X /\ (svn_diff_contains_diffs diff = false <-> X = Y) /\
    svn_diff_contains_conflicts diff = false.
Proof.
  intros Ho Hm. destruct (mem_string_diff_spec adler32 original modified options Ho Hm) as (diff & E & Hd & Hl).
  exists diff. split; [done|]. split; [done|]. split; [done|]. by apply diff_conclusions.
Qed.

Lemma mem_string_diff_correct_witness :
  exists diff, svn_diff_mem_string_diff rfc_adler32 (cstr "abc") (cstr "abd") sample_options = Ok diff /\
    svn_diff_contains_conflicts diff = false.
Proof.
  destruct (mem_string_diff_correct rfc_adler32 (cstr "abc") (cstr "abd") sample_options) as (diff & E & _ & _ & _ & _ & _ & H).
  - by_evaluation.
  - by_evaluation.
  - exists diff. split; [exact E|exact H].
Defined.

(** C13: The unified diff of two strings is a correct patch.  What is written is
    the header, if there are differences and it was asked for, and a list of
    hunks in the usual notation; the hunks, applied one after the other at the
    lines that their headers name, find their old lines there and turn the
    lines of the original into those of the modified string, up to what the
    options ignore: exactly, if they ignore nothing.  The encoding of headers
    may be any that leaves ASCII as it is. *)
Theorem unified_diff_correct {Cancel : Type} adler32 cstring_from_utf8 options output with_diff_header hunk_delimiter
    original_header modified_header original modified context_size
    (cancel_func : option (Cancel -> result Cancel)) cancel_baton :
  Forall is_byte original -> Forall is_byte modified ->
  (forall s, ascii s -> cstring_from_utf8 s = Ok s) -> ascii (default (cstr "@@") hunk_delimiter) ->
  ascii original_header -> ascii modified_header ->
  (forall f c, cancel_func = Some f -> exists c', f c = Ok c') ->
  exists diff hs Z cancel_baton',
    svn_diff_mem_string_diff adler32 original modified options = Ok diff /\
    svn_diff_mem_string_output_unified3 cstring_from_utf8 output diff with_diff_header hunk_delimiter original_header
      modified_header original modified context_size cancel_func cancel_baton
    = Ok (output ++
          (if with_diff_header && svn_diff_contains_diffs diff then
             cstr "--- " ++ original_header ++ APR_EOL_STR ++ cstr "+++ " ++ modified_header ++ APR_EOL_STR else []) ++
          (hs ≫= render_hunk (default (cstr "@@") hunk_delimiter)
             (APR_EOL_STR ++
              (if bool_decide (hunk_delimiter = Some (cstr "##")) then SVN_DIFF__NO_NEWLINE_AT_END_OF_PROPERTY
               else SVN_DIFF__NO_NEWLINE_AT_END_OF_FILE) ++ APR_EOL_STR)), cancel_baton') /\
    apply_hunks 0 0 (lines original) hs = Some Z /\
    normal_form options <$> Z = normal_form options <$> lines modified /\
    (ignore_space options = svn_diff_file_ignore_space_none -> ignore_eol_style options = false -> concat Z = modified).
Proof.
  intros Ho Hm Hutf Hdelim Hoh Hmh Hcancel.
  destruct (mem_string_diff_spec adler32 original modified options Ho Hm) as (diff & E & Hd & _).
  destruct (output_unified_spec cstring_from_utf8 options output diff with_diff_header hunk_delimiter original_header
    modified_header original modified context_size cancel_func cancel_baton) as (hs & Z & c' & Eo & HZ & HS); [done..|].
  exists diff, hs, Z, c'. split_and!; [done..|]. intros Hsp Heol.
  rewrite !normal_form_exact in HS by done. by rewrite HS, lines_concat.
Qed.

Lemma unified_diff_correct_witness :
  exists diff text,
    svn_diff_mem_string_diff rfc_adler32 (cstr "abc") (cstr "abd") sample_options = Ok diff /\
    svn_diff_mem_string_output_unified3 Ok [] diff false None (cstr "a") (cstr "b") (cstr "abc") (cstr "abd") 3
      (@None (unit -> result unit)) () = Ok (text, ()).
Proof.
  destruct (unified_diff_correct rfc_adler32 Ok sample_options [] false None (cstr "a") (cstr "b") (cstr "abc") (cstr "abd") 3
    (@None (unit -> result unit)) ()) as (diff & hs & Z & [] & E & Eo & _).
  - by_evaluation.
  - by_evaluation.
  - reflexivity.
  - by apply cstr_ascii.
  - by apply cstr_ascii.
  - by apply cstr_ascii.
  - discriminate.
  - eexists _, _. split; [exact E|exact Eo].
Defined.

(** C18: [svn_diff__normalize_buffer] writes what the plain definition writes
    character after character, for every state and all options, and never
    outside a buffer of the size of the text; the result is no longer than
    the text.  A text that is normalized in parts, with the state carried
    over, gives the same as the whole; and a line keeps its line end. *)
Theorem normalize_buffer_correct room buf opts state :
  zlen buf <= room ->
  svn_diff__normalize_buffer room buf opts state = Ok (normalized opts buf state) /\
  zlen (normal_form opts buf) <= zlen buf /\
  (forall a b, buf = a ++ b ->
     exists x state1 y state2,
       svn_diff__normalize_buffer room a opts state = Ok (x, state1) /\
       svn_diff__normalize_buffer room b opts state1 = Ok (y, state2) /\
       normalized opts buf state = (x ++ y, state2)) /\
  has_eol (normal_form opts buf) = has_eol buf.
Proof.
  intros H. split; [by apply normalize_buffer_any|]. split; [apply normal_form_length|]. split; [|apply normal_form_eol].
  intros a b ->. rewrite zlen_app in H. pose proof (zlen_nonneg a). pose proof (zlen_nonneg b).
  destruct (normalized opts a state) as [x state1] eqn:Ea. destruct (normalized opts b state1) as [y state2] eqn:Eb.
  exists x, state1, y, state2. rewrite !normalize_buffer_any, Ea, Eb, normalized_app, Ea, Eb by lia. done.
Qed.

Lemma normalize_buffer_correct_witness :
  svn_diff__normalize_buffer 8 (cstr " a  b ") (mk_file_options svn_diff_file_ignore_space_change true false 3)
    svn_diff__normalize_state_normal = Ok (cstr " a b ", svn_diff__normalize_state_whitespace).
Proof.
  destruct (normalize_buffer_correct 8 (cstr " a  b ") (mk_file_options svn_diff_file_ignore_space_change true false 3)
    svn_diff__normalize_state_normal) as [E _]; [by vm_compute|exact E].
Defined.

(** [svn__adler32] computes the checksum of RFC 1950 for every buffer and
    every checksum to start with, if zlib does: the sums of the buffers that
    are not left to zlib stay below 2^32, although they are reduced at the end
    only. *)
Theorem adler32_rfc1950 adler32 checksum data :
  (forall c d, adler32 c d = rfc_adler32 c d) -> 0 <= checksum < 2 ^ 32 -> Forall is_byte data ->
  svn__adler32 adler32 checksum data = rfc_adler32 checksum data.
Proof.
  intros Hz Hc Hb. destruct (Z.leb_spec 80 (zlen data)) as [Hl|Hl]; [|by apply svn__adler32_short].
  unfold svn__adler32. rewrite (proj2 (Z.leb_le _ _)) by done. rewrite Hz. apply u32_small, rfc_adler32_range.
Qed.

Lemma adler32_rfc1950_witness :
  svn__adler32 rfc_adler32 1 (cstr "Wikipedia") = 0x11E60398.
Proof.
  rewrite (adler32_rfc1950 rfc_adler32 1 (cstr "Wikipedia")); [reflexivity|reflexivity|lia|by_evaluation].
Defined.
