(* ===== verification/PropDiff.v ===== *)
(** * Differences of properties (libsvn_diff/util.c)

    The changes of properties are sorted by name and displayed one after the
    other: mergeinfo as what was merged and reverse-merged, if asked for and
    if it can be parsed, every other property as a unified diff.  Messages are
    not translated. *)

From S2P Require Import Prelude Buffers StringBuf CString Rangelist RangelistText PathLib Hash Mergeinfo.
From S2P Require Import DiffNormalize.
From S2P Require Import MergeinfoTheorems Adler32 DiffMemory DiffMemoryFacts Diff DiffFacts DiffUnified.
From S2P Require Import DiffUnifiedFacts.

(** A property that is set to a value, or, with no value, deleted. *)
Record svn_prop_t := mk_prop {
  prop_name : bytes;
  prop_value : option bytes
}.

Definition SVN_PROP_MERGEINFO : bytes := cstr "svn:mergeinfo".

Definition propchange_sort (k1 k2 : svn_prop_t) : Z := strcmp (prop_name k1) (prop_name k2).

Definition propchange_le (k1 k2 : svn_prop_t) : Prop := propchange_sort k1 k2 <= 0.

#[export] Instance propchange_le_dec : RelDecision propchange_le.
Proof. unfold RelDecision, propchange_le. intros. apply _. Defined.

(** [svn_sort__array (changes, propchange_sort)]; [qsort] is stable. *)
Definition sort_changes (changes : list svn_prop_t) : list svn_prop_t := merge_sort propchange_le changes.

(** The options of [svn_diff_file_options_t options = { 0 }]. *)
Definition zero_options : svn_diff_file_options_t :=
  mk_file_options svn_diff_file_ignore_space_none false false 0.

Section Display.
Context `{HO : HashOrder} (adler32 : Z -> bytes -> Z).
Context (cstring_from_utf8 : bytes -> result bytes).

Definition svn_diff__unified_append_no_newline_msg `{Allocator} (stringbuf : svn_stringbuf_t)
    : result svn_stringbuf_t :=
  out_str ← cstring_from_utf8 (APR_EOL_STR ++ SVN_DIFF__NO_NEWLINE_AT_END_OF_FILE ++ APR_EOL_STR);
  svn_stringbuf_appendcstr stringbuf out_str.

(** One of the loops over what was deleted or added. *)
Definition display_merges (format : bytes) (merges : mergeinfo) (outstream : bytes) : result bytes :=
  for_each (fun from_path merge_revarray outstream =>
      merge_revstr ← svn_rangelist_to_string merge_revarray;
      printf_from_utf8 cstring_from_utf8 outstream
        (format ++ from_path ++ cstr ":r" ++ merge_revstr ++ APR_EOL_STR))
    (hash_items merges) outstream.

Definition parse_value (mergeinfo_val : option bytes) : result (option mergeinfo) :=
  match mergeinfo_val with
  | Some mergeinfo_val => hash ← svn_mergeinfo_parse mergeinfo_val; Ok (Some hash)
  | None => Ok None
  end.

Definition display_mergeinfo_diff (old_mergeinfo_val new_mergeinfo_val : option bytes) (outstream : bytes)
    : result bytes :=
  old_mergeinfo_hash ← parse_value old_mergeinfo_val;
  new_mergeinfo_hash ← parse_value new_mergeinfo_val;
  '(deleted, added) ← svn_mergeinfo_diff2 old_mergeinfo_hash new_mergeinfo_hash true;
  outstream ← printf_from_utf8 cstring_from_utf8 outstream
    (cstr "## -0," ++ print_lu (Z.of_nat (size deleted)) ++ cstr " +0," ++ print_lu (Z.of_nat (size added)) ++
     cstr " ##" ++ APR_EOL_STR);
  outstream ← display_merges (cstr "   Reverse-merged ") deleted outstream;
  display_merges (cstr "   Merged ") added outstream.

Definition unchanged (original_value value : option bytes) : bool :=
  match original_value, value with
  | None, None => true
  | Some original_value, Some value => bool_decide (original_value = value)
  | _, _ => false
  end.

Definition prop_action (original_value value : option bytes) : bytes :=
  match original_value, value with
  | None, _ => cstr "Added"
  | _, None => cstr "Deleted"
  | _, _ => cstr "Modified"
  end.

(** The block that displays a property as text. *)
Definition display_text_diff {Cancel : Type} (original_value value : option bytes) (context_size : Z)
    (cancel_func : option (Cancel -> result Cancel)) (outstream : bytes) (cancel_baton : Cancel)
    : result (bytes * Cancel) :=
  let orig := default [] original_value in
  let val := default [] value in
  diff ← svn_diff_mem_string_diff adler32 orig val zero_options;
  svn_diff_mem_string_output_unified3 cstring_from_utf8 outstream diff false (Some (cstr "##")) [] []
    orig val context_size cancel_func cancel_baton.

(** The body of the loop.  A parse error comes before anything is written;
    mergeinfo is read as a C string. *)
Definition display_prop {Cancel : Type} (original_props : option (gmap bytes bytes)) (pretty_print_mergeinfo : bool)
    (context_size : Z) (cancel_func : option (Cancel -> result Cancel)) (propchange : svn_prop_t)
    (outstream : bytes) (cancel_baton : Cancel) : result (bytes * Cancel) :=
  let name := prop_name propchange in
  let value := prop_value propchange in
  let original_value := match original_props with Some props => props !! name | None => None end in
  if unchanged original_value value then Ok (outstream, cancel_baton)
  else
    outstream ← printf_from_utf8 cstring_from_utf8 outstream
      (prop_action original_value value ++ cstr ": " ++ name ++ APR_EOL_STR);
    if pretty_print_mergeinfo && (strcmp name SVN_PROP_MERGEINFO =? 0) then
      match display_mergeinfo_diff (c_str <$> original_value) (c_str <$> value) outstream with
      | Err SVN_ERR_MERGEINFO_PARSE_ERROR =>
          display_text_diff original_value value context_size cancel_func outstream cancel_baton
      | Err err => Err err
      | Ok outstream => Ok (outstream, cancel_baton)
      end
    else display_text_diff original_value value context_size cancel_func outstream cancel_baton.

Fixpoint display_props {Cancel : Type} (original_props : option (gmap bytes bytes)) (pretty_print_mergeinfo : bool)
    (context_size : Z) (cancel_func : option (Cancel -> result Cancel)) (changes : list svn_prop_t)
    (outstream : bytes) (cancel_baton : Cancel) : result (bytes * Cancel) :=
  match changes with
  | [] => Ok (outstream, cancel_baton)
  | propchange :: changes =>
      '(outstream, cancel_baton) ← display_prop original_props pretty_print_mergeinfo context_size cancel_func
                                     propchange outstream cancel_baton;
      display_props original_props pretty_print_mergeinfo context_size cancel_func changes outstream cancel_baton
  end.

Definition svn_diff__display_prop_diffs {Cancel : Type} (outstream : bytes) (propchanges : list svn_prop_t)
    (original_props : option (gmap bytes bytes)) (pretty_print_mergeinfo : bool) (context_size : Z)
    (cancel_func : option (Cancel -> result Cancel)) (cancel_baton : Cancel) : result (bytes * Cancel) :=
  display_props original_props pretty_print_mergeinfo context_size cancel_func (sort_changes propchanges)
    outstream cancel_baton.
End Display.

(** * Properties *)

#[export] Instance propchange_le_trans : Transitive propchange_le.
Proof. intros x y z. unfold propchange_le, propchange_sort. rewrite !strcmp_lex. apply lex_trans. Qed.

#[export] Instance propchange_le_total : Total propchange_le.
Proof. intros x y. unfold propchange_le, propchange_sort. rewrite !strcmp_lex. apply lex_total. Qed.

Lemma strcmp_zero a b : (strcmp a b =? 0) = bool_decide (a = b).
Proof.
  destruct (Z.eqb_spec (strcmp a b) 0) as [E|E].
  - symmetry. apply bool_decide_eq_true, lex_antisym; rewrite <- strcmp_lex; [lia|].
    revert b E. induction a as [|x a IH]; intros [|y b]; cbn [strcmp]; try done.
    rewrite (Z.eqb_sym y x). destruct (Z.eqb_spec x y); [apply IH|by destruct (x <? y)].
  - symmetry. apply bool_decide_eq_false. intros ->. apply E.
    induction b as [|y b IH]; cbn [strcmp]; [done|]. rewrite Z.eqb_refl. apply IH. intros H. apply E.
    cbn [strcmp]. by rewrite Z.eqb_refl.
Qed.

Lemma c_str_chars v : Forall is_byte v -> Forall (fun c => 0 < c < 256) (c_str v).
Proof.
  induction 1 as [|c s Hc _ IH]; cbn [c_str]; [constructor|].
  destruct (Z.eqb_spec c 0); [constructor|]. constructor; [unfold is_byte in Hc; lia|done].
Qed.

Definition original_of (original_props : option (gmap bytes bytes)) (name : bytes) : option bytes :=
  match original_props with Some props => props !! name | None => None end.

(** What was done to the property, and hunks that turn the lines of the old
    value into the new one. *)
Definition diff_section (action orig val name text : bytes) : Prop :=
  exists hs Z,
    text = action ++ cstr ": " ++ name ++ APR_EOL_STR ++
           (hs ≫= render_hunk (cstr "##")
              (APR_EOL_STR ++ SVN_DIFF__NO_NEWLINE_AT_END_OF_PROPERTY ++ APR_EOL_STR)) /\
    apply_hunks 0 0 (lines orig) hs = Some Z /\
    concat Z = val.

(** The text of a property that is not shown as mergeinfo. *)
Definition prop_section (original_value value : option bytes) (name text : bytes) : Prop :=
  match original_value, value with
  | None, None => text = []
  | None, Some val => diff_section (cstr "Added") [] val name text
  | Some orig, None => diff_section (cstr "Deleted") orig [] name text
  | Some orig, Some val => if decide (orig = val) then text = [] else diff_section (cstr "Modified") orig val name text
  end.

Lemma prop_section_unchanged original_value value name :
  unchanged original_value value = true -> prop_section original_value value name [].
Proof.
  destruct original_value as [orig|], value as [val|]; try done. cbn [unchanged prop_section].
  intros E%bool_decide_eq_true. by rewrite decide_True.
Qed.

Lemma prop_section_changed original_value value name text :
  unchanged original_value value = false ->
  diff_section (prop_action original_value value) (default [] original_value) (default [] value) name text ->
  prop_section original_value value name text.
Proof.
  destruct original_value as [orig|], value as [val|]; try done. cbn [unchanged prop_section].
  intros E%bool_decide_eq_false. by rewrite decide_False.
Qed.

(** Mergeinfo that cannot be parsed is shown like any other property. *)
Definition shown_as_text (pretty_print_mergeinfo : bool) (original_value value : option bytes) (name : bytes) : Prop :=
  pretty_print_mergeinfo = true -> name = SVN_PROP_MERGEINFO ->
  exists v, (original_value = Some v \/ value = Some v) /\
    svn_mergeinfo_parse (c_str v) = Err SVN_ERR_MERGEINFO_PARSE_ERROR.

Section Facts.
Context `{HO : HashOrder} (adler32 : Z -> bytes -> Z) (cstring_from_utf8 : bytes -> result bytes).
Context {Cancel : Type} (cancel_func : option (Cancel -> result Cancel)).
Hypothesis Hutf : forall s, ascii s -> cstring_from_utf8 s = Ok s.
Hypothesis Hcancel : forall f c, cancel_func = Some f -> exists c', f c = Ok c'.

Lemma text_diff_spec original_value value context_size outstream cancel_baton :
  Forall is_byte (default [] original_value) -> Forall is_byte (default [] value) ->
  exists hs Z cancel_baton',
    display_text_diff adler32 cstring_from_utf8 original_value value context_size cancel_func outstream cancel_baton =
      Ok (outstream ++ (hs ≫= render_hunk (cstr "##")
            (APR_EOL_STR ++ SVN_DIFF__NO_NEWLINE_AT_END_OF_PROPERTY ++ APR_EOL_STR)), cancel_baton') /\
    apply_hunks 0 0 (lines (default [] original_value)) hs = Some Z /\
    concat Z = default [] value.
Proof using Hutf Hcancel.
  intros Ho Hm. unfold display_text_diff.
  destruct (mem_string_diff_spec adler32 (default [] original_value) (default [] value) zero_options Ho Hm)
    as (diff & E & Hd & _). rewrite E. cbn [mbind result_bind].
  destruct (output_unified_spec cstring_from_utf8 zero_options outstream diff false (Some (cstr "##")) [] []
    (default [] original_value) (default [] value) context_size cancel_func cancel_baton)
    as (hs & Z & c' & Eo & HZ & HS); [done|by apply cstr_ascii|constructor|constructor|done|done|].
  exists hs, Z, c'. split_and!; [by rewrite Eo|done|].
  rewrite !normal_form_exact in HS by done. by rewrite HS, lines_concat.
Qed.

Lemma parse_value_total v :
  Forall is_byte (default [] v) ->
  (exists m, parse_value (c_str <$> v) = Ok m) \/ parse_value (c_str <$> v) = Err SVN_ERR_MERGEINFO_PARSE_ERROR.
Proof.
  destruct v as [v|]; cbn [default fmap option_fmap option_map parse_value]; [|eauto]. intros Hv.
  pose proof (mergeinfo_parse_inv (c_str v)) as H.
  destruct (svn_mergeinfo_parse (c_str v)) as [m|e]; [left; by eexists|right].
  rewrite H; [done|]. by apply c_str_chars.
Qed.

Lemma display_prop_spec original_props pretty_print_mergeinfo context_size propchange outstream cancel_baton :
  let original_value := original_of original_props (prop_name propchange) in
  ascii (prop_name propchange) ->
  Forall is_byte (default [] original_value) -> Forall is_byte (default [] (prop_value propchange)) ->
  shown_as_text pretty_print_mergeinfo original_value (prop_value propchange) (prop_name propchange) ->
  exists text cancel_baton',
    display_prop adler32 cstring_from_utf8 original_props pretty_print_mergeinfo context_size cancel_func propchange
      outstream cancel_baton = Ok (outstream ++ text, cancel_baton') /\
    prop_section original_value (prop_value propchange) (prop_name propchange) text.
Proof using Hutf Hcancel.
  destruct propchange as [name value]. cbn [prop_name prop_value]. intros Hname Ho Hm Hshown.
  unfold display_prop. cbn [prop_name prop_value]. fold (original_of original_props name).
  set (original_value := original_of original_props name) in *. destruct (unchanged original_value value) eqn:Eu.
  { exists [], cancel_baton. rewrite app_nil_r. split; [done|]. by apply prop_section_unchanged. }
  rewrite (printf_spec cstring_from_utf8 Hutf).
  2: { repeat apply ascii_app; [|by apply cstr_ascii|done|apply eol_ascii].
       by destruct original_value, value; apply cstr_ascii. }
  cbn [mbind result_bind]. set (head := prop_action original_value value ++ _).
  destruct (text_diff_spec original_value value context_size (outstream ++ head) cancel_baton Ho Hm)
    as (hs & Z & c' & E & HZ & Hcat).
  match type of E with _ = Ok (_ ++ ?t, _) => exists (head ++ t), c' end. split;
    [|apply prop_section_changed; [exact Eu|]; exists hs, Z; split; [|split; [exact HZ|exact Hcat]]].
  - rewrite (assoc_L (++) outstream head), <- E, strcmp_zero. destruct pretty_print_mergeinfo; [|done]. cbn [andb].
    destruct (bool_decide_reflect (name = SVN_PROP_MERGEINFO)) as [->|Hne]; [|done].
    destruct (Hshown eq_refl eq_refl) as (v & Hv & Hp).
    replace (display_mergeinfo_diff _ _ _ _) with (Err (A := bytes) SVN_ERR_MERGEINFO_PARSE_ERROR); [done|].
    unfold display_mergeinfo_diff. symmetry.
    destruct (parse_value_total original_value Ho) as [[m Em]| ->]; [|done].
    rewrite Em. cbn [mbind result_bind].
    destruct (parse_value_total value Hm) as [[m' Em']| ->]; [|done].
    destruct Hv as [-> | ->]; cbn [fmap option_fmap option_map parse_value] in *; by rewrite Hp in *.
  - unfold head. by rewrite <- !(assoc_L (++)).
Qed.
End Facts.

(** C17: [svn_diff__display_prop_diffs] returns for all changes of properties with
    ASCII names, when mergeinfo is not to be printed prettily or cannot be
    parsed.  It goes through the changes in the order of their names and shows
    each of them in a section of its own: nothing, if the value is the same,
    else whether it was added, deleted or modified and the hunks that turn the
    lines of the old value into the new value. *)
Theorem display_prop_diffs_correct `{HO : HashOrder} adler32 cstring_from_utf8 {Cancel : Type}
    (cancel_func : option (Cancel -> result Cancel)) outstream propchanges original_props pretty_print_mergeinfo
    context_size cancel_baton :
  (forall s, ascii s -> cstring_from_utf8 s = Ok s) ->
  (forall f c, cancel_func = Some f -> exists c', f c = Ok c') ->
  Forall (fun ch =>
    let original_value := original_of original_props (prop_name ch) in
    ascii (prop_name ch) /\ Forall is_byte (default [] original_value) /\
    Forall is_byte (default [] (prop_value ch)) /\
    shown_as_text pretty_print_mergeinfo original_value (prop_value ch) (prop_name ch)) propchanges ->
  exists changes sections cancel_baton',
    svn_diff__display_prop_diffs adler32 cstring_from_utf8 outstream propchanges original_props
      pretty_print_mergeinfo context_size cancel_func cancel_baton
    = Ok (outstream ++ concat sections, cancel_baton') /\
    changes ≡ₚ propchanges /\ StronglySorted propchange_le changes /\
    Forall2 (fun ch text => prop_section (original_of original_props (prop_name ch)) (prop_value ch) (prop_name ch) text)
      changes sections.
Proof.
  intros Hutf Hcancel Hall. unfold svn_diff__display_prop_diffs.
  pose proof (merge_sort_Permutation propchange_le propchanges) as Hperm.
  fold (sort_changes propchanges) in Hperm. rewrite <- Hperm in Hall.
  assert (Hsorted : StronglySorted propchange_le (sort_changes propchanges))
    by (apply StronglySorted_merge_sort; apply _).
  enough (exists sections cancel_baton',
    display_props adler32 cstring_from_utf8 original_props pretty_print_mergeinfo context_size cancel_func
      (sort_changes propchanges) outstream cancel_baton = Ok (outstream ++ concat sections, cancel_baton') /\
    Forall2 (fun ch text => prop_section (original_of original_props (prop_name ch)) (prop_value ch) (prop_name ch) text)
      (sort_changes propchanges) sections) as (sections & c' & E & HF) by (by exists (sort_changes propchanges), sections, c').
  clear Hsorted Hperm. revert outstream cancel_baton.
  induction Hall as [|ch changes (Hn & Ho & Hm & Hs) _ IH]; intros outstream cancel_baton; cbn [display_props].
  { exists [], cancel_baton. rewrite app_nil_r. by split. }
  destruct (display_prop_spec adler32 cstring_from_utf8 cancel_func Hutf Hcancel original_props pretty_print_mergeinfo
    context_size ch outstream cancel_baton Hn Ho Hm Hs) as (text & c' & -> & Hsec).
  cbn [mbind result_bind]. destruct (IH (outstream ++ text) c') as (sections & c'' & -> & HF).
  exists (text :: sections), c''. cbn [concat]. rewrite (assoc_L (++)). split; [done|]. by constructor.
Qed.

Definition sample_props : gmap bytes bytes :=
  <[cstr "color" := cstr "red"]> (<[cstr "year" := cstr "1999"]> (<[SVN_PROP_MERGEINFO := cstr "/trunk:1-3"]> ∅)).

Definition sample_changes : list svn_prop_t :=
  [mk_prop (cstr "year") None; mk_prop (cstr "color") (Some (cstr "blue")); mk_prop (cstr "size") (Some (cstr "3"))].

#[local] Existing Instance map_order.

Lemma display_prop_diffs_correct_witness : exists changes sections cancel_baton',
  svn_diff__display_prop_diffs rfc_adler32 Ok [] sample_changes (Some sample_props) true 3
    (@None (unit -> result unit)) () = Ok (concat sections, cancel_baton') /\
  changes ≡ₚ sample_changes.
Proof.
  destruct (display_prop_diffs_correct rfc_adler32 Ok (@None (unit -> result unit)) [] sample_changes
    (Some sample_props) true 3 ()) as (changes & sections & c' & E & Hp & _).
  - done.
  - discriminate.
  - repeat constructor; try by_evaluation; intros _ Hname; discriminate Hname.
  - exists changes, sections, c'. split; [exact E|exact Hp].
Defined.

Definition text_of (ls : list string) : bytes := concat (map (fun l => cstr l ++ [LF]) ls).

Example sample_prop_diffs :
  svn_diff__display_prop_diffs rfc_adler32 Ok [] (mk_prop SVN_PROP_MERGEINFO (Some (cstr "/trunk:2-5")) :: sample_changes)
    (Some sample_props) true 3 (@None (unit -> result unit)) () =
  Ok (text_of ["Modified: color"; "## -1 +1 ##"; "-red"; "\ No newline at end of property"; "+blue";
               "\ No newline at end of property"; "Added: size"; "## -0,0 +1 ##"; "+3";
               "\ No newline at end of property"; "Modified: svn:mergeinfo"; "## -0,1 +0,1 ##";
               "   Reverse-merged /trunk:r1"; "   Merged /trunk:r4-5"; "Deleted: year"; "## -1 +0,0 ##"; "-1999";
               "\ No newline at end of property"]%string, ()).
Proof. vm_compute. reflexivity. Qed.
