(* ===== verification/Diff3.v ===== *)
(** * Differences of three and four sources (libsvn_diff/diff3.c, diff4.c)

    Two versions are compared with the original they come from.  The matches of
    the two comparisons are walked together; where both versions differ from
    the original, they are compared with each other.  With a fourth source, the
    ancestor of the original and the modified version, the differences from the
    original to the latest version are adjusted to the modified one. *)

From S2P Require Import Prelude DiffNormalize DiffToken DiffLcs Diff DiffMemory.

(** ** Conflicts *)

(** [while (start_position->offset < start) start_position = start_position->next] *)
Fixpoint seek_loop (fuel : nat) (store : position_store) (start_position : option nat) (start : Z)
    : result (option nat) :=
  p ← get_position store start_position;
  if offset p <? start then
    match fuel with
    | O => Err OUT_OF_FUEL
    | S f => seek_loop f store (pos_next p) start
    end
  else Ok start_position.

(** The loop over equal tokens; [fuel] is [common_length]. *)
Fixpoint equal_loop (fuel : nat) (store : position_store) (pos0 pos1 : option nat) (common_length : Z)
    : result (option nat * option nat * Z) :=
  if 0 <? common_length then
    p0 ← get_position store pos0;
    p1 ← get_position store pos1;
    if token_index p0 =? token_index p1 then
      match fuel with
      | O => Err OUT_OF_FUEL
      | S f => equal_loop f store (pos_next p0) (pos_next p1) (common_length - 1)
      end
    else Ok (pos0, pos1, common_length)
  else Ok (pos0, pos1, common_length).

(** [while (--length) position = position->next] *)
Fixpoint walk_loop (fuel : nat) (store : position_store) (position : option nat) (length : Z) : result (option nat) :=
  let length := length - 1 in
  if length =? 0 then Ok position
  else
    p ← get_position store position;
    match fuel with
    | O => Err OUT_OF_FUEL
    | S f => walk_loop f store (pos_next p) length
    end.

(** A ring of [len] positions from [start] on; the results are its last
    position and the position behind it. *)
Definition cut_ring (store : position_store) (start : option nat) (len : Z)
    : result (position_store * option nat * option nat) :=
  if len =? 0 then Ok (store, None, start)
  else
    position ← walk_loop (length store) store start len;
    p ← get_position store position;
    store ← set_next store position start;
    Ok (store, position, pos_next p).

Definition set_lcs_positions (node : svn_diff__lcs_t) (pos0 pos1 : option nat) : svn_diff__lcs_t :=
  mk_lcs (lcs_next node) pos0 pos1 (lcs_length node) (refcount node).

(** The fix for the end of matches, if one of the sequences is empty. *)
Definition fix_eof (store : position_store) (ns : lcs_store) (lcs position_list1 position_list2 : option nat)
    : result lcs_store :=
  match lcs with
  | None => Err C_UNDEFINED
  | Some a =>
      node ← get_lcs ns lcs;
      p0 ← get_position store (lcs_position0 node);
      let pos0 := if offset p0 =? 1 then position_list1 else lcs_position0 node in
      p1 ← get_position store (lcs_position1 node);
      let pos1 := if offset p1 =? 1 then position_list2 else lcs_position1 node in
      Ok (<[a := set_lcs_positions node pos0 pos1]> ns)
  end.

Definition set_type (hunk : svn_diff_t) (type : svn_diff__type_e) (resolved : list svn_diff_t) : svn_diff_t :=
  mk_diff type (original_start hunk) (original_length hunk) (modified_start hunk) (modified_length hunk)
    (latest_start hunk) (latest_length hunk) resolved.

Definition part_of (hunk : svn_diff_t) (type : svn_diff__type_e) (modified_start modified_length latest_start
    latest_length : Z) : svn_diff_t :=
  mk_diff type (original_start hunk) (original_length hunk) modified_start modified_length latest_start latest_length [].

(** Produce the resolved diff. *)
Fixpoint resolved_loop (fuel : nat) (store : position_store) (ns : lcs_store) (hunk : svn_diff_t)
    (lcs : option nat) (modified_start latest_start : Z) : result (list svn_diff_t) :=
  match fuel with
  | O => Err OUT_OF_FUEL
  | S f =>
      node ← get_lcs ns lcs;
      p0 ← get_position store (lcs_position0 node);
      p1 ← get_position store (lcs_position1 node);
      let conflict :=
        if (modified_start <? offset p0) || (latest_start <? offset p1) then
          [part_of hunk svn_diff__type_conflict (modified_start - 1) (offset p0 - modified_start)
             (latest_start - 1) (offset p1 - latest_start)]
        else [] in
      if lcs_length node =? 0 then Ok conflict
      else
        let common := part_of hunk svn_diff__type_diff_common (offset p0 - 1) (lcs_length node)
                        (offset p1 - 1) (lcs_length node) in
        diff ← resolved_loop f store ns hunk (lcs_next node) (offset p0 + lcs_length node)
                 (offset p1 + lcs_length node);
        Ok (conflict ++ common :: diff)
  end.

(** The hunk with its type and its parts, and where the two lists continue.
    The node for equal tokens at the start has no count of references, nobody
    reads it. *)
Definition svn_diff__resolve_conflict (store : position_store) (ns : lcs_store) (hunk : svn_diff_t)
    (position_list1 position_list2 : option nat) (num_tokens : Z)
    : result (position_store * lcs_store * svn_diff_t * option nat * option nat) :=
  let len0 := modified_length hunk in
  let len1 := latest_length hunk in
  start0 ← seek_loop (length store) store position_list1 (modified_start hunk + 1);
  start1 ← seek_loop (length store) store position_list2 (latest_start hunk + 1);
  '(pos0, pos1, common_length) ← equal_loop (Z.to_nat (Z.min len0 len1)) store start0 start1 (Z.min len0 len1);
  if (common_length =? 0) && (len0 =? len1) then
    Ok (store, ns, set_type hunk svn_diff__type_diff_common [], pos0, pos1)
  else
    let common_length := Z.min len0 len1 - common_length in
    let first := length ns in
    let ns := if 0 <? common_length then ns ++ [mk_lcs None start0 start1 common_length 0] else ns in
    p0 ← get_position store start0;
    p1 ← get_position store start1;
    '(store, ring0, position_list1) ← cut_ring store pos0 (len0 - common_length);
    '(store, ring1, position_list2) ← cut_ring store pos1 (len1 - common_length);
    token_counts0 ← svn_diff__get_token_counts store ring0 num_tokens;
    token_counts1 ← svn_diff__get_token_counts store ring1 num_tokens;
    '(store, ns, lcs) ← svn_diff__lcs store ns ring0 ring1 token_counts0 token_counts1 num_tokens 0 0;
    ns ← fix_eof store ns lcs position_list1 position_list2;
    '(ns, lcs) ←
      (if 0 <? common_length then
         node ← get_lcs ns (Some first); Ok (<[first := set_lcs_next node lcs]> ns, Some first)
       else Ok (ns, lcs));
    resolved ← resolved_loop (length ns) store ns hunk lcs (offset p0) (offset p1);
    Ok (store, ns, set_type hunk svn_diff__type_conflict resolved, position_list1, position_list2).

(** ** Walking along both lists of matches *)

Section Walk.
Variables (store : position_store) (ns : lcs_store).

(** The positions and the length of a match. *)
Definition read_match (lcs : option nat) : result (Z * Z * Z) :=
  node ← get_lcs ns lcs;
  p0 ← get_position store (lcs_position0 node);
  p1 ← get_position store (lcs_position1 node);
  Ok (offset p0, offset p1, lcs_length node).

Definition next_match (lcs : option nat) : result (option nat) :=
  node ← get_lcs ns lcs; Ok (lcs_next node).

Fixpoint skip_before (fuel : nat) (lcs : option nat) (original_sync : Z) : result (option nat) :=
  '(o, _, len) ← read_match lcs;
  if o + len <? original_sync then
    match fuel with
    | O => Err OUT_OF_FUEL
    | S f => next ← next_match lcs; skip_before f next original_sync
    end
  else Ok lcs.

(** If the sync point is the end, a match that does not reach the end of both
    sources is skipped. *)
Definition skip_to_eof (other lcs : option nat) (original_sync : Z) : result (option nat) :=
  '(_, _, other_len) ← read_match other;
  '(o, m, len) ← read_match lcs;
  if (other_len =? 0) && (0 <? len) && (o + len =? original_sync) then
    next ← next_match lcs;
    '(_, next_m, _) ← read_match next;
    Ok (if negb (m + len =? next_m) then next else lcs)
  else Ok lcs.

Fixpoint find_sync (fuel : nat) (lcs_om lcs_ol : option nat) : result (Z * option nat * option nat) :=
  match fuel with
  | O => Err OUT_OF_FUEL
  | S f =>
      '(om_o, _, _) ← read_match lcs_om;
      '(ol_o, _, _) ← read_match lcs_ol;
      if ol_o <? om_o then
        lcs_ol ← skip_before (length ns) lcs_ol om_o;
        lcs_ol ← skip_to_eof lcs_om lcs_ol om_o;
        '(ol_o, _, _) ← read_match lcs_ol;
        if ol_o <=? om_o then Ok (om_o, lcs_om, lcs_ol) else find_sync f lcs_om lcs_ol
      else
        lcs_om ← skip_before (length ns) lcs_om ol_o;
        lcs_om ← skip_to_eof lcs_ol lcs_om ol_o;
        '(om_o, _, _) ← read_match lcs_om;
        if om_o <=? ol_o then Ok (ol_o, lcs_om, lcs_ol) else find_sync f lcs_om lcs_ol
  end.

(** The last loops: only matches beyond the range that was processed. *)
Fixpoint skip_processed (fuel : nat) (lcs : option nat) (original_start : Z) : result (option nat) :=
  '(o, _, len) ← read_match lcs;
  if (o + len <=? original_start) && (0 <? len) then
    match fuel with
    | O => Err OUT_OF_FUEL
    | S f => next ← next_match lcs; skip_processed f next original_start
    end
  else Ok lcs.

(** The position of a match in its second source, if it is behind
    [position_list]. *)
Definition move_list (position_list lcs : option nat) : result (option nat) :=
  node ← get_lcs ns lcs;
  p ← get_position store position_list;
  p1 ← get_position store (lcs_position1 node);
  Ok (if offset p <? offset p1 then lcs_position1 node else position_list).
End Walk.

(** ** The merged difference *)

Record diff3_state := mk_diff3 {
  d3_store : position_store;
  d3_nodes : lcs_store;
  d3_list1 : option nat;
  d3_list2 : option nat;
  d3_om : option nat;
  d3_ol : option nat;
  d3_original_start : Z;
  d3_modified_start : Z;
  d3_latest_start : Z
}.

(** The difference up to the sync point, if there is one; the lists move
    behind a conflict. *)
Definition diff3_hunk (num_tokens : Z) (s : diff3_state) (original_sync modified_sync latest_sync : Z)
    (is_modified is_latest : bool)
    : result (position_store * lcs_store * option nat * option nat * list svn_diff_t) :=
  if is_modified || is_latest then
    let hunk type := mk_diff type (d3_original_start s - 1) (original_sync - d3_original_start s)
                       (d3_modified_start s - 1) (modified_sync - d3_modified_start s)
                       (d3_latest_start s - 1) (latest_sync - d3_latest_start s) [] in
    if is_modified && is_latest then
      '(store, ns, resolved, list1, list2) ←
        svn_diff__resolve_conflict (d3_store s) (d3_nodes s) (hunk svn_diff__type_conflict) (d3_list1 s) (d3_list2 s)
          num_tokens;
      Ok (store, ns, list1, list2, [resolved])
    else
      Ok (d3_store s, d3_nodes s, d3_list1 s, d3_list2 s,
          [hunk (if is_modified then svn_diff__type_diff_modified else svn_diff__type_diff_latest)])
  else Ok (d3_store s, d3_nodes s, d3_list1 s, d3_list2 s, []).

Definition diff3_common (original_sync modified_sync latest_sync common_length : Z) : list svn_diff_t :=
  if 0 <? common_length then
    [mk_diff svn_diff__type_common (original_sync - 1) common_length (modified_sync - 1) common_length
       (latest_sync - 1) common_length []]
  else [].

(** One round of the loop: the chunks it produces, and the state for the next
    round unless this was the last one. *)
Definition diff3_step (num_tokens : Z) (s : diff3_state) : result (list svn_diff_t * option diff3_state) :=
  '(original_sync, lcs_om, lcs_ol) ←
    find_sync (d3_store s) (d3_nodes s) (S (length (d3_nodes s))) (d3_om s) (d3_ol s);
  '(om_o, om_m, om_len) ← read_match (d3_store s) (d3_nodes s) lcs_om;
  '(ol_o, ol_l, ol_len) ← read_match (d3_store s) (d3_nodes s) lcs_ol;
  let modified_sync := om_m + (original_sync - om_o) in
  let latest_sync := ol_l + (original_sync - ol_o) in
  let is_modified := (0 <? om_o - d3_original_start s) || (0 <? om_m - d3_modified_start s) in
  let is_latest := (0 <? ol_o - d3_original_start s) || (0 <? ol_l - d3_latest_start s) in
  '(store, ns, list1, list2, changed) ←
    diff3_hunk num_tokens s original_sync modified_sync latest_sync is_modified is_latest;
  if (om_len =? 0) || (ol_len =? 0) then Ok (changed, None)
  else
    let common_length := Z.min (om_len - (original_sync - om_o)) (ol_len - (original_sync - ol_o)) in
    let common := diff3_common original_sync modified_sync latest_sync common_length in
    let original_start := original_sync + common_length in
    list1 ← move_list store ns list1 lcs_om;
    list2 ← move_list store ns list2 lcs_ol;
    lcs_om ← skip_processed store ns (length ns) lcs_om original_start;
    lcs_ol ← skip_processed store ns (length ns) lcs_ol original_start;
    Ok (changed ++ common,
        Some (mk_diff3 store ns list1 list2 lcs_om lcs_ol original_start (modified_sync + common_length)
                (latest_sync + common_length))).

Fixpoint diff3_loop (fuel : nat) (num_tokens : Z) (s : diff3_state) : result (list svn_diff_t) :=
  match fuel with
  | O => Err OUT_OF_FUEL
  | S f =>
      '(chunks, next) ← diff3_step num_tokens s;
      match next with
      | None => Ok chunks
      | Some s => diff ← diff3_loop f num_tokens s; Ok (chunks ++ diff)
      end
  end.

(** A list of positions from the first one on, with a sentinel behind the last
    one; the token of the sentinel is never set. *)
Definition open_list (store : position_store) (position_list : option nat) (prefix_lines unset : Z)
    : result (position_store * option nat) :=
  match position_list with
  | Some tail =>
      '(store, sentinel) ← add_sentinel store tail unset;
      first ← next_of store (Some sentinel);
      Ok (store, first)
  | None => Ok (store ++ [mk_position None unset (prefix_lines + 1)], Some (length store))
  end.

Section Diff3.
Context {Baton Token : Type} (vtable : svn_diff_fns2_t Baton Token).
(** What the tokens of the two sentinels happen to be. *)
Context (unset1 unset2 : Z).

(** [fuel] is more than the number of tokens of each source; the rounds of the
    loop are bounded by the number of matches. *)
Definition svn_diff_diff3_2 (fuel : nat) (diff_baton : Baton) : result (list svn_diff_t * Baton) :=
  '(diff_baton, prefix_lines, suffix_lines) ←
    datasources_open vtable diff_baton
      [svn_diff_datasource_original; svn_diff_datasource_modified; svn_diff_datasource_latest];
  '(store, tree, diff_baton, list0) ←
    svn_diff__get_tokens vtable fuel [] svn_diff__tree_create diff_baton svn_diff_datasource_original
      prefix_lines;
  '(store, tree, diff_baton, list1) ←
    svn_diff__get_tokens vtable fuel store tree diff_baton svn_diff_datasource_modified prefix_lines;
  '(store, tree, diff_baton, list2) ←
    svn_diff__get_tokens vtable fuel store tree diff_baton svn_diff_datasource_latest prefix_lines;
  let num_tokens := svn_diff__get_node_count tree in
  let diff_baton := discard_all vtable diff_baton in
  token_counts0 ← svn_diff__get_token_counts store list0 num_tokens;
  token_counts1 ← svn_diff__get_token_counts store list1 num_tokens;
  token_counts2 ← svn_diff__get_token_counts store list2 num_tokens;
  '(store, ns, lcs_om) ← svn_diff__lcs store [] list0 list1 token_counts0 token_counts1
                          num_tokens prefix_lines suffix_lines;
  '(store, ns, lcs_ol) ← svn_diff__lcs store ns list0 list2 token_counts0 token_counts2
                          num_tokens prefix_lines suffix_lines;
  '(store, list1) ← open_list store list1 prefix_lines unset1;
  '(store, list2) ← open_list store list2 prefix_lines unset2;
  diff ← diff3_loop (S (length ns)) num_tokens (mk_diff3 store ns list1 list2 lcs_om lcs_ol 1 1 1);
  Ok (diff, diff_baton).
End Diff3.

(** ** Four sources (diff4.c) *)

(** One difference, after the adjustment by another one. *)
Definition adjust_hunk (adjust hunk : svn_diff_t) : svn_diff_t :=
  let range_start := modified_start adjust in
  let range_end := range_start + modified_length adjust in
  let adjustment := original_length adjust - modified_length adjust in
  let changed type modified_start modified_length :=
    mk_diff type (original_start hunk) (original_length hunk) modified_start modified_length (latest_start hunk)
      (latest_length hunk) (resolved_diff hunk) in
  if adjustment =? 0 then hunk
  else if range_end <=? modified_start hunk then
    changed (diff_type hunk) (modified_start hunk + adjustment) (modified_length hunk)
  else if modified_start hunk + modified_length hunk <=? range_start then hunk
  else if bool_decide (diff_type hunk = svn_diff__type_diff_modified) then
    changed (diff_type hunk) (modified_start hunk) (modified_length hunk + adjustment)
  else
    changed (if adjustment <? 0 then svn_diff__type_conflict else diff_type hunk) (modified_start hunk)
      (modified_length hunk - adjustment).

Definition adjust_diff (diff adjust : list svn_diff_t) : list svn_diff_t :=
  foldl (fun diff adjust => adjust_hunk adjust <$> diff) diff adjust.

(** From original and latest to original, modified and latest, the modified
    source being the original. *)
Definition as_diff3 (hunk : svn_diff_t) : svn_diff_t :=
  mk_diff (if bool_decide (diff_type hunk = svn_diff__type_diff_modified) then svn_diff__type_diff_latest
           else svn_diff__type_diff_modified)
    (original_start hunk) (original_length hunk) (original_start hunk) (original_length hunk)
    (modified_start hunk) (modified_length hunk) (resolved_diff hunk).

(** The last loop of [svn_diff_diff4_2]. *)
Fixpoint resolve_conflicts (store : position_store) (ns : lcs_store) (list1 list2 : option nat) (num_tokens : Z)
    (diff : list svn_diff_t) : result (list svn_diff_t) :=
  match diff with
  | [] => Ok []
  | hunk :: diff =>
      if bool_decide (diff_type hunk = svn_diff__type_conflict) then
        '(store, ns, hunk, list1, list2) ← svn_diff__resolve_conflict store ns hunk list1 list2 num_tokens;
        diff ← resolve_conflicts store ns list1 list2 num_tokens diff;
        Ok (hunk :: diff)
      else
        diff ← resolve_conflicts store ns list1 list2 num_tokens diff;
        Ok (hunk :: diff)
  end.

Section Diff4.
Context {Baton Token : Type} (vtable : svn_diff_fns2_t Baton Token).

(** The position lists that are passed on are those that [svn_diff__get_tokens]
    returns, which point to the last position. *)
Definition svn_diff_diff4_2 (fuel : nat) (diff_baton : Baton) : result (list svn_diff_t * Baton) :=
  '(diff_baton, prefix_lines, suffix_lines) ←
    datasources_open vtable diff_baton
      [svn_diff_datasource_original; svn_diff_datasource_modified; svn_diff_datasource_latest;
       svn_diff_datasource_ancestor];
  '(store, tree, diff_baton, list0) ←
    svn_diff__get_tokens vtable fuel [] svn_diff__tree_create diff_baton svn_diff_datasource_original prefix_lines;
  '(store, tree, diff_baton, list1) ←
    svn_diff__get_tokens vtable fuel store tree diff_baton svn_diff_datasource_modified prefix_lines;
  '(store, tree, diff_baton, list2) ←
    svn_diff__get_tokens vtable fuel store tree diff_baton svn_diff_datasource_latest prefix_lines;
  '(store, tree, diff_baton, list3) ←
    svn_diff__get_tokens vtable fuel store tree diff_baton svn_diff_datasource_ancestor prefix_lines;
  let num_tokens := svn_diff__get_node_count tree in
  let diff_baton := discard_all vtable diff_baton in
  token_counts0 ← svn_diff__get_token_counts store list0 num_tokens;
  token_counts1 ← svn_diff__get_token_counts store list1 num_tokens;
  token_counts2 ← svn_diff__get_token_counts store list2 num_tokens;
  token_counts3 ← svn_diff__get_token_counts store list3 num_tokens;
  '(store, ns, lcs_ol) ← svn_diff__lcs store [] list0 list2 token_counts0 token_counts2 num_tokens prefix_lines suffix_lines;
  diff_ol ← svn_diff__diff store ns lcs_ol 1 1 true;
  let diff_ol := as_diff3 <$> diff_ol in
  '(store, ns, lcs_adjust) ← svn_diff__lcs store ns list3 list2 token_counts3 token_counts2 num_tokens
                               prefix_lines suffix_lines;
  diff_adjust ← svn_diff__diff store ns lcs_adjust 1 1 false;
  let diff_ol := adjust_diff diff_ol diff_adjust in
  '(store, ns, lcs_adjust) ← svn_diff__lcs store ns list1 list3 token_counts1 token_counts3 num_tokens
                               prefix_lines suffix_lines;
  diff_adjust ← svn_diff__diff store ns lcs_adjust 1 1 false;
  let diff_ol := adjust_diff diff_ol diff_adjust in
  diff ← resolve_conflicts store ns list1 list2 num_tokens diff_ol;
  Ok (diff, diff_baton).
End Diff4.

(** ** Three and four strings (diff_memory.c) *)

Definition svn_diff_mem_string_diff3 (adler32 : Z -> bytes -> Z) (unset1 unset2 : Z)
    (original modified latest : bytes) (options : svn_diff_file_options_t) : result (list svn_diff_t) :=
  source0 ← fill_source_tokens original;
  source1 ← fill_source_tokens modified;
  source2 ← fill_source_tokens latest;
  let sources := [source0; source1; source2] in
  let baton := mk_mem_baton sources (alloc_normalization_bufs sources) options in
  '(diff, _) ← svn_diff_diff3_2 (svn_diff__mem_vtable adler32) unset1 unset2
                 (S (length original + length modified + length latest)) baton;
  Ok diff.

Definition svn_diff_mem_string_diff4 (adler32 : Z -> bytes -> Z)
    (original modified latest ancestor : bytes) (options : svn_diff_file_options_t) : result (list svn_diff_t) :=
  source0 ← fill_source_tokens original;
  source1 ← fill_source_tokens modified;
  source2 ← fill_source_tokens latest;
  source3 ← fill_source_tokens ancestor;
  let sources := [source0; source1; source2; source3] in
  let baton := mk_mem_baton sources (alloc_normalization_bufs sources) options in
  '(diff, _) ← svn_diff_diff4_2 (svn_diff__mem_vtable adler32)
                 (S (length original + length modified + length latest + length ancestor)) baton;
  Ok diff.
