(* ===== verification/Diff3Facts.v ===== *)
(** * Three-way differences

    What a correct merged difference of three lists is ([is_diff3]), and that
    [svn_diff_diff3_2] makes one: conflicts are resolved within the parts of the
    position lists that are left, and the two lists of matches are walked
    together without a gap. *)

From S2P Require Import Prelude Subsequence DiffToken DiffTokenFacts DiffLcs DiffHeap DiffSnakeFacts.
From S2P Require Import DiffLcsFacts.
From S2P Require Import Diff DiffFacts DiffMemory DiffMemoryFacts Diff3.

#[local] Coercion Z.of_nat : nat >-> Z.

(** ** Lists of positions *)

(** The addresses [ps] of positions with the tokens [T], the first at the
    offset [o], and one more position behind them. *)
Record run (store : position_store) (ps : list nat) (T : bytes) (o : Z) : Prop := {
  run_length : length ps = S (length T);
  run_nodup : NoDup ps;
  run_position : forall i a t, ps !! i = Some a -> T !! i = Some t ->
    store !! a = Some (mk_position (ps !! S i) t (o + i));
  run_end : exists a q, ps !! length T = Some a /\ store !! a = Some q /\ offset q = o + length T
}.

Lemma get_position_lookup store a q : store !! a = Some q -> get_position store (Some a) = Ok q.
Proof. intros H. unfold get_position. cbn. by rewrite H. Qed.

Lemma run_offset store ps T o i : run store ps T o -> (i <= length T)%nat ->
  exists a q, ps !! i = Some a /\ get_position store (ps !! i) = Ok q /\ offset q = o + i.
Proof.
  intros Hr Hi. destruct (decide (i = length T)) as [->|Hne].
  - destruct (run_end _ _ _ _ Hr) as (a & q & Ha & Hq & Ho). exists a, q. rewrite Ha.
    split_and!; [done|by apply get_position_lookup|done].
  - destruct (lookup_lt_is_Some_2 ps i) as [a Ha]; [rewrite (run_length _ _ _ _ Hr); lia|].
    destruct (lookup_lt_is_Some_2 T i) as [t Ht]; [lia|]. pose proof (run_position _ _ _ _ Hr _ _ _ Ha Ht) as Hp.
    exists a. eexists. rewrite Ha. split_and!; [done|by apply get_position_lookup|done].
Qed.

Lemma run_get store ps T o i t : run store ps T o -> T !! i = Some t ->
  get_position store (ps !! i) = Ok (mk_position (ps !! S i) t (o + i)).
Proof.
  intros Hr Ht. pose proof (lookup_lt_Some _ _ _ Ht).
  destruct (lookup_lt_is_Some_2 ps i) as [a Ha]; [rewrite (run_length _ _ _ _ Hr); lia|]. rewrite Ha.
  apply get_position_lookup. by apply (run_position _ _ _ _ Hr).
Qed.

Lemma run_bound store ps T o : run store ps T o -> Forall (fun a => (a < length store)%nat) ps.
Proof.
  intros Hr. apply Forall_forall. intros a [i Hi]%list_elem_of_lookup.
  pose proof (lookup_lt_Some _ _ _ Hi) as Hl. rewrite (run_length _ _ _ _ Hr) in Hl.
  destruct (run_offset _ _ _ _ i Hr) as (b & q & Hb & Hg & _); [lia|]. rewrite Hi in Hb. injection Hb as <-.
  rewrite Hi in Hg. unfold get_position in Hg. cbn in Hg.
  destruct (store !! a) eqn:E; [by eapply lookup_lt_Some|done].
Qed.

Lemma run_fits store ps T o : run store ps T o -> (length T < length store)%nat.
Proof.
  intros Hr. pose proof (NoDup_bound_length ps (length store) (run_nodup _ _ _ _ Hr) (run_bound _ _ _ _ Hr)) as H.
  rewrite (run_length _ _ _ _ Hr) in H. lia.
Qed.

Lemma run_store store store' ps T o : (forall a, a ∈ ps -> store' !! a = store !! a) ->
  run store ps T o -> run store' ps T o.
Proof.
  intros H [Hl Hd Hp (a & q & Ha & Hq & Ho)]. split; [done..| |].
  - intros i b t Hb Ht. rewrite H by by eapply list_elem_of_lookup_2. by apply Hp.
  - exists a, q. rewrite H by by eapply list_elem_of_lookup_2. done.
Qed.

Lemma run_prefix store store' ps T o : store `prefix_of` store' -> run store ps T o -> run store' ps T o.
Proof.
  intros [k ->] Hr. pose proof (run_bound _ _ _ _ Hr) as Hb. rewrite Forall_forall in Hb.
  eapply run_store; [|exact Hr]. intros a Ha. apply lookup_app_l. by apply Hb.
Qed.

Lemma run_drop store ps T o n : run store ps T o -> (n <= length T)%nat -> run store (drop n ps) (drop n T) (o + n).
Proof.
  intros [Hl Hd Hp (a & q & Ha & Hq & Ho)] Hn. split.
  - rewrite !length_drop. lia.
  - rewrite <- (take_drop n ps) in Hd. by apply NoDup_app in Hd as (_ & _ & Hd).
  - intros i b t Hb Ht. rewrite lookup_drop in Hb. rewrite lookup_drop in Ht. rewrite (Hp _ _ _ Hb Ht), lookup_drop, Nat.add_succ_r.
    f_equal. f_equal. lia.
  - exists a, q. rewrite lookup_drop, !length_drop. replace (n + (length T - n))%nat with (length T) by lia.
    split_and!; [done|done|lia].
Qed.

(** ** The loops over positions *)

Lemma seek_loop_spec store ps T o x : forall fuel i, run store ps T o -> (x <= length T)%nat -> (i <= x)%nat ->
  (x - i <= fuel)%nat -> seek_loop fuel store (ps !! i) (o + x) = Ok (ps !! x).
Proof.
  induction fuel as [|f IH]; intros i Hr Hx Hi Hf; destruct (run_offset _ _ _ _ i Hr) as (a & q & Ha & Hg & Ho); [lia| |lia|];
    cbn [seek_loop]; rewrite Hg; cbn [mbind result_bind]; rewrite Ho.
  - replace i with x by lia. by rewrite (proj2 (Z.ltb_ge _ _)) by lia.
  - destruct (Z.ltb_spec (o + i) (o + x)); [|by replace i with x by lia].
    destruct (lookup_lt_is_Some_2 T i) as [t Ht]; [lia|].
    rewrite (run_get _ _ _ _ _ _ Hr Ht) in Hg. injection Hg as <-. cbn [pos_next]. apply IH; [done|lia..].
Qed.

Lemma equal_loop_spec store ps0 T0 o0 ps1 T1 o1 : run store ps0 T0 o0 -> run store ps1 T1 o1 ->
  forall n i, (i + n <= length T0)%nat -> (i + n <= length T1)%nat ->
  exists e, equal_loop n store (ps0 !! i) (ps1 !! i) n = Ok (ps0 !! (i + e)%nat, ps1 !! (i + e)%nat, (n - e)%nat : Z) /\
    (e <= n)%nat /\ take e (drop i T0) = take e (drop i T1) /\
    ((e < n)%nat -> T0 !! (i + e)%nat <> T1 !! (i + e)%nat).
Proof.
  intros Hr0 Hr1. induction n as [|n IH]; intros i H0 H1.
  - exists 0%nat. rewrite Nat.add_0_r. split_and!; [done|lia|done|lia].
  - destruct (lookup_lt_is_Some_2 T0 i) as [t Ht]; [lia|]. destruct (lookup_lt_is_Some_2 T1 i) as [u Hu]; [lia|].
    cbn [equal_loop]. rewrite (proj2 (Z.ltb_lt 0 _)) by lia.
    rewrite (run_get _ _ _ _ _ _ Hr0 Ht), (run_get _ _ _ _ _ _ Hr1 Hu). cbn [mbind result_bind token_index pos_next].
    destruct (Z.eqb_spec t u) as [<-|Hne].
    + replace (S n - 1) with (n : Z) by lia. destruct (IH (S i)) as (e & -> & He & Heq & Hd); [lia..|].
      exists (S e). rewrite !Nat.add_succ_r. split_and!; [done|lia| |intros; apply Hd; lia].
      rewrite (lookup_drop_cons _ _ _ Ht), (lookup_drop_cons _ _ _ Hu). simpl. by f_equal.
    + exists 0%nat. rewrite Nat.add_0_r. split_and!; [done|lia|done|]. rewrite Ht, Hu. congruence.
Qed.

Lemma walk_loop_spec store ps T o : run store ps T o -> forall fuel i n, (i + S n <= S (length T))%nat -> (n <= fuel)%nat ->
  walk_loop fuel store (ps !! i) (S n) = Ok (ps !! (i + n)%nat).
Proof.
  intros Hr. induction fuel as [|f IH]; intros i n Hi Hn; cbn [walk_loop].
  - replace n with 0%nat by lia. by rewrite Nat.add_0_r.
  - destruct (Z.eqb_spec (S n - 1) 0) as [E|E].
    + replace n with 0%nat by lia. by rewrite Nat.add_0_r.
    + destruct n as [|n]; [lia|]. destruct (lookup_lt_is_Some_2 T i) as [t Ht]; [lia|].
      rewrite (run_get _ _ _ _ _ _ Hr Ht). cbn [mbind result_bind pos_next].
      replace (S (S n) - 1) with (S n : Z) by lia. rewrite IH by lia. by rewrite Nat.add_succ_r.
Qed.

(** Positions may get other successors, but stay where they are. *)
Definition offsets_kept (store store' : position_store) : Prop :=
  forall a q, store !! a = Some q -> exists q', store' !! a = Some q' /\ offset q' = offset q.

Lemma offsets_kept_prefix store store' : store `prefix_of` store' -> offsets_kept store store'.
Proof. intros Hp a q Hq. exists q. split; [by eapply prefix_lookup_Some|done]. Qed.

Lemma offsets_kept_trans s1 s2 s3 : offsets_kept s1 s2 -> offsets_kept s2 s3 -> offsets_kept s1 s3.
Proof. intros H1 H2 a q (q' & Hq' & <-)%H1. apply H2 in Hq' as (q2 & ? & ?). by exists q2. Qed.

Lemma offsets_kept_get store store' p q : offsets_kept store store' -> get_position store p = Ok q ->
  exists q', get_position store' p = Ok q' /\ offset q' = offset q.
Proof.
  intros H. unfold get_position. destruct p as [a|]; cbn; [|done]. destruct (store !! a) as [q0|] eqn:E; [|done].
  intros [= <-]. destruct (H a q0 E) as (q' & -> & Ho). by exists q'.
Qed.

(** The first [n] positions become a ring. *)
Lemma cut_ring_spec store ps T o (n : nat) : run store ps T o -> (n <= length T)%nat ->
  exists store', cut_ring store (ps !! 0%nat) n = Ok (store', last (take n ps), ps !! n) /\
    token_ring store' (take n ps) (take n T) o /\ run store' (drop n ps) (drop n T) (o + n) /\
    length store' = length store /\ (forall a, a ∉ take n ps -> store' !! a = store !! a) /\ offsets_kept store store'.
Proof.
  intros Hr Hn. unfold cut_ring. destruct (Z.eqb_spec n 0) as [E|E].
  { replace n with 0%nat by lia. exists store. rewrite !take_0. split_and!; [done| |apply (run_drop _ _ _ _ 0); [done|lia]|done|done|].
    - split; [done|constructor|done].
    - by apply offsets_kept_prefix. }
  destruct n as [|n]; [done|]. rewrite (walk_loop_spec _ _ _ _ Hr) by (pose proof (run_fits _ _ _ _ Hr); lia).
  cbn [mbind result_bind plus].
  destruct (lookup_lt_is_Some_2 T n) as [t Ht]; [lia|].
  destruct (lookup_lt_is_Some_2 ps n) as [a Ha]; [rewrite (run_length _ _ _ _ Hr); lia|].
  pose proof (run_position _ _ _ _ Hr _ _ _ Ha Ht) as Hp.
  rewrite (run_get _ _ _ _ _ _ Hr Ht), Ha. cbn [mbind result_bind pos_next].
  rewrite (set_next_spec _ _ _ _ Hp). cbn [mbind result_bind token_index offset].
  assert (last (take (S n) ps) = Some a) as -> by (by rewrite (take_S_r _ _ _ Ha), last_snoc).
  assert (a ∈ take (S n) ps) as Hin by (rewrite (take_S_r _ _ _ Ha); set_solver).
  pose proof (run_nodup _ _ _ _ Hr) as Hd. rewrite <- (take_drop (S n) ps) in Hd. apply NoDup_app in Hd as (Hd1 & Hd2 & _).
  set (store' := <[a := _]> store). exists store'. split_and!; [done| | | | |].
  - split.
    + rewrite !length_take, (run_length _ _ _ _ Hr). lia.
    + done.
    + intros i b u Hb Hu. pose proof (lookup_lt_Some _ _ _ Hu) as Hi. rewrite length_take in Hi.
      rewrite lookup_take_lt in Hb by lia. rewrite lookup_take_lt in Hu by lia. rewrite length_take, Nat.min_l by lia.
      destruct (decide (i = n)) as [->|Hne].
      * simplify_eq. rewrite decide_True by done. unfold store'.
        rewrite list_lookup_insert_eq by (by eapply lookup_lt_Some). by rewrite lookup_take_lt by lia.
      * rewrite decide_False by lia. rewrite lookup_take_lt by lia. unfold store'. rewrite list_lookup_insert_ne.
        -- by apply (run_position _ _ _ _ Hr).
        -- intros ->. apply Hne. eapply NoDup_lookup; [apply Hr|exact Hb|exact Ha].
  - apply (run_store store); [|by apply run_drop]. intros b Hb. unfold store'. apply list_lookup_insert_ne.
    intros ->. by apply (Hd2 b).
  - apply length_insert.
  - intros b Hb. unfold store'. apply list_lookup_insert_ne. by intros ->.
  - intros b q Hq. unfold store'. destruct (decide (b = a)) as [->|Hne].
    + rewrite list_lookup_insert_eq by (by eapply lookup_lt_Some). eexists. split; [done|]. cbn. rewrite Hp in Hq. by injection Hq as <-.
    + rewrite list_lookup_insert_ne by done. by exists q.
Qed.

(** ** The parts of a conflict *)

(** A chunk of a two-way difference as a part of [hunk]. *)
Definition resolved_part (hunk d : svn_diff_t) : svn_diff_t :=
  part_of hunk (if decide (diff_type d = svn_diff__type_common) then svn_diff__type_diff_common
                else svn_diff__type_conflict)
    (original_start d) (original_length d) (modified_start d) (modified_length d).

Lemma resolved_loop_spec store ns hunk : forall addrs p ml at_ os ms fuel,
  linked ns p addrs -> Forall2 (fun a m => exists n, ns !! a = Some n /\ node_match n = m) addrs ml ->
  Forall2 (match_at store) ml at_ -> (exists l0 e0 e1, at_ = l0 ++ [(e0, e1, 0)]) -> (length addrs <= fuel)%nat ->
  resolved_loop fuel store ns hunk p os ms = Ok (map (resolved_part hunk) (hunks at_ os ms)).
Proof.
  induction addrs as [|a addrs IH]; intros p ml at_ os ms fuel Hl Hm Hat Hend Hf.
  { inversion Hm; subst. inversion Hat; subst. destruct Hend as (l0 & e0 & e1 & Hend). by destruct l0. }
  inversion Hm as [|? m ? ml' (n & Hn & En) Hm']; subst. inversion Hat as [|? [[x y] len] ? at' H1 Hat']; subst.
  destruct fuel as [|f]; [simpl in Hf; lia|]. cbn [resolved_loop]. destruct Hl as (-> & n' & Hn' & Hl).
  assert (n' = n) as -> by congruence.
  assert (get_lcs ns (Some a) = Ok n) as -> by (unfold get_lcs; cbn; by rewrite Hn). cbn [mbind result_bind].
  destruct H1 as (p0 & p1 & E0 & E1 & O0 & O1 & El). unfold node_match in *. cbn in E0, E1, O0, O1, El.
  rewrite E0, E1. cbn [mbind result_bind]. rewrite O0, O1, El. cbn [hunks]. rewrite map_app.
  assert (map (resolved_part hunk) (chunk_modified os ms x y) =
    if (os <? x) || (ms <? y) then [part_of hunk svn_diff__type_conflict (os - 1) (x - os) (ms - 1) (y - ms)] else [])
    as -> by (unfold chunk_modified; by destruct (_ || _)).
  destruct (Z.eqb_spec len 0) as [->|Hlen]; [by rewrite app_nil_r|].
  destruct Hend as (l0 & e0 & e1 & Hend).
  destruct l0 as [|m0 l0]; [by injection Hend; intros; subst|]. injection Hend as <- ->.
  rewrite (IH (lcs_next n) ml' (l0 ++ [(e0, e1, 0)])); [done|done|done|done|by eexists _, _, _|simpl in Hf; lia].
Qed.

Lemma resolved_spec store ns lo hunk p ml at_ os ms :
  lcs_chain lo ns p ml -> Forall2 (match_at store) ml at_ -> (exists l0 e0 e1, at_ = l0 ++ [(e0, e1, 0)]) ->
  resolved_loop (length ns) store ns hunk p os ms = Ok (map (resolved_part hunk) (hunks at_ os ms)).
Proof.
  intros (addrs & Hl & Hd & _ & Hm) Hat Hend. eapply resolved_loop_spec; [done..|].
  apply NoDup_bound_length; [done|]. by eapply linked_bound.
Qed.

(** The fix gives the first match a place at the end of the lists if its
    position is the first one. *)
Definition eof_fixed (at_ : Z * Z * Z) (end0 end1 : Z) : Z * Z * Z :=
  (if at_.1.1 =? 1 then end0 else at_.1.1, if at_.1.2 =? 1 then end1 else at_.1.2, at_.2).

Lemma fix_eof_spec store ns lo p m ml at_ list1 list2 q1 q2 :
  lcs_chain lo ns p (m :: ml) -> match_at store m at_ ->
  get_position store list1 = Ok q1 -> get_position store list2 = Ok q2 ->
  exists ns' m', fix_eof store ns p list1 list2 = Ok ns' /\ lcs_chain lo ns' p (m' :: ml) /\
    match_at store m' (eof_fixed at_ (offset q1) (offset q2)) /\
    length ns' = length ns /\ take lo ns' = take lo ns.
Proof.
  intros (addrs & Hl & Hd & Hlo & Hm) (p0 & p1 & H0 & H1 & O0 & O1 & Hlen) Hq1 Hq2.
  inversion Hm as [|a ? addrs' ? (n & Hn & En) Hm']; subst. destruct Hl as (-> & n' & Hn' & Hl).
  assert (n' = n) as -> by congruence. apply NoDup_cons in Hd as [Ha Hd]. apply Forall_cons in Hlo as [Hla Hlo].
  unfold node_match in *. cbn in H0, H1, Hlen. unfold fix_eof.
  assert (get_lcs ns (Some a) = Ok n) as -> by (unfold get_lcs; cbn; by rewrite Hn). cbn [mbind result_bind].
  rewrite H0. cbn [mbind result_bind]. rewrite H1. cbn [mbind result_bind]. rewrite O0, O1.
  set (n' := set_lcs_positions n _ _). exists (<[a := n']> ns), (node_match n'). split_and!; [done| | | |].
  - exists (a :: addrs'). split_and!; [|by constructor|by constructor|].
    + split; [done|]. exists n'. split; [apply list_lookup_insert_eq; by eapply lookup_lt_Some|]. by apply linked_insert.
    + constructor.
      * exists n'. split; [apply list_lookup_insert_eq; by eapply lookup_lt_Some|done].
      * apply Forall2_lookup. intros i. rewrite Forall2_lookup in Hm'. specialize (Hm' i).
        destruct (addrs' !! i) as [b|] eqn:Eb; inversion Hm' as [? m (n0 & Hn0 & E')|]; constructor.
        exists n0. split; [|done]. rewrite list_lookup_insert_ne; [done|].
        apply list_elem_of_lookup_2 in Eb. set_solver.
  - unfold match_at, eof_fixed. cbn [fst snd]. unfold n', node_match. cbn.
    destruct (at_.1.1 =? 1), (at_.1.2 =? 1); eexists _, _; split_and!; try eassumption; done.
  - apply length_insert.
  - by apply take_insert_ge.
Qed.

(** ** Moving differences *)

Definition shift_chunk (p q : Z) (d : svn_diff_t) : svn_diff_t :=
  mk_diff (diff_type d) (original_start d + p) (original_length d) (modified_start d + q) (modified_length d)
    (latest_start d) (latest_length d) (resolved_diff d).

Lemma is_diff_shift {A} (p q : nat) i j (X Y : list A) ds : is_diff i j X Y ds ->
  is_diff (p + i) (q + j) X Y (map (shift_chunk p q) ds).
Proof.
  induction 1 as [i j|i j c X Y ds Hc Hd IH|i j a b X Y ds Hab Hd IH]; [constructor|..]; cbn [map]; unfold shift_chunk at 1; cbn.
  - replace (i + p) with ((p + i)%nat : Z) by lia. replace (j + q) with ((q + j)%nat : Z) by lia.
    apply is_diff_common; [done|]. by rewrite <- !Nat.add_assoc.
  - replace (i + p) with ((p + i)%nat : Z) by lia. replace (j + q) with ((q + j)%nat : Z) by lia.
    apply is_diff_modified; [done|]. by rewrite <- !Nat.add_assoc.
Qed.

Lemma common_length_shift p q ds : common_length (map (shift_chunk p q) ds) = common_length ds.
Proof. unfold common_length. change (map (shift_chunk p q) ds) with (shift_chunk p q <$> ds). by rewrite <- list_fmap_compose. Qed.

Definition shift_match (p q : Z) (m : Z * Z * Z) : Z * Z * Z := (m.1.1 + p, m.1.2 + q, m.2).

Lemma ltb_add_r u v w : (u + w <? v + w) = (u <? v).
Proof. destruct (Z.ltb_spec (u + w) (v + w)), (Z.ltb_spec u v); (done || lia). Qed.

Lemma hunks_shift p q at_ : forall os ms,
  hunks (map (shift_match p q) at_) (os + p) (ms + q) = map (shift_chunk p q) (hunks at_ os ms).
Proof.
  induction at_ as [|[[a b] len] at_ IH]; intros os ms; [done|]. cbn [map shift_match fst snd hunks].
  rewrite map_app. f_equal.
  - unfold chunk_modified. rewrite !ltb_add_r.
    destruct (_ || _); [|done]. unfold diff_modified, shift_chunk. cbn. f_equal. f_equal; lia.
  - destruct (len =? 0); [done|]. cbn [map]. f_equal.
    + unfold diff_common, shift_chunk. cbn. f_equal; lia.
    + rewrite <- IH. f_equal; lia.
Qed.

(** ** Resolving a conflict *)

Lemma aligned_empty T0 T1 l : aligned T0 T1 l (length T0) (length T1) -> T0 = [] \/ T1 = [] -> l = [].
Proof.
  intros Hal%aligned_bounds HT. destruct l as [|[[i j] m] l]; [done|]. apply Forall_cons in Hal as [Hb _].
  simpl in Hb. destruct HT as [->| ->]; simpl in Hb; lia.
Qed.

(** The matches behind [e] equal tokens, with the end fixed, are those of the
    lists from these tokens on, unless the lists start at the first line. *)
Lemma fixed_matches T0 T1 (j k e : nat) l :
  aligned T0 T1 l (length T0) (length T1) -> ((j + e = 0)%nat -> T0 = []) -> ((k + e = 0)%nat -> T1 = []) ->
  exists h t, all_matches T0 T1 (1 + j + e) (1 + k + e) 0 0 l = h :: t /\
    eof_fixed h (1 + j + e + length T0) (1 + k + e + length T1) :: t =
    map (shift_match j k) (map (offsets (e + 1) (e + 1)) (reverse l) ++
      [(file_end T0 (e + 1) e + 0, file_end T1 (e + 1) e + 0, 0)]).
Proof.
  intros Hal H0 H1. unfold all_matches. change (added_match 0 _ _) with (@nil (Z * Z * Z)). cbn [app].
  destruct (decide (T0 = [] \/ T1 = [])) as [HT|HT].
  - rewrite (aligned_empty _ _ _ Hal HT). eexists _, _. split; [reflexivity|].
    change (map (offsets (e + 1) (e + 1)) (reverse [])) with (@nil (Z * Z * Z)).
    cbn [app map]. unfold eof_fixed, shift_match, file_end. cbn [fst snd]. f_equal.
    assert (forall (a : Z) (T : bytes) (i : nat), ((i + e = 0)%nat -> T = []) -> a = 1 + i + e ->
      (if (match T with [] => 0 + 1 | _ => a + length T end) + 0 =? 1 then 1 + i + e + length T
       else (match T with [] => 0 + 1 | _ => a + length T end) + 0)
      = (match T with [] => e + 1 | _ => e + 1 + length T end) + 0 + i) as Hfix.
    { intros a T i Hi ->. destruct T as [|t T]; [simpl; lia|].
      destruct (decide (i + e = 0)%nat) as [E|E]; [by apply Hi in E|].
      rewrite (proj2 (Z.eqb_neq _ 1)) by (simpl; lia). lia. }
    by rewrite (Hfix _ T0 j), (Hfix _ T1 k).
  - assert (j + e <> 0 /\ k + e <> 0)%nat as [Hj Hk] by (split; intros E; [apply H0 in E|apply H1 in E]; tauto).
    assert (forall x y len, 1 < x -> 1 < y -> eof_fixed (x, y, len) (1 + j + e + length T0) (1 + k + e + length T1)
              = (x, y, len)) as Hid.
    { intros x y len Hx Hy. unfold eof_fixed. cbn. by rewrite !(proj2 (Z.eqb_neq _ 1)) by lia. }
    assert (forall m, offsets (1 + j + e) (1 + k + e) m = shift_match j k (offsets (e + 1) (e + 1) m)) as Hoff.
    { intros [[a b] len]. unfold offsets, shift_match. cbn. apply triple_eq; lia. }
    assert ((file_end T0 (1 + j + e) 0 + 0, file_end T1 (1 + k + e) 0 + 0, 0)
            = shift_match j k (file_end T0 (e + 1) e + 0, file_end T1 (e + 1) e + 0, 0)) as Hend.
    { unfold shift_match, file_end. cbn. destruct T0; [tauto|]. destruct T1; [tauto|]. apply triple_eq; lia. }
    rewrite map_app, map_map, <- (map_ext _ _ Hoff). cbn [map]. rewrite <- Hend.
    destruct (reverse l) as [|m ms]; eexists _, _; (split; [reflexivity|]).
    + cbn [app map]. f_equal. apply Hid; unfold file_end; destruct T0, T1; simpl; tauto || lia.
    + cbn [app map]. f_equal. unfold offsets. apply Hid; lia.
Qed.

(** What becomes of a hunk in which both versions changed something. *)
Definition resolution (hunk : svn_diff_t) (j k : nat) (B C : bytes) (hunk' : svn_diff_t) : Prop :=
  (B = C /\ hunk' = set_type hunk svn_diff__type_diff_common []) \/
  (B <> C /\ exists rs, hunk' = set_type hunk svn_diff__type_conflict rs /\
    ((j = 0%nat -> B = []) -> (k = 0%nat -> C = []) ->
     exists ds, is_diff j k B C ds /\ is_lcs B C (Z.to_nat (common_length ds)) /\ rs = map (resolved_part hunk) ds)).

(** The parts, for the lists [B] and [C] with [e] equal tokens at the start. *)
Lemma resolved_parts_spec (B C : bytes) (j k e : nat) l :
  (e <= length B)%nat -> (e <= length C)%nat -> take e B = take e C ->
  aligned (drop e B) (drop e C) l (length (drop e B)) (length (drop e C)) -> is_lcs (drop e B) (drop e C) (matched l) ->
  exists ds, is_diff j k B C ds /\ is_lcs B C (Z.to_nat (common_length ds)) /\
    ds = hunks (map (shift_match j k) (added_match e 1 1 ++ map (offsets (e + 1) (e + 1)) (reverse l) ++
                 [(file_end (drop e B) (e + 1) e + 0, file_end (drop e C) (e + 1) e + 0, 0)])) (1 + j) (1 + k).
Proof.
  intros HB HC E Hal Hlcs. eexists. split; [|split; [|reflexivity]]; rewrite hunks_shift.
  - pose proof (hunks_correct Some (take e B) [] (drop e B) (drop e C) (drop e B) (drop e C) eq_refl eq_refl l) as [Hd _];
      [by intros t u _ _ [= ->]|done|done|].
    rewrite E in Hd at 2. rewrite !app_nil_r, !take_drop, length_take, Nat.min_l in Hd by done.
    apply (is_diff_shift j k) in Hd. rewrite !Nat.add_0_r in Hd. exact Hd.
  - pose proof (hunks_correct Some (take e B) [] (drop e B) (drop e C) (drop e B) (drop e C) eq_refl eq_refl l) as [_ Hl];
      [by intros t u _ _ [= ->]|done|done|].
    rewrite E in Hl at 2. rewrite !app_nil_r, !take_drop, length_take, Nat.min_l in Hl by done.
    by rewrite common_length_shift.
Qed.

(** A node in front of the matches for the equal tokens at the start. *)
Lemma front_match_spec store ns ns' q ml mf at_ (e : nat) a b start0 start1 p0 p1 :
  mf = mk_lcs None start0 start1 e 0 ->
  lcs_chain (length (if 0 <? (e : Z) then ns ++ [mf] else ns)) ns' q ml ->
  (if 0 <? (e : Z) then ns ++ [mf] else ns) `prefix_of` ns' ->
  Forall2 (match_at store) ml at_ ->
  get_position store start0 = Ok p0 -> offset p0 = a -> get_position store start1 = Ok p1 -> offset p1 = b ->
  exists ns2 q2 ml2,
    (if 0 <? (e : Z) then node ← get_lcs ns' (Some (length ns)); Ok (<[length ns := set_lcs_next node q]> ns', Some (length ns))
     else Ok (ns', q)) = Ok (ns2, q2) /\
    lcs_chain (length ns) ns2 q2 ml2 /\ ns `prefix_of` ns2 /\ length ns2 = length ns' /\
    Forall2 (match_at store) ml2 (added_match e a b ++ at_).
Proof.
  intros -> Hc Hp Hat Hp0 Ha Hp1 Hb. unfold added_match. destruct (Z.ltb_spec 0 e) as [He|He].
  - rewrite (proj2 (Z.eqb_neq e 0)) by lia. set (mf := mk_lcs None start0 start1 e 0) in *.
    assert (ns' !! length ns = Some mf) as Hn by (eapply prefix_lookup_Some; [|exact Hp]; by apply list_lookup_middle).
    assert (get_lcs ns' (Some (length ns)) = Ok mf) as -> by (unfold get_lcs; cbn; by rewrite Hn). cbn [mbind result_bind].
    eexists _, _, _. split; [done|]. rewrite length_app in Hc. change (length [mf]) with 1%nat in Hc.
    rewrite Nat.add_1_r in Hc. split; [by apply lcs_chain_link|]. split; [|split; [apply length_insert|]].
    + apply take_prefix. rewrite take_insert_ge by done. destruct Hp as [k ->].
      by rewrite <- app_assoc, take_app_length.
    + constructor; [|done]. by exists p0, p1.
  - rewrite (proj2 (Z.eqb_eq e 0)) by lia. eexists _, _, _. by split_and!.
Qed.

Section Resolve.
Context (store : position_store) (ns : lcs_store) (ps0 ps1 : list nat) (T0 T1 : bytes) (j k : nat) (num : Z).
Hypothesis Hr0 : run store ps0 T0 (1 + j).
Hypothesis Hr1 : run store ps1 T1 (1 + k).
Hypothesis Hdisj : forall a, a ∈ ps0 -> a ∉ ps1.
Hypothesis H0 : Forall (fun t => 0 <= t < num) T0.
Hypothesis H1 : Forall (fun t => 0 <= t < num) T1.

(** The two rings behind [e] equal tokens, and their matches. *)
Lemma conflict_rings (n m e : nat) ns1 : (e <= n <= length T0)%nat -> (e <= m <= length T1)%nat ->
  exists store1 store2 store3 ns2 lcs ml l,
    cut_ring store (ps0 !! e) (n - e)%nat = Ok (store1, last (take (n - e) (drop e ps0)), ps0 !! n) /\
    cut_ring store1 (ps1 !! e) (m - e)%nat = Ok (store2, last (take (m - e) (drop e ps1)), ps1 !! m) /\
    svn_diff__get_token_counts store2 (last (take (n - e) (drop e ps0))) num
      = Ok (counts_of num (take (n - e) (drop e T0))) /\
    svn_diff__get_token_counts store2 (last (take (m - e) (drop e ps1))) num
      = Ok (counts_of num (take (m - e) (drop e T1))) /\
    svn_diff__lcs store2 ns1 (last (take (n - e) (drop e ps0))) (last (take (m - e) (drop e ps1)))
      (counts_of num (take (n - e) (drop e T0))) (counts_of num (take (m - e) (drop e T1))) num 0 0
      = Ok (store3, ns2, lcs) /\
    lcs_outcome store2 ns1 (take (n - e) (drop e ps0)) (take (m - e) (drop e ps1))
      (take (n - e) (drop e T0)) (take (m - e) (drop e T1)) (1 + j + e) (1 + k + e) 0 0 store3 ns2 lcs ml l /\
    run store3 (drop n ps0) (drop n T0) (1 + j + n) /\ run store3 (drop m ps1) (drop m T1) (1 + k + m) /\
    offsets_kept store store3.
Proof.
  intros Hn Hm.
  pose proof (run_drop _ _ _ _ e Hr0 ltac:(lia)) as Hd0. pose proof (run_drop _ _ _ _ e Hr1 ltac:(lia)) as Hd1.
  assert (forall {A} (l : list A), drop e l !! 0%nat = l !! e) as Hhead by (intros; by rewrite lookup_drop, Nat.add_0_r).
  assert (forall (ps : list nat) n0, (e <= n0)%nat -> drop e ps !! (n0 - e)%nat = ps !! n0) as Hlast
    by (intros ps n0 Hn0; rewrite lookup_drop; f_equal; lia).
  assert (forall {A} (l : list A) n0, (e <= n0)%nat -> drop (n0 - e) (drop e l) = drop n0 l) as Hdd
    by (intros A l n0 Hn0; rewrite drop_drop; f_equal; lia).
  assert (forall (ps : list nat) n0 a, a ∈ take n0 (drop e ps) -> a ∈ ps) as Hsub.
  { intros ps n0 a Ha. rewrite <- (take_drop e ps). apply elem_of_app. right.
    rewrite <- (take_drop n0 (drop e ps)). apply elem_of_app. by left. }
  destruct (cut_ring_spec _ _ _ _ (n - e) Hd0) as (store1 & E1 & Hring0 & Hrest0 & _ & Hout1 & Hkept1);
    [rewrite length_drop; lia|].
  rewrite Hhead, Hlast, !Hdd in * by lia. replace (1 + j + e + (n - e)%nat) with (1 + j + n) in Hrest0 by lia.
  assert (run store1 (drop e ps1) (drop e T1) (1 + k + e)) as Hd1'.
  { eapply run_store; [|exact Hd1]. intros a Ha. apply Hout1. intros Ha'. apply (Hdisj a); [by eapply Hsub|].
    rewrite <- (take_drop e ps1). apply elem_of_app. by right. }
  destruct (cut_ring_spec _ _ _ _ (m - e) Hd1') as (store2 & E2 & Hring1 & Hrest1 & _ & Hout2 & Hkept2);
    [rewrite length_drop; lia|].
  rewrite Hhead, Hlast, !Hdd in * by lia. replace (1 + k + e + (m - e)%nat) with (1 + k + m) in Hrest1 by lia.
  assert (forall a, a ∈ ps0 -> store2 !! a = store1 !! a) as Hkeep0.
  { intros a Ha. apply Hout2. intros Ha'. apply (Hdisj a Ha). by eapply Hsub. }
  assert (token_ring store2 (take (n - e) (drop e ps0)) (take (n - e) (drop e T0)) (1 + j + e)) as Hring0'.
  { eapply token_ring_store; [|exact Hring0]. intros a Ha. apply Hkeep0. by eapply Hsub. }
  assert (run store2 (drop n ps0) (drop n T0) (1 + j + n)) as Hrest0'.
  { eapply run_store; [|exact Hrest0]. intros a Ha. apply Hkeep0. rewrite <- (take_drop n ps0). apply elem_of_app. by right. }
  assert (Forall (fun t => 0 <= t < num) (take (n - e) (drop e T0)) /\ Forall (fun t => 0 <= t < num) (take (m - e) (drop e T1)))
    as [Hb0 Hb1] by (split; by apply Forall_take, Forall_drop).
  destruct (lcs_spec store2 ns1 _ _ _ _ _ _ num 0 0 Hring0' Hring1) as (store3 & ns2 & lcs & ml & l & E3 & Hout);
    [|done|done|lia|done|done|].
  { intros a Ha Ha'. apply (Hdisj a); by eapply Hsub. }
  exists store1, store2, store3, ns2, lcs, ml, l. pose proof (lo_store _ _ _ _ _ _ _ _ _ _ _ _ _ _ _ Hout) as Hpre.
  split_and!; [done|done|by eapply get_token_counts_spec|by eapply get_token_counts_spec|done|done| | |].
  - by eapply run_prefix.
  - by eapply run_prefix.
  - eapply offsets_kept_trans; [exact Hkept1|]. eapply offsets_kept_trans; [exact Hkept2|]. by apply offsets_kept_prefix.
Qed.

Lemma resolve_conflict_spec hunk p0 p1 (n m : nat) :
  seek_loop (length store) store p0 (modified_start hunk + 1) = Ok (ps0 !! 0%nat) ->
  seek_loop (length store) store p1 (latest_start hunk + 1) = Ok (ps1 !! 0%nat) ->
  modified_length hunk = n -> latest_length hunk = m -> (n <= length T0)%nat -> (m <= length T1)%nat ->
  exists store' ns' hunk',
    svn_diff__resolve_conflict store ns hunk p0 p1 num = Ok (store', ns', hunk', ps0 !! n, ps1 !! m) /\
    run store' (drop n ps0) (drop n T0) (1 + j + n) /\ run store' (drop m ps1) (drop m T1) (1 + k + m) /\
    ns `prefix_of` ns' /\ offsets_kept store store' /\ resolution hunk j k (take n T0) (take m T1) hunk'.
Proof using Hr0 Hr1 Hdisj H0 H1.
  intros Hs0 Hs1 Hn Hm Hn0 Hm1. unfold svn_diff__resolve_conflict. rewrite Hs0, Hs1. cbn [mbind result_bind].
  rewrite Hn, Hm. set (c := (n `min` m)%nat). replace (Z.min n m) with (c : Z) by lia. rewrite Nat2Z.id.
  destruct (equal_loop_spec _ _ _ _ _ _ _ Hr0 Hr1 c 0) as (e & -> & Hec & Heq & Hdiff); [lia..|].
  cbn [mbind result_bind]. rewrite !drop_0 in Heq. rewrite !Nat.add_0_l in *.
  destruct (decide (e = c /\ n = m)) as [[-> <-]|Hne].
  { replace (((c - c)%nat =? 0) && (n =? n)) with true
      by (symmetry; apply andb_true_iff; split; apply Z.eqb_eq; lia).
    assert (c = n) as -> by lia. exists store, ns. eexists. split; [reflexivity|].
    split_and!; [by apply run_drop|by apply run_drop|done|by apply offsets_kept_prefix|by left]. }
  replace (((c - e)%nat =? 0) && (n =? m)) with false
    by (symmetry; apply andb_false_iff; rewrite !Z.eqb_neq; lia).
  replace (c - (c - e)%nat) with (e : Z) by lia.
  replace (n - e) with ((n - e)%nat : Z) by lia. replace (m - e) with ((m - e)%nat : Z) by lia.
  destruct (run_offset _ _ _ _ 0 Hr0) as (a0 & q0 & Ea0 & Hq0 & Oq0); [lia|].
  destruct (run_offset _ _ _ _ 0 Hr1) as (a1 & q1 & Ea1 & Hq1 & Oq1); [lia|].
  rewrite Hq0, Hq1. cbn [mbind result_bind].
  set (mf := mk_lcs None (ps0 !! 0%nat) (ps1 !! 0%nat) e 0).
  destruct (conflict_rings n m e (if 0 <? (e : Z) then ns ++ [mf] else ns)) as
    (store1 & store2 & store3 & ns2 & lcs & ml & l & E1 & E2 & C0 & C1 & E3 & Hout & Hrest0 & Hrest1 & Hkept); [lia..|].
  rewrite E1. cbn [mbind result_bind]. rewrite E2. cbn [mbind result_bind]. rewrite C0, C1. cbn [mbind result_bind].
  rewrite E3. cbn [mbind result_bind].
  destruct (run_offset _ _ _ _ 0 Hrest0) as (b0 & r0 & _ & Hg0 & Or0); [lia|].
  destruct (run_offset _ _ _ _ 0 Hrest1) as (b1 & r1 & _ & Hg1 & Or1); [lia|].
  rewrite lookup_drop, Nat.add_0_r in Hg0, Hg1.
  destruct Hout as [_ Hns2 Hchain Hal Hlcs Hat _].
  assert (forall A (L : list A) n', (e <= n')%nat -> take (n' - e) (drop e L) = drop e (take n' L)) as Htd.
  { intros A L n' Hn'. rewrite take_drop_commute. do 2 f_equal. lia. }
  rewrite !Htd in Hal, Hlcs, Hat by lia.
  set (B := take n T0) in *. set (C := take m T1) in *.
  assert (length B = n /\ length C = m) as [LB LC] by (unfold B, C; rewrite !length_take; lia).
  assert (exists l0 e0 e1, all_matches (drop e B) (drop e C) (1 + j + e) (1 + k + e) 0 0 l = l0 ++ [(e0, e1, 0)])
    as (l0 & e0 & e1 & Hend) by (unfold all_matches; rewrite !app_assoc; by eexists _, _, _).
  destruct (all_matches (drop e B) (drop e C) (1 + j + e) (1 + k + e) 0 0 l) as [|h t] eqn:Eall; [by destruct l0|].
  apply Forall2_cons_inv_r in Hat as (mh & ml' & Hath & Hat' & Eml). rewrite Eml in Hchain.
  destruct (fix_eof_spec store3 ns2 _ lcs mh ml' h (ps0 !! n) (ps1 !! m) r0 r1 Hchain Hath Hg0 Hg1) as
    (ns3 & mh' & -> & Hchain3 & Hath3 & Hlen3 & Htake3). cbn [mbind result_bind].
  assert ((if 0 <? (e : Z) then ns ++ [mf] else ns) `prefix_of` ns3) as Hns3.
  { apply take_prefix. rewrite Htake3. destruct Hns2 as [ext ->]. by rewrite take_app_length. }
  destruct (offsets_kept_get _ _ _ _ Hkept Hq0) as (q0' & Hq0' & Oq0').
  destruct (offsets_kept_get _ _ _ _ Hkept Hq1) as (q1' & Hq1' & Oq1').
  destruct (front_match_spec store3 ns ns3 lcs (mh' :: ml') mf (eof_fixed h (offset r0) (offset r1) :: t) e (1 + j) (1 + k)
              (ps0 !! 0%nat) (ps1 !! 0%nat) q0' q1') as (ns4 & p4 & ml4 & -> & Hchain4 & Hns4 & Hlen4 & Hat4);
    [done|done|done|by constructor|done|lia|done|lia|]. cbn [mbind result_bind].
  assert (exists l1 e0 e1, added_match e (1 + j) (1 + k) ++ eof_fixed h (offset r0) (offset r1) :: t = l1 ++ [(e0, e1, 0)])
    as Hend4.
  { destruct l0 as [|h0 l0]; injection Hend as -> ->.
    - unfold eof_fixed. cbn. by eexists _, _, _.
    - eexists (added_match e (1 + j) (1 + k) ++ eof_fixed h0 (offset r0) (offset r1) :: l0), _, _. by rewrite <- app_assoc. }
  rewrite (resolved_spec _ _ _ _ _ _ _ _ _ Hchain4 Hat4 Hend4). cbn [mbind result_bind].
  eexists store3, ns4, _. split; [reflexivity|]. split_and!; [done|done|done|done|].
  right. split.
  { intros E. assert (n = m) as <- by (rewrite <- LB, <- LC; by rewrite E).
    assert (e < c)%nat as Hlt by lia. apply Hdiff in Hlt. apply Hlt.
    apply (f_equal (fun L => L !! e)) in E. unfold B, C in E. by rewrite !lookup_take_lt in E by lia. }
  eexists. split; [reflexivity|]. intros Hgj Hgk.
  destruct (fixed_matches (drop e B) (drop e C) j k e l) as (h' & t' & Eall' & Efix); [done| | |].
  { intros Hje. assert (B = []) as EB by (apply Hgj; lia). by rewrite EB, drop_nil. }
  { intros Hke. assert (C = []) as EC by (apply Hgk; lia). by rewrite EC, drop_nil. }
  rewrite Eall in Eall'. injection Eall' as <- <-. rewrite !length_drop, LB, LC in Efix.
  replace (1 + j + e + (n - e)%nat) with (1 + j + n) in Efix by lia.
  replace (1 + k + e + (m - e)%nat) with (1 + k + m) in Efix by lia.
  destruct (resolved_parts_spec B C j k e l) as (ds & Hd & Hl & Eds); [lia|lia| |done|done|].
  { unfold B, C. rewrite !take_take, !Nat.min_l by lia. done. }
  exists ds. split_and!; [done|done|]. f_equal. rewrite Eds, map_app, <- Efix, Or0, Or1, Oq0, Oq1.
  rewrite !Nat2Z.inj_0, !Z.add_0_r. do 2 f_equal.
  unfold added_match. destruct ((e : Z) =? 0); [done|reflexivity].
Qed.
End Resolve.
