(* ===== verification/Diff3Walk.v ===== *)
(** * Walking along two lists of matches

    The loop of [svn_diff_diff3_2] keeps its place in both lists of matches
    with the original.  From one sync point to the next it leaves nothing out,
    and it ends at the end of all three sources. *)

From S2P Require Import Prelude Subsequence DiffToken DiffTokenFacts DiffLcs DiffHeap DiffSnakeFacts.
From S2P Require Import DiffLcsFacts.
From S2P Require Import Diff DiffFacts DiffMemory DiffMemoryFacts Diff3 Diff3Facts.

#[local] Coercion Z.of_nat : nat >-> Z.

Notation triple := (nat * nat * nat)%type.

(** ** Correct three-way differences *)

Section Spec.
Context {A : Type}.
Implicit Types X Y W a b c : list A.

(** The chunks go through the original [X] and its two versions [Y] and [W],
    from the lines [i], [j] and [k] on, without a gap.  A common chunk is the
    same in all of them; where only one version differs from the original, the
    chunk says which; where both do, they differ in the same way or there is a
    conflict.  The parts of a conflict are a difference of the two versions with
    as much in common as possible, unless one of them starts with the first
    line of its source. *)
Inductive is_diff3 : nat -> nat -> nat -> list A -> list A -> list A -> list svn_diff_t -> Prop :=
  | is_diff3_end i j k : is_diff3 i j k [] [] [] []
  | is_diff3_common i j k c X Y W ds :
      c <> [] -> is_diff3 (i + length c) (j + length c) (k + length c) X Y W ds ->
      is_diff3 i j k (c ++ X) (c ++ Y) (c ++ W)
        (mk_diff svn_diff__type_common i (length c) j (length c) k (length c) [] :: ds)
  | is_diff3_modified i j k a b X Y W ds :
      a ++ b <> [] -> is_diff3 (i + length a) (j + length b) (k + length a) X Y W ds ->
      is_diff3 i j k (a ++ X) (b ++ Y) (a ++ W)
        (mk_diff svn_diff__type_diff_modified i (length a) j (length b) k (length a) [] :: ds)
  | is_diff3_latest i j k a c X Y W ds :
      a ++ c <> [] -> is_diff3 (i + length a) (j + length a) (k + length c) X Y W ds ->
      is_diff3 i j k (a ++ X) (a ++ Y) (c ++ W)
        (mk_diff svn_diff__type_diff_latest i (length a) j (length a) k (length c) [] :: ds)
  | is_diff3_same i j k a b X Y W ds :
      is_diff3 (i + length a) (j + length b) (k + length b) X Y W ds ->
      is_diff3 i j k (a ++ X) (b ++ Y) (b ++ W)
        (mk_diff svn_diff__type_diff_common i (length a) j (length b) k (length b) [] :: ds)
  | is_diff3_conflict (i j k : nat) a b c X Y W ds rs hunk :
      b <> c ->
      hunk = mk_diff svn_diff__type_conflict i (length a) j (length b) k (length c) rs ->
      ((j = 0%nat -> b = []) -> (k = 0%nat -> c = []) ->
       exists parts, is_diff j k b c parts /\ is_lcs b c (Z.to_nat (common_length parts)) /\
         rs = map (resolved_part hunk) parts) ->
      is_diff3 (i + length a) (j + length b) (k + length c) X Y W ds ->
      is_diff3 i j k (a ++ X) (b ++ Y) (c ++ W) (hunk :: ds).

(** Only one of the versions differs from the original. *)
Definition only_modified (ds : list svn_diff_t) : Prop :=
  Forall (fun d => diff_type d = svn_diff__type_common \/ diff_type d = svn_diff__type_diff_modified) ds.

Definition only_latest (ds : list svn_diff_t) : Prop :=
  Forall (fun d => diff_type d = svn_diff__type_common \/ diff_type d = svn_diff__type_diff_latest) ds.
End Spec.

(** ** Matches in the store *)

Section Reads.
(** What is known about the pointers to positions in the second source. *)
Context (R : option nat -> nat -> Prop).

Definition is_node (store : position_store) (ns : lcs_store) (p : option nat) (m : triple) (n : svn_diff__lcs_t) : Prop :=
  get_lcs ns p = Ok n /\ lcs_length n = m.2 /\ ((0 < m.2)%nat -> R (lcs_position1 n) m.1.2) /\
  exists p0 p1, get_position store (lcs_position0 n) = Ok p0 /\ get_position store (lcs_position1 n) = Ok p1 /\
    offset p0 = 1 + m.1.1 /\ offset p1 = 1 + m.1.2.

Fixpoint reads (store : position_store) (ns : lcs_store) (p : option nat) (l : list triple) : Prop :=
  match l with
  | [] => False
  | m :: l => exists n, is_node store ns p m n /\ match l with [] => True | _ => reads store ns (lcs_next n) l end
  end.

Lemma reads_kept store ns store' ns' p l : offsets_kept store store' -> ns `prefix_of` ns' ->
  reads store ns p l -> reads store' ns' p l.
Proof.
  intros Hs Hn. revert p. induction l as [|m l IH]; intros p; [done|].
  intros (n & (Hg & Hl & HR & p0 & p1 & H0 & H1 & O0 & O1) & Hrest). exists n. split.
  - split_and!; [|done|done|].
    + unfold get_lcs in *. destruct p as [a|]; cbn in *; [|done]. destruct (ns !! a) eqn:E; [|done].
      erewrite prefix_lookup_Some; [done|exact E|done].
    + destruct (offsets_kept_get _ _ _ _ Hs H0) as (p0' & H0' & O0'). destruct (offsets_kept_get _ _ _ _ Hs H1) as (p1' & H1' & O1').
      exists p0', p1'. by rewrite O0', O1'.
  - destruct l; [done|]. by apply IH.
Qed.

Lemma read_match_spec store ns p m l : reads store ns p (m :: l) ->
  read_match store ns p = Ok (1 + m.1.1, 1 + m.1.2, m.2 : Z).
Proof.
  intros (n & (Hg & Hl & _ & p0 & p1 & H0 & H1 & O0 & O1) & _). unfold read_match. rewrite Hg. cbn [mbind result_bind].
  rewrite H0. cbn [mbind result_bind]. rewrite H1. cbn [mbind result_bind]. by rewrite O0, O1, Hl.
Qed.

Lemma next_match_spec store ns p m m' l : reads store ns p (m :: m' :: l) ->
  exists p', next_match ns p = Ok p' /\ reads store ns p' (m' :: l).
Proof.
  intros (n & (Hg & _) & Hrest). unfold next_match. rewrite Hg. by exists (lcs_next n).
Qed.
End Reads.

(** ** Lists that cover two sources *)

(** Where a match ends in the first source. *)
Definition until (m : triple) : nat := (m.1.1 + m.2)%nat.

(** From its first match on, the list covers what remains. *)
Definition tail_covers {A} (X Y : list A) (l : list triple) : Prop :=
  match l with [] => False | m :: _ => covers X Y m.1.1 m.1.2 l end.

Section Tails.
Context {A : Type} (X Y : list A).

Lemma covers_tail i j l : covers X Y i j l -> tail_covers X Y l.
Proof. destruct l as [|[[a b] len] l]; [done|]. cbn. intros (_ & _ & H). by split_and!. Qed.

Lemma tail_covers_end m l : tail_covers X Y (m :: l) -> m.2 = 0%nat -> m.1.1 = length X /\ m.1.2 = length Y /\ l = [].
Proof. destruct m as [[a b] len]. cbn. intros (_ & _ & H) ->. done. Qed.

Lemma tail_covers_match m l : tail_covers X Y (m :: l) -> (0 < m.2)%nat ->
  take m.2 (drop m.1.1 X) = take m.2 (drop m.1.2 Y) /\ (until m <= length X)%nat /\ (m.1.2 + m.2 <= length Y)%nat /\
  tail_covers X Y l /\ exists m' l', l = m' :: l' /\ (until m <= m'.1.1)%nat /\ (m.1.2 + m.2 <= m'.1.2)%nat.
Proof.
  destruct m as [[a b] len]. unfold until. cbn. intros (_ & _ & H) Hl. destruct len as [|len]; [lia|].
  destruct H as (E & Hx & Hy & Hc). split_and!; [done|done|done|by eapply covers_tail|].
  destruct l as [|[[a' b'] len'] l]; [done|]. eexists _, _. split; [done|]. cbn in *. lia.
Qed.

Lemma tail_covers_until m l : tail_covers X Y (m :: l) ->
  (until m <= length X)%nat /\ (m.1.2 + m.2 <= length Y)%nat /\ (m.1.1 = length X -> m.2 = 0%nat).
Proof.
  intros H. destruct (decide (m.2 = 0%nat)) as [E|E].
  - destruct (tail_covers_end _ _ H E) as (Ea & Eb & _). unfold until. lia.
  - destruct (tail_covers_match _ _ H) as (_ & Hx & Hy & _); [lia|]. unfold until in *. lia.
Qed.

(** Matches that end before [s] are left out; one that ends there is only left
    out if the next one does not follow at once. *)
Inductive skips (s : nat) : list triple -> list triple -> Prop :=
  | skips_refl l : skips s l l
  | skips_step m m' l l' :
      (0 < m.2)%nat -> (until m < s)%nat \/ (until m = s /\ m'.1.2 <> (m.1.2 + m.2)%nat) ->
      skips s (m' :: l) l' -> skips s (m :: m' :: l) l'.

Lemma skips_trans s l1 l2 l3 : skips s l1 l2 -> skips s l2 l3 -> skips s l1 l3.
Proof. induction 1; [done|]. intros. by constructor; auto. Qed.

Lemma skips_suffix s l l' : skips s l l' -> l' `suffix_of` l.
Proof. induction 1 as [|m m' l l' _ _ H IH]; [done|]. by apply suffix_cons_r. Qed.

Lemma skips_tail s l l' : skips s l l' -> tail_covers X Y l -> tail_covers X Y l'.
Proof.
  induction 1 as [|m m' l l' Hm _ H IH]; [done|]. intros Ht. apply IH.
  by apply (tail_covers_match _ _ Ht).
Qed.

(** The sync point has moved on. *)
Lemma skips_later s s' l l' : skips s l l' -> (s < s')%nat -> skips s' l l'.
Proof. induction 1 as [|m m' l l' Hm Hs H IH]; intros Hlt; [constructor|]. constructor; [done|lia|auto]. Qed.

Lemma suffix_covers l l' : l' `suffix_of` l -> l' <> [] -> tail_covers X Y l -> tail_covers X Y l'.
Proof.
  intros [k ->] Hne. induction k as [|m k IH]; [done|]. intros Ht. apply IH. cbn [app] in Ht.
  destruct (decide (m.2 = 0%nat)) as [E|E].
  - apply tail_covers_end in Ht as (_ & _ & Ht); [|done]. apply app_eq_nil in Ht as [_ ->]. done.
  - apply (tail_covers_match _ _ Ht). lia.
Qed.
End Tails.

Lemma skips_start {A} (X Y : list A) s m l m' l' : skips s (m :: l) (m' :: l') -> tail_covers X Y (m :: l) ->
  (m.1.1 <= m'.1.1)%nat /\ (m.1.2 <= m'.1.2)%nat.
Proof.
  remember (m :: l) as ml eqn:E1. remember (m' :: l') as ml' eqn:E2. intros H. revert m l E1.
  induction H as [l0|m0 m1 l0 l1 Hm Hs H IH]; intros m l E1 Ht; simplify_eq; [done|].
  destruct (tail_covers_match _ _ _ _ Ht Hm) as (_ & _ & _ & Ht' & m2 & l2 & E & Ha & Hb). simplify_eq.
  destruct (IH eq_refl _ _ eq_refl Ht'). unfold until in *. lia.
Qed.

Lemma skips_shorter s l l' : skips s l l' -> (length l' <= length l)%nat.
Proof. intros H%skips_suffix. by apply suffix_length. Qed.

(** ** The sync point *)

Section Sync.
Context (store : position_store) (ns : lcs_store).

Lemma skip_before_spec {A} (X Y : list A) R (s : nat) fuel : forall p l, reads R store ns p l -> tail_covers X Y l ->
  (s <= length X)%nat -> (length l <= S fuel)%nat ->
  exists p' m l', skip_before store ns fuel p (1 + s) = Ok p' /\ reads R store ns p' (m :: l') /\
    skips s l (m :: l') /\ (s <= until m)%nat.
Proof.
  induction fuel as [|f IH]; intros p l Hr Ht Hs Hf; destruct l as [|m l]; [done| |done|];
    cbn [skip_before]; rewrite (read_match_spec _ _ _ _ _ _ Hr); cbn [mbind result_bind].
  - assert (l = []) as -> by (destruct l; [done|simpl in Hf; lia]).
    assert (m.2 = 0%nat) as E.
    { destruct (decide (m.2 = 0%nat)); [done|]. destruct (tail_covers_match _ _ _ _ Ht) as (_ & _ & _ & Hc & _); [lia|done]. }
    destruct (tail_covers_end _ _ _ _ Ht E) as (Ea & _). rewrite (proj2 (Z.ltb_ge _ _)) by lia.
    exists p, m, []. split_and!; [done|done|constructor|unfold until; lia].
  - destruct (Z.ltb_spec (1 + m.1.1 + m.2) (1 + s)) as [Hlt|Hge].
    + assert (0 < m.2)%nat as Hm.
      { destruct (decide (m.2 = 0%nat)) as [E|]; [|lia]. destruct (tail_covers_end _ _ _ _ Ht E) as (Ea & _). lia. }
      destruct (tail_covers_match _ _ _ _ Ht Hm) as (_ & _ & _ & Ht' & m' & l' & -> & _).
      destruct (next_match_spec _ _ _ _ _ _ _ Hr) as (p' & -> & Hr'). cbn [mbind result_bind].
      destruct (IH p' (m' :: l') Hr' Ht' Hs) as (p2 & m2 & l2 & -> & Hr2 & Hs2 & Hu); [simpl in *; lia|].
      exists p2, m2, l2. split_and!; [done|done| |done]. constructor; [done|unfold until; lia|done].
    + exists p, m, l. split_and!; [done|done|constructor|unfold until; lia].
Qed.

(** The match [m] reaches the end of the second source if it reaches the end
    of the first one. *)
Definition follows (m : triple) (l : list triple) : Prop :=
  match l with [] => True | m' :: _ => m'.1.2 = (m.1.2 + m.2)%nat end.

Lemma skip_to_eof_spec {A} (X Y W : list A) R R' (s : nat) p mo lo q m l :
  reads R store ns p (mo :: lo) -> tail_covers X Y (mo :: lo) -> s = mo.1.1 ->
  reads R' store ns q (m :: l) -> tail_covers X W (m :: l) -> (s <= until m)%nat ->
  exists q' m' l', skip_to_eof store ns p q (1 + s) = Ok q' /\ reads R' store ns q' (m' :: l') /\
    skips s (m :: l) (m' :: l') /\ (s <= until m')%nat /\
    (mo.2 = 0%nat -> (0 < m'.2)%nat -> until m' = s -> follows m' l').
Proof.
  intros Hp Hto Hs Hq Ht Hu. unfold skip_to_eof.
  rewrite (read_match_spec _ _ _ _ _ _ Hp), (read_match_spec _ _ _ _ _ _ Hq). cbn [mbind result_bind].
  destruct (decide (mo.2 = 0%nat /\ (0 < m.2)%nat /\ until m = s)) as [(E & Hm & Eu)|Hn].
  - replace (((mo.2 : Z) =? 0) && (0 <? (m.2 : Z)) && (1 + m.1.1 + m.2 =? 1 + s)) with true
      by (symmetry; rewrite !andb_true_iff, !Z.eqb_eq, Z.ltb_lt; unfold until in *; lia).
    destruct (tail_covers_match _ _ _ _ Ht Hm) as (_ & _ & _ & Ht' & m' & l' & -> & Ha & Hb).
    destruct (next_match_spec _ _ _ _ _ _ _ Hq) as (q' & -> & Hq'). cbn [mbind result_bind].
    rewrite (read_match_spec _ _ _ _ _ _ Hq'). cbn [mbind result_bind].
    destruct (Z.eqb_spec (1 + m.1.2 + m.2) (1 + m'.1.2)) as [Eb|Eb]; cbn [negb].
    + exists q, m, (m' :: l'). split_and!; [done|done|constructor|done|]. intros _ _ _. cbn. lia.
    + exists q', m', l'. split_and!; [done|done| |unfold until in *; lia|].
      * constructor; [done|right; split; [done|lia]|constructor].
      * intros _ Hm' Eu'. destruct (tail_covers_until _ _ _ _ Ht') as (_ & _ & H0).
        destruct (tail_covers_end _ _ _ _ Hto E) as (Ea & _). destruct (tail_covers_until _ _ _ _ Ht) as (Hx & _).
        unfold until in *. lia.
  - replace (((mo.2 : Z) =? 0) && (0 <? (m.2 : Z)) && (1 + m.1.1 + m.2 =? 1 + s)) with false.
    2:{ symmetry. apply not_true_is_false. rewrite !andb_true_iff, !Z.eqb_eq, Z.ltb_lt. unfold until in *. lia. }
    exists q, m, l. split_and!; [done|done|constructor|done|]. intros. tauto.
Qed.

(** Both lists at the sync point [s]. *)
Record synced {A} (X Y W : list A) (om ol : list triple) (s : nat) (mo : triple) (lo : list triple)
    (ml : triple) (ll : list triple) : Prop := {
  sy_om : skips s om (mo :: lo);
  sy_ol : skips s ol (ml :: ll);
  sy_max : s = (mo.1.1 `max` ml.1.1)%nat;
  sy_mo : (s <= until mo)%nat;
  sy_ml : (s <= until ml)%nat;
  sy_end_mo : ml.2 = 0%nat -> (0 < mo.2)%nat -> until mo = s -> follows mo lo;
  sy_end_ml : mo.2 = 0%nat -> (0 < ml.2)%nat -> until ml = s -> follows ml ll
}.

Lemma find_sync_spec {A} (X Y W : list A) R R' fuel : forall p q om ol,
  reads R store ns p om -> tail_covers X Y om -> reads R' store ns q ol -> tail_covers X W ol ->
  (length om <= length ns)%nat -> (length ol <= length ns)%nat -> (length om + length ol <= fuel)%nat ->
  exists s p' q' mo lo ml ll, find_sync store ns fuel p q = Ok (1 + Z.of_nat s, p', q') /\
    reads R store ns p' (mo :: lo) /\ reads R' store ns q' (ml :: ll) /\ synced X Y W om ol s mo lo ml ll.
Proof.
  induction fuel as [|f IH]; intros p q om ol Hp Ho Hq Hl Lo Ll Hf.
  { destruct om; simpl in *; [done|lia]. }
  destruct om as [|mo lo]; [done|]. destruct ol as [|ml ll]; [done|]. cbn [find_sync].
  rewrite (read_match_spec _ _ _ _ _ _ Hp), (read_match_spec _ _ _ _ _ _ Hq). cbn [mbind result_bind].
  destruct (tail_covers_until _ _ _ _ Ho) as (Hxo & _ & Hzo). destruct (tail_covers_until _ _ _ _ Hl) as (Hxl & _ & Hzl).
  destruct (Z.ltb_spec (1 + ml.1.1) (1 + mo.1.1)) as [Hlt|Hge].
  - destruct (skip_before_spec X W R' mo.1.1 (length ns) q (ml :: ll) Hq Hl) as (q1 & m1 & l1 & -> & Hq1 & Hs1 & Hu1);
      [unfold until in *; lia|lia|]. cbn [mbind result_bind].
    pose proof (skips_tail _ _ _ _ _ Hs1 Hl) as Hl1.
    destruct (skip_to_eof_spec X Y W R R' mo.1.1 p mo lo q1 m1 l1) as (q2 & m2 & l2 & -> & Hq2 & Hs2 & Hu2 & He2);
      [done..|]. cbn [mbind result_bind].
    pose proof (skips_tail _ _ _ _ _ Hs2 Hl1) as Hl2. pose proof (skips_trans _ _ _ _ Hs1 Hs2) as Hs.
    rewrite (read_match_spec _ _ _ _ _ _ Hq2). cbn [mbind result_bind].
    destruct (Z.leb_spec (1 + m2.1.1) (1 + mo.1.1)) as [Hle|Hgt].
    + exists mo.1.1, p, q2, mo, lo, m2, l2. split_and!; [done|done|done|]. split; [constructor|done|lia|unfold until; lia|done| |done].
      intros Hz Hmo _. destruct (tail_covers_end _ _ _ _ Hl2 Hz) as (Ea & _). unfold until in *; lia.
    + pose proof (skips_start _ _ _ _ _ _ _ Hs Hl) as [Hst _].
      pose proof (skips_suffix _ _ _ Hs) as Hsuf. pose proof (suffix_length _ _ Hsuf) as Hlen.
      assert (length (m2 :: l2) <> length (ml :: ll)) as Hne.
      { intros E. destruct Hsuf as [k Ek]. pose proof (f_equal length Ek) as E'. rewrite length_app in E'.
        assert (k = []) as -> by (destruct k; [done|simpl in *; lia]). injection Ek as -> ->. lia. }
      destruct (IH p q2 (mo :: lo) (m2 :: l2)) as (s & p' & q' & mo' & lo' & ml' & ll' & -> & Hp' & Hq' & Hsy); [done..|lia|lia|].
      exists s, p', q', mo', lo', ml', ll'. split_and!; [done|done|done|]. destruct Hsy as [Hy1 Hy2 Hy3 Hy4 Hy5 Hy6 Hy7].
      split; [done| |done..]. eapply skips_trans; [|exact Hy2]. eapply skips_later; [exact Hs|].
      pose proof (skips_start _ _ _ _ _ _ _ Hy2 Hl2). lia.
  - destruct (skip_before_spec X Y R ml.1.1 (length ns) p (mo :: lo) Hp Ho) as (p1 & m1 & l1 & -> & Hp1 & Hs1 & Hu1);
      [unfold until in *; lia|lia|]. cbn [mbind result_bind].
    pose proof (skips_tail _ _ _ _ _ Hs1 Ho) as Ho1.
    destruct (skip_to_eof_spec X W Y R' R ml.1.1 q ml ll p1 m1 l1) as (p2 & m2 & l2 & -> & Hp2 & Hs2 & Hu2 & He2);
      [done..|]. cbn [mbind result_bind].
    pose proof (skips_tail _ _ _ _ _ Hs2 Ho1) as Ho2. pose proof (skips_trans _ _ _ _ Hs1 Hs2) as Hs.
    rewrite (read_match_spec _ _ _ _ _ _ Hp2). cbn [mbind result_bind].
    destruct (Z.leb_spec (1 + m2.1.1) (1 + ml.1.1)) as [Hle|Hgt].
    + exists ml.1.1, p2, q, m2, l2, ml, ll. split_and!; [done|done|done|]. split; [done|constructor|lia|done|unfold until; lia|done|].
      intros Hz Hml _. destruct (tail_covers_end _ _ _ _ Ho2 Hz) as (Ea & _). unfold until in *; lia.
    + pose proof (skips_start _ _ _ _ _ _ _ Hs Ho) as [Hst _].
      pose proof (skips_suffix _ _ _ Hs) as Hsuf. pose proof (suffix_length _ _ Hsuf) as Hlen.
      assert (length (m2 :: l2) <> length (mo :: lo)) as Hne.
      { intros E. destruct Hsuf as [k Ek]. pose proof (f_equal length Ek) as E'. rewrite length_app in E'.
        assert (k = []) as -> by (destruct k; [done|simpl in *; lia]). injection Ek as -> ->. lia. }
      destruct (IH p2 q (m2 :: l2) (ml :: ll)) as (s & p' & q' & mo' & lo' & ml' & ll' & -> & Hp' & Hq' & Hsy); [done|done|done|done|lia|lia|lia|].
      exists s, p', q', mo', lo', ml', ll'. split_and!; [done|done|done|]. destruct Hsy as [Hy1 Hy2 Hy3 Hy4 Hy5 Hy6 Hy7].
      split; [|done..]. eapply skips_trans; [|exact Hy1]. eapply skips_later; [exact Hs|].
      pose proof (skips_start _ _ _ _ _ _ _ Hy1 Ho2). lia.
Qed.
End Sync.

(** ** Places in a list of matches *)

Lemma take_drop_part {A} (X Y : list A) n a b d c : take n (drop a X) = take n (drop b Y) -> (d + c <= n)%nat ->
  take c (drop (a + d) X) = take c (drop (b + d) Y).
Proof.
  intros E Hn. rewrite <- !drop_drop. apply (f_equal (fun l => take c (drop d l))) in E.
  rewrite !skipn_firstn_comm, !take_take, !Nat.min_l in E by lia. done.
Qed.

Section Places.
Context {A : Type} (X Y : list A).

(** The lines [i] and [j] are in front of the first match, or the same lines
    within it. *)
Definition place_at (i j : nat) (l : list triple) : Prop :=
  match l with
  | [] => False
  | m :: _ => (i <= m.1.1 /\ j <= m.1.2)%nat \/ (m.1.1 <= i /\ i < until m /\ m.1.1 + j = m.1.2 + i)%nat
  end.

Definition ahead (i : nat) (l : list triple) : Prop :=
  match l with [] => False | m :: _ => (i <= m.1.1)%nat end.

(** From the match at the sync point on. *)
Lemma sync_range s l m l' i j : tail_covers X Y l -> place_at i j l -> skips s l (m :: l') ->
  (m.1.1 <= s <= until m)%nat -> (i <= s)%nat ->
  (j <= m.1.2 + (s - m.1.1) <= length Y)%nat /\ (s <= length X)%nat /\
  ((m.1.1 <= i)%nat -> (m.1.2 <= j)%nat ->
   (m.1.1 + j = m.1.2 + i)%nat /\ take (s - i) (drop i X) = take (s - i) (drop j Y)).
Proof.
  intros Ht Hp Hs Hms His. pose proof (skips_tail _ _ _ _ _ Hs Ht) as Ht'.
  destruct (tail_covers_until _ _ _ _ Ht') as (Hx & Hy & _).
  assert ((j <= m.1.2 + (s - m.1.1))%nat /\ ((m.1.1 <= i)%nat -> (m.1.2 <= j)%nat -> (m.1.1 + j = m.1.2 + i)%nat)) as [Hj Hd].
  { destruct l as [|m0 l0]; [done|]. cbn in Hp. inversion Hs as [|? m1 l1 ? Hm0 Hc Hs']; subst; [lia|].
    destruct (tail_covers_match _ _ _ _ Ht Hm0) as (_ & _ & _ & Ht1 & m2 & l2 & [= <- <-] & Ha & Hb).
    destruct (skips_start _ _ _ _ _ _ _ Hs' Ht1). unfold until in *. lia. }
  split; [unfold until in *; lia|]. split; [unfold until in *; lia|]. intros Hi Hj'. split; [auto|].
  destruct (decide (m.2 = 0%nat)) as [E|E].
  { replace (s - i)%nat with 0%nat by (unfold until in *; lia). by rewrite !take_0. }
  destruct (tail_covers_match _ _ _ _ Ht') as (Eq & _); [lia|]. specialize (Hd Hi Hj').
  replace i with (m.1.1 + (i - m.1.1))%nat by lia. replace j with (m.1.2 + (i - m.1.1))%nat by lia.
  apply (take_drop_part _ _ m.2); [done|unfold until in *; lia].
Qed.

(** At the end of the original. *)
Lemma sync_end s l m l' : tail_covers X Y l -> skips s l (m :: l') -> (m.1.1 <= s <= until m)%nat -> s = length X ->
  ((0 < m.2)%nat -> until m = s -> follows m l') -> (m.1.2 + (s - m.1.1))%nat = length Y.
Proof.
  intros Ht Hs Hms -> Hf. pose proof (skips_tail _ _ _ _ _ Hs Ht) as Ht'.
  destruct (decide (m.2 = 0%nat)) as [E|E].
  { destruct (tail_covers_end _ _ _ _ Ht' E) as (? & ? & _). lia. }
  destruct (tail_covers_match _ _ _ _ Ht') as (_ & Hx & Hy & Ht2 & m' & l2 & -> & Ha & Hb); [lia|].
  assert (until m = length X) as Eu by lia. specialize (Hf ltac:(lia) Eu). cbn in Hf.
  destruct (tail_covers_until _ _ _ _ Ht2) as (Hx2 & _ & H0).
  destruct (tail_covers_end _ _ _ _ Ht2) as (_ & Hb2 & _); [apply H0; unfold until in *; lia|]. unfold until in *. lia.
Qed.

(** Common lines behind the sync point. *)
Lemma sync_common s c l m l' : tail_covers X Y l -> skips s l (m :: l') -> (m.1.1 <= s)%nat -> (s + c <= until m)%nat ->
  take c (drop s X) = take c (drop (m.1.2 + (s - m.1.1)) Y).
Proof.
  intros Ht Hs Hms Hc. pose proof (skips_tail _ _ _ _ _ Hs Ht) as Ht'.
  destruct (decide (m.2 = 0%nat)) as [E|E].
  { replace c with 0%nat by (unfold until in *; lia). by rewrite !take_0. }
  destruct (tail_covers_match _ _ _ _ Ht') as (Eq & _); [lia|].
  replace s with (m.1.1 + (s - m.1.1))%nat at 1 by lia.
  apply (take_drop_part _ _ m.2); [done|unfold until in *; lia].
Qed.
End Places.

(** The next match is one that ends behind what was processed. *)
Lemma skip_processed_spec {A} (X Y : list A) R store ns fuel p m l (s c : nat) :
  reads R store ns p (m :: l) -> tail_covers X Y (m :: l) -> (0 < m.2)%nat -> (0 < fuel)%nat ->
  (m.1.1 <= s)%nat -> (s + c <= until m)%nat ->
  exists p' l2, skip_processed store ns fuel p (1 + s + c) = Ok p' /\ reads R store ns p' l2 /\
    ((until m = (s + c)%nat /\ l2 = l /\ ahead (s + c) l2) \/ ((s + c < until m)%nat /\ l2 = m :: l)) /\
    place_at (s + c) (m.1.2 + (s - m.1.1) + c) l2.
Proof.
  intros Hr Ht Hm Hf Hs Hc. destruct fuel as [|f]; [lia|]. cbn [skip_processed].
  rewrite (read_match_spec _ _ _ _ _ _ Hr). cbn [mbind result_bind]. rewrite (proj2 (Z.ltb_lt 0 _)), andb_true_r by lia.
  destruct (tail_covers_match _ _ _ _ Ht Hm) as (_ & _ & _ & Ht' & m' & l' & -> & Ha & Hb).
  destruct (Z.leb_spec (1 + m.1.1 + m.2) (1 + s + c)) as [Hle|Hgt].
  - destruct (next_match_spec _ _ _ _ _ _ _ Hr) as (p' & -> & Hr'). cbn [mbind result_bind].
    exists p', (m' :: l'). split_and!; [|done|left; split_and!; [unfold until in *; lia|done|cbn; unfold until in *; lia]|left; unfold until in *; lia].
    destruct f as [|f]; cbn [skip_processed]; rewrite (read_match_spec _ _ _ _ _ _ Hr'); cbn [mbind result_bind];
      (replace ((1 + m'.1.1 + m'.2 <=? 1 + s + c) && (0 <? (m'.2 : Z))) with false; [done|]);
      symmetry; apply not_true_is_false; rewrite andb_true_iff, Z.leb_le, Z.ltb_lt; unfold until in *; lia.
  - exists p, (m :: m' :: l'). split_and!; [done|done|right; split; [unfold until; lia|done]|].
    right. unfold until in *. lia.
Qed.

(** ** One of the two comparisons *)

(** The list of matches of the sources [X] and [Y], which have [S_] lines in
    common at the end; in front of these are [E0] and [E1] lines. *)
Section Side.
Context (E0 E1 S_ : nat).

Definition end_match : triple := ((E0 + S_)%nat, (E1 + S_)%nat, 0%nat).
Definition suffix_match : triple := (E0, E1, S_).

Inductive shape : list triple -> Prop :=
  | shape_end : shape [end_match]
  | shape_suffix : (0 < S_)%nat -> shape [suffix_match; end_match]
  | shape_match m l : (0 < m.2)%nat -> (until m <= E0)%nat -> (m.1.2 + m.2 <= E1)%nat ->
      shape l -> (l = [end_match] -> S_ = 0%nat) -> shape (m :: l).

Lemma skips_shape s l l' : skips s l l' -> shape l -> shape l'.
Proof. induction 1 as [|m m' l l' Hm _ H IH]; [done|]. inversion 1; subst; [apply IH; constructor|by apply IH]. Qed.

(** The common lines at the end are not left out. *)
Lemma skips_not_end s l : (0 < S_)%nat -> shape l -> skips s l [end_match] -> (s <= E0 + S_)%nat -> l = [end_match].
Proof.
  intros HS Hsh Hs Hle. remember [end_match] as e eqn:Ee. revert Hsh Ee.
  induction Hs as [l|m m' l l' Hm Hc H IH]; intros Hsh ->; [done|]. exfalso.
  inversion Hsh as [|HS' Em|? ? _ _ _ Hsh' Hend]; subst.
  - unfold until, suffix_match, end_match in *. cbn in *. lia.
  - specialize (IH Hsh' eq_refl). specialize (Hend IH). lia.
Qed.

(** Each match follows the one in front of it at once. *)
Fixpoint adjacent (l : list triple) : Prop :=
  match l with
  | m :: ((m' :: _) as l') => m'.1.1 = until m /\ m'.1.2 = (m.1.2 + m.2)%nat /\ adjacent l'
  | _ => True
  end.

(** Up to the end the sources are the same from [i] and [j] on, as far as the
    matches tell. *)
Definition flush (i j : nat) (l : list triple) : Prop :=
  match l with
  | [] => False
  | m :: _ => adjacent l /\ (E0 <= until m)%nat /\ (m.1.1 <= i)%nat /\ (m.1.2 <= j)%nat
  end.

Lemma flush_end i j : (E0 + S_ <= i)%nat -> (E1 + S_ <= j)%nat -> flush i j [end_match].
Proof. intros. cbn. unfold until. cbn. lia. Qed.

Lemma flush_suffix i j : (E0 <= i)%nat -> (E1 <= j)%nat -> flush i j [suffix_match; end_match].
Proof. intros. cbn. unfold until. cbn. lia. Qed.

(** ** The list of positions of the second source *)

Context (ps : list nat) (T : bytes) (P : nat).

Definition ring_pointer (q : option nat) (b : nat) : Prop := (P <= b < E1)%nat -> q = ps !! (b - P)%nat.

(** The pointer [p] is to a position not behind the line [j], from which on the
    list is as it was. *)
Definition ring_at (store : position_store) (p : option nat) (j : nat) : Prop :=
  exists x, (x <= length T)%nat /\ p = ps !! x /\ run store (drop x ps) (drop x T) (1 + P + x) /\ (P + x <= j)%nat.

Lemma ring_at_prefix store store' p j j' : store `prefix_of` store' -> (j <= j')%nat -> ring_at store p j -> ring_at store' p j'.
Proof.
  intros Hp Hj (x & Hx & -> & Hr & Hxj). exists x. split_and!; [done|done|by eapply run_prefix|lia].
Qed.

(** Unless nothing is left to compare. *)
Definition list_at (store : position_store) (p : option nat) (i j : nat) (l : list triple) : Prop :=
  ring_at store p j \/ (flush i j l /\ exists q, get_position store p = Ok q).

Context {A : Type} (X Y : list A).

Record side (store : position_store) (ns : lcs_store) (p lcs : option nat) (l : list triple) (i j : nat) : Prop := {
  sd_reads : reads ring_pointer store ns lcs l;
  sd_covers : tail_covers X Y l;
  sd_shape : shape l;
  sd_place : place_at i j l;
  sd_end : (0 < S_)%nat -> l = [end_match] -> i = length X /\ j = length Y;
  sd_list : list_at store p i j l;
  sd_fits : (length l <= length ns)%nat
}.

Lemma shape_head m l : shape (m :: l) ->
  (m = end_match /\ l = []) \/ (m = suffix_match /\ l = [end_match] /\ (0 < S_)%nat) \/
  ((0 < m.2)%nat /\ (until m <= E0)%nat /\ (m.1.2 + m.2 <= E1)%nat /\ shape l /\ (l = [end_match] -> S_ = 0%nat)).
Proof. inversion 1; subst; [by left|by right; left|right; right; by split_and!]. Qed.

(** At the end of the original only the end is left. *)
Lemma place_end l i j : length X = (E0 + S_)%nat -> tail_covers X Y l -> shape l -> place_at i j l -> i = length X -> l = [end_match].
Proof.
  intros HX Ht Hsh Hp ->. destruct l as [|m l]; [done|]. destruct (tail_covers_until _ _ _ _ Ht) as (Hu & _ & H0).
  cbn in Hp. assert (m.2 = 0%nat) as E by (unfold until in *; lia).
  destruct (shape_head _ _ Hsh) as [[-> ->]|[(-> & _ & ?)|(? & _)]]; [done|simpl in E; lia|lia].
Qed.
End Side.

(** ** Flush lists *)

Section Flush.
Context (E0 E1 S_ : nat).

Lemma flush_stays s l m l' i j : shape E0 E1 S_ l -> flush E0 i j l -> skips s l (m :: l') -> (s <= E0 + S_)%nat ->
  ((0 < S_)%nat -> l <> [end_match E0 E1 S_] -> (s <= E0)%nat) -> l = m :: l'.
Proof.
  intros Hsh Hfl Hs Hx Hle. inversion Hs as [|m0 m1 l0 ? Hm Hc _]; subst; [done|]. exfalso.
  destruct Hfl as ((Ha & Hb & _) & Hu & _). destruct (decide (S_ = 0%nat)) as [HS|HS]; [lia|].
  specialize (Hle ltac:(lia) ltac:(done)). lia.
Qed.

Lemma flush_later i j i' j' l : flush E0 i j l -> (i <= i')%nat -> (j <= j')%nat -> flush E0 i' j' l.
Proof. destruct l; [done|]. intros (? & ? & ? & ?) ? ?. split_and!; [done|done|lia..]. Qed.

(** With the next match. *)
Lemma flush_next s c m l l2 t : flush E0 s t (m :: l) -> (m.1.1 <= s)%nat -> l2 <> [] ->
  (until m = (s + c)%nat /\ l2 = l) \/ l2 = m :: l -> (t = m.1.2 + (s - m.1.1))%nat ->
  flush E0 (s + c) (t + c) l2.
Proof.
  intros Hfl Hms Hne [[Hu ->]| ->] ->; [|eapply flush_later; [exact Hfl|lia..]].
  destruct l as [|m' l]; [done|]. destruct Hfl as ((Ha & Hb & Hadj) & H0 & _ & _). cbn.
  split_and!; [done|unfold until in *; lia..].
Qed.
End Flush.

Lemma list_at_later E ps T P store p a b b' l : list_at E ps T P store p a b l -> (b <= b')%nat -> list_at E ps T P store p a b' l.
Proof.
  intros [H|[Hf Hp]] Hb; [left; by eapply ring_at_prefix|right]. split; [|done]. eapply flush_later; [exact Hf|lia|done].
Qed.

(** What changed is in front of the common lines at the end. *)
Lemma limit_from_head E0 E' S_ m l s : shape E0 E' S_ (m :: l) -> (m.1.1 <= s <= until m)%nat ->
  ((0 < S_)%nat -> (s <= E0)%nat) -> (s <= E0 + S_)%nat -> (m.1.2 + (s - m.1.1) <= E')%nat.
Proof.
  intros Hsh Hms Hle Hx. destruct (decide (S_ = 0%nat)) as [HS|HS].
  - destruct (shape_head _ _ _ _ _ Hsh) as [[-> _]|[(-> & _ & ?)|(_ & Hu & Hb & _)]];
      [unfold end_match, until in *; cbn in *; lia|lia|unfold until in *; lia].
  - specialize (Hle ltac:(lia)). destruct (shape_head _ _ _ _ _ Hsh) as [[-> _]|[(-> & _ & ?)|(_ & Hu & Hb & _)]];
      [unfold end_match, suffix_match, until in *; cbn in *; lia..|unfold until in *; lia].
Qed.

(** ** From tokens to lines *)

Lemma range_split {A} (X : list A) (i s : nat) : (i <= s <= length X)%nat ->
  drop i X = take (s - i) (drop i X) ++ drop s X /\ length (take (s - i) (drop i X)) = (s - i)%nat.
Proof.
  intros H. split; [|rewrite length_take, length_drop; lia].
  rewrite <- (take_drop (s - i) (drop i X)) at 1. rewrite drop_drop. do 2 f_equal. lia.
Qed.

Lemma is_diff_some {A} (i j : nat) (B C : list (option A)) ds : is_diff i j B C ds ->
  forall b c, B = Some <$> b -> C = Some <$> c -> is_diff i j b c ds.
Proof.
  induction 1 as [i j|i j p X Y ds Hp Hd IH|i j a b X Y ds Hab Hd IH]; intros b0 c0 Eb Ec.
  - symmetry in Eb, Ec. apply fmap_nil_inv in Eb as ->. apply fmap_nil_inv in Ec as ->. constructor.
  - symmetry in Eb, Ec. apply fmap_app_inv in Eb as (b1 & b2 & E1 & E2 & ->). apply fmap_app_inv in Ec as (c1 & c2 & E3 & E4 & ->).
    rewrite E1 in E3. apply (inj (fmap Some)) in E3 as <-. subst p. rewrite length_fmap in *.
    apply is_diff_common; [|by apply IH]. by intros ->.
  - symmetry in Eb, Ec. apply fmap_app_inv in Eb as (b1 & b2 & -> & E2 & ->). apply fmap_app_inv in Ec as (c1 & c2 & -> & E4 & ->).
    rewrite !length_fmap in *. apply is_diff_modified; [|by apply IH].
    intros [-> ->]%app_eq_nil. done.
Qed.

Lemma tokens_part {A} (f : Z -> option A) (Y : list A) (T : bytes) (P j n : nat) :
  f <$> T = Some <$> take (length T) (drop P Y) -> (P <= j)%nat -> (j + n <= P + length T)%nat ->
  f <$> take n (drop (j - P) T) = Some <$> take n (drop j Y).
Proof.
  intros Hf HP Hn. rewrite fmap_take, fmap_drop, Hf, <- fmap_drop, <- fmap_take, skipn_firstn_comm, take_take, drop_drop.
  rewrite Nat.min_l by lia. by replace (P + (j - P))%nat with j by lia.
Qed.

(** The lines are as the tokens are. *)
Lemma resolution_lines {A} (f : Z -> option A) num hunk (j k : nat) (B C : bytes) (b c : list A) hunk' :
  resolution hunk j k B C hunk' -> f <$> B = Some <$> b -> f <$> C = Some <$> c ->
  (forall t u, 0 <= t < num -> 0 <= u < num -> f t = f u -> t = u) ->
  Forall (fun t => 0 <= t < num) B -> Forall (fun t => 0 <= t < num) C ->
  (b = c /\ hunk' = set_type hunk svn_diff__type_diff_common []) \/
  (b <> c /\ exists rs, hunk' = set_type hunk svn_diff__type_conflict rs /\
    ((j = 0%nat -> b = []) -> (k = 0%nat -> c = []) ->
     exists parts, is_diff j k b c parts /\ is_lcs b c (Z.to_nat (common_length parts)) /\
       rs = map (resolved_part hunk') parts)).
Proof.
  intros Hres Hb Hc Hinj HB HC. rewrite Forall_forall in HB, HC. destruct Hres as [[-> ->]|(Hne & rs & -> & Hparts)].
  - left. rewrite Hb in Hc. by apply (inj (fmap Some)) in Hc.
  - right. split.
    { intros ->. apply Hne. rewrite <- Hc in Hb. clear -Hb HB HC Hinj. revert C Hb HC.
      induction B as [|t B IH]; intros [|u C] E HC; [done..|]. cbn in E. injection E as Et E.
      f_equal; [apply Hinj; [apply HB|apply HC|done]; left|].
      apply IH; [intros; apply HB; by right|done|intros; apply HC; by right]. }
    exists rs. split; [done|]. intros Hj Hk. destruct Hparts as (parts & Hd & Hl & ->).
    { intros E. apply Hj in E. subst b. by apply fmap_nil_inv in Hb. }
    { intros E. apply Hk in E. subst c. by apply fmap_nil_inv in Hc. }
    exists parts. split_and!; [| |done].
    + apply (is_diff_fmap f) in Hd. rewrite Hb, Hc in Hd. by eapply is_diff_some.
    + apply (is_lcs_tokens f b c B C); [done|done| |done]. intros t u Ht Hu. apply Hinj; [by apply HB|by apply HC].
Qed.

(** The list of positions from the line [j] on. *)
Lemma ring_seek ps T P store p (j n : nat) : ring_at ps T P store p j -> (j + n <= P + length T)%nat ->
  (P <= j)%nat /\ seek_loop (length store) store p (j + 1) = Ok (drop (j - P) ps !! 0%nat) /\
  run store (drop (j - P) ps) (drop (j - P) T) (1 + j) /\ (n <= length (drop (j - P) T))%nat.
Proof.
  intros (x & Hx & -> & Hr & Hxj) Hn. split; [lia|].
  assert (drop (j - P - x) (drop x ps) = drop (j - P) ps /\ drop (j - P - x) (drop x T) = drop (j - P) T) as [Ep ET]
    by (rewrite !drop_drop; split; f_equal; lia).
  split_and!.
  - assert (ps !! x = drop x ps !! 0%nat) as -> by (by rewrite lookup_drop, Nat.add_0_r).
    replace (j + 1) with (1 + P + x + (j - P - x)%nat) by lia.
    pose proof (run_fits _ _ _ _ Hr) as Hfit. rewrite length_drop in Hfit.
    rewrite (seek_loop_spec _ _ _ _ (j - P - x) (length store) 0 Hr) by (rewrite ?length_drop; lia).
    rewrite !lookup_drop. do 2 f_equal. lia.
  - apply (run_drop _ _ _ _ (j - P - x)) in Hr; [|rewrite length_drop; lia]. rewrite Ep, ET in Hr.
    by replace (1 + j) with (1 + P + x + (j - P - x)%nat) by lia.
  - rewrite length_drop. lia.
Qed.

(** ** One side of the next round *)

Section NextSide.
Context {A : Type} (X Y : list A) (E0 E1 S_ P : nat) (ps : list nat) (T : bytes).
Hypothesis HX : length X = (E0 + S_)%nat.
Hypothesis HY : length Y = (E1 + S_)%nat.
Hypothesis HT : E1 = (P + length T)%nat.

Notation side := (side E0 E1 S_ ps T P X Y).

Context (store : position_store) (ns : lcs_store) (p q : option nat) (m : triple) (l l2 : list triple) (s c : nat).
Let t := (m.1.2 + (s - m.1.1))%nat.
Hypothesis Hr : reads (ring_pointer E1 ps P) store ns q (m :: l).
Hypothesis Hsh : shape E0 E1 S_ (m :: l).
Hypothesis Hm : (0 < m.2)%nat.
Hypothesis Hs : (m.1.1 <= s)%nat.
Hypothesis Hc : (s + c <= until m)%nat.
Hypothesis Hl2 : l2 <> [].
Hypothesis Hnext : (until m = (s + c)%nat /\ l2 = l) \/ l2 = m :: l.

(** The list of positions keeps up with the matches. *)
Lemma move_list_spec : ring_at ps T P store p t \/ (flush E0 s t (m :: l) /\ exists x, get_position store p = Ok x) ->
  exists p', move_list store ns p q = Ok p' /\ list_at E0 ps T P store p' (s + c) (t + c) l2.
Proof using All.
  intros Hlist. destruct Hr as (n & (Hg & _ & HR & _ & p1 & _ & H1 & _ & O1) & _). unfold move_list. rewrite Hg. cbn [mbind result_bind].
  destruct Hlist as [(x & Hx & -> & Hrun & Hxt)|[Hfl [pos Hpos]]].
  - destruct (run_offset _ _ _ _ 0 Hrun) as (a & pos & _ & Hpos & Opos); [lia|].
    rewrite lookup_drop, Nat.add_0_r in Hpos. rewrite Hpos. cbn [mbind result_bind]. rewrite H1. cbn [mbind result_bind].
    eexists. split; [done|]. rewrite Opos, O1. destruct (Z.ltb_spec (1 + P + x + 0%nat) (1 + m.1.2)) as [Hlt|Hge].
    + destruct (decide (m.1.2 < E1)%nat) as [Hin|Hout].
      * left. exists (m.1.2 - P)%nat. split_and!; [lia|apply HR; [done|lia]| |unfold t; lia].
        apply (run_drop _ _ _ _ (m.1.2 - P - x)) in Hrun; [|rewrite length_drop; lia]. rewrite !drop_drop in Hrun.
        replace (x + (m.1.2 - P - x))%nat with (m.1.2 - P)%nat in Hrun by lia.
        by replace (1 + P + (m.1.2 - P)%nat) with (1 + P + x + (m.1.2 - P - x)%nat) by lia.
      * right. split; [|by exists p1]. eapply (flush_next E0); [|exact Hs|done|exact Hnext|done].
        destruct (shape_head _ _ _ _ _ Hsh) as [[Em _]|[(Em & El & _)|(_ & _ & Hb & _)]]; [rewrite Em in Hm; unfold end_match in Hm; simpl in Hm; lia| |lia].
        assert (m.1.1 = E0 /\ m.1.2 = E1) as [Ea Eb] by by rewrite Em. rewrite Em at 1. rewrite El. apply flush_suffix; unfold t; lia.
    + left. exists x. split_and!; [done|done|done|lia].
  - rewrite Hpos. cbn [mbind result_bind]. rewrite H1. cbn [mbind result_bind]. eexists. split; [done|]. right. split.
    + by eapply (flush_next E0).
    + destruct (_ <? _); [by exists p1|by exists pos].
Qed.

(** The end is only left at the end of both sources. *)
Lemma next_end : (0 < S_)%nat -> l2 = [end_match E0 E1 S_] -> (s + c)%nat = length X /\ (t + c)%nat = length Y.
Proof using All.
  intros HS E. destruct Hnext as [[Hu El]|El]; rewrite El in E.
  - destruct (shape_head _ _ _ _ _ Hsh) as [[Em _]|[(Em & _ & _)|(_ & _ & _ & _ & H0)]];
      [rewrite Em in Hm; unfold end_match in Hm; simpl in Hm; lia| |specialize (H0 E); lia].
    unfold t. rewrite Em in *. unfold until, suffix_match in *. simpl in *. lia.
  - injection E as Em _. rewrite Em in Hm. unfold end_match in Hm. simpl in Hm. lia.
Qed.
End NextSide.

Lemma side_next {A} (X Y : list A) E0 E1 S_ P ps T store ns p q m l (s c : nat) :
  length X = (E0 + S_)%nat -> length Y = (E1 + S_)%nat -> E1 = (P + length T)%nat ->
  reads (ring_pointer E1 ps P) store ns q (m :: l) -> tail_covers X Y (m :: l) -> shape E0 E1 S_ (m :: l) ->
  (0 < m.2)%nat -> (m.1.1 <= s)%nat -> (s + c <= until m)%nat -> (length (m :: l) <= length ns)%nat ->
  ring_at ps T P store p (m.1.2 + (s - m.1.1)) \/
    (flush E0 s (m.1.2 + (s - m.1.1)) (m :: l) /\ exists x, get_position store p = Ok x) ->
  exists p' q' l2, move_list store ns p q = Ok p' /\ skip_processed store ns (length ns) q (1 + s + c) = Ok q' /\
    side E0 E1 S_ ps T P X Y store ns p' q' l2 (s + c) (m.1.2 + (s - m.1.1) + c) /\
    (length l2 <= length (m :: l))%nat /\
    (until m = (s + c)%nat -> (length l2 < length (m :: l))%nat /\ ahead (s + c) l2) /\
    (flush E0 s (m.1.2 + (s - m.1.1)) (m :: l) -> flush E0 (s + c) (m.1.2 + (s - m.1.1) + c) l2).
Proof.
  intros HX HY HT Hr Ht Hsh Hm Hs Hc Hfit Hlist.
  destruct (skip_processed_spec X Y _ store ns (length ns) q m l s c Hr Ht Hm) as (q' & l2 & Eq & Hr2 & Hl2 & Hpl);
    [simpl in Hfit; lia|done|done|].
  assert (l2 <> []) as Hne by (by destruct l2).
  assert ((until m = (s + c)%nat /\ l2 = l) \/ l2 = m :: l) as Hnext by naive_solver.
  destruct (move_list_spec X Y E0 E1 S_ P ps T HX HY HT store ns p q m l l2 s c Hr Hsh Hm Hs Hc Hne Hnext Hlist) as (p' & Ep & Hp').
  exists p', q', l2. split_and!; [done|done| | | |].
  - split; [done| | |done| |done|].
    + destruct Hnext as [[_ ->]| ->]; [|done]. by apply (tail_covers_match X Y m l Ht Hm).
    + destruct Hnext as [[_ ->]| ->]; [|done]. inversion Hsh; subst; [done|constructor|done].
    + by eapply next_end.
    + destruct Hnext as [[_ ->]| ->]; [|done]. simpl in *. lia.
  - destruct Hnext as [[_ ->]| ->]; simpl; lia.
  - intros Hu. destruct Hl2 as [(_ & -> & Ha)|[? _]]; [|lia]. split; [simpl; lia|done].
  - intros Hfl. by eapply flush_next.
Qed.

(** ** The walk *)

Section Merge.
Context {A : Type} (X Y W : list A) (E0 E1 E2 S_ P : nat).
Hypothesis HX : length X = (E0 + S_)%nat.
Hypothesis HY : length Y = (E1 + S_)%nat.
Hypothesis HW : length W = (E2 + S_)%nat.
Context (ps1 ps2 : list nat) (T1 T2 : bytes) (num : Z) (f : Z -> option A).
Hypothesis HT1 : E1 = (P + length T1)%nat.
Hypothesis HT2 : E2 = (P + length T2)%nat.
Hypothesis Hdisj : forall a, a ∈ ps1 -> a ∉ ps2.
Hypothesis Hb1 : Forall (fun t => 0 <= t < num) T1.
Hypothesis Hb2 : Forall (fun t => 0 <= t < num) T2.
Hypothesis Hf1 : f <$> T1 = Some <$> take (length T1) (drop P Y).
Hypothesis Hf2 : f <$> T2 = Some <$> take (length T2) (drop P W).
Hypothesis Hinj : forall t u, 0 <= t < num -> 0 <= u < num -> f t = f u -> t = u.

Notation sideM := (side E0 E1 S_ ps1 T1 P X Y).
Notation sideL := (side E0 E2 S_ ps2 T2 P X W).

Lemma sync_suffix store ns p1 p2 q1 q2 om ol i j k s mo lo ml ll :
  sideM store ns p1 q1 om i j -> sideL store ns p2 q2 ol i k -> synced X Y W om ol s mo lo ml ll ->
  (0 < S_)%nat -> om <> [end_match E0 E1 S_] -> (s <= E0)%nat.
Proof using All.
  intros [_ Hco Hso Hpo _ _ _] [_ Hcl Hsl _ Hel _ _] [Ho Hl Hmax Hmo Hml _ _] HS Hne.
  assert (ol <> [end_match E0 E2 S_]) as Hne'.
  { intros E. destruct (Hel HS E) as [Hi _]. apply Hne. by eapply (place_end E0 E1 S_ X Y). }
  pose proof (skips_tail _ _ _ _ _ Ho Hco) as Hco'. pose proof (skips_tail _ _ _ _ _ Hl Hcl) as Hcl'.
  destruct (tail_covers_until _ _ _ _ Hco') as (Hxo & _). destruct (tail_covers_until _ _ _ _ Hcl') as (Hxl & _).
  pose proof (skips_shape _ _ _ _ _ _ Ho Hso) as Hso'. pose proof (skips_shape _ _ _ _ _ _ Hl Hsl) as Hsl'.
  assert (mo.1.1 <= E0)%nat as Ha.
  { destruct (shape_head _ _ _ _ _ Hso') as [[-> ->]|[(-> & _)|(_ & Hu & _)]]; [|done|unfold until in *; lia].
    exfalso. apply Hne. eapply skips_not_end; [done|done|exact Ho|lia]. }
  assert (ml.1.1 <= E0)%nat as Hb.
  { destruct (shape_head _ _ _ _ _ Hsl') as [[-> ->]|[(-> & _)|(_ & Hu & _)]]; [|done|unfold until in *; lia].
    exfalso. apply Hne'. eapply skips_not_end; [done|done|exact Hl|lia]. }
  lia.
Qed.

(** Whether the first comparison has a difference in front of the sync point. *)
Definition changed (m : triple) (i j : nat) : bool :=
  (0 <? 1 + m.1.1 - (1 + i)) || (0 <? 1 + m.1.2 - (1 + j)).

Lemma changed_false m i j : changed m i j = false <-> (m.1.1 <= i /\ m.1.2 <= j)%nat.
Proof. unfold changed. rewrite orb_false_iff, !Z.ltb_ge. lia. Qed.

Lemma changed_true m i j : changed m i j = true <-> (i < m.1.1 \/ j < m.1.2)%nat.
Proof. unfold changed. rewrite orb_true_iff, !Z.ltb_lt. lia. Qed.

(** A round of the loop starts with both comparisons at the same place. *)
Record round (store : position_store) (ns : lcs_store) (p1 p2 q1 q2 : option nat) (om ol : list triple) (i j k s : nat)
    (mo : triple) (lo : list triple) (ml : triple) (ll : list triple) : Prop := {
  rd_om : sideM store ns p1 q1 om i j;
  rd_ol : sideL store ns p2 q2 ol i k;
  rd_ahead : ahead i om \/ ahead i ol;
  rd_sync : synced X Y W om ol s mo lo ml ll
}.

Section Round.
Context (store : position_store) (ns : lcs_store) (p1 p2 q1 q2 : option nat) (om ol : list triple) (i j k s : nat).
Context (mo : triple) (lo : list triple) (ml : triple) (ll : list triple).
Hypothesis Hrd : round store ns p1 p2 q1 q2 om ol i j k s mo lo ml ll.

Let t := (mo.1.2 + (s - mo.1.1))%nat.
Let u := (ml.1.2 + (s - ml.1.1))%nat.

Lemma round_bounds : (i <= s <= length X)%nat /\ (mo.1.1 <= s <= until mo)%nat /\ (ml.1.1 <= s <= until ml)%nat /\
  (j <= t <= length Y)%nat /\ (k <= u <= length W)%nat.
Proof using All.
  destruct Hrd as [[_ Hco Hso Hpo _ _ _] [_ Hcl Hsl Hpl Hel _ _] Hah [Ho Hl Hmax Hmo Hml _ _]].
  assert (i <= s)%nat as His.
  { destruct om as [|m1 l1]; [done|]. destruct ol as [|m2 l2]; [done|].
    destruct (skips_start _ _ _ _ _ _ _ Ho Hco). destruct (skips_start _ _ _ _ _ _ _ Hl Hcl). cbn in Hah. lia. }
  destruct (sync_range X Y s om mo lo i j Hco Hpo Ho) as ((? & ?) & ? & _); [lia|lia|].
  destruct (sync_range X W s ol ml ll i k Hcl Hpl Hl) as ((? & ?) & ? & _); [lia|lia|].
  unfold t, u. lia.
Qed.

(** Both versions end at the end of the original. *)
Lemma last_round : mo.2 = 0%nat \/ ml.2 = 0%nat -> s = length X /\ t = length Y /\ u = length W.
Proof using All.
  intros Hz. pose proof round_bounds as (Hs & Hmo & Hml & _).
  destruct Hrd as [[_ Hco Hso Hpo _ _ _] [_ Hcl Hsl Hpl Hel _ _] Hah [Ho Hl Hmax _ _ Hfo Hfl]].
  pose proof (skips_tail _ _ _ _ _ Ho Hco) as Hco'. pose proof (skips_tail _ _ _ _ _ Hl Hcl) as Hcl'.
  destruct (tail_covers_until _ _ _ _ Hco') as (_ & _ & H0). destruct (tail_covers_until _ _ _ _ Hcl') as (_ & _ & H0').
  assert (s = length X) as Es.
  { destruct Hz as [Hz|Hz]; [destruct (tail_covers_end _ _ _ _ Hco' Hz) as (? & _)|destruct (tail_covers_end _ _ _ _ Hcl' Hz) as (? & _)]; lia. }
  split; [done|]. split.
  - apply (sync_end X Y s om mo lo Hco Ho Hmo Es). intros Hm Hu. destruct Hz as [Hz|Hz]; [lia|]. auto.
  - apply (sync_end X W s ol ml ll Hcl Hl Hml Es). intros Hm Hu. destruct Hz as [Hz|Hz]; [auto|lia].
Qed.

(** Where nothing changed, the version has the lines of the original. *)
Lemma round_same1 : changed mo i j = false ->
  (s - i = t - j)%nat /\ take (s - i) (drop i X) = take (t - j) (drop j Y).
Proof using All.
  intros [Ha Hb]%changed_false. pose proof round_bounds as (Hs & Hmo & Hml & _).
  destruct Hrd as [[_ Hco Hso Hpo _ _ _] _ _ [Ho Hl Hmax _ _ Hfo Hfl]].
  destruct (sync_range X Y s om mo lo i j Hco Hpo Ho) as (_ & _ & H); [lia|lia|]. destruct (H Ha Hb) as [E Eq].
  replace (t - j)%nat with (s - i)%nat by (unfold t; lia). done.
Qed.

Lemma round_same2 : changed ml i k = false ->
  (s - i = u - k)%nat /\ take (s - i) (drop i X) = take (u - k) (drop k W).
Proof using All.
  intros [Ha Hb]%changed_false. pose proof round_bounds as (Hs & Hmo & Hml & _).
  destruct Hrd as [_ [_ Hcl Hsl Hpl Hel _ _] _ [Ho Hl Hmax _ _ Hfo Hfl]].
  destruct (sync_range X W s ol ml ll i k Hcl Hpl Hl) as (_ & _ & H); [lia|lia|]. destruct (H Ha Hb) as [E Eq].
  replace (u - k)%nat with (s - i)%nat by (unfold u; lia). done.
Qed.

Lemma round_stays1 b : flush E0 i b om -> om = mo :: lo.
Proof using All.
  intros Hfl. pose proof round_bounds as (Hs & _).
  destruct Hrd as [Hso Hsl Hah Hsy]. eapply flush_stays; [apply Hso|exact Hfl|apply Hsy|lia|].
  intros HS Hne. by eapply sync_suffix.
Qed.

Lemma round_flush1 : flush E0 i j om -> om = mo :: lo /\ changed mo i j = false.
Proof using All.
  intros Hfl. pose proof (round_stays1 _ Hfl) as E. split; [done|]. rewrite E in Hfl. destruct Hfl as (_ & _ & Ha & Hb). by apply changed_false.
Qed.

Lemma round_suffix2 : (0 < S_)%nat -> ol <> [end_match E0 E2 S_] -> (s <= E0)%nat.
Proof using All.
  intros HS Hne. destruct Hrd as [Hso Hsl Hah Hsy]. eapply sync_suffix; [exact Hso|exact Hsl|exact Hsy|done|].
  intros E. apply Hne. destruct (sd_end _ _ _ _ _ _ _ _ _ _ _ _ _ _ _ Hso HS E) as [Hi _].
  eapply (place_end E0 E2 S_ X W); [exact HX|apply Hsl|apply Hsl|apply Hsl|exact Hi].
Qed.

Lemma round_stays2 b : flush E0 i b ol -> ol = ml :: ll.
Proof using All.
  intros Hfl. pose proof round_bounds as (Hs & _). pose proof round_suffix2 as Hsuf.
  destruct Hrd as [Hso Hsl Hah Hsy]. eapply flush_stays; [apply Hsl|exact Hfl|apply Hsy|lia|exact Hsuf].
Qed.

Lemma round_flush2 : flush E0 i k ol -> ol = ml :: ll /\ changed ml i k = false.
Proof using All.
  intros Hfl. pose proof (round_stays2 _ Hfl) as E. split; [done|]. rewrite E in Hfl. destruct Hfl as (_ & _ & Ha & Hb). by apply changed_false.
Qed.

Lemma round_limit1 : changed mo i j = true -> (t <= E1)%nat.
Proof using All.
  intros Hch. pose proof round_bounds as (Hs & Hmo & _). destruct Hrd as [Hso Hsl Hah Hsy].
  pose proof (skips_shape _ _ _ _ _ _ (sy_om _ _ _ _ _ _ _ _ _ _ Hsy) (sd_shape _ _ _ _ _ _ _ _ _ _ _ _ _ _ _ Hso)) as Hsh.
  eapply limit_from_head; [exact Hsh|exact Hmo| |lia]. intros HS. eapply sync_suffix; [exact Hso|exact Hsl|exact Hsy|done|].
  intros E. destruct (sd_end _ _ _ _ _ _ _ _ _ _ _ _ _ _ _ Hso HS E) as [-> ->].
  apply changed_true in Hch. pose proof (sy_om _ _ _ _ _ _ _ _ _ _ Hsy) as Hk. rewrite E in Hk. inversion Hk; subst.
  unfold end_match in Hch. cbn in Hch. lia.
Qed.

Lemma round_limit2 : changed ml i k = true -> (u <= E2)%nat.
Proof using All.
  intros Hch. pose proof round_bounds as (Hs & _ & Hml & _). destruct Hrd as [Hso Hsl Hah Hsy].
  pose proof (skips_shape _ _ _ _ _ _ (sy_ol _ _ _ _ _ _ _ _ _ _ Hsy) (sd_shape _ _ _ _ _ _ _ _ _ _ _ _ _ _ _ Hsl)) as Hsh.
  eapply limit_from_head; [exact Hsh|exact Hml| |lia]. intros HS. apply round_suffix2; [done|].
  intros E. destruct (sd_end _ _ _ _ _ _ _ _ _ _ _ _ _ _ _ Hsl HS E) as [-> ->].
  apply changed_true in Hch. pose proof (sy_ol _ _ _ _ _ _ _ _ _ _ Hsy) as Hk. rewrite E in Hk. inversion Hk; subst.
  unfold end_match in Hch. cbn in Hch. lia.
Qed.

Notation state := (mk_diff3 store ns p1 p2 q1 q2 (1 + i) (1 + j) (1 + k)).

(** What a round hands on besides its chunks. *)
Definition carried (store' : position_store) (ns' : lcs_store) (p1' p2' : option nat) : Prop :=
  offsets_kept store store' /\ ns `prefix_of` ns' /\
  list_at E0 ps1 T1 P store' p1' i t om /\ list_at E0 ps2 T2 P store' p2' i u ol.

(** The chunks in front of the sync point. *)
Definition leads_to (chunks : list svn_diff_t) (i' j' k' : nat) : Prop :=
  forall ds, is_diff3 i' j' k' (drop i' X) (drop j' Y) (drop k' W) ds ->
    is_diff3 i j k (drop i X) (drop j Y) (drop k W) (chunks ++ ds).

Lemma carried_same : carried store ns p1 p2.
Proof using All.
  pose proof round_bounds as (_ & _ & _ & Ht & Hu). destruct Hrd as [Hso Hsl _ _].
  split_and!; [by apply offsets_kept_prefix|done| |].
  - eapply list_at_later; [apply Hso|lia].
  - eapply list_at_later; [apply Hsl|lia].
Qed.

Lemma list_changed1 : changed mo i j = true -> ring_at ps1 T1 P store p1 j.
Proof using All.
  intros Hch. pose proof round_flush1 as Hfl. destruct Hrd as [Hso Hsl _ _].
  destruct (sd_list _ _ _ _ _ _ _ _ _ _ _ _ _ _ _ Hso) as [H|[H _]]; [done|]. apply Hfl in H as [_ H]. congruence.
Qed.

Lemma list_changed2 : changed ml i k = true -> ring_at ps2 T2 P store p2 k.
Proof using All.
  intros Hch. pose proof round_flush2 as Hfl. destruct Hrd as [Hso Hsl _ _].
  destruct (sd_list _ _ _ _ _ _ _ _ _ _ _ _ _ _ _ Hsl) as [H|[H _]]; [done|]. apply Hfl in H as [_ H]. congruence.
Qed.

(** Both versions changed something. *)
Lemma conflict_spec hunk : changed mo i j = true -> changed ml i k = true ->
  hunk = mk_diff svn_diff__type_conflict i (s - i)%nat j (t - j)%nat k (u - k)%nat [] ->
  exists store' ns' hunk' p1' p2',
    svn_diff__resolve_conflict store ns hunk p1 p2 num = Ok (store', ns', hunk', p1', p2') /\
    carried store' ns' p1' p2' /\ leads_to [hunk'] s t u.
Proof using All.
  intros Hm Hl Eh. pose proof round_bounds as (Hs & _ & _ & Ht & Hu).
  pose proof (round_limit1 Hm) as Ht1. pose proof (round_limit2 Hl) as Hu2.
  destruct (ring_seek _ _ _ _ _ j (t - j) (list_changed1 Hm)) as (HPj & Hseek1 & Hrun1 & Hn1); [lia|].
  destruct (ring_seek _ _ _ _ _ k (u - k) (list_changed2 Hl)) as (HPk & Hseek2 & Hrun2 & Hn2); [lia|].
  destruct (resolve_conflict_spec store ns _ _ _ _ j k num Hrun1 Hrun2) with (hunk := hunk) (p0 := p1) (p1 := p2)
    (n := (t - j)%nat) (m := (u - k)%nat) as (store' & ns' & hunk' & E & Hr1 & Hr2 & Hns & Hkept & Hres);
    [|by apply Forall_drop|by apply Forall_drop|by rewrite Eh|by rewrite Eh|by rewrite Eh|by rewrite Eh|done|done|].
  { intros a Ha Ha'. apply (Hdisj a); eapply elem_of_submseteq; [exact Ha| |exact Ha'|]; apply sublist_submseteq, sublist_drop. }
  eexists store', ns', hunk', _, _. split; [exact E|]. split; [split_and!; [done|done|left|left]|].
  - exists (t - P)%nat. rewrite lookup_drop. split_and!; [lia|f_equal; lia| |lia].
    rewrite !drop_drop in Hr1. replace (j - P + (t - j))%nat with (t - P)%nat in Hr1 by lia.
    by replace (1 + P + (t - P)%nat) with (1 + j + (t - j)%nat) by lia.
  - exists (u - P)%nat. rewrite lookup_drop. split_and!; [lia|f_equal; lia| |lia].
    rewrite !drop_drop in Hr2. replace (k - P + (u - k))%nat with (u - P)%nat in Hr2 by lia.
    by replace (1 + P + (u - P)%nat) with (1 + k + (u - k)%nat) by lia.
  - intros ds Hds. cbn [app].
    destruct (range_split X i s) as [EX LX]; [lia|]. destruct (range_split Y j t) as [EY LY]; [lia|].
    destruct (range_split W k u) as [EW LW]; [lia|]. rewrite EX, EY, EW.
    set (a := take (s - i) (drop i X)) in *. set (b := take (t - j) (drop j Y)) in *. set (c := take (u - k) (drop k W)) in *.
    destruct (resolution_lines f num hunk j k _ _ b c hunk' Hres) as [[Ebc ->]|(Hne & rs & Eh' & Hparts)];
      [by apply tokens_part; [done|lia|lia]|by apply tokens_part; [done|lia|lia]|done|by apply Forall_take, Forall_drop
      |by apply Forall_take, Forall_drop|..].
    + rewrite Eh. unfold set_type. cbn. rewrite <- Ebc. rewrite <- LX, <- LY. replace (u - k)%nat with (length b) by (rewrite Ebc; lia).
      apply is_diff3_same. rewrite LX. replace (i + (s - i))%nat with s by lia.
      replace (j + length b)%nat with t by lia. by replace (k + length b)%nat with u by (rewrite Ebc; lia).
    + eapply is_diff3_conflict with (rs := rs); [done| |done|].
      * rewrite Eh', Eh. unfold set_type. cbn. by rewrite LX, LY, LW.
      * rewrite LX, LY, LW. replace (i + (s - i))%nat with s by lia. replace (j + (t - j))%nat with t by lia.
        by replace (k + (u - k))%nat with u by lia.
Qed.

Lemma hunk_spec :
  exists store' ns' p1' p2' chunks,
    diff3_hunk num state (1 + s) (1 + t) (1 + u) (changed mo i j) (changed ml i k)
      = Ok (store', ns', p1', p2', chunks) /\
    carried store' ns' p1' p2' /\ leads_to chunks s t u /\
    (changed mo i j = false -> only_latest chunks) /\ (changed ml i k = false -> only_modified chunks).
Proof using All.
  pose proof round_bounds as (Hs & Hmo & Hml & Ht & Hu). unfold diff3_hunk.
  cbn [d3_store d3_nodes d3_list1 d3_list2 d3_original_start d3_modified_start d3_latest_start].
  destruct (range_split X i s) as [EX LX]; [lia|]. destruct (range_split Y j t) as [EY LY]; [lia|].
  destruct (range_split W k u) as [EW LW]; [lia|].
  set (a := take (s - i) (drop i X)) in *. set (b := take (t - j) (drop j Y)) in *. set (c := take (u - k) (drop k W)) in *.
  replace (1 + i - 1) with (i : Z) by lia. replace (1 + j - 1) with (j : Z) by lia. replace (1 + k - 1) with (k : Z) by lia.
  replace (1 + s - (1 + i)) with ((s - i)%nat : Z) by lia. replace (1 + t - (1 + j)) with ((t - j)%nat : Z) by lia.
  replace (1 + u - (1 + k)) with ((u - k)%nat : Z) by lia.
  assert ((i + (s - i) = s)%nat /\ (j + (t - j) = t)%nat /\ (k + (u - k) = u)%nat) as (Es & Et & Eu) by lia.
  destruct (changed mo i j) eqn:Hm, (changed ml i k) eqn:Hl; cbn [orb andb].
  - destruct (conflict_spec _ Hm Hl eq_refl) as (store' & ns' & hunk' & p1' & p2' & -> & Hc & Hd). cbn [mbind result_bind].
    eexists _, _, _, _, _. by split_and!.
  - destruct (round_same2 Hl) as [El Eq]. change (a = c) in Eq. eexists _, _, _, _, _. split; [reflexivity|].
    split; [apply carried_same|]. split; [|split; [done|intros _; repeat constructor; by right]].
    intros ds Hds. rewrite EX, EY, EW, <- Eq, <- El. cbn [app]. rewrite <- LX, <- LY.
    apply is_diff3_modified.
    + intros E. apply (f_equal length) in E. rewrite length_app, LX, LY in E. simpl in E. apply changed_true in Hm. lia.
    + rewrite LX, LY. replace (k + (s - i))%nat with u by lia. by rewrite Es, Et.
  - destruct (round_same1 Hm) as [El Eq]. change (a = b) in Eq. eexists _, _, _, _, _. split; [reflexivity|].
    split; [apply carried_same|]. split; [|split; [intros _; repeat constructor; by right|done]].
    intros ds Hds. rewrite EX, EY, EW, <- Eq, <- El. cbn [app]. rewrite <- LX, <- LW.
    apply is_diff3_latest.
    + intros E. apply (f_equal length) in E. rewrite length_app, LX, LW in E. simpl in E. apply changed_true in Hl. lia.
    + rewrite LX, LW. replace (j + (s - i))%nat with t by lia. by rewrite Es, Eu.
  - destruct (round_same1 Hm) as [E1' _]. destruct (round_same2 Hl) as [E2' _].
    eexists _, _, _, _, _. split; [reflexivity|]. split; [apply carried_same|]. split; [|by repeat constructor].
    intros ds Hds. cbn [app].
    apply changed_false in Hm as [Ha Hb]. apply changed_false in Hl as [Ha' Hb']. destruct Hrd as [_ _ _ Hsy].
    pose proof (sy_max _ _ _ _ _ _ _ _ _ _ Hsy). by replace i with s by lia; replace j with t by lia; replace k with u by lia.
Qed.
End Round.

(** The common lines behind the sync point. *)
Lemma common_leads (s t u c : nat) : (s + c <= length X)%nat -> (t + c <= length Y)%nat -> (u + c <= length W)%nat ->
  take c (drop s X) = take c (drop t Y) -> take c (drop s X) = take c (drop u W) ->
  leads_to s t u (diff3_common (1 + s) (1 + t) (1 + u) c) (s + c) (t + c) (u + c).
Proof using All.
  intros Hx Hy Hw Ey Ew ds Hds. unfold diff3_common.
  destruct (Z.ltb_spec 0 c) as [Hc|Hc]; [|by replace c with 0%nat in Hds by lia; rewrite !Nat.add_0_r in Hds].
  rewrite <- (take_drop c (drop s X)), <- (take_drop c (drop t Y)), <- (take_drop c (drop u W)), <- Ey, <- Ew, !drop_drop.
  assert (length (take c (drop s X)) = c) as L by (rewrite length_take, length_drop; lia).
  set (p := take c (drop s X)) in *. replace (1 + s - 1) with (s : Z) by lia. replace (1 + t - 1) with (t : Z) by lia.
  replace (1 + u - 1) with (u : Z) by lia. rewrite <- L. apply is_diff3_common; [intros E; rewrite E in L; simpl in L; lia|].
  by rewrite L.
Qed.

Record walking (st : diff3_state) (om ol : list triple) (i j k : nat) : Prop := {
  wa_om : sideM (d3_store st) (d3_nodes st) (d3_list1 st) (d3_om st) om i j;
  wa_ol : sideL (d3_store st) (d3_nodes st) (d3_list2 st) (d3_ol st) ol i k;
  wa_start : d3_original_start st = 1 + i /\ d3_modified_start st = 1 + j /\ d3_latest_start st = 1 + k;
  wa_ahead : ahead i om \/ ahead i ol;
  wa_fits : (length om + length ol <= S (length (d3_nodes st)))%nat
}.

(** What a round says about versions without changes. *)
Definition quiet_chunks (om ol : list triple) (i j k : nat) (chunks : list svn_diff_t) : Prop :=
  (flush E0 i j om -> only_latest chunks) /\ (flush E0 i k ol -> only_modified chunks).

Lemma only_latest_common s t u c : only_latest (diff3_common s t u c) /\ only_modified (diff3_common s t u c).
Proof using All. unfold diff3_common. destruct (0 <? c); (split; repeat constructor; by left). Qed.

Lemma step_spec st om ol i j k : walking st om ol i j k ->
  exists chunks next, diff3_step num st = Ok (chunks, next) /\ quiet_chunks om ol i j k chunks /\
    match next with
    | None => is_diff3 i j k (drop i X) (drop j Y) (drop k W) chunks
    | Some st' => exists om' ol' i' j' k', walking st' om' ol' i' j' k' /\
        (length om' + length ol' < length om + length ol)%nat /\ leads_to i j k chunks i' j' k' /\
        (flush E0 i j om -> flush E0 i' j' om') /\ (flush E0 i k ol -> flush E0 i' k' ol')
    end.
Proof using All.
  intros [Hso Hsl (Es1 & Es2 & Es3) Hah Hfit]. destruct st as [store ns p1 p2 q1 q2 os ms ls]. cbn in Hso, Hsl, Es1, Es2, Es3, Hfit.
  subst os ms ls. pose proof Hso as [Hro Hco Hsho Hpo _ _ Hlo]. pose proof Hsl as [Hrl Hcl Hshl Hpl _ _ Hll].
  destruct (find_sync_spec store ns X Y W _ _ (S (length ns)) q1 q2 om ol Hro Hco Hrl Hcl Hlo Hll Hfit) as
    (s & q1' & q2' & mo & lo & ml & ll & Ef & Hro' & Hrl' & Hsy).
  assert (round store ns p1 p2 q1 q2 om ol i j k s mo lo ml ll) as Hrd by by split.
  pose proof (round_bounds store ns p1 p2 q1 q2 om ol i j k s mo lo ml ll Hrd) as (Hs & Hmo & Hml & Ht & Hu).
  pose proof (round_flush1 store ns p1 p2 q1 q2 om ol i j k s mo lo ml ll Hrd) as Hflo.
  pose proof (round_flush2 store ns p1 p2 q1 q2 om ol i j k s mo lo ml ll Hrd) as Hfll.
  destruct (hunk_spec store ns p1 p2 q1 q2 om ol i j k s mo lo ml ll Hrd) as
    (store' & ns' & p1' & p2' & chunks & Eh & (Hkept & Hns & Hlist1 & Hlist2) & Hlead & Hqo & Hql).
  unfold diff3_step. cbn [d3_store d3_nodes d3_om d3_ol d3_original_start d3_modified_start d3_latest_start].
  rewrite Ef. cbn [mbind result_bind]. rewrite (read_match_spec _ _ _ _ _ _ Hro'), (read_match_spec _ _ _ _ _ _ Hrl').
  cbn [mbind result_bind]. fold (changed mo i j). fold (changed ml i k).
  replace (1 + mo.1.2 + (1 + s - (1 + mo.1.1))) with (1 + (mo.1.2 + (s - mo.1.1))%nat) by lia.
  replace (1 + ml.1.2 + (1 + s - (1 + ml.1.1))) with (1 + (ml.1.2 + (s - ml.1.1))%nat) by lia.
  rewrite Eh. cbn [mbind result_bind].
  destruct (decide (mo.2 = 0%nat \/ ml.2 = 0%nat)) as [Hend|Hend].
  - replace (((mo.2 : Z) =? 0) || ((ml.2 : Z) =? 0)) with true by (symmetry; rewrite orb_true_iff, !Z.eqb_eq; lia).
    destruct (last_round store ns p1 p2 q1 q2 om ol i j k s mo lo ml ll Hrd Hend) as (Ex & Ey & Ew).
    eexists _, _. split; [reflexivity|]. split; [split; intros Hfl; [apply Hqo; by apply Hflo|apply Hql; by apply Hfll]|].
    rewrite <- (app_nil_r chunks). apply Hlead. rewrite Ey, Ew, Ex, !drop_all. constructor.
  - replace (((mo.2 : Z) =? 0) || ((ml.2 : Z) =? 0)) with false
      by (symmetry; apply not_true_is_false; rewrite orb_true_iff, !Z.eqb_eq; lia).
    set (c := ((until mo - s) `min` (until ml - s))%nat).
    replace (Z.min (mo.2 - (1 + s - (1 + mo.1.1))) (ml.2 - (1 + s - (1 + ml.1.1)))) with (c : Z) by (unfold c, until in *; lia).
    pose proof (skips_tail _ _ _ _ _ (sy_om _ _ _ _ _ _ _ _ _ _ Hsy) Hco) as Hco'.
    pose proof (skips_tail _ _ _ _ _ (sy_ol _ _ _ _ _ _ _ _ _ _ Hsy) Hcl) as Hcl'.
    pose proof (skips_shape _ _ _ _ _ _ (sy_om _ _ _ _ _ _ _ _ _ _ Hsy) Hsho) as Hsho'.
    pose proof (skips_shape _ _ _ _ _ _ (sy_ol _ _ _ _ _ _ _ _ _ _ Hsy) Hshl) as Hshl'.
    pose proof (skips_shorter _ _ _ (sy_om _ _ _ _ _ _ _ _ _ _ Hsy)) as Llo.
    pose proof (skips_shorter _ _ _ (sy_ol _ _ _ _ _ _ _ _ _ _ Hsy)) as Lll.
    pose proof (prefix_length _ _ Hns) as Lns.
    destruct (side_next X Y E0 E1 S_ P ps1 T1 store' ns' p1' q1' mo lo s c HX HY HT1) as
      (p1'' & q1'' & l1 & Em1 & Es1 & Hside1 & Lm1 & Hahead1 & Hfl1);
      [by eapply reads_kept|done|done|lia|lia|unfold c; lia|lia| |].
    { destruct Hlist1 as [Hring|[Hfl Hpos]]; [by left|right]. split; [|done].
      rewrite <- (round_stays1 _ _ _ _ _ _ _ _ _ _ _ _ _ _ _ _ Hrd _ Hfl). eapply flush_later; [exact Hfl|lia|lia]. }
    destruct (side_next X W E0 E2 S_ P ps2 T2 store' ns' p2' q2' ml ll s c HX HW HT2) as
      (p2'' & q2'' & l2 & Em2 & Es2 & Hside2 & Lm2 & Hahead2 & Hfl2);
      [by eapply reads_kept|done|done|lia|lia|unfold c; lia|lia| |].
    { destruct Hlist2 as [Hring|[Hfl Hpos]]; [by left|right]. split; [|done].
      rewrite <- (round_stays2 _ _ _ _ _ _ _ _ _ _ _ _ _ _ _ _ Hrd _ Hfl). eapply flush_later; [exact Hfl|lia|lia]. }
    rewrite Em1. cbn [mbind result_bind]. rewrite Em2. cbn [mbind result_bind].
    rewrite Es1. cbn [mbind result_bind]. rewrite Es2. cbn [mbind result_bind].
    destruct (tail_covers_until _ _ _ _ Hco') as (Hxo & Hyo & _). destruct (tail_covers_until _ _ _ _ Hcl') as (Hxl & Hyl & _).
    eexists _, _. split; [reflexivity|]. split; [|].
    { destruct (only_latest_common (1 + s) (1 + (mo.1.2 + (s - mo.1.1))%nat) (1 + (ml.1.2 + (s - ml.1.1))%nat) c) as [Hc1 Hc2].
      split; intros Hfl; apply Forall_app; (split; [|done]); [apply Hqo; by apply Hflo|apply Hql; by apply Hfll]. }
    exists l1, l2, (s + c)%nat, (mo.1.2 + (s - mo.1.1) + c)%nat, (ml.1.2 + (s - ml.1.1) + c)%nat. split_and!.
    + split; cbn [d3_store d3_nodes d3_list1 d3_list2 d3_om d3_ol d3_original_start d3_modified_start d3_latest_start];
        [exact Hside1|exact Hside2|lia| |lia].
      destruct (decide (until mo = (s + c)%nat)) as [E|E]; [left; by apply Hahead1|right; apply Hahead2; unfold c in *; lia].
    + destruct (decide (until mo = (s + c)%nat)) as [E|E]; [apply Hahead1 in E|assert (until ml = (s + c)%nat) as E' by (unfold c in *; lia); apply Hahead2 in E']; lia.
    + intros ds Hds. rewrite <- app_assoc. apply Hlead. apply common_leads;
        [unfold c; lia|unfold c, until in *; lia|unfold c, until in *; lia| | |exact Hds].
      * eapply (sync_common X Y s c om mo lo); [done|apply Hsy|lia|unfold c; lia].
      * eapply (sync_common X W s c ol ml ll); [done|apply Hsy|lia|unfold c; lia].
    + intros Hfl. apply Hfl1. destruct (Hflo Hfl) as [E _]. rewrite <- E. eapply flush_later; [exact Hfl|lia|lia].
    + intros Hfl. apply Hfl2. destruct (Hfll Hfl) as [E _]. rewrite <- E. eapply flush_later; [exact Hfl|lia|lia].
Qed.

(** The loop ends, with a correct difference. *)
Lemma diff3_loop_spec fuel : forall st om ol i j k, walking st om ol i j k -> (length om + length ol <= fuel)%nat ->
  exists ds, diff3_loop fuel num st = Ok ds /\ is_diff3 i j k (drop i X) (drop j Y) (drop k W) ds /\
    quiet_chunks om ol i j k ds.
Proof using All.
  induction fuel as [|fl IH]; intros st om ol i j k Hw Hf.
  { destruct Hw as [Hso _ _ _ _]. destruct om; [by destruct (sd_covers _ _ _ _ _ _ _ _ _ _ _ _ _ _ _ Hso)|simpl in Hf; lia]. }
  destruct (step_spec _ _ _ _ _ _ Hw) as (chunks & next & Es & Hq & Hnext). cbn [diff3_loop]. rewrite Es. cbn [mbind result_bind].
  destruct next as [st'|]; [|by exists chunks].
  destruct Hnext as (om' & ol' & i' & j' & k' & Hw' & Hlt & Hlead & Hfo & Hfl).
  destruct (IH st' om' ol' i' j' k' Hw') as (ds & -> & Hds & Hqo & Hql); [lia|]. cbn [mbind result_bind].
  exists (chunks ++ ds). split_and!; [done|by apply Hlead|].
  destruct Hq as [Hq1 Hq2]. split; intros H; apply Forall_app; split; [by apply Hq1|by apply Hqo, Hfo|by apply Hq2|by apply Hql, Hfl].
Qed.
End Merge.
