(* ===== verification/Diff3Spec.v ===== *)
(** * The merged difference of three sources

    From reading the sources to the walk of [Diff3Walk]: the position lists
    with their sentinels, the two chains of matches as lists of line numbers,
    and what [svn_diff_diff3_2] returns for every lawful data source. *)

From S2P Require Import Prelude Adler32 Buffers CString DiffNormalize Subsequence DiffToken DiffTokenFacts.
From S2P Require Import DiffLcs DiffHeap DiffSnakeFacts.
From S2P Require Import DiffLcsFacts.
From S2P Require Import Diff DiffFacts DiffMemory DiffMemoryFacts Diff3 Diff3Facts Diff3Walk.

#[local] Coercion Z.of_nat : nat >-> Z.

(** ** The position lists *)

Lemma insert_offsets_kept (store : position_store) a q q' : store !! a = Some q -> offset q' = offset q ->
  offsets_kept store (<[a := q']> store).
Proof.
  intros Hq Ho b r Hr. destruct (decide (a = b)) as [->|Hne].
  - exists q'. rewrite list_lookup_insert_eq by (by eapply lookup_lt_Some). split; [done|congruence].
  - exists r. by rewrite list_lookup_insert_ne.
Qed.

Lemma open_list_spec store ps T (P : nat) unset : token_ring store ps T (P + 1) ->
  exists store', open_list store (last ps) P unset = Ok (store', (ps ++ [length store]) !! 0%nat) /\
    run store' (ps ++ [length store]) T (1 + P) /\ offsets_kept store store' /\
    length store' = S (length store) /\ (forall a, a ∉ ps -> (a < length store)%nat -> store' !! a = store !! a).
Proof.
  intros Hr. pose proof (token_ring_bound _ _ _ _ Hr) as Hb. rewrite Forall_forall in Hb.
  pose proof (tr_length _ _ _ _ Hr) as Hl. unfold open_list.
  assert (NoDup (ps ++ [length store])) as Hnd.
  { apply NoDup_app. split_and!; [apply Hr| |apply NoDup_singleton].
    intros a Ha Ha'%list_elem_of_singleton. specialize (Hb a Ha). lia. }
  destruct (last ps) as [tail|] eqn:Elast.
  - destruct (ring_tail _ _ _ _ _ Hr Elast) as (t & Ht & Hg & Hi & Hpos).
    assert (tail < length store)%nat as Htl by (apply Hb; by eapply list_elem_of_lookup_2).
    unfold add_sentinel. rewrite Hg. cbn [mbind result_bind pos_next offset].
    erewrite set_next_spec by by apply lookup_app_l_Some. cbn [mbind result_bind token_index offset].
    unfold next_of, get_position. cbn [option_bind mbind].
    rewrite list_lookup_insert_ne by lia. rewrite lookup_app_r, Nat.sub_diag by done. cbn [lookup list_lookup mbind result_bind pos_next].
    eexists. split; [by rewrite lookup_app_l by lia|]. split_and!.
    + split; [rewrite length_app, Hl; simpl; lia|done| |].
      * intros i a u Ha Hu. pose proof (lookup_lt_Some _ _ _ Hu) as Hlt. rewrite lookup_app_l in Ha by lia.
        pose proof (tr_position _ _ _ _ Hr _ _ _ Ha Hu) as Hpa. destruct (decide (S i = length T)) as [E|E].
        -- assert (a = tail) as -> by (replace (length T - 1)%nat with i in Hi by lia; congruence).
           rewrite list_lookup_insert_eq by (rewrite length_app; lia). rewrite Hpa in Ht. assert (u = t) as -> by congruence.
           rewrite lookup_app_r, Hl, E, Nat.sub_diag by lia. cbn. do 2 f_equal. lia.
        -- rewrite list_lookup_insert_ne.
           2:{ intros ->. apply E. assert (length T - 1 = i)%nat; [|lia].
               eapply NoDup_lookup; [apply Hr|exact Hi|exact Ha]. }
           rewrite lookup_app_l by (apply Hb; by eapply list_elem_of_lookup_2). rewrite Hpa, lookup_app_l by lia.
           do 2 f_equal. lia.
      * eexists _, _. split; [by rewrite lookup_app_r, Hl, Nat.sub_diag by lia|].
        rewrite list_lookup_insert_ne, lookup_app_r, Nat.sub_diag by lia. split; [done|]. cbn. lia.
    + eapply offsets_kept_trans; [apply offsets_kept_prefix; by eexists|].
      eapply insert_offsets_kept; [by apply lookup_app_l_Some|done].
    + rewrite length_insert, length_app. simpl. lia.
    + intros a Ha Hlt. rewrite list_lookup_insert_ne by (intros ->; apply Ha; by eapply list_elem_of_lookup_2).
      by apply lookup_app_l.
  - apply last_None in Elast as ->. destruct T as [|u T]; [|done]. eexists. split; [reflexivity|]. split_and!.
    + split; [done|done|by intros [|]|]. eexists _, _. split; [reflexivity|].
      rewrite lookup_app_r, Nat.sub_diag by done. split; [done|]. cbn. lia.
    + apply offsets_kept_prefix. by eexists.
    + rewrite length_app. simpl. lia.
    + intros a _ Hlt. by apply lookup_app_l.
Qed.

(** ** The chains of matches *)

Lemma chain_length lo ns p ms : lcs_chain lo ns p ms -> (lo <= length ns)%nat -> (lo + length ms <= length ns)%nat.
Proof.
  intros (addrs & Hl & Hd & Hlo & Hm) Hle. rewrite <- (Forall2_length _ _ _ Hm). pose proof (linked_bound _ _ _ Hl) as Hb.
  assert (length addrs <= length (seq lo (length ns - lo)))%nat as H; [|rewrite length_seq in H; lia].
  apply submseteq_length, NoDup_submseteq; [done|]. intros a Ha. rewrite Forall_forall in Hlo, Hb.
  specialize (Hlo a Ha). specialize (Hb a Ha). apply elem_of_seq. lia.
Qed.

Lemma chain_reads R lo store ns p ms l : lcs_chain lo ns p ms -> Forall2 (match_at store) ms (map (offsets 1 1) l) ->
  Forall2 (fun m (t : triple) => (0 < t.2)%nat -> R m.1.2 t.1.2) ms l -> l <> [] -> reads R store ns p l.
Proof.
  intros (addrs & Hl & _ & _ & Hm) Hat HR. revert p addrs Hl Hm Hat.
  induction HR as [|m t ms l HR HRs IH]; [done|]. intros p addrs Hl Hm Hat _.
  inversion Hm as [|a ? addrs' ? (n & Hn & En) Hm']; subst. inversion Hat as [|? ? ? ? Hat0 Hat']; subst.
  destruct Hl as (-> & n' & Hn' & Hl). rewrite Hn in Hn'. injection Hn' as <-.
  destruct Hat0 as (p0 & p1 & G0 & G1 & O0 & O1 & L). exists n. split.
  - split_and!; [unfold get_lcs; cbn; by rewrite Hn|exact L|exact HR|]. by exists p0, p1.
  - destruct l as [|t' l]; [done|]. by eapply IH.
Qed.

Section Lists.
Context {A : Type} (f : Z -> option A) (pre suf X0 Y0 : list A) (T0 T1 : bytes).
Hypothesis HX : f <$> T0 = Some <$> X0.
Hypothesis HY : f <$> T1 = Some <$> Y0.

Let P := length pre.
Let S_ := length suf.
Let E0 := (P + length T0)%nat.
Let E1 := (P + length T1)%nat.
Let X := pre ++ X0 ++ suf.
Let Y := pre ++ Y0 ++ suf.

(** The matches behind the lines in common at the start. *)
Definition rest_matches (l : list triple) : list triple :=
  map (shift pre) (reverse l) ++ added S_ E0 E1 ++ [end_match E0 E1 S_].

Lemma whole_rest l : whole_matches pre suf T0 T1 l = added P 0 0 ++ rest_matches l.
Proof. done. Qed.

Lemma rest_nonempty l : rest_matches l <> [].
Proof. unfold rest_matches. intros [_ [_ [=]]%app_eq_nil]%app_eq_nil. Qed.

(** Every pointer into the second source is the one of its line. *)
Lemma whole_pointers ps0 ps1 l ms sentinel : length ps1 = length T1 ->
  length ms = length (whole_matches pre suf T0 T1 l) ->
  (exists pr post, ms = pr ++ map (pointers ps0 ps1) (reverse l) ++ post /\ length pr = length (added_match P 1 1)) ->
  Forall2 (fun m (t : triple) => (0 < t.2)%nat -> ring_pointer E1 (ps1 ++ [sentinel]) P m.1.2 t.1.2)
    ms (whole_matches pre suf T0 T1 l).
Proof.
  intros Hps Hlen (pr & post & -> & Hpr). rewrite (added_spec pre suf P 0 0), length_map in Hpr by done.
  rewrite whole_rest in *. unfold rest_matches in *. rewrite !length_app, !length_map in Hlen.
  apply Forall2_app; [|apply Forall2_app].
  - revert Hpr. unfold added. destruct (decide (P = 0%nat)) as [E|E]; [by destruct pr|].
    destruct pr as [|m [|]]; [done| |done]. intros _. repeat constructor. intros _ [Hb _]. simpl in Hb. lia.
  - apply Forall2_fmap. apply Forall_Forall2_diag, Forall_true. intros [[i j] n] _ [_ Hb]. unfold shift, pointers in *. cbn in *.
    unfold E1, P in *. rewrite lookup_app_l by lia. f_equal. lia.
  - assert (forall (m : match_pointers) (t : triple), (E1 <= t.1.2)%nat -> (0 < t.2)%nat -> ring_pointer E1 (ps1 ++ [sentinel]) P m.1.2 t.1.2) as Hout.
    { intros m t Ht _ [_ Hb]. lia. }
    assert (length post = length (added S_ E0 E1 ++ [end_match E0 E1 S_])) as Hl by (rewrite length_app; lia).
    revert Hl. unfold added. destruct (decide (S_ = 0%nat)); destruct post as [|m [|m' [|]]]; try done; intros _;
      repeat constructor; apply Hout; unfold end_match; simpl; lia.
Qed.

Lemma shape_matches l : forall i j tail, aligned T0 T1 l i j -> (i <= length T0)%nat -> (j <= length T1)%nat ->
  shape E0 E1 S_ tail -> (tail = [end_match E0 E1 S_] -> S_ = 0%nat) ->
  shape E0 E1 S_ (map (shift pre) (reverse l) ++ tail) /\
  (map (shift pre) (reverse l) ++ tail = [end_match E0 E1 S_] -> S_ = 0%nat).
Proof.
  induction l as [|[[i j] m] l IH]; intros i' j' tail Hal Hi Hj Hsh Hend; [done|].
  inversion Hal as [|? ? ? ? ? ? Hal' Hfr Hm E Hi' Hj' HT]; subst.
  change (map (shift pre) (reverse ((i, j, m) :: l)) ++ tail) with ((shift pre <$> reverse ((i, j, m) :: l)) ++ tail).
  rewrite reverse_cons, fmap_app, <- app_assoc. eapply (IH i j); [done|lia..| |].
  - change ((shift pre <$> [(i, j, m)]) ++ tail) with ((((P + i)%nat, (P + j)%nat), m) :: tail).
    apply shape_match; [done|subst E0; unfold until; cbn; unfold P; lia|subst E1; cbn; unfold P; lia|done..].
  - intros [= _ _ Em _]. lia.
Qed.

Lemma rest_shape l : aligned T0 T1 l (length T0) (length T1) ->
  shape E0 E1 S_ (rest_matches l) /\ (rest_matches l = [end_match E0 E1 S_] -> S_ = 0%nat).
Proof.
  intros Hal. apply (shape_matches l (length T0) (length T1)); [done..| |]; unfold added; destruct (decide (S_ = 0%nat)); try done.
  - constructor.
  - apply shape_suffix. lia.
Qed.

Lemma rest_covers l : aligned T0 T1 l (length T0) (length T1) -> covers X Y P P (rest_matches l).
Proof using HX HY.
  intros Hal. pose proof (whole_covers f pre suf X0 Y0 T0 T1 HX HY l Hal) as Hc. rewrite whole_rest in Hc.
  unfold added in Hc. destruct (decide (P = 0%nat)) as [E|E]; [by rewrite E|].
  assert (forall n r, n <> 0%nat -> covers X Y 0 0 ((0%nat, 0%nat, n) :: r) -> covers X Y n n r) as H.
  { intros [|n] r Hn; [done|]. cbn [covers]. by intros (_ & _ & _ & _ & _ & H). }
  by apply H.
Qed.

(** ** Equal sources *)

Lemma aligned_matched l i j : aligned T0 T1 l i j -> (matched l <= i)%nat /\ (matched l <= j)%nat.
Proof.
  induction 1 as [|l i j m i' j' Hal IH Hfr Hm E Hi Hj HT]; [unfold matched; simpl; lia|].
  unfold matched in *. simpl. lia.
Qed.

(** Matches of everything are one match. *)
Lemma aligned_full l n : aligned T0 T1 l n n -> matched l = n -> l = if decide (n = 0%nat) then [] else [(0%nat, 0%nat, n)].
Proof.
  intros Hal Hn. inversion Hal as [|l' i j m ? ? Hal' Hfr Hm E Hi Hj HT]; subst; [by rewrite decide_True by done|].
  destruct (aligned_matched _ _ _ Hal') as [Hi' Hj'].
  assert (matched ((i, j, m) :: l') = m + matched l')%nat as Es by done. rewrite Es in *. rewrite decide_False by lia.
  destruct l' as [|[[i1 j1] m1] l'].
  - assert (matched [] = 0%nat) as E0' by done. rewrite E0' in *. repeat f_equal; lia.
  - exfalso. inversion Hal' as [|? ? ? ? ? ? Hal'' _ _ _ _ _ _]; subst. destruct (aligned_matched _ _ _ Hal'') as [Hi1 Hj1].
    assert (matched ((i1, j1, m1) :: l') = m1 + matched l')%nat as Es' by done. rewrite Es' in *. cbn in Hfr. lia.
Qed.

Lemma equal_tokens : (forall t u, t ∈ T0 -> u ∈ T1 -> f t = f u -> t = u) -> X = Y -> T0 = T1.
Proof using HX HY.
  intros Hinj E. assert (X0 = Y0) as E'. { unfold X, Y in E. by apply app_inv_head, app_inv_tail in E. }
  assert (f <$> T0 = f <$> T1) as Ef by by rewrite HX, HY, E'.
  apply list_eq. intros i. apply (f_equal (lookup i)) in Ef. rewrite !list_lookup_fmap in Ef.
  destruct (T0 !! i) as [t|] eqn:Et, (T1 !! i) as [u|] eqn:Eu; cbn in Ef; try done. f_equal.
  apply Hinj; [by eapply list_elem_of_lookup_2..|congruence].
Qed.

Lemma equal_flush l : (forall t u, t ∈ T0 -> u ∈ T1 -> f t = f u -> t = u) -> X = Y ->
  aligned T0 T1 l (length T0) (length T1) -> is_lcs T0 T1 (matched l) -> flush E0 P P (rest_matches l).
Proof using HX HY.
  intros Hinj E Hal [_ Hmax]. pose proof (equal_tokens Hinj E) as ET.
  assert (length T1 = length T0) as EL by congruence.
  destruct (aligned_matched _ _ _ Hal) as [Hle _].
  assert (matched l = length T0) as Hm by (specialize (Hmax T0); rewrite <- ET in Hmax; specialize (Hmax ltac:(done) ltac:(done)); lia).
  rewrite EL in Hal. rewrite (aligned_full l _ Hal Hm). unfold rest_matches, E0, E1. rewrite EL.
  unfold added, end_match. destruct (decide (length T0 = 0%nat)) as [En|En], (decide (S_ = 0%nat)) as [ES|ES];
    cbn; unfold until; cbn; unfold S_, P in *; repeat split; lia.
Qed.
End Lists.

(** ** The rounds *)

Lemma covers_place {A} (X Y : list A) i j l : covers X Y i j l -> place_at i j l /\ ahead i l.
Proof. destruct l as [|[[a b] n] l]; [done|]. cbn. intros (Ha & Hb & _). split; [by left|done]. Qed.

Section Start.
Context {A : Type} (f : Z -> option A) (pre suf X0 Y0 : list A) (T0 T1 : bytes).
Hypothesis HX : f <$> T0 = Some <$> X0.
Hypothesis HY : f <$> T1 = Some <$> Y0.

Let P := length pre.
Let S_ := length suf.
Let E0 := (P + length T0)%nat.
Let E1 := (P + length T1)%nat.
Let X := pre ++ X0 ++ suf.
Let Y := pre ++ Y0 ++ suf.

Lemma whole_lengths : length X = (E0 + S_)%nat /\ length Y = (E1 + S_)%nat.
Proof using HX HY.
  destruct (tokens_length f X0 Y0 T0 T1 HX HY) as [L0 L1]. unfold X, Y. rewrite !length_app. unfold E0, E1, P, S_. lia.
Qed.

Lemma read_lines : f <$> T1 = Some <$> take (length T1) (drop P Y).
Proof using HX HY.
  destruct (tokens_length f X0 Y0 T0 T1 HX HY) as [L0 L1]. unfold Y, P. rewrite drop_app_length, L1, take_app_length. done.
Qed.

(** Behind the lines that all sources start with. *)
Lemma start_side store ns ps q l : aligned T0 T1 l (length T0) (length T1) ->
  run store ps T1 (1 + P) -> reads (ring_pointer E1 ps P) store ns q (rest_matches pre suf T0 T1 l) ->
  (length (rest_matches pre suf T0 T1 l) <= length ns)%nat ->
  side E0 E1 S_ ps T1 P X Y store ns (ps !! 0%nat) q (rest_matches pre suf T0 T1 l) P P.
Proof using HX HY.
  intros Hal Hrun Hr Hfit. pose proof (rest_covers f pre suf X0 Y0 T0 T1 HX HY l Hal) as Hc.
  destruct (rest_shape pre suf T0 T1 l Hal) as [Hsh Hend]. destruct (covers_place _ _ _ _ _ Hc) as [Hpl _].
  split; [done|by eapply covers_tail|done|done| | |done].
  - intros HS E. specialize (Hend E). unfold S_ in HS. lia.
  - left. exists 0%nat. rewrite !drop_0, !Nat.add_0_r, Z.add_0_r. split_and!; [lia|done|done|lia].
Qed.
End Start.

(** If there are such lines, the first round is about them only. *)
Section First.
Context {A : Type} (X Y W : list A) (store : position_store) (ns : lcs_store) (P : nat) (num : Z).
Context (R R' : option nat -> nat -> Prop) (q1 q2 : option nat) (om ol : list triple).
Hypothesis HP : (0 < P)%nat.
Hypothesis Hro : reads R store ns q1 (((0, 0, P)%nat : triple) :: om).
Hypothesis Hrl : reads R' store ns q2 (((0, 0, P)%nat : triple) :: ol).
Hypothesis Hco : covers X Y 0 0 (((0, 0, P)%nat : triple) :: om).
Hypothesis Hcl : covers X W 0 0 (((0, 0, P)%nat : triple) :: ol).
Hypothesis Hns : (0 < length ns)%nat.

Lemma first_sync fuel : find_sync store ns (S fuel) q1 q2 = Ok (1, q1, q2).
Proof using All.
  cbn [find_sync]. rewrite (read_match_spec _ _ _ _ _ _ Hro), (read_match_spec _ _ _ _ _ _ Hrl). cbn [mbind result_bind fst snd].
  change (1 + 0%nat) with 1. cbn [Z.ltb Z.compare Pos.compare Pos.compare_cont].
  assert (skip_before store ns (length ns) q1 1 = Ok q1) as ->.
  { destruct (length ns); cbn [skip_before]; rewrite (read_match_spec _ _ _ _ _ _ Hro); cbn [mbind result_bind fst snd];
      by rewrite (proj2 (Z.ltb_ge _ _)) by lia. }
  cbn [mbind result_bind]. unfold skip_to_eof.
  rewrite (read_match_spec _ _ _ _ _ _ Hro), (read_match_spec _ _ _ _ _ _ Hrl). cbn [mbind result_bind fst snd].
  rewrite (proj2 (Z.eqb_neq P 0)) by lia. cbn [andb mbind result_bind].
  rewrite (read_match_spec _ _ _ _ _ _ Hro). done.
Qed.

Lemma first_move R2 p q l pos : reads R2 store ns q (((0, 0, P)%nat : triple) :: l) ->
  get_position store p = Ok pos -> 1 <= offset pos -> move_list store ns p q = Ok p.
Proof using All.
  intros (n & (Hg & _ & _ & _ & x & _ & H1 & _ & O1) & _) Hp Ho. unfold move_list. rewrite Hg. cbn [mbind result_bind].
  rewrite Hp. cbn [mbind result_bind]. rewrite H1. cbn [mbind result_bind]. cbn in O1. by rewrite (proj2 (Z.ltb_ge _ _)) by lia.
Qed.

Lemma first_skip R2 (Z0 : list A) q l : covers X Z0 0 0 (((0, 0, P)%nat : triple) :: l) ->
  reads R2 store ns q (((0, 0, P)%nat : triple) :: l) ->
  exists q', skip_processed store ns (length ns) q (1 + P) = Ok q' /\ reads R2 store ns q' l.
Proof using HP Hns.
  intros Hc Hr. destruct (skip_processed_spec X Z0 R2 store ns (length ns) q (0, 0, P)%nat l 0 P Hr) as (q' & l2 & E & Hr2 & Hl2 & _);
    [by eapply covers_tail|done|done|done|done|]. change (1 + 0%nat + P) with (1 + P) in E. exists q'. split; [done|].
  destruct Hl2 as [(_ & -> & _)|[Hlt _]]; [done|]. unfold until in Hlt. simpl in Hlt. lia.
Qed.

Lemma first_step p1 p2 pos1 pos2 : get_position store p1 = Ok pos1 -> get_position store p2 = Ok pos2 ->
  1 <= offset pos1 -> 1 <= offset pos2 ->
  exists q1' q2', reads R store ns q1' om /\ reads R' store ns q2' ol /\
    diff3_step num (mk_diff3 store ns p1 p2 q1 q2 1 1 1) =
    Ok ([mk_diff svn_diff__type_common 0%nat P 0%nat P 0%nat P []],
        Some (mk_diff3 store ns p1 p2 q1' q2' (1 + P) (1 + P) (1 + P))).
Proof using All.
  intros H1 H2 O1 O2. destruct (first_skip R Y q1 om Hco Hro) as (q1' & Es1 & Hr1).
  destruct (first_skip R' W q2 ol Hcl Hrl) as (q2' & Es2 & Hr2).
  exists q1', q2'. split_and!; [done|done|]. unfold diff3_step.
  cbn [d3_store d3_nodes d3_list1 d3_list2 d3_om d3_ol d3_original_start d3_modified_start d3_latest_start].
  rewrite first_sync. cbn [mbind result_bind].
  rewrite (read_match_spec _ _ _ _ _ _ Hro), (read_match_spec _ _ _ _ _ _ Hrl). cbn [mbind result_bind fst snd].
  change (1 + 0%nat) with 1. change (1 + (1 - 1)) with 1. unfold diff3_hunk.
  change (0 <? 1 - 1) with false. cbn [orb mbind result_bind d3_store d3_nodes d3_list1 d3_list2].
  rewrite (proj2 (Z.eqb_neq P 0)) by lia. cbn [orb].
  rewrite (first_move R p1 q1 om pos1), (first_move R' p2 q2 ol pos2) by done. cbn [mbind result_bind].
  unfold diff3_common. rewrite Z.min_id. replace (P - (1 - 1)) with (P : Z) by lia. rewrite Es1. cbn [mbind result_bind]. rewrite Es2. cbn [mbind result_bind].
  rewrite (proj2 (Z.ltb_lt 0 P)) by lia. done.
Qed.
End First.

Section Rounds.
Context {A : Type} (f : Z -> option A) (pre suf X0 Y0 W0 : list A) (T0 T1 T2 : bytes).
Hypothesis HX : f <$> T0 = Some <$> X0.
Hypothesis HY : f <$> T1 = Some <$> Y0.
Hypothesis HW : f <$> T2 = Some <$> W0.
Context (num : Z).
Hypothesis Hb0 : Forall (fun t => 0 <= t < num) T0.
Hypothesis Hb1 : Forall (fun t => 0 <= t < num) T1.
Hypothesis Hb2 : Forall (fun t => 0 <= t < num) T2.
Hypothesis Hinj : forall t u, 0 <= t < num -> 0 <= u < num -> f t = f u -> t = u.
Context (store : position_store) (ns : lcs_store) (ps1 ps2 : list nat) (om ol : list triple).
Hypothesis Hdisj : forall a, a ∈ ps1 -> a ∉ ps2.
Hypothesis Hrun1 : run store ps1 T1 (1 + length pre).
Hypothesis Hrun2 : run store ps2 T2 (1 + length pre).
Hypothesis Halo : aligned T0 T1 om (length T0) (length T1).
Hypothesis Hall : aligned T0 T2 ol (length T0) (length T2).
Hypothesis Hlo : is_lcs T0 T1 (matched om).
Hypothesis Hll : is_lcs T0 T2 (matched ol).

Let P := length pre.
Let S_ := length suf.
Let E0 := (P + length T0)%nat.
Let X := pre ++ X0 ++ suf.
Let Y := pre ++ Y0 ++ suf.
Let W := pre ++ W0 ++ suf.
Let R1 := ring_pointer (P + length T1) ps1 P.
Let R2 := ring_pointer (P + length T2) ps2 P.

Lemma tokens_inj T T' : Forall (fun t => 0 <= t < num) T -> Forall (fun t => 0 <= t < num) T' ->
  forall t u, t ∈ T -> u ∈ T' -> f t = f u -> t = u.
Proof using Hinj. rewrite !Forall_forall. intros H H' t u Ht Hu. apply Hinj; auto. Qed.

Definition quiet (ds : list svn_diff_t) : Prop := (X = Y -> only_latest ds) /\ (X = W -> only_modified ds).

(** From the line behind the common start on. *)
Lemma rest_rounds_spec fuel q1 q2 :
  reads R1 store ns q1 (rest_matches pre suf T0 T1 om) -> reads R2 store ns q2 (rest_matches pre suf T0 T2 ol) ->
  (length (rest_matches pre suf T0 T1 om) + length (rest_matches pre suf T0 T2 ol) <= length ns)%nat ->
  (length ns <= fuel)%nat ->
  exists ds, diff3_loop fuel num (mk_diff3 store ns (ps1 !! 0%nat) (ps2 !! 0%nat) q1 q2 (1 + P) (1 + P) (1 + P)) = Ok ds /\
    is_diff3 P P P (X0 ++ suf) (Y0 ++ suf) (W0 ++ suf) ds /\ quiet ds.
Proof using All.
  intros Hr1 Hr2 Hfit Hfuel.
  destruct (whole_lengths f pre suf X0 Y0 T0 T1 HX HY) as [LX LY]. destruct (whole_lengths f pre suf X0 W0 T0 T2 HX HW) as [_ LW].
  pose proof (rest_covers f pre suf X0 Y0 T0 T1 HX HY om Halo) as Hc1.
  destruct (diff3_loop_spec X Y W E0 (P + length T1) (P + length T2) S_ P LX LY LW ps1 ps2 T1 T2 num f eq_refl eq_refl Hdisj
    Hb1 Hb2 (read_lines f pre suf X0 Y0 T0 T1 HX HY) (read_lines f pre suf X0 W0 T0 T2 HX HW) Hinj fuel
    (mk_diff3 store ns (ps1 !! 0%nat) (ps2 !! 0%nat) q1 q2 (1 + P) (1 + P) (1 + P))
    (rest_matches pre suf T0 T1 om) (rest_matches pre suf T0 T2 ol) P P P) as (ds & E & Hd & Hq1 & Hq2).
  - split; cbn [d3_store d3_nodes d3_list1 d3_list2 d3_om d3_ol d3_original_start d3_modified_start d3_latest_start];
      [by eapply start_side; [..|lia]|by eapply start_side; [..|lia]|done| |lia].
    left. apply (covers_place _ _ _ _ _ Hc1).
  - lia.
  - exists ds. split; [exact E|]. unfold X, Y, W, P in Hd. rewrite !drop_app_length in Hd. split; [exact Hd|]. split; intros HE.
    + apply Hq1. eapply equal_flush; [exact HX|exact HY|by apply tokens_inj|exact HE|done|done].
    + apply Hq2. eapply equal_flush; [exact HX|exact HW|by apply tokens_inj|exact HE|done|done].
Qed.

Lemma rounds_spec q1 q2 :
  reads R1 store ns q1 (whole_matches pre suf T0 T1 om) -> reads R2 store ns q2 (whole_matches pre suf T0 T2 ol) ->
  (length (whole_matches pre suf T0 T1 om) + length (whole_matches pre suf T0 T2 ol) <= length ns)%nat ->
  exists ds, diff3_loop (S (length ns)) num (mk_diff3 store ns (ps1 !! 0%nat) (ps2 !! 0%nat) q1 q2 1 1 1) = Ok ds /\
    is_diff3 0 0 0 X Y W ds /\ quiet ds.
Proof using All.
  pose proof (whole_covers f pre suf X0 Y0 T0 T1 HX HY om Halo) as Hc1.
  pose proof (whole_covers f pre suf X0 W0 T0 T2 HX HW ol Hall) as Hc2.
  rewrite !whole_rest in *. fold P in Hc1, Hc2 |- *. unfold added in Hc1, Hc2 |- *.
  destruct (decide (P = 0%nat)) as [E|E].
  - intros Hr1 Hr2 Hfit. destruct (rest_rounds_spec (S (length ns)) q1 q2 Hr1 Hr2) as (ds & El & Hd & Hq); [done|lia|].
    rewrite E in El, Hd. change (1 + 0%nat) with 1 in El. exists ds. split; [exact El|].
    unfold X, Y, W. unfold P in E. apply nil_length_inv in E. by rewrite E.
  - cbn [app length]. intros Hr1 Hr2 Hfit.
    destruct (run_offset _ _ _ _ 0 Hrun1) as (a1 & pos1 & _ & G1 & O1); [lia|].
    destruct (run_offset _ _ _ _ 0 Hrun2) as (a2 & pos2 & _ & G2 & O2); [lia|].
    destruct (first_step X Y W store ns P num R1 R2 q1 q2 _ _ ltac:(lia) Hr1 Hr2 Hc1 Hc2 ltac:(lia)
      (ps1 !! 0%nat) (ps2 !! 0%nat) pos1 pos2 G1 G2 ltac:(lia) ltac:(lia)) as (q1' & q2' & Hr1' & Hr2' & Es).
    destruct (rest_rounds_spec (length ns) q1' q2' Hr1' Hr2') as (ds & El & Hd & Hq1 & Hq2); [lia|lia|].
    change (diff3_loop (S (length ns)) num ?st) with
      ('(chunks, next) ← diff3_step num st;
       match next with None => Ok chunks | Some s => diff ← diff3_loop (length ns) num s; Ok (chunks ++ diff) end).
    rewrite Es. cbn [mbind result_bind]. rewrite El. cbn [mbind result_bind]. eexists. split; [done|]. split.
    + cbn [app]. apply (is_diff3_common 0 0 0 pre); [by intros ->|]. exact Hd.
    + split; intros HE; (constructor; [by left|]); [by apply Hq1|by apply Hq2].
Qed.
End Rounds.

(** ** The whole difference *)

Lemma offsets_kept_match store store' m t : offsets_kept store store' -> match_at store m t -> match_at store' m t.
Proof.
  intros Hk (p0 & p1 & G0 & G1 & O0 & O1 & L).
  destruct (offsets_kept_get _ _ _ _ Hk G0) as (p0' & G0' & O0'). destruct (offsets_kept_get _ _ _ _ Hk G1) as (p1' & G1' & O1').
  exists p0', p1'. split_and!; [done|done|congruence|congruence|done].
Qed.

(** The chain of an outcome in a later store. *)
Lemma outcome_reads {A} (pre suf : list A) store ns ps0 ps1 T0 T1 store' ns' q ms l store2 ns2 sentinel :
  lcs_outcome store ns ps0 ps1 T0 T1 (length pre + 1) (length pre + 1) (length pre) (length suf) store' ns' q ms l ->
  length ps1 = length T1 -> offsets_kept store' store2 -> ns' `prefix_of` ns2 ->
  reads (ring_pointer (length pre + length T1) (ps1 ++ [sentinel]) (length pre)) store2 ns2 q (whole_matches pre suf T0 T1 l) /\
  (length ns + length (whole_matches pre suf T0 T1 l) <= length ns')%nat.
Proof.
  intros [_ Hns Hchain _ _ Hat Hptr] Hps Hk Hns2. rewrite (all_matches_whole pre suf) in Hat.
  pose proof (Forall2_length _ _ _ Hat) as Hlen. rewrite length_map in Hlen. split.
  - eapply reads_kept; [exact Hk|exact Hns2|].
    eapply chain_reads; [exact Hchain|exact Hat|by eapply whole_pointers|].
    rewrite whole_rest. intros [_ H]%app_eq_nil. by eapply rest_nonempty.
  - rewrite <- Hlen. eapply chain_length; [done|]. by apply prefix_length.
Qed.

Section Whole3.
Context {Baton Token K : Type} (vtable : svn_diff_fns2_t Baton Token).
Context (key : Token -> K) (kcmp : K -> K -> Z) (valid : Baton -> Prop) (ok : Token -> Prop).
Context (opened : svn_diff_datasource_e -> Prop) (remaining : Baton -> svn_diff_datasource_e -> list (Z * Token)).
Context `{!DiffFnsLaws vtable key kcmp valid ok opened remaining}.

Lemma numbers_inj tree ids t u : tree_inv key kcmp ok tree ids -> 0 <= t < length ids -> 0 <= u < length ids ->
  ids !! Z.to_nat t = ids !! Z.to_nat u -> t = u.
Proof.
  intros Ht Hbt Hbu E. destruct (lookup_lt_is_Some_2 ids (Z.to_nat t)) as [id Hid]; [lia|].
  eapply number_unique; [done|lia|lia|exact Hid|by rewrite <- E].
Qed.

Lemma diff3_2_spec unset1 unset2 fuel b b' (pre suf : list (Z * K)) :
  datasources_open vtable b [svn_diff_datasource_original; svn_diff_datasource_modified; svn_diff_datasource_latest]
    = Ok (b', length pre : Z, length suf : Z) ->
  opened svn_diff_datasource_original -> opened svn_diff_datasource_modified -> opened svn_diff_datasource_latest ->
  valid b' -> (forall ds, Forall (hashed ok) (remaining b' ds)) -> (forall ds, (length (remaining b' ds) < fuel)%nat) ->
  exists diff b'', svn_diff_diff3_2 vtable unset1 unset2 fuel b = Ok (diff, b'') /\
    let X := pre ++ (identity key <$> remaining b' svn_diff_datasource_original) ++ suf in
    let Y := pre ++ (identity key <$> remaining b' svn_diff_datasource_modified) ++ suf in
    let W := pre ++ (identity key <$> remaining b' svn_diff_datasource_latest) ++ suf in
    is_diff3 0 0 0 X Y W diff /\ (X = Y -> only_latest diff) /\ (X = W -> only_modified diff).
Proof.
  intros Hopen Ho Hm Hl Hb Hok Hf. unfold svn_diff_diff3_2. rewrite Hopen. cbn [mbind result_bind].
  destruct (get_tokens_spec vtable key kcmp valid ok opened remaining svn_diff_datasource_original [] svn_diff__tree_create []
              b' (length pre) fuel) as (st0 & T0 & tr0 & ids0 & b1 & E0 & _ & L0 & R0 & Ht0 & _ & N0 & Hb1 & Hrest1);
    [done|by eapply tree_create_inv|done..|]. rewrite E0. cbn [mbind result_bind].
  destruct (get_tokens_spec vtable key kcmp valid ok opened remaining svn_diff_datasource_modified st0 tr0 ids0
              b1 (length pre) fuel) as (st1 & T1 & tr1 & ids1 & b2 & E1 & Hp1 & L1 & R1 & Ht1 & Hpi1 & N1 & Hb2 & Hrest2);
    [done|done|done|by rewrite Hrest1|by rewrite Hrest1|]. rewrite E1. cbn [mbind result_bind].
  destruct (get_tokens_spec vtable key kcmp valid ok opened remaining svn_diff_datasource_latest st1 tr1 ids1
              b2 (length pre) fuel) as (st2 & T2 & tr2 & ids2 & b3 & E2 & Hp2 & L2 & R2 & Ht2 & Hpi2 & N2 & _ & _);
    [done|done|done|by rewrite Hrest2, Hrest1|by rewrite Hrest2, Hrest1|]. rewrite E2. cbn [mbind result_bind].
  rewrite Hrest2, Hrest1 in N2 by done. rewrite Hrest1 in N1 by done.
  apply (numbers_prefix key ids0 ids2) in N0; [|by etrans]. apply (numbers_prefix key ids1 ids2) in N1; [|done].
  pose proof (numbers_bound _ _ _ _ N0) as B0. pose proof (numbers_bound _ _ _ _ N1) as B1. pose proof (numbers_bound _ _ _ _ N2) as B2.
  assert (svn_diff__get_node_count tr2 = length ids2) as -> by by apply Ht2.
  eapply token_ring_prefix in R0; [|by etrans]. eapply token_ring_prefix in R1; [|exact Hp2].
  rewrite (get_token_counts_spec _ _ _ _ _ R0 B0), (get_token_counts_spec _ _ _ _ _ R1 B1), (get_token_counts_spec _ _ _ _ _ R2 B2).
  cbn [mbind result_bind].
  set (ps0 := seq (length (@nil svn_diff__position_t)) (length T0)) in *. set (ps1 := seq (length st0) (length T1)) in *. set (ps2 := seq (length st1) (length T2)) in *.
  assert (forall a, a ∈ ps0 -> a ∉ ps1 /\ a ∉ ps2) as D0.
  { intros a [_ Ha]%elem_of_seq. split; intros [Ha' _]%elem_of_seq; simpl in *; lia. }
  assert (forall a, a ∈ ps1 -> a ∉ ps2) as D1.
  { intros a [_ Ha]%elem_of_seq [Ha' _]%elem_of_seq. lia. }
  destruct (lcs_spec st2 [] ps0 ps1 T0 T1 _ _ (length ids2) (length pre) (length suf) R0 R1) as
    (st3 & ns1 & om & ms1 & l1 & -> & Hout1); [by apply D0|done|done|lia..|]. cbn [mbind result_bind].
  pose proof Hout1 as [Hs3 Hn1 _ Hal1 Hlcs1 _ _].
  eapply token_ring_prefix in R0; [|exact Hs3]. eapply token_ring_prefix in R1; [|exact Hs3]. eapply token_ring_prefix in R2; [|exact Hs3].
  destruct (lcs_spec st3 ns1 ps0 ps2 T0 T2 _ _ (length ids2) (length pre) (length suf) R0 R2) as
    (st4 & ns2 & ol & ms2 & l2 & -> & Hout2); [by apply D0|done|done|lia..|]. cbn [mbind result_bind].
  pose proof Hout2 as [Hs4 Hn2 _ Hal2 Hlcs2 _ _].
  eapply token_ring_prefix in R1; [|exact Hs4]. eapply token_ring_prefix in R2; [|exact Hs4].
  destruct (open_list_spec st4 ps1 T1 (length pre) unset1 R1) as (st5 & -> & Hrun1 & Hk5 & L5 & Hsame5). cbn [mbind result_bind].
  assert (token_ring st5 ps2 T2 (length pre + 1)) as R2'.
  { pose proof (token_ring_bound _ _ _ _ R2) as Hbd. rewrite Forall_forall in Hbd.
    eapply token_ring_store; [|exact R2]. intros a Ha. apply Hsame5; [|by apply Hbd]. intros Ha'. by eapply D1. }
  pose proof (token_ring_bound _ _ _ _ R1) as Bd1. rewrite Forall_forall in Bd1.
  pose proof (token_ring_bound _ _ _ _ R2) as Bd2. rewrite Forall_forall in Bd2.
  destruct (open_list_spec st5 ps2 T2 (length pre) unset2 R2') as (st6 & -> & Hrun2 & Hk6 & L6 & Hsame6). cbn [mbind result_bind].
  assert (run st6 (ps1 ++ [length st4]) T1 (1 + length pre)) as Hrun1'.
  { eapply run_store; [|exact Hrun1]. intros a [Ha| ->%list_elem_of_singleton]%elem_of_app.
    - specialize (Bd1 a Ha). apply Hsame6; [by apply D1|lia].
    - apply Hsame6; [intros Ha; specialize (Bd2 _ Ha); lia|lia]. }
  destruct (outcome_reads pre suf _ _ _ _ _ _ _ _ _ _ _ st6 ns2 (length st4) Hout1) as [Hr1 Hf1];
    [unfold ps1; by rewrite length_seq| |done|].
  { eapply offsets_kept_trans; [by apply offsets_kept_prefix|]. by eapply offsets_kept_trans. }
  destruct (outcome_reads pre suf _ _ _ _ _ _ _ _ _ _ _ st6 ns2 (length st5) Hout2) as [Hr2 Hf2];
    [unfold ps2; by rewrite length_seq|by eapply offsets_kept_trans|done|].
  destruct (rounds_spec (fun t => ids2 !! Z.to_nat t) pre suf _ _ _ T0 T1 T2 (numbers_fmap _ _ _ _ N0) (numbers_fmap _ _ _ _ N1)
    (numbers_fmap _ _ _ _ N2) (length ids2) B0 B1 B2 (fun t u Hbt Hbu => numbers_inj _ _ t u Ht2 Hbt Hbu)
    st6 ns2 (ps1 ++ [length st4]) (ps2 ++ [length st5]) l1 l2) with (q1 := om) (q2 := ol) as (ds & -> & Hd & Hq); [|done..| |].
  - intros a [Ha| ->%list_elem_of_singleton]%elem_of_app [Ha'|Ha'%list_elem_of_singleton]%elem_of_app.
    + by eapply D1.
    + specialize (Bd1 a Ha). lia.
    + specialize (Bd2 _ Ha'). lia.
    + lia.
  - simpl in Hf1. lia.
  - cbn [mbind result_bind]. eexists _, _. split; [done|]. split; [exact Hd|exact Hq].
Qed.
End Whole3.

(** ** Three strings *)

Lemma is_diff3_fmap {A B} (f : A -> B) (Q : A -> Prop) i j k X Y W ds :
  (forall x y, Q x -> Q y -> f x = f y -> x = y) -> is_diff3 i j k X Y W ds ->
  Forall Q X -> Forall Q Y -> Forall Q W -> is_diff3 i j k (f <$> X) (f <$> Y) (f <$> W) ds.
Proof.
  intros Hinj. induction 1 as [|i j k c X Y W ds Hc Hd IH|i j k a b X Y W ds Hab Hd IH|i j k a c X Y W ds Hac Hd IH
    |i j k a b X Y W ds Hd IH|i j k a b c X Y W ds rs hunk Hbc Eh Hrs Hd IH]; [constructor|..];
    rewrite !Forall_app, !fmap_app; intros [Qx Qx'] [Qy Qy'] [Qw Qw']; specialize (IH Qx' Qy' Qw').
  - rewrite <- (length_fmap f c) in *. apply is_diff3_common; [by intros ?%fmap_nil_inv|done].
  - rewrite <- (length_fmap f a), <- (length_fmap f b) in *. apply is_diff3_modified; [|done].
    rewrite <- fmap_app. by intros ?%fmap_nil_inv.
  - rewrite <- (length_fmap f a), <- (length_fmap f c) in *. apply is_diff3_latest; [|done].
    rewrite <- fmap_app. by intros ?%fmap_nil_inv.
  - rewrite <- (length_fmap f a), <- (length_fmap f b) in *. by apply is_diff3_same.
  - rewrite Forall_forall in Qy, Qw.
    apply (is_diff3_conflict i j k (f <$> a) (f <$> b) (f <$> c) _ _ _ _ rs); [|by rewrite !length_fmap| |by rewrite !length_fmap].
    + intros E. apply Hbc. apply list_eq. intros x. apply (f_equal (lookup x)) in E. rewrite !list_lookup_fmap in E.
      destruct (b !! x) as [u|] eqn:Eu, (c !! x) as [v|] eqn:Ev; cbn in E; try done. injection E as E. f_equal.
      apply Hinj; [apply Qy|apply Qw|done]; by eapply list_elem_of_lookup_2.
    + intros Hb Hc. destruct Hrs as (parts & Hp & Hl & Er); [by intros ?%Hb%fmap_nil_inv|by intros ?%Hc%fmap_nil_inv|].
      exists parts. split_and!; [by apply is_diff_fmap| |done]. apply is_lcs_fmap; [|done].
      intros x y Hx Hy. apply Hinj; auto.
Qed.

(** The sources of a baton as the data sources of a difference. *)
Lemma mem_lines_hashed adler32 opts room text : Forall is_byte text -> Forall (line_ok room) (lines text) ->
  Forall (hashed (line_ok room)) ((fun line => (line_hash adler32 opts line, line)) <$> lines text).
Proof.
  intros Ht Hok. apply Forall_fmap, Forall_forall. intros line Hline. rewrite Forall_forall in Hok.
  split; [|by apply Hok]. apply adler32_range, normal_form_bytes.
  pose proof (lines_bytes text Ht) as Hb. rewrite Forall_forall in Hb. by apply Hb.
Qed.

Lemma mem_string_diff3_spec adler32 unset1 unset2 original modified latest opts :
  Forall is_byte original -> Forall is_byte modified -> Forall is_byte latest ->
  exists ds, svn_diff_mem_string_diff3 adler32 unset1 unset2 original modified latest opts = Ok ds /\
    let X := normal_form opts <$> lines original in
    let Y := normal_form opts <$> lines modified in
    let W := normal_form opts <$> lines latest in
    is_diff3 0 0 0 X Y W ds /\ (X = Y -> only_latest ds) /\ (X = W -> only_modified ds).
Proof.
  intros Ho Hm Hl. unfold svn_diff_mem_string_diff3. rewrite !fill_source_tokens_spec. cbn [mbind result_bind].
  set (src text := mk_source (lines text) 0 text (ends_open (lines text))).
  change (mk_source (lines ?t) 0 ?t (ends_open (lines ?t))) with (src t).
  set (srcs := [src original; src modified; src latest]). set (room := alloc_normalization_bufs srcs).
  set (b := mk_mem_baton srcs room opts).
  pose proof (alloc_bufs_spec srcs) as Halloc. fold room in Halloc.
  apply Forall_cons in Halloc as [H0 Halloc]. apply Forall_cons in Halloc as [H1 H2]. rewrite Forall_singleton in H2.
  set (tok := fun line => (line_hash adler32 opts line, line)).
  assert (mem_remaining adler32 opts b svn_diff_datasource_original = tok <$> lines original) as E0 by done.
  assert (mem_remaining adler32 opts b svn_diff_datasource_modified = tok <$> lines modified) as E1 by done.
  assert (mem_remaining adler32 opts b svn_diff_datasource_latest = tok <$> lines latest) as E2 by done.
  destruct (diff3_2_spec (svn_diff__mem_vtable adler32) (normal_form opts) line_cmp
    (mem_valid opts room 3) (line_ok room) (mem_opened 3) (mem_remaining adler32 opts) unset1 unset2
    (S (length original + length modified + length latest)) b b [] []) as (ds & b' & -> & Hd & Hq1 & Hq2).
  - done.
  - unfold mem_opened. simpl. lia.
  - unfold mem_opened. simpl. lia.
  - unfold mem_opened. simpl. lia.
  - split_and!; [done..|]. repeat (apply Forall_cons; split; [by split|]). constructor.
  - intros []; [rewrite E0|rewrite E1|rewrite E2|constructor]; by apply mem_lines_hashed.
  - pose proof (lines_bound original). pose proof (lines_bound modified). pose proof (lines_bound latest).
    intros []; [rewrite E0, length_fmap; lia|rewrite E1, length_fmap; lia|rewrite E2, length_fmap; lia|simpl; lia].
  - exists ds. split; [done|]. rewrite E0, E1, E2 in Hd. rewrite E0, E1 in Hq1. rewrite E0, E2 in Hq2.
    set (g := fun nf => (svn__adler32 adler32 0 nf, nf)).
    assert (forall text, g <$> (normal_form opts <$> lines text) = [] ++ (identity (normal_form opts) <$> (tok <$> lines text)) ++ []) as E.
    { intros text. rewrite app_nil_r. cbn [app]. by rewrite <- !list_fmap_compose. }
    rewrite <- (E original), <- (E modified), <- (E latest) in Hd. rewrite <- (E original), <- (E modified) in Hq1.
    rewrite <- (E original), <- (E latest) in Hq2.
    assert (forall l : list bytes, l = snd <$> (g <$> l)) as Es.
    { intros l. rewrite <- list_fmap_compose. rewrite <- (list_fmap_id l) at 1. done. }
    split; [|split; intros HE; [apply Hq1|apply Hq2]; by rewrite HE].
    rewrite (Es (_ <$> lines original)), (Es (_ <$> lines modified)), (Es (_ <$> lines latest)).
    apply (is_diff3_fmap snd (fun x => x.1 = svn__adler32 adler32 0 x.2)); [|exact Hd|..].
    + intros [h x] [h' y]. cbn. by intros -> -> ->.
    + apply Forall_fmap, Forall_true. done.
    + apply Forall_fmap, Forall_true. done.
    + apply Forall_fmap, Forall_true. done.
Qed.
