(* ===== verification/DiffMerge.v ===== *)
(** * Merged text (libsvn_diff/diff_memory.c)

    The output functions for the differences of three strings: the merged
    text with its conflicts marked, or the conflicts alone with the lines
    around them. *)

From S2P Require Import Prelude Buffers CString DiffNormalize DiffToken DiffLcs Diff DiffMemory.
From S2P Require Import DiffUnified.

Inductive svn_diff_conflict_display_style_t :=
  | svn_diff_conflict_display_modified_latest
  | svn_diff_conflict_display_resolved_modified_latest
  | svn_diff_conflict_display_modified_original_latest
  | svn_diff_conflict_display_modified
  | svn_diff_conflict_display_latest
  | svn_diff_conflict_display_only_conflicts.

#[export] Instance display_style_eq_dec : EqDecision svn_diff_conflict_display_style_t.
Proof. solve_decision. Defined.

(** The lines that were written last, in a buffer that is written round. *)
Record context_saver_t := mk_saver {
  cs_data : list (option bytes);
  cs_next_slot : Z;
  cs_total_writes : Z
}.

(** What [output_stream] points to. *)
Inductive merge_stream :=
  | real_stream
  | saver_stream
  | trailing_stream (lines_to_print : Z).

(** [mo_output] is what was written to the real stream.  There is no saver in
    the pool once the printer of trailing context has been made in it. *)
Record merge_output_baton_t := mk_merge_baton {
  mo_output : bytes;
  mo_stream : merge_stream;
  mo_sources : list source_tokens_t;
  mo_markers : list bytes;
  mo_marker_eol : bytes;
  mo_conflict_style : svn_diff_conflict_display_style_t;
  mo_context_size : Z;
  mo_context_saver : option context_saver_t
}.

Definition set_output (btn : merge_output_baton_t) (output : bytes) (stream : merge_stream)
    (saver : option context_saver_t) : merge_output_baton_t :=
  mk_merge_baton output stream (mo_sources btn) (mo_markers btn) (mo_marker_eol btn) (mo_conflict_style btn)
    (mo_context_size btn) saver.

(** ** Streams *)

Definition context_saver_stream_write (cs : context_saver_t) (data : bytes) : context_saver_t :=
  mk_saver (<[Z.to_nat (cs_next_slot cs) := Some data]> (cs_data cs))
    ((cs_next_slot cs + 1) mod zlen (cs_data cs)) (cs_total_writes cs + 1).

Definition make_context_saver (mob : merge_output_baton_t) : result merge_output_baton_t :=
  _ ← c_assert (0 <? mo_context_size mob);
  Ok (set_output mob (mo_output mob) saver_stream
        (Some (mk_saver (replicate (Z.to_nat (mo_context_size mob)) None) 0 0))).

(** To the real stream. *)
Definition write_real (btn : merge_output_baton_t) (data : bytes) : merge_output_baton_t :=
  set_output btn (mo_output btn ++ data) (mo_stream btn) (mo_context_saver btn).

Definition trailing_context_printer_write (btn : merge_output_baton_t) (lines_to_print : Z) (data : bytes)
    : result merge_output_baton_t :=
  _ ← svn_err_assert (0 <? lines_to_print);
  let lines_to_print := lines_to_print - 1 in
  let btn := set_output btn (mo_output btn ++ data) (trailing_stream lines_to_print) (mo_context_saver btn) in
  if lines_to_print =? 0 then make_context_saver btn else Ok btn.

Definition make_trailing_context_printer (btn : merge_output_baton_t) : merge_output_baton_t :=
  set_output btn (mo_output btn) (trailing_stream (mo_context_size btn)) None.

(** [svn_stream_write] to [output_stream]. *)
Definition merge_write (btn : merge_output_baton_t) (data : bytes) : result merge_output_baton_t :=
  match mo_stream btn with
  | real_stream => Ok (write_real btn data)
  | saver_stream =>
      match mo_context_saver btn with
      | Some cs => Ok (set_output btn (mo_output btn) saver_stream (Some (context_saver_stream_write cs data)))
      | None => Err C_UNDEFINED
      end
  | trailing_stream lines_to_print => trailing_context_printer_write btn lines_to_print data
  end.

Definition flush_context_saver (cs : context_saver_t) (btn : merge_output_baton_t) : merge_output_baton_t :=
  foldl (fun btn i =>
           let slot := (i + cs_next_slot cs) mod zlen (cs_data cs) in
           match cs_data cs !! Z.to_nat slot with
           | Some (Some data) => write_real btn data
           | _ => btn
           end)
        btn (seqZ 0 (zlen (cs_data cs))).

(** ** Lines and markers *)

Fixpoint merge_token_loop (fuel : nat) (btn : merge_output_baton_t) (tokens : list bytes) (first length : Z)
    : result merge_output_baton_t :=
  if (0 <? length) && (first <? zlen tokens) then
    if first <? 0 then Err C_UNDEFINED
    else
      match fuel, tokens !! Z.to_nat first with
      | S f, Some token =>
          btn ← merge_write btn token;
          merge_token_loop f btn tokens (first + 1) (length - 1)
      | O, _ => Err OUT_OF_FUEL
      | _, None => Err C_UNDEFINED
      end
  else Ok btn.

Definition output_merge_token_range (btn : merge_output_baton_t) (idx : nat) (first length_ : Z)
    : result merge_output_baton_t :=
  match mo_sources btn !! idx with
  | Some source => merge_token_loop (length (tokens source)) btn (tokens source) first length_
  | None => Err C_UNDEFINED
  end.

Definition output_marker_eol (btn : merge_output_baton_t) : result merge_output_baton_t :=
  merge_write btn (mo_marker_eol btn).

Definition output_merge_marker (btn : merge_output_baton_t) (idx : nat) : result merge_output_baton_t :=
  match mo_markers btn !! idx with
  | Some marker => btn ← merge_write btn marker; output_marker_eol btn
  | None => Err C_UNDEFINED
  end.

Definition output_common_modified (btn : merge_output_baton_t)
    (original_start original_length modified_start modified_length latest_start latest_length : Z)
    : result merge_output_baton_t :=
  output_merge_token_range btn 1 modified_start modified_length.

Definition output_latest (btn : merge_output_baton_t)
    (original_start original_length modified_start modified_length latest_start latest_length : Z)
    : result merge_output_baton_t :=
  output_merge_token_range btn 2 latest_start latest_length.

(** ** Conflicts *)

Section Merge.
Context {Cancel : Type} (cancel_func : option (Cancel -> result Cancel)).

Notation conflict_fn :=
  (merge_output_baton_t -> Z -> Z -> Z -> Z -> Z -> Z -> list svn_diff_t -> Cancel -> result (merge_output_baton_t * Cancel)).

(** The table of functions, with the one for conflicts, which uses the table
    itself. *)
Definition merge_output_vtable (output_conflict : conflict_fn) : svn_diff_output_fns_t merge_output_baton_t Cancel :=
  mk_output_fns (Some output_common_modified) (Some output_common_modified) (Some output_latest)
    (Some output_common_modified) (Some output_conflict).

(** With markers, or one of the sides. *)
Definition output_conflict_sides (btn : merge_output_baton_t) (style : svn_diff_conflict_display_style_t)
    (original_start original_length modified_start modified_length latest_start latest_length : Z)
    : result merge_output_baton_t :=
  match style with
  | svn_diff_conflict_display_modified_latest
  | svn_diff_conflict_display_modified_original_latest =>
      btn ← output_merge_marker btn 1;
      btn ← output_merge_token_range btn 1 modified_start modified_length;
      btn ← (if bool_decide (style = svn_diff_conflict_display_modified_original_latest) then
               btn ← output_merge_marker btn 0;
               output_merge_token_range btn 0 original_start original_length
             else Ok btn);
      btn ← output_merge_marker btn 2;
      btn ← output_merge_token_range btn 2 latest_start latest_length;
      output_merge_marker btn 3
  | svn_diff_conflict_display_modified => output_merge_token_range btn 1 modified_start modified_length
  | svn_diff_conflict_display_latest => output_merge_token_range btn 2 latest_start latest_length
  | _ => Err SVN_ERR_ASSERTION_FAIL
  end.

(** [fuel] is the depth of resolved differences. *)
Fixpoint output_conflict (fuel : nat) (btn : merge_output_baton_t)
    (original_start original_length modified_start modified_length latest_start latest_length : Z)
    (diff : list svn_diff_t) (cancel_baton : Cancel) : result (merge_output_baton_t * Cancel) :=
  let sides style :=
    btn ← output_conflict_sides btn style original_start original_length modified_start modified_length
            latest_start latest_length;
    Ok (btn, cancel_baton) in
  match mo_conflict_style btn, diff with
  | svn_diff_conflict_display_resolved_modified_latest, _ :: _ =>
      match fuel with
      | O => Err OUT_OF_FUEL
      | S f => svn_diff_output2 diff btn (merge_output_vtable (output_conflict f)) cancel_func cancel_baton
      end
  | svn_diff_conflict_display_resolved_modified_latest, [] => sides svn_diff_conflict_display_modified_latest
  | style, _ => sides style
  end.

Definition output_conflict_with_context_marker (btn : merge_output_baton_t) (idx : nat) (start length : Z)
    : result merge_output_baton_t :=
  match mo_markers btn !! idx with
  | Some label =>
      btn ← merge_write btn
        (label ++ cstr " (" ++ print_ld (start + 1) ++
         (if length =? 1 then [] else cstr "," ++ print_ld length) ++ cstr ")");
      output_marker_eol btn
  | None => Err C_UNDEFINED
  end.

(** The printer of trailing context has been made in the pool that the saver
    was allocated in. *)
Definition output_conflict_with_context (btn : merge_output_baton_t)
    (original_start original_length modified_start modified_length latest_start latest_length : Z)
    (diff : list svn_diff_t) (cancel_baton : Cancel) : result (merge_output_baton_t * Cancel) :=
  match mo_context_saver btn with
  | None => Err C_UNDEFINED
  | Some cs =>
      let btn :=
        match mo_stream btn with
        | saver_stream =>
            flush_context_saver cs
              (if mo_context_size btn <? cs_total_writes cs then write_real btn (cstr "@@" ++ [LF]) else btn)
        | _ => btn
        end in
      let btn := set_output btn (mo_output btn) real_stream (mo_context_saver btn) in
      btn ← output_conflict_with_context_marker btn 1 modified_start modified_length;
      btn ← output_merge_token_range btn 1 modified_start modified_length;
      btn ← output_conflict_with_context_marker btn 0 original_start original_length;
      btn ← output_merge_token_range btn 0 original_start original_length;
      btn ← output_merge_marker btn 2;
      btn ← output_merge_token_range btn 2 latest_start latest_length;
      btn ← output_conflict_with_context_marker btn 3 latest_start latest_length;
      Ok (make_trailing_context_printer btn, cancel_baton)
  end.

Definition merge_only_conflicts_output_vtable : svn_diff_output_fns_t merge_output_baton_t Cancel :=
  mk_output_fns (Some output_common_modified) (Some output_common_modified) (Some output_latest)
    (Some output_common_modified) (Some output_conflict_with_context).
End Merge.

(** The line end of a line, if it has one. *)
Definition detect_eol (token : bytes) : option bytes :=
  match last token with
  | None => None
  | Some c =>
      if c =? CR then Some [CR]
      else if negb (c =? LF) then None
      else
        match last (removelast token) with
        | Some d => if d =? CR then Some [CR; LF] else Some [LF]
        | None => Some [LF]
        end
  end.

(** The depth of the resolved differences. *)
Fixpoint diff_depth (d : svn_diff_t) : nat :=
  S (foldr (fun d n => Nat.max (diff_depth d) n) 0%nat (resolved_diff d)).

Definition diffs_depth (diff : list svn_diff_t) : nat := foldr (fun d n => Nat.max (diff_depth d) n) 0%nat diff.

Section Output.
(** The conversion to the encoding of the locale. *)
Context (cstring_from_utf8 : bytes -> result bytes).

(** What the output stream holds in the end. *)
Definition svn_diff_mem_string_output_merge3 {Cancel} (output_stream : bytes) (diff : list svn_diff_t)
    (original modified latest : bytes) (conflict_original conflict_modified conflict_latest conflict_separator : option bytes)
    (style : svn_diff_conflict_display_style_t) (cancel_func : option (Cancel -> result Cancel)) (cancel_baton : Cancel)
    : result bytes :=
  let conflicts_only := bool_decide (style = svn_diff_conflict_display_only_conflicts) in
  source0 ← fill_source_tokens original;
  source1 ← fill_source_tokens modified;
  source2 ← fill_source_tokens latest;
  let eol := match tokens source1 with
             | token :: _ => default APR_EOL_STR (detect_eol token)
             | [] => APR_EOL_STR
             end in
  marker1 ← cstring_from_utf8 (default (cstr "<<<<<<< (modified)") conflict_modified);
  marker0 ← cstring_from_utf8 (default (cstr "||||||| (original)") conflict_original);
  marker2 ← cstring_from_utf8 (default (cstr "=======") conflict_separator);
  marker3 ← cstring_from_utf8 (default (cstr ">>>>>>> (latest)") conflict_latest);
  let btn := mk_merge_baton output_stream real_stream [source0; source1; source2] [marker0; marker1; marker2; marker3]
               eol style SVN_DIFF__UNIFIED_CONTEXT_SIZE None in
  btn ← (if conflicts_only then make_context_saver btn else Ok btn);
  let vtable := if conflicts_only then merge_only_conflicts_output_vtable
                else merge_output_vtable (output_conflict cancel_func (diffs_depth diff)) in
  '(btn, _) ← svn_diff_output2 diff btn vtable cancel_func cancel_baton;
  Ok (mo_output btn).
End Output.
