(* ===== verification/DiffMergeFacts.v ===== *)
(** * Merged text is a merge

    What the merge of two versions of a text means, line by line, and that the
    output functions render it. *)

From S2P Require Import Prelude Buffers CString Adler32 DiffNormalize Subsequence DiffToken DiffTokenFacts.
From S2P Require Import DiffLcs Diff DiffFacts.
From S2P Require Import DiffMemory DiffMemoryFacts DiffUnified DiffUnifiedFacts Diff3 Diff3Facts Diff3Walk.
From S2P Require Import Diff3Spec DiffMerge.

#[local] Coercion Z.of_nat : nat >-> Z.

(** ** Merges *)

(** A conflict may be resolved in part: some lines of both versions agree. *)
Inductive part :=
  | agreed (l : list bytes)
  | disputed (b c : list bytes).

Inductive item :=
  | kept (l : list bytes)
  | conflict (a b c : list bytes) (parts : list part).

Section Merges.
(** What is compared of a line. *)
Context (nf : bytes -> bytes).

Inductive resolves : list bytes -> list bytes -> list part -> Prop :=
  | resolves_end : resolves [] [] []
  | resolves_agreed b c Y W parts :
      nf <$> b = nf <$> c -> resolves Y W parts -> resolves (b ++ Y) (c ++ W) (agreed b :: parts)
  | resolves_disputed b c Y W parts :
      b ++ c <> [] -> resolves Y W parts -> resolves (b ++ Y) (c ++ W) (disputed b c :: parts).

(** From the lines [j] and [k] of the two versions on: where one of them is
    like the original, the lines of the other one are kept; where both have
    changed in the same way, these lines; otherwise there is a conflict. *)
Inductive merges : nat -> nat -> list bytes -> list bytes -> list bytes -> list item -> Prop :=
  | merges_end j k : merges j k [] [] [] []
  | merges_modified j k a b c X Y W items :
      nf <$> a = nf <$> c -> merges (j + length b) (k + length c) X Y W items ->
      merges j k (a ++ X) (b ++ Y) (c ++ W) (kept b :: items)
  | merges_latest j k a b c X Y W items :
      nf <$> a = nf <$> b -> merges (j + length b) (k + length c) X Y W items ->
      merges j k (a ++ X) (b ++ Y) (c ++ W) (kept c :: items)
  | merges_same j k a b c X Y W items :
      nf <$> b = nf <$> c -> merges (j + length b) (k + length c) X Y W items ->
      merges j k (a ++ X) (b ++ Y) (c ++ W) (kept b :: items)
  | merges_conflict j k a b c X Y W parts items :
      nf <$> b <> nf <$> c ->
      ((j = 0%nat -> b = []) -> (k = 0%nat -> c = []) -> resolves b c parts) ->
      merges (j + length b) (k + length c) X Y W items ->
      merges j k (a ++ X) (b ++ Y) (c ++ W) (conflict a b c parts :: items).

(** There are no conflicts, and the lines are these. *)
Definition clean (items : list item) (lines : list bytes) : Prop :=
  exists ls, items = kept <$> ls /\ nf <$> concat ls = nf <$> lines.
End Merges.

(** How merges are written. *)
Record marks := mk_marks {
  mark_original : bytes;
  mark_modified : bytes;
  mark_separator : bytes;
  mark_latest : bytes;
  mark_eol : bytes
}.

Section Render.
Context (m : marks).

(** A marker on a line of its own, and the lines behind it. *)
Definition section (marker : bytes) (l : list bytes) : bytes := marker ++ mark_eol m ++ concat l.

Definition render_part (p : part) : bytes :=
  match p with
  | agreed l => concat l
  | disputed b c => section (mark_modified m) b ++ section (mark_separator m) c ++ section (mark_latest m) []
  end.

Definition render (style : svn_diff_conflict_display_style_t) (it : item) : bytes :=
  match it with
  | kept l => concat l
  | conflict a b c parts =>
      match style with
      | svn_diff_conflict_display_modified_latest =>
          section (mark_modified m) b ++ section (mark_separator m) c ++ section (mark_latest m) []
      | svn_diff_conflict_display_modified_original_latest =>
          section (mark_modified m) b ++ section (mark_original m) a ++ section (mark_separator m) c ++
          section (mark_latest m) []
      | svn_diff_conflict_display_modified => concat b
      | svn_diff_conflict_display_latest => concat c
      | svn_diff_conflict_display_resolved_modified_latest => parts ≫= render_part
      | svn_diff_conflict_display_only_conflicts => []
      end
  end.

Lemma render_clean nf style items lines : clean nf items lines ->
  exists Z, items ≫= render style = concat Z /\ nf <$> Z = nf <$> lines.
Proof.
  intros (ls & -> & E). exists (concat ls). split; [|done]. clear E.
  induction ls as [|l ls IH]; [done|]. cbn. rewrite concat_app. f_equal. exact IH.
Qed.
End Render.

(** ** Ranges of lines *)

Lemma write_real_app btn a b : write_real (write_real btn a) b = write_real btn (a ++ b).
Proof. unfold write_real, set_output. cbn. by rewrite app_assoc. Qed.

Lemma write_real_nil btn : write_real btn [] = btn.
Proof. destruct btn. unfold write_real, set_output. cbn. by rewrite app_nil_r. Qed.

Lemma merge_write_real btn data : mo_stream btn = real_stream -> merge_write btn data = Ok (write_real btn data).
Proof. intros H. unfold merge_write. by rewrite H. Qed.

Lemma merge_token_loop_spec tokens l : forall A C fuel btn, tokens = A ++ l ++ C -> (length l <= fuel)%nat ->
  mo_stream btn = real_stream -> merge_token_loop fuel btn tokens (length A) (length l) = Ok (write_real btn (concat l)).
Proof.
  induction l as [|t l IH]; intros A C fuel btn E Hf Hb.
  - rewrite write_real_nil. by destruct fuel.
  - destruct fuel as [|f]; [simpl in Hf; lia|]. cbn [merge_token_loop].
    assert (0 <? length (t :: l) = true) as -> by (apply Z.ltb_lt; simpl; lia).
    assert ((length A <? zlen tokens) = true) as ->.
    { apply Z.ltb_lt. unfold zlen. rewrite E, !length_app. simpl. lia. }
    cbn [andb]. rewrite (proj2 (Z.ltb_ge _ _)) by lia. rewrite Nat2Z.id.
    assert (tokens !! length A = Some t) as -> by (rewrite E; by apply list_lookup_middle).
    rewrite merge_write_real by done. cbn [mbind result_bind].
    replace (length A + 1) with (length (A ++ [t]) : Z) by (rewrite length_app; simpl; lia).
    replace (length (t :: l) - 1) with (length l : Z) by (simpl; lia).
    rewrite (IH (A ++ [t]) C); [|by rewrite <- app_assoc|simpl in Hf; lia|done]. by rewrite write_real_app.
Qed.

Lemma range_spec btn idx source A l C : mo_sources btn !! idx = Some source -> tokens source = A ++ l ++ C ->
  mo_stream btn = real_stream ->
  output_merge_token_range btn idx (length A) (length l) = Ok (write_real btn (concat l)).
Proof.
  intros Hs E Hb. unfold output_merge_token_range. rewrite Hs. apply (merge_token_loop_spec _ l A C); [done| |done].
  rewrite E, !length_app. lia.
Qed.

(** ** Handing out the differences *)

(** A conflict can be resolved unless its lines start a text. *)
Definition resolvable (d : svn_diff_t) : Prop :=
  diff_type d = svn_diff__type_conflict ->
  (modified_start d = 0 -> modified_length d = 0) /\ (latest_start d = 0 -> latest_length d = 0).

Section Output.
Context (opts : svn_diff_file_options_t) (X Y W : list bytes) (m : marks) (style : svn_diff_conflict_display_style_t).
Context {Cancel : Type} (cancel_func : option (Cancel -> result Cancel)).
Hypothesis Hcancel : forall f c, cancel_func = Some f -> exists c', f c = Ok c'.

Notation nf := (normal_form opts).

(** The baton that writes to the output stream. *)
Record writing (btn : merge_output_baton_t) : Prop := {
  wr_stream : mo_stream btn = real_stream;
  wr_original : exists s, mo_sources btn !! 0%nat = Some s /\ tokens s = X;
  wr_modified : exists s, mo_sources btn !! 1%nat = Some s /\ tokens s = Y;
  wr_latest : exists s, mo_sources btn !! 2%nat = Some s /\ tokens s = W;
  wr_markers : mo_markers btn = [mark_original m; mark_modified m; mark_separator m; mark_latest m];
  wr_eol : mo_marker_eol btn = mark_eol m;
  wr_style : mo_conflict_style btn = style
}.

Lemma writing_real btn data : writing btn -> writing (write_real btn data).
Proof. by intros []. Qed.

Lemma ask_cancel c : exists c', (if cancel_func is Some cancel then cancel c else Ok c) = Ok c'.
Proof using Hcancel. destruct cancel_func as [f|]; [by apply Hcancel|by eexists]. Qed.

Lemma write_original btn A l C : writing btn -> X = A ++ l ++ C ->
  output_merge_token_range btn 0 (length A) (length l) = Ok (write_real btn (concat l)).
Proof. intros [Hs (s & Hi & Ht) _ _ _ _ _] E. eapply range_spec; [exact Hi|by rewrite Ht|done]. Qed.

Lemma write_modified btn A l C : writing btn -> Y = A ++ l ++ C ->
  output_merge_token_range btn 1 (length A) (length l) = Ok (write_real btn (concat l)).
Proof. intros [Hs _ (s & Hi & Ht) _ _ _ _] E. eapply range_spec; [exact Hi|by rewrite Ht|done]. Qed.

Lemma write_latest btn A l C : writing btn -> W = A ++ l ++ C ->
  output_merge_token_range btn 2 (length A) (length l) = Ok (write_real btn (concat l)).
Proof. intros [Hs _ _ (s & Hi & Ht) _ _ _] E. eapply range_spec; [exact Hi|by rewrite Ht|done]. Qed.

Lemma marker_spec btn idx marker : writing btn ->
  [mark_original m; mark_modified m; mark_separator m; mark_latest m] !! idx = Some marker ->
  output_merge_marker btn idx = Ok (write_real btn (section m marker [])).
Proof.
  intros Hw Hi. unfold output_merge_marker, output_marker_eol. rewrite (wr_markers _ Hw), Hi.
  rewrite merge_write_real by apply Hw. cbn [mbind result_bind]. rewrite merge_write_real by apply Hw.
  rewrite write_real_app. unfold section. cbn [concat]. rewrite app_nil_r. do 3 f_equal. apply Hw.
Qed.

Lemma section_lines marker l : section m marker [] ++ concat l = section m marker l.
Proof. unfold section. cbn [concat]. by rewrite app_nil_r, <- app_assoc. Qed.

(** The sides of a conflict. *)
Lemma sides_spec btn st A a A' B b B' C c C' : writing btn -> X = A ++ a ++ A' -> Y = B ++ b ++ B' -> W = C ++ c ++ C' ->
  st <> svn_diff_conflict_display_only_conflicts -> st <> svn_diff_conflict_display_resolved_modified_latest ->
  output_conflict_sides btn st (length A) (length a) (length B) (length b) (length C) (length c)
  = Ok (write_real btn (render m st (conflict a b c []))).
Proof.
  intros Hw EX EY EW H1 H2.
  destruct st; try done; cbn [output_conflict_sides render].
  - rewrite (marker_spec _ 1 (mark_modified m)) by auto 12 using writing_real. cbn [mbind result_bind].
    rewrite (write_modified _ B b B') by auto 12 using writing_real. cbn [mbind result_bind]. rewrite bool_decide_false by done.
    cbn [mbind result_bind]. rewrite (marker_spec _ 2 (mark_separator m)) by auto 12 using writing_real. cbn [mbind result_bind].
    rewrite (write_latest _ C c C') by auto 12 using writing_real. cbn [mbind result_bind].
    rewrite (marker_spec _ 3 (mark_latest m)) by auto 12 using writing_real. rewrite !write_real_app. do 2 f_equal.
    by rewrite <- (section_lines (mark_modified m) b), <- (section_lines (mark_separator m) c), <- !app_assoc.
  - rewrite (marker_spec _ 1 (mark_modified m)) by auto 12 using writing_real. cbn [mbind result_bind].
    rewrite (write_modified _ B b B') by auto 12 using writing_real. cbn [mbind result_bind]. rewrite bool_decide_true by done.
    rewrite (marker_spec _ 0 (mark_original m)) by auto 12 using writing_real. cbn [mbind result_bind].
    rewrite (write_original _ A a A') by auto 12 using writing_real. cbn [mbind result_bind].
    rewrite (marker_spec _ 2 (mark_separator m)) by auto 12 using writing_real. cbn [mbind result_bind].
    rewrite (write_latest _ C c C') by auto 12 using writing_real. cbn [mbind result_bind].
    rewrite (marker_spec _ 3 (mark_latest m)) by auto 12 using writing_real. rewrite !write_real_app. do 2 f_equal.
    by rewrite <- (section_lines (mark_modified m) b), <- (section_lines (mark_original m) a),
      <- (section_lines (mark_separator m) c), <- !app_assoc.
  - by apply (write_modified _ B b B').
  - by apply (write_latest _ C c C').
Qed.

(** The parts of a conflict. *)
Lemma parts_spec fuel hunk A a A' :
  X = A ++ a ++ A' -> original_start hunk = length A -> original_length hunk = length a ->
  forall j k NB NC parts, is_diff j k NB NC parts -> forall B b B' C c C',
  length B = j -> length C = k -> nf <$> b = NB -> nf <$> c = NC -> Y = B ++ b ++ B' -> W = C ++ c ++ C' ->
  exists ps, resolves nf b c ps /\ forall btn cb, writing btn -> style = svn_diff_conflict_display_resolved_modified_latest ->
    exists cb', svn_diff_output2 (map (resolved_part hunk) parts) btn (merge_output_vtable (output_conflict cancel_func fuel))
      cancel_func cb = Ok (write_real btn (ps ≫= render_part m), cb').
Proof using Hcancel.
  intros EX Eo El. induction 1 as [j k|j k l NB NC ds Hl Hd IH|j k x y NB NC ds Hxy Hd IH]; intros B b B' C c C' HB HC Hb Hc EY EW.
  - apply fmap_nil_inv in Hb as ->. apply fmap_nil_inv in Hc as ->. exists []. split; [constructor|]. intros btn cb _ _. exists cb.
    cbn. by rewrite write_real_nil.
  - apply fmap_app_inv in Hb as (b1 & b2 & Eb1 & Eb2 & ->). apply fmap_app_inv in Hc as (c1 & c2 & Ec1 & Ec2 & ->).
    assert (length b1 = length l) as Lb by (by rewrite Eb1, length_fmap). rewrite <- !app_assoc in EY, EW.
    destruct (IH (B ++ b1) b2 B' (C ++ c1) c2 C') as (ps & Hps & Hout);
      [rewrite length_app; lia|rewrite length_app, <- (length_fmap nf c1), <- Ec1; lia|done|done|by rewrite <- app_assoc..|].
    exists (agreed b1 :: ps). split; [constructor; [congruence|done]|]. intros btn cb Hw Hstyle.
    destruct (ask_cancel cb) as [cb1 Ecb].
    destruct (Hout (write_real btn (concat b1)) cb1) as [cb' E]; [by apply writing_real|done|]. exists cb'.
    cbn [map svn_diff_output2]. rewrite Ecb. cbn [mbind result_bind].
    change (output_diff ?v ?b ?c (resolved_part hunk ?d)) with
      (output_baton ← output_merge_token_range b 1 (original_start d) (original_length d); Ok (output_baton, c)).
    cbn [original_start original_length]. rewrite <- HB, <- Lb, (write_modified btn B b1 (b2 ++ B')) by done.
    cbn [mbind result_bind]. rewrite E, write_real_app. done.
  - apply fmap_app_inv in Hb as (b1 & b2 & Eb1 & Eb2 & ->). apply fmap_app_inv in Hc as (c1 & c2 & Ec1 & Ec2 & ->).
    assert (length x = length b1) as Lb by (by rewrite Eb1, length_fmap).
    assert (length y = length c1) as Lc by (by rewrite Ec1, length_fmap). rewrite <- !app_assoc in EY, EW.
    destruct (IH (B ++ b1) b2 B' (C ++ c1) c2 C') as (ps & Hps & Hout);
      [rewrite length_app; lia|rewrite length_app; lia|done|done|by rewrite <- app_assoc..|].
    exists (disputed b1 c1 :: ps). split.
    { constructor; [|done]. intros [-> ->]%app_eq_nil. by rewrite Eb1, Ec1 in Hxy. }
    intros btn cb Hw Hstyle. destruct (ask_cancel cb) as [cb1 Ecb].
    destruct (Hout (write_real btn (render_part m (disputed b1 c1))) cb1) as [cb' E]; [by apply writing_real|done|]. exists cb'.
    cbn [map svn_diff_output2]. rewrite Ecb. cbn [mbind result_bind].
    change (output_diff ?v ?b ?c (resolved_part hunk ?d)) with
      (output_conflict cancel_func fuel b (original_start hunk) (original_length hunk) (original_start d) (original_length d)
         (modified_start d) (modified_length d) [] c).
    cbn [original_start original_length modified_start modified_length].
    assert (forall b0 s1 l1 s2 l2 s3 l3 c0, writing b0 -> output_conflict cancel_func fuel b0 s1 l1 s2 l2 s3 l3 [] c0 =
      (btn ← output_conflict_sides b0 svn_diff_conflict_display_modified_latest s1 l1 s2 l2 s3 l3; Ok (btn, c0))) as Ho.
    { intros b0 s1 l1 s2 l2 s3 l3 c0 Hb0. destruct fuel; cbn [output_conflict]; by rewrite (wr_style _ Hb0), Hstyle. }
    rewrite Ho, Eo, El, <- HB, <- HC, Lb, Lc by done.
    rewrite (sides_spec btn _ A a A' B b1 (b2 ++ B') C c1 (c2 ++ C')) by done. cbn [mbind result_bind].
    change (render m svn_diff_conflict_display_modified_latest (conflict a b1 c1 [])) with (render_part m (disputed b1 c1)).
    rewrite E, write_real_app. done.
Qed.

(** A conflict with its parts, if they can be relied on. *)
Lemma write_conflict_spec fuel A a A' B b B' C c C' rs hunk :
  X = A ++ a ++ A' -> Y = B ++ b ++ B' -> W = C ++ c ++ C' -> nf <$> b <> nf <$> c ->
  hunk = mk_diff svn_diff__type_conflict (length A) (length a) (length B) (length b) (length C) (length c) rs ->
  ((length B = 0%nat -> nf <$> b = []) -> (length C = 0%nat -> nf <$> c = []) ->
   exists parts, is_diff (length B) (length C) (nf <$> b) (nf <$> c) parts /\ rs = map (resolved_part hunk) parts) ->
  exists ps, ((length B = 0%nat -> b = []) -> (length C = 0%nat -> c = []) -> resolves nf b c ps) /\
    forall btn cb, writing btn -> style <> svn_diff_conflict_display_only_conflicts ->
    (style = svn_diff_conflict_display_resolved_modified_latest -> resolvable hunk) ->
    exists cb', output_diff (merge_output_vtable (output_conflict cancel_func (S fuel))) btn cb hunk
      = Ok (write_real btn (render m style (conflict a b c ps)), cb').
Proof using Hcancel.
  intros EX EY EW Hbc Eh Hrs.
  assert (exists ps, (length B = 0%nat -> b = []) -> (length C = 0%nat -> c = []) ->
    resolves nf b c ps /\ exists d rs', rs = d :: rs' /\ forall btn cb, writing btn -> style = svn_diff_conflict_display_resolved_modified_latest ->
    exists cb', svn_diff_output2 rs btn (merge_output_vtable (output_conflict cancel_func fuel)) cancel_func cb
      = Ok (write_real btn (ps ≫= render_part m), cb')) as [ps Hps].
  { destruct (decide ((length B <> 0%nat \/ b = []) /\ (length C <> 0%nat \/ c = []))) as [[G1 G2]|G]; [|exists []; intros; tauto].
    destruct Hrs as (parts & Hd & Er); [intros HB; destruct G1 as [|G1]; [done|by rewrite G1]|intros HC; destruct G2 as [|G2]; [done|by rewrite G2]|].
    destruct (parts_spec fuel hunk A a A' EX) with (j := length B) (k := length C) (NB := nf <$> b) (NC := nf <$> c) (parts := parts)
      (B := B) (b := b) (B' := B') (C := C) (c := c) (C' := C') as (ps & Hps & Hout); [by rewrite Eh|by rewrite Eh|done..|].
    exists ps. intros _ _. split; [done|]. rewrite Er. destruct parts as [|d parts]; [|by eexists _, _].
    inversion Hd; congruence. }
  exists ps. split; [intros H1 H2; by apply Hps|]. intros btn cb Hw Hstyle Hres.
  assert (diff_type hunk = svn_diff__type_conflict) as Et by by rewrite Eh.
  unfold output_diff. rewrite Et. cbn [DiffUnified.output_conflict merge_output_vtable output_conflict].
  rewrite (wr_style _ Hw). destruct (decide (style = svn_diff_conflict_display_resolved_modified_latest)) as [Es|Es].
  - destruct (Hres Es) as [G1 G2]; [by rewrite Eh|]. rewrite Eh in G1, G2. cbn [modified_start modified_length latest_start latest_length] in G1, G2.
    destruct Hps as (_ & d & rs' & Er & Hout); [intros HB; apply nil_length_inv; lia|intros HC; apply nil_length_inv; lia|].
    destruct (Hout btn cb Hw Es) as [cb' E]. exists cb'. rewrite Es, Eh. cbn [resolved_diff]. rewrite Er in E |- *.
    rewrite Er in *. exact E.
  - rewrite Eh. cbn [original_start original_length modified_start modified_length latest_start latest_length resolved_diff].
    pose proof (sides_spec btn style A a A' B b B' C c C' Hw EX EY EW Hstyle Es) as E. exists cb.
    destruct style; try done; by rewrite E.
Qed.

Definition keeps_all (items : list item) : Prop := exists ls, items = kept <$> ls.

Lemma clean_kept l items lines lines' : clean nf items lines -> nf <$> l = nf <$> lines' -> clean nf (kept l :: items) (lines' ++ lines).
Proof. intros (ls & -> & E) El. exists (l :: ls). split; [done|]. cbn. by rewrite !fmap_app, E, El. Qed.

Lemma keeps_kept l items : keeps_all items -> keeps_all (kept l :: items).
Proof. intros [ls ->]. by exists (l :: ls). Qed.

Definition outputs (fuel : nat) (ds : list svn_diff_t) (items : list item) : Prop :=
  forall btn cb, writing btn -> style <> svn_diff_conflict_display_only_conflicts ->
    (style = svn_diff_conflict_display_resolved_modified_latest -> Forall resolvable ds) ->
    exists cb', svn_diff_output2 ds btn (merge_output_vtable (output_conflict cancel_func (S fuel))) cancel_func cb
      = Ok (write_real btn (items ≫= render m style), cb').

Lemma outputs_cons fuel d ds it items :
  (forall btn cb, writing btn -> style <> svn_diff_conflict_display_only_conflicts ->
    (style = svn_diff_conflict_display_resolved_modified_latest -> resolvable d) ->
    exists cb', output_diff (merge_output_vtable (output_conflict cancel_func (S fuel))) btn cb d
      = Ok (write_real btn (render m style it), cb')) ->
  outputs fuel ds items -> outputs fuel (d :: ds) (it :: items).
Proof using Hcancel.
  intros Hd Hds btn cb Hw Hstyle Hres. destruct (ask_cancel cb) as [c1 Ec].
  assert (style = svn_diff_conflict_display_resolved_modified_latest -> resolvable d /\ Forall resolvable ds) as Hres'.
  { intros E. specialize (Hres E). by apply Forall_cons in Hres. }
  destruct (Hd btn c1 Hw Hstyle) as [c2 E2]; [intros; by apply Hres'|].
  destruct (Hds (write_real btn (render m style it)) c2) as [c3 E3]; [by apply writing_real|done|intros; by apply Hres'|].
  exists c3. cbn [svn_diff_output2]. rewrite Ec. cbn [mbind result_bind]. rewrite E2. cbn [mbind result_bind]. rewrite E3.
  by rewrite write_real_app.
Qed.

(** The differences of three texts are handed out as their merge. *)
Record handed_out (fuel j k : nat) (x y w : list bytes) (ds : list svn_diff_t) (items : list item) : Prop := {
  ho_merges : merges nf j k x y w items;
  ho_latest : only_latest ds -> clean nf items w;
  ho_modified : only_modified ds -> clean nf items y;
  ho_kept : svn_diff_contains_conflicts ds = false -> keeps_all items;
  ho_outputs : outputs fuel ds items
}.

(** A chunk of the modified or of the latest text. *)
Lemma hand_out_chunk fuel j k x1 x2 y1 y2 w1 w2 l d ds items :
  handed_out fuel (j + length y1) (k + length w1) x2 y2 w2 ds items ->
  diff_type d <> svn_diff__type_conflict ->
  (nf <$> x1 = nf <$> w1 \/ nf <$> y1 = nf <$> w1) /\ l = y1 \/ nf <$> x1 = nf <$> y1 /\ l = w1 ->
  (only_latest [d] -> nf <$> l = nf <$> w1) -> (only_modified [d] -> nf <$> l = nf <$> y1) ->
  (forall btn cb, writing btn -> output_diff (merge_output_vtable (output_conflict cancel_func (S fuel))) btn cb d
    = Ok (write_real btn (concat l), cb)) ->
  handed_out fuel j k (x1 ++ x2) (y1 ++ y2) (w1 ++ w2) (d :: ds) (kept l :: items).
Proof using Hcancel.
  intros [Hm Hol Hom Hc Hout] Ht Hl Hl1 Hl2 Ho. split.
  - destruct Hl as [[[E|E] ->]|[E ->]]; [by eapply merges_modified|by apply merges_same|by apply merges_latest].
  - intros [H1 H2]%Forall_cons. apply clean_kept; [by apply Hol|]. apply Hl1. by apply Forall_singleton.
  - intros [H1 H2]%Forall_cons. apply clean_kept; [by apply Hom|]. apply Hl2. by apply Forall_singleton.
  - cbn [svn_diff_contains_conflicts]. rewrite decide_False by done. intros H. by apply keeps_kept, Hc.
  - apply outputs_cons; [|done]. intros btn cb Hw _ _. exists cb. by apply Ho.
Qed.

Lemma merges_output fuel i j k NX NY NW ds : is_diff3 i j k NX NY NW ds -> forall A x B y C w,
  length A = i -> length B = j -> length C = k -> nf <$> x = NX -> nf <$> y = NY -> nf <$> w = NW ->
  X = A ++ x -> Y = B ++ y -> W = C ++ w -> exists items, handed_out fuel j k x y w ds items.
Proof using Hcancel.
  assert (forall l t, l = nf <$> t -> length t = length l) as Hlen by (intros l t ->; by rewrite length_fmap).
  induction 1 as [i j k|i j k l NX NY NW ds Hl Hd IH|i j k la lb NX NY NW ds Hab Hd IH|i j k la lc NX NY NW ds Hac Hd IH
    |i j k la lb NX NY NW ds Hd IH|i j k la lb lc NX NY NW ds rs hunk Hbc Eh Hrs Hd IH];
    intros A x B y C w HA HB HC Ex Ey Ew EX EY EW.
  { apply fmap_nil_inv in Ex as ->. apply fmap_nil_inv in Ey as ->. apply fmap_nil_inv in Ew as ->.
    exists []. split; [constructor|by exists []|by exists []|by exists []|].
    intros btn cb _ _ _. exists cb. cbn. by rewrite write_real_nil. }
  all: apply fmap_app_inv in Ex as (x1 & x2 & Ex1 & Ex2 & ->); apply fmap_app_inv in Ey as (y1 & y2 & Ey1 & Ey2 & ->);
    apply fmap_app_inv in Ew as (w1 & w2 & Ew1 & Ew2 & ->).
  all: pose proof (Hlen _ _ Ex1) as Lx; pose proof (Hlen _ _ Ey1) as Ly; pose proof (Hlen _ _ Ew1) as Lw.
  all: destruct (IH (A ++ x1) x2 (B ++ y1) y2 (C ++ w1) w2) as (items & Hm);
    [rewrite length_app; lia|rewrite length_app; lia|rewrite length_app; lia|done|done|done|by rewrite <- app_assoc..|].
  all: assert (handed_out fuel (j + length y1) (k + length w1) x2 y2 w2 ds items) as Hm' by (rewrite Ly, Lw; exact Hm); clear Hm; rename Hm' into Hm.
  - exists (kept y1 :: items). eapply (hand_out_chunk fuel j k x1 x2 y1 y2 w1 w2); [exact Hm|done|left; split; [left; congruence|done]|intros; congruence|done|].
    intros btn cb Hw. unfold output_diff. cbn [diff_type DiffUnified.output_common merge_output_vtable]. unfold output_common_modified.
    cbn [modified_start modified_length]. rewrite <- HB, <- Ly. by rewrite (write_modified btn B y1 y2) by done.
  - exists (kept y1 :: items). eapply (hand_out_chunk fuel j k x1 x2 y1 y2 w1 w2); [exact Hm|done|left; split; [left; congruence|done]| |done|].
    { intros [[E|E] _]%Forall_cons; done. }
    intros btn cb Hw. unfold output_diff. cbn [diff_type DiffUnified.output_diff_modified merge_output_vtable]. unfold output_common_modified.
    cbn [modified_start modified_length]. rewrite <- HB, <- Ly. by rewrite (write_modified btn B y1 y2) by done.
  - exists (kept w1 :: items). eapply (hand_out_chunk fuel j k x1 x2 y1 y2 w1 w2); [exact Hm|done|right; split; [congruence|done]|done| |].
    { intros [[E|E] _]%Forall_cons; done. }
    intros btn cb Hw. unfold output_diff. cbn [diff_type DiffUnified.output_diff_latest merge_output_vtable]. unfold output_latest.
    cbn [latest_start latest_length]. rewrite <- HC, <- Lw. by rewrite (write_latest btn C w1 w2) by done.
  - exists (kept y1 :: items). eapply (hand_out_chunk fuel j k x1 x2 y1 y2 w1 w2); [exact Hm|done|left; split; [right; congruence|done]| | |].
    { intros [[E|E] _]%Forall_cons; done. } { intros [[E|E] _]%Forall_cons; done. }
    intros btn cb Hw. unfold output_diff. cbn [diff_type DiffUnified.output_diff_common merge_output_vtable]. unfold output_common_modified.
    cbn [modified_start modified_length]. rewrite <- HB, <- Ly. by rewrite (write_modified btn B y1 y2) by done.
  - assert (diff_type hunk = svn_diff__type_conflict) as Et by by rewrite Eh.
    destruct (write_conflict_spec fuel A x1 x2 B y1 y2 C w1 w2 rs hunk EX EY EW) as (ps & Hps & Hout);
      [by rewrite <- Ey1, <- Ew1|by rewrite HA, HB, HC, Lx, Ly, Lw| |].
    { rewrite HB, HC, <- Ey1, <- Ew1. intros G1 G2. destruct (Hrs G1 G2) as (parts & ? & _ & ?). by exists parts. }
    exists (conflict x1 y1 w1 ps :: items). destruct Hm as [Hm Hol Hom Hc Ho]. split.
    + apply merges_conflict; [by rewrite <- Ey1, <- Ew1|by rewrite <- HB, <- HC|done].
    + intros [[E|E] _]%Forall_cons; rewrite Et in E; done.
    + intros [[E|E] _]%Forall_cons; rewrite Et in E; done.
    + cbn [svn_diff_contains_conflicts]. by rewrite decide_True by done.
    + by apply outputs_cons.
Qed.
End Output.

(** ** Only conflicts *)

(** Lines are kept for later, nothing is written. *)
Record saving (out : bytes) (btn : merge_output_baton_t) : Prop := {
  sv_stream : mo_stream btn = saver_stream;
  sv_saver : is_Some (mo_context_saver btn);
  sv_output : mo_output btn = out;
  sv_sources : exists s1 s2, mo_sources btn !! 1%nat = Some s1 /\ mo_sources btn !! 2%nat = Some s2
}.

Lemma saving_loop out tokens fuel : forall btn (first : nat) len, (length tokens <= first + fuel)%nat -> saving out btn ->
  exists btn', merge_token_loop fuel btn tokens first len = Ok btn' /\ saving out btn'.
Proof.
  induction fuel as [|f IH]; intros btn first len Hf Hs; cbn [merge_token_loop].
  all: destruct (Z.ltb_spec 0 len); cbn [andb]; [|by exists btn].
  all: destruct (Z.ltb_spec first (zlen tokens)) as [Hlt|]; [unfold zlen in Hlt|by exists btn].
  { lia. }
  rewrite (proj2 (Z.ltb_ge _ _)), Nat2Z.id by lia. destruct (lookup_lt_is_Some_2 tokens first) as [t ->]; [lia|].
  destruct Hs as [Hst [cs Hcs] Hout Hsrc]. unfold merge_write. rewrite Hst, Hcs. cbn [mbind result_bind].
  replace (first + 1) with (S first : Z) by lia. apply IH; [lia|]. split; cbn; [done|done|done|done].
Qed.

Lemma saving_output {Cancel} (cancel_func : option (Cancel -> result Cancel)) out i j k NX NY NW (ds : list svn_diff_t) :
  (forall f c, cancel_func = Some f -> exists c', f c = Ok c') ->
  @is_diff3 bytes i j k NX NY NW ds -> svn_diff_contains_conflicts ds = false -> forall btn cb, saving out btn ->
  exists btn' cb', svn_diff_output2 ds btn merge_only_conflicts_output_vtable cancel_func cb = Ok (btn', cb') /\ mo_output btn' = out.
Proof.
  intros Hcancel.
  assert (forall (d : svn_diff_t) ds, (exists (js ks : nat), modified_start d = js /\ latest_start d = ks) ->
    diff_type d <> svn_diff__type_conflict ->
    (forall btn cb, saving out btn -> exists btn' cb', svn_diff_output2 ds btn merge_only_conflicts_output_vtable cancel_func cb
       = Ok (btn', cb') /\ mo_output btn' = out) ->
    forall btn cb, saving out btn -> exists btn' cb', svn_diff_output2 (d :: ds) btn merge_only_conflicts_output_vtable cancel_func cb
       = Ok (btn', cb') /\ mo_output btn' = out) as Hstep.
  { intros d ds0 (js & ks & Hjs & Hks) Ht IH btn cb Hs. cbn [svn_diff_output2].
    destruct (ask_cancel cancel_func Hcancel cb) as [c1 ->]. cbn [mbind result_bind].
    assert (exists btn' c2, output_diff merge_only_conflicts_output_vtable btn c1 d = Ok (btn', c2) /\ saving out btn') as
      (btn' & c2 & -> & Hs'); [|cbn [mbind result_bind]; by apply IH].
    pose proof Hs as [_ _ _ (s1 & s2 & H1 & H2)].
    destruct (saving_loop out (tokens s1) (length (tokens s1)) btn js (modified_length d)) as (b1 & E1 & Hb1); [lia|done|].
    destruct (saving_loop out (tokens s2) (length (tokens s2)) btn ks (latest_length d)) as (b2 & E2 & Hb2); [lia|done|].
    unfold output_diff, merge_only_conflicts_output_vtable, output_common_modified, output_latest, output_merge_token_range.
    destruct (diff_type d) eqn:Et; cbn [output_common output_diff_modified output_diff_latest output_diff_common];
      rewrite ?H1, ?H2, ?Hjs, ?Hks, ?E1, ?E2; cbn [mbind result_bind]; eauto. done. }
  induction 1 as [i j k|i j k l NX NY NW ds Hl Hd IH|i j k la lb NX NY NW ds Hab Hd IH|i j k la lc NX NY NW ds Hac Hd IH
    |i j k la lb NX NY NW ds Hd IH|i j k la lb lc NX NY NW ds rs hunk Hbc Eh Hrs Hd IH]; intros Hc.
  { intros btn cb Hs. exists btn, cb. split; [done|apply Hs]. }
  5: { cbn [svn_diff_contains_conflicts] in Hc. rewrite Eh in Hc. done. }
  all: apply Hstep; [by eexists _, _|done|by apply IH].
Qed.

(** Changes of one version only are no conflicts. *)
Lemma one_sided_no_conflict ds : only_latest ds \/ only_modified ds ->
  svn_diff_contains_conflicts ds = false /\ Forall resolvable ds.
Proof.
  intros H. assert (Forall (fun d => diff_type d <> svn_diff__type_conflict) ds) as H'.
  { destruct H as [H|H]; eapply Forall_impl; try exact H; intros d [E|E]; by rewrite E. }
  split; [|eapply Forall_impl; [exact H'|]; intros d Hd E; done].
  clear H. induction H' as [|d ds Hd _ IH]; [done|]. cbn [svn_diff_contains_conflicts]. by rewrite decide_False.
Qed.

Lemma normal_form_ignores_nothing opts (l : list bytes) : ignore_space opts = svn_diff_file_ignore_space_none ->
  ignore_eol_style opts = false -> normal_form opts <$> l = l.
Proof.
  intros Hsp Heol. rewrite <- (list_fmap_id l) at 2. apply list_fmap_ext. intros _ x _. unfold normal_form.
  by rewrite bool_decide_true, Heol by done.
Qed.

(** ** The merged text *)

Definition marker_eol (text : bytes) : bytes :=
  match lines text with line :: _ => default [LF] (detect_eol line) | [] => [LF] end.

Definition marks_for (modified : bytes) (conflict_original conflict_modified conflict_latest conflict_separator : option bytes) : marks :=
  mk_marks (default (cstr "||||||| (original)") conflict_original) (default (cstr "<<<<<<< (modified)") conflict_modified)
    (default (cstr "=======") conflict_separator) (default (cstr ">>>>>>> (latest)") conflict_latest) (marker_eol modified).

Definition marks_ascii (m : marks) : Prop :=
  ascii (mark_original m) /\ ascii (mark_modified m) /\ ascii (mark_separator m) /\ ascii (mark_latest m).

Section Whole.
Context {Cancel : Type} (cstring_from_utf8 : bytes -> result bytes) (opts : svn_diff_file_options_t).
Context (output original modified latest : bytes) (co cm cl cs : option bytes).
Context (style : svn_diff_conflict_display_style_t) (cancel_func : option (Cancel -> result Cancel)) (cancel_baton : Cancel).
Hypothesis Hutf : forall s, ascii s -> cstring_from_utf8 s = Ok s.
Hypothesis Hmarks : marks_ascii (marks_for modified co cm cl cs).
Hypothesis Hcancel : forall f c, cancel_func = Some f -> exists c', f c = Ok c'.
Context (ds : list svn_diff_t).

Let nf := normal_form opts.
Let source text := mk_source (lines text) 0 text (ends_open (lines text)).
Let m := marks_for modified co cm cl cs.

Lemma output_merge3_eq :
  svn_diff_mem_string_output_merge3 cstring_from_utf8 output ds original modified latest co cm cl cs style cancel_func cancel_baton
  = let btn := mk_merge_baton output real_stream [source original; source modified; source latest]
                 [mark_original m; mark_modified m; mark_separator m; mark_latest m] (mark_eol m) style 3 None in
    btn ← (if bool_decide (style = svn_diff_conflict_display_only_conflicts) then make_context_saver btn else Ok btn);
    '(btn, _) ← svn_diff_output2 ds btn
       (if bool_decide (style = svn_diff_conflict_display_only_conflicts) then merge_only_conflicts_output_vtable
        else merge_output_vtable (output_conflict cancel_func (diffs_depth ds))) cancel_func cancel_baton;
    Ok (mo_output btn).
Proof using Hutf Hmarks.
  destruct Hmarks as (H0 & H1 & H2 & H3). unfold svn_diff_mem_string_output_merge3.
  rewrite !fill_source_tokens_spec. cbn [mbind result_bind].
  cbn [mark_original mark_modified mark_separator mark_latest marks_for] in *. rewrite !Hutf by done. done.
Qed.

Lemma output_merge3_spec : style <> svn_diff_conflict_display_only_conflicts ->
  (style = svn_diff_conflict_display_resolved_modified_latest -> Forall resolvable ds) ->
  is_diff3 0 0 0 (nf <$> lines original) (nf <$> lines modified) (nf <$> lines latest) ds ->
  exists items, merges nf 0 0 (lines original) (lines modified) (lines latest) items /\
    (only_latest ds -> clean nf items (lines latest)) /\ (only_modified ds -> clean nf items (lines modified)) /\
    (svn_diff_contains_conflicts ds = false -> keeps_all items) /\
    svn_diff_mem_string_output_merge3 cstring_from_utf8 output ds original modified latest co cm cl cs style cancel_func cancel_baton
    = Ok (output ++ (items ≫= render m style)).
Proof using Hutf Hmarks Hcancel.
  intros Hstyle Hres Hd. rewrite output_merge3_eq, bool_decide_false by done. cbn zeta. cbn [mbind result_bind].
  destruct (merges_output opts (lines original) (lines modified) (lines latest) m style cancel_func Hcancel
    (pred (diffs_depth ds)) 0 0 0 _ _ _ ds Hd [] (lines original) [] (lines modified) [] (lines latest)) as (items & [Hm Hol Hom Hk Hout]);
    [done..|].
  exists items. split_and!; [done..|].
  destruct (Hout (mk_merge_baton output real_stream [source original; source modified; source latest]
    [mark_original m; mark_modified m; mark_separator m; mark_latest m] (mark_eol m) style 3 None) cancel_baton) as [cb' E]; [|done..|].
  { by split; [|eexists|eexists|eexists|..]. }
  destruct ds as [|d ds0].
  - cbn in E |- *. by injection E as <- _.
  - assert (S (pred (diffs_depth (d :: ds0))) = diffs_depth (d :: ds0)) as Ed.
    { unfold diffs_depth. cbn [foldr]. destruct d. cbn [diff_depth]. lia. }
    rewrite Ed in E. rewrite E. done.
Qed.

(** Without conflicts there is nothing to display but the text. *)
Lemma output_only_conflicts : style = svn_diff_conflict_display_only_conflicts ->
  is_diff3 0 0 0 (nf <$> lines original) (nf <$> lines modified) (nf <$> lines latest) ds ->
  svn_diff_contains_conflicts ds = false ->
  svn_diff_mem_string_output_merge3 cstring_from_utf8 output ds original modified latest co cm cl cs style cancel_func cancel_baton
  = Ok output.
Proof using Hutf Hmarks Hcancel.
  intros Hstyle Hd Hc. rewrite output_merge3_eq, bool_decide_true by done. cbn zeta.
  unfold make_context_saver. cbn [mo_context_size c_assert Z.ltb Z.compare mbind result_bind].
  destruct (saving_output cancel_func output _ _ _ _ _ _ ds Hcancel Hd Hc) with (btn := set_output
    (mk_merge_baton output real_stream [source original; source modified; source latest]
    [mark_original m; mark_modified m; mark_separator m; mark_latest m] (mark_eol m) style 3 None) output saver_stream
    (Some (mk_saver (replicate (Z.to_nat 3) None) 0 0))) (cb := cancel_baton) as (btn' & cb' & E & Ho).
  { split; [done|by eexists|done|by eexists _, _]. }
  cbn [mo_output] in E |- *. rewrite E. cbn [mbind result_bind]. by rewrite Ho.
Qed.
End Whole.
