(* ===== verification/MergeTheorems.v ===== *)
(** * Properties of merges

    Three-way differences are correct for every lawful data source, merged
    text is a merge of the lines, and a version without changes of its own
    never wins. *)

From S2P Require Import Prelude Buffers CString Adler32 DiffNormalize Subsequence DiffToken DiffTokenFacts.
From S2P Require Import DiffLcs Diff DiffFacts DiffMemory DiffMemoryFacts DiffUnified DiffUnifiedFacts.
From S2P Require Import Diff3 Diff3Facts Diff3Walk Diff3Spec DiffMerge DiffMergeFacts.

#[local] Coercion Z.of_nat : nat >-> Z.

(** C14: [svn_diff_diff3_2] returns for every data source whose functions keep
    their promises, with any common start [pre] and end [suf] that opening the
    sources found, with fuel for all tokens, and whatever the tokens of its two
    uninitialised sentinels are.  The chunks it returns go through the three
    sources without a gap: common chunks are equal in all of them, where a
    chunk says that one version changed the other one is equal to the original,
    changes in common are the same in both versions, and the rest are conflicts
    between different lines; those that do not have the first line of the
    modified or of the latest version are resolved by a longest common
    subsequence ([resolved_part_misplaced] shows what happens to the others).
    If a version is equal to the original, all changes are those
    of the other one. *)
Theorem diff3_2_correct {Baton Token K : Type} (vtable : svn_diff_fns2_t Baton Token)
    (key : Token -> K) (kcmp : K -> K -> Z) (valid : Baton -> Prop) (ok : Token -> Prop)
    (opened : svn_diff_datasource_e -> Prop) (remaining : Baton -> svn_diff_datasource_e -> list (Z * Token))
    (laws : DiffFnsLaws vtable key kcmp valid ok opened remaining) (unset1 unset2 : Z) (fuel : nat) (b b' : Baton)
    (pre suf : list (Z * K)) :
  datasources_open vtable b [svn_diff_datasource_original; svn_diff_datasource_modified; svn_diff_datasource_latest]
    = Ok (b', length pre : Z, length suf : Z) ->
  opened svn_diff_datasource_original -> opened svn_diff_datasource_modified -> opened svn_diff_datasource_latest -> valid b' ->
  (forall ds, Forall (hashed ok) (remaining b' ds)) -> (forall ds, (length (remaining b' ds) < fuel)%nat) ->
  exists diff b'', svn_diff_diff3_2 vtable unset1 unset2 fuel b = Ok (diff, b'') /\
    let source ds := pre ++ (identity key <$> remaining b' ds) ++ suf in
    let X := source svn_diff_datasource_original in
    let Y := source svn_diff_datasource_modified in
    let W := source svn_diff_datasource_latest in
    is_diff3 0 0 0 X Y W diff /\ (X = Y -> only_latest diff) /\ (X = W -> only_modified diff).
Proof.
  intros Hopen Ho Hm Hl Hb Hok Hf.
  by apply (diff3_2_spec vtable key kcmp valid ok opened remaining unset1 unset2 fuel b b' pre suf).
Qed.

Definition sample_sources : diff_mem_baton_t :=
  let source text := mk_source (cstr <$> text) 0 (concat (cstr <$> text)) true in
  mk_mem_baton [source ["a"; "b"; "c"]; source ["a"; "x"; "c"]; source ["a"; "b"; "c"; "d"]] 1 sample_options.

Lemma diff3_2_correct_witness :
  exists diff b'', svn_diff_diff3_2 (svn_diff__mem_vtable rfc_adler32) 0 0 5 sample_sources = Ok (diff, b'').
Proof.
  destruct (diff3_2_correct (svn_diff__mem_vtable rfc_adler32) (normal_form sample_options) line_cmp
    (mem_valid sample_options 1 3) (line_ok 1) (mem_opened 3) (mem_remaining rfc_adler32 sample_options)
    (mem_fns_laws rfc_adler32 sample_options 1 3) 0 0 5 sample_sources sample_sources [] [])
    as (diff & b'' & E & _).
  - reflexivity.
  - unfold mem_opened. simpl. lia.
  - unfold mem_opened. simpl. lia.
  - unfold mem_opened. simpl. lia.
  - split_and!; [done..|]. by_evaluation.
  - intros []; by_evaluation.
  - intros []; vm_compute; lia.
  - exists diff, b''. exact E.
Defined.

(** C15: For all texts, options and styles of display but that of conflicts
    only, the differences of three strings are computed and written as a merge
    of their lines: where one version has the lines of the original, those of
    the other one are written, where both have the same lines, these, and where
    they differ, a conflict in the given style, between markers on lines of
    their own with the line end that the modified text starts with.  Without
    conflicts in the differences there are only lines of the versions.  The
    display of resolved conflicts is correct unless a conflict has the first
    line of one of the versions. *)
Theorem merge3_correct {Cancel : Type} adler32 unset1 unset2 cstring_from_utf8 options output original modified latest
    conflict_original conflict_modified conflict_latest conflict_separator style
    (cancel_func : option (Cancel -> result Cancel)) cancel_baton :
  Forall is_byte original -> Forall is_byte modified -> Forall is_byte latest ->
  (forall s, ascii s -> cstring_from_utf8 s = Ok s) ->
  marks_ascii (marks_for modified conflict_original conflict_modified conflict_latest conflict_separator) ->
  (forall f c, cancel_func = Some f -> exists c', f c = Ok c') ->
  style <> svn_diff_conflict_display_only_conflicts ->
  exists diff,
    svn_diff_mem_string_diff3 adler32 unset1 unset2 original modified latest options = Ok diff /\
    ((style = svn_diff_conflict_display_resolved_modified_latest -> Forall resolvable diff) ->
     exists items,
       svn_diff_mem_string_output_merge3 cstring_from_utf8 output diff original modified latest conflict_original
         conflict_modified conflict_latest conflict_separator style cancel_func cancel_baton
       = Ok (output ++ (items ≫= render
               (marks_for modified conflict_original conflict_modified conflict_latest conflict_separator) style)) /\
       merges (normal_form options) 0 0 (lines original) (lines modified) (lines latest) items /\
       (svn_diff_contains_conflicts diff = false -> keeps_all items)).
Proof.
  intros Ho Hm Hl Hutf Hmarks Hcancel Hstyle.
  destruct (mem_string_diff3_spec adler32 unset1 unset2 original modified latest options Ho Hm Hl) as (diff & E & Hd & _ & _).
  exists diff. split; [done|]. intros Hres.
  destruct (output_merge3_spec cstring_from_utf8 options output original modified latest conflict_original conflict_modified
    conflict_latest conflict_separator style cancel_func cancel_baton Hutf Hmarks Hcancel diff Hstyle Hres Hd) as
    (items & Hmerge & _ & _ & Hkept & Eo).
  by exists items.
Qed.

Definition line (s : String.string) : bytes := cstr s ++ [LF].

Lemma marks_ascii_default modified : marks_ascii (marks_for modified None None None None).
Proof. split_and!; by apply cstr_ascii. Qed.

Lemma merge3_correct_witness :
  exists diff text,
    svn_diff_mem_string_diff3 rfc_adler32 0 0 (line "a" ++ line "b") (line "a" ++ line "x") (line "a" ++ line "y")
      sample_options = Ok diff /\
    svn_diff_mem_string_output_merge3 Ok [] diff (line "a" ++ line "b") (line "a" ++ line "x") (line "a" ++ line "y")
      None None None None svn_diff_conflict_display_modified_latest (@None (unit -> result unit)) () = Ok text.
Proof.
  destruct (merge3_correct rfc_adler32 0 0 Ok sample_options [] (line "a" ++ line "b") (line "a" ++ line "x")
    (line "a" ++ line "y") None None None None svn_diff_conflict_display_modified_latest (@None (unit -> result unit)) ())
    as (diff & E & Hout).
  - by_evaluation.
  - by_evaluation.
  - by_evaluation.
  - reflexivity.
  - apply marks_ascii_default.
  - discriminate.
  - discriminate.
  - destruct (Hout ltac:(discriminate)) as (items & Eo & _). eexists _, _. split; [exact E|exact Eo].
Defined.

(** C16: Merging never loses the changes of a version when the other one has
    none, in every style of display but that of conflicts only: if the modified text has the lines of the
    original, up to what the options ignore, the merged text has those of the
    latest one, and the other way round; if nothing is ignored, it is that
    text, byte for byte.  There are no conflicts, and the display of
    conflicts only writes nothing. *)
Theorem merge3_one_sided {Cancel : Type} adler32 unset1 unset2 cstring_from_utf8 options output original modified latest
    conflict_original conflict_modified conflict_latest conflict_separator style
    (cancel_func : option (Cancel -> result Cancel)) cancel_baton changed :
  Forall is_byte original -> Forall is_byte modified -> Forall is_byte latest ->
  (forall s, ascii s -> cstring_from_utf8 s = Ok s) ->
  marks_ascii (marks_for modified conflict_original conflict_modified conflict_latest conflict_separator) ->
  (forall f c, cancel_func = Some f -> exists c', f c = Ok c') ->
  (normal_form options <$> lines original = normal_form options <$> lines modified /\ changed = latest) \/
  (normal_form options <$> lines original = normal_form options <$> lines latest /\ changed = modified) ->
  exists diff Z,
    svn_diff_mem_string_diff3 adler32 unset1 unset2 original modified latest options = Ok diff /\
    svn_diff_contains_conflicts diff = false /\
    svn_diff_mem_string_output_merge3 cstring_from_utf8 output diff original modified latest conflict_original
      conflict_modified conflict_latest conflict_separator style cancel_func cancel_baton
    = Ok (output ++ if bool_decide (style = svn_diff_conflict_display_only_conflicts) then [] else concat Z) /\
    normal_form options <$> Z = normal_form options <$> lines changed /\
    (ignore_space options = svn_diff_file_ignore_space_none -> ignore_eol_style options = false -> concat Z = changed).
Proof.
  intros Ho Hm Hl Hutf Hmarks Hcancel Hsame.
  destruct (mem_string_diff3_spec adler32 unset1 unset2 original modified latest options Ho Hm Hl) as (diff & E & Hd & Hq1 & Hq2).
  assert (svn_diff_contains_conflicts diff = false /\ Forall resolvable diff) as [Hc Hres].
  { destruct Hsame as [[H _]|[H _]]; apply one_sided_no_conflict; [left; by apply Hq1|right; by apply Hq2]. }
  assert (exists Z, svn_diff_mem_string_output_merge3 cstring_from_utf8 output diff original modified latest conflict_original
      conflict_modified conflict_latest conflict_separator style cancel_func cancel_baton
    = Ok (output ++ if bool_decide (style = svn_diff_conflict_display_only_conflicts) then [] else concat Z) /\
    normal_form options <$> Z = normal_form options <$> lines changed) as (Z & Eo & EZ).
  { destruct (decide (style = svn_diff_conflict_display_only_conflicts)) as [Es|Es].
    - exists (lines changed). split; [|done]. rewrite bool_decide_true, app_nil_r by done. by eapply output_only_conflicts.
    - rewrite bool_decide_false by done.
      destruct (output_merge3_spec cstring_from_utf8 options output original modified latest conflict_original conflict_modified
        conflict_latest conflict_separator style cancel_func cancel_baton Hutf Hmarks Hcancel diff Es (fun _ => Hres) Hd) as
        (items & _ & Hol & Hom & _ & Eo).
      assert (clean (normal_form options) items (lines changed)) as Hclean.
      { destruct Hsame as [[H ->]|[H ->]]; [by apply Hol, Hq1|by apply Hom, Hq2]. }
      destruct (render_clean (marks_for modified conflict_original conflict_modified conflict_latest conflict_separator)
        _ style _ _ Hclean) as (Z & EZ & HZ). exists Z. by rewrite Eo, EZ. }
  exists diff, Z. split_and!; [done..|]. intros Hsp Heol. rewrite !normal_form_ignores_nothing in EZ by done.
  by rewrite EZ, lines_concat.
Qed.

Lemma merge3_one_sided_witness :
  exists diff,
    svn_diff_mem_string_diff3 rfc_adler32 0 0 (line "a" ++ line "b") (line "a" ++ line "b") (line "x" ++ line "b")
      sample_options = Ok diff /\
    svn_diff_mem_string_output_merge3 Ok [] diff (line "a" ++ line "b") (line "a" ++ line "b") (line "x" ++ line "b")
      None None None None svn_diff_conflict_display_modified_latest (@None (unit -> result unit)) ()
    = Ok (line "x" ++ line "b").
Proof.
  destruct (merge3_one_sided rfc_adler32 0 0 Ok sample_options [] (line "a" ++ line "b") (line "a" ++ line "b")
    (line "x" ++ line "b") None None None None svn_diff_conflict_display_modified_latest (@None (unit -> result unit)) ()
    (line "x" ++ line "b")) as (diff & Z & E & _ & Eo & _ & HZ).
  - by_evaluation.
  - by_evaluation.
  - by_evaluation.
  - reflexivity.
  - apply marks_ascii_default.
  - discriminate.
  - left. split; reflexivity.
  - exists diff. split; [exact E|]. rewrite (HZ eq_refl eq_refl) in Eo. exact Eo.
Defined.

(** [svn_diff__resolve_conflict] misplaces common lines in conflicts that
    have the first line of a version.  The latest text has the lines a and b,
    the modified one only b: the part of the conflict for the line in common
    is said to start behind the one line of the modified text, so that the
    display of resolved conflicts shows a choice between b and a, and no b
    behind it; whoever chooses the latest version loses its line b. *)
Theorem resolved_part_misplaced :
  let original := line "x" in
  let modified := line "b" in
  let latest := line "a" ++ line "b" in
  exists hunk d1 d2,
    svn_diff_mem_string_diff3 rfc_adler32 0 0 original modified latest sample_options = Ok [hunk] /\
    resolved_diff hunk = [d1; d2] /\ diff_type d2 = svn_diff__type_diff_common /\
    modified_start d2 = zlen (lines modified) /\
    svn_diff_mem_string_output_merge3 Ok [] [hunk] original modified latest None None None None
      svn_diff_conflict_display_resolved_modified_latest (@None (unit -> result unit)) ()
    = Ok (line "<<<<<<< (modified)" ++ line "b" ++ line "=======" ++ line "a" ++ line ">>>>>>> (latest)").
Proof. eexists _, _, _. split_and!; vm_compute; reflexivity. Qed.

(** ** What the code does not do *)

Definition text (l : list String.string) : bytes := concat (line <$> l).

Definition merged4 (original modified latest ancestor : bytes) : result bytes :=
  diff ← svn_diff_mem_string_diff4 rfc_adler32 original modified latest ancestor sample_options;
  svn_diff_mem_string_output_merge3 Ok [] diff original modified latest None None None None
    svn_diff_conflict_display_modified_latest (@None (unit -> result unit)) ().

(** [svn_diff_diff4_2] adjusts by the differences from the ancestor to the
    latest version where those to the original are meant: when ancestor,
    original and modified version are the same, so that there is nothing to
    adjust, a line is lost. *)
Lemma diff4_adjusts_by_latest :
  let ancestor := text ["1"; "2"; "3"]%string in
  merged4 ancestor ancestor (text ["0"; "1"; "2"; "3"]%string) ancestor = Ok (text ["0"; "1"; "2"]%string).
Proof. vm_compute. reflexivity. Qed.

(** It resolves conflicts from the end of the position lists: the conflict has
    the second and third line of the modified and the second one of the latest
    version, and what is said to be in common is the third one of the latest. *)
Lemma diff4_resolves_from_end :
  exists before hunk behind part,
    svn_diff_mem_string_diff4 rfc_adler32 (text ["1"; "2"; "3"]%string) (text ["1"; "3"]%string)
      (text ["1"; "X"; "3"]%string) (text ["1"; "2"; "3"]%string) sample_options = Ok [before; hunk; behind] /\
    resolved_diff hunk = [part] /\ diff_type part = svn_diff__type_diff_common /\
    latest_start hunk + latest_length hunk <= latest_start part.
Proof. eexists _, _, _, _. split_and!; [vm_compute; reflexivity..|vm_compute; discriminate]. Qed.

(** Two conflicts with less than three lines between them, displayed alone:
    the saver of context is read after its pool has been cleared. *)
Lemma near_conflicts_read_cleared_pool :
  let original := text ["x"; "1"; "4"]%string in
  let modified := text ["b"; "1"; "c"]%string in
  let latest := text ["a"; "1"; "d"]%string in
  exists diff, svn_diff_mem_string_diff3 rfc_adler32 0 0 original modified latest sample_options = Ok diff /\
    svn_diff_mem_string_output_merge3 Ok [] diff original modified latest None None None None
      svn_diff_conflict_display_only_conflicts (@None (unit -> result unit)) () = Err C_UNDEFINED.
Proof. eexists. split; vm_compute; reflexivity. Qed.
