(* ===== verification/Curses.v ===== *)
(** * The terminal front end (src/src/svn_curses.cpp and state.cpp)

    The static members of [State] are a record that the handlers pass on.  What
    the program exchanges with its surroundings is in [world]: the keys that
    [getch] returns and the outputs of the commands it runs come from there,
    and the commands and what is drawn on the pad are recorded there.  An
    exception that is thrown, and undefined behaviour, end a run. *)

From S2P Require Import Prelude.

(** ** State *)

Inductive mode := ADD | HIDDEN | RM.

Record State := mkState {
  isRunning : bool;
  statusItems : list bytes;
  allStatusItems : list bytes;
  selectedItems : list bytes;
  cursorPosition : Z;
  maxX : Z;
  maxY : Z;
  padPos : Z;
  add : mode * bool;
  hidden : mode * bool;
  rm : mode * bool
}.

Definition getMode (m : mode) (st : State) : bool :=
  match m with ADD => (add st).2 | HIDDEN => (hidden st).2 | RM => (rm st).2 end.

Definition set_running (b : bool) (st : State) : State :=
  mkState b (statusItems st) (allStatusItems st) (selectedItems st) (cursorPosition st)
    (maxX st) (maxY st) (padPos st) (add st) (hidden st) (rm st).
Definition set_items (items : list bytes) (st : State) : State :=
  mkState (isRunning st) items (allStatusItems st) (selectedItems st) (cursorPosition st)
    (maxX st) (maxY st) (padPos st) (add st) (hidden st) (rm st).
Definition set_all (items : list bytes) (st : State) : State :=
  mkState (isRunning st) (statusItems st) items (selectedItems st) (cursorPosition st)
    (maxX st) (maxY st) (padPos st) (add st) (hidden st) (rm st).
Definition set_selected (items : list bytes) (st : State) : State :=
  mkState (isRunning st) (statusItems st) (allStatusItems st) items (cursorPosition st)
    (maxX st) (maxY st) (padPos st) (add st) (hidden st) (rm st).
Definition set_cursor (cursor pad : Z) (st : State) : State :=
  mkState (isRunning st) (statusItems st) (allStatusItems st) (selectedItems st) cursor
    (maxX st) (maxY st) pad (add st) (hidden st) (rm st).

Definition toggleMode (m : mode) (st : State) : State :=
  mkState (isRunning st) (statusItems st) (allStatusItems st) (selectedItems st)
    (cursorPosition st) (maxX st) (maxY st) (padPos st)
    (match m with ADD => (m, negb (add st).2) | _ => add st end)
    (match m with HIDDEN => (m, negb (hidden st).2) | _ => hidden st end)
    (match m with RM => (m, negb (rm st).2) | _ => rm st end).

(** ** Effects *)

(** Something drawn on the pad: a color pair and a text. *)
Record drawn := mk_drawn { color_pair : Z; text : bytes }.

Record world := mk_world {
  keys : list Z;
  outputs : list (option bytes);   (** [None]: [popen] failed *)
  commands : list bytes;           (** in the order they were run *)
  pad : list drawn
}.

Inductive failure :=
  | LENGTH_ERROR      (** [std::length_error] *)
  | OUT_OF_RANGE      (** [std::out_of_range] *)
  | RUNTIME_ERROR     (** [std::runtime_error] *)
  | UNDEFINED.

Inductive outcome (A : Type) :=
  | Done (a : A) (st : State) (w : world)
  | Failed (f : failure) (w : world)
  | Waiting (w : world)            (** the world has no more to offer *)
  | OutOfFuel.                     (** of a loop of the model *)
Arguments Done {A} a st w.
Arguments Failed {A} f w.
Arguments Waiting {A} w.
Arguments OutOfFuel {A}.

Definition M (A : Type) : Type := State -> world -> outcome A.

#[export] Instance M_ret : MRet M := fun A a st w => Done a st w.
#[export] Instance M_bind : MBind M := fun A B f x st w =>
  match x st w with
  | Done a st w => f a st w
  | Failed e w => Failed e w
  | Waiting w => Waiting w
  | OutOfFuel => OutOfFuel
  end.

Definition get_state : M State := fun st w => Done st st w.
Definition modify (f : State -> State) : M unit := fun st w => Done () (f st) w.
Definition fail {A} (f : failure) : M A := fun _ w => Failed f w.

Definition out_of_fuel {A} : M A := fun _ _ => OutOfFuel.

Definition getch : M Z := fun st w =>
  match keys w with
  | [] => Waiting w
  | c :: cs => Done c st (mk_world cs (outputs w) (commands w) (pad w))
  end.

Definition exec (cmd : bytes) : M bytes := fun st w =>
  match outputs w with
  | [] => Waiting w
  | out :: outs =>
      let w := mk_world (keys w) outs (commands w ++ [cmd]) (pad w) in
      match out with Some result => Done result st w | None => Failed RUNTIME_ERROR w end
  end.

Definition wclear_pad : M unit := fun st w =>
  Done () st (mk_world (keys w) (outputs w) (commands w) []).

(** [wprintw (win, text.c_str ())]: the text is the format; a conversion
    without an argument is undefined behaviour. *)
Fixpoint format (s : bytes) : option bytes :=
  match s with
  | [] => Some []
  | c :: s' =>
      if c =? "%"%cc then
        match s' with
        | d :: s'' => if d =? "%"%cc then r ← format s''; Some (d :: r) else None
        | [] => None
        end
      else r ← format s'; Some (c :: r)
  end.

Definition wprintw_pad (pair : Z) (fmt : bytes) : M unit := fun st w =>
  match format fmt with
  | Some s => Done () st (mk_world (keys w) (outputs w) (commands w) (pad w ++ [mk_drawn pair s]))
  | None => Failed UNDEFINED w
  end.

(** The other window is not recorded. *)
Definition wprintw_win (fmt : bytes) : M unit :=
  match format fmt with Some _ => mret () | None => fail UNDEFINED end.

(** ** Drawing *)

Definition bottomWindowSize : Z := 8.

Definition status_item (i : Z) : M bytes :=
  st ← get_state;
  match statusItems st !! Z.to_nat i with
  | Some item => if i <? 0 then fail UNDEFINED else mret item
  | None => fail UNDEFINED
  end.

(** [item.append (padSize, ' ')]: a negative number is converted to a size no
    string can have. *)
Definition append_spaces (item : bytes) (padSize : Z) : M bytes :=
  if padSize <? 0 then fail LENGTH_ERROR
  else mret (item ++ replicate (Z.to_nat padSize) " "%cc).

(** [item.insert (8, " "); item.erase (item.end () - 1)] *)
Definition indent_item (item : bytes) : M bytes :=
  if (length item <? 8)%nat then fail OUT_OF_RANGE
  else mret (take (length item) (take 8 item ++ " "%cc :: drop 8 item)).

Definition colorPair (front : Z) : Z :=
  if front =? "M"%cc then 1 else if front =? "?"%cc then 3 else if front =? "!"%cc then 2
  else if front =? "A"%cc then 4 else if front =? "D"%cc then 5 else 8.

Definition printStatusWithColor (i : Z) : M unit :=
  item ← status_item i;
  st ← get_state;
  let padSize := maxX st - Z.of_nat (length item) in
  let isItemSelected := bool_decide (item ∈ selectedItems st) in
  item ← append_spaces item padSize;
  modify (fun st => set_items (<[Z.to_nat i := item]> (statusItems st)) st);;
  if isItemSelected && negb (i =? cursorPosition st) then
    item ← indent_item item; wprintw_pad 8 item
  else if isItemSelected && (i =? cursorPosition st) then
    item ← indent_item item; wprintw_pad 6 item
  else if i =? cursorPosition st then wprintw_pad 6 item
  else
    match item with
    | [] => fail UNDEFINED
    | front :: _ => wprintw_pad (colorPair front) item
    end.

(** The loop variable is compared as a [size_t]. *)
Fixpoint printAll_loop (fuel : nat) (i : Z) : M unit :=
  (st ← get_state;
   if u64 i <? Z.of_nat (length (statusItems st)) then
     match fuel with
     | O => out_of_fuel
     | S f => printStatusWithColor i;; printAll_loop f (i + 1)
     end
   else mret ()) : M unit.

Definition printAllStatus : M unit :=
  wclear_pad;;
  st ← get_state;
  printAll_loop (length (statusItems st)) (padPos st).

(** ** Boost

    What the program relies on of Boost's string algorithms.  [split] with
    [is_any_of ("\n")] cuts a string at every newline; [join] puts a separator
    between strings. *)

Fixpoint intersperse (separator : bytes) (items : list bytes) : bytes :=
  match items with
  | [] => []
  | [item] => item
  | item :: items => item ++ separator ++ intersperse separator items
  end.

Class BoostStrings := {
  boost_split_lines : bytes -> list bytes;
  boost_join : list bytes -> bytes -> bytes;
  boost_split_lines_ne s : boost_split_lines s <> [];
  boost_split_lines_cut s : Forall (fun line => 10 ∉ line) (boost_split_lines s);
  boost_split_lines_all s : intersperse [10] (boost_split_lines s) = s;
  boost_join_eq items separator : boost_join items separator = intersperse separator items
}.

Section Handlers.
Context `{BS : BoostStrings}.

Definition refreshStatusItems : M unit :=
  modify (set_selected []);;
  execResult ← exec (cstr "svn st");
  match execResult with
  | [] => fail UNDEFINED                      (** [pop_back] of an empty string *)
  | _ =>
      let items := boost_split_lines (take (length execResult - 1) execResult) in
      modify (fun st => set_all items (set_items items st));;
      printAllStatus
  end.

(** ** Keys *)

Definition moveOneRowUp : M unit :=
  modify (fun st =>
    if 0 <? cursorPosition st then
      let cursor := cursorPosition st - 1 in
      set_cursor cursor (if cursor <=? padPos st then Z.max 0 (padPos st - 1) else padPos st) st
    else st);;
  printAllStatus.

(** [State::statusItems.size () - 1] *)
Definition last_index (st : State) : Z := u64 (Z.of_nat (length (statusItems st)) - 1).

Definition moveOneRowDown : M unit :=
  modify (fun st =>
    if u64 (cursorPosition st) <? last_index st then
      let cursor := cursorPosition st + 1 in
      set_cursor cursor
        (if maxY st - bottomWindowSize + padPos st <=? cursor then padPos st + 1 else padPos st) st
    else st);;
  printAllStatus.

Definition moveToEnd : M unit :=
  modify (fun st =>
    if u64 (cursorPosition st) <? last_index st then
      let pad :=
        if u64 (maxY st) <? last_index st
        then s32 (u64 (Z.of_nat (length (statusItems st)) - maxY st + bottomWindowSize))
        else padPos st in
      set_cursor (s32 (last_index st)) pad st
    else st);;
  printAllStatus.

(** The selected items without the columns of [svn st]. *)
Definition selected_names (st : State) : list bytes := map (drop 7) (selectedItems st).

Definition addSelected : M unit :=
  st ← get_state;
  let items := selected_names st in
  c ← getch;
  (if c =? "y"%cc then
     exec (cstr "svn add " ++ boost_join items [" "%cc]);; mret ()
   else mret ());;
  refreshStatusItems.

Definition removeSelected : M unit :=
  st ← get_state;
  let items := selected_names st in
  c ← getch;
  (if c =? "y"%cc then
     c ← getch;
     let keepLocal := if c =? "y"%cc then cstr "--keep-local " else [] in
     exec (cstr "svn rm " ++ keepLocal ++ boost_join items [" "%cc]);; mret ()
   else mret ());;
  modify (set_cursor 0 0);;
  refreshStatusItems.

Definition update : M unit :=
  c ← getch;
  if c =? "y"%cc then
    result ← exec (cstr "svn up");
    wprintw_win result;;
    getch;;
    refreshStatusItems
  else mret ().

Definition toggleSelection : M unit :=
  st ← get_state;
  item ← status_item (cursorPosition st);
  modify (fun st =>
    if bool_decide (item ∈ selectedItems st)
    then set_selected (filter (fun x => x <> item) (selectedItems st)) st
    else set_selected (selectedItems st ++ [item]) st);;
  moveOneRowDown.

Definition keyEvent : M unit :=
  c ← getch;
  if (c =? "q"%cc) || (c =? "Q"%cc) then modify (set_running false)
  else if c =? "j"%cc then moveOneRowDown
  else if c =? "k"%cc then moveOneRowUp
  else if c =? "G"%cc then moveToEnd
  else if c =? "g"%cc then
    c ← getch;
    if c =? "g"%cc then modify (set_cursor 0 0);; printAllStatus else mret ()
  else if c =? "s"%cc then modify (set_cursor 0 0);; refreshStatusItems
  else if c =? "a"%cc then addSelected
  else if c =? "r"%cc then removeSelected
  else if c =? "u"%cc then update
  else if c =? " "%cc then toggleSelection
  else if c =? "."%cc then modify (toggleMode HIDDEN)
  else mret ().

(** [while (State::isRunning == true)] *)
Fixpoint event_loop (fuel : nat) : M unit :=
  (st ← get_state;
   if isRunning st then
     match fuel with
     | O => out_of_fuel
     | S f => keyEvent;; event_loop f
     end
   else mret ()) : M unit.

Definition initial_state (x y : Z) : State :=
  mkState true [] [] [] 0 x y 0 (ADD, false) (HIDDEN, false) (RM, false).

Definition main (fuel : nat) : M unit := refreshStatusItems;; event_loop fuel.

End Handlers.
