(* ===== verification/CursesTheorems.v ===== *)
(** * Facts about the terminal front end

    A small program logic for the handlers of [Curses], and the invariant they
    preserve. *)

From S2P Require Import Prelude Curses.

(** ** A program logic *)

(** [m] runs without an exception, without undefined behaviour and within its
    fuel; it returns in a state with [Q], or waits for the world. *)
Definition wp {A} (m : M A) (Q : A -> State -> world -> Prop) (st : State) (w : world) : Prop :=
  match m st w with
  | Done a st w => Q a st w
  | Waiting w => keys w = [] \/ outputs w = []
  | Failed _ _ | OutOfFuel => False
  end.

Lemma wp_bind {A B} (m : M A) (f : A -> M B) Q st w :
  wp m (fun a => wp (f a) Q) st w -> wp (m ≫= f) Q st w.
Proof. unfold wp, mbind, M_bind. by destruct (m st w). Qed.

Lemma wp_ret {A} (a : A) Q st w : Q a st w -> wp (mret a) Q st w.
Proof. done. Qed.

Lemma wp_get Q st w : Q st st w -> wp get_state Q st w.
Proof. done. Qed.

Lemma wp_modify f (Q : unit -> State -> world -> Prop) st w : Q () (f st) w -> wp (modify f) Q st w.
Proof. done. Qed.

Lemma wp_mono {A} (m : M A) (Q R : A -> State -> world -> Prop) st w :
  wp m Q st w -> (forall a st w, Q a st w -> R a st w) -> wp m R st w.
Proof. unfold wp. destruct (m st w); auto. Qed.

Lemma wp_getch (Q : Z -> State -> world -> Prop) st w :
  (forall c cs, keys w = c :: cs -> Q c st (mk_world cs (outputs w) (commands w) (pad w))) ->
  wp getch Q st w.
Proof. intros H. unfold wp, getch. destruct (keys w) as [|c cs] eqn:E; [by left|]. by apply H. Qed.

(** ** What the program expects *)

Section Facts.
Context `{BS : BoostStrings}.

(** A line of [svn st] that fits the screen and does not contain a percent
    sign. *)
Definition line_ok (x : Z) (s : bytes) : Prop := Z.of_nat (length s) <= x /\ "%"%cc ∉ s.

Definition output_ok (x : Z) (out : option bytes) : Prop :=
  match out with
  | Some (c :: out) =>
      Forall (line_ok x) (boost_split_lines (take (length out) (c :: out))) /\
      Z.of_nat (length out) < 2 ^ 30 /\ "%"%cc ∉ c :: out
  | _ => False
  end.

(** The world: no key is [a] or [u]; what is drawn fills a row. *)
Record world_ok (x : Z) (w : world) : Prop := {
  world_keys : Forall (fun c => c <> "a"%cc /\ c <> "u"%cc) (keys w);
  world_outputs : Forall (output_ok x) (outputs w);
  world_pad : Forall (fun d => Z.of_nat (length (text d)) = x) (pad w)
}.

Record screen_ok (st : State) : Prop := {
  screen_width : 8 <= maxX st;
  screen_height : 10 <= maxY st < 2 ^ 30
}.

Record items_ok (st : State) : Prop := {
  items_screen : screen_ok st;
  items_ne : statusItems st <> [];
  items_lines : Forall (line_ok (maxX st)) (statusItems st);
  items_count : Z.of_nat (length (statusItems st)) < 2 ^ 31
}.

(** The cursor is on an item, and not above the first item that is drawn. *)
Record inv (st : State) : Prop := {
  inv_items : items_ok st;
  inv_cursor : 0 <= cursorPosition st < Z.of_nat (length (statusItems st));
  inv_pad : 0 <= padPos st <= cursorPosition st
}.

(** ** Drawing *)

Lemma format_ok s : "%"%cc ∉ s -> format s = Some s.
Proof.
  induction s as [|c s IH]; intros H; [done|]. apply not_elem_of_cons in H as [Hc H].
  cbn [format]. destruct (Z.eqb_spec c "%"%cc); [congruence|]. by rewrite IH.
Qed.

Lemma wp_draw x pair s (Q : unit -> State -> world -> Prop) st w :
  "%"%cc ∉ s -> Z.of_nat (length s) = x -> world_ok x w ->
  (forall w', world_ok x w' -> keys w' = keys w -> Q () st w') -> wp (wprintw_pad pair s) Q st w.
Proof.
  intros Hs Hx [Hk Ho Hp] HQ. unfold wp, wprintw_pad. rewrite format_ok by done. apply HQ; [|done].
  split; [done|done|]. apply Forall_app. split; [done|]. by apply Forall_singleton.
Qed.

(** The state differs only in the spaces at the end of items. *)
Record redrawn (st st' : State) : Prop := {
  redrawn_items : items_ok st';
  redrawn_length : length (statusItems st') = length (statusItems st);
  redrawn_cursor : cursorPosition st' = cursorPosition st;
  redrawn_pad : padPos st' = padPos st;
  redrawn_x : maxX st' = maxX st;
  redrawn_y : maxY st' = maxY st
}.

Lemma redrawn_refl st : items_ok st -> redrawn st st.
Proof. by split. Qed.

Lemma redrawn_trans st1 st2 st3 : redrawn st1 st2 -> redrawn st2 st3 -> redrawn st1 st3.
Proof. intros [] []. split; [done|congruence..]. Qed.

Lemma redrawn_inv st st' : inv st -> redrawn st st' -> inv st'.
Proof. intros [Hi Hc Hp] [H1 H2 H3 H4 H5 H6]. split; rewrite ?H3, ?H4, ?H2; done. Qed.

Lemma wp_indent x pair s (Q : unit -> State -> world -> Prop) st w :
  "%"%cc ∉ s -> Z.of_nat (length s) = x -> 8 <= x -> world_ok x w ->
  (forall w', world_ok x w' -> keys w' = keys w -> Q () st w') ->
  wp (item ← indent_item s; wprintw_pad pair item) Q st w.
Proof.
  intros Hs Hx H8 Hw HQ. apply wp_bind. unfold indent_item.
  destruct (Nat.ltb_spec (length s) 8); [lia|]. apply wp_ret.
  apply (wp_draw x); [| |done|done].
  - intros Hin. apply elem_of_take in Hin as (i & Hi & _). apply list_elem_of_lookup_2 in Hi.
    apply elem_of_app in Hi as [Hi|Hi].
    + apply elem_of_take in Hi as (j & Hj & _). by apply list_elem_of_lookup_2 in Hj.
    + apply elem_of_cons in Hi as [Hi|Hi]; [done|]. apply Hs.
      rewrite <- (take_drop 8 s). apply elem_of_app. by right.
  - rewrite length_take, length_app, length_take. cbn [length]. rewrite length_drop. lia.
Qed.

Lemma printStatusWithColor_spec i st w :
  items_ok st -> 0 <= i < Z.of_nat (length (statusItems st)) -> world_ok (maxX st) w ->
  wp (printStatusWithColor i)
    (fun _ st' w' => redrawn st st' /\ world_ok (maxX st') w' /\ keys w' = keys w) st w.
Proof.
  intros [Hscr Hne Hl Hn] Hi Hw. assert (Hscr' := Hscr). destruct Hscr as [H8 Hy].
  unfold printStatusWithColor, status_item.
  destruct (lookup_lt_is_Some_2 (statusItems st) (Z.to_nat i)) as [item Hitem]; [lia|].
  apply wp_bind, wp_bind, wp_get. rewrite Hitem. destruct (Z.ltb_spec i 0); [lia|].
  apply wp_ret, wp_bind, wp_get.
  destruct (proj1 (Forall_lookup _ _) Hl _ _ Hitem) as [Hlen Hpct].
  apply wp_bind. unfold append_spaces.
  destruct (Z.ltb_spec (maxX st - Z.of_nat (length item)) 0); [lia|]. apply wp_ret.
  set (item' := item ++ _).
  assert (Hlen' : Z.of_nat (length item') = maxX st).
  { unfold item'. rewrite length_app, length_replicate. lia. }
  assert (Hpct' : "%"%cc ∉ item').
  { unfold item'. intros [?|Hin]%elem_of_app; [done|]. by apply elem_of_replicate in Hin as [? _]. }
  apply wp_bind, wp_modify. set (st' := set_items _ st).
  assert (Hst' : redrawn st st').
  { split; try done; [split; try done|]; cbn.
    - intros Hnil. apply (f_equal length) in Hnil. rewrite length_insert in Hnil.
      destruct (statusItems st); [done|]. done.
    - apply Forall_insert; [done|]. split; [lia|done].
    - by rewrite length_insert.
    - apply length_insert. }
  assert (Hpost : forall w', world_ok (maxX st) w' -> keys w' = keys w ->
    redrawn st st' /\ world_ok (maxX st') w' /\ keys w' = keys w) by done.
  destruct (bool_decide _ && negb _); [by apply (wp_indent (maxX st))|].
  destruct (bool_decide _ && _); [by apply (wp_indent (maxX st))|].
  destruct (i =? cursorPosition st); [by apply (wp_draw (maxX st))|].
  destruct item' as [|c rest]; [simpl in Hlen'; lia|]. by apply (wp_draw (maxX st)).
Qed.

Lemma u64_nonneg z : 0 <= z < 2 ^ 63 -> u64 z = z.
Proof. intros. apply u64_small. lia. Qed.

Lemma printAll_loop_spec fuel i st w :
  items_ok st -> 0 <= i < 2 ^ 32 -> Z.of_nat (length (statusItems st)) <= i + Z.of_nat fuel ->
  world_ok (maxX st) w ->
  wp (printAll_loop fuel i)
    (fun _ st' w' => redrawn st st' /\ world_ok (maxX st') w' /\ keys w' = keys w) st w.
Proof.
  revert i st w. induction fuel as [|fuel IH]; intros i st w Hi H0 Hf Hw; cbn [printAll_loop];
    apply wp_bind, wp_get; rewrite u64_nonneg by lia;
    (destruct (Z.ltb_spec i (Z.of_nat (length (statusItems st)))); [|apply wp_ret; split; [by apply redrawn_refl|done]]).
  { lia. }
  apply wp_bind. eapply wp_mono; [apply printStatusWithColor_spec; [done|lia|done]|].
  intros _ st1 w1 (Hr & Hw1 & Hk1). eapply wp_mono.
  - apply IH; [by apply Hr| | |done].
    + destruct Hi as [_ _ _ Hc]. lia.
    + destruct Hr as [_ -> _ _ _ _]. lia.
  - intros _ st2 w2 (Hr2 & Hw2 & Hk2). split; [by eapply redrawn_trans|]. split; [done|congruence].
Qed.

Lemma printAllStatus_spec st w :
  items_ok st -> 0 <= padPos st < 2 ^ 32 -> world_ok (maxX st) w ->
  wp printAllStatus
    (fun _ st' w' => redrawn st st' /\ world_ok (maxX st') w' /\ keys w' = keys w) st w.
Proof.
  intros Hi Hp [Hk Ho Hpad]. unfold printAllStatus. apply wp_bind.
  unfold wp at 1, wclear_pad. apply wp_bind, wp_get.
  eapply wp_mono; [apply printAll_loop_spec; [done|done|lia|]|].
  - by split.
  - done.
Qed.

(** ** Refreshing *)

Lemma intersperse_length (items : list bytes) :
  (length items <= S (length (intersperse [10%Z] items)))%nat.
Proof.
  induction items as [|item items IH]; [simpl; lia|].
  destruct items as [|item' items]; [simpl; lia|].
  change (intersperse [10] (item :: item' :: items))
    with (item ++ [10] ++ intersperse [10] (item' :: items)).
  rewrite !length_app. cbn [length] in *. lia.
Qed.

Lemma split_lines_length s : (1 <= length (boost_split_lines s) <= S (length s))%nat.
Proof.
  pose proof (boost_split_lines_ne s). pose proof (intersperse_length (boost_split_lines s)) as Hl.
  rewrite boost_split_lines_all in Hl. destruct (boost_split_lines s); [done|]. simpl in *. lia.
Qed.

Lemma wp_exec x cmd (Q : bytes -> State -> world -> Prop) st w :
  world_ok x w ->
  (forall c out w', output_ok x (Some (c :: out)) -> world_ok x w' -> keys w' = keys w ->
     Q (c :: out) st w') ->
  wp (exec cmd) Q st w.
Proof.
  intros [Hk Ho Hp] HQ. unfold wp, exec. destruct (outputs w) as [|o outs] eqn:E; [by right|].
  apply Forall_cons in Ho as [Ho Hos]. destruct o as [[|c out]|]; [done| |done].
  by apply HQ.
Qed.

(** The state after the items have been read again. *)
Record refreshed (st st' : State) : Prop := {
  refreshed_items : items_ok st';
  refreshed_cursor : cursorPosition st' = cursorPosition st;
  refreshed_pad : padPos st' = padPos st
}.

Lemma refresh_spec st w :
  screen_ok st -> 0 <= padPos st < 2 ^ 32 -> world_ok (maxX st) w ->
  wp refreshStatusItems
    (fun _ st' w' => refreshed st st' /\ world_ok (maxX st') w' /\ keys w' = keys w) st w.
Proof.
  intros Hs Hp Hw. unfold refreshStatusItems. apply wp_bind, wp_modify.
  apply wp_bind. apply (wp_exec (maxX st)); [done|]. intros c out w1 (Hlines & Hlen & _) Hw1 Hk1.
  apply wp_bind, wp_modify. cbn [length Nat.sub]. rewrite Nat.sub_0_r.
  pose proof (split_lines_length (take (length out) (c :: out))) as Hcount.
  set (items := boost_split_lines _) in *.
  eapply wp_mono; [apply printAllStatus_spec|].
  - split; cbn.
    + by destruct Hs.
    + destruct items; [simpl in Hcount; lia|done].
    + done.
    + rewrite length_take in Hcount. simpl in Hcount. lia.
  - done.
  - done.
  - intros _ st' w' ([H1 H2 H3 H4 H5 H6] & Hw' & Hk'). split; [by split|]. split; [done|congruence].
Qed.

(** From the top of the list. *)
Lemma refresh_top st w :
  screen_ok st -> cursorPosition st = 0 -> padPos st = 0 -> world_ok (maxX st) w ->
  wp refreshStatusItems
    (fun _ st' w' => inv st' /\ world_ok (maxX st') w' /\ keys w' = keys w) st w.
Proof.
  intros Hs Hc Hp Hw. eapply wp_mono; [apply refresh_spec; [done|lia|done]|].
  intros _ st' w' ([Hi Hc' Hp'] & Hw' & Hk'). split; [|done].
  split; [done| |lia]. assert (Hne := items_ne _ Hi). destruct (statusItems st'); [done|].
  simpl. lia.
Qed.

(** ** Moving *)

(** Draw a state in which the cursor has moved. *)
Lemma wp_redraw st w :
  inv st -> world_ok (maxX st) w ->
  wp printAllStatus (fun _ st' w' => inv st' /\ world_ok (maxX st') w' /\ keys w' = keys w) st w.
Proof.
  intros Hi Hw. assert (Hi' := Hi). destruct Hi' as [[_ _ _ Hn] Hc Hp].
  eapply wp_mono; [apply printAllStatus_spec; [by apply Hi|lia|done]|].
  intros _ st' w' (Hr & Hw' & Hk'). split; [by eapply redrawn_inv|done].
Qed.

Lemma set_cursor_inv st cursor pad :
  items_ok st -> 0 <= cursor < Z.of_nat (length (statusItems st)) -> 0 <= pad <= cursor ->
  inv (set_cursor cursor pad st).
Proof. intros [Hs ???] Hc Hp. split; [|done|done]. split; try done. by destruct Hs. Qed.

Lemma last_index_eq st :
  items_ok st -> last_index st = Z.of_nat (length (statusItems st)) - 1.
Proof.
  intros [_ Hne _ Hn]. unfold last_index. apply u64_small. destruct (statusItems st); [done|].
  simpl length in *. lia.
Qed.

Lemma moveOneRowUp_spec st w :
  inv st -> world_ok (maxX st) w ->
  wp moveOneRowUp (fun _ st' w' => inv st' /\ world_ok (maxX st') w' /\ keys w' = keys w) st w.
Proof.
  intros Hi Hw. unfold moveOneRowUp. apply wp_bind, wp_modify.
  assert (Hi' := Hi). destruct Hi' as [Hit Hc Hp].
  destruct (Z.ltb_spec 0 (cursorPosition st)); [|by apply wp_redraw].
  destruct (Z.leb_spec (cursorPosition st - 1) (padPos st)); apply wp_redraw; try done;
    apply set_cursor_inv; try done; lia.
Qed.

Lemma moveOneRowDown_spec st w :
  inv st -> world_ok (maxX st) w ->
  wp moveOneRowDown (fun _ st' w' => inv st' /\ world_ok (maxX st') w' /\ keys w' = keys w) st w.
Proof.
  intros Hi Hw. unfold moveOneRowDown. apply wp_bind, wp_modify.
  assert (Hi' := Hi). destruct Hi' as [Hit Hc Hp]. rewrite last_index_eq by done.
  rewrite u64_small by (destruct Hit; lia).
  destruct (Z.ltb_spec (cursorPosition st) (Z.of_nat (length (statusItems st)) - 1));
    [|by apply wp_redraw].
  destruct (Z.leb_spec (maxY st - bottomWindowSize + padPos st) (cursorPosition st + 1));
    apply wp_redraw; try done; apply set_cursor_inv; try done; lia.
Qed.

Lemma s32_id z : 0 <= z < 2 ^ 31 -> s32 z = z.
Proof.
  intros Hz. unfold s32. rewrite Z.mod_small by lia. by destruct (Z.ltb_spec z (2 ^ 31)); [|lia].
Qed.

Lemma moveToEnd_spec st w :
  inv st -> world_ok (maxX st) w ->
  wp moveToEnd (fun _ st' w' => inv st' /\ world_ok (maxX st') w' /\ keys w' = keys w) st w.
Proof.
  intros Hi Hw. unfold moveToEnd. apply wp_bind, wp_modify.
  assert (Hi' := Hi). destruct Hi' as [Hit Hc Hp]. rewrite last_index_eq by done.
  assert (Hit' := Hit). destruct Hit' as [[_ Hy] _ _ Hn]. rewrite !u64_small by lia.
  destruct (Z.ltb_spec (cursorPosition st) (Z.of_nat (length (statusItems st)) - 1));
    [|by apply wp_redraw].
  unfold bottomWindowSize.
  destruct (Z.ltb_spec (maxY st) (Z.of_nat (length (statusItems st)) - 1)) as [Hlt|];
    [rewrite (s32_id (u64 _)) by (rewrite u64_small; lia); rewrite u64_small by lia|];
    rewrite s32_id by lia; apply wp_redraw; try done; apply set_cursor_inv; try done; lia.
Qed.

(** ** Keys *)

Lemma wp_key x (Q : Z -> State -> world -> Prop) st w :
  world_ok x w ->
  (forall c w', world_ok x w' -> c <> "a"%cc -> c <> "u"%cc ->
     (S (length (keys w')) = length (keys w))%nat -> Q c st w') ->
  wp getch Q st w.
Proof.
  intros [Hk Ho Hp] HQ. apply wp_getch. intros c cs E. rewrite E in Hk.
  apply Forall_cons in Hk as [[Ha Hu] Hk]. apply HQ; [by split|done|done|]. by rewrite E.
Qed.

(** What a handler that is safe guarantees; it has read [n] keys. *)
Definition handled (n : nat) (st' : State) (w' : world) : Prop :=
  inv st' /\ world_ok (maxX st') w' /\ (length (keys w') <= n)%nat.

Lemma handled_mono {A} (m : M A) n st w :
  wp m (fun _ st' w' => inv st' /\ world_ok (maxX st') w' /\ keys w' = keys w) st w ->
  (length (keys w) <= n)%nat -> wp m (fun _ => handled n) st w.
Proof.
  intros H Hn. eapply wp_mono; [exact H|]. intros _ st' w' (Hi & Hw & Hk).
  split; [done|]. split; [done|]. by rewrite Hk.
Qed.

Lemma removeSelected_spec n st w :
  inv st -> world_ok (maxX st) w -> (length (keys w) <= n)%nat ->
  wp removeSelected (fun _ => handled n) st w.
Proof.
  intros Hi Hw Hn. unfold removeSelected. apply wp_bind, wp_get, wp_bind.
  apply (wp_key (maxX st)); [done|]. intros c w1 Hw1 _ _ Hk1. apply wp_bind.
  assert (Hrest : forall w', world_ok (maxX st) w' -> (length (keys w') <= n)%nat ->
    wp (modify (set_cursor 0 0);; refreshStatusItems) (fun _ => handled n) st w').
  { intros w' Hw' Hk'. apply wp_bind, wp_modify. apply handled_mono; [|done].
    apply refresh_top; try done. destruct Hi as [[[? ?] _ _ _] _ _]. by split. }
  destruct (c =? "y"%cc); [|apply wp_ret, Hrest; [done|lia]].
  apply wp_bind, (wp_key (maxX st)); [done|]. intros c2 w2 Hw2 _ _ Hk2.
  apply wp_bind, (wp_exec (maxX st)); [done|]. intros c3 out w3 _ Hw3 Hk3.
  apply wp_ret, Hrest; [done|]. rewrite Hk3. lia.
Qed.

Lemma toggleSelection_spec st w :
  inv st -> world_ok (maxX st) w ->
  wp toggleSelection (fun _ st' w' => inv st' /\ world_ok (maxX st') w' /\ keys w' = keys w) st w.
Proof.
  intros Hi Hw. unfold toggleSelection. apply wp_bind, wp_get, wp_bind.
  assert (Hi' := Hi). destruct Hi' as [[[? ?] ? ? ?] Hc Hp]. unfold status_item. apply wp_bind, wp_get.
  destruct (lookup_lt_is_Some_2 (statusItems st) (Z.to_nat (cursorPosition st))) as [item ->]; [lia|].
  destruct (Z.ltb_spec (cursorPosition st) 0); [lia|]. apply wp_ret, wp_bind, wp_modify.
  by destruct (bool_decide (item ∈ selectedItems st)); apply moveOneRowDown_spec.
Qed.

Lemma keyEvent_spec st w :
  inv st -> world_ok (maxX st) w ->
  wp keyEvent (fun _ st' w' => inv st' /\ world_ok (maxX st') w' /\
    (length (keys w') < length (keys w))%nat) st w.
Proof.
  intros Hi Hw. unfold keyEvent. apply wp_bind, (wp_key (maxX st)); [done|].
  intros c w1 Hw1 Ha Hu Hk1.
  apply (wp_mono _ (fun _ => handled (length (keys w1)))).
  2:{ intros _ st' w' (H1 & H2 & H3). split; [done|]. split; [done|lia]. }
  assert (Hsame : handled (length (keys w1)) st w1) by done.
  assert (Hscr : screen_ok st) by by destruct Hi as [[] _ _].
  assert (Htop : inv (set_cursor 0 0 st)).
  { destruct Hi as [? ? ?]. apply set_cursor_inv; [done|lia|lia]. }
  destruct (_ || _); [apply wp_modify; split; [by destruct Hi as [[[? ?] ? ? ?] ? ?]|done]|].
  destruct (c =? "j"%cc); [by apply handled_mono; [apply moveOneRowDown_spec|]|].
  destruct (c =? "k"%cc); [by apply handled_mono; [apply moveOneRowUp_spec|]|].
  destruct (c =? "G"%cc); [by apply handled_mono; [apply moveToEnd_spec|]|].
  destruct (c =? "g"%cc).
  { apply wp_bind, (wp_key (maxX st)); [done|]. intros c2 w2 Hw2 _ _ Hk2.
    destruct (c2 =? "g"%cc); [|apply wp_ret; split; [done|split; [done|lia]]].
    apply wp_bind, wp_modify. apply handled_mono; [by apply wp_redraw|lia]. }
  destruct (c =? "s"%cc).
  { apply wp_bind, wp_modify. apply handled_mono; [|done]. by apply refresh_top; try apply Htop. }
  destruct (Z.eqb_spec c "a"%cc); [done|].
  destruct (c =? "r"%cc); [by apply removeSelected_spec|].
  destruct (Z.eqb_spec c "u"%cc); [done|].
  destruct (c =? " "%cc); [by apply handled_mono; [apply toggleSelection_spec|]|].
  destruct (c =? "."%cc); [apply wp_modify; split; [by destruct Hi as [[[? ?] ? ? ?] ? ?]|done]|].
  by apply wp_ret.
Qed.

(** ** The whole program *)

Lemma event_loop_spec fuel st w :
  inv st -> world_ok (maxX st) w -> (length (keys w) < fuel)%nat ->
  wp (event_loop fuel) (fun _ st' w' => inv st' /\ world_ok (maxX st') w' /\ isRunning st' = false) st w.
Proof.
  revert st w. induction fuel as [|fuel IH]; intros st w Hi Hw Hf; [lia|].
  cbn [event_loop]. apply wp_bind, wp_get. destruct (isRunning st) eqn:Hrun; [|by apply wp_ret].
  apply wp_bind. eapply wp_mono; [by apply keyEvent_spec|].
  intros _ st' w' (Hi' & Hw' & Hk'). apply IH; [done|done|lia].
Qed.

Lemma main_spec fuel x y w :
  8 <= x -> 10 <= y < 2 ^ 30 -> world_ok x w -> (length (keys w) < fuel)%nat ->
  wp (main fuel) (fun _ st' w' => inv st' /\ world_ok (maxX st') w' /\ isRunning st' = false)
    (initial_state x y) w.
Proof.
  intros Hx Hy Hw Hf. unfold main. apply wp_bind.
  eapply wp_mono; [by apply (refresh_top (initial_state x y))|].
  intros _ st' w' (Hi & Hw' & Hk'). apply event_loop_spec; [done|done|]. by rewrite Hk'.
Qed.

End Facts.

(** * The properties of the terminal front end

    The safety of the program of [Curses] for the inputs it was written for,
    and what it does on others. *)

(** C40: on a screen of at least 8 columns and 10 rows, as long as every
    output of a command is not empty, fits the columns and contains no percent
    sign, and neither [a] nor [u] is pressed, the program runs without an
    exception and without undefined behaviour, each round of its loop reads a
    key, and when it ends the cursor is on an item and every text on the pad
    fills a row. *)
Theorem main_safe `{BS : BoostStrings} fuel x y w :
  8 <= x -> 10 <= y < 2 ^ 30 -> world_ok x w -> (length (keys w) < fuel)%nat ->
  match main fuel (initial_state x y) w with
  | Done _ st' w' => inv st' /\ world_ok (maxX st') w' /\ isRunning st' = false
  | Waiting w' => keys w' = [] \/ outputs w' = []
  | Failed _ _ | OutOfFuel => False
  end.
Proof. apply main_spec. Qed.

(** The string algorithms, for the examples. *)
Fixpoint split_lines (s : bytes) : list bytes :=
  match s with
  | [] => [[]]
  | c :: s =>
      match split_lines s with
      | line :: lines => if c =? 10 then [] :: line :: lines else (c :: line) :: lines
      | [] => []
      end
  end.

Lemma split_lines_spec s :
  split_lines s <> [] /\ Forall (fun line => 10 ∉ line) (split_lines s) /\
  intersperse [10] (split_lines s) = s.
Proof.
  induction s as [|c s (Hne & Hcut & Hall)]; cbn [split_lines].
  { split_and!; [done| |done]. apply Forall_singleton, not_elem_of_nil. }
  destruct (split_lines s) as [|line lines]; [done|]. destruct (Z.eqb_spec c 10) as [->|Hc].
  - split_and!; [done| |].
    + constructor; [apply not_elem_of_nil|done].
    + change (intersperse [10] ([] :: line :: lines)) with (10 :: intersperse [10] (line :: lines)).
      by rewrite Hall.
  - apply Forall_cons in Hcut as [H1 H2]. split_and!; [done| |].
    + constructor; [by apply not_elem_of_cons|done].
    + destruct lines; simpl in *; by rewrite Hall.
Qed.

#[export] Instance boost_strings : BoostStrings.
Proof.
  refine {| boost_split_lines := split_lines; boost_join items sep := intersperse sep items |}.
  - intros s. by destruct (split_lines_spec s).
  - intros s. by destruct (split_lines_spec s) as (_ & ? & _).
  - intros s. by destruct (split_lines_spec s) as (_ & _ & ?).
  - done.
Defined.

(** A world for the examples. *)
Definition session (input : string) (svn_outputs : list string) : world :=
  mk_world (cstr input) (map (fun s => Some (cstr s ++ [10])) svn_outputs) [] [].

Lemma session_ok : world_ok 30 (session "j k.gq" ["?       new.txt"]).
Proof.
  split; [by_evaluation| |by_evaluation]. repeat constructor; simpl; try lia; by_evaluation.
Qed.

Lemma main_safe_witness :
  match main 10 (initial_state 30 24) (session "j k.gq" ["?       new.txt"]) with
  | Done _ st' w' => inv st' /\ world_ok (maxX st') w' /\ isRunning st' = false
  | Waiting w' => keys w' = [] \/ outputs w' = []
  | Failed _ _ | OutOfFuel => False
  end.
Proof. apply main_safe; [lia|lia|exact session_ok|simpl; lia]. Defined.

(** ** Observations *)

(** The outputs of commands, as lists of lines. *)
Definition session_lines (input : string) (svn_outputs : list (list string)) : world :=
  mk_world (cstr input)
    (map (fun ls => Some (concat (map (fun s => cstr s ++ [10]) ls))) svn_outputs) [] [].

Definition failure_of {A} (o : outcome A) : option failure :=
  match o with Failed f _ => Some f | _ => None end.

Definition run_session (input : string) (svn_outputs : list (list string)) : outcome unit :=
  main 20 (initial_state 20 15) (session_lines input svn_outputs).

(** A clean working copy: [svn st] prints nothing. *)
Example clean_working_copy : failure_of (run_session "q" [[]]) = Some UNDEFINED.
Proof. by vm_compute. Qed.

(** A line that is longer than the screen is wide. *)
Example long_line :
  failure_of (run_session "q" [["M       a/long/path.c"]]) = Some LENGTH_ERROR.
Proof. by vm_compute. Qed.

(** A percent sign in a file name. *)
Example percent_sign : failure_of (run_session "q" [["?       100%.txt"]]) = Some UNDEFINED.
Proof. by vm_compute. Qed.

(** [a] does not move the cursor: there are fewer items than before. *)
Example cursor_after_add :
  failure_of (run_session "Gan q" [["M       a"; "M       b"; "M       c"]; ["M       a"]]) =
    Some UNDEFINED.
Proof. by vm_compute. Qed.

(** The names are part of a shell command: this runs [reboot]. *)
Example shell_command :
  match run_session " ay" [["?       a;reboot"]; ["A       a"]; ["A       a"]] with
  | Waiting w => commands w = [cstr "svn st"; cstr "svn add  a;reboot    "; cstr "svn st"]
  | _ => False
  end.
Proof. by vm_compute. Qed.

(** [G] with more items than the pad has rows, but not more than the screen
    has: the pad still starts with the first item, and its 7 rows end before
    the cursor. *)
Example end_not_visible :
  match run_session "G." [replicate 12 "M       a"] with
  | Waiting w => length (pad w) = 12%nat /\ (color_pair <$> pad w !! 11%nat) = Some 6
  | _ => False
  end.
Proof. by vm_compute. Qed.
